(* ===== verification/_CoqProject ===== *)
-Q . S2P
Prelude.v
DirtyTracker.v
Virtqueue.v
Transport.v
Scatter.v
Rng.v
Blk.v
Balloon.v
Net.v
Vsock.v
IPAlloc.v
Budget.v
Pool.v
Refiller.v
PoolSystem.v
Uart.v
Chips.v
Stream.v
ToolboxExec.v
GuestExec.v
Seccomp.v
Mptable.v
Hotplug.v
Events.v
SnapshotMem.v
Lifecycle.v
Fdt.v
Acpi.v
RuntimeCfg.v
Patch.v
Loader.v
LongMode.v
Boot.v
Slirp.v
Migration.v
Layer.v
Warmpool.v
Ext4.v
Preview.v
GoText.v
Compose.v
StackNet.v
FcApi.v
Preboot.v
Dockerfile.v
DockerPlan.v
WarmCache.v
SpecJson.v
Templates.v
Sandboxd.v
