(* ===== verification/Prelude.v ===== *)
(** * A verification of gocracker

    gocracker is a virtual machine monitor for small Linux guests, with a service
    that keeps sandboxes warm.  This library is a shallow embedding of its core:
    Go functions are Rocq functions on the data of the source, state is passed
    explicitly, and the theorems are about those functions.

    ** How Go is modelled

    An operation that can fail returns [res E A]: [Ok], the source's errors [Err],
    [Panic] for an index or a slice out of range (every such expression is a
    [must]), and [NoFuel] for a loop that was cut short.  Fixed-width integers are
    [Z] with the wrap-around written out ([u8] ... [u64], [i64]); bytes are [Z] in
    [0, 255] ([bytes]); a buffer, a file or guest memory is the list of its bytes.
    Maps are [gmap]s; objects that several owners point to live in a heap of the
    model, so that aliasing is visible.  A section under one lock is one atomic
    step; concurrent code is a step function or relation over such sections, and
    its theorems are about every sequence of steps.  A [select], a map iteration
    or a set of goroutines whose order is not fixed is an argument that is
    quantified over.  Host system calls, KVM, the clock and third-party packages
    are parameters: what they return may be anything, unless a hypothesis of the
    theorem says what is relied on.

    Fuel appears where a loop is not structural (descriptor chains, checksums,
    options, base64, commands).  It is always a bound that the code itself
    implies (the maximum chain length, the length of the buffer, three rounds for
    a 32-bit carry), and the theorems state that the result is [Ok], never
    "if it returns": [NoFuel] is excluded, as [Panic] is.

    ** Parts and files

    The guest's side of the machine, bottom up:
    - [DirtyTracker] (src/internal/virtio/dirty.go): pages written by devices.
    - [Virtqueue], [Transport], [Scatter] (src/internal/virtio/virtio.go): rings in
      guest memory, and the register file between driver and device.  Class
      [Device] is the interface a device implements; the transport's theorems are
      proved against it, and each device file has its instance.
    - [Rng], [Blk], [Balloon], [Net] (src/internal/virtio), [Vsock]
      (src/internal/vsock): the devices.
    - [Uart], [Chips] (src/internal/uart, i8042, pl011, rtc): serial ports,
      keyboard controller, clock.
    - [Slirp] (src/internal/slirp): the user-mode network behind virtio-net.
    Booting a guest:
    - [Fdt] (src/internal/fdt, arm64layout), [Acpi] (src/internal/acpi), [Mptable]
      (src/internal/mptable): the descriptions of the machine.
    - [Patch]: sequences of stores, used by the three that follow.
    - [Loader] (src/internal/loader), [LongMode] (src/internal/kvm/cpu.go),
      [Boot] (finishLoadKernel of src/pkg/vmm/vmm.go): the kernel, its boot
      parameters, the vCPUs' tables and registers.
    - [RuntimeCfg] (src/internal/runtimecfg): what the guest is to run, on the
      kernel command line.
    The machine on the host:
    - [Lifecycle], [SnapshotMem] (src/pkg/vmm/vmm.go), [Events], [Hotplug]
      (src/pkg/vmm): start, pause, stop, snapshots, events, memory.
    - [Migration] (src/pkg/vmm/migration.go): pre-copy rounds, dirty logs and the
      transfer of a running machine.
    - [Seccomp] (src/internal/seccomp): the system-call filters.
    - [Warmpool] (src/pkg/warmpool): worker processes kept ready.
    - [FcApi], [Preboot] (src/internal/firecrackerapi, the pre-boot handlers of
      src/internal/api): what a machine may be configured with before it starts.
    Images:
    - [Layer] (src/internal/oci/oci.go): extraction of image layers below a root
      directory, with symbolic links and white-outs.
    - [Ext4] (src/internal/oci/oci.go): growing a disk image to its requested size.
    - [Dockerfile], [DockerPlan] (src/internal/dockerfile): instructions, variables,
      stages, mounts, and which stages a build needs.
    Stacks of services:
    - [GoText]: the functions of Go's strings and strconv that they use.
    - [Compose] (src/internal/compose): order of services, conditions on
      dependencies, health checks.
    - [StackNet] (src/internal/compose/compose.go, src/internal/stacknet): subnet
      and addresses of a stack.
    Talking to a process in the guest:
    - [Stream], [ToolboxExec] (src/internal/toolbox), [GuestExec]
      (src/internal/guestexec): the wire protocols, both ends.
    The sandbox service (src/sandboxes/internal):
    - [IPAlloc], [Budget], [Pool], [Refiller] (pool): the warm pool's parts.
    - [PoolSystem]: their interleaved execution.
    - [Preview] (preview, sandboxd/preview.go): signed links to a port of a sandbox.
    - [WarmCache] (src/pkg/warmcache, src/pkg/container/warmcache.go): snapshots kept
      on disk by several processes, found by the parameters of a machine.
    - [SpecJson], [Templates] (templates): specifications and the hash of their JSON
      text; the registry and concurrent builds of templates.
    - [Sandboxd] (sandboxd): sandboxes that are booted, leased, recycled and deleted
      by concurrent requests, and where every machine is.

    ** What the theorems show

    - Guest isolation: whatever a driver writes to registers and rings, the
      transport and every device stay in guest memory, never panic and keep their
      invariants ([Transport], [Virtqueue], [Blk], [Vsock], [Balloon]); any
      bytes that arrive from a guest or over a connection are handled
      ([GuestExec], [Slirp], [Loader]).
    - Functional correctness of the devices: block requests move exactly the bytes
      of the image, packets are delivered whole, serial ports are streams, the
      dirty bitmap is exactly the pages written in an epoch.
    - Tables and protocols against readers written from their specifications:
      device tree, ACPI and its byte code, MP table, boot parameters, page tables,
      Ethernet/ARP/IPv4/ICMP/UDP/DHCP with checksums, exec frames; the reader finds
      what was configured.
    - Concurrency: pausing quiesces all vCPUs, stopping terminates, no sandbox is
      leased twice, the refiller respects its caps, output of a command is
      delivered whole before its exit code.
    - Live migration delivers the memory of the paused machine whatever was written
      during the rounds before ([Migration]).
    - Untrusted images: no entry of a layer leaves the root ([Layer]); a grown image
      keeps its data ([Ext4]).
    - Builds: a stage is built exactly when the target needs it, leaving out the
      others does not change the result, and commands see the environment that the
      instructions before them set ([DockerPlan], [Dockerfile]).
    - Stacks: services start after what they depend on is in the state they ask for;
      cycles are refused; addresses are distinct and subnets free ([Compose],
      [StackNet]).
    - The pre-boot server starts a machine only with a configuration its validators
      accept, and a refused request changes nothing ([Preboot]).
    - A preview link is honoured only for the sandbox and port it was signed for and
      until it expires ([Preview]).
    - A snapshot that is found was captured whole, from a machine with the same
      parameters ([WarmCache]); templates have the same hash exactly when they are
      equal ([SpecJson]), no template is built twice, and a ready one carries the
      snapshot of its own specification ([Templates]).
    - Every machine of the sandbox manager is in one place, and none is dropped when
      requests do not hit a sandbox that is still being made ([Sandboxd]).
    - Where the code does not do what it says, a lemma shows the execution
      ([acquire_wait_lost_wakeup], [repause_times_out], [cache_keys_collide],
      [delete_while_booting_drops] and the others).
    ** Not modelled

    The command line tools (src/cmd), the decoding and forwarding of HTTP requests
    (src/internal/api beyond the pre-boot handlers, vmmserver, buildserver, sandboxd's
    routes, mcp, the client libraries), fetching of images from registries, execution
    of build commands, process and namespace set-up (jailer, worker, container,
    hostnet, guest init), and the KVM system calls themselves: mostly calls into the
    operating system or third-party packages, in which little is decided by this
    repository's code.  Rate limiters use floating-point time arithmetic and only
    delay.  virtio-fs hands its queues to an external process (vhost-user).
    Restoring a machine from a snapshot is modelled per device (register and queue
    state), not as a whole. *)
From stdpp Require Export prelude.
From stdpp Require Export gmap strings.
From Stdlib Require Export ZArith Lia.

#[global] Open Scope Z_scope.
#[global] Set Default Goal Selector "!".

(** ** Notations for Go's bit operators *)

Declare Scope go_scope.
Delimit Scope go_scope with go.
Notation "a .& b" := (Z.land a b) (at level 42, left associativity) : go_scope.
Notation "a .| b" := (Z.lor a b) (at level 44, left associativity) : go_scope.
Notation "a .&^ b" := (Z.ldiff a b) (at level 42, left associativity) : go_scope.
Notation "a .<< b" := (Z.shiftl a b) (at level 41, left associativity) : go_scope.
Notation "a .>> b" := (Z.shiftr a b) (at level 41, left associativity) : go_scope.
#[global] Open Scope go_scope.

(** ** Go's outcomes

    A Go call returns a value, returns an error, or panics (an index out of
    range, a division by zero).  [NoFuel] is the fourth outcome of a loop that
    is modelled with fuel; every loop comes with a lemma that excludes it. *)
Inductive res (E A : Type) : Type :=
  | Ok (a : A)
  | Err (e : E)
  | Panic
  | NoFuel.
Arguments Ok {E A} a.
Arguments Err {E A} e.
Arguments Panic {E A}.
Arguments NoFuel {E A}.

#[export] Instance res_ret E : MRet (res E) := fun A a => Ok a.
#[export] Instance res_bind E : MBind (res E) := fun A B f m =>
  match m with
  | Ok a => f a
  | Err e => Err e
  | Panic => Panic
  | NoFuel => NoFuel
  end.

(** Indexing and slicing of Go values: [None] is a run-time panic. *)
Definition must {E A} (o : option A) : res E A :=
  match o with Some a => Ok a | None => Panic end.

(** A call whose error the caller discards ([_ = f()]) or logs. *)
Definition swallow {E F A} (dflt : A) (m : res E A) : res F A :=
  match m with
  | Ok a => Ok a
  | Err _ => Ok dflt
  | Panic => Panic
  | NoFuel => NoFuel
  end.

(** The value of a call that is known to succeed. *)
Definition value_or {E A} (dflt : A) (m : res E A) : A :=
  match m with Ok a => a | _ => dflt end.

(** The call completes: it neither panics nor runs out of fuel. *)
Definition completes {E A} (m : res E A) : Prop :=
  match m with Ok _ | Err _ => True | Panic | NoFuel => False end.

(** [completes] and the value, if any, satisfies [P]. *)
Definition res_sat {E A} (P : A → Prop) (m : res E A) : Prop :=
  match m with Ok a => P a | Err _ => True | Panic | NoFuel => False end.

(** ** Machine integers, as [Z] with the wrap-around written out *)
Definition u8 (z : Z) : Z := z mod 2 ^ 8.
Definition u16 (z : Z) : Z := z mod 2 ^ 16.
Definition u32 (z : Z) : Z := z mod 2 ^ 32.
Definition u64 (z : Z) : Z := z mod 2 ^ 64.
Definition i32 (z : Z) : Z := (z + 2 ^ 31) mod 2 ^ 32 - 2 ^ 31.
Definition i64 (z : Z) : Z := (z + 2 ^ 63) mod 2 ^ 64 - 2 ^ 63.

(** [x fits n] when it is an unsigned [n]-bit integer. *)
Definition fits (n z : Z) : Prop := 0 ≤ z < 2 ^ n.
Definition fitsb (n z : Z) : bool := (0 <=? z) && (z <? 2 ^ n).

(** [flags & bit != 0] *)
Definition has (flags bit : Z) : bool := negb (flags .& bit =? 0).

Definition boolZ (b : bool) : Z := if b then 1 else 0.

(** ** Byte slices *)
Definition zlen {A} (l : list A) : Z := Z.of_nat (length l).

Definition is_byte (b : Z) : Prop := 0 ≤ b < 256.
Definition bytes (l : list Z) : Prop := Forall is_byte l.

(** [l[lo:hi]]; Go panics unless [0 <= lo <= hi <= len l]. *)
Definition slice {A} (l : list A) (lo hi : Z) : option (list A) :=
  if (0 <=? lo) && (lo <=? hi) && (hi <=? zlen l)
  then Some (take (Z.to_nat (hi - lo)) (drop (Z.to_nat lo) l))
  else None.

(** [copy(l[o:o+len bs], bs)] *)
Definition splice {A} (l : list A) (o : Z) (bs : list A) : option (list A) :=
  if (0 <=? o) && (o + zlen bs <=? zlen l)
  then Some (take (Z.to_nat o) l ++ bs ++ drop (Z.to_nat o + length bs) l)
  else None.

(** [l[i]] for a Go index. *)
Definition at_ {A} (l : list A) (i : Z) : option A :=
  if 0 <=? i then l !! Z.to_nat i else None.

(** [l[i] = x] for a Go index. *)
Definition set_at {A} (l : list A) (i : Z) (x : A) : option (list A) :=
  if (0 <=? i) && (i <? zlen l) then Some (<[Z.to_nat i := x]> l) else None.

(** encoding/binary's little- and big-endian codecs. *)
Fixpoint le_decode (bs : list Z) : Z :=
  match bs with
  | [] => 0
  | b :: bs => b + 256 * le_decode bs
  end.

Fixpoint le_encode (n : nat) (v : Z) : list Z :=
  match n with
  | O => []
  | S n => v mod 256 :: le_encode n (v / 256)
  end.

Definition be_decode (bs : list Z) : Z := le_decode (reverse bs).
Definition be_encode (n : nat) (v : Z) : list Z := reverse (le_encode n v).

(** [binary.LittleEndian.UintN(l[o:])] with [n] bytes. *)
Definition getLE (n : nat) (l : list Z) (o : Z) : option Z :=
  le_decode <$> slice l o (o + Z.of_nat n).

(** [binary.LittleEndian.PutUintN(l[o:], v)] with [n] bytes. *)
Definition putLE (n : nat) (l : list Z) (o v : Z) : option (list Z) :=
  splice l o (le_encode n v).

(** [f.WriteAt(bs, offset)]: the file grows as needed. *)
Definition writeAt (file : list Z) (offset : Z) (bs : list Z) : list Z :=
  let o := Z.to_nat offset in
  take o (file ++ replicate (o - length file) 0) ++ bs ++ drop (o + length bs) file.

(** ** Counted loops

    [for_each f xs s] runs [f x] for the [x] of [xs] in order, threading the
    state. *)
Fixpoint for_each {E X St} (f : X → St → res E St) (xs : list X) (s : St) : res E St :=
  match xs with
  | [] => Ok s
  | x :: xs => s ← f x s; for_each f xs s
  end.

(** The same with [break]: an iteration says whether to go on. *)
Fixpoint for_break {E X St} (f : X → St → res E (bool * St)) (xs : list X) (s : St) : res E St :=
  match xs with
  | [] => Ok s
  | x :: xs => '(go, s) ← f x s; if (go : bool) then for_break f xs s else Ok s
  end.

(** A call whose error the caller branches on: [if err := f(); err != nil]. *)
Definition attempt {E F A} (m : res E A) : res F (option A) :=
  match m with
  | Ok a => Ok (Some a)
  | Err _ => Ok None
  | Panic => Panic
  | NoFuel => NoFuel
  end.

(** ** Tactics *)

(** Turn boolean comparisons in the context into arithmetic ones. *)
Ltac b2p :=
  repeat match goal with
  | H : _ && _ = true |- _ => apply andb_true_iff in H; destruct H
  | H : _ || _ = false |- _ => apply orb_false_iff in H; destruct H
  | H : negb _ = true |- _ => apply negb_true_iff in H
  | H : negb _ = false |- _ => apply negb_false_iff in H
  | H : (_ <=? _) = true |- _ => apply Z.leb_le in H
  | H : (_ <=? _) = false |- _ => apply Z.leb_gt in H
  | H : (_ <? _) = true |- _ => apply Z.ltb_lt in H
  | H : (_ <? _) = false |- _ => apply Z.ltb_ge in H
  | H : (_ =? _) = true |- _ => apply Z.eqb_eq in H
  | H : (_ =? _) = false |- _ => apply Z.eqb_neq in H
  end.

(** Split on the conditions of [if]s and [match]es until none is left. *)
Ltac cases := repeat (case_match; b2p; simplify_eq/=).

(** Split conjunctions without unfolding definitions. *)
Ltac splits := repeat match goal with |- _ ∧ _ => split end.

(** Take a monadic computation that returned [Ok] apart. *)
Ltac run H :=
  repeat match type of H with
  | mbind _ ?m = _ => let E := fresh "E" in destruct m eqn:E; simpl in H; try discriminate H
  | (match ?m with _ => _ end) = _ => let E := fresh "E" in destruct m eqn:E; simpl in H; try discriminate H
  end.

(** Equality of boolean combinations of comparisons. *)
Ltac blia :=
  apply Bool.eq_true_iff_eq;
  rewrite ?orb_true_iff, ?andb_true_iff, ?negb_true_iff, ?Z.leb_le, ?Z.ltb_lt, ?Z.eqb_eq,
    ?Z.leb_gt, ?Z.ltb_ge, ?Z.eqb_neq;
  intuition (try discriminate; try lia).

(** Give a boolean condition of the goal the value it has. *)
Ltac and_is b := match goal with |- context [?x && ?y] => replace (x && y) with b by (blia || lia) end.
Ltac or_is b := match goal with |- context [?x || ?y] => replace (x || y) with b by (blia || lia) end.
Ltac lt_is b := match goal with |- context [?x <? ?y] => replace (x <? y) with b by lia end.
Ltac le_is b := match goal with |- context [?x <=? ?y] => replace (x <=? y) with b by lia end.
Ltac eq_is b := match goal with |- context [?x =? ?y] => replace (x =? y) with b by lia end.

Create HintDb go discriminated.
#[export] Hint Constants Transparent : go.
#[export] Hint Constructors Forall : go.
Create Rewrite HintDb go_len.

(** ** Lemmas on outcomes *)

Lemma bind_Ok {E A B} (m : res E A) (f : A → res E B) b :
  m ≫= f = Ok b ↔ ∃ a, m = Ok a ∧ f a = Ok b.
Proof. destruct m; simpl; naive_solver. Qed.

Lemma value_or_Ok {E A} (d : A) (m : res E A) :
  match m with Ok _ => true | _ => false end = true → m = Ok (value_or d m).
Proof. by destruct m. Qed.

Lemma completes_bind {E A B} (m : res E A) (f : A → res E B) :
  completes m → (∀ a, m = Ok a → completes (f a)) → completes (m ≫= f).
Proof. destruct m; simpl; naive_solver. Qed.

Lemma completes_swallow {E F A} d (m : res E A) :
  completes m → completes (swallow (F:=F) d m).
Proof. by destruct m. Qed.

Lemma completes_must {E A} (o : option A) : is_Some o → completes (must (E:=E) o).
Proof. intros [? ->]. done. Qed.

Lemma res_sat_bind {E A B} (P : A → Prop) (Q : B → Prop) (m : res E A) (f : A → res E B) :
  res_sat P m → (∀ a, m = Ok a → P a → res_sat Q (f a)) → res_sat Q (m ≫= f).
Proof. destruct m; simpl; naive_solver. Qed.

Lemma sat_bind_completes {E A B} (Q : B → Prop) (m : res E A) (f : A → res E B) :
  completes m → (∀ a, m = Ok a → res_sat Q (f a)) → res_sat Q (m ≫= f).
Proof. destruct m; simpl; naive_solver. Qed.

Lemma sat_bind_must {E A B} (Q : B → Prop) (o : option A) (f : A → res E B) :
  is_Some o → (∀ a, o = Some a → res_sat Q (f a)) → res_sat Q (must o ≫= f).
Proof. intros [a ->] H. simpl. auto. Qed.

Lemma completes_sat {E A} (m : res E A) : completes m ↔ res_sat (λ _, True) m.
Proof. by destruct m. Qed.

Lemma res_sat_swallow {E F A} (P : A → Prop) d (m : res E A) :
  res_sat P m → P d → res_sat P (swallow (F:=F) d m).
Proof. destruct m; simpl; naive_solver. Qed.

Lemma res_sat_completes {E A} (P : A → Prop) (m : res E A) : res_sat P m → completes m.
Proof. destruct m; simpl; naive_solver. Qed.

Lemma res_sat_mono {E A} (P Q : A → Prop) (m : res E A) :
  res_sat P m → (∀ a, P a → Q a) → res_sat Q m.
Proof. destruct m; simpl; naive_solver. Qed.

Lemma res_sat_Ok {E A} (P : A → Prop) (m : res E A) a : res_sat P m → m = Ok a → P a.
Proof. intros H ->. done. Qed.

(** A loop keeps what every iteration keeps. *)
Lemma for_each_sat {E X St} (P : St → Prop) (f : X → St → res E St) xs s :
  (∀ x s, x ∈ xs → P s → res_sat P (f x s)) → P s → res_sat P (for_each f xs s).
Proof.
  revert s. induction xs as [|x xs IH]; intros s Hf Hs; simpl; [done|].
  eapply res_sat_bind.
  - apply Hf; [set_solver|done].
  - intros a _ Ha. apply IH; [|done]. intros y s' Hy. apply Hf. set_solver.
Qed.

Lemma for_break_sat {E X St} (P : St → Prop) (f : X → St → res E (bool * St)) xs s :
  (∀ x s, x ∈ xs → P s → res_sat (λ p, P p.2) (f x s)) → P s → res_sat P (for_break f xs s).
Proof.
  revert s. induction xs as [|x xs IH]; intros s Hf Hs; simpl; [done|].
  eapply res_sat_bind.
  - apply Hf; [set_solver|done].
  - intros [go a] _ Ha. simpl in Ha. destruct go; [|done].
    apply IH; [|done]. intros y s' Hy. apply Hf. set_solver.
Qed.

Lemma attempt_sat {E F A} (P : A → Prop) (m : res E A) :
  res_sat P m → res_sat (λ o, match o with Some a => P a | None => True end) (attempt (F:=F) m).
Proof. by destruct m. Qed.

Lemma attempt_Some {E F A} (m : res E A) a : attempt (F:=F) m = Ok (Some a) ↔ m = Ok a.
Proof. destruct m; simpl; naive_solver. Qed.

Lemma for_each_app {E X St} (f : X → St → res E St) xs ys s :
  for_each f (xs ++ ys) s = (s ← for_each f xs s; for_each f ys s).
Proof.
  revert s. induction xs as [|x xs IH]; intros s; simpl; [done|].
  destruct (f x s); simpl; auto.
Qed.

(** ** Lemmas on integers *)

Lemma u16_range z : 0 ≤ u16 z < 65536.
Proof. apply Z.mod_pos_bound. lia. Qed.
Lemma u32_range z : 0 ≤ u32 z < 2 ^ 32.
Proof. apply Z.mod_pos_bound. lia. Qed.
Lemma u64_range z : 0 ≤ u64 z < 2 ^ 64.
Proof. apply Z.mod_pos_bound. lia. Qed.
Lemma u8_range z : 0 ≤ u8 z < 256.
Proof. apply Z.mod_pos_bound. lia. Qed.

Lemma u16_small z : 0 ≤ z < 2 ^ 16 → u16 z = z.
Proof. apply Z.mod_small. Qed.
Lemma u32_small z : 0 ≤ z < 2 ^ 32 → u32 z = z.
Proof. apply Z.mod_small. Qed.
Lemma u64_small z : 0 ≤ z < 2 ^ 64 → u64 z = z.
Proof. apply Z.mod_small. Qed.
Lemma u8_small z : 0 ≤ z < 2 ^ 8 → u8 z = z.
Proof. apply Z.mod_small. Qed.

Lemma fitsb_spec n z : fitsb n z = true ↔ fits n z.
Proof. unfold fitsb, fits. rewrite andb_true_iff, Z.leb_le, Z.ltb_lt. lia. Qed.

#[export] Instance fits_dec n z : Decision (fits n z).
Proof. unfold fits. apply _. Defined.
#[export] Instance is_byte_dec z : Decision (is_byte z).
Proof. unfold is_byte. apply _. Defined.

(** Bitwise operations stay within a width. *)
Lemma fits_bits n z : 0 ≤ n → 0 ≤ z → (∀ i, n ≤ i → Z.testbit z i = false) → fits n z.
Proof.
  intros Hn Hz Hb. split; [done|].
  destruct (decide (z = 0)) as [->|]; [lia|].
  apply Z.log2_lt_pow2; [lia|].
  destruct (Z.lt_ge_cases (Z.log2 z) n) as [|Hge]; [done|].
  pose proof (Hb _ Hge) as Hf. rewrite Z.bit_log2 in Hf by lia. done.
Qed.

Lemma fits_testbit n z i : fits n z → n ≤ i → Z.testbit z i = false.
Proof.
  intros [Hz Hlt] Hi. destruct (decide (z = 0)) as [->|]; [apply Z.testbit_0_l|].
  apply Z.bits_above_log2; [lia|]. apply Z.lt_le_trans with n; [|done].
  apply Z.log2_lt_pow2; lia.
Qed.

Lemma fits_nonneg n z : fits n z → 0 ≤ n.
Proof.
  intros [Hz Hlt]. destruct (Z.lt_ge_cases n 0) as [Hn|]; [|done].
  rewrite Z.pow_neg_r in Hlt by done. lia.
Qed.

Lemma fits_lor n a b : fits n a → fits n b → fits n (a .| b).
Proof.
  intros Ha Hb. apply fits_bits.
  - by eapply fits_nonneg.
  - apply Z.lor_nonneg. split; [apply Ha|apply Hb].
  - intros i Hi. by rewrite Z.lor_spec, (fits_testbit n a), (fits_testbit n b).
Qed.

Lemma fits_land n a b : fits n a → 0 ≤ b → fits n (a .& b).
Proof.
  intros Ha Hb. apply fits_bits.
  - by eapply fits_nonneg.
  - apply Z.land_nonneg. auto.
  - intros i Hi. by rewrite Z.land_spec, (fits_testbit n a).
Qed.

Lemma fits_ldiff n a b : fits n a → fits n (a .&^ b).
Proof.
  intros Ha. apply fits_bits.
  - by eapply fits_nonneg.
  - apply Z.ldiff_nonneg. left. apply Ha.
  - intros i Hi. by rewrite Z.ldiff_spec, (fits_testbit n a).
Qed.

Lemma fits_u8 z : fits 8 (u8 z). Proof. apply u8_range. Qed.
Lemma fits_u16 z : fits 16 (u16 z). Proof. apply u16_range. Qed.
Lemma fits_u32 z : fits 32 (u32 z). Proof. apply u32_range. Qed.
Lemma fits_u64 z : fits 64 (u64 z). Proof. apply u64_range. Qed.

Lemma fits_mono n m z : fits n z → n ≤ m → fits m z.
Proof.
  intros Hf Hm. pose proof (fits_nonneg _ _ Hf). destruct Hf. split; [done|].
  eapply Z.lt_le_trans; [done|]. apply Z.pow_le_mono_r; lia.
Qed.

#[export] Hint Resolve fits_lor fits_land fits_ldiff fits_u8 fits_u16 fits_u32 fits_u64 : go.

(** The low and high halves of a 64-bit register written separately. *)
Lemma merge_halves lo hi : fits 32 lo → lo .| (hi .<< 32) = lo + hi * 2 ^ 32.
Proof.
  intros Hlo. rewrite Z.shiftl_mul_pow2 by lia.
  rewrite <- Z.lxor_lor, Z.add_nocarry_lxor; [done|..];
    (apply Z.bits_inj'; intros i Hi; rewrite Z.land_spec, Z.bits_0;
     destruct (Z.lt_ge_cases i 32);
     [ rewrite Z.mul_pow2_bits_low by done; apply andb_false_r
     | by rewrite (fits_testbit 32 lo) ]).
Qed.

(** ** Lemmas on slices *)

Lemma zlen_nonneg {A} (l : list A) : 0 ≤ zlen l.
Proof. unfold zlen. lia. Qed.
Lemma zlen_app {A} (l k : list A) : zlen (l ++ k) = zlen l + zlen k.
Proof. unfold zlen. rewrite length_app. lia. Qed.
Lemma zlen_cons {A} (x : A) l : zlen (x :: l) = 1 + zlen l.
Proof. unfold zlen. simpl. lia. Qed.
Lemma zlen_nil {A} : zlen (A:=A) [] = 0.
Proof. done. Qed.
Lemma zlen_0 {A} (l : list A) : zlen l = 0 → l = [].
Proof. destruct l; [done|]. rewrite zlen_cons. pose proof (zlen_nonneg l). lia. Qed.
Lemma zlen_reverse {A} (l : list A) : zlen (reverse l) = zlen l.
Proof. unfold zlen. by rewrite length_reverse. Qed.
#[export] Hint Rewrite @zlen_app @zlen_cons @zlen_nil @zlen_reverse : go_len.

Lemma slice_Some {A} (l : list A) lo hi r :
  slice l lo hi = Some r ↔
  (0 ≤ lo ≤ hi ∧ hi ≤ zlen l) ∧ r = take (Z.to_nat (hi - lo)) (drop (Z.to_nat lo) l).
Proof.
  unfold slice. split.
  - intros H. case_match; b2p; simplify_eq. split; [lia|done].
  - intros [H ->]. by replace ((0 <=? lo) && (lo <=? hi) && (hi <=? zlen l)) with true by lia.
Qed.

Lemma slice_ok {A} (l : list A) lo hi : 0 ≤ lo ≤ hi → hi ≤ zlen l → is_Some (slice l lo hi).
Proof. intros. eexists. apply slice_Some. split; [lia|done]. Qed.

Lemma slice_len {A} (l : list A) lo hi r : slice l lo hi = Some r → zlen r = hi - lo.
Proof.
  intros [? ->]%slice_Some. unfold zlen in *. rewrite length_take, length_drop. lia.
Qed.

Lemma slice_lookup {A} (l : list A) lo hi r (i : nat) :
  slice l lo hi = Some r → (i < Z.to_nat (hi - lo))%nat → r !! i = l !! (Z.to_nat lo + i)%nat.
Proof.
  intros [? ->]%slice_Some Hi. rewrite lookup_take_lt by lia. by rewrite lookup_drop.
Qed.

Lemma slice_full {A} (l : list A) : slice l 0 (zlen l) = Some l.
Proof.
  apply slice_Some. split; [pose proof (zlen_nonneg l); lia|].
  rewrite drop_0, take_ge; [done|]. unfold zlen. lia.
Qed.

Lemma slice_nil {A} (l : list A) lo r : slice l lo lo = Some r → r = [].
Proof. intros [? ->]%slice_Some. by rewrite Z.sub_diag. Qed.

Lemma slice_elem {A} (l : list A) lo hi r x : slice l lo hi = Some r → x ∈ r → x ∈ l.
Proof.
  intros [? ->]%slice_Some Hx.
  apply (subseteq_drop (Z.to_nat lo)), (subseteq_take (Z.to_nat (hi - lo))). done.
Qed.

Lemma bytes_slice l lo hi r : bytes l → slice l lo hi = Some r → bytes r.
Proof.
  intros Hl Hr. apply Forall_forall. intros x Hx.
  eapply Forall_forall in Hl; [done|]. by eapply slice_elem.
Qed.

Lemma slice_app_r {A} (a b : list A) lo hi : 0 ≤ lo → slice (a ++ b) (zlen a + lo) (zlen a + hi) = slice b lo hi.
Proof.
  intros Hlo. unfold slice. rewrite zlen_app. pose proof (zlen_nonneg a).
  replace (0 <=? zlen a + lo) with (0 <=? lo) by lia. replace (zlen a + lo <=? zlen a + hi) with (lo <=? hi) by lia.
  replace (zlen a + hi <=? zlen a + zlen b) with (hi <=? zlen b) by lia. case_match; [|done]. f_equal. f_equal; [lia|].
  rewrite drop_app_ge by (unfold zlen; lia). f_equal. unfold zlen. lia.
Qed.
Lemma slice_middle {A} (a b c : list A) : slice (a ++ b ++ c) (zlen a) (zlen a + zlen b) = Some b.
Proof.
  rewrite <- (Z.add_0_r (zlen a)) at 1. rewrite slice_app_r by done. unfold slice. rewrite zlen_app.
  pose proof (zlen_nonneg b). pose proof (zlen_nonneg c). rewrite !(proj2 (Z.leb_le _ _)) by lia. cbn.
  rewrite drop_0, Z.sub_0_r. f_equal. unfold zlen. by rewrite Nat2Z.id, take_app_length.
Qed.

Lemma splice_Some {A} (l : list A) o bs l' :
  splice l o bs = Some l' ↔
  (0 ≤ o ∧ o + zlen bs ≤ zlen l) ∧
  l' = take (Z.to_nat o) l ++ bs ++ drop (Z.to_nat o + length bs) l.
Proof.
  unfold splice. split.
  - intros H. case_match; b2p; simplify_eq. split; [lia|done].
  - intros [H ->]. by replace ((0 <=? o) && (o + zlen bs <=? zlen l)) with true by lia.
Qed.

Lemma splice_ok {A} (l : list A) o bs :
  0 ≤ o → o + zlen bs ≤ zlen l → is_Some (splice l o bs).
Proof. intros. eexists. apply splice_Some. split; [lia|done]. Qed.

Lemma splice_len {A} (l : list A) o bs l' : splice l o bs = Some l' → zlen l' = zlen l.
Proof.
  intros [? ->]%splice_Some. unfold zlen in *.
  rewrite !length_app, length_take, length_drop. lia.
Qed.

Lemma splice_lookup_in {A} (l : list A) o bs l' (i : nat) :
  splice l o bs = Some l' → (Z.to_nat o ≤ i < Z.to_nat o + length bs)%nat →
  l' !! i = bs !! (i - Z.to_nat o)%nat.
Proof.
  intros [? ->]%splice_Some Hi. unfold zlen in *.
  rewrite lookup_app_r by (rewrite length_take; lia). rewrite length_take.
  rewrite lookup_app_l by lia. f_equal. lia.
Qed.

Lemma splice_lookup_out {A} (l : list A) o bs l' (i : nat) :
  splice l o bs = Some l' → (i < Z.to_nat o ∨ Z.to_nat o + length bs ≤ i)%nat →
  l' !! i = l !! i.
Proof.
  intros [? ->]%splice_Some [Hi|Hi]; unfold zlen in *.
  - rewrite lookup_app_l by (rewrite length_take; lia). rewrite lookup_take_lt by lia. done.
  - rewrite lookup_app_r by (rewrite length_take; lia). rewrite length_take.
    rewrite lookup_app_r by lia. rewrite lookup_drop. f_equal. lia.
Qed.

Lemma splice_nil {A} (l : list A) o l' : splice l o [] = Some l' → l' = l.
Proof.
  intros [? ->]%splice_Some. simpl. rewrite Nat.add_0_r. apply take_drop.
Qed.

Lemma bytes_splice l o bs l' : bytes l → bytes bs → splice l o bs = Some l' → bytes l'.
Proof.
  intros Hl Hb [? ->]%splice_Some. unfold bytes in *.
  rewrite !Forall_app. split_and!; auto using Forall_take, Forall_drop.
Qed.

(** What was written is read back, ... *)
Lemma slice_splice_same {A} (l : list A) o bs l' :
  splice l o bs = Some l' → slice l' o (o + zlen bs) = Some bs.
Proof.
  intros H. pose proof (splice_len _ _ _ _ H) as Hlen.
  apply splice_Some in H as [Hb ->]. apply slice_Some. unfold zlen in *.
  split; [lia|]. rewrite drop_app_ge by (rewrite length_take; lia).
  rewrite length_take. replace (Z.to_nat o - _)%nat with 0%nat by lia. rewrite drop_0.
  rewrite take_app_le by lia. rewrite take_ge; [done|lia].
Qed.

(** ... and nothing else changes. *)
Lemma slice_splice_frame {A} (l : list A) o bs l' lo hi :
  splice l o bs = Some l' → hi ≤ o ∨ o + zlen bs ≤ lo → slice l' lo hi = slice l lo hi.
Proof.
  intros H Hd. pose proof (splice_len _ _ _ _ H) as Hlen. unfold slice. rewrite Hlen.
  destruct ((0 <=? lo) && (lo <=? hi) && (hi <=? zlen l)) eqn:Hb; [|done]. b2p. f_equal.
  apply splice_Some in H as Hs. unfold zlen in *.
  apply list_eq. intros i.
  destruct (decide (i < Z.to_nat (hi - lo))%nat) as [Hi|Hi].
  - rewrite !lookup_take_lt by lia. rewrite !lookup_drop.
    eapply splice_lookup_out; [done|]. lia.
  - rewrite !lookup_take_ge by lia. done.
Qed.

(** Adjacent writes are one write. *)
Lemma writeAt_splice file o bs : 0 ≤ o → o + zlen bs ≤ zlen file → splice file o bs = Some (writeAt file o bs).
Proof.
  intros Ho Hb. unfold splice, writeAt. rewrite (proj2 (Z.leb_le 0 o)), (proj2 (Z.leb_le (o + zlen bs) (zlen file))) by lia. cbn [andb]. unfold zlen in *. rewrite take_app_le by lia. done.
Qed.

Lemma splice_app {A} (l : list A) o xs ys l1 l2 :
  splice l o xs = Some l1 → splice l1 (o + zlen xs) ys = Some l2 → splice l o (xs ++ ys) = Some l2.
Proof.
  intros H1 H2. pose proof (splice_len _ _ _ _ H1) as Hl. apply splice_Some in H1 as [Hb ->].
  apply splice_Some in H2 as [Hb2 ->]. rewrite Hl in Hb2. apply splice_Some. unfold zlen in *.
  rewrite length_app. split; [lia|].
  assert (length (take (Z.to_nat o) l) = Z.to_nat o) as Ht by (rewrite length_take; lia).
  rewrite (app_assoc (take (Z.to_nat o) l)).
  rewrite take_app_length' by (rewrite length_app; lia).
  rewrite <- !app_assoc. f_equal. f_equal. f_equal.
  rewrite drop_app_ge by lia. rewrite drop_app_ge by lia. rewrite drop_drop. f_equal. lia.
Qed.

(** A write hides an earlier write of the same range. *)
Lemma splice_over {A} (l : list A) o xs ys l1 l2 :
  splice l o xs = Some l1 → length xs = length ys → splice l1 o ys = Some l2 →
  splice l o ys = Some l2.
Proof.
  intros H1 Hxy H2. pose proof (splice_len _ _ _ _ H1) as Hl. apply splice_Some in H1 as [Hb ->].
  apply splice_Some in H2 as [Hb2 ->]. rewrite Hl in Hb2. apply splice_Some. unfold zlen in *.
  split; [lia|].
  rewrite take_app_length' by (rewrite length_take; lia). f_equal. f_equal.
  rewrite drop_app_ge by (rewrite length_take; lia). rewrite length_take.
  rewrite drop_app_ge by lia. rewrite drop_drop. f_equal. lia.
Qed.

Lemma at_Some {A} (l : list A) i x : at_ l i = Some x ↔ 0 ≤ i ∧ l !! Z.to_nat i = Some x.
Proof. unfold at_. destruct (Z.leb_spec 0 i); naive_solver lia. Qed.

Lemma at_ok {A} (l : list A) i : 0 ≤ i < zlen l → is_Some (at_ l i).
Proof.
  intros Hi. unfold at_. replace (0 <=? i) with true by lia.
  apply lookup_lt_is_Some. unfold zlen in *. lia.
Qed.

Lemma at_bound {A} (l : list A) i x : at_ l i = Some x → 0 ≤ i < zlen l.
Proof.
  intros [? H%lookup_lt_Some]%at_Some. unfold zlen. lia.
Qed.

Lemma set_at_Some {A} (l : list A) i x l' :
  set_at l i x = Some l' ↔ (0 ≤ i < zlen l) ∧ l' = <[Z.to_nat i := x]> l.
Proof.
  unfold set_at. destruct ((0 <=? i) && (i <? zlen l)) eqn:E; b2p; [naive_solver lia|].
  split; [done|]. intros [? _]. lia.
Qed.

(** ** Lemmas on the codecs *)

Lemma le_encode_len n v : length (le_encode n v) = n.
Proof. revert v. induction n; intros; simpl; auto. Qed.
Lemma zlen_le_encode n v : zlen (le_encode n v) = Z.of_nat n.
Proof. unfold zlen. by rewrite le_encode_len. Qed.
#[export] Hint Rewrite zlen_le_encode : go_len.

Lemma le_encode_bytes n v : bytes (le_encode n v).
Proof.
  revert v. induction n; intros v; simpl; constructor; [|apply IHn].
  apply Z.mod_pos_bound. lia.
Qed.

Lemma le_decode_encode n v : 0 ≤ v < 256 ^ Z.of_nat n → le_decode (le_encode n v) = v.
Proof.
  revert v. induction n as [|n IH]; intros v Hv; simpl; [simpl in Hv; lia|].
  rewrite IH.
  - pose proof (Z.div_mod v 256). lia.
  - split; [apply Z.div_pos; lia|]. apply Z.div_lt_upper_bound; [lia|].
    rewrite <- Z.pow_succ_r by lia. rewrite <- Nat2Z.inj_succ. apply Hv.
Qed.

Lemma le_decode_bound bs : bytes bs → 0 ≤ le_decode bs < 256 ^ zlen bs.
Proof.
  induction 1 as [|b bs Hb Hbs IH]; simpl; [done|].
  rewrite zlen_cons, Z.pow_add_r by (pose proof (zlen_nonneg bs); lia).
  unfold is_byte in Hb. lia.
Qed.

Lemma le_encode_decode bs : bytes bs → le_encode (length bs) (le_decode bs) = bs.
Proof.
  induction 1 as [|b bs Hb Hbs IH]; simpl; [done|]. unfold is_byte in Hb. f_equal.
  - rewrite Z.mul_comm, Z.mod_add by lia. apply Z.mod_small. lia.
  - rewrite Z.mul_comm, Z.div_add by lia. rewrite Z.div_small by lia. done.
Qed.

Lemma le_decode_inj xs ys :
  bytes xs → bytes ys → length xs = length ys → le_decode xs = le_decode ys → xs = ys.
Proof.
  intros Hx Hy Hl Hd. rewrite <- (le_encode_decode xs), <- (le_encode_decode ys) by done. congruence.
Qed.

Lemma le_encode_app_decode n v rest :
  0 ≤ v < 256 ^ Z.of_nat n →
  le_decode (take n (le_encode n v ++ rest)) = v.
Proof.
  intros Hv. rewrite take_app_le by (rewrite le_encode_len; lia).
  rewrite take_ge by (rewrite le_encode_len; lia). by apply le_decode_encode.
Qed.

(** A packed record: fields of given widths, one after the other. *)
Definition encode_fields (fs : list (nat * Z)) : list Z := concat ((λ f, le_encode f.1 f.2) <$> fs).
Definition field_offset (fs : list (nat * Z)) (i : nat) : Z := foldr (λ f o, Z.of_nat f.1 + o) 0 (take i fs).

Lemma zlen_encode_fields fs : zlen (encode_fields fs) = foldr (λ f o, Z.of_nat f.1 + o) 0 fs.
Proof.
  induction fs as [|f fs IH]; [done|]. unfold encode_fields in *. rewrite fmap_cons. cbn [concat foldr].
  by rewrite zlen_app, zlen_le_encode, IH.
Qed.

(** Reading a field gives its value. *)
Lemma getLE_fields fs i n v o rest :
  fs !! i = Some (n, v) → 0 ≤ v < 256 ^ Z.of_nat n → o = field_offset fs i →
  getLE n (encode_fields fs ++ rest) o = Some v.
Proof.
  intros Hi Hv ->. unfold field_offset. rewrite <- zlen_encode_fields.
  rewrite <- (take_drop_middle fs i (n, v) Hi) at 1.
  unfold encode_fields at 1. rewrite fmap_app, fmap_cons, concat_app. cbn [concat fst snd]. rewrite <- !app_assoc.
  fold (encode_fields (take i fs)). set (pre := encode_fields (take i fs)).
  unfold getLE, slice. pose proof (zlen_nonneg pre).
  match goal with |- context [le_encode n v ++ ?r] => set (post := r) end. pose proof (zlen_nonneg post).
  rewrite !zlen_app, zlen_le_encode. do 3 le_is true. cbn [andb].
  replace (zlen pre + Z.of_nat n - zlen pre) with (Z.of_nat n) by lia. cbn [fmap option_fmap option_map].
  unfold zlen. rewrite !Nat2Z.id, drop_app_length. by rewrite le_encode_app_decode.
Qed.

Lemma getLE_ok n l o : 0 ≤ o → o + Z.of_nat n ≤ zlen l → is_Some (getLE n l o).
Proof.
  intros. unfold getLE. apply fmap_is_Some, slice_ok; lia.
Qed.

Lemma getLE_fits n l o v :
  bytes l → getLE n l o = Some v → fits (8 * Z.of_nat n) v.
Proof.
  intros Hl. unfold getLE. intros (r & Hs & ->)%fmap_Some.
  pose proof (slice_len _ _ _ _ Hs) as Hlen.
  pose proof (le_decode_bound r (bytes_slice _ _ _ _ Hl Hs)) as Hb.
  rewrite Hlen in Hb. unfold fits. rewrite Z.pow_mul_r by lia.
  change (2 ^ 8) with 256. by replace (o + Z.of_nat n - o) with (Z.of_nat n) in Hb by lia.
Qed.

Lemma putLE_len n l o v l' : putLE n l o v = Some l' → zlen l' = zlen l.
Proof. apply splice_len. Qed.

Lemma putLE_ok n l o v : 0 ≤ o → o + Z.of_nat n ≤ zlen l → is_Some (putLE n l o v).
Proof. intros. apply splice_ok; [done|]. by rewrite zlen_le_encode. Qed.

Lemma bytes_putLE n l o v l' : bytes l → putLE n l o v = Some l' → bytes l'.
Proof. intros Hl. apply bytes_splice; [done|apply le_encode_bytes]. Qed.

Lemma getLE_putLE_same n l o v l' :
  putLE n l o v = Some l' → 0 ≤ v < 256 ^ Z.of_nat n → getLE n l' o = Some v.
Proof.
  intros H Hv. apply slice_splice_same in H. rewrite zlen_le_encode in H.
  unfold getLE. rewrite H. simpl. by rewrite le_decode_encode.
Qed.

Lemma getLE_splice_frame n l o bs l' a :
  splice l o bs = Some l' → a + Z.of_nat n ≤ o ∨ o + zlen bs ≤ a →
  getLE n l' a = getLE n l a.
Proof. intros H Hd. unfold getLE. by rewrite (slice_splice_frame _ _ _ _ _ _ H Hd). Qed.

Lemma getLE_putLE_frame n m l o v l' a :
  putLE m l o v = Some l' → a + Z.of_nat n ≤ o ∨ o + Z.of_nat m ≤ a →
  getLE n l' a = getLE n l a.
Proof.
  intros H Hd. eapply getLE_splice_frame; [done|]. by rewrite zlen_le_encode.
Qed.

#[export] Hint Resolve slice_ok splice_ok at_ok getLE_ok putLE_ok le_encode_bytes zlen_nonneg : go.

Lemma has_shift_bit w b : 0 ≤ b → has w (1 .<< b) = Z.testbit w b.
Proof.
  intros Hb. unfold has. rewrite Z.shiftl_1_l. destruct (Z.testbit w b) eqn:E.
  - apply negb_true_iff, Z.eqb_neq. intros H. apply (f_equal (fun z => Z.testbit z b)) in H.
    rewrite Z.land_spec, E, Z.pow2_bits_true, Z.bits_0 in H by lia. done.
  - apply negb_false_iff, Z.eqb_eq, Z.bits_inj'. intros n Hn. rewrite Z.land_spec, Z.bits_0, Z.pow2_bits_eqb by lia.
    destruct (Z.eqb_spec b n) as [<-|]; [by rewrite E|apply andb_false_r].
Qed.

(** ** Packed bitmaps: bit [p] of a [[]uint64] *)

(** Bit [p] of a packed bitmap. *)
Definition bit_at (bits : list Z) (p : Z) : bool :=
  match at_ bits (p / 64) with
  | Some w => Z.testbit w (p mod 64)
  | None => false
  end.

Lemma bit_at_set bits p q w :
  at_ bits (p / 64) = Some w →
  0 ≤ p → 0 ≤ q →
  bit_at (<[Z.to_nat (p / 64) := w .| (1 .<< (p mod 64))]> bits) q
    = (q =? p) || bit_at bits q.
Proof.
  intros Hw Hp Hq. apply at_bound in Hw as Hb. apply at_Some in Hw as [_ Hw].
  pose proof (Z.mod_pos_bound p 64). pose proof (Z.mod_pos_bound q 64).
  unfold bit_at, at_.
  replace (0 <=? q / 64) with true by (symmetry; apply Z.leb_le, Z.div_pos; lia).
  destruct (decide (q / 64 = p / 64)) as [Heq|Hne].
  - rewrite Heq, list_lookup_insert_eq, Hw by (unfold zlen in Hb; lia).
    rewrite Z.lor_spec, Z.shiftl_spec by lia. rewrite orb_comm. f_equal.
    destruct (Z.eqb_spec q p) as [->|Hqp].
    + by rewrite Z.sub_diag.
    + pose proof (Z.div_mod p 64). pose proof (Z.div_mod q 64).
      destruct (decide (q mod 64 < p mod 64)).
      * by rewrite Z.testbit_neg_r by lia.
      * apply Z.bits_above_log2; [lia|]. simpl. lia.
  - rewrite list_lookup_insert_ne.
    + destruct (Z.eqb_spec q p); [congruence|done].
    + pose proof (Z.div_pos q 64). pose proof (Z.div_pos p 64). lia.
Qed.

Lemma bit_at_clear bits p q w :
  at_ bits (p / 64) = Some w → 0 ≤ p → 0 ≤ q →
  bit_at (<[Z.to_nat (p / 64) := w .&^ (1 .<< (p mod 64))]> bits) q
    = negb (q =? p) && bit_at bits q.
Proof.
  intros Hw Hp Hq. apply at_bound in Hw as Hb. apply at_Some in Hw as [_ Hw].
  pose proof (Z.mod_pos_bound p 64). pose proof (Z.mod_pos_bound q 64).
  unfold bit_at, at_.
  replace (0 <=? q / 64) with true by (symmetry; apply Z.leb_le, Z.div_pos; lia).
  destruct (decide (q / 64 = p / 64)) as [Heq|Hne].
  - rewrite Heq, list_lookup_insert_eq, Hw by (unfold zlen in Hb; lia).
    rewrite Z.ldiff_spec, Z.shiftl_spec by lia. rewrite andb_comm. f_equal. f_equal.
    destruct (Z.eqb_spec q p) as [->|Hqp].
    + by rewrite Z.sub_diag.
    + pose proof (Z.div_mod p 64). pose proof (Z.div_mod q 64).
      destruct (decide (q mod 64 < p mod 64)).
      * by rewrite Z.testbit_neg_r by lia.
      * apply Z.bits_above_log2; [lia|]. simpl. lia.
  - rewrite list_lookup_insert_ne.
    + destruct (Z.eqb_spec q p); [congruence|done].
    + pose proof (Z.div_pos q 64). pose proof (Z.div_pos p 64). lia.
Qed.

(** [w & (1 << b) == 0] *)
Lemma land_bit_0 w b : 0 ≤ b → (w .& (1 .<< b) =? 0) = negb (Z.testbit w b).
Proof.
  intros Hb. apply Bool.eq_true_iff_eq. rewrite Z.eqb_eq, negb_true_iff. split.
  - intros H. apply (f_equal (λ z, Z.testbit z b)) in H. rewrite Z.land_spec, Z.shiftl_spec, Z.bits_0 in H by lia.
    rewrite Z.sub_diag in H. by rewrite andb_true_r in H.
  - intros H. apply Z.bits_inj'. intros i Hi. rewrite Z.land_spec, Z.shiftl_spec, Z.bits_0 by lia.
    destruct (decide (i = b)) as [->|]; [by rewrite H|].
    destruct (decide (i < b)); [by rewrite (Z.testbit_neg_r 1) by lia; apply andb_false_r|].
    rewrite (Z.bits_above_log2 1); [apply andb_false_r|lia|simpl; lia].
Qed.

(** ** Lemmas on lists *)

Lemma filter_all {A} (P : A → Prop) `{∀ x, Decision (P x)} (l : list A) :
  (∀ x, x ∈ l → P x) → filter P l = l.
Proof.
  induction l as [|x l IH]; intros HP; [done|]. rewrite filter_cons_True by (apply HP; left).
  f_equal. apply IH. intros y Hy. apply HP. by right.
Qed.

Lemma filter_none {A} (P : A → Prop) `{∀ x, Decision (P x)} (l : list A) :
  (∀ x, x ∈ l → ¬ P x) → filter P l = [].
Proof.
  induction l as [|x l IH]; intros HP; [done|]. rewrite filter_cons_False by (apply HP; left).
  apply IH. intros y Hy. apply HP. by right.
Qed.

(** ** Bounded buffers: the last [n] elements, [buf[len(buf)-n:]] when it is longer *)
Definition keep_last {A} (n : Z) (l : list A) : list A :=
  if n <? zlen l then drop (Z.to_nat (zlen l - n)) l else l.

Lemma keep_last_app {A} n (a b : list A) : 0 ≤ n → keep_last n (keep_last n a ++ b) = keep_last n (a ++ b).
Proof.
  intros Hn. unfold keep_last. pose proof (zlen_nonneg b).
  destruct (Z.ltb_spec n (zlen a)) as [Ha|Ha]; [|done].
  assert (zlen (drop (Z.to_nat (zlen a - n)) a) = n) as Hd by (unfold zlen in *; rewrite length_drop; lia).
  rewrite !zlen_app, Hd. destruct (Z.ltb_spec n (n + zlen b)) as [Hb|Hb].
  - lt_is true. replace (Z.to_nat (zlen a + zlen b - n)) with (Z.to_nat (zlen a - n) + Z.to_nat (zlen b))%nat by lia.
    rewrite <- drop_drop. f_equal; [lia|]. rewrite drop_app_le; [done|]. unfold zlen in *. lia.
  - lt_is true. assert (b = []) as -> by (destruct b; [done|rewrite zlen_cons in *; pose proof (zlen_nonneg b); lia]).
    rewrite !app_nil_r. cbn. f_equal. lia.
Qed.

Lemma keep_last_len {A} n (l : list A) : 0 ≤ n → zlen (keep_last n l) ≤ n.
Proof.
  intros Hn. unfold keep_last. destruct (Z.ltb_spec n (zlen l)); [|done]. unfold zlen in *. rewrite length_drop. lia.
Qed.
