(* ===== verification/DirtyTracker.v ===== *)
(** * The dirty-page tracker (src/internal/virtio/dirty.go)

    Device writes into guest RAM bypass KVM's dirty log; the tracker keeps one
    bit per page for them, packed in 64-bit words, and live migration and
    differential snapshots read the bitmap out.  [Mark], [SnapshotAndReset] and
    [Reset] are the operations; [is_dirty] is the abstract view, the set of
    dirty pages, and [Mark_spec] says that a call adds exactly the pages that
    the marked range overlaps. *)
From S2P Require Import Prelude.

Record DirtyTracker := mkDirtyTracker {
  dt_memSize : Z;
  dt_pageSize : Z;
  dt_bits : list Z
}.

(** [os.Getpagesize()] is the kernel's: the parameter [getpagesize]. *)
Definition NewDirtyTracker (getpagesize memSize : Z) : DirtyTracker :=
  let pageSize := getpagesize in
  let pageCount := u64 (memSize + pageSize - 1) / pageSize in
  let wordCount := u64 (pageCount + 63) / 64 in
  {| dt_memSize := memSize;
     dt_pageSize := pageSize;
     dt_bits := replicate (Z.to_nat wordCount) 0 |}.

(** The body of the loop over pages: [d.bits[word] |= 1 << bit]. *)
Fixpoint mark_pages {E} (n : nat) (page : Z) (bits : list Z) : res E (list Z) :=
  match n with
  | O => Ok bits
  | S n =>
      let word := page / 64 in
      let bit := page mod 64 in
      w ← must (at_ bits word);
      bits ← must (set_at bits word (w .| (1 .<< bit)));
      mark_pages n (page + 1) bits
  end.

Definition Mark {E} (d : DirtyTracker) (addr length : Z) : res E DirtyTracker :=
  if (length =? 0) || (dt_memSize d <=? addr) then Ok d
  else
    let end_ := u64 (addr + length) in
    let end_ := if (end_ <? addr) || (dt_memSize d <? end_) then dt_memSize d else end_ in
    if dt_pageSize d =? 0 then Panic
    else
      let startPage := addr / dt_pageSize d in
      let endPage := (end_ - 1) / dt_pageSize d in
      bits ← mark_pages (Z.to_nat (endPage + 1 - startPage)) startPage (dt_bits d);
      Ok {| dt_memSize := dt_memSize d; dt_pageSize := dt_pageSize d; dt_bits := bits |}.

(** [clear(d.bits)] *)
Definition clear_bits (bits : list Z) : list Z := (λ _, 0) <$> bits.

Definition SnapshotAndReset (d : DirtyTracker) : list Z * DirtyTracker :=
  (dt_bits d,
   {| dt_memSize := dt_memSize d; dt_pageSize := dt_pageSize d; dt_bits := clear_bits (dt_bits d) |}).

Definition Reset (d : DirtyTracker) : DirtyTracker :=
  {| dt_memSize := dt_memSize d; dt_pageSize := dt_pageSize d; dt_bits := clear_bits (dt_bits d) |}.

(** ** The abstract view *)

Definition is_dirty (d : DirtyTracker) (p : Z) : bool := bit_at (dt_bits d) p.

(** The tracker covers its memory: there is a bit for every page. *)
Definition wf (d : DirtyTracker) : Prop :=
  0 < dt_pageSize d ∧ 0 ≤ dt_memSize d < 2 ^ 64 ∧
  (dt_memSize d - 1) / dt_pageSize d < 64 * zlen (dt_bits d).

#[export] Instance wf_dec d : Decision (wf d).
Proof. unfold wf. apply _. Defined.

(** ** Lemmas *)

(** The loop sets exactly the pages it visits and does not panic. *)
Lemma mark_pages_spec {E} n page bits :
  0 ≤ page → page + Z.of_nat n ≤ 64 * zlen bits →
  ∃ bits', mark_pages (E:=E) n page bits = Ok bits' ∧ length bits' = length bits ∧
    ∀ q, 0 ≤ q →
      bit_at bits' q = ((page <=? q) && (q <? page + Z.of_nat n)) || bit_at bits q.
Proof.
  revert page bits. induction n as [|n IH]; intros page bits Hp Hn; simpl.
  - exists bits. split_and!; [done..|]. intros q Hq. and_is false. done.
  - assert (0 ≤ page / 64 < zlen bits) as Hw.
    { split; [apply Z.div_pos; lia|]. apply Z.div_lt_upper_bound; lia. }
    destruct (at_ok bits (page / 64) Hw) as [w Hwe]. rewrite Hwe. simpl.
    unfold set_at. and_is true. simpl.
    destruct (IH (page + 1) (<[Z.to_nat (page / 64) := w .| (1 .<< (page mod 64))]> bits))
      as (bits' & Hm & Hl & Hq); [lia|unfold zlen in *; rewrite length_insert; lia|].
    exists bits'. split_and!; [done|by rewrite Hl, length_insert|].
    intros q Hq0. rewrite Hq, bit_at_set by done.
    rewrite orb_assoc. f_equal. blia.
Qed.

(** [Mark] on a well-formed tracker completes and dirties exactly the pages
    that [addr, addr+length) overlaps within the tracked memory. *)
Lemma Mark_spec {E} d addr length :
  wf d → 0 ≤ addr → 0 ≤ length < 2 ^ 64 →
  ∃ d', Mark (E:=E) d addr length = Ok d' ∧ wf d' ∧
    dt_memSize d' = dt_memSize d ∧ dt_pageSize d' = dt_pageSize d ∧
    ∀ p, 0 ≤ p → is_dirty d' p =
      (negb (length =? 0) && (addr <? dt_memSize d)
        && (addr / dt_pageSize d <=? p)
        && (p <=? (Z.min (addr + length) (dt_memSize d) - 1) / dt_pageSize d))
      || is_dirty d p.
Proof.
  intros (Hps & Hms & Hcov) Ha Hl. unfold Mark.
  destruct ((length =? 0) || (dt_memSize d <=? addr)) eqn:Hskip.
  { exists d. split_and!; try done.
    intros p _. apply orb_true_iff in Hskip.
    replace (negb (length =? 0) && (addr <? dt_memSize d)) with false by lia. done. }
  b2p. replace (dt_pageSize d =? 0) with false by lia.
  assert ((if (u64 (addr + length) <? addr) || (dt_memSize d <? u64 (addr + length))
           then dt_memSize d else u64 (addr + length)) = Z.min (addr + length) (dt_memSize d)) as ->.
  { destruct (Z.lt_ge_cases (addr + length) (2 ^ 64)) as [Hs|Hs].
    - rewrite u64_small by lia. destruct (_ || _) eqn:?; lia.
    - assert (u64 (addr + length) = addr + length - 2 ^ 64) as ->.
      { unfold u64. symmetry. apply Z.mod_unique with 1; lia. }
      lt_is true. simpl. lia. }
  set (e := Z.min (addr + length) (dt_memSize d)).
  assert (addr / dt_pageSize d ≤ (e - 1) / dt_pageSize d) by (apply Z.div_le_mono; lia).
  assert ((e - 1) / dt_pageSize d ≤ (dt_memSize d - 1) / dt_pageSize d)
    by (apply Z.div_le_mono; lia).
  assert (0 ≤ addr / dt_pageSize d) by (apply Z.div_pos; lia).
  destruct (mark_pages_spec (E:=E) (Z.to_nat ((e - 1) / dt_pageSize d + 1 - addr / dt_pageSize d))
              (addr / dt_pageSize d) (dt_bits d)) as (bits' & Hm & Hlen & Hq); [lia..|].
  rewrite Hm. simpl. eexists. split_and!; [done| |done|done|].
  - unfold wf, zlen in *. simpl. rewrite Hlen. lia.
  - intros p Hp. unfold is_dirty. simpl. rewrite Hq by done. f_equal.
    replace (length =? 0) with false by lia. replace (addr <? dt_memSize d) with true by lia.
    simpl. blia.
Qed.

(** Every byte of a marked range lies in a dirty page. *)
Lemma Mark_covers {E} d addr length x d' :
  wf d → 0 ≤ addr → 0 ≤ length < 2 ^ 64 →
  Mark (E:=E) d addr length = Ok d' →
  addr ≤ x < addr + length → x < dt_memSize d →
  is_dirty d' (x / dt_pageSize d) = true.
Proof.
  intros Hwf Ha Hl Hm Hx Hxm. destruct (Mark_spec (E:=E) d addr length) as (d'' & Hm' & _ & _ & _ & Hq); try done.
  rewrite Hm in Hm'. simplify_eq. destruct Hwf as (Hps & _).
  rewrite Hq by (apply Z.div_pos; lia).
  assert (addr / dt_pageSize d ≤ x / dt_pageSize d) by (apply Z.div_le_mono; lia).
  assert (x / dt_pageSize d ≤ (Z.min (addr + length) (dt_memSize d) - 1) / dt_pageSize d)
    by (apply Z.div_le_mono; lia).
  lia.
Qed.

(** A dirty page stays dirty until the next reset. *)
Lemma Mark_mono {E} d addr length d' p :
  wf d → 0 ≤ addr → 0 ≤ length < 2 ^ 64 → 0 ≤ p →
  Mark (E:=E) d addr length = Ok d' → is_dirty d p = true → is_dirty d' p = true.
Proof.
  intros Hwf Ha Hl Hp Hm Hd. destruct (Mark_spec (E:=E) d addr length) as (d'' & Hm' & _ & _ & _ & Hq); try done.
  rewrite Hm in Hm'. simplify_eq. rewrite Hq, Hd by done. apply orb_true_r.
Qed.

Lemma clear_bits_page bits p : bit_at (clear_bits bits) p = false.
Proof.
  unfold bit_at, at_, clear_bits. destruct (0 <=? p / 64); [|done].
  rewrite list_lookup_fmap. destruct (bits !! _); simpl; [apply Z.testbit_0_l|done].
Qed.

Lemma NewDirtyTracker_wf ps ms :
  0 < ps → 0 ≤ ms → ms + ps + 63 < 2 ^ 64 → wf (NewDirtyTracker ps ms).
Proof.
  intros Hps Hms Hb. unfold wf, NewDirtyTracker. simpl. split_and!; [lia..|].
  assert (0 ≤ (ms + ps - 1) / ps) by (apply Z.div_pos; lia).
  assert ((ms + ps - 1) / ps ≤ ms + ps - 1) by (apply Z.div_le_upper_bound; nia).
  unfold zlen. rewrite length_replicate. unfold u64.
  rewrite (Z.mod_small (ms + ps - 1)), Z.mod_small by lia.
  replace (ms + ps - 1) with (ms - 1 + 1 * ps) in * by lia. rewrite Z.div_add in * by lia.
  set (k := (ms - 1) / ps + 1) in *.
  pose proof (Z.mul_succ_div_gt (k + 63) 64). pose proof (Z.div_pos (k + 63) 64). lia.
Qed.

(** ** Properties *)

(** Does the range overlap page [p] of the tracked memory? *)
Definition overlaps (d : DirtyTracker) (p : Z) (range : Z * Z) : bool :=
  let '(addr, length) := range in
  negb (length =? 0) && (addr <? dt_memSize d)
  && (addr / dt_pageSize d <=? p)
  && (p <=? (Z.min (addr + length) (dt_memSize d) - 1) / dt_pageSize d).

Lemma Mark_all_spec {E} ranges d :
  wf d → Forall (λ r, 0 ≤ r.1 ∧ 0 ≤ r.2 < 2 ^ 64) ranges →
  ∃ d', for_each (λ r d, Mark (E:=E) d r.1 r.2) ranges d = Ok d' ∧ wf d' ∧
    dt_memSize d' = dt_memSize d ∧ dt_pageSize d' = dt_pageSize d ∧
    ∀ p, 0 ≤ p → is_dirty d' p = existsb (overlaps d p) ranges || is_dirty d p.
Proof.
  intros Hwf Hr. revert d Hwf. induction Hr as [|[a n] rs [Ha Hn] Hr IH]; intros d Hwf; simpl.
  - exists d. splits; done.
  - simpl in *. destruct (Mark_spec (E:=E) d a n Hwf Ha Hn) as (d1 & -> & Hwf1 & Hm & Hps & Hq).
    simpl. destruct (IH d1 Hwf1) as (d2 & -> & Hwf2 & Hm2 & Hps2 & Hq2).
    exists d2. splits; try done; try congruence. intros p Hp. rewrite Hq2, Hq by done.
    replace (existsb (overlaps d1 p) rs) with (existsb (overlaps d p) rs).
    + rewrite orb_assoc. f_equal. apply orb_comm.
    + clear -Hm Hps. induction rs as [|[a n] rs IH]; [done|]. simpl. rewrite IH. unfold overlaps.
      by rewrite Hm, Hps.
Qed.

(** An epoch of the tracker is exact. After any sequence of [Mark] calls on
    a clean tracker (none of which panics), [SnapshotAndReset] returns a bitmap
    in which page [p] is set exactly when one of the marked ranges overlaps it,
    and leaves the tracker clean for the next epoch. *)
Theorem dirty_epoch_exact ranges d :
  wf d → (∀ p, is_dirty d p = false) → Forall (λ r, 0 ≤ r.1 ∧ 0 ≤ r.2 < 2 ^ 64) ranges →
  ∃ d', for_each (λ r d, Mark (E:=Empty_set) d r.1 r.2) ranges d = Ok d' ∧
    (∀ p, 0 ≤ p → bit_at (SnapshotAndReset d').1 p = existsb (overlaps d p) ranges) ∧
    (∀ p, is_dirty (SnapshotAndReset d').2 p = false) ∧ wf (SnapshotAndReset d').2.
Proof.
  intros Hwf Hclean Hr. destruct (Mark_all_spec (E:=Empty_set) ranges d Hwf Hr)
    as (d' & Hrun & Hwf' & _ & _ & Hq).
  exists d'. unfold SnapshotAndReset. simpl. splits; [done|..].
  - intros p Hp. specialize (Hq p Hp). unfold is_dirty in Hq, Hclean. by rewrite Hq, Hclean, orb_false_r.
  - intros p. apply clear_bits_page.
  - unfold wf, zlen in *. simpl. unfold clear_bits. rewrite length_fmap. done.
Qed.

Lemma dirty_epoch_exact_witness :
  ∃ d', for_each (λ r d, Mark (E:=Empty_set) d r.1 r.2) [(4000, 200); (12288, 1)]
          (NewDirtyTracker 4096 16384) = Ok d' ∧
        (SnapshotAndReset d').1 = [11] ∧ bit_at (SnapshotAndReset d').1 3 = true.
Proof.
  destruct (dirty_epoch_exact [(4000, 200); (12288, 1)] (NewDirtyTracker 4096 16384))
    as (d' & Hrun & Hbits & _).
  - apply (bool_decide_unpack _). vm_compute. exact I.
  - intros p. apply (clear_bits_page [0]).
  - apply (bool_decide_unpack _). vm_compute. exact I.
  - exists d'. split; [exact Hrun|]. split.
    + vm_compute in Hrun. injection Hrun as <-. reflexivity.
    + rewrite Hbits; [reflexivity|lia].
Defined.
