(* ===== verification/Virtqueue.v ===== *)
(** * Virtqueues (src/internal/virtio/virtio.go, the [Queue] part)

    A virtqueue is three guest-memory structures: the descriptor table, the
    available ring (written by the driver) and the used ring (written by the
    device).  Guest RAM and the dirty tracker are shared by every queue and
    device of the machine, so they are one value, [Ram], threaded through the
    operations; a [Queue] holds what the Go struct owns besides the two
    references.  Every index or slice expression of the source is a [must],
    so that "no input of the guest makes the device panic" is a theorem and
    not a convention of the model. *)
From S2P Require Import Prelude DirtyTracker.

(** ** Constants *)
Definition MaxQueueSize : Z := 256.
Definition MaxDescriptorChainLength : Z := MaxQueueSize.
Definition MaxDescriptorSizeBytes : Z := 16 .<< 20.
Definition MaxDescriptorChainBytes : Z := 64 .<< 20.

Definition DescFlagNext : Z := 1.
Definition DescFlagWrite : Z := 2.
Definition DescFlagIndirect : Z := 4.

(** ** Data *)

(** Guest RAM and the dirty tracker, as the queues reference them. *)
Record Ram := mkRam {
  ram_mem : list Z;
  ram_dirty : option DirtyTracker
}.

Record Desc := mkDesc {
  d_Addr : Z;
  d_Len : Z;
  d_Flags : Z;
  d_Next : Z
}.

Record AvailRing := mkAvailRing {
  av_Flags : Z;
  av_Idx : Z;
  av_Ring : list Z
}.

Record Queue := mkQueue {
  q_Size : Z;
  q_Ready : bool;
  q_LastAvail : Z;
  q_DescAddr : Z;
  q_DriverAddr : Z;
  q_DeviceAddr : Z;
  q_guestPhysBase : Z
}.

(** The [fmt.Errorf] errors of the queue operations. *)
Inductive qerr :=
  | AvailRingNotConfigured
  | InvalidQueueSize (size : Z)
  | DescHeadOutOfBounds (head size : Z)
  | DescChainCycle (i : Z)
  | IndirectUnsupported
  | DescTooLong (len : Z)
  | ChainTooLong (total : Z)
  | ChainTooManyEntries
  | DescNextOutOfBounds (next size : Z)
  | DescIndexOutOfBounds (i size : Z)
  | AccessBelowBase (addr base : Z)
  | AccessOverflow (addr len : Z)
  | AccessOutOfBounds (addr len mem : Z).

(** ** Operations *)

Definition NewQueue (size : Z) : Queue :=
  {| q_Size := size; q_Ready := false; q_LastAvail := 0; q_DescAddr := 0;
     q_DriverAddr := 0; q_DeviceAddr := 0; q_guestPhysBase := 0 |}.

Definition SetGuestPhysBase (q : Queue) (base : Z) : Queue :=
  {| q_Size := q_Size q; q_Ready := q_Ready q; q_LastAvail := q_LastAvail q;
     q_DescAddr := q_DescAddr q; q_DriverAddr := q_DriverAddr q;
     q_DeviceAddr := q_DeviceAddr q; q_guestPhysBase := base |}.

Definition off (q : Queue) (gpa : Z) : Z := u64 (gpa - q_guestPhysBase q).

Definition Queue_Reset (q : Queue) : Queue :=
  {| q_Size := MaxQueueSize; q_Ready := false; q_LastAvail := 0; q_DescAddr := 0;
     q_DriverAddr := 0; q_DeviceAddr := 0; q_guestPhysBase := q_guestPhysBase q |}.

Definition set_LastAvail (q : Queue) (v : Z) : Queue :=
  {| q_Size := q_Size q; q_Ready := q_Ready q; q_LastAvail := v;
     q_DescAddr := q_DescAddr q; q_DriverAddr := q_DriverAddr q;
     q_DeviceAddr := q_DeviceAddr q; q_guestPhysBase := q_guestPhysBase q |}.

Definition normalizedSize (q : Queue) : res qerr Z :=
  if (q_Size q =? 0) || (MaxQueueSize <? q_Size q) then Err (InvalidQueueSize (q_Size q))
  else Ok (u16 (q_Size q)).

Definition checkedRange (q : Queue) (r : Ram) (addr length : Z) : res qerr (Z * Z) :=
  if length =? 0 then Ok (0, 0)
  else if addr <? q_guestPhysBase q then Err (AccessBelowBase addr (q_guestPhysBase q))
  else
    let o := u64 (addr - q_guestPhysBase q) in
    let e := u64 (o + length) in
    if e <? o then Err (AccessOverflow addr length)
    else if zlen (ram_mem r) <? e then Err (AccessOutOfBounds addr length (zlen (ram_mem r)))
    else Ok (o, e).

Definition AvailIdx (q : Queue) (r : Ram) : res qerr Z :=
  if q_DriverAddr q =? 0 then Err AvailRingNotConfigured
  else
    _ ← checkedRange q r (u64 (q_DriverAddr q + 2)) 2;
    must (getLE 2 (ram_mem r) (off q (u64 (q_DriverAddr q + 2)))).

Definition readDesc (q : Queue) (r : Ram) (i : Z) : res qerr Desc :=
  size ← normalizedSize q;
  if size <=? i then Err (DescIndexOutOfBounds i size)
  else
    let gpa := u64 (q_DescAddr q + i * 16) in
    _ ← checkedRange q r gpa 16;
    let o := off q gpa in
    addr ← must (getLE 8 (ram_mem r) o);
    len ← must (getLE 4 (ram_mem r) (o + 8));
    flags ← must (getLE 2 (ram_mem r) (o + 12));
    next ← must (getLE 2 (ram_mem r) (o + 14));
    Ok {| d_Addr := addr; d_Len := len; d_Flags := flags; d_Next := next |}.

(** The copy of the available ring; [Ring] is a [[256]uint16], zero beyond the
    queue size. *)
Definition readAvail (q : Queue) (r : Ram) : res qerr AvailRing :=
  size ← normalizedSize q;
  let gpa := q_DriverAddr q in
  _ ← checkedRange q r gpa (4 + size * 2);
  let o := off q gpa in
  flags ← must (getLE 2 (ram_mem r) o);
  i ← must (getLE 2 (ram_mem r) (o + 2));
  ring ← must (mapM (λ j, getLE 2 (ram_mem r) (o + 4 + j * 2)) (seqZ 0 size));
  Ok {| av_Flags := flags; av_Idx := i;
        av_Ring := ring ++ replicate (256 - length ring) 0 |}.

Definition readUsedIdx (q : Queue) (r : Ram) : res qerr Z :=
  _ ← checkedRange q r (u64 (q_DeviceAddr q + 2)) 2;
  must (getLE 2 (ram_mem r) (off q (u64 (q_DeviceAddr q + 2)))).

Definition UsedFlags (q : Queue) (r : Ram) : res qerr Z :=
  _ ← checkedRange q r (q_DeviceAddr q) 2;
  must (getLE 2 (ram_mem r) (off q (q_DeviceAddr q))).

Definition AvailFlags (q : Queue) (r : Ram) : res qerr Z :=
  _ ← checkedRange q r (q_DriverAddr q) 2;
  must (getLE 2 (ram_mem r) (off q (q_DriverAddr q))).

(** [for q.LastAvail != avail.Idx { heads = append(heads, ...); q.LastAvail++ }] *)
Fixpoint collect_heads (fuel : nat) (size : Z) (avail : AvailRing) (last : Z) (heads : list Z)
  : res qerr (list Z * Z) :=
  if last =? av_Idx avail then Ok (heads, last)
  else
    match fuel with
    | O => NoFuel
    | S fuel =>
        h ← must (at_ (av_Ring avail) (last mod u16 size));
        collect_heads fuel size avail (u16 (last + 1)) (heads ++ [h])
    end.

(** The critical section of [IterAvail]: the heads that the driver made
    available since the last call, and the queue with [LastAvail] caught up. *)
Definition IterAvail_collect (q : Queue) (r : Ram) : res qerr (list Z * Queue) :=
  avail ← readAvail q r;
  '(heads, last) ← collect_heads (Z.to_nat (u16 (av_Idx avail - q_LastAvail q)))
                     (q_Size q) avail (q_LastAvail q) [];
  Ok (heads, set_LastAvail q last).

(** The critical section of [ConsumeAvail]: at most one head. *)
Definition ConsumeAvail_take (q : Queue) (r : Ram) : res qerr (option Z * Queue) :=
  avail ← readAvail q r;
  if q_LastAvail q =? av_Idx avail then Ok (None, q)
  else
    head ← must (at_ (av_Ring avail) (q_LastAvail q mod u16 (q_Size q)));
    Ok (Some head, set_LastAvail q (u16 (q_LastAvail q + 1))).

(** The [for] loop of [WalkChain]. *)
Fixpoint walk_loop (fuel : nat) (q : Queue) (r : Ram) (size i total : Z)
    (seen : list bool) (chain : list Desc) : res qerr (list Desc) :=
  match fuel with
  | O => NoFuel
  | S fuel =>
      s ← must (at_ seen i);
      if (s : bool) then Err (DescChainCycle i)
      else
        seen ← must (set_at seen i true);
        d ← readDesc q r i;
        if has (d_Flags d) DescFlagIndirect then Err IndirectUnsupported
        else if MaxDescriptorSizeBytes <? d_Len d then Err (DescTooLong (d_Len d))
        else
          let total := u64 (total + d_Len d) in
          if MaxDescriptorChainBytes <? total then Err (ChainTooLong total)
          else
            let chain := chain ++ [d] in
            if MaxDescriptorChainLength <? zlen chain then Err ChainTooManyEntries
            else if negb (has (d_Flags d) DescFlagNext) then Ok chain
            else if size <=? d_Next d then Err (DescNextOutOfBounds (d_Next d) size)
            else walk_loop fuel q r size (d_Next d) total seen chain
  end.

Definition WalkChain (q : Queue) (r : Ram) (head : Z) : res qerr (list Desc) :=
  size ← normalizedSize q;
  if size <=? head then Err (DescHeadOutOfBounds head size)
  else walk_loop (S (Z.to_nat size)) q r size head 0 (replicate (Z.to_nat size) false) [].

Definition markDirty {E} (r : Ram) (addr length : Z) : res E Ram :=
  match ram_dirty r with
  | None => Ok r
  | Some d => d ← Mark d addr length; Ok {| ram_mem := ram_mem r; ram_dirty := Some d |}
  end.

Definition set_mem (r : Ram) (m : list Z) : Ram :=
  {| ram_mem := m; ram_dirty := ram_dirty r |}.

Definition pushUsedLocked (q : Queue) (r : Ram) (id written : Z) : res qerr Ram :=
  _ ← normalizedSize q;
  used ← readUsedIdx q r;
  let entryGPA := u64 (q_DeviceAddr q + 4 + (used mod u16 (q_Size q)) * 8) in
  _ ← checkedRange q r entryGPA 8;
  _ ← checkedRange q r (u64 (q_DeviceAddr q + 2)) 2;
  let entryOff := off q entryGPA in
  let idxOff := off q (u64 (q_DeviceAddr q + 2)) in
  m ← must (putLE 4 (ram_mem r) entryOff id);
  m ← must (putLE 4 m (entryOff + 4) written);
  m ← must (putLE 2 m idxOff (u16 (used + 1)));
  r ← markDirty (set_mem r m) entryGPA 8;
  markDirty r (u64 (q_DeviceAddr q + 2)) 2.

Definition PushUsed : Queue → Ram → Z → Z → res qerr Ram := pushUsedLocked.

Definition GuestRead (q : Queue) (r : Ram) (addr n : Z) : res qerr (list Z) :=
  '(start, end_) ← checkedRange q r addr n;
  must (slice (ram_mem r) start end_).

Definition GuestWrite (q : Queue) (r : Ram) (addr : Z) (buf : list Z) : res qerr Ram :=
  '(start, end_) ← checkedRange q r addr (zlen buf);
  m ← must (splice (ram_mem r) start buf);
  markDirty (set_mem r m) addr (zlen buf).

(** ** Snapshot state *)
Record QueueState := mkQueueState {
  qs_Size : Z;
  qs_Ready : bool;
  qs_LastAvail : Z;
  qs_DescAddr : Z;
  qs_DriverAddr : Z;
  qs_DeviceAddr : Z
}.

Definition Queue_State (q : Queue) : QueueState :=
  {| qs_Size := q_Size q; qs_Ready := q_Ready q; qs_LastAvail := q_LastAvail q;
     qs_DescAddr := q_DescAddr q; qs_DriverAddr := q_DriverAddr q;
     qs_DeviceAddr := q_DeviceAddr q |}.

Definition Queue_RestoreState (q : Queue) (s : QueueState) : Queue :=
  {| q_Size := qs_Size s; q_Ready := qs_Ready s; q_LastAvail := qs_LastAvail s;
     q_DescAddr := qs_DescAddr s; q_DriverAddr := qs_DriverAddr s;
     q_DeviceAddr := qs_DeviceAddr s; q_guestPhysBase := q_guestPhysBase q |}.

(** ** Well-formedness *)

(** What the Go types guarantee of a queue and of guest RAM: machine widths,
    bytes, a slice length below 2^63, a tracker that covers its memory. *)
Definition queue_wf (q : Queue) : Prop :=
  fits 32 (q_Size q) ∧ fits 16 (q_LastAvail q) ∧ fits 64 (q_DescAddr q) ∧
  fits 64 (q_DriverAddr q) ∧ fits 64 (q_DeviceAddr q) ∧ fits 64 (q_guestPhysBase q).

Definition ram_wf (r : Ram) : Prop :=
  bytes (ram_mem r) ∧ zlen (ram_mem r) < 2 ^ 63 ∧
  match ram_dirty r with Some d => DirtyTracker.wf d | None => True end.

#[export] Instance queue_wf_dec q : Decision (queue_wf q).
Proof. unfold queue_wf. apply _. Defined.
#[export] Instance ram_wf_dec r : Decision (ram_wf r).
Proof. unfold ram_wf, bytes. destruct (ram_dirty r); apply _. Defined.

(** The [n] bytes at guest-physical address [a] are RAM. *)
Definition in_ram (q : Queue) (r : Ram) (a n : Z) : Prop :=
  q_guestPhysBase q ≤ a ∧ a - q_guestPhysBase q + n ≤ zlen (ram_mem r).

(** ** Bounds *)

Lemma checkedRange_iff q r a n s e :
  queue_wf q → ram_wf r → fits 64 a → fits 64 n →
  checkedRange q r a n = Ok (s, e) ↔
  (n = 0 ∧ s = 0 ∧ e = 0) ∨
  (0 < n ∧ in_ram q r a n ∧ s = a - q_guestPhysBase q ∧ e = s + n).
Proof.
  intros Hq Hr [Ha0 Ha] [Hn0 Hn]. destruct Hr as (_ & Hlen & _).
  destruct Hq as (_ & _ & _ & _ & _ & [Hb0 Hb]). unfold checkedRange, in_ram.
  destruct (Z.eqb_spec n 0) as [->|Hnz]; [naive_solver lia|].
  destruct (Z.ltb_spec a (q_guestPhysBase q)) as [Hlt|Hge]; [naive_solver lia|].
  rewrite (u64_small (a - _)) by lia. set (o := a - q_guestPhysBase q).
  destruct (Z.lt_ge_cases (o + n) (2 ^ 64)) as [Hs|Hs].
  - rewrite u64_small by lia. lt_is false.
    destruct (Z.ltb_spec (zlen (ram_mem r)) (o + n)); naive_solver lia.
  - assert (u64 (o + n) = o + n - 2 ^ 64) as ->.
    { unfold u64. symmetry. apply Z.mod_unique with 1; lia. }
    lt_is true. naive_solver lia.
Qed.

Lemma checkedRange_completes q r a n : completes (checkedRange q r a n).
Proof. unfold checkedRange. by repeat case_match. Qed.

Lemma checkedRange_in_ram q r a n p :
  queue_wf q → ram_wf r → fits 64 a → fits 64 n → 0 < n →
  checkedRange q r a n = Ok p → in_ram q r a n.
Proof.
  intros Hq Hr Ha Hn Hpos H. destruct p as [s e].
  apply checkedRange_iff in H; [|done..]. destruct H as [?|?]; naive_solver lia.
Qed.

Lemma off_in_ram q r a n :
  queue_wf q → ram_wf r → fits 64 a → in_ram q r a n → 0 ≤ n →
  off q a = a - q_guestPhysBase q ∧ 0 ≤ off q a ∧ off q a + n ≤ zlen (ram_mem r).
Proof.
  intros Hq Hr [Ha0 Ha] [Hb Hm] Hn. destruct Hr as (_ & Hlen & _).
  destruct Hq as (_ & _ & _ & _ & _ & [Hb0 _]).
  unfold off. rewrite u64_small; lia.
Qed.

(** A fixed-width load at an address that was range-checked does not panic. *)
Lemma load_ok q r a n k o :
  queue_wf q → ram_wf r → fits 64 a → in_ram q r a n →
  0 ≤ o → o + Z.of_nat k ≤ n → is_Some (getLE k (ram_mem r) (off q a + o)).
Proof.
  intros Hq Hr Ha Hin Ho Hk.
  destruct (off_in_ram q r a n) as (_ & ? & ?); [done..|lia|]. apply getLE_ok; lia.
Qed.

Lemma normalizedSize_Ok q size :
  normalizedSize q = Ok size → queue_wf q → size = q_Size q ∧ 0 < size ≤ 256.
Proof.
  unfold normalizedSize, MaxQueueSize. intros H ([? ?] & _).
  case_match; b2p; simplify_eq. rewrite u16_small; lia.
Qed.

Lemma normalizedSize_completes q : completes (normalizedSize q).
Proof. unfold normalizedSize. by case_match. Qed.

Lemma has_bit f b : has f b = true ↔ f .& b ≠ 0.
Proof. unfold has. rewrite negb_true_iff, Z.eqb_neq. done. Qed.

Lemma AvailIdx_completes q r : queue_wf q → ram_wf r → completes (AvailIdx q r).
Proof.
  intros Hq Hr. unfold AvailIdx. case_match; [done|]. set (a := u64 _).
  assert (fits 64 a) as Ha by apply fits_u64.
  apply completes_bind; [apply checkedRange_completes|]. intros p Hck.
  apply checkedRange_in_ram in Hck; [|done..|by unfold fits|lia].
  destruct (load_ok q r a 2 2 0) as [v Hv]; [done..|lia|lia|]. rewrite Z.add_0_r in Hv. by rewrite Hv.
Qed.

(** ** Descriptors *)

Definition desc_wf (d : Desc) : Prop :=
  fits 64 (d_Addr d) ∧ fits 32 (d_Len d) ∧ fits 16 (d_Flags d) ∧ fits 16 (d_Next d).

Lemma readDesc_sat q r i :
  queue_wf q → ram_wf r → fits 16 i → res_sat desc_wf (readDesc q r i).
Proof.
  intros Hq Hr Hi. unfold readDesc.
  apply sat_bind_completes; [apply normalizedSize_completes|]. intros size Hs.
  apply normalizedSize_Ok in Hs as [-> Hs]; [|done].
  destruct (Z.leb_spec (q_Size q) i); [done|].
  set (gpa := u64 _) in *. assert (fits 64 gpa) as Hg by apply fits_u64.
  apply sat_bind_completes; [apply checkedRange_completes|]. intros p Hc.
  apply checkedRange_in_ram in Hc; [|done..|by unfold fits|lia].
  apply sat_bind_must; [rewrite <- (Z.add_0_r (off q gpa)); apply load_ok with 16; done || lia|].
  intros v1 H1. apply sat_bind_must; [apply load_ok with 16; done || lia|].
  intros v2 H2. apply sat_bind_must; [apply load_ok with 16; done || lia|].
  intros v3 H3. apply sat_bind_must; [apply load_ok with 16; done || lia|].
  intros v4 H4. destruct Hr as (Hby & _). unfold desc_wf. simpl. split_and!.
  - by apply (getLE_fits 8) in H1.
  - by apply (getLE_fits 4) in H2.
  - by apply (getLE_fits 2) in H3.
  - by apply (getLE_fits 2) in H4.
Qed.

(** ** Descriptor chains: the specification of [WalkChain] *)

Section chain_spec.
Context (q : Queue) (r : Ram).

(** [chain_from i js ds]: following [Next] from descriptor [i] visits the
    table indices [js], whose descriptors are [ds], and ends there. *)
Inductive chain_from : Z → list Z → list Desc → Prop :=
  | chain_last i d :
      readDesc q r i = Ok d → has (d_Flags d) DescFlagNext = false →
      chain_from i [i] [d]
  | chain_next i d js ds :
      readDesc q r i = Ok d → has (d_Flags d) DescFlagNext = true →
      d_Next d < q_Size q → chain_from (d_Next d) js ds →
      chain_from i (i :: js) (d :: ds).
End chain_spec.

Definition desc_allowed (d : Desc) : Prop :=
  has (d_Flags d) DescFlagIndirect = false ∧ d_Len d ≤ MaxDescriptorSizeBytes.

Definition chain_bytes (ds : list Desc) : Z := foldr (λ d a, d_Len d + a) 0 ds.

(** The chains the device accepts: no index twice, no indirect descriptor,
    every length and the total within the limits. *)
Definition valid_chain (q : Queue) (r : Ram) (head : Z) (ds : list Desc) : Prop :=
  ∃ js, chain_from q r head js ds ∧ NoDup js ∧
    Forall desc_allowed ds ∧ chain_bytes ds ≤ MaxDescriptorChainBytes.

Lemma MaxDescriptorChainBytes_val : MaxDescriptorChainBytes = 67108864.
Proof. reflexivity. Qed.

(** Number of table entries not visited yet: the measure of the loop. *)
Definition unseen (seen : list bool) : nat := length (filter (λ b, b = false) seen).

Lemma unseen_insert seen i :
  seen !! i = Some false → S (unseen (<[i := true]> seen)) = unseen seen.
Proof.
  revert i. induction seen as [|b seen IH]; intros [|i] H; simplify_eq/=; [done|].
  unfold unseen in *. rewrite !filter_cons. destruct (decide (b = false)); simpl; auto.
Qed.

Lemma unseen_replicate n : unseen (replicate n false) = n.
Proof. unfold unseen. induction n as [|n IH]; [done|]. simpl in *. by rewrite IH. Qed.

Lemma at_insert_seen seen i j :
  0 ≤ i < zlen seen → at_ (<[Z.to_nat i := true]> seen) j = Some false ↔ j ≠ i ∧ at_ seen j = Some false.
Proof.
  intros Hi. unfold zlen in Hi. rewrite !at_Some. destruct (decide (j = i)) as [->|Hne].
  - rewrite list_lookup_insert_eq by lia. naive_solver.
  - split.
    + intros [Hj H]. rewrite list_lookup_insert_ne in H by lia. done.
    + intros (_ & Hj & H). rewrite list_lookup_insert_ne by lia. done.
Qed.

Lemma chain_from_bytes_nonneg q r i js ds :
  queue_wf q → ram_wf r → fits 16 i → chain_from q r i js ds → 0 ≤ chain_bytes ds.
Proof.
  intros Hq Hr Hi. induction 1 as [i d Hd|i d js ds Hd _ _ _ IH]; simpl;
    pose proof (res_sat_Ok _ _ _ (readDesc_sat q r _ Hq Hr Hi) Hd) as (_ & [? _] & _ & Hn);
    [lia|specialize (IH Hn); lia].
Qed.

(** One step of the loop when the entry [i] is new: what the loop does with
    the descriptor it reads. *)
Lemma walk_loop_unfold fuel q r size i total seen chain :
  at_ seen i = Some false →
  walk_loop (S fuel) q r size i total seen chain =
    (d ← readDesc q r i;
     if has (d_Flags d) DescFlagIndirect then Err IndirectUnsupported
     else if MaxDescriptorSizeBytes <? d_Len d then Err (DescTooLong (d_Len d))
     else if MaxDescriptorChainBytes <? u64 (total + d_Len d) then Err (ChainTooLong (u64 (total + d_Len d)))
     else if MaxDescriptorChainLength <? zlen (chain ++ [d]) then Err ChainTooManyEntries
     else if negb (has (d_Flags d) DescFlagNext) then Ok (chain ++ [d])
     else if size <=? d_Next d then Err (DescNextOutOfBounds (d_Next d) size)
     else walk_loop fuel q r size (d_Next d) (u64 (total + d_Len d))
            (<[Z.to_nat i := true]> seen) (chain ++ [d])).
Proof.
  intros Hat. cbn [walk_loop]. rewrite Hat. simpl.
  apply at_bound in Hat as Hb. unfold set_at. and_is true. done.
Qed.

(** The part of a valid chain that is left when the loop reaches entry [i]
    with [total] bytes and the entries [seen] behind it. *)
Definition valid_rest (q : Queue) (r : Ram) (i total : Z) (seen : list bool) (ds : list Desc) : Prop :=
  ∃ js, chain_from q r i js ds ∧ NoDup js ∧ Forall (λ j, at_ seen j = Some false) js ∧
    Forall desc_allowed ds ∧ total + chain_bytes ds ≤ MaxDescriptorChainBytes.

Lemma valid_rest_seen q r i total seen ds :
  valid_rest q r i total seen ds → at_ seen i = Some false.
Proof. intros (js & Hc & _ & Hall & _). by inversion Hc; subst; inversion Hall. Qed.

Lemma valid_rest_read q r i total seen ds :
  valid_rest q r i total seen ds → ∃ d, readDesc q r i = Ok d.
Proof. intros (js & Hc & _). inversion Hc; eauto. Qed.

(** How a valid rest decomposes at its first descriptor. *)
Lemma valid_rest_step q r i total seen ds d :
  queue_wf q → ram_wf r → fits 16 i →
  at_ seen i = Some false → readDesc q r i = Ok d →
  valid_rest q r i total seen ds ↔
  ∃ ds', ds = d :: ds' ∧ desc_allowed d ∧ total + d_Len d ≤ MaxDescriptorChainBytes ∧
    (if has (d_Flags d) DescFlagNext
     then d_Next d < q_Size q ∧
          valid_rest q r (d_Next d) (total + d_Len d) (<[Z.to_nat i := true]> seen) ds'
     else ds' = []).
Proof.
  intros Hq Hr Hi Hs Hrd. apply at_bound in Hs as Hb.
  pose proof (res_sat_Ok _ _ _ (readDesc_sat q r i Hq Hr Hi) Hrd) as (_ & _ & _ & Hn16).
  split.
  - intros (js & Hc & Hnd & Hall & Hok & Hsum).
    inversion Hc as [? ? Hd Hn|? ? js' ds' Hd Hn Hlt Hc']; simplify_eq;
      rewrite Hrd in Hd; simplify_eq; inversion Hok; simplify_eq; simpl in Hsum.
    + exists []. rewrite Hn. do 2 (split; [done|]). split; [lia|done].
    + exists ds'. rewrite Hn.
      pose proof (chain_from_bytes_nonneg _ _ _ _ _ Hq Hr Hn16 Hc').
      do 2 (split; [done|]). split; [lia|]. split; [done|]. exists js'.
      apply NoDup_cons in Hnd as [Hni Hnd]. inversion Hall; simplify_eq.
      split_and!; try done; [|lia].
      rewrite Forall_forall in *. intros j Hj. apply at_insert_seen; [lia|].
      split; [congruence|auto].
  - intros (ds' & -> & Hok & Hsum & Hnext).
    destruct (has (d_Flags d) DescFlagNext) eqn:Hn; [|subst ds'].
    + destruct Hnext as (Hlt & js & Hc & Hnd & Hall & Hoks & Hsum').
      exists (i :: js). split_and!; [by eapply chain_next| | |by constructor|simpl; lia].
      * apply NoDup_cons. split; [|done]. intros Hin. rewrite Forall_forall in Hall.
        apply Hall, at_insert_seen in Hin as [? _]; [done|lia].
      * constructor; [done|]. eapply Forall_impl; [done|]. simpl. intros j Hj.
        apply at_insert_seen in Hj as [_ ?]; [done|lia].
    + exists [i]. split; [by apply chain_last|]. split; [apply NoDup_singleton|].
      do 2 (split; [by apply Forall_singleton|]). simpl. lia.
Qed.

(** The loop completes, and returns a chain exactly when the rest of the table
    from [i] on is a valid one over unvisited entries. *)
Lemma walk_loop_spec q r :
  queue_wf q → ram_wf r → 0 < q_Size q ≤ 256 →
  ∀ fuel i total seen chain,
  0 ≤ i < q_Size q → 0 ≤ total ≤ MaxDescriptorChainBytes →
  zlen seen = q_Size q → zlen chain + Z.of_nat (unseen seen) = q_Size q →
  (unseen seen < fuel)%nat →
  completes (walk_loop fuel q r (q_Size q) i total seen chain) ∧
  ∀ out, walk_loop fuel q r (q_Size q) i total seen chain = Ok out ↔
    ∃ ds, out = chain ++ ds ∧ valid_rest q r i total seen ds.
Proof.
  intros Hq Hr Hsz. induction fuel as [|fuel IH]; intros i total seen chain Hi Ht Hseen Hch Hf; [lia|].
  assert (fits 16 i) as Hi16 by (unfold fits; lia).
  destruct (at_ok seen i) as [s Hs]; [lia|]. destruct s.
  { cbn [walk_loop]. rewrite Hs. simpl. split; [done|]. intros out. split; [done|].
    intros (ds & _ & Hv%valid_rest_seen). congruence. }
  rewrite (walk_loop_unfold _ _ _ _ _ _ _ _ Hs).
  pose proof (readDesc_sat q r i Hq Hr Hi16) as Hd.
  destruct (readDesc q r i) as [d|e| |] eqn:Hrd; simpl in Hd |- *; try done.
  2: { split; [done|]. intros out. split; [done|].
       intros (ds & _ & (? & ?)%valid_rest_read). congruence. }
  destruct Hd as (_ & [Hl0 Hl] & _ & [Hn0 _]).
  assert (u64 (total + d_Len d) = total + d_Len d) as ->
    by (apply u64_small; rewrite MaxDescriptorChainBytes_val in Ht; lia).
  setoid_rewrite (valid_rest_step _ _ _ _ _ _ _ Hq Hr Hi16 Hs Hrd).
  unfold desc_allowed. rewrite zlen_app. change (zlen [d]) with 1.
  destruct (has (d_Flags d) DescFlagIndirect); [split; naive_solver|].
  destruct (Z.ltb_spec MaxDescriptorSizeBytes (d_Len d)); [split; naive_solver lia|].
  destruct (Z.ltb_spec MaxDescriptorChainBytes (total + d_Len d)); [split; naive_solver lia|].
  destruct (Z.ltb_spec MaxDescriptorChainLength (zlen chain + 1)) as [Hbad|_].
  { apply at_Some in Hs as [_ Hs]. apply unseen_insert in Hs.
    unfold MaxDescriptorChainLength, MaxQueueSize in Hbad. lia. }
  destruct (has (d_Flags d) DescFlagNext); simpl; [|split; naive_solver].
  destruct (Z.leb_spec (q_Size q) (d_Next d)); [split; naive_solver lia|].
  apply at_Some in Hs as [_ Hs%unseen_insert].
  destruct (IH (d_Next d) (total + d_Len d) (<[Z.to_nat i := true]> seen) (chain ++ [d]))
    as [IHc IHs]; [lia..|unfold zlen in *; by rewrite length_insert|rewrite zlen_app; change (zlen [d]) with 1; lia|lia|].
  split; [done|]. intros out. rewrite IHs. split.
  - intros (ds & -> & Hv). exists (d :: ds). rewrite <- app_assoc. naive_solver.
  - intros (ds & -> & ds' & -> & _ & _ & _ & Hv). exists ds'. by rewrite <- app_assoc.
Qed.

Lemma WalkChain_cases q r head :
  queue_wf q → ram_wf r → 0 ≤ head →
  completes (WalkChain q r head) ∧
  ∀ ds, WalkChain q r head = Ok ds ↔
    0 < q_Size q ≤ MaxQueueSize ∧ head < q_Size q ∧ valid_chain q r head ds.
Proof.
  intros Hq Hr Hh. unfold WalkChain.
  destruct (normalizedSize q) as [size|e| |] eqn:Hs; simpl;
    try by (pose proof (normalizedSize_completes q) as Hc; rewrite Hs in Hc).
  2: { split; [done|]. intros ds. split; [done|]. intros (? & _). revert Hs.
       unfold normalizedSize, MaxQueueSize in *. or_is false. done. }
  apply normalizedSize_Ok in Hs as [-> Hs]; [|done]. unfold MaxQueueSize.
  destruct (Z.leb_spec (q_Size q) head); [split; naive_solver lia|].
  assert (unseen (replicate (Z.to_nat (q_Size q)) false) = Z.to_nat (q_Size q)) as Hu
    by apply unseen_replicate.
  assert (zlen (replicate (Z.to_nat (q_Size q)) false) = q_Size q) as Hz
    by (unfold zlen; rewrite length_replicate; lia).
  destruct (walk_loop_spec q r Hq Hr Hs (S (Z.to_nat (q_Size q))) head 0
              (replicate (Z.to_nat (q_Size q)) false) []) as [Hc Hok];
    [lia|rewrite MaxDescriptorChainBytes_val; lia|done|rewrite Hu; change (zlen []) with 0; lia|lia|].
  split; [done|]. intros ds. rewrite Hok. unfold valid_chain, valid_rest. simpl. split.
  - intros (? & -> & js & ? & ? & ? & ? & ?). split_and!; [lia..|]. eauto 10.
  - intros (_ & _ & js & Hcf & ? & ? & ?). exists ds. split; [done|]. exists js. split_and!; try done.
    clear -Hcf Hh Hs H Hq Hr. assert (fits 16 head) as Hf by (unfold fits; lia). revert Hf H.
    induction Hcf as [i d Hrd _|i d js ds Hrd _ Hlt _ IH]; intros Hf Hi.
    + apply Forall_singleton. apply at_Some. split; [apply Hf|]. apply lookup_replicate_2.
      destruct Hf. lia.
    + pose proof (res_sat_Ok _ _ _ (readDesc_sat q r i Hq Hr Hf) Hrd) as (_ & _ & _ & Hn).
      constructor; [|apply IH; [apply Hn|done..]].
      apply at_Some. split; [apply Hf|]. apply lookup_replicate_2. destruct Hf. lia.
Qed.

(** Every descriptor the device is handed is well-formed and within limits. *)
Lemma WalkChain_desc q r head ds :
  queue_wf q → ram_wf r → fits 16 head → WalkChain q r head = Ok ds →
  ds ≠ [] ∧ zlen ds ≤ 256 ∧ Forall desc_wf ds ∧ Forall desc_allowed ds ∧
  chain_bytes ds ≤ MaxDescriptorChainBytes.
Proof.
  intros Hq Hr Hh H. destruct (WalkChain_cases q r head) as [_ Hc]; [done..|apply Hh|].
  apply Hc in H as (Hs & Hlt & js & Hcf & Hnd & Hall & Hsum). unfold MaxQueueSize in Hs.
  assert (length js = length ds ∧ Forall desc_wf ds ∧ Forall (λ j, 0 ≤ j < q_Size q) js ∧ ds ≠ [])
    as (Hl & Hw & Hb & Hne).
  { clear -Hcf Hq Hr Hh Hlt.
    induction Hcf as [i d Hrd _|i d js ds Hrd _ Hlt' _ IH];
      pose proof (res_sat_Ok _ _ _ (readDesc_sat q r i Hq Hr Hh) Hrd) as Hd.
    - destruct Hh. split; [done|]. rewrite !Forall_singleton. split; [done|]. split; [lia|done].
    - destruct Hd as (? & ? & ? & Hn). destruct (IH Hn Hlt') as (? & ? & ? & ?). destruct Hh.
      split; [simpl; lia|]. rewrite !Forall_cons. split; [done|]. split; [|done]. split; [lia|done]. }
  split_and!; try done. unfold zlen. rewrite <- Hl.
  assert (length js ≤ length (seqZ 0 (q_Size q)))%nat as Hle.
  { apply submseteq_length, NoDup_submseteq; [done|]. intros j Hj.
    rewrite Forall_forall in Hb. apply elem_of_seqZ. specialize (Hb _ Hj). lia. }
  rewrite length_seqZ in Hle. lia.
Qed.

(** ** The available ring *)

Lemma u16_sub_succ a b :
  fits 16 a → fits 16 b → 0 < u16 (a - b) → u16 (a - u16 (b + 1)) = u16 (a - b) - 1.
Proof.
  unfold fits, u16. intros Ha Hb Hpos. rewrite Zminus_mod_idemp_r.
  replace (a - (b + 1)) with (a - b - 1) by lia. symmetry.
  apply Z.mod_unique with ((a - b) / 2 ^ 16).
  - pose proof (Z.mod_pos_bound (a - b) (2 ^ 16)). lia.
  - pose proof (Z.div_mod (a - b) (2 ^ 16)). lia.
Qed.

Lemma u16_sub_zero a b : fits 16 a → fits 16 b → u16 (a - b) = 0 ↔ b = a.
Proof.
  unfold fits, u16. intros Ha Hb. split; [|intros ->; by rewrite Z.sub_diag].
  intros H. apply Z.mod_divide in H as [k Hk]; [|lia]. nia.
Qed.

Lemma u16_add_add a k : u16 (u16 (a + 1) + k) = u16 (a + (k + 1)).
Proof. unfold u16. rewrite Zplus_mod_idemp_l. f_equal. lia. Qed.

Lemma collect_heads_spec size avail fuel :
  0 < size ≤ 256 → length (av_Ring avail) = 256%nat → fits 16 (av_Idx avail) →
  ∀ last acc, fits 16 last → fuel = Z.to_nat (u16 (av_Idx avail - last)) →
  ∃ hs, collect_heads fuel size avail last acc = Ok (acc ++ hs, av_Idx avail) ∧
    length hs = fuel ∧
    ∀ k : nat, (k < fuel)%nat → hs !! k = at_ (av_Ring avail) (u16 (last + Z.of_nat k) mod size).
Proof.
  intros Hsz Hlen Hidx. induction fuel as [|fuel IH]; intros last acc Hlast Hf;
    pose proof (u16_range (av_Idx avail - last)) as Hr; simpl.
  - assert (last = av_Idx avail) as -> by (apply u16_sub_zero; [done..|lia]).
    rewrite Z.eqb_refl. exists []. rewrite app_nil_r. split_and!; [done..|lia].
  - destruct (Z.eqb_spec last (av_Idx avail)) as [->|Hne].
    { rewrite Z.sub_diag in Hf. done. }
    rewrite (u16_small size) by lia.
    pose proof (Z.mod_pos_bound last size).
    destruct (at_ok (av_Ring avail) (last mod size)) as [h Hh].
    { unfold zlen. rewrite Hlen. lia. }
    rewrite Hh. simpl.
    destruct (IH (u16 (last + 1)) (acc ++ [h])) as (hs & Hc & Hl & Hk).
    { apply fits_u16. }
    { rewrite u16_sub_succ by (done || lia). lia. }
    exists (h :: hs). rewrite Hc, <- app_assoc. split_and!; [done|simpl; lia|].
    intros [|k] Hlt; simpl.
    + rewrite Z.add_0_r, u16_small by apply Hlast. done.
    + rewrite Hk by lia. rewrite u16_add_add. do 3 f_equal. lia.
Qed.

(** The guest's available-ring entry for the running index [i]. *)
Definition avail_entry (q : Queue) (r : Ram) (i : Z) : option Z :=
  getLE 2 (ram_mem r) (q_DriverAddr q - q_guestPhysBase q + 4 + (i mod q_Size q) * 2).

Lemma readAvail_spec q r :
  queue_wf q → ram_wf r →
  completes (readAvail q r) ∧
  ∀ av, readAvail q r = Ok av →
    0 < q_Size q ≤ 256 ∧ in_ram q r (q_DriverAddr q) (4 + q_Size q * 2) ∧
    fits 16 (av_Idx av) ∧
    getLE 2 (ram_mem r) (q_DriverAddr q - q_guestPhysBase q + 2) = Some (av_Idx av) ∧
    length (av_Ring av) = 256%nat ∧
    ∀ i, 0 ≤ i → at_ (av_Ring av) (i mod q_Size q) = avail_entry q r i.
Proof.
  intros Hq Hr.
  enough (res_sat (λ av, 0 < q_Size q ≤ 256 ∧ in_ram q r (q_DriverAddr q) (4 + q_Size q * 2) ∧
    fits 16 (av_Idx av) ∧
    getLE 2 (ram_mem r) (q_DriverAddr q - q_guestPhysBase q + 2) = Some (av_Idx av) ∧
    length (av_Ring av) = 256%nat ∧
    ∀ i, 0 ≤ i → at_ (av_Ring av) (i mod q_Size q) = avail_entry q r i) (readAvail q r)) as H.
  { split; [by eapply res_sat_completes|]. intros av Hav. by eapply res_sat_Ok in H. }
  unfold readAvail. apply sat_bind_completes; [apply normalizedSize_completes|].
  intros size Hs. apply normalizedSize_Ok in Hs as [-> Hs]; [|done].
  apply sat_bind_completes; [apply checkedRange_completes|]. intros p Hc.
  assert (fits 64 (q_DriverAddr q)) as Hd by apply Hq.
  apply checkedRange_in_ram in Hc; [|done..|unfold fits; lia|lia].
  destruct (off_in_ram q r _ _ Hq Hr Hd Hc) as (Ho & Ho0 & Hol); [lia|].
  apply sat_bind_must; [apply getLE_ok; lia|]. intros fl Hfl.
  apply sat_bind_must; [apply getLE_ok; lia|]. intros i Hi.
  apply sat_bind_must.
  { apply mapM_is_Some, Forall_forall. intros j Hj. apply elem_of_seqZ in Hj. apply getLE_ok; lia. }
  intros ring Hring. apply mapM_Some in Hring.
  assert (length ring = Z.to_nat (q_Size q)) as Hrl
    by (rewrite <- (Forall2_length _ _ _ Hring); apply length_seqZ).
  rewrite Ho in *. simpl. split_and!; try done; [lia..|by apply (getLE_fits 2) in Hi; [|apply Hr]| |].
  - rewrite length_app, length_replicate. lia.
  - intros k Hk. pose proof (Z.mod_pos_bound k (q_Size q)). unfold at_, avail_entry.
    le_is true. rewrite lookup_app_l by lia.
    destruct (Forall2_lookup_l _ _ _ (Z.to_nat (k mod q_Size q)) (k mod q_Size q) Hring)
      as (v & Hv & Hg); [apply lookup_seqZ; lia|].
    rewrite Hv. symmetry. done.
Qed.

Lemma IterAvail_collect_spec q r :
  queue_wf q → ram_wf r →
  completes (IterAvail_collect q r) ∧
  ∀ heads q', IterAvail_collect q r = Ok (heads, q') →
    ∃ i, getLE 2 (ram_mem r) (q_DriverAddr q - q_guestPhysBase q + 2) = Some i ∧
      fits 16 i ∧ 0 < q_Size q ≤ 256 ∧
      q' = set_LastAvail q i ∧ zlen heads = u16 (i - q_LastAvail q) ∧
      ∀ k : nat, (k < length heads)%nat →
        heads !! k = avail_entry q r (u16 (q_LastAvail q + Z.of_nat k)).
Proof.
  intros Hq Hr. destruct (readAvail_spec q r Hq Hr) as [Hc Hav]. unfold IterAvail_collect.
  destruct (readAvail q r) as [av|e| |]; simpl in *; [|by split..].
  destruct (Hav av eq_refl) as (Hs & _ & Hfit & Hidx & Hlen & Hring).
  destruct (collect_heads_spec (q_Size q) av (Z.to_nat (u16 (av_Idx av - q_LastAvail q))) Hs Hlen Hfit (q_LastAvail q) [])
    as (hs & -> & Hhl & Hk); [apply Hq|done|]. simpl. split; [done|].
  intros heads q' [= <- <-]. exists (av_Idx av).
  pose proof (u16_range (av_Idx av - q_LastAvail q)).
  split_and!; try done; [lia..| |].
  - unfold zlen. lia.
  - intros k Hkl. rewrite Hk by lia. apply Hring. apply u16_range.
Qed.

Lemma avail_entry_fits q r i v : ram_wf r → avail_entry q r i = Some v → fits 16 v.
Proof. intros (Hb & _) H. by apply (getLE_fits 2) in H. Qed.

Lemma IterAvail_collect_heads q r heads q' h :
  queue_wf q → ram_wf r → IterAvail_collect q r = Ok (heads, q') → h ∈ heads → fits 16 h.
Proof.
  intros Hq Hr H Hh. destruct (IterAvail_collect_spec q r Hq Hr) as [_ Hs].
  destruct (Hs _ _ H) as (i & _ & _ & _ & _ & _ & Hk).
  apply list_elem_of_lookup in Hh as [k Hl]. pose proof (lookup_lt_Some _ _ _ Hl).
  rewrite Hk in Hl by done. by eapply avail_entry_fits.
Qed.

Lemma set_LastAvail_wf q v : queue_wf q → fits 16 v → queue_wf (set_LastAvail q v).
Proof. unfold queue_wf. simpl. naive_solver. Qed.

Lemma IterAvail_collect_wf q r heads q' :
  queue_wf q → ram_wf r → IterAvail_collect q r = Ok (heads, q') → queue_wf q'.
Proof.
  intros Hq Hr H. destruct (IterAvail_collect_spec q r Hq Hr) as [_ Hs].
  destruct (Hs _ _ H) as (i & _ & ? & _ & -> & _). by apply set_LastAvail_wf.
Qed.

Lemma ConsumeAvail_take_spec q r :
  queue_wf q → ram_wf r →
  completes (ConsumeAvail_take q r) ∧
  ∀ o q', ConsumeAvail_take q r = Ok (o, q') →
    ∃ i, getLE 2 (ram_mem r) (q_DriverAddr q - q_guestPhysBase q + 2) = Some i ∧
      (q_LastAvail q = i ∧ o = None ∧ q' = q ∨
       q_LastAvail q ≠ i ∧ o = avail_entry q r (q_LastAvail q) ∧ is_Some o ∧
       q' = set_LastAvail q (u16 (q_LastAvail q + 1))).
Proof.
  intros Hq Hr. destruct (readAvail_spec q r Hq Hr) as [Hc Hav]. unfold ConsumeAvail_take.
  destruct (readAvail q r) as [av|e| |]; simpl in *; [|by split..].
  destruct (Hav av eq_refl) as (Hs & _ & Hfit & Hidx & Hlen & Hring).
  assert (0 ≤ q_LastAvail q) as Hla by apply Hq.
  destruct (Z.eqb_spec (q_LastAvail q) (av_Idx av)) as [Heq|Hne].
  { split; [done|]. intros o q' [= <- <-]. eauto 10. }
  rewrite (u16_small (q_Size q)) by lia. rewrite (Hring _ Hla).
  assert (is_Some (avail_entry q r (q_LastAvail q))) as [h Hh].
  { rewrite <- Hring by done. apply at_ok. unfold zlen. rewrite Hlen.
    pose proof (Z.mod_pos_bound (q_LastAvail q) (q_Size q)). lia. }
  rewrite Hh. simpl. split; [done|]. intros o q' [= <- <-]. eauto 10.
Qed.

(** ** Writes: the used ring and guest buffers *)

Lemma markDirty_sat {E} r addr length :
  ram_wf r → 0 ≤ addr → 0 ≤ length < 2 ^ 64 →
  ∃ r', markDirty (E:=E) r addr length = Ok r' ∧ ram_mem r' = ram_mem r ∧ ram_wf r' ∧
    match ram_dirty r with
    | None => ram_dirty r' = None
    | Some d => ∃ d', Mark (E:=E) d addr length = Ok d' ∧ ram_dirty r' = Some d'
    end.
Proof.
  intros (Hb & Hl & Hd) Ha Hn. unfold markDirty. destruct (ram_dirty r) as [d|] eqn:Er.
  - destruct (Mark_spec (E:=E) d addr length Hd Ha Hn) as (d' & Hm & Hwf & _).
    rewrite Hm. simpl. eexists. split; [done|]. split; [done|].
    split; [by unfold ram_wf|]. eauto.
  - exists r. split; [done|]. split; [done|]. split; [|done]. unfold ram_wf. by rewrite Er.
Qed.

Lemma set_mem_wf r m : ram_wf r → bytes m → zlen m = zlen (ram_mem r) → ram_wf (set_mem r m).
Proof. intros (_ & Hl & Hd) Hb Hz. unfold ram_wf. simpl. rewrite Hz. done. Qed.

(** The guest-physical positions of the used ring's index and of the entry
    that the running index [u] selects. *)
Definition used_idx_gpa (q : Queue) : Z := u64 (q_DeviceAddr q + 2).
Definition used_entry_gpa (q : Queue) (u : Z) : Z := u64 (q_DeviceAddr q + 4 + (u mod q_Size q) * 8).

Lemma used_disjoint q u :
  queue_wf q → 0 < q_Size q ≤ 256 →
  used_idx_gpa q + 2 ≤ used_entry_gpa q u ∨ used_entry_gpa q u + 8 ≤ used_idx_gpa q.
Proof.
  intros (_ & _ & _ & _ & [Hd0 Hd] & _) Hs. unfold used_idx_gpa, used_entry_gpa.
  pose proof (Z.mod_pos_bound u (q_Size q)). set (k := u mod q_Size q) in *.
  assert (∀ x, 0 ≤ x < 2 ^ 65 → u64 x = x ∧ x < 2 ^ 64 ∨ u64 x = x - 2 ^ 64 ∧ 2 ^ 64 ≤ x) as Hw.
  { intros x Hx. destruct (Z.lt_ge_cases x (2 ^ 64)).
    - left. rewrite u64_small; lia.
    - right. split; [|done]. unfold u64. symmetry. apply Z.mod_unique with 1; lia. }
  destruct (Hw (q_DeviceAddr q + 2)) as [[? ?]|[? ?]]; [lia|..];
    (destruct (Hw (q_DeviceAddr q + 4 + k * 8)) as [[? ?]|[? ?]]; lia).
Qed.

Lemma readUsedIdx_spec q r :
  queue_wf q → ram_wf r →
  completes (readUsedIdx q r) ∧
  ∀ u, readUsedIdx q r = Ok u →
    fits 16 u ∧ in_ram q r (used_idx_gpa q) 2 ∧
    getLE 2 (ram_mem r) (used_idx_gpa q - q_guestPhysBase q) = Some u.
Proof.
  intros Hq Hr. unfold readUsedIdx. fold (used_idx_gpa q).
  assert (fits 64 (used_idx_gpa q)) as Hg by apply fits_u64.
  pose proof (checkedRange_completes q r (used_idx_gpa q) 2) as Hc.
  destruct (checkedRange q r (used_idx_gpa q) 2) as [p|e| |] eqn:Hck; simpl in *; [|by split..].
  apply checkedRange_in_ram in Hck; [|done..|by unfold fits|lia].
  destruct (off_in_ram q r _ _ Hq Hr Hg Hck) as (Ho & Ho0 & Hol); [lia|].
  destruct (getLE_ok 2 (ram_mem r) (off q (used_idx_gpa q))) as [u Hu]; [lia..|].
  rewrite Hu. simpl. split; [done|]. intros ? [= <-]. split; [|split; [done|by rewrite <- Ho]].
  by apply (getLE_fits 2) in Hu; [|apply Hr].
Qed.

(** What a completed [PushUsed] does to guest memory. *)
Definition pushed (q : Queue) (r r' : Ram) (id written : Z) : Prop :=
  ∃ u, let b := q_guestPhysBase q in
    getLE 2 (ram_mem r) (used_idx_gpa q - b) = Some u ∧
    getLE 2 (ram_mem r') (used_idx_gpa q - b) = Some (u16 (u + 1)) ∧
    getLE 4 (ram_mem r') (used_entry_gpa q u - b) = Some id ∧
    getLE 4 (ram_mem r') (used_entry_gpa q u - b + 4) = Some written ∧
    zlen (ram_mem r') = zlen (ram_mem r) ∧
    ∀ lo hi, (hi ≤ used_entry_gpa q u - b ∨ used_entry_gpa q u - b + 8 ≤ lo) →
      (hi ≤ used_idx_gpa q - b ∨ used_idx_gpa q - b + 2 ≤ lo) →
      slice (ram_mem r') lo hi = slice (ram_mem r) lo hi.

Lemma checkedRange_ok q r a n :
  queue_wf q → ram_wf r → fits 64 a → fits 64 n → 0 < n → in_ram q r a n →
  checkedRange q r a n = Ok (a - q_guestPhysBase q, a - q_guestPhysBase q + n).
Proof. intros. apply checkedRange_iff; try done. right. done. Qed.

(** The stores of [pushUsedLocked], once the ranges are checked. *)
Lemma push_stores q r u id written :
  queue_wf q → ram_wf r → fits 32 id → fits 32 written → 0 < q_Size q ≤ 256 →
  getLE 2 (ram_mem r) (used_idx_gpa q - q_guestPhysBase q) = Some u →
  in_ram q r (used_idx_gpa q) 2 → in_ram q r (used_entry_gpa q u) 8 →
  ∃ r', (m ← must (putLE 4 (ram_mem r) (off q (used_entry_gpa q u)) id);
         m ← must (putLE 4 m (off q (used_entry_gpa q u) + 4) written);
         m ← must (putLE 2 m (off q (used_idx_gpa q)) (u16 (u + 1)));
         r ← markDirty (set_mem r m) (used_entry_gpa q u) 8;
         markDirty r (used_idx_gpa q) 2) = (Ok r' : res qerr Ram) ∧
    ram_wf r' ∧ pushed q r r' id written.
Proof.
  intros Hq Hr Hid Hw Hs Hul Hui Hp.
  assert (fits 64 (used_entry_gpa q u)) as Hg by apply fits_u64.
  assert (fits 64 (used_idx_gpa q)) as Hg' by apply fits_u64.
  destruct (off_in_ram q r _ _ Hq Hr Hg Hp) as (-> & He0 & Hel); [lia|].
  destruct (off_in_ram q r _ _ Hq Hr Hg' Hui) as (-> & Hi0 & Hil); [lia|].
  pose proof (used_disjoint q u Hq Hs) as Hdis.
  set (eo := used_entry_gpa q u - q_guestPhysBase q) in *.
  set (io := used_idx_gpa q - q_guestPhysBase q) in *.
  destruct (putLE_ok 4 (ram_mem r) eo id) as [m1 H1]; [lia..|]. pose proof (putLE_len _ _ _ _ _ H1) as L1.
  destruct (putLE_ok 4 m1 (eo + 4) written) as [m2 H2]; [lia..|]. pose proof (putLE_len _ _ _ _ _ H2) as L2.
  destruct (putLE_ok 2 m2 io (u16 (u + 1))) as [m3 H3]; [lia..|]. pose proof (putLE_len _ _ _ _ _ H3) as L3.
  assert (ram_wf (set_mem r m3)) as Hr3.
  { apply set_mem_wf; [done| |lia]. destruct Hr as [Hb _].
    eapply bytes_putLE; [|done]. eapply bytes_putLE; [|done]. by eapply bytes_putLE. }
  destruct (markDirty_sat (E:=qerr) (set_mem r m3) (used_entry_gpa q u) 8 Hr3) as (r1 & E1 & M1 & W1 & _);
    [apply Hg|lia|].
  destruct (markDirty_sat (E:=qerr) r1 (used_idx_gpa q) 2 W1) as (r2 & E2 & M2 & W2 & _);
    [apply Hg'|lia|].
  rewrite H1. simpl. rewrite H2. simpl. rewrite H3. simpl. rewrite E1. simpl.
  exists r2. split; [done|]. split; [done|]. exists u. simpl.
  rewrite M2, M1. simpl. unfold fits in *. splits.
  - done.
  - eapply getLE_putLE_same; [done|]. pose proof (u16_range (u + 1)). simpl. lia.
  - erewrite getLE_putLE_frame; [|exact H3|lia]. erewrite getLE_putLE_frame; [|exact H2|lia].
    eapply getLE_putLE_same; [done|]. simpl. lia.
  - erewrite getLE_putLE_frame; [|exact H3|lia]. eapply getLE_putLE_same; [done|]. simpl. lia.
  - lia.
  - intros lo hi He Hi. unfold putLE in *.
    rewrite (slice_splice_frame _ _ _ _ _ _ H3), (slice_splice_frame _ _ _ _ _ _ H2),
      (slice_splice_frame _ _ _ _ _ _ H1); rewrite ?zlen_le_encode; lia || done.
Qed.

Lemma pushUsed_sat q r id written :
  queue_wf q → ram_wf r → fits 32 id → fits 32 written →
  res_sat (λ r', ram_wf r' ∧ pushed q r r' id written) (pushUsedLocked q r id written).
Proof.
  intros Hq Hr Hid Hw. unfold pushUsedLocked.
  apply sat_bind_completes; [apply normalizedSize_completes|].
  intros size Hs. apply normalizedSize_Ok in Hs as [-> Hs]; [|done].
  destruct (readUsedIdx_spec q r Hq Hr) as [Hcu Hu].
  apply sat_bind_completes; [done|]. intros u Hru. destruct (Hu _ Hru) as (Huf & Hui & Hul).
  rewrite (u16_small (q_Size q)) by lia. fold (used_entry_gpa q u) (used_idx_gpa q).
  apply sat_bind_completes; [apply checkedRange_completes|]. intros p Hp.
  apply checkedRange_in_ram in Hp; [|done..|apply fits_u64|by unfold fits|lia].
  apply sat_bind_completes; [apply checkedRange_completes|]. intros p' _.
  destruct (push_stores q r u id written) as (r' & -> & Hr'); done.
Qed.

Lemma pushUsed_ok q r u id written :
  queue_wf q → ram_wf r → fits 32 id → fits 32 written → 0 < q_Size q ≤ 256 →
  getLE 2 (ram_mem r) (used_idx_gpa q - q_guestPhysBase q) = Some u →
  in_ram q r (used_idx_gpa q) 2 → in_ram q r (used_entry_gpa q u) 8 →
  ∃ r', pushUsedLocked q r id written = Ok r' ∧ ram_wf r' ∧ pushed q r r' id written.
Proof.
  intros Hq Hr Hid Hw Hs Hu Hui Hue.
  assert (readUsedIdx q r = Ok u) as Hru.
  { unfold readUsedIdx. fold (used_idx_gpa q).
    rewrite (checkedRange_ok q r (used_idx_gpa q) 2) by (done || apply fits_u64).
    destruct (off_in_ram q r (used_idx_gpa q) 2 Hq Hr (fits_u64 _) Hui) as [Ho _]; [lia|].
    cbn [mbind res_bind]. rewrite Ho, Hu. done. }
  assert (normalizedSize q = Ok (u16 (q_Size q))) as Hns
    by (unfold normalizedSize, MaxQueueSize; or_is false; done).
  unfold pushUsedLocked. rewrite Hns, Hru. cbn [mbind res_bind]. fold (used_idx_gpa q).
  rewrite (checkedRange_ok q r (used_idx_gpa q) 2) by (done || apply fits_u64).
  rewrite (u16_small (q_Size q)) by lia. fold (used_entry_gpa q u).
  rewrite (checkedRange_ok q r (used_entry_gpa q u) 8) by (done || apply fits_u64). simpl.
  by apply push_stores.
Qed.

Lemma GuestRead_sat q r addr n :
  queue_wf q → ram_wf r → fits 64 addr → fits 64 n →
  res_sat (λ bs, bytes bs ∧ zlen bs = n ∧ (0 < n → in_ram q r addr n ∧
      slice (ram_mem r) (addr - q_guestPhysBase q) (addr - q_guestPhysBase q + n) = Some bs))
    (GuestRead q r addr n).
Proof.
  intros Hq Hr Ha Hn. unfold GuestRead.
  apply sat_bind_completes; [apply checkedRange_completes|]. intros [s e] Hc.
  apply checkedRange_iff in Hc; [|done..]. destruct Hr as (Hby & _).
  assert (is_Some (slice (ram_mem r) s e)) as [bs Hbs].
  { apply slice_ok; [destruct Hc as [(? & -> & ->)|(? & [? ?] & -> & ->)]; lia|].
    pose proof (zlen_nonneg (ram_mem r)). destruct Hc as [(? & -> & ->)|(? & [? ?] & -> & ->)]; lia. }
  rewrite Hbs. simpl. pose proof (slice_len _ _ _ _ Hbs).
  split; [by eapply bytes_slice|].
  destruct Hc as [(-> & -> & ->)|(? & ? & -> & ->)]; split; [lia..|lia|]. intros _. done.
Qed.

(** What a completed [GuestWrite] does to guest memory. *)
Definition wrote (q : Queue) (r r' : Ram) (addr : Z) (buf : list Z) : Prop :=
  let o := addr - q_guestPhysBase q in
  zlen (ram_mem r') = zlen (ram_mem r) ∧
  (buf ≠ [] → slice (ram_mem r') o (o + zlen buf) = Some buf) ∧
  (∀ lo hi, hi ≤ o ∨ o + zlen buf ≤ lo → slice (ram_mem r') lo hi = slice (ram_mem r) lo hi).

Lemma GuestWrite_sat q r addr buf :
  queue_wf q → ram_wf r → fits 64 addr → bytes buf → zlen buf < 2 ^ 63 →
  res_sat (λ r', ram_wf r' ∧ wrote q r r' addr buf ∧
                 (0 < zlen buf → in_ram q r addr (zlen buf)) ∧
                 match ram_dirty r with
                 | None => ram_dirty r' = None
                 | Some d => ∃ d', Mark (E:=qerr) d addr (zlen buf) = Ok d' ∧ ram_dirty r' = Some d'
                 end)
    (GuestWrite q r addr buf).
Proof.
  intros Hq Hr Ha Hb Hl. pose proof (zlen_nonneg buf).
  assert (fits 64 (zlen buf)) as Hn by (unfold fits; lia). unfold GuestWrite.
  apply sat_bind_completes; [apply checkedRange_completes|]. intros [s e] Hc.
  apply checkedRange_iff in Hc; [|done..].
  assert (is_Some (splice (ram_mem r) s buf)) as [m Hm].
  { pose proof (zlen_nonneg (ram_mem r)).
    destruct Hc as [(? & -> & ->)|(? & [? ?] & -> & ->)]; apply splice_ok; lia. }
  rewrite Hm. simpl. pose proof (splice_len _ _ _ _ Hm).
  destruct (markDirty_sat (E:=qerr) (set_mem r m) addr (zlen buf)) as (r' & -> & Hmem & Hwf & Hd);
    [apply set_mem_wf; [done| |done]; eapply bytes_splice; [apply Hr|done..]|apply Ha|lia|].
  simpl. split; [done|]. split; [|split; [destruct Hc; naive_solver lia|done]].
  unfold wrote. rewrite Hmem. simpl. split; [done|].
  destruct Hc as [(Hz & -> & ->)|(? & _ & -> & ->)].
  - apply zlen_0 in Hz as ->. apply splice_nil in Hm as ->. split; [done|]. naive_solver.
  - split; [intros _; by eapply slice_splice_same|].
    intros lo hi Hd'. eapply slice_splice_frame; [done|lia].
Qed.

(** ** A concrete queue for the witnesses

    A queue of four entries over 1 KiB of RAM: the table at 0x100, the
    available ring at 0x200, the used ring at 0x300.  Descriptor 0 (16 bytes,
    readable) links to 1 (32 bytes, writable), which ends the chain; the driver
    has made head 0 available once. *)
Definition encodeDesc (d : Desc) : list Z :=
  le_encode 8 (d_Addr d) ++ le_encode 4 (d_Len d) ++ le_encode 2 (d_Flags d) ++ le_encode 2 (d_Next d).

Definition poke (o : Z) (bs : list Z) (m : list Z) : list Z := default m (splice m o bs).

Definition ex_queue : Queue := mkQueue 4 true 0 0x100 0x200 0x300 0.

Definition ex_mem : list Z :=
  poke 0x100 (encodeDesc (mkDesc 0x10 16 DescFlagNext 1) ++ encodeDesc (mkDesc 0x20 32 DescFlagWrite 0))
  (poke 0x200 [0; 0; 1; 0; 0; 0; 0; 0; 0; 0; 0; 0] (replicate 1024 0)).

Definition ex_ram : Ram := mkRam ex_mem (Some (NewDirtyTracker 4096 1024)).

Lemma ex_queue_wf : queue_wf ex_queue.
Proof. by apply (bool_decide_unpack _). Qed.

Lemma ex_ram_wf : ram_wf ex_ram.
Proof. apply (bool_decide_unpack (ram_wf ex_ram)). vm_compute. done. Qed.

(** ** Properties *)

(** The bounds check of every guest-memory access is exact. On 64-bit
    arguments [checkedRange] succeeds exactly when the range is empty or lies
    inside guest RAM, and then returns the offsets of that range; in particular
    an address range that wraps around 2^64 is refused. *)
Theorem checkedRange_exact q r addr len s e :
  queue_wf q → ram_wf r → fits 64 addr → fits 64 len →
  checkedRange q r addr len = Ok (s, e) ↔
  (len = 0 ∧ s = 0 ∧ e = 0) ∨
  (0 < len ∧ q_guestPhysBase q ≤ addr ∧ addr - q_guestPhysBase q + len ≤ zlen (ram_mem r) ∧
   s = addr - q_guestPhysBase q ∧ e = s + len).
Proof.
  intros. rewrite checkedRange_iff by done. unfold in_ram. naive_solver.
Qed.

Lemma checkedRange_exact_witness : checkedRange ex_queue ex_ram 0x300 8 = Ok (0x300, 0x308).
Proof.
  apply (checkedRange_exact ex_queue ex_ram 0x300 8);
    [apply ex_queue_wf|apply ex_ram_wf|by unfold fits|by unfold fits|].
  right. vm_compute. repeat split; congruence.
Defined.

(** C21: [WalkChain] terminates without panicking on every descriptor table a
    guest can write, and it returns a chain exactly when that chain is the list
    of descriptors reached from the head by following [Next], with no table
    entry visited twice, no indirect descriptor, every length at most 16 MiB
    and the total at most 64 MiB. *)
Theorem WalkChain_exact q r head :
  queue_wf q → ram_wf r → fits 16 head →
  completes (WalkChain q r head) ∧
  ∀ ds, WalkChain q r head = Ok ds ↔
    0 < q_Size q ≤ MaxQueueSize ∧ head < q_Size q ∧ valid_chain q r head ds.
Proof. intros Hq Hr [Hh _]. by apply WalkChain_cases. Qed.

Lemma WalkChain_exact_witness :
  WalkChain ex_queue ex_ram 0
    = Ok [mkDesc 0x10 16 DescFlagNext 1; mkDesc 0x20 32 DescFlagWrite 0] ∧
  valid_chain ex_queue ex_ram 0 [mkDesc 0x10 16 DescFlagNext 1; mkDesc 0x20 32 DescFlagWrite 0].
Proof.
  split; [vm_compute; reflexivity|].
  apply (WalkChain_exact ex_queue ex_ram 0);
    [apply ex_queue_wf|apply ex_ram_wf|by unfold fits|vm_compute; reflexivity].
Defined.

(** [IterAvail] consumes the available ring exactly: it terminates without
    panicking, and when it succeeds it yields, in ring order, the entries of
    the running indices from [LastAvail] up to the driver's index (modulo
    2^16), each once, and leaves [LastAvail] equal to the driver's index. *)
Theorem IterAvail_consumes_exactly q r :
  queue_wf q → ram_wf r →
  completes (IterAvail_collect q r) ∧
  ∀ heads q', IterAvail_collect q r = Ok (heads, q') →
    ∃ i, getLE 2 (ram_mem r) (q_DriverAddr q - q_guestPhysBase q + 2) = Some i ∧
      q' = set_LastAvail q i ∧ zlen heads = u16 (i - q_LastAvail q) ∧
      ∀ k : nat, (k < length heads)%nat →
        heads !! k = avail_entry q r (u16 (q_LastAvail q + Z.of_nat k)).
Proof.
  intros Hq Hr. destruct (IterAvail_collect_spec q r Hq Hr) as [Hc Hs]. split; [done|].
  intros heads q' H. destruct (Hs _ _ H) as (i & ? & _ & _ & ? & ? & ?). eauto.
Qed.

Lemma IterAvail_consumes_exactly_witness :
  ∃ i, getLE 2 (ram_mem ex_ram) 0x202 = Some i ∧ set_LastAvail ex_queue 1 = set_LastAvail ex_queue i.
Proof.
  destruct (IterAvail_consumes_exactly ex_queue ex_ram ex_queue_wf ex_ram_wf) as [_ H].
  destruct (H [0] (set_LastAvail ex_queue 1)) as (i & Hi & Hq & _); [vm_compute; reflexivity|].
  exists i. split; [exact Hi|exact Hq].
Defined.

(** [PushUsed] publishes a completion correctly. When the used ring lies in
    guest RAM it succeeds; the used index grows by one modulo 2^16, the entry
    that the old index selects holds the chain id and the byte count, and no
    other byte of guest memory changes. *)
Theorem PushUsed_publishes q r id written u :
  queue_wf q → ram_wf r → fits 32 id → fits 32 written → 0 < q_Size q ≤ MaxQueueSize →
  in_ram q r (used_idx_gpa q) 2 →
  getLE 2 (ram_mem r) (used_idx_gpa q - q_guestPhysBase q) = Some u →
  in_ram q r (used_entry_gpa q u) 8 →
  ∃ r', PushUsed q r id written = Ok r' ∧ ram_wf r' ∧ pushed q r r' id written.
Proof.
  unfold MaxQueueSize. intros. by eapply pushUsed_ok.
Qed.

Lemma PushUsed_publishes_witness :
  ∃ r', PushUsed ex_queue ex_ram 0 32 = Ok r' ∧ ram_wf r' ∧ pushed ex_queue ex_ram r' 0 32.
Proof.
  apply (PushUsed_publishes ex_queue ex_ram 0 32 0);
    [apply ex_queue_wf|apply ex_ram_wf|by unfold fits|by unfold fits|by vm_compute|
     by vm_compute|vm_compute; reflexivity|by vm_compute].
Defined.

(** A buffer written to guest RAM is read back unchanged, every range that
    does not overlap it still reads as before, and when RAM starts at guest
    address 0 (as on x86) every page that holds one of its bytes is dirty
    afterwards. *)
Theorem GuestWrite_roundtrip q r addr buf r' :
  queue_wf q → ram_wf r → fits 64 addr → bytes buf → buf ≠ [] → zlen buf < 2 ^ 63 →
  GuestWrite q r addr buf = Ok r' →
  GuestRead q r' addr (zlen buf) = Ok buf ∧
  (∀ a n, fits 64 a → fits 64 n → a + n ≤ addr ∨ addr + zlen buf ≤ a →
     GuestRead q r' a n = GuestRead q r a n) ∧
  (∀ d d' x, q_guestPhysBase q = 0 → ram_dirty r = Some d → ram_dirty r' = Some d' →
     dt_memSize d = zlen (ram_mem r) → addr ≤ x < addr + zlen buf →
     is_dirty d' (x / dt_pageSize d) = true).
Proof.
  intros Hq Hr Ha Hb Hne Hl Hok.
  assert (0 < zlen buf) as Hpos by (destruct buf; [done|]; rewrite zlen_cons; pose proof (zlen_nonneg buf); lia).
  assert (fits 64 (zlen buf)) as Hn by (unfold fits; lia).
  pose proof (res_sat_Ok _ _ _ (GuestWrite_sat q r addr buf Hq Hr Ha Hb Hl) Hok)
    as (Hr' & (Hlen & Hsame & Hframe) & Hin & Hdirty).
  specialize (Hin Hpos). splits.
  - unfold GuestRead. rewrite checkedRange_ok; try done.
    + simpl. rewrite (Hsame Hne). done.
    + unfold in_ram. by rewrite Hlen.
  - intros a n Hfa Hfn Hdis. unfold GuestRead.
    assert (checkedRange q r' a n = checkedRange q r a n) as ->
      by (unfold checkedRange; by rewrite Hlen).
    destruct (checkedRange q r a n) as [[s e]| | |] eqn:E; simpl; try done.
    apply checkedRange_iff in E; [|done..]. destruct E as [(-> & -> & ->)|(? & _ & -> & ->)].
    + unfold slice. pose proof (zlen_nonneg (ram_mem r)). rewrite Hlen.
      cbn [Z.leb Z.compare andb]. destruct (0 <=? zlen (ram_mem r)); done.
    + rewrite Hframe by lia. done.
  - intros d d' x Hb0 Hd Hd' Hms Hx. rewrite Hd in Hdirty. destruct Hdirty as (d'' & Hm & Hd'').
    simplify_eq. destruct Hin as [_ Hin]. destruct Hr as (_ & _ & Hwf). rewrite Hd in Hwf.
    apply (Mark_covers (E:=qerr) d addr (zlen buf)); [done|apply Ha|lia|done|done|lia].
Qed.

Definition ex_ram_after : Ram :=
  match GuestWrite ex_queue ex_ram 0x40 [1; 2; 3] with Ok r => r | _ => ex_ram end.

Lemma GuestWrite_roundtrip_witness : GuestRead ex_queue ex_ram_after 0x40 3 = Ok [1; 2; 3].
Proof.
  apply (GuestWrite_roundtrip ex_queue ex_ram 0x40 [1; 2; 3] ex_ram_after);
    [apply ex_queue_wf|apply ex_ram_wf|by unfold fits|by apply (bool_decide_unpack _)|done|by vm_compute|
     vm_compute; reflexivity].
Defined.

(** On a machine whose RAM starts at or above the tracked size (arm64: RAM
    at 0x80000000, tracker sized by the length of RAM, at most 2 GiB), no guest
    write is ever recorded: [GuestWrite] marks the guest-physical address, not
    the offset into RAM that the tracker counts in, so the bitmap stays as it
    was although memory changed. *)
Theorem GuestWrite_dirty_lost_above_base q r addr buf r' d :
  queue_wf q → ram_wf r → fits 64 addr → bytes buf → buf ≠ [] → zlen buf < 2 ^ 63 →
  ram_dirty r = Some d → dt_memSize d ≤ q_guestPhysBase q →
  GuestWrite q r addr buf = Ok r' →
  ram_dirty r' = Some d ∧
  slice (ram_mem r') (addr - q_guestPhysBase q) (addr - q_guestPhysBase q + zlen buf) = Some buf.
Proof.
  intros Hq Hr Ha Hb Hne Hl Hd Hbase Hok.
  assert (0 < zlen buf) as Hpos by (destruct buf; [done|]; rewrite zlen_cons; pose proof (zlen_nonneg buf); lia).
  pose proof (res_sat_Ok _ _ _ (GuestWrite_sat q r addr buf Hq Hr Ha Hb Hl) Hok)
    as (_ & (_ & Hsame & _) & Hin & Hdirty).
  specialize (Hin Hpos). destruct Hin as [Hge _]. rewrite Hd in Hdirty.
  destruct Hdirty as (d' & Hm & ->). split; [|by apply Hsame].
  revert Hm. unfold Mark. or_is true. by intros [= <-].
Qed.

Definition ex_queue_arm : Queue := SetGuestPhysBase ex_queue 0x80000000.

Lemma GuestWrite_dirty_lost_above_base_witness :
  ∃ r', GuestWrite ex_queue_arm ex_ram 0x80000040 [1; 2; 3] = Ok r' ∧ ram_dirty r' = ram_dirty ex_ram.
Proof.
  destruct (GuestWrite ex_queue_arm ex_ram 0x80000040 [1; 2; 3]) as [r'| | |] eqn:E;
    [|vm_compute in E; discriminate..].
  exists r'. split; [reflexivity|].
  apply (GuestWrite_dirty_lost_above_base ex_queue_arm ex_ram 0x80000040 [1; 2; 3] r'
           (NewDirtyTracker 4096 1024));
    [by apply (bool_decide_unpack _)|apply ex_ram_wf|by unfold fits|by apply (bool_decide_unpack _)|done|
     by vm_compute|reflexivity|by vm_compute|exact E].
Defined.
