(* ===== verification/Transport.v ===== *)
(** * The virtio-mmio transport (src/internal/virtio/virtio.go, [Transport])

    The transport is the register file between the guest driver and a device.
    A machine [VM D] is a device of type [D] with its transport and the guest
    RAM that the queues reference: Go devices embed [*Transport], so a device
    operation may touch all three.  The Go interfaces that a device implements
    ([Device] and the optional [ConfigWriter], [QueueNotifyInterceptor], ...)
    are the class [Device]; an optional interface is an [option] field.  What
    the transport relies on is the class [DeviceLaws]; the theorems about the
    transport are proved against it, and each device file discharges it.

    The callback [irqFn] belongs to the VMM: its calls are recorded in order
    in [t_irqs], whose last element is the level of the interrupt line. *)
From S2P Require Import Prelude DirtyTracker Virtqueue.

(** ** Registers *)
Definition RegMagic : Z := 0x000.
Definition RegVersion : Z := 0x004.
Definition RegDeviceID : Z := 0x008.
Definition RegVendorID : Z := 0x00C.
Definition RegDevFeatures : Z := 0x010.
Definition RegDevFeaturesSel : Z := 0x014.
Definition RegDrvFeatures : Z := 0x020.
Definition RegDrvFeaturesSel : Z := 0x024.
Definition RegQueueSel : Z := 0x030.
Definition RegQueueNumMax : Z := 0x034.
Definition RegQueueNum : Z := 0x038.
Definition RegQueueReady : Z := 0x044.
Definition RegQueueNotify : Z := 0x050.
Definition RegInterruptStat : Z := 0x060.
Definition RegInterruptACK : Z := 0x064.
Definition RegStatus : Z := 0x070.
Definition RegQueueDescLow : Z := 0x080.
Definition RegQueueDescHigh : Z := 0x084.
Definition RegQueueDriverLow : Z := 0x090.
Definition RegQueueDriverHigh : Z := 0x094.
Definition RegQueueDeviceLow : Z := 0x0A0.
Definition RegQueueDeviceHigh : Z := 0x0A4.
Definition RegSHMSel : Z := 0x0AC.
Definition RegSHMLenLow : Z := 0x0B0.
Definition RegSHMLenHigh : Z := 0x0B4.
Definition RegSHMBaseLow : Z := 0x0B8.
Definition RegSHMBaseHigh : Z := 0x0BC.
Definition RegConfigGeneration : Z := 0x0FC.
Definition RegConfig : Z := 0x100.

(** ** State *)
Record Transport := mkTransport {
  t_basePA : Z;
  t_irqLine : Z;
  t_irqFn : bool;               (** the callback is not nil *)
  t_status : Z;
  t_drvFeatures : Z;
  t_devFeaturesSel : Z;
  t_drvFeaturesSel : Z;
  t_queueSel : Z;
  t_shmSel : Z;
  t_interruptStat : Z;
  t_queues : list Queue;
  t_irqs : list bool            (** calls of the callback, oldest first *)
}.

Record VM (D : Type) := mkVM {
  vm_dev : D;
  vm_tr : Transport;
  vm_ram : Ram
}.
Arguments mkVM {D} _ _ _.
Arguments vm_dev {D} _.
Arguments vm_tr {D} _.
Arguments vm_ram {D} _.

(** A procedure that returns no error. *)
Abbreviation proc := (res Empty_set).

Definition lift {E A} (m : proc A) : res E A :=
  match m with Ok a => Ok a | Err e => match e with end | Panic => Panic | NoFuel => NoFuel end.

(** ** The Go interfaces of a device *)
Class Device (D : Type) := {
  DeviceID : D → Z;
  DeviceFeatures : D → Z;
  ConfigBytes : D → list Z;
  HandleQueue : Z → VM D → proc (VM D);
  WriteConfig : option (Z → list Z → VM D → proc (VM D));
  HandleQueueNotify : option (Z → VM D → proc (bool * VM D));
  SharedMemoryRegion : option (D → Z → option (Z * Z));
  OnTransportStateChange : option (VM D → proc (VM D));
  OnTransportReset : option (VM D → proc (VM D));
  ActivateLink : option (D → D)
}.

(** ** Field updates *)
Definition set_dev {D} (vm : VM D) (d : D) : VM D := mkVM d (vm_tr vm) (vm_ram vm).
Definition set_ram {D} (vm : VM D) (r : Ram) : VM D := mkVM (vm_dev vm) (vm_tr vm) r.
Definition set_tr {D} (vm : VM D) (t : Transport) : VM D := mkVM (vm_dev vm) t (vm_ram vm).

Definition set_status (t : Transport) v := mkTransport (t_basePA t) (t_irqLine t) (t_irqFn t)
  v (t_drvFeatures t) (t_devFeaturesSel t) (t_drvFeaturesSel t) (t_queueSel t) (t_shmSel t)
  (t_interruptStat t) (t_queues t) (t_irqs t).
Definition set_drvFeatures (t : Transport) v := mkTransport (t_basePA t) (t_irqLine t) (t_irqFn t)
  (t_status t) v (t_devFeaturesSel t) (t_drvFeaturesSel t) (t_queueSel t) (t_shmSel t)
  (t_interruptStat t) (t_queues t) (t_irqs t).
Definition set_devFeaturesSel (t : Transport) v := mkTransport (t_basePA t) (t_irqLine t) (t_irqFn t)
  (t_status t) (t_drvFeatures t) v (t_drvFeaturesSel t) (t_queueSel t) (t_shmSel t)
  (t_interruptStat t) (t_queues t) (t_irqs t).
Definition set_drvFeaturesSel (t : Transport) v := mkTransport (t_basePA t) (t_irqLine t) (t_irqFn t)
  (t_status t) (t_drvFeatures t) (t_devFeaturesSel t) v (t_queueSel t) (t_shmSel t)
  (t_interruptStat t) (t_queues t) (t_irqs t).
Definition set_queueSel (t : Transport) v := mkTransport (t_basePA t) (t_irqLine t) (t_irqFn t)
  (t_status t) (t_drvFeatures t) (t_devFeaturesSel t) (t_drvFeaturesSel t) v (t_shmSel t)
  (t_interruptStat t) (t_queues t) (t_irqs t).
Definition set_shmSel (t : Transport) v := mkTransport (t_basePA t) (t_irqLine t) (t_irqFn t)
  (t_status t) (t_drvFeatures t) (t_devFeaturesSel t) (t_drvFeaturesSel t) (t_queueSel t) v
  (t_interruptStat t) (t_queues t) (t_irqs t).
Definition set_interruptStat (t : Transport) v := mkTransport (t_basePA t) (t_irqLine t) (t_irqFn t)
  (t_status t) (t_drvFeatures t) (t_devFeaturesSel t) (t_drvFeaturesSel t) (t_queueSel t) (t_shmSel t)
  v (t_queues t) (t_irqs t).
Definition set_queues (t : Transport) v := mkTransport (t_basePA t) (t_irqLine t) (t_irqFn t)
  (t_status t) (t_drvFeatures t) (t_devFeaturesSel t) (t_drvFeaturesSel t) (t_queueSel t) (t_shmSel t)
  (t_interruptStat t) v (t_irqs t).

Definition set_q_Size (q : Queue) v := mkQueue v (q_Ready q) (q_LastAvail q) (q_DescAddr q)
  (q_DriverAddr q) (q_DeviceAddr q) (q_guestPhysBase q).
Definition set_q_Ready (q : Queue) v := mkQueue (q_Size q) v (q_LastAvail q) (q_DescAddr q)
  (q_DriverAddr q) (q_DeviceAddr q) (q_guestPhysBase q).
Definition set_q_DescAddr (q : Queue) v := mkQueue (q_Size q) (q_Ready q) (q_LastAvail q) v
  (q_DriverAddr q) (q_DeviceAddr q) (q_guestPhysBase q).
Definition set_q_DriverAddr (q : Queue) v := mkQueue (q_Size q) (q_Ready q) (q_LastAvail q) (q_DescAddr q)
  v (q_DeviceAddr q) (q_guestPhysBase q).
Definition set_q_DeviceAddr (q : Queue) v := mkQueue (q_Size q) (q_Ready q) (q_LastAvail q) (q_DescAddr q)
  (q_DriverAddr q) v (q_guestPhysBase q).

(** The queue objects are shared by reference: an update of [t.queues[i]]. *)
Definition put_queue {D} (vm : VM D) (i : Z) (q : Queue) : VM D :=
  set_tr vm (set_queues (vm_tr vm) (<[Z.to_nat i := q]> (t_queues (vm_tr vm)))).

(** ** Interrupts *)

(** [if t.irqFn != nil { t.irqFn(b) }] *)
Definition SignalIRQ (t : Transport) (b : bool) : Transport :=
  if t_irqFn t then
    mkTransport (t_basePA t) (t_irqLine t) (t_irqFn t) (t_status t) (t_drvFeatures t)
      (t_devFeaturesSel t) (t_drvFeaturesSel t) (t_queueSel t) (t_shmSel t)
      (t_interruptStat t) (t_queues t) (t_irqs t ++ [b])
  else t.

Definition SetInterruptStat (t : Transport) (bits : Z) : Transport :=
  set_interruptStat t (t_interruptStat t .| bits).

(** ** Construction *)
Definition NewTransport (base irq : Z) (irqFn : bool) : Transport :=
  mkTransport base irq irqFn 0 0 0 0 0 0 0 (replicate 8 (NewQueue 256)) [].

Definition Transport_SetGuestPhysBase (t : Transport) (base : Z) : Transport :=
  set_queues t ((λ q, SetGuestPhysBase q base) <$> t_queues t).

(** ** Virtqueue operations on a machine

    [qi] is the index of the queue that the Go code holds a pointer to. *)
Definition the_queue {D} (vm : VM D) (qi : Z) : option Queue := at_ (t_queues (vm_tr vm)) qi.

(** [q.IterAvail(fn)] *)
Definition IterAvail {D} (qi : Z) (fn : Z → VM D → proc (VM D)) (vm : VM D) : res qerr (VM D) :=
  q ← must (the_queue vm qi);
  '(heads, q') ← IterAvail_collect q (vm_ram vm);
  lift (for_each fn heads (put_queue vm qi q')).

(** [q.ConsumeAvail(fn)]; the callback also returns the variables it sets, and
    [None] says that it was not called ([consumed] is false). *)
Definition ConsumeAvail {D A} (qi : Z) (fn : Z → VM D → proc (VM D * A)) (vm : VM D)
  : res qerr (VM D * option A) :=
  q ← must (the_queue vm qi);
  '(o, q') ← ConsumeAvail_take q (vm_ram vm);
  match o with
  | None => Ok (vm, None)
  | Some head => '(vm, a) ← lift (fn head (put_queue vm qi q')); Ok (vm, Some a)
  end.

(** [_ = q.PushUsed(id, written)] *)
Definition push_used {D} (qi id written : Z) (vm : VM D) : proc (VM D) :=
  q ← must (the_queue vm qi);
  r ← swallow (vm_ram vm) (PushUsed q (vm_ram vm) id written);
  Ok (set_ram vm r).

(** [chain, err := q.WalkChain(head)] *)
Definition walk_chain {D} (qi head : Z) (vm : VM D) : proc (option (list Desc)) :=
  q ← must (the_queue vm qi); attempt (WalkChain q (vm_ram vm) head).

(** [err := q.GuestRead(addr, buf)] with [n = len(buf)] *)
Definition guest_read {D} (qi addr n : Z) (vm : VM D) : proc (option (list Z)) :=
  q ← must (the_queue vm qi); attempt (GuestRead q (vm_ram vm) addr n).

(** [err := q.GuestWrite(addr, buf)] *)
Definition guest_write {D} (qi addr : Z) (buf : list Z) (vm : VM D) : proc (option (VM D)) :=
  q ← must (the_queue vm qi);
  o ← attempt (GuestWrite q (vm_ram vm) addr buf);
  Ok (match o with Some r => Some (set_ram vm r) | None => None end).

(** Consecutive writes of [chunks] to the buffers of [ds], which all succeed. *)
Definition deliver {D} (qi : Z) (ds : list Desc) (chunks : list (list Z)) (vm : VM D) : proc (VM D) :=
  for_each (λ p vm, o ← guest_write qi (d_Addr p.1) p.2 vm; must o) (zip ds chunks) vm.

Section transport.
Context {D : Type} `{Device D}.

(** ** Guest reads *)

Definition sharedMemoryRegion (vm : VM D) : option (Z * Z) :=
  match SharedMemoryRegion with
  | Some f => f (vm_dev vm) (u8 (t_shmSel (vm_tr vm)))
  | None => None
  end.

(** The value of a register below [RegConfig]; [None] is the [default] case,
    which leaves the buffer zeroed. *)
Definition read_reg (vm : VM D) (offset : Z) : proc (option Z) :=
  let t := vm_tr vm in
  if offset =? RegMagic then Ok (Some 0x74726976)
  else if offset =? RegVersion then Ok (Some 2)
  else if offset =? RegDeviceID then Ok (Some (DeviceID (vm_dev vm)))
  else if offset =? RegVendorID then Ok (Some 0x554D4551)
  else if offset =? RegDevFeatures then
    let feat := DeviceFeatures (vm_dev vm) .| (1 .<< 32) in
    Ok (Some (if t_devFeaturesSel t =? 1 then u32 (feat .>> 32) else u32 feat))
  else if offset =? RegQueueNumMax then Ok (Some MaxQueueSize)
  else if offset =? RegQueueReady then
    q ← must (the_queue vm (t_queueSel t)); Ok (Some (boolZ (q_Ready q)))
  else if offset =? RegInterruptStat then Ok (Some (t_interruptStat t))
  else if offset =? RegStatus then Ok (Some (t_status t))
  else if (offset =? RegSHMLenLow) || (offset =? RegSHMLenHigh)
       || (offset =? RegSHMBaseLow) || (offset =? RegSHMBaseHigh) then
    let '(base, length) := default (0, 2 ^ 64 - 1) (sharedMemoryRegion vm) in
    Ok (Some (if offset =? RegSHMLenLow then u32 length
              else if offset =? RegSHMLenHigh then u32 (length .>> 32)
              else if offset =? RegSHMBaseLow then u32 base
              else u32 (base .>> 32)))
  else if offset =? RegConfigGeneration then Ok (Some 0)
  else Ok None.

(** [t.ReadBytes(offset, data)] with [n = len(data)]; the result is the new
    contents of [data]. *)
Definition ReadBytes (offset : Z) (n : nat) (vm : VM D) : proc (list Z) :=
  let data := replicate n 0 in
  if offset <? RegConfig then
    if negb (Nat.eqb n 4) then Ok data
    else
      v ← read_reg vm offset;
      match v with
      | Some v => must (putLE 4 data 0 v)
      | None => Ok data
      end
  else
    let cfg := ConfigBytes (vm_dev vm) in
    let start := offset - RegConfig in
    if zlen cfg <=? start then Ok data
    else
      let src := take n (drop (Z.to_nat start) cfg) in
      Ok (src ++ drop (length src) data).

(** ** Guest writes *)

Definition notifyStateChange (vm : VM D) : proc (VM D) :=
  match OnTransportStateChange with
  | Some f => f vm
  | None => Ok vm
  end.

Definition resetTransport (vm : VM D) : proc (VM D) :=
  let t := vm_tr vm in
  let t := mkTransport (t_basePA t) (t_irqLine t) (t_irqFn t) 0 0 0 0 0 0 0
             (Queue_Reset <$> t_queues t) (t_irqs t) in
  let vm := set_tr vm (SignalIRQ t false) in
  match OnTransportReset with
  | Some f => f vm
  | None => Ok vm
  end.

(** [case RegQueueNotify] *)
Definition queueNotify (val : Z) (vm : VM D) : proc (VM D) :=
  if val <? 8 then
    q ← must (the_queue vm val);
    if q_Ready q then
      '(raiseIRQ, vm) ←
        match HandleQueueNotify with
        | Some f => f val vm
        | None => vm ← HandleQueue val vm; Ok (true, vm)
        end;
      Ok (if (raiseIRQ : bool)
          then set_tr vm (SignalIRQ (SetInterruptStat (vm_tr vm) 1) true) else vm)
    else Ok vm
  else Ok vm.

(** [case RegStatus] with a non-zero value *)
Definition writeStatus (val : Z) (vm : VM D) : proc (VM D) :=
  let prevStatus := t_status (vm_tr vm) in
  vm ← notifyStateChange (set_tr vm (set_status (vm_tr vm) val));
  Ok (if has val 4 && negb (has prevStatus 4) then
        match ActivateLink with
        | Some f => set_tr (set_dev vm (f (vm_dev vm)))
                      (SignalIRQ (SetInterruptStat (vm_tr vm) 2) true)
        | None => vm
        end
      else vm).

(** The low or the high half of a 64-bit register. *)
Definition low_half (old val : Z) : Z := (old .&^ 0xFFFFFFFF) .| val.
Definition high_half (old val : Z) : Z := (old .& 0xFFFFFFFF) .| (val .<< 32).

Definition WriteBytes (offset : Z) (data : list Z) (vm : VM D) : proc (VM D) :=
  if RegConfig <=? offset then
    match WriteConfig with
    | Some f => f (offset - RegConfig) data vm
    | None => Ok vm
    end
  else if negb (zlen data =? 4) then Ok vm
  else
    let val := le_decode data in
    let t := vm_tr vm in
    let sel := t_queueSel t in
    q ← must (the_queue vm sel);
    if offset =? RegDevFeaturesSel then Ok (set_tr vm (set_devFeaturesSel t val))
    else if offset =? RegDrvFeaturesSel then Ok (set_tr vm (set_drvFeaturesSel t val))
    else if offset =? RegDrvFeatures then
      notifyStateChange (set_tr vm (set_drvFeatures t
        (if t_drvFeaturesSel t =? 0 then low_half (t_drvFeatures t) val
         else high_half (t_drvFeatures t) val)))
    else if offset =? RegQueueSel then
      Ok (if val <? 8 then set_tr vm (set_queueSel t val) else vm)
    else if offset =? RegSHMSel then Ok (set_tr vm (set_shmSel t val))
    else if offset =? RegQueueNum then
      if (1 <=? val) && (val <=? MaxQueueSize)
      then notifyStateChange (put_queue vm sel (set_q_Size q val)) else Ok vm
    else if offset =? RegQueueReady then
      notifyStateChange (put_queue vm sel (set_q_Ready q (negb (val =? 0))))
    else if offset =? RegQueueNotify then queueNotify val vm
    else if offset =? RegInterruptACK then
      let t := set_interruptStat t (t_interruptStat t .&^ val) in
      Ok (set_tr vm (if t_interruptStat t =? 0 then SignalIRQ t false else t))
    else if offset =? RegStatus then
      if val =? 0 then resetTransport vm else writeStatus val vm
    else if offset =? RegQueueDescLow then
      notifyStateChange (put_queue vm sel (set_q_DescAddr q (low_half (q_DescAddr q) val)))
    else if offset =? RegQueueDescHigh then
      notifyStateChange (put_queue vm sel (set_q_DescAddr q (high_half (q_DescAddr q) val)))
    else if offset =? RegQueueDriverLow then
      notifyStateChange (put_queue vm sel (set_q_DriverAddr q (low_half (q_DriverAddr q) val)))
    else if offset =? RegQueueDriverHigh then
      notifyStateChange (put_queue vm sel (set_q_DriverAddr q (high_half (q_DriverAddr q) val)))
    else if offset =? RegQueueDeviceLow then
      notifyStateChange (put_queue vm sel (set_q_DeviceAddr q (low_half (q_DeviceAddr q) val)))
    else if offset =? RegQueueDeviceHigh then
      notifyStateChange (put_queue vm sel (set_q_DeviceAddr q (high_half (q_DeviceAddr q) val)))
    else Ok vm.

(** The 32-bit wrappers. *)
Definition Read (offset : Z) (size : nat) (vm : VM D) : proc Z :=
  buf ← ReadBytes offset size vm;
  Ok (le_decode (take 4 buf)).

Definition Write (offset val : Z) (vm : VM D) : proc (VM D) :=
  WriteBytes offset (le_encode 4 val) vm.
End transport.

(** ** Snapshot state *)
Record TransportState := mkTransportState {
  ts_Status : Z;
  ts_DrvFeatures : Z;
  ts_DevFeaturesSel : Z;
  ts_DrvFeaturesSel : Z;
  ts_QueueSel : Z;
  ts_InterruptStat : Z;
  ts_Queues : list QueueState
}.

Definition Transport_State (t : Transport) : TransportState :=
  {| ts_Status := t_status t; ts_DrvFeatures := t_drvFeatures t;
     ts_DevFeaturesSel := t_devFeaturesSel t; ts_DrvFeaturesSel := t_drvFeaturesSel t;
     ts_QueueSel := t_queueSel t; ts_InterruptStat := t_interruptStat t;
     ts_Queues := Queue_State <$> t_queues t |}.

(** [for i, qs := range s.Queues { if i < len(t.queues) {...} }] *)
Fixpoint restore_queues (qs : list Queue) (ss : list QueueState) : list Queue :=
  match qs, ss with
  | q :: qs, s :: ss => Queue_RestoreState q s :: restore_queues qs ss
  | qs, [] => qs
  | [], _ => []
  end.

Definition Transport_RestoreState (t : Transport) (s : TransportState) : Transport :=
  mkTransport (t_basePA t) (t_irqLine t) (t_irqFn t) (ts_Status s) (ts_DrvFeatures s)
    (ts_DevFeaturesSel s) (ts_DrvFeaturesSel s) (ts_QueueSel s) (t_shmSel t)
    (ts_InterruptStat s) (restore_queues (t_queues t) (ts_Queues s)) (t_irqs t).

(** ** The machine invariant *)

Definition transport_wf (t : Transport) : Prop :=
  length (t_queues t) = 8%nat ∧ Forall queue_wf (t_queues t) ∧ 0 ≤ t_queueSel t < 8 ∧
  fits 32 (t_status t) ∧ fits 64 (t_drvFeatures t) ∧ fits 32 (t_devFeaturesSel t) ∧
  fits 32 (t_drvFeaturesSel t) ∧ fits 32 (t_shmSel t) ∧ fits 32 (t_interruptStat t).

(** The level of the interrupt line: the argument of the last call of the
    callback. *)
Definition irq_level (t : Transport) : bool := default false (last (t_irqs t)).

(** The line is asserted exactly while an interrupt is pending. *)
Definition irq_sync (t : Transport) : Prop :=
  t_irqFn t = true → irq_level t = negb (t_interruptStat t =? 0).

Definition machine_inv {D} (dwf : D → Prop) (vm : VM D) : Prop :=
  transport_wf (vm_tr vm) ∧ irq_sync (vm_tr vm) ∧ ram_wf (vm_ram vm) ∧ dwf (vm_dev vm).

#[export] Instance transport_wf_dec t : Decision (transport_wf t).
Proof. unfold transport_wf. apply _. Defined.
#[export] Instance irq_sync_dec t : Decision (irq_sync t).
Proof. unfold irq_sync. apply _. Defined.

(** What the transport relies on of a device: its handlers keep the machine
    invariant whatever the guest put in memory, and so never panic. *)
Class DeviceLaws (D : Type) `{Device D} := {
  dev_wf : D → Prop;
  HandleQueue_ok i vm :
    0 ≤ i < 8 → machine_inv dev_wf vm → res_sat (machine_inv dev_wf) (HandleQueue i vm);
  HandleQueueNotify_ok f i vm :
    HandleQueueNotify = Some f → 0 ≤ i < 8 → machine_inv dev_wf vm →
    res_sat (λ p, machine_inv dev_wf p.2) (f i vm);
  WriteConfig_ok f o data vm :
    WriteConfig = Some f → 0 ≤ o → bytes data → machine_inv dev_wf vm →
    res_sat (machine_inv dev_wf) (f o data vm);
  OnTransportStateChange_ok f vm :
    OnTransportStateChange = Some f → machine_inv dev_wf vm → res_sat (machine_inv dev_wf) (f vm);
  OnTransportReset_ok f vm :
    OnTransportReset = Some f → machine_inv dev_wf vm → res_sat (machine_inv dev_wf) (f vm);
  ActivateLink_ok f d : ActivateLink = Some f → dev_wf d → dev_wf (f d)
}.

(** ** Lemmas on the building blocks *)

Lemma guest_write_set_dev {D} qi a b (vm vm' : VM D) d :
  guest_write qi a b vm = Ok (Some vm') →
  guest_write qi a b (set_dev vm d) = Ok (Some (set_dev vm' d)) ∧ vm_dev vm' = vm_dev vm.
Proof.
  unfold guest_write. change (the_queue (set_dev vm d) qi) with (the_queue vm qi).
  destruct (the_queue vm qi) as [q|]; [|done]. cbn.
  destruct (GuestWrite q (vm_ram vm) a b); cbn; naive_solver.
Qed.

Lemma res_sat_lift {E A} (P : A → Prop) (m : proc A) : res_sat P m → res_sat P (lift (E:=E) m).
Proof. destruct m as [|[]| |]; done. Qed.

Lemma low_half_fits old val : fits 64 old → fits 32 val → fits 64 (low_half old val).
Proof.
  intros Ho Hv. unfold low_half. apply fits_lor; [by apply fits_ldiff|].
  eapply fits_mono; [done|lia].
Qed.

Lemma fits_shiftl32 v : fits 32 v → fits 64 (v .<< 32).
Proof. unfold fits. intros Hv. rewrite Z.shiftl_mul_pow2 by lia. lia. Qed.

Lemma high_half_fits old val : fits 64 old → fits 32 val → fits 64 (high_half old val).
Proof.
  intros Ho Hv. unfold high_half. apply fits_lor; [by apply fits_land|by apply fits_shiftl32].
Qed.

Lemma the_queue_ok {D} (vm : VM D) i :
  transport_wf (vm_tr vm) → 0 ≤ i < 8 → ∃ q, the_queue vm i = Some q ∧ queue_wf q.
Proof.
  intros (Hl & Hq & _) Hi. destruct (at_ok (t_queues (vm_tr vm)) i) as [q Hqe].
  { unfold zlen. rewrite Hl. lia. }
  exists q. split; [done|]. apply at_Some in Hqe as [_ Hqe]. by eapply Forall_lookup_1.
Qed.

Lemma put_queue_inv {D} (dwf : D → Prop) vm i q :
  machine_inv dwf vm → queue_wf q → machine_inv dwf (put_queue vm i q).
Proof.
  intros ((Hl & Hq & Hrest) & Hs & Hr & Hd) Hw. unfold put_queue.
  split; [|done]. unfold transport_wf. simpl. rewrite length_insert.
  split; [done|]. split; [by apply Forall_insert|done].
Qed.

Lemma set_ram_inv {D} (dwf : D → Prop) vm r :
  machine_inv dwf vm → ram_wf r → machine_inv dwf (set_ram vm r).
Proof. unfold machine_inv. simpl. naive_solver. Qed.

Lemma set_dev_inv {D} (dwf : D → Prop) vm d :
  machine_inv dwf vm → dwf d → machine_inv dwf (set_dev vm d).
Proof. unfold machine_inv. simpl. naive_solver. Qed.

Lemma NewTransport_wf base irq irqFn : transport_wf (NewTransport base irq irqFn) ∧ irq_sync (NewTransport base irq irqFn).
Proof. split; [|done]. split; [done|]. split; [by apply Forall_replicate|done]. Qed.

Lemma SignalIRQ_wf t b : transport_wf t → transport_wf (SignalIRQ t b).
Proof. unfold SignalIRQ. by destruct (t_irqFn t). Qed.

Lemma SignalIRQ_sync t b : b = negb (t_interruptStat t =? 0) → irq_sync (SignalIRQ t b).
Proof.
  unfold SignalIRQ, irq_sync, irq_level. intros Hb. destruct (t_irqFn t) eqn:E; simpl.
  - intros _. by rewrite last_snoc.
  - congruence.
Qed.

(** Raising an interrupt: the status bit, then the line. *)
Lemma raise_irq_inv {D} (dwf : D → Prop) vm bits :
  machine_inv dwf vm → fits 32 bits → bits ≠ 0 →
  machine_inv dwf (set_tr vm (SignalIRQ (SetInterruptStat (vm_tr vm) bits) true)).
Proof.
  intros (Ht & Hs & Hr & Hd) Hf Hz. unfold machine_inv. simpl. split_and!; try done.
  - apply SignalIRQ_wf. unfold transport_wf in *. simpl. naive_solver auto using fits_lor.
  - apply SignalIRQ_sync. simpl. symmetry. apply negb_true_iff, Z.eqb_neq.
    intros H0. apply Z.lor_eq_0_iff in H0. naive_solver.
Qed.

(** ** Queue iteration keeps the invariant *)

(** The heads of a queue, processed with a state of the handler's own. *)
Lemma for_heads_sat {D S} (dwf : D → Prop) (Q : S → Prop) qi q heads q' (fn : Z → VM D * S → proc (VM D * S)) (vm : VM D) s :
  machine_inv dwf vm → 0 ≤ qi < 8 → the_queue vm qi = Some q → IterAvail_collect q (vm_ram vm) = Ok (heads, q') →
  Q s → (∀ h p, fits 16 h → machine_inv dwf p.1 → Q p.2 → res_sat (λ p, machine_inv dwf p.1 ∧ Q p.2) (fn h p)) →
  res_sat (λ p, machine_inv dwf p.1 ∧ Q p.2) (for_each fn heads (put_queue vm qi q', s)).
Proof.
  intros Hinv Hqi Hq Hcol Hs Hfn. destruct (the_queue_ok vm qi) as (q0 & Hq0 & Hqw); [apply Hinv|done|]. simplify_eq.
  assert (ram_wf (vm_ram vm)) as Hr by apply Hinv.
  apply (for_each_sat (λ p, machine_inv dwf p.1 ∧ Q p.2)).
  - intros h p Hh [Hp Hq']. apply Hfn; [|done..]. by eapply IterAvail_collect_heads.
  - split; [|done]. apply put_queue_inv; [done|]. by eapply IterAvail_collect_wf.
Qed.

Lemma IterAvail_sat {D} (dwf : D → Prop) qi fn (vm : VM D) :
  machine_inv dwf vm → 0 ≤ qi < 8 →
  (∀ h vm, fits 16 h → machine_inv dwf vm → res_sat (machine_inv dwf) (fn h vm)) →
  res_sat (machine_inv dwf) (IterAvail qi fn vm).
Proof.
  intros Hinv Hqi Hfn. unfold IterAvail.
  destruct (the_queue_ok vm qi) as (q & -> & Hq); [apply Hinv|done|]. simpl.
  assert (ram_wf (vm_ram vm)) as Hr by apply Hinv.
  destruct (IterAvail_collect_spec q (vm_ram vm) Hq Hr) as [Hc _].
  apply sat_bind_completes; [done|]. intros [heads q'] He.
  apply res_sat_lift, for_each_sat.
  - intros h vm' Hh Hi. apply Hfn; [|done]. by eapply IterAvail_collect_heads.
  - apply put_queue_inv; [done|]. by eapply IterAvail_collect_wf.
Qed.

Lemma ConsumeAvail_sat {D A} (dwf : D → Prop) (P : A → Prop) qi fn (vm : VM D) :
  machine_inv dwf vm → 0 ≤ qi < 8 →
  (∀ h vm, fits 16 h → machine_inv dwf vm → res_sat (λ p, machine_inv dwf p.1 ∧ P p.2) (fn h vm)) →
  res_sat (λ p, machine_inv dwf p.1 ∧ match p.2 with Some a => P a | None => True end)
    (ConsumeAvail qi fn vm).
Proof.
  intros Hinv Hqi Hfn. unfold ConsumeAvail.
  destruct (the_queue_ok vm qi) as (q & -> & Hq); [apply Hinv|done|]. simpl.
  assert (ram_wf (vm_ram vm)) as Hr by apply Hinv.
  destruct (ConsumeAvail_take_spec q (vm_ram vm) Hq Hr) as [Hc Hs].
  apply sat_bind_completes; [done|]. intros [[h|] q'] He; [|done].
  destruct (Hs _ _ He) as (i & _ & [(_ & ? & _)|(_ & Ho & _ & ->)]); [done|].
  eapply res_sat_bind.
  - apply res_sat_lift, Hfn.
    + symmetry in Ho. by eapply avail_entry_fits.
    + apply put_queue_inv; [done|]. apply set_LastAvail_wf; [done|apply fits_u16].
  - by intros [vm' a].
Qed.

Lemma push_used_sat {D} (dwf : D → Prop) qi id written (vm : VM D) :
  machine_inv dwf vm → 0 ≤ qi < 8 → fits 32 id → fits 32 written →
  res_sat (machine_inv dwf) (push_used qi id written vm).
Proof.
  intros Hinv Hqi Hid Hw. unfold push_used.
  destruct (the_queue_ok vm qi) as (q & -> & Hq); [apply Hinv|done|]. simpl.
  assert (ram_wf (vm_ram vm)) as Hr by apply Hinv.
  eapply res_sat_bind with ram_wf.
  - apply res_sat_swallow; [|done]. eapply res_sat_mono; [by apply pushUsed_sat|]. naive_solver.
  - intros r _ Hr'. simpl. by apply set_ram_inv.
Qed.

Lemma walk_chain_sat {D} (dwf : D → Prop) qi head (vm : VM D) :
  machine_inv dwf vm → 0 ≤ qi < 8 → fits 16 head →
  res_sat (λ o, match o with
                | Some ds => ds ≠ [] ∧ zlen ds ≤ 256 ∧ Forall desc_wf ds ∧
                    Forall desc_allowed ds ∧ chain_bytes ds ≤ MaxDescriptorChainBytes
                | None => True
                end) (walk_chain qi head vm).
Proof.
  intros Hinv Hqi Hh. unfold walk_chain.
  destruct (the_queue_ok vm qi) as (q & -> & Hq); [apply Hinv|done|]. simpl.
  assert (ram_wf (vm_ram vm)) as Hr by apply Hinv. apply attempt_sat.
  destruct (WalkChain_cases q (vm_ram vm) head Hq Hr) as [Hc _]; [apply Hh|].
  pose proof (WalkChain_desc q (vm_ram vm) head) as Hd.
  destruct (WalkChain q (vm_ram vm) head); simpl in *; auto.
Qed.

Lemma guest_read_sat {D} (dwf : D → Prop) qi addr n (vm : VM D) :
  machine_inv dwf vm → 0 ≤ qi < 8 → fits 64 addr → fits 64 n →
  res_sat (λ o, match o with Some bs => bytes bs ∧ zlen bs = n | None => True end)
    (guest_read qi addr n vm).
Proof.
  intros Hinv Hqi Ha Hn. unfold guest_read.
  destruct (the_queue_ok vm qi) as (q & -> & Hq); [apply Hinv|done|]. simpl.
  apply attempt_sat. eapply res_sat_mono; [apply GuestRead_sat; try done; apply Hinv|naive_solver].
Qed.

Lemma guest_write_sat {D} (dwf : D → Prop) qi addr buf (vm : VM D) :
  machine_inv dwf vm → 0 ≤ qi < 8 → fits 64 addr → bytes buf → zlen buf < 2 ^ 63 →
  res_sat (λ o, match o with Some vm' => machine_inv dwf vm' ∧ ∃ r, vm' = set_ram vm r | None => True end)
    (guest_write qi addr buf vm).
Proof.
  intros Hinv Hqi Ha Hb Hl. unfold guest_write.
  destruct (the_queue_ok vm qi) as (q & -> & Hq); [apply Hinv|done|]. simpl.
  eapply res_sat_bind.
  - apply attempt_sat, GuestWrite_sat; try done. apply Hinv.
  - intros [r|] _ Hr; simpl in *; [|done]. split; [|eauto].
    apply set_ram_inv; [done|apply Hr].
Qed.

(** ** Guest writes keep the invariant *)

Section laws.
Context {D : Type} `{DeviceLaws D}.

Lemma notifyStateChange_sat vm :
  machine_inv dev_wf vm → res_sat (machine_inv dev_wf) (notifyStateChange vm).
Proof.
  intros Hi. unfold notifyStateChange. destruct OnTransportStateChange as [f|] eqn:E; [|done].
  by eapply OnTransportStateChange_ok.
Qed.

Lemma resetTransport_sat vm :
  machine_inv dev_wf vm → res_sat (machine_inv dev_wf) (resetTransport vm).
Proof.
  intros ((Hl & Hq & _) & Hs & Hr & Hd). unfold resetTransport.
  set (vm' := set_tr vm _).
  assert (machine_inv dev_wf vm') as Hi.
  { split_and!; [|by apply SignalIRQ_sync|done..]. apply SignalIRQ_wf.
    unfold transport_wf, fits. simpl. rewrite length_fmap. split_and!; try lia.
    apply Forall_fmap. eapply Forall_impl; [done|]. intros q (_ & _ & _ & _ & _ & Hb).
    unfold compose, queue_wf, fits in *. simpl. unfold MaxQueueSize. lia. }
  destruct OnTransportReset as [f|] eqn:E; [|done]. by eapply OnTransportReset_ok.
Qed.

Lemma queueNotify_sat val vm :
  0 ≤ val → machine_inv dev_wf vm → res_sat (machine_inv dev_wf) (queueNotify val vm).
Proof.
  intros Hv Hi. unfold queueNotify. destruct (Z.ltb_spec val 8); [|done].
  destruct (the_queue_ok vm val) as (q & -> & _); [apply Hi|done|]. simpl.
  destruct (q_Ready q); [|done].
  eapply res_sat_bind with (λ p, machine_inv dev_wf p.2).
  - destruct HandleQueueNotify as [f|] eqn:E; [by eapply HandleQueueNotify_ok|].
    eapply res_sat_bind; [by apply HandleQueue_ok|]. done.
  - intros [b vm'] _ Hi'. simpl in *. destruct b; [|done].
    by apply raise_irq_inv.
Qed.

Lemma writeStatus_sat val vm :
  fits 32 val → machine_inv dev_wf vm → res_sat (machine_inv dev_wf) (writeStatus val vm).
Proof.
  intros Hv Hi. unfold writeStatus. eapply res_sat_bind.
  - apply notifyStateChange_sat. destruct Hi as (Ht & Hs & Hrest). split; [|done].
    unfold transport_wf in *. simpl. naive_solver.
  - intros vm' _ Hi'. simpl. destruct (_ && _); [|done].
    destruct ActivateLink as [f|] eqn:E; [|done].
    apply (raise_irq_inv dev_wf (set_dev vm' (f (vm_dev vm'))) 2); [|done..].
    apply set_dev_inv; [done|]. eapply ActivateLink_ok; [done|apply Hi'].
Qed.

Lemma set_tr_inv (vm : VM D) t :
  machine_inv dev_wf vm → transport_wf t → irq_sync t → machine_inv dev_wf (set_tr vm t).
Proof. unfold machine_inv. simpl. naive_solver. Qed.

Lemma WriteBytes_sat offset data vm :
  bytes data → machine_inv dev_wf vm → res_sat (machine_inv dev_wf) (WriteBytes offset data vm).
Proof.
  intros Hd Hi. unfold WriteBytes. destruct (Z.leb_spec RegConfig offset).
  { destruct WriteConfig as [f|] eqn:E; [|done]. eapply WriteConfig_ok; [done|lia|done..]. }
  destruct (Z.eqb_spec (zlen data) 4) as [H4|]; [|done]. cbv [negb].
  pose proof (le_decode_bound _ Hd) as Hval. rewrite H4 in Hval.
  assert (fits 32 (le_decode data)) as Hv by apply Hval. set (val := le_decode data) in *.
  assert (transport_wf (vm_tr vm)) as Ht by apply Hi.
  assert (irq_sync (vm_tr vm)) as Hs by apply Hi.
  destruct (the_queue_ok vm (t_queueSel (vm_tr vm))) as (q & -> & Hq); [done|apply Ht|]. simpl.
  assert (∀ q', queue_wf q' → res_sat (machine_inv dev_wf)
            (notifyStateChange (put_queue vm (t_queueSel (vm_tr vm)) q'))) as Hput.
  { intros q' Hq'. by apply notifyStateChange_sat, put_queue_inv. }
  pose proof Hq as (? & ? & ? & ? & ? & ?).
  pose proof Ht as (? & ? & ? & ? & ? & ? & ? & ? & ?).
  repeat match goal with |- context [if offset =? ?r then _ else _] => destruct (offset =? r) end;
    try done;
    try (apply Hput; unfold queue_wf; simpl; splits;
         auto using low_half_fits, high_half_fits);
    try (simpl; apply set_tr_inv; [done|unfold transport_wf; simpl; splits; done || lia|exact Hs]).
  - apply notifyStateChange_sat, set_tr_inv; [done| |exact Hs].
    unfold transport_wf. simpl. splits; try (done || lia).
    case_match; auto using low_half_fits, high_half_fits.
  - simpl. destruct (Z.ltb_spec val 8); [|done]. apply set_tr_inv; [done| |exact Hs].
    unfold transport_wf. simpl. splits; done || lia.
  - destruct (_ && _) eqn:?; [|done]. apply Hput. unfold queue_wf. simpl. done.
  - apply queueNotify_sat; [lia|done].
  - simpl. apply set_tr_inv; [done|..].
    + case_match; [apply SignalIRQ_wf|]; unfold transport_wf; simpl;
        splits; auto using fits_ldiff; lia.
    + destruct (_ =? 0) eqn:E0; [by apply SignalIRQ_sync; simpl; rewrite E0|].
      intros Hfn. simpl in *. rewrite E0. specialize (Hs Hfn). unfold irq_level in *. simpl.
      rewrite Hs. apply negb_true_iff, Z.eqb_neq. intros Hz.
      rewrite Hz, Z.ldiff_0_l in E0. done.
  - destruct (val =? 0); [by apply resetTransport_sat|by apply writeStatus_sat].
Qed.
End laws.

(** ** Guest executions

    Between two traps the guest runs: it stores to its RAM as it likes, and
    each access of a device register is one call of the transport. *)
Section guest.
Context {D : Type} `{DeviceLaws D}.

Inductive guest_step : VM D → VM D → Prop :=
  | guest_mmio_write offset data vm vm' :
      bytes data → WriteBytes offset data vm = Ok vm' → guest_step vm vm'
  | guest_ram_store o bs m vm :
      bytes bs → splice (ram_mem (vm_ram vm)) o bs = Some m →
      guest_step vm (set_ram vm (set_mem (vm_ram vm) m)).

Lemma guest_step_inv vm vm' :
  guest_step vm vm' → machine_inv dev_wf vm → machine_inv dev_wf vm'.
Proof.
  intros [offset data v v' Hd Hw|o bs m v Hb Hs] Hi.
  - eapply res_sat_Ok; [by apply WriteBytes_sat|done].
  - apply set_ram_inv; [done|]. assert (ram_wf (vm_ram v)) as Hr by apply Hi.
    apply set_mem_wf; [done| |by eapply splice_len]. eapply bytes_splice; [apply Hr|done..].
Qed.

Lemma guest_run_inv vm vm' :
  rtc guest_step vm vm' → machine_inv dev_wf vm → machine_inv dev_wf vm'.
Proof. induction 1; eauto using guest_step_inv. Qed.

Lemma proc_Ok {A} (P : A → Prop) (m : proc A) : res_sat P m → ∃ a, m = Ok a ∧ P a.
Proof. destruct m as [|[]| |]; naive_solver. Qed.

Lemma read_reg_completes vm offset : transport_wf (vm_tr vm) → completes (read_reg vm offset).
Proof.
  intros Ht. unfold read_reg.
  destruct (the_queue_ok vm (t_queueSel (vm_tr vm))) as (q & -> & _); [done|apply Ht|].
  repeat case_match; done.
Qed.

Lemma ReadBytes_sat vm offset n :
  transport_wf (vm_tr vm) → 0 ≤ offset → res_sat (λ data, length data = n) (ReadBytes offset n vm).
Proof.
  intros Ht Ho. unfold ReadBytes. case_match; [case_match|].
  - simpl. apply length_replicate.
  - apply negb_false_iff, Nat.eqb_eq in H2 as ->.
    apply sat_bind_completes; [by apply read_reg_completes|]. intros [v|] _; [|done].
    destruct (putLE_ok 4 (replicate 4 0) 0 v) as [d Hd]; [lia|done|]. rewrite Hd. simpl.
    apply putLE_len in Hd. unfold zlen in Hd. simpl in Hd. lia.
  - case_match; simpl; [apply length_replicate|].
    rewrite length_app, length_drop, length_replicate, length_take. lia.
Qed.
End guest.

(** ** Lemmas for the register programming sequence *)

Lemma low_then_high old lo hi :
  fits 64 old → fits 32 lo → fits 32 hi →
  high_half (low_half old lo) hi = lo + hi * 2 ^ 32.
Proof.
  intros Ho Hl Hh. unfold high_half, low_half. rewrite <- merge_halves by done. f_equal.
  apply Z.bits_inj'. intros i Hi.
  rewrite Z.land_spec, Z.lor_spec, Z.ldiff_spec. change 0xFFFFFFFF with (Z.ones 32).
  destruct (Z.lt_ge_cases i 32).
  - rewrite Z.ones_spec_low by lia. simpl. by rewrite andb_false_r, andb_true_r.
  - rewrite Z.ones_spec_high by lia. rewrite andb_false_r. symmetry. by apply (fits_testbit 32).
Qed.

Lemma high_then_low old lo hi :
  fits 64 old → fits 32 lo → fits 32 hi →
  low_half (high_half old hi) lo = lo + hi * 2 ^ 32.
Proof.
  intros Ho Hl Hh. unfold high_half, low_half. rewrite <- merge_halves by done.
  rewrite Z.lor_comm. f_equal. apply Z.bits_inj'. intros i Hi.
  rewrite Z.ldiff_spec, Z.lor_spec, Z.land_spec. change 0xFFFFFFFF with (Z.ones 32).
  destruct (Z.lt_ge_cases i 32).
  - rewrite Z.ones_spec_low by lia. simpl. rewrite andb_false_r. symmetry.
    apply Z.shiftl_spec_low. lia.
  - rewrite Z.ones_spec_high by lia. rewrite andb_false_r. simpl. by rewrite andb_true_r.
Qed.

Lemma the_queue_put {D} (vm : VM D) i q :
  transport_wf (vm_tr vm) → 0 ≤ i < 8 → the_queue (put_queue vm i q) i = Some q.
Proof.
  intros (Hl & _) Hi. apply at_Some. split; [lia|]. simpl. apply list_lookup_insert_eq. lia.
Qed.

Lemma restore_queues_all qs ss :
  length qs = length ss → restore_queues qs ss = zip_with Queue_RestoreState qs ss.
Proof.
  revert ss. induction qs as [|q qs IH]; intros [|s ss] Hl; simpl in *; try done.
  f_equal. apply IH. lia.
Qed.

(** The transport that a device constructor makes for RAM at [base]. *)
Definition fresh_transport (t : Transport) (base : Z) : Transport :=
  Transport_SetGuestPhysBase (NewTransport (t_basePA t) (t_irqLine t) (t_irqFn t)) base.

(** [t] with the recorded interrupt history replaced. *)
Definition with_irqs (t : Transport) (irqs : list bool) : Transport :=
  mkTransport (t_basePA t) (t_irqLine t) (t_irqFn t) (t_status t) (t_drvFeatures t)
    (t_devFeaturesSel t) (t_drvFeaturesSel t) (t_queueSel t) (t_shmSel t)
    (t_interruptStat t) (t_queues t) irqs.

(** ** Programming a queue *)

(** The effect of a write to one of the registers of the selected queue. *)
Definition queue_reg (offset v : Z) (q : Queue) : Queue :=
  if offset =? RegQueueNum then set_q_Size q v
  else if offset =? RegQueueReady then set_q_Ready q (negb (v =? 0))
  else if offset =? RegQueueDescLow then set_q_DescAddr q (low_half (q_DescAddr q) v)
  else if offset =? RegQueueDescHigh then set_q_DescAddr q (high_half (q_DescAddr q) v)
  else if offset =? RegQueueDriverLow then set_q_DriverAddr q (low_half (q_DriverAddr q) v)
  else if offset =? RegQueueDriverHigh then set_q_DriverAddr q (high_half (q_DriverAddr q) v)
  else if offset =? RegQueueDeviceLow then set_q_DeviceAddr q (low_half (q_DeviceAddr q) v)
  else set_q_DeviceAddr q (high_half (q_DeviceAddr q) v).

Definition queue_regs : list Z :=
  [RegQueueNum; RegQueueReady; RegQueueDescLow; RegQueueDescHigh; RegQueueDriverLow;
   RegQueueDriverHigh; RegQueueDeviceLow; RegQueueDeviceHigh].

(** The writes with which a driver sets up a queue. *)
Definition setup_writes (size desc driver device : Z) : list (Z * Z) :=
  [(RegQueueNum, size);
   (RegQueueDescLow, u32 desc); (RegQueueDescHigh, desc / 2 ^ 32);
   (RegQueueDriverLow, u32 driver); (RegQueueDriverHigh, driver / 2 ^ 32);
   (RegQueueDeviceLow, u32 device); (RegQueueDeviceHigh, device / 2 ^ 32);
   (RegQueueReady, 1)].

Section setup.
Context {D : Type} `{Device D}.

Definition setup_queue (i size desc driver device : Z) (vm : VM D) : proc (VM D) :=
  for_each (λ p vm, Write p.1 p.2 vm)
    ((RegQueueSel, i) :: setup_writes size desc driver device) vm.

Lemma Write_val offset v (vm : VM D) :
  offset < RegConfig → fits 32 v →
  Write offset v vm = WriteBytes offset (le_encode 4 v) vm ∧
  le_decode (le_encode 4 v) = v ∧ zlen (le_encode 4 v) = 4.
Proof. intros. split; [done|]. split; [by apply le_decode_encode|done]. Qed.

Lemma Write_queue_reg offset v q (vm : VM D) :
  OnTransportStateChange = None → offset ∈ queue_regs → fits 32 v →
  (offset = RegQueueNum → 1 ≤ v ≤ MaxQueueSize) →
  the_queue vm (t_queueSel (vm_tr vm)) = Some q →
  Write offset v vm = Ok (put_queue vm (t_queueSel (vm_tr vm)) (queue_reg offset v q)).
Proof.
  intros Hn Hin Hv Hnum Hq. unfold Write, WriteBytes, notifyStateChange. rewrite Hn.
  rewrite (le_decode_encode 4) by done. rewrite Hq. cbn [mbind res_bind must].
  unfold queue_regs in Hin. rewrite !elem_of_cons in Hin.
  destruct Hin as [->|[->|[->|[->|[->|[->|[->|[->|Hin]]]]]]]]; try (cbn; done);
    [|by apply not_elem_of_nil in Hin].
  cbn -[MaxQueueSize Z.leb]. specialize (Hnum eq_refl). and_is true. done.
Qed.

Lemma put_queue_put (vm : VM D) i q q' : put_queue (put_queue vm i q) i q' = put_queue vm i q'.
Proof. unfold put_queue. simpl. by rewrite list_insert_insert_eq. Qed.

Lemma Write_queue_regs ws q (vm : VM D) :
  OnTransportStateChange = None → transport_wf (vm_tr vm) →
  Forall (λ w, w.1 ∈ queue_regs ∧ fits 32 w.2 ∧ (w.1 = RegQueueNum → 1 ≤ w.2 ≤ MaxQueueSize)) ws →
  for_each (λ p vm, Write p.1 p.2 vm) ws (put_queue vm (t_queueSel (vm_tr vm)) q)
    = Ok (put_queue vm (t_queueSel (vm_tr vm)) (foldl (λ q w, queue_reg w.1 w.2 q) q ws)).
Proof.
  intros Hn Hwf Hws. revert q. induction Hws as [|[o v] ws (Hin & Hv & Hnum) _ IH]; intros q; [done|].
  simpl in *. rewrite (Write_queue_reg o v q) by (done || (apply the_queue_put; [done|apply Hwf])).
  simpl. rewrite put_queue_put. apply IH.
Qed.
End setup.

(** ** Properties *)


(** The register writes with which a driver sets up a queue program it
    exactly. After selecting queue [i] and writing size, the three 64-bit ring
    addresses as low and high halves, and ready, that queue has this size and
    these addresses and is ready; its position, the other queues, the device
    and guest RAM are as before. (Devices without a state-change hook.) *)
Theorem setup_queue_programs {D} `{Device D} (vm : VM D) i size desc driver device q :
  OnTransportStateChange = None → transport_wf (vm_tr vm) → 0 ≤ i < 8 →
  the_queue vm i = Some q →
  1 ≤ size ≤ MaxQueueSize → fits 64 desc → fits 64 driver → fits 64 device →
  setup_queue i size desc driver device vm
    = Ok (put_queue (set_tr vm (set_queueSel (vm_tr vm) i)) i
            (mkQueue size true (q_LastAvail q) desc driver device (q_guestPhysBase q))).
Proof.
  intros Hn Hwf Hi Hq Hs Hd Hdr Hdv. unfold setup_queue. cbn [for_each fst snd].
  set (vm1 := set_tr vm (set_queueSel (vm_tr vm) i)).
  assert (Write RegQueueSel i vm = Ok vm1) as ->.
  { unfold Write, WriteBytes. rewrite (le_decode_encode 4) by (simpl; lia).
    destruct (the_queue_ok vm (t_queueSel (vm_tr vm))) as (q0 & -> & _); [done|apply Hwf|].
    cbn -[Z.ltb]. lt_is true. done. }
  cbn [mbind res_bind].
  assert (vm1 = put_queue vm1 i q) as Hvm1.
  { unfold vm1, put_queue. unfold the_queue in Hq. apply at_Some in Hq as [_ Hq].
    destruct vm as [d [] r]. simpl in *. by rewrite list_insert_id. }
  assert (transport_wf (vm_tr vm1)) as Hwf1
    by (unfold transport_wf in *; simpl; naive_solver).
  assert (queue_wf q) as (_ & _ & Hqd & Hqr & Hqv & _).
  { destruct (the_queue_ok vm i Hwf Hi) as (q' & Hq' & ?). congruence. }
  assert (∀ x, fits 64 x → fits 32 (u32 x) ∧ fits 32 (x / 2 ^ 32)) as Hhalf.
  { unfold fits. intros x Hx. split; [apply u32_range|].
    split; [apply Z.div_pos; lia|apply Z.div_lt_upper_bound; lia]. }
  rewrite Hvm1 at 1. pose proof (Write_queue_regs (setup_writes size desc driver device) q vm1) as Hrun.
  change (t_queueSel (vm_tr vm1)) with i in Hrun. rewrite Hrun; [|done..|].
  - f_equal. f_equal. cbn -[Z.pow u32 Z.div low_half high_half].
    rewrite !low_then_high by (done || by apply Hhalf).
    unfold set_q_Ready, set_q_DeviceAddr, set_q_DriverAddr, set_q_DescAddr, set_q_Size, u32.
    cbn -[Z.pow Z.div Z.modulo Z.mul Z.add].
    rewrite !(Z.add_comm (_ mod _)), !(Z.mul_comm (_ / _)), <- !Z.div_mod by lia. done.
  - unfold setup_writes. rewrite !Forall_cons. cbn [fst snd].
    assert (fits 32 size) by (unfold fits, MaxQueueSize in *; lia).
    splits; try done; try (by apply (bool_decide_unpack _)); try (apply Hhalf; done); by unfold fits.
Qed.

(** A driver reset returns the device to power-on. Writing 0 to the status
    register leaves the transport exactly as the constructor makes it, except
    for the history of the interrupt line, which ends deasserted; guest RAM and
    the device are untouched. (Devices without a reset hook, all queues on the
    same RAM base.) *)
Theorem reset_is_fresh {D} `{Device D} (vm : VM D) base :
  OnTransportReset = None → transport_wf (vm_tr vm) →
  Forall (λ q, q_guestPhysBase q = base) (t_queues (vm_tr vm)) →
  ∃ vm', Write RegStatus 0 vm = Ok vm' ∧
    vm_dev vm' = vm_dev vm ∧ vm_ram vm' = vm_ram vm ∧
    vm_tr vm' = with_irqs (fresh_transport (vm_tr vm) base) (t_irqs (vm_tr vm')) ∧
    (t_irqFn (vm_tr vm) = true → irq_level (vm_tr vm') = false).
Proof.
  intros Hn Hwf Hb. pose proof Hwf as (Hl & _).
  unfold Write, WriteBytes, resetTransport. rewrite Hn.
  destruct (the_queue_ok vm (t_queueSel (vm_tr vm))) as (q & -> & _); [done|apply Hwf|]. cbn.
  eexists. split; [done|]. cbn.
  assert (Queue_Reset <$> t_queues (vm_tr vm) = replicate 8 (SetGuestPhysBase (NewQueue 256) base)) as ->.
  { rewrite <- Hl. clear -Hb. induction Hb as [|q qs Hq _ IH]; [done|]. cbn. rewrite IH.
    unfold Queue_Reset. by rewrite Hq. }
  splits; try done.
  - unfold SignalIRQ, with_irqs, fresh_transport. cbn. by destruct (t_irqFn (vm_tr vm)).
  - unfold SignalIRQ. cbn. intros ->. unfold irq_level. cbn. by rewrite last_snoc.
Qed.

(** The snapshot of a transport loses only the shared-memory selector.
    Restoring the saved state into a freshly constructed transport gives back
    every register and queue, but the selector of the shared-memory region
    reads as 0 and the interrupt line is not driven again. *)
Theorem snapshot_restores_transport t base :
  transport_wf t → Forall (λ q, q_guestPhysBase q = base) (t_queues t) →
  Transport_RestoreState (fresh_transport t base) (Transport_State t)
    = with_irqs (set_shmSel t 0) [].
Proof.
  intros (Hl & _) Hb. unfold Transport_RestoreState, with_irqs, set_shmSel. cbn -[restore_queues].
  f_equal. destruct t as [a b c d e f g h i j qs k]. cbn -[restore_queues] in *.
  rewrite restore_queues_all by (rewrite length_fmap; done).
  change ([_; _; _; _; _; _; _; _]) with (replicate 8 (SetGuestPhysBase (NewQueue 256) base)).
  rewrite <- Hl. clear -Hb. induction Hb as [|q qs Hq _ IH]; [done|]. cbn. rewrite IH. f_equal.
  unfold Queue_RestoreState. cbn. rewrite <- Hq. by destruct q.
Qed.
