(* ===== verification/Scatter.v ===== *)
(** * Packets into receive chains

    The loop by which a device puts one packet into the writable buffers of the
    next chain of its receive queue (queue 0).  virtio-net and virtio-vsock have
    the same loop ([deliverRXPacket] in src/internal/virtio/net.go, [sendPkt] and
    [injectPkt] in src/internal/vsock/vsock.go); they differ in what they do
    after a failed write. *)
From S2P Require Import Prelude DirtyTracker Virtqueue Transport.

Section scatter.
Context {D : Type}.

(** The state of the loop over the chain: the machine, the rest of the frame,
    [written], and whether a guest write failed. *)
Record rx_state := mkRx { rx_vm : VM D; rx_pkt : list Z; rx_written : Z; rx_failed : bool }.

Definition rx_desc (d : Desc) (s : rx_state) : proc (bool * rx_state) :=
  if negb (has (d_Flags d) DescFlagWrite) then Ok (true, s)
  else
    let sz := u32 (zlen (rx_pkt s)) in
    let sz := if d_Len d <? sz then d_Len d else sz in
    chunk ← must (slice (rx_pkt s) 0 sz);
    o ← guest_write 0 (d_Addr d) chunk (rx_vm s);
    match o with
    | None => Ok (false, mkRx (rx_vm s) (rx_pkt s) (rx_written s) true)
    | Some vm =>
        pkt ← must (slice (rx_pkt s) sz (zlen (rx_pkt s)));
        Ok (negb (zlen pkt =? 0), mkRx vm pkt (u32 (rx_written s + sz)) false)
    end.

(** Go slices are shorter than 2^63 bytes; a frame has at most 65536. *)
Lemma rx_desc_sat (dwf : D → Prop) d s :
  desc_wf d → machine_inv dwf (rx_vm s) ∧ bytes (rx_pkt s) ∧ zlen (rx_pkt s) < 2 ^ 32 ∧ fits 32 (rx_written s) →
  res_sat (λ p, machine_inv dwf (rx_vm p.2) ∧ bytes (rx_pkt p.2) ∧ zlen (rx_pkt p.2) < 2 ^ 32 ∧
             fits 32 (rx_written p.2)) (rx_desc d s).
Proof.
  intros (Ha & Hl & _) (Hi & Hb & Hz & Hw). unfold rx_desc. destruct (negb _); [done|].
  pose proof (zlen_nonneg (rx_pkt s)). rewrite (u32_small (zlen (rx_pkt s))) by lia.
  set (sz := if d_Len d <? zlen (rx_pkt s) then d_Len d else zlen (rx_pkt s)).
  assert (0 ≤ sz ≤ zlen (rx_pkt s)) as Hsz
    by (unfold sz; destruct Hl; destruct (Z.ltb_spec (d_Len d) (zlen (rx_pkt s))); lia).
  destruct (slice_ok (rx_pkt s) 0 sz) as [chunk Hc]; [lia..|]. rewrite Hc. cbn [must mbind res_bind].
  pose proof (slice_len _ _ _ _ Hc) as Hcl.
  eapply res_sat_bind.
  { apply (guest_write_sat dwf); [done|lia|done|by eapply bytes_slice|lia]. }
  intros [vm'|] _ Hvm; cbn; [|done]. destruct Hvm as [Hvm _].
  destruct (slice_ok (rx_pkt s) sz (zlen (rx_pkt s))) as [rest Hrest]; [lia..|]. rewrite Hrest. cbn.
  pose proof (slice_len _ _ _ _ Hrest). splits; [done|by eapply bytes_slice|lia|apply fits_u32].
Qed.

Lemma rx_loop_sat (dwf : D → Prop) chain pkt vm :
  Forall desc_wf chain → bytes pkt → zlen pkt < 2 ^ 32 → machine_inv dwf vm →
  res_sat (λ s, machine_inv dwf (rx_vm s) ∧ fits 32 (rx_written s)) (for_break rx_desc chain (mkRx vm pkt 0 false)).
Proof.
  intros Hw Hb Hz Hi.
  apply (res_sat_mono (λ s, machine_inv dwf (rx_vm s) ∧ bytes (rx_pkt s) ∧
    zlen (rx_pkt s) < 2 ^ 32 ∧ fits 32 (rx_written s))); [|by intros s (? & _ & _ & ?)].
  apply for_break_sat; [|by splits].
  intros d' s Hd Hs'. apply rx_desc_sat; [|done]. rewrite Forall_forall in Hw. auto.
Qed.

(** ** Where a frame goes

    The writable descriptors get consecutive chunks until the frame is used
    up. *)
Fixpoint scatter (chain : list Desc) (pkt : list Z) : list (Desc * list Z) :=
  match chain with
  | [] => []
  | d :: chain =>
      if has (d_Flags d) DescFlagWrite then
        let n := Z.to_nat (d_Len d) in
        (d, take n pkt) :: (if bool_decide (drop n pkt = []) then [] else scatter chain (drop n pkt))
      else scatter chain pkt
  end.

(** The room of a chain. *)
Definition capacity (chain : list Desc) : Z :=
  foldr (λ d n, (if has (d_Flags d) DescFlagWrite then d_Len d else 0) + n) 0 chain.

Lemma capacity_nonneg chain : Forall desc_wf chain → 0 ≤ capacity chain.
Proof.
  induction 1 as [|d ds (_ & Hl & _) _ IH]; [done|]. unfold capacity in *. cbn. destruct Hl. destruct (has _ _); lia.
Qed.

Lemma scatter_concat chain pkt :
  Forall desc_wf chain → concat (scatter chain pkt).*2 = take (Z.to_nat (capacity chain)) pkt.
Proof.
  intros Hw. revert pkt. induction Hw as [|d ds (_ & Hl & _) Hds IH]; intros pkt; [done|].
  cbn [scatter capacity foldr]. pose proof (capacity_nonneg ds Hds) as Hn. unfold capacity in Hn. destruct Hl as [Hl _].
  destruct (has _ _); [|by apply IH].
  rewrite Z2Nat.inj_add by done. set (n := Z.to_nat (d_Len d)). rewrite fmap_cons. cbn [concat fst snd].
  rewrite <- (take_take_drop pkt n). f_equal.
  destruct (bool_decide_reflect (drop n pkt = [])) as [->|Hd]; [by rewrite take_nil|]. apply IH.
Qed.

(** One descriptor that can be written. *)
Lemma rx_desc_spec d pkt vm w vm1 :
  fits 32 (d_Len d) → zlen pkt < 2 ^ 32 → 0 ≤ w → w + zlen pkt < 2 ^ 32 → has (d_Flags d) DescFlagWrite = true →
  guest_write 0 (d_Addr d) (take (Z.to_nat (d_Len d)) pkt) vm = Ok (Some vm1) →
  rx_desc d (mkRx vm pkt w false)
  = Ok (negb (bool_decide (drop (Z.to_nat (d_Len d)) pkt = [])),
        mkRx vm1 (drop (Z.to_nat (d_Len d)) pkt) (w + zlen (take (Z.to_nat (d_Len d)) pkt)) false).
Proof.
  intros [Hl _] Hz Hw0 Hsum Hwr Hgw. unfold rx_desc. rewrite Hwr. cbn [negb rx_pkt rx_vm rx_written].
  pose proof (zlen_nonneg pkt). rewrite (u32_small (zlen pkt)) by lia.
  set (sz := if d_Len d <? zlen pkt then d_Len d else zlen pkt). set (n := Z.to_nat (d_Len d)) in *.
  assert (0 ≤ sz ≤ zlen pkt ∧ take (Z.to_nat sz) pkt = take n pkt ∧ drop (Z.to_nat sz) pkt = drop n pkt)
    as (Hsz & Htk & Hdr).
  { unfold sz, n. destruct (Z.ltb_spec (d_Len d) (zlen pkt)); [splits; done || lia|].
    unfold zlen in *. rewrite !take_ge, !drop_ge by lia. splits; done || lia. }
  assert (slice pkt 0 sz = Some (take n pkt)) as ->
    by (apply slice_Some; split; [lia|]; by rewrite drop_0, Z.sub_0_r, Htk).
  cbn [must mbind res_bind]. rewrite Hgw. cbn [mbind res_bind].
  assert (slice pkt sz (zlen pkt) = Some (drop n pkt)) as ->.
  { apply slice_Some. split; [lia|]. rewrite Hdr, take_ge; [done|]. rewrite <- Hdr, length_drop. unfold zlen. lia. }
  cbn [must mbind res_bind].
  assert (zlen (take n pkt) = sz) as -> by (rewrite <- Htk; unfold zlen in *; rewrite length_take; lia).
  rewrite (u32_small (w + sz)) by lia. by destruct (drop n pkt).
Qed.

(** The loop over the chain is the delivery of the scattered chunks. *)
Lemma rx_loop_spec chain pkt vm vm' w :
  Forall desc_wf chain → zlen pkt < 2 ^ 32 → 0 ≤ w → w + zlen pkt < 2 ^ 32 →
  deliver 0 (scatter chain pkt).*1 (scatter chain pkt).*2 vm = Ok vm' →
  ∃ rest, for_break rx_desc chain (mkRx vm pkt w false)
          = Ok (mkRx vm' rest (w + zlen (concat (scatter chain pkt).*2)) false).
Proof.
  intros Hw. revert pkt vm w. induction Hw as [|d ds (Ha & Hl & _) Hds IH]; intros pkt vm w Hz Hw0 Hsum Hdel.
  - cbn in Hdel. injection Hdel as <-. exists pkt. cbn. by rewrite Z.add_0_r.
  - cbn [scatter] in *. cbn [for_break]. destruct (has (d_Flags d) DescFlagWrite) eqn:Hwr.
    2: { assert (rx_desc d (mkRx vm pkt w false) = Ok (true, mkRx vm pkt w false)) as ->
           by (unfold rx_desc; by rewrite Hwr). by apply IH. }
    set (n := Z.to_nat (d_Len d)) in *.
    rewrite !fmap_cons in Hdel. unfold deliver in Hdel. cbn [zip zip_with for_each fst snd] in Hdel.
    apply bind_Ok in Hdel as (vm1 & Hgw & Hdel). apply bind_Ok in Hgw as (o & Hgw & Ho).
    destruct o as [vm1'|]; [|done]. cbn in Ho. injection Ho as ->.
    rewrite (rx_desc_spec d pkt vm w vm1) by done. fold n. cbn [mbind res_bind].
    pose proof (take_drop n pkt) as Htd. apply (f_equal zlen) in Htd. rewrite zlen_app in Htd.
    pose proof (zlen_nonneg (take n pkt)). rewrite fmap_cons. cbn [concat snd]. rewrite zlen_app.
    destruct (bool_decide_reflect (drop n pkt = [])) as [Hnil|Hnil]; cbn [negb].
    + cbn in Hdel. injection Hdel as <-. eexists. cbn. by rewrite Z.add_0_r.
    + destruct (IH (drop n pkt) vm1 (w + zlen (take n pkt))) as [rest Hrun]; [pose proof (zlen_nonneg (drop n pkt)); lia..|done|].
      exists rest. rewrite Hrun. by rewrite Z.add_assoc.
Qed.

End scatter.
Arguments rx_state : clear implicits.
