(* ===== verification/Rng.v ===== *)
(** * virtio-rng (src/internal/virtio/rng.go)

    The entropy source fills the writable buffers of every chain with random
    bytes.  [crypto/rand.Read] is the operating system's generator: the
    parameter [randRead] gives the result of its [k]-th call for a length, and
    [None] is its error.  The byte count of the first loop only feeds the rate
    limiter, which delays the request and is not part of this file's state. *)
From S2P Require Import Prelude DirtyTracker Virtqueue Transport.

Definition DeviceIDRNG : Z := 4.

(** [rng_calls] counts the calls of [rand.Read], which selects the results the
    generator gives. *)
Record RNGDevice := mkRNGDevice { rng_calls : nat }.

Section rng.
Context (randRead : nat → Z → option (list Z)).

(** The documented contract of [rand.Read]: it fills the buffer or fails. *)
Definition randRead_fills : Prop :=
  ∀ k n bs, randRead k n = Some bs → bytes bs ∧ zlen bs = n.

(** The body of the loop that fills the buffers of a chain. *)
Definition fill_desc (qi : Z) (d : Desc) (s : VM RNGDevice * Z) : proc (bool * (VM RNGDevice * Z)) :=
  let '(vm, written) := s in
  if negb (has (d_Flags d) DescFlagWrite) then Ok (true, (vm, written))
  else
    let k := rng_calls (vm_dev vm) in
    let vm := set_dev vm (mkRNGDevice (S k)) in
    match randRead k (d_Len d) with
    | None => Ok (false, (vm, written))
    | Some buf =>
        o ← guest_write qi (d_Addr d) buf vm;
        match o with
        | None => Ok (false, (vm, written))
        | Some vm => Ok (true, (vm, u32 (written + d_Len d)))
        end
    end.

(** The callback of [IterAvail]. *)
Definition rng_request (qi head : Z) (vm : VM RNGDevice) : proc (VM RNGDevice) :=
  o ← walk_chain qi head vm;
  match o with
  | None => push_used qi head 0 vm
  | Some chain =>
      '(vm, written) ← for_break (fill_desc qi) chain (vm, 0);
      push_used qi head written vm
  end.

Definition rng_HandleQueue (i : Z) (vm : VM RNGDevice) : proc (VM RNGDevice) :=
  if negb (i =? 0) then Ok vm
  else swallow vm (IterAvail i (rng_request i) vm).

#[export] Instance RNGDevice_Device : Device RNGDevice := {
  DeviceID _ := DeviceIDRNG;
  DeviceFeatures _ := 0;
  ConfigBytes _ := [];
  HandleQueue := rng_HandleQueue;
  WriteConfig := None;
  HandleQueueNotify := None;
  SharedMemoryRegion := None;
  OnTransportStateChange := None;
  OnTransportReset := None;
  ActivateLink := None
}.

Definition NewRNGDevice (basePA irq : Z) (irqFn : bool) (r : Ram) : VM RNGDevice :=
  mkVM (mkRNGDevice 0) (NewTransport basePA irq irqFn) r.

Context (Hrand : randRead_fills).

Lemma fill_desc_sat qi d s :
  0 ≤ qi < 8 → desc_wf d → machine_inv (λ _, True) s.1 ∧ fits 32 s.2 →
  res_sat (λ p, machine_inv (λ _, True) p.2.1 ∧ fits 32 p.2.2) (fill_desc qi d s).
Proof.
  destruct s as [vm w]. intros Hqi (Ha & Hl & _) [Hi Hw]. simpl in *.
  destruct (negb _); [done|].
  destruct (randRead _ _) as [buf|] eqn:E; [|split; [by apply set_dev_inv|done]]. apply Hrand in E as [Hb Hz].
  eapply res_sat_bind.
  - apply (guest_write_sat (λ _, True)); [by apply set_dev_inv|done..|].
    destruct Hl. rewrite Hz. lia.
  - intros [vm'|] _ Hvm; simpl in *; [|split; [by apply set_dev_inv|done]]. destruct Hvm as [Hvm _].
    split; [done|apply fits_u32].
Qed.

Lemma rng_request_sat qi head vm :
  0 ≤ qi < 8 → fits 16 head → machine_inv (λ _, True) vm →
  res_sat (machine_inv (λ _, True)) (rng_request qi head vm).
Proof.
  intros Hqi Hh Hi. unfold rng_request.
  assert (fits 32 head) by (eapply fits_mono; [done|lia]).
  eapply res_sat_bind; [by eapply walk_chain_sat|]. intros [chain|] _ Hc.
  - destruct Hc as (_ & _ & Hw & _).
    eapply res_sat_bind with (λ p, machine_inv (λ _, True) p.1 ∧ fits 32 p.2).
    + apply for_break_sat; [|done]. intros d s Hd Hs.
      apply fill_desc_sat; [done| |done]. rewrite Forall_forall in Hw. auto.
    + intros [vm' w] _ [? ?]. by apply push_used_sat.
  - by apply push_used_sat.
Qed.

#[export] Instance RNGDevice_Laws : DeviceLaws RNGDevice.
Proof.
  refine {| dev_wf := λ _, True |}; try done.
  intros i vm Hii Hi. simpl. unfold rng_HandleQueue. destruct (negb _); [done|].
  apply res_sat_swallow; [|done]. apply IterAvail_sat; [done..|].
  intros h vm' Hh Hvm. by apply rng_request_sat.
Defined.
End rng.
