(* ===== verification/Blk.v ===== *)
(** * virtio-blk (src/internal/virtio/blk.go)

    A block device backed by a raw image file.  The file is its list of bytes;
    the host's I/O may fail or be cut short, so the parameter [hostIO] says how
    many bytes the [k]-th host call transfers of a request: an I/O error is a
    transfer that falls short.  [HandleQueue] is translated whole: the walk of
    the chain, [parseRequest] with every rejection, the five request types, the
    status byte and the used-ring entry.  The rate limiter only delays a
    request; the buffer pools of [GetBlkBuffer] hand out buffers whose stale
    contents are overwritten before use, so neither is part of the state. *)
From S2P Require Import Prelude DirtyTracker Virtqueue Transport.

(** ** Constants *)
Definition DeviceIDBlock : Z := 2.
Definition BlkFeatureRO : Z := 1 .<< 5.
Definition BlkFeatureFlush : Z := 1 .<< 9.
Definition BlkFeatureDiscard : Z := 1 .<< 13.

Definition BlkTIn : Z := 0.
Definition BlkTOut : Z := 1.
Definition BlkTFlush : Z := 4.
Definition BlkTGetID : Z := 8.
Definition BlkTDiscard : Z := 11.

Definition BlkSOK : Z := 0.
Definition BlkSIOErr : Z := 1.
Definition BlkSUnsup : Z := 2.

Definition blkSectorSize : Z := 512.
Definition blkIDBytes : Z := 20.
Definition blkDiscardSegmentBytes : Z := 16.

(** ** Data *)
Record BlockDevice := mkBlockDevice {
  blk_file : list Z;
  blk_readOnly : bool;
  blk_discard : bool;
  blk_sectors : Z;
  blk_dirty : option DirtyTracker;
  blk_ops : nat                      (** host I/O calls so far *)
}.

Record blkDiscardSegment := mkSegment {
  seg_sector : Z;
  seg_numSectors : Z;
  seg_flags : Z
}.

Record blkRequest := mkRequest {
  req_type : Z;
  req_sector : Z;
  req_dataDescs : list Desc;
  req_dataLen : Z;
  req_discards : list blkDiscardSegment;
  req_statusDesc : Desc
}.

Inductive blkerr :=
  | ChainTooShort
  | HeaderWriteOnly
  | HeaderTooSmall
  | HeaderRead (e : qerr)
  | StatusNotWritable
  | StatusTooSmall
  | FlushWithData
  | MissingData
  | DataNotWritable
  | DataWritable
  | NotSectorAligned (len : Z)
  | RequestOutOfBounds (sector len sectors : Z)
  | GetIDTooSmall (len : Z)
  | DiscardMisaligned (len : Z)
  | DiscardMissingSegments
  | DiscardRead (e : qerr)
  | DiscardFlags (flags : Z)
  | DiscardOutOfBounds (sector num sectors : Z).

(** Re-tag the error of a queue operation. *)
Definition map_err {E F A} (f : E → F) (m : res E A) : res F A :=
  match m with Ok a => Ok a | Err e => Err (f e) | Panic => Panic | NoFuel => NoFuel end.

(** ** Construction and configuration *)

(** [NewBlockDeviceWithOptions] after the image was opened: [size] is the file
    size, [probe] the result of the discard probe, [opts] the skip option. *)
Definition NewBlockDevice (getpagesize : Z) (file : list Z) (readOnly probe : bool)
    (skipDiscardProbe : option bool) : BlockDevice :=
  {| blk_file := file;
     blk_readOnly := readOnly;
     blk_discard := if readOnly then false
                    else match skipDiscardProbe with Some d => d | None => probe end;
     blk_sectors := zlen file / 512;
     blk_dirty := Some (NewDirtyTracker getpagesize (zlen file));
     blk_ops := 0 |}.

Definition blk_DeviceFeatures (d : BlockDevice) : Z :=
  let f := BlkFeatureFlush in
  let f := if blk_readOnly d then f .| BlkFeatureRO else f in
  if blk_discard d then f .| BlkFeatureDiscard else f.

Definition blk_ConfigBytes (d : BlockDevice) : list Z :=
  le_encode 8 (blk_sectors d) ++ le_encode 4 0 ++ le_encode 4 128.

(** ** Request parsing *)

(** The loop that gathers the segment bytes into [buf]. *)
Fixpoint gather (q : Queue) (r : Ram) (descs : list Desc) (cursor : Z) (buf : list Z)
  : res blkerr (list Z) :=
  match descs with
  | [] => Ok buf
  | d :: descs =>
      _ ← must (slice buf cursor (u32 (cursor + d_Len d)));
      bs ← map_err DiscardRead (GuestRead q r (d_Addr d) (d_Len d));
      buf ← must (splice buf cursor bs);
      gather q r descs (u32 (cursor + d_Len d)) buf
  end.

(** One 16-byte segment. *)
Definition parseSegment (sectors : Z) (buf : list Z) (o : Z) : res blkerr blkDiscardSegment :=
  entry ← must (slice buf o (o + blkDiscardSegmentBytes));
  sector ← must (getLE 8 entry 0);
  num ← must (getLE 4 entry 8);
  flags ← must (getLE 4 entry 12);
  let seg := {| seg_sector := sector; seg_numSectors := num; seg_flags := flags |} in
  if negb (flags =? 0) then Err (DiscardFlags flags)
  else if num =? 0 then Ok seg
  else
    let topSector := u64 (sector + num) in
    if (topSector <? sector) || (sectors <? topSector)
    then Err (DiscardOutOfBounds sector num sectors)
    else Ok seg.

Definition readDiscardSegments (d : BlockDevice) (q : Queue) (r : Ram) (descs : list Desc)
    (totalLen : Z) : res blkerr (list blkDiscardSegment) :=
  if totalLen =? 0 then Err DiscardMissingSegments
  else
    buf ← gather q r descs 0 (replicate (Z.to_nat totalLen) 0);
    for_each (λ k segs, seg ← parseSegment (blk_sectors d) buf (blkDiscardSegmentBytes * k);
                        Ok (segs ++ [seg]))
      (seqZ 0 ((totalLen + (blkDiscardSegmentBytes - 1)) / blkDiscardSegmentBytes)) [].

(** The direction check of the data descriptors, and the running [dataLen]. *)
Definition checkData (reqType : Z) (desc : Desc) (dataLen : Z) : res blkerr Z :=
  let dataLen := u32 (dataLen + d_Len desc) in
  if (reqType =? BlkTIn) || (reqType =? BlkTGetID) then
    if negb (has (d_Flags desc) DescFlagWrite) then Err DataNotWritable else Ok dataLen
  else if (reqType =? BlkTOut) || (reqType =? BlkTDiscard) then
    if has (d_Flags desc) DescFlagWrite then Err DataWritable else Ok dataLen
  else Ok dataLen.

(** The final [switch]: alignment, bounds, discard segments. *)
Definition checkBounds (d : BlockDevice) (q : Queue) (r : Ram) (reqType sector : Z)
    (dataDescs : list Desc) (dataLen : Z) : res blkerr (list blkDiscardSegment) :=
  if (reqType =? BlkTIn) || (reqType =? BlkTOut) then
    if negb (dataLen mod blkSectorSize =? 0) then Err (NotSectorAligned dataLen)
    else
      let topSector := u64 (sector + dataLen / blkSectorSize) in
      if blk_sectors d <? topSector
      then Err (RequestOutOfBounds sector dataLen (blk_sectors d)) else Ok []
  else if reqType =? BlkTGetID then
    if dataLen <? blkIDBytes then Err (GetIDTooSmall dataLen) else Ok []
  else if reqType =? BlkTDiscard then
    if negb (dataLen mod blkDiscardSegmentBytes =? 0) then Err (DiscardMisaligned dataLen)
    else readDiscardSegments d q r dataDescs dataLen
  else Ok [].

Definition parseRequest (d : BlockDevice) (q : Queue) (r : Ram) (chain : list Desc)
  : res blkerr blkRequest :=
  if zlen chain <? 2 then Err ChainTooShort
  else
    hdrDesc ← must (at_ chain 0);
    if has (d_Flags hdrDesc) DescFlagWrite then Err HeaderWriteOnly
    else if d_Len hdrDesc <? 16 then Err HeaderTooSmall
    else
      hdr ← map_err HeaderRead (GuestRead q r (d_Addr hdrDesc) 16);
      reqType ← must (getLE 4 hdr 0);
      sector ← must (getLE 8 hdr 8);
      statusDesc ← must (at_ chain (zlen chain - 1));
      if negb (has (d_Flags statusDesc) DescFlagWrite) then Err StatusNotWritable
      else if d_Len statusDesc <? 1 then Err StatusTooSmall
      else
        dataDescs ← must (slice chain 1 (zlen chain - 1));
        if (reqType =? BlkTFlush) && negb (zlen dataDescs =? 0) then Err FlushWithData
        else if ((reqType =? BlkTIn) || (reqType =? BlkTOut) || (reqType =? BlkTGetID)
                 || (reqType =? BlkTDiscard)) && (zlen dataDescs =? 0) then Err MissingData
        else
          dataLen ← for_each (checkData reqType) dataDescs 0;
          discards ← checkBounds d q r reqType sector dataDescs dataLen;
          Ok {| req_type := reqType; req_sector := sector; req_dataDescs := dataDescs;
                req_dataLen := dataLen; req_discards := discards; req_statusDesc := statusDesc |}.

(** ** Host file I/O *)
Section io.
(** [hostIO k n]: how many of [n] bytes the [k]-th host call transfers. *)
Context (hostIO : nat → Z → Z).

Definition xfer (k : nat) (n : Z) : Z := Z.max 0 (Z.min n (hostIO k n)).

Definition set_file (d : BlockDevice) (f : list Z) : BlockDevice :=
  mkBlockDevice f (blk_readOnly d) (blk_discard d) (blk_sectors d) (blk_dirty d) (blk_ops d).
Definition set_blk_dirty (d : BlockDevice) (t : option DirtyTracker) : BlockDevice :=
  mkBlockDevice (blk_file d) (blk_readOnly d) (blk_discard d) (blk_sectors d) t (blk_ops d).
Definition tick (d : BlockDevice) : BlockDevice :=
  mkBlockDevice (blk_file d) (blk_readOnly d) (blk_discard d) (blk_sectors d) (blk_dirty d)
    (S (blk_ops d)).

(** [file.ReadAt(buf, off)] with [n = len(buf)]: [None] unless it fills the
    buffer. A negative offset is an error; reading past the end is short. *)
Definition file_ReadAt (d : BlockDevice) (o n : Z) : option (list Z) :=
  if o <? 0 then None
  else if n =? 0 then Some []
  else if n <=? xfer (blk_ops d) n then slice (blk_file d) o (o + n) else None.

(** The file after writing [bs] at [o]; a write past the end grows it. *)
Definition file_put (f : list Z) (o : Z) (bs : list Z) : list Z :=
  let f := f ++ replicate (Z.to_nat (o + zlen bs - zlen f)) 0 in
  default f (splice f o bs).

(** [file.WriteAt(buf, off)]: the new file and whether all was written. *)
Definition file_WriteAt (d : BlockDevice) (o : Z) (buf : list Z) : list Z * bool :=
  if o <? 0 then (blk_file d, false)
  else if zlen buf =? 0 then (blk_file d, true)
  else
    let n := xfer (blk_ops d) (zlen buf) in
    (if n =? 0 then blk_file d else file_put (blk_file d) o (take (Z.to_nat n) buf),
     zlen buf <=? n).

(** [file.Sync()] *)
Definition file_Sync (d : BlockDevice) : bool := 1 <=? hostIO (blk_ops d) 1.

(** [punchHole(fd, off, len)] (FALLOC_FL_PUNCH_HOLE | FALLOC_FL_KEEP_SIZE):
    the range, within the file, reads as zeros. *)
Definition zero_range (f : list Z) (o len : Z) : list Z :=
  imap (λ i b, if (o <=? Z.of_nat i) && (Z.of_nat i <? o + len) then 0 else b) f.

Definition discardRange (d : BlockDevice) (sector numSectors : Z) : proc (BlockDevice * bool) :=
  if numSectors =? 0 then Ok (d, true)
  else
    let o := i64 (u64 (sector * blkSectorSize)) in
    let length := i64 (u64 (numSectors * blkSectorSize)) in
    if (0 <=? o) && (1 <=? hostIO (blk_ops d) 1) then
      let d := set_file (tick d) (zero_range (blk_file d) o length) in
      match blk_dirty d with
      | Some t => t ← Mark t (u64 o) (u64 length); Ok (set_blk_dirty d (Some t), true)
      | None => Ok (d, true)
      end
    else Ok (tick d, false).

(** ** Serving a request *)

(** The loop state of a transfer. *)
Record xfer_state := mkXfer {
  x_vm : VM BlockDevice;
  x_status : Z;
  x_written : Z;
  x_sector : Z
}.

Definition io_offset (sector : Z) : Z := i64 (i64 sector * blkSectorSize).

(** [case BlkTIn]: one data descriptor. *)
Definition read_desc (qi : Z) (desc : Desc) (s : xfer_state) : proc (bool * xfer_state) :=
  let vm := x_vm s in
  let d := vm_dev vm in
  let vm := set_dev vm (tick d) in
  match file_ReadAt d (io_offset (x_sector s)) (d_Len desc) with
  | None => Ok (false, mkXfer vm BlkSIOErr (x_written s) (x_sector s))
  | Some buf =>
      o ← guest_write qi (d_Addr desc) buf vm;
      match o with
      | None => Ok (false, mkXfer vm BlkSIOErr (x_written s) (x_sector s))
      | Some vm =>
          Ok (true, mkXfer vm (x_status s) (u32 (x_written s + d_Len desc))
                      (u64 (x_sector s + d_Len desc / blkSectorSize)))
      end
  end.

(** [case BlkTOut]: one data descriptor. *)
Definition write_desc (qi : Z) (desc : Desc) (s : xfer_state) : proc (bool * xfer_state) :=
  let vm := x_vm s in
  let d := vm_dev vm in
  o ← guest_read qi (d_Addr desc) (d_Len desc) vm;
  match o with
  | None => Ok (false, mkXfer vm BlkSIOErr (x_written s) (x_sector s))
  | Some buf =>
      let '(f, ok) := file_WriteAt d (io_offset (x_sector s)) buf in
      let d := set_file (tick d) f in
      if negb ok then Ok (false, mkXfer (set_dev vm d) BlkSIOErr (x_written s) (x_sector s))
      else
        d ← match blk_dirty d with
            | Some t => t ← Mark t (u64 (x_sector s * blkSectorSize)) (zlen buf);
                        Ok (set_blk_dirty d (Some t))
            | None => Ok d
            end;
        Ok (true, mkXfer (set_dev vm d) (x_status s) (x_written s)
                    (u64 (x_sector s + d_Len desc / blkSectorSize)))
  end.

(** ["gocracker\x00"] *)
Definition blk_id : list Z := [103; 111; 99; 114; 97; 99; 107; 101; 114; 0].

(** [case BlkTGetID]: only the first data descriptor is used. *)
Definition get_id (qi : Z) (descs : list Desc) (vm : VM BlockDevice)
  : proc (VM BlockDevice * Z * Z) :=
  match descs with
  | [] => Ok (vm, BlkSOK, 0)
  | desc :: _ =>
      let n := if d_Len desc <? zlen blk_id then d_Len desc else zlen blk_id in
      id ← must (slice blk_id 0 n);
      o ← guest_write qi (d_Addr desc) id vm;
      match o with
      | None => Ok (vm, BlkSIOErr, 0)
      | Some vm => Ok (vm, BlkSOK, n)
      end
  end.

(** [case BlkTDiscard]: one segment. *)
Definition discard_seg (seg : blkDiscardSegment) (s : VM BlockDevice * Z)
  : proc (bool * (VM BlockDevice * Z)) :=
  let '(vm, status) := s in
  if seg_numSectors seg =? 0 then Ok (true, (vm, status))
  else
    '(d, ok) ← discardRange (vm_dev vm) (seg_sector seg) (seg_numSectors seg);
    Ok (if (ok : bool) then (true, (set_dev vm d, status)) else (false, (set_dev vm d, BlkSIOErr))).

(** The [switch] on the request type: the machine, the status byte and
    [writtenToMem]. *)
Definition serve (qi : Z) (req : blkRequest) (vm : VM BlockDevice)
  : proc (VM BlockDevice * Z * Z) :=
  let d := vm_dev vm in
  if req_type req =? BlkTIn then
    s ← for_break (read_desc qi) (req_dataDescs req) (mkXfer vm BlkSOK 0 (req_sector req));
    Ok (x_vm s, x_status s, x_written s)
  else if req_type req =? BlkTOut then
    if blk_readOnly d then Ok (vm, BlkSIOErr, 0)
    else
      s ← for_break (write_desc qi) (req_dataDescs req) (mkXfer vm BlkSOK 0 (req_sector req));
      Ok (x_vm s, x_status s, x_written s)
  else if req_type req =? BlkTFlush then
    Ok (set_dev vm (tick d), if file_Sync d then BlkSOK else BlkSIOErr, 0)
  else if req_type req =? BlkTGetID then get_id qi (req_dataDescs req) vm
  else if req_type req =? BlkTDiscard then
    if negb (blk_discard d) then Ok (vm, BlkSUnsup, 0)
    else
      '(vm, status) ← for_break discard_seg (req_discards req) (vm, BlkSOK);
      Ok (vm, status, 0)
  else Ok (vm, BlkSUnsup, 0).

(** The callback of [IterAvail]. *)
Definition blk_request (qi head : Z) (vm : VM BlockDevice) : proc (VM BlockDevice) :=
  o ← walk_chain qi head vm;
  match o with
  | None => push_used qi head 0 vm
  | Some chain =>
      q ← must (the_queue vm qi);
      p ← attempt (parseRequest (vm_dev vm) q (vm_ram vm) chain);
      match p with
      | None => push_used qi head 0 vm
      | Some req =>
          '(vm, status, writtenToMem) ← serve qi req vm;
          o ← guest_write qi (d_Addr (req_statusDesc req)) [status] vm;
          match o with
          | None => push_used qi head writtenToMem vm
          | Some vm => push_used qi head (u32 (writtenToMem + 1)) vm
          end
      end
  end.

Definition blk_HandleQueue (i : Z) (vm : VM BlockDevice) : proc (VM BlockDevice) :=
  if negb (i =? 0) then Ok vm
  else swallow vm (IterAvail i (blk_request i) vm).

#[export] Instance BlockDevice_Device : Device BlockDevice := {
  DeviceID _ := DeviceIDBlock;
  DeviceFeatures := blk_DeviceFeatures;
  ConfigBytes := blk_ConfigBytes;
  HandleQueue := blk_HandleQueue;
  WriteConfig := None;
  HandleQueueNotify := None;
  SharedMemoryRegion := None;
  OnTransportStateChange := None;
  OnTransportReset := None;
  ActivateLink := None
}.
End io.

(** Snapshot and migration accessors. *)
Definition DirtyBitmapAndReset (d : BlockDevice) : option (list Z) * BlockDevice :=
  match blk_dirty d with
  | None => (None, d)
  | Some t => let '(bits, t) := SnapshotAndReset t in (Some bits, set_blk_dirty d (Some t))
  end.

Definition ResetDirty (d : BlockDevice) : BlockDevice :=
  match blk_dirty d with
  | None => d
  | Some t => set_blk_dirty d (Some (DirtyTracker.Reset t))
  end.

Definition SizeBytes (d : BlockDevice) : Z := u64 (blk_sectors d * blkSectorSize).

(** ** Parsing: totality and what an accepted request guarantees *)

(** A device over an image that was [f0] when it was opened, read-only if [ro]:
    the image keeps its size, and its contents too when it is read-only. *)
Definition blk_wf (ro : bool) (f0 : list Z) (d : BlockDevice) : Prop :=
  bytes (blk_file d) ∧ blk_sectors d = zlen f0 / 512 ∧ zlen (blk_file d) = zlen f0 ∧
  zlen f0 < 2 ^ 63 ∧
  (blk_readOnly d = true → blk_discard d = false ∧ blk_file d = f0) ∧
  match blk_dirty d with Some t => DirtyTracker.wf t | None => True end ∧
  blk_readOnly d = ro.

Definition req_wf (req : blkRequest) : Prop :=
  Forall desc_wf (req_dataDescs req) ∧ desc_wf (req_statusDesc req) ∧
  fits 64 (req_sector req) ∧ req_dataLen req = chain_bytes (req_dataDescs req) ∧
  chain_bytes (req_dataDescs req) ≤ MaxDescriptorChainBytes ∧
  Forall (λ s, fits 64 (seg_sector s) ∧ fits 32 (seg_numSectors s)) (req_discards req).

(** The bounds check of a transfer. *)
Definition req_bounds (sectors : Z) (req : blkRequest) : Prop :=
  req_type req = BlkTIn ∨ req_type req = BlkTOut →
  req_dataDescs req ≠ [] ∧ req_dataLen req mod blkSectorSize = 0 ∧
  u64 (req_sector req + req_dataLen req / blkSectorSize) ≤ sectors.

Lemma res_sat_map_err {E F A} (P : A → Prop) (f : E → F) (m : res E A) :
  res_sat P m → res_sat P (map_err f m).
Proof. by destruct m. Qed.

Lemma chain_bytes_app xs ys : chain_bytes (xs ++ ys) = chain_bytes xs + chain_bytes ys.
Proof. induction xs as [|x xs IH]; simpl; [done|]. rewrite IH. lia. Qed.

Lemma chain_bytes_nonneg ds : Forall desc_wf ds → 0 ≤ chain_bytes ds.
Proof. induction 1 as [|d ds (_ & [? _] & _) _ IH]; simpl; lia. Qed.

(** A middle part of a chain is no longer than the chain. *)
Lemma chain_bytes_slice ds lo hi xs :
  Forall desc_wf ds → slice ds lo hi = Some xs →
  Forall desc_wf xs ∧ chain_bytes xs ≤ chain_bytes ds.
Proof.
  intros Hd [Hb ->]%slice_Some.
  rewrite <- (take_drop (Z.to_nat lo) ds) at 3.
  rewrite <- (take_drop (Z.to_nat (hi - lo)) (drop (Z.to_nat lo) ds)) at 3.
  rewrite !chain_bytes_app.
  pose proof (chain_bytes_nonneg _ (Forall_take _ (Z.to_nat lo) _ Hd)).
  assert (Forall desc_wf (drop (Z.to_nat lo) ds)) as Hdr by by apply Forall_drop.
  pose proof (chain_bytes_nonneg _ (Forall_drop _ (Z.to_nat (hi - lo)) _ Hdr)).
  split; [by apply Forall_take|lia].
Qed.

(** The running [dataLen] is the exact sum: chains are too short to wrap it. *)
Lemma checkData_loop t ds n m :
  Forall desc_wf ds → 0 ≤ n → n + chain_bytes ds ≤ MaxDescriptorChainBytes →
  for_each (checkData t) ds n = Ok m → m = n + chain_bytes ds.
Proof.
  revert n. induction ds as [|d ds IH]; intros n Hd Hn Hs H; simpl in *; [simplify_eq; lia|].
  inversion Hd as [|? ? (_ & [? ?] & _) Hds]; subst. pose proof (chain_bytes_nonneg _ Hds).
  rewrite MaxDescriptorChainBytes_val in *. apply bind_Ok in H as (k & Hk & H).
  assert (k = n + d_Len d) as ->.
  { unfold checkData in Hk. rewrite u32_small in Hk by lia. repeat case_match; simplify_eq; done. }
  apply IH in H; [lia|done|lia|lia].
Qed.

Lemma checkData_completes t ds n : completes (for_each (checkData t) ds n).
Proof.
  revert n. induction ds as [|d ds IH]; intros n; simpl; [done|].
  apply completes_bind; [|auto]. unfold checkData. by repeat case_match.
Qed.

Lemma gather_sat q r ds cursor buf :
  queue_wf q → ram_wf r → Forall desc_wf ds → bytes buf → 0 ≤ cursor →
  cursor + chain_bytes ds ≤ zlen buf → zlen buf < 2 ^ 32 →
  res_sat (λ b, bytes b ∧ zlen b = zlen buf) (gather q r ds cursor buf).
Proof.
  intros Hq Hr. revert cursor buf. induction ds as [|d ds IH]; intros cursor buf Hd Hb Hc Hs Hl;
    simpl in *; [done|].
  inversion Hd as [|? ? (Ha & [Hn0 Hn] & _) Hds]; subst. pose proof (chain_bytes_nonneg _ Hds).
  rewrite u32_small by lia. apply sat_bind_must; [apply slice_ok; lia|]. intros _ _.
  eapply res_sat_bind.
  - apply res_sat_map_err, GuestRead_sat; [done..|]. eapply fits_mono; [by split|lia].
  - intros bs _ (Hbb & Hbl & _).
    apply sat_bind_must; [apply splice_ok; lia|]. intros buf' Hbuf'.
    pose proof (splice_len _ _ _ _ Hbuf') as Hl'. rewrite <- Hl'.
    apply IH; [done|exact (bytes_splice _ _ _ _ Hb Hbb Hbuf')|lia..].
Qed.

Lemma parseSegment_sat sectors buf o :
  bytes buf → 0 ≤ o → o + 16 ≤ zlen buf →
  res_sat (λ s, fits 64 (seg_sector s) ∧ fits 32 (seg_numSectors s)) (parseSegment sectors buf o).
Proof.
  intros Hb Ho Hl. unfold parseSegment, blkDiscardSegmentBytes.
  apply sat_bind_must; [apply slice_ok; lia|]. intros e He.
  pose proof (slice_len _ _ _ _ He). pose proof (bytes_slice _ _ _ _ Hb He) as Hbe.
  apply sat_bind_must; [apply getLE_ok; lia|]. intros s Hs.
  apply sat_bind_must; [apply getLE_ok; lia|]. intros n Hn.
  apply sat_bind_must; [apply getLE_ok; lia|]. intros f Hf.
  apply (getLE_fits 8) in Hs; [|done]. apply (getLE_fits 4) in Hn; [|done].
  repeat case_match; simpl; done.
Qed.

Lemma readDiscardSegments_sat d q r ds n :
  queue_wf q → ram_wf r → Forall desc_wf ds → n = chain_bytes ds →
  chain_bytes ds ≤ MaxDescriptorChainBytes → n mod 16 = 0 →
  res_sat (Forall (λ s, fits 64 (seg_sector s) ∧ fits 32 (seg_numSectors s)))
    (readDiscardSegments d q r ds n).
Proof.
  intros Hq Hr Hd Hn Hm Hmod. pose proof (chain_bytes_nonneg _ Hd).
  rewrite MaxDescriptorChainBytes_val in Hm. unfold readDiscardSegments.
  destruct (Z.eqb_spec n 0); [done|].
  assert (zlen (replicate (Z.to_nat n) 0) = n) as Hz
    by (unfold zlen; rewrite length_replicate; lia).
  eapply res_sat_bind.
  - apply gather_sat; try done; [|lia..]. apply Forall_replicate. by unfold is_byte.
  - intros buf _ [Hb Hl]. apply for_each_sat; [|done].
    intros k segs Hk Hsegs. apply elem_of_seqZ in Hk. unfold blkDiscardSegmentBytes in *.
    eapply res_sat_bind.
    + apply parseSegment_sat; [done|lia|]. rewrite Hl, Hz.
      pose proof (Z.div_mod n 16). pose proof (Z.div_mod (n + (16 - 1)) 16).
      pose proof (Z.mod_pos_bound (n + (16 - 1)) 16). lia.
    + intros s _ Hsx. simpl. apply Forall_app. by rewrite Forall_singleton.
Qed.

Lemma checkBounds_sat d q r t sector ds n :
  queue_wf q → ram_wf r → Forall desc_wf ds → n = chain_bytes ds →
  chain_bytes ds ≤ MaxDescriptorChainBytes →
  res_sat (Forall (λ s, fits 64 (seg_sector s) ∧ fits 32 (seg_numSectors s)))
    (checkBounds d q r t sector ds n).
Proof.
  intros Hq Hr Hd Hn Hm. unfold checkBounds, blkDiscardSegmentBytes. repeat case_match; try (simpl; done).
  b2p. by apply readDiscardSegments_sat.
Qed.

Lemma checkBounds_xfer d q r t sector ds n segs :
  checkBounds d q r t sector ds n = Ok segs → t = BlkTIn ∨ t = BlkTOut →
  n mod blkSectorSize = 0 ∧ u64 (sector + n / blkSectorSize) ≤ blk_sectors d.
Proof. intros H [->| ->]; revert H; unfold checkBounds; cbn -[Z.modulo Z.div]; cases; done. Qed.

Lemma parseRequest_sat d q r chain :
  queue_wf q → ram_wf r → Forall desc_wf chain →
  chain_bytes chain ≤ MaxDescriptorChainBytes →
  res_sat (λ req, req_wf req ∧ req_bounds (blk_sectors d) req) (parseRequest d q r chain).
Proof.
  intros Hq Hr Hc Hm. unfold parseRequest. destruct (Z.ltb_spec (zlen chain) 2); [done|].
  apply sat_bind_must; [apply at_ok; lia|]. intros h Hh.
  assert (desc_wf h) as (Ha & _) by (apply at_Some in Hh as [_ Hh]; by eapply Forall_lookup_1).
  do 2 (case_match; [done|]).
  eapply res_sat_bind; [apply res_sat_map_err, GuestRead_sat; try done; by unfold fits|].
  intros hdr _ (Hhb & Hhl & _).
  apply sat_bind_must; [apply getLE_ok; lia|]. intros t Ht.
  apply sat_bind_must; [apply getLE_ok; lia|]. intros s Hs.
  apply (getLE_fits 8) in Hs; [|done].
  apply sat_bind_must; [apply at_ok; lia|]. intros sd Hsd.
  assert (desc_wf sd) by (apply at_Some in Hsd as [_ Hsd]; by eapply Forall_lookup_1).
  do 2 (case_match; [done|]).
  apply sat_bind_must; [apply slice_ok; lia|]. intros dd Hdd.
  destruct (chain_bytes_slice _ _ _ _ Hc Hdd) as [Hddw Hddb].
  case_match; [done|].
  destruct (((t =? BlkTIn) || (t =? BlkTOut) || (t =? BlkTGetID) || (t =? BlkTDiscard))
            && (zlen dd =? 0)) eqn:Hne; [done|].
  apply sat_bind_completes; [apply checkData_completes|]. intros n Hn.
  apply checkData_loop in Hn; [|done|lia|lia]. simpl in Hn.
  eapply res_sat_bind; [apply checkBounds_sat; done || lia|]. intros segs Hcb Hsegs.
  simpl. split; [unfold req_wf; simpl; splits; done || lia|].
  intros Ht'. simpl in *. split; [|by eapply checkBounds_xfer].
  intros ->. destruct Ht' as [->| ->]; done.
Qed.

(** ** The device keeps the machine invariant *)

Lemma bytes_take l n : bytes l → bytes (take n l).
Proof. apply Forall_take. Qed.

Lemma bytes_file_put f o bs : bytes f → bytes bs → bytes (file_put f o bs).
Proof.
  intros Hf Hb. unfold file_put.
  assert (bytes (f ++ replicate (Z.to_nat (o + zlen bs - zlen f)) 0)) as Hp.
  { apply Forall_app. split; [done|]. apply Forall_replicate. by unfold is_byte. }
  destruct (splice _ o bs) as [f'|] eqn:E; simpl; [|done]. exact (bytes_splice _ _ _ _ Hp Hb E).
Qed.

Lemma bytes_zero_range f o n : bytes f → bytes (zero_range f o n).
Proof.
  intros Hf. apply Forall_lookup. intros i b. unfold zero_range. rewrite list_lookup_imap.
  destruct (f !! i) as [b'|] eqn:E; simpl; [|done]. intros [= <-].
  case_match; [by unfold is_byte|]. by eapply Forall_lookup_1.
Qed.

Lemma length_zero_range f o n : zlen (zero_range f o n) = zlen f.
Proof. unfold zlen, zero_range. by rewrite length_imap. Qed.

(** A write inside the file is a splice. *)
Lemma file_put_inside f o bs :
  0 ≤ o → o + zlen bs ≤ zlen f → splice f o bs = Some (file_put f o bs).
Proof.
  intros Ho Hl. unfold file_put. replace (Z.to_nat _) with 0%nat by lia. rewrite app_nil_r.
  by destruct (splice_ok f o bs Ho Hl) as [f' ->].
Qed.

(** Byte offsets do not overflow inside a file. *)
Lemma io_offset_small sector : 0 ≤ sector < 2 ^ 54 → io_offset sector = sector * 512.
Proof.
  intros H. unfold io_offset, i64, blkSectorSize.
  rewrite (Z.mod_small (sector + _)) by lia.
  replace (sector + 2 ^ 63 - 2 ^ 63) with sector by lia. rewrite Z.mod_small by lia. lia.
Qed.

(** A sector number close to 2^64 gives a negative byte offset. *)
Lemma io_offset_wrapped sector : 2 ^ 64 - 2 ^ 53 ≤ sector < 2 ^ 64 → io_offset sector < 0.
Proof.
  intros H. unfold io_offset, i64, blkSectorSize.
  replace ((sector + 2 ^ 63) mod 2 ^ 64) with (sector - 2 ^ 63)
    by (apply Z.mod_unique with 1; lia).
  rewrite Z.mod_small by lia. lia.
Qed.

Section laws.
Context (hostIO : nat → Z → Z) (ro : bool) (f0 : list Z).

Definition xfer_ok (s : xfer_state) : Prop :=
  machine_inv (blk_wf ro f0) (x_vm s) ∧ is_byte (x_status s) ∧ fits 32 (x_written s) ∧
  fits 64 (x_sector s).

Lemma tick_wf d : blk_wf ro f0 d → blk_wf ro f0 (tick d).
Proof. done. Qed.

Lemma file_ReadAt_Some d o n buf :
  bytes (blk_file d) → 0 ≤ n → file_ReadAt hostIO d o n = Some buf → bytes buf ∧ zlen buf = n.
Proof.
  intros Hb Hn. unfold file_ReadAt. repeat case_match; try done; b2p; intros Hs; simplify_eq.
  - split; [constructor|done].
  - split; [by eapply bytes_slice|]. pose proof (slice_len _ _ _ _ Hs). lia.
Qed.

(** Where a transfer of [n] bytes may go: nowhere, or inside the file. *)
Definition offset_ok (sector n : Z) : Prop :=
  io_offset sector < 0 ∨ io_offset sector + n ≤ zlen f0.

Lemma file_WriteAt_keeps d sector buf :
  bytes (blk_file d) → bytes buf → zlen (blk_file d) = zlen f0 → offset_ok sector (zlen buf) →
  bytes (file_WriteAt hostIO d (io_offset sector) buf).1 ∧
  zlen (file_WriteAt hostIO d (io_offset sector) buf).1 = zlen f0 ∧
  (io_offset sector < 0 → (file_WriteAt hostIO d (io_offset sector) buf).2 = false).
Proof.
  intros Hb Hbuf Hl Hoff. unfold file_WriteAt. destruct (Z.ltb_spec (io_offset sector) 0); [done|].
  destruct Hoff as [?|Hoff]; [lia|]. pose proof (zlen_nonneg buf).
  case_match; [split; [done|split; [done|lia]]|]. simpl. case_match; [split; [done|split; [done|lia]]|].
  b2p. set (n := xfer hostIO (blk_ops d) (zlen buf)) in *. assert (n ≤ zlen buf) by (unfold n, xfer; lia).
  assert (splice (blk_file d) (io_offset sector) (take (Z.to_nat n) buf)
    = Some (file_put (blk_file d) (io_offset sector) (take (Z.to_nat n) buf))) as Hs.
  { apply file_put_inside; [done|]. unfold zlen in *. rewrite length_take. lia. }
  pose proof (splice_len _ _ _ _ Hs).
  split; [by apply bytes_file_put; [|apply bytes_take]|]. split; [congruence|lia].
Qed.

Lemma read_desc_sat qi desc s :
  0 ≤ qi < 8 → desc_wf desc → xfer_ok s →
  res_sat (λ p, xfer_ok p.2) (read_desc hostIO qi desc s).
Proof.
  intros Hqi (Ha & Hl & _) (Hi & Hst & Hw & Hsec). unfold read_desc.
  assert (blk_wf ro f0 (vm_dev (x_vm s))) as Hd by apply Hi.
  assert (machine_inv (blk_wf ro f0) (set_dev (x_vm s) (tick (vm_dev (x_vm s))))) as Hi'
    by (apply set_dev_inv; [done|by apply tick_wf]).
  destruct (file_ReadAt _ _ _ _) as [buf|] eqn:E; [|done].
  apply file_ReadAt_Some in E as [Hb Hz]; [|apply Hd|apply Hl].
  eapply res_sat_bind.
  - eapply guest_write_sat; try done. destruct Hl. lia.
  - intros [vm|] _ Hvm; simpl in *; [|done]. unfold xfer_ok. simpl.
    splits; try done; [apply Hvm|apply fits_u32|apply fits_u64].
Qed.

Lemma mark_dev_sat (d : BlockDevice) a n :
  blk_wf ro f0 d → 0 ≤ a → 0 ≤ n < 2 ^ 64 →
  res_sat (λ d', blk_wf ro f0 d' ∧ blk_readOnly d' = blk_readOnly d)
    (match blk_dirty d with
     | Some t => t ← Mark (E:=Empty_set) t a n; Ok (set_blk_dirty d (Some t))
     | None => Ok d
     end).
Proof.
  intros (Hb & Hs & Hz & Hm & Hro & Hd & Hr) Ha Hn.
  destruct (blk_dirty d) as [t|] eqn:E; [|by simpl; unfold blk_wf; rewrite E].
  destruct (Mark_spec (E:=Empty_set) t a n Hd Ha Hn) as (t' & -> & Hwf & _). simpl.
  unfold blk_wf. simpl. done.
Qed.

(** One descriptor of a write: nothing outside the file is touched, and a
    negative offset stops the transfer. *)
Lemma write_desc_sat qi desc s :
  0 ≤ qi < 8 → desc_wf desc → xfer_ok s → blk_readOnly (vm_dev (x_vm s)) = false →
  offset_ok (x_sector s) (d_Len desc) →
  res_sat (λ p, xfer_ok p.2 ∧ blk_readOnly (vm_dev (x_vm p.2)) = false ∧
                (p.1 = true → 0 ≤ io_offset (x_sector s) ∧
                              x_sector p.2 = u64 (x_sector s + d_Len desc / blkSectorSize)))
    (write_desc hostIO qi desc s).
Proof.
  intros Hqi (Ha & Hl & _) (Hi & Hst & Hw & Hsec) Hro Hoff. unfold write_desc.
  assert (blk_wf ro f0 (vm_dev (x_vm s))) as Hd by apply Hi.
  eapply res_sat_bind; [eapply guest_read_sat; try done; eapply fits_mono; [done|lia]|].
  intros [buf|] _ Hbuf; simpl in *; [|done]. destruct Hbuf as [Hb Hz].
  destruct (file_WriteAt_keeps (vm_dev (x_vm s)) (x_sector s) buf) as (Hf & Hfl & Hneg);
    [apply Hd|done|apply Hd|by rewrite Hz|].
  destruct (file_WriteAt _ _ _ _) as [f ok]. simpl in Hf, Hfl, Hneg.
  set (d' := set_file _ f).
  assert (blk_wf ro f0 d') as Hd'.
  { destruct Hd as (_ & ? & _ & ? & _ & ? & Hr). unfold blk_wf. simpl. rewrite <- Hr, Hro. splits; done. }
  destruct ok; simpl.
  - eapply res_sat_bind.
    + change (blk_dirty (vm_dev (x_vm s))) with (blk_dirty d').
      apply mark_dev_sat; [done|apply u64_range|]. destruct Hl. rewrite Hz. lia.
    + intros d'' _ [Hd'' Hro'']. simpl. splits.
      * unfold xfer_ok. simpl. splits; try done; [by apply set_dev_inv|apply fits_u64].
      * by rewrite Hro''.
      * intros _. split; [|done]. destruct (Z.lt_ge_cases (io_offset (x_sector s)) 0); [|done].
        by specialize (Hneg ltac:(done)).
  - unfold xfer_ok. simpl. splits; try done. by apply set_dev_inv.
Qed.

(** The write loop stays inside the file. *)
Lemma write_loop_sat qi ds s :
  0 ≤ qi < 8 → Forall desc_wf ds → xfer_ok s → blk_readOnly (vm_dev (x_vm s)) = false →
  zlen f0 < 2 ^ 63 →
  x_sector s * 512 + chain_bytes ds ≤ zlen f0 ∨ 2 ^ 64 - 2 ^ 53 ≤ x_sector s < 2 ^ 64 ∧
    chain_bytes ds ≤ MaxDescriptorChainBytes →
  res_sat xfer_ok (for_break (write_desc hostIO qi) ds s).
Proof.
  intros Hqi Hds. revert s. induction Hds as [|d ds Hd Hds IH]; intros s Hx Hro Hf Hb; [done|].
  simpl in *. pose proof Hd as (_ & [Hl0 Hl] & _). pose proof (chain_bytes_nonneg _ Hds).
  assert (0 ≤ x_sector s) by (destruct Hx as (_ & _ & _ & [? _]); done).
  assert (offset_ok (x_sector s) (d_Len d) ∧ (0 ≤ io_offset (x_sector s) →
    x_sector s * 512 + d_Len d + chain_bytes ds ≤ zlen f0 ∧ x_sector s < 2 ^ 54)) as [Hoff Hin].
  { destruct Hb as [Hb|[Hw _]].
    - split; [right; rewrite io_offset_small by lia; lia|lia].
    - pose proof (io_offset_wrapped _ Hw). split; [by left|lia]. }
  eapply res_sat_bind; [by apply write_desc_sat|]. intros [go s'] _ (Hx' & Hro' & Hgo). simpl in *.
  destruct go; [|done]. destruct (Hgo eq_refl) as [Hpos Hsec]. destruct (Hin Hpos) as [Hle Hlt].
  apply IH; [done..|]. left. rewrite Hsec. unfold blkSectorSize.
  pose proof (Z.mul_div_le (d_Len d) 512). pose proof (Z.div_pos (d_Len d) 512).
  rewrite u64_small; lia.
Qed.

Lemma get_id_sat qi ds vm :
  0 ≤ qi < 8 → Forall desc_wf ds → machine_inv (blk_wf ro f0) vm →
  res_sat (λ p, machine_inv (blk_wf ro f0) p.1.1 ∧ is_byte p.1.2 ∧ fits 32 p.2) (get_id qi ds vm).
Proof.
  intros Hqi Hds Hi. destruct ds as [|d ds]; simpl; [done|].
  inversion Hds as [|? ? (Ha & Hl & _) _]; subst. set (n := if _ <? _ then _ else _).
  assert (0 ≤ n ≤ 10) as Hn.
  { unfold n. change (zlen blk_id) with 10. destruct Hl. case_match; b2p; lia. }
  apply sat_bind_must; [apply slice_ok; change (zlen blk_id) with 10; lia|]. intros id Hid.
  pose proof (slice_len _ _ _ _ Hid).
  assert (bytes id) as Hb.
  { eapply bytes_slice; [|done]. by apply (bool_decide_unpack _). }
  eapply res_sat_bind; [eapply guest_write_sat; try done; lia|].
  intros [vm'|] _ Hvm; simpl in *; [|done]. splits; try done; [apply Hvm|unfold fits; lia].
Qed.

Lemma discard_seg_sat seg s :
  fits 64 (seg_sector seg) ∧ fits 32 (seg_numSectors seg) →
  machine_inv (blk_wf ro f0) s.1 ∧ is_byte s.2 ∧ blk_readOnly (vm_dev s.1) = false →
  res_sat (λ p, machine_inv (blk_wf ro f0) p.2.1 ∧ is_byte p.2.2 ∧ blk_readOnly (vm_dev p.2.1) = false)
    (discard_seg hostIO seg s).
Proof.
  destruct s as [vm st]. intros [Hs Hn] (Hi & Hb & Hro). simpl in *. case_match; [done|].
  assert (blk_wf ro f0 (vm_dev vm)) as Hd by apply Hi.
  eapply res_sat_bind with (λ p, blk_wf ro f0 p.1 ∧ blk_readOnly p.1 = false).
  - unfold discardRange. case_match; [done|]. case_match; [|done].
    set (d' := set_file _ _).
    assert (blk_wf ro f0 d') as Hd'.
    { destruct Hd as (? & ? & ? & ? & _ & ? & Hr). unfold blk_wf. simpl.
      rewrite <- Hr, Hro, length_zero_range. splits; try done. by apply bytes_zero_range. }
    pose proof (mark_dev_sat d' (u64 (i64 (u64 (seg_sector seg * blkSectorSize))))
      (u64 (i64 (u64 (seg_numSectors seg * blkSectorSize)))) Hd' (proj1 (u64_range _)) (u64_range _)) as Hm.
    assert (blk_readOnly d' = false) as Hro' by done. rewrite Hro' in Hm.
    destruct (blk_dirty d') as [t|]; [|done]. destruct (Mark _ _ _); simpl in *; done.
  - intros [d ok] _ [Hd' Hro']. simpl in *. destruct ok; simpl; splits; try done; by apply set_dev_inv.
Qed.

Lemma serve_sat qi req vm :
  0 ≤ qi < 8 → req_wf req → req_bounds (blk_sectors (vm_dev vm)) req → machine_inv (blk_wf ro f0) vm →
  res_sat (λ p, machine_inv (blk_wf ro f0) p.1.1 ∧ is_byte p.1.2 ∧ fits 32 p.2) (serve hostIO qi req vm).
Proof.
  intros Hqi (Hds & Hsd & Hsec & Hlen & Hmax & Hseg) Hbd Hi. unfold serve.
  assert (xfer_ok (mkXfer vm BlkSOK 0 (req_sector req))) as Hx by done.
  assert (∀ s, xfer_ok s → res_sat (λ p, machine_inv (blk_wf ro f0) p.1.1 ∧ is_byte p.1.2 ∧ fits 32 p.2)
            (Ok (x_vm s, x_status s, x_written s) : proc _)) as Hfin
    by (intros s (? & ? & ? & _); simpl; done).
  assert (blk_wf ro f0 (vm_dev vm)) as Hd by apply Hi.
  destruct (Z.eqb_spec (req_type req) BlkTIn).
  { eapply res_sat_bind; [apply for_break_sat with (P := xfer_ok)|auto]; [|done].
    rewrite Forall_forall in Hds. intros x s Hxd Hs. apply read_desc_sat; auto. }
  destruct (Z.eqb_spec (req_type req) BlkTOut) as [Hout|].
  { destruct (blk_readOnly (vm_dev vm)) eqn:Hro; [done|]. destruct Hd as (_ & Hss & Hfl & Hf & _).
    eapply res_sat_bind; [apply write_loop_sat; try done|auto]. simpl.
    destruct (Hbd (or_intror Hout)) as (_ & Hmod & Htop). rewrite Hlen, Hss in *.
    unfold blkSectorSize in *. rewrite MaxDescriptorChainBytes_val in *. destruct Hsec as [Hs0 Hs1].
    pose proof (chain_bytes_nonneg _ Hds). pose proof (Z.div_mod (chain_bytes (req_dataDescs req)) 512).
    pose proof (Z.mul_div_le (zlen f0) 512). set (ns := chain_bytes (req_dataDescs req) / 512) in *.
    destruct (Z.lt_ge_cases (req_sector req + ns) (2 ^ 64)).
    - left. rewrite u64_small in Htop; lia.
    - right. split; [|lia]. lia. }
  destruct (Z.eqb_spec (req_type req) BlkTFlush).
  { simpl. split; [by apply set_dev_inv; [|apply tick_wf; apply Hi]|]. by case_match. }
  destruct (Z.eqb_spec (req_type req) BlkTGetID); [by apply get_id_sat|].
  destruct (Z.eqb_spec (req_type req) BlkTDiscard); [|done].
  destruct (blk_discard (vm_dev vm)) eqn:Hdc; [|done]. simpl.
  assert (blk_readOnly (vm_dev vm) = false) as Hro.
  { destruct Hd as (_ & _ & _ & _ & Hro & _). destruct (blk_readOnly _); [|done].
    destruct Hro; congruence. }
  eapply res_sat_bind; [apply for_break_sat with
    (P := λ s, machine_inv (blk_wf ro f0) s.1 ∧ is_byte s.2 ∧ blk_readOnly (vm_dev s.1) = false)|].
  - intros x s Hxd Hs. apply discard_seg_sat; [|done]. rewrite Forall_forall in Hseg. auto.
  - done.
  - intros [vm' st] _ (? & ? & _). simpl in *. done.
Qed.

Lemma blk_request_sat qi head vm :
  0 ≤ qi < 8 → fits 16 head → machine_inv (blk_wf ro f0) vm →
  res_sat (machine_inv (blk_wf ro f0)) (blk_request hostIO qi head vm).
Proof.
  intros Hqi Hh Hi. unfold blk_request.
  assert (fits 32 head) by (eapply fits_mono; [done|lia]).
  eapply res_sat_bind; [by eapply walk_chain_sat|].
  intros [chain|] _ Hc; [|by apply push_used_sat]. destruct Hc as (_ & _ & Hw & _ & Hm).
  destruct (the_queue_ok vm qi) as (q & -> & Hq); [apply Hi|done|]. simpl.
  eapply res_sat_bind.
  { apply attempt_sat, parseRequest_sat; try done. apply Hi. }
  intros [req|] _ Hr; [|by apply push_used_sat]. destruct Hr as [Hr Hrb].
  eapply res_sat_bind; [by apply serve_sat|]. intros [[vm' st] w] _ (Hi' & Hst & Hwr). simpl in *.
  eapply res_sat_bind.
  { eapply guest_write_sat; try done; [apply Hr|by apply Forall_singleton]. }
  intros [vm''|] _ Hvm; simpl in *; apply push_used_sat; try done; [apply Hvm|apply fits_u32].
Qed.

#[export] Instance BlockDevice_Laws : @DeviceLaws BlockDevice (BlockDevice_Device hostIO).
Proof.
  refine {| dev_wf := blk_wf ro f0 |}; try done.
  intros i vm Hii Hi. simpl. unfold blk_HandleQueue. destruct (negb _); [done|].
  apply res_sat_swallow; [|done]. apply IterAvail_sat; [done..|].
  intros h vm' Hh Hvm. by apply blk_request_sat.
Defined.
End laws.

(** ** What a transfer does

    With a host whose I/O never fails, a write request whose descriptors are
    whole sectors stores the guest's buffers, one after the other, at the
    requested sector, and a read request delivers consecutive parts of the
    image to the buffers in order. *)
Definition host_full (hostIO : nat → Z → Z) : Prop := ∀ k n, n ≤ hostIO k n.

Section transfer.
Context (hostIO : nat → Z → Z) (Hhost : host_full hostIO).

Lemma xfer_full k n : 0 ≤ n → xfer hostIO k n = n.
Proof. intros. unfold xfer. pose proof (Hhost k n). lia. Qed.

(** The tracker of the image after a write: earlier pages stay dirty and the
    pages of the written range are dirty. *)
Definition marked (t : DirtyTracker) (o n : Z) (d' : BlockDevice) : Prop :=
  ∃ t', blk_dirty d' = Some t' ∧ DirtyTracker.wf t' ∧ dt_memSize t' = dt_memSize t ∧
    dt_pageSize t' = dt_pageSize t ∧
    (∀ p, 0 ≤ p → is_dirty t p = true → is_dirty t' p = true) ∧
    ∀ x, o ≤ x < o + n → is_dirty t' (x / dt_pageSize t) = true.

Lemma marked_trans t o n m d1 d2 :
  DirtyTracker.wf t → 0 ≤ o → marked t o n d1 →
  (∀ t1, blk_dirty d1 = Some t1 → DirtyTracker.wf t1 → dt_memSize t1 = dt_memSize t →
     marked t1 (o + n) m d2) →
  marked t o (n + m) d2.
Proof.
  intros (Hps & _) Ho (t1 & Ht1 & Hwf1 & Hm1 & Hp1 & Hmono1 & Hcov1) H2.
  destruct (H2 t1 Ht1 Hwf1 Hm1) as (t2 & Ht2 & Hwf2 & Hm2 & Hp2 & Hmono2 & Hcov2).
  exists t2. splits; try done; try congruence; [by eauto|].
  intros x Hx. destruct (Z.lt_ge_cases x (o + n)).
  - apply Hmono2; [apply Z.div_pos; lia|]. apply Hcov1. lia.
  - rewrite <- Hp1. apply Hcov2. lia.
Qed.

Definition after_write (d : BlockDevice) (o : Z) (bs : list Z) (d' : BlockDevice) : Prop :=
  splice (blk_file d) o bs = Some (blk_file d') ∧
  ∀ t, blk_dirty d = Some t → DirtyTracker.wf t → dt_memSize t = zlen (blk_file d) →
    marked t o (zlen bs) d'.

Lemma write_desc_full qi desc s b t :
  guest_read qi (d_Addr desc) (d_Len desc) (x_vm s) = Ok (Some b) → zlen b = d_Len desc →
  blk_dirty (vm_dev (x_vm s)) = Some t → DirtyTracker.wf t →
  0 ≤ x_sector s → x_sector s * 512 + zlen b ≤ zlen (blk_file (vm_dev (x_vm s))) →
  zlen (blk_file (vm_dev (x_vm s))) < 2 ^ 63 →
  ∃ d', write_desc hostIO qi desc s
          = Ok (true, mkXfer (set_dev (x_vm s) d') (x_status s) (x_written s)
                        (u64 (x_sector s + d_Len desc / blkSectorSize))) ∧
        after_write (vm_dev (x_vm s)) (x_sector s * 512) b d'.
Proof.
  intros Hrd Hb Ht Hwf Hs0 Hin Hf. unfold write_desc. rewrite Hrd. cbn [mbind res_bind].
  pose proof (zlen_nonneg b). unfold file_WriteAt. rewrite io_offset_small by lia.
  lt_is false. unfold blkSectorSize at 1. rewrite (u64_small (_ * 512)) by lia.
  set (f' := file_put (blk_file (vm_dev (x_vm s))) (x_sector s * 512) b).
  assert (splice (blk_file (vm_dev (x_vm s))) (x_sector s * 512) b = Some f') as Hsp
    by (apply file_put_inside; lia).
  assert ((if zlen b =? 0 then (blk_file (vm_dev (x_vm s)), true)
           else (if xfer hostIO (blk_ops (vm_dev (x_vm s))) (zlen b) =? 0
                 then blk_file (vm_dev (x_vm s))
                 else file_put (blk_file (vm_dev (x_vm s))) (x_sector s * 512)
                        (take (Z.to_nat (xfer hostIO (blk_ops (vm_dev (x_vm s))) (zlen b))) b),
                 zlen b <=? xfer hostIO (blk_ops (vm_dev (x_vm s))) (zlen b))) = (f', true)) as ->.
  { rewrite xfer_full by lia. destruct (Z.eqb_spec (zlen b) 0) as [Hz|].
    - apply zlen_0 in Hz. rewrite Hz in *. apply splice_nil in Hsp. by rewrite Hsp.
    - rewrite take_ge by (unfold zlen; lia). le_is true. done. }
  cbn [negb]. cbn [blk_dirty set_file tick]. rewrite Ht.
  destruct (Mark_spec (E:=Empty_set) t (x_sector s * 512) (zlen b)) as (t' & Hm & Hwf' & Hms & Hps & Hq);
    [done|lia|lia|]. rewrite Hm. simpl. eexists. split; [done|]. split; [done|].
  intros t0 Ht0 _ Hsz. rewrite Ht in Ht0. injection Ht0 as <-. exists t'. splits; try done.
  - intros p Hp Hd. by rewrite Hq, Hd, orb_true_r.
  - intros x Hx. by eapply Mark_covers; [exact Hwf| | |exact Hm|..]; [lia..|done|lia].
Qed.

Lemma guest_read_set_dev qi a n (vm : VM BlockDevice) d :
  guest_read qi a n (set_dev vm d) = guest_read qi a n vm.
Proof. done. Qed.

Lemma write_loop_full qi ds bufs s t :
  Forall2 (λ d b, d_Len d mod 512 = 0 ∧ zlen b = d_Len d ∧
             guest_read qi (d_Addr d) (d_Len d) (x_vm s) = Ok (Some b)) ds bufs →
  blk_dirty (vm_dev (x_vm s)) = Some t → DirtyTracker.wf t →
  dt_memSize t = zlen (blk_file (vm_dev (x_vm s))) →
  0 ≤ x_sector s → x_sector s * 512 + zlen (concat bufs) ≤ zlen (blk_file (vm_dev (x_vm s))) →
  zlen (blk_file (vm_dev (x_vm s))) < 2 ^ 63 →
  ∃ d' sec, for_break (write_desc hostIO qi) ds s
              = Ok (mkXfer (set_dev (x_vm s) d') (x_status s) (x_written s) sec) ∧
    after_write (vm_dev (x_vm s)) (x_sector s * 512) (concat bufs) d'.
Proof.
  revert bufs s t. induction ds as [|d ds IH]; intros bufs s t Hall Ht Hwf Hsz Hs0 Hin Hf.
  { apply Forall2_nil_inv_l in Hall as ->. simpl in *. exists (vm_dev (x_vm s)), (x_sector s).
    split; [by destruct s as [[]]|]. split.
    - destruct (splice_ok (blk_file (vm_dev (x_vm s))) (x_sector s * 512) (@nil Z)) as [f Hsp]; [lia|done|].
      rewrite Hsp. f_equal. by eapply splice_nil.
    - intros t0 Ht0 _ _. exists t. rewrite Ht in Ht0. injection Ht0 as <-.
      splits; try done. unfold zlen. simpl. lia. }
  apply Forall2_cons_inv_l in Hall as (b & bufs' & (Hal & Hb & Hrd) & Hall & ->).
  cbn [concat] in *. rewrite zlen_app in Hin. pose proof (zlen_nonneg (concat bufs')).
  pose proof (zlen_nonneg b).
  destruct (write_desc_full qi d s b t) as (d1 & Hw & Haw); try done; [lia|].
  destruct Haw as [Hsp Hmk]. pose proof (splice_len _ _ _ _ Hsp) as Hl1.
  destruct (Hmk t Ht Hwf Hsz) as (t1 & Ht1 & Hwf1 & Hm1 & Hp1 & Hrest1).
  simpl. rewrite Hw. cbn [mbind res_bind].
  assert (d_Len d = 512 * (d_Len d / 512)) as Hdiv by (pose proof (Z.div_mod (d_Len d) 512); lia).
  assert (0 ≤ d_Len d / 512) by (apply Z.div_pos; lia).
  unfold blkSectorSize. rewrite u64_small by lia. set (s1 := mkXfer _ _ _ _).
  destruct (IH bufs' s1 t1) as (d2 & sec & Hrun & Haw2); try done; simpl; try lia.
  rewrite Hrun. exists d2, sec. split; [done|].
  destruct Haw2 as [Hsp2 Hmk2]. simpl in *. split.
  - eapply splice_app; [done|]. by replace (x_sector s * 512 + zlen b)
      with ((x_sector s + d_Len d / 512) * 512) by lia.
  - intros t0 Ht0 Hwf0 Hsz0. rewrite zlen_app. eapply marked_trans; [done|lia|by apply Hmk|].
    intros t1' Ht1' Hwf1' Hm1'. replace (x_sector s * 512 + zlen b)
      with ((x_sector s + d_Len d / 512) * 512) by lia. apply Hmk2; try done. congruence.
Qed.

Lemma read_loop_full qi ds chunks s vm' d0 :
  Forall2 (λ d c, d_Len d mod 512 = 0 ∧ zlen c = d_Len d) ds chunks →
  blk_file d0 = blk_file (vm_dev (x_vm s)) →
  deliver qi ds chunks (set_dev (x_vm s) d0) = Ok vm' →
  slice (blk_file d0) (x_sector s * 512) (x_sector s * 512 + zlen (concat chunks))
    = Some (concat chunks) →
  0 ≤ x_sector s → 0 ≤ x_written s → x_written s + zlen (concat chunks) < 2 ^ 32 →
  zlen (blk_file d0) < 2 ^ 63 →
  ∃ d' sec, for_break (read_desc hostIO qi) ds s
              = Ok (mkXfer (set_dev vm' d') (x_status s) (x_written s + zlen (concat chunks)) sec) ∧
    blk_file d' = blk_file d0 ∧ vm_dev vm' = d0.
Proof.
  revert chunks s. induction ds as [|d ds IH]; intros chunks s Hall Hd0 Hdel Hsl Hs0 Hw0 Hw Hf.
  { apply Forall2_nil_inv_l in Hall as ->. simpl in *. injection Hdel as <-.
    exists (vm_dev (x_vm s)), (x_sector s). split; [|by rewrite Hd0].
    rewrite zlen_nil, Z.add_0_r. by destruct s as [[]]. }
  apply Forall2_cons_inv_l in Hall as (c & cs & (Hal & Hc) & Hall & ->).
  cbn [concat] in *. rewrite zlen_app in *. pose proof (zlen_nonneg (concat cs)). pose proof (zlen_nonneg c).
  unfold deliver in Hdel. cbn [zip zip_with for_each fst snd] in Hdel.
  apply bind_Ok in Hdel as (vm1 & Hg & Hdel). apply bind_Ok in Hg as ([v|] & Hg & [= ->]).
  apply slice_Some in Hsl as Hb. destruct Hb as [[[? ?] ?] Hsl'].
  assert (slice (blk_file d0) (x_sector s * 512) (x_sector s * 512 + d_Len d) = Some c) as Hsl1.
  { apply slice_Some. split; [lia|]. apply (f_equal (take (length c))) in Hsl'.
    rewrite take_app_length in Hsl'. rewrite Hsl' at 1. rewrite take_take. f_equal. unfold zlen in *. lia. }
  assert (file_ReadAt hostIO (vm_dev (x_vm s)) (io_offset (x_sector s)) (d_Len d) = Some c) as Hr.
  { unfold file_ReadAt. rewrite io_offset_small by lia. lt_is false. rewrite xfer_full by lia.
    destruct (Z.eqb_spec (d_Len d) 0) as [Hz|]; [rewrite Hz in Hc; by apply zlen_0 in Hc as ->|].
    le_is true. by rewrite <- Hd0. }
  destruct (guest_write_set_dev _ _ _ _ _ (tick (vm_dev (x_vm s))) Hg) as [Hg' Hdv]. simpl in Hg', Hdv.
  change (set_dev (set_dev (x_vm s) d0) (tick (vm_dev (x_vm s))))
    with (set_dev (x_vm s) (tick (vm_dev (x_vm s)))) in Hg'.
  assert (read_desc hostIO qi d s
    = Ok (true, mkXfer (set_dev vm1 (tick (vm_dev (x_vm s)))) (x_status s) (u32 (x_written s + d_Len d))
                  (u64 (x_sector s + d_Len d / 512)))) as Hstep
    by (unfold read_desc; rewrite Hr, Hg'; done).
  simpl. rewrite Hstep. cbn [mbind res_bind].
  assert (d_Len d = 512 * (d_Len d / 512)) as Hdiv by (pose proof (Z.div_mod (d_Len d) 512); lia).
  assert (0 ≤ d_Len d / 512) by (apply Z.div_pos; lia).
  rewrite u64_small, u32_small by lia. set (s1 := mkXfer _ _ _ _).
  destruct (IH cs s1) as (d' & sec & Hrun & Hfile & Hdev); try done; simpl; try lia.
  - replace (set_dev (set_dev vm1 (tick (vm_dev (x_vm s)))) d0) with vm1
      by (rewrite <- Hdv; by destruct vm1). done.
  - apply slice_Some. split; [lia|].
    apply (f_equal (drop (length c))) in Hsl'. rewrite drop_app_length in Hsl'. etrans; [exact Hsl'|].
    rewrite skipn_firstn_comm, drop_drop. unfold zlen in *. f_equal; [lia|]. f_equal. lia.
  - rewrite Hrun. exists d', sec. splits; try done. simpl. f_equal. f_equal. lia.
Qed.
End transfer.

(** ** A concrete machine for the witnesses

    A disk of two sectors whose bytes are 1 and 2, and 4 KiB of RAM. *)
Definition ex_disk : list Z := replicate 512 1 ++ replicate 512 2.
Definition ex_transport : Transport :=
  set_queues (NewTransport 0xd0000000 5 true) (<[0%nat := mkQueue 4 true 0 0xc00 0xd00 0xe00 0]> (replicate 8 (NewQueue 256))).
Definition ex_machine (ro : bool) : VM BlockDevice :=
  mkVM (NewBlockDevice 4096 ex_disk ro true None) ex_transport
    (mkRam (replicate 512 7 ++ replicate 512 8 ++ replicate 3072 0) None).
Definition ex_host : nat → Z → Z := λ _ n, n.

Definition ex_write (lens : list Z) : blkRequest :=
  mkRequest BlkTOut 0 (imap (λ i l, mkDesc (512 * Z.of_nat i) l 0 0) lens)
    (foldr Z.add 0 lens) [] (mkDesc 0xf00 1 DescFlagWrite 0).
Definition ex_read (lens : list Z) : blkRequest :=
  mkRequest BlkTIn 0 (imap (λ i l, mkDesc (0x800 + 512 * Z.of_nat i) l DescFlagWrite 0) lens)
    (foldr Z.add 0 lens) [] (mkDesc 0xf00 1 DescFlagWrite 0).

Lemma ex_host_full : host_full ex_host.
Proof. intros k n. unfold ex_host. lia. Qed.

Lemma ex_machine_inv ro : machine_inv (blk_wf ro ex_disk) (ex_machine ro).
Proof.
  split; [|split; [|split]].
  - apply (bool_decide_unpack _). vm_compute. exact I.
  - by intros _.
  - apply (bool_decide_unpack _). vm_compute. exact I.
  - unfold blk_wf. splits; [apply (bool_decide_unpack _); vm_compute; exact I|done|done|done| | |done].
    + by destruct ro.
    + apply (bool_decide_unpack _). vm_compute. exact I.
Qed.

(** ** Properties *)



(** A write request stores the guest's data. When the host's I/O succeeds
    and every data descriptor is a whole number of sectors, the request
    completes with status OK, the image is the old image with the guest's
    buffers, concatenated in descriptor order, at byte 512 * sector, guest RAM
    and the transport are untouched, and every page of the image that was
    written is dirty. *)
Theorem blk_write_stores hostIO qi req vm bufs t :
  host_full hostIO → req_type req = BlkTOut → blk_readOnly (vm_dev vm) = false →
  Forall2 (λ d b, d_Len d mod 512 = 0 ∧ zlen b = d_Len d ∧
             guest_read qi (d_Addr d) (d_Len d) vm = Ok (Some b)) (req_dataDescs req) bufs →
  0 ≤ req_sector req → req_sector req * 512 + zlen (concat bufs) ≤ zlen (blk_file (vm_dev vm)) →
  zlen (blk_file (vm_dev vm)) < 2 ^ 63 →
  blk_dirty (vm_dev vm) = Some t → DirtyTracker.wf t → dt_memSize t = zlen (blk_file (vm_dev vm)) →
  ∃ d', serve hostIO qi req vm = Ok (set_dev vm d', BlkSOK, 0) ∧
    splice (blk_file (vm_dev vm)) (req_sector req * 512) (concat bufs) = Some (blk_file d') ∧
    ∃ t', blk_dirty d' = Some t' ∧
      ∀ x, req_sector req * 512 ≤ x < req_sector req * 512 + zlen (concat bufs) →
        is_dirty t' (x / dt_pageSize t) = true.
Proof.
  intros Hh Hty Hro Hall Hs Hin Hf Ht Hwf Hsz. unfold serve. rewrite Hty, Hro. cbn [Z.eqb BlkTOut BlkTIn].
  destruct (write_loop_full hostIO Hh qi (req_dataDescs req) bufs
              (mkXfer vm BlkSOK 0 (req_sector req)) t) as (d' & sec & Hrun & Hsp & Hmk); try done.
  simpl. rewrite Hrun. exists d'. split; [done|]. split; [done|].
  destruct (Hmk t Ht Hwf Hsz) as (t' & ? & _ & _ & _ & _ & ?). eauto.
Qed.

Lemma blk_write_stores_witness :
  ∃ d', serve ex_host 0 (ex_write [512; 512]) (ex_machine false)
          = Ok (set_dev (ex_machine false) d', BlkSOK, 0) ∧
        splice ex_disk 0 (replicate 512 7 ++ replicate 512 8) = Some (blk_file d').
Proof.
  destruct (blk_write_stores ex_host 0 (ex_write [512; 512]) (ex_machine false)
              [replicate 512 7; replicate 512 8] (NewDirtyTracker 4096 1024)) as (d' & Hd & Hf & _);
    [apply ex_host_full|reflexivity|reflexivity| |vm_compute; discriminate|vm_compute; discriminate|
     reflexivity|reflexivity|apply (bool_decide_unpack _); vm_compute; exact I|reflexivity|].
  - repeat constructor.
  - exists d'. split; [exact Hd|exact Hf].
Defined.

(** A read request delivers the image. When the host's I/O succeeds and
    every data descriptor is a whole number of sectors, the request completes
    with status OK and reports the whole length; what it does to the machine is
    to write consecutive chunks of the image, from byte 512 * sector on, to the
    guest buffers in descriptor order; the image is unchanged. *)
Theorem blk_read_delivers hostIO qi req vm chunks vm' :
  host_full hostIO → req_type req = BlkTIn →
  Forall2 (λ d c, d_Len d mod 512 = 0 ∧ zlen c = d_Len d) (req_dataDescs req) chunks →
  slice (blk_file (vm_dev vm)) (req_sector req * 512) (req_sector req * 512 + zlen (concat chunks))
    = Some (concat chunks) →
  deliver qi (req_dataDescs req) chunks vm = Ok vm' →
  0 ≤ req_sector req → zlen (concat chunks) < 2 ^ 32 → zlen (blk_file (vm_dev vm)) < 2 ^ 63 →
  ∃ d', serve hostIO qi req vm = Ok (set_dev vm' d', BlkSOK, zlen (concat chunks)) ∧
    blk_file d' = blk_file (vm_dev vm).
Proof.
  intros Hh Hty Hall Hsl Hdel Hs Hw Hf. unfold serve. rewrite Hty. cbn [Z.eqb BlkTIn].
  destruct (read_loop_full hostIO Hh qi (req_dataDescs req) chunks
              (mkXfer vm BlkSOK 0 (req_sector req)) vm' (vm_dev vm)) as (d' & sec & Hrun & Hfile & _);
    try done; [by destruct vm|].
  simpl. rewrite Hrun. exists d'. done.
Qed.

Lemma blk_read_delivers_witness :
  ∃ vm' d', serve ex_host 0 (ex_read [512; 512]) (ex_machine false)
              = Ok (set_dev vm' d', BlkSOK, 1024) ∧ blk_file d' = ex_disk.
Proof.
  destruct (deliver 0 (req_dataDescs (ex_read [512; 512])) [replicate 512 1; replicate 512 2]
              (ex_machine false)) as [vm'| | |] eqn:E; [|vm_compute in E; discriminate..].
  destruct (blk_read_delivers ex_host 0 (ex_read [512; 512]) (ex_machine false)
              [replicate 512 1; replicate 512 2] vm') as (d' & Hd & Hf);
    [apply ex_host_full|reflexivity| |vm_compute; reflexivity|exact E|vm_compute; discriminate|
     reflexivity|reflexivity|].
  - repeat constructor.
  - exists vm', d'. split; [exact Hd|exact Hf].
Defined.

(** Descriptors that are not whole sectors overwrite each other. Only the
    total length of a request is checked for alignment, while the position
    advances by the whole sectors of each descriptor: a write of one sector in
    two buffers of 256 bytes stores both at the same place, so the request
    reports success although the first buffer is lost and the second half of
    the sector keeps its old contents. *)
Theorem blk_subsector_write_lost hostIO qi vm a b sector n1 n2 t st :
  host_full hostIO → blk_readOnly (vm_dev vm) = false →
  blk_dirty (vm_dev vm) = Some t → DirtyTracker.wf t → dt_memSize t = zlen (blk_file (vm_dev vm)) →
  guest_read qi a 256 vm = Ok (Some n1) → guest_read qi b 256 vm = Ok (Some n2) →
  zlen n1 = 256 → zlen n2 = 256 →
  0 ≤ sector → (sector + 1) * 512 ≤ zlen (blk_file (vm_dev vm)) →
  zlen (blk_file (vm_dev vm)) < 2 ^ 63 →
  ∃ d', serve hostIO qi
          (mkRequest BlkTOut sector [mkDesc a 256 0 0; mkDesc b 256 0 0] 512 [] st) vm
          = Ok (set_dev vm d', BlkSOK, 0) ∧
        splice (blk_file (vm_dev vm)) (sector * 512) n2 = Some (blk_file d').
Proof.
  intros Hh Hro Ht Hwf Hsz H1 H2 Hl1 Hl2 Hs Hin Hf. unfold serve. simpl. rewrite Hro.
  destruct (write_desc_full hostIO Hh qi (mkDesc a 256 0 0) (mkXfer vm BlkSOK 0 sector) n1 t)
    as (d1 & Hw1 & Hsp1 & Hmk); simpl in *; try done; [lia|].
  destruct (Hmk t Ht Hwf Hsz) as (t1 & Ht1 & Hwf1 & _). pose proof (splice_len _ _ _ _ Hsp1).
  rewrite Hw1. cbn [mbind res_bind]. change (256 / blkSectorSize) with 0. rewrite Z.add_0_r, u64_small by lia.
  destruct (write_desc_full hostIO Hh qi (mkDesc b 256 0 0) (mkXfer (set_dev vm d1) BlkSOK 0 sector) n2 t1)
    as (d2 & Hw2 & Hsp2 & _); simpl in *; try done; [lia..|].
  rewrite Hw2. simpl. exists d2. split; [done|].
  eapply splice_over; [exact Hsp1| |exact Hsp2]. unfold zlen in *. lia.
Qed.

Lemma blk_subsector_write_lost_witness :
  ∃ d', serve ex_host 0
          (mkRequest BlkTOut 0 [mkDesc 0 256 0 0; mkDesc 512 256 0 0] 512 [] (mkDesc 0xf00 1 2 0))
          (ex_machine false) = Ok (set_dev (ex_machine false) d', BlkSOK, 0) ∧
        splice ex_disk 0 (replicate 256 8) = Some (blk_file d').
Proof.
  apply (blk_subsector_write_lost ex_host 0 (ex_machine false) 0 512 0 (replicate 256 7)
           (replicate 256 8) (NewDirtyTracker 4096 1024) (mkDesc 0xf00 1 2 0));
    [apply ex_host_full|reflexivity|reflexivity|apply (bool_decide_unpack _); vm_compute; exact I|
     reflexivity|vm_compute; reflexivity|vm_compute; reflexivity|reflexivity|reflexivity|lia|
     vm_compute; discriminate|reflexivity].
Defined.

(** ** Witnesses for the transport, on the block device *)

Definition ex_driver : list (Z * list Z) :=
  [(RegStatus, [1; 0; 0; 0]); (RegQueueSel, [0; 0; 0; 0]); (RegQueueNotify, [0; 0; 0; 0])].

Lemma writes_run hostIO ws vm vm' :
  Forall (λ w, bytes w.2) ws →
  for_each (λ w vm, WriteBytes (H := BlockDevice_Device hostIO) w.1 w.2 vm) ws vm = Ok vm' →
  rtc (guest_step (H := BlockDevice_Device hostIO)) vm vm'.
Proof.
  intros Hws. revert vm. induction Hws as [|w ws Hw _ IH]; intros vm Hrun; simpl in Hrun.
  - injection Hrun as <-. apply rtc_refl.
  - apply bind_Ok in Hrun as (v & Hv & Hrun). eapply rtc_l; [by eapply guest_mmio_write|by apply IH].
Qed.

Definition ex_run : proc (VM BlockDevice) :=
  for_each (λ w vm, WriteBytes (H := BlockDevice_Device ex_host) w.1 w.2 vm) ex_driver
    (ex_machine false).
Definition ex_after : VM BlockDevice := value_or (ex_machine false) ex_run.

Lemma ex_run_Ok : ex_run = Ok ex_after.
Proof.
  assert (match ex_run with Ok _ => true | _ => false end = true) as H by (vm_compute; reflexivity).
  exact (value_or_Ok (ex_machine false) ex_run H).
Qed.

Lemma ex_after_run : rtc (guest_step (H := BlockDevice_Device ex_host)) (ex_machine false) ex_after.
Proof.
  refine (writes_run ex_host ex_driver (ex_machine false) ex_after _ ex_run_Ok).
  by apply (bool_decide_unpack _).
Qed.


Lemma setup_queue_programs_witness :
  setup_queue (H := BlockDevice_Device ex_host) 1 128 0x123456789000 0x1000 0x2000 (ex_machine false)
    = Ok (put_queue (set_tr (ex_machine false) (set_queueSel ex_transport 1)) 1
            (mkQueue 128 true 0 0x123456789000 0x1000 0x2000 0)).
Proof.
  apply (setup_queue_programs (H := BlockDevice_Device ex_host) (ex_machine false) 1 128
           0x123456789000 0x1000 0x2000 (NewQueue 256));
    [reflexivity|apply (bool_decide_unpack _); vm_compute; exact I|lia|reflexivity|
     unfold MaxQueueSize; lia|by unfold fits|by unfold fits|by unfold fits].
Defined.

Lemma reset_is_fresh_witness :
  ∃ vm', Write (H := BlockDevice_Device ex_host) RegStatus 0 (ex_machine false) = Ok vm' ∧
         irq_level (vm_tr vm') = false.
Proof.
  destruct (reset_is_fresh (H := BlockDevice_Device ex_host) (ex_machine false) 0)
    as (vm' & Hw & _ & _ & _ & Hirq);
    [reflexivity|apply (bool_decide_unpack _); vm_compute; exact I|repeat constructor|].
  exists vm'. split; [exact Hw|apply Hirq; reflexivity].
Defined.

Lemma snapshot_restores_transport_witness :
  Transport_RestoreState (fresh_transport (set_shmSel ex_transport 3) 0)
    (Transport_State (set_shmSel ex_transport 3)) = ex_transport.
Proof.
  etrans; [apply (snapshot_restores_transport (set_shmSel ex_transport 3) 0);
    [apply (bool_decide_unpack _); vm_compute; exact I|repeat constructor]|reflexivity].
Defined.
