(* ===== verification/Balloon.v ===== *)
(** * virtio-balloon (src/internal/virtio/balloon.go)

    The balloon lets the host take pages back from the guest.  The driver posts
    page frame numbers on the inflate and deflate queues; the device keeps a
    bitmap of the pages it was given, drops their contents with
    [madvise(MADV_DONTNEED)], and can poll guest statistics, which an automatic
    policy turns into a new target.

    The memory [d.mem] is the guest RAM of the machine.  The operating system is
    two parameters: the clock, and the contents of a page after the advice; the
    device counts its system calls in [bl_calls], which selects their results.
    The channels of the poller are two flags.  A method that locks [d.mu] is one
    step; [poll_tick] is what the poll loop does when its timer fires. *)
From S2P Require Import Prelude DirtyTracker Virtqueue Transport.

(** ** Constants *)
Definition DeviceIDBalloon : Z := 5.
Definition balloonFeatureStatsVQ : Z := 2.
Definition balloonFeatureDeflateOnOOM : Z := 4.
Definition balloonQueueInflate : Z := 0.
Definition balloonQueueDeflate : Z := 1.
Definition balloonQueueStats : Z := 2.
Definition balloonPFNShift : Z := 12.
Definition balloonPageSize : Z := 4096.
Definition balloonStatsEntrySize : Z := 10.
Definition balloonAutoInterval : Z := 5000000000.
Definition balloonAutoStepMiB : Z := 64.

(** [balloonStatSwapIn = iota] is the twelfth constant of its [const] block, so
    [iota] is 11, and the other tags follow it. *)
Definition balloonStatSwapIn : Z := 11.
Definition balloonStatSwapOut : Z := 12.
Definition balloonStatMajorFaults : Z := 13.
Definition balloonStatMinorFaults : Z := 14.
Definition balloonStatFreeMemory : Z := 15.
Definition balloonStatTotalMemory : Z := 16.
Definition balloonStatAvailableMemory : Z := 17.
Definition balloonStatDiskCaches : Z := 18.
Definition balloonStatHugetlbAllocations : Z := 19.
Definition balloonStatHugetlbFailures : Z := 20.
Definition balloonStatOOMKill : Z := 21.
Definition balloonStatAllocStall : Z := 22.
Definition balloonStatAsyncScan : Z := 23.
Definition balloonStatDirectScan : Z := 24.
Definition balloonStatAsyncReclaim : Z := 25.
Definition balloonStatDirectReclaim : Z := 26.

(** ** Data *)
Record BalloonDeviceConfig := mkBalloonConfig {
  bc_AmountMiB : Z;
  bc_DeflateOnOOM : bool;
  bc_StatsPollingInterval : Z;
  bc_AutoConservative : bool;
  bc_SnapshotPages : list Z
}.

Record BalloonStats := mkBalloonStats {
  bs_TargetPages : Z;
  bs_ActualPages : Z;
  bs_TargetMiB : Z;
  bs_ActualMiB : Z;
  bs_SwapIn : Z;
  bs_SwapOut : Z;
  bs_MajorFaults : Z;
  bs_MinorFaults : Z;
  bs_FreeMemory : Z;
  bs_TotalMemory : Z;
  bs_AvailableMemory : Z;
  bs_DiskCaches : Z;
  bs_HugetlbAllocs : Z;
  bs_HugetlbFailures : Z;
  bs_OOMKill : Z;
  bs_AllocStall : Z;
  bs_AsyncScan : Z;
  bs_DirectScan : Z;
  bs_AsyncReclaim : Z;
  bs_DirectReclaim : Z;
  bs_UpdatedAt : Z                  (** 0 is the zero time *)
}.

Definition zero_stats : BalloonStats := mkBalloonStats 0 0 0 0 0 0 0 0 0 0 0 0 0 0 0 0 0 0 0 0 0.

Record BalloonDevice := mkBalloon {
  bl_targetPages : Z;
  bl_actualPages : Z;
  bl_deflateOnOOM : bool;
  bl_statsPollingInterval : Z;
  bl_statsEnabled : bool;
  bl_autoConservative : bool;
  bl_ballooned : list bool;
  bl_stats : BalloonStats;
  bl_lastAuto : BalloonStats;
  bl_stopped : bool;                (** [stopCh] is closed *)
  bl_wake : bool;                   (** [wakeCh] holds a token *)
  bl_calls : nat
}.

Inductive berr :=
  | TargetTooLarge (amount max : Z)
  | NegativeInterval
  | StatsDisabled
  | StatsQueueNotReady
  | StatsNotAvailable
  | StatsBufferTooSmall
  | StatsQueueError.               (** an error of the queue or of guest memory *)

(** ** Field updates *)
Definition set_pages (d : BalloonDevice) (actual : Z) (ballooned : list bool) : BalloonDevice :=
  mkBalloon (bl_targetPages d) actual (bl_deflateOnOOM d) (bl_statsPollingInterval d) (bl_statsEnabled d)
    (bl_autoConservative d) ballooned (bl_stats d) (bl_lastAuto d) (bl_stopped d) (bl_wake d) (bl_calls d).
Definition set_stats (d : BalloonDevice) (s : BalloonStats) (calls : nat) : BalloonDevice :=
  mkBalloon (bl_targetPages d) (bl_actualPages d) (bl_deflateOnOOM d) (bl_statsPollingInterval d)
    (bl_statsEnabled d) (bl_autoConservative d) (bl_ballooned d) s (bl_lastAuto d) (bl_stopped d)
    (bl_wake d) calls.
Definition set_target (d : BalloonDevice) (target : Z) (s : BalloonStats) : BalloonDevice :=
  mkBalloon target (bl_actualPages d) (bl_deflateOnOOM d) (bl_statsPollingInterval d)
    (bl_statsEnabled d) (bl_autoConservative d) (bl_ballooned d) s (bl_lastAuto d) (bl_stopped d)
    (bl_wake d) (bl_calls d).
Definition set_lastAuto (d : BalloonDevice) (s : BalloonStats) : BalloonDevice :=
  mkBalloon (bl_targetPages d) (bl_actualPages d) (bl_deflateOnOOM d) (bl_statsPollingInterval d)
    (bl_statsEnabled d) (bl_autoConservative d) (bl_ballooned d) (bl_stats d) s (bl_stopped d)
    (bl_wake d) (bl_calls d).
Definition set_poller (d : BalloonDevice) (interval : Z) (enabled stopped wake : bool) : BalloonDevice :=
  mkBalloon (bl_targetPages d) (bl_actualPages d) (bl_deflateOnOOM d) interval enabled
    (bl_autoConservative d) (bl_ballooned d) (bl_stats d) (bl_lastAuto d) stopped wake (bl_calls d).

(** The four host fields of the statistics, and [UpdatedAt]. *)
Definition with_host (s : BalloonStats) (tp ap tm am updated : Z) : BalloonStats :=
  mkBalloonStats tp ap tm am (bs_SwapIn s) (bs_SwapOut s) (bs_MajorFaults s) (bs_MinorFaults s)
    (bs_FreeMemory s) (bs_TotalMemory s) (bs_AvailableMemory s) (bs_DiskCaches s) (bs_HugetlbAllocs s)
    (bs_HugetlbFailures s) (bs_OOMKill s) (bs_AllocStall s) (bs_AsyncScan s) (bs_DirectScan s)
    (bs_AsyncReclaim s) (bs_DirectReclaim s) updated.

(** ** Pure helpers *)
Definition mibToBalloonPages (miB : Z) : Z := u32 (u64 (miB * 256)).
Definition balloonPagesToMiB (pages : Z) : Z := pages / 256.
Definition minUint64 (a b : Z) : Z := if a <? b then a else b.

(** [for off := 0; off+4 <= len(buf); off += 4 { Uint32(buf[off:]) }] *)
Fixpoint pfn_words (buf : list Z) : list Z :=
  match buf with
  | b0 :: b1 :: b2 :: b3 :: rest => le_decode [b0; b1; b2; b3] :: pfn_words rest
  | _ => []
  end.

(** [for off := 0; off+10 <= len(raw); off += 10], the pairs of tag and value. *)
Fixpoint stat_entries (raw : list Z) : list (Z * Z) :=
  match raw with
  | t0 :: t1 :: v0 :: v1 :: v2 :: v3 :: v4 :: v5 :: v6 :: v7 :: rest =>
      (le_decode [t0; t1], le_decode [v0; v1; v2; v3; v4; v5; v6; v7]) :: stat_entries rest
  | _ => []
  end.

(** [switch tag { case balloonStatSwapIn: stats.SwapIn = val ... }] *)
Definition set_stat (tag val : Z) (s : BalloonStats) : BalloonStats :=
  let on k old := if tag =? k then val else old in
  {| bs_TargetPages := bs_TargetPages s; bs_ActualPages := bs_ActualPages s;
     bs_TargetMiB := bs_TargetMiB s; bs_ActualMiB := bs_ActualMiB s;
     bs_SwapIn := on balloonStatSwapIn (bs_SwapIn s);
     bs_SwapOut := on balloonStatSwapOut (bs_SwapOut s);
     bs_MajorFaults := on balloonStatMajorFaults (bs_MajorFaults s);
     bs_MinorFaults := on balloonStatMinorFaults (bs_MinorFaults s);
     bs_FreeMemory := on balloonStatFreeMemory (bs_FreeMemory s);
     bs_TotalMemory := on balloonStatTotalMemory (bs_TotalMemory s);
     bs_AvailableMemory := on balloonStatAvailableMemory (bs_AvailableMemory s);
     bs_DiskCaches := on balloonStatDiskCaches (bs_DiskCaches s);
     bs_HugetlbAllocs := on balloonStatHugetlbAllocations (bs_HugetlbAllocs s);
     bs_HugetlbFailures := on balloonStatHugetlbFailures (bs_HugetlbFailures s);
     bs_OOMKill := on balloonStatOOMKill (bs_OOMKill s);
     bs_AllocStall := on balloonStatAllocStall (bs_AllocStall s);
     bs_AsyncScan := on balloonStatAsyncScan (bs_AsyncScan s);
     bs_DirectScan := on balloonStatDirectScan (bs_DirectScan s);
     bs_AsyncReclaim := on balloonStatAsyncReclaim (bs_AsyncReclaim s);
     bs_DirectReclaim := on balloonStatDirectReclaim (bs_DirectReclaim s);
     bs_UpdatedAt := bs_UpdatedAt s |}.

(** [for i, ballooned := range d.ballooned { if ballooned { ... } }] from [i]. *)
Fixpoint pages_from (i : Z) (bs : list bool) : list Z :=
  match bs with
  | [] => []
  | b :: bs => (if (b : bool) then [u32 i] else []) ++ pages_from (i + 1) bs
  end.
Definition snapshotPagesLocked (d : BalloonDevice) : list Z := pages_from 0 (bl_ballooned d).

Definition GetConfig (d : BalloonDevice) : BalloonDeviceConfig :=
  {| bc_AmountMiB := balloonPagesToMiB (bl_targetPages d); bc_DeflateOnOOM := bl_deflateOnOOM d;
     bc_StatsPollingInterval := bl_statsPollingInterval d; bc_AutoConservative := bl_autoConservative d;
     bc_SnapshotPages := snapshotPagesLocked d |}.

Definition Stats (d : BalloonDevice) : BalloonStats :=
  with_host (bl_stats d) (bl_targetPages d) (bl_actualPages d) (balloonPagesToMiB (bl_targetPages d))
    (balloonPagesToMiB (bl_actualPages d)) (bs_UpdatedAt (bl_stats d)).

Definition balloon_DeviceFeatures (d : BalloonDevice) : Z :=
  (if bl_statsEnabled d then balloonFeatureStatsVQ else 0)
  .| (if bl_deflateOnOOM d then balloonFeatureDeflateOnOOM else 0).

(** The eight zero bytes at the end are the rest of [make([]byte, 16)]. *)
Definition balloon_ConfigBytes (d : BalloonDevice) : list Z :=
  le_encode 4 (bl_targetPages d) ++ le_encode 4 (bl_actualPages d) ++ replicate 8 0.

Definition wakePoller (d : BalloonDevice) : BalloonDevice :=
  set_poller d (bl_statsPollingInterval d) (bl_statsEnabled d) (bl_stopped d) true.

Definition balloon_Close (d : BalloonDevice) : BalloonDevice :=
  set_poller d (bl_statsPollingInterval d) (bl_statsEnabled d) true (bl_wake d).

Definition SetStatsPollingInterval (interval : Z) (d : BalloonDevice) : res berr BalloonDevice :=
  if interval <? 0 then Err NegativeInterval
  else Ok (wakePoller (set_poller d interval (0 <? interval) (bl_stopped d) (bl_wake d))).

Definition nextPollInterval (d : BalloonDevice) : Z :=
  if 0 <? bl_statsPollingInterval d then bl_statsPollingInterval d
  else if bl_autoConservative d then balloonAutoInterval else 0.

Section balloon.
Context (clock : nat → Z) (dontneed : nat → list Z → list Z).

(** ** Pages *)
Definition refreshStatsLocked (d : BalloonDevice) : BalloonDevice :=
  let s := bl_stats d in
  let stale := bs_UpdatedAt s =? 0 in
  set_stats d
    (with_host s (bl_targetPages d) (bl_actualPages d) (balloonPagesToMiB (bl_targetPages d))
       (balloonPagesToMiB (bl_actualPages d)) (if stale then clock (bl_calls d) else bs_UpdatedAt s))
    (if stale then S (bl_calls d) else bl_calls d).

Definition count_call (d : BalloonDevice) : BalloonDevice := set_stats d (bl_stats d) (S (bl_calls d)).

(** The critical section of [inflatePFN]; [None] is the early return. *)
Definition inflate_locked (pfn : Z) (d : BalloonDevice) : proc (option BalloonDevice) :=
  if zlen (bl_ballooned d) <=? pfn then Ok None
  else
    b ← must (at_ (bl_ballooned d) pfn);
    if (b : bool) then Ok None
    else
      bs ← must (set_at (bl_ballooned d) pfn true);
      Ok (Some (refreshStatsLocked (set_pages d (u32 (bl_actualPages d + 1)) bs))).

(** The advice on [d.mem[start:end]]. *)
Definition reclaim (pfn : Z) (vm : VM BalloonDevice) : proc (VM BalloonDevice) :=
  let mem := ram_mem (vm_ram vm) in
  let start := u64 (pfn .<< balloonPFNShift) in
  let stop := u64 (start + balloonPageSize) in
  let stop := if zlen mem <? stop then zlen mem else stop in
  if stop <=? start then Ok vm
  else
    page ← must (slice mem start stop);
    mem' ← must (splice mem start (dontneed (bl_calls (vm_dev vm)) page));
    Ok (set_ram (set_dev vm (count_call (vm_dev vm))) (set_mem (vm_ram vm) mem')).

Definition inflatePFN (pfn : Z) (vm : VM BalloonDevice) : proc (VM BalloonDevice) :=
  o ← inflate_locked pfn (vm_dev vm);
  match o with
  | None => Ok vm
  | Some d => reclaim pfn (set_dev vm d)
  end.

Definition deflate_locked (pfn : Z) (d : BalloonDevice) : proc BalloonDevice :=
  if zlen (bl_ballooned d) <=? pfn then Ok d
  else
    b ← must (at_ (bl_ballooned d) pfn);
    if negb b then Ok d
    else
      bs ← must (set_at (bl_ballooned d) pfn false);
      let actual := if 0 <? bl_actualPages d then bl_actualPages d - 1 else bl_actualPages d in
      Ok (refreshStatsLocked (set_pages d actual bs)).

Definition deflatePFN (pfn : Z) (vm : VM BalloonDevice) : proc (VM BalloonDevice) :=
  d ← deflate_locked pfn (vm_dev vm); Ok (set_dev vm d).

Definition restoreSnapshotPages (pfns : list Z) (vm : VM BalloonDevice) : proc (VM BalloonDevice) :=
  for_each inflatePFN pfns vm.

(** ** Construction *)
Definition NewBalloonDevice (basePA irq : Z) (cfg : BalloonDeviceConfig) (irqFn : bool) (r : Ram)
  : proc (VM BalloonDevice) :=
  let interval := if bc_AutoConservative cfg && (bc_StatsPollingInterval cfg <=? 0)
                  then balloonAutoInterval else bc_StatsPollingInterval cfg in
  let d := {| bl_targetPages := mibToBalloonPages (bc_AmountMiB cfg); bl_actualPages := 0;
              bl_deflateOnOOM := bc_DeflateOnOOM cfg; bl_statsPollingInterval := interval;
              bl_statsEnabled := 0 <? interval; bl_autoConservative := bc_AutoConservative cfg;
              bl_ballooned := replicate (Z.to_nat (zlen (ram_mem r) / balloonPageSize)) false;
              bl_stats := zero_stats; bl_lastAuto := zero_stats; bl_stopped := false;
              bl_wake := false; bl_calls := 0 |} in
  let vm := mkVM d (NewTransport basePA irq irqFn) r in
  if 0 <? zlen (bc_SnapshotPages cfg) then restoreSnapshotPages (bc_SnapshotPages cfg) vm else Ok vm.

(** ** Queues *)

(** The loop over the descriptors of a chain. *)
Definition pfn_desc (inflate : bool) (qi : Z) (d : Desc) (vm : VM BalloonDevice)
  : proc (bool * VM BalloonDevice) :=
  if has (d_Flags d) DescFlagWrite then Ok (true, vm)
  else
    o ← guest_read qi (d_Addr d) (d_Len d) vm;
    match o with
    | None => Ok (false, vm)
    | Some buf => vm ← for_each (if inflate then inflatePFN else deflatePFN) (pfn_words buf) vm; Ok (true, vm)
    end.

(** The callback of [IterAvail]. *)
Definition pfn_request (inflate : bool) (qi head : Z) (vm : VM BalloonDevice) : proc (VM BalloonDevice) :=
  o ← walk_chain qi head vm;
  match o with
  | None => push_used qi head 0 vm
  | Some chain => vm ← for_break (pfn_desc inflate qi) chain vm; push_used qi head 0 vm
  end.

(** [processed] says that the callback ran; a failed [readAvail] runs none. *)
Definition handlePFNQueue (qi : Z) (inflate : bool) (vm : VM BalloonDevice) : proc (bool * VM BalloonDevice) :=
  q ← must (the_queue vm qi);
  o ← attempt (IterAvail_collect q (vm_ram vm));
  match o with
  | None => Ok (false, vm)
  | Some (heads, q') =>
      vm ← for_each (pfn_request inflate qi) heads (put_queue vm qi q');
      if bool_decide (heads = []) then Ok (false, vm)
      else Ok (true, set_dev vm (refreshStatsLocked (vm_dev vm)))
  end.

Definition balloon_HandleQueueNotify (i : Z) (vm : VM BalloonDevice) : proc (bool * VM BalloonDevice) :=
  if i =? balloonQueueInflate then handlePFNQueue i true vm
  else if i =? balloonQueueDeflate then handlePFNQueue i false vm
  else Ok (false, vm).

Definition balloon_HandleQueue (i : Z) (vm : VM BalloonDevice) : proc (VM BalloonDevice) :=
  if i =? balloonQueueInflate then '(_, vm) ← handlePFNQueue i true vm; Ok vm
  else if i =? balloonQueueDeflate then '(_, vm) ← handlePFNQueue i false vm; Ok vm
  else Ok vm.

(** [copy(raw[offset:], data)] for the four bytes [raw]. *)
Definition balloon_WriteConfig (offset : Z) (data : list Z) (vm : VM BalloonDevice) : proc (VM BalloonDevice) :=
  if (4 <? offset) || (zlen data =? 0) then Ok vm
  else
    let d := vm_dev vm in
    let raw := le_encode 4 (bl_actualPages d) in
    let src := take (Z.to_nat (4 - offset)) data in
    let raw := take (Z.to_nat offset) raw ++ src ++ drop (Z.to_nat offset + length src) raw in
    Ok (set_dev vm (refreshStatsLocked (set_pages d (le_decode raw) (bl_ballooned d)))).

#[export] Instance BalloonDevice_Device : Device BalloonDevice := {
  DeviceID _ := DeviceIDBalloon;
  DeviceFeatures := balloon_DeviceFeatures;
  ConfigBytes := balloon_ConfigBytes;
  HandleQueue := balloon_HandleQueue;
  WriteConfig := Some balloon_WriteConfig;
  HandleQueueNotify := Some balloon_HandleQueueNotify;
  SharedMemoryRegion := None;
  OnTransportStateChange := None;
  OnTransportReset := None;
  ActivateLink := None
}.

(** ** Statistics *)

(** The bytes of the readable descriptors; [None] when guest memory cannot be
    read. *)
Fixpoint gather_stats (qi : Z) (chain : list Desc) (vm : VM BalloonDevice) (raw : list Z)
  : proc (option (list Z)) :=
  match chain with
  | [] => Ok (Some raw)
  | d :: chain =>
      if has (d_Flags d) DescFlagWrite then gather_stats qi chain vm raw
      else
        o ← guest_read qi (d_Addr d) (d_Len d) vm;
        match o with
        | None => Ok None
        | Some buf => gather_stats qi chain vm (raw ++ buf)
        end
  end.

Definition set_UpdatedAt (s : BalloonStats) (t : Z) : BalloonStats :=
  with_host s (bs_TargetPages s) (bs_ActualPages s) (bs_TargetMiB s) (bs_ActualMiB s) t.

(** The parsing of [raw] and the store of the result. *)
Definition record_stats (raw : list Z) (d : BalloonDevice) : BalloonDevice * BalloonStats :=
  let stats := foldl (λ s e, set_stat e.1 e.2 s) (Stats d) (stat_entries raw) in
  let stats := set_UpdatedAt stats (clock (bl_calls d)) in
  (set_stats d stats (S (bl_calls d)), stats).

Definition readStatsBuffer (qi : Z) (chain : list Desc) (vm : VM BalloonDevice)
  : proc (VM BalloonDevice * (BalloonStats + berr)) :=
  o ← gather_stats qi chain vm [];
  match o with
  | None => Ok (vm, inr StatsQueueError)
  | Some raw =>
      if zlen raw <? balloonStatsEntrySize then Ok (vm, inr StatsBufferTooSmall)
      else let '(d, stats) := record_stats raw (vm_dev vm) in Ok (set_dev vm d, inl stats)
  end.

(** The callback of [ConsumeAvail] in [PollStats]. *)
Definition poll_head (head : Z) (vm : VM BalloonDevice) : proc (VM BalloonDevice * (BalloonStats + berr)) :=
  o ← walk_chain balloonQueueStats head vm;
  '(vm, r) ← match o with
             | None => Ok (vm, inr StatsQueueError)
             | Some chain => readStatsBuffer balloonQueueStats chain vm
             end;
  vm ← push_used balloonQueueStats head 0 vm;
  Ok (vm, r).

(** The last statistics, when there are any. *)
Definition last_stats (vm : VM BalloonDevice) (e : berr) : VM BalloonDevice * (BalloonStats + berr) :=
  let stats := Stats (vm_dev vm) in
  (vm, if bs_UpdatedAt stats =? 0 then inr e else inl stats).

Definition PollStats (vm : VM BalloonDevice) : proc (VM BalloonDevice * (BalloonStats + berr)) :=
  if negb (bl_statsEnabled (vm_dev vm)) then Ok (vm, inr StatsDisabled)
  else
    match the_queue vm balloonQueueStats with
    | None => Ok (last_stats vm StatsQueueNotReady)
    | Some q =>
        if negb (q_Ready q) then Ok (last_stats vm StatsQueueNotReady)
        else
          o ← attempt (ConsumeAvail balloonQueueStats poll_head vm);
          match o with
          | None => Ok (vm, inr StatsQueueError)
          | Some (vm, None) => Ok (last_stats vm StatsNotAvailable)
          | Some (vm, Some (inr e)) => Ok (vm, inr e)
          | Some (vm, Some (inl stats)) =>
              Ok (set_tr vm (SignalIRQ (SetInterruptStat (vm_tr vm) 1) true), inl stats)
          end
    end.

(** ** The target *)
Definition signalConfigChange (vm : VM BalloonDevice) : VM BalloonDevice :=
  set_tr vm (SignalIRQ (SetInterruptStat (vm_tr vm) 2) true).

Definition SetTargetMiB (amountMiB : Z) (vm : VM BalloonDevice) : res berr (VM BalloonDevice) :=
  let maxMiB := zlen (ram_mem (vm_ram vm)) .>> 20 in
  if maxMiB <? amountMiB then Err (TargetTooLarge amountMiB maxMiB)
  else
    let d := vm_dev vm in
    let target := mibToBalloonPages amountMiB in
    let s := bl_stats d in
    let s := with_host s target (bs_ActualPages s) amountMiB (bs_ActualMiB s) (bs_UpdatedAt s) in
    Ok (signalConfigChange (set_dev vm (set_target d target s))).

(** The decision of [applyConservativePolicy]: the next target in MiB, [None]
    for the returns that leave it alone. *)
Definition policy_target (stats last : BalloonStats) (currentTargetMiB baseMemMiB : Z) : option Z :=
  if (bs_TotalMemory stats =? 0) && (bs_AvailableMemory stats =? 0) then None
  else
    let reserveMiB := if baseMemMiB <=? 512 then 64 else 128 in
    let highWaterMiB := reserveMiB * 2 in
    let availableMiB := bs_AvailableMemory stats .>> 20 in
    let pressure := (bs_OOMKill last <? bs_OOMKill stats) || (bs_AllocStall last <? bs_AllocStall stats)
                    || (availableMiB <? reserveMiB) in
    next ←
      if pressure then
        if currentTargetMiB =? 0 then None
        else if balloonAutoStepMiB <? currentTargetMiB then Some (currentTargetMiB - balloonAutoStepMiB)
        else Some 0
      else if highWaterMiB + balloonAutoStepMiB <? availableMiB then
        Some (u64 (currentTargetMiB + minUint64 balloonAutoStepMiB (availableMiB - highWaterMiB)))
      else None;
    let maxTargetMiB := if reserveMiB <? baseMemMiB then baseMemMiB - reserveMiB else 0 in
    let next := if maxTargetMiB <? next then maxTargetMiB else next in
    if next =? currentTargetMiB then None else Some next.

Definition applyConservativePolicy (stats : BalloonStats) (vm : VM BalloonDevice) : proc (VM BalloonDevice) :=
  let d := vm_dev vm in
  if negb (bl_autoConservative d) then Ok vm
  else
    let last := bl_lastAuto d in
    let vm := set_dev vm (set_lastAuto d stats) in
    match policy_target stats last (balloonPagesToMiB (bl_targetPages d)) (zlen (ram_mem (vm_ram vm)) .>> 20) with
    | None => Ok vm
    | Some next => swallow vm (SetTargetMiB next vm)
    end.

(** What [pollLoop] does when the timer fires. *)
Definition poll_tick (vm : VM BalloonDevice) : proc (VM BalloonDevice) :=
  '(vm, r) ← PollStats vm;
  match r with
  | inl stats => applyConservativePolicy stats vm
  | inr _ => Ok vm
  end.

(** ** Safety

    The advice replaces the contents of a page, nothing else. *)
Definition dontneed_ok : Prop :=
  ∀ k page, bytes page → bytes (dontneed k page) ∧ length (dontneed k page) = length page.

Definition balloon_wf (d : BalloonDevice) : Prop := fits 32 (bl_targetPages d) ∧ fits 32 (bl_actualPages d).

(** The page counter is the number of pages in the balloon. *)
Definition count_true (bs : list bool) : Z := zlen (filter (λ b, b = true) bs).
Definition accounted (d : BalloonDevice) : Prop :=
  bl_actualPages d = count_true (bl_ballooned d) ∧ zlen (bl_ballooned d) < 2 ^ 32.

Definition balloon_inv (d : BalloonDevice) : Prop := balloon_wf d ∧ accounted d.

Lemma count_true_cons b bs : count_true (b :: bs) = boolZ b + count_true bs.
Proof.
  unfold count_true. destruct b.
  - rewrite filter_cons_True, zlen_cons by done. cbn. lia.
  - by rewrite filter_cons_False.
Qed.

Lemma count_true_bounds bs : 0 ≤ count_true bs ≤ zlen bs.
Proof. induction bs as [|b bs IH]; [done|]. rewrite count_true_cons, zlen_cons. destruct b; cbn; lia. Qed.

Lemma count_true_insert bs i b c :
  bs !! i = Some b → count_true (<[i := c]> bs) = count_true bs - boolZ b + boolZ c.
Proof.
  revert i. induction bs as [|x bs IH]; [done|]. intros [|i] Hi.
  - injection Hi as ->. change (<[0%nat := c]> (b :: bs)) with (c :: bs). rewrite !count_true_cons. lia.
  - change (<[S i := c]> (x :: bs)) with (x :: <[i := c]> bs). rewrite !count_true_cons, (IH i) by done. lia.
Qed.

(** The two critical sections on a page, for any counter. *)
Lemma inflate_locked_spec pfn d :
  0 ≤ pfn →
  inflate_locked pfn d
  = Ok (if bool_decide (bl_ballooned d !! Z.to_nat pfn = Some false)
        then Some (refreshStatsLocked (set_pages d (u32 (bl_actualPages d + 1))
                     (<[Z.to_nat pfn := true]> (bl_ballooned d))))
        else None).
Proof.
  intros Hp. unfold inflate_locked. destruct (Z.leb_spec (zlen (bl_ballooned d)) pfn) as [Hz|Hz].
  - rewrite bool_decide_false; [done|]. rewrite lookup_ge_None_2 by (unfold zlen in Hz; lia). done.
  - unfold at_, set_at. le_is true. destruct (lookup_lt_is_Some_2 (bl_ballooned d) (Z.to_nat pfn)) as [b Hb].
    { unfold zlen in Hz. lia. }
    rewrite Hb. cbn. destruct b; [by rewrite bool_decide_false|].
    rewrite bool_decide_true by done. by lt_is true.
Qed.

Lemma deflate_locked_spec pfn d :
  0 ≤ pfn →
  deflate_locked pfn d
  = Ok (if bool_decide (bl_ballooned d !! Z.to_nat pfn = Some true)
        then refreshStatsLocked (set_pages d (if 0 <? bl_actualPages d then bl_actualPages d - 1 else bl_actualPages d)
               (<[Z.to_nat pfn := false]> (bl_ballooned d)))
        else d).
Proof.
  intros Hp. unfold deflate_locked. destruct (Z.leb_spec (zlen (bl_ballooned d)) pfn) as [Hz|Hz].
  - rewrite bool_decide_false; [done|]. rewrite lookup_ge_None_2 by (unfold zlen in Hz; lia). done.
  - unfold at_, set_at. le_is true. destruct (lookup_lt_is_Some_2 (bl_ballooned d) (Z.to_nat pfn)) as [b Hb].
    { unfold zlen in Hz. lia. }
    rewrite Hb. cbn. destruct b; [|by rewrite bool_decide_false].
    rewrite bool_decide_true by done. by lt_is true.
Qed.

Lemma inflate_inv pfn d :
  bl_ballooned d !! Z.to_nat pfn = Some false → balloon_inv d →
  balloon_inv (refreshStatsLocked (set_pages d (u32 (bl_actualPages d + 1)) (<[Z.to_nat pfn := true]> (bl_ballooned d)))).
Proof.
  intros Hb ((Ht & Ha) & Hc & Hl). unfold balloon_inv, balloon_wf, accounted. cbn.
  pose proof (count_true_bounds (<[Z.to_nat pfn := true]> (bl_ballooned d))) as Hbd.
  pose proof (count_true_insert _ _ _ true Hb) as Hci. rewrite Hci in Hbd |- *.
  unfold zlen in *. rewrite length_insert in Hbd |- *. cbn in Hbd |- *.
  rewrite Hc. rewrite (u32_small (count_true _ + 1)) by lia.
  splits; try done; unfold fits; lia.
Qed.

Lemma deflate_inv pfn d :
  bl_ballooned d !! Z.to_nat pfn = Some true → balloon_inv d →
  balloon_inv (refreshStatsLocked (set_pages d (if 0 <? bl_actualPages d then bl_actualPages d - 1 else bl_actualPages d)
    (<[Z.to_nat pfn := false]> (bl_ballooned d)))).
Proof.
  intros Hb ((Ht & Ha) & Hc & Hl). unfold balloon_inv, balloon_wf, accounted. cbn.
  pose proof (count_true_bounds (<[Z.to_nat pfn := false]> (bl_ballooned d))) as Hbd.
  pose proof (count_true_insert _ _ _ false Hb) as Hci. rewrite Hci in Hbd |- *.
  unfold zlen in *. rewrite length_insert in Hbd |- *. cbn in Hbd |- *.
  lt_is true. splits; try done; unfold fits in *; lia.
Qed.

(** What the counters and the bitmap say; the rest of the device is statistics
    and the poller. *)
Definition core (d : BalloonDevice) : Z * Z * list bool :=
  (bl_targetPages d, bl_actualPages d, bl_ballooned d).

Lemma balloon_inv_core d d' : core d = core d' → balloon_inv d → balloon_inv d'.
Proof. unfold core, balloon_inv, balloon_wf, accounted. intros [= -> -> ->]. done. Qed.

Lemma balloon_wf_core d d' : core d = core d' → balloon_wf d → balloon_wf d'.
Proof. unfold core, balloon_wf. by intros [= -> -> _]. Qed.

(** Byte [i] of guest memory lies in page [pfn]. *)
Definition in_page (pfn : Z) (i : nat) : Prop := pfn * balloonPageSize ≤ Z.of_nat i < (pfn + 1) * balloonPageSize.

Context (Hdn : dontneed_ok).

(** The advice keeps everything but the bytes of its page. *)
Lemma reclaim_spec pfn vm :
  fits 32 pfn → ram_wf (vm_ram vm) →
  ∃ vm', reclaim pfn vm = Ok vm' ∧ core (vm_dev vm') = core (vm_dev vm) ∧ vm_tr vm' = vm_tr vm ∧
    ram_wf (vm_ram vm') ∧ zlen (ram_mem (vm_ram vm')) = zlen (ram_mem (vm_ram vm)) ∧
    ∀ i, ¬ in_page pfn i → ram_mem (vm_ram vm') !! i = ram_mem (vm_ram vm) !! i.
Proof.
  intros Hp (Hb & Hl & Hd). unfold reclaim. set (mem := ram_mem (vm_ram vm)) in *.
  assert (u64 (pfn .<< balloonPFNShift) = pfn * 4096) as ->.
  { unfold balloonPFNShift. rewrite Z.shiftl_mul_pow2 by lia. apply u64_small. unfold fits in Hp. lia. }
  rewrite (u64_small (pfn * 4096 + balloonPageSize)) by (unfold fits, balloonPageSize in *; lia).
  match goal with |- context [if ?c then zlen mem else ?e] => set (stop := if c then zlen mem else e) end.
  assert (stop ≤ zlen mem ∧ stop ≤ pfn * 4096 + 4096) as [Hs1 Hs2]
    by (unfold stop, balloonPageSize; destruct (Z.ltb_spec (zlen mem) (pfn * 4096 + 4096)); lia).
  destruct (Z.leb_spec stop (pfn * 4096)); [by exists vm; splits|].
  destruct (slice_ok mem (pfn * 4096) stop) as [page Hpg]; [unfold fits in Hp; lia..|].
  rewrite Hpg. cbn [must mbind res_bind].
  pose proof (slice_len _ _ _ _ Hpg) as Hpl.
  destruct (Hdn (bl_calls (vm_dev vm)) page) as [Hdb Hdl]; [by eapply bytes_slice|].
  set (page' := dontneed _ page) in *.
  assert (zlen page' = stop - pfn * 4096) as Hpl' by (unfold zlen in *; lia).
  destruct (splice_ok mem (pfn * 4096) page') as [mem' Hm]; [unfold fits in Hp; lia|lia|].
  rewrite Hm. cbn. eexists. splits; [done..| | |].
  - split; cbn; [exact (bytes_splice _ _ _ _ Hb Hdb Hm)|]. split; [by rewrite (splice_len _ _ _ _ Hm)|done].
  - cbn. by rewrite (splice_len _ _ _ _ Hm).
  - cbn. intros i Hi. eapply splice_lookup_out; [done|]. unfold in_page, balloonPageSize in Hi.
    unfold zlen in Hpl'. unfold fits in Hp. lia.
Qed.

(** One request on one page. *)
Definition run_op (o : bool * Z) (vm : VM BalloonDevice) : proc (VM BalloonDevice) :=
  if o.1 then inflatePFN o.2 vm else deflatePFN o.2 vm.

Lemma run_op_spec (P : BalloonDevice → Prop) (o : bool * Z) vm :
  (∀ d d', core d = core d' → P d → P d') →
  (∀ pfn d, bl_ballooned d !! Z.to_nat pfn = Some false → P d →
     P (refreshStatsLocked (set_pages d (u32 (bl_actualPages d + 1)) (<[Z.to_nat pfn := true]> (bl_ballooned d))))) →
  (∀ pfn d, bl_ballooned d !! Z.to_nat pfn = Some true → P d →
     P (refreshStatsLocked (set_pages d (if 0 <? bl_actualPages d then bl_actualPages d - 1 else bl_actualPages d)
          (<[Z.to_nat pfn := false]> (bl_ballooned d))))) →
  fits 32 o.2 → machine_inv P vm →
  ∃ vm', run_op o vm = Ok vm' ∧ machine_inv P vm' ∧ vm_tr vm' = vm_tr vm ∧
    zlen (ram_mem (vm_ram vm')) = zlen (ram_mem (vm_ram vm)) ∧
    bl_targetPages (vm_dev vm') = bl_targetPages (vm_dev vm) ∧
    bl_ballooned (vm_dev vm') = <[Z.to_nat o.2 := o.1]> (bl_ballooned (vm_dev vm)) ∧
    (∀ i, ¬ (o.1 = true ∧ in_page o.2 i) → ram_mem (vm_ram vm') !! i = ram_mem (vm_ram vm) !! i).
Proof.
  intros Hcore Hinf Hdef Ho Hi. destruct o as [b pfn]. cbn [fst snd] in *.
  assert (∀ c, ¬ bl_ballooned (vm_dev vm) !! Z.to_nat pfn = Some (negb c) →
    <[Z.to_nat pfn := c]> (bl_ballooned (vm_dev vm)) = bl_ballooned (vm_dev vm)) as Hsame.
  { intros c Hc. destruct (bl_ballooned (vm_dev vm) !! Z.to_nat pfn) as [x|] eqn:E.
    - apply list_insert_id. rewrite E. by destruct x, c.
    - apply list_insert_ge. by apply lookup_ge_None. }
  unfold run_op. cbn [fst snd]. destruct b.
  - unfold inflatePFN. rewrite inflate_locked_spec by (unfold fits in Ho; lia). cbn [mbind res_bind].
    destruct (decide (bl_ballooned (vm_dev vm) !! Z.to_nat pfn = Some false)) as [E|E].
    + rewrite bool_decide_true by done.
      match goal with |- context [set_dev vm ?d] => set (vm1 := set_dev vm d) end.
      assert (machine_inv P vm1) as Hi1 by (apply set_dev_inv; [done|]; apply Hinf; [done|apply Hi]).
      destruct (reclaim_spec pfn vm1) as (vm' & -> & Hc & Ht & Hr & Hz & Hm); [done|apply Hi1|].
      exists vm'. destruct Hi1 as (Hi11 & Hi12 & _ & Hi13).
      splits; [done| |done|done|by injection Hc|by injection Hc|intros i Hn; apply Hm; tauto].
      unfold machine_inv. rewrite Ht. splits; try done. by eapply Hcore; [symmetry; exact Hc|].
    + rewrite bool_decide_false by done. exists vm. rewrite Hsame by done. splits; done.
  - unfold deflatePFN. rewrite deflate_locked_spec by (unfold fits in Ho; lia). cbn [mbind res_bind].
    destruct (decide (bl_ballooned (vm_dev vm) !! Z.to_nat pfn = Some true)) as [E|E].
    + rewrite bool_decide_true by done. eexists. splits; [done| |done..].
      apply set_dev_inv; [done|]. apply Hdef; [done|apply Hi].
    + rewrite bool_decide_false by done. rewrite (Hsame false) by done.
      eexists. splits; [done| |done..]. apply set_dev_inv; [done|apply Hi].
Qed.

(** The last request on page [i]. *)
Fixpoint last_op (i : Z) (ops : list (bool * Z)) : option bool :=
  match ops with
  | [] => None
  | o :: ops => match last_op i ops with
                | Some b => Some b
                | None => if bool_decide (o.2 = i) then Some o.1 else None
                end
  end.

Lemma run_ops_spec ops vm :
  machine_inv balloon_inv vm → Forall (fits 32) (snd <$> ops) →
  ∃ vm', for_each run_op ops vm = Ok vm' ∧ machine_inv balloon_inv vm' ∧ vm_tr vm' = vm_tr vm ∧
    zlen (ram_mem (vm_ram vm')) = zlen (ram_mem (vm_ram vm)) ∧
    bl_targetPages (vm_dev vm') = bl_targetPages (vm_dev vm) ∧
    length (bl_ballooned (vm_dev vm')) = length (bl_ballooned (vm_dev vm)) ∧
    (∀ i b, bl_ballooned (vm_dev vm) !! i = Some b →
       bl_ballooned (vm_dev vm') !! i = Some (default b (last_op (Z.of_nat i) ops))) ∧
    (∀ i, (∀ pfn, (true, pfn) ∈ ops → ¬ in_page pfn i) →
       ram_mem (vm_ram vm') !! i = ram_mem (vm_ram vm) !! i).
Proof.
  revert vm. induction ops as [|o ops IH]; intros vm Hi Hf; [by exists vm; splits|].
  apply Forall_cons in Hf as [Ho Hf].
  destruct (run_op_spec balloon_inv o vm) as (vm1 & Hr & Hi1 & Ht & Hz & Htp & Hb & Hm);
    [exact balloon_inv_core|exact inflate_inv|exact deflate_inv|done..|].
  destruct (IH vm1 Hi1 Hf) as (vm' & Hr' & Hi' & Ht' & Hz' & Htp' & Hl' & Hb' & Hm').
  exists vm'. splits; [cbn; by rewrite Hr|done|congruence|congruence|congruence| | |].
  - by rewrite Hl', Hb, length_insert.
  - intros i b Hib. cbn. destruct (bool_decide_reflect (o.2 = Z.of_nat i)) as [Heq|Hne].
    + rewrite (Hb' i o.1); [by destruct (last_op _ _)|].
      rewrite Hb, Heq, Nat2Z.id. apply list_lookup_insert_eq. by eapply lookup_lt_Some.
    + rewrite (Hb' i b); [by destruct (last_op _ _)|].
      rewrite Hb, list_lookup_insert_ne; [done|]. unfold fits in Ho. lia.
  - intros i Hn. rewrite Hm', Hm; [done| |].
    + destruct o as [[] p]; cbn; [|by intros [? _]]. intros [_ Hp]. by apply (Hn p); [left|].
    + intros p Hp. apply Hn. by right.
Qed.

(** ** The device keeps the machine invariant *)
Lemma pfn_words_fits buf : bytes buf → Forall (fits 32) (pfn_words buf).
Proof.
  remember (length buf) as n eqn:Hn. revert buf Hn. induction (lt_wf n) as [n _ IH]. intros buf -> Hb.
  destruct buf as [|b0 [|b1 [|b2 [|b3 rest]]]]; cbn; try by constructor.
  unfold bytes in Hb. rewrite !Forall_cons in Hb. destruct Hb as (H0 & H1 & H2 & H3 & Hrest).
  constructor; [|eapply (IH (length rest)); [cbn; lia|done|done]].
  apply (le_decode_bound [b0; b1; b2; b3]). unfold bytes. rewrite !Forall_cons. splits; done.
Qed.

Section handlers.
Context (P : BalloonDevice → Prop).
Context (Hcore : ∀ d d', core d = core d' → P d → P d').
Context (Hinf : ∀ pfn d, bl_ballooned d !! Z.to_nat pfn = Some false → P d →
  P (refreshStatsLocked (set_pages d (u32 (bl_actualPages d + 1)) (<[Z.to_nat pfn := true]> (bl_ballooned d))))).
Context (Hdef : ∀ pfn d, bl_ballooned d !! Z.to_nat pfn = Some true → P d →
  P (refreshStatsLocked (set_pages d (if 0 <? bl_actualPages d then bl_actualPages d - 1 else bl_actualPages d)
       (<[Z.to_nat pfn := false]> (bl_ballooned d))))).

Lemma run_op_sat b pfn vm :
  fits 32 pfn → machine_inv P vm →
  res_sat (machine_inv P) ((if b : bool then inflatePFN else deflatePFN) pfn vm).
Proof.
  intros Hf Hi. destruct (run_op_spec P (b, pfn) vm) as (vm' & Hr & Hi' & _); [done..|].
  unfold run_op in Hr. cbn in Hr. destruct b; by rewrite Hr.
Qed.

Lemma pfn_desc_sat inflate qi d vm :
  0 ≤ qi < 8 → desc_wf d → machine_inv P vm →
  res_sat (λ p, machine_inv P p.2) (pfn_desc inflate qi d vm).
Proof.
  intros Hqi (Ha & Hl & _) Hi. unfold pfn_desc. destruct (has _ _); [done|].
  eapply res_sat_bind; [apply (guest_read_sat P); [done..|eapply fits_mono; [exact Hl|lia]]|].
  intros [buf|] _ Hb; [|done]. destruct Hb as [Hb _].
  eapply res_sat_bind with (machine_inv P); [|done].
  apply for_each_sat; [|done]. intros w s Hw Hs.
  apply run_op_sat; [|done]. pose proof (pfn_words_fits buf Hb) as Hf. rewrite Forall_forall in Hf. auto.
Qed.

Lemma pfn_request_sat inflate qi head vm :
  0 ≤ qi < 8 → fits 16 head → machine_inv P vm →
  res_sat (machine_inv P) (pfn_request inflate qi head vm).
Proof.
  intros Hqi Hh Hi. unfold pfn_request.
  assert (fits 32 head) by (eapply fits_mono; [done|lia]).
  assert (fits 32 0) by done.
  eapply res_sat_bind; [by eapply walk_chain_sat|]. intros [chain|] _ Hc; [|by apply push_used_sat].
  destruct Hc as (_ & _ & Hw & _). eapply res_sat_bind with (machine_inv P).
  - apply for_break_sat; [|done]. intros d s Hd Hs. apply pfn_desc_sat; [done| |done].
    rewrite Forall_forall in Hw. auto.
  - intros vm' _ Hi'. by apply push_used_sat.
Qed.

Lemma handlePFNQueue_sat inflate qi vm :
  0 ≤ qi < 8 → machine_inv P vm →
  res_sat (λ p, machine_inv P p.2) (handlePFNQueue qi inflate vm).
Proof.
  intros Hqi Hi. pose proof (IterAvail_sat P qi (pfn_request inflate qi) vm Hi Hqi
    (λ h vm Hh Hv, pfn_request_sat inflate qi h vm Hqi Hh Hv)) as Hsat.
  unfold handlePFNQueue. unfold IterAvail in Hsat.
  destruct (the_queue_ok vm qi) as (q & Hq & Hqw); [apply Hi|done|]. rewrite Hq in Hsat |- *.
  cbn [must mbind res_bind] in Hsat |- *.
  destruct (IterAvail_collect q (vm_ram vm)) as [[heads q']|e| |]; cbn in Hsat |- *; try done.
  destruct (for_each _ _ _) as [vm'|[]| |]; cbn in Hsat |- *; try done.
  destruct (bool_decide _); [done|]. cbn. apply set_dev_inv; [done|].
  eapply Hcore; [|apply Hsat]. done.
Qed.
End handlers.

Lemma refresh_wf b pfn d a :
  balloon_wf d → fits 32 a → balloon_wf (refreshStatsLocked (set_pages d a (<[Z.to_nat pfn := b]> (bl_ballooned d)))).
Proof. unfold balloon_wf. cbn. tauto. Qed.

Lemma pred_fits a : fits 32 a → fits 32 (if 0 <? a then a - 1 else a).
Proof. unfold fits. destruct (Z.ltb_spec 0 a); lia. Qed.

Lemma balloon_handle_sat inflate qi vm :
  0 ≤ qi < 8 → machine_inv balloon_wf vm →
  res_sat (λ p, machine_inv balloon_wf p.2) (handlePFNQueue qi inflate vm).
Proof.
  apply handlePFNQueue_sat; [exact balloon_wf_core|..].
  - intros. apply refresh_wf; [done|apply fits_u32].
  - intros pfn d _ [Ht Ha]. apply refresh_wf; [done|by apply pred_fits].
Qed.

#[export] Instance BalloonDevice_Laws : DeviceLaws BalloonDevice.
Proof.
  refine {| dev_wf := balloon_wf |}; try done.
  - intros i vm Hii Hi. cbn. unfold balloon_HandleQueue.
    repeat case_match; try done; (eapply res_sat_bind; [by apply balloon_handle_sat|by intros [? ?] _ ?]).
  - intros f i vm [= <-] Hii Hi. unfold balloon_HandleQueueNotify.
    repeat case_match; try done; by apply balloon_handle_sat.
  - intros f o data vm [= <-] Ho Hd Hi. unfold balloon_WriteConfig. destruct (_ || _) eqn:E; [done|].
    b2p. cbn -[le_encode]. apply set_dev_inv; [done|]. destruct Hi as (_ & _ & _ & Ht & Ha). split; [done|].
    cbn -[le_encode]. match goal with |- fits 32 (le_decode ?l) => set (raw := l) end.
    assert (bytes raw) as Hr.
    { unfold raw, bytes in *. rewrite !Forall_app.
      pose proof (le_encode_bytes 4 (bl_actualPages (vm_dev vm))) as He. unfold bytes in He.
      splits; auto using Forall_take, Forall_drop. }
    assert (length raw ≤ 4)%nat as Hl.
    { unfold raw. rewrite !length_app, !length_take, length_drop, le_encode_len. lia. }
    pose proof (le_decode_bound raw Hr) as Hbd. unfold fits. unfold zlen in Hbd.
    assert (256 ^ Z.of_nat (length raw) ≤ 256 ^ 4) by (apply Z.pow_le_mono_r; lia). lia.
Defined.

(** ** Snapshots *)
Lemma pages_from_elem bs k i :
  0 ≤ k → k + zlen bs ≤ 2 ^ 32 →
  i ∈ pages_from k bs ↔ k ≤ i ∧ bs !! Z.to_nat (i - k) = Some true.
Proof.
  revert k. induction bs as [|b bs IH]; intros k Hk Hl; cbn.
  - split; [by intros ?%not_elem_of_nil|by intros []].
  - rewrite zlen_cons in Hl. pose proof (zlen_nonneg bs). rewrite elem_of_app, (IH (k + 1)) by lia.
    assert (∀ x, x ∈ (if b then [u32 k] else []) ↔ b = true ∧ x = k) as Hh.
    { intros x. rewrite u32_small by lia. destruct b; [rewrite list_elem_of_singleton; tauto|].
      split; [by intros ?%not_elem_of_nil|by intros []]. }
    rewrite Hh. split.
    + intros [[-> ->]|[Hle Hb]]; [by rewrite Z.sub_diag|]. split; [lia|].
      replace (Z.to_nat (i - k)) with (S (Z.to_nat (i - (k + 1)))) by lia. done.
    + intros [Hle Hb]. destruct (decide (i = k)) as [->|Hne].
      * rewrite Z.sub_diag in Hb. injection Hb as ->. by left.
      * right. split; [lia|]. replace (Z.to_nat (i - k)) with (S (Z.to_nat (i - (k + 1)))) in Hb by lia. done.
Qed.

Lemma pages_from_length bs k : zlen (pages_from k bs) = count_true bs.
Proof.
  revert k. induction bs as [|b bs IH]; intros k; [done|]. cbn.
  rewrite zlen_app, count_true_cons, IH. by destruct b.
Qed.

Lemma last_op_inflate i pages :
  last_op i (pair true <$> pages) = if bool_decide (i ∈ pages) then Some true else None.
Proof.
  induction pages as [|p pages IH]; [done|]. rewrite fmap_cons. cbn. rewrite IH.
  destruct (bool_decide_reflect (i ∈ pages)) as [Hin|Hin].
  - by rewrite bool_decide_true by (by right).
  - destruct (bool_decide_reflect (p = i)) as [->|Hne]; [by rewrite bool_decide_true by left|].
    rewrite bool_decide_false; [done|]. intros [?|?]%elem_of_cons; congruence.
Qed.

(** A new device without snapshot pages. *)
Lemma new_balloon_inv basePA irq cfg irqFn r :
  ram_wf r → zlen (ram_mem r) < 2 ^ 44 → bc_SnapshotPages cfg = [] →
  ∃ vm, NewBalloonDevice basePA irq cfg irqFn r = Ok vm ∧ machine_inv balloon_inv vm ∧ vm_ram vm = r ∧
    bl_ballooned (vm_dev vm) = replicate (Z.to_nat (zlen (ram_mem r) / balloonPageSize)) false.
Proof.
  intros Hr Hl Hs. unfold NewBalloonDevice. rewrite Hs. cbn -[replicate]. eexists. splits; [done| |done..].
  unfold machine_inv. cbn -[replicate]. splits; [apply NewTransport_wf..|done|].
  unfold balloon_inv, balloon_wf, accounted. cbn -[replicate]. splits; [apply fits_u32|done| |].
  - generalize (Z.to_nat (zlen (ram_mem r) / balloonPageSize)). intros n. by induction n.
  - unfold zlen at 1. rewrite length_replicate. pose proof (zlen_nonneg (ram_mem r)).
    unfold balloonPageSize. assert (zlen (ram_mem r) / 4096 < 2 ^ 32) by (apply Z.div_lt_upper_bound; lia).
    assert (0 ≤ zlen (ram_mem r) / 4096) by (apply Z.div_pos; lia). lia.
Qed.

(** Restoring is a sequence of inflate requests on a new device. *)
Definition without_pages (cfg : BalloonDeviceConfig) : BalloonDeviceConfig :=
  mkBalloonConfig (bc_AmountMiB cfg) (bc_DeflateOnOOM cfg) (bc_StatsPollingInterval cfg) (bc_AutoConservative cfg) [].

Lemma inflate_ops pfns vm : for_each inflatePFN pfns vm = for_each run_op (pair true <$> pfns) vm.
Proof.
  revert vm. induction pfns as [|p ps IH]; intros vm; [done|]. rewrite fmap_cons.
  cbn [for_each]. change (run_op (true, p) vm) with (inflatePFN p vm). destruct (inflatePFN p vm); [apply IH|done..].
Qed.

Lemma new_balloon_restore basePA irq cfg irqFn r :
  NewBalloonDevice basePA irq cfg irqFn r
  = (vm ← NewBalloonDevice basePA irq (without_pages cfg) irqFn r;
     for_each run_op (pair true <$> bc_SnapshotPages cfg) vm).
Proof.
  unfold NewBalloonDevice, without_pages, restoreSnapshotPages. cbv zeta. cbn -[replicate zlen].
  destruct (bc_SnapshotPages cfg) as [|p ps]; [done|]. rewrite zlen_cons. pose proof (zlen_nonneg ps).
  lt_is true. apply inflate_ops.
Qed.

(** ** Properties *)

(** C29: the balloon tracks the guest's pages exactly. On a new device, after
    any sequence of inflate and deflate requests, a page of guest memory is in
    the balloon exactly when its last request was an inflate; [actualPages] is
    the number of such pages and [SnapshotPages] lists them; and memory outside
    the pages that were inflated is untouched. *)
Theorem balloon_tracks_pages basePA irq cfg irqFn r ops :
  ram_wf r → zlen (ram_mem r) < 2 ^ 44 → bc_SnapshotPages cfg = [] → Forall (fits 32) (snd <$> ops) →
  ∃ vm0 vm, NewBalloonDevice basePA irq cfg irqFn r = Ok vm0 ∧ for_each run_op ops vm0 = Ok vm ∧
    (∀ i, 0 ≤ i < zlen (ram_mem r) / balloonPageSize →
       bl_ballooned (vm_dev vm) !! Z.to_nat i = Some (default false (last_op i ops)) ∧
       (i ∈ snapshotPagesLocked (vm_dev vm) ↔ last_op i ops = Some true)) ∧
    bl_actualPages (vm_dev vm) = zlen (snapshotPagesLocked (vm_dev vm)) ∧
    (∀ i, (∀ pfn, (true, pfn) ∈ ops → ¬ in_page pfn i) → ram_mem (vm_ram vm) !! i = ram_mem r !! i).
Proof.
  intros Hr Hl Hs Hf. destruct (new_balloon_inv basePA irq cfg irqFn r Hr Hl Hs) as (vm0 & H0 & Hi & Hram & Hb0).
  destruct (run_ops_spec ops vm0 Hi Hf) as (vm & Hrun & (_ & _ & _ & _ & Hacc & Hlen) & _ & _ & _ & Hlb & Hb & Hm).
  exists vm0, vm. splits; [done..| | |by rewrite <- Hram].
  - intros i Hii. pose proof (Hb (Z.to_nat i) false) as Hbi. rewrite Z2Nat.id in Hbi by lia.
    rewrite Hb0 in Hbi. specialize (Hbi ltac:(apply lookup_replicate; split; [done|lia])).
    split; [done|]. unfold snapshotPagesLocked. rewrite pages_from_elem, Z.sub_0_r, Hbi by lia.
    destruct (last_op i ops) as [[]|]; cbn; naive_solver lia.
  - unfold snapshotPagesLocked. by rewrite Hacc, (pages_from_length _ 0).
Qed.

(** The balloon survives a snapshot. A new device built from the
    configuration that [GetConfig] saved has the same pages in the balloon, the
    same count, and the same target rounded down to a MiB. *)
Theorem balloon_snapshot_roundtrip basePA irq irqFn vm r :
  machine_inv balloon_inv vm → ram_wf r → zlen (ram_mem r) < 2 ^ 44 →
  zlen (bl_ballooned (vm_dev vm)) = zlen (ram_mem r) / balloonPageSize →
  ∃ vm', NewBalloonDevice basePA irq (GetConfig (vm_dev vm)) irqFn r = Ok vm' ∧
    bl_ballooned (vm_dev vm') = bl_ballooned (vm_dev vm) ∧
    bl_actualPages (vm_dev vm') = bl_actualPages (vm_dev vm) ∧
    bl_targetPages (vm_dev vm') = bl_targetPages (vm_dev vm) / 256 * 256.
Proof.
  intros (_ & _ & _ & (Ht & _) & Hacc & Hlen) Hr Hl Hz. set (d := vm_dev vm) in *.
  destruct (new_balloon_inv basePA irq (without_pages (GetConfig d)) irqFn r Hr Hl eq_refl)
    as (vm0 & H0 & Hi & Hram & Hb0).
  assert (∀ i, i ∈ snapshotPagesLocked d ↔ 0 ≤ i ∧ bl_ballooned d !! Z.to_nat i = Some true) as Hel.
  { intros i. unfold snapshotPagesLocked. rewrite pages_from_elem, Z.sub_0_r by lia. done. }
  destruct (run_ops_spec (pair true <$> snapshotPagesLocked d) vm0 Hi)
    as (vm' & Hrun & Hi' & _ & _ & Htp & Hlb & Hb & _).
  { rewrite <- list_fmap_compose. apply Forall_fmap, Forall_forall. intros i [Hi0 Hl0%lookup_lt_Some]%Hel.
    unfold fits. cbn. unfold zlen in Hlen. lia. }
  assert (bl_ballooned (vm_dev vm') = bl_ballooned d) as Heq.
  { apply list_eq_same_length with (n := length (bl_ballooned d)); [done| |].
    - rewrite Hlb, Hb0, length_replicate. unfold zlen in Hz at 1. lia.
    - intros i x y Hlt Hx Hy.
      rewrite (Hb i false) in Hx by (rewrite Hb0; apply lookup_replicate; unfold zlen in Hz at 1; lia).
      rewrite last_op_inflate in Hx. injection Hx as <-.
      destruct y; [rewrite bool_decide_true|rewrite bool_decide_false]; [done|apply Hel|done|rewrite Hel];
        rewrite Nat2Z.id; [split; [lia|done]|intros [_ ?]; congruence]. }
  exists vm'. rewrite new_balloon_restore, H0. splits; [exact Hrun|done| |].
  - destruct Hi' as (_ & _ & _ & _ & Hacc' & _). by rewrite Hacc', Heq, Hacc.
  - rewrite Htp. unfold NewBalloonDevice in H0. cbn -[replicate] in H0. injection H0 as <-. cbn.
    unfold mibToBalloonPages, balloonPagesToMiB. unfold fits in Ht.
    pose proof (Z.mul_div_le (bl_targetPages d) 256). pose proof (Z.div_pos (bl_targetPages d) 256).
    rewrite u64_small, u32_small by lia. done.
Qed.

(** The bounds of the decision. *)
Lemma policy_target_bounds stats last cur base next :
  0 ≤ cur < 2 ^ 32 → 0 ≤ base →
  policy_target stats last cur base = Some next →
  next ≠ cur ∧ 0 ≤ next ≤ Z.max 0 (base - (if base <=? 512 then 64 else 128)) ∧ next ≤ cur + 64 ∧
  (bs_OOMKill last < bs_OOMKill stats ∨ bs_AllocStall last < bs_AllocStall stats → next < cur).
Proof.
  intros Hc Hb. unfold policy_target. destruct (_ && _); [done|].
  set (reserve := if base <=? 512 then 64 else 128). set (avail := bs_AvailableMemory stats .>> 20).
  assert (64 ≤ reserve ≤ 128) as Hres by (unfold reserve; case_match; lia).
  assert (reserve * 2 + balloonAutoStepMiB < avail →
    u64 (cur + minUint64 balloonAutoStepMiB (avail - reserve * 2)) = cur + 64) as Hmin.
  { unfold balloonAutoStepMiB, minUint64. intros Ha. lt_is true. apply u64_small. lia. }
  unfold balloonAutoStepMiB in *.
  assert (∀ b : bool, b = ((bs_OOMKill last <? bs_OOMKill stats) || (bs_AllocStall last <? bs_AllocStall stats)
      || (avail <? reserve)) →
    bs_OOMKill last < bs_OOMKill stats ∨ bs_AllocStall last < bs_AllocStall stats → b = true) as Hp
    by (intros b ->; blia || (intros [?|?]; lt_is true; done || by rewrite orb_true_r)).
  specialize (Hp _ eq_refl). destruct (_ || _ || _).
  - destruct (Z.eqb_spec cur 0); [done|]. destruct (Z.ltb_spec 64 cur); cbn;
      destruct (Z.ltb_spec reserve base); repeat case_match; b2p; intros [= <-]; splits; try lia.
  - assert (¬ (bs_OOMKill last < bs_OOMKill stats ∨ bs_AllocStall last < bs_AllocStall stats)) by naive_solver.
    destruct (Z.ltb_spec (reserve * 2 + 64) avail); [|done]. rewrite Hmin by done. cbn.
    destruct (Z.ltb_spec reserve base); repeat case_match; b2p; intros [= <-]; splits; try lia; tauto.
Qed.

(** The automatic policy is bounded and takes effect. With RAM below
    2^44 bytes it either leaves the target alone, or sets it to exactly the MiB it decided,
    with a configuration interrupt; a new target leaves the guest its reserve,
    grows by at most one step, and shrinks when the guest reports an OOM kill or
    an allocation stall. *)
Theorem policy_bounded stats vm :
  balloon_wf (vm_dev vm) → zlen (ram_mem (vm_ram vm)) < 2 ^ 44 →
  let d := vm_dev vm in
  let cur := balloonPagesToMiB (bl_targetPages d) in
  let base := zlen (ram_mem (vm_ram vm)) .>> 20 in
  ∃ vm', applyConservativePolicy stats vm = Ok vm' ∧ vm_ram vm' = vm_ram vm ∧
    bl_ballooned (vm_dev vm') = bl_ballooned d ∧ bl_actualPages (vm_dev vm') = bl_actualPages d ∧
    (bl_targetPages (vm_dev vm') = bl_targetPages d ∧ vm_tr vm' = vm_tr vm ∨
     ∃ next, bl_targetPages (vm_dev vm') = next * 256 ∧
       0 ≤ next ≤ Z.max 0 (base - (if base <=? 512 then 64 else 128)) ∧ next ≤ cur + 64 ∧
       (bs_OOMKill (bl_lastAuto d) < bs_OOMKill stats ∨ bs_AllocStall (bl_lastAuto d) < bs_AllocStall stats →
          next < cur) ∧
       vm_tr vm' = SignalIRQ (SetInterruptStat (vm_tr vm) 2) true).
Proof.
  intros [Ht Ha] Hl d cur base. unfold applyConservativePolicy. fold d.
  destruct (bl_autoConservative d); [|by exists vm; splits; auto]. cbn [negb].
  change (vm_ram (set_dev vm _)) with (vm_ram vm). fold cur base.
  assert (0 ≤ cur < 2 ^ 32) as Hcur.
  { unfold cur, balloonPagesToMiB. unfold fits in Ht. fold d in Ht. pose proof (Z.div_pos (bl_targetPages d) 256).
    assert (bl_targetPages d / 256 < 2 ^ 32) by (apply Z.div_lt_upper_bound; lia). lia. }
  assert (0 ≤ base < 2 ^ 24) as Hbase.
  { unfold base. rewrite Z.shiftr_div_pow2 by lia. pose proof (zlen_nonneg (ram_mem (vm_ram vm))).
    pose proof (Z.div_pos (zlen (ram_mem (vm_ram vm))) (2 ^ 20)).
    assert (zlen (ram_mem (vm_ram vm)) / 2 ^ 20 < 2 ^ 24) by (apply Z.div_lt_upper_bound; lia). lia. }
  destruct (policy_target stats (bl_lastAuto d) cur base) as [next|] eqn:Hpol;
    [|eexists; splits; [done..|by left]].
  destruct (policy_target_bounds _ _ _ _ _ Hcur (proj1 Hbase) Hpol) as (_ & Hn1 & Hn2 & Hn3).
  unfold SetTargetMiB. change (vm_ram (set_dev vm _)) with (vm_ram vm). fold base.
  destruct (Z.ltb_spec base next); [revert Hn1; destruct (base <=? 512); lia|]. cbn.
  eexists. splits; [done..|]. right. exists next. cbn. splits; try (done || lia).
  assert (next ≤ base) by lia. unfold mibToBalloonPages. rewrite u64_small, u32_small by lia. done.
Qed.

(** The tags of the virtio specification are 0 to 15. *)
Definition spec_tags (raw : list Z) : Prop := Forall (λ e, e.1 ≤ 15) (stat_entries raw).
Definition no_memory_stats (s : BalloonStats) : Prop := bs_TotalMemory s = 0 ∧ bs_AvailableMemory s = 0.

Lemma set_stat_spec tag v s : tag ≤ 15 → no_memory_stats s → no_memory_stats (set_stat tag v s).
Proof. intros Ht [H1 H2]. split; cbn; [unfold balloonStatTotalMemory|unfold balloonStatAvailableMemory]; by eq_is false. Qed.

(** With a driver that follows the specification the automatic policy
    never acts. The tags the code compares with start at 11 instead of 0, so the
    total and available memory of a report are never recorded; while they are
    zero the policy returns before it looks at anything else, and this state is
    kept by every report. *)
Theorem auto_policy_inert raw vm :
  spec_tags raw → no_memory_stats (bl_stats (vm_dev vm)) →
  let '(d, stats) := record_stats raw (vm_dev vm) in
  no_memory_stats (bl_stats d) ∧
  ∃ vm', applyConservativePolicy stats (set_dev vm d) = Ok vm' ∧
    bl_targetPages (vm_dev vm') = bl_targetPages (vm_dev vm) ∧ vm_tr vm' = vm_tr vm.
Proof.
  intros Htags Hno. destruct (record_stats raw (vm_dev vm)) as [d stats] eqn:Hrec.
  unfold record_stats in Hrec. cbv zeta in Hrec.
  assert (no_memory_stats (foldl (λ s e, set_stat e.1 e.2 s) (Stats (vm_dev vm)) (stat_entries raw))) as Hst.
  { clear Hrec. assert (no_memory_stats (Stats (vm_dev vm))) as H0 by exact Hno. revert H0.
    generalize (Stats (vm_dev vm)). unfold spec_tags in Htags.
    induction Htags as [|e es He Hes IH]; intros s Hs; [done|]. cbn. apply IH. by apply set_stat_spec. }
  set (s0 := foldl _ _ _) in *. injection Hrec as <- <-. split; [exact Hst|].
  unfold applyConservativePolicy. cbn.
  destruct (bl_autoConservative (vm_dev vm)); cbn; [|by eexists].
  unfold policy_target. cbn. destruct Hst as [-> ->]. cbn. by eexists.
Qed.

(** When guest RAM does not start at address 0 (it starts at 0x80000000 on
    arm64) the balloon takes the wrong page. The page frame number is the guest
    physical address, the device uses it as an offset into RAM: after an inflate
    request for the page at guest address [pfn * 4096], the contents of that
    page, at offset [pfn * 4096 - base], are untouched, and the only memory that
    may have been dropped is the page that the guest sees at [pfn * 4096 + base]. *)
Theorem inflate_wrong_page_above_base base pfn vm :
  machine_inv balloon_inv vm → fits 32 pfn → balloonPageSize ≤ base →
  ∃ vm', inflatePFN pfn vm = Ok vm' ∧
    (∀ i, pfn * balloonPageSize - base ≤ Z.of_nat i < pfn * balloonPageSize - base + balloonPageSize →
       ram_mem (vm_ram vm') !! i = ram_mem (vm_ram vm) !! i) ∧
    (∀ i, ram_mem (vm_ram vm') !! i ≠ ram_mem (vm_ram vm) !! i →
       pfn * balloonPageSize + base ≤ Z.of_nat i + base < (pfn + 1) * balloonPageSize + base).
Proof.
  intros Hi Hp Hb. destruct (run_op_spec balloon_inv (true, pfn) vm) as (vm' & Hr & _ & _ & _ & _ & _ & Hm);
    [exact balloon_inv_core|exact inflate_inv|exact deflate_inv|done..|].
  cbn in Hm. exists vm'. split; [exact Hr|]. split; intros i Hii.
  - apply Hm. intros [_ Hpg]. unfold in_page in Hpg. unfold balloonPageSize in *. lia.
  - destruct (decide (in_page pfn i)) as [Hpg|Hpg]; [unfold in_page in Hpg; lia|].
    contradict Hii. apply Hm. tauto.
Qed.
End balloon.

(** ** Witnesses

    Two pages of RAM; the advice zeroes a page, as on anonymous memory. *)
Definition ex_clock (k : nat) : Z := Z.of_nat k + 1.
Definition ex_zero (k : nat) (page : list Z) : list Z := replicate (length page) 0.

Lemma ex_zero_ok : dontneed_ok ex_zero.
Proof. intros k page _. split; [by apply Forall_replicate|apply length_replicate]. Qed.

Definition ex_bram : Ram := mkRam (replicate (Z.to_nat 8192) 7) None.
Definition ex_bcfg : BalloonDeviceConfig := mkBalloonConfig 1 true 0 true [].

Lemma ex_bram_wf : ram_wf ex_bram.
Proof. split; [by apply Forall_replicate|done]. Qed.

Lemma balloon_tracks_pages_witness :
  ∃ vm0 vm, NewBalloonDevice ex_clock ex_zero 0 5 ex_bcfg true ex_bram = Ok vm0 ∧
    for_each (run_op ex_clock ex_zero) [(true, 0); (true, 1); (false, 0)] vm0 = Ok vm ∧
    bl_ballooned (vm_dev vm) !! 1%nat = Some true.
Proof.
  destruct (balloon_tracks_pages ex_clock ex_zero ex_zero_ok 0 5 ex_bcfg true ex_bram
    [(true, 0); (true, 1); (false, 0)] ex_bram_wf eq_refl eq_refl) as (vm0 & vm & H0 & Hr & Hb & _).
  { apply (bool_decide_unpack _). vm_compute. exact I. }
  exists vm0, vm. splits; [exact H0|exact Hr|]. apply (Hb 1). vm_compute. split; [discriminate|reflexivity].
Defined.

Definition ex_balloon : VM BalloonDevice :=
  mkVM (mkBalloon 256 1 true 0 false true [false; true] zero_stats zero_stats false false 0)
    (NewTransport 0 5 true) ex_bram.

Lemma ex_balloon_inv : machine_inv balloon_inv ex_balloon.
Proof. split; [apply NewTransport_wf|]. split; [apply NewTransport_wf|]. split; [apply ex_bram_wf|]. vm_compute. splits; done || discriminate. Qed.

Lemma balloon_snapshot_roundtrip_witness :
  ∃ vm', NewBalloonDevice ex_clock ex_zero 0 5 (GetConfig (vm_dev ex_balloon)) true ex_bram = Ok vm' ∧
    bl_ballooned (vm_dev vm') = [false; true].
Proof.
  destruct (balloon_snapshot_roundtrip ex_clock ex_zero ex_zero_ok 0 5 true ex_balloon ex_bram
    ex_balloon_inv ex_bram_wf eq_refl eq_refl) as (vm' & H1 & H2 & _).
  exact (ex_intro _ vm' (conj H1 H2)).
Defined.

Lemma policy_bounded_witness :
  ∃ vm', applyConservativePolicy zero_stats ex_balloon = Ok vm' ∧ bl_actualPages (vm_dev vm') = 1.
Proof.
  destruct (policy_bounded zero_stats ex_balloon) as (vm' & H1 & _ & _ & H2 & _);
    [vm_compute; splits; done || discriminate|reflexivity|].
  exact (ex_intro _ vm' (conj H1 H2)).
Defined.

(** The report of 1 MiB of available memory, tag 6. *)
Lemma auto_policy_inert_witness :
  bs_AvailableMemory (record_stats ex_clock [6; 0; 0; 0; 16; 0; 0; 0; 0; 0] (vm_dev ex_balloon)).2 = 0.
Proof.
  pose proof (auto_policy_inert ex_clock [6; 0; 0; 0; 16; 0; 0; 0; 0; 0] ex_balloon) as H.
  destruct H as [[_ H] _]; [repeat constructor; vm_compute; discriminate|split; reflexivity|exact H].
Defined.

Lemma inflate_wrong_page_above_base_witness :
  ∃ vm', inflatePFN ex_clock ex_zero 0 ex_balloon = Ok vm' ∧
    (∀ i, ram_mem (vm_ram vm') !! i ≠ ram_mem ex_bram !! i →
       0 * 4096 + 0x80000000 ≤ Z.of_nat i + 0x80000000 < (0 + 1) * 4096 + 0x80000000).
Proof.
  destruct (inflate_wrong_page_above_base ex_clock ex_zero ex_zero_ok 0x80000000 0 ex_balloon ex_balloon_inv)
    as (vm' & H1 & _ & H2); [by vm_compute|by vm_compute|].
  exact (ex_intro _ vm' (conj H1 H2)).
Defined.
