(* ===== verification/Net.v ===== *)
(** * virtio-net (src/internal/virtio/net.go)

    Frames go out of the transmit queue to the host's carrier (a TAP device or a
    [NetBackend]), and frames that the receive pump reads from the carrier are
    put into the receive queue.  The carrier is not modelled: the frames that
    are handed to it are recorded in [n_sent] (its errors are ignored by the
    code), and what a read of it returns is an input of the pump's step.  Rate
    limiters only delay, and are left out. *)
From S2P Require Import Prelude DirtyTracker Virtqueue Transport Scatter.

Definition DeviceIDNet : Z := 1.
Definition NetFeatureMac : Z := 1 .<< 5.
Definition NetFeatureMrgRxBuf : Z := 1 .<< 15.
Definition NetFeatureStatus : Z := 1 .<< 16.
Definition netHeaderLen : Z := 12.

Record NetDevice := mkNet {
  n_MAC : list Z;                 (** [cfg.MAC], six bytes *)
  n_Status : Z;                   (** [cfg.Status] *)
  n_closed : bool;
  n_sent : list (list Z)          (** frames handed to the carrier, oldest first *)
}.

Definition set_sent (d : NetDevice) (s : list (list Z)) : NetDevice :=
  mkNet (n_MAC d) (n_Status d) (n_closed d) s.

(** [copy(d.cfg.MAC[:], mac)] into six zero bytes. *)
Definition NewNetDevice (basePA irq : Z) (mac : list Z) (irqFn : bool) (r : Ram) : VM NetDevice :=
  mkVM (mkNet (take 6 mac ++ replicate (6 - length mac) 0) 0 false []) (NewTransport basePA irq irqFn) r.

Definition net_ActivateLink (d : NetDevice) : NetDevice := mkNet (n_MAC d) 1 (n_closed d) (n_sent d).

Definition net_DeviceFeatures (d : NetDevice) : Z := NetFeatureMac .| NetFeatureMrgRxBuf .| NetFeatureStatus.
Definition net_ConfigBytes (d : NetDevice) : list Z := n_MAC d ++ le_encode 2 (n_Status d).

(** ** Transmit *)

(** The bytes of a chain, [None] when a descriptor cannot be read. *)
Fixpoint gather_frame (qi : Z) (chain : list Desc) (vm : VM NetDevice) (pkt : list Z) : proc (option (list Z)) :=
  match chain with
  | [] => Ok (Some pkt)
  | d :: chain =>
      o ← guest_read qi (d_Addr d) (d_Len d) vm;
      match o with
      | None => Ok None
      | Some buf => gather_frame qi chain vm (pkt ++ buf)
      end
  end.

(** The callback of [IterAvail] in [transmit]. *)
Definition tx_request (qi head : Z) (vm : VM NetDevice) : proc (VM NetDevice) :=
  o ← walk_chain qi head vm;
  match o with
  | None => push_used qi head 0 vm
  | Some chain =>
      p ← gather_frame qi chain vm [];
      match p with
      | None => push_used qi head 0 vm
      | Some pkt =>
          let d := vm_dev vm in
          push_used qi head 0 (set_dev vm (set_sent d (n_sent d ++ [pkt])))
      end
  end.

Definition transmit (qi : Z) (vm : VM NetDevice) : proc (VM NetDevice) :=
  swallow vm (IterAvail qi (tx_request qi) vm).

Definition net_HandleQueue (i : Z) (vm : VM NetDevice) : proc (VM NetDevice) :=
  if i =? 1 then transmit i vm else Ok vm.

#[export] Instance NetDevice_Device : Device NetDevice := {
  DeviceID _ := DeviceIDNet;
  DeviceFeatures := net_DeviceFeatures;
  ConfigBytes := net_ConfigBytes;
  HandleQueue := net_HandleQueue;
  WriteConfig := None;
  HandleQueueNotify := None;
  SharedMemoryRegion := None;
  OnTransportStateChange := None;
  OnTransportReset := None;
  ActivateLink := Some net_ActivateLink
}.

(** ** Receive *)

(** The machine afterwards and the two results of [deliverRXPacket]. *)
Definition deliverRXPacket (pkt : list Z) (vm : VM NetDevice) : proc (VM NetDevice * Z * bool) :=
  q ← must (the_queue vm 0);
  if (zlen pkt <? netHeaderLen) || negb (q_Ready q) then Ok (vm, 0, false)
  else
    o ← attempt (ConsumeAvail_take q (vm_ram vm));
    match o with
    | None | Some (None, _) => Ok (vm, 0, false)
    | Some (Some head, q') =>
        let vm := put_queue vm 0 q' in
        c ← walk_chain 0 head vm;
        match c with
        | None | Some [] => Ok (vm, 0, false)
        | Some chain =>
            pkt ← must (putLE 2 pkt 10 1);
            s ← for_break rx_desc chain (mkRx vm pkt 0 false);
            if rx_failed s then Ok (rx_vm s, rx_written s, false)
            else vm ← push_used 0 head (rx_written s) (rx_vm s); Ok (vm, rx_written s, true)
        end
    end.

(** What one read of the carrier gives the pump. *)
Inductive carrier_read :=
  | Frame (data : list Z)         (** at most 65536 bytes *)
  | ReadShutdown                  (** a shutdown error, or one that is not transient *)
  | ReadTransient (hangup : bool) (** retried; [hangup] when the poll of the TAP failed *).

(** One iteration of [rxPump]: [None] when the pump returns.  A [Close] that
    happens during the read is the same as one before it. *)
Definition rxPump_step (r : carrier_read) (vm : VM NetDevice) : proc (option (VM NetDevice)) :=
  if n_closed (vm_dev vm) then Ok None
  else
    match r with
    | ReadShutdown | ReadTransient true => Ok None
    | ReadTransient false => Ok (Some vm)
    | Frame buf =>
        if zlen buf <? netHeaderLen then Ok (Some vm)
        else
          q ← must (the_queue vm 0);
          if negb (q_Ready q) then Ok (Some vm)
          else
            '(vm, _, ok) ← deliverRXPacket buf vm;
            Ok (Some (if (ok : bool) then set_tr vm (SignalIRQ (SetInterruptStat (vm_tr vm) 1) true) else vm))
    end.

(** ** Safety *)
Definition net_wf (d : NetDevice) : Prop := True.

Lemma gather_frame_sat qi chain vm pkt :
  0 ≤ qi < 8 → Forall desc_wf chain → machine_inv net_wf vm → res_sat (λ _, True) (gather_frame qi chain vm pkt).
Proof.
  intros Hqi Hw Hi. revert pkt. induction Hw as [|d ds (Ha & Hl & _) Hds IH]; intros pkt; [done|]. cbn [gather_frame].
  eapply res_sat_bind; [apply (guest_read_sat net_wf); [done..|eapply fits_mono; [exact Hl|lia]]|].
  intros [buf|] _ _; [apply IH|done].
Qed.

Lemma tx_request_sat qi head vm :
  0 ≤ qi < 8 → fits 16 head → machine_inv net_wf vm → res_sat (machine_inv net_wf) (tx_request qi head vm).
Proof.
  intros Hqi Hh Hi. unfold tx_request.
  assert (fits 32 head) by (eapply fits_mono; [done|lia]). assert (fits 32 0) by done.
  eapply res_sat_bind; [by eapply walk_chain_sat|]. intros [chain|] _ Hc; [|by apply push_used_sat].
  destruct Hc as (_ & _ & Hw & _).
  eapply res_sat_bind; [by apply gather_frame_sat|]. intros [pkt|] _ _; [|by apply push_used_sat].
  apply push_used_sat; [by apply set_dev_inv|done..].
Qed.

#[export] Instance NetDevice_Laws : DeviceLaws NetDevice.
Proof.
  refine {| dev_wf := net_wf |}; try done.
  intros i vm Hii Hi. cbn. unfold net_HandleQueue, transmit. destruct (i =? 1); [|done].
  apply res_sat_swallow; [|done]. apply IterAvail_sat; [done..|].
  intros h vm' Hh Hvm. by apply tx_request_sat.
Defined.

Lemma deliverRXPacket_sat pkt vm :
  bytes pkt → zlen pkt < 2 ^ 32 → machine_inv net_wf vm →
  res_sat (λ p, machine_inv net_wf p.1.1) (deliverRXPacket pkt vm).
Proof.
  intros Hb Hz Hi. unfold deliverRXPacket.
  destruct (the_queue_ok vm 0) as (q & -> & Hq); [apply Hi|lia|]. cbn [must mbind res_bind].
  destruct (_ || _) eqn:Hor; [done|]. b2p.
  assert (ram_wf (vm_ram vm)) as Hr by apply Hi.
  destruct (ConsumeAvail_take_spec q (vm_ram vm) Hq Hr) as [Hc Hs].
  destruct (ConsumeAvail_take q (vm_ram vm)) as [[[head|] q']|e| |] eqn:Htake; cbn; try done.
  destruct (Hs _ _ eq_refl) as (i & _ & [(_ & ? & _)|(_ & Ho & _ & ->)]); [done|].
  assert (fits 16 head) as Hh by (symmetry in Ho; by eapply avail_entry_fits).
  assert (fits 32 head) by (eapply fits_mono; [done|lia]).
  set (vm1 := put_queue vm 0 _).
  assert (machine_inv net_wf vm1) as Hi1 by (apply put_queue_inv; [done|]; apply set_LastAvail_wf; [done|apply fits_u16]).
  eapply res_sat_bind; [by eapply (walk_chain_sat net_wf); [|lia|]|].
  intros [[|d chain]|] _ Hchain; [done| |done]. destruct Hchain as (_ & _ & Hw & _).
  unfold netHeaderLen in *. destruct (putLE_ok 2 pkt 10 1) as [pkt' Hp]; [lia..|]. rewrite Hp.
  cbn -[for_break]. eapply res_sat_bind.
  { apply (rx_loop_sat net_wf); [done|by eapply bytes_putLE|by rewrite (putLE_len _ _ _ _ _ Hp)|done]. }
  intros s _ [Hi2 Hwr]. destruct (rx_failed s); [done|].
  eapply res_sat_bind; [by apply push_used_sat; [|lia|..]|]. by intros vm2 _ Hi3.
Qed.

Lemma rxPump_step_sat r vm :
  match r with Frame buf => bytes buf ∧ zlen buf ≤ 65536 | _ => True end → machine_inv net_wf vm →
  res_sat (λ o, match o with Some vm' => machine_inv net_wf vm' | None => True end) (rxPump_step r vm).
Proof.
  intros Hr Hi. unfold rxPump_step. destruct (n_closed _); [done|]. destruct r as [buf| |[]]; try done.
  destruct Hr as [Hb Hz]. destruct (zlen buf <? netHeaderLen); [done|].
  destruct (the_queue_ok vm 0) as (q & -> & _); [apply Hi|lia|]. cbn [must mbind res_bind].
  destruct (negb _); [done|]. eapply res_sat_bind; [apply deliverRXPacket_sat; [done|lia|done]|].
  intros [[vm' w] ok] _ Hvm. cbn in *. destruct ok; [|done]. by apply raise_irq_inv.
Qed.

(** ** Properties *)

(** A received frame reaches the guest. On a ready receive queue, when the
    next chain can be written, the frame is put, with its buffer count set to 1,
    into the writable buffers of that one chain in order, and the chain is
    completed with the number of bytes written: the whole frame when it fits,
    else as much as fits (the frame is cut, although the merged-buffer feature
    is offered, and still reported as received). *)
Theorem net_rx_delivers pkt pkt' vm q head q' chain vm1 vm2 :
  the_queue vm 0 = Some q → q_Ready q = true → netHeaderLen ≤ zlen pkt < 2 ^ 32 →
  ConsumeAvail_take q (vm_ram vm) = Ok (Some head, q') →
  walk_chain 0 head (put_queue vm 0 q') = Ok (Some chain) → Forall desc_wf chain → chain ≠ [] →
  putLE 2 pkt 10 1 = Some pkt' →
  deliver 0 (scatter chain pkt').*1 (scatter chain pkt').*2 (put_queue vm 0 q') = Ok vm1 →
  push_used 0 head (Z.min (zlen pkt) (capacity chain)) vm1 = Ok vm2 →
  deliverRXPacket pkt vm = Ok (vm2, Z.min (zlen pkt) (capacity chain), true) ∧
  concat (scatter chain pkt').*2 = take (Z.to_nat (capacity chain)) pkt'.
Proof.
  intros Hq Hready Hz Htake Hwalk Hw Hne Hput Hdel Hpush.
  split; [|by apply scatter_concat].
  pose proof (putLE_len _ _ _ _ _ Hput) as Hlen. pose proof (scatter_concat chain pkt' Hw) as Hcat.
  pose proof (capacity_nonneg chain Hw) as Hcap.
  assert (zlen (concat (scatter chain pkt').*2) = Z.min (zlen pkt) (capacity chain)) as Hc.
  { rewrite Hcat, <- Hlen. unfold zlen. rewrite length_take. lia. }
  unfold deliverRXPacket. rewrite Hq. cbn [must mbind res_bind]. rewrite Hready.
  lt_is false. cbn [orb negb]. rewrite Htake. cbn [attempt mbind res_bind]. rewrite Hwalk. cbn [mbind res_bind].
  destruct chain as [|d ds]; [done|]. rewrite Hput. cbn [must mbind res_bind].
  destruct (rx_loop_spec (d :: ds) pkt' (put_queue vm 0 q') vm1 0) as [rest ->]; [done|lia..|done|].
  cbn [mbind res_bind rx_failed rx_vm rx_written]. rewrite Z.add_0_l, Hc, Hpush. done.
Qed.

(** A bad receive chain is lost. When the next chain of the receive queue
    is malformed, the frame is dropped, and the chain is consumed but never
    completed: guest memory, the used ring included, is unchanged, while the
    queue has moved past the entry. *)
Theorem net_rx_bad_chain_lost pkt vm q head q' :
  the_queue vm 0 = Some q → q_Ready q = true → netHeaderLen ≤ zlen pkt →
  ConsumeAvail_take q (vm_ram vm) = Ok (Some head, q') →
  walk_chain 0 head (put_queue vm 0 q') = Ok None →
  deliverRXPacket pkt vm = Ok (put_queue vm 0 q', 0, false) ∧
  vm_ram (put_queue vm 0 q') = vm_ram vm ∧ q_LastAvail q' = u16 (q_LastAvail q + 1).
Proof.
  intros Hq Hready Hz Htake Hwalk. split; [|split; [done|]].
  - unfold deliverRXPacket. rewrite Hq. cbn [must mbind res_bind]. rewrite Hready. lt_is false. cbn [orb negb].
    rewrite Htake. cbn [attempt mbind res_bind]. by rewrite Hwalk.
  - revert Htake. unfold ConsumeAvail_take. destruct (readAvail q (vm_ram vm)) as [av| | |]; cbn; try done.
    destruct (q_LastAvail q =? av_Idx av); [done|]. destruct (at_ _ _); cbn; [|done]. by intros [= _ <-].
Qed.

(** A transmit request sends what the guest wrote. For a readable chain
    the carrier gets one frame, the bytes of the chain's buffers in order, and
    the chain is completed with length 0; a malformed or unreadable chain sends
    nothing and is completed too. *)
Theorem net_tx_sends qi head vm vm' :
  tx_request qi head vm = Ok vm' →
  (∃ chain bufs, walk_chain qi head vm = Ok (Some chain) ∧
     Forall2 (λ d b, guest_read qi (d_Addr d) (d_Len d) vm = Ok (Some b)) chain bufs ∧
     n_sent (vm_dev vm') = n_sent (vm_dev vm) ++ [concat bufs] ∧
     push_used qi head 0 (set_dev vm (vm_dev vm')) = Ok vm') ∨
  ((walk_chain qi head vm = Ok None ∨
    ∃ chain d, walk_chain qi head vm = Ok (Some chain) ∧ d ∈ chain ∧ guest_read qi (d_Addr d) (d_Len d) vm = Ok None) ∧
   vm_dev vm' = vm_dev vm ∧ push_used qi head 0 vm = Ok vm').
Proof.
  assert (∀ vm1 vm2, push_used qi head 0 vm1 = Ok vm2 → vm_dev (D := NetDevice) vm2 = vm_dev vm1) as Hdev.
  { intros vm1 vm2 H. unfold push_used in H. apply bind_Ok in H as (q & _ & H). by apply bind_Ok in H as (r & _ & [= <-]). }
  assert (∀ chain pkt o, gather_frame qi chain vm pkt = Ok o →
    match o with
    | Some out => ∃ bufs, Forall2 (λ d b, guest_read qi (d_Addr d) (d_Len d) vm = Ok (Some b)) chain bufs ∧
                    out = pkt ++ concat bufs
    | None => ∃ d, d ∈ chain ∧ guest_read qi (d_Addr d) (d_Len d) vm = Ok None
    end) as Hgather.
  { induction chain as [|d ds IH]; intros pkt o Hg; cbn in Hg.
    - injection Hg as <-. exists []. by rewrite app_nil_r.
    - apply bind_Ok in Hg as ([buf|] & Hr & Hg); [|injection Hg as <-; exists d; split; [left|done]].
      apply IH in Hg. destruct o as [out|].
      + destruct Hg as (bufs & Hf & ->). exists (buf :: bufs). split; [by constructor|]. cbn. by rewrite <- app_assoc.
      + destruct Hg as (d' & ? & ?). exists d'. split; [by right|done]. }
  unfold tx_request. intros H. apply bind_Ok in H as ([chain|] & Hwalk & H).
  - apply bind_Ok in H as (o & Hg & H). apply Hgather in Hg. destruct o as [pkt|].
    + left. destruct Hg as (bufs & Hf & ->). exists chain, bufs. pose proof (Hdev _ _ H) as Hd. cbn in Hd.
      rewrite Hd. splits; done.
    + right. destruct Hg as (d & ? & ?). splits; [right; by exists chain, d|by apply Hdev|done].
  - right. splits; [by left|by apply Hdev|done].
Qed.

(** ** Witnesses

    A machine with one writable and one readable buffer: descriptor table at 0,
    available ring at 0x40, used ring at 0x60; the receive queue (0) has the
    chain 0 of 16 bytes at 0x80, the transmit queue (1) the chain 1 of 4 bytes
    at 0x90; descriptor 2 has the unsupported indirect flag. *)
Definition ex_table : list Z :=
  (le_encode 8 0x80 ++ le_encode 4 16 ++ le_encode 2 2 ++ le_encode 2 0) ++
  (le_encode 8 0x90 ++ le_encode 4 4 ++ le_encode 2 0 ++ le_encode 2 0) ++
  (le_encode 8 0x80 ++ le_encode 4 16 ++ le_encode 2 4 ++ le_encode 2 0) ++ replicate 16 0.
Definition ex_nmem (head : Z) : list Z :=
  ex_table ++ (le_encode 2 0 ++ le_encode 2 1 ++ le_encode 2 head ++ replicate 26 0) ++
  replicate 32 0 ++ replicate 16 0 ++ [1; 2; 3; 4] ++ replicate 12 0.
Definition ex_nqueue : Queue := mkQueue 4 true 0 0 0x40 0x60 0.
Definition ex_net (head : Z) : VM NetDevice :=
  mkVM (mkNet [2; 0; 0; 0; 0; 1] 0 false [])
    (set_queues (NewTransport 0 5 true) (replicate 2 ex_nqueue ++ replicate 6 (NewQueue 256)))
    (mkRam (ex_nmem head) None).
Definition ex_frame : list Z := replicate 12 0 ++ [9; 8; 7; 6].

Lemma net_rx_delivers_witness : ∃ vm2, deliverRXPacket ex_frame (ex_net 0) = Ok (vm2, 16, true).
Proof.
  eexists. eapply (net_rx_delivers ex_frame _ (ex_net 0) ex_nqueue 0 _ [mkDesc 0x80 16 2 0]);
    [reflexivity|reflexivity|split; [vm_compute; discriminate|reflexivity]|vm_compute; reflexivity|vm_compute; reflexivity| |
     discriminate|vm_compute; reflexivity|vm_compute; reflexivity|vm_compute; reflexivity].
  apply (bool_decide_unpack _). vm_compute. exact I.
Defined.

Lemma net_rx_bad_chain_lost_witness :
  ∃ q', deliverRXPacket ex_frame (ex_net 2) = Ok (put_queue (ex_net 2) 0 q', 0, false) ∧ q_LastAvail q' = 1.
Proof.
  eexists. edestruct (net_rx_bad_chain_lost ex_frame (ex_net 2) ex_nqueue 2) as (H1 & _ & H2);
    [reflexivity|reflexivity|vm_compute; discriminate|vm_compute; reflexivity|vm_compute; reflexivity|].
  exact (conj H1 H2).
Defined.

Definition ex_sent : VM NetDevice := value_or (ex_net 1) (tx_request 1 1 (ex_net 1)).

Lemma net_tx_sends_witness :
  tx_request 1 1 (ex_net 1) = Ok ex_sent ∧ ∃ bufs, n_sent (vm_dev ex_sent) = [concat bufs].
Proof.
  split; [vm_compute; reflexivity|].
  destruct (net_tx_sends 1 1 (ex_net 1) ex_sent ltac:(vm_compute; reflexivity))
    as [(chain & bufs & _ & _ & Hs & _)|[[Hw|(chain & d & Hw & Hd & Hr)] _]].
  - exists bufs. exact Hs.
  - vm_compute in Hw. discriminate.
  - vm_compute in Hw. injection Hw as <-. apply list_elem_of_singleton in Hd. subst d. vm_compute in Hr. discriminate.
Defined.
