(* ===== verification/Vsock.v ===== *)
(** * virtio-vsock (src/internal/vsock/vsock.go)

    The device multiplexes byte streams between processes of the guest and
    connections of the host.  [Connection] and [pendingConn] are shared objects
    (a map, the receive pump of the connection and a dialing goroutine hold
    pointers to them), so the device has a heap for each kind; [vs_next] makes
    fresh pointers.  [vs_pumps] are the running [rxPump] goroutines.

    The host ends of the connections are not modelled: a connection records the
    bytes that were written to it ([c_out]) and whether it was closed; what
    [listenFn] and [conn.Write] return is given by two parameters, indexed by
    the number of calls ([vs_calls]).  The channel [ready] has a buffer of one:
    a send on a full channel blocks the goroutine for ever, which is [NoFuel]
    here, so the safety theorem also says that no handler blocks.

    A guest notification is one step; so are one read of a pump, the parts of
    [Dial] between two waits, [Close], and [QuiesceForSnapshot] without its
    bounded waits. *)
From S2P Require Import Prelude DirtyTracker Virtqueue Transport Scatter.

(** ** Packets *)
Definition GuestCID : Z := 3.
Definition HostCID : Z := 2.
Definition vsockFeatureInOrder : Z := 1 .<< 35.
Definition opRequest : Z := 1.
Definition opResponse : Z := 2.
Definition opReset : Z := 3.
Definition opShutdown : Z := 4.
Definition opRW : Z := 5.
Definition opCreditUpdate : Z := 6.
Definition opCreditRequest : Z := 7.
Definition hdrSize : Z := 44.

Record pktHdr := mkHdr {
  h_SrcCID : Z;
  h_DstCID : Z;
  h_SrcPort : Z;
  h_DstPort : Z;
  h_Len : Z;
  h_Type : Z;
  h_Op : Z;
  h_Flags : Z;
  h_BufAlloc : Z;
  h_FwdCnt : Z
}.

Definition marshalHdr (h : pktHdr) : list Z :=
  le_encode 8 (h_SrcCID h) ++ le_encode 8 (h_DstCID h) ++ le_encode 4 (h_SrcPort h) ++
  le_encode 4 (h_DstPort h) ++ le_encode 4 (h_Len h) ++ le_encode 2 (h_Type h) ++ le_encode 2 (h_Op h) ++
  le_encode 4 (h_Flags h) ++ le_encode 4 (h_BufAlloc h) ++ le_encode 4 (h_FwdCnt h).

(** [Uint64(b[o:])] and the like panic on a short buffer. *)
Definition parseHdr (b : list Z) : proc pktHdr :=
  srcCID ← must (getLE 8 b 0);
  dstCID ← must (getLE 8 b 8);
  srcPort ← must (getLE 4 b 16);
  dstPort ← must (getLE 4 b 20);
  len ← must (getLE 4 b 24);
  typ ← must (getLE 2 b 28);
  op ← must (getLE 2 b 30);
  flags ← must (getLE 4 b 32);
  bufAlloc ← must (getLE 4 b 36);
  fwdCnt ← must (getLE 4 b 40);
  Ok (mkHdr srcCID dstCID srcPort dstPort len typ op flags bufAlloc fwdCnt).

(** ** State *)
Record Connection := mkConn {
  c_guestPort : Z;
  c_hostPort : Z;
  c_fwdCnt : Z;
  c_out : list Z;                (** bytes written to the host connection *)
  c_closed : bool                (** the host connection was closed *)
}.

Record pendingConn := mkPending {
  pc_conn : nat;
  pc_ready : list bool           (** contents of the channel, [true] for nil *)
}.

Record VsockDevice := mkVsock {
  vs_heap : gmap nat Connection;
  vs_pendHeap : gmap nat pendingConn;
  vs_conns : gmap (Z * Z) nat;   (** (guest port, host port) *)
  vs_pending : gmap Z nat;
  vs_nextHostPort : Z;
  vs_closed : bool;
  vs_pumps : list nat;
  vs_next : nat;
  vs_calls : nat
}.

Definition set_vheap (d : VsockDevice) h := mkVsock h (vs_pendHeap d) (vs_conns d) (vs_pending d)
  (vs_nextHostPort d) (vs_closed d) (vs_pumps d) (vs_next d) (vs_calls d).
Definition set_pendHeap (d : VsockDevice) p := mkVsock (vs_heap d) p (vs_conns d) (vs_pending d)
  (vs_nextHostPort d) (vs_closed d) (vs_pumps d) (vs_next d) (vs_calls d).
Definition set_maps (d : VsockDevice) cs ps := mkVsock (vs_heap d) (vs_pendHeap d) cs ps
  (vs_nextHostPort d) (vs_closed d) (vs_pumps d) (vs_next d) (vs_calls d).
Definition set_port (d : VsockDevice) port := mkVsock (vs_heap d) (vs_pendHeap d) (vs_conns d) (vs_pending d)
  port (vs_closed d) (vs_pumps d) (vs_next d) (vs_calls d).
Definition set_closed (d : VsockDevice) b := mkVsock (vs_heap d) (vs_pendHeap d) (vs_conns d) (vs_pending d)
  (vs_nextHostPort d) b (vs_pumps d) (vs_next d) (vs_calls d).
Definition set_pumps (d : VsockDevice) ps := mkVsock (vs_heap d) (vs_pendHeap d) (vs_conns d) (vs_pending d)
  (vs_nextHostPort d) (vs_closed d) ps (vs_next d) (vs_calls d).
Definition next_call (d : VsockDevice) := mkVsock (vs_heap d) (vs_pendHeap d) (vs_conns d) (vs_pending d)
  (vs_nextHostPort d) (vs_closed d) (vs_pumps d) (vs_next d) (S (vs_calls d)).

(** [&Connection{...}] *)
Definition new_conn (d : VsockDevice) (c : Connection) : VsockDevice * nat :=
  (mkVsock (<[vs_next d := c]> (vs_heap d)) (vs_pendHeap d) (vs_conns d) (vs_pending d)
     (vs_nextHostPort d) (vs_closed d) (vs_pumps d) (S (vs_next d)) (vs_calls d), vs_next d).

(** [c.conn.Close()] *)
Definition close_conn (id : nat) (d : VsockDevice) : VsockDevice :=
  set_vheap d (alter (λ c, mkConn (c_guestPort c) (c_hostPort c) (c_fwdCnt c) (c_out c) true) id (vs_heap d)).

(** [pending.ready <- err], on a channel with a buffer of one. *)
Definition send_ready (pid : nat) (ok : bool) (d : VsockDevice) : proc VsockDevice :=
  p ← must (vs_pendHeap d !! pid);
  match pc_ready p with
  | [] => Ok (set_pendHeap d (<[pid := mkPending (pc_conn p) [ok]]> (vs_pendHeap d)))
  | _ => NoFuel
  end.

(** [select { case p.ready <- err: default: }] *)
Definition try_send_ready (pid : nat) (ok : bool) (d : VsockDevice) : proc VsockDevice :=
  p ← must (vs_pendHeap d !! pid);
  match pc_ready p with
  | [] => Ok (set_pendHeap d (<[pid := mkPending (pc_conn p) [ok]]> (vs_pendHeap d)))
  | _ => Ok d
  end.

(** ** Host ports *)

(** The loop of [allocateHostPort], with fuel. *)
Definition port_in_use (d : VsockDevice) (port : Z) : bool :=
  bool_decide (is_Some (vs_pending d !! port)) ||
  existsb (λ x : Z * Z * nat, x.1.2 =? port) (map_to_list (vs_conns d)).

Definition succ_port (port : Z) : Z :=
  let port := u32 (port + 1) in if port =? 0 then 1024 else port.

Fixpoint allocate_loop (fuel : nat) (d : VsockDevice) : proc (VsockDevice * Z) :=
  match fuel with
  | O => NoFuel
  | S fuel =>
      let port := vs_nextHostPort d in
      let d := set_port d (succ_port port) in
      if port_in_use d port then allocate_loop fuel d else Ok (d, port)
  end.

(** More fuel than there are ports in use. *)
Definition allocateHostPort (d : VsockDevice) : proc (VsockDevice * Z) :=
  allocate_loop (S (size (vs_pending d) + size (vs_conns d))) d.

(** ** Sending to the guest *)

(** The callback of [ConsumeAvail] in [sendPkt] and [injectPkt]. *)
Definition rx_put (payload : list Z) (head : Z) (vm : VM VsockDevice) : proc (VM VsockDevice * unit) :=
  o ← walk_chain 0 head vm;
  match o with
  | None => vm ← push_used 0 head 0 vm; Ok (vm, ())
  | Some chain =>
      s ← for_break rx_desc chain (mkRx vm payload 0 false);
      vm ← push_used 0 head (rx_written s) (rx_vm s); Ok (vm, ())
  end.

Definition control_hdr (srcCID dstCID srcPort dstPort op len fwdCnt : Z) : pktHdr :=
  mkHdr srcCID dstCID srcPort dstPort len 1 op 0 65536 fwdCnt.

Definition sendPkt (srcCID dstCID srcPort dstPort op : Z) (data : list Z) (fwdCnt : Z) (vm : VM VsockDevice)
  : proc (VM VsockDevice * bool) :=
  let payload := marshalHdr (control_hdr srcCID dstCID srcPort dstPort op (u32 (zlen data)) fwdCnt) ++ data in
  match the_queue vm 0 with
  | None => Ok (vm, false)
  | Some rxQ =>
      if negb (q_Ready rxQ) then Ok (vm, false)
      else
        o ← attempt (ConsumeAvail 0 (rx_put payload) vm);
        match o with
        | None => Ok (vm, false)
        | Some (vm, None) => Ok (vm, false)
        | Some (vm, Some _) => Ok (set_tr vm (SignalIRQ (SetInterruptStat (vm_tr vm) 1) true), true)
        end
  end.

Definition injectPkt (srcCID dstCID srcPort dstPort op : Z) (vm : VM VsockDevice) : proc (VM VsockDevice * bool) :=
  o ← attempt (ConsumeAvail 0 (rx_put (marshalHdr (control_hdr srcCID dstCID srcPort dstPort op 0 0))) vm);
  match o with
  | None => Ok (vm, false)
  | Some (vm, r) => Ok (vm, bool_decide (is_Some r))
  end.

Definition sendReset (hdr : pktHdr) (vm : VM VsockDevice) : proc (VM VsockDevice) :=
  '(vm, _) ← sendPkt (h_DstCID hdr) (h_SrcCID hdr) (h_DstPort hdr) (h_SrcPort hdr) opReset [] 0 vm; Ok vm.

Definition sendCreditUpdate (hostPort guestPort fwdCnt : Z) (vm : VM VsockDevice) : proc (VM VsockDevice) :=
  '(vm, _) ← sendPkt HostCID GuestCID hostPort guestPort opCreditUpdate [] fwdCnt vm; Ok vm.

Definition hdr_key (hdr : pktHdr) : Z * Z := (h_SrcPort hdr, h_DstPort hdr).

Section vsock.
Context (listenFn : option (nat → Z → bool)).
Context (connWrite : nat → list Z → Z * bool).

(** ** Packets from the guest *)
Definition handleConnect (hdr : pktHdr) (vm : VM VsockDevice) : proc (VM VsockDevice) :=
  match listenFn with
  | None => sendReset hdr vm
  | Some listen =>
      let d := vm_dev vm in
      let vm := set_dev vm (next_call d) in
      if negb (listen (vs_calls d) (h_DstPort hdr)) then sendReset hdr vm
      else
        let '(d, id) := new_conn (vm_dev vm) (mkConn (h_SrcPort hdr) (h_DstPort hdr) 0 [] false) in
        if vs_closed d then Ok (set_dev vm (close_conn id d))
        else
          let d := set_maps d (<[hdr_key hdr := id]> (vs_conns d)) (vs_pending d) in
          '(vm, _) ← sendPkt (h_DstCID hdr) (h_SrcCID hdr) (h_DstPort hdr) (h_SrcPort hdr) opResponse [] 0
                       (set_dev vm d);
          Ok (set_dev vm (set_pumps (vm_dev vm) (vs_pumps (vm_dev vm) ++ [id])))
  end.

Definition handleResponse (hdr : pktHdr) (vm : VM VsockDevice) : proc (VM VsockDevice) :=
  let d := vm_dev vm in
  match vs_pending d !! h_DstPort hdr with
  | None => Ok vm
  | Some pid =>
      p ← must (vs_pendHeap d !! pid);
      let d := set_maps d (<[hdr_key hdr := pc_conn p]> (vs_conns d)) (delete (h_DstPort hdr) (vs_pending d)) in
      if vs_closed d then
        d ← send_ready pid false (close_conn (pc_conn p) d); Ok (set_dev vm d)
      else
        d ← send_ready pid true d;
        Ok (set_dev vm (set_pumps d (vs_pumps d ++ [pc_conn p])))
  end.

(** The payload in the descriptors after the first. *)
Fixpoint gather_data (qi : Z) (chain : list Desc) (vm : VM VsockDevice) (data : list Z) : proc (option (list Z)) :=
  match chain with
  | [] => Ok (Some data)
  | d :: chain =>
      o ← guest_read qi (d_Addr d) (d_Len d) vm;
      match o with
      | None => Ok None
      | Some buf => gather_data qi chain vm (data ++ buf)
      end
  end.

(** [c.conn.Write(data)] and the update of the counter. *)
Definition handleData (qi : Z) (hdr : pktHdr) (chain : list Desc) (vm : VM VsockDevice) : proc (VM VsockDevice) :=
  let d := vm_dev vm in
  match vs_conns d !! hdr_key hdr with
  | None => sendReset hdr vm
  | Some id =>
      if h_Len hdr =? 0 then Ok vm
      else
        o ← gather_data qi (tail chain) vm [];
        match o with
        | None => Ok vm
        | Some data =>
            let data := if h_Len hdr <? zlen data then take (Z.to_nat (h_Len hdr)) data else data in
            c ← must (vs_heap d !! id);
            let '(n, err) := connWrite (vs_calls d) data in
            let out := c_out c ++ take (Z.to_nat n) data in
            let d := next_call d in
            if (err : bool) then
              let d := set_vheap d (<[id := mkConn (c_guestPort c) (c_hostPort c) (c_fwdCnt c) out true]> (vs_heap d)) in
              sendReset hdr (set_dev vm (set_maps d (delete (hdr_key hdr) (vs_conns d)) (vs_pending d)))
            else
              let fc := u32 (c_fwdCnt c + u32 n) in
              let d := set_vheap d (<[id := mkConn (c_guestPort c) (c_hostPort c) fc out (c_closed c)]> (vs_heap d)) in
              sendCreditUpdate (c_hostPort c) (c_guestPort c) fc (set_dev vm d)
        end
  end.

Definition handleDisconnect (hdr : pktHdr) (vm : VM VsockDevice) : proc (VM VsockDevice) :=
  let d := vm_dev vm in
  let c := vs_conns d !! hdr_key hdr in
  let pending := vs_pending d !! h_DstPort hdr in
  let vm := set_dev vm (set_maps d (delete (hdr_key hdr) (vs_conns d)) (delete (h_DstPort hdr) (vs_pending d))) in
  vm ← match c with
       | None => Ok vm
       | Some id => sendReset hdr (set_dev vm (close_conn id (vm_dev vm)))
       end;
  match pending with
  | None => Ok vm
  | Some pid =>
      p ← must (vs_pendHeap (vm_dev vm) !! pid);
      d ← send_ready pid false (close_conn (pc_conn p) (vm_dev vm));
      Ok (set_dev vm d)
  end.

(** [switch hdr.Op] *)
Definition dispatch (qi : Z) (hdr : pktHdr) (chain : list Desc) (vm : VM VsockDevice) : proc (VM VsockDevice) :=
  if h_Op hdr =? opRequest then handleConnect hdr vm
  else if h_Op hdr =? opResponse then handleResponse hdr vm
  else if h_Op hdr =? opRW then handleData qi hdr chain vm
  else if (h_Op hdr =? opShutdown) || (h_Op hdr =? opReset) then handleDisconnect hdr vm
  else Ok vm.

(** The callback of [IterAvail] in [processTX]. *)
Definition tx_packet (qi head : Z) (vm : VM VsockDevice) : proc (VM VsockDevice) :=
  o ← walk_chain qi head vm;
  match o with
  | None => push_used qi head 0 vm
  | Some [] => Ok vm
  | Some ((d :: _) as chain) =>
      if d_Len d <? hdrSize then push_used qi head 0 vm
      else
        b ← guest_read qi (d_Addr d) hdrSize vm;
        match b with
        | None => push_used qi head 0 vm
        | Some hdrBuf =>
            hdr ← parseHdr hdrBuf;
            vm ← dispatch qi hdr chain vm;
            push_used qi head 0 vm
        end
  end.

Definition processTX (qi : Z) (vm : VM VsockDevice) : proc (bool * VM VsockDevice) :=
  q ← must (the_queue vm qi);
  o ← attempt (IterAvail_collect q (vm_ram vm));
  match o with
  | None => Ok (false, vm)
  | Some (heads, q') =>
      vm ← for_each (tx_packet qi) heads (put_queue vm qi q');
      Ok (negb (bool_decide (heads = [])), vm)
  end.

Definition vsock_HandleQueue (i : Z) (vm : VM VsockDevice) : proc (VM VsockDevice) :=
  if i =? 1 then '(_, vm) ← processTX i vm; Ok vm else Ok vm.

Definition vsock_HandleQueueNotify (i : Z) (vm : VM VsockDevice) : proc (bool * VM VsockDevice) :=
  if negb (i =? 1) then Ok (false, vm) else processTX i vm.

#[export] Instance VsockDevice_Device : Device VsockDevice := {
  DeviceID _ := 19;
  DeviceFeatures _ := vsockFeatureInOrder;
  ConfigBytes _ := le_encode 8 GuestCID;
  HandleQueue := vsock_HandleQueue;
  WriteConfig := None;
  HandleQueueNotify := Some vsock_HandleQueueNotify;
  SharedMemoryRegion := None;
  OnTransportStateChange := None;
  OnTransportReset := None;
  ActivateLink := None
}.

Definition NewDevice (basePA irq : Z) (irqFn : bool) (r : Ram) : VM VsockDevice :=
  mkVM (mkVsock ∅ ∅ ∅ ∅ 1024 false [] 0 0) (NewTransport basePA irq irqFn) r.

(** ** The receive pump *)

(** The deferred function of [rxPump]. *)
Definition pump_exit (id : nat) (vm : VM VsockDevice) : proc (VM VsockDevice) :=
  let d := vm_dev vm in
  c ← must (vs_heap d !! id);
  Ok (set_dev vm (set_pumps (set_maps d (delete (c_guestPort c, c_hostPort c) (vs_conns d)) (vs_pending d))
                    (filter (λ x, x ≠ id) (vs_pumps d)))).

(** One iteration: the read returned [data] (at most 4096 bytes), and an error
    if [err]. *)
Definition pump_step (id : nat) (data : list Z) (err : bool) (vm : VM VsockDevice) : proc (VM VsockDevice) :=
  if vs_closed (vm_dev vm) then pump_exit id vm
  else
    c ← must (vs_heap (vm_dev vm) !! id);
    vm ← if 0 <? zlen data
         then '(vm, _) ← sendPkt HostCID GuestCID (c_hostPort c) (c_guestPort c) opRW data (c_fwdCnt c) vm; Ok vm
         else Ok vm;
    if err then
      '(vm, _) ← sendPkt HostCID GuestCID (c_hostPort c) (c_guestPort c) opShutdown [] 0 vm;
      pump_exit id vm
    else Ok vm.

(** ** Dialing the guest *)

(** Up to the insertion in [pending]; the result is the pending connection. *)
Definition dial_start (port : Z) (vm : VM VsockDevice) : proc (VM VsockDevice * nat) :=
  '(d, hostPort) ← allocateHostPort (vm_dev vm);
  let '(d, cid) := new_conn d (mkConn port hostPort 0 [] false) in
  let pid := vs_next d in
  let d := mkVsock (vs_heap d) (<[pid := mkPending cid []]> (vs_pendHeap d)) (vs_conns d)
             (<[hostPort := pid]> (vs_pending d)) (vs_nextHostPort d) (vs_closed d) (vs_pumps d)
             (S pid) (vs_calls d) in
  Ok (set_dev vm d, pid).

(** One try to send the request. *)
Definition dial_send (pid : nat) (vm : VM VsockDevice) : proc (VM VsockDevice * bool) :=
  p ← must (vs_pendHeap (vm_dev vm) !! pid);
  c ← must (vs_heap (vm_dev vm) !! pc_conn p);
  sendPkt HostCID GuestCID (c_hostPort c) (c_guestPort c) opRequest [] 0 vm.

(** The receive from [ready]: [None] when the channel is empty. *)
Definition dial_receive (pid : nat) (vm : VM VsockDevice) : proc (VM VsockDevice * option bool) :=
  p ← must (vs_pendHeap (vm_dev vm) !! pid);
  match pc_ready p with
  | [] => Ok (vm, None)
  | ok :: rest => Ok (set_dev vm (set_pendHeap (vm_dev vm) (<[pid := mkPending (pc_conn p) rest]> (vs_pendHeap (vm_dev vm)))),
                      Some ok)
  end.

Definition dial_timeout (pid : nat) (vm : VM VsockDevice) : proc (VM VsockDevice) :=
  let d := vm_dev vm in
  p ← must (vs_pendHeap d !! pid);
  c ← must (vs_heap d !! pc_conn p);
  Ok (set_dev vm (close_conn (pc_conn p) (set_maps d (vs_conns d) (delete (c_hostPort c) (vs_pending d))))).

(** ** Shutdown and snapshots *)
Definition vsock_Close (vm : VM VsockDevice) : proc (VM VsockDevice) :=
  let d := vm_dev vm in
  if vs_closed d then Ok vm
  else
    let conns := (map_to_list (vs_conns d)).*2 in
    let pending := (map_to_list (vs_pending d)).*2 in
    let d := set_maps (set_closed d true) ∅ ∅ in
    let d := foldl (λ d id, close_conn id d) d conns in
    d ← for_each (λ pid d, p ← must (vs_pendHeap d !! pid); try_send_ready pid false (close_conn (pc_conn p) d))
          pending d;
    Ok (set_dev vm d).

(** The callback on the event queue; the flag is [wrote]. *)
Definition quiesce_event (head : Z) (s : VM VsockDevice * bool) : proc (VM VsockDevice * bool) :=
  let '(vm, wrote) := s in
  o ← walk_chain 2 head vm;
  match o with
  | None | Some [] => vm ← push_used 2 head 0 vm; Ok (vm, wrote)
  | Some (d :: _) =>
      w ← guest_write 2 (d_Addr d) (le_encode 4 0) vm;
      match w with
      | None => vm ← push_used 2 head 0 vm; Ok (vm, wrote)
      | Some vm => vm ← push_used 2 head 4 vm; Ok (vm, true)
      end
  end.

(** [for _, c := range drained { injectPkt(..., opReset) }] *)
Definition quiesce_reset (id : nat) (s : VM VsockDevice * bool) : proc (VM VsockDevice * bool) :=
  let '(vm, needed) := s in
  c ← must (vs_heap (vm_dev vm) !! id);
  '(vm, ok) ← injectPkt HostCID GuestCID (c_hostPort c) (c_guestPort c) opReset vm;
  Ok (vm, needed || ok).

Definition QuiesceForSnapshot (vm : VM VsockDevice) : proc (VM VsockDevice) :=
  let drained := (map_to_list (vs_conns (vm_dev vm))).*2 in
  let vm := set_dev vm (set_maps (vm_dev vm) ∅ (vs_pending (vm_dev vm))) in
  rxQ ← must (the_queue vm 0);
  avail ← attempt (AvailIdx rxQ (vm_ram vm));
  let rxPresent := q_Ready rxQ && bool_decide (is_Some avail) in
  '(vm, needed) ← if rxPresent then for_each quiesce_reset drained (vm, false) else Ok (vm, false);
  eventQ ← must (the_queue vm 2);
  '(vm, wrote) ← if q_Ready eventQ then
                   o ← attempt (IterAvail_collect eventQ (vm_ram vm));
                   match o with
                   | None => Ok (vm, false)
                   | Some (heads, q') => for_each quiesce_event heads (put_queue vm 2 q', false)
                   end
                 else Ok (vm, false);
  let vm := if needed || wrote then set_tr vm (SignalIRQ (SetInterruptStat (vm_tr vm) 1) true) else vm in
  Ok (set_dev vm (foldl (λ d id, close_conn id d) (vm_dev vm) drained)).

(** ** Header round trip *)
Definition hdr_wf (h : pktHdr) : Prop :=
  fits 64 (h_SrcCID h) ∧ fits 64 (h_DstCID h) ∧ fits 32 (h_SrcPort h) ∧ fits 32 (h_DstPort h) ∧
  fits 32 (h_Len h) ∧ fits 16 (h_Type h) ∧ fits 16 (h_Op h) ∧ fits 32 (h_Flags h) ∧
  fits 32 (h_BufAlloc h) ∧ fits 32 (h_FwdCnt h).

Lemma marshalHdr_len h : zlen (marshalHdr h) = hdrSize.
Proof. unfold marshalHdr. by rewrite !zlen_app, !zlen_le_encode. Qed.

Lemma marshalHdr_bytes h : bytes (marshalHdr h).
Proof. unfold marshalHdr, bytes. rewrite !Forall_app. splits; apply le_encode_bytes. Qed.

Lemma parse_marshal h rest : hdr_wf h → parseHdr (marshalHdr h ++ rest) = Ok h.
Proof.
  intros (H0 & H1 & H2 & H3 & H4 & H5 & H6 & H7 & H8 & H9).
  set (fs := [(8%nat, h_SrcCID h); (8%nat, h_DstCID h); (4%nat, h_SrcPort h); (4%nat, h_DstPort h);
    (4%nat, h_Len h); (2%nat, h_Type h); (2%nat, h_Op h); (4%nat, h_Flags h); (4%nat, h_BufAlloc h);
    (4%nat, h_FwdCnt h)]).
  assert (marshalHdr h = encode_fields fs) as -> by reflexivity.
  unfold parseHdr.
  rewrite (getLE_fields fs 0 8 _ 0 rest eq_refl H0 eq_refl), (getLE_fields fs 1 8 _ 8 rest eq_refl H1 eq_refl),
    (getLE_fields fs 2 4 _ 16 rest eq_refl H2 eq_refl), (getLE_fields fs 3 4 _ 20 rest eq_refl H3 eq_refl),
    (getLE_fields fs 4 4 _ 24 rest eq_refl H4 eq_refl), (getLE_fields fs 5 2 _ 28 rest eq_refl H5 eq_refl),
    (getLE_fields fs 6 2 _ 30 rest eq_refl H6 eq_refl), (getLE_fields fs 7 4 _ 32 rest eq_refl H7 eq_refl),
    (getLE_fields fs 8 4 _ 36 rest eq_refl H8 eq_refl), (getLE_fields fs 9 4 _ 40 rest eq_refl H9 eq_refl).
  by destruct h.
Qed.

(** ** Host ports *)
Definition ports_used (d : VsockDevice) : list Z :=
  (map_to_list (vs_pending d)).*1 ++ (snd <$> (map_to_list (vs_conns d)).*1).

Lemma port_in_use_spec d port : port_in_use d port = true ↔ port ∈ ports_used d.
Proof.
  unfold port_in_use, ports_used. rewrite orb_true_iff, bool_decide_eq_true, elem_of_app. f_equiv.
  - rewrite list_elem_of_fmap. split.
    + intros [pid Hp]. exists (port, pid). split; [done|]. by apply elem_of_map_to_list.
    + intros ([x pid] & -> & Hp%elem_of_map_to_list). by eexists.
  - rewrite existsb_exists, list_elem_of_fmap. split.
    + intros (x & Hx & Heq%Z.eqb_eq). exists x.1. split; [done|]. apply list_elem_of_fmap_2. by apply list_elem_of_In.
    + intros (y & -> & (x & -> & Hx)%list_elem_of_fmap). exists x. split; [by apply list_elem_of_In|apply Z.eqb_refl].
Qed.

Lemma ports_used_length d : length (ports_used d) = (size (vs_pending d) + size (vs_conns d))%nat.
Proof. unfold ports_used. by rewrite length_app, !length_fmap, !length_map_to_list. Qed.

Definition port_wf (port : Z) : Prop := 1024 ≤ port < 2 ^ 32.

Lemma succ_port_wf port : port_wf port → port_wf (succ_port port).
Proof.
  unfold port_wf, succ_port. intros Hp. destruct (decide (port = 2 ^ 32 - 1)) as [->|Hne]; [done|].
  rewrite u32_small by lia. eq_is false. lia.
Qed.

(** The [k]-th port that the loop looks at. *)
Definition nth_port (port k : Z) : Z := 1024 + (port - 1024 + k) mod (2 ^ 32 - 1024).

Lemma nth_port_succ port k : port_wf port → 0 ≤ k → nth_port (succ_port port) k = nth_port port (k + 1).
Proof.
  unfold port_wf, succ_port, nth_port. intros Hp Hk. destruct (decide (port = 2 ^ 32 - 1)) as [->|Hne].
  - replace (u32 (2 ^ 32 - 1 + 1)) with 0 by done. cbn [Z.eqb].
    replace (2 ^ 32 - 1 - 1024 + (k + 1)) with (1024 - 1024 + k + 1 * (2 ^ 32 - 1024)) by lia.
    by rewrite Z_mod_plus_full.
  - rewrite u32_small by lia. eq_is false. f_equal. f_equal. lia.
Qed.

Lemma nth_port_0 port : port_wf port → nth_port port 0 = port.
Proof. unfold port_wf, nth_port. intros. rewrite Z.mod_small by lia. lia. Qed.

Lemma nth_port_inj port i j :
  port_wf port → 0 ≤ i < 2 ^ 32 - 1024 → 0 ≤ j < 2 ^ 32 - 1024 → nth_port port i = nth_port port j → i = j.
Proof.
  unfold port_wf, nth_port. intros Hp Hi Hj H.
  pose proof (Z.div_mod (port - 1024 + i) (2 ^ 32 - 1024) ltac:(lia)).
  pose proof (Z.div_mod (port - 1024 + j) (2 ^ 32 - 1024) ltac:(lia)). nia.
Qed.

(** With [n] units of fuel the loop finds a free port, or the first [n] ports
    are all in use. *)
Lemma allocate_loop_spec n d :
  port_wf (vs_nextHostPort d) →
  (∃ k : nat, (k < n)%nat ∧ (let port := nth_port (vs_nextHostPort d) (Z.of_nat k) in
     port ∉ ports_used d ∧ allocate_loop n d = Ok (set_port d (succ_port port), port))) ∨
  (∀ k : nat, (k < n)%nat → nth_port (vs_nextHostPort d) (Z.of_nat k) ∈ ports_used d).
Proof.
  revert d. induction n as [|n IH]; intros d Hp; [right; lia|]. cbn [allocate_loop].
  set (port := vs_nextHostPort d). set (d1 := set_port d (succ_port port)).
  destruct (port_in_use d1 port) eqn:Huse.
  - apply port_in_use_spec in Huse. change (ports_used d1) with (ports_used d) in Huse.
    destruct (IH d1) as [(k & Hk & Hfree & Hrun)|Hall]; [by apply succ_port_wf|left|right].
    + exists (S k). cbn zeta in *. change (vs_nextHostPort d1) with (succ_port port) in *.
      rewrite nth_port_succ in Hfree, Hrun by (done || lia).
      replace (Z.of_nat (S k)) with (Z.of_nat k + 1) by lia. splits; [lia|done|exact Hrun].
    + intros [|k] Hk; [rewrite nth_port_0; done|].
      specialize (Hall k ltac:(lia)). change (vs_nextHostPort d1) with (succ_port port) in Hall.
      rewrite nth_port_succ in Hall by (done || lia). replace (Z.of_nat (S k)) with (Z.of_nat k + 1) by lia. done.
  - left. exists 0%nat. cbn zeta. change (Z.of_nat 0) with 0. fold port. rewrite nth_port_0 by done.
    splits; [lia| |done]. rewrite <- port_in_use_spec. change (port_in_use d port) with (port_in_use d1 port).
    by rewrite Huse.
Qed.

Lemma allocate_ok d :
  port_wf (vs_nextHostPort d) → Z.of_nat (size (vs_pending d) + size (vs_conns d)) < 2 ^ 32 - 1024 →
  ∃ port, allocateHostPort d = Ok (set_port d (succ_port port), port) ∧ port ∉ ports_used d ∧ port_wf port.
Proof.
  intros Hp Hs. unfold allocateHostPort.
  destruct (allocate_loop_spec (S (size (vs_pending d) + size (vs_conns d))) d Hp) as [(k & _ & Hfree & Hrun)|Hall].
  - eexists. splits; [exact Hrun|done|]. unfold port_wf, nth_port.
    pose proof (Z.mod_pos_bound (vs_nextHostPort d - 1024 + Z.of_nat k) (2 ^ 32 - 1024)). lia.
  - exfalso. set (n := (size (vs_pending d) + size (vs_conns d))%nat) in *.
    set (l := (λ k : nat, nth_port (vs_nextHostPort d) (Z.of_nat k)) <$> seq 0 (S n)).
    assert (l ⊆+ ports_used d) as Hsub.
    { apply NoDup_submseteq.
      - apply NoDup_fmap_2_strong; [|apply NoDup_seq]. intros i j Hi%elem_of_seq Hj%elem_of_seq He.
        apply nth_port_inj in He; [lia|done|lia|lia].
      - intros x (k & -> & Hk%elem_of_seq)%list_elem_of_fmap. apply Hall. lia. }
    apply submseteq_length in Hsub. unfold l in Hsub. rewrite length_fmap, length_seq, ports_used_length in Hsub.
    unfold n in Hsub. lia.
Qed.

(** ** The invariant

    The maps point to objects; a connection that is pending has its host port
    as key and an empty channel, so at most one message is ever sent to it. *)
Definition vs_wf (d : VsockDevice) : Prop :=
  (∀ k id, vs_conns d !! k = Some id → is_Some (vs_heap d !! id)) ∧
  (∀ port pid, vs_pending d !! port = Some pid →
     ∃ p c, vs_pendHeap d !! pid = Some p ∧ pc_ready p = [] ∧ vs_heap d !! pc_conn p = Some c ∧ c_hostPort c = port) ∧
  (∀ pid p, vs_pendHeap d !! pid = Some p → (length (pc_ready p) ≤ 1)%nat ∧ is_Some (vs_heap d !! pc_conn p)) ∧
  (∀ id, is_Some (vs_heap d !! id) → (id < vs_next d)%nat) ∧
  (∀ pid, is_Some (vs_pendHeap d !! pid) → (pid < vs_next d)%nat) ∧
  (∀ id, id ∈ vs_pumps d → is_Some (vs_heap d !! id)) ∧
  port_wf (vs_nextHostPort d).

(** Heap updates that keep objects and their host ports. *)
Lemma heap_wf d h :
  (∀ id c, vs_heap d !! id = Some c → ∃ c', h !! id = Some c' ∧ c_hostPort c' = c_hostPort c) →
  (∀ id, is_Some (h !! id) → is_Some (vs_heap d !! id)) → vs_wf d → vs_wf (set_vheap d h).
Proof.
  intros Hup Hdown (W1 & W2 & W3 & W4 & W5 & W6 & W7).
  assert (∀ id, is_Some (vs_heap d !! id) → is_Some (h !! id)) as Hs
    by (intros id [c Hc]; destruct (Hup _ _ Hc) as (c' & ? & _); by eexists).
  unfold vs_wf. cbn. splits; try done; eauto.
  - intros port pid Hp. destruct (W2 _ _ Hp) as (p & c & H1 & H2 & H3 & H4).
    destruct (Hup _ _ H3) as (c' & H5 & H6). exists p, c'. splits; try done. congruence.
  - intros pid p Hp. destruct (W3 _ _ Hp). eauto.
Qed.

Lemma insert_heap_wf d id c c' :
  vs_heap d !! id = Some c → c_hostPort c' = c_hostPort c → vs_wf d → vs_wf (set_vheap d (<[id := c']> (vs_heap d))).
Proof.
  intros Hc Hp. apply heap_wf; intros i.
  - intros c0 H0. destruct (decide (i = id)) as [->|]; [rewrite lookup_insert_eq|rewrite lookup_insert_ne by done]; [|eauto].
    exists c'. split; [done|]. congruence.
  - destruct (decide (i = id)) as [->|]; [by eauto|by rewrite lookup_insert_ne by done].
Qed.

Lemma close_conn_wf id d : vs_wf d → vs_wf (close_conn id d).
Proof.
  apply heap_wf; intros i.
  - intros c Hc. destruct (decide (i = id)) as [->|]; [rewrite lookup_alter_eq, Hc; cbn; eauto|].
    rewrite lookup_alter_ne by done. eauto.
  - destruct (decide (i = id)) as [->|]; [rewrite lookup_alter_eq; by rewrite fmap_is_Some|by rewrite lookup_alter_ne by done].
Qed.

(** Smaller maps. *)
Lemma maps_wf d cs ps :
  (∀ k id, cs !! k = Some id → is_Some (vs_heap d !! id)) → ps ⊆ vs_pending d → vs_wf d → vs_wf (set_maps d cs ps).
Proof.
  intros Hc Hp (W1 & W2 & W3 & W4 & W5 & W6 & W7). unfold vs_wf. cbn. splits; try done.
  intros port pid Hpp. eapply W2, lookup_weaken; done.
Qed.

Lemma delete_conns_wf d k : vs_wf d → ∀ k' id, delete k (vs_conns d) !! k' = Some id → is_Some (vs_heap d !! id).
Proof. intros Hw k' id [_ H]%lookup_delete_Some. by apply Hw in H. Qed.

Lemma insert_conns_wf d k id :
  vs_wf d → is_Some (vs_heap d !! id) → ∀ k' id', <[k := id]> (vs_conns d) !! k' = Some id' → is_Some (vs_heap d !! id').
Proof. intros Hw Hid k' id' [[_ <-]|[_ H]]%lookup_insert_Some; [done|by apply Hw in H]. Qed.

Lemma pumps_wf d ps : (∀ id, id ∈ ps → is_Some (vs_heap d !! id)) → vs_wf d → vs_wf (set_pumps d ps).
Proof. intros H (W1 & W2 & W3 & W4 & W5 & W6 & W7). unfold vs_wf. cbn. by splits. Qed.

Lemma new_conn_wf d c : vs_wf d → vs_wf (new_conn d c).1 ∧ vs_heap (new_conn d c).1 !! vs_next d = Some c ∧
  (∀ id, is_Some (vs_heap d !! id) → is_Some (vs_heap (new_conn d c).1 !! id)).
Proof.
  intros (W1 & W2 & W3 & W4 & W5 & W6 & W7). cbn.
  assert (∀ id c0, vs_heap d !! id = Some c0 → <[vs_next d := c]> (vs_heap d) !! id = Some c0) as Hk.
  { intros id c0 H0. rewrite lookup_insert_ne; [done|]. assert (id < vs_next d)%nat by (apply W4; by eexists). lia. }
  assert (∀ id, is_Some (vs_heap d !! id) → is_Some (<[vs_next d := c]> (vs_heap d) !! id)) as Hks
    by (intros id [c0 H0]; rewrite (Hk _ _ H0); by eexists).
  splits; [|by rewrite lookup_insert_eq|done]. unfold vs_wf. cbn. splits; eauto.
  - intros port pid Hp. destruct (W2 _ _ Hp) as (p & c0 & ? & ? & ? & ?). exists p, c0. eauto.
  - intros pid p Hp. destruct (W3 _ _ Hp). eauto.
  - intros id. destruct (decide (id = vs_next d)) as [->|]; [lia|]. rewrite lookup_insert_ne by done. intros H%W4. lia.
  - intros pid H%W5. lia.
Qed.

(** A send to a pending connection that was taken out of the map. *)
Lemma send_ready_wf pid ok p d :
  vs_wf d → vs_pendHeap d !! pid = Some p → pc_ready p = [] → (∀ port, vs_pending d !! port ≠ Some pid) →
  ∃ d', send_ready pid ok d = Ok d' ∧ try_send_ready pid ok d = Ok d' ∧ vs_wf d' ∧
    vs_heap d' = vs_heap d ∧ vs_pumps d' = vs_pumps d ∧ vs_pending d' = vs_pending d ∧
    (∀ i, i ≠ pid → vs_pendHeap d' !! i = vs_pendHeap d !! i).
Proof.
  intros (W1 & W2 & W3 & W4 & W5 & W6 & W7) Hp Hr Hn. unfold send_ready, try_send_ready. rewrite Hp. cbn. rewrite Hr.
  eexists. splits; [done|done| |done..|by intros i Hi; cbn; rewrite lookup_insert_ne].
  unfold vs_wf. cbn. splits; try done.
  - intros port pid' Hp'. rewrite lookup_insert_ne by (intros <-; by apply (Hn port)). by apply W2.
  - intros i q. destruct (decide (i = pid)) as [->|]; [rewrite lookup_insert_eq|rewrite lookup_insert_ne by done; apply W3].
    intros [= <-]. cbn. split; [lia|]. by apply (W3 _ _ Hp).
  - intros i. destruct (decide (i = pid)) as [->|]; [|rewrite lookup_insert_ne by done; apply W5].
    intros _. apply W5. by eexists.
Qed.

(** Two pending connections have different keys. *)
Lemma pending_inj d port port' pid :
  vs_wf d → vs_pending d !! port = Some pid → vs_pending d !! port' = Some pid → port = port'.
Proof.
  intros (_ & W2 & _) H1 H2. destruct (W2 _ _ H1) as (p & c & ? & _ & ? & <-).
  destruct (W2 _ _ H2) as (p' & c' & ? & _ & ? & <-). congruence.
Qed.

(** ** Sending keeps the device *)
Lemma rx_put_sat (P : VsockDevice → Prop) payload head vm :
  bytes payload → zlen payload < 2 ^ 32 → fits 16 head → machine_inv P vm →
  res_sat (λ p, machine_inv P p.1 ∧ True) (rx_put payload head vm).
Proof.
  intros Hb Hz Hh Hi. unfold rx_put.
  assert (fits 32 head) by (eapply fits_mono; [done|lia]).
  assert (0 ≤ 0 < 8) as H08 by lia.
  eapply res_sat_bind; [by eapply (walk_chain_sat P)|]. intros [chain|] _ Hc.
  - destruct Hc as (_ & _ & Hw & _). eapply res_sat_bind; [by apply (rx_loop_sat P)|].
    intros s _ [Hs Hwr]. eapply res_sat_bind; [by apply (push_used_sat P)|]. by intros vm' _ ?.
  - eapply res_sat_bind; [by apply (push_used_sat P)|]. by intros vm' _ ?.
Qed.

(** The payload of a packet: at most one read of a pump. *)
Definition small_data (data : list Z) : Prop := bytes data ∧ zlen data ≤ 4096.

Lemma sendPkt_sat_gen (P : VsockDevice → Prop) sc dc sp dp op data fc vm :
  small_data data → machine_inv P vm → res_sat (λ p, machine_inv P p.1) (sendPkt sc dc sp dp op data fc vm).
Proof.
  intros [Hb Hz] Hi. unfold sendPkt. destruct (the_queue vm 0) as [q|]; [|done].
  destruct (negb _); [done|]. set (payload := _ ++ data).
  assert (bytes payload) as Hpb by (apply Forall_app; split; [apply marshalHdr_bytes|done]).
  assert (zlen payload < 2 ^ 32) as Hpz by (unfold payload; rewrite zlen_app, marshalHdr_len; unfold hdrSize; lia).
  pose proof (ConsumeAvail_sat P (λ _ : unit, True) 0 (rx_put payload) vm Hi ltac:(lia)
    (λ h vm' Hh Hv, rx_put_sat P payload h vm' Hpb Hpz Hh Hv)) as Hsat.
  destruct (ConsumeAvail 0 (rx_put payload) vm) as [[vm' [u|]]|e| |]; cbn in Hsat |- *; try done.
  - apply raise_irq_inv; [apply Hsat|done..].
  - apply Hsat.
Qed.

Lemma same_dev (P : VsockDevice → Prop) vm : machine_inv P vm → machine_inv (λ d, P d ∧ d = vm_dev vm) vm.
Proof. unfold machine_inv. tauto. Qed.

Lemma sendPkt_sat (P : VsockDevice → Prop) sc dc sp dp op data fc vm :
  small_data data → machine_inv P vm →
  res_sat (λ p, machine_inv P p.1 ∧ vm_dev p.1 = vm_dev vm) (sendPkt sc dc sp dp op data fc vm).
Proof.
  intros Hd Hi. eapply res_sat_mono; [apply sendPkt_sat_gen; [done|by apply same_dev]|].
  intros p (H1 & H2 & H3 & H4 & H5). done.
Qed.

Lemma no_data : small_data [].
Proof. split; [constructor|done]. Qed.

Lemma sendReset_sat (P : VsockDevice → Prop) hdr vm :
  machine_inv P vm → res_sat (λ vm', machine_inv P vm' ∧ vm_dev vm' = vm_dev vm) (sendReset hdr vm).
Proof.
  intros Hi. unfold sendReset. eapply res_sat_bind; [apply sendPkt_sat; [apply no_data|done]|]. by intros [vm' b] _ ?.
Qed.

Lemma sendCreditUpdate_sat (P : VsockDevice → Prop) hp gp fc vm :
  machine_inv P vm → res_sat (λ vm', machine_inv P vm' ∧ vm_dev vm' = vm_dev vm) (sendCreditUpdate hp gp fc vm).
Proof.
  intros Hi. unfold sendCreditUpdate. eapply res_sat_bind; [apply sendPkt_sat; [apply no_data|done]|].
  by intros [vm' b] _ ?.
Qed.

(** ** The handlers *)
Lemma handleConnect_sat hdr vm : machine_inv vs_wf vm → res_sat (machine_inv vs_wf) (handleConnect hdr vm).
Proof.
  intros Hi. unfold handleConnect. destruct listenFn as [listen|];
    [|by eapply res_sat_mono; [by apply (sendReset_sat vs_wf)|intros ? []]].
  assert (vs_wf (next_call (vm_dev vm))) as Hn by apply Hi.
  assert (machine_inv vs_wf (set_dev vm (next_call (vm_dev vm)))) as Hi1 by (by apply set_dev_inv).
  destruct (negb _); [by eapply res_sat_mono; [by apply (sendReset_sat vs_wf)|intros ? []]|].
  set (c := mkConn _ _ _ _ _). set (d0 := next_call (vm_dev vm)) in *.
  change (vm_dev (set_dev vm d0)) with d0. destruct (new_conn_wf d0 c Hn) as (Hw & Hc & _).
  destruct (new_conn d0 c) as [d id] eqn:Hnew. injection Hnew as Hd Hid. cbn [fst] in Hw, Hc.
  destruct (vs_closed d); [apply set_dev_inv; [done|by apply close_conn_wf]|].
  set (d1 := set_maps d _ _).
  assert (is_Some (vs_heap d !! id)) as Hids by (exists c; rewrite <- Hid; exact Hc).
  assert (vs_wf d1) as Hw1 by (apply maps_wf; [by apply insert_conns_wf|done|done]).
  eapply res_sat_bind; [apply (sendPkt_sat vs_wf); [apply no_data|by apply set_dev_inv]|].
  intros [vm' b] _ [Hi' Hdev]. cbn in Hi', Hdev |- *. apply set_dev_inv; [done|]. rewrite Hdev.
  apply pumps_wf; [|done]. intros i [Hi2|Hi2%list_elem_of_singleton]%elem_of_app; [by apply Hw1|by subst i].
Qed.

Lemma take_pending_wf d port pid cs :
  vs_wf d → vs_pending d !! port = Some pid →
  (∀ k id, cs !! k = Some id → is_Some (vs_heap d !! id)) →
  vs_wf (set_maps d cs (delete port (vs_pending d))) ∧
  (∀ port', vs_pending (set_maps d cs (delete port (vs_pending d))) !! port' ≠ Some pid).
Proof.
  intros Hw Hp Hcs. split; [apply maps_wf; [done|apply delete_subseteq|done]|].
  cbn. intros port' [Hne Hp']%lookup_delete_Some. apply Hne. by eapply pending_inj.
Qed.

Lemma handleResponse_sat hdr vm : machine_inv vs_wf vm → res_sat (machine_inv vs_wf) (handleResponse hdr vm).
Proof.
  intros Hi. assert (vs_wf (vm_dev vm)) as Hw by apply Hi. unfold handleResponse. set (d := vm_dev vm) in *.
  destruct (vs_pending d !! h_DstPort hdr) as [pid|] eqn:Hp; [|done].
  pose proof Hw as (_ & W2 & _). destruct (W2 _ _ Hp) as (p & c & Hpid & Hr & Hc & _). rewrite Hpid. cbn [must mbind res_bind].
  destruct (take_pending_wf d (h_DstPort hdr) pid (<[hdr_key hdr := pc_conn p]> (vs_conns d)) Hw Hp) as [Hw1 Hn1];
    [apply insert_conns_wf; [done|by eexists]|].
  set (d1 := set_maps d _ _) in *. destruct (vs_closed d1).
  - destruct (send_ready_wf pid false p (close_conn (pc_conn p) d1)) as (d2 & -> & _ & Hw2 & _);
      [by apply close_conn_wf|done..|]. by apply set_dev_inv.
  - destruct (send_ready_wf pid true p d1) as (d2 & -> & _ & Hw2 & Hh2 & Hpm & _); [done..|].
    cbn. apply set_dev_inv; [done|]. apply pumps_wf; [|done].
    intros i [Hi2|Hi2%list_elem_of_singleton]%elem_of_app; [by apply Hw2|]. subst i. rewrite Hh2. by eexists.
Qed.

Lemma handleDisconnect_sat hdr vm : machine_inv vs_wf vm → res_sat (machine_inv vs_wf) (handleDisconnect hdr vm).
Proof.
  intros Hi. assert (vs_wf (vm_dev vm)) as Hw by apply Hi. unfold handleDisconnect. set (d := vm_dev vm) in *. cbv zeta.
  set (d1 := set_maps d _ _).
  assert (vs_wf d1) as Hw1 by (apply maps_wf; [by apply delete_conns_wf|apply delete_subseteq|done]).
  set (vm1 := set_dev vm d1). assert (machine_inv vs_wf vm1) as Hi1 by (by apply set_dev_inv).
  eapply res_sat_bind with (λ vm', machine_inv vs_wf vm' ∧ vs_pendHeap (vm_dev vm') = vs_pendHeap d ∧
    vs_pending (vm_dev vm') = vs_pending d1 ∧ ∀ id, is_Some (vs_heap d !! id) → is_Some (vs_heap (vm_dev vm') !! id)).
  - destruct (vs_conns d !! hdr_key hdr) as [id|]; [|done].
    eapply res_sat_mono; [apply (sendReset_sat vs_wf); apply set_dev_inv; [done|by apply close_conn_wf]|].
    intros vm' [Hi' Hd']. rewrite Hd'. splits; [done..|]. intros i Hii. cbn.
    destruct (decide (i = id)) as [->|]; [rewrite lookup_alter_eq; by rewrite fmap_is_Some|by rewrite lookup_alter_ne].
  - intros vm' _ (Hi' & Hph & Hpe & Hhp). destruct (vs_pending d !! h_DstPort hdr) as [pid|] eqn:Hp; [|done].
    pose proof Hw as (_ & W2 & _). destruct (W2 _ _ Hp) as (p & c & Hpid & Hr & Hc & _).
    rewrite Hph, Hpid. cbn [must mbind res_bind].
    assert (vs_wf (vm_dev vm')) as Hw' by apply Hi'.
    destruct (take_pending_wf d (h_DstPort hdr) pid (vs_conns d1) Hw Hp) as [_ Hn1]; [by apply delete_conns_wf|].
    destruct (send_ready_wf pid false p (close_conn (pc_conn p) (vm_dev vm'))) as (d2 & -> & _ & Hw2 & _);
      [by apply close_conn_wf|cbn; by rewrite Hph|done|cbn; by rewrite Hpe|]. by apply set_dev_inv.
Qed.

Lemma gather_data_sat (P : VsockDevice → Prop) qi chain vm data :
  0 ≤ qi < 8 → Forall desc_wf chain → machine_inv P vm → res_sat (λ _, True) (gather_data qi chain vm data).
Proof.
  intros Hqi Hw Hi. revert data. induction Hw as [|d ds (Ha & Hl & _) Hds IH]; intros data; [done|]. cbn [gather_data].
  eapply res_sat_bind; [apply (guest_read_sat P); [done..|eapply fits_mono; [exact Hl|lia]]|].
  intros [buf|] _ _; [apply IH|done].
Qed.

Lemma handleData_sat qi hdr chain vm :
  0 ≤ qi < 8 → Forall desc_wf chain → machine_inv vs_wf vm →
  res_sat (machine_inv vs_wf) (handleData qi hdr chain vm).
Proof.
  intros Hqi Hch Hi. assert (vs_wf (vm_dev vm)) as Hw by apply Hi. unfold handleData. set (d := vm_dev vm) in *. cbv zeta.
  destruct (vs_conns d !! hdr_key hdr) as [id|] eqn:Hc;
    [|by eapply res_sat_mono; [by apply (sendReset_sat vs_wf)|intros ? []]].
  destruct (h_Len hdr =? 0); [done|].
  eapply res_sat_bind; [apply (gather_data_sat vs_wf); [done|destruct chain; [done|by apply Forall_cons in Hch as []]|done]|].
  intros [data|] _ _; [|done]. pose proof Hw as (W1 & _). destruct (W1 _ _ Hc) as [c Hh]. rewrite Hh.
  cbn [must mbind res_bind]. destruct (connWrite (vs_calls d) _) as [n err].
  assert (vs_wf (next_call d)) as Hn by exact Hw. destruct err.
  - eapply res_sat_mono; [apply (sendReset_sat vs_wf)|by intros ? []]. apply set_dev_inv; [done|].
    set (d1 := set_vheap _ _). assert (vs_wf d1) as Hw1 by (by eapply insert_heap_wf).
    apply maps_wf; [by apply delete_conns_wf|done|done].
  - eapply res_sat_mono; [apply (sendCreditUpdate_sat vs_wf)|by intros ? []]. apply set_dev_inv; [done|].
    by eapply insert_heap_wf.
Qed.

Lemma parseHdr_sat b : zlen b = hdrSize → res_sat (λ _, True) (parseHdr b).
Proof.
  intros Hb. unfold parseHdr, hdrSize in *.
  assert (∀ n o, 0 ≤ o → o + Z.of_nat n ≤ 44 → is_Some (getLE n b o)) as Hok by (intros; apply getLE_ok; lia).
  repeat match goal with |- context [getLE ?n b ?o] => destruct (Hok n o) as [? ->]; [lia|lia|]; cbn [must mbind res_bind] end.
  done.
Qed.

Lemma dispatch_sat qi hdr chain vm :
  0 ≤ qi < 8 → Forall desc_wf chain → machine_inv vs_wf vm →
  res_sat (machine_inv vs_wf) (dispatch qi hdr chain vm).
Proof.
  intros Hqi Hch Hi. unfold dispatch. repeat case_match; [by apply handleConnect_sat|by apply handleResponse_sat|
    by apply handleData_sat|by apply handleDisconnect_sat|done].
Qed.

Lemma tx_packet_sat qi head vm :
  0 ≤ qi < 8 → fits 16 head → machine_inv vs_wf vm → res_sat (machine_inv vs_wf) (tx_packet qi head vm).
Proof.
  intros Hqi Hh Hi. unfold tx_packet. assert (fits 32 head) by (eapply fits_mono; [done|lia]). assert (fits 32 0) by done.
  eapply res_sat_bind; [by eapply (walk_chain_sat vs_wf)|]. intros [[|d chain]|] _ Hc; [done| |by apply push_used_sat].
  destruct Hc as (_ & _ & Hw & _). pose proof Hw as Hw'. apply Forall_cons in Hw' as [(Ha & _) _].
  destruct (d_Len d <? hdrSize); [by apply push_used_sat|].
  eapply res_sat_bind; [by apply (guest_read_sat vs_wf)|]. intros [b|] _ Hb; [|by apply push_used_sat].
  destruct Hb as [_ Hz]. eapply res_sat_bind; [by apply parseHdr_sat|]. intros hdr _ _.
  eapply res_sat_bind; [by apply dispatch_sat|]. intros vm' _ Hi'. by apply push_used_sat.
Qed.

Lemma processTX_sat qi vm :
  0 ≤ qi < 8 → machine_inv vs_wf vm → res_sat (λ p, machine_inv vs_wf p.2) (processTX qi vm).
Proof.
  intros Hqi Hi. pose proof (IterAvail_sat vs_wf qi (tx_packet qi) vm Hi Hqi
    (λ h vm Hh Hv, tx_packet_sat qi h vm Hqi Hh Hv)) as Hsat.
  unfold processTX. unfold IterAvail in Hsat.
  destruct (the_queue_ok vm qi) as (q & Hq & Hqw); [apply Hi|done|]. rewrite Hq in Hsat |- *.
  cbn [must mbind res_bind] in Hsat |- *.
  destruct (IterAvail_collect q (vm_ram vm)) as [[heads q']|e| |]; cbn in Hsat |- *; try done.
  destruct (for_each _ _ _) as [vm'|[]| |]; done.
Qed.

#[export] Instance VsockDevice_Laws : DeviceLaws VsockDevice.
Proof.
  refine {| dev_wf := vs_wf |}; try done.
  - intros i vm Hii Hi. cbn. unfold vsock_HandleQueue. destruct (i =? 1); [|done].
    eapply res_sat_bind; [by apply processTX_sat|by intros [? ?] _ ?].
  - intros f i vm [= <-] Hii Hi. unfold vsock_HandleQueueNotify. destruct (negb _); [done|by apply processTX_sat].
Defined.

(** ** The host side *)
Lemma pump_exit_sat id vm :
  is_Some (vs_heap (vm_dev vm) !! id) → machine_inv vs_wf vm → res_sat (machine_inv vs_wf) (pump_exit id vm).
Proof.
  intros [c Hc] Hi. assert (vs_wf (vm_dev vm)) as Hw by apply Hi. unfold pump_exit. rewrite Hc. cbn.
  apply set_dev_inv; [done|]. apply pumps_wf.
  - intros i [_ H]%list_elem_of_filter. cbn. by apply Hw.
  - apply maps_wf; [by apply delete_conns_wf|done|done].
Qed.

Lemma pump_step_sat id data err vm :
  small_data data → id ∈ vs_pumps (vm_dev vm) → machine_inv vs_wf vm →
  res_sat (machine_inv vs_wf) (pump_step id data err vm).
Proof.
  intros Hd Hid Hi. assert (is_Some (vs_heap (vm_dev vm) !! id)) as Hs by (destruct Hi as (_ & _ & _ & Hw); by apply Hw).
  unfold pump_step. destruct (vs_closed _); [by apply pump_exit_sat|]. destruct Hs as [c Hc]. rewrite Hc.
  cbn [must mbind res_bind].
  eapply res_sat_bind with (λ vm', machine_inv vs_wf vm' ∧ vm_dev vm' = vm_dev vm).
  - destruct (0 <? zlen data); [|done]. eapply res_sat_bind; [by apply (sendPkt_sat vs_wf)|]. by intros [? ?] _ ?.
  - intros vm1 _ [Hi1 Hd1]. destruct err; [|done].
    eapply res_sat_bind; [apply (sendPkt_sat vs_wf); [apply no_data|done]|]. intros [vm2 b] _ [Hi2 Hd2].
    apply pump_exit_sat; [|done]. cbn in Hd2. rewrite Hd2, Hd1. by eexists.
Qed.

Lemma dial_start_sat port vm :
  Z.of_nat (size (vs_pending (vm_dev vm)) + size (vs_conns (vm_dev vm))) < 2 ^ 32 - 1024 → machine_inv vs_wf vm →
  res_sat (λ p, machine_inv vs_wf p.1 ∧ is_Some (vs_pendHeap (vm_dev p.1) !! p.2)) (dial_start port vm).
Proof.
  intros Hs Hi. assert (vs_wf (vm_dev vm)) as Hw by apply Hi. unfold dial_start. set (d := vm_dev vm) in *.
  destruct (allocate_ok d) as (hp & -> & Hfree & Hhp); [apply Hw|done|]. cbn [mbind res_bind].
  set (d0 := set_port d (succ_port hp)).
  assert (vs_wf d0) as Hw0.
  { destruct Hw as (W1 & W2 & W3 & W4 & W5 & W6 & W7). unfold vs_wf. cbn. splits; try done. by apply succ_port_wf. }
  set (c := mkConn port hp 0 [] false). destruct (new_conn_wf d0 c Hw0) as ((W1 & W2 & W3 & W4 & W5 & W6 & W7) & Hc & _).
  cbn in W1, W2, W3, W4, W5, W6, W7, Hc |- *. split; [|by rewrite lookup_insert_eq]. apply set_dev_inv; [done|].
  assert (∀ i, is_Some (vs_pendHeap d !! i) → i ≠ S (vs_next d)) as Hne by (intros i Hii%W5; lia).
  unfold vs_wf. cbn. splits; try done.
  - intros port' pid [[-> <-]|[Hpp Hp]]%lookup_insert_Some.
    + exists (mkPending (vs_next d) []), c. rewrite lookup_insert_eq. by splits.
    + destruct (W2 _ _ Hp) as (p & c' & H1 & H2 & H3 & H4). exists p, c'.
      rewrite lookup_insert_ne by (apply not_eq_sym, Hne; by eexists). by splits.
  - intros pid p [[<- <-]|[_ Hp]]%lookup_insert_Some; [cbn; split; [lia|by eexists]|exact (W3 _ _ Hp)].
  - intros id Hid%W4. lia.
  - intros pid [p [[<- _]|[_ Hp]]%lookup_insert_Some]; [lia|]. assert (pid < S (vs_next d))%nat by (apply W5; by eexists). lia.
Qed.

(** Taking the message out of a channel. *)
Lemma dial_receive_sat pid vm :
  is_Some (vs_pendHeap (vm_dev vm) !! pid) → machine_inv vs_wf vm →
  res_sat (λ p, machine_inv vs_wf p.1) (dial_receive pid vm).
Proof.
  intros [p Hp] Hi. assert (vs_wf (vm_dev vm)) as (W1 & W2 & W3 & W4 & W5 & W6 & W7) by apply Hi.
  unfold dial_receive. rewrite Hp. cbn [must mbind res_bind].
  destruct (pc_ready p) as [|ok rest] eqn:Hr; [done|]. apply set_dev_inv; [done|].
  destruct (W3 _ _ Hp) as [Hlen Hc]. rewrite Hr in Hlen. cbn in Hlen.
  unfold vs_wf. cbn. splits; try done.
  - intros port pid' Hpp. destruct (W2 _ _ Hpp) as (p' & c & H1 & H2 & H3 & H4).
    destruct (decide (pid' = pid)) as [->|]; [congruence|]. exists p', c. rewrite lookup_insert_ne by done. by splits.
  - intros pid' p' [[<- <-]|[_ Hp']]%lookup_insert_Some; [|exact (W3 _ _ Hp')]. cbn. split; [lia|done].
  - intros pid' [p' [[<- _]|[_ Hp']]%lookup_insert_Some]; apply W5; by eexists.
Qed.

Lemma dial_timeout_sat pid vm :
  is_Some (vs_pendHeap (vm_dev vm) !! pid) → machine_inv vs_wf vm → res_sat (machine_inv vs_wf) (dial_timeout pid vm).
Proof.
  intros [p Hp] Hi. assert (vs_wf (vm_dev vm)) as Hw by apply Hi. unfold dial_timeout. rewrite Hp. cbn [must mbind res_bind].
  pose proof Hw as (W1 & _ & W3 & _). destruct (W3 _ _ Hp) as [_ [c Hc]]. rewrite Hc. cbn.
  apply set_dev_inv; [done|]. apply close_conn_wf, maps_wf; [done|apply delete_subseteq|done].
Qed.

Lemma dial_send_sat pid vm :
  is_Some (vs_pendHeap (vm_dev vm) !! pid) → machine_inv vs_wf vm →
  res_sat (λ p, machine_inv vs_wf p.1) (dial_send pid vm).
Proof.
  intros [p Hp] Hi. assert (vs_wf (vm_dev vm)) as Hw by apply Hi. unfold dial_send. rewrite Hp. cbn [must mbind res_bind].
  pose proof Hw as (_ & _ & W3 & _). destruct (W3 _ _ Hp) as [_ [c Hc]]. rewrite Hc. cbn [must mbind res_bind].
  eapply res_sat_mono; [apply (sendPkt_sat vs_wf); [apply no_data|done]|]. by intros ? [].
Qed.

Lemma close_all_wf ids d :
  vs_wf d → vs_wf (foldl (λ d id, close_conn id d) d ids) ∧
  vs_pendHeap (foldl (λ d id, close_conn id d) d ids) = vs_pendHeap d ∧
  vs_pending (foldl (λ d id, close_conn id d) d ids) = vs_pending d.
Proof.
  revert d. induction ids as [|id ids IH]; intros d Hw; [done|]. cbn.
  destruct (IH (close_conn id d)) as (? & ? & ?); [by apply close_conn_wf|]. by splits.
Qed.

(** The loop over the pending connections: each object occurs once. *)
Lemma close_pending_sat pids d :
  vs_wf d → vs_pending d = ∅ → NoDup pids →
  (∀ pid, pid ∈ pids → ∃ p, vs_pendHeap d !! pid = Some p ∧ pc_ready p = []) →
  res_sat vs_wf (for_each (λ pid d, p ← must (vs_pendHeap d !! pid); try_send_ready pid false (close_conn (pc_conn p) d))
    pids d).
Proof.
  intros Hw He Hnd Hall. revert d Hw He Hall. induction Hnd as [|pid pids Hnin Hnd IH]; intros d Hw He Hall; [done|].
  cbn [for_each]. destruct (Hall pid ltac:(left)) as (p & Hp & Hr). rewrite Hp. cbn [must mbind res_bind].
  destruct (send_ready_wf pid false p (close_conn (pc_conn p) d)) as (d' & _ & -> & Hw' & _ & _ & Hpe & Hph);
    [by apply close_conn_wf|done|done|cbn; rewrite He; intros ?; by rewrite lookup_empty|].
  apply IH; [done|by rewrite Hpe|]. intros q Hq. rewrite Hph by (intros ->; done). apply Hall. by right.
Qed.

Lemma pending_values_NoDup d : vs_wf d → NoDup (map_to_list (vs_pending d)).*2.
Proof.
  intros Hw. apply NoDup_fmap_2_strong; [|apply NoDup_map_to_list].
  intros [p1 i] [p2 j] H1%elem_of_map_to_list H2%elem_of_map_to_list Hij. cbn in Hij. subst j.
  f_equal. by eapply pending_inj.
Qed.

Lemma vsock_Close_sat vm : machine_inv vs_wf vm → res_sat (machine_inv vs_wf) (vsock_Close vm).
Proof.
  intros Hi. assert (vs_wf (vm_dev vm)) as Hw by apply Hi. unfold vsock_Close. set (d := vm_dev vm) in *. cbv zeta.
  destruct (vs_closed d); [done|].
  assert (vs_wf (set_maps (set_closed d true) ∅ ∅)) as Hw1.
  { apply (maps_wf (set_closed d true)); [by intros ? ? ?%lookup_empty_Some|apply map_empty_subseteq|exact Hw]. }
  destruct (close_all_wf (map_to_list (vs_conns d)).*2 _ Hw1) as (Hw2 & Hph & Hpe).
  set (d2 := foldl _ _ _) in *. eapply res_sat_bind; [|intros d3 _ Hw3; by apply set_dev_inv].
  apply close_pending_sat; [done|by rewrite Hpe|by apply pending_values_NoDup|].
  intros pid ([port pid'] & -> & Hin%elem_of_map_to_list)%list_elem_of_fmap. rewrite Hph.
  pose proof Hw as (_ & W2 & _). destruct (W2 _ _ Hin) as (p & c & ? & ? & _). cbn. eauto.
Qed.

Lemma injectPkt_sat (P : VsockDevice → Prop) sc dc sp dp op vm :
  machine_inv P vm → res_sat (λ p, machine_inv P p.1) (injectPkt sc dc sp dp op vm).
Proof.
  intros Hi. unfold injectPkt. set (payload := marshalHdr _).
  assert (zlen payload < 2 ^ 32) as Hpz by (unfold payload; by rewrite marshalHdr_len).
  pose proof (ConsumeAvail_sat P (λ _ : unit, True) 0 (rx_put payload) vm Hi ltac:(lia)
    (λ h vm' Hh Hv, rx_put_sat P payload h vm' (marshalHdr_bytes _) Hpz Hh Hv)) as Hsat.
  destruct (ConsumeAvail 0 (rx_put payload) vm) as [[vm' r]|e| |]; cbn in Hsat |- *; try done. apply Hsat.
Qed.

Lemma quiesce_event_sat (P : VsockDevice → Prop) head s :
  fits 16 head → machine_inv P s.1 → res_sat (λ p, machine_inv P p.1) (quiesce_event head s).
Proof.
  destruct s as [vm wrote]. cbn [fst]. intros Hh Hi. unfold quiesce_event.
  assert (fits 32 head) by (eapply fits_mono; [done|lia]). assert (fits 32 0) by done. assert (0 ≤ 2 < 8) as H2 by lia.
  assert (∀ vm' w b, machine_inv P vm' → fits 32 w →
    res_sat (λ p, machine_inv P p.1) (vm'' ← push_used 2 head w vm'; Ok (vm'', b : bool))) as Hpush.
  { intros vm' w b Hi' Hw. eapply res_sat_bind; [by apply (push_used_sat P)|by intros ? _ ?]. }
  eapply res_sat_bind; [by eapply (walk_chain_sat P)|]. intros [[|d chain]|] _ Hc; try by apply Hpush.
  destruct Hc as (_ & _ & Hw & _). apply Forall_cons in Hw as [(Ha & _) _].
  eapply res_sat_bind; [apply (guest_write_sat P); [done..|apply le_encode_bytes|by rewrite zlen_le_encode]|].
  intros [vm'|] _ Hvm; apply Hpush; try done. by destruct Hvm.
Qed.

(** Injecting resets and events keeps the heap of connections. *)
Definition keeps (d0 d : VsockDevice) : Prop := d = d0.

Lemma quiesce_resets_sat ids s d0 :
  machine_inv (keeps d0) s.1 → (∀ id, id ∈ ids → is_Some (vs_heap d0 !! id)) →
  res_sat (λ p, machine_inv (keeps d0) p.1) (for_each quiesce_reset ids s).
Proof.
  intros Hi Hall. apply for_each_sat; [|done]. intros id [vm b] Hid Hvm. cbn [fst] in Hvm. unfold quiesce_reset.
  assert (vm_dev vm = d0) as Hd by apply Hvm. rewrite Hd. destruct (Hall id Hid) as [c ->]. cbn [must mbind res_bind].
  eapply res_sat_bind; [by apply (injectPkt_sat (keeps d0))|by intros [? ?] _ ?].
Qed.

Lemma QuiesceForSnapshot_sat vm : machine_inv vs_wf vm → res_sat (machine_inv vs_wf) (QuiesceForSnapshot vm).
Proof.
  intros Hi. assert (vs_wf (vm_dev vm)) as Hw by apply Hi. unfold QuiesceForSnapshot. cbv zeta.
  set (d0 := set_maps (vm_dev vm) ∅ (vs_pending (vm_dev vm))). set (ids := (map_to_list (vs_conns (vm_dev vm))).*2).
  assert (vs_wf d0) as Hw0 by (apply maps_wf; [by intros ? ? ?%lookup_empty_Some|done|done]).
  assert (machine_inv (keeps d0) (set_dev vm d0)) as Hk by (destruct Hi as (? & ? & ? & _); by splits).
  assert (∀ id, id ∈ ids → is_Some (vs_heap d0 !! id)) as Hids.
  { intros id ([k id'] & -> & Hin%elem_of_map_to_list)%list_elem_of_fmap. cbn. by apply Hw in Hin. }
  destruct (the_queue_ok (set_dev vm d0) 0) as (q0 & -> & Hq0); [apply Hk|lia|]. cbn [must mbind res_bind].
  assert (ram_wf (vm_ram (set_dev vm d0))) as Hr by apply Hk.
  eapply res_sat_bind with (λ _, True).
  { pose proof (AvailIdx_completes q0 _ Hq0 Hr) as Ha. by destruct (AvailIdx q0 _). }
  intros avail _ _. eapply res_sat_bind with (λ p, machine_inv (keeps d0) p.1).
  { destruct (_ && _); [by apply quiesce_resets_sat|done]. }
  intros [vm1 needed] _ Hk1. cbn [fst] in Hk1.
  destruct (the_queue_ok vm1 2) as (q2 & Hq2e & Hq2); [apply Hk1|lia|]. rewrite Hq2e. cbn [must mbind res_bind].
  eapply res_sat_bind with (λ p, machine_inv (keeps d0) p.1).
  { destruct (q_Ready q2); [|done].
    assert (ram_wf (vm_ram vm1)) as Hr1 by apply Hk1.
    destruct (IterAvail_collect_spec q2 (vm_ram vm1) Hq2 Hr1) as [Hc _].
    destruct (IterAvail_collect q2 (vm_ram vm1)) as [[heads q']| | |] eqn:Hcol; cbn; try done.
    apply (res_sat_mono (λ p, machine_inv (keeps d0) p.1 ∧ True)); [|by intros p []].
    apply (for_heads_sat (keeps d0) (λ _, True) 2 q2); [done|lia|done..|].
    intros h p Hh Hp _. eapply res_sat_mono; [by apply (quiesce_event_sat (keeps d0))|by intros p' Hp'; split]. }
  intros [vm2 wrote] _ Hk2. cbn [fst] in Hk2.
  assert (machine_inv vs_wf vm2) as Hi2 by (destruct Hk2 as (? & ? & ? & Hd2); unfold machine_inv; splits; try done; by rewrite Hd2).
  apply set_dev_inv; [destruct (_ || _); [by apply raise_irq_inv|done]|]. apply close_all_wf.
  destruct (_ || _); apply Hi2.
Qed.

(** ** Executions

    The guest runs (register writes and stores to RAM); pumps get the results of
    their reads; goroutines dial, with fewer than all host ports in use; the
    device is quiesced or closed. *)
Inductive vsock_step : VM VsockDevice → VM VsockDevice → Prop :=
  | vst_guest vm vm' : guest_step vm vm' → vsock_step vm vm'
  | vst_pump id data err vm vm' :
      small_data data → id ∈ vs_pumps (vm_dev vm) → pump_step id data err vm = Ok vm' → vsock_step vm vm'
  | vst_dial_start port pid vm vm' :
      Z.of_nat (size (vs_pending (vm_dev vm)) + size (vs_conns (vm_dev vm))) < 2 ^ 32 - 1024 →
      dial_start port vm = Ok (vm', pid) → vsock_step vm vm'
  | vst_dial_send pid b vm vm' :
      is_Some (vs_pendHeap (vm_dev vm) !! pid) → dial_send pid vm = Ok (vm', b) → vsock_step vm vm'
  | vst_dial_receive pid r vm vm' :
      is_Some (vs_pendHeap (vm_dev vm) !! pid) → dial_receive pid vm = Ok (vm', r) → vsock_step vm vm'
  | vst_dial_timeout pid vm vm' :
      is_Some (vs_pendHeap (vm_dev vm) !! pid) → dial_timeout pid vm = Ok vm' → vsock_step vm vm'
  | vst_quiesce vm vm' : QuiesceForSnapshot vm = Ok vm' → vsock_step vm vm'
  | vst_close vm vm' : vsock_Close vm = Ok vm' → vsock_step vm vm'.

Lemma vsock_step_inv vm vm' : vsock_step vm vm' → machine_inv vs_wf vm → machine_inv vs_wf vm'.
Proof.
  intros [v v' Hg|id data err v v' Hd Hp Hrun|port pid v v' Hs Hrun|pid b v v' Hp Hrun|pid r v v' Hp Hrun
    |pid v v' Hp Hrun|v v' Hrun|v v' Hrun] Hi.
  - exact (guest_step_inv _ _ Hg Hi).
  - exact (res_sat_Ok _ _ _ (pump_step_sat _ _ _ _ Hd Hp Hi) Hrun).
  - exact (proj1 (res_sat_Ok _ _ _ (dial_start_sat _ _ Hs Hi) Hrun)).
  - exact (res_sat_Ok _ _ _ (dial_send_sat _ _ Hp Hi) Hrun).
  - exact (res_sat_Ok _ _ _ (dial_receive_sat _ _ Hp Hi) Hrun).
  - exact (res_sat_Ok _ _ _ (dial_timeout_sat _ _ Hp Hi) Hrun).
  - exact (res_sat_Ok _ _ _ (QuiesceForSnapshot_sat _ Hi) Hrun).
  - exact (res_sat_Ok _ _ _ (vsock_Close_sat _ Hi) Hrun).
Qed.

Lemma vsock_run_inv vm vm' : rtc vsock_step vm vm' → machine_inv vs_wf vm → machine_inv vs_wf vm'.
Proof. induction 1; eauto using vsock_step_inv. Qed.

Lemma NewDevice_inv basePA irq irqFn r : ram_wf r → machine_inv vs_wf (NewDevice basePA irq irqFn r).
Proof.
  intros Hr. split; [apply NewTransport_wf|]. split; [apply NewTransport_wf|]. split; [done|].
  unfold vs_wf. cbn. splits; try (by intros ? ? ?%lookup_empty_Some); try (by intros ? [? ?%lookup_empty_Some]);
    [by intros ? ?%not_elem_of_nil|done..].
Qed.

(** ** Properties *)

(** C24: nothing the guest or the peers do blocks the device. In every
    interleaving of guest activity, pump reads, dials, time-outs, quiescing and
    closing: the channel of a dial never holds two messages, so no send on it
    ever blocks; every notification completes without panic, and so do every
    pump iteration, [QuiesceForSnapshot] and [Close]. *)
Theorem vsock_never_blocks basePA irq irqFn r vm :
  ram_wf r → rtc vsock_step (NewDevice basePA irq irqFn r) vm →
  (∀ pid p, vs_pendHeap (vm_dev vm) !! pid = Some p → (length (pc_ready p) ≤ 1)%nat) ∧
  (∀ offset data, bytes data → ∃ vm', WriteBytes offset data vm = Ok vm') ∧
  (∀ id data err, id ∈ vs_pumps (vm_dev vm) → small_data data → ∃ vm', pump_step id data err vm = Ok vm') ∧
  (∃ vm', QuiesceForSnapshot vm = Ok vm') ∧ (∃ vm', vsock_Close vm = Ok vm').
Proof.
  intros Hr Hrun. pose proof (vsock_run_inv _ _ Hrun (NewDevice_inv basePA irq irqFn r Hr)) as Hi. splits.
  - intros pid p Hp. destruct Hi as (_ & _ & _ & _ & _ & W3 & _). by apply (W3 _ _ Hp).
  - assert (machine_inv dev_wf vm) as Hi' by exact Hi. intros offset data Hd. destruct (proc_Ok _ _ (WriteBytes_sat offset data vm Hd Hi')) as (vm' & ? & _). eauto.
  - intros id data err Hid Hd. destruct (proc_Ok _ _ (pump_step_sat id data err vm Hd Hid Hi)) as (vm' & ? & _). eauto.
  - destruct (proc_Ok _ _ (QuiesceForSnapshot_sat vm Hi)) as (vm' & ? & _). eauto.
  - destruct (proc_Ok _ _ (vsock_Close_sat vm Hi)) as (vm' & ? & _). eauto.
Qed.

(** Dialing gets a fresh host port. While fewer than 2^32 - 1024 ports are
    in use the search of [allocateHostPort] terminates, after at most one look
    per port in use and one more, with a port of at least 1024 that no pending
    and no established connection has, and continues after it next time. *)
Theorem allocateHostPort_fresh d :
  port_wf (vs_nextHostPort d) → Z.of_nat (size (vs_pending d) + size (vs_conns d)) < 2 ^ 32 - 1024 →
  ∃ port, allocateHostPort d = Ok (set_port d (succ_port port), port) ∧ 1024 ≤ port < 2 ^ 32 ∧
    vs_pending d !! port = None ∧ ∀ gp id, vs_conns d !! (gp, port) = Some id → False.
Proof.
  intros Hp Hs. destruct (allocate_ok d Hp Hs) as (port & Hrun & Hfree & Hwf).
  exists port. splits; [done|apply Hwf..| |].
  - destruct (vs_pending d !! port) as [pid|] eqn:E; [|done]. contradict Hfree. unfold ports_used. apply elem_of_app. left.
    apply (list_elem_of_fmap_2 fst _ (port, pid)). by apply elem_of_map_to_list.
  - intros gp id Hc. apply Hfree. unfold ports_used. apply elem_of_app. right.
    apply (list_elem_of_fmap_2 snd _ (gp, port)), (list_elem_of_fmap_2 fst _ ((gp, port), id)). by apply elem_of_map_to_list.
Qed.

(** Packet headers survive the wire: parsing a marshalled header, whatever
    payload follows, gives it back. *)
Theorem vsock_header_roundtrip h payload : hdr_wf h → parseHdr (marshalHdr h ++ payload) = Ok h.
Proof. apply parse_marshal. Qed.

(** Guest data reaches the host in order, and is credited. For a data
    packet on a known connection whose buffers can be read and whose write to
    the host succeeds, the host connection gets exactly the payload (the
    concatenated buffers, cut to the length of the header) after what it got
    before, the forward counter advances by the payload length modulo 2^32, and
    no other connection changes. *)
Theorem vsock_data_forwarded qi hdr d0 chain vm id c bufs :
  0 ≤ qi < 8 → machine_inv vs_wf vm →
  vs_conns (vm_dev vm) !! hdr_key hdr = Some id → vs_heap (vm_dev vm) !! id = Some c → 0 < h_Len hdr →
  Forall2 (λ d b, guest_read qi (d_Addr d) (d_Len d) vm = Ok (Some b)) chain bufs →
  let payload := take (Z.to_nat (h_Len hdr)) (concat bufs) in
  connWrite (vs_calls (vm_dev vm)) payload = (zlen payload, false) →
  ∃ vm', handleData qi hdr (d0 :: chain) vm = Ok vm' ∧
    vs_heap (vm_dev vm') = <[id := mkConn (c_guestPort c) (c_hostPort c) (u32 (c_fwdCnt c + zlen payload))
                                    (c_out c ++ payload) (c_closed c)]> (vs_heap (vm_dev vm)) ∧
    vs_conns (vm_dev vm') = vs_conns (vm_dev vm) ∧ vs_pending (vm_dev vm') = vs_pending (vm_dev vm).
Proof.
  intros Hqi Hi Hc Hh Hl Hbufs payload Hw.
  assert (∀ data, gather_data qi chain vm data = Ok (Some (data ++ concat bufs))) as Hg.
  { clear -Hbufs. induction Hbufs as [|d b ds bs Hd Hds IH]; intros data; cbn; [by rewrite app_nil_r|].
    rewrite Hd. cbn. rewrite IH. by rewrite <- app_assoc. }
  unfold handleData. rewrite Hc. eq_is false. cbn [tail]. rewrite Hg. cbn [mbind res_bind app]. rewrite Hh.
  cbn [must mbind res_bind].
  assert ((if h_Len hdr <? zlen (concat bufs) then take (Z.to_nat (h_Len hdr)) (concat bufs) else concat bufs) = payload) as ->.
  { unfold payload. destruct (Z.ltb_spec (h_Len hdr) (zlen (concat bufs))); [done|]. rewrite take_ge; [done|]. unfold zlen in *. lia. }
  rewrite Hw. cbn zeta beta.
  assert (take (Z.to_nat (zlen payload)) payload = payload) as Htp by (apply take_ge; unfold zlen; lia).
  assert (u32 (c_fwdCnt c + u32 (zlen payload)) = u32 (c_fwdCnt c + zlen payload)) as Hfc
    by (unfold u32; by rewrite Zplus_mod_idemp_r).
  rewrite Htp, Hfc. set (d1 := set_vheap _ _).
  assert (machine_inv vs_wf (set_dev vm d1)) as Hi1.
  { apply set_dev_inv; [done|]. eapply (insert_heap_wf (next_call (vm_dev vm))); [done|done|apply Hi]. }
  destruct (proc_Ok _ _ (sendCreditUpdate_sat vs_wf (c_hostPort c) (c_guestPort c) (u32 (c_fwdCnt c + zlen payload)) _ Hi1))
    as (vm' & -> & _ & Hd'). exists vm'. by rewrite Hd'.
Qed.

(** Host data is lost when the guest has no receive buffer. If the guest
    has posted no buffer on its receive queue when a pump has read bytes from
    the host connection, the packet is not sent and not kept: the pump's
    iteration changes nothing, and goes on to the next read. *)
Theorem vsock_rx_data_lost id data c vm q q' :
  vs_closed (vm_dev vm) = false → vs_heap (vm_dev vm) !! id = Some c →
  the_queue vm 0 = Some q → ConsumeAvail_take q (vm_ram vm) = Ok (None, q') →
  pump_step id data false vm = Ok vm.
Proof.
  intros Hcl Hc Hq Htake. unfold pump_step. rewrite Hcl, Hc. cbn [must mbind res_bind].
  destruct (0 <? zlen data); [|done]. unfold sendPkt. cbv zeta. rewrite Hq.
  destruct (negb (q_Ready q)); [done|]. unfold ConsumeAvail. rewrite Hq. cbn [must mbind res_bind]. by rewrite Htake.
Qed.

(** An old pump can drop a new connection. When the guest reuses a pair of
    ports, the entry of the old connection is overwritten; when the pump of the
    old connection ends, it removes the entry of the new one, whose data is
    then answered with resets. *)
Theorem vsock_stale_pump_evicts id id' c vm vm' data :
  machine_inv vs_wf vm → small_data data → id ∈ vs_pumps (vm_dev vm) →
  vs_heap (vm_dev vm) !! id = Some c →
  vs_conns (vm_dev vm) !! (c_guestPort c, c_hostPort c) = Some id' → id' ≠ id →
  vs_closed (vm_dev vm) = false →
  pump_step id data true vm = Ok vm' →
  vs_conns (vm_dev vm') !! (c_guestPort c, c_hostPort c) = None ∧ vs_heap (vm_dev vm') !! id' = vs_heap (vm_dev vm) !! id' ∧
  ∀ qi hdr chain, hdr_key hdr = (c_guestPort c, c_hostPort c) → handleData qi hdr chain vm' = sendReset hdr vm'.
Proof.
  intros Hi Hd Hpump Hc _ _ Hcl Hrun. unfold pump_step in Hrun. rewrite Hcl, Hc in Hrun. cbn [must mbind res_bind] in Hrun.
  apply bind_Ok in Hrun as (vm1 & Hsend & Hrun). apply bind_Ok in Hrun as ([vm2 b] & Hshut & Hexit).
  assert (machine_inv vs_wf vm1 ∧ vm_dev vm1 = vm_dev vm) as [Hi1 Hd1].
  { destruct (0 <? zlen data); [|by injection Hsend as <-]. apply bind_Ok in Hsend as ([v b'] & Hs & [= <-]).
    exact (res_sat_Ok _ _ _ (sendPkt_sat vs_wf _ _ _ _ _ _ _ _ Hd Hi) Hs). }
  destruct (res_sat_Ok _ _ _ (sendPkt_sat vs_wf _ _ _ _ _ _ _ _ no_data Hi1) Hshut) as [_ Hd2]. cbn in Hd2.
  unfold pump_exit in Hexit. rewrite Hd2, Hd1, Hc in Hexit. cbn in Hexit. injection Hexit as <-. cbn.
  assert (delete (c_guestPort c, c_hostPort c) (vs_conns (vm_dev vm)) !! (c_guestPort c, c_hostPort c) = None) as Hdel
    by apply lookup_delete_eq.
  splits; [done|done|]. intros qi hdr chain Hk. unfold handleData. cbn. by rewrite Hk, Hdel.
Qed.
End vsock.

(** ** Witnesses

    A listener that accepts everything and a host that takes every byte. *)
Definition ex_listen : option (nat → Z → bool) := Some (λ _ _, true).
Definition ex_hostwrite (k : nat) (data : list Z) : Z * bool := (zlen data, false).
Definition ex_vram : Ram := mkRam ([1; 2; 3; 4] ++ replicate 60 0) None.
Definition ex_vm : VM VsockDevice := NewDevice 0 5 true ex_vram.
Definition ex_hdr : pktHdr := mkHdr GuestCID HostCID 1000 52 3 1 opRW 0 0 0.
Definition ex_conn1 : VM VsockDevice := value_or ex_vm (handleConnect ex_listen ex_hdr ex_vm).
Definition ex_conn2 : VM VsockDevice := value_or ex_vm (handleConnect ex_listen ex_hdr ex_conn1).

Lemma ex_vram_wf : ram_wf ex_vram.
Proof. apply (bool_decide_unpack _). vm_compute. exact I. Qed.

Lemma ex_conn1_inv : machine_inv vs_wf ex_conn1.
Proof.
  eapply (res_sat_Ok _ (handleConnect ex_listen ex_hdr ex_vm));
    [apply handleConnect_sat, NewDevice_inv, ex_vram_wf|vm_compute; reflexivity].
Qed.

Lemma ex_conn2_inv : machine_inv vs_wf ex_conn2.
Proof.
  eapply (res_sat_Ok _ (handleConnect ex_listen ex_hdr ex_conn1));
    [apply handleConnect_sat, ex_conn1_inv|vm_compute; reflexivity].
Qed.

Definition ex_dialed : VM VsockDevice := (value_or (ex_vm, 0%nat) (dial_start 80 ex_vm)).1.

Lemma vsock_never_blocks_witness : ∃ vm', vsock_Close ex_dialed = Ok vm'.
Proof.
  apply (vsock_never_blocks ex_listen ex_hostwrite 0 5 true ex_vram ex_dialed ex_vram_wf).
  apply rtc_once, (vst_dial_start ex_listen ex_hostwrite 80 1); vm_compute; reflexivity.
Defined.

Lemma allocateHostPort_fresh_witness :
  ∃ port, allocateHostPort (vm_dev ex_dialed) = Ok (set_port (vm_dev ex_dialed) (succ_port port), port) ∧
    vs_pending (vm_dev ex_dialed) !! port = None.
Proof.
  destruct (allocateHostPort_fresh (vm_dev ex_dialed)) as (port & H1 & _ & H2 & _);
    [vm_compute; split; [discriminate|reflexivity]|vm_compute; reflexivity|].
  exact (ex_intro _ port (conj H1 H2)).
Defined.

Lemma vsock_header_roundtrip_witness : parseHdr (marshalHdr ex_hdr ++ [7]) = Ok ex_hdr.
Proof. apply (vsock_header_roundtrip ex_hdr [7]). apply (bool_decide_unpack _). vm_compute. exact I. Defined.

Lemma vsock_data_forwarded_witness :
  ∃ vm', handleData ex_hostwrite 1 ex_hdr [mkDesc 0 44 0 0; mkDesc 0 4 0 0] ex_conn1 = Ok vm' ∧
    vs_heap (vm_dev vm') !! 0%nat = Some (mkConn 1000 52 3 [1; 2; 3] false).
Proof.
  destruct (vsock_data_forwarded ex_hostwrite 1 ex_hdr (mkDesc 0 44 0 0) [mkDesc 0 4 0 0] ex_conn1 0
    (mkConn 1000 52 0 [] false) [[1; 2; 3; 4]] ltac:(lia) ex_conn1_inv) as (vm' & H1 & H2 & _);
    [vm_compute; reflexivity..|repeat constructor|vm_compute; reflexivity|].
  exists vm'. split; [exact H1|]. rewrite H2. vm_compute. reflexivity.
Defined.

(** The guest posted no buffer: the receive queue of a machine whose driver
    set up the rings in zeroed memory. *)
Definition ex_idle : VM VsockDevice := put_queue ex_conn1 0 (mkQueue 4 true 0 8 16 40 0).

Lemma vsock_rx_data_lost_witness : pump_step 0 [9; 9] false ex_idle = Ok ex_idle.
Proof.
  eapply (vsock_rx_data_lost 0 [9; 9] (mkConn 1000 52 0 [] false) ex_idle (mkQueue 4 true 0 8 16 40 0));
    vm_compute; reflexivity.
Defined.

Lemma vsock_stale_pump_evicts_witness :
  vs_conns (vm_dev ex_conn2) !! (1000, 52) = Some 1%nat ∧
  vs_conns (vm_dev (value_or ex_vm (pump_step 0 [] true ex_conn2))) !! (1000, 52) = None.
Proof.
  split; [vm_compute; reflexivity|].
  destruct (vsock_stale_pump_evicts ex_hostwrite 0 1 (mkConn 1000 52 0 [] false) ex_conn2
    (value_or ex_vm (pump_step 0 [] true ex_conn2)) [] ex_conn2_inv no_data) as (H & _);
    [apply (bool_decide_unpack _); vm_compute; exact I|vm_compute; reflexivity|vm_compute; reflexivity|discriminate|
     vm_compute; reflexivity|vm_compute; reflexivity|].
  exact H.
Defined.
