(* ===== verification/IPAlloc.v ===== *)
(** * The lease address allocator (src/sandboxes/internal/pool/ipalloc.go)

    [IPAllocator] hands out subnets of a base range.  Its state is a packed
    bitmap and a search hint.  The abstract view is the set of allocated slots
    ([used]); the invariant [ip_wf] says that the hint is sound, and against it
    [Allocate] is "the lowest free slot" and [Free] removes a slot.

    [net.ParseCIDR] is outside the repository: [NewIPAllocator] takes what it
    returns, the masked base address and the prefix length.  Addresses are the
    four octets of a [net.IP]; their rendering with [fmt] is left out.  Each
    method is one critical section of [a.mu]. *)
From S2P Require Import Prelude.

(** ** State *)
Record IPAllocator := mkIPAllocator {
  ip_base : Z;                 (** base.IP.To4() as a 32-bit number *)
  ip_maskLen : Z;
  ip_slots : Z;
  ip_bitmap : list Z;
  ip_nextHint : Z
}.

Record LeaseAddr := mkLeaseAddr {
  la_Slot : Z;
  la_IP : list Z;
  la_Gateway : list Z;
  la_MAC : list Z
}.

Inductive iperr := ErrIPExhausted | BadMaskLen (maskLen baseMaskLen : Z).

(** ** Address arithmetic *)
Definition ipv4ToUint32 (v4 : list Z) : res iperr Z :=
  a ← must (at_ v4 0); b ← must (at_ v4 1); c ← must (at_ v4 2); d ← must (at_ v4 3);
  Ok ((a .<< 24) .| (b .<< 16) .| (c .<< 8) .| d).

Definition uint32ToIPv4 (n : Z) : list Z := [u8 (n .>> 24); u8 (n .>> 16); u8 (n .>> 8); u8 n].

Definition macFromIP (v4 : list Z) : list Z := [0x02; 0x00] ++ v4.

(** The number of set bits, by parallel sums of neighbouring fields. *)
Definition popcount (v : Z) : Z :=
  let v := u64 (v - ((v .>> 1) .& 0x5555555555555555)) in
  let v := u64 ((v .& 0x3333333333333333) + ((v .>> 2) .& 0x3333333333333333)) in
  let v := u64 (v + (v .>> 4)) .& 0x0F0F0F0F0F0F0F0F in
  u64 (v * 0x0101010101010101) .>> 56.

(** ** Operations *)
Definition NewIPAllocator (base baseMaskLen maskLen : Z) : res iperr IPAllocator :=
  if (maskLen <=? baseMaskLen) || (32 <? maskLen) then Err (BadMaskLen maskLen baseMaskLen)
  else
    let slots := 1 .<< (maskLen - baseMaskLen) in
    let words := (slots + 63) / 64 in
    Ok {| ip_base := base; ip_maskLen := maskLen; ip_slots := slots;
          ip_bitmap := replicate (Z.to_nat words) 0; ip_nextHint := 0 |}.

Definition leaseFromSlot (a : IPAllocator) (slot : Z) : LeaseAddr :=
  let hostsPerSlot := 1 .<< (32 - ip_maskLen a) in
  let netInt := u32 (ip_base a + u32 (slot * hostsPerSlot)) in
  let gw := uint32ToIPv4 (u32 (netInt + 1)) in
  let guest := uint32ToIPv4 (u32 (netInt + 2)) in
  {| la_Slot := slot; la_IP := guest; la_Gateway := gw; la_MAC := macFromIP guest |}.

(** [for b := startBit; b < 64; b++]: the first clear bit. *)
Fixpoint scan_bits (n : nat) (word b : Z) : option Z :=
  match n with
  | O => None
  | S n => if word .& (1 .<< b) =? 0 then Some b else scan_bits n word (b + 1)
  end.

(** [for w := a.nextHint / 64; w < len(a.bitmap); w++], [n] words left. *)
Fixpoint scan_words (n : nat) (a : IPAllocator) (w : Z) : res iperr (IPAllocator * LeaseAddr) :=
  match n with
  | O => Err ErrIPExhausted
  | S n =>
      word ← must (at_ (ip_bitmap a) w);
      if word =? 2 ^ 64 - 1 then scan_words n a (w + 1)
      else
        let startBit := if w * 64 <? ip_nextHint a then ip_nextHint a - w * 64 else 0 in
        match scan_bits (Z.to_nat (64 - startBit)) word startBit with
        | None => scan_words n a (w + 1)
        | Some b =>
            let slot := w * 64 + b in
            if ip_slots a <=? slot then Err ErrIPExhausted
            else
              bitmap ← must (set_at (ip_bitmap a) w (word .| (1 .<< b)));
              Ok (mkIPAllocator (ip_base a) (ip_maskLen a) (ip_slots a) bitmap (slot + 1),
                  leaseFromSlot a slot)
        end
  end.

Definition Allocate (a : IPAllocator) : res iperr (IPAllocator * LeaseAddr) :=
  let w := ip_nextHint a / 64 in
  scan_words (Z.to_nat (zlen (ip_bitmap a) - w)) a w.

Definition Free (a : IPAllocator) (slot : Z) : res iperr IPAllocator :=
  if (slot <? 0) || (ip_slots a <=? slot) then Ok a
  else
    word ← must (at_ (ip_bitmap a) (slot / 64));
    bitmap ← must (set_at (ip_bitmap a) (slot / 64) (word .&^ (1 .<< (slot mod 64))));
    Ok (mkIPAllocator (ip_base a) (ip_maskLen a) (ip_slots a) bitmap
          (if slot <? ip_nextHint a then slot else ip_nextHint a)).

Definition InUse (a : IPAllocator) : Z := foldl (λ n w, n + popcount w) 0 (ip_bitmap a).

Definition Capacity (a : IPAllocator) : Z := ip_slots a.

(** ** The abstract view and the invariant *)

Definition used (a : IPAllocator) (s : Z) : bool := bit_at (ip_bitmap a) s.

Definition ip_wf (a : IPAllocator) : Prop :=
  0 ≤ ip_maskLen a ≤ 32 ∧ 0 ≤ ip_base a ∧
  0 < ip_slots a ∧ ip_base a + ip_slots a * 2 ^ (32 - ip_maskLen a) ≤ 2 ^ 32 ∧
  zlen (ip_bitmap a) = (ip_slots a + 63) / 64 ∧ Forall (fits 64) (ip_bitmap a) ∧
  0 ≤ ip_nextHint a ≤ ip_slots a ∧
  (∀ s, 0 ≤ s < ip_nextHint a → used a s = true) ∧
  (∀ s, ip_slots a ≤ s → used a s = false).

(** ** Lemmas *)

Lemma scan_bits_spec n word b :
  0 ≤ b →
  match scan_bits n word b with
  | Some c => b ≤ c < b + Z.of_nat n ∧ Z.testbit word c = false ∧
              ∀ i, b ≤ i < c → Z.testbit word i = true
  | None => ∀ i, b ≤ i < b + Z.of_nat n → Z.testbit word i = true
  end.
Proof.
  revert b. induction n as [|n IH]; intros b Hb; simpl; [lia|].
  rewrite land_bit_0 by done. destruct (Z.testbit word b) eqn:Hbit; simpl.
  - specialize (IH (b + 1) ltac:(lia)).
    assert (∀ i, b = i → Z.testbit word i = true) as H0 by (by intros ? <-).
    destruct (scan_bits n word (b + 1)) as [c|].
    + destruct IH as (Hc & Hcf & Hlt). splits; [lia..|done|].
      intros i Hi. destruct (decide (b = i)); [auto|apply Hlt; lia].
    + intros i Hi. destruct (decide (b = i)); [auto|apply IH; lia].
  - splits; [lia..|done|lia].
Qed.

(** Slots of word [w]. *)
Lemma used_word a w word i :
  at_ (ip_bitmap a) w = Some word → 0 ≤ i < 64 → used a (w * 64 + i) = Z.testbit word i.
Proof.
  intros Hw Hi. unfold used, bit_at.
  replace ((w * 64 + i) / 64) with w by (rewrite Z.add_comm, Z.div_add by lia; rewrite Z.div_small; lia).
  rewrite Hw. f_equal. rewrite Z.add_comm, Z.mod_add by lia. by apply Z.mod_small.
Qed.

Lemma full_word_bit i : 0 ≤ i < 64 → Z.testbit (2 ^ 64 - 1) i = true.
Proof. intros. change (2 ^ 64 - 1) with (Z.ones 64). apply Z.ones_spec_low. lia. Qed.

(** The slots of a word are all taken. *)
Definition word_full (a : IPAllocator) (w : Z) : Prop := ∀ i, 0 ≤ i < 64 → used a (w * 64 + i) = true.

Lemma word_full_extend a w :
  (∀ s, 0 ≤ s < w * 64 → used a s = true) → word_full a w →
  ∀ s, 0 ≤ s < (w + 1) * 64 → used a s = true.
Proof.
  intros Hlow Hw s Hs. destruct (Z.lt_ge_cases s (w * 64)); [apply Hlow; lia|].
  pose proof (Hw (s - w * 64) ltac:(lia)) as Hs'. by rewrite Zplus_minus in Hs'.
Qed.

(** What [Allocate] promises: the lowest free slot, or proof that none is. *)
Definition allocated (a a' : IPAllocator) (l : LeaseAddr) (s : Z) : Prop :=
  l = leaseFromSlot a s ∧ 0 ≤ s < ip_slots a ∧ used a s = false ∧
  (∀ s', 0 ≤ s' < s → used a s' = true) ∧
  (∀ q, 0 ≤ q → used a' q = (q =? s) || used a q) ∧
  ip_base a' = ip_base a ∧ ip_maskLen a' = ip_maskLen a ∧ ip_slots a' = ip_slots a ∧ ip_wf a'.

Lemma take_slot a w word b :
  ip_wf a → 0 ≤ w → at_ (ip_bitmap a) w = Some word → 0 ≤ b < 64 → Z.testbit word b = false →
  w * 64 + b < ip_slots a → (∀ s', 0 ≤ s' < w * 64 + b → used a s' = true) →
  ∃ a', (bitmap ← must (set_at (ip_bitmap a) w (word .| (1 .<< b)));
         Ok (mkIPAllocator (ip_base a) (ip_maskLen a) (ip_slots a) bitmap (w * 64 + b + 1),
             leaseFromSlot a (w * 64 + b)))
        = (Ok (a', leaseFromSlot a (w * 64 + b)) : res iperr _) ∧
        allocated a a' (leaseFromSlot a (w * 64 + b)) (w * 64 + b).
Proof.
  intros Hwf Hw0 Hw Hb Hfree Hlt Hlow. pose proof (at_bound _ _ _ Hw) as Hwb.
  unfold set_at. and_is true. cbn [must mbind res_bind]. eexists. split; [done|].
  assert ((w * 64 + b) / 64 = w) as Hdiv
    by (rewrite Z.add_comm, Z.div_add by lia; rewrite Z.div_small; lia).
  assert ((w * 64 + b) mod 64 = b) as Hmod
    by (rewrite Z.add_comm, Z.mod_add by lia; apply Z.mod_small; lia).
  set (s := w * 64 + b) in *. set (a' := mkIPAllocator _ _ _ _ _).
  assert (∀ q, 0 ≤ q → used a' q = (q =? s) || used a q) as Hq.
  { intros q Hq. unfold used, a'. cbn. rewrite <- Hdiv, <- Hmod at 1.
    rewrite bit_at_set; [done|by rewrite Hdiv|lia|done]. }
  assert (used a s = false) as Hs by (unfold s; by rewrite (used_word a w word)).
  destruct Hwf as (? & ? & ? & ? & Hlen & Hall & Hhint & Hh & Hhi).
  unfold allocated. splits; try done; try lia. unfold ip_wf. splits; cbn; try done; try lia.
  - unfold zlen in *. by rewrite length_insert.
  - apply Forall_insert; [done|]. apply fits_lor.
    + apply at_Some in Hw as [_ Hw]. by eapply Forall_lookup_1 in Hall.
    + unfold fits. rewrite Z.shiftl_mul_pow2 by lia. rewrite Z.mul_1_l.
      split; [lia|]. apply Z.pow_lt_mono_r; lia.
  - intros q Hq'. rewrite Hq by lia. destruct (Z.eqb_spec q s); [done|]. apply Hlow. lia.
  - intros q Hq'. rewrite Hq by lia. rewrite Hhi by done. replace (q =? s) with false by lia. done.
Qed.

Lemma scan_words_spec n a w :
  ip_wf a → 0 ≤ w → w + Z.of_nat n = zlen (ip_bitmap a) →
  ip_nextHint a < (w + 1) * 64 ∨ n = 0%nat →
  (∀ s, 0 ≤ s < w * 64 → used a s = true) →
  (∃ a' l s, scan_words n a w = Ok (a', l) ∧ allocated a a' l s) ∨
  (scan_words n a w = Err ErrIPExhausted ∧ ∀ s, 0 ≤ s < ip_slots a → used a s = true).
Proof.
  intros Hwf. pose proof Hwf as (_ & _ & Hsl & _ & Hlen & _ & Hhint & Hh & Hhi).
  revert w. induction n as [|n IH]; intros w Hw Hn Hhw Hlow.
  { right. split; [done|]. intros s Hs. apply Hlow. split; [lia|].
    assert (ip_slots a ≤ w * 64); [|lia].
    pose proof (Z.div_mod (ip_slots a + 63) 64). pose proof (Z.mod_pos_bound (ip_slots a + 63) 64). lia. }
  destruct (at_ok (ip_bitmap a) w) as [word Hword]; [lia|].
  assert (word_full a w → (∃ a' l s, scan_words n a (w + 1) = Ok (a', l) ∧ allocated a a' l s) ∨
    (scan_words n a (w + 1) = Err ErrIPExhausted ∧ ∀ s, 0 ≤ s < ip_slots a → used a s = true)) as Hnext.
  { intros Hf. apply IH; [lia|lia|left; lia|]. by apply word_full_extend. }
  cbn [scan_words]. rewrite Hword. cbn [must mbind res_bind].
  destruct (Z.eqb_spec word (2 ^ 64 - 1)) as [->|Hne].
  { apply Hnext. intros i Hi. rewrite (used_word a w _ i Hword Hi). by apply full_word_bit. }
  set (sb := if _ <? _ then _ else _).
  assert (0 ≤ sb < 64 ∧ ∀ i, 0 ≤ i < sb → used a (w * 64 + i) = true) as [Hsb Hbelow].
  { unfold sb. destruct (Z.ltb_spec (w * 64) (ip_nextHint a)); [|split; [lia|intros; lia]].
    split; [lia|]. intros i Hi. apply Hh. lia. }
  pose proof (scan_bits_spec (Z.to_nat (64 - sb)) word sb ltac:(lia)) as Hscan.
  destruct (scan_bits _ word sb) as [b|].
  - destruct Hscan as (Hb & Hfree & Hbits).
    assert (∀ s', 0 ≤ s' < w * 64 + b → used a s' = true) as Hlow'.
    { intros s' Hs'. destruct (Z.lt_ge_cases s' (w * 64)); [apply Hlow; lia|].
      replace s' with (w * 64 + (s' - w * 64)) by lia.
      destruct (Z.lt_ge_cases (s' - w * 64) sb); [apply Hbelow; lia|].
      rewrite (used_word a w word) by (done || lia). apply Hbits. lia. }
    destruct (Z.leb_spec (ip_slots a) (w * 64 + b)).
    + right. split; [done|]. intros s Hs. apply Hlow'. lia.
    + left. destruct (take_slot a w word b) as (a' & Hrun & Hal); try done; [lia..|]. eauto.
  - apply Hnext. intros i Hi. destruct (Z.lt_ge_cases i sb); [apply Hbelow; lia|].
    rewrite (used_word a w word) by done. apply Hscan. lia.
Qed.

Lemma Allocate_spec a :
  ip_wf a →
  (∃ a' l s, Allocate a = Ok (a', l) ∧ allocated a a' l s) ∨
  (Allocate a = Err ErrIPExhausted ∧ ∀ s, 0 ≤ s < ip_slots a → used a s = true).
Proof.
  intros Hwf. pose proof Hwf as (_ & _ & Hsl & _ & Hlen & _ & Hhint & Hh & _).
  pose proof (Z.div_mod (ip_nextHint a) 64). pose proof (Z.mod_pos_bound (ip_nextHint a) 64).
  assert (ip_nextHint a / 64 ≤ zlen (ip_bitmap a)).
  { rewrite Hlen. apply Z.div_le_mono; lia. }
  unfold Allocate. apply scan_words_spec; [done|apply Z.div_pos; lia|lia|left; lia|].
  intros s Hs. apply Hh. lia.
Qed.

Lemma Free_spec a s :
  ip_wf a → 0 ≤ s < ip_slots a →
  ∃ a', Free a s = Ok a' ∧ ip_wf a' ∧ ip_base a' = ip_base a ∧ ip_maskLen a' = ip_maskLen a ∧
    ip_slots a' = ip_slots a ∧ ∀ q, 0 ≤ q → used a' q = negb (q =? s) && used a q.
Proof.
  intros Hwf Hs. pose proof Hwf as (? & ? & ? & ? & Hlen & Hall & Hhint & Hh & Hhi).
  unfold Free. or_is false.
  assert (0 ≤ s / 64 < zlen (ip_bitmap a)) as Hw.
  { rewrite Hlen. split; [apply Z.div_pos; lia|]. apply Z.div_lt_upper_bound; [lia|].
    pose proof (Z.div_mod (ip_slots a + 63) 64). pose proof (Z.mod_pos_bound (ip_slots a + 63) 64). lia. }
  destruct (at_ok _ _ Hw) as [word Hword]. rewrite Hword. cbn [must mbind res_bind].
  unfold set_at. and_is true. cbn [must mbind res_bind]. eexists. split; [done|].
  set (a' := mkIPAllocator _ _ _ _ _).
  assert (∀ q, 0 ≤ q → used a' q = negb (q =? s) && used a q) as Hq
    by (intros q Hq; unfold used, a'; cbn; apply bit_at_clear; done || lia).
  splits; try done. unfold ip_wf. splits; cbn; try done; try lia; try (case_match; b2p; lia).
  - unfold zlen in *. by rewrite length_insert.
  - apply Forall_insert; [done|]. apply fits_ldiff.
    apply at_Some in Hword as [_ Hword]. by eapply Forall_lookup_1 in Hall.
  - intros q Hq'. rewrite Hq by lia. replace (q =? s) with false by (case_match; b2p; lia).
    apply Hh. case_match; b2p; lia.
  - intros q Hq'. rewrite Hq by lia. rewrite Hhi by done. apply andb_false_r.
Qed.

Lemma NewIPAllocator_wf base bl ml a :
  NewIPAllocator base bl ml = Ok a →
  0 ≤ bl → 0 ≤ base → base + 2 ^ (32 - bl) ≤ 2 ^ 32 →
  ip_wf a ∧ ip_base a = base ∧ ip_maskLen a = ml ∧ ip_slots a = 2 ^ (ml - bl) ∧
  ∀ s, used a s = false.
Proof.
  unfold NewIPAllocator. intros H Hbl Hb Hr. case_match; [done|]. b2p. injection H as <-.
  assert (1 .<< (ml - bl) = 2 ^ (ml - bl)) as Hsh by (rewrite Z.shiftl_mul_pow2 by lia; lia).
  assert (0 < 2 ^ (ml - bl)) by (apply Z.pow_pos_nonneg; lia).
  assert (∀ s, bit_at (replicate (Z.to_nat ((2 ^ (ml - bl) + 63) / 64)) 0) s = false) as Hz.
  { intros s. unfold bit_at. destruct (at_ _ _) as [w|] eqn:E; [|done].
    apply at_Some in E as [_ E]. apply lookup_replicate in E as [-> _]. apply Z.testbit_0_l. }
  unfold ip_wf, used. cbn. rewrite Hsh. splits; try done; try lia.
  - rewrite <- Z.pow_add_r by lia. by replace (ml - bl + (32 - ml)) with (32 - bl) by lia.
  - unfold zlen. rewrite length_replicate. rewrite Z2Nat.id; [done|]. apply Z.div_pos; lia.
  - apply Forall_replicate. by unfold fits.
Qed.

(** ** The parallel bit count

    A 64-bit number is eight bytes; the masks of [popcount] keep every step of
    the computation inside a byte, so it suffices to look at one byte, where
    the claim is checked for the 256 values. *)

(** The reference: one bit at a time. *)
Fixpoint ones (n : nat) (v : Z) : Z :=
  match n with
  | O => 0
  | S n => Z.b2z (Z.odd v) + ones n (v / 2)
  end.

Lemma ones_app k n b d : 0 ≤ b < 2 ^ Z.of_nat k → ones (k + n) (b + 2 ^ Z.of_nat k * d) = ones k b + ones n d.
Proof.
  revert b. induction k as [|k IH]; intros b Hb; cbn [ones Nat.add].
  - change (2 ^ Z.of_nat 0) with 1 in *. rewrite Z.add_0_l. f_equal. lia.
  - rewrite Nat2Z.inj_succ, Z.pow_succ_r in * by lia.
    replace (b + 2 * 2 ^ Z.of_nat k * d) with (b + 2 * (2 ^ Z.of_nat k * d)) by lia.
    rewrite Z.odd_add_mul_2, (Z.mul_comm 2 (_ * d)), Z.div_add by lia.
    rewrite IH; [lia|]. split; [apply Z.div_pos; lia|]. apply Z.div_lt_upper_bound; lia.
Qed.

Lemma le_decode_testbit l i :
  bytes l → 0 ≤ i →
  Z.testbit (le_decode l) i = match l !! Z.to_nat (i / 8) with
                              | Some b => Z.testbit b (i mod 8) | None => false end.
Proof.
  intros Hl. revert i. induction Hl as [|b l Hb Hl IH]; intros i Hi; simpl; [apply Z.testbit_0_l|].
  unfold is_byte in Hb. destruct (Z.lt_ge_cases i 8).
  - rewrite Z.div_small, Z.mod_small by lia. simpl.
    rewrite <- (Z.mod_pow2_bits_low (b + 256 * le_decode l) 8) by lia.
    f_equal. change 256 with (2 ^ 8). rewrite Z.mul_comm, Z.mod_add by lia. apply Z.mod_small. simpl; lia.
  - replace (Z.to_nat (i / 8)) with (S (Z.to_nat ((i - 8) / 8))).
    + simpl. rewrite <- (Z.sub_add 8 i) at 1. rewrite <- (Z.div_pow2_bits _ 8) by lia.
      replace (i mod 8) with ((i - 8) mod 8).
      * rewrite <- IH by lia. f_equal. change (2 ^ 8) with 256. rewrite Z.mul_comm, Z.div_add by lia.
        rewrite Z.div_small; lia.
      * replace i with (i - 8 + 1 * 8) at 2 by lia. by rewrite Z.mod_add.
    + replace i with (i - 8 + 1 * 8) at 2 by lia. rewrite Z.div_add by lia.
      pose proof (Z.div_pos (i - 8) 8). lia.
Qed.

(** Shifting and masking acts on each byte when the mask drops the bits that
    come from the byte above. *)
Lemma lanes_shift_mask k m l :
  0 ≤ k ≤ 8 → 0 ≤ m < 2 ^ (8 - k) → bytes l →
  (le_decode l .>> k) .& le_decode (replicate (length l) m)
    = le_decode ((λ b, (b .>> k) .& m) <$> l).
Proof.
  intros Hk Hm Hl.
  assert (2 ^ (8 - k) ≤ 2 ^ 8) by (apply Z.pow_le_mono_r; lia).
  assert (bytes (replicate (length l) m)) as Hbm
    by (apply Forall_replicate; unfold is_byte; change 256 with (2 ^ 8); lia).
  assert (bytes ((λ b, (b .>> k) .& m) <$> l)) as Hbl.
  { apply Forall_fmap. eapply Forall_impl; [exact Hl|]. intros b [Hb _]. unfold compose, is_byte.
    change 256 with (2 ^ 8). rewrite Z.land_comm. apply (fits_land 8); [unfold fits; lia|].
    by apply Z.shiftr_nonneg. }
  apply Z.bits_inj'. intros i Hi.
  rewrite Z.land_spec, Z.shiftr_spec, !le_decode_testbit by (done || lia).
  rewrite list_lookup_fmap.
  pose proof (Z.mod_pos_bound i 8). pose proof (Z.div_mod i 8).
  destruct (Z.lt_ge_cases (i mod 8 + k) 8) as [Hlt|Hge].
  - assert ((i + k) / 8 = i / 8) as Hd by (symmetry; apply Z.div_unique with (i mod 8 + k); lia).
    assert ((i + k) mod 8 = i mod 8 + k) as Hm8 by (symmetry; apply Z.mod_unique with (i / 8); lia).
    rewrite Hd, Hm8. destruct (l !! Z.to_nat (i / 8)) as [b|] eqn:E; simpl.
    + rewrite lookup_replicate_2 by (apply lookup_lt_Some in E; lia).
      by rewrite Z.land_spec, Z.shiftr_spec by lia.
    + done.
  - assert (∀ j, 8 - k ≤ j → Z.testbit m j = false) as Hmz by (intros j Hj; by apply (fits_testbit (8 - k))).
    assert (match replicate (length l) m !! Z.to_nat (i / 8) with
            | Some b => Z.testbit b (i mod 8) | None => false end = false) as ->.
    { destruct (replicate _ _ !! _) as [b|] eqn:E; [|done].
      apply lookup_replicate in E as [-> _]. apply Hmz. lia. }
    rewrite andb_false_r. destruct (l !! Z.to_nat (i / 8)); [|done]. simpl.
    rewrite Z.land_spec, Hmz by lia. by rewrite andb_false_r.
Qed.

(** The three steps on one byte. *)
Definition byte1 (b : Z) : Z := b - ((b .>> 1) .& 0x55).
Definition byte2 (b : Z) : Z := (b .& 0x33) + ((b .>> 2) .& 0x33).

Lemma byte_count b :
  is_byte b → is_byte (byte1 b) ∧
  let d := byte2 (byte1 b) in
  0 ≤ d / 16 ≤ 4 ∧ 0 ≤ d mod 16 ≤ 4 ∧ d / 16 + d mod 16 = ones 8 b.
Proof.
  intros Hb.
  assert (forallb (λ b, (0 <=? byte1 b) && (byte1 b <? 256) &&
      (let d := byte2 (byte1 b) in (0 <=? d / 16) && (d / 16 <=? 4) && (0 <=? d mod 16) &&
       (d mod 16 <=? 4) && (d / 16 + d mod 16 =? ones 8 b))) (seqZ 0 256) = true) as H
    by (vm_compute; reflexivity).
  rewrite forallb_forall in H. specialize (H b). rewrite <- list_elem_of_In, elem_of_seqZ in H.
  specialize (H ltac:(unfold is_byte in Hb; lia)). cbv zeta in *. b2p. unfold is_byte. splits; done.
Qed.

Lemma le_decode_map_sub (f g : Z → Z) l :
  le_decode ((λ b, f b - g b) <$> l) = le_decode (f <$> l) - le_decode (g <$> l).
Proof. induction l as [|b l IH]; [done|]. rewrite !fmap_cons. cbn [le_decode]. lia. Qed.
Lemma le_decode_map_add (f g : Z → Z) l :
  le_decode ((λ b, f b + g b) <$> l) = le_decode (f <$> l) + le_decode (g <$> l).
Proof. induction l as [|b l IH]; [done|]. rewrite !fmap_cons. cbn [le_decode]. lia. Qed.

Lemma lanes_mask m l :
  0 ≤ m < 2 ^ 8 → bytes l →
  le_decode l .& le_decode (replicate (length l) m) = le_decode ((λ b, b .& m) <$> l).
Proof. intros Hm Hl. exact (lanes_shift_mask 0 m l ltac:(lia) Hm Hl). Qed.

Lemma step1_lanes l :
  bytes l → length l = 8%nat →
  u64 (le_decode l - ((le_decode l .>> 1) .& 0x5555555555555555)) = le_decode (byte1 <$> l) ∧
  bytes (byte1 <$> l).
Proof.
  intros Hl Hlen.
  assert (bytes (byte1 <$> l)) as Hb
    by (apply Forall_fmap; eapply Forall_impl; [exact Hl|]; intros b Hb; by apply byte_count).
  split; [|done]. pose proof (lanes_shift_mask 1 0x55 l ltac:(lia) ltac:(lia) Hl) as Hm.
  rewrite Hlen in Hm. change (le_decode (replicate 8 0x55)) with 0x5555555555555555 in Hm. rewrite Hm.
  rewrite <- (list_fmap_id l) at 1. rewrite <- le_decode_map_sub. apply u64_small.
  pose proof (le_decode_bound _ Hb) as Hbd. unfold zlen in Hbd. rewrite length_fmap, Hlen in Hbd. exact Hbd.
Qed.

Lemma step2_lanes l :
  bytes l → length l = 8%nat → Forall (λ b, is_byte (byte2 b)) l →
  u64 ((le_decode l .& 0x3333333333333333) + ((le_decode l .>> 2) .& 0x3333333333333333))
    = le_decode (byte2 <$> l).
Proof.
  intros Hl Hlen Hb2. pose proof (lanes_shift_mask 2 0x33 l ltac:(lia) ltac:(lia) Hl) as Hm.
  pose proof (lanes_mask 0x33 l ltac:(lia) Hl) as Hm0. rewrite Hlen in Hm, Hm0.
  change (le_decode (replicate 8 0x33)) with 0x3333333333333333 in Hm, Hm0. rewrite Hm, Hm0.
  rewrite <- le_decode_map_add. apply u64_small.
  assert (bytes (byte2 <$> l)) as Hb by (by apply Forall_fmap).
  pose proof (le_decode_bound _ Hb) as Hbd. unfold zlen in Hbd. rewrite length_fmap, Hlen in Hbd. exact Hbd.
Qed.

(** The last step adds the two halves of each byte, then all bytes. *)
Lemma land_15 a b : 0 ≤ b < 16 → (16 * a + b) .& 15 = b.
Proof.
  intros Hb. change 15 with (Z.ones 4). rewrite Z.land_ones by lia. change (2 ^ 4) with 16.
  rewrite Z.add_comm, Z.mul_comm, Z.mod_add by lia. apply Z.mod_small. lia.
Qed.

Lemma sum_lanes c0 c1 c2 c3 c4 c5 c6 c7 :
  Forall (λ x, 0 ≤ x ≤ 8) [c0; c1; c2; c3; c4; c5; c6; c7] →
  u64 (le_decode [c0; c1; c2; c3; c4; c5; c6; c7] * 0x0101010101010101) .>> 56 = c0 + c1 + c2 + c3 + c4 + c5 + c6 + c7.
Proof.
  intros Hc. rewrite !Forall_cons in Hc. cbn [le_decode]. rewrite Z.shiftr_div_pow2 by lia.
  set (r := le_decode [c0; c0 + c1; c0 + c1 + c2; c0 + c1 + c2 + c3; c0 + c1 + c2 + c3 + c4; c0 + c1 + c2 + c3 + c4 + c5; c0 + c1 + c2 + c3 + c4 + c5 + c6; c0 + c1 + c2 + c3 + c4 + c5 + c6 + c7]).
  assert (u64 ((c0 + 256 * (c1 + 256 * (c2 + 256 * (c3 + 256 * (c4 + 256 * (c5 + 256 * (c6
    + 256 * (c7 + 256 * 0)))))))) * 0x0101010101010101) = r) as ->.
  { unfold u64. symmetry. apply Z.mod_unique with (le_decode [c1 + c2 + c3 + c4 + c5 + c6 + c7; c2 + c3 + c4 + c5 + c6 + c7; c3 + c4 + c5 + c6 + c7; c4 + c5 + c6 + c7; c5 + c6 + c7; c6 + c7; c7]);
      unfold r; cbn [le_decode]; lia. }
  symmetry. apply Z.div_unique with (le_decode [c0; c0 + c1; c0 + c1 + c2; c0 + c1 + c2 + c3; c0 + c1 + c2 + c3 + c4; c0 + c1 + c2 + c3 + c4 + c5; c0 + c1 + c2 + c3 + c4 + c5 + c6]); unfold r; cbn [le_decode]; lia.
Qed.

Lemma step3_sum h0 h1 h2 h3 h4 h5 h6 h7 l0 l1 l2 l3 l4 l5 l6 l7 :
  Forall (λ x, 0 ≤ x ≤ 4) [h0; h1; h2; h3; h4; h5; h6; h7] → Forall (λ x, 0 ≤ x ≤ 4) [l0; l1; l2; l3; l4; l5; l6; l7] →
  let v := le_decode [16 * h0 + l0; 16 * h1 + l1; 16 * h2 + l2; 16 * h3 + l3; 16 * h4 + l4; 16 * h5 + l5; 16 * h6 + l6; 16 * h7 + l7] in
  u64 ((u64 (v + (v .>> 4)) .& 0x0F0F0F0F0F0F0F0F) * 0x0101010101010101) .>> 56
    = (h0 + l0) + (h1 + l1) + (h2 + l2) + (h3 + l3) + (h4 + l4) + (h5 + l5) + (h6 + l6) + (h7 + l7).
Proof.
  intros Hh Hl v. rewrite !Forall_cons in Hh, Hl.
  assert (v .>> 4 = le_decode [h0 + 16 * l1; h1 + 16 * l2; h2 + 16 * l3; h3 + 16 * l4; h4 + 16 * l5; h5 + 16 * l6; h6 + 16 * l7; h7]) as ->.
  { rewrite Z.shiftr_div_pow2 by lia. symmetry. apply Z.div_unique with l0; [lia|].
    unfold v. cbn [le_decode]. lia. }
  set (w := [16 * (h0 + l1) + (h0 + l0); 16 * (h1 + l2) + (h1 + l1); 16 * (h2 + l3) + (h2 + l2); 16 * (h3 + l4) + (h3 + l3); 16 * (h4 + l5) + (h4 + l4); 16 * (h5 + l6) + (h5 + l5); 16 * (h6 + l7) + (h6 + l6); 16 * h7 + (h7 + l7)]).
  assert (bytes w) as Hw by (unfold w, bytes, is_byte; rewrite !Forall_cons; splits; done || lia).
  assert (u64 (v + le_decode [h0 + 16 * l1; h1 + 16 * l2; h2 + 16 * l3; h3 + 16 * l4; h4 + 16 * l5; h5 + 16 * l6; h6 + 16 * l7; h7]) = le_decode w) as ->.
  { pose proof (le_decode_bound w Hw) as Hb.
    rewrite u64_small; unfold v, w in *; cbn [le_decode zlen length] in *; lia. }
  pose proof (lanes_mask 15 w ltac:(lia) Hw) as Hm. cbn [w length] in Hm.
  change (le_decode (replicate 8 15)) with 0x0F0F0F0F0F0F0F0F in Hm. rewrite Hm.
  cbn [w fmap list_fmap]. rewrite !land_15 by lia.
  apply sum_lanes. rewrite !Forall_cons. splits; done || lia.
Qed.

Lemma ones_bytes n l : bytes l → length l = n → ones (8 * n) (le_decode l) = foldr (λ b s, ones 8 b + s) 0 l.
Proof.
  intros Hl. revert n. induction Hl as [|b l Hb Hl IH]; intros n Hn; simpl in Hn; subst n; [done|].
  cbn [foldr le_decode]. rewrite <- (IH (length l)) by done.
  replace (8 * S (length l))%nat with (8 + 8 * length l)%nat by lia.
  apply (ones_app 8 (8 * length l) b (le_decode l)). exact Hb.
Qed.

Lemma popcount_ones v : fits 64 v → popcount v = ones 64 v.
Proof.
  intros Hv. rewrite <- (le_decode_encode 8 v) by exact Hv.
  pose proof (le_encode_bytes 8 v) as Hl. pose proof (le_encode_len 8 v) as Hlen.
  set (l := le_encode 8 v) in *. clearbody l.
  pose proof (ones_bytes 8 l Hl Hlen) as Hones. change (8 * 8)%nat with 64%nat in Hones.
  rewrite Hones. clear Hones. unfold popcount. cbv zeta.
  destruct (step1_lanes l Hl Hlen) as [-> Hl1].
  assert (Forall (λ b, 0 ≤ byte2 b / 16 ≤ 4 ∧ 0 ≤ byte2 b mod 16 ≤ 4) (byte1 <$> l)) as Hd.
  { apply Forall_fmap. eapply Forall_impl; [exact Hl|]. intros b Hb.
    destruct (byte_count b Hb) as (_ & ? & ? & _). done. }
  rewrite step2_lanes; [|done|by rewrite length_fmap|].
  2:{ eapply Forall_impl; [exact Hd|]. intros b [? ?]. unfold is_byte. pose proof (Z.div_mod (byte2 b) 16). lia. }
  rewrite <- list_fmap_compose.
  do 8 (destruct l as [|? l]; [done|]). destruct l; [|done]. clear Hlen Hl1.
  unfold bytes in Hl. rewrite !Forall_cons in Hl. rewrite !fmap_cons in *. rewrite !Forall_cons in Hd.
  cbn [fmap list_fmap foldr]. unfold compose.
  assert (∀ d, 16 * (d / 16) + d mod 16 = d) as Hsplit by (intros d; pose proof (Z.div_mod d 16); lia).
  match goal with |- context [le_decode [?x0; ?x1; ?x2; ?x3; ?x4; ?x5; ?x6; ?x7]] =>
    pose proof (step3_sum (x0 / 16) (x1 / 16) (x2 / 16) (x3 / 16) (x4 / 16) (x5 / 16) (x6 / 16) (x7 / 16)
      (x0 mod 16) (x1 mod 16) (x2 mod 16) (x3 mod 16) (x4 mod 16) (x5 mod 16) (x6 mod 16) (x7 mod 16)) as Hsum
  end.
  rewrite !Hsplit in Hsum. cbv zeta in Hsum. cbv beta in Hd.
  rewrite Hsum; [|rewrite !Forall_cons; splits; try (by apply Forall_nil); tauto..].
  destruct Hl as (B0 & B1 & B2 & B3 & B4 & B5 & B6 & B7 & _).
  pose proof (byte_count _ B0) as (_ & _ & _ & <-). pose proof (byte_count _ B1) as (_ & _ & _ & <-).
  pose proof (byte_count _ B2) as (_ & _ & _ & <-). pose proof (byte_count _ B3) as (_ & _ & _ & <-).
  pose proof (byte_count _ B4) as (_ & _ & _ & <-). pose proof (byte_count _ B5) as (_ & _ & _ & <-).
  pose proof (byte_count _ B6) as (_ & _ & _ & <-). pose proof (byte_count _ B7) as (_ & _ & _ & <-).
  lia.
Qed.

(** ** Counting the allocated slots *)

Fixpoint cnt (P : Z → bool) (m : Z) (n : nat) : Z :=
  match n with
  | O => 0
  | S n => Z.b2z (P m) + cnt P (m + 1) n
  end.

Lemma cnt_ext P Q m k n : (∀ s, m ≤ s → P (s + k) = Q s) → cnt P (m + k) n = cnt Q m n.
Proof.
  revert m. induction n as [|n IH]; intros m H; simpl; [done|]. rewrite H by lia. f_equal.
  replace (m + k + 1) with (m + 1 + k) by lia. apply IH. intros s Hs. apply H. lia.
Qed.

Lemma cnt_app P m n k : cnt P m (n + k) = cnt P m n + cnt P (m + Z.of_nat n) k.
Proof.
  revert m. induction n as [|n IH]; intros m; cbn [cnt Nat.add]; [by rewrite Z.add_0_r|].
  rewrite IH. replace (m + 1 + Z.of_nat n) with (m + Z.of_nat (S n)) by lia. lia.
Qed.

Lemma cnt_filter P m n :
  cnt P m n = zlen (filter (λ s, P s = true) (seqZ m (Z.of_nat n))).
Proof.
  revert m. induction n as [|n IH]; intros m; cbn [cnt]; [done|].
  rewrite Nat2Z.inj_succ, seqZ_cons, filter_cons by lia. rewrite Z.pred_succ, IH, <- Z.add_1_r.
  destruct (P m) eqn:E; cbn [Z.b2z decide]; [|done]. rewrite decide_True by done. by rewrite zlen_cons.
Qed.

Lemma ones_cnt n v : ones n v = cnt (Z.testbit v) 0 n.
Proof.
  revert v. induction n as [|n IH]; intros v; cbn [ones cnt]; [done|]. rewrite Z.bit0_odd, IH. f_equal.
  symmetry. apply (cnt_ext _ _ 0 1). intros s Hs. by rewrite <- (Z.div_pow2_bits v 1 s) by lia.
Qed.

Lemma InUse_cnt a :
  Forall (fits 64) (ip_bitmap a) → InUse a = cnt (used a) 0 (64 * length (ip_bitmap a)).
Proof.
  unfold InUse, used. generalize (ip_bitmap a) as bm. intros bm Hbm.
  assert (∀ n, foldl (λ n w, n + popcount w) n bm = n + cnt (bit_at bm) 0 (64 * length bm)) as H;
    [|by rewrite H].
  induction Hbm as [|w ws Hw Hws IH]; intros n; [cbn; lia|]. cbn [foldl length]. rewrite IH.
  replace (64 * S (length ws))%nat with (64 + 64 * length ws)%nat by lia. rewrite cnt_app.
  assert (cnt (bit_at (w :: ws)) 0 64 = popcount w) as ->.
  { rewrite popcount_ones, ones_cnt by done.
    assert (∀ P Q m n, (∀ s, m ≤ s < m + Z.of_nat n → P s = Q s) → cnt P m n = cnt Q m n) as Hext.
    { intros P Q m k. revert m. induction k as [|k IHk]; intros m Hk; cbn [cnt]; [done|].
      rewrite Hk by lia. f_equal. apply IHk. intros s Hs. apply Hk. lia. }
    apply Hext. intros s Hs. unfold bit_at. rewrite Z.div_small, Z.mod_small by lia. done. }
  rewrite (cnt_ext _ (bit_at ws) 0 (Z.of_nat 64)); [lia|].
  intros s Hs. unfold bit_at, at_. change (Z.of_nat 64) with (1 * 64).
  rewrite Z.div_add, Z.mod_add by lia. pose proof (Z.div_pos s 64). le_is true. le_is true.
  by replace (Z.to_nat (s / 64 + 1)) with (S (Z.to_nat (s / 64))) by lia.
Qed.

(** The number of allocated slots, from the set of them. *)
Lemma InUse_set a (ss : list Z) :
  ip_wf a → NoDup ss → (∀ s, s ∈ ss ↔ 0 ≤ s < ip_slots a ∧ used a s = true) → InUse a = zlen ss.
Proof.
  intros Hwf Hnd Hss. pose proof Hwf as (_ & _ & Hsl & _ & Hlen & Hall & _ & _ & Hhi).
  rewrite InUse_cnt, cnt_filter by done. unfold zlen. f_equal. apply Permutation_length.
  apply NoDup_Permutation; [apply NoDup_filter, NoDup_seqZ|done|].
  intros s. rewrite list_elem_of_filter, elem_of_seqZ, Hss. unfold zlen in Hlen.
  pose proof (Z.div_mod (ip_slots a + 63) 64). pose proof (Z.mod_pos_bound (ip_slots a + 63) 64).
  split.
  - intros [Hu Hs]. split; [|done]. split; [lia|].
    destruct (Z.lt_ge_cases s (ip_slots a)); [done|]. rewrite Hhi in Hu; done.
  - intros [Hs Hu]. split; [done|lia].
Qed.

(** ** Addresses of a lease *)

Lemma ipv4_roundtrip n : fits 32 n → ipv4ToUint32 (uint32ToIPv4 n) = Ok n.
Proof.
  intros Hn. change (Ok ((u8 (n .>> 24) .<< 24) .| (u8 (n .>> 16) .<< 16) .| (u8 (n .>> 8) .<< 8) .| u8 n)
    = (Ok n : res iperr Z)). f_equal.
  apply Z.bits_inj'. intros i Hi. unfold u8.
  rewrite !Z.lor_spec, !Z.shiftl_spec by lia.
  assert (∀ x j, 0 ≤ j → Z.testbit (x mod 2 ^ 8) j = (j <? 8) && Z.testbit x j) as Hm.
  { intros x j Hj. destruct (Z.ltb_spec j 8).
    - by rewrite Z.mod_pow2_bits_low.
    - by rewrite Z.mod_pow2_bits_high by lia. }
  destruct (Z.lt_ge_cases i 32) as [Hi32|Hi32].
  - destruct (Z.lt_ge_cases i 8); [|destruct (Z.lt_ge_cases i 16); [|destruct (Z.lt_ge_cases i 24)]];
      repeat match goal with
      | |- context [Z.testbit ?x (i - ?k)] => rewrite (Z.testbit_neg_r x (i - k)) by lia
      | |- context [Z.testbit (?x mod 2 ^ 8) (i - ?k)] => rewrite (Hm x (i - k)) by lia
      | |- context [Z.testbit (?x mod 2 ^ 8) i] => rewrite (Hm x i) by lia
      | |- context [?a <? ?b] => first [lt_is true | lt_is false]
      end; rewrite ?Z.shiftr_spec by lia; cbn [orb andb];
      rewrite ?orb_false_r; f_equal; lia.
  - rewrite (fits_testbit 32 n i Hn Hi32). rewrite !Hm by lia.
    replace (i - 24 <? 8) with false by lia. replace (i - 16 <? 8) with false by lia.
    replace (i - 8 <? 8) with false by lia. replace (i <? 8) with false by lia. done.
Qed.

(** The subnet of a slot, while a subnet has at least four addresses. *)
Lemma lease_addrs a s :
  ip_wf a → ip_maskLen a ≤ 30 → 0 ≤ s < ip_slots a →
  let net := ip_base a + s * 2 ^ (32 - ip_maskLen a) in
  la_Slot (leaseFromSlot a s) = s ∧
  la_Gateway (leaseFromSlot a s) = uint32ToIPv4 (net + 1) ∧
  la_IP (leaseFromSlot a s) = uint32ToIPv4 (net + 2) ∧
  la_MAC (leaseFromSlot a s) = [2; 0] ++ uint32ToIPv4 (net + 2) ∧
  ip_base a ≤ net ∧ net + 2 ^ (32 - ip_maskLen a) ≤ ip_base a + ip_slots a * 2 ^ (32 - ip_maskLen a).
Proof.
  intros (Hm & Hb & Hsl & Hr & _) Hm30 Hs net. unfold leaseFromSlot.
  assert (1 .<< (32 - ip_maskLen a) = 2 ^ (32 - ip_maskLen a)) as -> by (rewrite Z.shiftl_mul_pow2 by lia; lia).
  assert (2 ^ 2 ≤ 2 ^ (32 - ip_maskLen a)) by (apply Z.pow_le_mono_r; lia).
  set (h := 2 ^ (32 - ip_maskLen a)) in *. cbn in H |- *.
  assert (0 ≤ s * h) by nia. assert (s * h + h ≤ ip_slots a * h) by nia.
  rewrite (u32_small (s * h)) by lia. fold net.
  assert (0 ≤ net ∧ net + 4 ≤ 2 ^ 32) by (unfold net; lia). rewrite (u32_small net), !u32_small by lia.
  splits; try done; unfold net; nia.
Qed.

(** ** Executions: leases are taken, and each is given back by its holder *)

Inductive ip_step : IPAllocator * list LeaseAddr → IPAllocator * list LeaseAddr → Prop :=
  | ip_alloc a a' l held :
      Allocate a = Ok (a', l) → ip_step (a, held) (a', l :: held)
  | ip_free a a' l h1 h2 :
      Free a (la_Slot l) = Ok a' → ip_step (a, h1 ++ l :: h2) (a', h1 ++ h2).

Definition held_inv (a0 : IPAllocator) (st : IPAllocator * list LeaseAddr) : Prop :=
  let '(a, held) := st in
  ip_wf a ∧ ip_base a = ip_base a0 ∧ ip_maskLen a = ip_maskLen a0 ∧ ip_slots a = ip_slots a0 ∧
  Forall (λ l, l = leaseFromSlot a0 (la_Slot l)) held ∧
  NoDup (la_Slot <$> held) ∧
  ∀ s, s ∈ la_Slot <$> held ↔ 0 ≤ s < ip_slots a ∧ used a s = true.

Lemma leaseFromSlot_cfg a a0 s :
  ip_base a = ip_base a0 → ip_maskLen a = ip_maskLen a0 → leaseFromSlot a s = leaseFromSlot a0 s.
Proof. intros Hb Hm. unfold leaseFromSlot. by rewrite Hb, Hm. Qed.

Lemma ip_step_inv a0 st st' : ip_step st st' → held_inv a0 st → held_inv a0 st'.
Proof.
  intros [a a' l held Hal|a a' l h1 h2 Hfr] (Hwf & Hb & Hm & Hs & Hall & Hnd & Hset).
  - destruct (Allocate_spec a Hwf) as [(a2 & l2 & s & Heq & Hok)|[Heq _]]; [|congruence].
    rewrite Hal in Heq. injection Heq as <- <-.
    destruct Hok as (-> & Hsr & Hfree & _ & Hq & Hb' & Hm' & Hs' & Hwf').
    unfold held_inv. rewrite fmap_cons. cbn [la_Slot leaseFromSlot]. splits; try done; try congruence.
    + constructor; [|done]. cbn. by apply leaseFromSlot_cfg.
    + constructor; [|done]. rewrite Hset. intros [_ ?]. congruence.
    + intros q. rewrite elem_of_cons, Hset, Hs'. destruct (decide (0 ≤ q)) as [Hq0|].
      * rewrite Hq by done. rewrite orb_true_iff, Z.eqb_eq. naive_solver lia.
      * naive_solver lia.
  - rewrite fmap_app, fmap_cons in *. apply Forall_app in Hall as [Hall1 Hall2].
    inversion Hall2 as [|? ? Hl Hall2']; subst.
    assert (la_Slot l ∈ la_Slot <$> h1 ++ l :: h2) as Hin by (rewrite fmap_app, fmap_cons; set_solver).
    rewrite fmap_app, fmap_cons in Hin. apply Hset in Hin as [Hlr _].
    destruct (Free_spec a (la_Slot l) Hwf Hlr) as (a2 & Heq & Hwf' & Hb' & Hm' & Hs' & Hq).
    rewrite Hfr in Heq. injection Heq as <-.
    apply NoDup_app in Hnd as (Hn1 & Hdis & Hn2). inversion Hn2 as [|? ? Hnl Hn2']; subst.
    unfold held_inv. rewrite fmap_app. splits; try done; try congruence.
    + by apply Forall_app.
    + apply NoDup_app. splits; [done| |done]. intros x Hx Hx2. apply (Hdis x Hx). by right.
    + intros q. rewrite Hs'. pose proof (Hset q) as Hsq. rewrite elem_of_app, elem_of_cons in Hsq.
      rewrite elem_of_app.
      destruct (decide (0 ≤ q)) as [Hq0|]; [|naive_solver lia].
      rewrite Hq, andb_true_iff, negb_true_iff, Z.eqb_neq by done.
      destruct (decide (q = la_Slot l)) as [->|]; [|naive_solver].
      split; [|naive_solver]. intros [Hx|Hx]; [|done].
      exfalso. apply (Hdis _ Hx). by left.
Qed.

Lemma held_inv_run a0 st st' : rtc ip_step st st' → held_inv a0 st → held_inv a0 st'.
Proof. induction 1; eauto using ip_step_inv. Qed.

Lemma fresh_held_inv base bl ml a0 :
  NewIPAllocator base bl ml = Ok a0 → 0 ≤ bl → 0 ≤ base → base + 2 ^ (32 - bl) ≤ 2 ^ 32 →
  held_inv a0 (a0, []).
Proof.
  intros H Hbl Hb Hr. destruct (NewIPAllocator_wf _ _ _ _ H Hbl Hb Hr) as (Hwf & _ & _ & _ & Hfree).
  unfold held_inv. splits; try done; [constructor|]. intros s. cbn. rewrite Hfree. set_solver.
Qed.

Lemma uint32ToIPv4_inj n m : fits 32 n → fits 32 m → uint32ToIPv4 n = uint32ToIPv4 m → n = m.
Proof.
  intros Hn Hm Heq. apply (f_equal ipv4ToUint32) in Heq. rewrite !ipv4_roundtrip in Heq by done. congruence.
Qed.

(** ** Properties *)

(** Leases never collide. From a fresh allocator of /30 (or larger)
    subnets, in every execution in which holders take leases and give back
    their own, any two outstanding leases have different gateways, guest
    addresses and MACs, no gateway is another lease's guest address, and every
    address lies in the base range. *)
Theorem leases_disjoint base bl ml a0 a held :
  NewIPAllocator base bl ml = Ok a0 → 0 ≤ bl → 0 ≤ base → base + 2 ^ (32 - bl) ≤ 2 ^ 32 → ml ≤ 30 →
  rtc ip_step (a0, []) (a, held) →
  (∀ l, l ∈ held → ∃ net, base ≤ net ∧ net + 4 ≤ base + 2 ^ (32 - bl) ∧
     ipv4ToUint32 (la_Gateway l) = Ok (net + 1) ∧ ipv4ToUint32 (la_IP l) = Ok (net + 2)) ∧
  (∀ i j li lj, held !! i = Some li → held !! j = Some lj → i ≠ j →
     la_Gateway li ≠ la_Gateway lj ∧ la_IP li ≠ la_IP lj ∧ la_Gateway li ≠ la_IP lj ∧
     la_MAC li ≠ la_MAC lj).
Proof.
  intros Hnew Hbl Hb Hr Hml Hrun.
  destruct (NewIPAllocator_wf _ _ _ _ Hnew Hbl Hb Hr) as (Hwf0 & Hb0 & Hm0 & Hs0 & _).
  destruct (held_inv_run a0 _ _ Hrun (fresh_held_inv _ _ _ _ Hnew Hbl Hb Hr))
    as (Hwf & _ & _ & Hsl & Hall & Hnd & Hset).
  assert (0 ≤ ml ≤ 32) as Hml' by (destruct Hwf0; lia).
  assert (bl < ml) as Hlt.
  { unfold NewIPAllocator in Hnew. case_match; [done|]. b2p. lia. }
  assert (2 ^ 2 ≤ 2 ^ (32 - ml)) as Hh by (apply Z.pow_le_mono_r; lia).
  assert (ip_slots a0 * 2 ^ (32 - ml) = 2 ^ (32 - bl)) as Htot.
  { rewrite Hs0, <- Z.pow_add_r by lia. f_equal. lia. }
  assert (∀ l, l ∈ held → 0 ≤ la_Slot l < ip_slots a0 ∧ l = leaseFromSlot a0 (la_Slot l)) as Hl.
  { intros l Hin. split; [|by eapply Forall_forall in Hall].
    rewrite <- Hsl. apply (Hset (la_Slot l)). by apply list_elem_of_fmap_2. }
  assert (∀ l, l ∈ held → let net := base + la_Slot l * 2 ^ (32 - ml) in
    la_Gateway l = uint32ToIPv4 (net + 1) ∧ la_IP l = uint32ToIPv4 (net + 2) ∧
    la_MAC l = [2; 0] ++ uint32ToIPv4 (net + 2) ∧ base ≤ net ∧ net + 2 ^ (32 - ml) ≤ base + 2 ^ (32 - bl)) as Hnet.
  { intros l Hin net. destruct (Hl l Hin) as [Hrng Heq].
    pose proof (lease_addrs a0 (la_Slot l) Hwf0 ltac:(lia) Hrng) as (_ & Hg & Hi & Hma & Hlo & Hhi).
    rewrite Hb0, Hm0 in *. rewrite Htot in Hhi. rewrite <- Heq in *. done. }
  split.
  - intros l Hin. destruct (Hnet l Hin) as (Hg & Hi & _ & Hlo & Hhi). eexists. rewrite Hg, Hi.
    rewrite !ipv4_roundtrip by (unfold fits; lia). splits; [exact Hlo|lia|done|done].
  - intros i j li lj Hi Hj Hij.
    destruct (Hnet li) as (Hgi & Hii & Hmi & Hloi & Hhii); [by eapply list_elem_of_lookup_2|].
    destruct (Hnet lj) as (Hgj & Hij' & Hmj & Hloj & Hhij); [by eapply list_elem_of_lookup_2|].
    assert (la_Slot li ≠ la_Slot lj) as Hne.
    { intros Heq. apply Hij. eapply (NoDup_lookup _ _ _ (la_Slot li) Hnd); rewrite list_lookup_fmap, ?Hi, ?Hj; simpl; congruence. }
    set (h := 2 ^ (32 - ml)) in *.
    assert (la_Slot li * h + 4 ≤ la_Slot lj * h ∨ la_Slot lj * h + 4 ≤ la_Slot li * h) as Hsep by nia.
    rewrite Hgi, Hii, Hmi, Hgj, Hij', Hmj.
    splits; intros Heq; try apply (app_inv_head [2; 0]) in Heq;
      apply uint32ToIPv4_inj in Heq; unfold fits; lia.
Qed.

(** A fresh allocator over 198.19.0.0/16 and the one after two allocations. *)
Definition ex_base : Z := 198 * 2 ^ 24 + 19 * 2 ^ 16.
Definition ex_ipalloc : IPAllocator :=
  value_or (mkIPAllocator 0 0 0 [] 0) (NewIPAllocator ex_base 16 30).
Definition ex_alloc1 : IPAllocator * LeaseAddr :=
  value_or (ex_ipalloc, leaseFromSlot ex_ipalloc 0) (Allocate ex_ipalloc).
Definition ex_alloc2 : IPAllocator * LeaseAddr :=
  value_or ex_alloc1 (Allocate ex_alloc1.1).

Lemma ex_ip_run : rtc ip_step (ex_ipalloc, []) (ex_alloc2.1, [ex_alloc2.2; ex_alloc1.2]).
Proof.
  eapply rtc_l; [apply (ip_alloc _ ex_alloc1.1 ex_alloc1.2); vm_compute; reflexivity|].
  eapply rtc_l; [apply (ip_alloc _ ex_alloc2.1 ex_alloc2.2); vm_compute; reflexivity|]. constructor.
Qed.

Lemma leases_disjoint_witness :
  la_Gateway ex_alloc2.2 ≠ la_IP ex_alloc1.2 ∧ la_IP ex_alloc2.2 = [198; 19; 0; 6].
Proof.
  split; [|reflexivity].
  apply (proj2 (leases_disjoint ex_base 16 30 ex_ipalloc ex_alloc2.1 [ex_alloc2.2; ex_alloc1.2]
           eq_refl ltac:(lia) ltac:(by vm_compute) ltac:(by vm_compute) ltac:(lia) ex_ip_run)
           0%nat 1%nat); done.
Defined.

(** C27: the allocator implements a set of slots. In every execution the
    outstanding leases are exactly the slots marked in the bitmap: [InUse] is
    their number, [Allocate] fails exactly when all [Capacity] slots are out,
    and otherwise it returns the lowest slot that is not out (although it only
    searches from the hint). *)
Theorem allocator_refines_set base bl ml a0 a held :
  NewIPAllocator base bl ml = Ok a0 → 0 ≤ bl → 0 ≤ base → base + 2 ^ (32 - bl) ≤ 2 ^ 32 →
  rtc ip_step (a0, []) (a, held) →
  InUse a = zlen held ∧
  (Allocate a = Err ErrIPExhausted ↔ zlen held = Capacity a) ∧
  (zlen held ≠ Capacity a → ∃ a' l, Allocate a = Ok (a', l) ∧
     la_Slot l ∉ la_Slot <$> held ∧ 0 ≤ la_Slot l < Capacity a ∧
     ∀ s, 0 ≤ s < la_Slot l → s ∈ la_Slot <$> held).
Proof.
  intros Hnew Hbl Hb Hr Hrun.
  destruct (held_inv_run a0 _ _ Hrun (fresh_held_inv _ _ _ _ Hnew Hbl Hb Hr))
    as (Hwf & _ & _ & _ & _ & Hnd & Hset). unfold Capacity.
  assert (0 < ip_slots a) as Hsl by (by destruct Hwf as (_ & _ & ? & _)).
  assert (zlen (la_Slot <$> held) = zlen held) as Hlen by (unfold zlen; by rewrite length_fmap).
  assert ((∀ s, 0 ≤ s < ip_slots a → used a s = true) ↔ zlen held = ip_slots a) as Hfull.
  { rewrite <- Hlen. assert (zlen (seqZ 0 (ip_slots a)) = ip_slots a) as Hseq
      by (unfold zlen; rewrite length_seqZ; lia).
    assert (la_Slot <$> held ⊆+ seqZ 0 (ip_slots a)) as Hsub.
    { apply NoDup_submseteq; [done|]. intros s Hs. apply elem_of_seqZ. apply Hset in Hs. lia. }
    split.
    - intros Hall. rewrite <- Hseq. unfold zlen. f_equal. apply Permutation_length.
      apply NoDup_Permutation; [done|apply NoDup_seqZ|]. intros s. rewrite Hset, elem_of_seqZ. naive_solver lia.
    - intros Heq s Hs. rewrite <- Hseq in Heq. unfold zlen in Heq.
      apply submseteq_length_Permutation in Hsub; [|lia].
      apply (Hset s). rewrite Hsub. apply elem_of_seqZ. lia. }
  splits.
  - rewrite <- Hlen. by apply InUse_set.
  - destruct (Allocate_spec a Hwf) as [(a' & l & s & Heq & Hok)|[Heq Hall]]; rewrite Heq.
    + split; [done|]. intros Hz. rewrite <- Hfull in Hz. destruct Hok as (_ & Hs & Hf & _). rewrite Hz in Hf; done.
    + split; [|done]. intros _. by apply Hfull.
  - intros Hne. destruct (Allocate_spec a Hwf) as [(a' & l & s & Heq & Hok)|[Heq Hall]].
    + destruct Hok as (-> & Hs & Hf & Hlow & _). exists a', (leaseFromSlot a s). cbn.
      splits; try done; try lia; [by rewrite Hset; intros [_ ?]; congruence|].
      intros s' Hs'. apply Hset. split; [lia|by apply Hlow].
    + by apply Hfull in Hall.
Qed.

Lemma allocator_refines_set_witness : InUse ex_alloc2.1 = 2.
Proof.
  apply (allocator_refines_set ex_base 16 30 ex_ipalloc ex_alloc2.1 [ex_alloc2.2; ex_alloc1.2]
           eq_refl ltac:(lia) ltac:(by vm_compute) ltac:(by vm_compute) ex_ip_run).
Defined.

(** The parallel bit count is right: on every 64-bit word [popcount]
    returns the number of set bits. *)
Theorem popcount_exact v :
  fits 64 v → popcount v = zlen (filter (λ i, Z.testbit v i = true) (seqZ 0 64)).
Proof. intros Hv. by rewrite popcount_ones, ones_cnt, (cnt_filter _ 0 64). Qed.

Lemma popcount_exact_witness : popcount 0xF00000000000000F = 8.
Proof. etrans; [apply (popcount_exact 0xF00000000000000F); by unfold fits|reflexivity]. Defined.

(** [NewIPAllocator] accepts prefix lengths 31 and 32, for which a subnet has
    no room for a gateway and a guest: with /32 the guest address of a slot is
    the gateway of the next one. *)
Lemma narrow_subnets_collide a s :
  ip_maskLen a = 32 → 0 ≤ ip_base a → 0 ≤ s → ip_base a + s + 2 < 2 ^ 32 →
  la_IP (leaseFromSlot a s) = la_Gateway (leaseFromSlot a (s + 1)).
Proof.
  intros Hm Hb Hs Hr. unfold leaseFromSlot. rewrite Hm. cbn [la_IP la_Gateway].
  change (1 .<< (32 - 32)) with 1. rewrite !Z.mul_1_r, (u32_small s), (u32_small (s + 1)) by lia.
  rewrite !(u32_small (ip_base a + _)) by lia. do 2 f_equal. lia.
Qed.
