(* ===== verification/Budget.v ===== *)
(** * The global boot budget (src/sandboxes/internal/pool/budget.go)

    One budget is shared by the pools of all templates.  Every method is one
    critical section of [g.mu].  The receiver may be nil for the public
    methods, hence the [option]. *)
From S2P Require Import Prelude.

Record GlobalInflightBudget := mkBudget {
  g_capacity : Z;
  g_inUse : Z;
  g_waiters : list nat                (** the parked pools *)
}.

Definition NewGlobalInflightBudget (capacity : Z) : GlobalInflightBudget := mkBudget capacity 0 [].

Definition remainingLocked (g : GlobalInflightBudget) : Z :=
  if g_capacity g <=? 0 then 1 .<< 30
  else
    let r := g_capacity g - g_inUse g in
    if r <? 0 then 0 else r.

Definition acquireLocked (n : Z) (g : GlobalInflightBudget) : GlobalInflightBudget :=
  mkBudget (g_capacity g) (g_inUse g + n) (g_waiters g).

(** The budget afterwards and the pools to wake. *)
Definition releaseLocked (n : Z) (g : GlobalInflightBudget) : GlobalInflightBudget * list nat :=
  let freed := g_inUse g - n in
  let freed := if freed <? 0 then 0 else freed in
  (mkBudget (g_capacity g) freed [], g_waiters g).

Definition Remaining (g : option GlobalInflightBudget) : Z :=
  match g with None => 1 .<< 30 | Some g => remainingLocked g end.

Definition Budget_InUse (g : option GlobalInflightBudget) : Z :=
  match g with None => 0 | Some g => g_inUse g end.

Definition Budget_Capacity (g : option GlobalInflightBudget) : Z :=
  match g with None => 0 | Some g => g_capacity g end.

(** A caller that takes no more than what remains keeps the budget. *)
Lemma acquire_within g n :
  0 < g_capacity g → 0 ≤ g_inUse g ≤ g_capacity g → 0 ≤ n ≤ remainingLocked g →
  0 ≤ g_inUse (acquireLocked n g) ≤ g_capacity g.
Proof.
  unfold remainingLocked. intros Hc Hu. cbn. repeat case_match; b2p; lia.
Qed.

Lemma release_within g n :
  0 ≤ g_inUse g ≤ g_capacity g → 0 ≤ n → 0 ≤ g_inUse (releaseLocked n g).1 ≤ g_capacity g.
Proof. unfold releaseLocked. cbn. intros. case_match; b2p; lia. Qed.
