(* ===== verification/Pool.v ===== *)
(** * The warm pool (src/sandboxes/internal/pool/pool.go)

    A pool keeps booted sandboxes ready to be leased.  [Entry] objects are
    shared: the [entries] map and the two FIFO buckets hold pointers to the same
    object, and the list elements of the buckets have an identity of their own
    ([availablePos] maps an entry ID to its element).  So the model has a heap
    of entries, and buckets of (element, entry pointer) pairs; [p_next] makes
    fresh pointers.

    Every method body between [p.mu.Lock] and [p.mu.Unlock] is one function
    here.  [Acquire] has three such sections ([acquire_pick], [markStopped],
    [acquire_setip]) around the calls of the VM and of the guest agent, whose
    results are arguments; [Acquire] composes them, and [SandboxPool] interleaves
    them.  The clock is an argument, the metrics and the log are left out.  The
    channel [warmAvailableCh] is the number of times it was replaced. *)
From S2P Require Import Prelude.

(** ** Data *)
Inductive State :=
  | StateCreating
  | StateHot
  | StatePaused
  | StateLeased
  | StateStopped
  | StateError.

#[export] Instance State_eq_dec : EqDecision State.
Proof. solve_decision. Defined.

(** The fields of [container.RunOptions] that [Validate] reads. *)
Record RunOptions := mkRunOptions {
  ro_KernelPath : string;
  ro_Image : string;
  ro_Dockerfile : string
}.

Record Config := mkConfig {
  TemplateID : string;
  RunOpts : RunOptions;
  MinPaused : Z;
  MaxPaused : Z;
  ReplenishParallelism : Z;
  ConsecutiveFailureThreshold : Z;
  Cooldown : Z;                      (** nanoseconds *)
  ReconcileInterval : Z;
  ReapInterval : Z;
  MinHot : Z;
  MaxHot : Z
}.

(** The handle of a booted VM that the pool passes around. *)
Record RunResult := mkRunResult { rr_ID : string }.

Record Entry := mkEntry {
  e_ID : string;
  e_State : State;
  e_CreatedAt : Z;
  e_LeasedAt : Z;
  e_UDSPath : string;
  e_GuestIP : string;
  e_result : option RunResult;
  e_resumer : bool;                  (** the interface is not nil *)
  e_stater : bool
}.

Definition set_State (e : Entry) (s : State) : Entry :=
  mkEntry (e_ID e) s (e_CreatedAt e) (e_LeasedAt e) (e_UDSPath e) (e_GuestIP e) (e_result e)
    (e_resumer e) (e_stater e).
Definition set_LeasedAt (e : Entry) (t : Z) : Entry :=
  mkEntry (e_ID e) (e_State e) (e_CreatedAt e) t (e_UDSPath e) (e_GuestIP e) (e_result e)
    (e_resumer e) (e_stater e).
Definition set_GuestIP (e : Entry) (ip : string) : Entry :=
  mkEntry (e_ID e) (e_State e) (e_CreatedAt e) (e_LeasedAt e) (e_UDSPath e) ip (e_result e)
    (e_resumer e) (e_stater e).
Definition clear_result (e : Entry) : Entry :=
  mkEntry (e_ID e) (e_State e) (e_CreatedAt e) (e_LeasedAt e) (e_UDSPath e) (e_GuestIP e) None
    (e_resumer e) (e_stater e).

Record Pool := mkPool {
  p_cfg : Config;
  p_networker : bool;                     (** not nil *)
  p_heap : gmap nat Entry;
  p_entries : gmap string nat;
  p_availableHot : list (nat * nat);      (** (element, entry pointer) *)
  p_availablePaused : list (nat * nat);
  p_availablePos : gmap string nat;
  p_next : nat;
  p_started : bool;
  p_inflightHot : Z;
  p_inflightPaused : Z;
  p_consecutiveFailures : Z;
  p_cooldownUntil : Z;
  p_lastBootError : bool;                 (** not nil *)
  p_warmGen : nat
}.

Inductive perr :=
  | ErrPoolEmpty
  | ErrNotFound
  | ErrNotLeased
  | ResumeFailed (id : string)
  | SetNetworkFailed (id : string)
  | BadConfig (reason : string)
  | AlreadyStarted.

(** Updates of the parts that the operations touch. *)
Definition set_heap (p : Pool) h := mkPool (p_cfg p) (p_networker p) h (p_entries p)
  (p_availableHot p) (p_availablePaused p) (p_availablePos p) (p_next p) (p_started p)
  (p_inflightHot p) (p_inflightPaused p) (p_consecutiveFailures p) (p_cooldownUntil p)
  (p_lastBootError p) (p_warmGen p).
Definition set_avail (p : Pool) hot paused pos next := mkPool (p_cfg p) (p_networker p) (p_heap p) (p_entries p)
  hot paused pos next (p_started p)
  (p_inflightHot p) (p_inflightPaused p) (p_consecutiveFailures p) (p_cooldownUntil p)
  (p_lastBootError p) (p_warmGen p).

Definition put_entry (p : Pool) (ptr : nat) (e : Entry) : Pool := set_heap p (<[ptr := e]> (p_heap p)).

(** [p.entries[id] = &e] with a fresh object. *)
Definition new_entry (p : Pool) (e : Entry) : Pool * nat :=
  (mkPool (p_cfg p) (p_networker p) (<[p_next p := e]> (p_heap p)) (<[e_ID e := p_next p]> (p_entries p))
     (p_availableHot p) (p_availablePaused p) (p_availablePos p) (S (p_next p)) (p_started p)
     (p_inflightHot p) (p_inflightPaused p) (p_consecutiveFailures p) (p_cooldownUntil p)
     (p_lastBootError p) (p_warmGen p), p_next p).

(** ** Configuration *)
Definition defaultsApplied (c : Config) : Config :=
  let '(minP, maxP) := if (MinPaused c =? 0) && (MaxPaused c =? 0) then (4, 8) else (MinPaused c, MaxPaused c) in
  let maxP := if (maxP =? 0) && (0 <? minP) then (if 8 <? 2 * minP then 2 * minP else 8) else maxP in
  {| TemplateID := TemplateID c;
     RunOpts := RunOpts c;
     MinPaused := minP;
     MaxPaused := maxP;
     ReplenishParallelism := if ReplenishParallelism c =? 0 then 2 else ReplenishParallelism c;
     ConsecutiveFailureThreshold :=
       if ConsecutiveFailureThreshold c =? 0 then 3 else ConsecutiveFailureThreshold c;
     Cooldown := if Cooldown c =? 0 then 60000000000 else Cooldown c;
     ReconcileInterval := if ReconcileInterval c =? 0 then 50000000 else ReconcileInterval c;
     ReapInterval := if ReapInterval c =? 0 then 5000000000 else ReapInterval c;
     MinHot := MinHot c;
     MaxHot := MaxHot c |}.

Definition Validate (c : Config) : res perr unit :=
  if bool_decide (TemplateID c = "") then Err (BadConfig "TemplateID")
  else if bool_decide (ro_KernelPath (RunOpts c) = "") then Err (BadConfig "KernelPath")
  else if bool_decide (ro_Image (RunOpts c) = "" ∧ ro_Dockerfile (RunOpts c) = "")
  then Err (BadConfig "Image or Dockerfile")
  else
    let applied := defaultsApplied c in
    if MinPaused applied <? 0 then Err (BadConfig "MinPaused")
    else if MaxPaused applied <? MinPaused applied then Err (BadConfig "MaxPaused")
    else if ReplenishParallelism applied <=? 0 then Err (BadConfig "ReplenishParallelism")
    else Ok ().

Definition NewPool (cfg : Config) : res perr Pool :=
  let cfg := defaultsApplied cfg in
  _ ← Validate cfg;
  Ok (mkPool cfg false ∅ ∅ [] [] ∅ 0 false 0 0 0 0 false 0).

(** ** The availability buckets *)
Definition enqueueAvailableLocked (ptr : nat) (p : Pool) : res perr Pool :=
  e ← must (p_heap p !! ptr);
  match p_availablePos p !! e_ID e with
  | Some _ => Ok p
  | None =>
      let elem := p_next p in
      let pos := <[e_ID e := elem]> (p_availablePos p) in
      match e_State e with
      | StateHot => Ok (set_avail p (p_availableHot p ++ [(elem, ptr)]) (p_availablePaused p) pos (S elem))
      | StatePaused => Ok (set_avail p (p_availableHot p) (p_availablePaused p ++ [(elem, ptr)]) pos (S elem))
      | _ => Ok p
      end
  end.

(** [bucket.Remove(elem)] *)
Definition bucket_remove (elem : nat) (bucket : list (nat * nat)) : list (nat * nat) :=
  filter (λ x, x.1 ≠ elem) bucket.

Definition dequeueAvailableLocked (ptr : nat) (p : Pool) : res perr Pool :=
  e ← must (p_heap p !! ptr);
  match p_availablePos p !! e_ID e with
  | None => Ok p
  | Some elem =>
      let pos := delete (e_ID e) (p_availablePos p) in
      let hot := p_availableHot p in
      let paused := p_availablePaused p in
      match e_State e with
      | StateHot => Ok (set_avail p (bucket_remove elem hot) paused pos (p_next p))
      | StatePaused => Ok (set_avail p hot (bucket_remove elem paused) pos (p_next p))
      | _ => if bool_decide (elem ∈ fst <$> hot)
             then Ok (set_avail p (bucket_remove elem hot) paused pos (p_next p))
             else Ok (set_avail p hot (bucket_remove elem paused) pos (p_next p))
      end
  end.

Definition signalWarmAvailableLocked (p : Pool) : Pool :=
  mkPool (p_cfg p) (p_networker p) (p_heap p) (p_entries p) (p_availableHot p) (p_availablePaused p)
    (p_availablePos p) (p_next p) (p_started p) (p_inflightHot p) (p_inflightPaused p)
    (p_consecutiveFailures p) (p_cooldownUntil p) (p_lastBootError p) (S (p_warmGen p)).

(** ** Operations *)

(** The entry objects of the map; Go iterates over them in an unspecified
    order, which only matters for the order of the result. *)
Definition Snapshot (p : Pool) : res perr (list Entry) :=
  for_each (λ x out, e ← must (p_heap p !! x.2); Ok (out ++ [e])) (map_to_list (p_entries p)) [].

(** How many entries of the map are in state [s]. *)
Definition count_state (p : Pool) (s : State) : Z :=
  zlen (filter (λ x : string * nat, e_State <$> p_heap p !! x.2 = Some s) (map_to_list (p_entries p))).

Definition AddPaused (id : string) (result : option RunResult) (udsPath : string)
    (resumer stater : bool) (now : Z) (p : Pool) : res perr Pool :=
  let e := {| e_ID := id; e_State := StatePaused; e_CreatedAt := now; e_LeasedAt := 0;
              e_UDSPath := udsPath; e_GuestIP := ""; e_result := result;
              e_resumer := resumer; e_stater := stater |} in
  let '(p, ptr) := new_entry p e in
  enqueueAvailableLocked ptr p.

Definition SetNetworker (n : bool) (p : Pool) : Pool :=
  mkPool (p_cfg p) n (p_heap p) (p_entries p) (p_availableHot p) (p_availablePaused p)
    (p_availablePos p) (p_next p) (p_started p) (p_inflightHot p) (p_inflightPaused p)
    (p_consecutiveFailures p) (p_cooldownUntil p) (p_lastBootError p) (p_warmGen p).

(** The fields of [LeaseSpec] that [Acquire] branches on. *)
Record LeaseSpec := mkLeaseSpec { ls_IP : string }.

Record Lease := mkLease {
  l_ID : string;
  l_UDSPath : string;
  l_GuestIP : string;
  l_LeasedAt : Z
}.

(** What the first critical section of [Acquire] takes out of the pool. *)
Record Pick := mkPick {
  pk_lease : Lease;
  pk_wasHot : bool;
  pk_resumer : bool;
  pk_networker : bool
}.

Definition acquire_pick (now : Z) (p : Pool) : res perr (Pool * Pick) :=
  match head (p_availableHot p ++ p_availablePaused p) with
  | None => Err ErrPoolEmpty
  | Some (_, ptr) =>
      e ← must (p_heap p !! ptr);
      p ← dequeueAvailableLocked ptr p;
      let p := put_entry p ptr (set_LeasedAt (set_State e StateLeased) now) in
      Ok (p, {| pk_lease := mkLease (e_ID e) (e_UDSPath e) (e_GuestIP e) now;
                pk_wasHot := bool_decide (e_State e = StateHot);
                pk_resumer := e_resumer e;
                pk_networker := p_networker p |})
  end.

Definition markStoppedAndReturn (id : string) (p : Pool) : res perr Pool :=
  match p_entries p !! id with
  | None => Ok p
  | Some ptr =>
      p ← dequeueAvailableLocked ptr p;
      e ← must (p_heap p !! ptr);
      Ok (put_entry p ptr (set_State e StateStopped))
  end.

(** [if e, ok := p.entries[lease.ID]; ok { e.GuestIP = spec.IP }] *)
Definition acquire_setip (id ip : string) (p : Pool) : res perr Pool :=
  match p_entries p !! id with
  | None => Ok p
  | Some ptr => e ← must (p_heap p !! ptr); Ok (put_entry p ptr (set_GuestIP e ip))
  end.

(** Does the lease path call [Resume], and [SetNetwork]? *)
Definition needs_resume (pk : Pick) : bool := pk_resumer pk && negb (pk_wasHot pk).
Definition needs_network (spec : LeaseSpec) (pk : Pick) : bool :=
  bool_decide (ls_IP spec ≠ "") && pk_networker pk && bool_decide (l_UDSPath (pk_lease pk) ≠ "").

Definition with_ip (l : Lease) (ip : string) : Lease := mkLease (l_ID l) (l_UDSPath l) ip (l_LeasedAt l).

(** What follows the pick; [resumeErr] and [netErr] say whether the two calls
    fail. *)
Definition acquire_finish (spec : LeaseSpec) (pk : Pick) (resumeErr netErr : bool) (p : Pool)
  : res perr (Pool * (Lease + perr)) :=
  let id := l_ID (pk_lease pk) in
  if needs_resume pk && resumeErr then
    p ← markStoppedAndReturn id p; Ok (p, inr (ResumeFailed id))
  else if needs_network spec pk then
    if netErr then p ← markStoppedAndReturn id p; Ok (p, inr (SetNetworkFailed id))
    else p ← acquire_setip id (ls_IP spec) p; Ok (p, inl (with_ip (pk_lease pk) (ls_IP spec)))
  else Ok (p, inl (pk_lease pk)).

(** [Acquire] without interference: the pool afterwards and the result. *)
Definition Acquire (now : Z) (spec : LeaseSpec) (resumeErr netErr : bool) (p : Pool)
  : res perr (Pool * (Lease + perr)) :=
  '(p, pk) ← acquire_pick now p;
  acquire_finish spec pk resumeErr netErr p.

Definition Release (id : string) (p : Pool) : res perr (Pool * option RunResult) :=
  match p_entries p !! id with
  | None => Err ErrNotFound
  | Some ptr =>
      e ← must (p_heap p !! ptr);
      if negb (bool_decide (e_State e = StateLeased)) then Err ErrNotLeased
      else
        p ← dequeueAvailableLocked ptr p;
        Ok (put_entry p ptr (clear_result (set_State e StateStopped)), e_result e)
  end.

(** ** The invariant

    The buckets mirror the entries: an element of the hot bucket points to an
    entry of the map that is hot and whose position is that element, the same
    for paused, and every hot or paused entry of the map is in its bucket. *)
Definition available (s : State) : bool :=
  match s with StateHot | StatePaused => true | _ => false end.

Definition in_bucket (p : Pool) (s : State) (bucket : list (nat * nat)) : Prop :=
  ∀ el ptr, (el, ptr) ∈ bucket →
    ∃ e, p_heap p !! ptr = Some e ∧ e_State e = s ∧
         p_entries p !! e_ID e = Some ptr ∧ p_availablePos p !! e_ID e = Some el.

Definition pool_wf (p : Pool) : Prop :=
  (∀ id ptr, p_entries p !! id = Some ptr → ∃ e, p_heap p !! ptr = Some e ∧ e_ID e = id) ∧
  in_bucket p StateHot (p_availableHot p) ∧
  in_bucket p StatePaused (p_availablePaused p) ∧
  (∀ id el, p_availablePos p !! id = Some el →
     ∃ ptr, (el, ptr) ∈ p_availableHot p ++ p_availablePaused p ∧ p_entries p !! id = Some ptr) ∧
  (∀ id ptr e, p_entries p !! id = Some ptr → p_heap p !! ptr = Some e → available (e_State e) = true →
     is_Some (p_availablePos p !! id)) ∧
  NoDup (fst <$> p_availableHot p ++ p_availablePaused p) ∧
  (∀ el ptr, (el, ptr) ∈ p_availableHot p ++ p_availablePaused p → (el < p_next p)%nat) ∧
  (∀ ptr e, p_heap p !! ptr = Some e → (ptr < p_next p)%nat).

Lemma bucket_remove_other x b : x ∉ fst <$> b → bucket_remove x b = b.
Proof.
  intros Hx. unfold bucket_remove. apply filter_all. intros [el ptr] Hin <-.
  apply Hx. change el with (el, ptr).1. by apply list_elem_of_fmap_2.
Qed.

(** Dequeueing an entry of the map removes exactly its element. *)
Lemma dequeue_spec p ptr e :
  pool_wf p → p_heap p !! ptr = Some e → p_entries p !! e_ID e = Some ptr →
  ∃ p', dequeueAvailableLocked ptr p = Ok p' ∧
    p' = match p_availablePos p !! e_ID e with
         | None => p
         | Some el => set_avail p (bucket_remove el (p_availableHot p)) (bucket_remove el (p_availablePaused p))
                        (delete (e_ID e) (p_availablePos p)) (p_next p)
         end.
Proof.
  intros (Hent & Hhot & Hpau & Hpos & Hav & Hnd & Hel & Hptr) He Hid.
  unfold dequeueAvailableLocked. rewrite He. cbn [must mbind res_bind].
  destruct (p_availablePos p !! e_ID e) as [el|] eqn:Epos; [|by eauto].
  destruct (Hpos _ _ Epos) as (ptr' & Hin & Hid'). simplify_eq.
  rewrite fmap_app in Hnd. apply NoDup_app in Hnd as (_ & Hdis & _).
  assert (∀ bk, (el, ptr) ∈ bk → el ∈ fst <$> bk) as Hfst
    by (intros bk Hb; by apply (list_elem_of_fmap_2 fst _ (el, ptr))).
  apply elem_of_app in Hin as [Hin|Hin].
  - destruct (Hhot _ _ Hin) as (e' & He' & Hs & _). simplify_eq. rewrite Hs.
    rewrite (bucket_remove_other el (p_availablePaused p)); [by eauto|]. apply Hdis. by apply Hfst.
  - destruct (Hpau _ _ Hin) as (e' & He' & Hs & _). simplify_eq. rewrite Hs.
    rewrite (bucket_remove_other el (p_availableHot p)); [by eauto|].
    intros Hh. apply (Hdis el Hh). by apply Hfst.
Qed.

(** An element holds one entry. *)
Lemma elem_unique (l : list (nat * nat)) x a b :
  NoDup (fst <$> l) → (x, a) ∈ l → (x, b) ∈ l → a = b.
Proof.
  intros Hnd [i Hi]%list_elem_of_lookup [j Hj]%list_elem_of_lookup.
  assert (i = j) as ->; [|congruence].
  eapply (NoDup_lookup _ _ _ x Hnd); rewrite list_lookup_fmap, ?Hi, ?Hj; done.
Qed.

(** What the lease operations do not touch. *)
Definition same_refill (p p' : Pool) : Prop :=
  p_cfg p' = p_cfg p ∧ p_started p' = p_started p ∧ p_inflightHot p' = p_inflightHot p ∧
  p_inflightPaused p' = p_inflightPaused p ∧ p_consecutiveFailures p' = p_consecutiveFailures p ∧
  p_cooldownUntil p' = p_cooldownUntil p ∧ p_networker p' = p_networker p ∧ p_warmGen p' = p_warmGen p.

(** Taking an entry out of circulation: it leaves its bucket and its state is
    no longer hot or paused. *)
Definition retired (p p' : Pool) (ptr : nat) (e' : Entry) : Prop :=
  p_heap p' = <[ptr := e']> (p_heap p) ∧ p_entries p' = p_entries p ∧
  p_availableHot p' = filter (λ x, x.2 ≠ ptr) (p_availableHot p) ∧
  p_availablePaused p' = filter (λ x, x.2 ≠ ptr) (p_availablePaused p) ∧ same_refill p p'.

(** Removing the element of an entry is removing the entry. *)
Lemma bucket_remove_ptr bucket el ptr :
  (∀ q, (el, q) ∈ bucket → q = ptr) → (∀ x, (x, ptr) ∈ bucket → x = el) →
  bucket_remove el bucket = filter (λ x, x.2 ≠ ptr) bucket.
Proof.
  intros H1 H2. unfold bucket_remove. induction bucket as [|[x q] b IH]; [done|].
  rewrite !filter_cons. cbn [fst snd].
  rewrite IH; [|intros; apply H1; by right|intros; apply H2; by right].
  destruct (decide (x ≠ el)) as [Hx|Hx], (decide (q ≠ ptr)) as [Hq|Hq]; try done.
  - apply dec_stable in Hq as ->. exfalso. apply Hx, H2. left.
  - apply dec_stable in Hx as ->. exfalso. apply Hq, H1. left.
Qed.

Lemma retire_buckets p ptr e p1 :
  pool_wf p → p_heap p !! ptr = Some e → p_entries p !! e_ID e = Some ptr →
  dequeueAvailableLocked ptr p = Ok p1 →
  p_heap p1 = p_heap p ∧ p_entries p1 = p_entries p ∧ p_next p1 = p_next p ∧
  (∀ id, p_availablePos p1 !! id = if decide (id = e_ID e) then None else p_availablePos p !! id) ∧
  p_availableHot p1 = filter (λ x, x.2 ≠ ptr) (p_availableHot p) ∧
  p_availablePaused p1 = filter (λ x, x.2 ≠ ptr) (p_availablePaused p) ∧ same_refill p p1.
Proof.
  intros Hwf He Hid Hrun. destruct (dequeue_spec p ptr e Hwf He Hid) as (p2 & Hrun' & Hp1).
  rewrite Hrun in Hrun'. injection Hrun' as <-.
  destruct Hwf as (Hent & Hhot & Hpau & Hpos & Hav & Hnd & Hel & Hptr).
  destruct (p_availablePos p !! e_ID e) as [x|] eqn:E; subst p1; cbn.
  - destruct (Hpos _ _ E) as (ptr' & Hin & Hid'). simplify_eq.
    assert (∀ q, (x, q) ∈ p_availableHot p ++ p_availablePaused p → q = ptr) as Hu
      by (intros q Hq; by eapply elem_unique).
    splits; try done.
    + intros id. destruct (decide (id = e_ID e)) as [->|]; [by rewrite lookup_delete_eq|by rewrite lookup_delete_ne].
    + apply bucket_remove_ptr; [intros q Hq; apply Hu; set_solver|].
      intros y Hy. destruct (Hhot _ _ Hy) as (e1 & ? & _ & _ & ?). by simplify_eq.
    + apply bucket_remove_ptr; [intros q Hq; apply Hu; set_solver|].
      intros y Hy. destruct (Hpau _ _ Hy) as (e1 & ? & _ & _ & ?). by simplify_eq.
  - splits; try done; [intros id; by destruct (decide (id = e_ID e)) as [->|]|..];
      symmetry; apply filter_all; intros [y q] Hy Hyq; cbn in Hyq; subst q.
    + destruct (Hhot _ _ Hy) as (e1 & ? & _ & _ & ?). by simplify_eq.
    + destruct (Hpau _ _ Hy) as (e1 & ? & _ & _ & ?). by simplify_eq.
Qed.

Lemma retire_spec p ptr e e' :
  pool_wf p → p_heap p !! ptr = Some e → p_entries p !! e_ID e = Some ptr →
  e_ID e' = e_ID e → available (e_State e') = false →
  ∃ p1, dequeueAvailableLocked ptr p = Ok p1 ∧ p_heap p1 !! ptr = Some e ∧
    pool_wf (put_entry p1 ptr e') ∧ retired p (put_entry p1 ptr e') ptr e'.
Proof.
  intros Hwf He Hid Hid' Hst. destruct (dequeue_spec p ptr e Hwf He Hid) as (p1 & Hrun & _).
  destruct (retire_buckets p ptr e p1 Hwf He Hid Hrun) as (Hh & Hen & Hn & Hpo & Hb1 & Hb2 & Hsame).
  exists p1. split; [done|]. split; [by rewrite Hh|].
  destruct Hwf as (Hent & Hhot & Hpau & Hpos & Hav & Hnd & Hel & Hptr).
  assert (∀ id q e0, p_entries p !! id = Some q → p_heap p !! q = Some e0 → q ≠ ptr → id ≠ e_ID e) as Hne
    by (intros id q e0 Hq Hq2 Hqp ->; congruence).
  split; [|by unfold retired; cbn; rewrite Hh].
  unfold pool_wf, in_bucket, put_entry. cbn. rewrite Hh, Hen, Hn, Hb1, Hb2. splits.
  - intros id q Hq. destruct (decide (q = ptr)) as [->|]; [|by rewrite lookup_insert_ne; auto].
    destruct (Hent _ _ Hq) as (e0 & ? & ?). simplify_eq. rewrite lookup_insert_eq. eauto.
  - intros el q [Hqp Hq]%list_elem_of_filter. destruct (Hhot _ _ Hq) as (e0 & ? & ? & ? & ?).
    exists e0. cbn in Hqp. rewrite lookup_insert_ne by done. splits; try done.
    rewrite Hpo. rewrite decide_False; [done|by eapply Hne].
  - intros el q [Hqp Hq]%list_elem_of_filter. destruct (Hpau _ _ Hq) as (e0 & ? & ? & ? & ?).
    exists e0. cbn in Hqp. rewrite lookup_insert_ne by done. splits; try done.
    rewrite Hpo. rewrite decide_False; [done|by eapply Hne].
  - intros id el. rewrite Hpo. destruct (decide (id = e_ID e)); [done|]. intros Hq.
    destruct (Hpos _ _ Hq) as (q & Hin & Hidq). exists q. split; [|done].
    rewrite <- filter_app, list_elem_of_filter. split; [|done]. cbn. intros ->.
    destruct (Hent _ _ Hidq) as (e0 & ? & ?). simplify_eq.
  - intros id q e0 Hidq. destruct (decide (q = ptr)) as [->|].
    + rewrite lookup_insert_eq. intros [= <-]. congruence.
    + rewrite lookup_insert_ne by done. intros Hq Hav0. rewrite Hpo.
      rewrite decide_False; [by eapply Hav|]. by eapply Hne.
  - rewrite <- filter_app. eapply sublist_NoDup; [exact Hnd|]. apply fmap_sublist, sublist_filter.
  - intros el q. rewrite <- filter_app. intros [_ Hin]%list_elem_of_filter. by eapply Hel.
  - intros q e0. destruct (decide (q = ptr)) as [->|]; [|rewrite lookup_insert_ne by done; by apply Hptr].
    intros _. by eapply Hptr.
Qed.

(** The state of the entry with a given ID. *)
Definition entry_of (p : Pool) (id : string) : option Entry :=
  ptr ← p_entries p !! id; p_heap p !! ptr.

Definition state_of (p : Pool) (id : string) : option State := e_State <$> entry_of p id.

Lemma entry_of_Some p id e :
  pool_wf p → entry_of p id = Some e →
  e_ID e = id ∧ ∃ ptr, p_entries p !! id = Some ptr ∧ p_heap p !! ptr = Some e.
Proof.
  intros (Hent & _) (ptr & Hp & He)%bind_Some. destruct (Hent _ _ Hp) as (e' & ? & ?). simplify_eq. eauto.
Qed.

Lemma entry_of_put p ptr e' p' :
  pool_wf p → p_heap p' = <[ptr := e']> (p_heap p) → p_entries p' = p_entries p →
  p_entries p !! e_ID e' = Some ptr →
  ∀ id, entry_of p' id = if decide (id = e_ID e') then Some e' else entry_of p id.
Proof.
  intros (Hent & _) Hh He Hid id. unfold entry_of. rewrite Hh, He.
  destruct (decide (id = e_ID e')) as [->|Hne]; [by rewrite Hid; cbn; rewrite lookup_insert_eq|].
  destruct (p_entries p !! id) as [q|] eqn:Eq; [|done]. cbn.
  rewrite lookup_insert_ne; [done|]. intros ->.
  destruct (Hent _ _ Eq) as (e1 & H1 & H2). destruct (Hent _ _ Hid) as (e2 & H3 & H4). congruence.
Qed.

(** A new entry, hot or paused, under an ID that the map does not have. *)
Lemma add_spec p e :
  pool_wf p → p_entries p !! e_ID e = None → available (e_State e) = true →
  ∃ p', enqueueAvailableLocked (new_entry p e).2 (new_entry p e).1 = Ok p' ∧ pool_wf p' ∧
    p_heap p' = <[p_next p := e]> (p_heap p) ∧ p_entries p' = <[e_ID e := p_next p]> (p_entries p) ∧
    p_availableHot p' = p_availableHot p ++ (if decide (e_State e = StateHot) then [(S (p_next p), p_next p)] else []) ∧
    p_availablePaused p' = p_availablePaused p ++ (if decide (e_State e = StatePaused) then [(S (p_next p), p_next p)] else []) ∧
    p_inflightHot p' = p_inflightHot p ∧ p_inflightPaused p' = p_inflightPaused p ∧ p_cfg p' = p_cfg p ∧
    p_started p' = p_started p.
Proof.
  intros Hwf Hfresh Hav. pose proof Hwf as (Hent & Hhot & Hpau & Hpos & Havl & Hnd & Hel & Hptr).
  assert (p_availablePos p !! e_ID e = None) as Hposn.
  { destruct (p_availablePos p !! e_ID e) eqn:E; [|done]. destruct (Hpos _ _ E) as (? & _ & ?). congruence. }
  unfold enqueueAvailableLocked, new_entry. cbn. rewrite lookup_insert_eq. cbn. rewrite Hposn.
  assert (∀ q e0, p_heap p !! q = Some e0 → q ≠ p_next p) as Hq by (intros q e0 Hq ->; apply Hptr in Hq; lia).
  set (b1 := if decide (e_State e = StateHot) then _ else _).
  set (b2 := if decide (e_State e = StatePaused) then _ else _).
  exists (set_avail (new_entry p e).1 (p_availableHot p ++ b1) (p_availablePaused p ++ b2)
            (<[e_ID e := S (p_next p)]> (p_availablePos p)) (S (S (p_next p)))).
  split; [unfold b1, b2; destruct (e_State e); try done; cbn; by rewrite app_nil_r|]. split; [|done].
  assert (∀ bk s el q, in_bucket p s bk → (el, q) ∈ bk → ∃ e0, <[p_next p := e]> (p_heap p) !! q = Some e0 ∧
    e_State e0 = s ∧ <[e_ID e := p_next p]> (p_entries p) !! e_ID e0 = Some q ∧
    <[e_ID e := S (p_next p)]> (p_availablePos p) !! e_ID e0 = Some el) as Hold.
  { intros bk s el q Hbk Hin. destruct (Hbk _ _ Hin) as (e0 & ? & ? & He0 & ?). exists e0.
    assert (e_ID e ≠ e_ID e0) by (intros Heq; rewrite <- Heq in He0; congruence).
    rewrite !lookup_insert_ne by (done || by apply not_eq_sym; eapply Hq). done. }
  assert (∀ el q s, (el, q) ∈ (if decide (e_State e = s) then [(S (p_next p), p_next p)] else []) →
    ∃ e0, <[p_next p := e]> (p_heap p) !! q = Some e0 ∧
    e_State e0 = s ∧ <[e_ID e := p_next p]> (p_entries p) !! e_ID e0 = Some q ∧
    <[e_ID e := S (p_next p)]> (p_availablePos p) !! e_ID e0 = Some el) as Hnew.
  { intros el q s Hin. destruct (decide (e_State e = s)); [|by apply not_elem_of_nil in Hin].
    apply list_elem_of_singleton in Hin as [= -> ->]. exists e. by rewrite !lookup_insert_eq. }
  unfold pool_wf, in_bucket. cbn. splits.
  - intros id q. destruct (decide (id = e_ID e)) as [->|].
    + rewrite lookup_insert_eq. intros [= <-]. rewrite lookup_insert_eq. eauto.
    + rewrite lookup_insert_ne by done. intros Hid. destruct (Hent _ _ Hid) as (e0 & ? & ?). exists e0.
      rewrite lookup_insert_ne by (apply not_eq_sym; by eapply Hq). done.
  - intros el q [Hin|Hin]%elem_of_app; [by eapply Hold|by apply Hnew].
  - intros el q [Hin|Hin]%elem_of_app; [by eapply Hold|by apply Hnew].
  - intros id el. destruct (decide (id = e_ID e)) as [->|].
    + rewrite !lookup_insert_eq. intros [= <-]. exists (p_next p). split; [|done].
      unfold b1, b2. destruct (e_State e); try done; cbn; set_solver.
    + rewrite !lookup_insert_ne by done. intros Hid. destruct (Hpos _ _ Hid) as (q & ? & ?). exists q. set_solver.
  - intros id q e0. destruct (decide (id = e_ID e)) as [->|]; [by rewrite !lookup_insert_eq|].
    rewrite !lookup_insert_ne by done. intros Hid. destruct (Hent _ _ Hid) as (e1 & Hq1 & _).
    rewrite lookup_insert_ne by (apply not_eq_sym; by eapply Hq). intros Hh Ha.
    rewrite lookup_insert_ne by done. exact (Havl _ _ _ Hid Hh Ha).
  - assert (∀ el, el ∈ fst <$> p_availableHot p ++ p_availablePaused p → el ≠ S (p_next p)) as Hlt.
    { intros el ([x q] & -> & Hin)%list_elem_of_fmap. apply Hel in Hin. cbn. lia. }
    assert ((p_availableHot p ++ b1) ++ p_availablePaused p ++ b2
      ≡ₚ (S (p_next p), p_next p) :: p_availableHot p ++ p_availablePaused p) as ->
      by (unfold b1, b2; destruct (e_State e); try done; cbn; solve_Permutation).
    rewrite fmap_cons. constructor; [|done]. intros Hx. by apply (Hlt _ Hx).
  - intros el q. unfold b1, b2. rewrite !elem_of_app.
    assert (∀ s, (el, q) ∈ (if decide (e_State e = s) then [(S (p_next p), p_next p)] else []) →
      (el < S (S (p_next p)))%nat) as Hs.
    { intros s. destruct (decide (e_State e = s)); [intros [= -> ->]%list_elem_of_singleton; lia|by intros ?%not_elem_of_nil]. }
    intros [[Hin|Hin]|[Hin|Hin]]; try by eapply Hs.
    + specialize (Hel el q). rewrite elem_of_app in Hel. specialize (Hel (or_introl Hin)). lia.
    + specialize (Hel el q). rewrite elem_of_app in Hel. specialize (Hel (or_intror Hin)). lia.
  - intros q e0. destruct (decide (q = p_next p)) as [->|]; [lia|]. rewrite lookup_insert_ne by done.
    intros H0%Hptr. lia.
Qed.

(** ** The operations keep the invariant *)

Lemma acquire_pick_spec now p :
  pool_wf p →
  match head (p_availableHot p ++ p_availablePaused p) with
  | None => acquire_pick now p = Err ErrPoolEmpty
  | Some (el, ptr) =>
      ∃ e p', p_heap p !! ptr = Some e ∧ p_entries p !! e_ID e = Some ptr ∧ available (e_State e) = true ∧
        acquire_pick now p
          = Ok (p', mkPick (mkLease (e_ID e) (e_UDSPath e) (e_GuestIP e) now)
                     (bool_decide (e_State e = StateHot)) (e_resumer e) (p_networker p)) ∧
        pool_wf p' ∧ retired p p' ptr (set_LeasedAt (set_State e StateLeased) now)
  end.
Proof.
  intros Hwf. unfold acquire_pick.
  destruct (head (p_availableHot p ++ p_availablePaused p)) as [[el ptr]|] eqn:Hhd; [|done].
  apply head_Some_elem_of in Hhd.
  pose proof Hwf as (_ & Hhot & Hpau & _).
  assert (∃ e, p_heap p !! ptr = Some e ∧ p_entries p !! e_ID e = Some ptr ∧ available (e_State e) = true)
    as (e & He & Hid & Hav).
  { apply elem_of_app in Hhd as [Hin|Hin];
      [destruct (Hhot _ _ Hin) as (e & ? & Hs & ? & _)|destruct (Hpau _ _ Hin) as (e & ? & Hs & ? & _)];
      exists e; by rewrite Hs. }
  destruct (retire_spec p ptr e (set_LeasedAt (set_State e StateLeased) now)) as (p1 & Hrun & _ & Hwf1 & Hret);
    try done.
  rewrite He. cbn [must mbind res_bind]. rewrite Hrun. cbn [mbind res_bind].
  exists e. eexists. splits; try done.
  assert (p_networker p1 = p_networker p) as Hn by (destruct Hret as (_ & _ & _ & _ & _ & _ & _ & _ & _ & _ & Hn & _); exact Hn).
  do 3 f_equal. exact Hn.
Qed.

Lemma markStopped_spec id p e :
  pool_wf p → entry_of p id = Some e →
  ∃ ptr p', p_entries p !! id = Some ptr ∧ p_heap p !! ptr = Some e ∧
    markStoppedAndReturn id p = Ok p' ∧ pool_wf p' ∧ retired p p' ptr (set_State e StateStopped).
Proof.
  intros Hwf He. destruct (entry_of_Some _ _ _ Hwf He) as (Hid & ptr & Hptr & Hh). subst id.
  destruct (retire_spec p ptr e (set_State e StateStopped)) as (p1 & Hrun & Hh1 & Hwf1 & Hret); try done.
  exists ptr. eexists. unfold markStoppedAndReturn. rewrite Hptr, Hrun. cbn [mbind res_bind].
  rewrite Hh1. cbn. splits; done.
Qed.

Lemma Release_spec id p e :
  pool_wf p → entry_of p id = Some e →
  if decide (e_State e = StateLeased) then
    ∃ ptr p', p_entries p !! id = Some ptr ∧ p_heap p !! ptr = Some e ∧
      Release id p = Ok (p', e_result e) ∧ pool_wf p' ∧
      retired p p' ptr (clear_result (set_State e StateStopped))
  else Release id p = Err ErrNotLeased.
Proof.
  intros Hwf He. destruct (entry_of_Some _ _ _ Hwf He) as (Hid & ptr & Hptr & Hh). subst id.
  unfold Release. rewrite Hptr, Hh. cbn [must mbind res_bind].
  destruct (decide (e_State e = StateLeased)) as [Hs|Hs];
    [rewrite bool_decide_eq_true_2 by done|by rewrite bool_decide_eq_false_2].
  destruct (retire_spec p ptr e (clear_result (set_State e StateStopped))) as (p1 & Hrun & Hh1 & Hwf1 & Hret); try done.
  exists ptr. eexists. cbn [negb]. rewrite Hrun. cbn [mbind res_bind]. splits; done.
Qed.

(** Changing an entry that is in no bucket, without making it available. *)
Lemma put_leased_wf p ptr e e' :
  pool_wf p → p_heap p !! ptr = Some e → p_entries p !! e_ID e = Some ptr →
  available (e_State e) = false → e_ID e' = e_ID e → e_State e' = e_State e →
  pool_wf (put_entry p ptr e').
Proof.
  intros Hwf He Hid Hna Hid' Hst.
  destruct (retire_spec p ptr e e' Hwf He Hid Hid') as (p1 & Hrun & _ & Hwf1 & _); [congruence|].
  destruct (dequeue_spec p ptr e Hwf He Hid) as (p2 & Hrun' & Hp2). rewrite Hrun in Hrun'. injection Hrun' as <-.
  assert (p_availablePos p !! e_ID e = None) as Hn; [|by rewrite Hn in Hp2; subst].
  destruct Hwf as (_ & Hhot & Hpau & Hpos & _).
  destruct (p_availablePos p !! e_ID e) as [el|] eqn:E; [|done].
  destruct (Hpos _ _ E) as (q & Hin & Hq). simplify_eq.
  apply elem_of_app in Hin as [Hin|Hin];
    [destruct (Hhot _ _ Hin) as (e1 & ? & Hs & _)|destruct (Hpau _ _ Hin) as (e1 & ? & Hs & _)];
    simplify_eq; by rewrite Hs in Hna.
Qed.
