(* ===== verification/Refiller.v ===== *)
(** * The refiller (src/sandboxes/internal/pool/refiller.go)

    [reconcile] decides how many boots to start, [runCreate] is the end of one
    boot, [reapOnce] and [DrainPaused] sweep the paused entries.  The boot
    itself is outside the pool's lock: its outcome is an argument.  [now] is
    the clock; the zero time is 0.

    [reconcile] reads the remaining global budget and later takes from it in
    two critical sections of the budget's lock, so its decision is the
    function [reconcile_plan] of the remaining budget, and another pool may run
    in between; [reconcile] is the pass without interference. *)
From stdpp Require Import pretty.
From S2P Require Import Prelude Budget Pool.

Record BootResult := mkBootResult {
  br_Result : option RunResult;
  br_UDSPath : string;
  br_GuestIP : string;
  br_Resumer : bool;
  br_Stater : bool
}.

(** What [booter.Boot(ctx)] returned. *)
Inductive boot_outcome :=
  | BootOk (r : option BootResult)
  | BootCanceled                       (** the error wraps [context.Canceled] *)
  | BootFailed.

Definition set_counters (p : Pool) (hot paused failures cooldown : Z) (lastErr : bool) : Pool :=
  mkPool (p_cfg p) (p_networker p) (p_heap p) (p_entries p) (p_availableHot p) (p_availablePaused p)
    (p_availablePos p) (p_next p) (p_started p) hot paused failures cooldown lastErr (p_warmGen p).

Definition Start (p : Pool) : res perr Pool :=
  if p_started p then Err AlreadyStarted
  else Ok (mkPool (p_cfg p) (p_networker p) (p_heap p) (p_entries p) (p_availableHot p)
             (p_availablePaused p) (p_availablePos p) (p_next p) true (p_inflightHot p)
             (p_inflightPaused p) (p_consecutiveFailures p) (p_cooldownUntil p) (p_lastBootError p)
             (p_warmGen p)).

(** One pass: [None] when it returns without starting anything, else how many
    hot and paused boots it starts. *)
Definition reconcile_plan (p : Pool) (now : Z) (globalRemain : option Z) : option (Z * Z) :=
  if negb (p_started p) then None
  else
    let liveHot := count_state p StateHot + p_inflightHot p in
    let livePaused := count_state p StatePaused + p_inflightPaused p in
    if now <? p_cooldownUntil p then None
    else
      let cfg := p_cfg p in
      let hotWant := MinHot cfg - liveHot in
      let hotWant := if (hotWant <? 0) || (MaxHot cfg =? 0) then 0 else hotWant in
      let hotRoom := MaxHot cfg - liveHot in
      let hotWant := if hotRoom <? hotWant then hotRoom else hotWant in
      let pausedWant := MinPaused cfg - livePaused in
      let pausedWant := if pausedWant <? 0 then 0 else pausedWant in
      let pausedRoom := MaxPaused cfg - livePaused in
      let pausedWant := if pausedRoom <? pausedWant then pausedRoom else pausedWant in
      let canLaunch := ReplenishParallelism cfg - (p_inflightHot p + p_inflightPaused p) in
      if canLaunch <=? 0 then None
      else
        let canLaunch := match globalRemain with
                         | Some g => if g <? canLaunch then g else canLaunch
                         | None => canLaunch
                         end in
        if canLaunch <=? 0 then None
        else
          let launchHot := if canLaunch <? hotWant then canLaunch else hotWant in
          let remaining := canLaunch - launchHot in
          let launchPaused := if remaining <? pausedWant then remaining else pausedWant in
          if (launchHot =? 0) && (launchPaused =? 0) then None
          else Some (launchHot, launchPaused).

(** [p.inflightHot += launchHot; p.inflightPaused += launchPaused] *)
Definition launch (p : Pool) (launchHot launchPaused : Z) : Pool :=
  set_counters p (p_inflightHot p + launchHot) (p_inflightPaused p + launchPaused)
    (p_consecutiveFailures p) (p_cooldownUntil p) (p_lastBootError p).

(** The pool, the budget, and the numbers of [runCreate] goroutines started
    (the counted loops start none for a negative count). *)
Definition reconcile (now : Z) (p : Pool) (g : option GlobalInflightBudget)
  : Pool * option GlobalInflightBudget * (nat * nat) :=
  match reconcile_plan p now (remainingLocked <$> g) with
  | None => (p, g, (0, 0)%nat)
  | Some (h, q) => (launch p h q, acquireLocked (h + q) <$> g, (Z.to_nat h, Z.to_nat q))
  end.

(** [runCreate] after [Boot] returned; [ctxErr] says whether the context of the
    pool was canceled. *)
Definition runCreate (isHot : bool) (outcome : boot_outcome) (ctxErr : bool) (now : Z)
    (p : Pool) (g : option GlobalInflightBudget)
  : res perr (Pool * option GlobalInflightBudget) :=
  let p := if isHot then launch p (-1) 0 else launch p 0 (-1) in
  let g := (λ g, (releaseLocked 1 g).1) <$> g in
  match outcome with
  | BootCanceled => Ok (p, g)
  | BootFailed =>
      let failures := p_consecutiveFailures p + 1 in
      let cooldown := if ConsecutiveFailureThreshold (p_cfg p) <=? failures
                      then now + Cooldown (p_cfg p) else p_cooldownUntil p in
      Ok (set_counters p (p_inflightHot p) (p_inflightPaused p) failures cooldown true, g)
  | BootOk r =>
      if ctxErr then Ok (p, g)
      else
        r ← must r;
        let id := match br_Result r with Some rr => rr_ID rr | None => "" end in
        let id := if bool_decide (id = "") then ("pool-" +:+ pretty now)%string else id in
        let e := {| e_ID := id; e_State := if isHot then StateHot else StatePaused;
                    e_CreatedAt := now; e_LeasedAt := 0; e_UDSPath := br_UDSPath r;
                    e_GuestIP := br_GuestIP r; e_result := br_Result r;
                    e_resumer := br_Resumer r; e_stater := br_Stater r |} in
        let '(p, ptr) := new_entry p e in
        p ← enqueueAvailableLocked ptr p;
        let p := set_counters p (p_inflightHot p) (p_inflightPaused p) 0 0 (p_lastBootError p) in
        Ok (signalWarmAvailableLocked p, g)
  end.

(** The body of the sweep of [reapOnce]; [stopped ptr] is [e.stater.Stopped()]. *)
Definition reap_entry (stopped : nat → bool) (x : string * nat) (s : Pool * list (option RunResult))
  : res perr (Pool * list (option RunResult)) :=
  let '(p, dead) := s in
  e ← must (p_heap p !! x.2);
  if negb (bool_decide (e_State e = StatePaused)) then Ok (p, dead)
  else if negb (e_stater e && stopped x.2) then Ok (p, dead)
  else
    p ← dequeueAvailableLocked x.2 p;
    Ok (put_entry p x.2 (clear_result (set_State e StateStopped)), dead ++ [e_result e]).

(** The pool after the sweep and the results to close. *)
Definition reapOnce (stopped : nat → bool) (p : Pool) : res perr (Pool * list (option RunResult)) :=
  for_each (reap_entry stopped) (map_to_list (p_entries p)) (p, []).

(** The body of the loop of [DrainPaused]. *)
Definition drain_entry (x : string * nat) (s : Pool * list (option RunResult))
  : res perr (Pool * list (option RunResult)) :=
  let '(p, toClose) := s in
  e ← must (p_heap p !! x.2);
  if bool_decide (e_State e = StatePaused) && bool_decide (is_Some (e_result e)) then
    p ← dequeueAvailableLocked x.2 (put_entry p x.2 (clear_result e));
    Ok (put_entry p x.2 (set_State (clear_result e) StateStopped), toClose ++ [e_result e])
  else Ok (p, toClose).

Definition DrainPaused (p : Pool) : res perr (Pool * list (option RunResult)) :=
  for_each drain_entry (map_to_list (p_entries p)) (p, []).

Definition Inflight (p : Pool) : Z := p_inflightHot p + p_inflightPaused p.

(** ** Counting *)

(** The counters of [reconcile] are the lengths of the buckets. *)
Lemma count_bucket p s bucket :
  pool_wf p → available s = true →
  bucket = (if decide (s = StateHot) then p_availableHot p else p_availablePaused p) →
  count_state p s = zlen bucket.
Proof.
  intros Hwf Hs Hbk. pose proof Hwf as (Hent & Hhot & Hpau & Hpos & Hav & Hnd & _).
  assert (in_bucket p s bucket) as Hb.
  { subst bucket. destruct s; try done; cbn; by rewrite ?decide_True, ?decide_False by done. }
  assert (∀ ptr e, p_heap p !! ptr = Some e → p_entries p !! e_ID e = Some ptr → e_State e = s →
    ∃ el, (el, ptr) ∈ bucket) as Hall.
  { intros ptr e He Hid Hes. destruct (Hav _ _ _ Hid He) as [el Hel]; [by rewrite Hes|].
    destruct (Hpos _ _ Hel) as (q & Hin & Hq). simplify_eq. exists el.
    apply elem_of_app in Hin as [Hin|Hin];
      [destruct (Hhot _ _ Hin) as (e1 & ? & Hs1 & _)|destruct (Hpau _ _ Hin) as (e1 & ? & Hs1 & _)];
      simplify_eq; rewrite Hs1; by case_decide. }
  unfold count_state, zlen. f_equal. rewrite <- (length_fmap snd (filter _ _)), <- (length_fmap snd bucket).
  apply Permutation_length, NoDup_Permutation.
  - apply NoDup_fmap_2_strong; [|apply NoDup_filter, NoDup_map_to_list].
    intros [i q] [j q'] [_ Hi]%list_elem_of_filter [_ Hj]%list_elem_of_filter Hq. cbn in Hq. subst q'.
    apply elem_of_map_to_list in Hi, Hj. destruct (Hent _ _ Hi) as (e1 & ? & ?). destruct (Hent _ _ Hj) as (e2 & ? & ?).
    congruence.
  - assert (NoDup (fst <$> bucket)) as Hnb.
    { rewrite fmap_app in Hnd. apply NoDup_app in Hnd as (? & _ & ?). subst bucket. by case_decide. }
    apply NoDup_fmap_2_strong; [|by eapply NoDup_fmap_1].
    intros [x q] [y q'] Hx Hy Hq. cbn in Hq. subst q'.
    destruct (Hb _ _ Hx) as (e1 & ? & _ & _ & ?). destruct (Hb _ _ Hy) as (e2 & ? & _ & _ & ?). congruence.
  - intros q. rewrite !list_elem_of_fmap. split.
    + intros ([id q'] & -> & [Hst Hin]%list_elem_of_filter). cbn in *. apply elem_of_map_to_list in Hin.
      destruct (Hent _ _ Hin) as (e & He & Hid). rewrite He in Hst. cbn in Hst. injection Hst as Hst. subst id.
      destruct (Hall _ _ He Hin Hst) as [el Hel]. by exists (el, q').
    + intros ([el q'] & -> & Hin). cbn. destruct (Hb _ _ Hin) as (e & He & Hst & Hid & _).
      exists (e_ID e, q'). split; [done|]. apply list_elem_of_filter. cbn. rewrite He. cbn. rewrite Hst.
      split; [done|]. by apply elem_of_map_to_list.
Qed.

(** ** Sweeps *)

(** A transition that takes available entries out of circulation and does
    nothing else. *)
Definition swept (p p' : Pool) : Prop :=
  pool_wf p' ∧ p_entries p' = p_entries p ∧ same_refill p p' ∧
  (∀ id s, available s = false → state_of p id = Some s → state_of p' id = Some s) ∧
  p_availableHot p' `sublist_of` p_availableHot p ∧ p_availablePaused p' `sublist_of` p_availablePaused p.

Lemma swept_refl p : pool_wf p → swept p p.
Proof. intros. unfold swept, same_refill. splits; done. Qed.

Lemma swept_trans p1 p2 p3 : swept p1 p2 → swept p2 p3 → swept p1 p3.
Proof.
  intros (W1 & E1 & S1 & L1 & H1 & P1) (W2 & E2 & S2 & L2 & H2 & P2).
  split; [done|]. split; [congruence|]. split; [unfold same_refill in *; intuition congruence|].
  split; [auto|]. split; by etrans.
Qed.

Lemma retired_swept p p' ptr e e' :
  pool_wf p → pool_wf p' → p_heap p !! ptr = Some e → p_entries p !! e_ID e = Some ptr →
  available (e_State e) = true → e_ID e' = e_ID e → retired p p' ptr e' → swept p p'.
Proof.
  intros Hwf Hwf' He Hid Hav Hid' (Hh & Hen & Hb1 & Hb2 & Hsame). unfold swept.
  splits; try done; [|rewrite Hb1; apply sublist_filter|rewrite Hb2; apply sublist_filter].
  intros id s Hs. unfold state_of.
  rewrite (entry_of_put p ptr e' p' Hwf Hh Hen) by (by rewrite Hid'). rewrite Hid'.
  destruct (decide (id = e_ID e)) as [->|]; [|done]. unfold entry_of. rewrite Hid. cbn. rewrite He. cbn.
  intros [= <-]. congruence.
Qed.

Lemma reap_entry_sat stopped p0 x s :
  x ∈ map_to_list (p_entries p0) → swept p0 s.1 →
  res_sat (λ s', swept p0 s'.1) (reap_entry stopped x s).
Proof.
  destruct x as [id ptr], s as [p dead]. intros Hx%elem_of_map_to_list Hsw. cbn in Hsw.
  pose proof Hsw as (Hwf & Hen & _). rewrite <- Hen in Hx. pose proof Hwf as (Hent & _).
  destruct (Hent _ _ Hx) as (e & He & <-). unfold reap_entry. cbn [snd]. rewrite He. cbn [must mbind res_bind].
  destruct (bool_decide (e_State e = StatePaused)) eqn:Hst; [|done]. apply bool_decide_eq_true in Hst.
  cbn [negb]. destruct (e_stater e && stopped ptr); [|done]. cbn [negb].
  destruct (retire_spec p ptr e (clear_result (set_State e StateStopped))) as (p1 & -> & _ & Hwf1 & Hret); try done.
  cbn. eapply swept_trans; [done|]. eapply (retired_swept p _ ptr e); [done..|by rewrite Hst| |exact Hret]; done.
Qed.

Lemma reapOnce_sat stopped p :
  pool_wf p → res_sat (λ s, swept p s.1) (reapOnce stopped p).
Proof.
  intros Hwf. unfold reapOnce. apply for_each_sat; [|by apply swept_refl].
  intros x s Hx Hs. by apply reap_entry_sat.
Qed.

(** Clearing the result of a paused entry leaves the pool well-formed. *)
Lemma put_same_wf p ptr e e' :
  pool_wf p → p_heap p !! ptr = Some e → e_ID e' = e_ID e → e_State e' = e_State e →
  pool_wf (put_entry p ptr e').
Proof.
  intros (Hent & Hhot & Hpau & Hpos & Hav & Hnd & Hel & Hptr) He Hid Hst.
  assert (∀ q e0, p_heap p !! q = Some e0 →
    ∃ e1, <[ptr := e']> (p_heap p) !! q = Some e1 ∧ e_ID e1 = e_ID e0 ∧ e_State e1 = e_State e0) as Hup.
  { intros q e0 Hq. destruct (decide (q = ptr)) as [->|]; [|rewrite lookup_insert_ne by done; eauto].
    simplify_eq. rewrite lookup_insert_eq. eauto. }
  assert (∀ q e1, <[ptr := e']> (p_heap p) !! q = Some e1 →
    ∃ e0, p_heap p !! q = Some e0 ∧ e_ID e1 = e_ID e0 ∧ e_State e1 = e_State e0) as Hdown.
  { intros q e1. destruct (decide (q = ptr)) as [->|]; [|rewrite lookup_insert_ne by done; eauto].
    rewrite lookup_insert_eq. intros [= <-]. eauto. }
  unfold pool_wf, in_bucket, put_entry. cbn. splits; try done.
  - intros id q Hq. destruct (Hent _ _ Hq) as (e0 & H0 & <-). destruct (Hup _ _ H0) as (e1 & ? & ? & _). eauto.
  - intros el q Hq. destruct (Hhot _ _ Hq) as (e0 & H0 & ? & ? & ?). destruct (Hup _ _ H0) as (e1 & ? & Hi & ?).
    exists e1. rewrite Hi. splits; try done. congruence.
  - intros el q Hq. destruct (Hpau _ _ Hq) as (e0 & H0 & ? & ? & ?). destruct (Hup _ _ H0) as (e1 & ? & Hi & ?).
    exists e1. rewrite Hi. splits; try done. congruence.
  - intros id q e1 Hq H1 Ha. destruct (Hdown _ _ H1) as (e0 & H0 & _ & Hs0). eapply Hav; [done..|]. congruence.
  - intros q e1 H1. destruct (Hdown _ _ H1) as (e0 & H0 & _). by eapply Hptr.
Qed.

Lemma drain_entry_sat p0 x s :
  x ∈ map_to_list (p_entries p0) → swept p0 s.1 →
  res_sat (λ s', swept p0 s'.1) (drain_entry x s).
Proof.
  destruct x as [id ptr], s as [p dead]. intros Hx%elem_of_map_to_list Hsw. cbn in Hsw.
  pose proof Hsw as (Hwf & Hen & _). rewrite <- Hen in Hx. pose proof Hwf as (Hent & _).
  destruct (Hent _ _ Hx) as (e & He & <-). unfold drain_entry. cbn [snd]. rewrite He. cbn [must mbind res_bind].
  destruct (bool_decide (e_State e = StatePaused)) eqn:Hst; [|done]. apply bool_decide_eq_true in Hst.
  destruct (bool_decide (is_Some (e_result e))); [|done]. cbn [andb].
  set (p1 := put_entry p ptr (clear_result e)).
  assert (pool_wf p1) as Hwf1 by (by eapply put_same_wf).
  destruct (retire_spec p1 ptr (clear_result e) (set_State (clear_result e) StateStopped))
    as (p2 & -> & _ & Hwf2 & Hret); try done; [by cbn; rewrite lookup_insert_eq|].
  cbn. eapply swept_trans; [done|]. eapply (retired_swept p _ ptr e (set_State (clear_result e) StateStopped));
    [done..|by rewrite Hst|done|].
  destruct Hret as (Hh & Hrest). split; [|exact Hrest]. rewrite Hh. cbn. by rewrite insert_insert_eq.
Qed.

Lemma DrainPaused_sat p : pool_wf p → res_sat (λ s, swept p s.1) (DrainPaused p).
Proof.
  intros Hwf. unfold DrainPaused. apply for_each_sat; [|by apply swept_refl].
  intros x s Hx Hs. by apply drain_entry_sat.
Qed.
