(* ===== verification/PoolSystem.v ===== *)
(** * Executions of a warm pool

    The pool under concurrent use: clients acquire and release leases, boots
    end, the refiller, the reaper and the drain run.  A step is one critical
    section of the pool's lock, so an execution is an interleaving of steps of
    all the goroutines.  Between the pick of [Acquire] and its end the lease is
    pending; [sy_history] records every ID that a pick ever took.

    The negative results show two races of the code: the global budget is
    checked and taken in different critical sections, and [AcquireWait] reads
    the wake-up channel after it found the pool empty. *)
From stdpp Require Import pretty.
From S2P Require Import Prelude Budget Pool Refiller.

Record System := mkSystem {
  sy_pool : Pool;
  sy_budget : option GlobalInflightBudget;
  sy_boots : list bool;                       (** running boots, [true] for hot *)
  sy_pending : list (LeaseSpec * Pick);
  sy_held : list Lease;
  sy_history : list string
}.

Definition boot_id (now : Z) (r : BootResult) : string :=
  let id := match br_Result r with Some rr => rr_ID rr | None => "" end in
  if bool_decide (id = "") then ("pool-" +:+ pretty now)%string else id.

(** A boot delivers a sandbox, under an ID the pool has not seen. *)
Definition boot_fresh (p : Pool) (o : boot_outcome) (now : Z) : Prop :=
  match o with
  | BootOk None => False
  | BootOk (Some r) => p_entries p !! boot_id now r = None
  | _ => True
  end.

Inductive pool_step : System → System → Prop :=
  | st_pick p g b pend held hist now spec p' pk :
      acquire_pick now p = Ok (p', pk) →
      pool_step (mkSystem p g b pend held hist)
                (mkSystem p' g b ((spec, pk) :: pend) held (hist ++ [l_ID (pk_lease pk)]))
  | st_lease p g b p1 spec pk p2 held hist resumeErr netErr p' l :
      acquire_finish spec pk resumeErr netErr p = Ok (p', inl l) →
      pool_step (mkSystem p g b (p1 ++ (spec, pk) :: p2) held hist)
                (mkSystem p' g b (p1 ++ p2) (l :: held) hist)
  | st_fail p g b p1 spec pk p2 held hist resumeErr netErr p' err :
      acquire_finish spec pk resumeErr netErr p = Ok (p', inr err) →
      pool_step (mkSystem p g b (p1 ++ (spec, pk) :: p2) held hist)
                (mkSystem p' g b (p1 ++ p2) held hist)
  | st_release p g b pend h1 l h2 hist p' rr :
      Release (l_ID l) p = Ok (p', rr) →
      pool_step (mkSystem p g b pend (h1 ++ l :: h2) hist)
                (mkSystem p' g b pend (h1 ++ h2) hist)
  | st_reconcile p g b pend held hist now p' g' nh np :
      reconcile now p g = (p', g', (nh, np)) →
      pool_step (mkSystem p g b pend held hist)
                (mkSystem p' g' (b ++ replicate nh true ++ replicate np false) pend held hist)
  | st_boot p g b1 isHot b2 pend held hist o ctxErr now p' g' :
      boot_fresh p o now → runCreate isHot o ctxErr now p g = Ok (p', g') →
      pool_step (mkSystem p g (b1 ++ isHot :: b2) pend held hist)
                (mkSystem p' g' (b1 ++ b2) pend held hist)
  | st_reap p g b pend held hist stopped p' dead :
      reapOnce stopped p = Ok (p', dead) →
      pool_step (mkSystem p g b pend held hist) (mkSystem p' g b pend held hist)
  | st_drain p g b pend held hist p' closed :
      DrainPaused p = Ok (p', closed) →
      pool_step (mkSystem p g b pend held hist) (mkSystem p' g b pend held hist).

Definition pick_id (x : LeaseSpec * Pick) : string := l_ID (pk_lease x.2).

(** Everyone who was ever picked is leased or stopped, once; the pending and
    held leases are leased. *)
Definition lease_inv (p : Pool) (pend : list (LeaseSpec * Pick)) (held : list Lease) (hist : list string) : Prop :=
  pool_wf p ∧ NoDup hist ∧
  (∀ id, id ∈ hist → state_of p id = Some StateLeased ∨ state_of p id = Some StateStopped) ∧
  NoDup ((pick_id <$> pend) ++ (l_ID <$> held)) ∧
  (∀ id, id ∈ (pick_id <$> pend) ++ (l_ID <$> held) → id ∈ hist ∧ state_of p id = Some StateLeased).

(** The refiller's counters count the running boots and stay within the
    configured limits. *)
Definition count_hot (b : list bool) : Z := zlen (filter (λ x, x = true) b).
Definition count_cold (b : list bool) : Z := zlen (filter (λ x, x = false) b).

Definition caps (p : Pool) : Prop :=
  zlen (p_availableHot p) + p_inflightHot p ≤ MaxHot (p_cfg p) ∧
  zlen (p_availablePaused p) + p_inflightPaused p ≤ MaxPaused (p_cfg p) ∧
  p_inflightHot p + p_inflightPaused p ≤ ReplenishParallelism (p_cfg p).

Definition refill_inv (p : Pool) (b : list bool) : Prop :=
  p_inflightHot p = count_hot b ∧ p_inflightPaused p = count_cold b ∧ caps p.

Definition sys_inv (s : System) : Prop :=
  lease_inv (sy_pool s) (sy_pending s) (sy_held s) (sy_history s) ∧ refill_inv (sy_pool s) (sy_boots s).

(** ** Transfer of the invariant *)

(** Steps that leave the leased entries alone. *)
Lemma lease_inv_keep p p' pend held hist :
  lease_inv p pend held hist → pool_wf p' →
  (∀ id s, s = StateLeased ∨ s = StateStopped → state_of p id = Some s → state_of p' id = Some s) →
  lease_inv p' pend held hist.
Proof.
  intros (Hwf & Hnd & Hh & Hnd2 & Hl) Hwf' Hk. unfold lease_inv. splits; try done.
  - intros id Hid. destruct (Hh id Hid); eauto.
  - intros id Hid. destruct (Hl id Hid). split; [done|]. by apply Hk; [left|].
Qed.

Lemma refill_inv_shrink p p' b :
  refill_inv p b → same_refill p p' →
  (zlen (p_availableHot p') ≤ zlen (p_availableHot p)) →
  (zlen (p_availablePaused p') ≤ zlen (p_availablePaused p)) → refill_inv p' b.
Proof.
  intros (H1 & H2 & H3 & H4 & H5) (Hc & _ & Hi & Hj & _) Hl1 Hl2.
  unfold refill_inv, caps. rewrite Hc, Hi, Hj. splits; done || lia.
Qed.

Lemma zlen_sublist {A} (l k : list A) : l `sublist_of` k → zlen l ≤ zlen k.
Proof. intros H%sublist_length. unfold zlen. lia. Qed.

Lemma swept_inv p p' pend held hist b :
  lease_inv p pend held hist → refill_inv p b → swept p p' →
  lease_inv p' pend held hist ∧ refill_inv p' b.
Proof.
  intros Hl Hr (Hwf & _ & Hsame & Hst & Hs1 & Hs2). split.
  - eapply lease_inv_keep; [done..|]. intros id s [-> | ->]; by apply Hst.
  - eapply refill_inv_shrink; [done..| |]; by apply zlen_sublist.
Qed.

Lemma retired_state p p' ptr e e' :
  pool_wf p → p_heap p !! ptr = Some e → p_entries p !! e_ID e = Some ptr →
  retired p p' ptr e' → e_ID e' = e_ID e →
  ∀ id, state_of p' id = if decide (id = e_ID e) then Some (e_State e') else state_of p id.
Proof.
  intros Hwf He Hid (Hh & Hen & _) Hid' id. unfold state_of.
  rewrite (entry_of_put p ptr e' p' Hwf Hh Hen) by (by rewrite Hid'). rewrite Hid'. by case_decide.
Qed.

Lemma retired_refill p p' ptr e' b : refill_inv p b → retired p p' ptr e' → refill_inv p' b.
Proof.
  intros Hr (_ & _ & Hb1 & Hb2 & Hsame). eapply refill_inv_shrink; [done..| |].
  - rewrite Hb1. apply zlen_sublist, sublist_filter.
  - rewrite Hb2. apply zlen_sublist, sublist_filter.
Qed.

(** A lease leaves the system when its entry is stopped. *)
Lemma lease_inv_stop p p' pend held hist pend' held' id :
  lease_inv p pend held hist → pool_wf p' →
  (pick_id <$> pend) ++ (l_ID <$> held) ≡ₚ id :: (pick_id <$> pend') ++ (l_ID <$> held') →
  (∀ i, state_of p' i = if decide (i = id) then Some StateStopped else state_of p i) →
  lease_inv p' pend' held' hist.
Proof.
  intros (Hwf & Hnd & Hh & Hnd2 & Hl) Hwf' Hp Hst. unfold lease_inv.
  rewrite Hp in Hnd2. apply NoDup_cons in Hnd2 as [Hni Hnd2].
  splits; try done.
  - intros i Hi. rewrite Hst. destruct (decide (i = id)); auto.
  - intros i Hi. destruct (Hl i) as [Hih Hs]; [rewrite Hp; by right|]. split; [done|].
    rewrite Hst. rewrite decide_False; [done|]. by intros ->.
Qed.

(** ** Each step keeps the invariant *)

Lemma pick_inv p pend held hist b now spec p' pk :
  lease_inv p pend held hist → refill_inv p b → acquire_pick now p = Ok (p', pk) →
  lease_inv p' ((spec, pk) :: pend) held (hist ++ [l_ID (pk_lease pk)]) ∧ refill_inv p' b.
Proof.
  intros Hl Hr Hrun. pose proof Hl as (Hwf & Hnd & Hh & Hnd2 & Hlh).
  pose proof (acquire_pick_spec now p Hwf) as Hspec.
  destruct (head _) as [[el ptr]|]; [|congruence].
  destruct Hspec as (e & p1 & He & Hid & Hav & Hrun' & Hwf1 & Hret).
  rewrite Hrun in Hrun'. injection Hrun' as <- ->. cbn [pk_lease l_ID].
  pose proof (retired_state p p' ptr e _ Hwf He Hid Hret eq_refl) as Hst. cbn in Hst.
  split; [|by eapply retired_refill].
  assert (state_of p (e_ID e) = Some (e_State e)) as Hse by (unfold state_of, entry_of; by rewrite Hid; cbn; rewrite He).
  assert (e_ID e ∉ hist) as Hnew.
  { intros Hin. destruct (Hh _ Hin) as [Hx|Hx]; rewrite Hse in Hx; injection Hx as Hx; by rewrite Hx in Hav. }
  unfold lease_inv. rewrite fmap_cons. cbn [app]. change (pick_id (spec, _)) with (e_ID e). splits; try done.
  - apply NoDup_app. splits; [done| |apply NoDup_singleton].
    intros x Hx Hx2. apply list_elem_of_singleton in Hx2 as ->. done.
  - intros id Hin. rewrite Hst. destruct (decide (id = e_ID e)); [by left|]. apply Hh.
    apply elem_of_app in Hin as [?|Hin]; [done|]. by apply list_elem_of_singleton in Hin.
  - constructor; [|done]. intros Hin. by apply Hnew, Hlh.
  - intros id [->|Hin]%elem_of_cons; rewrite Hst, elem_of_app, list_elem_of_singleton.
    + by rewrite decide_True by done; auto.
    + destruct (Hlh _ Hin). destruct (decide (id = e_ID e)); auto.
Qed.

(** A held or pending lease has its entry. *)
Lemma leased_entry p id :
  state_of p id = Some StateLeased → ∃ e, entry_of p id = Some e ∧ e_State e = StateLeased.
Proof. unfold state_of. destruct (entry_of p id) as [e|]; cbn; [|done]. intros [= ?]. eauto. Qed.

Lemma setip_inv p id ip p' pend held hist b :
  lease_inv p pend held hist → refill_inv p b → state_of p id = Some StateLeased →
  acquire_setip id ip p = Ok p' → lease_inv p' pend held hist ∧ refill_inv p' b.
Proof.
  intros Hl Hr Hs Hrun. pose proof Hl as (Hwf & _). destruct (leased_entry _ _ Hs) as (e & He & Hes).
  destruct (entry_of_Some _ _ _ Hwf He) as (Hid & ptr & Hptr & Hh).
  unfold acquire_setip in Hrun. rewrite Hptr, Hh in Hrun. cbn in Hrun. injection Hrun as <-.
  split; [|done]. eapply lease_inv_keep; [done|by eapply put_same_wf|].
  intros i s _. unfold state_of.
  rewrite (entry_of_put p ptr (set_GuestIP e ip) (put_entry p ptr (set_GuestIP e ip)) Hwf)
    by (done || by cbn; rewrite Hid).
  cbn. case_decide as Heq; [|done]. subst i. rewrite Hid. by rewrite He.
Qed.

Lemma finish_inv p p1 spec pk p2 held hist b resumeErr netErr p' r :
  lease_inv p (p1 ++ (spec, pk) :: p2) held hist → refill_inv p b →
  acquire_finish spec pk resumeErr netErr p = Ok (p', r) →
  match r with
  | inl l => lease_inv p' (p1 ++ p2) (l :: held) hist ∧ refill_inv p' b
  | inr _ => lease_inv p' (p1 ++ p2) held hist ∧ refill_inv p' b
  end.
Proof.
  intros Hl Hr Hrun. pose proof Hl as (Hwf & _ & _ & Hnd2 & Hlh).
  set (id := l_ID (pk_lease pk)) in *.
  assert (∀ hs : list Lease, (pick_id <$> p1 ++ (spec, pk) :: p2) ++ (l_ID <$> hs)
            ≡ₚ id :: (pick_id <$> p1 ++ p2) ++ (l_ID <$> hs)) as Hperm.
  { intros hs. rewrite !fmap_app, fmap_cons. change (pick_id (spec, pk)) with id. solve_Permutation. }
  assert (state_of p id = Some StateLeased) as Hs by (apply Hlh; rewrite Hperm; left).
  assert (∀ l, l_ID l = id → lease_inv p (p1 ++ p2) (l :: held) hist) as Hmove.
  { intros l Hlid. destruct Hl as (? & ? & ? & ? & ?). unfold lease_inv.
    assert ((pick_id <$> p1 ++ p2) ++ (l_ID <$> l :: held)
            ≡ₚ (pick_id <$> p1 ++ (spec, pk) :: p2) ++ (l_ID <$> held)) as Hp
      by (rewrite Hperm, fmap_cons, Hlid; solve_Permutation).
    splits; try done; [by rewrite Hp|]. intros i Hi. rewrite Hp in Hi. auto. }
  assert (∀ q, markStoppedAndReturn id p = Ok q →
    lease_inv q (p1 ++ p2) held hist ∧ refill_inv q b) as Hstop.
  { intros q Hq. destruct (leased_entry _ _ Hs) as (e & He & Hes).
    destruct (markStopped_spec id p e Hwf He) as (ptr & q' & Hptr & Hh & Hrun' & Hwf' & Hret).
    rewrite Hq in Hrun'. injection Hrun' as <-. destruct (entry_of_Some _ _ _ Hwf He) as (Hid & _).
    split; [|by eapply retired_refill]. eapply lease_inv_stop; [exact Hl|done|apply Hperm|].
    pose proof (retired_state p q ptr e _ Hwf Hh ltac:(by rewrite Hid) Hret eq_refl) as Hst.
    rewrite Hid in Hst. exact Hst. }
  unfold acquire_finish in Hrun. fold id in Hrun.
  destruct (needs_resume pk && resumeErr).
  { apply bind_Ok in Hrun as (q & Hq & [= <- <-]). by apply Hstop. }
  destruct (needs_network spec pk); [|injection Hrun as <- <-; split; [by apply Hmove|done]].
  destruct netErr.
  { apply bind_Ok in Hrun as (q & Hq & [= <- <-]). by apply Hstop. }
  apply bind_Ok in Hrun as (q & Hq & [= <- <-]). eapply setip_inv; [by apply Hmove|done..].
Qed.

Lemma release_inv p pend h1 l h2 hist b p' rr :
  lease_inv p pend (h1 ++ l :: h2) hist → refill_inv p b → Release (l_ID l) p = Ok (p', rr) →
  lease_inv p' pend (h1 ++ h2) hist ∧ refill_inv p' b.
Proof.
  intros Hl Hr Hrun. pose proof Hl as (Hwf & _ & _ & _ & Hlh).
  assert ((pick_id <$> pend) ++ (l_ID <$> h1 ++ l :: h2)
          ≡ₚ l_ID l :: (pick_id <$> pend) ++ (l_ID <$> h1 ++ h2)) as Hperm
    by (rewrite !fmap_app, fmap_cons; solve_Permutation).
  assert (state_of p (l_ID l) = Some StateLeased) as Hs by (apply Hlh; rewrite Hperm; left).
  destruct (leased_entry _ _ Hs) as (e & He & Hes).
  pose proof (Release_spec (l_ID l) p e Hwf He) as Hspec. rewrite decide_True in Hspec by done.
  destruct Hspec as (ptr & q & Hptr & Hh & Hrun' & Hwf' & Hret). rewrite Hrun in Hrun'. injection Hrun' as <- ->.
  destruct (entry_of_Some _ _ _ Hwf He) as (Hid & _).
  split; [|by eapply retired_refill]. eapply lease_inv_stop; [exact Hl|done|exact Hperm|].
  pose proof (retired_state p p' ptr e _ Hwf Hh ltac:(by rewrite Hid) Hret eq_refl) as Hst.
  rewrite Hid in Hst. exact Hst.
Qed.

(** What one pass of the refiller starts fits in the limits. *)
Lemma reconcile_plan_bounds p now gr h q :
  pool_wf p → caps p → 0 ≤ p_inflightHot p → 0 ≤ p_inflightPaused p →
  reconcile_plan p now gr = Some (h, q) →
  0 ≤ h ∧ 0 ≤ q ∧ caps (launch p h q) ∧ match gr with Some g => h + q ≤ g | None => True end ∧
  p_cooldownUntil p ≤ now.
Proof.
  intros Hwf (C1 & C2 & C3) Hi Hj. unfold reconcile_plan.
  rewrite (count_bucket p StateHot (p_availableHot p)), (count_bucket p StatePaused (p_availablePaused p))
    by done.
  set (lh := zlen (p_availableHot p)) in *. set (lp := zlen (p_availablePaused p)) in *.
  destruct (p_started p); [|done]. cbn [negb].
  destruct (Z.ltb_spec now (p_cooldownUntil p)); [done|]. cbv zeta.
  unfold caps, launch, set_counters. cbn. fold lh lp.
  destruct gr as [g|]; repeat case_match; b2p; intros; simplify_eq; splits; try done; lia.
Qed.

Lemma reconcile_inv p g b pend held hist now p' g' nh np :
  lease_inv p pend held hist → refill_inv p b → reconcile now p g = (p', g', (nh, np)) →
  lease_inv p' pend held hist ∧ refill_inv p' (b ++ replicate nh true ++ replicate np false).
Proof.
  intros Hl (Hih & Hip & Hc) Hrun. pose proof Hl as (Hwf & _).
  assert (∀ n, count_hot (replicate n true) = Z.of_nat n ∧ count_hot (replicate n false) = 0 ∧
    count_cold (replicate n true) = 0 ∧ count_cold (replicate n false) = Z.of_nat n) as Hrep.
  { intros n. unfold count_hot, count_cold.
    assert (∀ x y : bool, y ∈ replicate n x → y = x) as Hin
      by (intros x y Hy; apply elem_of_replicate in Hy; tauto).
    rewrite (filter_all (λ x, x = true) (replicate n true)), (filter_all (λ x, x = false) (replicate n false)),
      (filter_none (λ x, x = true) (replicate n false)), (filter_none (λ x, x = false) (replicate n true))
      by (intros ? Hx%Hin; by subst).
    unfold zlen. rewrite !length_replicate. done. }
  assert (∀ n m, refill_inv (launch p (Z.of_nat n) (Z.of_nat m)) (b ++ replicate n true ++ replicate m false) ↔
    caps (launch p (Z.of_nat n) (Z.of_nat m))) as Hiff.
  { intros n m. unfold refill_inv. unfold count_hot, count_cold in *. rewrite !filter_app, !zlen_app.
    destruct (Hrep n) as (-> & _ & -> & _). destruct (Hrep m) as (_ & -> & _ & ->). cbn. rewrite Hih, Hip.
    split; [naive_solver|]. intros. splits; try done; lia. }
  unfold reconcile in Hrun. destruct (reconcile_plan p now _) as [[h q]|] eqn:Hplan.
  - injection Hrun as <- <- <- <-.
    destruct (reconcile_plan_bounds p now (remainingLocked <$> g) h q Hwf Hc) as (Hh & Hq & Hc' & _); [| |done|].
    { rewrite Hih. unfold count_hot, zlen. lia. }
    { rewrite Hip. unfold count_cold, zlen. lia. }
    split; [exact Hl|]. rewrite <- (Z2Nat.id h), <- (Z2Nat.id q) at 1 by done. apply Hiff.
    by rewrite !Z2Nat.id by done.
  - injection Hrun as <- <- <- <-. split; [done|]. cbn. rewrite app_nil_r. done.
Qed.

Lemma count_remove (b1 : list bool) x b2 :
  count_hot (b1 ++ x :: b2) = count_hot (b1 ++ b2) + (if x then 1 else 0) ∧
  count_cold (b1 ++ x :: b2) = count_cold (b1 ++ b2) + (if x then 0 else 1).
Proof.
  unfold count_hot, count_cold. rewrite !filter_app, !zlen_app. destruct x.
  - rewrite (filter_cons_True (λ x, x = true)), (filter_cons_False (λ x, x = false)), zlen_cons by done. lia.
  - rewrite (filter_cons_False (λ x, x = true)), (filter_cons_True (λ x, x = false)), zlen_cons by done. lia.
Qed.

Lemma boot_inv p g b1 isHot b2 pend held hist o ctxErr now p' g' :
  lease_inv p pend held hist → refill_inv p (b1 ++ isHot :: b2) → boot_fresh p o now →
  runCreate isHot o ctxErr now p g = Ok (p', g') →
  lease_inv p' pend held hist ∧ refill_inv p' (b1 ++ b2).
Proof.
  intros Hl (Hih & Hip & C1 & C2 & C3) Hfresh Hrun. pose proof Hl as (Hwf & _).
  destruct (count_remove b1 isHot b2) as [Hch Hcc]. rewrite Hch in Hih. rewrite Hcc in Hip.
  set (p0 := if isHot then launch p (-1) 0 else launch p 0 (-1)).
  assert (lease_inv p0 pend held hist ∧ refill_inv p0 (b1 ++ b2) ∧ pool_wf p0 ∧ p_entries p0 = p_entries p ∧
    p_heap p0 = p_heap p ∧ p_cfg p0 = p_cfg p ∧
    p_availableHot p0 = p_availableHot p ∧ p_availablePaused p0 = p_availablePaused p ∧
    p_inflightHot p0 = p_inflightHot p - (if isHot then 1 else 0) ∧
    p_inflightPaused p0 = p_inflightPaused p - (if isHot then 0 else 1))
    as (Hl0 & Hr0 & Hwf0 & He0 & Hh0 & Hcf0 & Hah & Hap & Hi0 & Hj0).
  { unfold p0, refill_inv, caps. destruct isHot; cbn; splits; try done; try lia. }
  unfold runCreate in Hrun. fold p0 in Hrun. cbv zeta in Hrun.
  destruct o as [[r|]| |]; [|done|by injection Hrun as <- <-|by injection Hrun as <- <-].
  destruct ctxErr; [by injection Hrun as <- <-|]. cbn [must mbind res_bind] in Hrun.
  fold (boot_id now r) in Hrun. cbn in Hfresh.
  match type of Hrun with context [new_entry p0 ?e] => set (e0 := e) in Hrun end.
  destruct (add_spec p0 e0) as (p1 & Hadd & Hwf1 & Hh1 & Hen1 & Hb1 & Hb2 & Hih1 & Hip1 & Hcf1 & _);
    [done|by cbn; rewrite He0|by unfold e0; cbn; destruct isHot|].
  destruct (new_entry p0 e0) as [pn ptrn] eqn:Hne. cbn [fst snd] in Hadd. rewrite Hadd in Hrun.
  cbn [mbind res_bind] in Hrun. injection Hrun as <- <-. split.
  - eapply lease_inv_keep; [exact Hl0|exact Hwf1|]. intros id s _. unfold state_of, entry_of.
    cbn. rewrite Hen1, Hh1.
    destruct (decide (id = e_ID e0)) as [->|]; [by cbn; rewrite He0, Hfresh|].
    rewrite lookup_insert_ne by done. destruct (p_entries p0 !! id) as [q|] eqn:Hq; [|done]. cbn.
    rewrite lookup_insert_ne; [done|]. intros <-. destruct Hwf0 as (Hent & _ & _ & _ & _ & _ & _ & Hptr).
    destruct (Hent _ _ Hq) as (e1 & He1 & _). apply Hptr in He1. lia.
  - unfold refill_inv, caps. cbn. rewrite Hb1, Hb2, Hih1, Hip1, Hcf1, Hcf0, Hah, Hap, Hi0, Hj0, !zlen_app.
    unfold e0. cbn. destruct isHot;
      [rewrite decide_True, decide_False by done|rewrite decide_False, decide_True by done];
      unfold zlen in *; cbn [length]; splits; try done; lia.
Qed.

Lemma pool_step_inv s s' : pool_step s s' → sys_inv s → sys_inv s'.
Proof.
  intros Hstep [Hl Hr].
  destruct Hstep as [?????????? Hrun|???????????? l Hrun|???????????? err Hrun|?????????? Hrun
    |??????????? Hrun|????????????? Hf Hrun|????????? Hrun|???????? Hrun]; unfold sys_inv; cbn in *.
  - by eapply pick_inv.
  - exact (finish_inv _ _ _ _ _ _ _ _ _ _ _ (inl l) Hl Hr Hrun).
  - exact (finish_inv _ _ _ _ _ _ _ _ _ _ _ (inr err) Hl Hr Hrun).
  - by eapply release_inv.
  - by eapply reconcile_inv.
  - by eapply boot_inv.
  - eapply swept_inv; [done..|]. destruct Hl as [Hwf _].
    exact (res_sat_Ok _ _ _ (reapOnce_sat stopped p Hwf) Hrun).
  - eapply swept_inv; [done..|]. destruct Hl as [Hwf _].
    exact (res_sat_Ok _ _ _ (DrainPaused_sat p Hwf) Hrun).
Qed.

Lemma pool_run_inv s s' : rtc pool_step s s' → sys_inv s → sys_inv s'.
Proof. induction 1; eauto using pool_step_inv. Qed.

(** ** Waiting for a sandbox

    The loop of [AcquireWait]: try, and when the pool is empty wake the refiller
    and read the wake-up channel, then park until it is closed.  A parked waiter
    whose channel was not closed has no step (timeouts and cancellation apart). *)
Inductive waiter :=
  | WTry
  | WEmpty
  | WParked (gen : nat)
  | WDone (pk : Pick)
  | WFailed (e : perr).

Definition wait_step (now : Z) (p : Pool) (w : waiter) : option (Pool * waiter) :=
  match w with
  | WTry => match acquire_pick now p with
            | Ok (p, pk) => Some (p, WDone pk)
            | Err ErrPoolEmpty => Some (p, WEmpty)
            | Err e => Some (p, WFailed e)
            | _ => None
            end
  | WEmpty => Some (p, WParked (p_warmGen p))
  | WParked gen => if bool_decide (p_warmGen p = gen) then None else Some (p, WTry)
  | WDone _ | WFailed _ => None
  end.

(** ** Properties *)

Lemma count_total b : count_hot b + count_cold b = zlen b.
Proof.
  unfold count_hot, count_cold. induction b as [|x b IH]; [done|]. rewrite zlen_cons. destruct x.
  - rewrite (filter_cons_True (λ x, x = true)), (filter_cons_False (λ x, x = false)), zlen_cons by done. lia.
  - rewrite (filter_cons_False (λ x, x = true)), (filter_cons_True (λ x, x = false)), zlen_cons by done. lia.
Qed.

(** Applying the defaults twice changes nothing more. *)
Lemma defaults_idem c :
  MinPaused (defaultsApplied (defaultsApplied c)) = MinPaused (defaultsApplied c) ∧
  MaxPaused (defaultsApplied (defaultsApplied c)) = MaxPaused (defaultsApplied c) ∧
  ReplenishParallelism (defaultsApplied (defaultsApplied c)) = ReplenishParallelism (defaultsApplied c) ∧
  MaxHot (defaultsApplied c) = MaxHot c.
Proof.
  destruct c as [? ? mn mx rp ? ? ? ? ? ?]. unfold defaultsApplied. cbn [MinPaused MaxPaused].
  assert ((if (if rp =? 0 then 2 else rp) =? 0 then 2 else (if rp =? 0 then 2 else rp))
    = (if rp =? 0 then 2 else rp)) as Hrp by (destruct (rp =? 0) eqn:E; [done|by rewrite E]).
  destruct ((mn =? 0) && (mx =? 0)) eqn:E1; [cbn; splits; done|].
  destruct ((mx =? 0) && (0 <? mn)) eqn:E2; cbn.
  - b2p. destruct (8 <? 2 * mn) eqn:E3; replace (mn =? 0) with false by lia; cbn;
      [replace (2 * mn =? 0) with false by lia|]; cbn; splits; done.
  - rewrite E1. cbn. rewrite E2. splits; done.
Qed.

Lemma start_inv cfg p p1 g :
  NewPool cfg = Ok p → Start p = Ok p1 → 0 ≤ MaxHot cfg → sys_inv (mkSystem p1 g [] [] [] []).
Proof.
  intros Hnew Hstart Hmax. unfold NewPool in Hnew. cbv zeta in Hnew.
  apply bind_Ok in Hnew as (u & Hval & [= <-]). cbn in Hstart. injection Hstart as <-.
  assert (0 ≤ MinPaused (defaultsApplied (defaultsApplied cfg)) ∧
    MinPaused (defaultsApplied (defaultsApplied cfg)) ≤ MaxPaused (defaultsApplied (defaultsApplied cfg)) ∧
    0 < ReplenishParallelism (defaultsApplied (defaultsApplied cfg))) as Hv.
  { revert Hval. unfold Validate. repeat case_match; try done; b2p. lia. }
  destruct (defaults_idem cfg) as (Hi1 & Hi2 & Hi3 & Hi4). rewrite Hi1, Hi2, Hi3 in Hv. split.
  - assert (∀ A (x : A), x ∈ [] → False) as Hnil by (intros A x Hx; by apply not_elem_of_nil in Hx).
    unfold lease_inv. cbn. splits; [|constructor|by intros ? ?%Hnil|constructor|by intros ? ?%Hnil].
    unfold pool_wf, in_bucket. cbn. splits; try (by intros ? ? ?%Hnil); try constructor; intros; by simplify_map_eq.
  - unfold refill_inv, caps. cbn.
    rewrite Hi4.
    unfold count_hot, count_cold, zlen. cbn. splits; done || lia.
Qed.

(** C6: no sandbox is ever handed out twice. In every interleaving of
    acquires, releases, boots, refills, reaps and drains, each ID is picked at
    most once in the lifetime of the pool, even after it was released; the
    leases that are pending or held are pairwise different, and a holder's
    [Release] always succeeds. *)
Theorem pool_no_double_lease cfg p p1 g s :
  NewPool cfg = Ok p → Start p = Ok p1 → 0 ≤ MaxHot cfg →
  rtc pool_step (mkSystem p1 g [] [] [] []) s →
  NoDup (sy_history s) ∧ NoDup ((pick_id <$> sy_pending s) ++ (l_ID <$> sy_held s)) ∧
  (∀ l, l ∈ sy_held s → l_ID l ∈ sy_history s ∧ ∃ p' rr, Release (l_ID l) (sy_pool s) = Ok (p', rr)).
Proof.
  intros Hnew Hstart Hmax Hrun.
  destruct (pool_run_inv _ _ Hrun (start_inv _ _ _ g Hnew Hstart Hmax)) as [(Hwf & Hnd & _ & Hnd2 & Hl) _].
  splits; try done. intros l Hin.
  destruct (Hl (l_ID l)) as [Hh Hs]; [apply elem_of_app; right; by apply list_elem_of_fmap_2|].
  split; [done|]. destruct (leased_entry _ _ Hs) as (e & He & Hes).
  pose proof (Release_spec (l_ID l) (sy_pool s) e Hwf He) as Hspec. rewrite decide_True in Hspec by done.
  destruct Hspec as (_ & p' & _ & _ & Hrel & _). eauto.
Qed.

(** The refiller respects its limits. In every execution the in-flight
    counters are the numbers of running boots, at most [ReplenishParallelism]
    boots run at once, and the ready sandboxes plus the boots under way never
    exceed [MaxPaused] and [MaxHot]. *)
Theorem refiller_respects_caps cfg p p1 g s :
  NewPool cfg = Ok p → Start p = Ok p1 → 0 ≤ MaxHot cfg →
  rtc pool_step (mkSystem p1 g [] [] [] []) s →
  let q := sy_pool s in
  Inflight q = zlen (sy_boots s) ∧ Inflight q ≤ ReplenishParallelism (p_cfg q) ∧
  count_state q StatePaused + p_inflightPaused q ≤ MaxPaused (p_cfg q) ∧
  count_state q StateHot + p_inflightHot q ≤ MaxHot (p_cfg q).
Proof.
  intros Hnew Hstart Hmax Hrun q.
  destruct (pool_run_inv _ _ Hrun (start_inv _ _ _ g Hnew Hstart Hmax)) as [(Hwf & _) (Hi & Hj & C1 & C2 & C3)].
  fold q in Hwf, Hi, Hj, C1, C2, C3. unfold Inflight.
  rewrite (count_bucket q StateHot (p_availableHot q)), (count_bucket q StatePaused (p_availablePaused q)) by done.
  pose proof (count_total (sy_boots s)).
  splits; lia.
Qed.

(** The IDs that are ready, in the order in which they will be handed out. *)
Definition ready_ids (p : Pool) : list (option string) :=
  (λ x, e_ID <$> p_heap p !! x.2) <$> p_availableHot p ++ p_availablePaused p.

(** Leases are handed out hot first and oldest first. On a well-formed
    pool a pick takes the head of the ready list and leaves the rest in order,
    and it fails exactly when nothing is ready. *)
Theorem acquire_takes_oldest now p :
  pool_wf p →
  match ready_ids p with
  | [] => acquire_pick now p = Err ErrPoolEmpty
  | id :: rest => ∃ p' pk, acquire_pick now p = Ok (p', pk) ∧ id = Some (l_ID (pk_lease pk)) ∧
      ready_ids p' = rest ∧ (pk_wasHot pk = true ↔ p_availableHot p ≠ [])
  end.
Proof.
  intros Hwf. pose proof (acquire_pick_spec now p Hwf) as Hspec. unfold ready_ids at 1.
  destruct (p_availableHot p ++ p_availablePaused p) as [|[el ptr] rest] eqn:Hlist; [done|].
  cbn [head] in Hspec. destruct Hspec as (e & p' & He & Hid & Hav & Hrun & Hwf' & Hret).
  rewrite fmap_cons. cbn [snd]. rewrite He. exists p'. eexists. splits; [exact Hrun|done|..].
  - destruct Hret as (Hh & _ & Hb1 & Hb2 & _). unfold ready_ids. rewrite Hb1, Hb2, <- filter_app, Hlist, Hh.
    rewrite filter_cons_False by (cbn; tauto).
    destruct Hwf as (_ & Hhot & Hpau & _ & _ & Hnd & _).
    assert (∀ x, x ∈ rest → x.2 ≠ ptr) as Hne.
    { intros [el' q] Hin Heq. cbn in Heq. subst q. rewrite Hlist in Hnd. rewrite fmap_cons in Hnd.
      apply NoDup_cons in Hnd as [Hnin _].
      assert (∀ y, (y, ptr) ∈ p_availableHot p ++ p_availablePaused p → p_availablePos p !! e_ID e = Some y) as Hpos.
      { intros y [Hy|Hy]%elem_of_app; [destruct (Hhot _ _ Hy) as (e1 & ? & _ & _ & ?)|destruct (Hpau _ _ Hy) as (e1 & ? & _ & _ & ?)];
          simplify_eq; done. }
      rewrite Hlist in Hpos. pose proof (Hpos el ltac:(left)). pose proof (Hpos el' ltac:(by right)).
      assert (el' = el) as -> by congruence. apply Hnin. by apply (list_elem_of_fmap_2 fst _ (el, ptr)). }
    rewrite filter_all by (intros x Hx; cbn; by apply Hne).
    apply list_fmap_ext. intros i x Hx. rewrite lookup_insert_ne; [done|]. apply not_eq_sym, Hne.
    by eapply list_elem_of_lookup_2.
  - cbn. rewrite bool_decide_eq_true. destruct Hwf as (_ & Hhot & Hpau & _).
    destruct (p_availableHot p) as [|x hs] eqn:Hh; cbn in Hlist.
    + split; [|done]. intros Hs. destruct (Hpau el ptr) as (e1 & ? & ? & _); [rewrite Hlist; left|]. congruence.
    + split; [done|]. intros _. injection Hlist as -> _. destruct (Hhot el ptr) as (e1 & ? & ? & _); [left|]. congruence.
Qed.

Lemma runCreate_resets isHot r now p g p2 g2 :
  runCreate isHot (BootOk (Some r)) false now p g = Ok (p2, g2) →
  p_consecutiveFailures p2 = 0 ∧ p_cooldownUntil p2 = 0.
Proof.
  unfold runCreate. cbv zeta. intros Hrun. apply bind_Ok in Hrun as (r' & [= <-] & Hrun).
  destruct (new_entry _ _) as [pn ptr]. apply bind_Ok in Hrun as (p3 & _ & [= <- _]). done.
Qed.

(** Failed boots back off. When a boot fails and the run of failures has
    reached the threshold, no pass of the refiller starts a boot before the
    cooldown has passed; a later successful boot clears the failure count and
    the cooldown. *)
Theorem failures_back_off isHot ctxErr now p g p' g' :
  runCreate isHot BootFailed ctxErr now p g = Ok (p', g') →
  ConsecutiveFailureThreshold (p_cfg p) ≤ p_consecutiveFailures p + 1 →
  p_consecutiveFailures p' = p_consecutiveFailures p + 1 ∧
  (∀ t gr, t < now + Cooldown (p_cfg p) → reconcile_plan p' t gr = None) ∧
  (∀ isHot2 r t p2 g2, runCreate isHot2 (BootOk (Some r)) false t p' g' = Ok (p2, g2) →
     p_consecutiveFailures p2 = 0 ∧ p_cooldownUntil p2 = 0).
Proof.
  intros Hrun Hthr. unfold runCreate in Hrun. cbv zeta in Hrun. injection Hrun as <- _.
  set (q := if isHot then launch p (-1) 0 else launch p 0 (-1)).
  assert (p_cfg q = p_cfg p ∧ p_consecutiveFailures q = p_consecutiveFailures p) as [Hc Hf]
    by (unfold q; by destruct isHot).
  rewrite Hc, Hf. splits; [done|..].
  - intros t gr Ht. unfold reconcile_plan. destruct (negb _); [done|]. cbn. le_is true. lt_is true. done.
  - intros h2 r t p2 g2 Hrun. by eapply runCreate_resets.
Qed.

(** ** Two races

    The lost wake-up of [AcquireWait]: the waiter finds the pool empty, a boot
    lands and signals, and only then the waiter reads the channel. It parks on
    the channel that the next boot closes, while a sandbox is ready. *)

(** A wake-up can be lost. When a boot lands between the failed try of
    [AcquireWait] and its read of the wake-up channel, the waiter is parked
    (it has no step) although a pick of the same pool succeeds, with the
    sandbox that was just booted. *)
Theorem acquire_wait_lost_wakeup now p isHot r t g p' g' :
  pool_wf p → wait_step now p WTry = Some (p, WEmpty) →
  boot_fresh p (BootOk (Some r)) t →
  runCreate isHot (BootOk (Some r)) false t p g = Ok (p', g') →
  ∃ w, wait_step now p' WEmpty = Some (p', w) ∧ wait_step now p' w = None ∧
       ∃ q pk, acquire_pick now p' = Ok (q, pk) ∧ l_ID (pk_lease pk) = boot_id t r.
Proof.
  intros Hwf Htry Hfresh Hrun. exists (WParked (p_warmGen p')).
  splits; [done|cbn; by rewrite bool_decide_true|].
  assert (p_availableHot p ++ p_availablePaused p = []) as Hempty.
  { pose proof (acquire_pick_spec now p Hwf) as Hspec. destruct (head _) as [[el ptr]|] eqn:Hhd; [|by apply head_None].
    destruct Hspec as (e & q & _ & _ & _ & Hq & _). cbn in Htry. by rewrite Hq in Htry. }
  apply app_eq_nil in Hempty as [Hhot Hpau].
  unfold runCreate in Hrun. cbv zeta in Hrun. cbn [must mbind res_bind] in Hrun.
  fold (boot_id t r) in Hrun. cbn in Hfresh.
  set (p0 := if isHot then launch p (-1) 0 else launch p 0 (-1)) in Hrun.
  match type of Hrun with context [new_entry p0 ?e] => set (e0 := e) in Hrun end.
  assert (pool_wf p0 ∧ p_entries p0 = p_entries p ∧ p_availableHot p0 = [] ∧ p_availablePaused p0 = [])
    as (Hwf0 & He0 & Hh0 & Hp0) by (unfold p0; by destruct isHot).
  destruct (add_spec p0 e0) as (p1 & Hadd & Hwf1 & Hh1 & Hen1 & Hb1 & Hb2 & _);
    [done|by cbn; rewrite He0|by unfold e0; cbn; destruct isHot|].
  destruct (new_entry p0 e0) as [pn ptrn] eqn:Hne. cbn [fst snd] in Hadd. rewrite Hadd in Hrun.
  cbn [mbind res_bind] in Hrun. injection Hrun as <- _.
  match goal with |- context [acquire_pick now ?q] =>
    pose proof (acquire_pick_spec now q Hwf1) as Hspec end.
  cbn [p_availableHot p_availablePaused p_heap signalWarmAvailableLocked set_counters] in Hspec.
  assert (∃ el, p_availableHot p1 ++ p_availablePaused p1 = [(el, p_next p0)]) as [el Hl].
  { rewrite Hb1, Hb2, Hh0, Hp0. unfold e0. cbn [e_State].
    destruct isHot; [rewrite decide_True, decide_False by done|rewrite decide_False, decide_True by done]; cbn; eauto. }
  rewrite Hl in Hspec. cbn [head] in Hspec. destruct Hspec as (e & q & He & _ & _ & Hq & _).
  rewrite Hh1, lookup_insert_eq in He. injection He as <-. eauto.
Qed.

(** The budget of a single pool is kept: what [reconcile] takes fits in what
    was left. *)
Lemma reconcile_keeps_budget now p g p' g' nh np :
  pool_wf p → caps p → 0 ≤ p_inflightHot p → 0 ≤ p_inflightPaused p →
  0 < g_capacity g → 0 ≤ g_inUse g ≤ g_capacity g →
  reconcile now p (Some g) = (p', g', (nh, np)) →
  ∃ b, g' = Some b ∧ g_capacity b = g_capacity g ∧ g_inUse b = g_inUse g + Z.of_nat (nh + np) ∧
       g_inUse b ≤ g_capacity b.
Proof.
  intros Hwf Hc Hi Hj Hcap Hu. unfold reconcile. cbn.
  destruct (reconcile_plan p now (Some (remainingLocked g))) as [[h q]|] eqn:Hplan.
  - destruct (reconcile_plan_bounds _ _ _ _ _ Hwf Hc Hi Hj Hplan) as (Hh & Hq & _ & Hle & _).
    intros [= <- <- <- <-]. eexists. splits; [done|done|cbn; lia|].
    destruct (acquire_within g (h + q)); [done..|lia|]. done.
  - intros [= <- <- <- <-]. eexists. splits; [done..|lia|lia].
Qed.

(** The global budget can be exceeded. [reconcile] reads the remaining
    budget in one critical section of the budget and takes its share in a later
    one; when two pools plan on the same reading and both then take, a budget
    of three has four boots in flight. The pools are as [NewPool] and [Start]
    make them. *)
Theorem budget_race :
  ∃ cfg p p1 h q h2 q2 g1,
    NewPool cfg = Ok p ∧ Start p = Ok p1 ∧
    let g0 := NewGlobalInflightBudget 3 in
    reconcile_plan p1 0 (Some (remainingLocked g0)) = Some (h, q) ∧
    reconcile_plan p1 0 (Some (remainingLocked g0)) = Some (h2, q2) ∧
    g1 = acquireLocked (h2 + q2) (acquireLocked (h + q) g0) ∧
    g_capacity g1 = 3 ∧ g_inUse g1 = 4 ∧ remainingLocked g1 = 0.
Proof.
  exists (mkConfig "t" (mkRunOptions "k" "i" "") 2 4 2 0 0 0 0 0 0). do 7 eexists.
  splits; [reflexivity|reflexivity|cbv zeta]. splits; [vm_compute; reflexivity..|]. done.
Qed.

(** ** A concrete run

    A pool of one paused sandbox: refill, boot, pick, lease. *)
Definition ex_cfg : Config := mkConfig "t" (mkRunOptions "k" "i" "") 1 2 1 1 0 0 0 0 0.
Definition ex_pool : Pool := mkPool (defaultsApplied ex_cfg) false ∅ ∅ [] [] ∅ 0 false 0 0 0 0 false 0.
Definition ex_started : Pool := value_or ex_pool (Start ex_pool).
Definition ex_boot : BootResult := mkBootResult (Some (mkRunResult "a")) "" "" true true.
Definition ex_refilled : Pool := launch ex_started 0 1.
Definition ex_ready : Pool := (value_or (ex_refilled, None) (runCreate false (BootOk (Some ex_boot)) false 5 ex_refilled None)).1.
Definition ex_pick : Pool * Pick :=
  value_or (ex_ready, mkPick (mkLease "" "" "" 0) false false false) (acquire_pick 6 ex_ready).
Definition ex_final : System := mkSystem ex_pick.1 None [] [] [pk_lease ex_pick.2] ["a"].

Lemma ex_runs : rtc pool_step (mkSystem ex_started None [] [] [] []) ex_final.
Proof.
  eapply rtc_l; [apply (st_reconcile _ _ _ _ _ _ 0 ex_refilled None 0 1); vm_compute; reflexivity|].
  eapply rtc_l.
  { apply (st_boot ex_refilled None [] false [] [] [] [] (BootOk (Some ex_boot)) false 5 ex_ready None);
      [reflexivity|vm_compute; reflexivity]. }
  eapply rtc_l.
  { apply (st_pick ex_ready None [] [] [] [] 6 (mkLeaseSpec "") ex_pick.1 ex_pick.2); vm_compute; reflexivity. }
  eapply rtc_l; [|apply rtc_refl].
  apply (st_lease ex_pick.1 None [] [] (mkLeaseSpec "") ex_pick.2 [] [] ["a"] false false ex_pick.1 (pk_lease ex_pick.2)).
  vm_compute; reflexivity.
Qed.

Lemma pool_no_double_lease_witness :
  NoDup (sy_history ex_final) ∧ NoDup ((pick_id <$> sy_pending ex_final) ++ (l_ID <$> sy_held ex_final)) ∧
  (∀ l, l ∈ sy_held ex_final →
     l_ID l ∈ sy_history ex_final ∧ ∃ p' rr, Release (l_ID l) (sy_pool ex_final) = Ok (p', rr)).
Proof.
  apply (pool_no_double_lease ex_cfg ex_pool ex_started None ex_final);
    [vm_compute; reflexivity..|vm_compute; discriminate|exact ex_runs].
Defined.

Lemma refiller_respects_caps_witness :
  Inflight (sy_pool ex_final) = zlen (sy_boots ex_final) ∧
  Inflight (sy_pool ex_final) ≤ ReplenishParallelism (p_cfg (sy_pool ex_final)).
Proof.
  destruct (refiller_respects_caps ex_cfg ex_pool ex_started None ex_final) as (H1 & H2 & _);
    [vm_compute; reflexivity..|vm_compute; discriminate|exact ex_runs|].
  exact (conj H1 H2).
Defined.

Lemma ex_ready_wf : pool_wf ex_ready.
Proof.
  assert (rtc pool_step (mkSystem ex_started None [] [] [] []) (mkSystem ex_ready None [] [] [] [])) as Hrun.
  { eapply rtc_l; [apply (st_reconcile _ _ _ _ _ _ 0 ex_refilled None 0 1); vm_compute; reflexivity|].
    eapply rtc_l; [|apply rtc_refl].
    apply (st_boot ex_refilled None [] false [] [] [] [] (BootOk (Some ex_boot)) false 5 ex_ready None);
      [reflexivity|vm_compute; reflexivity]. }
  apply pool_run_inv in Hrun; [apply Hrun|].
  apply (start_inv ex_cfg ex_pool); [vm_compute; reflexivity..|vm_compute; discriminate].
Qed.

Lemma acquire_takes_oldest_witness :
  ∃ p' pk, acquire_pick 6 ex_ready = Ok (p', pk) ∧ Some "a" = Some (l_ID (pk_lease pk)) ∧ ready_ids p' = [].
Proof.
  destruct (acquire_takes_oldest 6 ex_ready ex_ready_wf) as (p' & pk & H1 & H2 & H3 & _).
  exact (ex_intro _ p' (ex_intro _ pk (conj H1 (conj H2 H3)))).
Defined.

Lemma failures_back_off_witness :
  reconcile_plan (value_or (ex_refilled, None) (runCreate false BootFailed false 7 ex_refilled None)).1 100 None = None.
Proof.
  exact (proj1 (proj2 (failures_back_off false false 7 ex_refilled None _ None
    eq_refl ltac:(vm_compute; discriminate))) 100 None ltac:(vm_compute; reflexivity)).
Defined.

Lemma acquire_wait_lost_wakeup_witness :
  wait_step 6 ex_refilled WTry = Some (ex_refilled, WEmpty) ∧
  ∃ w, wait_step 6 ex_ready WEmpty = Some (ex_ready, w) ∧ wait_step 6 ex_ready w = None ∧
       ∃ q pk, acquire_pick 6 ex_ready = Ok (q, pk) ∧ l_ID (pk_lease pk) = "a".
Proof.
  split; [vm_compute; reflexivity|].
  apply (acquire_wait_lost_wakeup 6 ex_refilled false ex_boot 5 None ex_ready None);
    [|vm_compute; reflexivity|reflexivity|vm_compute; reflexivity].
  apply (reconcile_inv ex_started None [] [] [] [] 0 ex_refilled None 0 1).
  - apply (start_inv ex_cfg ex_pool ex_started None); [vm_compute; reflexivity..|vm_compute; discriminate].
  - apply (start_inv ex_cfg ex_pool ex_started None); [vm_compute; reflexivity..|vm_compute; discriminate].
  - vm_compute; reflexivity.
Defined.
