(* ===== verification/Uart.v ===== *)
(** * The serial port (src/internal/uart/uart.go)

    A 16550A UART on the console.  Bytes for the guest wait in the receive
    buffer; bytes from the guest go to the host's writer ([u_sent] records them)
    and into a buffer that keeps the last [outBufMax] of them.  [u_irqs] counts
    the calls of the interrupt callback, which are all with [true].  The first
    output's time is a flag: the channel [firstOutputCh] is closed when it is
    set.  Each method is one critical section. *)
From S2P Require Import Prelude.

(** Registers whose read and write sides share an offset have one name here. *)
Definition RegRBR : Z := 0.
Definition RegIER : Z := 1.
Definition RegIIR : Z := 2.
Definition RegLCR : Z := 3.
Definition RegMCR : Z := 4.
Definition RegLSR : Z := 5.
Definition RegMSR : Z := 6.
Definition RegSCR : Z := 7.

Definition LSRDataReady : Z := 0x01.
Definition LSRTHREmpty : Z := 0x20.
Definition LSRTransmitEmpty : Z := 0x40.
Definition IERRxDataAvail : Z := 0x01.
Definition IERTHREmpty : Z := 0x02.
Definition MCRDTR : Z := 0x01.
Definition MCRRTS : Z := 0x02.
Definition MCROut1 : Z := 0x04.
Definition MCROut2 : Z := 0x08.
Definition MCRLoopback : Z := 0x10.
Definition IIRNoPending : Z := 0x01.
Definition IIRTHREmpty : Z := 0x02.
Definition IIRRxDataAvail : Z := 0x04.
Definition IIRFIFOEnabled : Z := 0xC0.
Definition defaultOutputBufSize : Z := 64 * 1024.

Record UART := mkUART {
  u_ier : Z;
  u_iir : Z;
  u_lcr : Z;
  u_mcr : Z;
  u_lsr : Z;
  u_msr : Z;
  u_scr : Z;
  u_dll : Z;
  u_dlh : Z;
  u_rxBuf : list Z;
  u_outBuf : list Z;
  u_outBufMax : Z;
  u_firstOutput : bool;
  u_out : bool;                  (** [out] is not nil *)
  u_irqFn : bool;                (** [irqFn] is not nil *)
  u_sent : list Z;               (** bytes written to [out] *)
  u_irqs : nat
}.

Definition New (out irqFn : bool) : UART :=
  {| u_ier := 0; u_iir := IIRNoPending; u_lcr := 0; u_mcr := 0x03; u_lsr := LSRTHREmpty .| LSRTransmitEmpty;
     u_msr := 0xB0; u_scr := 0; u_dll := 0; u_dlh := 0; u_rxBuf := []; u_outBuf := [];
     u_outBufMax := defaultOutputBufSize; u_firstOutput := false; u_out := out; u_irqFn := irqFn;
     u_sent := []; u_irqs := 0 |}.

(** ** Field updates *)
Definition set_int (u : UART) (ier iir : Z) : UART :=
  mkUART ier iir (u_lcr u) (u_mcr u) (u_lsr u) (u_msr u) (u_scr u) (u_dll u) (u_dlh u) (u_rxBuf u) (u_outBuf u)
    (u_outBufMax u) (u_firstOutput u) (u_out u) (u_irqFn u) (u_sent u) (u_irqs u).
Definition set_line (u : UART) (lcr mcr msr scr dll dlh : Z) : UART :=
  mkUART (u_ier u) (u_iir u) lcr mcr (u_lsr u) msr scr dll dlh (u_rxBuf u) (u_outBuf u)
    (u_outBufMax u) (u_firstOutput u) (u_out u) (u_irqFn u) (u_sent u) (u_irqs u).
Definition set_rx (u : UART) (lsr : Z) (rx : list Z) : UART :=
  mkUART (u_ier u) (u_iir u) (u_lcr u) (u_mcr u) lsr (u_msr u) (u_scr u) (u_dll u) (u_dlh u) rx (u_outBuf u)
    (u_outBufMax u) (u_firstOutput u) (u_out u) (u_irqFn u) (u_sent u) (u_irqs u).
Definition set_tx (u : UART) (lsr : Z) (outBuf sent : list Z) : UART :=
  mkUART (u_ier u) (u_iir u) (u_lcr u) (u_mcr u) lsr (u_msr u) (u_scr u) (u_dll u) (u_dlh u) (u_rxBuf u) outBuf
    (u_outBufMax u) true (u_out u) (u_irqFn u) sent (u_irqs u).

(** [if u.irqFn != nil { u.irqFn(true) }] *)
Definition pulse (u : UART) : UART :=
  mkUART (u_ier u) (u_iir u) (u_lcr u) (u_mcr u) (u_lsr u) (u_msr u) (u_scr u) (u_dll u) (u_dlh u) (u_rxBuf u)
    (u_outBuf u) (u_outBufMax u) (u_firstOutput u) (u_out u) (u_irqFn u) (u_sent u)
    (if u_irqFn u then S (u_irqs u) else u_irqs u).

(** ** Interrupt identification and modem status *)
Definition updateIIR (u : UART) : UART :=
  set_int u (u_ier u)
    (if has (u_lsr u) LSRDataReady && has (u_ier u) IERRxDataAvail then IIRRxDataAvail
     else if has (u_lsr u) LSRTHREmpty && has (u_ier u) IERTHREmpty then IIRTHREmpty
     else IIRNoPending).

Definition injectRXByteLocked (b : Z) (u : UART) : UART :=
  updateIIR (set_rx u (u_lsr u .| LSRDataReady) (u_rxBuf u ++ [b])).

(** The value that [updateMSRLocked] gives the modem status for [mcr]. *)
Definition msr_of (mcr : Z) : Z :=
  if negb (has mcr MCRLoopback) then 0xB0
  else (if has mcr MCRRTS then 0x10 else 0) .| (if has mcr MCRDTR then 0x20 else 0)
       .| (if has mcr MCROut1 then 0x40 else 0) .| (if has mcr MCROut2 then 0x80 else 0).

Definition updateMSRLocked (u : UART) : UART :=
  set_line u (u_lcr u) (u_mcr u) (msr_of (u_mcr u)) (u_scr u) (u_dll u) (u_dlh u).

(** ** Guest accesses *)
Definition dlab (u : UART) : bool := has (u_lcr u) 0x80.

Definition uart_Read (offset : Z) (u : UART) : Z * UART :=
  if offset =? RegRBR then
    if dlab u then (u_dll u, u)
    else
      match u_rxBuf u with
      | [] => (0, u)
      | b :: rest =>
          let u := if u_iir u =? IIRRxDataAvail then set_int u (u_ier u) IIRNoPending else u in
          let lsr := if zlen rest =? 0 then u_lsr u .&^ LSRDataReady else u_lsr u in
          (b, updateIIR (set_rx u lsr rest))
      end
  else if offset =? RegIER then (if dlab u then u_dlh u else u_ier u, u)
  else if offset =? RegIIR then
    (u_iir u .| IIRFIFOEnabled,
     if u_iir u =? IIRTHREmpty then set_int u (u_ier u) IIRNoPending else u)
  else if offset =? RegLCR then (u_lcr u, u)
  else if offset =? RegMCR then (u_mcr u, u)
  else if offset =? RegLSR then (u_lsr u, u)
  else if offset =? RegMSR then (u_msr u, u)
  else if offset =? RegSCR then (u_scr u, u)
  else (0, u).

Definition transmit_byte (val : Z) (u : UART) : UART :=
  let sent := if u_out u then u_sent u ++ [val] else u_sent u in
  let u := set_tx u (u_lsr u .| (LSRTHREmpty .| LSRTransmitEmpty)) (keep_last (u_outBufMax u) (u_outBuf u ++ [val])) sent in
  if has (u_ier u) IERTHREmpty then pulse (set_int u (u_ier u) IIRTHREmpty) else u.

Definition uart_Write (offset val : Z) (u : UART) : UART :=
  if offset =? RegRBR then
    if dlab u then set_line u (u_lcr u) (u_mcr u) (u_msr u) (u_scr u) val (u_dlh u)
    else if has (u_mcr u) MCRLoopback then injectRXByteLocked val u
    else transmit_byte val u
  else if offset =? RegIER then
    if dlab u then set_line u (u_lcr u) (u_mcr u) (u_msr u) (u_scr u) (u_dll u) val
    else
      let u := updateIIR (set_int u (val .& 0x0F) (u_iir u)) in
      if negb (u_iir u =? IIRNoPending) then pulse u else u
  else if offset =? RegLCR then set_line u val (u_mcr u) (u_msr u) (u_scr u) (u_dll u) (u_dlh u)
  else if offset =? RegMCR then
    updateMSRLocked (set_line u (u_lcr u) (val .& 0x1F) (u_msr u) (u_scr u) (u_dll u) (u_dlh u))
  else if offset =? RegSCR then set_line u (u_lcr u) (u_mcr u) (u_msr u) val (u_dll u) (u_dlh u)
  else u.

(** ** Host input *)
Definition InjectBytes (bs : list Z) (u : UART) : UART :=
  if zlen bs =? 0 then u
  else
    let u := set_rx u (u_lsr u .| LSRDataReady) (u_rxBuf u ++ bs) in
    if has (u_ier u) IERRxDataAvail && negb (u_iir u =? IIRRxDataAvail)
    then pulse (set_int u (u_ier u) IIRRxDataAvail)
    else updateIIR u.

Definition InjectByte (b : Z) (u : UART) : UART := InjectBytes [b] u.

(** ** Snapshots *)
Record UARTState := mkUARTState {
  us_IER : Z; us_IIR : Z; us_LCR : Z; us_MCR : Z; us_LSR : Z; us_MSR : Z; us_SCR : Z; us_DLL : Z; us_DLH : Z;
  us_RxBuf : list Z;
  us_OutBuf : list Z
}.

Definition uart_State (u : UART) : UARTState :=
  mkUARTState (u_ier u) (u_iir u) (u_lcr u) (u_mcr u) (u_lsr u) (u_msr u) (u_scr u) (u_dll u) (u_dlh u)
    (u_rxBuf u) (u_outBuf u).

Definition uart_RestoreState (s : UARTState) (u : UART) : UART :=
  mkUART (us_IER s) (us_IIR s) (us_LCR s) (us_MCR s) (us_LSR s) (us_MSR s) (us_SCR s) (us_DLL s) (us_DLH s)
    (us_RxBuf s) (us_OutBuf s) (u_outBufMax u) (u_firstOutput u) (u_out u) (u_irqFn u) (u_sent u) (u_irqs u).

Definition OutputBytes (u : UART) : list Z := u_outBuf u.

(** ** Executions *)
Inductive uart_op :=
  | OpRead (offset : Z)
  | OpWrite (offset val : Z)
  | OpInject (bs : list Z).

Definition uart_step (o : uart_op) (u : UART) : UART :=
  match o with
  | OpRead off => (uart_Read off u).2
  | OpWrite off v => uart_Write off v u
  | OpInject bs => InjectBytes bs u
  end.

(** What an operation adds to the receive side, takes from it, and transmits. *)
Definition received (o : uart_op) (u : UART) : list Z :=
  match o with
  | OpInject bs => bs
  | OpWrite off v => if (off =? RegRBR) && negb (dlab u) && has (u_mcr u) MCRLoopback then [v] else []
  | OpRead _ => []
  end.
Definition consumed (o : uart_op) (u : UART) : list Z :=
  match o with
  | OpRead off => if (off =? RegRBR) && negb (dlab u) && negb (bool_decide (u_rxBuf u = []))
                  then [(uart_Read off u).1] else []
  | _ => []
  end.
Definition transmitted (o : uart_op) (u : UART) : list Z :=
  match o with
  | OpWrite off v => if (off =? RegRBR) && negb (dlab u) && negb (has (u_mcr u) MCRLoopback) then [v] else []
  | _ => []
  end.

(** The UART after a run, with what was received, consumed and transmitted. *)
Fixpoint uart_run (ops : list uart_op) (u : UART) : UART * list Z * list Z * list Z :=
  match ops with
  | [] => (u, [], [], [])
  | o :: ops =>
      let '(u', rx, rd, tx) := uart_run ops (uart_step o u) in
      (u', received o u ++ rx, consumed o u ++ rd, transmitted o u ++ tx)
  end.

(** ** The invariant *)
Definition lsr_of (rx : list Z) : Z := if bool_decide (rx = []) then 0x60 else 0x61.

Definition uart_inv (u : UART) : Prop :=
  u_lsr u = lsr_of (u_rxBuf u) ∧ 0 ≤ u_outBufMax u ∧
  (u_iir u = IIRNoPending ∨ u_iir u = IIRTHREmpty ∨ u_iir u = IIRRxDataAvail ∧ has (u_ier u) IERRxDataAvail = true).

Lemma lsr_of_set rx bs : bs ≠ [] → lsr_of rx .| LSRDataReady = lsr_of (rx ++ bs).
Proof. intros Hb. unfold lsr_of. rewrite (bool_decide_false (rx ++ bs = [])); [by case_bool_decide|]. by destruct rx, bs. Qed.

Lemma updateIIR_inv u :
  u_lsr u = lsr_of (u_rxBuf u) → 0 ≤ u_outBufMax u → uart_inv (updateIIR u).
Proof.
  intros H1 H2. split; [done|]. split; [done|]. unfold updateIIR. cbn [u_iir set_int u_ier].
  destruct (has (u_lsr u) LSRDataReady && has (u_ier u) IERRxDataAvail) eqn:E.
  - apply andb_prop in E as [_ E]. auto.
  - destruct (has (u_lsr u) LSRTHREmpty && has (u_ier u) IERTHREmpty); auto.
Qed.

Lemma Read_inv off u : uart_inv u → uart_inv (uart_Read off u).2.
Proof.
  intros Hu. pose proof Hu as (Hl & Hm & Hi). unfold uart_Read. destruct (off =? RegRBR).
  - destruct (dlab u); [done|]. destruct (u_rxBuf u) as [|b rest] eqn:Hrx; [done|]. cbn [snd].
    set (u1 := if _ =? _ then _ else u). assert (u_lsr u1 = u_lsr u ∧ u_outBufMax u1 = u_outBufMax u) as [Hl1 Hm1]
      by (unfold u1; by case_match).
    apply updateIIR_inv; cbn; [|by rewrite Hm1]. rewrite Hl1, Hl. by destruct rest.
  - repeat (case_match; cbn [snd]; try done). unfold uart_inv. cbn. auto.
Qed.

Lemma Write_inv off v u : uart_inv u → uart_inv (uart_Write off v u).
Proof.
  intros (Hl & Hm & Hi). unfold uart_Write. repeat (case_match; try done).
  - apply updateIIR_inv; [|done]. cbn. rewrite Hl. by apply lsr_of_set.
  - unfold transmit_byte. cbv zeta. set (u1 := set_tx _ _ _ _).
    assert (u_lsr u1 = lsr_of (u_rxBuf u1)) as Hl1.
    { cbn. rewrite Hl. unfold lsr_of. by case_bool_decide. }
    destruct (has (u_ier u1) IERTHREmpty); unfold uart_inv; cbn; auto.
  - match goal with |- uart_inv (pulse ?x) => assert (uart_inv x) as Hx by (by apply updateIIR_inv) end. exact Hx.
  - by apply updateIIR_inv.
Qed.

Lemma Inject_inv bs u : uart_inv u → uart_inv (InjectBytes bs u).
Proof.
  intros (Hl & Hm & Hi). unfold InjectBytes. destruct (Z.eqb_spec (zlen bs) 0) as [|Hz]; [done|].
  assert (bs ≠ []) as Hb by (by intros ->).
  assert (u_lsr u .| LSRDataReady = lsr_of (u_rxBuf u ++ bs)) as Hs by (rewrite Hl; by apply lsr_of_set).
  cbv zeta. set (u1 := set_rx _ _ _). destruct (_ && _) eqn:E; [|by apply updateIIR_inv].
  apply andb_prop in E as [E _]. split; [exact Hs|]. split; [exact Hm|]. right. right. split; [done|exact E].
Qed.

Lemma uart_step_inv o u : uart_inv u → uart_inv (uart_step o u).
Proof. destruct o; [apply Read_inv|apply Write_inv|apply Inject_inv]. Qed.

(** ** Buffers *)
(** One step of the two streams. *)
Lemma uart_step_rx o u : u_rxBuf u ++ received o u = consumed o u ++ u_rxBuf (uart_step o u).
Proof.
  destruct o as [off|off v|bs]; cbn [uart_step received consumed].
  - rewrite app_nil_r. unfold uart_Read.
    destruct (off =? RegRBR); cbn [andb]; [|repeat case_match; done].
    destruct (dlab u); [done|]. destruct (u_rxBuf u) as [|b rest] eqn:Hrx; [cbn; by rewrite Hrx|].
    by rewrite bool_decide_false.
  - unfold uart_Write. destruct (off =? RegRBR); cbn [andb]; [|rewrite app_nil_r; repeat case_match; done].
    destruct (dlab u); [by rewrite app_nil_r|]. cbn [andb negb].
    destruct (has (u_mcr u) MCRLoopback); [done|]. unfold transmit_byte. cbv zeta. case_match; by rewrite app_nil_r.
  - unfold InjectBytes. destruct (Z.eqb_spec (zlen bs) 0) as [Hz|]; [|cbv zeta; by case_match].
    destruct bs as [|b bs]; [by rewrite app_nil_r|]. rewrite zlen_cons in Hz. pose proof (zlen_nonneg bs). lia.
Qed.

Lemma uart_step_tx o u :
  u_outBufMax (uart_step o u) = u_outBufMax u ∧ u_out (uart_step o u) = u_out u ∧
  u_sent (uart_step o u) = u_sent u ++ (if u_out u then transmitted o u else []) ∧
  u_outBuf (uart_step o u) = (if bool_decide (transmitted o u = []) then u_outBuf u
                              else keep_last (u_outBufMax u) (u_outBuf u ++ transmitted o u)).
Proof.
  assert (∀ l : list Z, l = l ++ (if u_out u then [] else [])) as Hnil by (intros; destruct (u_out u); by rewrite app_nil_r).
  destruct o as [off|off v|bs]; cbn [uart_step transmitted].
  - unfold uart_Read. repeat case_match; cbn; splits; first [done|apply Hnil|by rewrite app_nil_r].
  - unfold uart_Write. destruct (off =? RegRBR).
    + destruct (dlab u); [cbn; splits; try done; apply Hnil|]. cbn [andb negb].
      destruct (has (u_mcr u) MCRLoopback); [cbn; splits; try done; apply Hnil|]. unfold transmit_byte. cbv zeta.
      destruct (u_out u) eqn:Ho; case_match; cbn; splits; first [done|apply Hnil|by rewrite app_nil_r].
    + cbn [andb]. repeat case_match; cbn; splits; first [done|apply Hnil|by rewrite app_nil_r].
  - unfold InjectBytes. cbv zeta. repeat case_match; cbn; splits; first [done|apply Hnil|by rewrite app_nil_r].
Qed.

Lemma uart_run_spec ops u u' rx rd tx :
  uart_inv u → u_outBuf u = keep_last (u_outBufMax u) (u_outBuf u) →
  uart_run ops u = (u', rx, rd, tx) →
  uart_inv u' ∧ u_rxBuf u ++ rx = rd ++ u_rxBuf u' ∧
  u_sent u' = u_sent u ++ (if u_out u then tx else []) ∧
  u_outBuf u' = keep_last (u_outBufMax u) (u_outBuf u ++ tx).
Proof.
  revert u u' rx rd tx. induction ops as [|o ops IH]; intros u u' rx rd tx Hi Hk; cbn.
  - intros [= <- <- <- <-]. rewrite !app_nil_r. splits; [done..| |done]. destruct (u_out u); by rewrite app_nil_r.
  - destruct (uart_run ops (uart_step o u)) as [[[u1 rx1] rd1] tx1] eqn:Hrun. intros [= <- <- <- <-].
    pose proof (uart_step_rx o u) as Hrx. destruct (uart_step_tx o u) as (Hmax & Hout & Hsent & Hob).
    assert (0 ≤ u_outBufMax u) as Hm by apply Hi.
    assert (u_outBuf (uart_step o u) = keep_last (u_outBufMax u) (u_outBuf u ++ transmitted o u)) as Hob'.
    { rewrite Hob. case_bool_decide as E; [|done]. by rewrite E, app_nil_r. }
    assert (∀ l : list Z, keep_last (u_outBufMax u) (keep_last (u_outBufMax u) l) = keep_last (u_outBufMax u) l) as Hidem.
    { intros l. pose proof (keep_last_app (u_outBufMax u) l [] Hm) as H. by rewrite !app_nil_r in H. }
    destruct (IH _ _ _ _ _ (uart_step_inv o u Hi) ltac:(by rewrite Hmax, Hob', Hidem) Hrun) as (H1 & H2 & H3 & H4).
    splits; [done| | |].
    + rewrite app_assoc, Hrx, <- !app_assoc. by rewrite H2.
    + rewrite H3, Hsent, Hout, <- app_assoc. by destruct (u_out u).
    + rewrite H4, Hmax, Hob', keep_last_app by done. by rewrite <- app_assoc.
Qed.

Lemma New_inv out irqFn : uart_inv (New out irqFn).
Proof. split; [done|]. split; [done|]. by left. Qed.

(** ** Properties *)

(** The serial port is a pair of lossless streams. After any sequence of
    guest register accesses and injected input on a new port, the bytes the
    guest read followed by those still waiting are exactly the bytes that were
    injected (or looped back), in order; the host's writer got exactly the bytes
    the guest transmitted; the output buffer is the last 64 KiB of them; and the
    line status says that data is ready exactly when bytes wait, and that the
    transmitter is idle. *)
Theorem uart_streams out irqFn ops u rx rd tx :
  uart_run ops (New out irqFn) = (u, rx, rd, tx) →
  rx = rd ++ u_rxBuf u ∧ u_sent u = (if out then tx else []) ∧
  OutputBytes u = keep_last defaultOutputBufSize tx ∧ zlen (OutputBytes u) ≤ defaultOutputBufSize ∧
  (uart_Read RegLSR u).1 = (if bool_decide (u_rxBuf u = []) then 0x60 else 0x61).
Proof.
  intros Hrun. destruct (uart_run_spec _ _ _ _ _ _ (New_inv out irqFn) eq_refl Hrun) as ((Hl & _) & H2 & H3 & H4).
  cbn in H2, H3, H4. splits; [done|done|done|unfold OutputBytes; rewrite H4; by apply keep_last_len|exact Hl].
Qed.

Lemma uart_streams_witness :
  ∃ u, uart_run [OpInject [7; 8]; OpRead RegRBR; OpWrite RegRBR 65] (New true true) = (u, [7; 8], [7], [65]) ∧
    [7; 8] = [7] ++ u_rxBuf u.
Proof.
  eexists. split; [vm_compute; reflexivity|].
  apply (uart_streams true true [OpInject [7; 8]; OpRead RegRBR; OpWrite RegRBR 65] _ [7; 8] [7] [65]).
  vm_compute. reflexivity.
Defined.

(** A snapshot restores every register and both buffers. *)
Lemma uart_state_roundtrip u u0 : uart_State (uart_RestoreState (uart_State u) u0) = uart_State u.
Proof. done. Qed.

(** A transmit interrupt hides a pending receive interrupt: with both enabled
    and a byte waiting, a transmitted byte makes the identification register
    read "transmitter empty", and reading it makes it read "none pending",
    although data is still ready. *)
Lemma uart_tx_hides_rx u b :
  uart_inv u → u_rxBuf u ≠ [] → dlab u = false → has (u_mcr u) MCRLoopback = false →
  has (u_ier u) IERTHREmpty = true → has (u_ier u) IERRxDataAvail = true →
  let u1 := uart_Write RegRBR b u in
  (uart_Read RegIIR u1).1 = 0xC2 ∧ (uart_Read RegIIR (uart_Read RegIIR u1).2).1 = 0xC1 ∧
  (uart_Read RegLSR (uart_Read RegIIR u1).2).1 = 0x61.
Proof.
  intros (Hl & _) Hrx Hd Hlb Hthr Hrda. unfold uart_Write. cbn [Z.eqb RegRBR]. rewrite Hd, Hlb.
  unfold transmit_byte. cbn [u_ier set_tx]. rewrite Hthr. splits; [done|done|]. cbn.
  rewrite Hl. unfold lsr_of. by rewrite bool_decide_false.
Qed.
