(* ===== verification/Chips.v ===== *)
(** * Small platform devices

    The keyboard controller (src/internal/i8042/i8042.go), which the guest uses
    to reboot; the arm64 serial port (src/internal/pl011/pl011.go); the arm64
    real-time clock (src/internal/rtc/pl031.go).  One module each.  Callbacks are
    recorded: the number of resets, and the levels given to the interrupt line,
    oldest first. *)
From S2P Require Import Prelude.
From Stdlib Require SpecFloat.

Module I8042.
Definition dataOffset : Z := 0.
Definition statusOffset : Z := 4.
Definition cmdReadCTR : Z := 0x20.
Definition cmdWriteCTR : Z := 0x60.
Definition cmdReadOutp : Z := 0xD0.
Definition cmdWriteOutp : Z := 0xD1.
Definition cmdResetCPU : Z := 0xFE.
Definition statusOutDataAvail : Z := 0x01.
Definition statusCmdData : Z := 0x08.
Definition statusKbdEnabled : Z := 0x10.
Definition controlPostOK : Z := 0x04.
Definition controlKbdInt : Z := 0x01.

Record I8042Device := mkI8042 {
  resetFn : bool;                (** not nil *)
  status : Z;
  control : Z;
  outp : Z;
  cmd : Z;
  buf : list Z;
  resets : nat                   (** calls of [resetFn] *)
}.

Definition i8042_New (reset : bool) : I8042Device :=
  mkI8042 reset statusKbdEnabled (controlPostOK .| controlKbdInt) 0 0 [] 0.

Definition set_buf (d : I8042Device) (st : Z) (b : list Z) : I8042Device :=
  mkI8042 (resetFn d) st (control d) (outp d) (cmd d) b (resets d).
Definition set_cmd (d : I8042Device) (st c : Z) : I8042Device :=
  mkI8042 (resetFn d) st (control d) (outp d) c (buf d) (resets d).
Definition set_regs (d : I8042Device) (st c o : Z) : I8042Device :=
  mkI8042 (resetFn d) st c o (cmd d) (buf d) (resets d).

Definition i8042_flush (d : I8042Device) : I8042Device := set_buf d (status d .&^ statusOutDataAvail) [].
Definition i8042_push (b : Z) (d : I8042Device) : I8042Device := set_buf d (status d .| statusOutDataAvail) (buf d ++ [b]).

Definition i8042_Read (offset : Z) (d : I8042Device) : Z * I8042Device :=
  if offset =? statusOffset then (status d, d)
  else if offset =? dataOffset then
    match buf d with
    | [] => (0, d)
    | b :: rest =>
        (b, set_buf d (if zlen rest =? 0 then status d .&^ statusOutDataAvail else status d) rest)
    end
  else (0, d).

Definition i8042_Write (offset val : Z) (d : I8042Device) : I8042Device :=
  if (offset =? statusOffset) && (val =? cmdResetCPU) then
    if resetFn d
    then mkI8042 (resetFn d) (status d) (control d) (outp d) (cmd d) (buf d) (S (resets d)) else d
  else if (offset =? statusOffset) && (val =? cmdReadCTR) then i8042_push (control d) (i8042_flush d)
  else if (offset =? statusOffset) && (val =? cmdWriteCTR) then
    let d := i8042_flush d in set_cmd d (status d .| statusCmdData) val
  else if (offset =? statusOffset) && (val =? cmdReadOutp) then i8042_push (outp d) (i8042_flush d)
  else if (offset =? statusOffset) && (val =? cmdWriteOutp) then set_cmd d (status d .| statusCmdData) val
  else if (offset =? dataOffset) && has (status d) statusCmdData then
    let d := if cmd d =? cmdWriteCTR then set_regs d (status d) val (outp d)
             else if cmd d =? cmdWriteOutp then set_regs d (status d) (control d) val else d in
    set_buf d (status d .&^ statusCmdData) (buf d)
  else if offset =? dataOffset then i8042_push 0xFA (i8042_flush d)
  else d.

(** ** Executions *)
Inductive access := AccRead (offset : Z) | AccWrite (offset val : Z).
Definition i8042_step (a : access) (d : I8042Device) : I8042Device :=
  match a with AccRead o => (i8042_Read o d).2 | AccWrite o v => i8042_Write o v d end.
Definition is_reset (a : access) : bool :=
  match a with AccWrite o v => (o =? statusOffset) && (v =? cmdResetCPU) | AccRead _ => false end.

(** The status register is made of three bits: data available, exactly when
    the one-byte buffer is full, an argument is expected, keyboard enabled. *)
Definition status_of (b : list Z) (arg : bool) : Z :=
  (if bool_decide (b = []) then 0 else 1) .| (if arg then 8 else 0) .| 16.

Definition i8042_inv (d : I8042Device) : Prop :=
  (length (buf d) ≤ 1)%nat ∧ ∃ arg, status d = status_of (buf d) arg.

Lemma i8042_flush_inv d : i8042_inv d → i8042_inv (i8042_flush d) ∧ buf (i8042_flush d) = [].
Proof.
  intros [_ [arg Hs]]. split; [|done]. split; [cbn; lia|]. exists arg. cbn. rewrite Hs. unfold status_of.
  case_bool_decide; by destruct arg.
Qed.

Lemma i8042_push_inv b d : i8042_inv d → buf d = [] → i8042_inv (i8042_push b d).
Proof.
  intros [_ [arg Hs]] Hb. unfold i8042_push. rewrite Hb. split; [cbn; lia|]. exists arg. cbn. rewrite Hs, Hb. by destruct arg.
Qed.

Lemma i8042_step_inv a d : i8042_inv d → i8042_inv (i8042_step a d).
Proof.
  intros Hi. pose proof Hi as [Hl [arg Hs]]. pose proof (i8042_flush_inv d Hi) as [Hf Hfb]. destruct a as [o|o v]; cbn.
  - unfold i8042_Read. destruct (o =? statusOffset); [done|]. destruct (o =? dataOffset); [|done].
    destruct (buf d) as [|b rest] eqn:Hb; [done|]. cbn in Hl. destruct rest; [|cbn in Hl; lia].
    split; [cbn; lia|]. exists arg. cbn. rewrite Hs. by destruct arg.
  - unfold i8042_Write. repeat (case_match; [by (done || apply i8042_push_inv)|]).
    case_match; [case_match; done|]. case_match; [by apply i8042_push_inv|]. case_match.
    { split; [cbn; lia|]. exists true. destruct Hf as [_ [arg' Hs']]. cbn [status set_cmd]. rewrite Hs'. by destruct arg'. }
    case_match; [by apply i8042_push_inv|]. case_match.
    { split; [cbn; lia|]. exists true. cbn. rewrite Hs. unfold status_of. case_bool_decide; by destruct arg. }
    case_match.
    { set (d1 := if _ =? _ then _ else _). assert (buf d1 = buf d ∧ status d1 = status d) as [Hb1 Hs1]
        by (unfold d1; repeat case_match; done).
      split; [cbn; by rewrite Hb1|]. exists false. cbn. rewrite Hb1, Hs1, Hs. unfold status_of.
      case_bool_decide; by destruct arg. }
    case_match; [by apply i8042_push_inv|done].
Qed.

Lemma i8042_step_resets a d :
  resetFn (i8042_step a d) = resetFn d ∧
  resets (i8042_step a d) = (resets d + if resetFn d && is_reset a then 1 else 0)%nat.
Proof.
  destruct a as [o|o v]; cbn.
  - rewrite andb_false_r. unfold i8042_Read. repeat case_match; cbn; auto with lia.
  - unfold i8042_Write. destruct ((o =? statusOffset) && (v =? cmdResetCPU)).
    { destruct (resetFn d) eqn:Hr; cbn; rewrite ?Hr; auto with lia. }
    rewrite andb_false_r. repeat case_match; cbn; auto with lia.
Qed.

Definition i8042_run (l : list access) (d : I8042Device) : I8042Device := fold_left (fun d a => i8042_step a d) l d.

(** Commands 0x60 and 0xD1, a byte, then 0x20 and 0xD0: what was stored is read. *)
Definition i8042_set_get (wr rd v : Z) (d : I8042Device) : Z :=
  (i8042_Read dataOffset (i8042_run [AccWrite statusOffset wr; AccWrite dataOffset v; AccWrite statusOffset rd] d)).1.

Lemma i8042_run_inv l d :
  i8042_inv d → let d' := i8042_run l d in
  i8042_inv d' ∧ resetFn d' = resetFn d ∧
  resets d' = (resets d + if resetFn d then length (filter (fun a => is_reset a = true) l) else 0)%nat.
Proof.
  revert d. induction l as [|a l IH]; intros d Hd; unfold i8042_run; cbn [fold_left].
  { cbn. split; [done|]. destruct (resetFn d); auto with lia. }
  destruct (i8042_step_resets a d) as [Hf Hr]. destruct (IH _ (i8042_step_inv a d Hd)) as (Hi & Hf' & Hr').
  split; [done|]. split; [by rewrite <- Hf|]. unfold i8042_run in Hr'. rewrite Hr', Hr, Hf.
  rewrite filter_cons. destruct (resetFn d), (is_reset a); cbn [decide andb length]; repeat case_decide; cbn [length]; try congruence; lia.
Qed.

Lemma cmd_data_set st : has (st .| statusCmdData) statusCmdData = true.
Proof.
  unfold has. rewrite Z.land_lor_distr_l, Z.land_diag, Z.lor_comm. apply negb_true_iff, Z.eqb_neq.
  intros H%Z.lor_eq_0_iff. by destruct H.
Qed.

Lemma i8042_ctr_roundtrip v d : i8042_set_get cmdWriteCTR cmdReadCTR v d = v.
Proof.
  unfold i8042_set_get, i8042_run. cbn [fold_left i8042_step]. unfold i8042_Write at 3. cbn -[has Z.land Z.lor].
  rewrite cmd_data_set. reflexivity.
Qed.

Lemma i8042_outp_roundtrip v d : i8042_set_get cmdWriteOutp cmdReadOutp v d = v.
Proof.
  unfold i8042_set_get, i8042_run. cbn [fold_left i8042_step]. unfold i8042_Write at 3. cbn -[has Z.land Z.lor].
  rewrite cmd_data_set. reflexivity.
Qed.

(** The keyboard controller over any sequence of guest accesses: the
    virtual machine is reset once per 0xFE command, and by nothing else; the
    output buffer holds at most one byte and the status register says exactly
    whether it holds one; and from the state reached, the control byte and the
    output port read back as they were last written. *)
Theorem i8042_correct l reset v :
  let d := i8042_run l (i8042_New reset) in
  resets d = (if reset then length (filter (fun a => is_reset a = true) l) else 0)%nat ∧
  (length (buf d) ≤ 1)%nat ∧
  (has (i8042_Read statusOffset d).1 statusOutDataAvail = true ↔ buf d ≠ []) ∧
  i8042_set_get cmdWriteCTR cmdReadCTR v d = v ∧
  i8042_set_get cmdWriteOutp cmdReadOutp v d = v.
Proof.
  intros d. destruct (i8042_run_inv l (i8042_New reset)) as ([Hl [arg Hs]] & _ & Hr).
  { split; [cbn; lia|]. by exists false. }
  fold d in Hl, Hs, Hr. split; [by rewrite Hr|]. split; [done|].
  split; [|split; [apply i8042_ctr_roundtrip|apply i8042_outp_roundtrip]].
  cbn. rewrite Hs. unfold status_of. case_bool_decide as Hb; destruct arg; cbn; naive_solver.
Qed.
End I8042.

Module PL011.
Definition RegDR : Z := 0x000.
Definition RegFR : Z := 0x018.
Definition RegIBRD : Z := 0x024.
Definition RegFBRD : Z := 0x028.
Definition RegLCRH : Z := 0x02C.
Definition RegCR : Z := 0x030.
Definition RegIFLS : Z := 0x034.
Definition RegIMSC : Z := 0x038.
Definition RegRIS : Z := 0x03C.
Definition RegMIS : Z := 0x040.
Definition RegICR : Z := 0x044.
Definition FRRxFE : Z := 0x10.
Definition FRBusy : Z := 0x08.
Definition CRUARTEN : Z := 0x001.
Definition CRTXE : Z := 0x100.
Definition CRRXE : Z := 0x200.
Definition intRx : Z := 0x10.
Definition intTx : Z := 0x20.
Definition outputBufSize : Z := 64 * 1024.

(** The registers; they are also all that a snapshot holds. *)
Record PL011State := mkPL011State { IBRD : Z; FBRD : Z; LCRH : Z; CR : Z; IFLS : Z; IMSC : Z; RIS : Z }.

Record PL011Device := mkPL011 {
  regs : PL011State;
  rxBuf : list Z;
  has_out : bool;                (** [out] is not nil *)
  sent : list Z;                 (** bytes written to [out] *)
  outBuf : list Z;
  outBufMax : Z;
  has_irqFn : bool;              (** [irqFn] is not nil *)
  levels : list bool             (** arguments of its calls *)
}.

Definition pl011_New (out irqFn : bool) : PL011Device :=
  mkPL011 (mkPL011State 0 0 0 (CRUARTEN .| CRTXE .| CRRXE) 0 0 0) [] out [] [] outputBufSize irqFn [].

Definition set_regs (d : PL011Device) (r : PL011State) : PL011Device :=
  mkPL011 r (rxBuf d) (has_out d) (sent d) (outBuf d) (outBufMax d) (has_irqFn d) (levels d).
Definition set_ris (d : PL011Device) (ris : Z) : PL011Device :=
  let r := regs d in set_regs d (mkPL011State (IBRD r) (FBRD r) (LCRH r) (CR r) (IFLS r) (IMSC r) ris).
Definition set_rxBuf (d : PL011Device) (rx : list Z) : PL011Device :=
  mkPL011 (regs d) rx (has_out d) (sent d) (outBuf d) (outBufMax d) (has_irqFn d) (levels d).

(** [(d.ris & d.imsc) != 0] *)
Definition masked (d : PL011Device) : bool := has (RIS (regs d)) (IMSC (regs d)).

Definition updateIRQLocked (d : PL011Device) : PL011Device :=
  if has_irqFn d
  then mkPL011 (regs d) (rxBuf d) (has_out d) (sent d) (outBuf d) (outBufMax d) (has_irqFn d) (levels d ++ [masked d])
  else d.

Definition flagReg (d : PL011Device) : Z :=
  (if zlen (rxBuf d) =? 0 then FRRxFE else 0) .| (if 0 <? zlen (rxBuf d) then FRBusy else 0).

Definition Read32 (offset : Z) (d : PL011Device) : Z * PL011Device :=
  let r := regs d in
  if offset =? RegDR then
    match rxBuf d with
    | [] => (0, d)
    | b :: rest =>
        let d := set_rxBuf d rest in
        (b, if zlen rest =? 0 then updateIRQLocked (set_ris d (RIS r .&^ intRx)) else d)
    end
  else if offset =? RegFR then (flagReg d, d)
  else if offset =? RegIBRD then (IBRD r, d)
  else if offset =? RegFBRD then (FBRD r, d)
  else if offset =? RegLCRH then (LCRH r, d)
  else if offset =? RegCR then (CR r, d)
  else if offset =? RegIFLS then (IFLS r, d)
  else if offset =? RegIMSC then (IMSC r, d)
  else if offset =? RegRIS then (RIS r, d)
  else if offset =? RegMIS then (RIS r .& IMSC r, d)
  else (0, d).

Definition Write32 (offset val : Z) (d : PL011Device) : PL011Device :=
  let r := regs d in
  if offset =? RegDR then
    let b := u8 val in
    let d := mkPL011 (regs d) (rxBuf d) (has_out d) (if has_out d then sent d ++ [b] else sent d)
               (keep_last (outBufMax d) (outBuf d ++ [b])) (outBufMax d) (has_irqFn d) (levels d) in
    updateIRQLocked (set_ris d (RIS r .| intTx))
  else if offset =? RegIBRD then set_regs d (mkPL011State val (FBRD r) (LCRH r) (CR r) (IFLS r) (IMSC r) (RIS r))
  else if offset =? RegFBRD then set_regs d (mkPL011State (IBRD r) val (LCRH r) (CR r) (IFLS r) (IMSC r) (RIS r))
  else if offset =? RegLCRH then set_regs d (mkPL011State (IBRD r) (FBRD r) val (CR r) (IFLS r) (IMSC r) (RIS r))
  else if offset =? RegCR then set_regs d (mkPL011State (IBRD r) (FBRD r) (LCRH r) val (IFLS r) (IMSC r) (RIS r))
  else if offset =? RegIFLS then set_regs d (mkPL011State (IBRD r) (FBRD r) (LCRH r) (CR r) val (IMSC r) (RIS r))
  else if offset =? RegIMSC then
    updateIRQLocked (set_regs d (mkPL011State (IBRD r) (FBRD r) (LCRH r) (CR r) (IFLS r) val (RIS r)))
  else if offset =? RegICR then updateIRQLocked (set_ris d (RIS r .&^ val))
  else d.

(** [InjectBytes]; [rxPump] calls it with each chunk of the host's input. *)
Definition pl011_InjectBytes (data : list Z) (d : PL011Device) : PL011Device :=
  if zlen data =? 0 then d
  else updateIRQLocked (set_ris (set_rxBuf d (rxBuf d ++ data)) (RIS (regs d) .| intRx)).

Definition pl011_OutputBytes (d : PL011Device) : list Z := outBuf d.
Definition pl011_State (d : PL011Device) : PL011State := regs d.
Definition pl011_RestoreState (s : PL011State) (d : PL011Device) : PL011Device := updateIRQLocked (set_regs d s).

(** ** Executions *)
Inductive pl011_op := Rd (offset : Z) | Wr (offset val : Z) | Inject (data : list Z).
Definition pl011_step (o : pl011_op) (d : PL011Device) : PL011Device :=
  match o with
  | Rd off => (Read32 off d).2
  | Wr off v => Write32 off v d
  | Inject data => pl011_InjectBytes data d
  end.
Definition injected (o : pl011_op) : list Z := match o with Inject data => data | _ => [] end.
Definition guest_read (o : pl011_op) (d : PL011Device) : list Z :=
  match o with Rd off => if (off =? RegDR) && negb (bool_decide (rxBuf d = [])) then [(Read32 off d).1] else [] | _ => [] end.
Definition guest_sent (o : pl011_op) : list Z :=
  match o with Wr off v => if off =? RegDR then [u8 v] else [] | _ => [] end.

(** The device after a run, with what the guest read. *)
Fixpoint pl011_run (ops : list pl011_op) (d : PL011Device) : PL011Device * list Z :=
  match ops with
  | [] => (d, [])
  | o :: ops => let '(d', rd) := pl011_run ops (pl011_step o d) in (d', guest_read o d ++ rd)
  end.

(** The interrupt line follows the masked interrupt status, and the receive
    interrupt is only raised when a byte waits. *)
Definition line (d : PL011Device) : bool := List.last (levels d) false.
Definition line_inv (d : PL011Device) : Prop := has_irqFn d = true → line d = masked d.
Definition rx_inv (d : PL011Device) : Prop := rxBuf d = [] → has (RIS (regs d)) intRx = false.

Lemma updateIRQLocked_line d : line_inv (updateIRQLocked d).
Proof.
  unfold line_inv, line, updateIRQLocked. destruct (has_irqFn d) eqn:Hf; [|congruence].
  intros _. cbn. by rewrite List.last_last.
Qed.

Lemma updateIRQLocked_regs d :
  regs (updateIRQLocked d) = regs d ∧ rxBuf (updateIRQLocked d) = rxBuf d ∧ sent (updateIRQLocked d) = sent d ∧
  outBuf (updateIRQLocked d) = outBuf d ∧ outBufMax (updateIRQLocked d) = outBufMax d ∧
  has_out (updateIRQLocked d) = has_out d ∧ has_irqFn (updateIRQLocked d) = has_irqFn d.
Proof. unfold updateIRQLocked. by destruct (has_irqFn d) eqn:Hf. Qed.

Lemma pl011_step_line o d : line_inv d → line_inv (pl011_step o d).
Proof.
  intros Hd. destruct o as [off|off v|data]; cbn.
  - unfold Read32. repeat case_match; cbn [snd]; first [done|apply updateIRQLocked_line].
  - unfold Write32. repeat (case_match; [first [done|apply updateIRQLocked_line]|]). done.
  - unfold pl011_InjectBytes. case_match; [done|apply updateIRQLocked_line].
Qed.

Lemma has_bit4 x : has x intRx = Z.testbit x 4.
Proof.
  unfold has. change intRx with (2 ^ 4). destruct (Z.testbit x 4) eqn:E.
  - apply negb_true_iff, Z.eqb_neq. intros H. apply (f_equal (fun z => Z.testbit z 4)) in H.
    rewrite Z.land_spec, E, Z.pow2_bits_true in H by lia. done.
  - apply negb_false_iff, Z.eqb_eq, Z.bits_inj'. intros n Hn. rewrite Z.land_spec, Z.bits_0.
    rewrite Z.pow2_bits_eqb by lia. destruct (Z.eqb_spec 4 n) as [<-|]; [by rewrite E|apply andb_false_r].
Qed.

Lemma pl011_step_rxinv o d : rx_inv d → rx_inv (pl011_step o d).
Proof.
  unfold rx_inv. rewrite !has_bit4. intros Hd. destruct o as [off|off v|data]; cbn [pl011_step].
  - unfold Read32. destruct (off =? RegDR); [|repeat case_match; done].
    destruct (rxBuf d) as [|b rest] eqn:Hrx; [by cbn; rewrite Hrx|]. cbn [snd].
    destruct (Z.eqb_spec (zlen rest) 0) as [Hz|Hz]; [|cbn; by intros ->].
    destruct (updateIRQLocked_regs (set_ris (set_rxBuf d rest) (RIS (regs d) .&^ intRx))) as (-> & -> & _).
    intros _. cbn [RIS regs set_ris set_regs]. rewrite Z.ldiff_spec. by rewrite andb_false_r.
  - unfold Write32. repeat case_match; try done.
    all: match goal with |- context [updateIRQLocked ?x] => destruct (updateIRQLocked_regs x) as (-> & -> & _) end;
      cbn [rxBuf set_ris set_regs regs RIS]; intros Hn; rewrite ?Z.lor_spec, ?Z.ldiff_spec; by rewrite (Hd Hn).
  - unfold pl011_InjectBytes. destruct (Z.eqb_spec (zlen data) 0) as [Hz|Hz]; [done|].
    match goal with |- context [updateIRQLocked ?x] => destruct (updateIRQLocked_regs x) as (-> & -> & _) end.
    cbn. intros [_ ->]%app_nil. done.
Qed.

Lemma pl011_step_streams o d :
  rxBuf d ++ injected o = guest_read o d ++ rxBuf (pl011_step o d) ∧
  sent (pl011_step o d) = sent d ++ (if has_out d then guest_sent o else []) ∧
  outBuf (pl011_step o d) = (if bool_decide (guest_sent o = []) then outBuf d
                             else keep_last (outBufMax d) (outBuf d ++ guest_sent o)) ∧
  outBufMax (pl011_step o d) = outBufMax d ∧ has_out (pl011_step o d) = has_out d ∧
  has_irqFn (pl011_step o d) = has_irqFn d.
Proof.
  assert (∀ l : list Z, l = l ++ (if has_out d then [] else [])) as Hnil by (intros; destruct (has_out d); by rewrite app_nil_r).
  destruct o as [off|off v|data]; cbn [pl011_step injected guest_read guest_sent]; rewrite ?app_nil_r.
  - unfold Read32. destruct (off =? RegDR); [|repeat case_match; splits; first [done|apply Hnil]].
    destruct (rxBuf d) as [|b rest] eqn:Hrx; [cbn; rewrite Hrx; splits; first [done|apply Hnil]|].
    rewrite bool_decide_false by done. cbn [snd fst andb negb]. destruct (zlen rest =? 0); [|splits; first [done|apply Hnil]].
    match goal with |- context [updateIRQLocked ?x] => destruct (updateIRQLocked_regs x) as (_ & -> & -> & -> & -> & -> & ->) end.
    splits; first [done|apply Hnil].
  - unfold Write32. destruct (off =? RegDR).
    { match goal with |- context [updateIRQLocked ?x] => destruct (updateIRQLocked_regs x) as (_ & -> & -> & -> & -> & -> & ->) end.
      splits; try done. cbn. by destruct (has_out d); rewrite ?app_nil_r. }
    repeat case_match; try match goal with |- context [updateIRQLocked ?x] =>
      destruct (updateIRQLocked_regs x) as (_ & -> & -> & -> & -> & -> & ->) end; cbn; splits;
      first [done|apply Hnil|by rewrite app_nil_r].
  - unfold pl011_InjectBytes. destruct (Z.eqb_spec (zlen data) 0) as [Hz|Hz].
    { destruct data as [|b data]; [rewrite app_nil_r; splits; first [done|apply Hnil]|].
      rewrite zlen_cons in Hz. pose proof (zlen_nonneg data). lia. }
    match goal with |- context [updateIRQLocked ?x] => destruct (updateIRQLocked_regs x) as (_ & -> & -> & -> & -> & -> & ->) end.
    splits; first [done|apply Hnil].
Qed.

Definition pl011_inv (d : PL011Device) : Prop :=
  line_inv d ∧ rx_inv d ∧ 0 ≤ outBufMax d ∧ outBuf d = keep_last (outBufMax d) (outBuf d).

Lemma pl011_step_inv o d : pl011_inv d → pl011_inv (pl011_step o d).
Proof.
  intros (Hl & Hr & Hm & Hk). destruct (pl011_step_streams o d) as (_ & _ & Ho & Hmax & _ & _).
  split; [by apply pl011_step_line|]. split; [by apply pl011_step_rxinv|]. rewrite Hmax. split; [done|].
  rewrite Ho. case_bool_decide; [done|].
  pose proof (keep_last_app (outBufMax d) (outBuf d ++ guest_sent o) [] Hm) as H'. by rewrite !app_nil_r in H'.
Qed.

Lemma pl011_run_spec ops d d' rd :
  pl011_inv d → pl011_run ops d = (d', rd) →
  pl011_inv d' ∧ rxBuf d ++ concat (injected <$> ops) = rd ++ rxBuf d' ∧
  sent d' = sent d ++ (if has_out d then concat (guest_sent <$> ops) else []) ∧
  outBuf d' = keep_last (outBufMax d) (outBuf d ++ concat (guest_sent <$> ops)) ∧ has_irqFn d' = has_irqFn d.
Proof.
  revert d d' rd. induction ops as [|o ops IH]; intros d d' rd Hd; cbn.
  { intros [= <- <-]. rewrite !app_nil_r. splits; try apply Hd; [done| |done]. destruct (has_out d); by rewrite app_nil_r. }
  destruct (pl011_run ops (pl011_step o d)) as [d1 rd1] eqn:Hrun. intros [= <- <-].
  destruct (pl011_step_streams o d) as (H1 & H2 & H3 & H4 & H5 & H6).
  destruct (IH _ _ _ (pl011_step_inv o d Hd) Hrun) as (Hi & G1 & G2 & G3 & G4).
  split; [done|]. split; [by rewrite app_assoc, H1, <- !app_assoc, G1|]. split; [|split; [|congruence]].
  - rewrite G2, H2, H5, <- app_assoc. by destruct (has_out d).
  - rewrite G3, H4, H3. case_bool_decide as E; [by rewrite E|]. rewrite keep_last_app by apply Hd. by rewrite <- app_assoc.
Qed.

(** The arm64 serial port. After any sequence of register accesses and
    injected input on a new port, the bytes the guest read followed by those
    that wait are the injected bytes in order, the host's writer got exactly the
    transmitted bytes and the output buffer their last 64 KiB; the interrupt
    line is high exactly when an unmasked interrupt is raised; and no receive
    interrupt is raised when no byte waits. *)
Theorem pl011_correct out irqFn ops d rd :
  pl011_run ops (pl011_New out irqFn) = (d, rd) →
  concat (injected <$> ops) = rd ++ rxBuf d ∧
  sent d = (if out then concat (guest_sent <$> ops) else []) ∧
  pl011_OutputBytes d = keep_last outputBufSize (concat (guest_sent <$> ops)) ∧
  (irqFn = true → line d = negb ((Read32 RegMIS d).1 =? 0)) ∧
  (rxBuf d = [] → has (RIS (regs d)) intRx = false).
Proof.
  intros Hrun. assert (pl011_inv (pl011_New out irqFn)) as H0 by (split; [by intros _|]; split; [by intros _|]; done).
  destruct (pl011_run_spec _ _ _ _ H0 Hrun) as ((Hl & Hr & _) & G1 & G2 & G3 & G4). cbn in G1, G2, G3, G4.
  splits; [done..| |done]. intros ->. by apply Hl.
Qed.

Lemma pl011_correct_witness :
  ∃ d, pl011_run [Inject [7; 8]; Rd RegDR; Wr RegIMSC 0x30; Wr RegDR 65] (pl011_New true true) = (d, [7]) ∧
    concat (injected <$> [Inject [7; 8]; Rd RegDR; Wr RegIMSC 0x30; Wr RegDR 65]) = [7] ++ rxBuf d ∧ line d = true.
Proof.
  eexists. split; [vm_compute; reflexivity|]. split; [|reflexivity].
  apply (pl011_correct true true [Inject [7; 8]; Rd RegDR; Wr RegIMSC 0x30; Wr RegDR 65] _ [7]).
  vm_compute. reflexivity.
Defined.

(** A snapshot holds the registers but not the bytes that wait.  Restored into a
    new port, an unmasked receive interrupt is raised with nothing to read: the
    flag register says "empty", and reading the data register, what a driver
    does to acknowledge, does not lower the line. *)
Lemma pl011_restore_stuck d out :
  has (RIS (regs d)) intRx = true → has (RIS (regs d)) (IMSC (regs d)) = true →
  let d' := pl011_RestoreState (pl011_State d) (pl011_New out true) in
  rxBuf d' = [] ∧ (Read32 RegFR d').1 = FRRxFE ∧ line d' = true ∧ Read32 RegDR d' = (0, d').
Proof. intros _ Hm. cbn. by splits. Qed.
End PL011.

Module PL031.
Definition RTCDR : Z := 0x00.
Definition RTCMR : Z := 0x04.
Definition RTCLR : Z := 0x08.
Definition RTCCR : Z := 0x0C.
Definition RTCIMSC : Z := 0x10.
Definition RTCRIS : Z := 0x14.
Definition RTCMIS : Z := 0x18.
Definition RTCICR : Z := 0x1C.

(** What [time.Now] gives: the wall clock in seconds since the epoch
    ([Unix()]) and the monotonic clock in nanoseconds, which [time.Since]
    subtracts. *)
Record Time := mkTime { unix : Z; mono : Z }.

(** [Duration.Seconds] is a [float64]: whole seconds plus the rest divided by
    10^9; [int64] of it truncates.  The floats are IEEE binary64 (53 bits). *)
Definition to_float (z : Z) : SpecFloat.spec_float := SpecFloat.binary_normalize 53 1024 z 0 false.
Definition float_trunc (f : SpecFloat.spec_float) : Z :=
  match f with
  | SpecFloat.S754_finite s m e =>
      let v := if 0 <=? e then Z.pos m .<< e else Z.pos m .>> (- e) in if s then - v else v
  | _ => 0
  end.
Definition Seconds (d : Z) : SpecFloat.spec_float :=
  SpecFloat.SFadd 53 1024 (to_float (Z.quot d 1000000000))
    (SpecFloat.SFdiv 53 1024 (to_float (Z.rem d 1000000000)) (to_float 1000000000)).
Definition elapsed (now base : Time) : Z := float_trunc (Seconds (mono now - mono base)).

Record PL031 := mkPL031 { baseTime : Time; loadOff : Z; matchReg : Z; irqMask : Z; enabled : Z }.

Definition pl031_New (now : Time) : PL031 := mkPL031 now 0 0 0 1.

(** AMBA peripheral and cell identification. *)
Definition periphID : list Z := [0x31; 0x10; 0x04; 0x00; 0x0D; 0xF0; 0x05; 0xB1].

Definition pl031_Read (now : Time) (offset : Z) (r : PL031) : Z :=
  let off := offset .& 0xFFC in
  if off =? RTCDR then u32 (unix (baseTime r) + loadOff r + elapsed now (baseTime r))
  else if off =? RTCMR then matchReg r
  else if off =? RTCLR then 0
  else if off =? RTCCR then enabled r
  else if off =? RTCIMSC then irqMask r
  else if off =? RTCRIS then 0
  else if off =? RTCMIS then 0
  else if off =? RTCICR then 0
  else if (0xFE0 <=? off) && (off <=? 0xFFC) then nth (Z.to_nat ((off - 0xFE0) / 4)) periphID 0
  else 0.

Definition pl031_Write (now : Time) (offset val : Z) (r : PL031) : PL031 :=
  let off := offset .& 0xFC in
  if off =? RTCMR then mkPL031 (baseTime r) (loadOff r) val (irqMask r) (enabled r)
  else if off =? RTCLR then mkPL031 now (i64 (val - unix now)) (matchReg r) (irqMask r) (enabled r)
  else if off =? RTCCR then mkPL031 (baseTime r) (loadOff r) (matchReg r) (irqMask r) (val .& 1)
  else if off =? RTCIMSC then mkPL031 (baseTime r) (loadOff r) (matchReg r) (val .& 1) (enabled r)
  else r.

(** Accesses of another length leave the guest's buffer and the clock alone. *)
Definition pl031_ReadBytes (now : Time) (offset : Z) (data : list Z) (r : PL031) : option (list Z) :=
  if zlen data =? 4 then putLE 4 data 0 (pl031_Read now offset r) else Some data.
Definition pl031_WriteBytes (now : Time) (offset : Z) (data : list Z) (r : PL031) : option PL031 :=
  if zlen data =? 4 then (fun v => pl031_Write now offset v r) <$> getLE 4 data 0 else Some r.

Lemma u32_i64 a b : u32 (a + i64 b) = u32 (a + b).
Proof.
  unfold u32, i64. rewrite <- (Z.add_mod_idemp_r a (_ - _)), <- (Z.add_mod_idemp_r a b) by done. do 2 f_equal.
  change (2 ^ 64) with (2 ^ 32 * 2 ^ 32). rewrite Z.rem_mul_r by done.
  rewrite (Z.mul_comm (2 ^ 32)), <- Z.add_sub_assoc, Z.add_comm, <- Z.add_sub_swap.
  change (2 ^ 63) with (2 ^ 31 * 2 ^ 32). rewrite Z.add_sub_swap, <- Z.mul_sub_distr_r, Z.add_comm, Z_mod_plus_full, Z.mod_mod by done.
  by rewrite Z_mod_plus_full.
Qed.

(** The clock runs from the value that the guest loads, whatever the host's
    wall clock reads, and setting the alarm, the mask or the enable bit does
    not move it. *)
Lemma pl031_clock t0 t r val :
  pl031_Read t RTCDR (pl031_Write t0 RTCLR val r) = u32 (val + elapsed t t0) ∧
  (∀ off v t1, In off [RTCMR; RTCCR; RTCIMSC; RTCICR] →
    pl031_Read t RTCDR (pl031_Write t1 off v r) = pl031_Read t RTCDR r).
Proof.
  split.
  - change (u32 (unix t0 + i64 (val - unix t0) + elapsed t t0) = u32 (val + elapsed t t0)).
    rewrite Z.add_shuffle0, u32_i64. f_equal. lia.
  - intros off v t1 Hin. cbn in Hin. by destruct Hin as [<-|[<-|[<-|[<-|[]]]]].
Qed.

Lemma pl031_elapsed_example :
  elapsed (mkTime 0 1999999999) (mkTime 0 0) = 1 ∧ elapsed (mkTime 0 3600000000000) (mkTime 0 0) = 3600.
Proof. vm_compute. done. Qed.

(** Writes keep eight bits of the offset and reads keep twelve: a write to an
    offset of the identification space sets the clock. *)
Lemma pl031_write_aliases t r val :
  pl031_Write t 0xF08 val r = pl031_Write t RTCLR val r ∧ pl031_Read t 0xF00 r = 0.
Proof. done. Qed.
End PL031.
