(* ===== verification/Stream.v ===== *)
(** * Byte streams

    The readers and writers that the wire protocols run over.  A reader is the
    list of bytes that it will still deliver before end of file; [ReadFull] is
    io.ReadFull on it, which hides how the bytes are cut into reads.  A writer
    accumulates bytes; one that breaks accepts [w_room] more bytes, then fails,
    having taken as much of the failing write as there was room for. *)
From S2P Require Import Prelude.

Inductive io_err := EOF | ErrUnexpectedEOF | EWrite.
#[export] Instance io_err_eq_dec : EqDecision io_err.
Proof. solve_decision. Defined.

Record Writer := mkWriter { w_data : list Z; w_room : option Z }.
Definition open_writer : Writer := mkWriter [] None.

(** [w.Write(bs)]: the writer afterwards and the error. *)
Definition io_Write (bs : list Z) (w : Writer) : Writer * option io_err :=
  match w_room w with
  | None => (mkWriter (w_data w ++ bs) None, None)
  | Some k =>
      if zlen bs <=? k then (mkWriter (w_data w ++ bs) (Some (k - zlen bs)), None)
      else (mkWriter (w_data w ++ take (Z.to_nat k) bs) (Some 0), Some EWrite)
  end.

(** [io.ReadFull(r, buf)] with [len(buf) = n]: the result, and the rest of the stream. *)
Definition ReadFull (n : Z) (s : list Z) : res io_err (list Z) * list Z :=
  if n <=? zlen s then (Ok (take (Z.to_nat n) s), drop (Z.to_nat n) s)
  else if zlen s =? 0 then (Err EOF, s)
  else (Err ErrUnexpectedEOF, []).

(** Big-endian fields of an encoder. *)
Definition BE (n : nat) (v : Z) : list Z := be_encode n v.

(** The bytes of a Go string constant. *)
Fixpoint sbytes (s : string) : list Z :=
  match s with
  | EmptyString => []
  | String a s => Z.of_N (Ascii.N_of_ascii a) :: sbytes s
  end.

Lemma zlen_BE n v : zlen (BE n v) = Z.of_nat n.
Proof. unfold BE, be_encode. by rewrite zlen_reverse, zlen_le_encode. Qed.
Lemma length_BE n v : length (BE n v) = n.
Proof. pose proof (zlen_BE n v). unfold zlen in *. lia. Qed.
Lemma BE_decode n v : 0 ≤ v < 256 ^ Z.of_nat n → be_decode (BE n v) = v.
Proof. intros. unfold BE, be_encode, be_decode. rewrite reverse_involutive. by apply le_decode_encode. Qed.
Lemma BE_of_decode n bs : bytes bs → zlen bs = Z.of_nat n → BE n (be_decode bs) = bs.
Proof.
  intros Hb Hl. unfold BE, be_encode, be_decode. assert (n = length (reverse bs)) as -> by (rewrite length_reverse; unfold zlen in Hl; lia).
  rewrite le_encode_decode; [apply reverse_involutive|]. unfold bytes. by rewrite Forall_reverse.
Qed.
Lemma bytes_BE n v : bytes (BE n v).
Proof. unfold BE, be_encode, bytes. rewrite Forall_reverse. apply le_encode_bytes. Qed.
#[export] Hint Rewrite zlen_BE : go_len.

Lemma ReadFull_app bs rest : ReadFull (zlen bs) (bs ++ rest) = (Ok bs, rest).
Proof.
  unfold ReadFull. rewrite zlen_app. pose proof (zlen_nonneg rest). le_is true.
  unfold zlen. by rewrite Nat2Z.id, take_app_length, drop_app_length.
Qed.

Lemma ReadFull_exact n bs rest : zlen bs = n → ReadFull n (bs ++ rest) = (Ok bs, rest).
Proof. intros <-. apply ReadFull_app. Qed.

Lemma ReadFull_short n s : 0 < zlen s < n → ReadFull n s = (Err ErrUnexpectedEOF, []).
Proof. intros. unfold ReadFull. le_is false. eq_is false. done. Qed.

Lemma ReadFull_eof n : 0 < n → ReadFull n [] = (Err EOF, []).
Proof. intros. unfold ReadFull. rewrite zlen_nil. le_is false. done. Qed.

Lemma ReadFull_Ok n s bs rest : 0 ≤ n → ReadFull n s = (Ok bs, rest) → s = bs ++ rest ∧ zlen bs = n.
Proof.
  unfold ReadFull. intros Hn. destruct (Z.leb_spec n (zlen s)); [|by case_match].
  intros [= <- <-]. split; [by rewrite take_drop|]. unfold zlen in *. rewrite length_take. lia.
Qed.

Lemma io_Write_ok bs w : w_room w = None → io_Write bs w = (mkWriter (w_data w ++ bs) None, None).
Proof. unfold io_Write. by intros ->. Qed.

(** What a writer holds only grows, and by a prefix of what is written. *)
Lemma io_Write_prefix bs w :
  ∃ k, w_data (io_Write bs w).1 = w_data w ++ take k bs ∧ ((io_Write bs w).2 = None → take k bs = bs).
Proof.
  unfold io_Write. destruct (w_room w) as [r|].
  - destruct (zlen bs <=? r); cbn; [exists (length bs)|exists (Z.to_nat r)]; rewrite ?firstn_all; split; done.
  - exists (length bs). cbn. rewrite firstn_all. done.
Qed.

(** Conversions between the 32-bit types. *)
Lemma i32_u32 z : i32 (u32 z) = i32 z.
Proof. unfold i32, u32. by rewrite Zplus_mod_idemp_l. Qed.
Lemma i32_i32 z : i32 (i32 z) = i32 z.
Proof. unfold i32. rewrite Z.sub_add. by rewrite Zmod_mod. Qed.
