(* ===== verification/ToolboxExec.v ===== *)
(** * Running a command in the guest

    The frames of the toolbox's exec channel (src/internal/toolbox/agent/frame.go),
    the agent's side of a session (src/internal/toolbox/agent/exec.go) and the
    client's (src/internal/toolbox/client/client.go).  The agent has one pump per
    output stream of the process; the pumps share the connection under a mutex, so
    that an [emit] is atomic, and the exit frame is sent when both have returned.
    A nil payload and an empty one are the same here, as they are to the callers. *)
From S2P Require Import Prelude Stream.

(** ** Frames *)
Definition ChannelStdin : Z := 0.
Definition ChannelStdout : Z := 1.
Definition ChannelStderr : Z := 2.
Definition ChannelExit : Z := 3.
Definition ChannelSignal : Z := 4.
Definition MaxFrameLen : Z := 1 .<< 20.

Inductive frame_err :=
  | ErrFrameTooLarge
  | ErrShortHeader
  | ErrShortPayload
  | ErrExitLen                   (** an exit payload that is not four bytes *)
  | IOErr (e : io_err).

Definition frame_hdr (channel : Z) (payload : list Z) : list Z := channel :: BE 4 (u32 (zlen payload)).

(** The bytes written and the error, if any, with the writer afterwards. *)
Definition WriteFrame (channel : Z) (payload : list Z) (w : Writer) : Writer * res frame_err Z :=
  if MaxFrameLen <? zlen payload then (w, Err ErrFrameTooLarge)
  else
    match io_Write (frame_hdr channel payload) w with
    | (w, Some e) => (w, Err (IOErr e))
    | (w, None) =>
        if zlen payload =? 0 then (w, Ok 5)
        else
          match io_Write payload w with
          | (w, Some e) => (w, Err (IOErr e))
          | (w, None) => (w, Ok (5 + zlen payload))
          end
    end.

Definition ReadFrame (s : list Z) : res frame_err (Z * list Z) * list Z :=
  match ReadFull 5 s with
  | (Ok hdr, s) =>
      match hdr with
      | channel :: lenb =>
          let length := be_decode lenb in
          if MaxFrameLen <? length then (Err ErrFrameTooLarge, s)
          else if length =? 0 then (Ok (channel, []), s)
          else
            match ReadFull length s with
            | (Ok payload, s) => (Ok (channel, payload), s)
            | (Err ErrUnexpectedEOF, s) => (Err ErrShortPayload, s)
            | (Err e, s) => (Err (IOErr e), s)
            | (_, s) => (Panic, s)
            end
      | [] => (Panic, s)
      end
  | (Err ErrUnexpectedEOF, s) => (Err ErrShortHeader, s)
  | (Err e, s) => (Err (IOErr e), s)
  | (_, s) => (Panic, s)
  end.

(** [uint32(code)] is [u32 code]; [int32(...)] of it is [i32]. *)
Definition exit_payload (code : Z) : list Z := BE 4 (u32 code).
Definition WriteExitFrame (code : Z) (w : Writer) : Writer * option frame_err :=
  match WriteFrame ChannelExit (exit_payload code) w with
  | (w, Ok _) => (w, None)
  | (w, Err e) => (w, Some e)
  | (w, _) => (w, None)
  end.
Definition ParseExitPayload (payload : list Z) : res frame_err Z :=
  if negb (zlen payload =? 4) then Err ErrExitLen else Ok (i32 (be_decode payload)).

(** ** The agent *)
Definition outputChunkSize : Z := 32 .<< 10.
Definition signalKindKill : Z := 115.
Definition signalKindWinsize : Z := 119.

(** An output pump: the results of the reads to come, end of file after the
    last; [None] when the pump has returned. *)
Definition Pump := option (list (list Z)).

(** One iteration of [pumpReaderToFrames]. *)
Definition pump_iter (channel : Z) (p : Pump) (w : Writer) : Pump * Writer :=
  match p with
  | None => (None, w)
  | Some [] => (None, w)
  | Some (chunk :: reads) =>
      if 0 <? zlen chunk then
        match WriteFrame channel chunk w with
        | (w, Ok _) => (Some reads, w)
        | (w, _) => (None, w)
        end
      else (Some reads, w)
  end.

(** The output side of [runWithPipes]; [runWithPTY] starts with one pump only. *)
Record Session := mkSession {
  out_pump : Pump;
  err_pump : Pump;
  s_conn : Writer;
  exited : bool
}.

Definition runWithPipes_start (outs errs : list (list Z)) (w : Writer) : Session :=
  mkSession (Some outs) (Some errs) w false.
Definition runWithPTY_start (outs : list (list Z)) (w : Writer) : Session :=
  mkSession (Some outs) None w false.

(** [code] is the exit code that [cmd.Wait] gives, by [exitCodeFromWait]. *)
Inductive session_step (code : Z) : Session → Session → Prop :=
  | step_out outs e w x :
      session_step code (mkSession (Some outs) e w x)
        (let '(p, w) := pump_iter ChannelStdout (Some outs) w in mkSession p e w x)
  | step_err errs o w x :
      session_step code (mkSession o (Some errs) w x)
        (let '(p, w) := pump_iter ChannelStderr (Some errs) w in mkSession o p w x)
  | step_exit w :
      session_step code (mkSession None None w false)
        (mkSession None None (WriteExitFrame code w).1 true).

Inductive wait_err := WaitNil | WaitExitError (exitCode : Z) | WaitOther.
Definition exitCodeFromWait (err : wait_err) : Z :=
  match err with WaitNil => 0 | WaitExitError c => c | WaitOther => 127 end.

(** The process as the input pump sees it: its standard input, the signals and
    the terminal sizes that it was given. *)
Record Process := mkProcess {
  p_stdin : Writer;
  p_closed : bool;
  p_started : bool;              (** [cmd.Process] is not nil *)
  p_signals : list Z;
  p_winsize : list (Z * Z)
}.

Definition close_stdin (p : Process) : Process :=
  mkProcess (p_stdin p) true (p_started p) (p_signals p) (p_winsize p).

Definition dispatchSignal (payload : list Z) (ptyMode : bool) (p : Process) : Process :=
  if (zlen payload <? 1) || negb (p_started p) then p
  else
    match payload with
    | kind :: args =>
        if kind =? signalKindKill then
          match args with
          | sig :: _ => mkProcess (p_stdin p) (p_closed p) (p_started p) (p_signals p ++ [sig]) (p_winsize p)
          | [] => p
          end
        else if kind =? signalKindWinsize then
          if negb ptyMode || (zlen payload <? 5) then p
          else
            let cols := be_decode (take 2 args) in
            let rows := be_decode (take 2 (drop 2 args)) in
            mkProcess (p_stdin p) (p_closed p) (p_started p) (p_signals p) (p_winsize p ++ [(cols, rows)])
        else p
    | [] => p
    end.

(** One frame of [pumpFramesToProcess]: whether the loop goes on.  A write to a
    pipe that is closed fails. *)
Definition process_frame (ptyMode : bool) (channel : Z) (payload : list Z) (p : Process) : bool * Process :=
  if channel =? ChannelStdin then
    if (zlen payload =? 0) && negb ptyMode then (true, close_stdin p)
    else if p_closed p then (false, p)
    else
      match io_Write payload (p_stdin p) with
      | (w, None) => (true, mkProcess w false (p_started p) (p_signals p) (p_winsize p))
      | (w, Some _) => (false, mkProcess w false (p_started p) (p_signals p) (p_winsize p))
      end
  else if channel =? ChannelSignal then (true, dispatchSignal payload ptyMode p)
  else (true, p).

(** The loop, on the bytes that the client sends before the connection ends. *)
Fixpoint pumpFramesToProcess (fuel : nat) (ptyMode : bool) (s : list Z) (p : Process) : res frame_err Process :=
  match fuel with
  | O => NoFuel
  | S fuel =>
      match ReadFrame s with
      | (Ok (channel, payload), s) =>
          match process_frame ptyMode channel payload p with
          | (true, p) => pumpFramesToProcess fuel ptyMode s p
          | (false, p) => Ok p
          end
      | (Err _, _) => Ok (close_stdin p)
      | (Panic, _) => Panic
      | (NoFuel, _) => NoFuel
      end
  end.

(** ** The client *)
Definition session_Write (b : list Z) (w : Writer) : Writer * res frame_err Z :=
  match WriteFrame ChannelStdin b w with
  | (w, Ok _) => (w, Ok (zlen b))
  | (w, e) => (w, e)
  end.
Definition CloseStdin (w : Writer) : Writer * res frame_err Z := WriteFrame ChannelStdin [] w.
Definition Signal (sig : Z) (w : Writer) : Writer * res frame_err Z :=
  WriteFrame ChannelSignal [signalKindKill; u8 sig] w.
Definition Resize (cols rows : Z) (w : Writer) : Writer * res frame_err Z :=
  WriteFrame ChannelSignal (signalKindWinsize :: BE 2 cols ++ BE 2 rows) w.

(** Standard output and error of the caller; [None] is a nil writer. *)
Inductive copy_err := ClosedBeforeExit | CopyFrame (e : frame_err) | StdoutWriter | StderrWriter.

Definition forward (payload : list Z) (w : option Writer) (e : copy_err) : res copy_err (option Writer) :=
  match w with
  | None => Ok None
  | Some w => match io_Write payload w with (w, None) => Ok (Some w) | (_, Some _) => Err e end
  end.

(** The exit code, and what the caller's writers hold. *)
Fixpoint copyOutputUntilExit (fuel : nat) (s : list Z) (stdout stderr : option Writer) :
    res copy_err (Z * option Writer * option Writer) :=
  match fuel with
  | O => NoFuel
  | S fuel =>
      match ReadFrame s with
      | (Ok (ch, payload), s) =>
          if ch =? ChannelStdout then
            stdout ← forward payload stdout StdoutWriter; copyOutputUntilExit fuel s stdout stderr
          else if ch =? ChannelStderr then
            stderr ← forward payload stderr StderrWriter; copyOutputUntilExit fuel s stdout stderr
          else if ch =? ChannelExit then
            match ParseExitPayload payload with
            | Ok code => Ok (code, stdout, stderr)
            | Err e => Err (CopyFrame e)
            | Panic => Panic
            | NoFuel => NoFuel
            end
          else copyOutputUntilExit fuel s stdout stderr
      | (Err (IOErr EOF), _) => Err ClosedBeforeExit
      | (Err e, _) => Err (CopyFrame e)
      | (Panic, _) => Panic
      | (NoFuel, _) => NoFuel
      end
  end.

(** ** Frames: lemmas *)
Definition frame := (Z * list Z)%type.
Definition encode_frame (f : frame) : list Z := frame_hdr f.1 f.2 ++ f.2.
Definition frame_ok (f : frame) : Prop := zlen f.2 ≤ MaxFrameLen.

Lemma MaxFrameLen_val : MaxFrameLen = 1048576. Proof. done. Qed.

Lemma zlen_frame_hdr (ch : Z) (p : list Z) : zlen (frame_hdr ch p) = 5.
Proof. unfold frame_hdr. by rewrite zlen_cons, zlen_BE. Qed.

Lemma frame_hdr_len (p : list Z) : zlen p ≤ MaxFrameLen → be_decode (BE 4 (u32 (zlen p))) = zlen p.
Proof.
  intros Hp. rewrite MaxFrameLen_val in Hp. pose proof (zlen_nonneg p).
  unfold u32. rewrite Z.mod_small by lia. apply BE_decode. lia.
Qed.

Lemma ReadFrame_encode ch p rest :
  zlen p ≤ MaxFrameLen → ReadFrame (encode_frame (ch, p) ++ rest) = (Ok (ch, p), rest).
Proof.
  intros Hp. unfold ReadFrame, encode_frame. cbn [fst snd]. rewrite <- app_assoc.
  rewrite ReadFull_exact by apply zlen_frame_hdr. unfold frame_hdr. cbv zeta. rewrite frame_hdr_len by done.
  lt_is false. destruct (Z.eqb_spec (zlen p) 0) as [Hz|Hz]; [by apply zlen_0 in Hz as ->|].
  by rewrite ReadFull_app.
Qed.

Lemma WriteFrame_ok ch p w :
  zlen p ≤ MaxFrameLen → w_room w = None →
  WriteFrame ch p w = (mkWriter (w_data w ++ encode_frame (ch, p)) None, Ok (5 + zlen p)).
Proof.
  intros Hp Hw. unfold WriteFrame, encode_frame. lt_is false. rewrite io_Write_ok by done. cbn [fst snd].
  destruct (Z.eqb_spec (zlen p) 0) as [Hz|Hz].
  - apply zlen_0 in Hz as ->. by rewrite app_nil_r.
  - rewrite io_Write_ok by done. cbn. by rewrite <- app_assoc.
Qed.

(** Whatever the writer does, a prefix of the frame was written, and the whole
    of it when no error is returned. *)
Lemma WriteFrame_prefix ch p w :
  zlen p ≤ MaxFrameLen →
  ∃ k, w_data (WriteFrame ch p w).1 = w_data w ++ take k (encode_frame (ch, p)) ∧
    (∀ n, (WriteFrame ch p w).2 = Ok n → take k (encode_frame (ch, p)) = encode_frame (ch, p)) ∧
    completes (WriteFrame ch p w).2.
Proof.
  intros Hp. unfold WriteFrame. lt_is false.
  destruct (io_Write_prefix (frame_hdr ch p) w) as (k & Hk & Hn).
  destruct (io_Write (frame_hdr ch p) w) as [w1 [e|]]; cbn [fst snd] in *.
  { exists (k `min` length (frame_hdr ch p))%nat. split; [|done].
    unfold encode_frame. cbn [fst snd]. rewrite take_app_le by lia. rewrite Hk.
    f_equal. destruct (Nat.le_ge_cases k (length (frame_hdr ch p))); [by rewrite Nat.min_l|].
    by rewrite Nat.min_r, !take_ge by lia. }
  rewrite (Hn eq_refl) in Hk. unfold encode_frame. cbn [fst snd]. destruct (Z.eqb_spec (zlen p) 0) as [Hz|Hz].
  { apply zlen_0 in Hz as ->. exists (length (frame_hdr ch [])). rewrite app_nil_r, firstn_all. done. }
  destruct (io_Write_prefix p w1) as (k2 & Hk2 & Hn2). exists (length (frame_hdr ch p) + k2)%nat.
  rewrite take_app_add. destruct (io_Write p w1) as [w2 [e|]]; cbn [fst snd] in *.
  - split; [by rewrite Hk2, Hk, app_assoc|]. done.
  - split; [by rewrite Hk2, Hk, app_assoc|]. split; [|done]. intros n _. by rewrite (Hn2 eq_refl).
Qed.

(** ** Whole streams *)
Fixpoint write_frames (fs : list frame) (w : Writer) : Writer * bool :=
  match fs with
  | [] => (w, true)
  | f :: fs =>
      match WriteFrame f.1 f.2 w with
      | (w, Ok _) => write_frames fs w
      | (w, _) => (w, false)
      end
  end.

Fixpoint read_frames (fuel : nat) (s : list Z) : res frame_err (list frame * frame_err) :=
  match fuel with
  | O => NoFuel
  | S fuel =>
      match ReadFrame s with
      | (Ok f, s) => '(fs, e) ← read_frames fuel s; Ok (f :: fs, e)
      | (Err e, _) => Ok ([], e)
      | (Panic, _) => Panic
      | (NoFuel, _) => NoFuel
      end
  end.

(** A strict prefix of a frame is an error, and nothing follows it. *)
Lemma ReadFrame_cut ch p k :
  zlen p ≤ MaxFrameLen → (k < length (encode_frame (ch, p)))%nat →
  ∃ e, ReadFrame (take k (encode_frame (ch, p))) = (Err e, []) ∧
    (e = IOErr EOF ↔ k = 0%nat ∨ k = 5%nat).
Proof.
  intros Hp Hk. pose proof (zlen_frame_hdr ch p) as Hh. unfold encode_frame in *. cbn [fst snd] in *.
  rewrite length_app in Hk. unfold zlen in Hh. unfold ReadFrame.
  destruct (decide (k = 0)%nat) as [->|H0].
  { exists (IOErr EOF). rewrite take_0, ReadFull_eof by lia. split; [done|]. split; auto. }
  destruct (decide (k < 5)%nat) as [H5|H5].
  { exists ErrShortHeader. rewrite ReadFull_short by (unfold zlen; rewrite length_take, length_app; lia).
    split; [done|]. split; [done|lia]. }
  replace k with (length (frame_hdr ch p) + (k - 5))%nat by lia. rewrite take_app_add.
  rewrite ReadFull_exact by (unfold zlen; lia). unfold frame_hdr at 1. cbv zeta. rewrite frame_hdr_len by done.
  lt_is false. assert (zlen p ≠ 0) by (unfold zlen; lia). eq_is false.
  destruct (decide (k = 5)%nat) as [->|Hk5].
  - rewrite Nat.sub_diag, take_0, ReadFull_eof by (unfold zlen in *; lia). exists (IOErr EOF).
    split; [done|]. split; [lia|done].
  - rewrite ReadFull_short by (unfold zlen in *; rewrite length_take; lia). exists ErrShortPayload.
    split; [done|]. split; [done|lia].
Qed.

Lemma read_frames_encoded fs tail fuel :
  Forall frame_ok fs → (length fs ≤ fuel)%nat →
  read_frames fuel (concat (encode_frame <$> fs) ++ tail) =
    ('(gs, e) ← read_frames (fuel - length fs) tail; Ok (fs ++ gs, e)).
Proof.
  revert fuel. induction fs as [|[ch p] fs IH]; intros fuel Hf Hl; cbn [concat fmap list_fmap length] in *.
  { rewrite Nat.sub_0_r. cbn. by destruct (read_frames fuel tail) as [[gs e]|?| |]. }
  apply Forall_cons in Hf as [Hp Hf]. destruct fuel as [|fuel]; [lia|]. cbn [read_frames].
  rewrite <- app_assoc, ReadFrame_encode by done. rewrite IH by (done || lia).
  rewrite Nat.sub_succ. by destruct (read_frames (fuel - length fs) tail) as [[gs e]|?| |].
Qed.

Lemma encode_frame_len f : (5 ≤ length (encode_frame f))%nat.
Proof. unfold encode_frame. rewrite length_app. pose proof (zlen_frame_hdr f.1 f.2). unfold zlen in *. lia. Qed.

Lemma encoded_len fs : (length fs ≤ length (concat (encode_frame <$> fs)))%nat.
Proof.
  induction fs as [|f fs IH]; cbn; [lia|]. rewrite length_app. pose proof (encode_frame_len f). cbn in *. lia.
Qed.

Lemma read_frames_nil fuel : (0 < fuel)%nat → read_frames fuel [] = Ok ([], IOErr EOF).
Proof. by destruct fuel; [lia|]. Qed.

(** Frames, then a prefix of one more: the reader gets the frames. *)
Lemma read_frames_cut fs f k fuel :
  Forall frame_ok fs → frame_ok f → (length fs + 1 < fuel)%nat →
  ∃ gs e, read_frames fuel (concat (encode_frame <$> fs) ++ take k (encode_frame f)) = Ok (gs, e) ∧
    (gs = fs ∨ gs = fs ++ [f]).
Proof.
  intros Hfs Hf Hl. rewrite read_frames_encoded by (done || lia).
  destruct (fuel - length fs)%nat as [|n] eqn:Hn; [lia|]. destruct f as [ch p].
  destruct (decide (k < length (encode_frame (ch, p)))%nat) as [Hk|Hk].
  - destruct (ReadFrame_cut ch p k Hf Hk) as (e & He & _). exists fs, e. cbn [read_frames]. rewrite He. cbn.
    rewrite app_nil_r. auto.
  - exists (fs ++ [(ch, p)]), (IOErr EOF). rewrite take_ge by lia. cbn [read_frames].
    rewrite <- (app_nil_r (encode_frame _)), ReadFrame_encode by done.
    rewrite read_frames_nil by lia. auto.
Qed.

Lemma write_frames_data fs w :
  Forall frame_ok fs →
  ∃ done tail, w_data (write_frames fs w).1 = w_data w ++ concat (encode_frame <$> done) ++ tail ∧
    ((write_frames fs w).2 = true ∧ done = fs ∧ tail = [] ∨
     (write_frames fs w).2 = false ∧ ∃ f k rest, fs = done ++ f :: rest ∧ tail = take k (encode_frame f)).
Proof.
  revert w. induction fs as [|[ch p] fs IH]; intros w Hf; cbn [write_frames].
  { exists [], []. rewrite !app_nil_r. auto. }
  apply Forall_cons in Hf as [Hp Hf]. destruct (WriteFrame_prefix ch p w Hp) as (k & Hk & Hn & Hc). cbn [fst snd].
  destruct (WriteFrame ch p w) as [w1 [n|e| |]]; cbn [fst snd] in *; try done.
  - destruct (IH w1 Hf) as (dn & tail & Hd & Hr). exists ((ch, p) :: dn), tail. split.
    { rewrite Hd, Hk, (Hn n eq_refl). cbn. by rewrite <- !app_assoc. }
    destruct Hr as [(H1 & -> & ->)|(H1 & f & k' & rest & -> & ->)]; [by left|right]. split; [done|by exists f, k', rest].
  - exists [], (take k (encode_frame (ch, p))). split; [done|]. right. split; [done|]. by exists (ch, p), k, fs.
Qed.

Lemma write_frames_open fs w :
  Forall frame_ok fs → w_room w = None →
  write_frames fs w = (mkWriter (w_data w ++ concat (encode_frame <$> fs)) None, true).
Proof.
  revert w. induction fs as [|[ch p] fs IH]; intros w Hf Hw; cbn [write_frames].
  { cbn. rewrite app_nil_r. by destruct w; cbn in *; subst. }
  apply Forall_cons in Hf as [Hp Hf]. rewrite WriteFrame_ok by done. rewrite IH by done. cbn. by rewrite <- app_assoc.
Qed.

(** Frames survive the wire. Frames of at most 1 MiB written one after the
    other are read back exactly, in order, followed by a clean end of file; and
    when the connection breaks at any byte, what is read back is a prefix of the
    frames that were written, never another frame, and the reader stops. *)
Theorem frame_roundtrip fs room :
  Forall frame_ok fs →
  let w := write_frames fs (mkWriter [] room) in
  ∃ gs e, read_frames (S (length fs + length (w_data w.1))) (w_data w.1) = Ok (gs, e) ∧ gs `prefix_of` fs ∧
    (w.2 = true → gs = fs ∧ e = IOErr EOF) ∧ (room = None → w.2 = true).
Proof.
  intros Hf w. assert (room = None → w.2 = true) as Hopen.
  { intros ->. unfold w. by rewrite write_frames_open. }
  destruct (write_frames_data fs (mkWriter [] room) Hf) as (dn & tail & Hd & Hr). fold w in Hd, Hr.
  cbn [w_data app] in Hd. rewrite Hd. destruct Hr as [(H1 & -> & ->)|(H1 & f & k & rest & -> & ->)].
  - exists fs, (IOErr EOF). rewrite read_frames_encoded by (done || lia). rewrite read_frames_nil by lia. cbn.
    rewrite app_nil_r. done.
  - apply Forall_app in Hf as [Hdn Hf]. apply Forall_cons in Hf as [Hf _].
    destruct (read_frames_cut dn f k (S (length (dn ++ f :: rest) + length (concat (encode_frame <$> dn) ++ take k (encode_frame f)))) Hdn Hf) as (gs & e & Hg & Hor).
    { rewrite !length_app. cbn. lia. }
    exists gs, e. split; [exact Hg|]. split.
    { destruct Hor as [->| ->]; [by apply prefix_app_r|]. rewrite (cons_middle f dn rest). rewrite app_assoc. by apply prefix_app_r. }
    split; [|done]. by rewrite H1.
Qed.


Lemma frame_roundtrip_witness :
  let w := write_frames [(1, [65]); (3, [0; 0; 0; 7])] (mkWriter [] (Some 12)) in
  ∃ gs e, read_frames (S (2 + length (w_data w.1))) (w_data w.1) = Ok (gs, e) ∧
    gs `prefix_of` [(1, [65]); (3, [0; 0; 0; 7])].
Proof.
  destruct (frame_roundtrip [(1, [65]); (3, [0; 0; 0; 7])] (Some 12)) as (gs & e & H1 & H2 & _).
  { repeat constructor; unfold frame_ok; vm_compute; discriminate. }
  by exists gs, e.
Defined.

(** A connection that ends right after a header looks like a clean end of file,
    although a payload was announced. *)
Lemma frame_cut_after_header_is_eof ch p :
  0 < zlen p ≤ MaxFrameLen → ReadFrame (frame_hdr ch p) = (Err (IOErr EOF), []).
Proof.
  intros [H0 Hp]. pose proof (zlen_frame_hdr ch p) as Hh.
  destruct (ReadFrame_cut ch p 5 Hp) as (e & He & Heof).
  { unfold encode_frame. rewrite length_app. unfold zlen in *. cbn [fst snd]. lia. }
  unfold encode_frame in He. cbn [fst snd] in He. rewrite take_app_le in He by (unfold zlen in *; lia).
  rewrite take_ge in He by (unfold zlen in *; lia). rewrite He. f_equal. f_equal. apply Heof. auto.
Qed.

(** ** Sessions *)
Definition pending (p : Pump) : list (list Z) := default [] p.
Definition payload_on (ch : Z) (fs : list frame) : list Z := concat (snd <$> filter (fun f => f.1 = ch) fs).
Definition chunk_ok (c : list Z) : Prop := zlen c ≤ outputChunkSize.

Lemma payload_on_app ch fs gs : payload_on ch (fs ++ gs) = payload_on ch fs ++ payload_on ch gs.
Proof. unfold payload_on. by rewrite filter_app, fmap_app, concat_app. Qed.
Lemma payload_on_one ch c p : payload_on ch [(c, p)] = if bool_decide (c = ch) then p else [].
Proof. unfold payload_on. rewrite filter_cons. case_bool_decide; case_decide; cbn in *; rewrite ?app_nil_r; done. Qed.
Lemma chunk_frame_ok ch c : chunk_ok c → frame_ok (ch, c).
Proof. unfold chunk_ok, frame_ok. cbn. change outputChunkSize with 32768. rewrite MaxFrameLen_val. lia. Qed.

(** An iteration of a pump on an open connection emits at most one frame. *)
Lemma pump_iter_open ch reads w :
  w_room w = None → Forall chunk_ok reads →
  ∃ fs, (pump_iter ch (Some reads) w).2 = mkWriter (w_data w ++ concat (encode_frame <$> fs)) None ∧
    Forall frame_ok fs ∧ Forall (fun f => f.1 = ch) fs ∧
    payload_on ch fs ++ concat (pending (pump_iter ch (Some reads) w).1) = concat reads ∧
    Forall chunk_ok (pending (pump_iter ch (Some reads) w).1).
Proof.
  intros Hw Hc. destruct reads as [|c reads]; cbn [pump_iter].
  { exists []. cbn. rewrite app_nil_r. destruct w; cbn in *; subst. done. }
  apply Forall_cons in Hc as [Hc Hr]. destruct (Z.ltb_spec 0 (zlen c)) as [H0|H0].
  - pose proof (chunk_frame_ok ch c Hc) as Hf. rewrite WriteFrame_ok by done. exists [(ch, c)].
    cbn [fst snd fmap list_fmap concat pending default]. rewrite app_nil_r.
    splits; [done|by repeat constructor|by repeat constructor| |done]. by rewrite payload_on_one, bool_decide_true.
  - pose proof (zlen_nonneg c). assert (c = []) as -> by (apply zlen_0; lia). exists []. cbn. rewrite app_nil_r.
    destruct w; cbn in *; subst. done.
Qed.

Definition session_inv (code : Z) (outs errs : list (list Z)) (s : Session) : Prop :=
  w_room (s_conn s) = None ∧ (exited s = true → out_pump s = None ∧ err_pump s = None) ∧
  Forall chunk_ok (pending (out_pump s)) ∧ Forall chunk_ok (pending (err_pump s)) ∧
  ∃ fs, Forall frame_ok fs ∧ Forall (fun f => f.1 = ChannelStdout ∨ f.1 = ChannelStderr) fs ∧
    w_data (s_conn s) = concat (encode_frame <$> fs) ++
      (if exited s then encode_frame (ChannelExit, exit_payload code) else []) ∧
    payload_on ChannelStdout fs ++ concat (pending (out_pump s)) = concat outs ∧
    payload_on ChannelStderr fs ++ concat (pending (err_pump s)) = concat errs.

Lemma payload_off ch ch' fs : ch ≠ ch' → Forall (fun f => f.1 = ch) fs → payload_on ch' fs = [].
Proof.
  intros Hne Hf. unfold payload_on. induction Hf as [|f fs Hf _ IH]; [done|]. rewrite filter_cons.
  case_decide; [congruence|done].
Qed.

Lemma session_step_inv code outs errs s s' :
  session_step code s s' → session_inv code outs errs s → session_inv code outs errs s'.
Proof.
  intros Hs (Hr & Hx & Hco & Hce & fs & Hf & Hch & Hd & Ho & He). destruct Hs as [ps e w x|ps o w x|w];
    cbn [s_conn out_pump err_pump exited] in *.
  - destruct x; [by destruct Hx|]. destruct (pump_iter_open ChannelStdout ps w Hr Hco) as (gs & Hw & Hg & Hc & Hp & Hk).
    destruct (pump_iter ChannelStdout (Some ps) w) as [p w']. cbn [fst snd] in *. subst w'. rewrite app_nil_r in Hd.
    split; [done|]. split; [done|]. split; [done|]. split; [done|]. exists (fs ++ gs). cbn [w_data s_conn exited].
    rewrite !payload_on_app, fmap_app, concat_app, app_nil_r, <- !app_assoc. cbn [out_pump err_pump]. rewrite Hp.
    rewrite (payload_off ChannelStdout ChannelStderr gs) by done.
    splits; try done; [by apply Forall_app| |by rewrite Hd].
    apply Forall_app. split; [done|]. eapply Forall_impl; [exact Hc|]. auto.
  - destruct x; [by destruct Hx|]. destruct (pump_iter_open ChannelStderr ps w Hr Hce) as (gs & Hw & Hg & Hc & Hp & Hk).
    destruct (pump_iter ChannelStderr (Some ps) w) as [p w']. cbn [fst snd] in *. subst w'. rewrite app_nil_r in Hd.
    split; [done|]. split; [done|]. split; [done|]. split; [done|]. exists (fs ++ gs). cbn [w_data s_conn exited].
    rewrite !payload_on_app, fmap_app, concat_app, app_nil_r, <- !app_assoc. cbn [out_pump err_pump]. rewrite Hp.
    rewrite (payload_off ChannelStderr ChannelStdout gs) by done.
    splits; try done; [by apply Forall_app| |by rewrite Hd].
    apply Forall_app. split; [done|]. eapply Forall_impl; [exact Hc|]. auto.
  - rewrite app_nil_r in Hd. unfold WriteExitFrame. rewrite WriteFrame_ok; [|unfold exit_payload; rewrite zlen_BE; done|done].
    cbn [fst]. split; [done|]. split; [done|]. split; [done|]. split; [done|]. exists fs. cbn. rewrite Hd. done.
Qed.

Lemma ParseExitPayload_roundtrip code : ParseExitPayload (exit_payload code) = Ok (i32 code).
Proof.
  unfold ParseExitPayload, exit_payload. rewrite zlen_BE. cbn [negb Z.eqb Z.of_nat Pos.of_succ_nat Pos.succ Pos.eqb].
  rewrite BE_decode, i32_u32; [done|]. apply (Z.mod_pos_bound code (2 ^ 32)). lia.
Qed.

Lemma copyOutput_frames fs code tail d1 d2 fuel :
  Forall frame_ok fs → Forall (fun f => f.1 = ChannelStdout ∨ f.1 = ChannelStderr) fs → (length fs < fuel)%nat →
  copyOutputUntilExit fuel (concat (encode_frame <$> fs) ++ encode_frame (ChannelExit, exit_payload code) ++ tail)
    (Some (mkWriter d1 None)) (Some (mkWriter d2 None)) =
  Ok (i32 code, Some (mkWriter (d1 ++ payload_on ChannelStdout fs) None),
      Some (mkWriter (d2 ++ payload_on ChannelStderr fs) None)).
Proof.
  revert d1 d2 fuel. induction fs as [|[ch p] fs IH]; intros d1 d2 fuel Hf Hch Hl; (destruct fuel as [|fuel]; [cbn in Hl; lia|]).
  - cbn [copyOutputUntilExit fmap list_fmap concat app]. rewrite ReadFrame_encode by (unfold exit_payload; rewrite zlen_BE; done).
    cbn [Z.eqb ChannelExit ChannelStdout ChannelStderr Pos.eqb]. rewrite ParseExitPayload_roundtrip.
    by rewrite !app_nil_r.
  - apply Forall_cons in Hf as [Hp Hf]. apply Forall_cons in Hch as [Hc Hch]. cbn [length] in Hl.
    rewrite fmap_cons. cbn [copyOutputUntilExit concat]. rewrite <- app_assoc, ReadFrame_encode by done.
    change ((ch, p) :: fs) with ([(ch, p)] ++ fs). rewrite !payload_on_app, !payload_on_one.
    destruct Hc as [Hc|Hc]; cbn [fst] in Hc; subst ch; cbn -[concat fmap]; rewrite IH by (done || lia); by rewrite <- ?app_assoc.
Qed.

(** The number of steps left. *)
Definition session_measure (s : Session) : nat :=
  (match out_pump s with Some l => S (length l) | None => 0 end) +
  (match err_pump s with Some l => S (length l) | None => 0 end) + (if exited s then 0 else 1).

Lemma pump_iter_measure ch l w :
  (match (pump_iter ch (Some l) w).1 with Some l' => S (length l') | None => 0 end < S (length l))%nat.
Proof. destruct l as [|c l]; cbn; [lia|]. repeat case_match; simplify_eq/=; lia. Qed.

Lemma session_step_measure code s s' : session_step code s s' → (session_measure s' < session_measure s)%nat.
Proof.
  intros [outs e w x|errs o w x|w]; unfold session_measure; cbn [out_pump err_pump exited]; [| |cbn; lia].
  - pose proof (pump_iter_measure ChannelStdout outs w). destruct (pump_iter ChannelStdout (Some outs) w) as [p w'].
    cbn [fst out_pump err_pump exited] in *. lia.
  - pose proof (pump_iter_measure ChannelStderr errs w). destruct (pump_iter ChannelStderr (Some errs) w) as [p w'].
    cbn [fst out_pump err_pump exited] in *. lia.
Qed.

Lemma session_nsteps_measure code n s s' :
  nsteps (session_step code) n s s' → (n + session_measure s' ≤ session_measure s)%nat.
Proof. induction 1 as [|n x y z Hxy _ IH]; [lia|]. pose proof (session_step_measure _ _ _ Hxy). lia. Qed.

Lemma session_progress code s : exited s = false → ∃ s', session_step code s s'.
Proof.
  destruct s as [[o|] [e|] w x]; cbn; intros ->; eexists; constructor.
Qed.

(** C23: a command's output is delivered. In every interleaving of the two
    output pumps the session ends after a bounded number of steps, and is never
    stuck before; when it has ended, the client's copy loop, on what the agent
    sent, writes to the caller's standard output and standard error exactly what
    the process wrote to its own, and returns the process's exit code (as an
    int32). *)
Theorem exec_output_delivered code outs errs n s :
  Forall chunk_ok outs → Forall chunk_ok errs →
  nsteps (session_step code) n (runWithPipes_start outs errs open_writer) s →
  (n ≤ length outs + length errs + 3)%nat ∧ (exited s = false → ∃ s', session_step code s s') ∧
  (exited s = true → ∀ fuel, (length (w_data (s_conn s)) ≤ fuel)%nat →
    copyOutputUntilExit fuel (w_data (s_conn s)) (Some open_writer) (Some open_writer) =
    Ok (i32 code, Some (mkWriter (concat outs) None), Some (mkWriter (concat errs) None))).
Proof.
  intros Ho He Hn. split; [|split; [apply session_progress|]].
  { apply session_nsteps_measure in Hn. cbn in Hn. lia. }
  assert (session_inv code outs errs s) as (Hr & Hx & _ & _ & fs & Hf & Hch & Hd & Hout & Herr).
  { assert (session_inv code outs errs (runWithPipes_start outs errs open_writer)) as Hi
      by (unfold session_inv; cbn; splits; try done; by exists []).
    revert Hi. induction Hn; eauto using session_step_inv. }
  intros Hex fuel Hfuel. destruct (Hx Hex) as [Ho' He']. rewrite Ho', He', Hex in *. cbn in Hout, Herr.
  rewrite !app_nil_r in *. rewrite Hd in *. rewrite <- Hout, <- Herr.
  rewrite <- (app_nil_r (encode_frame (ChannelExit, _))).
  apply copyOutput_frames; [done|done|]. rewrite length_app in Hfuel. pose proof (encoded_len fs).
  pose proof (encode_frame_len (ChannelExit, exit_payload code)). lia.
Qed.

Lemma exec_output_delivered_witness :
  ∃ n s, nsteps (session_step 7) n (runWithPipes_start [[65]; [66]] [[69]] open_writer) s ∧
    copyOutputUntilExit (length (w_data (s_conn s))) (w_data (s_conn s)) (Some open_writer) (Some open_writer) =
    Ok (7, Some (mkWriter [65; 66] None), Some (mkWriter [69] None)).
Proof.
  eexists _, _. split.
  - eapply nsteps_l; [apply step_out|]. eapply nsteps_l; [apply step_err|]. eapply nsteps_l; [apply step_out|].
    eapply nsteps_l; [apply step_out|]. eapply nsteps_l; [apply step_err|]. eapply nsteps_l; [apply step_exit|].
    apply nsteps_O.
  - apply (exec_output_delivered 7 [[65]; [66]] [[69]] 6); [| | |vm_compute; reflexivity|vm_compute; lia].
    + by repeat constructor.
    + by repeat constructor.
    + eapply nsteps_l; [apply step_out|]. eapply nsteps_l; [apply step_err|]. eapply nsteps_l; [apply step_out|].
      eapply nsteps_l; [apply step_out|]. eapply nsteps_l; [apply step_err|]. eapply nsteps_l; [apply step_exit|].
      apply nsteps_O.
Defined.

(** ** Standard input *)

Lemma pumpFrames_stdin ptyMode chunks s d p fuel :
  Forall (fun c => c ≠ [] ∧ zlen c ≤ MaxFrameLen) chunks → p_closed p = false → p_stdin p = mkWriter d None →
  (length chunks ≤ fuel)%nat →
  pumpFramesToProcess fuel ptyMode (concat (encode_frame <$> ((fun c => (ChannelStdin, c)) <$> chunks)) ++ s) p =
  pumpFramesToProcess (fuel - length chunks) ptyMode s
    (mkProcess (mkWriter (d ++ concat chunks) None) false (p_started p) (p_signals p) (p_winsize p)).
Proof.
  revert d p fuel. induction chunks as [|c chunks IH]; intros d p fuel Hc Hcl Hd Hl.
  { cbn. rewrite app_nil_r, Nat.sub_0_r. destruct p; cbn in *; by subst. }
  apply Forall_cons in Hc as [[Hne Hle] Hc]. cbn [length] in Hl. destruct fuel as [|fuel]; [lia|].
  rewrite !fmap_cons. cbn [pumpFramesToProcess concat]. rewrite <- app_assoc, ReadFrame_encode by done.
  unfold process_frame. cbn [Z.eqb ChannelStdin].
  assert (zlen c ≠ 0) by (intros Hz; by apply zlen_0 in Hz). eq_is false. cbn [andb]. rewrite Hcl.
  rewrite io_Write_ok by (by rewrite Hd). rewrite (IH (d ++ c)); [|done..|by cbn; rewrite Hd|lia].
  cbn [length Nat.sub concat]. by rewrite <- app_assoc.
Qed.

(** A command's input is delivered. When the client writes non-empty chunks
    and closes standard input, the process (without a terminal) gets exactly the
    chunks, in order, and then end of file; the agent's loop ends when the
    connection does. *)
Theorem exec_input_delivered chunks started fuel :
  Forall (fun c => c ≠ [] ∧ zlen c ≤ MaxFrameLen) chunks → (length chunks + 2 ≤ fuel)%nat →
  let w := foldl (fun w c => (session_Write c w).1) open_writer chunks in
  pumpFramesToProcess fuel false (w_data (CloseStdin w).1) (mkProcess open_writer false started [] []) =
  Ok (mkProcess (mkWriter (concat chunks) None) true started [] []).
Proof.
  intros Hc Hl w. assert (∀ d, w_room d = None → foldl (fun w c => (session_Write c w).1) d chunks =
    mkWriter (w_data d ++ concat (encode_frame <$> ((fun c => (ChannelStdin, c)) <$> chunks))) None) as Hw.
  { clear w Hl. induction Hc as [|c chunks [Hne Hle] _ IH]; intros d Hd; cbn.
    - rewrite app_nil_r. by destruct d; cbn in *; subst.
    - unfold session_Write. rewrite WriteFrame_ok by done. cbn [fst]. rewrite IH by done. cbn. by rewrite <- app_assoc. }
  unfold w. rewrite Hw by done. unfold CloseStdin. rewrite WriteFrame_ok by done. cbn [fst w_data open_writer app].
  rewrite (pumpFrames_stdin false chunks _ []) by (done || lia).
  destruct (fuel - length chunks)%nat as [|[|n]] eqn:E; [lia|lia|]. cbn [pumpFramesToProcess].
  rewrite <- (app_nil_r (encode_frame _)), ReadFrame_encode by done. reflexivity.
Qed.

Lemma exec_input_delivered_witness :
  pumpFramesToProcess 4 false
    (w_data (CloseStdin (foldl (fun w c => (session_Write c w).1) open_writer [[65]; [66; 67]])).1)
    (mkProcess open_writer false true [] []) =
  Ok (mkProcess (mkWriter [65; 66; 67] None) true true [] []).
Proof.
  apply (exec_input_delivered [[65]; [66; 67]] true 4); [|cbn; lia].
  repeat constructor; try done; vm_compute; discriminate.
Defined.

(** A zero-length write by the client is the end-of-input frame: it closes the
    standard input of the process, and the next chunk ends the agent's loop. *)
Lemma empty_write_closes_stdin c p :
  p_closed p = false → zlen c ≠ 0 →
  session_Write [] open_writer = (mkWriter (encode_frame (ChannelStdin, [])) None, Ok 0) ∧
  process_frame false ChannelStdin [] p = (true, close_stdin p) ∧
  process_frame false ChannelStdin c (close_stdin p) = (false, close_stdin p).
Proof. intros Hp Hc. splits; try done. unfold process_frame. cbn. by eq_is false. Qed.
