(* ===== verification/GuestExec.v ===== *)
(** * The guest exec protocol

    The binary frames of src/internal/guestexec/binary.go and the requests and
    responses of src/internal/guestexec/protocol.go.  Strings that travel are
    byte lists; the mode is a string of the protocol.  A decoder that fails
    leaves its target partly filled; the model returns the error alone, as the
    callers use nothing else then. *)
From S2P Require Import Prelude Stream.

Definition DefaultVsockPort : Z := 10022.
Definition ModeExec : string := "exec".
Definition ModeStream : string := "stream".
Definition ModeMemoryStats : string := "memory_stats".
Definition ModeMemoryHotplugGet : string := "memory_hotplug_get".
Definition ModeMemoryHotplugUpdate : string := "memory_hotplug_update".
Definition ModeResize : string := "resize".

Record ExecConfig := mkExecConfig { ec_Enabled : bool; ec_VsockPort : Z }.
Definition Port (c : ExecConfig) : Z := if negb (ec_VsockPort c =? 0) then ec_VsockPort c else DefaultVsockPort.

Record Request := mkRequest {
  Mode : string;
  Command : list (list Z);
  Columns : Z;
  Rows : Z;
  Stdin : list Z;
  Env : list (list Z);
  WorkDir : list Z;
  HotplugBaseAddr : Z;
  HotplugTotalBytes : Z;
  HotplugBlockBytes : Z;
  HotplugTargetBytes : Z
}.
Definition zero_request (mode : string) : Request := mkRequest mode [] 0 0 [] [] [] 0 0 0 0.

(** The fourteen counters of MemoryStats, in the order of the structure. *)
Record MemoryStats := mkMemoryStats {
  SwapIn : Z; SwapOut : Z; MajorFaults : Z; MinorFaults : Z; FreeMemory : Z; TotalMemory : Z; AvailableMemory : Z;
  DiskCaches : Z; OOMKill : Z; AllocStall : Z; AsyncScan : Z; DirectScan : Z; AsyncReclaim : Z; DirectReclaim : Z
}.
Record MemoryHotplug := mkMemoryHotplug {
  BlockSizeBytes : Z; RequestedBytes : Z; PluggedBytes : Z; OnlineBlocks : Z; PresentBlocks : Z
}.
Record Response := mkResponse {
  OK : bool;
  RespError : list Z;
  Stdout : list Z;
  Stderr : list Z;
  ExitCode : Z;
  RespMemoryStats : option MemoryStats;
  RespMemoryHotplug : option MemoryHotplug
}.
Definition zero_response : Response := mkResponse false [] [] [] 0 None None.

Inductive validate_err := CommandRequired | BaseAddrRequired | TotalBytesRequired | ResizeDims | UnsupportedMode (mode : string).

Definition Validate (r : Request) : option validate_err :=
  if bool_decide (Mode r = ModeExec) then (if zlen (Command r) =? 0 then Some CommandRequired else None)
  else if bool_decide (Mode r = ModeStream) then None
  else if bool_decide (Mode r = ModeMemoryStats) then None
  else if bool_decide (Mode r = ModeMemoryHotplugGet) || bool_decide (Mode r = ModeMemoryHotplugUpdate) then
    if HotplugBaseAddr r =? 0 then Some BaseAddrRequired
    else if HotplugTotalBytes r =? 0 then Some TotalBytesRequired
    else None
  else if bool_decide (Mode r = ModeResize) then
    if (Columns r <=? 0) || (Rows r <=? 0) then Some ResizeDims else None
  else Some (UnsupportedMode (Mode r)).

(** ** The wire *)
Definition wireModeExec : Z := 1.
Definition wireModeStream : Z := 2.
Definition wireModeMemoryStats : Z := 3.
Definition wireModeMemoryHotplugGet : Z := 4.
Definition wireModeMemoryHotplugUpdate : Z := 5.
Definition wireModeResize : Z := 6.
Definition responseTag : Z := 0.
Definition maxFrameSize : Z := 64 * 1024 * 1024.

Inductive wire_err :=
  | errShortFrame
  | errUnknownMode (mode : string)
  | errBadFrameKind
  | errPayloadLength
  | errFrameCap (n : Z)
  | errWrongType
  | WireIO (e : io_err).

Definition modeToByte (mode : string) : res wire_err Z :=
  if bool_decide (mode = ModeExec) then Ok wireModeExec
  else if bool_decide (mode = ModeStream) then Ok wireModeStream
  else if bool_decide (mode = ModeMemoryStats) then Ok wireModeMemoryStats
  else if bool_decide (mode = ModeMemoryHotplugGet) then Ok wireModeMemoryHotplugGet
  else if bool_decide (mode = ModeMemoryHotplugUpdate) then Ok wireModeMemoryHotplugUpdate
  else if bool_decide (mode = ModeResize) then Ok wireModeResize
  else Err (errUnknownMode mode).

Definition byteToMode (b : Z) : string :=
  if b =? wireModeExec then ModeExec
  else if b =? wireModeStream then ModeStream
  else if b =? wireModeMemoryStats then ModeMemoryStats
  else if b =? wireModeMemoryHotplugGet then ModeMemoryHotplugGet
  else if b =? wireModeMemoryHotplugUpdate then ModeMemoryHotplugUpdate
  else if b =? wireModeResize then ModeResize
  else "".

(** *** Writing *)
Definition clampU16 (v : Z) : Z := if v <? 0 then 0 else if 0xFFFF <? v then 0xFFFF else u16 v.
Definition appendU16 (b : list Z) (v : Z) : list Z := b ++ [u8 (v .>> 8); u8 v].
Definition appendU64 (b : list Z) (v : Z) : list Z := b ++ BE 8 v.
Definition appendI32 (b : list Z) (v : Z) : list Z := b ++ BE 4 (u32 v).
Definition appendU32Len (b data : list Z) : list Z := b ++ BE 4 (u32 (zlen data)) ++ data.
Definition appendString (b s : list Z) : list Z := appendU32Len b s.
Definition appendStringList (b : list Z) (items : list (list Z)) : list Z :=
  foldl appendString (appendU16 b (u16 (zlen items))) items.

Definition writeLengthPrefixed (w : Writer) (payload : list Z) : Writer * res wire_err unit :=
  if maxFrameSize <? zlen payload then (w, Err (errFrameCap (zlen payload)))
  else
    match io_Write (BE 4 (u32 (zlen payload))) w with
    | (w, Some e) => (w, Err (WireIO e))
    | (w, None) =>
        match io_Write payload w with
        | (w, Some e) => (w, Err (WireIO e))
        | (w, None) => (w, Ok ())
        end
    end.

(** The payload that [writeRequestFrame] builds for a mode byte. *)
Definition request_payload (mode : Z) (req : Request) : list Z :=
  let buf := [mode] in
  if (mode =? wireModeExec) || (mode =? wireModeStream) then
    let buf := appendU16 buf (u16 (clampU16 (Columns req))) in
    let buf := appendU16 buf (u16 (clampU16 (Rows req))) in
    let buf := appendString buf (Stdin req) in
    let buf := appendStringList buf (Command req) in
    let buf := appendStringList buf (Env req) in
    appendString buf (WorkDir req)
  else if mode =? wireModeMemoryStats then buf
  else if (mode =? wireModeMemoryHotplugGet) || (mode =? wireModeMemoryHotplugUpdate) then
    let buf := appendU64 buf (HotplugBaseAddr req) in
    let buf := appendU64 buf (HotplugTotalBytes req) in
    let buf := appendU64 buf (HotplugBlockBytes req) in
    appendU64 buf (HotplugTargetBytes req)
  else if mode =? wireModeResize then
    let buf := appendU16 buf (u16 (clampU16 (Columns req))) in
    appendU16 buf (u16 (clampU16 (Rows req)))
  else buf.

Definition writeRequestFrame (w : Writer) (req : Request) : Writer * res wire_err unit :=
  match modeToByte (Mode req) with
  | Ok mode => writeLengthPrefixed w (request_payload mode req)
  | Err e => (w, Err e)
  | Panic => (w, Panic)
  | NoFuel => (w, NoFuel)
  end.

Definition stats_fields (ms : MemoryStats) : list Z :=
  [SwapIn ms; SwapOut ms; MajorFaults ms; MinorFaults ms; FreeMemory ms; TotalMemory ms; AvailableMemory ms;
   DiskCaches ms; OOMKill ms; AllocStall ms; AsyncScan ms; DirectScan ms; AsyncReclaim ms; DirectReclaim ms].
Definition hotplug_fields (mh : MemoryHotplug) : list Z :=
  [BlockSizeBytes mh; RequestedBytes mh; PluggedBytes mh; OnlineBlocks mh; PresentBlocks mh].

Definition response_payload (resp : Response) : list Z :=
  let buf := [responseTag] in
  let buf := buf ++ [boolZ (OK resp)] in
  let buf := appendI32 buf (i32 (ExitCode resp)) in
  let buf := appendString buf (Stdout resp) in
  let buf := appendString buf (Stderr resp) in
  let buf := appendString buf (RespError resp) in
  let buf := match RespMemoryStats resp with
             | Some ms => foldl appendU64 (buf ++ [1]) (stats_fields ms)
             | None => buf ++ [0]
             end in
  match RespMemoryHotplug resp with
  | Some mh => foldl appendU64 (buf ++ [1]) (hotplug_fields mh)
  | None => buf ++ [0]
  end.

Definition writeResponseFrame (w : Writer) (resp : Response) : Writer * res wire_err unit :=
  writeLengthPrefixed w (response_payload resp).

(** The two types that [EncodeBinary] and [DecodeBinary] accept. *)
Inductive wire_value := VRequest (req : Request) | VResponse (resp : Response).

Definition EncodeBinary (w : Writer) (v : wire_value) : Writer * res wire_err unit :=
  match v with
  | VRequest req => writeRequestFrame w req
  | VResponse resp => writeResponseFrame w resp
  end.

(** *** Reading *)
Record reader := mkReader { r_b : list Z; r_off : Z }.
Definition remaining (r : reader) : Z := zlen (r_b r) - r_off r.

(** A decoding step: a value or an error, and the cursor afterwards. *)
Definition Rd (A : Type) := reader → res wire_err (A * reader).
Definition rd_ret {A} (a : A) : Rd A := fun r => Ok (a, r).
Definition rd_bind {A B} (m : Rd A) (f : A → Rd B) : Rd B :=
  fun r => match m r with Ok (a, r) => f a r | Err e => Err e | Panic => Panic | NoFuel => NoFuel end.
Notation "x <~ m ;; k" := (rd_bind m (fun x => k)) (at level 100, m at next level, right associativity).

(** [binary.BigEndian.UintN(r.b[r.off:])] after the length check. *)
Definition rd_uint (n : nat) : Rd Z := fun r =>
  if remaining r <? Z.of_nat n then Err errShortFrame
  else
    bs ← must (slice (r_b r) (r_off r) (r_off r + Z.of_nat n));
    Ok (be_decode bs, mkReader (r_b r) (r_off r + Z.of_nat n)).
Definition rd_u8 : Rd Z := fun r =>
  if remaining r <? 1 then Err errShortFrame
  else v ← must (at_ (r_b r) (r_off r)); Ok (v, mkReader (r_b r) (r_off r + 1)).
Definition rd_u16 : Rd Z := rd_uint 2.
Definition rd_u32 : Rd Z := rd_uint 4.
Definition rd_u64 : Rd Z := rd_uint 8.
Definition rd_i32 : Rd Z := v <~ rd_u32 ;; rd_ret (i32 v).

Definition rd_bytes : Rd (list Z) :=
  n <~ rd_u32 ;;
  (fun r =>
     if u32 (remaining r) <? n then Err errPayloadLength
     else bs ← must (slice (r_b r) (r_off r) (r_off r + n)); Ok (bs, mkReader (r_b r) (r_off r + n))).
Definition rd_stringField : Rd (list Z) := rd_bytes.

Fixpoint rd_times {A} (n : nat) (m : Rd A) : Rd (list A) :=
  match n with
  | O => rd_ret []
  | S n => x <~ m ;; xs <~ rd_times n m ;; rd_ret (x :: xs)
  end.
Definition rd_strings : Rd (list (list Z)) :=
  n <~ rd_u16 ;; if n =? 0 then rd_ret [] else rd_times (Z.to_nat n) rd_stringField.

Definition parseRequest (tag : Z) : Rd Request :=
  let req := zero_request (byteToMode tag) in
  if (tag =? wireModeExec) || (tag =? wireModeStream) then
    cols <~ rd_u16 ;;
    rows <~ rd_u16 ;;
    stdin <~ rd_bytes ;;
    cmd <~ rd_strings ;;
    env <~ rd_strings ;;
    wd <~ rd_stringField ;;
    rd_ret (mkRequest (Mode req) cmd cols rows stdin env wd 0 0 0 0)
  else if tag =? wireModeMemoryStats then rd_ret req
  else if (tag =? wireModeMemoryHotplugGet) || (tag =? wireModeMemoryHotplugUpdate) then
    a <~ rd_u64 ;;
    b <~ rd_u64 ;;
    c <~ rd_u64 ;;
    d <~ rd_u64 ;;
    rd_ret (mkRequest (Mode req) [] 0 0 [] [] [] a b c d)
  else if tag =? wireModeResize then
    cols <~ rd_u16 ;;
    rows <~ rd_u16 ;;
    rd_ret (mkRequest (Mode req) [] cols rows [] [] [] 0 0 0 0)
  else rd_ret req.

Definition stats_of (l : list Z) : MemoryStats :=
  let f i := nth i l 0 in
  mkMemoryStats (f 0%nat) (f 1%nat) (f 2%nat) (f 3%nat) (f 4%nat) (f 5%nat) (f 6%nat) (f 7%nat) (f 8%nat) (f 9%nat)
    (f 10%nat) (f 11%nat) (f 12%nat) (f 13%nat).
Definition hotplug_of (l : list Z) : MemoryHotplug :=
  let f i := nth i l 0 in mkMemoryHotplug (f 0%nat) (f 1%nat) (f 2%nat) (f 3%nat) (f 4%nat).

(** An optional part: a presence byte, then [n] counters. *)
Definition rd_optional {A} (n : nat) (mk : list Z → A) : Rd (option A) :=
  present <~ rd_u8 ;;
  if negb (present =? 0) then l <~ rd_times n rd_u64 ;; rd_ret (Some (mk l)) else rd_ret None.

(** [resp] is filled in place: a part that is absent keeps what it had. *)
Definition parseResponse (resp : Response) : Rd Response :=
  okByte <~ rd_u8 ;;
  ec <~ rd_i32 ;;
  stdout <~ rd_stringField ;;
  stderr <~ rd_stringField ;;
  errStr <~ rd_stringField ;;
  ms <~ rd_optional 14 stats_of ;;
  mh <~ rd_optional 5 hotplug_of ;;
  rd_ret (mkResponse (negb (okByte =? 0)) errStr stdout stderr ec
    (match ms with Some m => Some m | None => RespMemoryStats resp end)
    (match mh with Some m => Some m | None => RespMemoryHotplug resp end)).

Definition is_request_tag (tag : Z) : bool :=
  (tag =? wireModeExec) || (tag =? wireModeStream) || (tag =? wireModeMemoryStats) ||
  (tag =? wireModeMemoryHotplugGet) || (tag =? wireModeMemoryHotplugUpdate) || (tag =? wireModeResize).

Definition decode_payload (payload : list Z) (v : wire_value) : res wire_err wire_value :=
  match payload with
  | [] => Panic
  | tag :: body =>
      let r := mkReader body 0 in
      if tag =? responseTag then
        match v with
        | VResponse resp => '(resp, _) ← parseResponse resp r; Ok (VResponse resp)
        | VRequest _ => Err errWrongType
        end
      else if is_request_tag tag then
        match v with
        | VRequest _ => '(req, _) ← parseRequest tag r; Ok (VRequest req)
        | VResponse _ => Err errWrongType
        end
      else Err errBadFrameKind
  end.

(** The target afterwards and the rest of the stream. *)
Definition DecodeBinary (s : list Z) (v : wire_value) : res wire_err wire_value * list Z :=
  match ReadFull 4 s with
  | (Ok lenb, s) =>
      let flen := be_decode lenb in
      if flen =? 0 then (Err errShortFrame, s)
      else if maxFrameSize <? flen then (Err (errFrameCap flen), s)
      else
        match ReadFull flen s with
        | (Ok payload, s) => (decode_payload payload v, s)
        | (Err e, s) => (Err (WireIO e), s)
        | (_, s) => (Panic, s)
        end
  | (Err e, s) => (Err (WireIO e), s)
  | (_, s) => (Panic, s)
  end.

(** ** Decoding what was encoded

    [reads m bs v]: wherever the bytes [bs] come next, [m] consumes exactly them
    and returns [v]. *)
Definition rest_of (r : reader) : list Z := drop (Z.to_nat (r_off r)) (r_b r).
Definition reader_wf (r : reader) : Prop := 0 ≤ r_off r ≤ zlen (r_b r) ∧ zlen (r_b r) < 2 ^ 32.

Definition reads {A} (m : Rd A) (bs : list Z) (v : A) : Prop :=
  ∀ r s, reader_wf r → rest_of r = bs ++ s → ∃ r', m r = Ok (v, r') ∧ reader_wf r' ∧ rest_of r' = s.

Lemma reads_ret {A} (v : A) : reads (rd_ret v) [] v.
Proof. intros r s Hr Hs. by exists r. Qed.

Lemma reads_bind {A B} (m : Rd A) (f : A → Rd B) b1 b2 v1 v2 :
  reads m b1 v1 → reads (f v1) b2 v2 → reads (rd_bind m f) (b1 ++ b2) v2.
Proof.
  intros H1 H2 r s Hr Hs. rewrite <- app_assoc in Hs. destruct (H1 r _ Hr Hs) as (r1 & E & Hr1 & Hs1).
  unfold rd_bind. rewrite E. by apply H2.
Qed.

Lemma reads_last {A B} (m : Rd A) (f : A → B) b v w :
  reads m b v → f v = w → reads (x <~ m ;; rd_ret (f x)) b w.
Proof. intros H <-. rewrite <- (app_nil_r b). eapply reads_bind; [exact H|apply reads_ret]. Qed.

Lemma remaining_rest r : reader_wf r → remaining r = zlen (rest_of r).
Proof. intros [Hr _]. unfold remaining, rest_of, zlen in *. rewrite length_drop. lia. Qed.

(** Taking the next [n] bytes. *)
Lemma reader_take r bs s :
  reader_wf r → rest_of r = bs ++ s →
  slice (r_b r) (r_off r) (r_off r + zlen bs) = Some bs ∧
  reader_wf (mkReader (r_b r) (r_off r + zlen bs)) ∧ rest_of (mkReader (r_b r) (r_off r + zlen bs)) = s.
Proof.
  intros Hr Hs. pose proof (remaining_rest r Hr) as Hm. destruct Hr as [Ho Hb]. rewrite Hs, zlen_app in Hm.
  unfold remaining in Hm. pose proof (zlen_nonneg s). pose proof (zlen_nonneg bs). splits.
  - unfold slice. do 3 le_is true. cbn [andb]. unfold rest_of in Hs. rewrite Hs.
    replace (r_off r + zlen bs - r_off r) with (zlen bs) by lia. unfold zlen. by rewrite Nat2Z.id, take_app_length.
  - unfold reader_wf. cbn. lia.
  - unfold rest_of in *. cbn. rewrite Z2Nat.inj_add by lia. rewrite <- drop_drop, Hs.
    unfold zlen. by rewrite Nat2Z.id, drop_app_length.
Qed.

Lemma reads_uint n bs : length bs = n → reads (rd_uint n) bs (be_decode bs).
Proof.
  intros <- r s Hr Hs. destruct (reader_take r bs s Hr Hs) as (E & Hr' & Hs'). unfold rd_uint. fold (zlen bs).
  rewrite remaining_rest, Hs, zlen_app by done. pose proof (zlen_nonneg s). lt_is false. rewrite E. cbn. by eexists.
Qed.

Lemma reads_u8 b : reads rd_u8 [b] b.
Proof.
  intros r s Hr Hs. destruct (reader_take r [b] s Hr Hs) as (E & Hr' & Hs'). unfold rd_u8.
  rewrite remaining_rest, Hs, zlen_app by done. pose proof (zlen_nonneg s). change (zlen [b]) with 1 in *. lt_is false.
  assert (at_ (r_b r) (r_off r) = Some b) as ->.
  { unfold at_. destruct Hr as [Ho _]. le_is true. unfold rest_of in Hs.
    rewrite <- (Nat.add_0_r (Z.to_nat (r_off r))), <- lookup_drop, Hs. done. }
  cbn. by eexists.
Qed.

Lemma reads_BE n v : 0 ≤ v < 256 ^ Z.of_nat n → reads (rd_uint n) (BE n v) v.
Proof. intros Hv. rewrite <- (BE_decode n v Hv) at 2. apply reads_uint, length_BE. Qed.

Lemma reads_bytes data : zlen data < 2 ^ 32 → reads rd_bytes (BE 4 (u32 (zlen data)) ++ data) data.
Proof.
  intros Hd. pose proof (zlen_nonneg data). unfold u32. rewrite Z.mod_small by lia.
  apply reads_bind with (v1 := zlen data); [apply reads_BE; lia|].
  intros r s Hr Hs. destruct (reader_take r data s Hr Hs) as (E & Hr' & Hs').
  pose proof (remaining_rest r Hr) as Hm. rewrite Hs, zlen_app in Hm. pose proof (zlen_nonneg s).
  destruct Hr as [Ho Hb]. unfold u32. rewrite Z.mod_small by (unfold remaining in *; lia).
  lt_is false. rewrite E. cbn. by eexists.
Qed.

(** The encoders append a field each. *)
Definition enc_u16 (v : Z) : list Z := BE 2 v.
Definition enc_str (s : list Z) : list Z := BE 4 (u32 (zlen s)) ++ s.
Definition enc_strs (l : list (list Z)) : list Z := BE 2 (u16 (zlen l)) ++ concat (enc_str <$> l).

Lemma appendU16_enc b v : appendU16 b (u16 v) = b ++ BE 2 (u16 v).
Proof.
  unfold appendU16, BE, be_encode. cbn [le_encode]. f_equal. unfold u8, u16. rewrite Z.shiftr_div_pow2 by lia. done.
Qed.
Lemma appendString_enc b s : appendString b s = b ++ enc_str s.
Proof. done. Qed.
Lemma appendStringList_enc b l : appendStringList b l = b ++ enc_strs l.
Proof.
  unfold appendStringList, enc_strs. rewrite appendU16_enc, app_assoc. generalize (b ++ BE 2 (u16 (zlen l))).
  induction l as [|x l IH]; intros c; cbn; [by rewrite app_nil_r|]. rewrite IH.
  rewrite appendString_enc. by rewrite <- !app_assoc.
Qed.
Lemma foldl_appendU64 b l : foldl appendU64 b l = b ++ concat (BE 8 <$> l).
Proof.
  revert b. induction l as [|x l IH]; intros b; cbn; [by rewrite app_nil_r|]. rewrite IH.
  unfold appendU64. by rewrite <- app_assoc.
Qed.

Lemma clampU16_u16 v : u16 (clampU16 v) = clampU16 v.
Proof.
  unfold clampU16, u16. destruct (v <? 0); [done|]. destruct (65535 <? v); [done|]. by rewrite Zmod_mod.
Qed.

Lemma reads_u16_enc v : reads rd_u16 (BE 2 (u16 v)) (u16 v).
Proof. apply reads_BE. apply (Z.mod_pos_bound v (2 ^ 16)). lia. Qed.

Lemma reads_clamp v : reads rd_u16 (BE 2 (clampU16 v)) (clampU16 v).
Proof. rewrite <- clampU16_u16. apply reads_u16_enc. Qed.
Lemma reads_str s : zlen s < 2 ^ 32 → reads rd_bytes (enc_str s) s.
Proof. apply reads_bytes. Qed.

Lemma reads_times {A} (m : Rd A) (enc : A → list Z) l :
  Forall (fun x => reads m (enc x) x) l → reads (rd_times (length l) m) (concat (enc <$> l)) l.
Proof.
  induction 1 as [|x l Hx _ IH]; cbn [length rd_times concat fmap list_fmap]; [apply reads_ret|].
  eapply reads_bind; [exact Hx|]. rewrite <- (app_nil_r (concat _)).
  eapply reads_bind; [exact IH|]. apply reads_ret.
Qed.

Lemma reads_strings l :
  zlen l < 2 ^ 16 → Forall (fun s => zlen s < 2 ^ 32) l → reads rd_strings (enc_strs l) l.
Proof.
  intros Hl Hs. pose proof (zlen_nonneg l). unfold enc_strs. eapply reads_bind; [apply reads_u16_enc|].
  unfold u16. rewrite Z.mod_small by lia. destruct (Z.eqb_spec (zlen l) 0) as [Hz|_].
  - apply zlen_0 in Hz as ->. apply reads_ret.
  - unfold zlen. rewrite Nat2Z.id. apply reads_times. eapply Forall_impl; [exact Hs|]. intros s. apply reads_bytes.
Qed.

Lemma reads_u64s l : Forall (fits 64) l → reads (rd_times (length l) rd_u64) (concat (BE 8 <$> l)) l.
Proof. intros Hl. apply reads_times. eapply Forall_impl; [exact Hl|]. intros v Hv. by apply reads_BE. Qed.

(** A frame: four bytes of length, then the payload. *)
Lemma DecodeBinary_frame payload rest v :
  0 < zlen payload ≤ maxFrameSize →
  DecodeBinary (BE 4 (u32 (zlen payload)) ++ payload ++ rest) v = (decode_payload payload v, rest).
Proof.
  intros Hp. change maxFrameSize with 67108864 in *. unfold DecodeBinary. rewrite ReadFull_exact by apply zlen_BE.
  unfold u32. rewrite Z.mod_small by lia. cbv zeta. rewrite BE_decode by lia. eq_is false.
  change maxFrameSize with 67108864. lt_is false. by rewrite ReadFull_app.
Qed.

Lemma writeLengthPrefixed_ok w payload :
  zlen payload ≤ maxFrameSize → w_room w = None →
  writeLengthPrefixed w payload = (mkWriter (w_data w ++ BE 4 (u32 (zlen payload)) ++ payload) None, Ok ()).
Proof.
  intros Hp Hw. unfold writeLengthPrefixed. lt_is false. rewrite io_Write_ok by done.
  rewrite io_Write_ok by done. cbn. by rewrite <- app_assoc.
Qed.

(** What the other end gets: the fields that the mode carries, the window size
    clamped to 16 bits, the exit code as an int32. *)
Definition canonical_request (req : Request) : Request :=
  let m := Mode req in
  if bool_decide (m = ModeExec) || bool_decide (m = ModeStream) then
    mkRequest m (Command req) (clampU16 (Columns req)) (clampU16 (Rows req)) (Stdin req) (Env req) (WorkDir req) 0 0 0 0
  else if bool_decide (m = ModeMemoryHotplugGet) || bool_decide (m = ModeMemoryHotplugUpdate) then
    mkRequest m [] 0 0 [] [] [] (HotplugBaseAddr req) (HotplugTotalBytes req) (HotplugBlockBytes req) (HotplugTargetBytes req)
  else if bool_decide (m = ModeResize) then
    mkRequest m [] (clampU16 (Columns req)) (clampU16 (Rows req)) [] [] [] 0 0 0 0
  else zero_request m.
Definition canonical_response (r : Response) : Response :=
  mkResponse (OK r) (RespError r) (Stdout r) (Stderr r) (i32 (ExitCode r)) (RespMemoryStats r) (RespMemoryHotplug r).

Definition known_mode (m : string) : Prop :=
  m = ModeExec ∨ m = ModeStream ∨ m = ModeMemoryStats ∨ m = ModeMemoryHotplugGet ∨ m = ModeMemoryHotplugUpdate ∨ m = ModeResize.

Definition request_ok (req : Request) : Prop :=
  known_mode (Mode req) ∧ zlen (Command req) < 2 ^ 16 ∧ zlen (Env req) < 2 ^ 16 ∧
  fits 64 (HotplugBaseAddr req) ∧ fits 64 (HotplugTotalBytes req) ∧ fits 64 (HotplugBlockBytes req) ∧
  fits 64 (HotplugTargetBytes req) ∧
  zlen (value_or [] (mode ← modeToByte (Mode req); Ok (request_payload mode req))) ≤ maxFrameSize ∧
  zlen (Stdin req) < 2 ^ 32 ∧ zlen (WorkDir req) < 2 ^ 32 ∧
  Forall (fun s => zlen s < 2 ^ 32) (Command req) ∧ Forall (fun s => zlen s < 2 ^ 32) (Env req).
Definition response_ok (r : Response) : Prop :=
  zlen (response_payload r) ≤ maxFrameSize ∧ zlen (RespError r) < 2 ^ 32 ∧ zlen (Stdout r) < 2 ^ 32 ∧
  zlen (Stderr r) < 2 ^ 32 ∧ (∀ ms, RespMemoryStats r = Some ms → Forall (fits 64) (stats_fields ms)) ∧
  (∀ mh, RespMemoryHotplug r = Some mh → Forall (fits 64) (hotplug_fields mh)).

(** Decode the next field of a message. *)
Ltac rd_leaf :=
  first [ by apply reads_BE | by apply reads_str | by apply reads_strings | apply reads_u8 | apply reads_clamp ].
Ltac rd_field :=
  first [ eapply reads_bind; [rd_leaf|]
        | match goal with |- reads (_ <~ _ ;; rd_ret _) _ _ => eapply reads_last; [rd_leaf|reflexivity] end
        | apply reads_ret ].

(** Decoding the payload of a request from its second byte on. *)
Lemma reads_request mode req :
  request_ok req → modeToByte (Mode req) = Ok mode →
  ∃ body, request_payload mode req = mode :: body ∧ is_request_tag mode = true ∧ mode ≠ responseTag ∧
    reads (parseRequest mode) body (canonical_request req).
Proof.
  intros (Hm & Hc & He & H1 & H2 & H3 & H4 & _ & Hs & Hw & Hcs & Hes) E.
  destruct req as [m cmd cols rows stdin env wd a b c d]. cbn [Mode Command Env Columns Rows Stdin WorkDir HotplugBaseAddr
    HotplugTotalBytes HotplugBlockBytes HotplugTargetBytes] in *.
  destruct Hm as [-> |[-> |[-> |[-> |[-> | ->]]]]]; injection E as <-; unfold request_payload;
    cbn [Z.eqb Pos.eqb orb wireModeExec wireModeStream wireModeMemoryStats wireModeMemoryHotplugGet
      wireModeMemoryHotplugUpdate wireModeResize Columns Rows Stdin Command Env WorkDir HotplugBaseAddr
      HotplugTotalBytes HotplugBlockBytes HotplugTargetBytes];
    rewrite ?appendStringList_enc, ?appendString_enc, ?appendU16_enc, ?clampU16_u16; unfold appendU64;
    rewrite <- ?app_assoc; cbn [app]; eexists; (split; [reflexivity|]); (split; [done|]); (split; [done|]).
  - (* exec *) unfold parseRequest, canonical_request. cbn -[reads rd_bytes rd_u16 rd_strings BE clampU16 enc_str enc_strs]. repeat rd_field.
  - (* stream *) unfold parseRequest, canonical_request. cbn -[reads rd_bytes rd_u16 rd_strings BE clampU16 enc_str enc_strs]. repeat rd_field.
  - apply reads_ret.
  - unfold parseRequest, canonical_request. cbn -[reads rd_u64 BE]. repeat rd_field.
  - unfold parseRequest, canonical_request. cbn -[reads rd_u64 BE]. repeat rd_field.
  - unfold parseRequest, canonical_request. cbn -[reads rd_u16 BE clampU16]. repeat rd_field.
Qed.

Lemma reads_optional {A} n (mk : list Z → A) (fields : A → list Z) (o : option A) :
  (∀ a, o = Some a → Forall (fits 64) (fields a) ∧ length (fields a) = n ∧ mk (fields a) = a) →
  reads (rd_optional n mk) (match o with Some a => 1 :: concat (BE 8 <$> fields a) | None => [0] end) o.
Proof.
  intros Ho. unfold rd_optional. destruct o as [a|].
  - destruct (Ho a eq_refl) as (Hf & <- & Hmk). change (1 :: ?l) with ([1] ++ l).
    eapply reads_bind; [apply reads_u8|]. cbn -[reads rd_times]. eapply reads_last; [by apply reads_u64s|]. by rewrite Hmk.
  - rewrite <- (app_nil_r [0]). eapply reads_bind; [apply reads_u8|]. apply reads_ret.
Qed.

Lemma response_payload_enc r :
  response_payload r = responseTag :: [boolZ (OK r)] ++ BE 4 (u32 (i32 (ExitCode r))) ++ enc_str (Stdout r) ++
    enc_str (Stderr r) ++ enc_str (RespError r) ++
    (match RespMemoryStats r with Some a => 1 :: concat (BE 8 <$> stats_fields a) | None => [0] end) ++
    (match RespMemoryHotplug r with Some a => 1 :: concat (BE 8 <$> hotplug_fields a) | None => [0] end).
Proof.
  unfold response_payload, appendI32. rewrite !appendString_enc. destruct (RespMemoryStats r), (RespMemoryHotplug r);
    rewrite ?foldl_appendU64, <- ?app_assoc; done.
Qed.

Lemma reads_response r :
  response_ok r →
  ∃ body, response_payload r = responseTag :: body ∧ reads (parseResponse zero_response) body (canonical_response r).
Proof.
  intros (_ & He & Ho & Hr & Hms & Hmh). rewrite response_payload_enc. eexists. split; [reflexivity|].
  unfold parseResponse. eapply reads_bind; [apply reads_u8|].
  eapply reads_bind; [eapply reads_last; [|reflexivity]; apply reads_BE|].
  { apply (Z.mod_pos_bound _ (2 ^ 32)). lia. }
  do 3 (eapply reads_bind; [by apply reads_str|]).
  eapply reads_bind; [apply reads_optional; intros ms E; destruct ms; split; [by apply Hms|done]|].
  eapply reads_last; [apply reads_optional; intros mh E; destruct mh; split; [by apply Hmh|done]|].
  destruct r as [ok e so se ec ms mh]. unfold canonical_response. cbn [OK RespError Stdout Stderr ExitCode RespMemoryStats RespMemoryHotplug zero_response].
  rewrite i32_u32, i32_i32. by destruct ok, ms, mh.
Qed.

Lemma reads_run {A} (m : Rd A) body v : reads m body v → zlen body < 2 ^ 32 → ∃ r', m (mkReader body 0) = Ok (v, r').
Proof.
  intros Hm Hb. destruct (Hm (mkReader body 0) []) as (r' & E & _).
  - split; [cbn; pose proof (zlen_nonneg body); lia|done].
  - unfold rest_of. cbn. by rewrite app_nil_r.
  - by exists r'.
Qed.

(** What may be sent, and into what it is decoded. *)
Definition sendable (v : wire_value) : Prop :=
  match v with VRequest req => request_ok req | VResponse resp => response_ok resp end.
Definition canonical (v : wire_value) : wire_value :=
  match v with VRequest req => VRequest (canonical_request req) | VResponse resp => VResponse (canonical_response resp) end.
Definition fresh_target (v : wire_value) : wire_value :=
  match v with VRequest _ => VRequest (zero_request "") | VResponse _ => VResponse zero_response end.

(** C28: the guest exec protocol is lossless. Encoding a request with a known
    mode, or a response, whose frame fits the 64 MiB cap and whose lists have at
    most 65535 elements, succeeds, and decoding the stream consumes exactly that
    frame and gives back the message: the fields that its mode carries, the
    window size clamped to 16 bits, the exit code as an int32. *)
Theorem wire_roundtrip v rest :
  sendable v →
  ∃ frame, EncodeBinary open_writer v = (mkWriter frame None, Ok ()) ∧
    DecodeBinary (frame ++ rest) (fresh_target v) = (Ok (canonical v), rest).
Proof.
  intros Hv. assert (∃ tag body, (match v with VRequest req => (m ← modeToByte (Mode req); Ok (request_payload m req))
      | VResponse r => Ok (response_payload r) end) = Ok (tag :: body) ∧ zlen (tag :: body) ≤ maxFrameSize ∧
      decode_payload (tag :: body) (fresh_target v) = Ok (canonical v)) as (tag & body & Hp & Hz & Hd).
  { destruct v as [req|r]; cbn [sendable] in Hv.
    - pose proof Hv as (Hm & _ & _ & _ & _ & _ & _ & Hz & _).
      assert (∃ m, modeToByte (Mode req) = Ok m) as [m Em].
      { destruct Hm as [-> |[-> |[-> |[-> |[-> | ->]]]]]; eexists; reflexivity. }
      destruct (reads_request m req Hv Em) as (body & Hb & Ht & Hn & Hr). exists m, body. rewrite Em in *. cbn in *.
      rewrite Hb in *. split; [done|]. split; [done|]. apply Z.eqb_neq in Hn. rewrite Hn, Ht.
      destruct (reads_run _ _ _ Hr) as [r' ->]; [|done]. change maxFrameSize with 67108864 in *. rewrite zlen_cons in Hz. lia.
    - destruct (reads_response r Hv) as (body & Hb & Hr). exists responseTag, body. cbn. rewrite Hb in *.
      destruct Hv as (Hz & _). rewrite Hb in Hz. split; [done|]. split; [done|].
      destruct (reads_run _ _ _ Hr) as [r' ->]; [|done]. change maxFrameSize with 67108864 in *. rewrite zlen_cons in Hz. lia. }
  exists (BE 4 (u32 (zlen (tag :: body))) ++ tag :: body). split.
  - destruct v as [req|r]; cbn [EncodeBinary writeRequestFrame writeResponseFrame] in *.
    + unfold writeRequestFrame. destruct (modeToByte (Mode req)); cbn in Hp; [|done..]. injection Hp as ->.
      by rewrite writeLengthPrefixed_ok.
    + injection Hp as Hp. unfold writeResponseFrame. rewrite Hp. by rewrite writeLengthPrefixed_ok.
  - rewrite <- app_assoc. rewrite DecodeBinary_frame; [by rewrite Hd|]. rewrite zlen_cons in *. pose proof (zlen_nonneg body). lia.
Qed.

Definition sample_request : Request := mkRequest ModeExec [[108; 115]; [45; 108]] 80 70000 [104; 105] [[65; 61; 98]] [47] 5 6 7 8.

Lemma wire_roundtrip_witness :
  ∃ frame, EncodeBinary open_writer (VRequest sample_request) = (mkWriter frame None, Ok ()) ∧
    DecodeBinary (frame ++ [9]) (fresh_target (VRequest sample_request)) =
      (Ok (VRequest (mkRequest ModeExec [[108; 115]; [45; 108]] 80 65535 [104; 105] [[65; 61; 98]] [47] 0 0 0 0)), [9]).
Proof.
  apply (wire_roundtrip (VRequest sample_request) [9]). split; [by left|]. unfold fits.
  apply (bool_decide_unpack _). vm_compute. exact I.
Defined.

(** ** Decoding arbitrary bytes *)
Definition rd_safe {A} (m : Rd A) : Prop :=
  ∀ r, reader_wf r → bytes (r_b r) → res_sat (fun '(_, r') => reader_wf r' ∧ r_b r' = r_b r) (m r).

Lemma rd_safe_ret {A} (a : A) : rd_safe (rd_ret a).
Proof. by intros r Hr Hb. Qed.
Lemma rd_safe_bind {A B} (m : Rd A) (f : A → Rd B) : rd_safe m → (∀ a, rd_safe (f a)) → rd_safe (rd_bind m f).
Proof.
  intros Hm Hf r Hr Hb. specialize (Hm r Hr Hb). unfold rd_bind. destruct (m r) as [[a r1]|e| |]; try done.
  destruct Hm as [Hr1 E]. specialize (Hf a r1 Hr1 ltac:(by rewrite E)).
  destruct (f a r1) as [[b r2]|e| |]; try done. cbn in *. destruct Hf. split; congruence.
Qed.
Lemma rd_safe_uint n : rd_safe (rd_uint n).
Proof.
  intros r [Hr Hl] Hb. unfold rd_uint, remaining. destruct (Z.ltb_spec (zlen (r_b r) - r_off r) (Z.of_nat n)); [done|].
  destruct (slice_ok (r_b r) (r_off r) (r_off r + Z.of_nat n)) as [bs ->]; [lia..|]. cbn. split; [|done].
  unfold reader_wf. cbn. lia.
Qed.
Lemma rd_safe_u8 : rd_safe rd_u8.
Proof.
  intros r [Hr Hl] Hb. unfold rd_u8, remaining. destruct (Z.ltb_spec (zlen (r_b r) - r_off r) 1); [done|].
  destruct (at_ok (r_b r) (r_off r)) as [b ->]; [lia|]. cbn. split; [|done]. unfold reader_wf. cbn. lia.
Qed.

(** The announced length is checked before the slice is taken; it is not
    negative because the bytes are. *)
Lemma rd_uint_fits n r v r' : bytes (r_b r) → rd_uint n r = Ok (v, r') → 0 ≤ v.
Proof.
  intros Hb. unfold rd_uint. destruct (_ <? _); [done|]. destruct (slice _ _ _) as [bs|] eqn:E; [|done].
  intros [= <- _]. unfold be_decode. apply le_decode_bound. unfold bytes. rewrite Forall_reverse. by eapply bytes_slice.
Qed.
Lemma rd_safe_bytes : rd_safe rd_bytes.
Proof.
  intros r Hr Hb. pose proof (rd_safe_uint 4 r Hr Hb) as Hs. unfold rd_bytes, rd_bind.
  destruct (rd_u32 r) as [[n r1]|e| |] eqn:E; try done; [|by unfold rd_u32 in E; rewrite E in Hs..].
  unfold rd_u32 in E. pose proof (rd_uint_fits _ _ _ _ Hb E). rewrite E in Hs. destruct Hs as [[Ho Hl] Eb].
  unfold remaining, u32. rewrite Z.mod_small by lia. destruct (Z.ltb_spec (zlen (r_b r1) - r_off r1) n); [done|].
  destruct (slice_ok (r_b r1) (r_off r1) (r_off r1 + n)) as [bs ->]; [lia..|]. cbn. split; [|done].
  unfold reader_wf. cbn. lia.
Qed.
Lemma rd_safe_times {A} n (m : Rd A) : rd_safe m → rd_safe (rd_times n m).
Proof. intros Hm. induction n; cbn; [apply rd_safe_ret|]. by repeat (apply rd_safe_bind; [done|intros]). Qed.
Lemma rd_safe_strings : rd_safe rd_strings.
Proof.
  apply rd_safe_bind; [apply rd_safe_uint|]. intros n. destruct (n =? 0); [apply rd_safe_ret|apply rd_safe_times, rd_safe_bytes].
Qed.
Lemma rd_safe_optional {A} n (mk : list Z → A) : rd_safe (rd_optional n mk).
Proof. apply rd_safe_bind; [apply rd_safe_u8|]. intros a. destruct (negb (a =? 0)); [|apply rd_safe_ret]. 
  apply rd_safe_bind; [apply rd_safe_times, rd_safe_uint|intros; apply rd_safe_ret]. Qed.

(** Every step of a decoder is one of the primitives above. *)
Ltac rd_safety :=
  repeat first [ apply rd_safe_ret | apply rd_safe_uint | apply rd_safe_u8 | apply rd_safe_bytes | apply rd_safe_strings
               | apply rd_safe_optional | apply rd_safe_bind; [|intros ?] ].

Lemma parseRequest_safe tag : rd_safe (parseRequest tag).
Proof. unfold parseRequest. repeat case_match; rd_safety. Qed.
Lemma parseResponse_safe resp : rd_safe (parseResponse resp).
Proof. unfold parseResponse, rd_i32. rd_safety. Qed.

Lemma decode_payload_safe payload v :
  bytes payload → 0 < zlen payload < 2 ^ 32 → completes (decode_payload payload v).
Proof.
  intros Hb Hl. destruct payload as [|tag body]; [by destruct Hl|]. apply Forall_cons in Hb as [_ Hb]. rewrite zlen_cons in Hl.
  assert (reader_wf (mkReader body 0)) as Hr by (unfold reader_wf; cbn; pose proof (zlen_nonneg body); lia).
  cbn. destruct (tag =? responseTag).
  - destruct v as [|resp]; [done|]. pose proof (parseResponse_safe resp _ Hr Hb).
    by destruct (parseResponse resp (mkReader body 0)) as [[? ?]|?| |].
  - destruct (is_request_tag tag); [|done]. destruct v; [|done]. pose proof (parseRequest_safe tag _ Hr Hb).
    by destruct (parseRequest tag (mkReader body 0)) as [[? ?]|?| |].
Qed.

(** A stream starts with a whole frame, or decoding it is an error. *)
Lemma DecodeBinary_cases s v :
  bytes s →
  (∃ e rest, DecodeBinary s v = (Err e, rest)) ∨
  ∃ payload rest, s = BE 4 (zlen payload) ++ payload ++ rest ∧ 0 < zlen payload ≤ maxFrameSize ∧
    DecodeBinary s v = (decode_payload payload v, rest).
Proof.
  intros Hb. unfold DecodeBinary. destruct (ReadFull 4 s) as [[lenb|e| |] s1] eqn:E; [|eauto|by unfold ReadFull in E; repeat case_match..].
  destruct (ReadFull_Ok 4 s lenb s1) as [-> Hl]; [done|done|]. apply Forall_app in Hb as [Hbl Hb]. cbv zeta.
  destruct (Z.eqb_spec (be_decode lenb) 0) as [|Hz]; [eauto|].
  destruct (Z.ltb_spec maxFrameSize (be_decode lenb)) as [|Hc]; [eauto|].
  assert (0 ≤ be_decode lenb) by (unfold be_decode; apply le_decode_bound; unfold bytes; by rewrite Forall_reverse).
  destruct (ReadFull (be_decode lenb) s1) as [[p|e| |] s2] eqn:E2; [|eauto|by unfold ReadFull in E2; repeat case_match..].
  destruct (ReadFull_Ok (be_decode lenb) s1 p s2) as [-> Hp]; [done|done|].
  right. exists p, s2. split; [|split; [lia|done]]. f_equal. rewrite Hp. symmetry. by apply BE_of_decode.
Qed.

(** Decoding is safe on any input. Whatever bytes the peer sends, the
    decoder returns a message or an error, without an index out of range; a frame
    that announces more than 64 MiB is refused before anything is allocated for
    it; and a decoded frame was a prefix of the stream, of the announced length. *)
Theorem DecodeBinary_safe s v :
  bytes s →
  completes (DecodeBinary s v).1 ∧
  (∀ n body, s = BE 4 n ++ body → maxFrameSize < n < 2 ^ 32 → DecodeBinary s v = (Err (errFrameCap n), body)) ∧
  (∀ v' rest, DecodeBinary s v = (Ok v', rest) →
    ∃ payload, s = BE 4 (zlen payload) ++ payload ++ rest ∧ 0 < zlen payload ≤ maxFrameSize).
Proof.
  intros Hb. splits.
  - destruct (DecodeBinary_cases s v Hb) as [(e & rest & ->)|(p & rest & -> & Hp & ->)]; [done|].
    apply Forall_app in Hb as [_ Hb]. apply Forall_app in Hb as [Hb _]. apply decode_payload_safe; [done|].
    change maxFrameSize with 67108864 in *. lia.
  - intros n body -> Hn. change maxFrameSize with 67108864 in *. unfold DecodeBinary.
    rewrite ReadFull_exact by apply zlen_BE. rewrite BE_decode by lia. cbv zeta. eq_is false.
    change maxFrameSize with 67108864. by lt_is true.
  - intros v' rest' E. destruct (DecodeBinary_cases s v Hb) as [(e & rest & Hd)|(p & rest & -> & Hp & Hd)].
    + by rewrite Hd in E.
    + rewrite Hd in E. injection E as _ <-. by exists p.
Qed.

Lemma DecodeBinary_safe_witness :
  completes (DecodeBinary [0; 0; 0; 3; 1; 0; 80] (VRequest (zero_request ""))).1.
Proof.
  apply (DecodeBinary_safe [0; 0; 0; 3; 1; 0; 80] (VRequest (zero_request ""))).
  repeat constructor; unfold is_byte; lia.
Defined.

(** A list of 65536 strings is encoded with the count 0, and read back as the
    empty list, with the strings left in front of the next field. *)
Lemma string_count_wraps l :
  zlen l = 65536 → enc_strs l = [0; 0] ++ concat (enc_str <$> l) ∧ reads rd_strings [0; 0] [].
Proof.
  intros Hl. split; [unfold enc_strs; by rewrite Hl|]. change [0; 0] with (enc_strs []). by apply reads_strings.
Qed.

(** A response decoded into one that was used before keeps the statistics of the
    earlier one when it carries none. *)
Lemma stale_stats resp old r r' :
  parseResponse old r = Ok (resp, r') → RespMemoryStats old ≠ None → RespMemoryStats resp ≠ None.
Proof.
  intros H Ho. unfold parseResponse, rd_bind in H.
  repeat match type of H with
  | match ?m with _ => _ end = _ => destruct m as [[? ?]|?| |]; try discriminate H
  end. injection H as <- _. cbn. by case_match.
Qed.
