(* ===== verification/Seccomp.v ===== *)
(** * System-call filters

    The seccomp profiles of src/internal/seccomp/seccomp_linux_amd64.go and
    seccomp_linux_arm64.go: the allowed system calls of the three thread kinds,
    and the classic BPF program that is built from a list of them.  System calls
    are named as in the kernel; their numbers come from golang.org/x/sys/unix and
    are a parameter, as is the kernel's BPF machine, of which the class
    [BPFMachine] states the documented behaviour of the three instructions that
    the programs use. *)
From stdpp Require Import sorting.
From S2P Require Import Prelude.

(** ** Programs *)
Record SockFilter := mkSockFilter { f_Code : Z; f_Jt : Z; f_Jf : Z; f_K : Z }.
Definition stmt (code k : Z) : SockFilter := mkSockFilter code 0 0 k.
Definition jump (code k jt jf : Z) : SockFilter := mkSockFilter code jt jf k.

(** Constants of linux/bpf_common.h, linux/seccomp.h and linux/audit.h. *)
Definition LD_W_ABS : Z := 0x20.
Definition JMP_JEQ_K : Z := 0x15.
Definition RET_K : Z := 0x06.
Definition SECCOMP_RET_KILL_PROCESS : Z := 0x80000000.
Definition SECCOMP_RET_ALLOW : Z := 0x7fff0000.
Definition AUDIT_ARCH_X86_64 : Z := 0xC000003E.
Definition AUDIT_ARCH_AARCH64 : Z := 0xC00000B7.

Definition seccompDataNR : Z := 0.
Definition seccompDataArch : Z := 4.

Definition uniqueSorted (syscalls : list Z) : list Z :=
  merge_sort Z.le
    (foldl (fun out nr => if bool_decide (nr ∈ out) then out else out ++ [nr]) [] syscalls).

Inductive seccomp_err := ProfileEmpty | PrctlFailed | InstallFailed.

(** One allowed system call: fall through to ALLOW when it matches. *)
Definition allow_one (nr : Z) : list SockFilter := [jump JMP_JEQ_K (u32 nr) 0 1; stmt RET_K SECCOMP_RET_ALLOW].

Definition buildProgram (arch : Z) (syscalls : list Z) : res seccomp_err (list SockFilter) :=
  let allowed := uniqueSorted syscalls in
  if zlen allowed =? 0 then Err ProfileEmpty
  else
    Ok ([stmt LD_W_ABS seccompDataArch; jump JMP_JEQ_K arch 1 0; stmt RET_K SECCOMP_RET_KILL_PROCESS;
         stmt LD_W_ABS seccompDataNR] ++
        concat (allow_one <$> allowed) ++ [stmt RET_K SECCOMP_RET_KILL_PROCESS]).

(** ** Profiles *)
Inductive Profile := ProfileAPI | ProfileVMM | ProfileVCPU.

Definition union_calls {A} (groups : list (list A)) : list A := concat groups.

(** The five groups of an architecture. *)
Record groups := mkGroups { g_runtime : list string; g_file : list string; g_net : list string; g_vm : list string; g_vcpu : list string }.

Definition profileSyscalls (g : groups) (p : Profile) : list string :=
  match p with
  | ProfileAPI => union_calls [g_runtime g; g_file g; g_net g]
  | ProfileVMM => union_calls [g_runtime g; g_file g; g_net g; g_vm g]
  | ProfileVCPU => union_calls [g_runtime g; g_file g; g_net g; g_vcpu g]
  end.

(** What [InstallWorkerProcessProfile] installs. *)
Definition workerSyscalls (g : groups) : list string :=
  union_calls [profileSyscalls g ProfileAPI; profileSyscalls g ProfileVMM].

Module Amd64.
Definition runtimeSyscalls : list string :=
  ["read"; "write"; "readv"; "writev"; "close"; "fstat"; "newfstatat"; "statx"; "lseek"; "ioctl"; "mmap";
   "mprotect"; "munmap"; "brk"; "rt_sigaction"; "rt_sigprocmask"; "rt_sigreturn"; "sigaltstack"; "pread64";
   "pwrite64"; "access"; "faccessat"; "faccessat2"; "pipe"; "pipe2"; "dup"; "dup2"; "dup3"; "nanosleep";
   "setitimer"; "clock_gettime"; "clock_nanosleep"; "sched_yield"; "sched_getaffinity"; "mremap"; "msync";
   "mincore"; "madvise"; "futex"; "set_tid_address"; "set_robust_list"; "getpid"; "gettid"; "kill"; "tgkill";
   "arch_prctl"; "prctl"; "seccomp"; "getrlimit"; "prlimit64"; "getrandom"; "getcpu"; "uname"; "sysinfo";
   "epoll_create1"; "epoll_ctl"; "epoll_wait"; "epoll_pwait"; "ppoll"; "eventfd2"; "timer_create";
   "timer_settime"; "timer_delete"; "clone"; "clone3"; "membarrier"; "exit"; "exit_group"; "getuid";
   "getgid"; "geteuid"; "getegid"; "rseq"; "restart_syscall"; "wait4"; "waitid"; "pidfd_open";
   "process_vm_readv"].
Definition fileSyscalls : list string :=
  ["openat"; "getcwd"; "readlinkat"; "fcntl"; "fsync"; "fdatasync"; "ftruncate"; "fallocate"; "mkdirat";
   "unlinkat"; "renameat"; "renameat2"; "syncfs"; "copy_file_range"; "linkat"; "fchmodat"].
Definition netSyscalls : list string :=
  ["socket"; "connect"; "accept"; "accept4"; "sendto"; "recvfrom"; "sendmsg"; "recvmsg"; "shutdown"; "bind";
   "listen"; "getsockname"; "getpeername"; "setsockopt"; "getsockopt"; "socketpair"].
Definition vmSyscalls : list string :=
  ["memfd_create"].
Definition vcpuSyscalls : list string :=
  ["ioctl"].
Definition calls : groups := mkGroups runtimeSyscalls fileSyscalls netSyscalls vmSyscalls vcpuSyscalls.
End Amd64.

Module Arm64.
Definition runtimeSyscalls : list string :=
  ["read"; "write"; "readv"; "writev"; "close"; "fstat"; "newfstatat"; "statx"; "lseek"; "ioctl"; "mmap";
   "mprotect"; "munmap"; "brk"; "rt_sigaction"; "rt_sigprocmask"; "rt_sigreturn"; "sigaltstack"; "pread64";
   "pwrite64"; "faccessat"; "faccessat2"; "pipe2"; "dup"; "dup3"; "nanosleep"; "setitimer"; "clock_gettime";
   "clock_nanosleep"; "sched_yield"; "sched_getaffinity"; "mremap"; "msync"; "mincore"; "madvise"; "futex";
   "set_tid_address"; "set_robust_list"; "getpid"; "gettid"; "kill"; "tgkill"; "prctl"; "seccomp";
   "getrlimit"; "prlimit64"; "getrandom"; "getcpu"; "uname"; "sysinfo"; "epoll_create1"; "epoll_ctl";
   "epoll_pwait"; "ppoll"; "eventfd2"; "timer_create"; "timer_settime"; "timer_delete"; "clone"; "clone3";
   "membarrier"; "exit"; "exit_group"; "getuid"; "getgid"; "geteuid"; "getegid"; "rseq"; "restart_syscall";
   "wait4"; "waitid"; "pidfd_open"; "process_vm_readv"].
Definition fileSyscalls : list string :=
  ["openat"; "getcwd"; "readlinkat"; "fcntl"; "fsync"; "fdatasync"; "ftruncate"; "fallocate"; "mkdirat";
   "unlinkat"; "renameat"; "renameat2"; "syncfs"; "copy_file_range"; "linkat"; "fchmodat"].
Definition netSyscalls : list string :=
  ["socket"; "connect"; "accept"; "accept4"; "sendto"; "recvfrom"; "sendmsg"; "recvmsg"; "shutdown"; "bind";
   "listen"; "getsockname"; "getpeername"; "setsockopt"; "getsockopt"; "socketpair"].
Definition vmSyscalls : list string :=
  ["memfd_create"].
Definition vcpuSyscalls : list string :=
  ["ioctl"; "ppoll"].
Definition calls : groups := mkGroups runtimeSyscalls fileSyscalls netSyscalls vmSyscalls vcpuSyscalls.
End Arm64.

(** ** Installation

    The results of the two system calls are arguments; the value is the program
    that the kernel was given, with the length of [SockFprog]. *)
Definition installProfile (arch : Z) (prctl_ok seccomp_ok : bool) (syscalls : list Z) :
    res seccomp_err (list SockFilter * Z) :=
  filters ← buildProgram arch syscalls;
  if negb prctl_ok then Err PrctlFailed
  else if negb seccomp_ok then Err InstallFailed
  else Ok (filters, u16 (zlen filters)).

Definition InstallThreadProfile (disabled : bool) (arch : Z) (g : groups) (sys : string → Z) (prctl_ok seccomp_ok : bool)
    (p : Profile) : res seccomp_err (option (list SockFilter * Z)) :=
  if disabled then Ok None
  else f ← installProfile arch prctl_ok seccomp_ok (sys <$> profileSyscalls g p); Ok (Some f).
Definition InstallWorkerProcessProfile (disabled : bool) (arch : Z) (g : groups) (sys : string → Z)
    (prctl_ok seccomp_ok : bool) : res seccomp_err (option (list SockFilter * Z)) :=
  if disabled then Ok None
  else f ← installProfile arch prctl_ok seccomp_ok (sys <$> workerSyscalls g); Ok (Some f).
Definition ProfileProgram (arch : Z) (g : groups) (sys : string → Z) (p : Profile) : res seccomp_err (list SockFilter) :=
  buildProgram arch (sys <$> profileSyscalls g p).

(** ** The kernel's machine

    [bpf_run prog pc acc d] is the verdict of [prog] from instruction [pc] with
    accumulator [acc] on the words [d] of seccomp_data. *)
Class BPFMachine := {
  bpf_run : list SockFilter → nat → Z → (Z → Z) → option Z;
  bpf_ld prog pc acc d k :
    prog !! pc = Some (stmt LD_W_ABS k) → bpf_run prog pc acc d = bpf_run prog (S pc) (d k) d;
  bpf_jeq prog pc acc d k jt jf :
    prog !! pc = Some (jump JMP_JEQ_K k jt jf) →
    bpf_run prog pc acc d = bpf_run prog (S pc + Z.to_nat (if acc =? k then jt else jf)) acc d;
  bpf_ret prog pc acc d k : prog !! pc = Some (stmt RET_K k) → bpf_run prog pc acc d = Some k
}.

(** An implementation of the class: every jump is forward, so that as many steps
    as there are instructions are enough. *)
Fixpoint bpf_steps (fuel : nat) (prog : list SockFilter) (acc : Z) (d : Z → Z) : option Z :=
  match fuel, prog with
  | S fuel, i :: rest =>
      if f_Code i =? RET_K then Some (f_K i)
      else if f_Code i =? LD_W_ABS then bpf_steps fuel rest (d (f_K i)) d
      else if f_Code i =? JMP_JEQ_K then
        bpf_steps fuel (drop (Z.to_nat (if acc =? f_K i then f_Jt i else f_Jf i)) rest) acc d
      else None
  | _, _ => None
  end.

Lemma bpf_steps_fuel f1 f2 prog acc d :
  (length prog ≤ f1)%nat → (length prog ≤ f2)%nat → bpf_steps f1 prog acc d = bpf_steps f2 prog acc d.
Proof.
  revert f2 prog acc. induction f1 as [|f1 IH]; intros f2 prog acc H1 H2; destruct prog as [|i rest]; cbn in H1; try lia.
  - by destruct f2.
  - by destruct f2.
  - destruct f2 as [|f2]; cbn in H2; [lia|]. cbn. repeat (case_match; [done || (apply IH; lia)|]).
    case_match; [|done]. apply IH; rewrite length_drop; lia.
Qed.

#[refine] Instance classic_bpf : BPFMachine := {|
  bpf_run prog pc acc d := bpf_steps (length (drop pc prog)) (drop pc prog) acc d
|}.
Proof.
  - intros prog pc acc d k H. rewrite (drop_S _ _ _ H). done.
  - intros prog pc acc d k jt jf H. rewrite (drop_S _ _ _ H). cbn -[Z.to_nat]. rewrite drop_drop.
    apply bpf_steps_fuel; rewrite !length_drop; lia.
  - intros prog pc acc d k H. by rewrite (drop_S _ _ _ H).
Defined.

(** ** What a program allows *)
Section verdict.
Context `{BPFMachine}.

(** Comparing the number with each entry in turn. *)
Lemma run_allow prog pre l nr d :
  prog = pre ++ concat (allow_one <$> l) ++ [stmt RET_K SECCOMP_RET_KILL_PROCESS] →
  bpf_run prog (length pre) nr d =
  Some (if bool_decide (nr ∈ u32 <$> l) then SECCOMP_RET_ALLOW else SECCOMP_RET_KILL_PROCESS).
Proof.
  revert pre. induction l as [|a l IH]; intros pre Hp.
  { apply bpf_ret. rewrite Hp, lookup_app_r, Nat.sub_diag by lia. done. }
  rewrite (bpf_jeq prog (length pre) nr d (u32 a) 0 1)
    by (rewrite Hp, lookup_app_r, Nat.sub_diag by lia; done).
  destruct (Z.eqb_spec nr (u32 a)) as [->|Hne].
  - rewrite (bpf_ret prog _ _ _ SECCOMP_RET_ALLOW).
    + rewrite bool_decide_true; [done|]. apply list_elem_of_fmap. exists a. split; [done|]. apply list_elem_of_here.
    + rewrite Hp, lookup_app_r by lia. cbn [Z.to_nat]. rewrite Nat.add_0_r. by replace (S (length pre) - length pre)%nat with 1%nat by lia.
  - specialize (IH (pre ++ allow_one a)). replace (S (length pre) + Z.to_nat 1)%nat with (length (pre ++ allow_one a)).
    + rewrite IH by (rewrite Hp, <- app_assoc; cbn; by rewrite <- ?app_assoc). f_equal. rewrite fmap_cons.
      erewrite bool_decide_ext; [reflexivity|]. rewrite elem_of_cons. naive_solver.
    + rewrite length_app. cbn. lia.
Qed.

Lemma uniqueSorted_fold (syscalls acc : list Z) :
  NoDup acc →
  let out := foldl (fun out nr => if bool_decide (nr ∈ out) then out else out ++ [nr]) acc syscalls in
  NoDup out ∧ (∀ n, n ∈ out ↔ n ∈ acc ∨ n ∈ syscalls).
Proof.
  revert acc. induction syscalls as [|s l IH]; intros acc Ha; cbn.
  { split; [done|]. set_solver. }
  case_bool_decide as Hin.
  - destruct (IH acc Ha) as [H1 H2]. split; [done|]. intros n. rewrite H2. set_solver.
  - destruct (IH (acc ++ [s])) as [H1 H2].
    + apply NoDup_app. split; [done|]. split; [set_solver|]. apply NoDup_singleton.
    + split; [done|]. intros n. rewrite H2. set_solver.
Qed.

Lemma uniqueSorted_spec syscalls :
  NoDup (uniqueSorted syscalls) ∧ Sorted Z.le (uniqueSorted syscalls) ∧
  ∀ n, n ∈ uniqueSorted syscalls ↔ n ∈ syscalls.
Proof.
  unfold uniqueSorted. destruct (uniqueSorted_fold syscalls [] (NoDup_nil_2)) as [H1 H2].
  set (out := foldl _ _ _) in *. splits.
  - by rewrite merge_sort_Permutation.
  - apply Sorted_merge_sort. intros x y. lia.
  - intros n. rewrite merge_sort_Permutation, H2. set_solver.
Qed.

(** The verdict of a built program on a system call. *)
Lemma buildProgram_verdict arch syscalls prog d :
  buildProgram arch syscalls = Ok prog →
  bpf_run prog 0 0 d =
  Some (if bool_decide (d seccompDataArch = arch ∧ d seccompDataNR ∈ u32 <$> syscalls)
        then SECCOMP_RET_ALLOW else SECCOMP_RET_KILL_PROCESS).
Proof.
  unfold buildProgram. destruct (_ =? _); [done|]. intros [= Hp]. symmetry in Hp.
  set (l := uniqueSorted syscalls) in *.
  rewrite (bpf_ld prog 0 0 d seccompDataArch) by (by rewrite Hp).
  rewrite (bpf_jeq prog 1 _ d arch 1 0) by (by rewrite Hp).
  destruct (Z.eqb_spec (d seccompDataArch) arch) as [Ha|Ha].
  - change (2 + Z.to_nat 1)%nat with 3%nat. rewrite (bpf_ld prog 3 _ d seccompDataNR) by (by rewrite Hp).
    pose proof (run_allow prog [stmt LD_W_ABS seccompDataArch; jump JMP_JEQ_K arch 1 0; stmt RET_K SECCOMP_RET_KILL_PROCESS;
      stmt LD_W_ABS seccompDataNR] l (d seccompDataNR) d ltac:(by rewrite Hp)) as Hrun.
    cbn [length] in Hrun. rewrite Hrun. f_equal. erewrite bool_decide_ext; [reflexivity|]. rewrite !list_elem_of_fmap.
    assert (∀ n, n ∈ l ↔ n ∈ syscalls) as Hl by apply uniqueSorted_spec. setoid_rewrite Hl. naive_solver.
  - change (2 + Z.to_nat 0)%nat with 2%nat. rewrite (bpf_ret prog 2 _ d SECCOMP_RET_KILL_PROCESS) by (by rewrite Hp).
    rewrite bool_decide_false; [done|]. naive_solver.
Qed.
End verdict.

(** ** Properties *)

(** System calls that no profile should grant. *)
Definition privileged : list string :=
  ["execve"; "execveat"; "ptrace"; "process_vm_writev"; "mount"; "umount2"; "pivot_root"; "chroot"; "setns"; "unshare";
   "init_module"; "finit_module"; "delete_module"; "kexec_load"; "bpf"; "perf_event_open"; "reboot"; "swapon";
   "open_by_handle_at"; "io_uring_setup"; "userfaultfd"; "keyctl"; "setuid"; "setgid"; "capset"].

Inductive target := TAmd64 | TArm64.
Definition target_arch (t : target) : Z := match t with TAmd64 => AUDIT_ARCH_X86_64 | TArm64 => AUDIT_ARCH_AARCH64 end.
Definition target_calls (t : target) : groups := match t with TAmd64 => Amd64.calls | TArm64 => Arm64.calls end.

(** The number table of the system: 32-bit numbers, different for different calls. *)
Definition number_table (sys : string → Z) (names : list string) : Prop :=
  (∀ n, n ∈ names → fits 32 (sys n)) ∧ (∀ a b, a ∈ names → b ∈ names → sys a = sys b → a = b).

Lemma privileged_not_allowed t p n : n ∈ privileged → n ∉ profileSyscalls (target_calls t) p.
Proof.
  intros Hn Hp. assert (Forall (fun n => n ∉ profileSyscalls (target_calls t) p) privileged) as Hall.
  { destruct t, p; apply (bool_decide_unpack _); vm_compute; exact I. }
  rewrite Forall_forall in Hall. by apply (Hall n).
Qed.

Lemma zlen_allows l : zlen (concat (allow_one <$> l)) = 2 * zlen l.
Proof. induction l as [|a l IH]; [done|]. rewrite fmap_cons. cbn [concat]. rewrite zlen_app, IH, zlen_cons. change (zlen (allow_one a)) with 2. lia. Qed.

Lemma zlen_uniqueSorted l : zlen (uniqueSorted l) ≤ zlen l.
Proof.
  destruct (uniqueSorted_spec l) as (Hn & _ & Hin). unfold zlen. apply inj_le, submseteq_length, NoDup_submseteq; [done|].
  intros x. apply Hin.
Qed.

Lemma buildProgram_length arch l prog : buildProgram arch l = Ok prog → zlen prog ≤ 5 + 2 * zlen l.
Proof.
  unfold buildProgram. destruct (_ =? _); [done|]. intros [= <-].
  rewrite !zlen_cons, zlen_app, zlen_allows, zlen_cons, zlen_nil. pose proof (zlen_uniqueSorted l). lia.
Qed.

Lemma buildProgram_ok arch l : l ≠ [] → ∃ prog, buildProgram arch l = Ok prog.
Proof.
  intros Hl. unfold buildProgram. destruct (Z.eqb_spec (zlen (uniqueSorted l)) 0) as [Hz|]; [|eauto].
  apply zlen_0 in Hz. destruct l as [|x l]; [done|]. destruct (uniqueSorted_spec (x :: l)) as (_ & _ & Hin).
  specialize (Hin x). rewrite Hz in Hin. set_solver.
Qed.

(** C25: a thread's filter is exactly its profile. On both architectures, for
    every profile and every kernel machine with the documented instructions, the
    program is built, fits the kernel's limit of 4096 instructions (so that its
    16-bit length is exact), and on every system call gives ALLOW when the
    architecture is the filter's and the number is that of a call of the profile,
    and KILL otherwise; in particular the privileged calls (execve, ptrace,
    mount, module loading, bpf, ...) are killed. *)
Theorem seccomp_exact `{BPFMachine} (sys : string → Z) t p :
  number_table sys (profileSyscalls (target_calls t) p ++ privileged) →
  ∃ prog, ProfileProgram (target_arch t) (target_calls t) sys p = Ok prog ∧ zlen prog ≤ 4096 ∧
    installProfile (target_arch t) true true (sys <$> profileSyscalls (target_calls t) p) = Ok (prog, zlen prog) ∧
    (∀ d, bpf_run prog 0 0 d =
      Some (if bool_decide (d seccompDataArch = target_arch t ∧ d seccompDataNR ∈ sys <$> profileSyscalls (target_calls t) p)
            then SECCOMP_RET_ALLOW else SECCOMP_RET_KILL_PROCESS)) ∧
    (∀ d n, n ∈ privileged → d seccompDataNR = sys n → bpf_run prog 0 0 d = Some SECCOMP_RET_KILL_PROCESS).
Proof.
  intros [Hfit Hinj]. set (names := profileSyscalls (target_calls t) p) in *. set (l := sys <$> names).
  assert (l ≠ [] ∧ zlen l ≤ 200) as [Hne Hlen].
  { unfold l, zlen. rewrite length_fmap. unfold names. destruct t, p; split; done || (vm_compute; discriminate). }
  destruct (buildProgram_ok (target_arch t) l Hne) as [prog Hp]. pose proof (buildProgram_length _ _ _ Hp) as Hz.
  pose proof (zlen_nonneg prog). exists prog.
  assert (u32 <$> l = l) as Hu.
  { unfold l. rewrite <- list_fmap_compose. apply list_fmap_ext. intros i n Hn. cbn. unfold u32. apply Z.mod_small, Hfit.
    apply elem_of_app. left. by eapply list_elem_of_lookup_2. }
  assert (∀ d, bpf_run prog 0 0 d = Some (if bool_decide (d seccompDataArch = target_arch t ∧ d seccompDataNR ∈ l)
    then SECCOMP_RET_ALLOW else SECCOMP_RET_KILL_PROCESS)) as Hv.
  { intros d. rewrite (buildProgram_verdict _ _ _ d Hp), Hu. done. }
  split; [done|]. split; [lia|]. split; [|split; [done|]].
  - unfold installProfile. fold l. rewrite Hp. cbn. unfold u16. rewrite Z.mod_small by lia. done.
  - intros d n Hn Hd. rewrite Hv. rewrite bool_decide_false; [done|]. intros [_ Hin]. rewrite Hd in Hin.
    apply list_elem_of_fmap in Hin as (m & Hm & Hmin). apply Hinj in Hm; [|apply elem_of_app; auto..]. subst m.
    by apply (privileged_not_allowed t p n).
Qed.

(** Positions in a list of names number them. *)
Definition position (names : list string) (n : string) : Z :=
  match list_find (fun m => n = m) names with Some (i, _) => Z.of_nat i | None => 0 end.
Lemma position_table names : zlen names < 2 ^ 32 → number_table (position names) names.
Proof.
  intros Hl. assert (∀ n, n ∈ names → ∃ i, position names n = Z.of_nat i ∧ names !! i = Some n) as Hpos.
  { intros n Hn. unfold position. destruct (list_find_elem_of (fun m => n = m) names n Hn eq_refl) as [[i m] Hf].
    rewrite Hf. apply list_find_Some in Hf as (Hi & <- & _). by exists i. }
  split.
  - intros n Hn. destruct (Hpos n Hn) as (i & -> & Hi). apply lookup_lt_Some in Hi. unfold fits, zlen in *. lia.
  - intros a b Ha Hb E. destruct (Hpos a Ha) as (i & Ei & Hi), (Hpos b Hb) as (j & Ej & Hj). rewrite Ei, Ej in E.
    assert (i = j) as <- by lia. congruence.
Qed.

Lemma seccomp_exact_witness :
  let sys := position (profileSyscalls (target_calls TAmd64) ProfileVCPU ++ privileged) in
  ∃ prog, ProfileProgram (target_arch TAmd64) (target_calls TAmd64) sys ProfileVCPU = Ok prog ∧ zlen prog ≤ 4096.
Proof.
  destruct (seccomp_exact (position (profileSyscalls (target_calls TAmd64) ProfileVCPU ++ privileged)) TAmd64 ProfileVCPU)
    as (prog & H1 & H2 & _).
  - apply position_table. vm_compute. reflexivity.
  - exists prog. split; [exact H1|exact H2].
Defined.

(** The profile of a virtual-CPU thread allows what the API profile does: its own
    group adds nothing on amd64. *)
Lemma vcpu_profile_is_api :
  ∀ n, n ∈ profileSyscalls Amd64.calls ProfileVCPU ↔ n ∈ profileSyscalls Amd64.calls ProfileAPI.
Proof.
  intros n. unfold profileSyscalls, union_calls. cbn [concat]. rewrite !elem_of_app.
  assert (n ∈ g_vcpu Amd64.calls → n ∈ g_runtime Amd64.calls) as Hv.
  { intros Hn. cbn in Hn. apply list_elem_of_singleton in Hn as ->. apply (bool_decide_unpack _). vm_compute. exact I. }
  naive_solver.
Qed.
