(* ===== verification/Mptable.v ===== *)
(** * The MP table (src/internal/mptable/mptable.go)

    The table that tells an x86 guest its processors and interrupt routing, in
    the last bytes below 640 KiB.  The source fills zeroed buffers with fields
    that tile them; here a structure is the concatenation of its fields, with its
    checksum byte as an argument. *)
From S2P Require Import Prelude.

Definition baseRAMEnd : Z := 0xA0000.
Definition apicDefaultBase : Z := 0xFEE00000.
Definition ioAPICBase : Z := 0xFEC00000.
Definition apicVersion : Z := 0x14.
Definition cpuStepping : Z := 0x600.
Definition cpuFeatureAPIC : Z := 0x200.
Definition cpuFeatureFPU : Z := 0x001.
Definition maxCPUs : Z := 254.
Definition maxLegacyGSI : Z := 23.
Definition specVersion : Z := 4.

Definition floatingSignature : list Z := [95; 77; 80; 95].
Definition tableSignature : list Z := [80; 67; 77; 80].
Definition oemID : list Z := [70; 67; 32; 32; 32; 32; 32; 32].
Definition productID : list Z := replicate 12 48.
Definition isaBusType : list Z := [73; 83; 65; 32; 32; 32].

Definition Size (numCPUs : Z) : Z := 16 + 44 + 20 * numCPUs + 8 + 8 + 8 * (maxLegacyGSI + 1) + 8 * 2.
Definition StartAddr (numCPUs : Z) : Z := u64 (baseRAMEnd - Size numCPUs) .&^ 0xF.

(** The byte that makes the sum of [data] zero: [^sum + 1]. *)
Definition byte_sum (data : list Z) : Z := u8 (foldr Z.add 0 data).
Definition mp_checksum (data : list Z) : Z := u8 (- byte_sum data).

Definition LE (n : nat) (v : Z) : list Z := le_encode n v.

(** ** Entries *)
Definition cpu_entry (cpuID : Z) : list Z :=
  [0; u8 cpuID; apicVersion; if cpuID =? 0 then 0x03 else 0x01] ++ LE 4 cpuStepping ++
  LE 4 (cpuFeatureAPIC .| cpuFeatureFPU) ++ replicate 8 0.
Definition bus_entry : list Z := [1; 0] ++ isaBusType.
Definition ioapic_entry (ioAPICID : Z) : list Z := [2; ioAPICID; apicVersion; 1] ++ LE 4 ioAPICBase.
Definition intsrc_entry (ioAPICID irq : Z) : list Z := [3; 0] ++ LE 2 0 ++ [0; u8 irq; ioAPICID; u8 irq].
Definition extint_entry : list Z := [4; 3] ++ LE 2 0 ++ [0; 0; 0; 0].
Definition nmi_entry : list Z := [4; 1] ++ LE 2 0 ++ [0; 0; 0xFF; 1].

Definition entry_list (numCPUs : Z) : list (list Z) :=
  let ioAPICID := u8 (numCPUs + 1) in
  (cpu_entry ∘ Z.of_nat <$> seq 0 (Z.to_nat numCPUs)) ++ [bus_entry; ioapic_entry ioAPICID] ++
  (intsrc_entry ioAPICID ∘ Z.of_nat <$> seq 0 (Z.to_nat (maxLegacyGSI + 1))) ++ [extint_entry; nmi_entry].

(** ** Structures *)
Definition float_ptr (tableAddr cs : Z) : list Z :=
  floatingSignature ++ LE 4 tableAddr ++ [1; specVersion; cs; 0; 0; 0; 0; 0].
Definition mp_header (entries : list Z) (entryCount cs : Z) : list Z :=
  tableSignature ++ LE 2 (u16 (44 + zlen entries)) ++ [specVersion; cs] ++ oemID ++ productID ++
  LE 4 0 ++ LE 2 0 ++ LE 2 entryCount ++ LE 4 apicDefaultBase ++ LE 4 0.

Definition mp_table (numCPUs : Z) : list Z :=
  let entries := concat (entry_list numCPUs) in
  let entryCount := u16 (zlen (entry_list numCPUs)) in
  let cs := mp_checksum (mp_header entries entryCount 0 ++ entries) in
  mp_header entries entryCount cs ++ entries.
Definition mp_buf (numCPUs start : Z) : list Z :=
  let tableAddr := u32 (start + 16) in
  float_ptr tableAddr (mp_checksum (float_ptr tableAddr 0)) ++ mp_table numCPUs.

Inductive mp_err := InvalidCPUs | TooManyCPUs | ExceedsMemory.

Definition mp_Write (mem : list Z) (numCPUs : Z) : res mp_err (list Z) :=
  if numCPUs <=? 0 then Err InvalidCPUs
  else if maxCPUs <? numCPUs then Err TooManyCPUs
  else
    let size := Size numCPUs in
    let start := StartAddr numCPUs in
    let end_ := start + size in
    if zlen mem <? end_ then Err ExceedsMemory
    else must (splice mem start (mp_buf numCPUs start)).

(** ** Lemmas *)
Lemma zlen_LE n v : zlen (LE n v) = Z.of_nat n.
Proof. apply zlen_le_encode. Qed.
#[local] Hint Rewrite zlen_LE : go_len.

Lemma zlen_concat_const {A} (l : list (list A)) k : Forall (fun x => zlen x = k) l → zlen (concat l) = k * zlen l.
Proof. induction 1 as [|x l Hx _ IH]; cbn [concat]; [unfold zlen; cbn; lia|]. rewrite zlen_app, zlen_cons, Hx, IH. lia. Qed.

Lemma zlen_entries n :
  0 ≤ n → zlen (concat (entry_list n)) = 20 * n + 224 ∧ zlen (entry_list n) = n + 28.
Proof.
  intros Hn. unfold entry_list. rewrite !concat_app, !zlen_app. split.
  - rewrite (zlen_concat_const (cpu_entry ∘ Z.of_nat <$> _) 20).
    + rewrite (zlen_concat_const (intsrc_entry _ ∘ Z.of_nat <$> _) 8) by (apply Forall_fmap, Forall_true; done).
      change (zlen (concat [bus_entry; ioapic_entry (u8 (n + 1))])) with 16.
      change (zlen (concat [extint_entry; nmi_entry])) with 16.
      unfold zlen. rewrite !length_fmap, !length_seq. change (Z.to_nat (maxLegacyGSI + 1)) with 24%nat. lia.
    + apply Forall_fmap, Forall_true. done.
  - unfold zlen. rewrite !length_fmap, !length_seq. change (Z.to_nat (maxLegacyGSI + 1)) with 24%nat. cbn [length]. lia.
Qed.

Lemma zlen_mp_header e c cs : zlen (mp_header e c cs) = 44. Proof. done. Qed.
Lemma zlen_float_ptr a cs : zlen (float_ptr a cs) = 16. Proof. done. Qed.

Lemma zlen_mp_buf n start : 0 ≤ n → zlen (mp_buf n start) = Size n.
Proof.
  intros Hn. destruct (zlen_entries n Hn) as [He _]. unfold mp_buf, mp_table. cbv zeta.
  rewrite !zlen_app, zlen_float_ptr, zlen_mp_header, He. unfold Size, maxLegacyGSI. lia.
Qed.

Lemma sum_app (a b : list Z) : foldr Z.add 0 (a ++ b) = foldr Z.add 0 a + foldr Z.add 0 b.
Proof. induction a as [|x a IH]; cbn; [done|]. rewrite IH. lia. Qed.

(** Replacing a zero byte by the checksum makes the sum vanish. *)
Lemma checksum_zero pre post :
  byte_sum (pre ++ [mp_checksum (pre ++ [0] ++ post)] ++ post) = 0.
Proof.
  unfold mp_checksum, byte_sum. rewrite !sum_app. cbn [foldr]. set (a := foldr Z.add 0 pre). set (b := foldr Z.add 0 post).
  unfold u8. rewrite !Z.add_0_r, Z.add_0_l.
  replace (a + (- ((a + b) mod 2 ^ 8) mod 2 ^ 8 + b)) with ((a + b) + - ((a + b) mod 2 ^ 8) mod 2 ^ 8) by lia.
  rewrite Z.add_mod_idemp_r by done. rewrite <- Z.add_mod_idemp_l by done. by rewrite Z.add_opp_diag_r.
Qed.

Lemma float_ptr_sum a : byte_sum (float_ptr a (mp_checksum (float_ptr a 0))) = 0.
Proof.
  pose proof (checksum_zero (floatingSignature ++ LE 4 a ++ [1; specVersion]) [0; 0; 0; 0; 0]) as H.
  unfold float_ptr. rewrite <- !app_assoc in H. exact H.
Qed.
Lemma mp_table_sum n : byte_sum (mp_table n) = 0.
Proof.
  unfold mp_table. cbv zeta. set (e := concat (entry_list n)). set (c := u16 (zlen (entry_list n))).
  pose proof (checksum_zero (tableSignature ++ LE 2 (u16 (44 + zlen e)) ++ [specVersion])
    (oemID ++ productID ++ LE 4 0 ++ LE 2 0 ++ LE 2 c ++ LE 4 apicDefaultBase ++ LE 4 0 ++ e)) as H.
  unfold mp_header. rewrite <- !app_assoc in *. exact H.
Qed.

Lemma StartAddr_range n : 1 ≤ n ≤ maxCPUs →
  0 ≤ StartAddr n ∧ StartAddr n mod 16 = 0 ∧ StartAddr n + Size n ≤ baseRAMEnd ∧ baseRAMEnd - StartAddr n - Size n < 16.
Proof.
  intros Hn. unfold maxCPUs, StartAddr in *. assert (0 ≤ baseRAMEnd - Size n < 2 ^ 64) as Hr by (unfold baseRAMEnd, Size, maxLegacyGSI; lia).
  unfold u64. rewrite Z.mod_small by done. set (x := baseRAMEnd - Size n) in *.
  change 0xF with (Z.ones 4). rewrite Z.ldiff_ones_r by lia. rewrite Z.shiftl_mul_pow2, Z.shiftr_div_pow2 by lia.
  change (2 ^ 4) with 16. pose proof (Z.div_mod x 16 ltac:(lia)). pose proof (Z.mod_pos_bound x 16 ltac:(lia)).
  assert (0 ≤ x / 16) by (apply Z.div_pos; lia). splits; [lia|apply Z_mod_mult|lia|lia].
Qed.

(** Up to 37 processors the table lies in the last KiB below 640 KiB, which the
    memory map reserves and where Linux looks for it; with more it starts below,
    in memory that is reported as usable. *)
Lemma mp_table_in_ebda n : 1 ≤ n ≤ maxCPUs → (n ≤ 37 ↔ 0x9FC00 ≤ StartAddr n).
Proof.
  intros Hn. destruct (StartAddr_range n Hn) as (_ & Ha & Hb & Hc). unfold baseRAMEnd, Size, maxLegacyGSI, maxCPUs in *.
  split; intros H; [|lia]. pose proof (Z.div_mod (StartAddr n) 16 ltac:(lia)). lia.
Qed.

(** A little-endian field between others. *)
Lemma getLE_middle n pre v post o :
  o = zlen pre → 0 ≤ v < 256 ^ Z.of_nat n → getLE n (pre ++ LE n v ++ post) o = Some v.
Proof.
  intros -> Hv. unfold getLE, slice, LE. pose proof (zlen_nonneg pre). pose proof (zlen_nonneg post).
  rewrite !zlen_app, zlen_le_encode. do 3 le_is true. cbn [andb fmap option_fmap option_map]. f_equal.
  replace (zlen pre + Z.of_nat n - zlen pre) with (Z.of_nat n) by lia.
  unfold zlen. rewrite !Nat2Z.id, drop_app_length. by apply le_encode_app_decode.
Qed.

Lemma mp_table_fields n : 1 ≤ n ≤ 254 →
  getLE 2 (mp_table n) 4 = Some (zlen (mp_table n)) ∧ getLE 2 (mp_table n) 34 = Some (n + 28).
Proof.
  intros Hn. destruct (zlen_entries n ltac:(lia)) as [He Hc]. unfold mp_table. cbv zeta.
  set (e := concat (entry_list n)) in *. rewrite Hc, zlen_app, zlen_mp_header, He.
  assert (u16 (n + 28) = n + 28) as -> by (unfold u16; apply Z.mod_small; lia).
  generalize (mp_checksum (mp_header e (n + 28) 0 ++ e)). intros cs. unfold mp_header. rewrite He. rewrite <- !app_assoc. split.
  - assert (u16 (44 + (20 * n + 224)) = 44 + (20 * n + 224)) as -> by (unfold u16; apply Z.mod_small; lia).
    apply (getLE_middle 2 tableSignature); [done|lia].
  - set (l2 := LE 2 (u16 _)).
    pose proof (getLE_middle 2 (tableSignature ++ l2 ++ [specVersion; cs] ++ oemID ++ productID ++ LE 4 0 ++ LE 2 0) (n + 28)
      (LE 4 apicDefaultBase ++ LE 4 0 ++ e) 34) as H. rewrite <- !app_assoc in H. apply H; [done|lia].
Qed.

(** ** Properties *)

(** The MP table is written where the guest looks for it and is well formed.
    For 1 to 254 processors and enough memory the write succeeds; it replaces
    exactly [Size] bytes at a 16-byte boundary in the last bytes below 640 KiB and
    nothing else; the floating pointer holds the table's address; both checksums
    make their structure sum to zero; the header's length and entry count are
    those of the table, with one entry per processor, the bus, the I/O APIC, 24
    interrupts and two local ones.  Otherwise it is refused. *)
Theorem mptable_wellformed mem n :
  (1 ≤ n ≤ maxCPUs → StartAddr n + Size n ≤ zlen mem →
   ∃ mem' fp tab, mp_Write mem n = Ok mem' ∧ zlen mem' = zlen mem ∧
     slice mem' (StartAddr n) (StartAddr n + Size n) = Some (fp ++ tab) ∧
     (∀ a b, 0 ≤ a → b ≤ zlen mem → b ≤ StartAddr n ∨ StartAddr n + Size n ≤ a → slice mem' a b = slice mem a b) ∧
     StartAddr n mod 16 = 0 ∧ StartAddr n + Size n ≤ baseRAMEnd ∧
     zlen fp = 16 ∧ getLE 4 fp 4 = Some (StartAddr n + 16) ∧ byte_sum fp = 0 ∧ byte_sum tab = 0 ∧
     getLE 2 tab 4 = Some (zlen tab) ∧ getLE 2 tab 34 = Some (n + 28)) ∧
  (n ≤ 0 ∨ maxCPUs < n ∨ zlen mem < StartAddr n + Size n → ∃ e, mp_Write mem n = Err e).
Proof.
  split.
  - intros Hn Hm. destruct (StartAddr_range n Hn) as (H0 & Ha & Hb & _). pose proof Hn as Hn'. unfold maxCPUs in Hn'.
    destruct (splice_ok mem (StartAddr n) (mp_buf n (StartAddr n))) as [mem' E]; [done|by rewrite zlen_mp_buf by lia|].
    set (fp := float_ptr (u32 (StartAddr n + 16)) (mp_checksum (float_ptr (u32 (StartAddr n + 16)) 0))).
    exists mem', fp, (mp_table n). assert (u32 (StartAddr n + 16) = StartAddr n + 16) as Hu.
    { unfold u32. apply Z.mod_small. unfold baseRAMEnd in *. unfold Size in *. unfold maxLegacyGSI in *. lia. }
    splits; try done.
    + unfold mp_Write. le_is false. lt_is false. cbv zeta. lt_is false. by rewrite E.
    + by eapply splice_len.
    + rewrite <- (zlen_mp_buf n (StartAddr n)) by lia. by eapply slice_splice_same.
    + intros a b H1 H2 H3. eapply slice_splice_frame; [done|]. rewrite zlen_mp_buf by lia. lia.
    + unfold fp, float_ptr. rewrite Hu. apply (getLE_middle 4 floatingSignature); [done|].
      unfold baseRAMEnd, Size, maxLegacyGSI in *. lia.
    + apply float_ptr_sum.
    + apply mp_table_sum.
    + apply mp_table_fields. lia.
    + apply mp_table_fields. lia.
  - intros Hor. unfold mp_Write. destruct (Z.leb_spec n 0); [eauto|]. destruct (Z.ltb_spec maxCPUs n); [eauto|].
    cbv zeta. destruct (Z.ltb_spec (zlen mem) (StartAddr n + Size n)); [eauto|]. lia.
Qed.

Lemma mptable_wellformed_witness :
  ∃ mem', mp_Write (replicate (Z.to_nat 0xA0000) 0) 2 = Ok mem' ∧ zlen mem' = 0xA0000.
Proof.
  destruct (proj1 (mptable_wellformed (replicate (Z.to_nat 0xA0000) 0) 2)) as (mem' & fp & tab & H1 & H2 & _).
  - unfold maxCPUs. lia.
  - unfold zlen. rewrite length_replicate. vm_compute. discriminate.
  - exists mem'. split; [exact H1|]. rewrite H2. unfold zlen. rewrite length_replicate. lia.
Defined.
