(* ===== verification/Hotplug.v ===== *)
(** * Memory hotplug

    The host's side (src/pkg/vmm/memory_hotplug.go over the memory slots of
    src/internal/kvm/kvm.go) reserves a region of guest-physical memory in equal
    slots and asks the guest to plug part of it; the guest's side
    (src/internal/guest/init.go) brings memory blocks online and offline through
    sysfs.  The results of host system calls and the guest kernel's reactions are
    parameters; the two sides talk through a function from requests to answers,
    which for the composed theorem is the guest's code. *)
From S2P Require Import Prelude GuestExec.

Definition hotplugRegionBaseAddr : Z := 0x100000000.
Definition hotplugRegionSlotBase : Z := 1.
Definition maxHotplugSlots : Z := 128.

Record MemoryHotplugConfig := mkHotplugConfig { TotalSizeMiB : Z; SlotSizeMiB : Z; BlockSizeMiB : Z }.
Record memoryHotplugSlot := mkHotplugSlot { hs_slot : Z; hs_guestAddr : Z; hs_sizeBytes : Z }.
Record memoryHotplugState := mkHotplugState {
  hp_cfg : MemoryHotplugConfig;
  hp_baseAddr : Z;
  hp_totalBytes : Z;
  hp_slotBytes : Z;
  hp_blockBytes : Z;
  hp_requestedBytes : Z;
  hp_pluggedBytes : Z;
  hp_guestBlockSize : Z;
  hp_slots : list memoryHotplugSlot
}.

Inductive hp_err :=
  | TotalRequired | SlotRequired | BlockRequired | TotalLtSlot | SlotLtBlock | TotalNotMultiple | SlotNotMultiple | BadSlotCount
  | RegionSize | SlotReserved | SlotExists | HostFailed
  | ExceedsTotal | NotBlockAligned | NotConfigured | AgentDisabled
  | GuestErr (msg : list Z) | MissingStatus | BlockMismatch | BaseUnaligned | TotalUnaligned | TargetExceeds | TargetUnaligned
  | ProbeFailed | OnlineFailed | OfflineFailed | BlockMissing.

Definition hotplugMiBToBytes (v : Z) : Z := u64 (v .<< 20).
Definition hotplugBytesToMiB (v : Z) : Z := v .>> 20.

Definition validateMemoryHotplugConfig (cfg : MemoryHotplugConfig) : option hp_err :=
  if TotalSizeMiB cfg =? 0 then Some TotalRequired
  else if SlotSizeMiB cfg =? 0 then Some SlotRequired
  else if BlockSizeMiB cfg =? 0 then Some BlockRequired
  else if TotalSizeMiB cfg <? SlotSizeMiB cfg then Some TotalLtSlot
  else if SlotSizeMiB cfg <? BlockSizeMiB cfg then Some SlotLtBlock
  else if negb (TotalSizeMiB cfg mod SlotSizeMiB cfg =? 0) then Some TotalNotMultiple
  else if negb (SlotSizeMiB cfg mod BlockSizeMiB cfg =? 0) then Some SlotNotMultiple
  else
    let slots := TotalSizeMiB cfg / SlotSizeMiB cfg in
    if (slots =? 0) || (maxHotplugSlots <? slots) then Some BadSlotCount else None.

(** ** Memory slots of the virtual machine *)
Record MappedMemoryRegion := mkRegion { mr_Slot : Z; mr_Flags : Z; mr_GuestPhysAddr : Z; mr_MemorySize : Z }.
Notation Regions := (gmap Z MappedMemoryRegion).

(** [host] is whether memfd_create, ftruncate, mmap and the KVM ioctl all succeed. *)
Definition AddMemoryRegion (host : bool) (slot guestPhysAddr size flags : Z) (rs : Regions) : res hp_err Regions :=
  if size =? 0 then Err RegionSize
  else if slot =? 0 then Err SlotReserved
  else
    match rs !! slot with
    | Some _ => Err SlotExists
    | None => if negb host then Err HostFailed else Ok (<[slot := mkRegion slot flags guestPhysAddr size]> rs)
    end.
(** Errors of the host are returned but the slot is forgotten all the same; the
    one caller here ignores them. *)
Definition RemoveMemoryRegion (slot : Z) (rs : Regions) : Regions := delete slot rs.

(** ** Setting the region up *)
Definition remove_slots (slots : list memoryHotplugSlot) (rs : Regions) : Regions :=
  foldl (fun rs s => RemoveMemoryRegion (hs_slot s) rs) rs slots.

(** The loop over the slots: [host i] is the outcome for slot number [i]. *)
Fixpoint map_slots (host : Z → bool) (slotBytes : Z) (todo : list nat) (slots : list memoryHotplugSlot) (rs : Regions) :
    Regions * (hp_err + list memoryHotplugSlot) :=
  match todo with
  | [] => (rs, inr slots)
  | i :: todo =>
      let slotID := u32 (hotplugRegionSlotBase + u32 (Z.of_nat i)) in
      let guestAddr := u64 (hotplugRegionBaseAddr + Z.of_nat i * slotBytes) in
      match AddMemoryRegion (host (Z.of_nat i)) slotID guestAddr slotBytes 0 rs with
      | Ok rs => map_slots host slotBytes todo (slots ++ [mkHotplugSlot slotID guestAddr slotBytes]) rs
      | Err e => (remove_slots slots rs, inl e)
      | _ => (rs, inl HostFailed)
      end
  end.

(** The virtual machine's slots afterwards and the state, or the error. *)
Definition setupMemoryHotplug (host : Z → bool) (cfg : option MemoryHotplugConfig) (rs : Regions) :
    res hp_err (Regions * (hp_err + option memoryHotplugState)) :=
  match cfg with
  | None => Ok (rs, inr None)
  | Some cfg =>
      match validateMemoryHotplugConfig cfg with
      | Some e => Ok (rs, inl e)
      | None =>
          let totalBytes := hotplugMiBToBytes (TotalSizeMiB cfg) in
          let slotBytes := hotplugMiBToBytes (SlotSizeMiB cfg) in
          let blockBytes := hotplugMiBToBytes (BlockSizeMiB cfg) in
          if slotBytes =? 0 then Panic        (* integer divide by zero *)
          else
            let slotCount := totalBytes / slotBytes in
            let '(rs, r) := map_slots host slotBytes (seq 0 (Z.to_nat slotCount)) [] rs in
            Ok (rs, match r with
                    | inl e => inl e
                    | inr slots => inr (Some (mkHotplugState cfg hotplugRegionBaseAddr totalBytes slotBytes blockBytes 0 0 0 slots))
                    end)
      end
  end.

(** ** Talking to the guest *)
Definition validateMemoryHotplugUpdate (st : memoryHotplugState) (requestedMiB : Z) : res hp_err unit :=
  let targetBytes := hotplugMiBToBytes requestedMiB in
  if hp_totalBytes st <? targetBytes then Err ExceedsTotal
  else if hp_blockBytes st =? 0 then Panic
  else if negb (targetBytes mod hp_blockBytes st =? 0) then Err NotBlockAligned
  else Ok ().

(** The request that [queryGuestMemoryHotplug] and [updateGuestMemoryHotplug] send. *)
Definition hotplug_request (mode : string) (st : memoryHotplugState) (target : Z) : Request :=
  mkRequest mode [] 0 0 [] [] [] (hp_baseAddr st) (hp_totalBytes st) (hp_blockBytes st) target.

(** [call] is the exec agent at the other end of the connection. *)
Definition callGuestMemoryHotplug (call : Request → res hp_err Response) (req : Request) : res hp_err MemoryHotplug :=
  resp ← call req;
  match RespError resp with
  | [] => match RespMemoryHotplug resp with Some mh => Ok mh | None => Err MissingStatus end
  | msg => Err (GuestErr msg)
  end.

Definition set_plugged (st : memoryHotplugState) (requested plugged blockSize : Z) : memoryHotplugState :=
  mkHotplugState (hp_cfg st) (hp_baseAddr st) (hp_totalBytes st) (hp_slotBytes st) (hp_blockBytes st)
    requested plugged blockSize (hp_slots st).

Definition UpdateMemoryHotplug (call : Request → res hp_err Response) (execEnabled : bool)
    (st : option memoryHotplugState) (requestedMiB : Z) : res hp_err memoryHotplugState :=
  match st with
  | None => Err NotConfigured
  | Some st =>
      _ ← validateMemoryHotplugUpdate st requestedMiB;
      if negb execEnabled then Err AgentDisabled
      else
        let targetBytes := hotplugMiBToBytes requestedMiB in
        hotplug ← callGuestMemoryHotplug call (hotplug_request ModeMemoryHotplugUpdate st targetBytes);
        Ok (set_plugged st targetBytes (PluggedBytes hotplug) (BlockSizeBytes hotplug))
  end.

Record MemoryHotplugStatus := mkHotplugStatus {
  ms_TotalSizeMiB : Z; ms_SlotSizeMiB : Z; ms_BlockSizeMiB : Z; ms_PluggedSizeMiB : Z; ms_RequestedSizeMiB : Z }.

(** [active]: the agent is enabled and the machine runs or is paused.  The state
    afterwards and the status; a failed query gives what is remembered. *)
Definition GetMemoryHotplug (call : Request → res hp_err Response) (active : bool) (st : option memoryHotplugState) :
    res hp_err (memoryHotplugState * MemoryHotplugStatus) :=
  match st with
  | None => Err NotConfigured
  | Some st =>
      let out p r := mkHotplugStatus (TotalSizeMiB (hp_cfg st)) (SlotSizeMiB (hp_cfg st)) (BlockSizeMiB (hp_cfg st))
                       (hotplugBytesToMiB p) (hotplugBytesToMiB r) in
      let remembered := (st, out (hp_pluggedBytes st) (hp_requestedBytes st)) in
      if negb active then Ok remembered
      else
        match callGuestMemoryHotplug call (hotplug_request ModeMemoryHotplugGet st (hp_requestedBytes st)) with
        | Ok h => Ok (set_plugged st (hp_requestedBytes st) (PluggedBytes h) (BlockSizeBytes h),
                      out (PluggedBytes h) (hp_requestedBytes st))
        | Err _ => Ok remembered
        | Panic => Panic
        | NoFuel => NoFuel
        end
  end.

(** ** The guest

    The memory blocks that sysfs shows, with their state. *)
Notation Sysfs := (gmap Z string).

(** The guest kernel: writing an address to [probe], and a state to the [state]
    file of a block.  [None] is a failed write; a result is what sysfs shows when
    the bounded wait that follows ends. *)
Class GuestKernel := {
  gk_probe : Z → Z → Sysfs → option Sysfs;           (** address, block *)
  gk_set_state : Z → string → Sysfs → option Sysfs
}.

Section guest.
Context `{GuestKernel} (blockSize : Z).

Definition ensureGuestMemoryBlockPresent (addr blockID : Z) (fs : Sysfs) : res hp_err Sysfs :=
  match fs !! blockID with
  | Some _ => Ok fs
  | None =>
      match gk_probe addr blockID fs with
      | None => Err ProbeFailed
      | Some fs => match fs !! blockID with Some _ => Ok fs | None => Err ProbeFailed end
      end
  end.

(** Writing a state and waiting for what it should lead to: the file system, and
    whether it did. *)
Definition write_and_wait (blockID : Z) (value want : string) (fs : Sysfs) : Sysfs * bool :=
  match gk_set_state blockID value fs with
  | None => (fs, false)
  | Some fs => (fs, bool_decide (fs !! blockID = Some want))
  end.

Definition ensureGuestMemoryBlockOnline (blockID : Z) (fs : Sysfs) : res hp_err Sysfs :=
  match fs !! blockID with
  | None => Err BlockMissing
  | Some state =>
      if bool_decide (state = "online") then Ok fs
      else
        match write_and_wait blockID "online_movable" "online" fs with
        | (fs, true) => Ok fs
        | (fs, false) =>
            match write_and_wait blockID "online" "online" fs with
            | (fs, true) => Ok fs
            | (_, false) => Err OnlineFailed
            end
        end
  end.

Definition ensureGuestMemoryBlockOffline (blockID : Z) (fs : Sysfs) : res hp_err Sysfs :=
  match fs !! blockID with
  | None => Ok fs
  | Some state =>
      if bool_decide (state = "offline") then Ok fs
      else
        match write_and_wait blockID "offline" "offline" fs with
        | (fs, true) => Ok fs
        | (_, false) => Err OfflineFailed
        end
  end.

(** The block numbers from [lo] up to [hi]. *)
Definition blocks (lo hi : Z) : list Z := (fun i => lo + Z.of_nat i) <$> seq 0 (Z.to_nat (hi - lo)).

Definition is_present (fs : Sysfs) (b : Z) : bool := match fs !! b with Some _ => true | None => false end.
Definition is_online (fs : Sysfs) (b : Z) : bool :=
  match fs !! b with Some s => negb (bool_decide (s = "offline")) | None => false end.
Definition count (f : Z → bool) (l : list Z) : Z := zlen (filter (fun b => f b = true) l).

Definition collectGuestMemoryHotplugStatus (baseAddr totalBytes expectedBlockBytes requestedBytes : Z) (fs : Sysfs) :
    res hp_err MemoryHotplug :=
  if negb (expectedBlockBytes =? 0) && negb (expectedBlockBytes =? blockSize) then Err BlockMismatch
  else if negb (baseAddr mod blockSize =? 0) then Err BaseUnaligned
  else if negb (totalBytes mod blockSize =? 0) then Err TotalUnaligned
  else if totalBytes <? requestedBytes then Err TargetExceeds
  else if negb (requestedBytes mod blockSize =? 0) then Err TargetUnaligned
  else
    let startBlock := baseAddr / blockSize in
    let endBlock := u64 (baseAddr + totalBytes) / blockSize in
    let onlineBlocks := count (is_online fs) (blocks startBlock endBlock) in
    let presentBlocks := count (is_present fs) (blocks startBlock endBlock) in
    Ok (mkMemoryHotplug blockSize requestedBytes (u64 (onlineBlocks * blockSize)) onlineBlocks presentBlocks).

Definition applyGuestMemoryHotplug (req : Request) (fs : Sysfs) : res hp_err (MemoryHotplug * Sysfs) :=
  let base := HotplugBaseAddr req in
  let collect := collectGuestMemoryHotplugStatus base (HotplugTotalBytes req) (HotplugBlockBytes req) (HotplugTargetBytes req) in
  status ← collect fs;
  let bs := BlockSizeBytes status in
  let startBlock := base / bs in
  let endBlock := u64 (base + HotplugTotalBytes req) / bs in
  let targetEndBlock := u64 (base + HotplugTargetBytes req) / bs in
  fs ← for_each (fun blockID fs =>
         fs ← ensureGuestMemoryBlockPresent (u64 (base + (blockID - startBlock) * bs)) blockID fs;
         ensureGuestMemoryBlockOnline blockID fs) (blocks startBlock targetEndBlock) fs;
  fs ← for_each ensureGuestMemoryBlockOffline (reverse (blocks targetEndBlock endBlock)) fs;
  status ← collect fs;
  Ok (status, fs).

Definition readGuestMemoryHotplug (req : Request) (fs : Sysfs) : res hp_err MemoryHotplug :=
  collectGuestMemoryHotplugStatus (HotplugBaseAddr req) (HotplugTotalBytes req) (HotplugBlockBytes req)
    (HotplugTargetBytes req) fs.

(** The handler's answer to an update request. *)
Definition agent_update (fs : Sysfs) (req : Request) : res hp_err Response :=
  match applyGuestMemoryHotplug req fs with
  | Ok (mh, _) => Ok (mkResponse true [] [] [] 0 None (Some mh))
  | Err _ => Ok (mkResponse false [101] [] [] 0 None None)
  | Panic => Panic
  | NoFuel => NoFuel
  end.
End guest.

(** A write for one block leaves the others alone. *)
Class GuestKernelLaws `{GuestKernel} := {
  gk_probe_frame addr b fs fs' : gk_probe addr b fs = Some fs' → ∀ b', b' ≠ b → fs' !! b' = fs !! b';
  gk_state_frame b v fs fs' : gk_set_state b v fs = Some fs' → ∀ b', b' ≠ b → fs' !! b' = fs !! b'
}.

(** ** Ranges of blocks *)
Lemma elem_of_blocks lo hi b : b ∈ blocks lo hi ↔ lo ≤ b < hi.
Proof.
  unfold blocks. rewrite list_elem_of_fmap. setoid_rewrite elem_of_seq. split.
  - intros (i & -> & Hi). lia.
  - intros Hb. exists (Z.to_nat (b - lo)). lia.
Qed.

Lemma blocks_split lo mid hi : lo ≤ mid ≤ hi → blocks lo hi = blocks lo mid ++ blocks mid hi.
Proof.
  intros Hm. unfold blocks. replace (Z.to_nat (hi - lo)) with (Z.to_nat (mid - lo) + Z.to_nat (hi - mid))%nat by lia.
  rewrite seq_app, fmap_app. f_equal. cbn. rewrite <- (Nat.add_0_r (Z.to_nat (mid - lo))), <- fmap_add_seq, <- list_fmap_compose.
  apply list_fmap_ext. intros i x _. cbn. lia.
Qed.

Lemma zlen_blocks lo hi : lo ≤ hi → zlen (blocks lo hi) = hi - lo.
Proof. intros. unfold blocks, zlen. rewrite length_fmap, length_seq. lia. Qed.

Lemma count_app f l k : count f (l ++ k) = count f l + count f k.
Proof. unfold count. by rewrite filter_app, zlen_app. Qed.
Lemma count_all f l : (∀ b, b ∈ l → f b = true) → count f l = zlen l.
Proof.
  unfold count. induction l as [|b l IH]; intros Hf; [done|]. rewrite filter_cons, decide_True by (apply Hf; left).
  rewrite !zlen_cons, IH; [done|]. intros x Hx. apply Hf. by right.
Qed.
Lemma count_none f l : (∀ b, b ∈ l → f b = false) → count f l = 0.
Proof.
  unfold count. induction l as [|b l IH]; intros Hf; [done|].
  rewrite filter_cons, decide_False by (rewrite Hf by left; done). apply IH. intros x Hx. apply Hf. by right.
Qed.

(** ** The two loops of the guest *)
Section guest_lemmas.
Context `{GuestKernelLaws} (blockSize : Z).

Lemma present_frame addr b fs fs' :
  ensureGuestMemoryBlockPresent addr b fs = Ok fs' → ∀ b', b' ≠ b → fs' !! b' = fs !! b'.
Proof.
  unfold ensureGuestMemoryBlockPresent. intros E. destruct (fs !! b); [by simplify_eq|].
  destruct (gk_probe addr b fs) as [fs1|] eqn:Ep; [|done]. destruct (fs1 !! b); [|done]. simplify_eq. by eapply gk_probe_frame.
Qed.

Lemma write_and_wait_spec b v w fs fs' ok :
  write_and_wait b v w fs = (fs', ok) →
  (ok = true → fs' !! b = Some w) ∧ ∀ b', b' ≠ b → fs' !! b' = fs !! b'.
Proof.
  unfold write_and_wait. destruct (gk_set_state b v fs) as [fs1|] eqn:E; intros [= <- <-]; [|done].
  split; [apply bool_decide_eq_true|by eapply gk_state_frame].
Qed.

Lemma online_spec b fs fs' :
  ensureGuestMemoryBlockOnline b fs = Ok fs' → fs' !! b = Some "online"%string ∧ ∀ b', b' ≠ b → fs' !! b' = fs !! b'.
Proof.
  unfold ensureGuestMemoryBlockOnline. destruct (fs !! b) as [s|] eqn:Eb; [|done].
  case_bool_decide as Hs; [intros [= <-]; by subst|].
  destruct (write_and_wait b "online_movable" "online" fs) as [fs1 ok1] eqn:E1. apply write_and_wait_spec in E1 as [H1 F1].
  destruct ok1; [intros [= <-]; auto|].
  destruct (write_and_wait b "online" "online" fs1) as [fs2 ok2] eqn:E2. apply write_and_wait_spec in E2 as [H2 F2].
  destruct ok2; [|done]. intros [= <-]. split; [auto|]. intros b' Hb'. by rewrite F2, F1.
Qed.

Lemma offline_spec b fs fs' :
  ensureGuestMemoryBlockOffline b fs = Ok fs' → is_online fs' b = false ∧ ∀ b', b' ≠ b → fs' !! b' = fs !! b'.
Proof.
  unfold ensureGuestMemoryBlockOffline, is_online. destruct (fs !! b) as [s|] eqn:Eb.
  - case_bool_decide as Hs; [intros [= <-]; rewrite Eb; by subst|].
    destruct (write_and_wait b "offline" "offline" fs) as [fs1 ok1] eqn:E1. apply write_and_wait_spec in E1 as [H1 F1].
    destruct ok1; [|done]. intros [= <-]. by rewrite (H1 eq_refl).
  - intros [= <-]. by rewrite Eb.
Qed.

(** A loop that establishes something of each block and leaves the others alone. *)
Lemma loop_spec (f : Z → Sysfs → res hp_err Sysfs) (P : option string → Prop) l fs fs' :
  (∀ b g g', f b g = Ok g' → P (g' !! b) ∧ ∀ b', b' ≠ b → g' !! b' = g !! b') →
  for_each f l fs = Ok fs' → (∀ b, b ∈ l → P (fs' !! b)) ∧ ∀ b, b ∉ l → fs' !! b = fs !! b.
Proof.
  intros Hf. revert fs. induction l as [|x l IH]; intros fs E; cbn in E.
  { simplify_eq. split; [set_solver|done]. }
  destruct (f x fs) as [g|e| |] eqn:Ex; try done. destruct (Hf _ _ _ Ex) as [Hp Hfr]. destruct (IH g E) as [H1 H2].
  split.
  - intros b Hb. destruct (decide (b ∈ l)) as [|Hn]; [auto|]. assert (b = x) as -> by set_solver. by rewrite H2.
  - intros b Hb. rewrite H2, Hfr; set_solver.
Qed.

Lemma collect_Ok base tot bb tg fs st :
  collectGuestMemoryHotplugStatus blockSize base tot bb tg fs = Ok st →
  base mod blockSize = 0 ∧ tot mod blockSize = 0 ∧ tg ≤ tot ∧ tg mod blockSize = 0 ∧ BlockSizeBytes st = blockSize ∧
  OnlineBlocks st = count (is_online fs) (blocks (base / blockSize) (u64 (base + tot) / blockSize)) ∧
  PluggedBytes st = u64 (OnlineBlocks st * blockSize).
Proof.
  unfold collectGuestMemoryHotplugStatus. destruct (_ && _); [done|].
  destruct (negb (base mod _ =? 0)) eqn:E1; [done|]. destruct (negb (tot mod _ =? 0)) eqn:E2; [done|].
  destruct (tot <? tg) eqn:E3; [done|]. destruct (negb (tg mod _ =? 0)) eqn:E4; [done|]. b2p. intros [= <-]. done.
Qed.

Lemma block_index base x :
  0 < blockSize → 0 ≤ base → 0 ≤ x → base + x < 2 ^ 64 → base mod blockSize = 0 →
  u64 (base + x) / blockSize = base / blockSize + x / blockSize.
Proof.
  intros. unfold u64. rewrite Z.mod_small by lia. rewrite (Z.div_mod base blockSize) at 1 by lia.
  replace (base mod blockSize) with 0 by lia. rewrite Z.add_0_r, Z.mul_comm, Z.div_add_l by lia. done.
Qed.

Lemma apply_blocks req fs status fs' :
  0 < blockSize → 0 ≤ HotplugBaseAddr req → HotplugBaseAddr req + HotplugTotalBytes req < 2 ^ 64 → 0 ≤ HotplugTargetBytes req →
  applyGuestMemoryHotplug blockSize req fs = Ok (status, fs') →
  let lo := HotplugBaseAddr req / blockSize in
  let mid := lo + HotplugTargetBytes req / blockSize in
  let hi := lo + HotplugTotalBytes req / blockSize in
  lo ≤ mid ≤ hi ∧ (∀ b, lo ≤ b < mid → fs' !! b = Some "online"%string) ∧ (∀ b, mid ≤ b < hi → is_online fs' b = false) ∧
  (∀ b, b < lo ∨ hi ≤ b → fs' !! b = fs !! b) ∧
  PluggedBytes status = HotplugTargetBytes req ∧ OnlineBlocks status = HotplugTargetBytes req / blockSize ∧
  BlockSizeBytes status = blockSize ∧ HotplugTargetBytes req mod blockSize = 0 ∧ HotplugTargetBytes req ≤ HotplugTotalBytes req ∧
  HotplugBaseAddr req mod blockSize = 0.
Proof.
  intros Hbs Hb0 Hbt Ht0 E lo mid hi. unfold applyGuestMemoryHotplug in E. cbv zeta in E.
  destruct (collectGuestMemoryHotplugStatus _ _ _ _ _ fs) as [st0|e| |] eqn:Ec; try done. cbn in E.
  apply collect_Ok in Ec as (A1 & A2 & A3 & A4 & A5 & _). rewrite A5 in E.
  rewrite !block_index in E by lia. fold lo mid hi in E.
  destruct (for_each _ (blocks lo mid) fs) as [fs1|e| |] eqn:E1; try done. cbn in E.
  destruct (for_each _ (reverse (blocks mid hi)) fs1) as [fs2|e| |] eqn:E2; try done. cbn in E.
  destruct (collectGuestMemoryHotplugStatus _ _ _ _ _ fs2) as [st2|e| |] eqn:Ec2; try done. injection E as <- <-.
  apply collect_Ok in Ec2 as (_ & _ & _ & _ & B1 & B2 & B3).
  assert (0 ≤ HotplugTargetBytes req / blockSize ≤ HotplugTotalBytes req / blockSize) as Hle.
  { split; [apply Z.div_pos; lia|apply Z.div_le_mono; lia]. }
  apply (loop_spec _ (fun o => o = Some "online"%string)) in E1 as [L1 F1].
  2:{ intros b g g'. destruct (ensureGuestMemoryBlockPresent _ b g) as [g1|e| |] eqn:Ep; try done. cbn. intros Eo.
      apply online_spec in Eo as [Ho Hf]. split; [done|]. intros b' Hb'. rewrite Hf by done. by eapply present_frame. }
  apply (loop_spec _ (fun o => match o with Some s => negb (bool_decide (s = "offline"%string)) | None => false end = false))
    in E2 as [L2 F2]; [|intros b g g'; apply offline_spec].
  assert (∀ b, lo ≤ b < mid → fs2 !! b = Some "online"%string) as Hon.
  { intros b Hb. rewrite F2; [apply L1, elem_of_blocks; lia|]. rewrite elem_of_reverse, elem_of_blocks. lia. }
  assert (∀ b, mid ≤ b < hi → is_online fs2 b = false) as Hoff.
  { intros b Hb. apply L2. rewrite elem_of_reverse, elem_of_blocks. lia. }
  assert (OnlineBlocks st2 = HotplugTargetBytes req / blockSize) as Hcount.
  { rewrite B2, block_index by lia. fold lo hi. rewrite (blocks_split lo mid hi), count_app by lia.
    rewrite count_all, count_none, zlen_blocks; [unfold mid; lia|lia| |].
    - intros b Hb%elem_of_blocks. by apply Hoff.
    - intros b Hb%elem_of_blocks. unfold is_online. by rewrite Hon. }
  assert (HotplugTargetBytes req = HotplugTargetBytes req / blockSize * blockSize) as Hex.
  { rewrite Z.mul_comm. apply Z.div_exact; lia. }
  splits; try done; [lia|lia| |].
  - intros b Hb. rewrite F2 by (rewrite elem_of_reverse, elem_of_blocks; lia). apply F1. rewrite elem_of_blocks. lia.
  - rewrite B3, Hcount, <- Hex. unfold u64. apply Z.mod_small. lia.
Qed.
End guest_lemmas.

(** ** The host's slots *)
Definition slot_at (slotBytes : Z) (i : nat) : memoryHotplugSlot :=
  mkHotplugSlot (1 + Z.of_nat i) (hotplugRegionBaseAddr + Z.of_nat i * slotBytes) slotBytes.
Definition region_at (slotBytes : Z) (i : nat) : MappedMemoryRegion :=
  mkRegion (1 + Z.of_nat i) 0 (hotplugRegionBaseAddr + Z.of_nat i * slotBytes) slotBytes.

(** The first [k] slots are mapped on top of [rs0]. *)
Definition mapped (slotBytes : Z) (k : nat) (rs0 rs : Regions) : Prop :=
  ∀ s, rs !! s = if (1 <=? s) && (s <=? Z.of_nat k) then Some (region_at slotBytes (Z.to_nat (s - 1))) else rs0 !! s.

Lemma remove_slots_lookup slots rs s :
  remove_slots slots rs !! s = if bool_decide (s ∈ hs_slot <$> slots) then None else rs !! s.
Proof.
  revert rs. induction slots as [|x slots IH]; intros rs; [done|]. unfold remove_slots in *. cbn [foldl].
  rewrite IH, fmap_cons. change (RemoveMemoryRegion (hs_slot x) rs) with (delete (hs_slot x) rs).
  destruct (decide (s = hs_slot x)) as [->|Hne].
  - rewrite lookup_delete_eq. rewrite (bool_decide_true (_ ∈ _ :: _)) by left. by case_bool_decide.
  - rewrite lookup_delete_ne by done. erewrite bool_decide_ext; [reflexivity|]. rewrite elem_of_cons. naive_solver.
Qed.

Section slots.
Context (host : Z → bool) (slotBytes : Z) (rs0 : Regions).
Context (Hpos : 0 < slotBytes) (Hfree : ∀ s, 1 ≤ s ≤ maxHotplugSlots → rs0 !! s = None).

Lemma map_slots_spec n k rs :
  Z.of_nat (k + n) ≤ maxHotplugSlots → hotplugRegionBaseAddr + Z.of_nat (k + n) * slotBytes ≤ 2 ^ 64 → mapped slotBytes k rs0 rs →
  let '(rs', r) := map_slots host slotBytes (seq k n) (slot_at slotBytes <$> seq 0 k) rs in
  match r with
  | inl _ => rs' = rs0
  | inr slots => slots = slot_at slotBytes <$> seq 0 (k + n) ∧ mapped slotBytes (k + n) rs0 rs'
  end.
Proof.
  revert k rs. induction n as [|n IH]; intros k rs Hk Hfit Hm; cbn [seq map_slots].
  { rewrite Nat.add_0_r. done. }
  unfold maxHotplugSlots, hotplugRegionBaseAddr in *.
  assert (u32 (hotplugRegionSlotBase + u32 (Z.of_nat k)) = 1 + Z.of_nat k) as ->.
  { unfold u32, hotplugRegionSlotBase. rewrite !Z.mod_small; rewrite ?Z.mod_small; lia. }
  assert (u64 (4294967296 + Z.of_nat k * slotBytes) = 4294967296 + Z.of_nat k * slotBytes) as -> by (unfold u64; apply Z.mod_small; nia).
  unfold AddMemoryRegion. eq_is false. replace (1 + Z.of_nat k =? 0) with false by lia.
  rewrite (Hm (1 + Z.of_nat k)). and_is false. rewrite Hfree by lia. destruct (host (Z.of_nat k)); cbn [negb].
  - match goal with |- context [map_slots host slotBytes _ ?l ?r] =>
      assert (l = slot_at slotBytes <$> seq 0 (S k)) as -> by (rewrite seq_S, fmap_app; done) end.
    rewrite <- Nat.add_succ_comm. apply IH; [lia|lia|].
    intros s. destruct (decide (s = 1 + Z.of_nat k)) as [->|Hne].
    + rewrite lookup_insert_eq. and_is true. by replace (Z.to_nat (1 + Z.of_nat k - 1)) with k by lia.
    + rewrite lookup_insert_ne by done. rewrite Hm.
      replace ((1 <=? s) && (s <=? Z.of_nat (S k))) with ((1 <=? s) && (s <=? Z.of_nat k)) by blia. done.
  - apply map_eq. intros s. rewrite remove_slots_lookup, Hm. rewrite <- list_fmap_compose.
    destruct (decide (1 ≤ s ≤ Z.of_nat k)) as [Hs|Hs].
    + rewrite bool_decide_true; [by rewrite Hfree by lia|]. apply list_elem_of_fmap. exists (Z.to_nat (s - 1)). cbn.
      rewrite elem_of_seq. lia.
    + and_is false. rewrite bool_decide_false; [done|]. rewrite list_elem_of_fmap. intros (i & -> & Hi%elem_of_seq). cbn in Hs. lia.
Qed.
End slots.

(** A configuration whose region ends below 2^64. *)
Definition config_fits (cfg : MemoryHotplugConfig) : Prop :=
  0 ≤ TotalSizeMiB cfg ∧ 0 ≤ SlotSizeMiB cfg ∧ 0 ≤ BlockSizeMiB cfg ∧ hotplugRegionBaseAddr + TotalSizeMiB cfg * 2 ^ 20 ≤ 2 ^ 64.

Lemma validate_None cfg :
  config_fits cfg → validateMemoryHotplugConfig cfg = None →
  0 < BlockSizeMiB cfg ∧ 0 < SlotSizeMiB cfg ∧ (BlockSizeMiB cfg | SlotSizeMiB cfg) ∧
  ∃ n, 1 ≤ n ≤ maxHotplugSlots ∧ TotalSizeMiB cfg = n * SlotSizeMiB cfg.
Proof.
  intros (H1 & H2 & H3 & _). unfold validateMemoryHotplugConfig. cbv zeta.
  destruct (TotalSizeMiB cfg =? 0) eqn:E1; [done|]. destruct (SlotSizeMiB cfg =? 0) eqn:E2; [done|].
  destruct (BlockSizeMiB cfg =? 0) eqn:E3; [done|]. destruct (TotalSizeMiB cfg <? _) eqn:E4; [done|].
  destruct (SlotSizeMiB cfg <? _) eqn:E5; [done|]. destruct (negb (_ mod SlotSizeMiB cfg =? 0)) eqn:E6; [done|].
  destruct (negb (_ mod BlockSizeMiB cfg =? 0)) eqn:E7; [done|]. destruct (_ || _) eqn:E8; [done|]. intros _. b2p.
  splits; [lia|lia|apply Z.mod_divide; lia|]. exists (TotalSizeMiB cfg / SlotSizeMiB cfg). split.
  - assert (0 ≤ TotalSizeMiB cfg / SlotSizeMiB cfg) by (apply Z.div_pos; lia). lia.
  - rewrite Z.mul_comm. apply Z.div_exact; lia.
Qed.

Lemma MiB_bytes v : 0 ≤ v → v * 2 ^ 20 < 2 ^ 64 → hotplugMiBToBytes v = v * 2 ^ 20.
Proof. intros. unfold hotplugMiBToBytes, u64. rewrite Z.shiftl_mul_pow2 by lia. apply Z.mod_small. lia. Qed.

(** ** Properties *)

(** The hotplug region is laid out without gaps or overlaps. For a
    configuration that is accepted and whose region ends below 2^64, set-up does
    not panic: it either maps every slot, in which case slot [i] (numbered from 1)
    covers exactly bytes [i * slotBytes, (i+1) * slotBytes) of the region, the
    slots fill the region, no other slot changed and nothing is plugged yet; or
    it fails and leaves the machine's slots as they were. *)
Theorem hotplug_setup_tiles host cfg rs :
  config_fits cfg → validateMemoryHotplugConfig cfg = None → (∀ s, 1 ≤ s ≤ maxHotplugSlots → rs !! s = None) →
  ∃ rs' r, setupMemoryHotplug host (Some cfg) rs = Ok (rs', r) ∧
  match r with
  | inl _ => rs' = rs
  | inr None => False
  | inr (Some st) =>
      ∃ n : nat, 1 ≤ Z.of_nat n ≤ maxHotplugSlots ∧ hp_slots st = slot_at (hp_slotBytes st) <$> seq 0 n ∧
      hp_totalBytes st = Z.of_nat n * hp_slotBytes st ∧ hp_totalBytes st = TotalSizeMiB cfg * 2 ^ 20 ∧
      0 < hp_blockBytes st ∧ (hp_blockBytes st | hp_slotBytes st) ∧ hp_pluggedBytes st = 0 ∧ hp_requestedBytes st = 0 ∧
      mapped (hp_slotBytes st) n rs rs'
  end.
Proof.
  intros Hfit Hv Hfree. destruct (validate_None cfg Hfit Hv) as (Hb & Hs & Hd & n & Hn & Ht).
  destruct Hfit as (_ & _ & _ & Hend). unfold maxHotplugSlots, hotplugRegionBaseAddr in *.
  assert (BlockSizeMiB cfg ≤ SlotSizeMiB cfg) by (apply Z.divide_pos_le; [lia|done]).
  unfold setupMemoryHotplug. rewrite Hv. cbv zeta. rewrite !MiB_bytes by nia. eq_is false.
  replace (TotalSizeMiB cfg * 2 ^ 20 / (SlotSizeMiB cfg * 2 ^ 20)) with n
    by (rewrite Ht, <- Z.mul_assoc, Z.div_mul by lia; done).
  pose proof (map_slots_spec host (SlotSizeMiB cfg * 2 ^ 20) rs ltac:(lia) Hfree (Z.to_nat n) 0 rs) as Hmap.
  rewrite Nat.add_0_l, Z2Nat.id in Hmap by lia. cbn [seq fmap list_fmap] in Hmap.
  destruct (map_slots host _ (seq 0 (Z.to_nat n)) [] rs) as [rs' r]. eexists _, _. split; [reflexivity|].
  specialize (Hmap ltac:(unfold maxHotplugSlots; lia) ltac:(unfold hotplugRegionBaseAddr; nia)).
  destruct r as [e|slots]; [apply Hmap; intros s; and_is false; done|].
  destruct Hmap as [-> Hm]; [intros s; and_is false; done|]. exists (Z.to_nat n). rewrite Z2Nat.id by lia.
  cbn [hp_slots hp_slotBytes hp_totalBytes hp_blockBytes hp_pluggedBytes hp_requestedBytes].
  splits; try done; [lia|lia|nia|nia|]. by apply Z.mul_divide_mono_r.
Qed.

Lemma hotplug_setup_tiles_witness :
  ∃ rs' r, setupMemoryHotplug (fun _ => true) (Some (mkHotplugConfig 1024 512 128)) ∅ = Ok (rs', r).
Proof.
  destruct (hotplug_setup_tiles (fun _ => true) (mkHotplugConfig 1024 512 128) ∅) as (rs' & r & H & _).
  - unfold config_fits, hotplugRegionBaseAddr. cbn. lia.
  - vm_compute. reflexivity.
  - intros s _. reflexivity.
  - exists rs', r. exact H.
Defined.

(** An accepted resize is what the guest gets. When the host's update
    succeeds against the guest's own code, on a region as set up by the host and a
    guest kernel that changes one memory block at a time, then the guest has
    exactly the first blocks of the region online, up to the requested size, none
    of the others, and blocks outside the region are untouched; and the host
    remembers the requested size as both requested and plugged. *)
Theorem hotplug_update_plugs `{GuestKernelLaws} blockSize st fs miB st' :
  0 < blockSize → 0 ≤ miB → hp_baseAddr st = hotplugRegionBaseAddr → 0 < hp_blockBytes st → hp_totalBytes st + hotplugRegionBaseAddr < 2 ^ 64 →
  UpdateMemoryHotplug (agent_update blockSize fs) true (Some st) miB = Ok st' →
  let target := hotplugMiBToBytes miB in
  ∃ status fs', applyGuestMemoryHotplug blockSize (hotplug_request ModeMemoryHotplugUpdate st target) fs = Ok (status, fs') ∧
    hp_requestedBytes st' = target ∧ hp_pluggedBytes st' = target ∧ target ≤ hp_totalBytes st ∧ hp_slots st' = hp_slots st ∧
    (∀ b, hotplugRegionBaseAddr / blockSize ≤ b < (hotplugRegionBaseAddr + target) / blockSize → fs' !! b = Some "online"%string) ∧
    (∀ b, (hotplugRegionBaseAddr + target) / blockSize ≤ b < (hotplugRegionBaseAddr + hp_totalBytes st) / blockSize →
      is_online fs' b = false) ∧
    (∀ b, b < hotplugRegionBaseAddr / blockSize ∨ (hotplugRegionBaseAddr + hp_totalBytes st) / blockSize ≤ b → fs' !! b = fs !! b).
Proof.
  intros Hbs Hm Hba Hbb Hend E target. unfold UpdateMemoryHotplug in E.
  destruct (validateMemoryHotplugUpdate st miB) eqn:Hval; try done. cbn [mbind res_bind negb] in E. fold target in E.
  assert (0 ≤ target ≤ hp_totalBytes st) as Htg.
  { unfold validateMemoryHotplugUpdate in Hval. fold target in Hval. destruct (Z.ltb_spec (hp_totalBytes st) target); [done|].
    split; [apply Z.mod_pos_bound; lia|done]. }
  set (req := hotplug_request ModeMemoryHotplugUpdate st target) in *. unfold callGuestMemoryHotplug, agent_update in E.
  destruct (applyGuestMemoryHotplug blockSize req fs) as [[status fs']|e| |] eqn:Ea; try done. cbn in E. injection E as <-.
  pose proof (apply_blocks blockSize req fs status fs') as Happ. cbn [HotplugBaseAddr HotplugTotalBytes HotplugTargetBytes req hotplug_request] in Happ.
  rewrite Hba in Happ. unfold hotplugRegionBaseAddr in *.
  destruct Happ as (H1 & H2 & H3 & H4 & H5 & H6 & H7 & H8 & H9 & H10); [lia|lia|lia|lia|exact Ea|].
  exists status, fs'. cbn [hp_requestedBytes hp_pluggedBytes hp_slots set_plugged].
  assert (∀ x, 0 ≤ x → 4294967296 + x < 2 ^ 64 → (4294967296 + x) / blockSize = 4294967296 / blockSize + x / blockSize) as Hdiv.
  { intros x Hx Hx'. rewrite <- (block_index blockSize) by lia. unfold u64. by rewrite Z.mod_small by lia. }
  rewrite !Hdiv by lia. splits; try done; lia.
Qed.

(** A guest kernel that always obeys. *)
#[export] Instance obedient_kernel : GuestKernel := {|
  gk_probe _ b fs := Some (<[b := "offline"%string]> fs);
  gk_set_state b v fs := Some (<[b := if bool_decide (v = "offline"%string) then "offline"%string else "online"%string]> fs)
|}.
#[export] Instance obedient_laws : GuestKernelLaws.
Proof. split; intros * [= <-] b' Hb'; by rewrite lookup_insert_ne. Qed.

Definition sample_hotplug : memoryHotplugState :=
  mkHotplugState (mkHotplugConfig 512 256 128) hotplugRegionBaseAddr (512 * 2 ^ 20) (256 * 2 ^ 20) (128 * 2 ^ 20) 0 0 0 [].

Lemma hotplug_update_plugs_witness :
  ∃ st', UpdateMemoryHotplug (agent_update (128 * 2 ^ 20) ∅) true (Some sample_hotplug) 384 = Ok st' ∧
    hp_pluggedBytes st' = 384 * 2 ^ 20.
Proof.
  eexists. split; [vm_compute; reflexivity|].
  edestruct (hotplug_update_plugs (128 * 2 ^ 20) sample_hotplug ∅ 384) as (status & fs' & _ & _ & Hp & _).
  6: { vm_compute. reflexivity. }
  - lia.
  - lia.
  - reflexivity.
  - cbn. lia.
  - unfold hotplugRegionBaseAddr. cbn. lia.
  - exact Hp.
Defined.

(** Sizes of 2^44 MiB and more wrap: a configuration with one such slot is
    accepted, its slot size in bytes is 0, and set-up divides by it. *)
Lemma hotplug_overflow_panics host rs :
  let cfg := mkHotplugConfig (2 ^ 44) (2 ^ 44) (2 ^ 44) in
  validateMemoryHotplugConfig cfg = None ∧ setupMemoryHotplug host (Some cfg) rs = Panic.
Proof. done. Qed.
