(* ===== verification/Events.v ===== *)
(** * VM lifecycle events (src/pkg/vmm/events.go)

    The event log of a virtual machine and its subscribers.  [Emit] appends under
    the lock, copies the list of subscribers, and sends to each of them after
    unlocking, without blocking; so an emission is several steps here, and other
    goroutines run between them.  A subscriber is a buffered channel, named by a
    number; sending on a closed channel is a panic, in a select as elsewhere. *)
From S2P Require Import Prelude.

Record Event := mkEvent { ev_Time : Z; ev_Type : string; ev_Message : string }.
Definition maxEvents : Z := 1000.
Definition subBuffer : Z := 64.

Record Chan := mkChan { ch_buf : list Event; ch_closed : bool }.

(** [sending]: the emissions that have unlocked, with the channels still to serve. *)
Record EventLog := mkEventLog {
  el_events : list Event;
  el_subs : list nat;
  el_chans : gmap nat Chan;
  el_sending : list (Event * list nat);
  el_emitted : list Event        (** everything ever emitted, for the statements *)
}.

Definition NewEventLog : EventLog := mkEventLog [] [] ∅ [] [].

(** The locked part of [Emit]. *)
Definition emit_locked (ev : Event) (el : EventLog) : EventLog :=
  mkEventLog (keep_last maxEvents (el_events el ++ [ev])) (el_subs el) (el_chans el)
    (el_sending el ++ [(ev, el_subs el)]) (el_emitted el ++ [ev]).

(** [select { case ch <- ev: default: }] *)
Definition try_send (ev : Event) (c : Chan) : res unit Chan :=
  if ch_closed c then Panic
  else if zlen (ch_buf c) <? subBuffer then Ok (mkChan (ch_buf c ++ [ev]) false)
  else Ok c.

Definition set_chan (el : EventLog) (id : nat) (c : Chan) (sending : list (Event * list nat)) : EventLog :=
  mkEventLog (el_events el) (el_subs el) (<[id := c]> (el_chans el)) sending (el_emitted el).

(** The next send of the [i]-th emission under way. *)
Definition emit_send (i : nat) (el : EventLog) : option (res unit EventLog) :=
  match el_sending el !! i with
  | Some (ev, id :: rest) =>
      c ← el_chans el !! id;
      Some (c' ← try_send ev c; Ok (set_chan el id c' (<[i := (ev, rest)]> (el_sending el))))
  | _ => None
  end.

Definition since_filter (since : option Z) (l : list Event) : list Event :=
  match since with
  | None => l
  | Some t => filter (fun ev => t < ev_Time ev) l
  end.
(** [since] is [None] for the zero time. *)
Definition el_Events (since : option Z) (el : EventLog) : list Event := since_filter since (el_events el).

Definition fresh_chan (el : EventLog) : nat := fresh (dom (el_chans el) : gset nat).
Definition Subscribe (el : EventLog) : nat * EventLog :=
  let id := fresh_chan el in
  (id, mkEventLog (el_events el) (el_subs el ++ [id]) (<[id := mkChan [] false]> (el_chans el)) (el_sending el) (el_emitted el)).

(** The function that [Subscribe] returns: remove the first entry that is [ch]
    and close the channel. *)
Fixpoint remove_sub (id : nat) (subs : list nat) : list nat :=
  match subs with
  | [] => []
  | s :: subs => if bool_decide (s = id) then subs else s :: remove_sub id subs
  end.
Definition unsubscribe (id : nat) (el : EventLog) : EventLog :=
  if bool_decide (id ∈ el_subs el) then
    mkEventLog (el_events el) (remove_sub id (el_subs el))
      (alter (fun c => mkChan (ch_buf c) true) id (el_chans el)) (el_sending el) (el_emitted el)
  else el.

(** A subscriber takes an event from its channel. *)
Definition receive (id : nat) (el : EventLog) : option (Event * EventLog) :=
  c ← el_chans el !! id;
  match ch_buf c with
  | ev :: rest => Some (ev, set_chan el id (mkChan rest (ch_closed c)) (el_sending el))
  | [] => None
  end.

(** ** Interleavings *)
Inductive el_step : EventLog → EventLog → Prop :=
  | EStart ev el : el_step el (emit_locked ev el)
  | ESend i el el' : emit_send i el = Some (Ok el') → el_step el el'
  | ESub el : el_step el (Subscribe el).2
  | EUnsub id el : el_step el (unsubscribe id el)
  | ERecv id ev el el' : receive id el = Some (ev, el') → el_step el el'.
Definition el_reachable : EventLog → Prop := rtc el_step NewEventLog.

(** A subscriber is in the list exactly while its channel is open; nobody's
    buffer exceeds its size; emissions only name channels that exist. *)
Definition el_inv (el : EventLog) : Prop :=
  el_events el = keep_last maxEvents (el_emitted el) ∧ NoDup (el_subs el) ∧
  (∀ id, id ∈ el_subs el ↔ ∃ c, el_chans el !! id = Some c ∧ ch_closed c = false) ∧
  (∀ id c, el_chans el !! id = Some c → zlen (ch_buf c) ≤ subBuffer) ∧
  (∀ ev ids, (ev, ids) ∈ el_sending el → ∀ id, id ∈ ids → is_Some (el_chans el !! id)).

Lemma NewEventLog_inv : el_inv NewEventLog.
Proof. split; [done|]. split; [constructor|]. cbn. split; [set_solver|]. split; [done|set_solver]. Qed.

Lemma remove_sub_spec id subs : NoDup subs → NoDup (remove_sub id subs) ∧ ∀ x, x ∈ remove_sub id subs ↔ x ∈ subs ∧ x ≠ id.
Proof.
  induction 1 as [|s subs Hs Hnd [IH1 IH2]]; cbn; [split; [constructor|set_solver]|].
  case_bool_decide as E; [subst; split; [done|set_solver]|]. split; [|set_solver].
  constructor; [|done]. set_solver.
Qed.

Lemma emit_locked_inv ev el : el_inv el → el_inv (emit_locked ev el).
Proof.
  intros (H1 & H2 & H3 & H4 & H5). split; [cbn; rewrite H1; by apply keep_last_app|]. split; [done|]. split; [done|].
  split; [done|]. cbn. intros ev' ids Hin id Hid. apply elem_of_app in Hin as [Hin|Hin]; [by eapply H5|].
  apply list_elem_of_singleton in Hin as [= -> ->]. apply H3 in Hid as (c & Hc & _). by exists c.
Qed.

(** Changing what a channel holds, not whether it is open. *)
Lemma set_chan_inv el id c c' sending :
  el_inv el → el_chans el !! id = Some c → ch_closed c' = ch_closed c → zlen (ch_buf c') ≤ subBuffer →
  (∀ ev ids, (ev, ids) ∈ sending → ∃ ids', (ev, ids') ∈ el_sending el ∧ ∀ x, x ∈ ids → x ∈ ids') →
  el_inv (set_chan el id c' sending).
Proof.
  intros (H1 & H2 & H3 & H4 & H5) Hc Hcl Hb Hs. split; [done|]. split; [done|]. cbn. splits.
  - intros x. rewrite H3. destruct (decide (x = id)) as [->|Hne].
    + rewrite lookup_insert_eq, Hc. split; intros (c1 & [= <-] & Hcl1); eexists; (split; [reflexivity|congruence]).
    + by rewrite lookup_insert_ne.
  - intros x cx. destruct (decide (x = id)) as [->|Hne]; [rewrite lookup_insert_eq; by intros [= <-]|].
    rewrite lookup_insert_ne by done. apply H4.
  - intros ev ids Hin x Hx. destruct (Hs ev ids Hin) as (ids' & Hin' & Hsub). rewrite lookup_insert_is_Some'. right.
    by eapply H5; [|apply Hsub].
Qed.

Lemma Subscribe_inv el : el_inv el → el_inv (Subscribe el).2.
Proof.
  intros (H1 & H2 & H3 & H4 & H5). set (id := fresh_chan el).
  assert (el_chans el !! id = None) as Hf by (apply not_elem_of_dom; unfold id, fresh_chan; apply is_fresh).
  assert (id ∉ el_subs el) as Hns by (intros (c & Hc & _)%H3; congruence).
  split; [done|]. cbn. fold id. splits.
  - apply NoDup_app. split; [done|]. split; [set_solver|apply NoDup_singleton].
  - intros x. rewrite elem_of_app, list_elem_of_singleton, H3. destruct (decide (x = id)) as [->|Hne].
    + rewrite lookup_insert_eq. split; [intros _; by eexists|auto].
    + rewrite lookup_insert_ne by done. naive_solver.
  - intros x cx. destruct (decide (x = id)) as [->|Hne].
    + rewrite lookup_insert_eq. intros [= <-]. by vm_compute.
    + rewrite lookup_insert_ne by done. apply H4.
  - intros ev ids Hin x Hx. rewrite lookup_insert_is_Some'. right. by eapply H5.
Qed.

Lemma unsubscribe_inv id el : el_inv el → el_inv (unsubscribe id el).
Proof.
  intros Hi. pose proof Hi as (H1 & H2 & H3 & H4 & H5). unfold unsubscribe. case_bool_decide as Hin; [|done].
  destruct (remove_sub_spec id (el_subs el) H2) as [R1 R2]. split; [done|]. cbn. splits; [done| | |].
  - intros x. rewrite R2, H3. destruct (decide (x = id)) as [->|Hne].
    + rewrite lookup_alter_eq. split; [naive_solver|]. intros (c & Hc & Hcl). apply fmap_Some in Hc as (c0 & _ & ->). done.
    + rewrite lookup_alter_ne by done. naive_solver.
  - intros x c. destruct (decide (x = id)) as [->|Hne]; [|rewrite lookup_alter_ne by done; apply H4].
    rewrite lookup_alter_eq. intros (c0 & Hc0 & ->)%fmap_Some. cbn. by eapply H4.
  - intros ev ids He x Hx. rewrite lookup_alter_is_Some. by eapply H5.
Qed.

Lemma el_step_inv el el' : el_step el el' → el_inv el → el_inv el'.
Proof.
  intros Hs Hi. destruct Hs as [ev el|i el el' E|el|id el|id ev el el' E].
  - by apply emit_locked_inv.
  - unfold emit_send in E. destruct (el_sending el !! i) as [[ev [|id rest]]|] eqn:Ei; try done.
    destruct (el_chans el !! id) as [c|] eqn:Ec; [|done]. cbn in E. unfold try_send in E.
    destruct (ch_closed c) eqn:Ecl; [done|]. pose proof Hi as (_ & _ & _ & Hlen & _). specialize (Hlen id c Ec).
    assert (∀ ev' ids, (ev', ids) ∈ <[i := (ev, rest)]> (el_sending el) →
      ∃ ids', (ev', ids') ∈ el_sending el ∧ ∀ x, x ∈ ids → x ∈ ids') as Hsub.
    { intros ev' ids Hin. apply list_elem_of_lookup in Hin as [j Hj].
      apply list_lookup_insert_Some in Hj as [(-> & [= <- <-] & _)|[_ Hj]];
        [|exists ids; split; [by eapply list_elem_of_lookup_2|done]].
      exists (id :: rest). split; [by eapply list_elem_of_lookup_2|]. intros x Hx. by right. }
    destruct (Z.ltb_spec (zlen (ch_buf c)) subBuffer) as [Hlt|Hge]; cbn in E; injection E as <-.
    + apply (set_chan_inv el id c); [done|done|done| |done]. cbn. rewrite zlen_app. change (zlen [ev]) with 1. lia.
    + by apply (set_chan_inv el id c).
  - by apply Subscribe_inv.
  - by apply unsubscribe_inv.
  - unfold receive in E. destruct (el_chans el !! id) as [c|] eqn:Ec; [|done]. cbn in E.
    destruct (ch_buf c) as [|e rest] eqn:Eb; [done|]. injection E as <- <-.
    pose proof Hi as (_ & _ & _ & Hlen & _). specialize (Hlen id c Ec). rewrite Eb, zlen_cons in Hlen.
    apply (set_chan_inv el id c); [done|done|done|cbn; lia|]. intros ev' ids Hin. by exists ids.
Qed.

Lemma el_reachable_inv el : el_reachable el → el_inv el.
Proof.
  intros Hr. assert (∀ a, el_inv a → rtc el_step a el → el_inv el) as Hgen.
  { clear Hr. intros a Ha Hs. induction Hs as [|a b c Hab _ IH]; [done|]. apply IH. exact (el_step_inv a b Hab Ha). }
  exact (Hgen NewEventLog NewEventLog_inv Hr).
Qed.

(** The event log. In every interleaving of emitters, subscribers and
    receivers the log is the last 1000 events that were emitted, in order, and a
    query with a time returns exactly the later ones of them; no channel holds
    more than 64 events, so that an emitter never blocks; and the subscribers on
    the list are exactly those whose channel is open. *)
Theorem eventlog_correct el since :
  el_reachable el →
  el_Events since el = since_filter since (keep_last maxEvents (el_emitted el)) ∧
  zlen (el_Events since el) ≤ maxEvents ∧
  (∀ id c, el_chans el !! id = Some c → zlen (ch_buf c) ≤ subBuffer ∧ (ch_closed c = false ↔ id ∈ el_subs el)) ∧
  (∀ i ev id rest, el_sending el !! i = Some (ev, id :: rest) → is_Some (emit_send i el)).
Proof.
  intros (H1 & H2 & H3 & H4 & H5)%el_reachable_inv. unfold el_Events. rewrite H1. splits; [done| | |].
  - assert (zlen (keep_last maxEvents (el_emitted el)) ≤ maxEvents) as Hk by (by apply keep_last_len).
    destruct since as [t|]; [|done]. cbn. pose proof (length_filter (fun ev => t < ev_Time ev) (keep_last maxEvents (el_emitted el))).
    unfold zlen in *. lia.
  - intros id c Hc. split; [by eapply H4|]. rewrite H3. split; [by exists c|]. intros (c' & Hc' & Hcl). congruence.
  - intros i ev id rest Hi. unfold emit_send. rewrite Hi. apply list_elem_of_lookup_2 in Hi.
    destruct (H5 ev (id :: rest) Hi id) as [c ->]; [left|]. cbn. by eexists.
Qed.

Definition sample_log : EventLog := emit_locked (mkEvent 5 "paused" "") (Subscribe (emit_locked (mkEvent 3 "running" "") NewEventLog)).2.

Lemma eventlog_correct_witness :
  el_reachable sample_log ∧ el_Events (Some 4) sample_log = since_filter (Some 4) (keep_last maxEvents (el_emitted sample_log)).
Proof.
  assert (el_reachable sample_log) as Hr.
  { eapply rtc_l; [apply (EStart (mkEvent 3 "running" ""))|]. eapply rtc_l; [apply ESub|].
    eapply rtc_l; [apply (EStart (mkEvent 5 "paused" ""))|]. apply rtc_refl. }
  split; [exact Hr|]. apply (eventlog_correct sample_log (Some 4) Hr).
Defined.

(** Unsubscribing during an emission crashes the process. A subscriber that
    unsubscribes after an emission copied the list of subscribers and before it
    sends to that subscriber leaves the emission with a closed channel, and the
    send panics. *)
Theorem emit_unsubscribe_panics el ev :
  el_reachable el → el_subs el = [] →
  let '(id, el1) := Subscribe el in
  let el2 := unsubscribe id (emit_locked ev el1) in
  el_reachable el2 ∧ emit_send (length (el_sending el)) el2 = Some Panic.
Proof.
  intros Hr Hno. set (id := fresh_chan el). unfold Subscribe. fold id. cbv zeta. set (el1 := mkEventLog _ _ _ _ _).
  set (el2 := unsubscribe id (emit_locked ev el1)). split.
  { eapply rtc_r; [|apply EUnsub]. eapply rtc_r; [|apply EStart]. eapply rtc_r; [exact Hr|apply ESub]. }
  assert (el_subs el1 = [id]) as Hsubs by (cbn; by rewrite Hno).
  unfold el2, unsubscribe. rewrite bool_decide_true by (cbn [el_subs emit_locked]; rewrite Hsubs; left).
  unfold emit_send. cbn [el_sending emit_locked el1 el_subs el_chans]. rewrite lookup_app_r, Nat.sub_diag by lia.
  cbn [lookup list_lookup]. rewrite Hno. cbn [app]. by rewrite lookup_alter_eq, lookup_insert_eq.
Qed.

Lemma emit_unsubscribe_panics_witness :
  let '(id, el1) := Subscribe NewEventLog in
  emit_send 0 (unsubscribe id (emit_locked (mkEvent 1 "stopped" "") el1)) = Some Panic.
Proof.
  destruct (emit_unsubscribe_panics NewEventLog (mkEvent 1 "stopped" "")) as [_ H]; [apply rtc_refl|reflexivity|exact H].
Defined.
