(* ===== verification/SnapshotMem.v ===== *)
(** * The memory of a snapshot

    How guest memory gets into a snapshot's mem.bin (src/pkg/vmm/vmm.go): the
    bitmap of dirty pages that KVM reports is extended with the pages that are not
    zero, and the pages of the bitmap are written, in runs, into a sparse file
    whose holes read as zero.  A file is the list of its bytes; [io k] is whether
    the write at offset [k] succeeds; the page size is a parameter. *)
From S2P Require Import Prelude.

Inductive save_err := OpenFailed | TruncateFailed | WriteFailed.

(** ** The zero test, eight bytes at a time *)
Fixpoint zero_words (fuel : nat) (buf : list Z) (i : Z) : option (res unit Z) :=
  match fuel with
  | O => Some NoFuel
  | S fuel =>
      if i + 8 <=? zlen buf then
        match getLE 8 buf i with
        | Some w => if negb (w =? 0) then None else zero_words fuel buf (i + 8)
        | None => Some Panic
        end
      else Some (Ok i)
  end.
(** [None]: a word that is not zero; otherwise where the words end. *)
Definition isAllZero (buf : list Z) : res unit bool :=
  match zero_words (S (length buf)) buf 0 with
  | None => Ok false
  | Some (Ok i) => Ok (forallb (fun b => b =? 0) (drop (Z.to_nat i) buf))
  | Some (Err e) => Err e
  | Some Panic => Panic
  | Some NoFuel => NoFuel
  end.

Section pages.
Context (pageSize : Z).

(** ** The bitmap *)
Definition bit_set (bitmap : list Z) (page : Z) : bool :=
  match at_ bitmap (page / 64) with Some w => Z.testbit w (page mod 64) | None => false end.

(** One page of [augmentDirtyBitmap]; the flag says whether the loop goes on. *)
Definition augment_page (mem : list Z) (pageIdx : Z) (bitmap : list Z) : res unit (bool * list Z) :=
  let wordIdx := pageIdx / 64 in
  let bitIdx := pageIdx mod 64 in
  if zlen bitmap <=? wordIdx then Ok (false, bitmap)
  else
    w ← must (at_ bitmap wordIdx);
    if has w (1 .<< bitIdx) then Ok (true, bitmap)
    else
      let offset := pageIdx * pageSize in
      let end_ := if zlen mem <? offset + pageSize then zlen mem else offset + pageSize in
      page ← must (slice mem offset end_);
      z ← isAllZero page;
      if negb z then bitmap ← must (set_at bitmap wordIdx (w .| (1 .<< bitIdx))); Ok (true, bitmap)
      else Ok (true, bitmap).

Definition totalPages (mem : list Z) : Z := (zlen mem + pageSize - 1) / pageSize.
Definition page_list (n : Z) : list Z := Z.of_nat <$> seq 0 (Z.to_nat n).
Definition augmentDirtyBitmap (mem bitmap : list Z) : res unit (list Z) :=
  for_break (augment_page mem) (page_list (totalPages mem)) bitmap.

(** ** Writing the runs *)
Record Saver := mkSaver { sv_file : list Z; sv_start : Z; sv_len : Z }.

Definition flush (io : Z → bool) (mem : list Z) (s : Saver) : res save_err Saver :=
  if sv_start s <? 0 then Ok s
  else
    let start := sv_start s * pageSize in
    let end_ := if zlen mem <? start + sv_len s * pageSize then zlen mem else start + sv_len s * pageSize in
    bs ← must (slice mem start end_);
    if negb (io start) then Err WriteFailed
    else file ← must (splice (sv_file s) start bs); Ok (mkSaver file (-1) 0).

(** A bit of a word that is not zero. *)
Definition save_bit (io : Z → bool) (mem : list Z) (wi word bit : Z) (s : Saver) : res save_err (bool * Saver) :=
  let pageIdx := wi * 64 + bit in
  if zlen mem <=? pageIdx * pageSize then Ok (false, s)
  else if has word (1 .<< bit) then
    Ok (true, mkSaver (sv_file s) (if sv_start s <? 0 then pageIdx else sv_start s) (sv_len s + 1))
  else s ← flush io mem s; Ok (true, s).

Definition save_word (io : Z → bool) (mem : list Z) (wi word : Z) (s : Saver) : res save_err Saver :=
  if word =? 0 then flush io mem s
  else for_break (save_bit io mem wi word) (page_list 64) s.

Definition saveDirtyPages (open_ok trunc_ok : bool) (io : Z → bool) (mem bitmap : list Z) : res save_err (list Z) :=
  if negb open_ok then Err OpenFailed
  else if negb trunc_ok then Err TruncateFailed
  else
    s ← for_each (fun '(wi, word) s => save_word io mem (Z.of_nat wi) word s) (imap pair bitmap)
          (mkSaver (replicate (length mem) 0) (-1) 0);
    s ← flush io mem s;
    Ok (sv_file s).

(** Without a dirty log the whole memory is copied. *)
Definition saveMemAsync (open_ok trunc_ok map_ok : bool) (mem : list Z) : res save_err (list Z) :=
  if negb open_ok then Err OpenFailed
  else if zlen mem =? 0 then Ok []
  else if negb trunc_ok then Err TruncateFailed
  else if negb map_ok then Err WriteFailed
  else Ok mem.

(** The memory file of [TakeSnapshotWithOptions]: [log] is the dirty log, when it
    is enabled and KVM returned one. *)
Definition snapshot_memory (open_ok trunc_ok map_ok : bool) (io : Z → bool) (log : option (list Z)) (mem : list Z) :
    res save_err (list Z) :=
  match log with
  | None => saveMemAsync open_ok trunc_ok map_ok mem
  | Some bitmap =>
      match augmentDirtyBitmap mem bitmap with
      | Ok bitmap => saveDirtyPages open_ok trunc_ok io mem bitmap
      | _ => Panic
      end
  end.

(** ** Pages and bytes *)
Context (Hps : 0 < pageSize).

(** A file that holds the bytes of [mem] on the pages of [P] and zero elsewhere. *)
Definition selected (P : Z → Prop) (mem file : list Z) : Prop :=
  length file = length mem ∧
  ∀ o : nat, (o < length mem)%nat →
    (P (Z.of_nat o / pageSize) → file !! o = mem !! o) ∧ (¬ P (Z.of_nat o / pageSize) → file !! o = Some 0).

Lemma page_in_mem (mem : list Z) p : 0 ≤ p → p * pageSize < zlen mem ↔ p < totalPages mem.
Proof.
  intros Hp. unfold totalPages. split; intros H.
  - apply Z.lt_le_trans with (p + 1); [lia|].
    apply Z.div_le_lower_bound; lia.
  - assert (p + 1 ≤ (zlen mem + pageSize - 1) / pageSize) as H' by lia.
    apply (Z.mul_le_mono_nonneg_l _ _ pageSize) in H'; [|lia].
    pose proof (Z.mul_div_le (zlen mem + pageSize - 1) pageSize Hps). lia.
Qed.

Lemma byte_page (mem : list Z) (o : nat) :
  (o < length mem)%nat → 0 ≤ Z.of_nat o / pageSize < totalPages mem.
Proof.
  intros Ho. split; [apply Z.div_pos; lia|]. apply page_in_mem; [apply Z.div_pos; lia|].
  pose proof (Z.mul_div_le (Z.of_nat o) pageSize Hps). unfold zlen. lia.
Qed.

Lemma page_bytes (a b : Z) (o : nat) :
  (a * pageSize ≤ Z.of_nat o < b * pageSize) ↔ a ≤ Z.of_nat o / pageSize < b.
Proof.
  pose proof (Z.mul_div_le (Z.of_nat o) pageSize Hps). pose proof (Z.mul_succ_div_gt (Z.of_nat o) pageSize Hps).
  set (q := Z.of_nat o / pageSize) in *. split; intros Hab; split; nia.
Qed.

(** ** Runs *)

(** [k] pages have been looked at; the pages before [frontier] are in the file,
    and the run that is pending ends where they do. *)
Definition handled (mem : list Z) (k : Z) : Z := Z.min k (totalPages mem).
Definition frontier (mem : list Z) (k : Z) (s : Saver) : Z := if sv_start s <? 0 then handled mem k else sv_start s.

Definition sv_inv (dirty : Z → bool) (mem : list Z) (k : Z) (s : Saver) : Prop :=
  selected (fun p => p < frontier mem k s ∧ dirty p = true) mem (sv_file s) ∧
  (sv_start s = -1 ∧ sv_len s = 0 ∨
   0 ≤ sv_start s ∧ 0 < sv_len s ∧ sv_start s + sv_len s = handled mem k ∧
   ∀ p, sv_start s ≤ p < handled mem k → dirty p = true).

(** The only error is a write that the host refused. *)
Definition ok_or_io {A} (io : Z → bool) (P : A → Prop) (m : res save_err A) : Prop :=
  match m with Ok a => P a | Err WriteFailed => ∃ k, io k = false | _ => False end.

Lemma ok_or_io_bind {A B} io (P : A → Prop) (Q : B → Prop) (m : res save_err A) f :
  ok_or_io io P m → (∀ a, P a → ok_or_io io Q (f a)) → ok_or_io io Q (a ← m; f a).
Proof. destruct m as [a|[]| |]; cbn; auto. Qed.

Lemma flush_inv io dirty mem k s :
  sv_inv dirty mem k s → ok_or_io io (fun s' => sv_inv dirty mem k s' ∧ sv_start s' = -1) (flush io mem s).
Proof.
  intros [[Hl Hsel] Hrun]. unfold flush. destruct (Z.ltb_spec (sv_start s) 0) as [Hneg|Hpos].
  { cbn. destruct Hrun as [Hrun|Hrun]; [|lia]. split; [|lia]. split; [done|]. by left. }
  destruct Hrun as [Hrun|(H0 & Hlen & Hend & Hd)]; [lia|]. cbv zeta. unfold frontier in Hsel.
  replace (sv_start s <? 0) with false in Hsel by lia.
  set (start := sv_start s * pageSize). set (end_ := if _ <? _ then _ else _).
  assert (sv_start s < totalPages mem) as Hin by (unfold handled in Hend; lia).
  apply (page_in_mem mem) in Hin; [|done].
  assert (start ≤ end_ ≤ zlen mem ∧ end_ ≤ start + sv_len s * pageSize ∧
    (end_ = zlen mem ∨ end_ = start + sv_len s * pageSize)) as (He & He' & Hec).
  { unfold end_. destruct (Z.ltb_spec (zlen mem) (start + sv_len s * pageSize)); unfold start in *; nia. }
  assert (0 ≤ start) as Hst by (unfold start; nia). clearbody end_.
  destruct (slice_ok mem start end_) as [bs Hbs]; [lia|lia|]. rewrite Hbs. cbn [must mbind res_bind].
  destruct (io start) eqn:Hio; cbn [negb]; [|cbn; by exists start].
  assert (zlen bs = end_ - start) as Hbl by (by eapply slice_len).
  destruct (splice_ok (sv_file s) start bs) as [file Hf]; [lia|unfold zlen in *; lia|]. rewrite Hf. cbn.
  split; [|done]. split; [|by left]. pose proof (splice_len _ _ _ _ Hf) as Hfl. split; [unfold zlen in *; cbn; lia|].
  intros o Ho. cbn [sv_file]. unfold frontier. cbn [sv_start Z.ltb Z.compare]. specialize (Hsel o Ho).
  destruct (decide (start ≤ Z.of_nat o < end_)) as [Hr|Hr].
  - assert (sv_start s ≤ Z.of_nat o / pageSize < handled mem k) as Hp by (apply page_bytes; unfold start in *; nia).
    assert (file !! o = mem !! o) as Heq.
    { rewrite (splice_lookup_in _ _ _ _ o Hf) by (unfold zlen in *; lia). rewrite (slice_lookup _ _ _ _ _ Hbs) by lia.
      f_equal. lia. }
    split; [done|]. intros Hn. destruct Hn. split; [lia|by apply Hd].
  - rewrite (splice_lookup_out _ _ _ _ o Hf) by (unfold zlen in *; lia).
    assert (¬ (sv_start s ≤ Z.of_nat o / pageSize < handled mem k)) as Hp.
    { intros Hp. apply page_bytes in Hp. rewrite <- Hend in Hp. unfold start, zlen in *. nia. }
    split; [intros [Hlt Hdp]; apply Hsel; split; [lia|done]|]. intros Hn. apply Hsel. intros [Hlt Hdp]. apply Hn. split; [lia|done].
Qed.

(** A clean page: flush, and move on. *)
Lemma sv_inv_advance dirty mem k k' s :
  sv_inv dirty mem k s → sv_start s = -1 → k ≤ k' → (∀ p, k ≤ p < k' → dirty p = false) → sv_inv dirty mem k' s.
Proof.
  intros [[Hl Hsel] Hrun] Hs Hk Hc. split; [|destruct Hrun; [by left|lia]]. split; [done|]. intros o Ho. specialize (Hsel o Ho).
  pose proof (byte_page mem o Ho) as Hp. unfold frontier, handled in *. rewrite Hs in *. cbn [Z.ltb Z.compare] in *.
  split.
  - intros [Hlt Hd]. apply Hsel. split; [|done]. destruct (decide (Z.of_nat o / pageSize < k)) as [|Hge]; [lia|].
    rewrite Hc in Hd by lia. done.
  - intros Hn. apply Hsel. intros [Hlt Hd]. apply Hn. split; [lia|done].
Qed.

(** Pages beyond the memory do not matter. *)
Lemma sv_inv_beyond dirty mem k k' s : sv_inv dirty mem k s → totalPages mem ≤ k → k ≤ k' → sv_inv dirty mem k' s.
Proof.
  intros H Ht Hk. unfold sv_inv, frontier, handled in *. replace (k' `min` totalPages mem) with (k `min` totalPages mem) by lia. done.
Qed.

(** A dirty page joins the run. *)
Lemma sv_inv_dirty dirty mem k s :
  sv_inv dirty mem k s → 0 ≤ k < totalPages mem → dirty k = true →
  sv_inv dirty mem (k + 1) (mkSaver (sv_file s) (if sv_start s <? 0 then k else sv_start s) (sv_len s + 1)).
Proof.
  intros [Hsel Hrun] Hk Hd. unfold sv_inv, frontier, handled in *. cbn [sv_file sv_start sv_len].
  replace (k `min` totalPages mem) with k in * by lia. replace ((k + 1) `min` totalPages mem) with (k + 1) by lia.
  destruct Hrun as [[Hs Hl]|(H0 & Hl & He & Hall)].
  - rewrite Hs, Hl in *. cbn [Z.ltb Z.compare] in *. replace (k <? 0) with false by lia. split; [done|]. right. splits; try lia.
    intros p Hp. by replace p with k by lia.
  - replace (sv_start s <? 0) with false in * by lia. replace (sv_start s <? 0) with false by lia. split; [done|]. right.
    splits; try lia. intros p Hp. destruct (decide (p = k)) as [->|]; [done|]. apply Hall. lia.
Qed.

Section save.
Context (io : Z → bool) (mem bitmap : list Z).
#[local] Abbreviation dirty := (bit_set bitmap).

Lemma dirty_bit wi word b : at_ bitmap wi = Some word → 0 ≤ b < 64 → dirty (wi * 64 + b) = Z.testbit word b.
Proof.
  intros Hw Hb. unfold bit_set. rewrite Z.add_comm, Z.div_add, Z.div_small, Z.add_0_l by lia. rewrite Hw.
  by rewrite Z.mod_add, Z.mod_small by lia.
Qed.

Lemma save_bit_inv wi word b s :
  at_ bitmap wi = Some word → 0 ≤ wi → 0 ≤ b < 64 → sv_inv dirty mem (wi * 64 + b) s →
  ok_or_io io (fun r => sv_inv dirty mem (if r.1 : bool then wi * 64 + (b + 1) else (wi + 1) * 64) r.2)
    (save_bit io mem wi word b s).
Proof.
  intros Hw Hwi Hb Hs. pose proof (dirty_bit wi word b Hw Hb) as Hbit. unfold save_bit. cbv zeta. rewrite has_shift_bit by lia.
  destruct (Z.leb_spec (zlen mem) ((wi * 64 + b) * pageSize)) as [Hout|Hin].
  { cbn. apply (sv_inv_beyond _ _ (wi * 64 + b)); [done| |lia].
    destruct (decide (wi * 64 + b < totalPages mem)) as [Hlt|]; [|lia]. apply page_in_mem in Hlt; lia. }
  apply page_in_mem in Hin; [|lia]. destruct (Z.testbit word b) eqn:Ew.
  - cbn [ok_or_io fst snd]. rewrite Z.add_assoc. apply sv_inv_dirty; [done|lia|by rewrite Hbit].
  - eapply ok_or_io_bind; [apply (flush_inv io dirty mem (wi * 64 + b)); done|]. intros s' [Hs' Hneg]. cbn.
    apply (sv_inv_advance _ _ (wi * 64 + b)); [done|done|lia|]. intros p Hp. replace p with (wi * 64 + b) by lia. by rewrite Hbit.
Qed.

(** The bits [b], [b+1], ... of word [wi]. *)
Lemma save_bits_inv wi word n b s :
  at_ bitmap wi = Some word → 0 ≤ wi → 0 ≤ b → b + Z.of_nat n = 64 → sv_inv dirty mem (wi * 64 + b) s →
  ok_or_io io (sv_inv dirty mem ((wi + 1) * 64))
    (for_break (save_bit io mem wi word) ((fun i => b + Z.of_nat i) <$> seq 0 n) s).
Proof.
  intros Hw Hwi. revert b s. induction n as [|n IH]; intros b s Hb Hn Hs.
  { cbn. by replace ((wi + 1) * 64) with (wi * 64 + b) by lia. }
  assert ((fun i => b + Z.of_nat i) <$> seq 0 (S n) = b :: ((fun i => (b + 1) + Z.of_nat i) <$> seq 0 n)) as ->.
  { cbn [seq]. rewrite fmap_cons, <- fmap_S_seq, <- list_fmap_compose. f_equal; [lia|]. apply list_fmap_ext. intros i x _. cbn. lia. }
  cbn [for_break]. eapply ok_or_io_bind; [apply save_bit_inv; [done|done|lia|done]|].
  intros [[] s'] Hs'; cbn [fst snd] in Hs'; [|done]. apply IH; [lia|lia|done].
Qed.

Lemma save_word_inv wi word s :
  at_ bitmap wi = Some word → 0 ≤ wi → sv_inv dirty mem (wi * 64) s →
  ok_or_io io (sv_inv dirty mem ((wi + 1) * 64)) (save_word io mem wi word s).
Proof.
  intros Hw Hwi Hs. unfold save_word. destruct (Z.eqb_spec word 0) as [->|Hne].
  - pose proof (flush_inv io dirty mem (wi * 64) s Hs) as Hf. destruct (flush io mem s) as [s'|[]| |]; cbn in *; try done.
    destruct Hf as [Hs' Hneg]. apply (sv_inv_advance _ _ (wi * 64)); [done|done|lia|]. intros p Hp. unfold bit_set.
    replace (p / 64) with wi by (apply Z.div_unique with (p - wi * 64); lia).
    rewrite Hw. apply Z.bits_0.
  - apply (save_bits_inv wi word 64 0); [done|done|lia|lia|]. by rewrite Z.add_0_r.
Qed.

Lemma save_words_inv n k s :
  (k + n = length bitmap)%nat → sv_inv dirty mem (Z.of_nat k * 64) s →
  ok_or_io io (sv_inv dirty mem (zlen bitmap * 64))
    (for_each (fun '(wi, word) s => save_word io mem (Z.of_nat wi) word s) (drop k (imap pair bitmap)) s).
Proof.
  revert k s. induction n as [|n IH]; intros k s Hk Hs.
  - rewrite drop_ge by (rewrite length_imap; lia). cbn. by replace (zlen bitmap) with (Z.of_nat k) by (unfold zlen; lia).
  - destruct (lookup_lt_is_Some_2 bitmap k) as [w Hw]; [lia|].
    rewrite (drop_S _ (k, w)) by (rewrite list_lookup_imap, Hw; done). cbn [for_each].
    eapply ok_or_io_bind; [apply save_word_inv; [unfold at_; le_is true; by rewrite Nat2Z.id|lia|done]|].
    intros s' Hs'. apply IH; [lia|]. by replace (Z.of_nat (S k)) with (Z.of_nat k + 1) by lia.
Qed.

(** The file holds the dirty pages, and zero elsewhere. *)
Lemma saveDirtyPages_selected :
  ok_or_io io (selected (fun p => dirty p = true) mem) (saveDirtyPages true true io mem bitmap).
Proof.
  unfold saveDirtyPages. cbn [negb]. eapply ok_or_io_bind.
  { rewrite <- (drop_0 (imap pair bitmap)). apply (save_words_inv (length bitmap) 0); [lia|].
    split; [|by left]. split; [cbn; apply length_replicate|]. intros o Ho. cbn. split; [|intros _; by apply lookup_replicate_2].
    intros [Hlt _]. unfold frontier, handled in Hlt. cbn in Hlt. pose proof (byte_page mem o Ho). lia. }
  intros s Hs. eapply ok_or_io_bind; [by apply flush_inv|]. intros s' [[Hsel _] Hneg]. cbn. destruct Hsel as [Hl Hsel].
  split; [done|]. intros o Ho. specialize (Hsel o Ho). unfold frontier, handled in Hsel. rewrite Hneg in Hsel. cbn in Hsel.
  pose proof (byte_page mem o Ho) as Hp.
  assert (dirty (Z.of_nat o / pageSize) = true → Z.of_nat o / pageSize < zlen bitmap * 64) as Hrange.
  { unfold bit_set. destruct (at_ bitmap _) as [w|] eqn:Ew; [|done]. intros _. unfold at_ in Ew.
    destruct (0 <=? _); [|done]. apply lookup_lt_Some in Ew. unfold zlen.
    pose proof (Z.mul_div_le (Z.of_nat o / pageSize) 64 ltac:(lia)). pose proof (Z.mod_pos_bound (Z.of_nat o / pageSize) 64 ltac:(lia)).
    pose proof (Z.div_mod (Z.of_nat o / pageSize) 64 ltac:(lia)). lia. }
  split; [intros Hd; apply Hsel; split; [specialize (Hrange Hd); lia|done]|]. intros Hn. apply Hsel. intros [_ Hd]. done.
Qed.
End save.

(** ** The zero test *)
Definition all_zero (buf : list Z) : bool := forallb (fun b => b =? 0) buf.

Lemma le_decode_zero bs : bytes bs → (le_decode bs =? 0) = all_zero bs.
Proof.
  induction 1 as [|b bs Hb Hbs IH]; [done|]. cbn. unfold all_zero in IH. rewrite <- IH. pose proof (le_decode_bound bs Hbs).
  unfold is_byte in Hb. blia.
Qed.

Lemma zero_words_spec fuel buf i :
  bytes buf → 0 ≤ i ≤ zlen buf → zlen buf - i < Z.of_nat fuel →
  match zero_words fuel buf i with
  | None => all_zero (drop (Z.to_nat i) buf) = false
  | Some (Ok j) => all_zero (drop (Z.to_nat i) buf) = all_zero (drop (Z.to_nat j) buf)
  | _ => False
  end.
Proof.
  intros Hb. revert i. induction fuel as [|fuel IH]; intros i Hi Hf; cbn [zero_words].
  { lia. }
  destruct (Z.leb_spec (i + 8) (zlen buf)) as [Hin|Hout]; [|done].
  unfold getLE. destruct (slice_ok buf i (i + 8)) as [bs Hs]; [lia|lia|]. change (Z.of_nat 8) with 8. rewrite Hs. cbn [fmap option_fmap option_map].
  pose proof (bytes_slice _ _ _ _ Hb Hs) as Hbs. rewrite le_decode_zero by done.
  assert (drop (Z.to_nat i) buf = bs ++ drop (Z.to_nat (i + 8)) buf) as Hd.
  { apply slice_Some in Hs as [_ ->]. replace (Z.to_nat (i + 8 - i)) with 8%nat by lia.
    replace (Z.to_nat (i + 8)) with (Z.to_nat i + 8)%nat by lia. by rewrite <- drop_drop, take_drop. }
  assert (all_zero (drop (Z.to_nat i) buf) = all_zero bs && all_zero (drop (Z.to_nat (i + 8)) buf)) as Hz.
  { rewrite Hd. unfold all_zero. apply forallb_app. }
  destruct (all_zero bs); cbn [negb]; [|by rewrite Hz]. specialize (IH (i + 8) ltac:(lia) ltac:(lia)).
  destruct (zero_words fuel buf (i + 8)) as [[j|e| |]|]; [by rewrite Hz|done..|by rewrite Hz].
Qed.

Lemma isAllZero_spec buf : bytes buf → isAllZero buf = Ok (all_zero buf).
Proof.
  intros Hb. unfold isAllZero. pose proof (zero_words_spec (S (length buf)) buf 0 Hb ltac:(pose proof (zlen_nonneg buf); lia) ltac:(unfold zlen; lia)) as H.
  rewrite drop_0 in H. destruct (zero_words _ buf 0) as [[j|e| |]|]; try done; by rewrite H.
Qed.

(** ** Extending the bitmap *)
Definition page_of (mem : list Z) (p : Z) : list Z := take (Z.to_nat pageSize) (drop (Z.to_nat (p * pageSize)) mem).

Lemma bit_set_insert bitmap wi w p :
  at_ bitmap wi = Some w → 0 ≤ p → wi = p / 64 →
  ∃ bm, set_at bitmap wi (w .| (1 .<< (p mod 64))) = Some bm ∧ length bm = length bitmap ∧
    ∀ q, 0 ≤ q → bit_set bm q = bit_set bitmap q || (q =? p).
Proof.
  intros Hw Hp ->. assert (0 ≤ p / 64) as Hd by (apply Z.div_pos; lia). unfold at_ in Hw. rewrite (proj2 (Z.leb_le 0 _) Hd) in Hw.
  pose proof (lookup_lt_Some _ _ _ Hw) as Hlt. unfold set_at. rewrite (proj2 (Z.leb_le 0 _) Hd).
  replace (p / 64 <? zlen bitmap) with true by (unfold zlen; lia). cbn [andb]. eexists. split; [done|].
  split; [apply length_insert|]. intros q Hq. unfold bit_set, at_. assert (0 ≤ q / 64) as Hqd by (apply Z.div_pos; lia).
  rewrite (proj2 (Z.leb_le 0 _) Hqd). pose proof (Z.div_mod p 64 ltac:(lia)). pose proof (Z.div_mod q 64 ltac:(lia)).
  pose proof (Z.mod_pos_bound p 64 ltac:(lia)). pose proof (Z.mod_pos_bound q 64 ltac:(lia)).
  destruct (decide (q / 64 = p / 64)) as [He|He].
  - rewrite He, list_lookup_insert_eq, Hw by done. rewrite Z.lor_spec, Z.shiftl_1_l, Z.pow2_bits_eqb by lia. f_equal. blia.
  - rewrite list_lookup_insert_ne by lia. replace (q =? p) with false; [by rewrite orb_false_r|].
    symmetry. apply Z.eqb_neq. congruence.
Qed.

(** After the pages below [k]: the bitmap has grown by the pages that are not zero. *)
Definition augmented (mem bm0 : list Z) (k : Z) (bm : list Z) : Prop :=
  length bm = length bm0 ∧
  ∀ q, 0 ≤ q → bit_set bm q = bit_set bm0 q || ((q <? k) && (q <? 64 * zlen bm0) && negb (all_zero (page_of mem q))).

Lemma augment_page_spec mem bm0 k bm :
  bytes mem → 0 ≤ k < totalPages mem → augmented mem bm0 k bm →
  match augment_page mem k bm with
  | Ok (true, bm') => augmented mem bm0 (k + 1) bm'
  | Ok (false, bm') => bm' = bm ∧ 64 * zlen bm0 ≤ k
  | _ => False
  end.
Proof.
  intros Hb Hk [Hl Ha]. unfold augment_page. cbv zeta. pose proof (Z.div_mod k 64 ltac:(lia)). pose proof (Z.mod_pos_bound k 64 ltac:(lia)).
  assert (0 ≤ k / 64) as Hd by (apply Z.div_pos; lia). assert (zlen bm = zlen bm0) as Hz by (unfold zlen; lia).
  destruct (Z.leb_spec (zlen bm) (k / 64)) as [Hout|Hin]; [split; [done|lia]|].
  destruct (at_ok bm (k / 64)) as [w Hw]; [lia|]. rewrite Hw. cbn [must mbind res_bind]. rewrite has_shift_bit by lia.
  assert (bit_set bm k = Z.testbit w (k mod 64)) as Hbk by (unfold bit_set; by rewrite Hw).
  assert (∀ z : bool, (z = true → bit_set bm k = true) → (z = false → all_zero (page_of mem k) = true) →
    augmented mem bm0 (k + 1) bm) as Hsame.
  { intros z Hz1 Hz2. split; [done|]. intros q Hq. rewrite Ha by done. destruct (decide (q = k)) as [->|Hne].
    - replace (k <? k) with false by lia. replace (k <? k + 1) with true by lia. cbn. rewrite orb_false_r.
      destruct z; [|rewrite Hz2 by done; rewrite andb_false_r; by rewrite orb_false_r].
      specialize (Hz1 eq_refl). rewrite Ha in Hz1 by lia. replace (k <? k) with false in Hz1 by lia. cbn in Hz1.
      rewrite orb_false_r in Hz1. by rewrite Hz1.
    - by replace (q <? k + 1) with (q <? k) by blia. }
  destruct (Z.testbit w (k mod 64)) eqn:Ew; [by apply (Hsame true)|].
  destruct Hk as [Hk0 Hk]. apply page_in_mem in Hk; [|done]. set (end_ := if _ <? _ then _ else _).
  assert (k * pageSize ≤ end_ ≤ zlen mem ∧ (end_ = zlen mem ∨ end_ = k * pageSize + pageSize)) as [He Hec].
  { unfold end_. destruct (Z.ltb_spec (zlen mem) (k * pageSize + pageSize)); lia. }
  assert (zlen mem ≤ k * pageSize + pageSize ∨ end_ = k * pageSize + pageSize) as Hec2.
  { unfold end_. destruct (Z.ltb_spec (zlen mem) (k * pageSize + pageSize)); lia. }
  clearbody end_. destruct (slice_ok mem (k * pageSize) end_) as [pg Hs]; [nia|lia|]. rewrite Hs. cbn [must mbind res_bind].
  pose proof (bytes_slice _ _ _ _ Hb Hs) as Hpb. rewrite isAllZero_spec by done. cbn [mbind res_bind].
  assert (pg = page_of mem k) as ->.
  { apply slice_Some in Hs as [_ ->]. unfold page_of. destruct Hec2 as [Hc| ->]; [|f_equal; lia].
    rewrite !take_ge; [done|..]; rewrite length_drop; unfold zlen in *; nia. }
  destruct (all_zero (page_of mem k)) eqn:Ez; cbn [negb]; [by apply (Hsame false)|].
  destruct (bit_set_insert bm (k / 64) w k Hw Hk0 eq_refl) as (bm' & -> & Hl' & Hq'). cbn. split; [lia|].
  intros q Hq. rewrite Hq', Ha by done. destruct (decide (q = k)) as [->|Hne].
  - rewrite Z.eqb_refl, orb_true_r. replace (k <? k + 1) with true by lia. replace (k <? 64 * zlen bm0) with true by lia.
    rewrite Ez. by rewrite orb_true_r.
  - replace (q =? k) with false by lia. rewrite orb_false_r. by replace (q <? k + 1) with (q <? k) by blia.
Qed.

Lemma augment_loop mem bm0 n k bm :
  bytes mem → Z.of_nat (k + n) = totalPages mem → augmented mem bm0 (Z.of_nat k) bm →
  ∃ bm', for_break (augment_page mem) (Z.of_nat <$> seq k n) bm = Ok bm' ∧ augmented mem bm0 (totalPages mem) bm'.
Proof.
  intros Hb. revert k bm. induction n as [|n IH]; intros k bm Hk Ha.
  { exists bm. split; [done|]. by replace (totalPages mem) with (Z.of_nat k) by lia. }
  cbn [seq]. rewrite fmap_cons. cbn [for_break]. pose proof (augment_page_spec mem bm0 (Z.of_nat k) bm Hb ltac:(lia) Ha) as Hp.
  destruct (augment_page mem (Z.of_nat k) bm) as [[[] bm']|e| |]; try done; cbn [mbind res_bind].
  - apply IH; [lia|]. by replace (Z.of_nat (S k)) with (Z.of_nat k + 1) by lia.
  - destruct Hp as [-> Hout]. exists bm. split; [done|]. destruct Ha as [Hl Ha]. split; [done|]. intros q Hq. rewrite Ha by done.
    f_equal. destruct (all_zero (page_of mem q)); [by rewrite !andb_false_r|]. cbn. rewrite !andb_true_r. blia.
Qed.

Lemma augmentDirtyBitmap_spec mem bitmap :
  bytes mem → ∃ bm, augmentDirtyBitmap mem bitmap = Ok bm ∧ augmented mem bitmap (totalPages mem) bm.
Proof.
  intros Hb. unfold augmentDirtyBitmap, page_list.
  assert (0 ≤ totalPages mem) by (apply Z.div_pos; pose proof (zlen_nonneg mem); lia).
  apply augment_loop; [done|lia|]. split; [done|]. intros q Hq.
  change (Z.of_nat 0) with 0. lt_is false. by rewrite orb_false_r.
Qed.

(** Bytes of a page that is all zero are zero. *)
Lemma zero_page_byte mem (o : nat) :
  (o < length mem)%nat → all_zero (page_of mem (Z.of_nat o / pageSize)) = true → mem !! o = Some 0.
Proof.
  intros Ho Hz. unfold all_zero in Hz. rewrite forallb_forall in Hz. destruct (lookup_lt_is_Some_2 mem o Ho) as [b Hb].
  rewrite Hb. f_equal. apply Z.eqb_eq, Hz. apply list_elem_of_In. unfold page_of.
  pose proof (Z.mul_div_le (Z.of_nat o) pageSize Hps). pose proof (Z.mul_succ_div_gt (Z.of_nat o) pageSize Hps).
  assert (0 ≤ Z.of_nat o / pageSize) by (apply Z.div_pos; lia).
  apply list_elem_of_lookup. exists (o - Z.to_nat (Z.of_nat o / pageSize * pageSize))%nat.
  rewrite lookup_take_lt by lia. rewrite lookup_drop. rewrite <- Hb. f_equal. lia.
Qed.
End pages.

(** The bitmap that [GetDirtyLog] (src/internal/kvm/kvm.go) allocates and KVM
    fills: one bit per page. *)
Definition GetDirtyLog (pageSize : Z) (fill : nat → Z) (ioctl_ok : bool) (memSize : Z) : option (list Z) :=
  let pageCount := (memSize + pageSize - 1) / pageSize in
  let wordCount := (pageCount + 63) / 64 in
  if wordCount =? 0 then Some []
  else if ioctl_ok then Some (fill <$> seq 0 (Z.to_nat wordCount)) else None.

Lemma GetDirtyLog_covers pageSize fill ok mem bitmap :
  0 < pageSize → GetDirtyLog pageSize fill ok (zlen mem) = Some bitmap → totalPages pageSize mem ≤ 64 * zlen bitmap.
Proof.
  intros Hps. unfold GetDirtyLog, totalPages. cbv zeta. set (n := (zlen mem + pageSize - 1) / pageSize).
  assert (0 ≤ n) by (apply Z.div_pos; pose proof (zlen_nonneg mem); lia).
  pose proof (Z.div_mod (n + 63) 64 ltac:(lia)). pose proof (Z.mod_pos_bound (n + 63) 64 ltac:(lia)).
  destruct (Z.eqb_spec ((n + 63) / 64) 0); [intros [= <-]; unfold zlen; cbn; lia|]. destruct ok; [|done].
  intros [= <-]. unfold zlen. rewrite length_fmap, length_seq. lia.
Qed.

(** ** Properties *)

(** C3: a snapshot's memory file is the guest's memory. Whatever dirty log KVM
    returns, provided it has a bit for every page, augmenting it with the pages
    that are not zero and writing its pages in runs gives a file that reads back
    as exactly the memory, holes included; when there is no log, so does the full
    copy; and the only failures are those of the host's file operations. *)
Theorem snapshot_memory_exact pageSize io log mem :
  0 < pageSize → bytes mem → (∀ bitmap, log = Some bitmap → totalPages pageSize mem ≤ 64 * zlen bitmap) →
  match snapshot_memory pageSize true true true io log mem with
  | Ok file => file = mem
  | Err e => e = WriteFailed ∧ ∃ k, io k = false
  | _ => False
  end.
Proof.
  intros Hps Hb Hbits. destruct log as [bitmap|]; cbn [snapshot_memory].
  2:{ unfold saveMemAsync. cbn. destruct (Z.eqb_spec (zlen mem) 0) as [Hz|]; [|done]. by apply zlen_0 in Hz as ->. }
  specialize (Hbits bitmap eq_refl). destruct (augmentDirtyBitmap_spec pageSize Hps mem bitmap Hb) as (bm & -> & Hl & Ha).
  pose proof (saveDirtyPages_selected pageSize Hps io mem bm) as Hsave.
  destruct (saveDirtyPages pageSize true true io mem bm) as [file|[]| |]; cbn in Hsave; try done.
  destruct Hsave as [Hlen Hsel]. apply list_eq. intros o. destruct (decide (o < length mem)%nat) as [Ho|Ho].
  2:{ rewrite !lookup_ge_None_2; [done|lia|lia]. }
  destruct (Hsel o Ho) as [H1 H2]. pose proof (byte_page pageSize Hps mem o Ho) as Hp.
  destruct (bit_set bm (Z.of_nat o / pageSize)) eqn:Hbit; [by apply H1|]. rewrite H2 by done. symmetry.
  apply (zero_page_byte pageSize Hps); [done|]. rewrite Ha in Hbit by lia. apply orb_false_iff in Hbit as [_ Hbit].
  replace (_ <? totalPages pageSize mem) with true in Hbit by lia. replace (_ <? 64 * zlen bitmap) with true in Hbit by lia.
  cbn in Hbit. by apply negb_false_iff in Hbit.
Qed.

Lemma snapshot_memory_exact_witness :
  snapshot_memory 4 true true true (fun _ => true) (Some [2]) [0; 0; 0; 0; 7; 0; 0; 0; 9] = Ok [0; 0; 0; 0; 7; 0; 0; 0; 9].
Proof.
  pose proof (snapshot_memory_exact 4 (fun _ => true) (Some [2]) [0; 0; 0; 0; 7; 0; 0; 0; 9]) as H.
  destruct (snapshot_memory 4 true true true (fun _ => true) (Some [2]) [0; 0; 0; 0; 7; 0; 0; 0; 9]) as [file|e| |] eqn:E;
    [|vm_compute in E; discriminate E..].
  rewrite H; [reflexivity|lia|repeat constructor; unfold is_byte; lia|].
  intros bitmap [= <-]. vm_compute. discriminate.
Defined.

(** The eight-byte zero test is the byte-wise one, on buffers of any length. *)
Theorem isAllZero_exact buf : bytes buf → isAllZero buf = Ok (forallb (fun b => b =? 0) buf).
Proof. apply isAllZero_spec. Qed.

Lemma isAllZero_exact_witness : isAllZero [0; 0; 0; 0; 0; 0; 0; 0; 0; 5] = Ok false.
Proof. apply (isAllZero_exact [0; 0; 0; 0; 0; 0; 0; 0; 0; 5]). repeat constructor; unfold is_byte; lia. Defined.

(** A bitmap without a word for the last pages loses them: they are neither
    examined nor written. *)
Lemma short_bitmap_loses_pages :
  snapshot_memory 1 true true true (fun _ => true) (Some [0]) (replicate 64 0 ++ [5]) = Ok (replicate 65 0).
Proof. vm_compute. reflexivity. Qed.
