(* ===== verification/Lifecycle.v ===== *)
(** * The life of a virtual machine

    Start, Stop, Pause and Resume of src/pkg/vmm/vmm.go with the vCPU threads that
    they steer.  Every section under [m.mu] is one step; [cond.Wait] leaves a
    thread blocked until a [Broadcast], after which it takes the lock again and
    looks at the state.  A vCPU thread is at one of the points of [runLoop]; what
    the guest does, and when KVM_RUN returns, is arbitrary.  Any number of API
    calls run at the same time; [Pause] is the one that waits. *)
From S2P Require Import Prelude.

Inductive VMState := StateCreated | StateRunning | StatePaused | StateStopped.
#[export] Instance VMState_eq_dec : EqDecision VMState.
Proof. solve_decision. Defined.

(** Points of [runLoop]. *)
Inductive vpoint :=
  | VIdle                        (** the thread does not exist yet *)
  | VInit                        (** before it installs its system-call filter *)
  | VTop                         (** before [waitIfPaused] *)
  | VParked                      (** blocked in [cond.Wait] *)
  | VWoken                       (** woken, before it looks at the state *)
  | VCheckStop                   (** before the test of [stopCh] *)
  | VGuest                       (** in KVM_RUN *)
  | VDead.                       (** returned *)
#[export] Instance vpoint_eq_dec : EqDecision vpoint.
Proof. solve_decision. Defined.

(** Points of a call of [Pause] that found the machine running. *)
Inductive ppoint :=
  | PCheck                       (** at the head of its loop, or woken *)
  | PWait                        (** blocked in [cond.Wait] *)
  | PReturned (ok : bool).

Record VM := mkVM {
  state : VMState;
  vcpus : list vpoint;
  immediateExit : bool;          (** of every vCPU *)
  pausedVCPUs : gset nat;
  pausers : list ppoint;
  stopCh : bool;                 (** closed *)
  doneCh : bool;                 (** closed: cleaned up *)
  execEnabled : bool             (** [cfg.Exec] is set and enabled *)
}.

(** A machine of [n] vCPUs as [New] and a restore make it. *)
Definition new_vm (exec : bool) (n : nat) : VM := mkVM StateCreated (replicate n VIdle) false ∅ [] false false exec.

(** [cond.Broadcast()] *)
Definition wake_vcpu (v : vpoint) : vpoint := match v with VParked => VWoken | _ => v end.
Definition wake_pauser (p : ppoint) : ppoint := match p with PWait => PCheck | _ => p end.
Definition broadcast (m : VM) : VM :=
  mkVM (state m) (wake_vcpu <$> vcpus m) (immediateExit m) (pausedVCPUs m) (wake_pauser <$> pausers m) (stopCh m) (doneCh m) (execEnabled m).

Definition set_state (m : VM) (s : VMState) (imm : bool) (paused : gset nat) : VM :=
  mkVM s (vcpus m) imm paused (pausers m) (stopCh m) (doneCh m) (execEnabled m).
Definition set_vcpu (m : VM) (id : nat) (v : vpoint) (paused : gset nat) : VM :=
  mkVM (state m) (<[id := v]> (vcpus m)) (immediateExit m) paused (pausers m) (stopCh m) (doneCh m) (execEnabled m).
Definition set_pauser (m : VM) (i : nat) (p : ppoint) : VM :=
  mkVM (state m) (vcpus m) (immediateExit m) (pausedVCPUs m) (<[i := p]> (pausers m)) (stopCh m) (doneCh m) (execEnabled m).

(** ** The API calls; [false] is an error *)
Definition Start (m : VM) : bool * VM :=
  if negb (bool_decide (state m = StateCreated)) && negb (bool_decide (state m = StatePaused)) then (false, m)
  else
    let startFresh := bool_decide (state m = StateCreated) in
    (true, mkVM StateRunning (if startFresh then (fun _ => VInit) <$> vcpus m else vcpus m) (immediateExit m)
             (pausedVCPUs m) (pausers m) (stopCh m) (doneCh m) (execEnabled m)).

Definition Stop (m : VM) : VM :=
  if bool_decide (state m = StateRunning) || bool_decide (state m = StatePaused) then
    let m := broadcast (set_state m StateStopped true (pausedVCPUs m)) in
    mkVM (state m) (vcpus m) (immediateExit m) (pausedVCPUs m) (pausers m) true (doneCh m) (execEnabled m)
  else m.

Definition Resume (m : VM) : bool * VM :=
  if negb (bool_decide (state m = StatePaused)) then (false, m)
  else (true, broadcast (set_state m StateRunning false ∅)).

(** The first locked section of [Pause]: [Some ok] when it returns at once. *)
Definition Pause_begin (m : VM) : option bool * VM :=
  match state m with
  | StatePaused => (Some true, m)
  | StateRunning =>
      let m := set_state m StatePaused true ∅ in
      (None, mkVM (state m) (vcpus m) (immediateExit m) (pausedVCPUs m) (pausers m ++ [PCheck]) (stopCh m) (doneCh m) (execEnabled m))
  | _ => (Some false, m)
  end.

(** Its loop; [late] is whether the deadline has passed. *)
Definition Pause_check (late : bool) (i : nat) (m : VM) : VM :=
  if bool_decide (state m = StateStopped) then set_pauser m i (PReturned false)
  else if (length (vcpus m) <=? size (pausedVCPUs m))%nat then set_pauser m i (PReturned true)
  else if late then
    let s := if bool_decide (state m = StatePaused) then StateRunning else state m in
    set_pauser (broadcast (set_state m s false ∅)) i (PReturned false)
  else set_pauser m i PWait.

(** ** The vCPU threads *)

(** The entry of [waitIfPaused] and, for a woken thread, the head of its loop. *)
Definition waitIfPaused_enter (id : nat) (m : VM) : VM :=
  if negb (bool_decide (state m = StatePaused)) then
    set_vcpu m id (if bool_decide (state m = StateStopped) then VDead else VCheckStop) (pausedVCPUs m ∖ {[id]})
  else
    let m := broadcast m in set_vcpu m id VParked ({[id]} ∪ pausedVCPUs m).
Definition waitIfPaused_woken (id : nat) (m : VM) : VM :=
  if bool_decide (state m = StatePaused) then set_vcpu m id VParked (pausedVCPUs m)
  else set_vcpu m id (if bool_decide (state m = StateStopped) then VDead else VCheckStop) (pausedVCPUs m ∖ {[id]}).
Definition check_stop (id : nat) (m : VM) : VM :=
  if stopCh m then set_vcpu m id VDead (pausedVCPUs m ∖ {[id]}) else set_vcpu m id VGuest (pausedVCPUs m).

(** How KVM_RUN ended.  What [handleExit] of the architecture made of a system
    event is part of the exit. *)
Inductive kvm_exit :=
  | RunInterrupted | RunError
  | ExitHLT | ExitIO | ExitMMIO
  | ExitSystemEvent (failed handled stop : bool)
  | ExitShutdown | ExitIRQWindowOpen | ExitInternalError | ExitFailEntry | ExitUnknown | ExitOther.

(** The switch of [runLoop]: does this exit stop the machine? *)
Definition exit_stops (m : VM) (x : kvm_exit) : bool :=
  match x with
  | RunInterrupted | ExitIO | ExitMMIO | ExitIRQWindowOpen => false
  | ExitHLT => (length (vcpus m) =? 1)%nat && negb (execEnabled m)
  | ExitSystemEvent failed handled stop => failed || negb handled || stop
  | RunError | ExitShutdown | ExitInternalError | ExitFailEntry | ExitUnknown | ExitOther => true
  end.

(** KVM_RUN returned: the loop goes on, or the exit ends the machine and the
    thread ([unregisterVCPUThread] runs when it returns). *)
Definition vcpu_exit (x : kvm_exit) (id : nat) (m : VM) : VM :=
  if exit_stops m x then let m := Stop m in set_vcpu m id VDead (pausedVCPUs m ∖ {[id]})
  else set_vcpu m id VTop (pausedVCPUs m).

(** The thread installs its filter; when it cannot, it stops the machine. *)
Definition vcpu_install (ok : bool) (id : nat) (m : VM) : VM :=
  if ok then set_vcpu m id VTop (pausedVCPUs m)
  else let m := Stop m in set_vcpu m id VDead (pausedVCPUs m).

(** [awaitStop]: the wait group is at zero; clean up once. *)
Definition finishStop (m : VM) : VM :=
  mkVM (state m) (vcpus m) (immediateExit m) (pausedVCPUs m) (pausers m) (stopCh m) true (execEnabled m).

(** ** Interleavings *)
Inductive vcpu_step : VM → VM → Prop :=
  | v_enter id m : vcpus m !! id = Some VTop → vcpu_step m (waitIfPaused_enter id m)
  | v_woken id m : vcpus m !! id = Some VWoken → vcpu_step m (waitIfPaused_woken id m)
  | v_check id m : vcpus m !! id = Some VCheckStop → vcpu_step m (check_stop id m)
  | v_exit id x m : vcpus m !! id = Some VGuest → vcpu_step m (vcpu_exit x id m)
  | v_install id ok m : vcpus m !! id = Some VInit → vcpu_step m (vcpu_install ok id m).

Inductive api_step : VM → VM → Prop :=
  | a_start m : api_step m (Start m).2
  | a_stop m : api_step m (Stop m)
  | a_resume m : api_step m (Resume m).2
  | a_pause m : api_step m (Pause_begin m).2
  | a_check late i m : pausers m !! i = Some PCheck → api_step m (Pause_check late i m)
  | a_timer m : api_step m (broadcast m)
  | a_finish m : vcpus m ≠ [] → Forall (eq VDead) (vcpus m) → api_step m (finishStop m).

Inductive vm_step : VM → VM → Prop :=
  | s_vcpu m m' : vcpu_step m m' → vm_step m m'
  | s_api m m' : api_step m m' → vm_step m m'.
Definition vm_reachable (n : nat) (m : VM) : Prop := ∃ exec, rtc vm_step (new_vm exec n) m.

(** ** The invariant *)
Definition in_wait (v : vpoint) : Prop := v = VParked ∨ v = VWoken.

Record vm_inv (n : nat) (m : VM) : Prop := {
  inv_count : length (vcpus m) = n;
  inv_paused id : id ∈ pausedVCPUs m → ∃ v, vcpus m !! id = Some v ∧ in_wait v;
  inv_created : state m = StateCreated → ∀ id v, vcpus m !! id = Some v → v = VIdle;
  inv_idle id : vcpus m !! id = Some VIdle → state m = StateCreated;
  inv_stopped : state m = StateStopped → stopCh m = true ∧ ∀ id, vcpus m !! id ≠ Some VParked;
  inv_stopCh : stopCh m = true → state m = StateStopped
}.

Lemma new_vm_inv exec n : vm_inv n (new_vm exec n).
Proof.
  split; cbn; try done.
  - apply length_replicate.
  - intros _ id v Hv. by apply lookup_replicate in Hv as [-> _].
Qed.

Lemma broadcast_lookup m id v :
  vcpus (broadcast m) !! id = Some v ↔ ∃ u, vcpus m !! id = Some u ∧ v = wake_vcpu u.
Proof. cbn. rewrite list_lookup_fmap, fmap_Some. done. Qed.

Lemma broadcast_inv n m : vm_inv n m → vm_inv n (broadcast m).
Proof.
  intros [H1 H2 H3 H4 H5 H6]. split; cbn [broadcast state stopCh pausedVCPUs].
  - cbn. by rewrite length_fmap.
  - intros id Hid. destruct (H2 id Hid) as (v & Hv & Hw). exists (wake_vcpu v). split; [apply broadcast_lookup; eauto|].
    destruct Hw as [->| ->]; by right.
  - intros Hs id v (u & Hu & ->)%broadcast_lookup. by rewrite (H3 Hs id u Hu).
  - intros id (u & Hu & Hw)%broadcast_lookup. apply (H4 id). by destruct u.
  - intros Hs. split; [by apply H5|]. intros id (u & Hu & Hw)%broadcast_lookup. by destruct u.
  - done.
Qed.

(** Moving one vCPU. *)
Lemma set_vcpu_inv n m id v paused :
  vm_inv n m → state m ≠ StateCreated → v ≠ VIdle → (v = VParked → state m ≠ StateStopped) →
  (∀ i, i ∈ paused → i ∈ pausedVCPUs m ∨ i = id ∧ (id < n)%nat) → (id ∈ paused → in_wait v) →
  vm_inv n (set_vcpu m id v paused).
Proof.
  intros [H1 H2 H3 H4 H5 H6] Hc Hi Hp Hsub Hid. split; cbn [set_vcpu state stopCh pausedVCPUs vcpus]; try done.
  - by rewrite length_insert.
  - intros i Hin. destruct (decide (i = id)) as [->|Hne].
    + exists v. split; [|auto]. apply list_lookup_insert_eq. destruct (Hsub id Hin) as [Hin'|[_ Hlt]]; [|lia].
      destruct (H2 id Hin') as (u & Hu & _). by eapply lookup_lt_Some.
    + rewrite list_lookup_insert_ne by done. destruct (Hsub i Hin) as [Hin'|[-> _]]; [by apply H2|done].
  - intros i Hl. apply list_lookup_insert_Some in Hl as [(_ & -> & _)|[_ Hl]]; [done|by eapply H4].
  - intros Hs. split; [by apply H5|]. intros i Hl. apply list_lookup_insert_Some in Hl as [(_ & -> & _)|[_ Hl]]; [by apply Hp|].
    by apply (proj2 (H5 Hs) i).
Qed.

Lemma set_pauser_inv n m i p : vm_inv n m → vm_inv n (set_pauser m i p).
Proof. by intros [H1 H2 H3 H4 H5 H6]; split. Qed.

(** Leaving or entering the paused state with no vCPU counted. *)
Lemma set_state_inv n m s imm :
  vm_inv n m → state m ≠ StateCreated → s ≠ StateCreated → s ≠ StateStopped → state m ≠ StateStopped →
  vm_inv n (set_state m s imm ∅).
Proof.
  intros [H1 H2 H3 H4 H5 H6] Hc Hs Hst Hms. split; cbn; try done.
  - intros id Hid. by apply H4 in Hid.
  - intros Hch. by apply H6 in Hch.
Qed.

Lemma Stop_inv n m : vm_inv n m → vm_inv n (Stop m).
Proof.
  intros Hi. unfold Stop. destruct (_ || _) eqn:E; [|done]. apply (broadcast_inv n) in Hi as [H1 H2 H3 H4 H5 H6].
  cbn [broadcast set_state state vcpus stopCh pausedVCPUs immediateExit] in *.
  assert (state m ≠ StateCreated) as Hc.
  { intros Hc. rewrite Hc in E. done. }
  split; cbn; try done.
  - intros id Hid. by apply H4 in Hid.
  - intros _. split; [done|]. intros id Hl. rewrite list_lookup_fmap in Hl. apply fmap_Some in Hl as (u & _ & Hu). by destruct u.
Qed.

Lemma Stop_state m : state m ≠ StateCreated → state (Stop m) = StateStopped ∧ pausedVCPUs (Stop m) = pausedVCPUs m.
Proof. intros Hc. unfold Stop. destruct (state m) eqn:E; cbn; rewrite ?E; done. Qed.

(** A thread that exists means that the machine was started. *)
Lemma started n m id v : vm_inv n m → vcpus m !! id = Some v → v ≠ VIdle → state m ≠ StateCreated.
Proof. intros Hi Hv Hne Hc. apply Hne. by eapply inv_created. Qed.

Lemma not_counted n m id v : vm_inv n m → vcpus m !! id = Some v → ¬ in_wait v → id ∉ pausedVCPUs m.
Proof. intros Hi Hv Hw Hin. destruct (inv_paused n m Hi id Hin) as (u & Hu & Hwu). congruence. Qed.

(** The vCPU that calls [Stop] and returns. *)
Lemma stop_and_die_inv n m id v : vm_inv n m → vcpus m !! id = Some v → v ≠ VIdle → ∀ paused,
  (∀ i, i ∈ paused → i ∈ pausedVCPUs m ∧ i ≠ id) → vm_inv n (set_vcpu (Stop m) id VDead paused).
Proof.
  intros Hi Hv Hne paused Hp. pose proof (started n m id v Hi Hv Hne) as Hc. destruct (Stop_state m Hc) as [Hs Hps].
  apply set_vcpu_inv; [by apply Stop_inv|by rewrite Hs|done|done| |].
  - intros i Hin. left. rewrite Hps. by apply Hp.
  - intros Hin. by apply Hp in Hin as [_ Hin].
Qed.

Lemma vcpu_step_inv n m m' : vcpu_step m m' → vm_inv n m → vm_inv n m'.
Proof.
  intros Hs Hi. destruct Hs as [id m Hv|id m Hv|id m Hv|id x m Hv|id ok m Hv];
    pose proof (started n m id _ Hi Hv ltac:(done)) as Hc; pose proof (lookup_lt_Some _ _ _ Hv) as Hlt;
    rewrite (inv_count n m Hi) in Hlt.
  - unfold waitIfPaused_enter. case_bool_decide as Hp; cbn [negb].
    + apply set_vcpu_inv; cbn; [by apply broadcast_inv|done|done|by rewrite Hp|set_solver|by left].
    + apply set_vcpu_inv; try done; [by case_bool_decide|by case_bool_decide|set_solver|set_solver].
  - unfold waitIfPaused_woken. case_bool_decide as Hp.
    + apply set_vcpu_inv; try done; [by rewrite Hp|auto|by left].
    + apply set_vcpu_inv; try done; [by case_bool_decide|by case_bool_decide|set_solver|set_solver].
  - pose proof (not_counted n m id _ Hi Hv ltac:(by intros [|])) as Hn. unfold check_stop.
    destruct (stopCh m); apply set_vcpu_inv; try done; set_solver.
  - pose proof (not_counted n m id _ Hi Hv ltac:(by intros [|])) as Hn. unfold vcpu_exit. destruct (exit_stops m x).
    + cbv zeta. eapply stop_and_die_inv; [done|done|done|]. intros i. rewrite (proj2 (Stop_state m Hc)). set_solver.
    + apply set_vcpu_inv; try done; set_solver.
  - pose proof (not_counted n m id _ Hi Hv ltac:(by intros [|])) as Hn. unfold vcpu_install. destruct ok.
    + apply set_vcpu_inv; try done; set_solver.
    + cbv zeta. eapply stop_and_die_inv; [done|done|done|]. intros i. rewrite (proj2 (Stop_state m Hc)). set_solver.
Qed.

Lemma api_step_inv n m m' : api_step m m' → vm_inv n m → vm_inv n m'.
Proof.
  intros Hs Hi. destruct Hs as [m|m|m|m|late i m Hp|m|m Hne Hd].
  - unfold Start. destruct (_ && _) eqn:E; [done|]. cbn [snd]. destruct Hi as [H1 H2 H3 H4 H5 H6].
    case_bool_decide as Hc.
    + split; cbn; try done; [by rewrite length_fmap| | |].
      * intros id Hid. destruct (H2 id Hid) as (v & Hv & Hw). rewrite (H3 Hc id v Hv) in Hw. by destruct Hw.
      * intros id Hl. rewrite list_lookup_fmap in Hl. by apply fmap_Some in Hl as (u & _ & Hu).
      * intros Hch. apply H6 in Hch. congruence.
    + split; cbn; try done; [|].
      * intros id Hid. by apply H4 in Hid.
      * intros Hch. apply H6 in Hch. by rewrite Hch in E.
  - by apply Stop_inv.
  - unfold Resume. case_bool_decide as Hp; cbn [negb snd]; [|done]. apply broadcast_inv, set_state_inv; by rewrite ?Hp.
  - unfold Pause_begin. destruct (state m) eqn:E; try done. cbn [snd]. 
    pose proof (set_state_inv n m StatePaused true Hi) as [H1 H2 H3 H4 H5 H6]; [by rewrite ?E..|]. by split.
  - unfold Pause_check. case_bool_decide as Hst; [by apply set_pauser_inv|]. destruct (_ <=? _)%nat; [by apply set_pauser_inv|].
    destruct late; [|by apply set_pauser_inv]. cbv zeta. apply set_pauser_inv, broadcast_inv.
    destruct (decide (state m = StateCreated)) as [Hc|Hc].
    + (* nothing to roll back *) rewrite Hc. rewrite bool_decide_false by done. destruct Hi as [H1 H2 H3 H4 H5 H6]. split; cbn; try done.
      * intros _. by apply H3.
      * intros Hch. apply H6 in Hch. congruence.
    + apply set_state_inv; try done; case_bool_decide; done.
  - by apply broadcast_inv.
  - by destruct Hi as [H1 H2 H3 H4 H5 H6]; split.
Qed.

Lemma vm_reachable_inv n m : vm_reachable n m → vm_inv n m.
Proof.
  intros [exec Hr]. assert (∀ a, vm_inv n a → rtc vm_step a m → vm_inv n m) as Hgen.
  { clear Hr. intros a Ha Hs. induction Hs as [|a b c [m m' Hab|m m' Hab] _ IH]; [done|..]; apply IH.
    - by eapply vcpu_step_inv.
    - by eapply api_step_inv. }
  exact (Hgen _ (new_vm_inv exec n) Hr).
Qed.

(** ** Settled pauses *)

(** The machine is paused and every vCPU has been counted. *)
Definition settled (n : nat) (m : VM) : Prop := state m = StatePaused ∧ ∀ id, (id < n)%nat → id ∈ pausedVCPUs m.
Definition none_in_guest (m : VM) : Prop := ∀ id, vcpus m !! id ≠ Some VGuest.

Lemma paused_bound n m : vm_inv n m → pausedVCPUs m ⊆ set_seq 0 n.
Proof.
  intros Hi id Hid. destruct (inv_paused n m Hi id Hid) as (v & Hv & _). apply lookup_lt_Some in Hv.
  rewrite (inv_count n m Hi) in Hv. apply elem_of_set_seq. lia.
Qed.

Lemma all_counted n m : vm_inv n m → (n ≤ size (pausedVCPUs m))%nat → ∀ id, (id < n)%nat → id ∈ pausedVCPUs m.
Proof.
  intros Hi Hsz id Hid. assert (pausedVCPUs m = set_seq 0 n) as ->.
  { apply set_subseteq_size_eq; [by apply paused_bound|]. by rewrite size_set_seq. }
  apply elem_of_set_seq. lia.
Qed.

Lemma counted_out_of_guest n m : vm_inv n m → (∀ id, (id < n)%nat → id ∈ pausedVCPUs m) → none_in_guest m.
Proof.
  intros Hi Hall id Hl. pose proof (lookup_lt_Some _ _ _ Hl) as Hlt. rewrite (inv_count n m Hi) in Hlt.
  destruct (inv_paused n m Hi id (Hall id Hlt)) as (v & Hv & Hw). rewrite Hl in Hv. injection Hv as <-. by destruct Hw.
Qed.

Lemma settled_vcpu_step n m m' : vm_inv n m → settled n m → vcpu_step m m' → settled n m'.
Proof.
  intros Hi [Hs Hall] Hst.
  assert (∀ id v, vcpus m !! id = Some v → in_wait v) as Hw.
  { intros id v Hv. pose proof (lookup_lt_Some _ _ _ Hv) as Hlt. rewrite (inv_count n m Hi) in Hlt.
    destruct (inv_paused n m Hi id (Hall id Hlt)) as (u & Hu & Hwu). congruence. }
  destruct Hst as [id m Hv|id m Hv|id m Hv|id x m Hv|id ok m Hv]; try (by destruct (Hw id _ Hv)).
  unfold waitIfPaused_woken. rewrite bool_decide_true by done. by split.
Qed.

Lemma settled_check n m late i : vm_inv n m → settled n m → settled n (Pause_check late i m).
Proof.
  intros Hi [Hs Hall]. unfold Pause_check. rewrite bool_decide_false by (by rewrite Hs).
  replace (length (vcpus m) <=? size (pausedVCPUs m))%nat with true; [by split|]. symmetry. apply Nat.leb_le.
  rewrite (inv_count n m Hi), <- (size_set_seq (C:=gset nat) 0 n). apply subseteq_size. intros id Hid%elem_of_set_seq. apply Hall. lia.
Qed.

Lemma Pause_check_success n m late i :
  vm_inv n m → pausers m !! i = Some PCheck → pausers (Pause_check late i m) !! i = Some (PReturned true) →
  (n ≤ size (pausedVCPUs m))%nat.
Proof.
  intros Hi Hp. pose proof (lookup_lt_Some _ _ _ Hp) as Hlt. unfold Pause_check.
  case_bool_decide; [cbn; rewrite list_lookup_insert_eq by done; done|].
  destruct (Nat.leb_spec (length (vcpus m)) (size (pausedVCPUs m))) as [Hle|]; [by rewrite (inv_count n m Hi) in Hle|].
  destruct late; cbn; rewrite list_lookup_insert_eq; try done. by rewrite length_fmap.
Qed.

(** C2: a pause takes effect. In every interleaving of API calls and vCPU
    threads, a call of Pause that waits returns success only at a moment when no
    vCPU is in the guest: each of them is inside [waitIfPaused]; and from a paused
    machine whose vCPUs have all been counted, no step of a vCPU, of a timer or of
    any Pause call brings one back into the guest: only Resume, Start or Stop do. *)
Theorem pause_quiesces n m :
  vm_reachable n m →
  (∀ late i, pausers m !! i = Some PCheck → pausers (Pause_check late i m) !! i = Some (PReturned true) →
    none_in_guest m ∧ ∀ id, (id < n)%nat → ∃ v, vcpus m !! id = Some v ∧ in_wait v) ∧
  (settled n m → none_in_guest m ∧
    ∀ m', vcpu_step m m' ∨ m' = broadcast m ∨ m' = (Pause_begin m).2 ∨ (∃ late i, m' = Pause_check late i m) →
      settled n m' ∧ none_in_guest m').
Proof.
  intros Hi%vm_reachable_inv. split.
  - intros late i Hp Hr. pose proof (all_counted n m Hi (Pause_check_success n m late i Hi Hp Hr)) as Hall.
    split; [by eapply counted_out_of_guest|]. intros id Hid. by apply (inv_paused n m Hi), Hall.
  - intros Hset. split; [by eapply counted_out_of_guest, Hset|]. intros m' Hm'.
    assert (vm_inv n m' ∧ settled n m') as [Hi' Hset'].
    { destruct Hm' as [Hst|[->|[->|(late & i & ->)]]].
      - split; [by eapply vcpu_step_inv|by eapply settled_vcpu_step].
      - split; [by apply broadcast_inv|exact Hset].
      - destruct Hset as [Hs Hall]. unfold Pause_begin. rewrite Hs. split; [done|by split].
      - split; [|by apply settled_check]. unfold Pause_check. destruct Hset as [Hs Hall].
        rewrite bool_decide_false by (by rewrite Hs). pose proof (settled_check n m late i Hi (conj Hs Hall)) as Hc.
        unfold Pause_check in Hc. rewrite bool_decide_false in Hc by (by rewrite Hs).
        destruct (_ <=? _)%nat; [by apply set_pauser_inv|]. destruct late; [|by apply set_pauser_inv].
        destruct Hc as [Hc _]. cbn in Hc. by rewrite bool_decide_true in Hc. }
    split; [done|]. by eapply counted_out_of_guest, Hset'.
Qed.

(** A machine of one vCPU: started, in the guest, paused, settled. *)
Definition ex_guest : VM := mkVM StateRunning [VGuest] false ∅ [] false false true.
Lemma ex_guest_reachable : vm_reachable 1 ex_guest.
Proof.
  exists true. eapply rtc_l; [apply s_api, a_start|]. eapply rtc_l; [apply s_vcpu, (v_install 0 true); reflexivity|].
  eapply rtc_l; [apply s_vcpu, (v_enter 0); reflexivity|]. eapply rtc_l; [apply s_vcpu, (v_check 0); reflexivity|].
  match goal with |- rtc _ ?a ?b => replace b with a by (vm_compute; reflexivity) end. apply rtc_refl.
Qed.

Lemma vm_reachable_step n m m' : vm_reachable n m → vm_step m m' → vm_reachable n m'.
Proof. intros [exec Hr] Hs. exists exec. by eapply rtc_r. Qed.

Definition ex_settled : VM := mkVM StatePaused [VParked] true {[0%nat]} [PCheck] false false true.
Lemma ex_settled_reachable : vm_reachable 1 ex_settled.
Proof.
  destruct ex_guest_reachable as [exec Hr]. exists exec. etrans; [exact Hr|]. eapply rtc_l; [apply s_api, a_pause|].
  eapply rtc_l; [apply s_vcpu, (v_exit 0 RunInterrupted); reflexivity|]. eapply rtc_l; [apply s_vcpu, (v_enter 0); reflexivity|].
  match goal with |- rtc _ ?a ?b => replace b with a by (vm_compute; reflexivity) end. apply rtc_refl.
Qed.

Lemma pause_quiesces_witness :
  vm_reachable 1 ex_settled ∧ pausers (Pause_check false 0 ex_settled) !! 0%nat = Some (PReturned true) ∧ none_in_guest ex_settled.
Proof.
  split; [exact ex_settled_reachable|]. split; [vm_compute; reflexivity|].
  apply (proj1 (pause_quiesces 1 ex_settled ex_settled_reachable) false 0%nat); vm_compute; reflexivity.
Defined.

(** Pause can return too early. While one call of Pause waits for the vCPUs,
    another finds the state already paused and returns success at once, although
    a vCPU is still running the guest; a snapshot, which trusts the state, does
    the same. *)
Theorem second_pause_returns_early :
  ∃ m, vm_reachable 1 m ∧ (Pause_begin m).1 = Some true ∧ state m = StatePaused ∧ vcpus m !! 0%nat = Some VGuest.
Proof.
  exists (Pause_begin ex_guest).2. split; [|done]. eapply vm_reachable_step; [exact ex_guest_reachable|apply s_api, a_pause].
Qed.

(** Start on a paused machine hangs it. Start accepts a paused machine and
    reports success, but wakes nobody: the parked vCPUs cannot move, Resume is
    refused because the state is now running, and a further Start too. *)
Theorem start_paused_hangs n m :
  vm_reachable n m → state m = StatePaused → (∀ id v, vcpus m !! id = Some v → v = VParked) →
  (Start m).1 = true ∧ state (Start m).2 = StateRunning ∧ (∀ m', ¬ vcpu_step (Start m).2 m') ∧
  (Resume (Start m).2).1 = false ∧ (Start (Start m).2).1 = false.
Proof.
  intros _ Hs Hp. unfold Start. rewrite Hs. cbn. splits; try done.
  intros m' Hst. inversion Hst as [id ? Hv|id ? Hv|id ? Hv|id f ? Hv|id o ? Hv]; subst; cbn in Hv; apply Hp in Hv; done.
Qed.

Lemma start_paused_hangs_witness :
  (Start ex_settled).1 = true ∧ ∀ m', ¬ vcpu_step (Start ex_settled).2 m'.
Proof.
  destruct (start_paused_hangs 1 ex_settled ex_settled_reachable) as (H1 & _ & H2 & _); [reflexivity| |split; [exact H1|exact H2]].
  intros [|id] v; cbn; [intros [= <-]; reflexivity|by destruct id].
Defined.

(** A pause right after a resume is lost. When Resume and then Pause run
    before a parked vCPU wakes, the vCPU finds the machine paused, waits on, and
    is not counted again: from then on no vCPU can move and none is counted, so
    that the Pause waits until its deadline and fails, although no vCPU ran. *)
Theorem repause_times_out :
  ∃ m m', vm_reachable 1 m ∧ settled 1 m ∧ rtc vm_step (Pause_begin (Resume m).2).2 m' ∧
    pausedVCPUs m' = ∅ ∧ (∀ m'', ¬ vcpu_step m' m'') ∧
    pausers (Pause_check false 1 m') !! 1%nat = Some PWait ∧
    pausers (Pause_check true 1 m') !! 1%nat = Some (PReturned false).
Proof.
  exists (Pause_check false 0 ex_settled).
  exists (mkVM StatePaused [VParked] true ∅ [PReturned true; PCheck] false false true). splits; try (vm_compute; reflexivity).
  - eapply vm_reachable_step; [exact ex_settled_reachable|]. by apply s_api, a_check.
  - split; [done|]. intros id Hid. assert (id = 0%nat) as -> by lia. vm_compute. reflexivity.
  - eapply rtc_l; [apply s_vcpu, (v_woken 0); reflexivity|]. 
    match goal with |- rtc _ ?a ?b => replace b with a by (vm_compute; reflexivity) end. apply rtc_refl.
  - intros m'' Hst. inversion Hst as [id ? Hv|id ? Hv|id ? Hv|id f ? Hv|id o ? Hv]; subst; by destruct id as [|[|id]].
Qed.

(** ** Stopping *)
Definition weight (v : vpoint) : nat :=
  match v with VIdle | VDead => 0 | VGuest | VInit => 2 | _ => 1 end.
Definition work (m : VM) : nat := sum_list_with weight (vcpus m).

Lemma sum_insert (l : list vpoint) id v v0 :
  l !! id = Some v0 → (sum_list_with weight (<[id := v]> l) + weight v0 = sum_list_with weight l + weight v)%nat.
Proof.
  revert id. induction l as [|u l IH]; intros [|id] Hl; cbn in Hl |- *; try done.
  - injection Hl as ->. lia.
  - specialize (IH id Hl). rewrite <- !Nat.add_assoc. f_equal. exact IH.
Qed.

Lemma work_insert m id v v0 paused :
  vcpus m !! id = Some v0 → (weight v < weight v0)%nat → (work (set_vcpu m id v paused) < work m)%nat.
Proof. intros Hv Hw. unfold work. cbn. pose proof (sum_insert (vcpus m) id v v0 Hv). lia. Qed.

Lemma work_bound m : (work m ≤ 2 * length (vcpus m))%nat.
Proof. unfold work. induction (vcpus m) as [|v l IH]; cbn; [lia|]. destruct v; cbn; lia. Qed.

Lemma Stop_stopped m : state m = StateStopped → Stop m = m.
Proof. intros Hs. unfold Stop. by rewrite Hs. Qed.

Lemma stopped_vcpu_step m m' :
  state m = StateStopped → stopCh m = true → vcpu_step m m' → state m' = StateStopped ∧ (work m' < work m)%nat.
Proof.
  intros Hs Hch Hst. destruct Hst as [id m Hv|id m Hv|id m Hv|id x m Hv|id ok m Hv];
    unfold waitIfPaused_enter, waitIfPaused_woken, check_stop, vcpu_exit, vcpu_install; rewrite ?Hs, ?Hch, ?Stop_stopped by done; cbn [negb].
  4: destruct (exit_stops m x). 6: destruct ok.
  all: split; [done|]; eapply work_insert; [exact Hv|vm_compute; lia].
Qed.

Lemma stopped_api_step m m' : state m = StateStopped → api_step m m' → state m' = StateStopped.
Proof.
  intros Hs Hst. destruct Hst as [m|m|m|m|late i m Hp|m|m Hne Hd]; try done.
  - unfold Start. by rewrite Hs.
  - by rewrite Stop_stopped.
  - unfold Resume. by rewrite Hs.
  - unfold Pause_begin. by rewrite Hs.
  - unfold Pause_check. by rewrite Hs.
Qed.

(** A thread that neither waits nor has returned can move. *)
Lemma vcpu_can_step m id v : vcpus m !! id = Some v → v ≠ VIdle → v ≠ VParked → v ≠ VDead → ∃ m', vcpu_step m m'.
Proof.
  intros Hv Hi Hp Hd. destruct v; try done.
  - eexists. by apply (v_install id true).
  - eexists. by apply (v_enter id).
  - eexists. by apply (v_woken id).
  - eexists. by apply (v_check id).
  - eexists. by apply (v_exit id RunInterrupted).
Qed.

(** C26: stopping terminates. Once a started machine is stopped it stays
    stopped, whatever is called; every step of a vCPU brings the end nearer, so
    that there are at most two per vCPU; as long as one has not returned some
    vCPU can move; and when all have, the machine is cleaned up. *)
Theorem stop_terminates n m :
  vm_reachable n m → state m = StateStopped →
  (∀ m', vm_step m m' → state m' = StateStopped) ∧
  (∀ m', vcpu_step m m' → (work m' < work m)%nat) ∧ (work m ≤ 2 * n)%nat ∧
  (¬ Forall (eq VDead) (vcpus m) → ∃ m', vcpu_step m m') ∧
  (Forall (eq VDead) (vcpus m) → n ≠ 0%nat → api_step m (finishStop m) ∧ doneCh (finishStop m) = true).
Proof.
  intros Hi%vm_reachable_inv Hs. destruct (inv_stopped n m Hi Hs) as [Hch Hnp]. splits.
  - intros m' Hst. destruct Hst as [m1 m2 Hst|m1 m2 Hst]; [exact (proj1 (stopped_vcpu_step m1 m2 Hs Hch Hst))|exact (stopped_api_step m1 m2 Hs Hst)].
  - intros m' Hst. exact (proj2 (stopped_vcpu_step m m' Hs Hch Hst)).
  - rewrite <- (inv_count n m Hi). apply work_bound.
  - intros Hnd. apply not_Forall_Exists, Exists_exists in Hnd as (v & [id Hv]%list_elem_of_lookup & Hd); [|intros v; apply _].
    eapply vcpu_can_step; [exact Hv| | |by intros ->].
    + intros ->. apply (inv_idle n m Hi) in Hv. congruence.
    + intros ->. by apply (Hnp id).
  - intros Hall Hn. split; [|done]. apply a_finish; [|done]. intros He. apply Hn. by rewrite <- (inv_count n m Hi), He.
Qed.

Definition ex_stopped : VM := Stop ex_settled.
Lemma ex_stopped_reachable : vm_reachable 1 ex_stopped.
Proof. eapply vm_reachable_step; [exact ex_settled_reachable|apply s_api, a_stop]. Qed.

Lemma stop_terminates_witness : vm_reachable 1 ex_stopped ∧ work ex_stopped = 1%nat ∧ ∃ m', vcpu_step ex_stopped m'.
Proof.
  split; [exact ex_stopped_reachable|]. split; [reflexivity|].
  apply (stop_terminates 1 ex_stopped ex_stopped_reachable); [reflexivity|].
  intros Hf. inversion Hf as [|v l Hv]. discriminate Hv.
Defined.
