(* ===== verification/Fdt.v ===== *)
(** * Flattened device trees

    The builder of src/internal/fdt/fdt.go and the two trees it makes, with the
    interrupt-controller layouts of src/internal/arm64layout/layout.go.  The
    reader follows the Devicetree specification and knows nothing of the builder:
    what it finds in a blob is what any consumer finds. *)
From S2P Require Import Prelude Stream.

Definition fdtMagic : Z := 0xD00DFEED.
Definition fdtVersion : Z := 17.
Definition fdtLastCompatVersion : Z := 16.
Definition tokenBeginNode : Z := 1.
Definition tokenEndNode : Z := 2.
Definition tokenProp : Z := 3.
Definition tokenNop : Z := 4.
Definition tokenEnd : Z := 9.
#[local] Arguments BE : simpl never.

Definition DefaultARM64MemoryBase : Z := 0x80000000.
Definition DefaultARM64RTCBase : Z := 0x40001000.
Definition DefaultARM64RTCSize : Z := 0x1000.
Definition DefaultARM64PL011Base : Z := 0x40002000.
Definition DefaultARM64PL011Size : Z := 0x1000.
Definition DefaultARM64PL011IRQ : Z := 1.
Definition DefaultARM64GICPhandle : Z := 1.

(** ** The interrupt controllers *)
Record GICLayout := mkGIC { g_Version : Z; g_Compat : list Z; g_MaintIRQ : Z; g_Properties : Z * Z * Z * Z }.
Definition MMIO32Start : Z := 0x40000000.
Definition GICVersionV2 : Z := 2.
Definition GICVersionV3 : Z := 3.
Definition gicV2DistSize : Z := 0x1000.
Definition gicV2CPUSize : Z := 0x2000.
Definition gicV3DistSize : Z := 0x10000.
Definition gicV3RedistPerVCPU : Z := 0x20000.

Definition gic_Valid (g : GICLayout) : bool :=
  let '(p0, p1, p2, p3) := g_Properties g in
  ((g_Version g =? GICVersionV2) || (g_Version g =? GICVersionV3)) &&
  negb (zlen (g_Compat g) =? 0) && negb (g_MaintIRQ g =? 0) &&
  negb (p0 =? 0) && negb (p1 =? 0) && negb (p2 =? 0) && negb (p3 =? 0).

Definition GICv2 : GICLayout :=
  let distBase := MMIO32Start - gicV2DistSize in
  let cpuBase := distBase - gicV2CPUSize in
  mkGIC GICVersionV2 (sbytes "arm,gic-400") 8 (distBase, gicV2DistSize, cpuBase, gicV2CPUSize).
Definition GICv3 (vcpus : Z) : GICLayout :=
  let vcpus := if vcpus <=? 0 then 1 else vcpus in
  let distBase := MMIO32Start - gicV3DistSize in
  let redistSize := u64 (vcpus * gicV3RedistPerVCPU) in
  let redistBase := u64 (distBase - redistSize) in
  mkGIC GICVersionV3 (sbytes "arm,gic-v3") 9 (distBase, gicV3DistSize, redistBase, redistSize).

Record VirtioDevice := mkVirtioDevice { vd_BaseAddr : Z; vd_Size : Z; vd_IRQ : Z }.
Record ARM64Config := mkARM64Config {
  MemBase : Z; MemBytes : Z; CPUs : Z; Cmdline : list Z; InitrdAddr : Z; InitrdSize : Z; GIC : GICLayout;
  VirtioDevices : list VirtioDevice
}.

(** ** The builder *)
Record Builder := mkBuilder { b_strings : list Z; b_struct : list Z; b_strIdx : gmap (list Z) Z }.
Definition newBuilder : Builder := mkBuilder [] [] ∅.

(** Zeros up to a multiple of [a]. *)
Definition pad (a : Z) (l : list Z) : list Z := l ++ replicate (Z.to_nat ((- zlen l) mod a)) 0.

Definition addString (s : list Z) (b : Builder) : Z * Builder :=
  match b_strIdx b !! s with
  | Some idx => (idx, b)
  | None =>
      let idx := u32 (zlen (b_strings b)) in
      (idx, mkBuilder (b_strings b ++ s ++ [0]) (b_struct b) (<[s := idx]> (b_strIdx b)))
  end.
Definition append_struct (bs : list Z) (b : Builder) : Builder := mkBuilder (b_strings b) (b_struct b ++ bs) (b_strIdx b).
Definition putU32 (v : Z) (b : Builder) : Builder := append_struct (BE 4 v) b.

Definition beginNode (name : list Z) (b : Builder) : Builder :=
  append_struct (pad 4 (name ++ [0])) (putU32 tokenBeginNode b).
Definition endNode (b : Builder) : Builder := putU32 tokenEndNode b.
Definition prop (name val : list Z) (b : Builder) : Builder :=
  let b := putU32 tokenProp b in
  let b := putU32 (u32 (zlen val)) b in
  let '(idx, b) := addString name b in
  let b := append_struct val (putU32 idx b) in
  mkBuilder (b_strings b) (pad 4 (b_struct b)) (b_strIdx b).

(** Values of properties. *)
Definition cells (n : nat) (vs : list Z) : list Z := concat (BE n <$> vs).
Definition cstr (s : list Z) : list Z := s ++ [0].
Definition propEmpty (name : list Z) := prop name [].
Definition propU32 (name : list Z) (v : Z) := prop name (BE 4 v).
Definition propU64 (name : list Z) (v : Z) := prop name (BE 8 v).
Definition propU32s (name : list Z) (vals : list Z) := prop name (cells 4 vals).
Definition propU64s (name : list Z) (vals : list Z) := prop name (cells 8 vals).
Definition propStr (name s : list Z) := prop name (cstr s).
Definition strlist (strs : list (list Z)) : list Z := concat (cstr <$> strs).
Definition propStrList (name : list Z) (strs : list (list Z)) := prop name (strlist strs).
Definition propReg (addr size : Z) := prop (sbytes "reg") (cells 8 [addr; size]).
Definition propRegPairs (name : list Z) (pairs : list (Z * Z)) :=
  prop name (concat ((fun p : Z * Z => cells 8 [p.1; p.2]) <$> pairs)).
Definition propInterrupt (irq : Z) := prop (sbytes "interrupts") (cells 4 [0; u32 (irq - 32); 4]).
Definition propGICInterrupt (spi : Z) := propU32s (sbytes "interrupts") [0; spi; 1].

Definition dtb_header (structOff strOff totalSize memRsvMapOff strLen structLen : Z) : list Z :=
  cells 4 [fdtMagic; totalSize; structOff; strOff; memRsvMapOff; fdtVersion; fdtLastCompatVersion; 0; strLen; structLen].
Definition buildDTB (b : Builder) : list Z :=
  let headerSize := 40 in
  let memRsvMapSize := 16 in
  let memRsvMapOff := headerSize in
  let structOff := memRsvMapOff + memRsvMapSize in
  let strOff := u32 (structOff + u32 (zlen (b_struct b))) in
  let totalSize := u32 (strOff + u32 (zlen (b_strings b))) in
  let padding := (- totalSize) mod 8 in
  let totalSize := u32 (totalSize + padding) in
  let strings := b_strings b ++ replicate (Z.to_nat padding) 0 in
  dtb_header structOff strOff totalSize memRsvMapOff (u32 (zlen strings)) (u32 (zlen (b_struct b))) ++
  replicate 16 0 ++ b_struct b ++ strings.

(** Numbers in names: [%d] and [%x] of a value that is not negative. *)
Definition digit (d : Z) : Z := if d <? 10 then 48 + d else 87 + d.
Fixpoint fmt_digits (fuel : nat) (base n : Z) : list Z :=
  match fuel with
  | O => []
  | S fuel => if n <? base then [digit n] else fmt_digits fuel base (n / base) ++ [digit (n mod base)]
  end.
Definition fmt_uint (base n : Z) : list Z := fmt_digits 64 base n.

(** A sequence of builder calls. *)
Definition run_calls (calls : list (Builder → Builder)) (b : Builder) : Builder := foldl (fun b f => f b) b calls.

Definition upto (n : Z) : list Z := Z.of_nat <$> seq 0 (Z.to_nat n).

(** ** The trees *)
Definition Generate_calls (memBytes cpus : Z) (devices : list VirtioDevice) : list (Builder → Builder) :=
  [beginNode []; propU32 (sbytes "#address-cells") 2; propU32 (sbytes "#size-cells") 2;
   propStr (sbytes "compatible") (sbytes "linux,dummy-virt");
   beginNode (sbytes "chosen"); propStr (sbytes "stdout-path") (sbytes "/uart@3f8"); endNode;
   beginNode (sbytes "memory"); propStr (sbytes "device_type") (sbytes "memory");
   prop (sbytes "reg") (cells 8 [0; memBytes]); endNode;
   beginNode (sbytes "cpus"); propU32 (sbytes "#address-cells") 1; propU32 (sbytes "#size-cells") 0] ++
  concat ((fun i =>
    [beginNode (sbytes "cpu@" ++ fmt_uint 10 i); propStr (sbytes "device_type") (sbytes "cpu");
     propStrList (sbytes "compatible") [sbytes "arm,cortex-a57"; sbytes "arm,armv8"];
     propStr (sbytes "enable-method") (sbytes "psci"); propU32 (sbytes "reg") (u32 i); endNode]) <$> upto cpus) ++
  [endNode;
   beginNode (sbytes "uart@3f8"); propStrList (sbytes "compatible") [sbytes "ns16550a"]; propReg 0x3F8 8;
   propU32 (sbytes "clock-frequency") 1843200; propU32 (sbytes "current-speed") 115200;
   propU32 (sbytes "reg-shift") 0; propU32 (sbytes "reg-io-width") 1; endNode] ++
  concat (imap (fun i dev =>
    [beginNode (sbytes "virtio_mmio@" ++ fmt_uint 16 (vd_BaseAddr dev));
     propStr (sbytes "compatible") (sbytes "virtio,mmio"); propReg (vd_BaseAddr dev) (vd_Size dev);
     prop (sbytes "interrupts") (BE 4 (vd_IRQ dev)); propU32 (sbytes "interrupt-parent") (u32 (Z.of_nat i + 1)); endNode]) devices) ++
  [endNode; putU32 tokenEnd].
Definition Generate (memBytes cpus : Z) (devices : list VirtioDevice) : list Z :=
  buildDTB (run_calls (Generate_calls memBytes cpus devices) newBuilder).

(** The defaults that [GenerateARM64] fills in. *)
Definition arm64_defaults (cfg : ARM64Config) : ARM64Config :=
  mkARM64Config (if MemBase cfg =? 0 then DefaultARM64MemoryBase else MemBase cfg) (MemBytes cfg)
    (if CPUs cfg <=? 0 then 1 else CPUs cfg) (Cmdline cfg) (InitrdAddr cfg) (InitrdSize cfg)
    (if negb (gic_Valid (GIC cfg)) then GICv2 else GIC cfg) (VirtioDevices cfg).

Definition serialNodeName : list Z := sbytes "uart@" ++ fmt_uint 16 DefaultARM64PL011Base.

Definition arm64_cpu_calls (i : Z) : list (Builder → Builder) :=
  [beginNode (sbytes "cpu@" ++ fmt_uint 16 i); propStr (sbytes "device_type") (sbytes "cpu");
   propStrList (sbytes "compatible") [sbytes "arm,arm-v8"]; propStr (sbytes "enable-method") (sbytes "psci");
   propU64 (sbytes "reg") i; endNode].
Definition arm64_device_calls (dev : VirtioDevice) : list (Builder → Builder) :=
  [beginNode (sbytes "virtio_mmio@" ++ fmt_uint 16 (vd_BaseAddr dev));
   propStr (sbytes "compatible") (sbytes "virtio,mmio"); propReg (vd_BaseAddr dev) (vd_Size dev);
   propEmpty (sbytes "dma-coherent"); propU32 (sbytes "interrupt-parent") DefaultARM64GICPhandle;
   propGICInterrupt (vd_IRQ dev); endNode].

Definition GenerateARM64_calls (cfg : ARM64Config) : list (Builder → Builder) :=
  let '(p0, p1, p2, p3) := g_Properties (GIC cfg) in
  [beginNode []; propU32 (sbytes "#address-cells") 2; propU32 (sbytes "#size-cells") 2;
   propStrList (sbytes "compatible") [sbytes "gocracker,arm64-virt"; sbytes "linux,dummy-virt"];
   beginNode (sbytes "chosen"); propStr (sbytes "stdout-path") (sbytes "/" ++ serialNodeName)] ++
  (if negb (zlen (Cmdline cfg) =? 0) then [propStr (sbytes "bootargs") (Cmdline cfg)] else []) ++
  (if negb (InitrdAddr cfg =? 0) && negb (InitrdSize cfg =? 0) then
     [propU64 (sbytes "linux,initrd-start") (InitrdAddr cfg);
      propU64 (sbytes "linux,initrd-end") (u64 (InitrdAddr cfg + InitrdSize cfg))] else []) ++
  [endNode;
   beginNode (sbytes "aliases"); propStr (sbytes "serial0") (sbytes "/" ++ serialNodeName); endNode;
   beginNode (sbytes "memory@" ++ fmt_uint 16 (MemBase cfg)); propStr (sbytes "device_type") (sbytes "memory");
   propReg (MemBase cfg) (MemBytes cfg); endNode;
   beginNode (sbytes "cpus"); propU32 (sbytes "#address-cells") 2; propU32 (sbytes "#size-cells") 0] ++
  concat (arm64_cpu_calls <$> upto (CPUs cfg)) ++
  [endNode;
   beginNode (sbytes "psci"); propStrList (sbytes "compatible") [sbytes "arm,psci-1.0"; sbytes "arm,psci-0.2"];
   propStr (sbytes "method") (sbytes "hvc"); endNode;
   beginNode (sbytes "intc"); propStrList (sbytes "compatible") [g_Compat (GIC cfg)];
   propEmpty (sbytes "interrupt-controller"); propU32 (sbytes "#interrupt-cells") 3;
   propU32 (sbytes "#address-cells") 2; propU32 (sbytes "#size-cells") 2;
   propU32 (sbytes "phandle") DefaultARM64GICPhandle; propRegPairs (sbytes "reg") [(p0, p1); (p2, p3)];
   propEmpty (sbytes "ranges"); propU32s (sbytes "interrupts") [1; g_MaintIRQ (GIC cfg); 4]; endNode;
   beginNode (sbytes "timer"); propStr (sbytes "compatible") (sbytes "arm,armv8-timer");
   propEmpty (sbytes "always-on"); propU32 (sbytes "interrupt-parent") DefaultARM64GICPhandle;
   propU32s (sbytes "interrupts") [1; 13; 4; 1; 14; 4; 1; 11; 4; 1; 10; 4]; endNode;
   beginNode (sbytes "apb-pclk"); propStr (sbytes "compatible") (sbytes "fixed-clock");
   propU32 (sbytes "#clock-cells") 0; propU32 (sbytes "clock-frequency") 24000000;
   propStr (sbytes "clock-output-names") (sbytes "clk24mhz"); propU32 (sbytes "phandle") 2; endNode;
   beginNode (sbytes "rtc@" ++ fmt_uint 16 DefaultARM64RTCBase);
   propStrList (sbytes "compatible") [sbytes "arm,pl031"; sbytes "arm,primecell"];
   propReg DefaultARM64RTCBase DefaultARM64RTCSize; propU32 (sbytes "clocks") 2;
   propStr (sbytes "clock-names") (sbytes "apb_pclk"); endNode;
   beginNode serialNodeName; propStr (sbytes "compatible") (sbytes "ns16550a");
   propReg DefaultARM64PL011Base DefaultARM64PL011Size; propU32 (sbytes "clocks") 2;
   propStr (sbytes "clock-names") (sbytes "apb_pclk"); propU32 (sbytes "interrupt-parent") DefaultARM64GICPhandle;
   propGICInterrupt DefaultARM64PL011IRQ; endNode] ++
  concat (arm64_device_calls <$> VirtioDevices cfg) ++
  [endNode; putU32 tokenEnd].

Inductive fdt_err := NoMemory.
Definition GenerateARM64 (cfg : ARM64Config) : res fdt_err (list Z) :=
  if MemBytes cfg =? 0 then Err NoMemory
  else Ok (buildDTB (run_calls (GenerateARM64_calls (arm64_defaults cfg)) newBuilder)).

(** ** A reader of device trees *)
Inductive dtree := DNode (name : list Z) (props : list (list Z * list Z)) (children : list dtree).
Inductive item := IBegin (name : list Z) | IProp (p : list Z * list Z) | IEnd.

Definition take_u32 (s : list Z) : option (Z * list Z) :=
  if zlen s <? 4 then None else Some (be_decode (take 4 s), drop 4 s).
(** The bytes before the first NUL. *)
Fixpoint until_nul (l : list Z) : option (list Z) :=
  match l with
  | [] => None
  | b :: l => if b =? 0 then Some [] else cons b <$> until_nul l
  end.
Definition align4 (n : Z) : Z := n + (- n) mod 4.
Definition take_aligned (n : Z) (s : list Z) : option (list Z * list Z) :=
  if zlen s <? align4 n then None else Some (take (Z.to_nat n) s, drop (Z.to_nat (align4 n)) s).

Fixpoint read_tokens (fuel : nat) (strs s : list Z) : option (list item) :=
  match fuel with
  | O => None
  | S fuel =>
      '(tok, s) ← take_u32 s;
      if tok =? tokenBeginNode then
        name ← until_nul s; '(_, s) ← take_aligned (zlen name + 1) s; cons (IBegin name) <$> read_tokens fuel strs s
      else if tok =? tokenEndNode then cons IEnd <$> read_tokens fuel strs s
      else if tok =? tokenProp then
        '(len, s) ← take_u32 s; '(off, s) ← take_u32 s; name ← until_nul (drop (Z.to_nat off) strs);
        '(val, s) ← take_aligned len s; cons (IProp (name, val)) <$> read_tokens fuel strs s
      else if tok =? tokenNop then read_tokens fuel strs s
      else if (tok =? tokenEnd) && (zlen s =? 0) then Some []
      else None
  end.

Fixpoint build_tree (stack : list (list Z * list (list Z * list Z) * list dtree)) (its : list item) : option dtree :=
  match its with
  | [] => None
  | IBegin n :: its => build_tree ((n, [], []) :: stack) its
  | IProp p :: its =>
      match stack with
      | (n, ps, []) :: stack => build_tree ((n, ps ++ [p], []) :: stack) its
      | _ => None
      end
  | IEnd :: its =>
      match stack with
      | [] => None
      | [(n, ps, cs)] => match its with [] => Some (DNode n ps cs) | _ => None end
      | (n, ps, cs) :: (n', ps', cs') :: stack => build_tree ((n', ps', cs' ++ [DNode n ps cs]) :: stack) its
      end
  end.

Definition getBE32 (l : list Z) (o : Z) : option Z := be_decode <$> slice l o (o + 4).
Definition parse_dtb (blob : list Z) : option dtree :=
  magic ← getBE32 blob 0; total ← getBE32 blob 4; structOff ← getBE32 blob 8; strOff ← getBE32 blob 12;
  version ← getBE32 blob 20; compat ← getBE32 blob 24; strLen ← getBE32 blob 32; structLen ← getBE32 blob 36;
  if negb (magic =? fdtMagic) || negb (total =? zlen blob) || (version <? 17) || (17 <? compat) then None
  else
    strs ← slice blob strOff (strOff + strLen); s ← slice blob structOff (structOff + structLen);
    its ← read_tokens (length s) strs s; build_tree [] its.

(** ** Trees and their tokens *)
Fixpoint flatten (t : dtree) : list item :=
  match t with
  | DNode n ps cs => IBegin n :: (IProp <$> ps) ++ concat (List.map flatten cs) ++ [IEnd]
  end.

Section dtree_induction.
Context (P : dtree → Prop) (step : ∀ n ps cs, Forall P cs → P (DNode n ps cs)).
Fixpoint dtree_nested_ind (t : dtree) : P t :=
  match t with
  | DNode n ps cs =>
      step n ps cs ((fix go cs : Forall P cs := match cs with [] => Forall_nil_2 P | c :: cs => Forall_cons_2 P c cs (dtree_nested_ind c) (go cs) end) cs)
  end.
End dtree_induction.

Lemma build_props n ps ps0 st its :
  build_tree ((n, ps0, []) :: st) ((IProp <$> ps) ++ its) = build_tree ((n, ps0 ++ ps, []) :: st) its.
Proof.
  revert ps0. induction ps as [|p ps IH]; intros ps0; cbn; [by rewrite app_nil_r|]. by rewrite IH, <- app_assoc.
Qed.

Lemma build_flatten t : ∀ n ps cs st its,
  build_tree ((n, ps, cs) :: st) (flatten t ++ its) = build_tree ((n, ps, cs ++ [t]) :: st) its.
Proof.
  induction t as [n0 ps0 cs0 Hcs] using dtree_nested_ind. intros n ps cs st its. cbn.
  rewrite <- !app_assoc, build_props, app_nil_l.
  assert (∀ acc its, build_tree ((n0, ps0, acc) :: (n, ps, cs) :: st) (concat (List.map flatten cs0) ++ its) =
    build_tree ((n0, ps0, acc ++ cs0) :: (n, ps, cs) :: st) its) as Hgo.
  { clear its. induction Hcs as [|c cs0 Hc _ IH]; intros acc its; cbn; [by rewrite app_nil_r|].
    by rewrite <- app_assoc, Hc, IH, <- app_assoc. }
  by rewrite Hgo.
Qed.

Lemma build_root t : build_tree [] (flatten t) = Some t.
Proof.
  destruct t as [n ps cs]. cbn. rewrite build_props, app_nil_l.
  assert (∀ acc, build_tree [(n, ps, acc)] (concat (List.map flatten cs) ++ [IEnd]) = build_tree [(n, ps, acc ++ cs)] [IEnd]) as ->.
  { induction cs as [|c cs IH]; intros acc; cbn; [by rewrite app_nil_r|]. by rewrite <- app_assoc, build_flatten, IH, <- app_assoc. }
  done.
Qed.

(** Linear arithmetic with remainders by constants. *)
Ltac mlia := Z.to_euclidean_division_equations; lia.

(** ** What the builder writes can be read *)
Definition put (i : item) : Builder → Builder :=
  match i with IBegin n => beginNode n | IProp p => prop p.1 p.2 | IEnd => endNode end.
Definition nul_free (s : list Z) : Prop := Forall (fun b => b ≠ 0) s.
Definition item_ok (i : item) : Prop := match i with IBegin n => nul_free n | IProp p => nul_free p.1 | IEnd => True end.

Lemma until_nul_app s rest : nul_free s → until_nul (s ++ 0 :: rest) = Some s.
Proof. induction 1 as [|b s Hb _ IH]; [done|]. cbn. rewrite (proj2 (Z.eqb_neq b 0) Hb). by rewrite IH. Qed.
Lemma until_nul_mono l s rest : until_nul l = Some s → until_nul (l ++ rest) = Some s.
Proof.
  revert s. induction l as [|b l IH]; intros s; cbn; [done|]. destruct (b =? 0); [done|].
  intros (u & Hu & ->)%fmap_Some. by rewrite (IH u Hu).
Qed.

Lemma zlen_pad a l : zlen (pad a l) = zlen l + (- zlen l) mod a ∨ a ≤ 0.
Proof.
  destruct (Z.le_gt_cases a 0); [by right|left]. unfold pad. rewrite zlen_app.
  pose proof (Z.mod_pos_bound (- zlen l) a). unfold zlen in *. rewrite length_replicate. lia.
Qed.
Lemma zlen_pad4 l : zlen (pad 4 l) = align4 (zlen l).
Proof. destruct (zlen_pad 4 l) as [->|]; [done|lia]. Qed.

Lemma take_u32_app v s : 0 ≤ v < 2 ^ 32 → take_u32 (BE 4 v ++ s) = Some (v, s).
Proof.
  intros Hv. unfold take_u32. rewrite zlen_app, zlen_BE. pose proof (zlen_nonneg s). change (Z.of_nat 4) with 4. lt_is false.
  rewrite take_app_length', drop_app_length' by (by rewrite length_BE). by rewrite BE_decode.
Qed.
Lemma take_aligned_app l s : take_aligned (zlen l) (pad 4 l ++ s) = Some (l, s).
Proof.
  unfold take_aligned. rewrite zlen_app, zlen_pad4. pose proof (zlen_nonneg s). lt_is false.
  f_equal. f_equal.
  - unfold pad. rewrite <- app_assoc. unfold zlen at 1. by rewrite Nat2Z.id, take_app_length.
  - apply drop_app_length'. pose proof (zlen_pad4 l) as H1. unfold zlen in *. lia.
Qed.
Lemma pad_app a b : zlen a mod 4 = 0 → pad 4 (a ++ b) = a ++ pad 4 b.
Proof.
  intros Ha. unfold pad. rewrite <- app_assoc, zlen_app. do 4 f_equal.
  rewrite Z.opp_add_distr, <- Zplus_mod_idemp_l. replace (- zlen a mod 4) with 0 by mlia. by rewrite Z.add_0_l.
Qed.
Lemma align4_mod n : align4 n mod 4 = 0.
Proof. unfold align4. mlia. Qed.

Record binv (b : Builder) (its : list item) : Prop := {
  bi_aligned : zlen (b_struct b) mod 4 = 0;
  bi_idx s i : b_strIdx b !! s = Some i → 0 ≤ i < 2 ^ 32 ∧ until_nul (drop (Z.to_nat i) (b_strings b)) = Some s;
  bi_read strs fuel tail : b_strings b `prefix_of` strs →
    read_tokens (length its + fuel) strs (b_struct b ++ tail) = app its <$> read_tokens fuel strs tail;
  bi_len : (length its ≤ length (b_struct b))%nat
}.

(** A piece of the structure block that stands for one item. *)
Definition reads_item (i : item) (enc strs : list Z) : Prop :=
  ∀ fuel tail, read_tokens (S fuel) strs (enc ++ tail) = cons i <$> read_tokens fuel strs tail.

Lemma binv_snoc b its i enc strings idx :
  binv b its → zlen enc mod 4 = 0 → 0 < zlen enc → b_strings b `prefix_of` strings →
  (∀ s k, idx !! s = Some k → 0 ≤ k < 2 ^ 32 ∧ until_nul (drop (Z.to_nat k) strings) = Some s) →
  (∀ strs, strings `prefix_of` strs → reads_item i enc strs) →
  binv (mkBuilder strings (b_struct b ++ enc) idx) (its ++ [i]).
Proof.
  intros [H1 H2 H3 H4] Ha Hpos Hp Hi Hr. split; cbn [b_struct b_strings b_strIdx].
  - rewrite zlen_app, Z.add_mod, H1, Ha by done. done.
  - exact Hi.
  - intros strs fuel tail Hs. rewrite length_app, <- !app_assoc. cbn [length].
    replace (length its + 1 + fuel)%nat with (length its + S fuel)%nat by lia.
    rewrite H3 by (by etrans). rewrite (Hr strs Hs fuel tail). destruct (read_tokens fuel strs tail) as [x|]; cbn; [|done].
    by rewrite <- app_assoc.
  - rewrite !length_app. cbn. unfold zlen in Hpos. lia.
Qed.

Lemma reads_begin n strs : nul_free n → reads_item (IBegin n) (BE 4 tokenBeginNode ++ pad 4 (n ++ [0])) strs.
Proof.
  intros Hn fuel tail. cbn [read_tokens]. rewrite <- app_assoc, take_u32_app by done. cbn [mbind option_bind].
  change (tokenBeginNode =? tokenBeginNode) with true. cbv iota.
  assert (until_nul (pad 4 (n ++ [0]) ++ tail) = Some n) as ->.
  { unfold pad. rewrite <- !app_assoc. by apply until_nul_app. }
  cbn [mbind option_bind]. replace (zlen n + 1) with (zlen (n ++ [0])) by (rewrite zlen_app; done). by rewrite take_aligned_app.
Qed.
Lemma reads_end strs : reads_item IEnd (BE 4 tokenEndNode) strs.
Proof. intros fuel tail. cbn [read_tokens]. rewrite take_u32_app by done. done. Qed.
Lemma reads_prop p off strs :
  0 ≤ off < 2 ^ 32 → zlen p.2 < 2 ^ 32 → until_nul (drop (Z.to_nat off) strs) = Some p.1 →
  reads_item (IProp p) (BE 4 tokenProp ++ BE 4 (u32 (zlen p.2)) ++ BE 4 off ++ pad 4 p.2) strs.
Proof.
  intros Ho Hl Hn fuel tail. pose proof (zlen_nonneg p.2). cbn [read_tokens]. rewrite <- !app_assoc, take_u32_app by done. cbn [mbind option_bind].
  change (tokenProp =? tokenBeginNode) with false. change (tokenProp =? tokenEndNode) with false. change (tokenProp =? tokenProp) with true.
  cbv iota. rewrite take_u32_app by (apply u32_range). cbn [mbind option_bind]. rewrite take_u32_app by done. cbn [mbind option_bind].
  rewrite Hn. cbn [mbind option_bind]. rewrite u32_small by lia. rewrite take_aligned_app. by destruct p.
Qed.

(** The strings block only grows, and holds the name at the index returned. *)
Lemma addString_spec s b idx b' :
  addString s b = (idx, b') → nul_free s → zlen (b_strings b') < 2 ^ 32 →
  (∀ t i, b_strIdx b !! t = Some i → 0 ≤ i < 2 ^ 32 ∧ until_nul (drop (Z.to_nat i) (b_strings b)) = Some t) →
  b_struct b' = b_struct b ∧ b_strings b `prefix_of` b_strings b' ∧ b_strIdx b' !! s = Some idx ∧
  (∀ t i, b_strIdx b' !! t = Some i → 0 ≤ i < 2 ^ 32 ∧ until_nul (drop (Z.to_nat i) (b_strings b')) = Some t).
Proof.
  intros Ha Hs Hl Hi. unfold addString in Ha. destruct (b_strIdx b !! s) as [k|] eqn:E; injection Ha as <- <-; [done|].
  cbn in *. pose proof (zlen_nonneg (b_strings b)). pose proof (zlen_nonneg (s ++ [0])). rewrite zlen_app in Hl.
  rewrite u32_small by lia. splits; [done|by apply prefix_app_r|apply lookup_insert_eq|].
  intros t i [[<- <-]|[_ Ht]]%lookup_insert_Some.
  - split; [lia|]. unfold zlen. rewrite Nat2Z.id, drop_app_length. by apply (until_nul_app s []).
  - destruct (Hi t i Ht) as [Hr Hu]. split; [done|]. destruct (decide (Z.to_nat i ≤ length (b_strings b))%nat).
    + rewrite drop_app_le by done. by apply until_nul_mono.
    + rewrite drop_ge in Hu by lia. done.
Qed.

Lemma put_inv b its i :
  binv b its → item_ok i → zlen (b_struct (put i b)) < 2 ^ 32 → zlen (b_strings (put i b)) < 2 ^ 32 →
  binv (put i b) (its ++ [i]).
Proof.
  intros Hi Hok Hl Hls. assert (binv b its) as Hb by done. destruct Hi as [H1 H2 H3 H4]. destruct i as [n|p|].
  - cbn [put] in *. unfold beginNode, putU32, append_struct. cbn [b_struct b_strings b_strIdx]. rewrite <- app_assoc. apply binv_snoc; try done.
    + rewrite zlen_app, zlen_BE, zlen_pad4. pose proof (align4_mod (zlen (n ++ [0]))). mlia.
    + intros strs _. by apply reads_begin.
  - cbn [put] in *. unfold prop in *. destruct (addString p.1 _) as [idx b'] eqn:E.
    cbn [b_struct b_strings b_strIdx append_struct putU32] in Hl, Hls |- *.
    destruct (addString_spec _ _ _ _ E Hok Hls H2) as (Hst & Hp & Hidx & Hi). rewrite Hst in *.
    cbn [b_struct b_strings b_strIdx append_struct putU32] in Hl, Hst, Hp |- *.
    rewrite <- !app_assoc in Hl |- *. rewrite pad_app in Hl |- * by done.
    assert (∀ w, pad 4 (BE 4 tokenProp ++ BE 4 w ++ BE 4 idx ++ p.2) = BE 4 tokenProp ++ BE 4 w ++ BE 4 idx ++ pad 4 p.2) as Hpad.
    { intros w. rewrite !app_assoc. apply pad_app. by rewrite !zlen_app, !zlen_BE. }
    rewrite Hpad in Hl |- *. rewrite !zlen_app, !zlen_BE, zlen_pad4 in Hl. pose proof (zlen_nonneg (b_struct b)).
    assert (zlen p.2 < 2 ^ 32) by (unfold align4 in Hl; mlia).
    apply binv_snoc; try done.
    + rewrite !zlen_app, !zlen_BE, zlen_pad4. pose proof (align4_mod (zlen p.2)). mlia.
    + intros strs [tl ->]. destruct (Hi p.1 idx Hidx) as [Hr Hu]. apply reads_prop; [done|done|].
      destruct (decide (Z.to_nat idx ≤ length (b_strings b'))%nat); [rewrite drop_app_le by done; by apply until_nul_mono|].
      by rewrite drop_ge in Hu by lia.
  - cbn [put] in *. unfold endNode, putU32, append_struct. apply binv_snoc; try done. intros strs _. apply reads_end.
Qed.

Lemma put_mono i b : zlen (b_struct b) ≤ zlen (b_struct (put i b)) ∧ zlen (b_strings b) ≤ zlen (b_strings (put i b)).
Proof.
  assert (∀ l k : list Z, zlen l ≤ zlen (l ++ k)) as Happ by (intros l k; rewrite zlen_app; pose proof (zlen_nonneg k); lia).
  destruct i as [n|p|]; cbn [put]; unfold beginNode, endNode, prop, putU32, append_struct; cbn [b_struct b_strings b_strIdx].
  - split; [|done]. rewrite <- app_assoc. apply Happ.
  - unfold addString. cbn [b_struct b_strings b_strIdx]. destruct (_ !! p.1); cbn [b_struct b_strings]; unfold pad; rewrite <- !app_assoc; split; auto; done.
  - split; [apply Happ|done].
Qed.

Lemma run_mono its b :
  zlen (b_struct b) ≤ zlen (b_struct (run_calls (put <$> its) b)) ∧ zlen (b_strings b) ≤ zlen (b_strings (run_calls (put <$> its) b)).
Proof.
  revert b. induction its as [|i its IH]; intros b; cbn; [lia|]. destruct (put_mono i b), (IH (put i b)). unfold run_calls in *. lia.
Qed.

Lemma run_inv its : ∀ b its0,
  binv b its0 → Forall item_ok its → zlen (b_struct (run_calls (put <$> its) b)) < 2 ^ 32 →
  zlen (b_strings (run_calls (put <$> its) b)) < 2 ^ 32 → binv (run_calls (put <$> its) b) (its0 ++ its).
Proof.
  induction its as [|i its IH]; intros b its0 Hb Hok Hl Hs; [by rewrite app_nil_r|].
  inversion Hok as [|? ? Hi Hits]; subst. destruct (run_mono its (put i b)) as [Hm1 Hm2].
  change (run_calls (put <$> i :: its) b) with (run_calls (put <$> its) (put i b)) in *.
  rewrite cons_middle, app_assoc. apply IH; try done. apply put_inv; try done; lia.
Qed.

Lemma newBuilder_inv : binv newBuilder [].
Proof. split; try done. intros strs fuel tail _. cbn. by destruct (read_tokens fuel strs tail). Qed.

(** ** The blob *)
Lemma getBE32_cells vs i o v rest :
  vs !! i = Some v → o = 4 * Z.of_nat i → fits 32 v → getBE32 (cells 4 vs ++ rest) o = Some v.
Proof.
  intros Hi -> Hv. revert vs Hi. induction i as [|i IH]; intros [|w vs] Hi; try done; cbn in Hi; unfold cells; rewrite fmap_cons; cbn [concat];
    rewrite <- app_assoc; unfold getBE32.
  - injection Hi as ->. pose proof (slice_middle [] (BE 4 v) (concat (BE 4 <$> vs) ++ rest)) as Hs. rewrite zlen_BE, app_nil_l in Hs.
    change (zlen (A:=Z) []) with 0 in Hs. change (4 * Z.of_nat 0) with 0. change (0 + Z.of_nat 4) with (0 + 4) in Hs. rewrite Hs. cbn. by rewrite BE_decode.
  - replace (4 * Z.of_nat (S i)) with (zlen (BE 4 w) + 4 * Z.of_nat i) by (rewrite zlen_BE; lia).
    rewrite <- Z.add_assoc, slice_app_r by lia. by apply IH.
Qed.
Lemma zlen_cells n vs : zlen (cells n vs) = Z.of_nat n * zlen vs.
Proof. induction vs as [|v vs IH]; [change (0 = Z.of_nat n * 0); lia|]. unfold cells in *. rewrite fmap_cons. cbn [concat]. rewrite zlen_app, IH, zlen_BE, zlen_cons. lia. Qed.

Lemma zlen_header a b c d e f : zlen (dtb_header a b c d e f) = 40.
Proof. unfold dtb_header. by rewrite zlen_cells. Qed.

(** The blob when nothing wraps around. *)
Definition padding_of (b : Builder) : Z := (- (56 + zlen (b_struct b) + zlen (b_strings b))) mod 8.
Definition padded_strings (b : Builder) : list Z := b_strings b ++ replicate (Z.to_nat (padding_of b)) 0.

Lemma zlen_padded b : zlen (padded_strings b) = zlen (b_strings b) + padding_of b.
Proof.
  unfold padded_strings. rewrite zlen_app. unfold zlen at 2. rewrite length_replicate, Z2Nat.id; [done|]. unfold padding_of. mlia.
Qed.

Lemma buildDTB_eq b :
  zlen (buildDTB b) < 2 ^ 32 →
  let total := 56 + zlen (b_struct b) + zlen (padded_strings b) in
  zlen (buildDTB b) = total ∧ total mod 8 = 0 ∧ total < 2 ^ 32 ∧
  buildDTB b = dtb_header 56 (56 + zlen (b_struct b)) total 40 (zlen (padded_strings b)) (zlen (b_struct b)) ++
    replicate 16 0 ++ b_struct b ++ padded_strings b.
Proof.
  intros Hl. cbv zeta. pose proof (zlen_nonneg (b_struct b)). pose proof (zlen_nonneg (b_strings b)).
  assert (56 + zlen (b_struct b) + zlen (b_strings b) < 2 ^ 32 ∧ 0 ≤ padding_of b < 8) as [Hb Hp].
  { split; [|unfold padding_of; mlia]. unfold buildDTB in Hl. rewrite !zlen_app, zlen_header in Hl.
    match type of Hl with context [zlen (replicate ?n 0)] => pose proof (zlen_nonneg (replicate n 0)) end.
    match type of Hl with context [zlen (replicate (Z.to_nat ?n) 0)] => pose proof (zlen_nonneg (replicate (Z.to_nat n) 0)) end.
    change (zlen (replicate 16 0)) with 16 in *. lia. }
  pose proof (zlen_padded b) as Hz. assert ((56 + zlen (b_struct b) + zlen (padded_strings b)) mod 8 = 0) as Hm.
  { rewrite Hz. unfold padding_of. mlia. }
  assert (56 + zlen (b_struct b) + zlen (padded_strings b) < 2 ^ 32) as Ht.
  { revert Hl. unfold buildDTB. rewrite (u32_small (zlen (b_struct b))), (u32_small (zlen (b_strings b))) by lia.
    change (40 + 16) with 56. rewrite (u32_small (56 + zlen (b_struct b))) by lia. rewrite (u32_small (56 + zlen (b_struct b) + _)) by lia.
    fold (padding_of b). fold (padded_strings b). rewrite !zlen_app, zlen_header. change (zlen (replicate 16 0)) with 16. lia. }
  assert (buildDTB b = dtb_header 56 (56 + zlen (b_struct b)) (56 + zlen (b_struct b) + zlen (padded_strings b)) 40
    (zlen (padded_strings b)) (zlen (b_struct b)) ++ replicate 16 0 ++ b_struct b ++ padded_strings b) as Heq.
  { unfold buildDTB. rewrite (u32_small (zlen (b_struct b))), (u32_small (zlen (b_strings b))) by lia.
    change (40 + 16) with 56. rewrite (u32_small (56 + zlen (b_struct b))) by lia. rewrite (u32_small (56 + zlen (b_struct b) + _)) by lia.
    fold (padding_of b). fold (padded_strings b). rewrite (u32_small (zlen (padded_strings b))) by lia.
    rewrite <- Z.add_assoc, <- Hz. rewrite u32_small by lia. done. }
  splits; try done. rewrite Heq, !zlen_app. rewrite zlen_header. change (zlen (replicate 16 0)) with 16. lia.
Qed.

Lemma parse_buildDTB b its t :
  zlen (buildDTB b) < 2 ^ 32 →
  (∀ tl, read_tokens (length (b_struct b)) (b_strings b ++ tl) (b_struct b) = Some its) → build_tree [] its = Some t →
  parse_dtb (buildDTB b) = Some t ∧ zlen (buildDTB b) mod 8 = 0.
Proof.
  intros Hl Hr Ht. destruct (buildDTB_eq b Hl) as (Hz & Hm & Hb & Heq). split; [|by rewrite Hz].
  pose proof (zlen_nonneg (b_struct b)). pose proof (zlen_nonneg (padded_strings b)).
  unfold parse_dtb. rewrite Hz, Heq. unfold dtb_header. set (vs := [fdtMagic; _; _; _; _; _; _; _; _; _]). set (rest := replicate 16 0 ++ _).
  rewrite (getBE32_cells vs 0 0 fdtMagic), (getBE32_cells vs 1 4 (56 + zlen (b_struct b) + zlen (padded_strings b))),
    (getBE32_cells vs 2 8 56), (getBE32_cells vs 3 12 (56 + zlen (b_struct b))), (getBE32_cells vs 5 20 fdtVersion),
    (getBE32_cells vs 6 24 fdtLastCompatVersion), (getBE32_cells vs 8 32 (zlen (padded_strings b))),
    (getBE32_cells vs 9 36 (zlen (b_struct b))) by (done || (unfold fits; lia)).
  cbn [mbind option_bind]. rewrite !Z.eqb_refl. cbn [negb orb]. change (fdtVersion <? 17) with false. change (17 <? fdtLastCompatVersion) with false.
  cbn [orb]. cbv iota.
  assert (zlen (cells 4 vs ++ replicate 16 0) = 56) as H56 by (rewrite zlen_app, zlen_cells; done).
  unfold rest. rewrite !app_assoc.
  pose proof (slice_middle (cells 4 vs ++ replicate 16 0) (b_struct b) (padded_strings b)) as Hs. rewrite H56, !app_assoc in Hs. rewrite Hs.
  pose proof (slice_middle ((cells 4 vs ++ replicate 16 0) ++ b_struct b) (padded_strings b) []) as Hs'.
  rewrite zlen_app, H56, app_nil_r in Hs'. rewrite Hs'. cbn [mbind option_bind]. unfold padded_strings. rewrite Hr. done.
Qed.

(** Builder calls that are the tokens of a tree give a blob that parses to it. *)
Lemma parse_built t calls :
  calls = (put <$> flatten t) ++ [putU32 tokenEnd] → Forall item_ok (flatten t) →
  zlen (buildDTB (run_calls calls newBuilder)) < 2 ^ 32 →
  parse_dtb (buildDTB (run_calls calls newBuilder)) = Some t ∧ zlen (buildDTB (run_calls calls newBuilder)) mod 8 = 0.
Proof.
  intros -> Hok Hl. destruct (buildDTB_eq _ Hl) as (_ & _ & Hb & _). revert Hl Hb. unfold run_calls. rewrite foldl_app. cbn [foldl].
  fold (run_calls (put <$> flatten t) newBuilder). set (b := run_calls (put <$> flatten t) newBuilder). intros Hl Hb.
  rewrite zlen_padded in Hb. cbn [putU32 append_struct b_struct b_strings] in Hb. rewrite zlen_app, zlen_BE in Hb.
  pose proof (zlen_nonneg (b_struct b)). pose proof (zlen_nonneg (b_strings b)).
  assert (0 ≤ padding_of (putU32 tokenEnd b)) by (unfold padding_of; mlia).
  assert (binv b (flatten t)) as [_ _ Hread Hlen] by (apply (run_inv (flatten t) newBuilder []); [apply newBuilder_inv|done|fold b; lia..]).
  eapply parse_buildDTB; [done| |apply build_root]. intros tl. cbn [putU32 append_struct b_struct b_strings].
  rewrite length_app, length_BE. replace (length (b_struct b) + 4)%nat with (length (flatten t) + S (length (b_struct b) + 3 - length (flatten t)))%nat by lia.
  rewrite Hread by (by apply prefix_app_r). cbn [read_tokens]. rewrite <- (app_nil_r (BE 4 tokenEnd)), take_u32_app by done.
  cbn. change (zlen (A:=Z) [] =? 0) with true. cbn. by rewrite app_nil_r.
Qed.

(** ** The trees that are meant *)
Definition leaf (name : list Z) (props : list (list Z * list Z)) : dtree := DNode name props [].

Definition virt_tree (memBytes cpus : Z) (devices : list VirtioDevice) : dtree :=
  DNode [] [(sbytes "#address-cells", BE 4 2); (sbytes "#size-cells", BE 4 2); (sbytes "compatible", cstr (sbytes "linux,dummy-virt"))]
   ([leaf (sbytes "chosen") [(sbytes "stdout-path", cstr (sbytes "/uart@3f8"))];
     leaf (sbytes "memory") [(sbytes "device_type", cstr (sbytes "memory")); (sbytes "reg", cells 8 [0; memBytes])];
     DNode (sbytes "cpus") [(sbytes "#address-cells", BE 4 1); (sbytes "#size-cells", BE 4 0)]
       ((fun i => leaf (sbytes "cpu@" ++ fmt_uint 10 i)
          [(sbytes "device_type", cstr (sbytes "cpu")); (sbytes "compatible", strlist [sbytes "arm,cortex-a57"; sbytes "arm,armv8"]);
           (sbytes "enable-method", cstr (sbytes "psci")); (sbytes "reg", BE 4 (u32 i))]) <$> upto cpus);
     leaf (sbytes "uart@3f8") [(sbytes "compatible", strlist [sbytes "ns16550a"]); (sbytes "reg", cells 8 [0x3F8; 8]);
       (sbytes "clock-frequency", BE 4 1843200); (sbytes "current-speed", BE 4 115200); (sbytes "reg-shift", BE 4 0);
       (sbytes "reg-io-width", BE 4 1)]] ++
    imap (fun i dev => leaf (sbytes "virtio_mmio@" ++ fmt_uint 16 (vd_BaseAddr dev))
      [(sbytes "compatible", cstr (sbytes "virtio,mmio")); (sbytes "reg", cells 8 [vd_BaseAddr dev; vd_Size dev]);
       (sbytes "interrupts", BE 4 (vd_IRQ dev)); (sbytes "interrupt-parent", BE 4 (u32 (Z.of_nat i + 1)))]) devices).

Definition arm64_cpu_node (i : Z) : dtree :=
  leaf (sbytes "cpu@" ++ fmt_uint 16 i)
    [(sbytes "device_type", cstr (sbytes "cpu")); (sbytes "compatible", strlist [sbytes "arm,arm-v8"]);
     (sbytes "enable-method", cstr (sbytes "psci")); (sbytes "reg", BE 8 i)].
Definition arm64_device_node (dev : VirtioDevice) : dtree :=
  leaf (sbytes "virtio_mmio@" ++ fmt_uint 16 (vd_BaseAddr dev))
    [(sbytes "compatible", cstr (sbytes "virtio,mmio")); (sbytes "reg", cells 8 [vd_BaseAddr dev; vd_Size dev]);
     (sbytes "dma-coherent", []); (sbytes "interrupt-parent", BE 4 DefaultARM64GICPhandle);
     (sbytes "interrupts", cells 4 [0; vd_IRQ dev; 1])].
Definition chosen_props (cfg : ARM64Config) : list (list Z * list Z) :=
  [(sbytes "stdout-path", cstr (sbytes "/" ++ serialNodeName))] ++
  (if negb (zlen (Cmdline cfg) =? 0) then [(sbytes "bootargs", cstr (Cmdline cfg))] else []) ++
  (if negb (InitrdAddr cfg =? 0) && negb (InitrdSize cfg =? 0) then
     [(sbytes "linux,initrd-start", BE 8 (InitrdAddr cfg)); (sbytes "linux,initrd-end", BE 8 (u64 (InitrdAddr cfg + InitrdSize cfg)))]
   else []).

(** The nodes of the machine itself, and those of its devices. *)
Definition arm64_board (cfg : ARM64Config) : list dtree :=
  let '(p0, p1, p2, p3) := g_Properties (GIC cfg) in
  [leaf (sbytes "chosen") (chosen_props cfg);
   leaf (sbytes "aliases") [(sbytes "serial0", cstr (sbytes "/" ++ serialNodeName))];
   leaf (sbytes "memory@" ++ fmt_uint 16 (MemBase cfg))
     [(sbytes "device_type", cstr (sbytes "memory")); (sbytes "reg", cells 8 [MemBase cfg; MemBytes cfg])];
   DNode (sbytes "cpus") [(sbytes "#address-cells", BE 4 2); (sbytes "#size-cells", BE 4 0)] (arm64_cpu_node <$> upto (CPUs cfg));
   leaf (sbytes "psci") [(sbytes "compatible", strlist [sbytes "arm,psci-1.0"; sbytes "arm,psci-0.2"]); (sbytes "method", cstr (sbytes "hvc"))];
   leaf (sbytes "intc")
     [(sbytes "compatible", strlist [g_Compat (GIC cfg)]); (sbytes "interrupt-controller", []); (sbytes "#interrupt-cells", BE 4 3);
      (sbytes "#address-cells", BE 4 2); (sbytes "#size-cells", BE 4 2); (sbytes "phandle", BE 4 DefaultARM64GICPhandle);
      (sbytes "reg", cells 8 [p0; p1; p2; p3]); (sbytes "ranges", []); (sbytes "interrupts", cells 4 [1; g_MaintIRQ (GIC cfg); 4])];
   leaf (sbytes "timer")
     [(sbytes "compatible", cstr (sbytes "arm,armv8-timer")); (sbytes "always-on", []); (sbytes "interrupt-parent", BE 4 DefaultARM64GICPhandle);
      (sbytes "interrupts", cells 4 [1; 13; 4; 1; 14; 4; 1; 11; 4; 1; 10; 4])];
   leaf (sbytes "apb-pclk")
     [(sbytes "compatible", cstr (sbytes "fixed-clock")); (sbytes "#clock-cells", BE 4 0); (sbytes "clock-frequency", BE 4 24000000);
      (sbytes "clock-output-names", cstr (sbytes "clk24mhz")); (sbytes "phandle", BE 4 2)];
   leaf (sbytes "rtc@" ++ fmt_uint 16 DefaultARM64RTCBase)
     [(sbytes "compatible", strlist [sbytes "arm,pl031"; sbytes "arm,primecell"]); (sbytes "reg", cells 8 [0x40001000; 0x1000]);
      (sbytes "clocks", BE 4 2); (sbytes "clock-names", cstr (sbytes "apb_pclk"))];
   leaf serialNodeName
     [(sbytes "compatible", cstr (sbytes "ns16550a")); (sbytes "reg", cells 8 [0x40002000; 0x1000]); (sbytes "clocks", BE 4 2);
      (sbytes "clock-names", cstr (sbytes "apb_pclk")); (sbytes "interrupt-parent", BE 4 DefaultARM64GICPhandle);
      (sbytes "interrupts", cells 4 [0; 1; 1])]].
Definition arm64_tree (cfg : ARM64Config) : dtree :=
  DNode [] [(sbytes "#address-cells", BE 4 2); (sbytes "#size-cells", BE 4 2);
            (sbytes "compatible", strlist [sbytes "gocracker,arm64-virt"; sbytes "linux,dummy-virt"])]
    (arm64_board cfg ++ (arm64_device_node <$> VirtioDevices cfg)).

(** Names are printable. *)
Lemma digit_nonzero d : 0 ≤ d → digit d ≠ 0.
Proof. intros. unfold digit. destruct (d <? 10); lia. Qed.
Lemma fmt_digits_nul_free fuel base n : 0 < base → 0 ≤ n → nul_free (fmt_digits fuel base n).
Proof.
  intros Hb. revert n. induction fuel as [|fuel IH]; intros n Hn; cbn; [constructor|].
  destruct (n <? base); [by constructor; [apply digit_nonzero|]|]. apply Forall_app. split.
  - apply IH. by apply Z.div_pos.
  - constructor; [|constructor]. apply digit_nonzero. by apply Z.mod_pos_bound.
Qed.
Lemma named_nul_free s base n : nul_free s → 0 < base → 0 ≤ n → nul_free (s ++ fmt_uint base n).
Proof. intros. apply Forall_app. split; [done|by apply fmt_digits_nul_free]. Qed.

(** Numbers print differently. *)
Definition undigit (c : Z) : Z := if c <? 58 then c - 48 else c - 87.
Definition unfmt (base : Z) (l : list Z) : Z := foldl (fun a c => a * base + undigit c) 0 l.
Lemma undigit_digit d : 0 ≤ d → undigit (digit d) = d.
Proof. intros. unfold undigit, digit. destruct (Z.ltb_spec d 10); case_match; b2p; lia. Qed.
Lemma unfmt_fmt fuel base n : 1 < base → 0 ≤ n < base ^ Z.of_nat fuel → unfmt base (fmt_digits fuel base n) = n.
Proof.
  intros Hb. revert n. induction fuel as [|fuel IH]; intros n Hn; cbn [fmt_digits]; [cbn in Hn |- *; lia|].
  destruct (Z.ltb_spec n base).
  - cbn. rewrite undigit_digit; lia.
  - unfold unfmt. rewrite foldl_app. fold (unfmt base (fmt_digits fuel base (n / base))). rewrite IH.
    + cbn. rewrite undigit_digit by (apply Z.mod_pos_bound; lia). pose proof (Z.div_mod n base). lia.
    + rewrite Nat2Z.inj_succ, Z.pow_succ_r in Hn by lia. split; [apply Z.div_pos; lia|]. apply Z.div_lt_upper_bound; lia.
Qed.
Lemma fmt_uint_inj n m : 0 ≤ n < 2 ^ 64 → 0 ≤ m < 2 ^ 64 → fmt_uint 16 n = fmt_uint 16 m → n = m.
Proof.
  intros Hn Hm He. assert (2 ^ 64 < 16 ^ Z.of_nat 64) by done. rewrite <- (unfmt_fmt 64 16 n), <- (unfmt_fmt 64 16 m) by lia.
  by f_equal.
Qed.

(** ** The calls are the tokens of the trees *)
Definition call_prop (p : list Z * list Z) : Builder → Builder := prop p.1 p.2.
Lemma calls_node n ps cs :
  put <$> flatten (DNode n ps cs) = beginNode n :: (call_prop <$> ps) ++ concat ((fun t => put <$> flatten t) <$> cs) ++ [endNode].
Proof.
  cbn [flatten]. rewrite fmap_cons, !fmap_app, <- list_fmap_compose. f_equal. f_equal. f_equal.
  induction cs as [|c cs IH]; [done|]. cbn [List.map concat]. by rewrite fmap_app, IH.
Qed.

Lemma concat_fmap_ext {A B} (f g : A → list B) l : (∀ x, f x = g x) → concat (f <$> l) = concat (g <$> l).
Proof. intros Hfg. induction l as [|x l IH]; [done|]. rewrite !fmap_cons. cbn [concat]. by rewrite IH, Hfg. Qed.

Lemma arm64_device_tokens dev : put <$> flatten (arm64_device_node dev) = arm64_device_calls dev.
Proof. reflexivity. Qed.
Lemma arm64_cpu_tokens i : put <$> flatten (arm64_cpu_node i) = arm64_cpu_calls i.
Proof. reflexivity. Qed.
Lemma reg_pairs a b c d : concat ((fun p : Z * Z => cells 8 [p.1; p.2]) <$> [(a, b); (c, d)]) = cells 8 [a; b; c; d].
Proof. unfold cells. cbn [fmap list_fmap concat fst snd]. by rewrite !app_nil_r, <- app_assoc. Qed.

Lemma chosen_tokens cfg :
  put <$> flatten (leaf (sbytes "chosen") (chosen_props cfg)) =
  [beginNode (sbytes "chosen"); propStr (sbytes "stdout-path") (sbytes "/" ++ serialNodeName)] ++
  (if negb (zlen (Cmdline cfg) =? 0) then [propStr (sbytes "bootargs") (Cmdline cfg)] else []) ++
  (if negb (InitrdAddr cfg =? 0) && negb (InitrdSize cfg =? 0) then
     [propU64 (sbytes "linux,initrd-start") (InitrdAddr cfg);
      propU64 (sbytes "linux,initrd-end") (u64 (InitrdAddr cfg + InitrdSize cfg))] else []) ++ [endNode].
Proof.
  unfold leaf. rewrite calls_node. unfold chosen_props. rewrite !fmap_app.
  destruct (negb (zlen (Cmdline cfg) =? 0)), (negb (InitrdAddr cfg =? 0) && negb (InitrdSize cfg =? 0)); reflexivity.
Qed.

Lemma arm64_tokens cfg : GenerateARM64_calls cfg = (put <$> flatten (arm64_tree cfg)) ++ [putU32 tokenEnd].
Proof.
  unfold arm64_tree, GenerateARM64_calls. rewrite calls_node, fmap_app, concat_app, <- list_fmap_compose.
  rewrite (concat_fmap_ext (_ ∘ arm64_device_node) arm64_device_calls) by apply arm64_device_tokens.
  unfold arm64_board. destruct (g_Properties (GIC cfg)) as [[[p0 p1] p2] p3].
  rewrite !fmap_cons, fmap_nil. cbn [concat]. rewrite chosen_tokens, (calls_node (sbytes "cpus")), <- list_fmap_compose.
  rewrite (concat_fmap_ext (_ ∘ arm64_cpu_node) arm64_cpu_calls) by apply arm64_cpu_tokens.
  rewrite <- reg_pairs. repeat (rewrite <- app_assoc || rewrite <- app_comm_cons). reflexivity.
Qed.

Lemma virt_tokens memBytes cpus devices :
  Generate_calls memBytes cpus devices = (put <$> flatten (virt_tree memBytes cpus devices)) ++ [putU32 tokenEnd].
Proof.
  unfold virt_tree, Generate_calls. rewrite calls_node, fmap_app, concat_app.
  assert (∀ (f : nat → VirtioDevice → dtree) g, (∀ i d, put <$> flatten (f i d) = g i d) →
    concat ((fun t => put <$> flatten t) <$> imap f devices) = concat (imap g devices)) as Himap.
  { clear. intros f g Hfg. rewrite fmap_imap. f_equal. apply imap_ext. intros i d _. apply Hfg. }
  erewrite Himap by (intros; reflexivity). rewrite !fmap_cons, fmap_nil. cbn [concat]. rewrite (calls_node (sbytes "cpus")), <- list_fmap_compose.
  repeat (rewrite <- app_assoc || rewrite <- app_comm_cons). reflexivity.
Qed.

(** ** Well-formed names *)
Definition node_name (t : dtree) : list Z := match t with DNode n _ _ => n end.
Definition children (t : dtree) : list dtree := match t with DNode _ _ cs => cs end.
Definition tree_ok (t : dtree) : Prop := Forall item_ok (flatten t).

Lemma tree_ok_node n ps cs : nul_free n → Forall (fun p => nul_free p.1) ps → Forall tree_ok cs → tree_ok (DNode n ps cs).
Proof.
  intros Hn Hps Hcs. unfold tree_ok. cbn [flatten]. constructor; [done|]. apply Forall_app. split; [by apply Forall_fmap|].
  apply Forall_app. split; [|by repeat constructor]. induction Hcs as [|c cs Hc _ IH]; [constructor|]. by apply Forall_app.
Qed.

Ltac const_name := apply (bool_decide_unpack _); vm_compute; exact I.
Ltac const_props := repeat (apply Forall_cons_2; [cbn [fst]; const_name|]); apply Forall_nil_2.
#[export] Instance nul_free_dec s : Decision (nul_free s) := _.

Lemma arm64_device_ok dev : 0 ≤ vd_BaseAddr dev → tree_ok (arm64_device_node dev).
Proof. intros. apply tree_ok_node; [apply named_nul_free; [const_name|done|done]|const_props|constructor]. Qed.
Lemma arm64_cpu_ok i : 0 ≤ i → tree_ok (arm64_cpu_node i).
Proof. intros. apply tree_ok_node; [apply named_nul_free; [const_name|done|done]|const_props|constructor]. Qed.
Lemma upto_nonneg n : Forall (fun i => 0 ≤ i) (upto n).
Proof. apply Forall_fmap, Forall_forall. intros i _. cbn. lia. Qed.
Lemma chosen_ok cfg : tree_ok (leaf (sbytes "chosen") (chosen_props cfg)).
Proof.
  apply tree_ok_node; [const_name| |constructor]. unfold chosen_props.
  destruct (negb _), (negb _ && negb _); cbn [app]; const_props.
Qed.

Lemma arm64_tree_ok cfg :
  0 ≤ MemBase cfg → Forall (fun d => 0 ≤ vd_BaseAddr d) (VirtioDevices cfg) → tree_ok (arm64_tree cfg).
Proof.
  intros Hm Hd. apply tree_ok_node; [constructor|const_props|]. apply Forall_app. split.
  - unfold arm64_board. destruct (g_Properties (GIC cfg)) as [[[p0 p1] p2] p3].
    apply Forall_cons_2; [apply chosen_ok|]. apply Forall_cons_2; [apply tree_ok_node; [const_name|const_props|constructor]|].
    apply Forall_cons_2; [apply tree_ok_node; [apply named_nul_free; [const_name|done|done]|const_props|constructor]|].
    apply Forall_cons_2.
    { apply tree_ok_node; [const_name|const_props|]. apply Forall_fmap. eapply Forall_impl; [apply upto_nonneg|]. intros i. apply arm64_cpu_ok. }
    repeat (apply Forall_cons_2; [apply tree_ok_node; [const_name|const_props|constructor]|]). constructor.
  - apply Forall_fmap. eapply Forall_impl; [exact Hd|]. intros d. apply arm64_device_ok.
Qed.

(** Siblings of the root have names of their own. *)
Lemma board_names cfg : NoDup (node_name <$> arm64_board cfg) ∧ Forall (fun n => head n ≠ Some 118) (node_name <$> arm64_board cfg).
Proof.
  unfold arm64_board. destruct (g_Properties (GIC cfg)) as [[[p0 p1] p2] p3]. cbn [fmap list_fmap node_name leaf].
  generalize (fmt_uint 16 (MemBase cfg)) as x. intros x. split.
  - repeat (apply NoDup_cons_2; [rewrite ?not_elem_of_cons; splits; try done; apply not_elem_of_nil|]). apply NoDup_nil_2.
  - repeat (apply Forall_cons_2; [done|]). apply Forall_nil_2.
Qed.

Lemma arm64_names_distinct cfg :
  Forall (fun d => 0 ≤ vd_BaseAddr d < 2 ^ 64) (VirtioDevices cfg) → NoDup (vd_BaseAddr <$> VirtioDevices cfg) →
  NoDup (node_name <$> children (arm64_tree cfg)).
Proof.
  intros Hr Hnd. destruct (board_names cfg) as [Hb Hh]. cbn [children arm64_tree]. rewrite fmap_app, <- list_fmap_compose. apply NoDup_app. splits.
  - exact Hb.
  - intros n Hn (d & -> & _)%list_elem_of_fmap. rewrite Forall_forall in Hh. by apply (Hh _ Hn).
  - rewrite Forall_forall in Hr. change (node_name ∘ arm64_device_node) with ((fun a => sbytes "virtio_mmio@" ++ fmt_uint 16 a) ∘ vd_BaseAddr).
    rewrite list_fmap_compose. apply NoDup_fmap_2_strong; [|done].
    intros x y (dx & -> & Hx)%list_elem_of_fmap (dy & -> & Hy)%list_elem_of_fmap He%app_inv_head. apply fmt_uint_inj; [by apply Hr..|done].
Qed.

(** The redistributors, the distributor and the devices' window do not overlap. *)
Lemma GICv3_layout vcpus :
  0 < vcpus ≤ 8000 →
  gic_Valid (GICv3 vcpus) = true ∧
  let '(distBase, distSize, redistBase, redistSize) := g_Properties (GICv3 vcpus) in
  0 < redistBase ∧ redistBase + redistSize = distBase ∧ distBase + distSize = MMIO32Start ∧ redistSize = vcpus * gicV3RedistPerVCPU.
Proof.
  intros Hv. unfold gic_Valid, GICv3. le_is false. unfold gicV3RedistPerVCPU, MMIO32Start, gicV3DistSize. cbn [g_Properties g_Version g_Compat g_MaintIRQ].
  rewrite (u64_small (vcpus * 0x20000)) by lia. rewrite u64_small by lia. split; [|lia].
  rewrite (proj2 (Z.eqb_neq (0x40000000 - 0x10000 - vcpus * 0x20000) 0)), (proj2 (Z.eqb_neq (vcpus * 0x20000) 0)) by lia. done.
Qed.

Lemma virt_dtb_parses memBytes cpus devices :
  Forall (fun d => 0 ≤ vd_BaseAddr d) devices → zlen (Generate memBytes cpus devices) < 2 ^ 32 →
  parse_dtb (Generate memBytes cpus devices) = Some (virt_tree memBytes cpus devices).
Proof.
  intros Hd Hl. apply (parse_built _ _ (virt_tokens memBytes cpus devices)); [|done].
  apply tree_ok_node; [constructor|const_props|]. apply Forall_app. split.
  - repeat (apply Forall_cons_2; [apply tree_ok_node; [const_name|const_props|]|]); try constructor.
    apply Forall_fmap. eapply Forall_impl; [apply upto_nonneg|]. intros i Hi.
    apply tree_ok_node; [apply named_nul_free; [const_name|done|done]|const_props|constructor].
  - rewrite Forall_lookup. intros i t. rewrite list_lookup_imap. intros (d & Hl' & ->)%fmap_Some. rewrite Forall_lookup in Hd.
    apply tree_ok_node; [apply named_nul_free; [const_name|done|by eapply Hd]|const_props|constructor].
Qed.

(** C38: the arm64 guest finds the machine it was given. For every configuration
    with memory the blob is built; as long as it is below 4 GiB, a reader that
    follows the Devicetree specification finds in it exactly the intended tree:
    memory, CPUs, interrupt controller, timer, clock, serial port and one node
    per virtio device with its registers and interrupt; its size is a multiple of
    eight; and when the devices have different addresses no two nodes under the
    root have the same name.  Without memory it is an error. *)
Theorem arm64_dtb_correct cfg :
  (MemBytes cfg = 0 → GenerateARM64 cfg = Err NoMemory) ∧
  (MemBytes cfg ≠ 0 → 0 ≤ MemBase cfg → Forall (fun d => 0 ≤ vd_BaseAddr d < 2 ^ 64) (VirtioDevices cfg) →
   ∃ blob, GenerateARM64 cfg = Ok blob ∧
     (zlen blob < 2 ^ 32 →
        parse_dtb blob = Some (arm64_tree (arm64_defaults cfg)) ∧ zlen blob mod 8 = 0 ∧
        (NoDup (vd_BaseAddr <$> VirtioDevices cfg) → NoDup (node_name <$> children (arm64_tree (arm64_defaults cfg)))))).
Proof.
  split; unfold GenerateARM64; [by intros ->|]. intros Hm Hb Hd. eq_is false. eexists. split; [done|]. intros Hl.
  destruct (parse_built _ _ (arm64_tokens (arm64_defaults cfg))) as [Hp H8]; [|exact Hl|].
  - apply arm64_tree_ok; [cbn; by destruct (_ =? 0)|]. eapply Forall_impl; [exact Hd|]. cbn. lia.
  - splits; [exact Hp|exact H8|]. intros Hnd. by apply arm64_names_distinct.
Qed.

Definition sample_arm64 : ARM64Config :=
  mkARM64Config 0 0x10000000 2 (sbytes "console=ttyS0") 0 0 (mkGIC 0 [] 0 (0, 0, 0, 0)) [mkVirtioDevice 0x40003000 0x1000 2].
Lemma arm64_dtb_correct_witness :
  ∃ blob, GenerateARM64 sample_arm64 = Ok blob ∧ zlen blob = 1800 ∧ parse_dtb blob = Some (arm64_tree (arm64_defaults sample_arm64)).
Proof.
  destruct (proj2 (arm64_dtb_correct sample_arm64)) as (blob & Hg & Hp); [discriminate|discriminate|..].
  { apply (bool_decide_unpack _). vm_compute. exact I. }
  exists blob. assert (zlen blob = 1800) as Hl.
  { assert (blob = value_or [] (GenerateARM64 sample_arm64)) as -> by (rewrite Hg; reflexivity). vm_compute. reflexivity. }
  split; [exact Hg|]. split; [exact Hl|]. apply Hp. rewrite Hl. reflexivity.
Defined.
