(* ===== verification/Acpi.v ===== *)
(** * ACPI tables of x86 guests

    src/internal/acpi/acpi.go and src/internal/acpi/aml.go: the system
    description tables with their checksums, their places in guest memory, and the
    byte code that describes the devices.  The readers follow the ACPI
    specification: one walks the tables from the root pointer as an operating
    system does, the other decodes the byte code. *)
From S2P Require Import Prelude Stream Mptable Fdt.

Definition APICAddr : Z := 0xFEE00000.
Definition IOAPICAddr : Z := 0xFEC00000.
Definition RSDPAddr : Z := 0xE0000.
Definition SystemStart : Z := 0xA0000.
Definition SystemEnd : Z := RSDPAddr.
Definition dsdtAlignment : Z := 8.
Definition fadtLength : Z := 276.
Definition acpi_oemID : list Z := sbytes "GOCRKR".
Definition dsdtTableID : list Z := sbytes "GCDSDT01".
Definition fadtTableID : list Z := sbytes "GCFADT01".
Definition madtTableID : list Z := sbytes "GCMADT01".
Definition rsdtTableID : list Z := sbytes "GCRSDT01".
Definition xsdtTableID : list Z := sbytes "GCXSDT01".
Definition hypervisorID : list Z := sbytes "GOCRKVM ".
Definition creatorID : list Z := sbytes "GCAT".
Definition creatorRevision : Z := 0x20260402.

Record MMIODevice := mkMMIO { md_Addr : Z; md_Len : Z; md_GSI : Z }.
Inductive acpi_err := BadVCPUs | MemoryTooSmall | TableOverflow | AddressTooHigh | EmptyPath | BadPathPart | BadEISA.

(** ** Byte code *)
Definition appendPkgLength (dst : list Z) (payloadLen : Z) (includeSelf : bool) : list Z :=
  let lengthLen :=
    if payloadLen <? (1 .<< 6) - 1 then 1
    else if payloadLen <? (1 .<< 12) - 2 then 2
    else if payloadLen <? (1 .<< 20) - 3 then 3
    else 4 in
  let length := if includeSelf then payloadLen + lengthLen else payloadLen in
  if lengthLen =? 1 then dst ++ [u8 length]
  else if lengthLen =? 2 then dst ++ [u8 ((1 .<< 6) .| (length .& 0x0f)); u8 ((length .>> 4) .& 0xff)]
  else if lengthLen =? 3 then dst ++ [u8 ((2 .<< 6) .| (length .& 0x0f)); u8 ((length .>> 4) .& 0xff); u8 ((length .>> 12) .& 0xff)]
  else dst ++ [u8 ((3 .<< 6) .| (length .& 0x0f)); u8 ((length .>> 4) .& 0xff); u8 ((length .>> 12) .& 0xff); u8 ((length .>> 20) .& 0xff)].

(** [strings.Split(name, ".")] *)
Fixpoint split_dots (l cur : list Z) : list (list Z) :=
  match l with
  | [] => [cur]
  | b :: l => if b =? 46 then cur :: split_dots l [] else split_dots l (cur ++ [b])
  end.

Definition encodePath (name : list Z) : res acpi_err (list Z) :=
  let root := match name with 92 :: _ => true | _ => false end in
  let name := if root then drop 1 name else name in
  if zlen name =? 0 then Err EmptyPath
  else
    let parts := split_dots name [] in
    if negb (forallb (fun part => zlen part =? 4) parts) then Err BadPathPart
    else
      Ok ((if root then [92] else []) ++
          (if zlen parts =? 1 then [] else if zlen parts =? 2 then [0x2E] else [0x2F; u8 (zlen parts)]) ++
          concat parts).

Definition appendName (dst path value : list Z) : res acpi_err (list Z) :=
  pathBytes ← encodePath path;
  Ok (dst ++ [0x08] ++ pathBytes ++ value).

Definition mustHex (ch : Z) : Z :=
  if (48 <=? ch) && (ch <=? 57) then ch - 48
  else if (97 <=? ch) && (ch <=? 102) then ch - 97 + 10
  else if (65 <=? ch) && (ch <=? 70) then ch - 65 + 10
  else 0.
Definition encodeDWord (v : Z) : list Z := [0x0C] ++ LE 4 v.
Definition encodeEISA (name : list Z) : res acpi_err (list Z) :=
  match name with
  | [d0; d1; d2; d3; d4; d5; d6] =>
      let value := u32 (u8 (d0 - 0x40) .<< 26) .| u32 (u8 (d1 - 0x40) .<< 21) .| u32 (u8 (d2 - 0x40) .<< 16) .|
                   u32 (mustHex d3 .<< 12) .| u32 (mustHex d4 .<< 8) .| u32 (mustHex d5 .<< 4) .| mustHex d6 in
      let value := u32 ((value .& 0xFF) .<< 24) .| u32 ((value .& 0xFF00) .<< 8) .| ((value .& 0xFF0000) .>> 8) .| (value .>> 24) in
      Ok (encodeDWord value)
  | _ => Err BadEISA
  end.
Definition encodeString (v : list Z) : list Z := [0x0D] ++ v ++ [0].
Definition encodeByte (v : Z) : list Z := [0x0A; v].
Definition encodeWord (v : Z) : list Z := [0x0B] ++ LE 2 v.
Definition encodeInteger (v : Z) : list Z :=
  if v =? 0 then [0x00]
  else if v =? 1 then [0x01]
  else if v =? 0xFFFFFFFFFFFFFFFF then [0xFF]
  else if v <=? 0xFF then encodeByte (u8 v)
  else if v <=? 0xFFFF then encodeWord (u16 v)
  else if v <=? 0xFFFFFFFF then encodeDWord (u32 v)
  else [0x0E] ++ LE 8 v.

(** ** Resource descriptors *)
Definition resMemory32Fixed (readWrite : bool) (base length : Z) : list Z :=
  [0x86] ++ LE 2 9 ++ [if readWrite then 1 else 0] ++ LE 4 base ++ LE 4 length.
Definition resIO (min max alignment length : Z) : list Z := [0x47; 1] ++ LE 2 min ++ LE 2 max ++ [alignment; length].
Definition interrupt_flags (consumer edgeTriggered activeLow shared : bool) : Z :=
  let flags := 0 in
  let flags := if shared then flags .| (1 .<< 3) else flags in
  let flags := if activeLow then flags .| (1 .<< 2) else flags in
  let flags := if edgeTriggered then flags .| (1 .<< 1) else flags in
  if consumer then flags .| 1 else flags.
Definition resInterrupt (consumer edgeTriggered activeLow shared : bool) (number : Z) : list Z :=
  [0x89] ++ LE 2 6 ++ [interrupt_flags consumer edgeTriggered activeLow shared; 1] ++ LE 4 number.
Definition buildResourceTemplate (descriptors : list (list Z)) : list Z :=
  let payload := concat descriptors ++ [0x79; 0x00] in
  let tmp := encodeInteger (zlen payload) ++ payload in
  appendPkgLength [0x11] (zlen tmp) true ++ tmp.

(** ** Named objects *)
Definition appendDevice (dst path : list Z) (children : list (list Z)) : res acpi_err (list Z) :=
  pathBytes ← encodePath path;
  let payload := pathBytes ++ concat children in
  Ok (appendPkgLength (dst ++ [0x5B; 0x82]) (zlen payload) true ++ payload).
Definition appendScope (dst path : list Z) (children : list (list Z)) : res acpi_err (list Z) :=
  pathBytes ← encodePath path;
  let payload := pathBytes ++ concat children in
  Ok (appendPkgLength (dst ++ [0x10]) (zlen payload) true ++ payload).
Definition appendMethod (dst path : list Z) (args : Z) (serialized : bool) (children : list (list Z)) : res acpi_err (list Z) :=
  pathBytes ← encodePath path;
  let flags := if serialized then (args .& 7) .| (1 .<< 3) else args .& 7 in
  let payload := pathBytes ++ [flags] ++ concat children in
  Ok (appendPkgLength (dst ++ [0x14]) (zlen payload) true ++ payload).
Definition encodeReturn (value : list Z) : list Z := [0xA4] ++ value.

(** ** The description of the devices *)
Definition com1_device : res acpi_err (list Z) :=
  com1HID ← encodeEISA (sbytes "PNP0501");
  hid ← appendName [] (sbytes "_HID") com1HID;
  uid ← appendName [] (sbytes "_UID") (encodeByte 0);
  ddn ← appendName [] (sbytes "_DDN") (encodeString (sbytes "COM1"));
  crs ← appendName [] (sbytes "_CRS") (buildResourceTemplate [resInterrupt true true false false 4; resIO 0x3F8 0x3F8 0 8]);
  appendDevice [] (sbytes "COM1") [hid; uid; ddn; crs].
Definition ps2_device : res acpi_err (list Z) :=
  ps2HID ← encodeEISA (sbytes "PNP0303");
  hid ← appendName [] (sbytes "_HID") ps2HID;
  sta ← appendMethod [] (sbytes "_STA") 0 false [encodeReturn (encodeByte 0x0F)];
  crs ← appendName [] (sbytes "_CRS") (buildResourceTemplate [resIO 0x60 0x60 0 1; resIO 0x64 0x64 0 1; resInterrupt true true false false 1]);
  appendDevice [] (sbytes "PS2_") [hid; sta; crs].

(** [fmt.Sprintf("V%03d", i)] *)
Definition nameSeg (i : Z) : list Z :=
  let d := fmt_uint 10 i in sbytes "V" ++ replicate (3 - length d) 48 ++ d.
Definition virtio_device (i : Z) (dev : MMIODevice) : res acpi_err (list Z) :=
  hid ← appendName [] (sbytes "_HID") (encodeString (sbytes "LNRO0005"));
  uid ← appendName [] (sbytes "_UID") (encodeInteger i);
  cca ← appendName [] (sbytes "_CCA") [0x01];
  crs ← appendName [] (sbytes "_CRS")
          (buildResourceTemplate [resMemory32Fixed true (u32 (md_Addr dev)) (u32 (md_Len dev));
                                  resInterrupt true true false false (md_GSI dev)]);
  appendDevice [] (nameSeg i) [hid; uid; cca; crs].

Fixpoint virtio_devices (i : Z) (mmio : list MMIODevice) (children : list (list Z)) : res acpi_err (list (list Z)) :=
  match mmio with
  | [] => Ok children
  | dev :: mmio => amlDev ← virtio_device i dev; virtio_devices (i + 1) mmio (children ++ [amlDev])
  end.
Definition buildDSDT (mmio : list MMIODevice) : res acpi_err (list Z) :=
  com1 ← com1_device; ps2 ← ps2_device;
  children ← virtio_devices 0 mmio [com1; ps2];
  appendScope [] (sbytes "\_SB_") children.

(** ** The tables *)
Definition buildSDTHeader (signature : list Z) (length revision : Z) (tableID : list Z) : list Z :=
  signature ++ LE 4 length ++ [revision; 0] ++ acpi_oemID ++ tableID ++ LE 4 0 ++ creatorID ++ LE 4 creatorRevision.
(** A table is longer than [checksumOffset]. *)
Definition finalizeChecksum (table : list Z) (checksumOffset : nat) : list Z :=
  let table := <[checksumOffset := 0]> table in <[checksumOffset := mp_checksum table]> table.

Definition buildDSDTTable (body : list Z) : list Z :=
  finalizeChecksum (buildSDTHeader (sbytes "DSDT") (u32 (36 + zlen body)) 2 dsdtTableID ++ body) 9.
Definition fadt_flags : Z := (1 .<< 20) .| (1 .<< 4) .| (1 .<< 5).
Definition fadt_body (dsdtAddr : Z) : list Z :=
  replicate 4 0 ++ LE 4 dsdtAddr ++ replicate 65 0 ++ LE 2 (1 .<< 2) ++ [0] ++ LE 4 fadt_flags ++ replicate 15 0 ++ [5] ++
  replicate 8 0 ++ LE 8 dsdtAddr ++ replicate 120 0 ++ hypervisorID.
Definition buildFADT (dsdtAddr : Z) : res acpi_err (list Z) :=
  if 0xFFFFFFFF <? dsdtAddr then Err AddressTooHigh
  else Ok (finalizeChecksum (buildSDTHeader (sbytes "FACP") fadtLength 6 fadtTableID ++ fadt_body dsdtAddr) 9).
Definition lapic_entry (i : Z) : list Z := [0; 8; u8 i; u8 i] ++ LE 4 1.
Definition madt_body (vcpuCount : Z) : list Z :=
  LE 4 APICAddr ++ LE 4 0 ++ [1; 12; 0; 0] ++ LE 4 IOAPICAddr ++ LE 4 0 ++ concat (lapic_entry <$> upto vcpuCount).
Definition buildMADT (vcpuCount : Z) : list Z :=
  let body := madt_body vcpuCount in
  finalizeChecksum (buildSDTHeader (sbytes "APIC") (u32 (36 + zlen body)) 6 madtTableID ++ body) 9.
Definition buildRSDT (addrs : list Z) : res acpi_err (list Z) :=
  if existsb (fun addr => 0xFFFFFFFF <? addr) addrs then Err AddressTooHigh
  else
    let body := concat (LE 4 <$> addrs) in
    Ok (finalizeChecksum (buildSDTHeader (sbytes "RSDT") (u32 (36 + zlen body)) 1 rsdtTableID ++ body) 9).
Definition buildXSDT (addrs : list Z) : list Z :=
  let body := concat (LE 8 <$> addrs) in
  finalizeChecksum (buildSDTHeader (sbytes "XSDT") (u32 (36 + zlen body)) 1 xsdtTableID ++ body) 9.
Definition rsdp_bytes (cs ext rsdtAddr xsdtAddr : Z) : list Z :=
  sbytes "RSD PTR " ++ [cs] ++ acpi_oemID ++ [2] ++ LE 4 rsdtAddr ++ LE 4 36 ++ LE 8 xsdtAddr ++ [ext; 0; 0; 0].
Definition buildRSDP (rsdtAddr xsdtAddr : Z) : res acpi_err (list Z) :=
  if 0xFFFFFFFF <? rsdtAddr then Err AddressTooHigh
  else
    let cs := mp_checksum (take 20 (rsdp_bytes 0 0 rsdtAddr xsdtAddr)) in
    let ext := mp_checksum (rsdp_bytes cs 0 rsdtAddr xsdtAddr) in
    Ok (rsdp_bytes cs ext rsdtAddr xsdtAddr).

Definition alignUp (v align : Z) : Z := if align =? 0 then v else u64 (v + align - 1) .&^ (align - 1).

(** The memory and the cursor; the address where the table went. *)
Definition writeTable (table : list Z) (s : list Z * Z) : res acpi_err (Z * (list Z * Z)) :=
  let '(mem, cursor) := s in
  let cursor := alignUp cursor dsdtAlignment in
  let end_ := cursor + zlen table in
  if SystemEnd <? end_ then Err TableOverflow
  else mem ← must (splice mem cursor table); Ok (cursor, (mem, end_)).

Definition CreateX86Tables (mem : list Z) (vcpuCount : Z) (mmio : list MMIODevice) : res acpi_err (Z * list Z) :=
  if vcpuCount <=? 0 then Err BadVCPUs
  else if zlen mem <? RSDPAddr + 36 then Err MemoryTooSmall
  else
    dsdtBody ← buildDSDT mmio;
    '(dsdtAddr, s) ← writeTable (buildDSDTTable dsdtBody) (mem, SystemStart);
    fadt ← buildFADT dsdtAddr;
    '(fadtAddr, s) ← writeTable fadt s;
    '(madtAddr, s) ← writeTable (buildMADT vcpuCount) s;
    rsdt ← buildRSDT [fadtAddr; madtAddr];
    '(rsdtAddr, s) ← writeTable rsdt s;
    '(xsdtAddr, s) ← writeTable (buildXSDT [fadtAddr; madtAddr]) s;
    rsdp ← buildRSDP rsdtAddr xsdtAddr;
    mem ← must (splice s.1 RSDPAddr rsdp);
    Ok (RSDPAddr, mem).

(** ** Decoding byte code *)
Record apath := mkPath { ap_root : bool; ap_segs : list (list Z) }.
Inductive resource := RMem (readWrite : bool) (base len : Z) | RIO (min max align len : Z) | RIrq (flags number : Z).
Inductive adata := AInt (v : Z) | AStr (s : list Z) | ABuf (bs : list Z) | ARes (rs : list resource).
Inductive aml :=
  | AScope (p : apath) (cs : list aml)
  | ADevice (p : apath) (cs : list aml)
  | AMethod (p : apath) (flags : Z) (body : list Z)
  | AName (p : apath) (d : adata).

(** A package: what its length covers, and what follows. *)
Definition take_pkg (l : list Z) : option (list Z * list Z) :=
  match l with
  | [] => None
  | b0 :: _ =>
      let n := b0 / 64 in
      let len := if n =? 0 then b0 mod 64 else b0 mod 16 + 16 * le_decode (take (Z.to_nat n) (drop 1 l)) in
      if (len <? n + 1) || (zlen l <? len) then None
      else Some (take (Z.to_nat (len - (n + 1))) (drop (Z.to_nat (n + 1)) l), drop (Z.to_nat len) l)
  end.

Fixpoint take_segs (n : nat) (l : list Z) : option (list (list Z) * list Z) :=
  match n with
  | O => Some ([], l)
  | S n => if zlen l <? 4 then None else '(ss, r) ← take_segs n (drop 4 l); Some (take 4 l :: ss, r)
  end.
Definition take_path (l : list Z) : option (apath * list Z) :=
  let '(root, l) := match l with 92 :: l => (true, l) | _ => (false, l) end in
  match l with
  | 0x2E :: l => '(ss, r) ← take_segs 2 l; Some (mkPath root ss, r)
  | 0x2F :: n :: l => '(ss, r) ← take_segs (Z.to_nat n) l; Some (mkPath root ss, r)
  | _ => '(ss, r) ← take_segs 1 l; Some (mkPath root ss, r)
  end.

Definition take_le (n : nat) (l : list Z) : option (Z * list Z) :=
  if zlen l <? Z.of_nat n then None else Some (le_decode (take n l), drop n l).
Definition take_int (l : list Z) : option (Z * list Z) :=
  match l with
  | 0x00 :: l => Some (0, l)
  | 0x01 :: l => Some (1, l)
  | 0xFF :: l => Some (0xFFFFFFFFFFFFFFFF, l)
  | 0x0A :: l => take_le 1 l
  | 0x0B :: l => take_le 2 l
  | 0x0C :: l => take_le 4 l
  | 0x0E :: l => take_le 8 l
  | _ => None
  end.

Fixpoint parse_resources (fuel : nat) (l : list Z) : option (list resource) :=
  match fuel with
  | O => None
  | S fuel =>
      match l with
      | 0x79 :: [_] => Some []
      | 0x86 :: l =>
          '(n, l) ← take_le 2 l; '(rw, l) ← take_le 1 l; '(base, l) ← take_le 4 l; '(len, l) ← take_le 4 l;
          if n =? 9 then cons (RMem (rw =? 1) base len) <$> parse_resources fuel l else None
      | 0x47 :: l =>
          '(d, l) ← take_le 1 l; '(mi, l) ← take_le 2 l; '(ma, l) ← take_le 2 l; '(al, l) ← take_le 1 l; '(len, l) ← take_le 1 l;
          if d =? 1 then cons (RIO mi ma al len) <$> parse_resources fuel l else None
      | 0x89 :: l =>
          '(n, l) ← take_le 2 l; '(flags, l) ← take_le 1 l; '(count, l) ← take_le 1 l; '(number, l) ← take_le 4 l;
          if (n =? 6) && (count =? 1) then cons (RIrq flags number) <$> parse_resources fuel l else None
      | _ => None
      end
  end.

(** Buffers that hold a resource template are decoded. *)
Definition take_data (l : list Z) : option (adata * list Z) :=
  match l with
  | 0x0D :: l => s ← until_nul l; Some (AStr s, drop (S (length s)) l)
  | 0x11 :: l =>
      '(body, rest) ← take_pkg l; '(size, bs) ← take_int body;
      if negb (size =? zlen bs) then None
      else Some (match parse_resources (length bs) bs with Some rs => ARes rs | None => ABuf bs end, rest)
  | _ => '(v, rest) ← take_int l; Some (AInt v, rest)
  end.

Fixpoint parse_terms (fuel : nat) (l : list Z) : option (list aml) :=
  match fuel with
  | O => None
  | S fuel =>
      match l with
      | [] => Some []
      | 0x10 :: l =>
          '(body, rest) ← take_pkg l; '(p, body) ← take_path body; cs ← parse_terms fuel body;
          cons (AScope p cs) <$> parse_terms fuel rest
      | 0x5B :: 0x82 :: l =>
          '(body, rest) ← take_pkg l; '(p, body) ← take_path body; cs ← parse_terms fuel body;
          cons (ADevice p cs) <$> parse_terms fuel rest
      | 0x14 :: l =>
          '(body, rest) ← take_pkg l; '(p, body) ← take_path body;
          match body with [] => None | flags :: code => cons (AMethod p flags code) <$> parse_terms fuel rest end
      | 0x08 :: l => '(p, l) ← take_path l; '(d, rest) ← take_data l; cons (AName p d) <$> parse_terms fuel rest
      | _ => None
      end
  end.
Definition parse_aml (l : list Z) : option (list aml) := parse_terms (S (length l)) l.

(** ** Encoders and decoders agree *)
Lemma appendPkgLength_app dst n b : appendPkgLength dst n b = dst ++ appendPkgLength [] n b.
Proof. unfold appendPkgLength. cbv zeta. repeat case_match; done. Qed.

Lemma lor_nibble k x : k ∈ [1; 2; 3] → u8 ((k .<< 6) .| (x .& 0x0f)) = k * 64 + x mod 16.
Proof.
  intros Hk. change 0x0f with (Z.ones 4). rewrite Z.land_ones by done. change (2 ^ 4) with 16.
  pose proof (Z.mod_pos_bound x 16 ltac:(done)) as Hb. generalize (x mod 16), Hb. intros r Hr.
  assert (forallb (fun k => forallb (fun r => u8 ((k .<< 6) .| r) =? k * 64 + r) (upto 16)) [1; 2; 3] = true) as Hf by reflexivity.
  rewrite forallb_forall in Hf. specialize (Hf k (proj1 (list_elem_of_In _ _) Hk)). rewrite forallb_forall in Hf.
  apply Z.eqb_eq, Hf. apply list_elem_of_In. unfold upto. apply list_elem_of_fmap. exists (Z.to_nat r). split; [lia|]. apply elem_of_seq. lia.
Qed.
Lemma byte_at x k : 0 ≤ k → u8 ((x .>> k) .& 0xff) = x / 2 ^ k mod 256.
Proof.
  intros Hk. change 0xff with (Z.ones 8). rewrite Z.land_ones by done. unfold u8. rewrite Zmod_mod. by rewrite Z.shiftr_div_pow2.
Qed.

Lemma take_pkg_lead b0 pre n payload rest :
  0 ≤ n → length pre = Z.to_nat n → b0 / 64 = n →
  (if n =? 0 then b0 mod 64 else b0 mod 16 + 16 * le_decode pre) = zlen payload + n + 1 →
  take_pkg (b0 :: pre ++ payload ++ rest) = Some (payload, rest).
Proof.
  intros Hn Hp Hb Hl. unfold take_pkg. cbv zeta. rewrite Hb. cbn [drop]. rewrite drop_0, <- Hp, take_app_length, Hl.
  pose proof (zlen_nonneg payload). pose proof (zlen_nonneg rest).
  assert (zlen (b0 :: pre ++ payload ++ rest) = 1 + n + zlen payload + zlen rest) as ->.
  { rewrite zlen_cons, !zlen_app. unfold zlen at 1. rewrite Hp, Z2Nat.id by done. lia. }
  or_is false. replace (Z.to_nat (n + 1)) with (S (length pre)) by lia. cbn [drop].
  f_equal. f_equal.
  - rewrite drop_app_length. replace (Z.to_nat (zlen payload + n + 1 - (n + 1))) with (length payload) by (unfold zlen; lia). by rewrite take_app_length.
  - replace (Z.to_nat (zlen payload + n + 1)) with (S (length (pre ++ payload))) by (rewrite length_app; unfold zlen; lia).
    cbn [drop]. by rewrite app_assoc, drop_app_length.
Qed.

Lemma take_pkg_app payload rest :
  zlen payload < 2 ^ 28 - 4 → take_pkg (appendPkgLength [] (zlen payload) true ++ payload ++ rest) = Some (payload, rest).
Proof.
  intros Hl. pose proof (zlen_nonneg payload). unfold appendPkgLength. cbv zeta.
  change ((1 .<< 6) - 1) with 63. change ((1 .<< 12) - 2) with 4094. change ((1 .<< 20) - 3) with 1048573.
  destruct (Z.ltb_spec (zlen payload) 63); [|destruct (Z.ltb_spec (zlen payload) 4094); [|destruct (Z.ltb_spec (zlen payload) 1048573)]].
  - cbn [Z.eqb Pos.eqb app]. rewrite u8_small by lia. apply (take_pkg_lead _ [] 0); [done|done|mlia|cbn [Z.eqb]; mlia].
  - cbn [Z.eqb Pos.eqb app]. rewrite lor_nibble, !byte_at by (done || set_solver).
    apply (take_pkg_lead _ [_] 1); [done|done|mlia|cbn [Z.eqb le_decode]; change (2 ^ 4) with 16; mlia].
  - cbn [Z.eqb Pos.eqb app]. rewrite lor_nibble, !byte_at by (done || set_solver).
    apply (take_pkg_lead _ [_; _] 2); [done|done|mlia|cbn [Z.eqb le_decode]; change (2 ^ 4) with 16; change (2 ^ 12) with 4096; mlia].
  - cbn [Z.eqb Pos.eqb app]. rewrite lor_nibble, !byte_at by (done || set_solver). apply (take_pkg_lead _ [_; _; _] 3); [done|done|mlia|].
    cbn [Z.eqb le_decode]; change (2 ^ 4) with 16; change (2 ^ 12) with 4096; change (2 ^ 20) with 1048576. mlia.
Qed.

(** [bs] decodes to [v] whatever follows. *)
Definition decodes {A} (take : list Z → option (A * list Z)) (bs : list Z) (v : A) : Prop :=
  ∀ rest, take (bs ++ rest) = Some (v, rest).

Lemma take_le_app n v : 0 ≤ v < 256 ^ Z.of_nat n → decodes (take_le n) (LE n v) v.
Proof.
  intros Hv rest. unfold take_le. rewrite zlen_app, zlen_LE. pose proof (zlen_nonneg rest). lt_is false.
  assert (length (LE n v) = n) as Hn by apply le_encode_len.
  rewrite take_app_length', drop_app_length' by done. unfold LE. by rewrite le_decode_encode.
Qed.
Lemma take_le_byte b rest : take_le 1 (b :: rest) = Some (b, rest).
Proof.
  unfold take_le. rewrite zlen_cons. pose proof (zlen_nonneg rest). change (Z.of_nat 1) with 1. lt_is false.
  cbn [take drop le_decode]. rewrite take_0, drop_0. cbn [le_decode]. do 2 f_equal. lia.
Qed.

Lemma int_byte v : decodes take_int (encodeByte v) v.
Proof. intros rest. unfold encodeByte. cbn [app take_int]. apply take_le_byte. Qed.
Lemma int_dword v : fits 32 v → decodes take_int (encodeDWord v) v.
Proof. intros Hv rest. unfold encodeDWord. rewrite <- app_assoc. cbn [app take_int]. by apply take_le_app. Qed.
Lemma int_integer v : fits 64 v → decodes take_int (encodeInteger v) v.
Proof.
  unfold fits. intros Hv rest. unfold encodeInteger.
  destruct (Z.eqb_spec v 0) as [->|]; [done|]. destruct (Z.eqb_spec v 1) as [->|]; [done|].
  destruct (Z.eqb_spec v 0xFFFFFFFFFFFFFFFF) as [->|]; [done|].
  destruct (Z.leb_spec v 0xFF); [rewrite u8_small by lia; apply int_byte|].
  destruct (Z.leb_spec v 0xFFFF); [|destruct (Z.leb_spec v 0xFFFFFFFF)].
  - rewrite u16_small by lia. unfold encodeWord. rewrite <- app_assoc. cbn [app take_int]. apply take_le_app. lia.
  - rewrite u32_small by lia. apply int_dword. unfold fits. lia.
  - rewrite <- app_assoc. cbn [app take_int]. apply take_le_app. lia.
Qed.

(** Data objects that start with an integer prefix are integers. *)
Lemma data_int bs v : decodes take_int bs v → (∃ b tl, bs = b :: tl ∧ b ≠ 0x0D ∧ b ≠ 0x11) → decodes take_data bs (AInt v).
Proof.
  intros Hd (b & tl & -> & H1 & H2) rest. specialize (Hd rest). cbn [app] in *. unfold take_data.
  repeat case_match; simplify_eq; rewrite ?Hd in *; simplify_eq; done.
Qed.
Lemma data_str s : nul_free s → decodes take_data (encodeString s) (AStr s).
Proof.
  intros Hs rest. unfold encodeString. rewrite <- !app_assoc. cbn [app take_data]. rewrite until_nul_app by done.
  cbn [mbind option_bind]. f_equal. f_equal. change (s ++ 0 :: rest) with (s ++ [0] ++ rest). rewrite app_assoc.
  apply drop_app_length'. rewrite length_app. cbn. lia.
Qed.
Lemma encodeInteger_head v : ∃ b tl, encodeInteger v = b :: tl ∧ b ≠ 0x0D ∧ b ≠ 0x11.
Proof. unfold encodeInteger, encodeByte, encodeWord, encodeDWord. repeat case_match; eexists _, _; split; done. Qed.

(** Descriptors. *)
Definition res_decodes (bs : list Z) (r : resource) : Prop :=
  0 < zlen bs ∧ ∀ fuel rest, parse_resources (S fuel) (bs ++ rest) = cons r <$> parse_resources fuel rest.

Ltac le_step := rewrite <- ?app_assoc; rewrite take_le_app by (done || (unfold fits in *; lia)); cbn [mbind option_bind].
Lemma res_mem base len : fits 32 base → fits 32 len → res_decodes (resMemory32Fixed true base len) (RMem true base len).
Proof.
  intros Hb Hl. split; [done|]. intros fuel rest. unfold resMemory32Fixed. rewrite <- !app_assoc. cbn [app parse_resources].
  le_step. cbn [app]. rewrite take_le_byte. cbn [mbind option_bind]. le_step. le_step. done.
Qed.
Lemma res_io mi ma al len : fits 16 mi → fits 16 ma → res_decodes (resIO mi ma al len) (RIO mi ma al len).
Proof.
  intros Hb Hl. split; [done|]. intros fuel rest. unfold resIO. rewrite <- !app_assoc. cbn [app parse_resources].
  rewrite take_le_byte. cbn [mbind option_bind]. le_step. le_step. cbn [app]. rewrite !take_le_byte. cbn [mbind option_bind].
  rewrite take_le_byte. done.
Qed.
Lemma res_irq c e a s n : fits 32 n → res_decodes (resInterrupt c e a s n) (RIrq (interrupt_flags c e a s) n).
Proof.
  intros Hb. split; [done|]. intros fuel rest. unfold resInterrupt. rewrite <- !app_assoc. cbn [app parse_resources].
  le_step. cbn [app]. rewrite take_le_byte. cbn [mbind option_bind]. rewrite take_le_byte. cbn [mbind option_bind]. le_step. done.
Qed.

Lemma parse_template ds rs fuel :
  Forall2 res_decodes ds rs → zlen (concat ds) < Z.of_nat fuel → parse_resources fuel (concat ds ++ [0x79; 0x00]) = Some rs.
Proof.
  intros Hd. revert fuel. induction Hd as [|d r ds rs [Hpos Hr] _ IH]; intros fuel Hf; cbn [concat] in *.
  - destruct fuel; [|done]. unfold zlen in Hf. cbn in Hf. lia.
  - rewrite zlen_app in Hf. pose proof (zlen_nonneg (concat ds)). destruct fuel as [|fuel]; [lia|].
    rewrite <- app_assoc, Hr, IH by lia. done.
Qed.
Lemma data_template ds rs :
  Forall2 res_decodes ds rs → zlen (concat ds) < 2 ^ 20 → decodes take_data (buildResourceTemplate ds) (ARes rs).
Proof.
  intros Hd Hl rest. unfold buildResourceTemplate. cbv zeta. set (payload := concat ds ++ [0x79; 0x00]).
  set (tmp := encodeInteger (zlen payload) ++ payload). rewrite appendPkgLength_app, <- !app_assoc. cbn [app take_data].
  assert (zlen payload = zlen (concat ds) + 2) as Hp by (unfold payload; by rewrite zlen_app).
  pose proof (zlen_nonneg (concat ds)).
  assert (0 ≤ zlen (encodeInteger (zlen payload)) ≤ 9) as He.
  { unfold encodeInteger, encodeByte, encodeWord, encodeDWord. repeat case_match; vm_compute; split; discriminate. }
  rewrite take_pkg_app by (unfold tmp; rewrite zlen_app; lia). cbn [mbind option_bind]. unfold tmp.
  rewrite int_integer by (unfold fits; lia). cbn [mbind option_bind]. rewrite Z.eqb_refl. cbn [negb]. cbv iota.
  unfold payload. rewrite (parse_template ds rs); [done|done|]. rewrite length_app. unfold zlen. cbn. lia.
Qed.

(** Paths of one segment. *)
Definition seg_ok (s : list Z) : Prop :=
  zlen s = 4 ∧ ∃ b tl, s = b :: tl ∧ b ≠ 92 ∧ b ≠ 0x2E ∧ b ≠ 0x2F ∧ Forall (fun c => c ≠ 46) s.
Lemma split_no_dots s cur : Forall (fun c => c ≠ 46) s → split_dots s cur = [cur ++ s].
Proof.
  intros Hs. revert cur. induction Hs as [|c s Hc _ IH]; intros cur; cbn; [by rewrite app_nil_r|].
  rewrite (proj2 (Z.eqb_neq c 46) Hc), IH. by rewrite <- app_assoc.
Qed.
Lemma take_segs_one s rest : zlen s = 4 → take_segs 1 (s ++ rest) = Some ([s], rest).
Proof.
  intros Hl. cbn [take_segs]. rewrite zlen_app. pose proof (zlen_nonneg rest). lt_is false. cbn [mbind option_bind].
  assert (4%nat = length s) as -> by (unfold zlen in Hl; lia). by rewrite take_app_length, drop_app_length.
Qed.
Lemma encodePath_seg s : seg_ok s → encodePath s = Ok s ∧ decodes take_path s (mkPath false [s]).
Proof.
  intros (Hl & b & tl & -> & H1 & H2 & H3 & Hd). split.
  - unfold encodePath. assert (match b :: tl with 92 :: _ => true | _ => false end = false) as -> by (repeat case_match; simplify_eq; done).
    eq_is false. rewrite split_no_dots by done. cbn [app forallb]. rewrite Hl. cbn. by rewrite app_nil_r.
  - intros rest. pose proof (take_segs_one (b :: tl) rest Hl) as Hs. cbn [app] in *. unfold take_path.
    assert (match b :: tl ++ rest with 92 :: l => (true, l) | _ => (false, b :: tl ++ rest) end = (false, b :: tl ++ rest)) as ->
      by (repeat case_match; simplify_eq; done).
    repeat case_match; simplify_eq; rewrite ?Hs in *; simplify_eq; done.
Qed.

(** Terms: the decoder reads [bs] as [t] and goes on. *)
Definition term_decodes (bs : list Z) (t : aml) : Prop :=
  0 < zlen bs ∧ ∀ fuel rest, (length bs ≤ fuel)%nat → parse_terms (S fuel) (bs ++ rest) = cons t <$> parse_terms fuel rest.

Lemma parse_terms_concat bss ts fuel :
  Forall2 term_decodes bss ts → (length (concat bss) < fuel)%nat → parse_terms fuel (concat bss) = Some ts.
Proof.
  intros Hd. revert fuel. induction Hd as [|b t bss ts [Hpos Ht] _ IH]; intros fuel Hf; cbn [concat] in *.
  - by destruct fuel; [cbn in Hf; lia|].
  - rewrite length_app in Hf. unfold zlen in Hpos. destruct fuel as [|fuel]; [lia|]. rewrite Ht by lia. by rewrite IH by lia.
Qed.

Lemma name_decodes s v d :
  seg_ok s → decodes take_data v d → ∃ bs, appendName [] s v = Ok bs ∧ bs = [0x08] ++ s ++ v ∧ term_decodes bs (AName (mkPath false [s]) d).
Proof.
  intros Hs Hd. destruct (encodePath_seg s Hs) as [He Hp]. exists ([0x08] ++ s ++ v). unfold appendName. rewrite He. split; [done|]. split; [done|].
  split; [done|]. intros fuel rest _. rewrite <- !app_assoc. cbn [app parse_terms]. rewrite Hp. cbn [mbind option_bind]. by rewrite Hd.
Qed.


Lemma device_decodes s bss ts :
  seg_ok s → Forall2 term_decodes bss ts → zlen (s ++ concat bss) < 2 ^ 28 - 4 →
  ∃ bs, appendDevice [] s bss = Ok bs ∧ bs = [0x5B; 0x82] ++ appendPkgLength [] (zlen (s ++ concat bss)) true ++ s ++ concat bss ∧
    term_decodes bs (ADevice (mkPath false [s]) ts).
Proof.
  intros Hs Hts Hl. destruct (encodePath_seg s Hs) as [He Hp]. eexists. split; [|split; [reflexivity|]].
  - unfold appendDevice. rewrite He. cbn [mbind res_bind]. rewrite appendPkgLength_app, <- app_assoc. done.
  - split; [done|]. intros fuel rest Hf. rewrite !length_app in Hf. cbn [length] in Hf. rewrite <- (app_assoc [0x5B; 0x82]), <- (app_assoc (appendPkgLength _ _ _)).
    cbn [app parse_terms]. rewrite take_pkg_app by done. cbn [mbind option_bind]. rewrite Hp. cbn [mbind option_bind].
    rewrite (parse_terms_concat bss ts) by (done || lia). done.
Qed.

(** ** The device descriptions *)
Definition seg (s : list Z) : apath := mkPath false [s].
Definition eisa (name : list Z) : Z := default 0 (fst <$> take_int (value_or [] (encodeEISA name))).
Definition com1_node : aml :=
  ADevice (seg (sbytes "COM1"))
    [AName (seg (sbytes "_HID")) (AInt (eisa (sbytes "PNP0501"))); AName (seg (sbytes "_UID")) (AInt 0);
     AName (seg (sbytes "_DDN")) (AStr (sbytes "COM1")); AName (seg (sbytes "_CRS")) (ARes [RIrq 3 4; RIO 0x3F8 0x3F8 0 8])].
Definition ps2_node : aml :=
  ADevice (seg (sbytes "PS2_"))
    [AName (seg (sbytes "_HID")) (AInt (eisa (sbytes "PNP0303"))); AMethod (seg (sbytes "_STA")) 0 [0xA4; 0x0A; 0x0F];
     AName (seg (sbytes "_CRS")) (ARes [RIO 0x60 0x60 0 1; RIO 0x64 0x64 0 1; RIrq 3 1])].
Definition virtio_node (i : Z) (dev : MMIODevice) : aml :=
  ADevice (seg (nameSeg i))
    [AName (seg (sbytes "_HID")) (AStr (sbytes "LNRO0005")); AName (seg (sbytes "_UID")) (AInt i); AName (seg (sbytes "_CCA")) (AInt 1);
     AName (seg (sbytes "_CRS")) (ARes [RMem true (u32 (md_Addr dev)) (u32 (md_Len dev)); RIrq 3 (md_GSI dev)])].
Definition dsdt_tree (mmio : list MMIODevice) : list aml :=
  [AScope (mkPath true [sbytes "_SB_"]) ([com1_node; ps2_node] ++ imap (fun i => virtio_node (Z.of_nat i)) mmio)].

(** Three digits up to 999. *)
Lemma nameSeg_ok i : 0 ≤ i < 1000 → seg_ok (nameSeg i).
Proof.
  intros Hi. assert (forallb (fun i => (zlen (nameSeg i) =? 4) && forallb (fun c => negb (c =? 46)) (nameSeg i)) (upto 1000) = true) as Hf by (vm_compute; reflexivity).
  rewrite forallb_forall in Hf. specialize (Hf i).
  assert (In i (upto 1000)) as Hin. { apply list_elem_of_In. unfold upto. apply list_elem_of_fmap. exists (Z.to_nat i). split; [lia|]. apply elem_of_seq. lia. }
  specialize (Hf Hin). apply andb_true_iff in Hf as [H1 H2]. split; [lia|]. eexists _, _. split; [reflexivity|]. splits; try done.
  rewrite forallb_forall in H2. apply Forall_forall. intros c Hc%list_elem_of_In. apply H2 in Hc. destruct (Z.eqb_spec c 46); done.
Qed.
Lemma zlen_snoc {A} (l : list A) x : zlen (l ++ [x]) = zlen l + 1.
Proof. by rewrite zlen_app. Qed.
Lemma nameSeg_long i : 1000 ≤ i < 2 ^ 63 → zlen (nameSeg i) ≠ 4.
Proof.
  intros Hi. unfold nameSeg, fmt_uint. cbv zeta. set (d := fmt_digits 64 10 i).
  assert (4 ≤ zlen d) as Hd.
  { assert (∀ n k, (0 < n)%nat → 1 ≤ zlen (fmt_digits n 10 k)) as Hpos.
    { intros [|n] k Hn; [lia|]. cbn [fmt_digits]. case_match; rewrite ?zlen_snoc; [done|].
      pose proof (zlen_nonneg (fmt_digits n 10 (k / 10))). lia. }
    assert (∀ n k, 10 ≤ k → zlen (fmt_digits (S n) 10 k) = zlen (fmt_digits n 10 (k / 10)) + 1) as Hstep.
    { intros n k Hk. cbn [fmt_digits]. lt_is false. by rewrite zlen_snoc. }
    unfold d. rewrite !Hstep by mlia. pose proof (Hpos 61%nat (i / 10 / 10 / 10) ltac:(lia)). lia. }
  rewrite !zlen_app. change (zlen (sbytes "V")) with 1. pose proof (zlen_nonneg (replicate (3 - length d) 48)). lia.
Qed.

Lemma method_decodes s flags code :
  seg_ok s → zlen (s ++ [flags] ++ code) < 2 ^ 28 - 4 →
  term_decodes ([0x14] ++ appendPkgLength [] (zlen (s ++ [flags] ++ code)) true ++ s ++ [flags] ++ code) (AMethod (seg s) flags code).
Proof.
  intros Hs Hl. destruct (encodePath_seg s Hs) as [_ Hp]. split; [done|]. intros fuel rest _.
  rewrite <- (app_assoc [0x14]), <- (app_assoc (appendPkgLength _ _ _)). cbn [app parse_terms]. rewrite take_pkg_app by done.
  cbn [mbind option_bind]. rewrite Hp. done.
Qed.

Ltac seg_const :=
  split; [done|]; eexists _, _; split; [reflexivity|]; splits; try done; apply (bool_decide_unpack _); vm_compute; exact I.
Ltac name_step v d :=
  match goal with |- context [appendName [] ?s v] =>
    let Hs := fresh in assert (seg_ok s) as Hs by seg_const;
    let Hd := fresh in assert (decodes take_data v d) as Hd;
    [|let H := fresh "Hn" in destruct (name_decodes s v d Hs Hd) as (? & H & ? & ?); rewrite H; cbn [mbind res_bind]; clear H]
  end.

Lemma data_integer v : fits 64 v → decodes take_data (encodeInteger v) (AInt v).
Proof. intros Hv. apply data_int; [by apply int_integer|apply encodeInteger_head]. Qed.
Lemma data_byte v : decodes take_data (encodeByte v) (AInt v).
Proof. apply data_int; [apply int_byte|by eexists _, _]. Qed.
Lemma data_dword v : fits 32 v → decodes take_data (encodeDWord v) (AInt v).
Proof. intros. apply data_int; [by apply int_dword|by eexists _, _]. Qed.

Lemma zlen_pkg n b : zlen (appendPkgLength [] n b) ≤ 4.
Proof. unfold appendPkgLength. cbv zeta. repeat case_match; vm_compute; discriminate. Qed.
Lemma zlen_encodeInteger v : zlen (encodeInteger v) ≤ 9.
Proof. unfold encodeInteger, encodeByte, encodeWord, encodeDWord. repeat case_match; vm_compute; discriminate. Qed.
Lemma zlen_template ds : zlen (buildResourceTemplate ds) ≤ zlen (concat ds) + 16.
Proof.
  unfold buildResourceTemplate. cbv zeta. rewrite appendPkgLength_app, !zlen_app. set (n := zlen (encodeInteger _) + _).
  pose proof (zlen_pkg n true). pose proof (zlen_encodeInteger (zlen (concat ds) + zlen [0x79; 0x00])).
  change (zlen [0x79; 0x00]) with 2 in *. change (zlen [0x11]) with 1. lia.
Qed.

Definition GSI_ok (dev : MMIODevice) : Prop := fits 32 (md_GSI dev).
Lemma virtio_device_decodes i dev :
  0 ≤ i < 1000 → GSI_ok dev →
  ∃ bs, virtio_device i dev = Ok bs ∧ term_decodes bs (virtio_node i dev) ∧ zlen bs ≤ 128.
Proof.
  intros Hi Hg. unfold virtio_device.
  name_step (encodeString (sbytes "LNRO0005")) (AStr (sbytes "LNRO0005")); [apply data_str; const_name|].
  name_step (encodeInteger i) (AInt i); [apply data_integer; unfold fits; lia|].
  name_step [0x01] (AInt 1); [by apply (data_integer 1)|].
  set (ds := [resMemory32Fixed true (u32 (md_Addr dev)) (u32 (md_Len dev)); resInterrupt true true false false (md_GSI dev)]).
  name_step (buildResourceTemplate ds) (ARes [RMem true (u32 (md_Addr dev)) (u32 (md_Len dev)); RIrq 3 (md_GSI dev)]).
  { apply data_template; [|done]. constructor; [apply res_mem; apply u32_range|]. constructor; [by apply res_irq|constructor]. }
  match goal with |- context [appendDevice [] _ ?l] => set (bss := l) end.
  assert (zlen (concat bss) ≤ 116) as Hb.
  { unfold bss. cbn [concat]. subst. rewrite !zlen_app. pose proof (zlen_encodeInteger i). pose proof (zlen_template ds) as Ht.
    change (zlen (concat ds)) with 21 in Ht. repeat match goal with |- context [zlen (sbytes ?s)] => let n := eval vm_compute in (zlen (sbytes s)) in change (zlen (sbytes s)) with n end.
    change (zlen (encodeString (sbytes "LNRO0005"))) with 10. change (zlen [0x08]) with 1. change (zlen [0x01]) with 1. change (zlen (A:=Z) []) with 0. lia. }
  destruct (device_decodes (nameSeg i) bss [AName (seg (sbytes "_HID")) (AStr (sbytes "LNRO0005")); AName (seg (sbytes "_UID")) (AInt i);
    AName (seg (sbytes "_CCA")) (AInt 1); AName (seg (sbytes "_CRS")) (ARes [RMem true (u32 (md_Addr dev)) (u32 (md_Len dev)); RIrq 3 (md_GSI dev)])])
    as (bs & He & -> & Hd); [by apply nameSeg_ok|unfold bss; repeat (constructor; [eassumption|]); constructor| |].
  { destruct (nameSeg_ok i Hi) as [Hseg4 _]. rewrite zlen_app. lia. }
  rewrite He. eexists. split; [done|]. split; [exact Hd|]. destruct (nameSeg_ok i Hi) as [Hseg4 _]. rewrite !zlen_app, Hseg4.
  pose proof (zlen_pkg (4 + zlen (concat bss)) true). change (zlen [0x5B; 0x82]) with 2. lia.
Qed.

Lemma com1_decodes : ∃ bs, com1_device = Ok bs ∧ term_decodes bs com1_node ∧ zlen bs ≤ 128.
Proof.
  unfold com1_device. change (encodeEISA (sbytes "PNP0501")) with (Ok (E:=acpi_err) (encodeDWord (eisa (sbytes "PNP0501")))). cbn [mbind res_bind].
  name_step (encodeDWord (eisa (sbytes "PNP0501"))) (AInt (eisa (sbytes "PNP0501"))); [apply data_dword; vm_compute; split; [discriminate|done]|].
  name_step (encodeByte 0) (AInt 0); [apply data_byte|].
  name_step (encodeString (sbytes "COM1")) (AStr (sbytes "COM1")); [apply data_str; const_name|].
  set (ds := [resInterrupt true true false false 4; resIO 0x3F8 0x3F8 0 8]).
  name_step (buildResourceTemplate ds) (ARes [RIrq 3 4; RIO 0x3F8 0x3F8 0 8]).
  { apply data_template; [|done]. constructor; [by apply res_irq|]. constructor; [by apply res_io|constructor]. }
  match goal with |- context [appendDevice [] _ ?l] => set (bss := l) end.
  destruct (device_decodes (sbytes "COM1") bss [AName (seg (sbytes "_HID")) (AInt (eisa (sbytes "PNP0501"))); AName (seg (sbytes "_UID")) (AInt 0);
     AName (seg (sbytes "_DDN")) (AStr (sbytes "COM1")); AName (seg (sbytes "_CRS")) (ARes [RIrq 3 4; RIO 0x3F8 0x3F8 0 8])])
    as (bs & He & -> & Hd); [seg_const|unfold bss; repeat (constructor; [eassumption|]); constructor|subst bss; subst; done|].
  rewrite He. eexists. split; [done|]. split; [exact Hd|]. subst bss; subst. vm_compute. discriminate.
Qed.
Lemma ps2_decodes : ∃ bs, ps2_device = Ok bs ∧ term_decodes bs ps2_node ∧ zlen bs ≤ 128.
Proof.
  unfold ps2_device. change (encodeEISA (sbytes "PNP0303")) with (Ok (E:=acpi_err) (encodeDWord (eisa (sbytes "PNP0303")))). cbn [mbind res_bind].
  name_step (encodeDWord (eisa (sbytes "PNP0303"))) (AInt (eisa (sbytes "PNP0303"))); [apply data_dword; vm_compute; split; [discriminate|done]|].
  pose proof (method_decodes (sbytes "_STA") 0 [0xA4; 0x0A; 0x0F] ltac:(seg_const) ltac:(done)) as Hsta.
  set (sta := [0x14] ++ _) in Hsta.
  change (appendMethod [] (sbytes "_STA") 0 false [encodeReturn (encodeByte 0x0F)]) with (Ok (E:=acpi_err) sta). cbn [mbind res_bind].
  set (ds := [resIO 0x60 0x60 0 1; resIO 0x64 0x64 0 1; resInterrupt true true false false 1]).
  name_step (buildResourceTemplate ds) (ARes [RIO 0x60 0x60 0 1; RIO 0x64 0x64 0 1; RIrq 3 1]).
  { apply data_template; [|done]. do 2 (constructor; [by apply res_io|]). constructor; [by apply res_irq|constructor]. }
  match goal with |- context [appendDevice [] _ ?l] => set (bss := l) end.
  destruct (device_decodes (sbytes "PS2_") bss [AName (seg (sbytes "_HID")) (AInt (eisa (sbytes "PNP0303"))); AMethod (seg (sbytes "_STA")) 0 [0xA4; 0x0A; 0x0F];
     AName (seg (sbytes "_CRS")) (ARes [RIO 0x60 0x60 0 1; RIO 0x64 0x64 0 1; RIrq 3 1])])
    as (bs & He & -> & Hd); [seg_const|unfold bss; repeat (constructor; [eassumption|]); constructor|subst bss sta; subst; done|].
  rewrite He. eexists. split; [done|]. split; [exact Hd|]. subst bss sta; subst. vm_compute. discriminate.
Qed.

Lemma virtio_devices_decode mmio : ∀ i children ts,
  0 ≤ i → i + zlen mmio ≤ 1000 → Forall GSI_ok mmio → Forall2 term_decodes children ts → zlen (concat children) ≤ 128 * (zlen children) →
  ∃ bss, virtio_devices i mmio children = Ok bss ∧ Forall2 term_decodes bss (ts ++ imap (fun k => virtio_node (i + Z.of_nat k)) mmio) ∧
    zlen (concat bss) ≤ 128 * (zlen children + zlen mmio).
Proof.
  induction mmio as [|dev mmio IH]; intros i children ts Hi Hn Hg Hc Hl; cbn [virtio_devices].
  - exists children. cbn. rewrite app_nil_r. split; [done|]. split; [done|]. change (zlen (A:=MMIODevice) []) with 0. lia.
  - rewrite zlen_cons in *. inversion Hg as [|? ? Hd Hm]; subst. pose proof (zlen_nonneg mmio).
    destruct (virtio_device_decodes i dev) as (bs & He & Ht & Hb); [lia|done|]. rewrite He. cbn [mbind res_bind].
    destruct (IH (i + 1) (children ++ [bs]) (ts ++ [virtio_node i dev])) as (bss & Hv & Hf & Hz); [lia|lia|done| | |].
    + apply Forall2_app; [done|]. constructor; [exact Ht|constructor].
    + rewrite concat_app, zlen_app, zlen_snoc. cbn [concat]. rewrite app_nil_r. lia.
    + exists bss. split; [exact Hv|]. rewrite zlen_snoc in Hz. split; [|lia]. rewrite <- app_assoc in Hf. cbn [app] in Hf. cbn [imap].
      rewrite Z.add_0_r. erewrite imap_ext; [exact Hf|]. intros k d _. cbn. f_equal. lia.
Qed.

Lemma scope_path : encodePath (sbytes "\_SB_") = Ok (sbytes "\_SB_") ∧ decodes take_path (sbytes "\_SB_") (mkPath true [sbytes "_SB_"]).
Proof.
  split; [reflexivity|]. intros rest. change (sbytes "\_SB_") with [92; 95; 83; 66; 95]. change (sbytes "_SB_") with [95; 83; 66; 95].
  pose proof (take_segs_one [95; 83; 66; 95] rest eq_refl) as Hs. cbn [app] in *. unfold take_path. by rewrite Hs.
Qed.

Lemma buildDSDT_decodes mmio :
  zlen mmio ≤ 1000 → Forall GSI_ok mmio →
  ∃ body, buildDSDT mmio = Ok body ∧ parse_aml body = Some (dsdt_tree mmio) ∧ zlen body ≤ 128 * (zlen mmio + 2) + 16.
Proof.
  intros Hn Hg. destruct com1_decodes as (b1 & E1 & D1 & L1), ps2_decodes as (b2 & E2 & D2 & L2). pose proof (zlen_nonneg mmio).
  destruct (virtio_devices_decode mmio 0 [b1; b2] [com1_node; ps2_node]) as (bss & Ev & Df & Lz); [done|lia|done| | |].
  { by constructor; [|constructor; [|constructor]]. }
  { cbn [concat]. rewrite !zlen_app. change (zlen [b1; b2]) with 2. change (zlen (A:=Z) []) with 0. lia. }
  change (zlen [b1; b2]) with 2 in Lz. destruct scope_path as [Es Ds]. unfold buildDSDT. rewrite E1, E2. cbn [mbind res_bind]. rewrite Ev. cbn [mbind res_bind].
  unfold appendScope. rewrite Es. cbn [mbind res_bind]. rewrite appendPkgLength_app, app_nil_l. eexists. split; [reflexivity|].
  set (payload := sbytes "\_SB_" ++ concat bss). assert (zlen payload = 5 + zlen (concat bss)) as Hp by (unfold payload; by rewrite zlen_app).
  pose proof (zlen_pkg (zlen payload) true). split.
  - unfold parse_aml. set (fuel := length _). assert (length payload < fuel)%nat as Hfuel by (unfold fuel; rewrite !length_app; cbn; lia).
    clearbody fuel.
    assert (([0x10] ++ appendPkgLength [] (zlen payload) true) ++ payload = 0x10 :: appendPkgLength [] (zlen payload) true ++ payload ++ []) as -> by (by rewrite app_nil_r).
    cbn [parse_terms]. rewrite take_pkg_app by lia. cbn [mbind option_bind].
    unfold payload. rewrite Ds. cbn [mbind option_bind]. rewrite (parse_terms_concat bss ([com1_node; ps2_node] ++ imap (fun k => virtio_node (0 + Z.of_nat k)) mmio)).
    + cbn [mbind option_bind]. destruct fuel; [lia|]. done.
    + done.
    + unfold payload in Hfuel. rewrite length_app in Hfuel. lia.
  - rewrite !zlen_app. change (zlen [0x10]) with 1. lia.
Qed.

(** ** Walking the tables *)
Definition read_table (mem : list Z) (addr : Z) (sig : list Z) : option (list Z) :=
  len ← getLE 4 mem (addr + 4); t ← slice mem addr (addr + len);
  if bool_decide (take 4 t = sig) && (36 <=? len) && (byte_sum t =? 0) then Some (drop 36 t) else None.

(** The interrupt controller structures: type and contents. *)
Fixpoint madt_entries (fuel : nat) (l : list Z) : option (list (Z * list Z)) :=
  match fuel with
  | O => None
  | S fuel =>
      match l with
      | [] => Some []
      | typ :: len :: _ =>
          if (len <? 2) || (zlen l <? len) then None
          else cons (typ, drop 2 (take (Z.to_nat len) l)) <$> madt_entries fuel (drop (Z.to_nat len) l)
      | _ => None
      end
  end.

Record acpi_view := mkView { av_controllers : list (Z * list Z); av_dsdt : list Z }.
Definition acpi_walk (mem : list Z) (rsdp : Z) : option acpi_view :=
  r ← slice mem rsdp (rsdp + 36);
  if negb (bool_decide (take 8 r = sbytes "RSD PTR ") && (byte_sum (take 20 r) =? 0) && (byte_sum r =? 0)) then None
  else
    rsdt ← getLE 4 r 16; xsdt ← getLE 8 r 24;
    x ← read_table mem xsdt (sbytes "XSDT"); rs ← read_table mem rsdt (sbytes "RSDT");
    f ← getLE 8 x 0; m ← getLE 8 x 8; f' ← getLE 4 rs 0; m' ← getLE 4 rs 4;
    fadt ← read_table mem f (sbytes "FACP"); madt ← read_table mem m (sbytes "APIC");
    d32 ← getLE 4 fadt 4; d64 ← getLE 8 fadt 104;
    if negb ((f =? f') && (m =? m') && (d32 =? d64)) then None
    else
      dsdt ← read_table mem d64 (sbytes "DSDT"); es ← madt_entries (length madt) (drop 8 madt);
      Some (mkView es dsdt).

Definition holds (mem : list Z) (a : Z) (t : list Z) : Prop := slice mem a (a + zlen t) = Some t.

Lemma holds_split mem a t : holds mem a t → ∃ pre post, mem = pre ++ t ++ post ∧ zlen pre = a.
Proof.
  unfold holds. intros [Hr Ht]%slice_Some. exists (take (Z.to_nat a) mem), (drop (Z.to_nat (a + zlen t)) mem). split.
  - rewrite <- (take_drop (Z.to_nat a) mem) at 1. f_equal. rewrite <- (take_drop (length t) (drop (Z.to_nat a) mem)). f_equal.
    + rewrite Ht at 2. f_equal. unfold zlen. lia.
    + rewrite drop_drop. f_equal. unfold zlen. lia.
  - unfold zlen in *. rewrite length_take. lia.
Qed.
Lemma slice_app_l {A} (a b : list A) lo hi : 0 ≤ lo → hi ≤ zlen a → slice (a ++ b) lo hi = slice a lo hi.
Proof.
  intros Hlo Hhi. unfold slice. rewrite zlen_app. pose proof (zlen_nonneg b).
  replace (hi <=? zlen a + zlen b) with true by lia. replace (hi <=? zlen a) with true by lia. rewrite andb_true_r.
  destruct ((0 <=? lo) && (lo <=? hi)) eqn:E; [|done]. b2p. f_equal. unfold zlen in *. rewrite drop_app_le by lia.
  apply take_app_le. rewrite length_drop. lia.
Qed.
Lemma slice_holds mem a t lo hi : holds mem a t → 0 ≤ lo → hi ≤ zlen t → slice mem (a + lo) (a + hi) = slice t lo hi.
Proof. intros (pre & post & -> & <-)%holds_split Hlo Hhi. rewrite slice_app_r by done. by apply slice_app_l. Qed.
Lemma getLE_holds mem a t n o : holds mem a t → 0 ≤ o → o + Z.of_nat n ≤ zlen t → getLE n mem (a + o) = getLE n t o.
Proof. intros Hh Ho Hl. unfold getLE. rewrite <- Z.add_assoc. by rewrite (slice_holds mem a t). Qed.

(** A finished table. *)
Definition table_with (sig : list Z) (len rev : Z) (id body : list Z) (cs : Z) : list Z :=
  sig ++ LE 4 len ++ [rev; cs] ++ acpi_oemID ++ id ++ LE 4 0 ++ creatorID ++ LE 4 creatorRevision ++ body.
Definition table (sig : list Z) (len rev : Z) (id body : list Z) : list Z :=
  table_with sig len rev id body (mp_checksum (table_with sig len rev id body 0)).

Lemma finalize_table sig len rev id body :
  zlen sig = 4 → finalizeChecksum (buildSDTHeader sig len rev id ++ body) 9 = table sig len rev id body.
Proof.
  intros Hs. unfold finalizeChecksum, table, buildSDTHeader. rewrite <- !app_assoc. fold (table_with sig len rev id body 0).
  assert (∀ c d, <[9%nat := d]> (table_with sig len rev id body c) = table_with sig len rev id body d) as Hi.
  { intros c d. unfold table_with. replace 9%nat with (length sig + (4 + 1))%nat by (unfold zlen in Hs; lia). by rewrite insert_app_r. }
  cbv zeta. by rewrite !Hi.
Qed.

Lemma zlen_table_with sig len rev id body cs : zlen sig = 4 → zlen id = 8 → zlen (table_with sig len rev id body cs) = 36 + zlen body.
Proof.
  intros Hs Hi. unfold table_with. rewrite !zlen_app, !zlen_LE, Hs, Hi. change (zlen acpi_oemID) with 6. change (zlen creatorID) with 4.
  change (zlen [rev; cs]) with 2. lia.
Qed.
Lemma table_sum sig len rev id body : byte_sum (table sig len rev id body) = 0.
Proof.
  pose proof (checksum_zero (sig ++ LE 4 len ++ [rev]) (acpi_oemID ++ id ++ LE 4 0 ++ creatorID ++ LE 4 creatorRevision ++ body)) as H.
  unfold table, table_with. rewrite <- !app_assoc in H. exact H.
Qed.

Lemma read_table_holds mem a sig len rev id body :
  holds mem a (table sig len rev id body) → zlen sig = 4 → zlen id = 8 → len = 36 + zlen body → len < 2 ^ 32 →
  read_table mem a sig = Some body.
Proof.
  intros Hh Hs Hi Hlen Hb. pose proof (zlen_nonneg body). assert (zlen (table sig len rev id body) = len) as Hz by (unfold table; rewrite zlen_table_with; done).
  unfold read_table. rewrite (getLE_holds _ _ _ _ _ Hh) by lia.
  assert (getLE 4 (table sig len rev id body) 4 = Some len) as -> by (unfold table, table_with; apply getLE_middle; [done|change (256 ^ Z.of_nat 4) with (2 ^ 32); lia]).
  cbn [mbind option_bind]. unfold holds in Hh. rewrite Hz in Hh. rewrite Hh. cbn [mbind option_bind]. rewrite table_sum.
  rewrite bool_decide_true by (unfold table, table_with; apply take_app_length'; unfold zlen in Hs; lia). le_is true. cbn [andb Z.eqb]. cbv iota. f_equal.
  unfold table, table_with. rewrite !app_assoc. apply drop_app_length'. rewrite !length_app. unfold LE. rewrite !le_encode_len. unfold zlen in Hs, Hi. cbn. lia.
Qed.

(** Writes keep what lies elsewhere. *)
Lemma holds_frame mem mem' o bs a t :
  splice mem o bs = Some mem' → holds mem a t → a + zlen t ≤ o ∨ o + zlen bs ≤ a → holds mem' a t.
Proof. unfold holds. intros Hs Hh Hd. pose proof Hh as [Hr _]%slice_Some. rewrite <- Hh. eapply slice_splice_frame; [done|]. lia. Qed.

Lemma alignUp_spec v : 0 ≤ v < 2 ^ 32 → v ≤ alignUp v 8 < v + 8 ∧ 0 ≤ alignUp v 8.
Proof.
  intros Hv. unfold alignUp. change (8 =? 0) with false. cbv iota. rewrite u64_small by lia. change (8 - 1) with (Z.ones 3).
  rewrite Z.ldiff_ones_r by done. rewrite Z.shiftl_mul_pow2, Z.shiftr_div_pow2 by done. change (2 ^ 3) with 8. mlia.
Qed.

Lemma writeTable_ok t mem c :
  0 ≤ c → alignUp c 8 + zlen t ≤ SystemEnd → SystemEnd ≤ zlen mem → c < 2 ^ 32 →
  ∃ mem', writeTable t (mem, c) = Ok (alignUp c 8, (mem', alignUp c 8 + zlen t)) ∧ splice mem (alignUp c 8) t = Some mem' ∧
    holds mem' (alignUp c 8) t ∧ zlen mem' = zlen mem.
Proof.
  intros Hc Hl Hm Hb. destruct (alignUp_spec c) as [Ha H0]; [lia|]. destruct (splice_ok mem (alignUp c 8) t) as [mem' Hs]; [done|lia|].
  exists mem'. unfold writeTable. change dsdtAlignment with 8. cbv zeta. lt_is false. rewrite Hs. splits; try done.
  - unfold holds. by eapply slice_splice_same.
  - by eapply splice_len.
Qed.

Lemma rsdp_sums rsdtAddr xsdtAddr :
  let cs := mp_checksum (take 20 (rsdp_bytes 0 0 rsdtAddr xsdtAddr)) in
  let ext := mp_checksum (rsdp_bytes cs 0 rsdtAddr xsdtAddr) in
  byte_sum (take 20 (rsdp_bytes cs ext rsdtAddr xsdtAddr)) = 0 ∧ byte_sum (rsdp_bytes cs ext rsdtAddr xsdtAddr) = 0.
Proof.
  cbv zeta. split.
  - exact (checksum_zero (sbytes "RSD PTR ") (acpi_oemID ++ [2] ++ LE 4 rsdtAddr)).
  - set (cs := mp_checksum _).
    pose proof (checksum_zero (sbytes "RSD PTR " ++ [cs] ++ acpi_oemID ++ [2] ++ LE 4 rsdtAddr ++ LE 4 36 ++ LE 8 xsdtAddr) [0; 0; 0]) as H.
    rewrite <- !app_assoc in H. exact H.
Qed.
Lemma rsdp_fields cs ext r x :
  fits 32 r → fits 64 x → getLE 4 (rsdp_bytes cs ext r x) 16 = Some r ∧ getLE 8 (rsdp_bytes cs ext r x) 24 = Some x.
Proof.
  intros Hr Hx. unfold rsdp_bytes. split.
  - pose proof (getLE_middle 4 (sbytes "RSD PTR " ++ [cs] ++ acpi_oemID ++ [2]) r (LE 4 36 ++ LE 8 x ++ [ext; 0; 0; 0]) 16) as H.
    rewrite <- !app_assoc in H. by apply H.
  - pose proof (getLE_middle 8 (sbytes "RSD PTR " ++ [cs] ++ acpi_oemID ++ [2] ++ LE 4 r ++ LE 4 36) x [ext; 0; 0; 0] 24) as H.
    rewrite <- !app_assoc in H. by apply H.
Qed.
Lemma fadt_fields d : fits 32 d → getLE 4 (fadt_body d) 4 = Some d ∧ getLE 8 (fadt_body d) 104 = Some d.
Proof.
  intros Hd. unfold fadt_body. split; [by apply (getLE_middle 4 (replicate 4 0))|].
  pose proof (getLE_middle 8 (replicate 4 0 ++ LE 4 d ++ replicate 65 0 ++ LE 2 (1 .<< 2) ++ [0] ++ LE 4 fadt_flags ++ replicate 15 0 ++ [5] ++ replicate 8 0)
    d (replicate 120 0 ++ hypervisorID) 104) as H. rewrite <- !app_assoc in H. apply H; [done|]. unfold fits in Hd. change (256 ^ Z.of_nat 8) with (2 ^ 64). lia.
Qed.

(** The interrupt controllers of a machine of [n] processors. *)
Definition controllers (n : Z) : list (Z * list Z) :=
  (1, [0; 0] ++ LE 4 IOAPICAddr ++ LE 4 0) :: ((fun i => (0, [u8 i; u8 i] ++ LE 4 1)) <$> upto n).
Lemma madt_entry typ len body rest fuel :
  len = 2 + zlen body → madt_entries (S fuel) (typ :: len :: body ++ rest) = cons (typ, body) <$> madt_entries fuel rest.
Proof.
  intros ->. pose proof (zlen_nonneg body). pose proof (zlen_nonneg rest). cbn [madt_entries]. rewrite !zlen_cons, zlen_app. or_is false.
  replace (Z.to_nat (2 + zlen body)) with (S (S (length body))) by (unfold zlen; lia). cbn [take drop]. by rewrite drop_0, take_app_length, drop_app_length.
Qed.
Lemma lapics_parse l fuel :
  (8 * length l < fuel)%nat → madt_entries fuel (concat (lapic_entry <$> l)) = Some ((fun i => (0, [u8 i; u8 i] ++ LE 4 1)) <$> l).
Proof.
  revert fuel. induction l as [|i l IH]; intros [|fuel] Hf; cbn [length] in Hf; try lia; [done|]. rewrite fmap_cons. cbn [concat].
 
  set (rest := concat (lapic_entry <$> l)) in *.
  change (lapic_entry i ++ rest) with (0 :: 8 :: ([u8 i; u8 i] ++ LE 4 1) ++ rest). rewrite madt_entry by done. by rewrite IH by lia.
Qed.
Lemma madt_parse n :
  1 ≤ n → madt_entries (length (madt_body n)) (drop 8 (madt_body n)) = Some (controllers n) ∧ zlen (madt_body n) = 20 + 8 * n.
Proof.
  intros Hn. assert (length (upto n) = Z.to_nat n) as Hu by (unfold upto; by rewrite length_fmap, length_seq).
  assert (length (concat (lapic_entry <$> upto n)) = 8 * Z.to_nat n)%nat as Hl.
  { rewrite <- Hu. generalize (upto n). intros l. induction l as [|i l IH]; [done|]. rewrite fmap_cons. cbn [concat length]. rewrite length_app, IH.
    change (length (lapic_entry i)) with 8%nat. lia. }
  assert (length (madt_body n) = 20 + 8 * Z.to_nat n)%nat as Hb by (unfold madt_body; rewrite !length_app, Hl; cbn; lia).
  split; [|unfold zlen; lia]. rewrite Hb. unfold madt_body. set (rest := concat _) in *.
  change (drop 8 _) with (1 :: 12 :: [0; 0] ++ LE 4 IOAPICAddr ++ LE 4 0 ++ rest). replace (20 + 8 * Z.to_nat n)%nat with (S (19 + 8 * Z.to_nat n)) by lia.
  rewrite (app_assoc (LE 4 IOAPICAddr)), (app_assoc [0; 0]), madt_entry by done. unfold rest.
  rewrite (lapics_parse (upto n)) by (rewrite Hu; lia). done.
Qed.

(** The five tables, one after the other. *)
Record tables_at (mem mem' : list Z) (dsdt fadt madt rsdt xsdt : list Z) (a1 a2 a3 a4 a5 : Z) : Prop := {
  ta_dsdt : holds mem' a1 dsdt; ta_fadt : holds mem' a2 fadt; ta_madt : holds mem' a3 madt;
  ta_rsdt : holds mem' a4 rsdt; ta_xsdt : holds mem' a5 xsdt;
  ta_order : SystemStart ≤ a1 ∧ a1 + zlen dsdt ≤ a2 ∧ a2 + zlen fadt ≤ a3 ∧ a3 + zlen madt ≤ a4 ∧ a4 + zlen rsdt ≤ a5 ∧ a5 + zlen xsdt ≤ SystemEnd;
  ta_len : zlen mem' = zlen mem;
  ta_frame a b : 0 ≤ a → b ≤ zlen mem → b ≤ SystemStart ∨ SystemEnd ≤ a → slice mem' a b = slice mem a b
}.

Ltac table_step t mem c a :=
  pose proof (alignUp_spec c ltac:(lia)); set (a := alignUp c 8) in *;
  let m := fresh "mem" in let W := fresh "W" in let S := fresh "S" in let H := fresh "Hh" in let L := fresh "L" in
  destruct (writeTable_ok t mem c) as (m & W & S & H & L);
  [lia|fold a; unfold SystemEnd, RSDPAddr; lia|unfold SystemEnd, RSDPAddr; lia|lia|]; fold a in W, S, H.

Lemma write_five mem d f m r x :
  SystemEnd ≤ zlen mem → zlen d + zlen (f 0) + zlen m + zlen (r 0 0) + zlen (x 0 0) + 40 ≤ SystemEnd - SystemStart →
  (∀ a, zlen (f a) = zlen (f 0)) → (∀ a b, zlen (r a b) = zlen (r 0 0)) → (∀ a b, zlen (x a b) = zlen (x 0 0)) →
  ∃ a1 a2 a3 a4 a5 s1 s2 s3 s4 s5,
    writeTable d (mem, SystemStart) = Ok (a1, s1) ∧ writeTable (f a1) s1 = Ok (a2, s2) ∧ writeTable m s2 = Ok (a3, s3) ∧
    writeTable (r a2 a3) s3 = Ok (a4, s4) ∧ writeTable (x a2 a3) s4 = Ok (a5, s5) ∧
    tables_at mem s5.1 d (f a1) m (r a2 a3) (x a2 a3) a1 a2 a3 a4 a5.
Proof.
  intros Hm Hsz Hf Hr Hx. unfold SystemEnd, SystemStart, RSDPAddr in *.
  pose proof (zlen_nonneg d). pose proof (zlen_nonneg (f 0)). pose proof (zlen_nonneg m). pose proof (zlen_nonneg (r 0 0)). pose proof (zlen_nonneg (x 0 0)).
  table_step d mem 0xA0000 a1. pose proof (Hf a1) as Hf1. table_step (f a1) mem0 (a1 + zlen d) a2.
  table_step m mem1 (a2 + zlen (f a1)) a3. pose proof (Hr a2 a3) as Hr1. table_step (r a2 a3) mem2 (a3 + zlen m) a4.
  pose proof (Hx a2 a3) as Hx1. table_step (x a2 a3) mem3 (a4 + zlen (r a2 a3)) a5.
  exists a1, a2, a3, a4, a5. do 5 eexists. splits; [exact W|exact W0|exact W1|exact W2|exact W3|]. cbn [fst].
  split; unfold SystemEnd, SystemStart, RSDPAddr; try lia.
  - do 4 (eapply holds_frame; [eassumption| |lia]). exact Hh.
  - do 3 (eapply holds_frame; [eassumption| |lia]). exact Hh0.
  - do 2 (eapply holds_frame; [eassumption| |lia]). exact Hh1.
  - eapply holds_frame; [eassumption| |lia]. exact Hh2.
  - exact Hh3.
  - intros a b Ha Hb Hor. rewrite (slice_splice_frame _ _ _ _ a b S3) by lia. rewrite (slice_splice_frame _ _ _ _ a b S2) by lia.
    rewrite (slice_splice_frame _ _ _ _ a b S1) by lia. rewrite (slice_splice_frame _ _ _ _ a b S0) by lia. apply (slice_splice_frame _ _ _ _ a b S). lia.
Qed.

Lemma zlen_table sig len rev id body : zlen sig = 4 → zlen id = 8 → zlen (table sig len rev id body) = 36 + zlen body.
Proof. intros. by apply zlen_table_with. Qed.
Lemma zlen_fadt_body d : zlen (fadt_body d) = 240. Proof. done. Qed.
Lemma address_pair n a b : (0 < n)%nat → zlen (concat (LE n <$> [a; b])) = 2 * Z.of_nat n.
Proof. intros. cbn [fmap list_fmap concat]. rewrite !zlen_app, !zlen_LE, zlen_nil. lia. Qed.

Lemma pair_fields n a b :
  0 ≤ a < 256 ^ Z.of_nat n → 0 ≤ b < 256 ^ Z.of_nat n →
  getLE n (concat (LE n <$> [a; b])) 0 = Some a ∧ getLE n (concat (LE n <$> [a; b])) (Z.of_nat n) = Some b.
Proof.
  intros Ha Hb. cbn [fmap list_fmap concat]. split; [by apply (getLE_middle n [])|]. apply getLE_middle; [by rewrite zlen_LE|done].
Qed.

(** The tables and the root pointer in memory, all between 640 KiB and the end
    of the root pointer. *)
Definition acpi_layout (mem : list Z) (n : Z) (body : list Z) : Prop :=
  ∃ a1 a2 a3 a4 a5 rsdp,
    holds mem a1 (table (sbytes "DSDT") (36 + zlen body) 2 dsdtTableID body) ∧
    holds mem a2 (table (sbytes "FACP") fadtLength 6 fadtTableID (fadt_body a1)) ∧
    holds mem a3 (table (sbytes "APIC") (36 + zlen (madt_body n)) 6 madtTableID (madt_body n)) ∧
    holds mem a4 (table (sbytes "RSDT") 44 1 rsdtTableID (concat (LE 4 <$> [a2; a3]))) ∧
    holds mem a5 (table (sbytes "XSDT") 52 1 xsdtTableID (concat (LE 8 <$> [a2; a3]))) ∧
    holds mem RSDPAddr rsdp ∧ buildRSDP a4 a5 = Ok rsdp ∧
    SystemStart ≤ a1 ∧ a1 + 36 + zlen body ≤ a2 ∧ a2 + 276 ≤ a3 ∧ a3 + 36 + zlen (madt_body n) ≤ a4 ∧ a4 + 44 ≤ a5 ∧ a5 + 52 ≤ SystemEnd.

Lemma acpi_layout_frame mem mem' n body :
  (∀ a b, SystemStart ≤ a → b ≤ RSDPAddr + 36 → slice mem' a b = slice mem a b) → acpi_layout mem n body → acpi_layout mem' n body.
Proof.
  intros Hf (a1 & a2 & a3 & a4 & a5 & rsdp & H1 & H2 & H3 & H4 & H5 & H6 & Hr & Ho). pose proof (zlen_nonneg body). pose proof (zlen_nonneg (madt_body n)).
  assert (zlen rsdp = 36) as Hz. { unfold buildRSDP in Hr. destruct (_ <? _); [done|]. by injection Hr as <-. }
  unfold SystemStart, SystemEnd, RSDPAddr in *.
  exists a1, a2, a3, a4, a5, rsdp. unfold holds, SystemStart, SystemEnd, RSDPAddr in *.
  rewrite !Hf by (rewrite ?zlen_table, ?zlen_fadt_body, ?address_pair, ?Hz by (done || lia); lia). splits; done || lia.
Qed.

(** What the walk finds. *)
Lemma acpi_layout_walk mem n body : 1 ≤ n → acpi_layout mem n body → acpi_walk mem RSDPAddr = Some (mkView (controllers n) body).
Proof.
  intros Hn (a1 & a2 & a3 & a4 & a5 & rsdp & Hd & Hf & Hm & Hr & Hx & Hrs & Hp & Ho). destruct (madt_parse n Hn) as [He Hz].
  rewrite Hz in Ho. pose proof (zlen_nonneg body).
  unfold SystemStart, SystemEnd, RSDPAddr in *. unfold buildRSDP in Hp. destruct (Z.ltb_spec 0xFFFFFFFF a4); [done|].
  set (cs := mp_checksum (take 20 (rsdp_bytes 0 0 a4 a5))) in *. set (ext := mp_checksum (rsdp_bytes cs 0 a4 a5)) in *.
  assert (rsdp = rsdp_bytes cs ext a4 a5) as -> by congruence. unfold holds in Hrs. change (zlen (rsdp_bytes cs ext a4 a5)) with 36 in Hrs.
  destruct (rsdp_sums a4 a5) as [Hs1 Hs2]. fold cs in Hs1, Hs2. fold ext in Hs1, Hs2.
  destruct (rsdp_fields cs ext a4 a5) as [Hg1 Hg2]; [unfold fits; lia|unfold fits; lia|].
  destruct (fadt_fields a1) as [Hf1 Hf2]; [unfold fits; lia|].
  unfold acpi_walk. rewrite Hrs. cbn [mbind option_bind]. rewrite Hs1, Hs2, bool_decide_true by done. cbn [andb negb Z.eqb]. rewrite Hg1, Hg2. cbn [mbind option_bind].
  rewrite (read_table_holds _ _ _ _ _ _ _ Hx), (read_table_holds _ _ _ _ _ _ _ Hr) by done. cbn [mbind option_bind].
  destruct (pair_fields 8 a2 a3) as [P1 P2]; [lia|lia|]. destruct (pair_fields 4 a2 a3) as [P3 P4]; [lia|lia|].
  change (Z.of_nat 8) with 8 in P2. change (Z.of_nat 4) with 4 in P4.
  rewrite P1. cbn [mbind option_bind]. rewrite P2. cbn [mbind option_bind]. rewrite P3. cbn [mbind option_bind]. rewrite P4. cbn [mbind option_bind].
  rewrite (read_table_holds _ _ _ _ _ _ _ Hf), (read_table_holds _ _ _ _ _ _ _ Hm) by (done || lia). cbn [mbind option_bind].
  rewrite Hf1, Hf2. cbn [mbind option_bind]. rewrite !Z.eqb_refl. cbn [andb negb].
  rewrite (read_table_holds _ _ _ _ _ _ _ Hd) by (done || lia). cbn [mbind option_bind]. by rewrite He.
Qed.

Lemma buildXSDT_ok a b : buildXSDT [a; b] = table (sbytes "XSDT") 52 1 xsdtTableID (concat (LE 8 <$> [a; b])).
Proof. unfold buildXSDT. cbv zeta. rewrite finalize_table, address_pair by (done || lia). done. Qed.
Lemma buildFADT_ok a : a ≤ 0xFFFFFFFF → buildFADT a = Ok (table (sbytes "FACP") fadtLength 6 fadtTableID (fadt_body a)).
Proof. intros Ha. unfold buildFADT. lt_is false. by rewrite finalize_table. Qed.
Lemma buildRSDT_ok a b :
  a ≤ 0xFFFFFFFF → b ≤ 0xFFFFFFFF → buildRSDT [a; b] = Ok (table (sbytes "RSDT") 44 1 rsdtTableID (concat (LE 4 <$> [a; b]))).
Proof.
  intros Ha Hb. unfold buildRSDT. cbn [existsb]. do 2 lt_is false. cbn [orb]. cbv zeta. rewrite finalize_table, address_pair by (done || lia). done.
Qed.
Lemma buildRSDP_ok a b : a ≤ 0xFFFFFFFF → ∃ rsdp, buildRSDP a b = Ok rsdp ∧ zlen rsdp = 36.
Proof. intros Ha. unfold buildRSDP. lt_is false. eexists. split; done. Qed.

Lemma virtio_devices_fail mmio : ∀ i children,
  0 ≤ i ≤ 1000 → 1000 < i + zlen mmio → Forall GSI_ok mmio → virtio_devices i mmio children = Err BadPathPart.
Proof.
  induction mmio as [|dev mmio IH]; intros i children Hi Hn Hg; [change (zlen []) with 0 in Hn; lia|]. rewrite zlen_cons in Hn.
  inversion Hg as [|? ? Hd Hm]; subst. cbn [virtio_devices]. destruct (decide (i = 1000)) as [->|].
  - reflexivity.
  - destruct (virtio_device_decodes i dev) as (bs & -> & _); [lia|done|]. apply IH; [lia|lia|done].
Qed.

(** The tables are built and placed. *)
Lemma CreateX86Tables_layout mem n mmio :
  Forall GSI_ok mmio → 1 ≤ n ≤ 255 → zlen mmio ≤ 1000 → RSDPAddr + 36 ≤ zlen mem →
  ∃ mem' dsdt, CreateX86Tables mem n mmio = Ok (RSDPAddr, mem') ∧ zlen mem' = zlen mem ∧
    (∀ a b, 0 ≤ a → b ≤ zlen mem → b ≤ SystemStart ∨ RSDPAddr + 36 ≤ a → slice mem' a b = slice mem a b) ∧
    acpi_layout mem' n dsdt ∧ parse_aml dsdt = Some (dsdt_tree mmio).
Proof.
  intros Hg Hn Hc Hm. destruct (buildDSDT_decodes mmio Hc Hg) as (body & Eb & Hp & Lb). destruct (madt_parse n ltac:(lia)) as [_ Hz].
  unfold CreateX86Tables. le_is false. lt_is false. rewrite Eb. cbn [mbind res_bind]. unfold buildDSDTTable, buildMADT. cbv zeta.
  rewrite !finalize_table, Hz by done. pose proof (zlen_nonneg body).
  rewrite (u32_small (36 + zlen body)), (u32_small (36 + (20 + 8 * n))) by lia.
  destruct (write_five mem (table (sbytes "DSDT") (36 + zlen body) 2 dsdtTableID body)
    (fun a => table (sbytes "FACP") fadtLength 6 fadtTableID (fadt_body a)) (table (sbytes "APIC") (36 + (20 + 8 * n)) 6 madtTableID (madt_body n))
    (fun a b => table (sbytes "RSDT") 44 1 rsdtTableID (concat (LE 4 <$> [a; b])))
    (fun a b => table (sbytes "XSDT") 52 1 xsdtTableID (concat (LE 8 <$> [a; b]))))
    as (a1 & a2 & a3 & a4 & a5 & s1 & s2 & s3 & s4 & s5 & W1 & W2 & W3 & W4 & W5 & Hta).
  1: unfold SystemEnd; lia. 2-4: intros; rewrite !zlen_table, ?zlen_fadt_body, ?address_pair by (done || lia); done.
  { rewrite !zlen_table, zlen_fadt_body, !address_pair, Hz by (done || lia). unfold SystemEnd, SystemStart, RSDPAddr. lia. }
  pose proof (ta_order _ _ _ _ _ _ _ _ _ _ _ _ Hta) as Ho. rewrite !zlen_table, zlen_fadt_body, !address_pair, Hz in Ho by (done || lia).
  unfold SystemStart, SystemEnd, RSDPAddr in Ho. destruct (buildRSDP_ok a4 a5 ltac:(lia)) as (rsdp & Erp & Lrp).
  destruct (splice_ok s5.1 RSDPAddr rsdp) as [mem'' Hs]; [done|rewrite (ta_len _ _ _ _ _ _ _ _ _ _ _ _ Hta); lia|].
  exists mem'', body. rewrite W1. cbn [mbind res_bind]. rewrite buildFADT_ok by lia. cbn [mbind res_bind]. rewrite W2. cbn [mbind res_bind]. rewrite W3. cbn [mbind res_bind].
  rewrite buildRSDT_ok by lia. cbn [mbind res_bind]. rewrite W4. cbn [mbind res_bind]. rewrite buildXSDT_ok, W5. cbn [mbind res_bind]. rewrite Erp. cbn [mbind res_bind]. rewrite Hs.
  splits; [done| | | |exact Hp].
  - rewrite (splice_len _ _ _ _ Hs). apply Hta.
  - intros a b Ha Hb Hor. rewrite (slice_splice_frame _ _ _ _ a b Hs) by (unfold SystemStart, RSDPAddr in *; lia).
    apply (ta_frame _ _ _ _ _ _ _ _ _ _ _ _ Hta); unfold SystemEnd, SystemStart, RSDPAddr in *; lia.
  - destruct Hta as [K1 K2 K3 K4 K5 K6 K7 K8]. exists a1, a2, a3, a4, a5, rsdp. rewrite Hz. unfold SystemEnd, SystemStart, RSDPAddr in *.
    rewrite !zlen_table, zlen_fadt_body, !address_pair, Hz in K6 by (done || lia). splits; try lia; try done.
    1-5: eapply holds_frame; [exact Hs|done|]; rewrite ?zlen_table, ?zlen_fadt_body, ?address_pair, ?Hz by (done || lia); lia.
    unfold holds. by eapply slice_splice_same.
Qed.

(** C39: an x86 guest finds its devices and processors through ACPI. For 1 to 255
    vCPUs, at most 1000 devices and enough memory the tables are written between
    640 KiB and the root pointer at 0xE0000 and no other byte changes; an operating
    system that starts at the root pointer, checks every signature and checksum and
    follows the 32- and 64-bit pointers finds the I/O APIC, one local APIC per
    vCPU, and byte code that decodes to the serial port, the keyboard controller
    and one device per virtio transport with its registers and interrupt.  A 1001st
    device, a missing vCPU or too little memory is an error. *)
Theorem acpi_tables_correct mem n mmio :
  Forall GSI_ok mmio →
  (1 ≤ n ≤ 255 → zlen mmio ≤ 1000 → RSDPAddr + 36 ≤ zlen mem →
   ∃ mem' dsdt, CreateX86Tables mem n mmio = Ok (RSDPAddr, mem') ∧ zlen mem' = zlen mem ∧
     (∀ a b, 0 ≤ a → b ≤ zlen mem → b ≤ SystemStart ∨ RSDPAddr + 36 ≤ a → slice mem' a b = slice mem a b) ∧
     acpi_walk mem' RSDPAddr = Some (mkView (controllers n) dsdt) ∧ parse_aml dsdt = Some (dsdt_tree mmio)) ∧
  (n ≤ 0 ∨ 1000 < zlen mmio ∨ zlen mem < RSDPAddr + 36 → ∃ e, CreateX86Tables mem n mmio = Err e).
Proof.
  intros Hg. split.
  - intros Hn Hc Hm. destruct (CreateX86Tables_layout mem n mmio Hg Hn Hc Hm) as (mem' & dsdt & H1 & H2 & H3 & H4 & H5).
    exists mem', dsdt. splits; try done. apply acpi_layout_walk; [lia|done].
  - intros Hor. unfold CreateX86Tables. destruct (Z.leb_spec n 0); [eauto|]. destruct (Z.ltb_spec (zlen mem) (RSDPAddr + 36)); [eauto|].
    exists BadPathPart. destruct com1_decodes as (b1 & E1 & _), ps2_decodes as (b2 & E2 & _). unfold buildDSDT. rewrite E1, E2. cbn [mbind res_bind].
    rewrite virtio_devices_fail by (done || lia). done.
Qed.

Lemma acpi_tables_correct_witness :
  ∃ mem' dsdt, CreateX86Tables (replicate (Z.to_nat 0xE0024) 0) 2 [mkMMIO 0xD0000000 0x1000 5] = Ok (RSDPAddr, mem') ∧
    acpi_walk mem' RSDPAddr = Some (mkView (controllers 2) dsdt) ∧ parse_aml dsdt = Some (dsdt_tree [mkMMIO 0xD0000000 0x1000 5]).
Proof.
  destruct (proj1 (acpi_tables_correct (replicate (Z.to_nat 0xE0024) 0) 2 [mkMMIO 0xD0000000 0x1000 5]
    ltac:(constructor; [split; [discriminate|reflexivity]|constructor]))) as (mem' & dsdt & H1 & _ & _ & H2 & H3).
  - lia.
  - discriminate.
  - unfold zlen. rewrite length_replicate, Z2Nat.id by lia. discriminate.
  - exists mem', dsdt. split; [exact H1|]. split; [exact H2|exact H3].
Defined.
