(* ===== verification/RuntimeCfg.v ===== *)
(** * The guest's runtime specification on the kernel command line

    src/internal/runtimecfg/runtimecfg.go: what the guest's first process is to
    run travels as base64 fields of the kernel command line, which the guest
    splits and decodes.  Strings are lists of bytes; [encoding/base64] and
    [strconv.Atoi] are modelled as far as they are used. *)
From stdpp Require Import sorting.
From S2P Require Import Prelude Stream Fdt GuestExec.

Definition FormatKey : list Z := sbytes "gc.format".
Definition FormatVersion : list Z := sbytes "2".
Definition ExecKey : list Z := sbytes "gc.exec".
Definition ArgPrefix : list Z := sbytes "gc.arg.".
Definition EnvPrefix : list Z := sbytes "gc.env.".
Definition HostPrefix : list Z := sbytes "gc.host.".
Definition SharedFSPrefix : list Z := sbytes "gc.sharedfs.".
Definition WorkDirKey : list Z := sbytes "gc.workdir".
Definition UserKey : list Z := sbytes "gc.user".
Definition KernelCmdlineMax : Z := 2048.
Definition SerialDisable8250 : list Z := sbytes "8250.nr_uarts=0".
Definition PCIDisable : list Z := sbytes "pci=off".

(** ** Default arguments *)
Definition firecrackerBaseArgs : list (list Z) :=
  [sbytes "reboot=k"; sbytes "panic=1"; sbytes "nomodule"; sbytes "i8042.noaux"; sbytes "i8042.nomux"; sbytes "i8042.dumbkbd";
   sbytes "swiotlb=noforce"; sbytes "loglevel=4"].
Definition DefaultKernelArgsForRuntime (withSerialConsole allowKernelModules : bool) : list (list Z) :=
  let args := filter (fun arg => negb (allowKernelModules && bool_decide (arg = sbytes "nomodule")) = true) firecrackerBaseArgs in
  if withSerialConsole then [sbytes "console=ttyS0"] ++ args ++ [PCIDisable] else args ++ [SerialDisable8250; PCIDisable].
Definition DefaultKernelArgs (withSerialConsole : bool) : list (list Z) := DefaultKernelArgsForRuntime withSerialConsole false.

(** [strings.Join] *)
Fixpoint join (sep : list Z) (l : list (list Z)) : list Z :=
  match l with
  | [] => []
  | [x] => x
  | x :: l => x ++ sep ++ join sep l
  end.
Definition DefaultKernelCmdline (withSerialConsole : bool) : list Z := join [32] (DefaultKernelArgs withSerialConsole).

(** ** Base64, URL alphabet, no padding *)
Definition b64_char (v : Z) : Z :=
  if v <? 26 then 65 + v else if v <? 52 then 71 + v else if v <? 62 then v - 4 else if v =? 62 then 45 else 95.
Definition b64_val (c : Z) : option Z :=
  if (65 <=? c) && (c <=? 90) then Some (c - 65)
  else if (97 <=? c) && (c <=? 122) then Some (c - 71)
  else if (48 <=? c) && (c <=? 57) then Some (c + 4)
  else if c =? 45 then Some 62
  else if c =? 95 then Some 63
  else None.

Fixpoint b64_encode (l : list Z) : list Z :=
  match l with
  | [] => []
  | [a] => [b64_char (a / 4); b64_char (a mod 4 * 16)]
  | [a; b] => [b64_char (a / 4); b64_char (a mod 4 * 16 + b / 16); b64_char (b mod 16 * 4)]
  | a :: b :: c :: l =>
      b64_char (a / 4) :: b64_char (a mod 4 * 16 + b / 16) :: b64_char (b mod 16 * 4 + c / 64) :: b64_char (c mod 64) :: b64_encode l
  end.
(** Six-bit values to bytes; one value alone at the end is an error. *)
Fixpoint b64_group (l : list Z) : option (list Z) :=
  match l with
  | [] => Some []
  | [_] => None
  | [a; b] => Some [a * 4 + b / 16]
  | [a; b; c] => Some [a * 4 + b / 16; b mod 16 * 16 + c / 4]
  | a :: b :: c :: d :: l => ([a * 4 + b / 16; b mod 16 * 16 + c / 4; c mod 4 * 64 + d] ++.) <$> b64_group l
  end.
(** The decoder skips line ends. *)
Definition b64_decode (l : list Z) : option (list Z) :=
  vs ← mapM b64_val (filter (fun c => c ≠ 10 ∧ c ≠ 13) l); b64_group vs.

Definition EncodeValue (value : list Z) : list Z := b64_encode value.
Definition DecodeValue (value : list Z) : option (list Z) := b64_decode value.

(** ** Splitting *)
Definition isSpace (ch : Z) : bool := (ch =? 32) || (ch =? 9) || (ch =? 10) || (ch =? 13).

(** [flush]: append the field under construction, if any. *)
Definition flush_field (fields : list (list Z)) (current : list Z) : list (list Z) :=
  if zlen current =? 0 then fields else fields ++ [current].
Fixpoint split_kernel (line : list Z) (fields : list (list Z)) (current : list Z) : list (list Z) :=
  match line with
  | [] => flush_field fields current
  | ch :: line =>
      if isSpace ch then split_kernel line (flush_field fields current) []
      else
        match line with
        | next :: line' =>
            if (ch =? 92) && (isSpace next || (next =? 92)) then split_kernel line' fields (current ++ [next])
            else split_kernel line fields (current ++ [ch])
        | [] => split_kernel line fields (current ++ [ch])
        end
  end.
Definition SplitKernelFields (line : list Z) : list (list Z) := split_kernel line [] [].

Inductive split_err := UnterminatedEscape | UnterminatedQuote.
Fixpoint split_command (line : list Z) (fields : list (list Z)) (current : list Z) (inSingle inDouble escaped : bool) :
    res split_err (list (list Z)) :=
  match line with
  | [] => if escaped then Err UnterminatedEscape else if inSingle || inDouble then Err UnterminatedQuote else Ok (flush_field fields current)
  | ch :: line =>
      if escaped then split_command line fields (current ++ [ch]) inSingle inDouble false
      else if ch =? 92 then
        if inSingle then split_command line fields (current ++ [ch]) inSingle inDouble false
        else split_command line fields current inSingle inDouble true
      else if ch =? 39 then
        if inDouble then split_command line fields (current ++ [ch]) inSingle inDouble false
        else split_command line fields current (negb inSingle) inDouble false
      else if ch =? 34 then
        if inSingle then split_command line fields (current ++ [ch]) inSingle inDouble false
        else split_command line fields current inSingle (negb inDouble) false
      else if negb inSingle && negb inDouble && isSpace ch then split_command line (flush_field fields current) [] inSingle inDouble false
      else split_command line fields (current ++ [ch]) inSingle inDouble false
  end.
Definition SplitCommandLine (line : list Z) : res split_err (list (list Z)) := split_command line [] [] false false false.

(** [strings.SplitN(field, "=", 2)] *)
Fixpoint cut_eq (l : list Z) : list Z * option (list Z) :=
  match l with
  | [] => ([], None)
  | c :: l => if c =? 61 then ([], Some l) else let '(k, v) := cut_eq l in (c :: k, v)
  end.
Notation Fields := (gmap (list Z) (list Z)).
Definition add_field (out : Fields) (field : list Z) : Fields :=
  match cut_eq field with (k, Some v) => <[k := v]> out | (k, None) => <[k := sbytes "1"]> out end.
Definition ParseKernelCmdline (line : list Z) : Fields := foldl add_field ∅ (SplitKernelFields line).

(** ** The specification *)
Record ProcessSpec := mkProcSpec { p_Exec : list Z; p_Args : list (list Z) }.
Definition IsZero (p : ProcessSpec) : bool := (zlen (p_Exec p) =? 0) && (zlen (p_Args p) =? 0).
Definition ResolveProcess (entrypoint cmd : list (list Z)) : ProcessSpec :=
  match entrypoint with
  | e :: args => mkProcSpec e (args ++ cmd)
  | [] => match cmd with c :: args => mkProcSpec c args | [] => mkProcSpec [] [] end
  end.

Record SharedFSMount := mkMount { sm_Tag : list Z; sm_Target : list Z; sm_ReadOnly : bool }.
Record GuestSpec := mkSpec {
  gs_Process : ProcessSpec; gs_Env : list (list Z); gs_Hosts : list (list Z); gs_SharedFS : list SharedFSMount;
  gs_WorkDir : list Z; gs_User : list Z; gs_PID1Mode : list Z; gs_Exec : ExecConfig
}.
Definition HasStructuredFields (s : GuestSpec) : bool :=
  negb (IsZero (gs_Process s)) || (0 <? zlen (gs_Env s)) || (0 <? zlen (gs_Hosts s)) || (0 <? zlen (gs_SharedFS s)) ||
  negb (zlen (gs_WorkDir s) =? 0) || negb (zlen (gs_User s) =? 0) || negb (zlen (gs_PID1Mode s) =? 0) || ec_Enabled (gs_Exec s).

Definition key_value (key value : list Z) : list Z := key ++ [61] ++ value.
Definition appendEncodedValue (parts : list (list Z)) (key value : list Z) : list (list Z) :=
  if zlen value =? 0 then parts else parts ++ [key_value key (EncodeValue value)].
Definition indexed (prefix : list Z) (i : nat) : list Z := prefix ++ fmt_uint 10 (Z.of_nat i).
Definition appendEncodedSlice (parts : list (list Z)) (prefix : list Z) (values : list (list Z)) : list (list Z) :=
  parts ++ imap (fun i value => key_value (indexed prefix i) (EncodeValue value)) values.
Definition FormatBool (b : bool) : list Z := if b then sbytes "true" else sbytes "false".
Definition encode_mount (m : SharedFSMount) : list Z :=
  join [44] [EncodeValue (sm_Tag m); EncodeValue (sm_Target m); FormatBool (sm_ReadOnly m)].
Definition appendEncodedSharedFS (parts : list (list Z)) (prefix : list Z) (mounts : list SharedFSMount) : list (list Z) :=
  parts ++ imap (fun i m => key_value (indexed prefix i) (encode_mount m)) mounts.

Definition AppendKernelArgs (s : GuestSpec) (parts : list (list Z)) : list (list Z) :=
  if negb (HasStructuredFields s) then parts
  else
    let parts := parts ++ [key_value FormatKey FormatVersion] in
    let parts := appendEncodedValue parts ExecKey (p_Exec (gs_Process s)) in
    let parts := appendEncodedSlice parts ArgPrefix (p_Args (gs_Process s)) in
    let parts := appendEncodedSlice parts EnvPrefix (gs_Env s) in
    let parts := appendEncodedSlice parts HostPrefix (gs_Hosts s) in
    let parts := appendEncodedSharedFS parts SharedFSPrefix (gs_SharedFS s) in
    let parts := appendEncodedValue parts WorkDirKey (gs_WorkDir s) in
    appendEncodedValue parts UserKey (gs_User s).

(** ** Decoding *)

(** [strconv.Atoi]: an optional sign and decimal digits in the range of int64. *)
Fixpoint digits_value (acc : Z) (l : list Z) : option Z :=
  match l with
  | [] => Some acc
  | c :: l => if (48 <=? c) && (c <=? 57) then digits_value (acc * 10 + (c - 48)) l else None
  end.
Definition Atoi (l : list Z) : option Z :=
  let '(neg, ds) := match l with 45 :: ds => (true, ds) | 43 :: ds => (false, ds) | _ => (false, l) end in
  if zlen ds =? 0 then None
  else
    v ← digits_value 0 ds;
    let v := if (neg : bool) then - v else v in
    if (- 2 ^ 63 <=? v) && (v <? 2 ^ 63) then Some v else None.

(** The errors of a decoder name the field they met first, which depends on the
    order of the map's iteration: they are one error here. *)
Inductive spec_err := BadSpec.
Definition with_prefix (fields : Fields) (prefix : list Z) : list (list Z * list Z) :=
  filter (fun kv => prefix `prefix_of` kv.1) (map_to_list fields).
Definition by_index {A} : relation (Z * A) := fun x y => x.1 ≤ y.1.
#[export] Instance by_index_dec {A} (x y : Z * A) : Decision (by_index x y).
Proof. unfold by_index. apply _. Defined.

(** The items in the order of their indices, which must be 0, 1, 2, ... *)
Definition in_order {A} (items : list (Z * A)) : option (list A) :=
  let items := merge_sort by_index items in
  if forallb (fun b => b) (imap (fun i item => item.1 =? Z.of_nat i) items) then Some (snd <$> items) else None.

Definition index_item (prefix : list Z) (value : list Z → option (list Z)) (kv : list Z * list Z) : option (Z * list Z) :=
  index ← Atoi (drop (length prefix) kv.1); v ← value kv.2; Some (index, v).
Definition decodeIndexedSlice (fields : Fields) (prefix : list Z) : option (list (list Z)) :=
  items ← mapM (index_item prefix DecodeValue) (with_prefix fields prefix);
  in_order items.

(** [strings.Split(raw, ",")] *)
Fixpoint split_commas (l cur : list Z) : list (list Z) :=
  match l with
  | [] => [cur]
  | b :: l => if b =? 44 then cur :: split_commas l [] else split_commas l (cur ++ [b])
  end.
(** [strconv.ParseBool] *)
Definition ParseBool (s : list Z) : option bool :=
  if bool_decide (s ∈ [sbytes "1"; sbytes "t"; sbytes "T"; sbytes "TRUE"; sbytes "true"; sbytes "True"]) then Some true
  else if bool_decide (s ∈ [sbytes "0"; sbytes "f"; sbytes "F"; sbytes "FALSE"; sbytes "false"; sbytes "False"]) then Some false
  else None.
Definition decode_mount (raw : list Z) : option SharedFSMount :=
  match split_commas raw [] with
  | [t; g; r] => tag ← DecodeValue t; target ← DecodeValue g; readOnly ← ParseBool r; Some (mkMount tag target readOnly)
  | _ => None
  end.
Definition decodeIndexedSharedFS (fields : Fields) (prefix : list Z) : option (list SharedFSMount) :=
  items ← mapM (index_item prefix Some) (with_prefix fields prefix);
  raws ← in_order items;
  mapM decode_mount raws.

Definition decode_optional (fields : Fields) (key : list Z) : option (list Z) :=
  match fields !! key with
  | None | Some [] => Some []
  | Some raw => DecodeValue raw
  end.

(** [None]: the command line does not have this format. *)
Definition DecodeGuestSpec (fields : Fields) : res spec_err (option GuestSpec) :=
  if negb (bool_decide (fields !! FormatKey = Some FormatVersion)) then Ok None
  else
    match
      exec ← decode_optional fields ExecKey;
      args ← decodeIndexedSlice fields ArgPrefix;
      env ← decodeIndexedSlice fields EnvPrefix;
      hosts ← decodeIndexedSlice fields HostPrefix;
      sharedFS ← decodeIndexedSharedFS fields SharedFSPrefix;
      workDir ← decode_optional fields WorkDirKey;
      user ← decode_optional fields UserKey;
      Some (mkSpec (mkProcSpec exec args) env hosts sharedFS workDir user [] (mkExecConfig false 0))
    with
    | Some spec => Ok (Some spec)
    | None => Err BadSpec
    end.

(** ** Base64 *)
Lemma b64_char_ok v : 0 ≤ v < 64 → b64_val (b64_char v) = Some v.
Proof.
  intros Hv. assert (forallb (fun v => bool_decide (b64_val (b64_char v) = Some v)) (upto 64) = true) as Hf by reflexivity.
  rewrite forallb_forall in Hf. specialize (Hf v). eapply bool_decide_eq_true_1, Hf. apply list_elem_of_In.
  unfold upto. apply list_elem_of_fmap. exists (Z.to_nat v). split; [lia|]. apply elem_of_seq. lia.
Qed.
(** The characters of an encoded value. *)
Definition b64_alpha (c : Z) : Prop := is_Some (b64_val c).
Lemma b64_alpha_plain c : b64_alpha c → isSpace c = false ∧ c ≠ 92 ∧ c ≠ 44 ∧ c ≠ 10 ∧ c ≠ 13.
Proof.
  intros [v Hv]. unfold b64_val in Hv. unfold isSpace.
  repeat case_match; simplify_eq; b2p; (splits; try lia; repeat (or_is false); reflexivity).
Qed.

(** Six bits at a time. *)
Fixpoint b64_vals (l : list Z) : list Z :=
  match l with
  | [] => []
  | [a] => [a / 4; a mod 4 * 16]
  | [a; b] => [a / 4; a mod 4 * 16 + b / 16; b mod 16 * 4]
  | a :: b :: c :: l => a / 4 :: a mod 4 * 16 + b / 16 :: b mod 16 * 4 + c / 64 :: c mod 64 :: b64_vals l
  end.
Lemma list3_ind (P : list Z → Prop) :
  P [] → (∀ a, P [a]) → (∀ a b, P [a; b]) → (∀ a b c l, P l → P (a :: b :: c :: l)) → ∀ l, P l.
Proof.
  intros H0 H1 H2 H3. fix IH 1. intros [|a [|b [|c l]]]; [exact H0|apply H1|apply H2|apply H3, IH].
Qed.
Lemma b64_encode_vals l : b64_encode l = b64_char <$> b64_vals l.
Proof. induction l as [|a|a b|a b c l IH] using list3_ind; cbn; [done..|]. by rewrite IH. Qed.
Lemma b64_vals_ok l : bytes l → Forall (fun v => 0 ≤ v < 64) (b64_vals l) ∧ b64_group (b64_vals l) = Some l.
Proof.
  induction l as [|a|a b|a b c l IH] using list3_ind; intros Hb; rewrite ?Forall_cons in Hb; unfold bytes, is_byte in *; cbn [b64_vals b64_group].
  - done.
  - rewrite Forall_cons in Hb. split; [repeat constructor; mlia|]. do 2 f_equal. mlia.
  - rewrite !Forall_cons in Hb. split; [repeat constructor; mlia|]. f_equal. f_equal; [mlia|f_equal; mlia].
  - rewrite !Forall_cons in Hb. destruct IH as [IH1 IH2]; [tauto|]. rewrite IH2. split; [repeat constructor; try mlia; done|].
    cbn. f_equal. f_equal; [mlia|]. f_equal; [mlia|]. f_equal. mlia.
Qed.
Lemma b64_alphabet l : bytes l → Forall b64_alpha (EncodeValue l).
Proof.
  intros [Hv _]%b64_vals_ok. unfold EncodeValue. rewrite b64_encode_vals. apply Forall_fmap. eapply Forall_impl; [exact Hv|].
  intros v Hr. cbn. unfold b64_alpha. rewrite b64_char_ok by done. done.
Qed.
Lemma mapM_Some_fmap {A B} (f : A → option B) (g : B → A) l : Forall (fun x => f (g x) = Some x) l → mapM f (g <$> l) = Some l.
Proof. induction 1 as [|x l Hx _ IH]; [done|]. cbn. rewrite Hx. cbn. by rewrite IH. Qed.
Lemma DecodeValue_EncodeValue l : bytes l → DecodeValue (EncodeValue l) = Some l.
Proof.
  intros Hb. pose proof (b64_alphabet l Hb) as Ha. destruct (b64_vals_ok l Hb) as [Hv Hg]. unfold DecodeValue, b64_decode.
  rewrite filter_all.
  - unfold EncodeValue. rewrite b64_encode_vals, mapM_Some_fmap; [exact Hg|]. eapply Forall_impl; [exact Hv|]. apply b64_char_ok.
  - intros c Hc. rewrite Forall_forall in Ha. apply Ha, b64_alpha_plain in Hc. tauto.
Qed.

(** ** Splitting the command line *)
Definition plain (c : Z) : Prop := isSpace c = false ∧ c ≠ 92.
Lemma split_kernel_plain f rest fields cur :
  Forall plain f → split_kernel (f ++ rest) fields cur = split_kernel rest fields (cur ++ f).
Proof.
  intros Hf. revert cur. induction Hf as [|c f [Hs Hb] _ IH]; intros cur; [by rewrite app_nil_r|].
  cbn [app split_kernel]. rewrite Hs, (proj2 (Z.eqb_neq c 92) Hb). cbn [andb]. rewrite (cons_middle c cur f), app_assoc, <- IH.
  by destruct (f ++ rest).
Qed.
Definition field_ok (f : list Z) : Prop := f ≠ [] ∧ Forall plain f.
Lemma flush_nonempty fields f : f ≠ [] → flush_field fields f = fields ++ [f].
Proof.
  intros Hf. unfold flush_field. destruct f; [done|]. rewrite zlen_cons. pose proof (zlen_nonneg f). eq_is false. done.
Qed.
Lemma split_kernel_join parts fields :
  Forall field_ok parts → split_kernel (join [32] parts) fields [] = fields ++ parts.
Proof.
  intros Hp. revert fields. induction Hp as [|f parts [Hne Hf] Hps IH]; intros fields; cbn [join split_kernel].
  - unfold flush_field. cbn. by rewrite app_nil_r.
  - destruct parts as [|g parts].
    + rewrite <- (app_nil_r f) at 1. rewrite split_kernel_plain by done. cbn [app split_kernel]. by apply flush_nonempty.
    + rewrite split_kernel_plain by done. cbn [app]. set (l := join [32] (g :: parts)) in *. cbn [split_kernel]. change (isSpace 32) with true. cbv iota.
      rewrite flush_nonempty by done. rewrite IH. by rewrite <- app_assoc.
Qed.
Lemma SplitKernelFields_join parts : Forall field_ok parts → SplitKernelFields (join [32] parts) = parts.
Proof. intros Hp. unfold SplitKernelFields. by rewrite split_kernel_join. Qed.

Lemma cut_eq_app k v : Forall (fun c => c ≠ 61) k → cut_eq (key_value k v) = (k, Some v).
Proof.
  unfold key_value. induction 1 as [|c k Hc _ IH]; [done|]. cbn [app cut_eq]. rewrite (proj2 (Z.eqb_neq c 61) Hc).
  cbn [app] in IH. by rewrite IH.
Qed.

(** ** Numbers *)
Lemma digits_value_snoc acc l c :
  digits_value acc (l ++ [c]) =
  (v ← digits_value acc l; if (48 <=? c) && (c <=? 57) then Some (v * 10 + (c - 48)) else None).
Proof. revert acc. induction l as [|d l IH]; intros acc; cbn; [by case_match|]. destruct ((48 <=? d) && (d <=? 57)); [apply IH|done]. Qed.
Lemma digits_of_fmt fuel n : 0 ≤ n < 10 ^ Z.of_nat fuel → (0 < fuel)%nat →
  digits_value 0 (fmt_digits fuel 10 n) = Some n ∧ ∃ c l, fmt_digits fuel 10 n = c :: l ∧ 48 ≤ c ≤ 57.
Proof.
  revert n. induction fuel as [|fuel IH]; intros n Hn Hf; [lia|]. cbn [fmt_digits]. destruct (Z.ltb_spec n 10).
  - unfold digit. lt_is true. cbn [digits_value]. and_is true. split; [f_equal; lia|]. eexists _, _. split; [reflexivity|lia].
  - rewrite Nat2Z.inj_succ, Z.pow_succ_r in Hn by lia. assert (0 < fuel)%nat by (destruct fuel; [cbn in Hn; lia|lia]).
    destruct (IH (n / 10)) as [Hv (c & l & Hl & Hc)]; [mlia|done|]. split.
    + rewrite digits_value_snoc, Hv. cbn [mbind option_bind]. unfold digit.
      assert (0 ≤ n mod 10 < 10) by mlia. lt_is true. and_is true. f_equal. mlia.
    + rewrite Hl. eexists _, _. split; [reflexivity|done].
Qed.
Lemma Atoi_fmt n : 0 ≤ n < 2 ^ 63 → Atoi (fmt_uint 10 n) = Some n.
Proof.
  intros Hn. destruct (digits_of_fmt 64 n) as [Hv (c & l & Hl & Hc)]; [|lia|].
  { split; [lia|]. apply (Z.lt_trans _ (2 ^ 63)); [lia|reflexivity]. }
  unfold Atoi, fmt_uint. rewrite Hl in *.
  assert (match c :: l with 45 :: ds => (true, ds) | 43 :: ds => (false, ds) | _ => (false, c :: l) end = (false, c :: l)) as ->
    by (repeat case_match; simplify_eq; (lia || done)).
  rewrite zlen_cons. pose proof (zlen_nonneg l). eq_is false. rewrite Hv. cbn [mbind option_bind]. and_is true. done.
Qed.
Lemma indexed_inj P i j : Z.of_nat i < 2 ^ 63 → Z.of_nat j < 2 ^ 63 → indexed P i = indexed P j → i = j.
Proof.
  intros Hi Hj He%app_inv_head. pose proof (Atoi_fmt (Z.of_nat i) ltac:(lia)) as H1. rewrite He, Atoi_fmt in H1 by lia. injection H1. lia.
Qed.

(** ** The fields, in groups *)
Definition class (k : list Z) : option Z * option Z := (k !! 3%nat, k !! 4%nat).
Notation KV := (list Z * list Z)%type.
Definition group_ok (c : option Z * option Z) (l : list KV) : Prop := Forall (fun kv => class kv.1 = c) l ∧ NoDup l.*1.

Definition opt_group (key value : list Z) : list KV := if zlen value =? 0 then [] else [(key, EncodeValue value)].
Definition slice_group {A} (prefix : list Z) (enc : A → list Z) (values : list A) : list KV := imap (fun i v => (indexed prefix i, enc v)) values.
Definition groups_of (s : GuestSpec) : list ((option Z * option Z) * list KV) :=
  [(class FormatKey, [(FormatKey, FormatVersion)]);
   (class ExecKey, opt_group ExecKey (p_Exec (gs_Process s)));
   (class ArgPrefix, slice_group ArgPrefix EncodeValue (p_Args (gs_Process s)));
   (class EnvPrefix, slice_group EnvPrefix EncodeValue (gs_Env s));
   (class HostPrefix, slice_group HostPrefix EncodeValue (gs_Hosts s));
   (class SharedFSPrefix, slice_group SharedFSPrefix encode_mount (gs_SharedFS s));
   (class WorkDirKey, opt_group WorkDirKey (gs_WorkDir s));
   (class UserKey, opt_group UserKey (gs_User s))].
Definition spec_fields (s : GuestSpec) : list KV := concat (groups_of s).*2.

Definition part (kv : KV) : list Z := key_value kv.1 kv.2.
Lemma AppendKernelArgs_fields s parts :
  HasStructuredFields s = true → AppendKernelArgs s parts = parts ++ (part <$> spec_fields s).
Proof.
  intros Hs. unfold AppendKernelArgs. rewrite Hs. cbn [negb]. cbv zeta.
  assert (∀ parts key value, appendEncodedValue parts key value = parts ++ (part <$> opt_group key value)) as Hv.
  { intros. unfold appendEncodedValue, opt_group. destruct (_ =? 0); [by rewrite app_nil_r|done]. }
  assert (∀ parts prefix values, appendEncodedSlice parts prefix values = parts ++ (part <$> slice_group prefix EncodeValue values)) as Hl.
  { intros. unfold appendEncodedSlice, slice_group. by rewrite fmap_imap. }
  assert (∀ parts prefix values, appendEncodedSharedFS parts prefix values = parts ++ (part <$> slice_group prefix encode_mount values)) as Hm.
  { intros. unfold appendEncodedSharedFS, slice_group. by rewrite fmap_imap. }
  repeat (rewrite Hv || rewrite Hl || rewrite Hm). unfold spec_fields, groups_of. cbn [fmap list_fmap snd concat]. rewrite !fmap_app, !app_nil_r, <- !app_assoc. done.
Qed.

Lemma groups_NoDup (gs : list ((option Z * option Z) * list KV)) :
  NoDup gs.*1 → Forall (fun g => group_ok g.1 g.2) gs → NoDup (concat gs.*2).*1.
Proof.
  intros Hn Hg. induction Hg as [|[c l] gs [Hc Hl] Hgs IH]; cbn; [constructor|]. cbn in Hn. apply NoDup_cons in Hn as [Hni Hn].
  rewrite fmap_app. apply NoDup_app. splits; [done| |by apply IH]. intros k Hk Hk'.
  apply list_elem_of_fmap in Hk as (kv & -> & Hkv), Hk' as (kv' & He & Hkv'). cbn in Hc. rewrite Forall_forall in Hc. rewrite Forall_forall in Hgs. pose proof (Hc _ Hkv) as H1.
  apply list_elem_of_In, in_concat in Hkv' as (l' & Hl' & Hin). apply list_elem_of_In, list_elem_of_fmap in Hl' as (g & -> & Hgin).
  destruct (Hgs g Hgin) as [Hgc _]. rewrite Forall_forall in Hgc. pose proof (Hgc kv' (proj2 (list_elem_of_In _ _) Hin)) as H2.
  apply Hni, list_elem_of_fmap. exists g. split; [congruence|done].
Qed.

Lemma prefix_class P k : P `prefix_of` k → (4 < length P)%nat → class k = class P.
Proof. intros [t ->] Hl. unfold class. rewrite !lookup_app_l by lia. done. Qed.

(** Selecting by a prefix selects one group. *)
Lemma filter_group P (gs : list ((option Z * option Z) * list KV)) l :
  (4 < length P)%nat → NoDup gs.*1 → Forall (fun g => group_ok g.1 g.2) gs → (class P, l) ∈ gs → Forall (fun kv => P `prefix_of` kv.1) l →
  filter (fun kv => P `prefix_of` kv.1) (concat gs.*2) = l.
Proof.
  intros HP Hn Hg Hin Hl. induction Hg as [|[c l'] gs [Hc _] Hgs IH]; [by apply not_elem_of_nil in Hin|]. cbn in Hn |- *.
  apply NoDup_cons in Hn as [Hni Hn]. rewrite filter_app.
  apply elem_of_cons in Hin as [Heq|Hin].
  - injection Heq as <- <-. rewrite filter_all by (by apply Forall_forall). rewrite filter_none; [by rewrite app_nil_r|].
    intros kv Hkv Hpre. apply prefix_class in Hpre; [|done]. apply list_elem_of_In, in_concat in Hkv as (l2 & Hl2 & Hin2).
    apply list_elem_of_In, list_elem_of_fmap in Hl2 as (g & -> & Hgin). rewrite Forall_forall in Hgs. destruct (Hgs g Hgin) as [Hgc _].
    rewrite Forall_forall in Hgc. pose proof (Hgc kv (proj2 (list_elem_of_In _ _) Hin2)) as Hk. cbn in Hk. apply Hni, list_elem_of_fmap. exists g. split; [congruence|done].
  - rewrite filter_none, app_nil_l; [by apply IH|]. intros kv Hkv Hpre. apply prefix_class in Hpre; [|done].
    cbn in Hc. rewrite Forall_forall in Hc. assert (class kv.1 = c) as Hk by exact (Hc kv Hkv). apply Hni, list_elem_of_fmap. exists (class P, l). split; [cbn [fst]; congruence|done].
Qed.

(** ** The map that the guest builds *)
Definition put_kv (m : Fields) (kv : KV) : Fields := <[kv.1 := kv.2]> m.
Lemma add_parts kvs m :
  Forall (fun kv : KV => Forall (fun c => c ≠ 61) kv.1) kvs → foldl add_field m (part <$> kvs) = foldl put_kv m kvs.
Proof.
  intros Hk. revert m. induction Hk as [|[k v] kvs Hk _ IH]; intros m; [done|]. cbn [fmap list_fmap foldl]. rewrite <- IH. f_equal.
  unfold add_field, part. cbn [fst snd]. by rewrite cut_eq_app.
Qed.
Lemma put_all_perm kvs m :
  NoDup kvs.*1 → (∀ k, k ∈ kvs.*1 → m !! k = None) → map_to_list (foldl put_kv m kvs) ≡ₚ kvs ++ map_to_list m.
Proof.
  revert m. induction kvs as [|[k v] kvs IH]; intros m Hn Hm; [done|]. cbn in Hn, Hm. apply NoDup_cons in Hn as [Hk Hn].
  cbn [foldl]. rewrite IH; [|done|].
  - unfold put_kv. cbn [fst snd]. rewrite map_to_list_insert by (apply Hm; left). by rewrite <- Permutation_middle.
  - intros k' Hk'. unfold put_kv. cbn [fst snd]. rewrite lookup_insert_ne by (by intros ->). apply Hm. by right.
Qed.

Definition gc_prefix : list Z := sbytes "gc.".
(** Arguments of the kernel itself. *)
Definition base_ok (arg : list Z) : Prop := field_ok arg ∧ ¬ gc_prefix `prefix_of` (cut_eq arg).1.
Lemma base_keys base k v : Forall base_ok base → foldl add_field ∅ base !! k = Some v → ¬ gc_prefix `prefix_of` k.
Proof.
  intros Hb. assert (∀ m : Fields, (∀ k v, m !! k = Some v → ¬ gc_prefix `prefix_of` k) → foldl add_field m base !! k = Some v → ¬ gc_prefix `prefix_of` k) as Hgen.
  { induction Hb as [|a base [_ Ha] _ IH]; intros m Hm; [apply Hm|]. apply IH. intros k' v'. unfold add_field.
    destruct (cut_eq a) as [ka [va|]]; cbn in Ha; intros [[<- _]|[_ Hl]]%lookup_insert_Some; eauto. }
  apply Hgen. intros k' v'. by rewrite lookup_empty.
Qed.

Section decode.
Context (kvs : list KV) (base : list (list Z)).
Context (Hnd : NoDup kvs.*1) (Hgc : Forall (fun kv : KV => gc_prefix `prefix_of` kv.1) kvs) (Hbase : Forall base_ok base).
Let m : Fields := foldl put_kv (foldl add_field ∅ base) kvs.

Lemma fields_perm : map_to_list m ≡ₚ kvs ++ map_to_list (foldl add_field ∅ base).
Proof.
  apply put_all_perm; [done|]. intros k (kv & -> & Hkv)%list_elem_of_fmap. rewrite Forall_forall in Hgc. specialize (Hgc _ Hkv).
  destruct (foldl add_field ∅ base !! kv.1) as [v|] eqn:E; [|done]. by apply base_keys in E.
Qed.
Lemma fields_lookup k v : gc_prefix `prefix_of` k → m !! k = Some v ↔ (k, v) ∈ kvs.
Proof.
  intros Hk. rewrite <- elem_of_map_to_list, fields_perm, elem_of_app. split; [|by left]. intros [H|H]; [done|].
  apply elem_of_map_to_list, base_keys in H; done.
Qed.
Lemma with_prefix_perm P : gc_prefix `prefix_of` P → with_prefix m P ≡ₚ filter (fun kv => P `prefix_of` kv.1) kvs.
Proof.
  intros HP. unfold with_prefix. rewrite fields_perm, filter_app, (filter_none _ (map_to_list _)); [by rewrite app_nil_r|].
  intros [k v] Hkv%elem_of_map_to_list Hpre. cbn in Hpre. apply base_keys in Hkv; [|done]. apply Hkv. by etrans.
Qed.
End decode.

Lemma mapM_omap {A B} (f : A → option B) l r : mapM f l = Some r → r = omap f l.
Proof.
  revert r. induction l as [|x l IH]; intros r; cbn; [by intros [= <-]|]. destruct (f x) as [y|]; cbn; [|done].
  destruct (mapM f l) as [k|]; cbn; [|done]. intros [= <-]. f_equal. by apply IH.
Qed.
Lemma mapM_perm {A B} (f : A → option B) l l' r : l' ≡ₚ l → mapM f l = Some r → ∃ r', mapM f l' = Some r' ∧ r' ≡ₚ r.
Proof.
  intros Hp Hm. assert (is_Some (mapM f l')) as [r' Hr'].
  { apply mapM_is_Some. rewrite Hp. apply mapM_is_Some. eauto. }
  exists r'. split; [done|]. rewrite (mapM_omap f l r), (mapM_omap f l' r') by done. by rewrite Hp.
Qed.

Definition numbered {A} (values : list A) : list (Z * A) := imap (fun i v => (Z.of_nat i, v)) values.
Lemma numbered_lookup {A} (values : list A) i x : numbered values !! i = Some x → ∃ v, values !! i = Some v ∧ x = (Z.of_nat i, v).
Proof. unfold numbered. rewrite list_lookup_imap. intros (v & Hv & ->)%fmap_Some. eauto. Qed.
#[export] Instance by_index_trans {A} : Transitive (@by_index A).
Proof. intros x y z. unfold by_index. lia. Qed.
#[export] Instance by_index_total {A} : Total (@by_index A).
Proof. intros x y. unfold by_index. lia. Qed.
Lemma numbered_sorted {A} (values : list A) : StronglySorted by_index (numbered values).
Proof.
  unfold numbered. assert (∀ k, StronglySorted (@by_index A) (imap (fun i v => (Z.of_nat (k + i), v)) values)) as Hgen.
  { induction values as [|v values IH]; intros k; cbn [imap]; [constructor|]. constructor.
    - erewrite imap_ext; [apply (IH (S k))|]. intros i x _. cbn. do 2 f_equal. lia.
    - apply Forall_lookup. intros i x. rewrite list_lookup_imap. intros (w & _ & ->)%fmap_Some. unfold by_index. cbn. lia. }
  apply (Hgen 0%nat).
Qed.
Lemma in_order_perm {A} (items : list (Z * A)) values : items ≡ₚ numbered values → in_order items = Some values.
Proof.
  intros Hp. unfold in_order. cbv zeta. assert (merge_sort by_index items = numbered values) as ->.
  { apply (StronglySorted_unique_strong by_index); [|apply StronglySorted_merge_sort; apply _|apply numbered_sorted|by rewrite merge_sort_Permutation].
    intros x y Hx Hy H1 H2. rewrite merge_sort_Permutation, Hp in Hx.
    apply list_elem_of_lookup in Hx as (i & (v & Hv & ->)%numbered_lookup), Hy as (j & (w & Hw & ->)%numbered_lookup).
    unfold by_index in *. cbn in *. assert (i = j) as -> by lia. congruence. }
  assert (forallb (fun b => b) (imap (fun i item => item.1 =? Z.of_nat i) (numbered values)) = true) as ->.
  { apply forallb_forall. intros b Hb%list_elem_of_In. apply list_elem_of_lookup in Hb as (i & Hi). rewrite list_lookup_imap in Hi.
    apply fmap_Some in Hi as (x & (v & _ & ->)%numbered_lookup & ->). cbn. by rewrite Z.eqb_refl. }
  f_equal. unfold numbered. rewrite fmap_imap. apply list_eq. intros i. rewrite list_lookup_imap. by destruct (values !! i).
Qed.

(** ** One group at a time *)
Lemma index_items {A} P (enc out : A → list Z) value values :
  Forall (fun v => value (enc v) = Some (out v)) values → Z.of_nat (length values) < 2 ^ 63 →
  mapM (index_item P value) (slice_group P enc values) = Some (numbered (out <$> values)).
Proof.
  intros Hv Hl. apply mapM_Some_2. apply Forall2_same_length_lookup_2.
  { unfold slice_group, numbered. by rewrite !length_imap, length_fmap. }
  intros i x y. unfold slice_group. rewrite list_lookup_imap. intros (v & Hi & ->)%fmap_Some (w & Hw & ->)%numbered_lookup.
  rewrite list_lookup_fmap, Hi in Hw. injection Hw as <-. apply lookup_lt_Some in Hi as Hlt.
  unfold index_item, indexed. cbn [fst snd]. rewrite drop_app_length, Atoi_fmt by lia. cbn [mbind option_bind].
  rewrite Forall_lookup in Hv. rewrite (Hv i v Hi). done.
Qed.

Lemma split_commas_app f rest cur : Forall (fun c => c ≠ 44) f → split_commas (f ++ rest) cur = split_commas rest (cur ++ f).
Proof.
  intros Hf. revert cur. induction Hf as [|c f Hc _ IH]; intros cur; cbn [app split_commas]; [by rewrite app_nil_r|].
  rewrite (proj2 (Z.eqb_neq c 44) Hc), IH, <- app_assoc. done.
Qed.
Lemma encoded_no_comma l : bytes l → Forall (fun c => c ≠ 44) (EncodeValue l).
Proof. intros H%b64_alphabet. eapply Forall_impl; [exact H|]. intros c Hc%b64_alpha_plain. tauto. Qed.
Lemma FormatBool_ok b : Forall (fun c => c ≠ 44) (FormatBool b) ∧ ParseBool (FormatBool b) = Some b ∧ Forall plain (FormatBool b).
Proof. destruct b; (splits; [apply (bool_decide_unpack _); vm_compute; exact I|reflexivity|repeat constructor; done]). Qed.
Definition mount_ok (m : SharedFSMount) : Prop := bytes (sm_Tag m) ∧ bytes (sm_Target m).
Lemma decode_encode_mount m : mount_ok m → decode_mount (encode_mount m) = Some m.
Proof.
  intros [Ht Hg]. destruct (FormatBool_ok (sm_ReadOnly m)) as (Hb & Hp & _). unfold decode_mount, encode_mount. cbn [join].
  rewrite split_commas_app by (by apply encoded_no_comma). cbn [app split_commas]. change (44 =? 44) with true. cbv iota.
  rewrite split_commas_app by (by apply encoded_no_comma). cbn [app split_commas]. change (44 =? 44) with true. cbv iota.
  rewrite <- (app_nil_r (FormatBool _)), split_commas_app by done. cbn [app split_commas].
  rewrite !DecodeValue_EncodeValue by done. cbn [mbind option_bind]. rewrite Hp. by destruct m.
Qed.

(** ** The keys and values are plain fields *)
Definition key_ok (k : list Z) : Prop := Forall (fun c => plain c ∧ c ≠ 61) k ∧ gc_prefix `prefix_of` k.
Definition kv_ok (kv : KV) : Prop := key_ok kv.1 ∧ Forall plain kv.2.
#[export] Instance plain_dec c : Decision (plain c).
Proof. unfold plain. apply _. Defined.
#[export] Instance key_ok_dec k : Decision (key_ok k).
Proof. unfold key_ok. apply _. Defined.
Lemma fmt_digits_plain fuel n : 0 ≤ n → Forall (fun c => 48 ≤ c ≤ 57) (fmt_digits fuel 10 n).
Proof.
  revert n. induction fuel as [|fuel IH]; intros n Hn; cbn [fmt_digits]; [constructor|]. unfold digit. destruct (Z.ltb_spec n 10).
  - repeat constructor; lia.
  - apply Forall_app. split; [apply IH; mlia|]. assert (0 ≤ n mod 10 < 10) by mlia. lt_is true. repeat constructor; lia.
Qed.
Lemma indexed_ok P i : key_ok P → key_ok (indexed P i).
Proof.
  intros [Hp Hg]. unfold indexed. split; [|by apply prefix_app_r]. apply Forall_app. split; [done|].
  eapply Forall_impl; [apply fmt_digits_plain; lia|]. intros c Hc. cbn in Hc. unfold plain, isSpace. repeat (or_is false). split; [split; [done|lia]|lia].
Qed.
Lemma part_field_ok kv : kv_ok kv → field_ok (part kv).
Proof.
  destruct kv as [k v]. intros [[Hk _] Hv]. cbn in *. unfold part, key_value. cbn [fst snd]. split; [by destruct k|].
  apply Forall_app. split; [eapply Forall_impl; [exact Hk|naive_solver]|]. constructor; [by repeat constructor|done].
Qed.
Lemma encoded_plain l : bytes l → Forall plain (EncodeValue l).
Proof. intros H%b64_alphabet. eapply Forall_impl; [exact H|]. intros c Hc%b64_alpha_plain. split; tauto. Qed.
Lemma encode_mount_plain m : mount_ok m → Forall plain (encode_mount m).
Proof.
  intros [Ht Hg]. unfold encode_mount. cbn [join]. rewrite !Forall_app. destruct (FormatBool_ok (sm_ReadOnly m)) as (_ & _ & Hb).
  splits; try (by apply encoded_plain); try done; repeat constructor; done.
Qed.

Record spec_ok (s : GuestSpec) : Prop := {
  so_exec : bytes (p_Exec (gs_Process s)); so_args : Forall bytes (p_Args (gs_Process s)); so_env : Forall bytes (gs_Env s);
  so_hosts : Forall bytes (gs_Hosts s); so_fs : Forall mount_ok (gs_SharedFS s); so_workdir : bytes (gs_WorkDir s); so_user : bytes (gs_User s);
  so_len : zlen (p_Args (gs_Process s)) < 2 ^ 63 ∧ zlen (gs_Env s) < 2 ^ 63 ∧ zlen (gs_Hosts s) < 2 ^ 63 ∧ zlen (gs_SharedFS s) < 2 ^ 63
}.

Lemma opt_group_ok key value : key_ok key → bytes value → group_ok (class key) (opt_group key value) ∧ Forall kv_ok (opt_group key value).
Proof.
  intros Hk Hv. unfold opt_group, group_ok. destruct (_ =? 0); [repeat constructor|]. splits.
  - by repeat constructor.
  - cbn. apply NoDup_singleton.
  - repeat constructor; try apply Hk. by apply encoded_plain.
Qed.
Lemma slice_group_keys {A} P (enc : A → list Z) values : (slice_group P enc values).*1 = indexed P <$> seq 0 (length values).
Proof.
  unfold slice_group. rewrite fmap_imap. apply list_eq. intros i. rewrite list_lookup_imap, list_lookup_fmap.
  destruct (decide (i < length values)%nat).
  - rewrite lookup_seq_lt by done. destruct (lookup_lt_is_Some_2 values i) as [v ->]; done.
  - rewrite lookup_seq_ge by lia. by rewrite lookup_ge_None_2 by lia.
Qed.
Lemma slice_group_ok {A} P (enc : A → list Z) values :
  key_ok P → (4 < length P)%nat → Forall (fun v => Forall plain (enc v)) values → zlen values < 2 ^ 63 →
  group_ok (class P) (slice_group P enc values) ∧ Forall kv_ok (slice_group P enc values) ∧
  Forall (fun kv => P `prefix_of` kv.1) (slice_group P enc values).
Proof.
  intros Hk HP Hv Hl. unfold zlen in Hl. assert (∀ i kv, slice_group P enc values !! i = Some kv → P `prefix_of` kv.1 ∧ kv_ok kv) as Hi.
  { intros i kv. unfold slice_group. rewrite list_lookup_imap. intros (v & Hi & ->)%fmap_Some. cbn [fst]. split; [by apply prefix_app_r|].
    rewrite Forall_lookup in Hv. split; cbn [fst snd]; [by apply indexed_ok|by apply (Hv i v)]. }
  splits; try (apply Forall_lookup; intros i kv Hkv; by apply Hi in Hkv as [??]).
  split.
  - apply Forall_lookup. intros i kv Hkv. apply Hi in Hkv as [Hpre _]. by apply prefix_class.
  - rewrite slice_group_keys. apply NoDup_fmap_2_strong; [|apply NoDup_seq]. intros i j Hi'%elem_of_seq Hj%elem_of_seq. apply indexed_inj; lia.
Qed.

Lemma keys_const : Forall key_ok [FormatKey; ExecKey; ArgPrefix; EnvPrefix; HostPrefix; SharedFSPrefix; WorkDirKey; UserKey].
Proof. apply (bool_decide_unpack _). vm_compute. exact I. Qed.
Lemma classes_distinct s : NoDup (groups_of s).*1.
Proof. cbn [groups_of fmap list_fmap fst]. apply (bool_decide_unpack _). vm_compute. exact I. Qed.
Lemma groups_ok s : spec_ok s → Forall (fun g => group_ok g.1 g.2 ∧ Forall kv_ok g.2) (groups_of s).
Proof.
  intros []. pose proof keys_const as Hk. rewrite !Forall_cons in Hk. destruct Hk as (?&?&?&?&?&?&?&?&_).
  assert (∀ l, Forall bytes l → Forall (fun v => Forall plain (EncodeValue v)) l) as Henc by (intros; eapply Forall_impl; [done|apply encoded_plain]).
  assert (Forall (fun v => Forall plain (encode_mount v)) (gs_SharedFS s)) as Hfs by (eapply Forall_impl; [done|apply encode_mount_plain]).
  assert (group_ok (class FormatKey) [(FormatKey, FormatVersion)] ∧ Forall kv_ok [(FormatKey, FormatVersion)]) as Hfmt.
  { split; [split; [by repeat constructor|apply NoDup_singleton]|]. constructor; [|constructor]. split; [done|by repeat constructor]. }
  assert (∀ A P (enc : A → list Z) values, key_ok P → (4 < length P)%nat → Forall (fun v => Forall plain (enc v)) values → zlen values < 2 ^ 63 →
    group_ok (class P) (slice_group P enc values) ∧ Forall kv_ok (slice_group P enc values)) as Hs.
  { intros. edestruct (@slice_group_ok A) as (?&?&_); [done..|]. by split. }
  unfold groups_of. repeat (apply Forall_cons_2; cbn [fst snd]; [first [done|by apply opt_group_ok|apply Hs; [done|cbn; lia|auto|tauto]]|]). by apply Forall_nil_2.
Qed.

Definition spec_map (s : GuestSpec) (base : list (list Z)) : Fields := foldl put_kv (foldl add_field ∅ base) (spec_fields s).

Section spec.
Context (s : GuestSpec) (base : list (list Z)) (Hs : spec_ok s) (Hbase : Forall base_ok base).

Lemma spec_groups_ok : Forall (fun g => group_ok g.1 g.2) (groups_of s).
Proof. eapply Forall_impl; [by apply groups_ok|]. by intros g [? _]. Qed.
Lemma spec_kvs_ok : Forall kv_ok (spec_fields s).
Proof.
  unfold spec_fields. apply Forall_concat. apply Forall_fmap. eapply Forall_impl; [by apply groups_ok|]. by intros g [_ ?].
Qed.
Lemma spec_NoDup : NoDup (spec_fields s).*1.
Proof. apply groups_NoDup; [apply classes_distinct|apply spec_groups_ok]. Qed.
Lemma spec_gc : Forall (fun kv : KV => gc_prefix `prefix_of` kv.1) (spec_fields s).
Proof. eapply Forall_impl; [apply spec_kvs_ok|]. by intros kv [[_ ?] _]. Qed.

Lemma parse_spec : HasStructuredFields s = true → ParseKernelCmdline (join [32] (AppendKernelArgs s base)) = spec_map s base.
Proof.
  intros Hh. unfold ParseKernelCmdline. rewrite AppendKernelArgs_fields by done. rewrite SplitKernelFields_join.
  - rewrite foldl_app, add_parts; [done|]. eapply Forall_impl; [apply spec_kvs_ok|]. intros kv [[Hk _] _]. eapply Forall_impl; [exact Hk|]. naive_solver.
  - apply Forall_app. split; [eapply Forall_impl; [exact Hbase|]; by intros a [? _]|]. apply Forall_fmap.
    eapply Forall_impl; [apply spec_kvs_ok|]. apply part_field_ok.
Qed.

Lemma spec_items {A} P (enc : A → list Z) values :
  (class P, slice_group P enc values) ∈ groups_of s → key_ok P → (4 < length P)%nat → Forall (fun kv => P `prefix_of` kv.1) (slice_group P enc values) →
  with_prefix (spec_map s base) P ≡ₚ slice_group P enc values.
Proof.
  intros Hin [_ Hk] HP Hpre. unfold spec_map. rewrite with_prefix_perm by (done || apply spec_NoDup || apply spec_gc).
  unfold spec_fields. erewrite filter_group; [done|done|apply classes_distinct|apply spec_groups_ok|exact Hin|done].
Qed.
Lemma slice_prefix {A} P (enc : A → list Z) values : Forall (fun kv => P `prefix_of` kv.1) (slice_group P enc values).
Proof.
  apply Forall_lookup. intros i kv. unfold slice_group. rewrite list_lookup_imap. intros (v & Hi & ->)%fmap_Some. by apply prefix_app_r.
Qed.
Lemma decode_slice P values :
  (class P, slice_group P EncodeValue values) ∈ groups_of s → key_ok P → (4 < length P)%nat → Forall bytes values → zlen values < 2 ^ 63 →
  decodeIndexedSlice (spec_map s base) P = Some values.
Proof.
  intros Hin Hk HP Hv Hl. unfold decodeIndexedSlice.
  destruct (mapM_perm (index_item P DecodeValue) _ _ _ (spec_items P EncodeValue values Hin Hk HP (slice_prefix _ _ _)) (index_items P EncodeValue id DecodeValue values (Forall_impl _ _ _ Hv DecodeValue_EncodeValue) Hl)) as (items & -> & Hp).
  cbn [mbind option_bind]. rewrite list_fmap_id in Hp. by apply in_order_perm.
Qed.
Lemma decode_mounts P values :
  (class P, slice_group P encode_mount values) ∈ groups_of s → key_ok P → (4 < length P)%nat → Forall mount_ok values → zlen values < 2 ^ 63 →
  decodeIndexedSharedFS (spec_map s base) P = Some values.
Proof.
  intros Hin Hk HP Hv Hl. unfold decodeIndexedSharedFS.
  destruct (mapM_perm (index_item P Some) _ _ _ (spec_items P encode_mount values Hin Hk HP (slice_prefix _ _ _)) (index_items P encode_mount encode_mount Some values (Forall_true _ _ (fun v => eq_refl)) Hl)) as (items & -> & Hp).
  cbn [mbind option_bind]. rewrite (in_order_perm _ _ Hp). cbn [mbind option_bind]. apply mapM_Some_fmap.
  eapply Forall_impl; [exact Hv|]. apply decode_encode_mount.
Qed.

Lemma spec_lookup k v : gc_prefix `prefix_of` k → spec_map s base !! k = Some v ↔ (k, v) ∈ spec_fields s.
Proof. apply fields_lookup; [apply spec_NoDup|apply spec_gc|done]. Qed.
Lemma group_member c l (kv : KV) : (c, l) ∈ groups_of s → class kv.1 = c → kv ∈ spec_fields s ↔ kv ∈ l.
Proof.
  intros Hin Hc. pose proof spec_groups_ok as Hg. rewrite Forall_forall in Hg. unfold spec_fields. rewrite list_elem_of_In, in_concat. split.
  - intros (l' & Hl' & Hkv). apply list_elem_of_In, list_elem_of_fmap in Hl' as ([c' l''] & -> & Hin'). cbn in Hkv |- *. apply list_elem_of_In in Hkv.
    destruct (Hg _ Hin') as [Hc' _]. cbn in Hc'. rewrite Forall_forall in Hc'. assert (c' = c) as -> by (rewrite <- (Hc' _ Hkv); done).
    assert (l'' = l) as <-; [|done]. pose proof (classes_distinct s) as Hn.
    apply list_elem_of_lookup in Hin as [i Hi], Hin' as [j Hj].
    assert (i = j) as -> by (eapply (NoDup_lookup _ i j c Hn); rewrite list_lookup_fmap; [by rewrite Hi|by rewrite Hj]). congruence.
  - intros Hkv. exists l. split; [|by apply list_elem_of_In]. apply list_elem_of_In, list_elem_of_fmap. by exists (c, l).
Qed.
Lemma decode_opt key value :
  (class key, opt_group key value) ∈ groups_of s → key_ok key → bytes value → decode_optional (spec_map s base) key = Some value.
Proof.
  intros Hin [_ Hk] Hv. unfold decode_optional.
  assert (∀ v, spec_map s base !! key = Some v ↔ (key, v) ∈ opt_group key value) as Hm.
  { intros v. rewrite spec_lookup by done. by apply (group_member (class key)). }
  unfold opt_group in Hm. destruct (Z.eqb_spec (zlen value) 0) as [Hz|Hz].
  - destruct value; [|rewrite zlen_cons in Hz; pose proof (zlen_nonneg value); lia]. destruct (_ !! key) as [v|]; [|done].
    specialize (Hm v). apply proj1 in Hm. by apply not_elem_of_nil in Hm.
  - rewrite (proj2 (Hm (EncodeValue value))) by left. pose proof (DecodeValue_EncodeValue value Hv) as He.
    destruct (EncodeValue value) eqn:E; [|done]. injection He as <-. done.
Qed.
End spec.

(** ** Quoted commands *)
Definition quoted (arg : list Z) : list Z := [39] ++ arg ++ [39].
Lemma split_command_single arg rest fields cur :
  Forall (fun c => c ≠ 39) arg →
  split_command (arg ++ rest) fields cur true false false = split_command rest fields (cur ++ arg) true false false.
Proof.
  intros Ha. revert cur. induction Ha as [|c arg Hc _ IH]; intros cur; [by rewrite app_nil_r|].
  cbn [app split_command]. rewrite (proj2 (Z.eqb_neq c 39) Hc). cbn [negb andb]. rewrite (cons_middle c cur arg), app_assoc, <- IH.
  by destruct (c =? 92), (c =? 34).
Qed.
(** Arguments in single quotes come back as they are, whatever else they hold;
    an empty one is lost. *)
Lemma SplitCommandLine_quoted args :
  Forall (fun arg => Forall (fun c => c ≠ 39) arg) args →
  SplitCommandLine (join [32] (quoted <$> args)) = Ok (filter (fun arg => arg ≠ []) args).
Proof.
  intros Ha. unfold SplitCommandLine.
  enough (∀ fields, split_command (join [32] (quoted <$> args)) fields [] false false false = Ok (fields ++ filter (fun arg => arg ≠ []) args)) as H by apply H.
  induction Ha as [|arg args Hc Ha IH]; intros fields; cbn [fmap list_fmap join split_command orb].
  - cbn. by rewrite app_nil_r.
  - assert (∀ rest, split_command (quoted arg ++ rest) fields [] false false false = split_command rest fields arg false false false) as Hq.
    { intros rest. unfold quoted. rewrite <- !app_assoc. cbn [app split_command]. change (39 =? 92) with false. change (39 =? 39) with true. cbv iota.
      cbn [negb]. rewrite split_command_single by done. cbn [app split_command]. done. }
    assert (flush_field fields arg ++ filter (fun arg => arg ≠ []) args = fields ++ filter (fun arg => arg ≠ []) (arg :: args)) as Hf.
    { unfold flush_field. destruct (Z.eqb_spec (zlen arg) 0) as [Hz|Hz].
      - destruct arg; [by rewrite filter_cons_False by naive_solver|]. rewrite zlen_cons in Hz. pose proof (zlen_nonneg arg). lia.
      - rewrite filter_cons_True by (by intros ->). by rewrite <- app_assoc. }
    rewrite <- Hf. destruct args as [|arg' args].
    + cbn [fmap list_fmap]. rewrite <- (app_nil_r (quoted arg)), Hq. cbn. by rewrite app_nil_r.
    + cbn [fmap list_fmap] in IH |- *. rewrite Hq. set (l := join [32] (_ :: _)) in *. cbn [app split_command].
      change (32 =? 92) with false. change (32 =? 39) with false. change (32 =? 34) with false. change (isSpace 32) with true. cbn [negb andb]. apply IH.
Qed.


Definition sample_spec : GuestSpec :=
  mkSpec (mkProcSpec (sbytes "/bin/sh") [sbytes "-c"; sbytes "echo a b=c"; []]) [sbytes "A=1 2"] [] [mkMount (sbytes "v0") (sbytes "/data,x") true]
    (sbytes "/w") [] [] (mkExecConfig false 0).
