(* ===== verification/Patch.v ===== *)
(** * Sequences of memory writes

    Guest memory is prepared by many small stores.  A sequence of them is a list
    of addresses with bytes; the lemmas say what memory holds afterwards, what is
    unchanged, and when the order of the stores does not matter. *)
From S2P Require Import Prelude Acpi.

Notation write := (Z * list Z)%type.
Fixpoint writes (ws : list write) (mem : list Z) : option (list Z) :=
  match ws with
  | [] => Some mem
  | (a, bs) :: ws => mem ← splice mem a bs; writes ws mem
  end.

Definition write_in (n : Z) (w : write) : Prop := 0 ≤ w.1 ∧ w.1 + zlen w.2 ≤ n.
(** The store does not touch the range. *)
Definition clear_of (lo hi : Z) (w : write) : Prop := hi ≤ w.1 ∨ w.1 + zlen w.2 ≤ lo.

(** A property of each store of an explicit list. *)
Ltac each_write tac := repeat first [apply Forall_nil_2 | apply Forall_cons_2; [tac|]].

Lemma writes_app ws1 ws2 mem : writes (ws1 ++ ws2) mem = (mem ← writes ws1 mem; writes ws2 mem).
Proof. revert mem. induction ws1 as [|[a bs] ws1 IH]; intros mem; cbn; [done|]. destruct (splice mem a bs); [apply IH|done]. Qed.
Lemma writes_len ws mem mem' : writes ws mem = Some mem' → zlen mem' = zlen mem.
Proof.
  revert mem. induction ws as [|[a bs] ws IH]; intros mem; cbn; [by intros [= ->]|]. destruct (splice mem a bs) as [m|] eqn:E; [|done].
  cbn. intros ->%IH. by eapply splice_len.
Qed.
Lemma writes_ok ws mem : Forall (write_in (zlen mem)) ws → ∃ mem', writes ws mem = Some mem' ∧ zlen mem' = zlen mem.
Proof.
  revert mem. induction ws as [|[a bs] ws IH]; intros mem Hw; cbn; [by exists mem|]. inversion Hw as [|? ? [H0 H1] Hws]; subst. cbn in H0, H1.
  destruct (splice_ok mem a bs H0 H1) as [m E]. pose proof (splice_len _ _ _ _ E) as Hl. rewrite E. cbn. destruct (IH m) as (m' & Hm & Hl').
  - by rewrite Hl.
  - exists m'. split; [done|lia].
Qed.
Lemma writes_inv ws mem mem' : writes ws mem = Some mem' → Forall (write_in (zlen mem)) ws.
Proof.
  revert mem. induction ws as [|[a bs] ws IH]; intros mem; cbn; [constructor|]. destruct (splice mem a bs) as [m|] eqn:E; [|done]. cbn.
  intros Hw%IH. rewrite (splice_len _ _ _ _ E) in Hw. constructor; [|done]. apply splice_Some in E. unfold write_in. cbn. lia.
Qed.
Lemma writes_frame ws mem mem' lo hi : writes ws mem = Some mem' → Forall (clear_of lo hi) ws → slice mem' lo hi = slice mem lo hi.
Proof.
  revert mem. induction ws as [|[a bs] ws IH]; intros mem; cbn; [by intros [= ->]|]. destruct (splice mem a bs) as [m|] eqn:E; [|done].
  cbn. intros Hm Hc. inversion Hc as [|? ? H0 Hws]; subst. rewrite (IH m) by done. eapply slice_splice_frame; [done|]. unfold clear_of in H0. cbn in H0. lia.
Qed.
(** A store that no later one touches is there at the end. *)
Lemma writes_holds ws1 a bs ws2 mem mem' :
  writes (ws1 ++ (a, bs) :: ws2) mem = Some mem' → Forall (clear_of a (a + zlen bs)) ws2 → holds mem' a bs.
Proof.
  rewrite writes_app. destruct (writes ws1 mem) as [m1|]; [|done]. cbn. destruct (splice m1 a bs) as [m|] eqn:E; [|done]. cbn. intros Hm Hc.
  unfold holds. rewrite (writes_frame _ _ _ _ _ Hm Hc). by eapply slice_splice_same.
Qed.

(** ** Bytes *)
Definition byte_of (w : write) (i : nat) : option Z := if 0 <=? w.1 then if decide (Z.to_nat w.1 ≤ i)%nat then w.2 !! (i - Z.to_nat w.1)%nat else None else None.
Lemma splice_byte mem a bs mem' i :
  splice mem a bs = Some mem' → mem' !! i = match byte_of (a, bs) i with Some b => Some b | None => mem !! i end.
Proof.
  intros E. pose proof (proj1 (proj1 (splice_Some _ _ _ _) E)) as Hb. unfold byte_of. cbn [fst snd]. le_is true.
  destruct (decide (Z.to_nat a ≤ i)%nat) as [Hi|Hi].
  - destruct (bs !! (i - Z.to_nat a)%nat) as [b|] eqn:Eb.
    + rewrite (splice_lookup_in mem a bs mem' i E) by (apply lookup_lt_Some in Eb; lia). done.
    + apply lookup_ge_None in Eb. apply (splice_lookup_out mem a bs mem' i E). lia.
  - apply (splice_lookup_out mem a bs mem' i E). lia.
Qed.
Lemma writes_byte ws mem mem' i b :
  writes ws mem = Some mem' → (∀ w b', w ∈ ws → byte_of w i = Some b' → b' = b) → (∃ w, w ∈ ws ∧ byte_of w i = Some b) → mem' !! i = Some b.
Proof.
  intros Hm Hc He. assert (mem' !! i = Some b ∨ mem' !! i = mem !! i ∧ ∀ w, w ∈ ws → byte_of w i = None) as [|[_ Hn]]; [|done|].
  - clear He. revert mem Hm. induction ws as [|[a bs] ws IH]; intros mem; cbn; [intros [= ->]; right; split; [done|]; by intros w Hw%not_elem_of_nil|].
    destruct (splice mem a bs) as [m|] eqn:E; [|done]. cbn. intros Hm.
    destruct (IH ltac:(intros w b' Hw; apply Hc; by right) m Hm) as [|[Hi Hn]]; [by left|]. rewrite Hi, (splice_byte _ _ _ _ _ E).
    destruct (byte_of (a, bs) i) as [b'|] eqn:Eb; [left; f_equal; eapply Hc; [left|done]|]. right. split; [done|].
    intros w [->|Hw]%elem_of_cons; [done|by apply Hn].
  - destruct He as (w & Hw & Hb). rewrite (Hn w Hw) in Hb. done.
Qed.
Lemma writes_byte_none ws mem mem' i : writes ws mem = Some mem' → (∀ w, w ∈ ws → byte_of w i = None) → mem' !! i = mem !! i.
Proof.
  revert mem. induction ws as [|[a bs] ws IH]; intros mem; cbn; [by intros [= ->]|]. destruct (splice mem a bs) as [m|] eqn:E; [|done]. cbn.
  intros Hm Hn. rewrite (IH m Hm) by (intros w Hw; apply Hn; by right). rewrite (splice_byte _ _ _ _ _ E), Hn by left. done.
Qed.

(** Stores that agree wherever they overlap. *)
Definition consistent (ws : list write) : Prop :=
  ∀ w w' i b b', w ∈ ws → w' ∈ ws → byte_of w i = Some b → byte_of w' i = Some b' → b = b'.
(** The same bytes are stored by both. *)
Definition same_bytes (ws ws' : list write) : Prop :=
  ∀ i b, (∃ w, w ∈ ws ∧ byte_of w i = Some b) ↔ (∃ w, w ∈ ws' ∧ byte_of w i = Some b).

(** The order, the number of times and the pieces in which consistent stores are
    made do not matter. *)
Lemma writes_same ws ws' mem mem' mem'' :
  consistent ws → same_bytes ws ws' → writes ws mem = Some mem' → writes ws' mem = Some mem'' → mem' = mem''.
Proof.
  intros Hc Hs H1 H2. apply list_eq. intros i.
  destruct (decide (Exists (fun w => is_Some (byte_of w i)) ws)) as [He|He].
  - apply Exists_exists in He as (w & Hw & [b Hb]). rewrite (writes_byte ws mem mem' i b), (writes_byte ws' mem mem'' i b); try done.
    + intros w' b' Hw' Hb'. destruct (proj2 (Hs i b')) as (w2 & Hw2 & Hb2); [eauto|]. eapply (Hc w2 w); eauto.
    + apply Hs. eauto.
    + intros w' b' Hw' Hb'. eapply (Hc w' w); eauto.
    + eauto.
  - assert (∀ w, w ∈ ws → byte_of w i = None) as Hn.
    { intros w Hw. apply eq_None_not_Some. intros Hb. apply He, Exists_exists. eauto. }
    rewrite (writes_byte_none ws mem mem' i H1 Hn). symmetry. apply (writes_byte_none ws' mem mem'' i H2).
    intros w Hw. apply eq_None_not_Some. intros [b Hb]. destruct (proj2 (Hs i b)) as (w2 & Hw2 & Hb2); [eauto|]. rewrite Hn in Hb2 by done. done.
Qed.

(** Stores to disjoint ranges are consistent. *)
Lemma byte_of_range w i b : byte_of w i = Some b → w.1 ≤ Z.of_nat i < w.1 + zlen w.2.
Proof.
  unfold byte_of. destruct (Z.leb_spec 0 w.1); [|done]. case_decide; [|done]. intros Hb%lookup_lt_Some. unfold zlen. lia.
Qed.
Lemma consistent_disjoint ws :
  (∀ w w', w ∈ ws → w' ∈ ws → w = w' ∨ w.1 + zlen w.2 ≤ w'.1 ∨ w'.1 + zlen w'.2 ≤ w.1) → consistent ws.
Proof.
  intros Hd w w' i b b' Hw Hw' Hb Hb'. destruct (Hd w w' Hw Hw') as [->|]; [congruence|].
  apply byte_of_range in Hb. apply byte_of_range in Hb'. lia.
Qed.
Lemma same_bytes_perm ws ws' : ws ≡ₚ ws' → same_bytes ws ws'.
Proof. intros Hp i b. split; intros (w & Hw & Hb); exists w; (split; [|done]); [by rewrite <- Hp|by rewrite Hp]. Qed.
(** Consistent stores are all there at the end. *)
Lemma writes_consistent_holds ws mem mem' w : consistent ws → writes ws mem = Some mem' → w ∈ ws → holds mem' w.1 w.2.
Proof.
  intros Hc Hm Hw. pose proof (writes_inv _ _ _ Hm) as Hb. rewrite Forall_forall in Hb. destruct (Hb w Hw) as [H0 H1].
  pose proof (writes_len _ _ _ Hm) as Hl. destruct (slice_ok mem' w.1 (w.1 + zlen w.2)) as [bs Hs]; [pose proof (zlen_nonneg w.2); lia|lia|].
  unfold holds. rewrite Hs. f_equal. apply list_eq. intros i. destruct (decide (i < length w.2)%nat) as [Hi|Hi].
  - rewrite (slice_lookup _ _ _ _ i Hs) by (unfold zlen; lia). destruct (lookup_lt_is_Some_2 w.2 i Hi) as [b Eb]. rewrite Eb.
    assert (byte_of w (Z.to_nat w.1 + i) = Some b) as Hbw.
    { unfold byte_of. le_is true. rewrite decide_True by lia. by replace (Z.to_nat w.1 + i - Z.to_nat w.1)%nat with i by lia. }
    eapply writes_byte; [done| |eauto]. intros w' b' Hw' Hb'. by eapply (Hc w' w).
  - rewrite !lookup_ge_None_2; [done|lia|]. apply slice_len in Hs. unfold zlen in Hs. lia.
Qed.

Lemma set_at_splice {A} (l : list A) i x : set_at l i x = splice l i [x].
Proof.
  unfold set_at, splice. change (zlen [x]) with 1. destruct (Z.leb_spec 0 i); cbn [andb]; [|done].
  destruct (Z.ltb_spec i (zlen l)), (Z.leb_spec (i + 1) (zlen l)); try lia; [|done]. f_equal. cbn [app length].
  rewrite insert_take_drop by (unfold zlen in *; lia). do 3 f_equal. lia.
Qed.
