(* ===== verification/Loader.v ===== *)
(** * Kernel images (src/internal/loader/loader.go)

    An ELF vmlinux or a bzImage is placed in guest memory.  [debug/elf] and the
    decompressors are parameters: what they make of a file may be anything.
    The segments of an ELF image are copied by concurrent goroutines; [order] is
    the order in which their copies land. *)
From stdpp Require Import sorting.
From S2P Require Import Prelude Fdt Acpi Patch.

Definition setupSects : Z := 0x1F1.
Definition bootFlag : Z := 0x1FE.
Definition headerMagic : Z := 0x202.
Definition protocolVer : Z := 0x206.
Definition typeOfLoader : Z := 0x210.
Definition loadFlags : Z := 0x211.
Definition ramdiskAddr : Z := 0x218.
Definition ramdiskSize : Z := 0x21C.
Definition heapEndPtr : Z := 0x224.
Definition payloadOffset : Z := 0x248.
Definition payloadLength : Z := 0x24C.
Definition acpiRSDPAddr : Z := 0x070.
Definition flagCanUseHeap : Z := 0x80.

Record KernelInfo := mkInfo { EntryPoint : Z; SetupBase : Z; KernelEnd : Z; Protocol : Z }.
Inductive load_err :=
  | OpenFailed | ReadFailed | UnknownFormat | BadELF | SegmentExceedsRAM | FileszTooBig | FileszExceedsRAM | SegmentsOverlap | SegmentRead
  | BzTooSmall | BadBzMagic | ProtocolTooOld | SetupOverflow | NotELFPayload | KernelTooLarge.

(** What [elf.NewFile] returns, as far as it is used. *)
Record elf_Prog := mkProg { ph_Type : Z; ph_Off : Z; ph_Paddr : Z; ph_Filesz : Z; ph_Memsz : Z }.
Record elf_File := mkELF { ef_Entry : Z; ef_Progs : list elf_Prog }.
Definition PT_LOAD : Z := 1.

(** ** ELF *)
Record loadSeg := mkSeg { ls_prog : elf_Prog; ls_start : Z; ls_end : Z }.
Definition maxUint64 : Z := 2 ^ 64 - 1.
Definition maxInt : Z := 2 ^ 63 - 1.
Definition collect_seg (mem : list Z) (ph : elf_Prog) (segs : list loadSeg) : res load_err (list loadSeg) :=
  if negb (ph_Type ph =? PT_LOAD) then Ok segs
  else if (u64 (maxUint64 - ph_Paddr ph) <? ph_Memsz ph) || (zlen mem <? u64 (ph_Paddr ph + ph_Memsz ph)) then Err SegmentExceedsRAM
  else if maxInt <? ph_Filesz ph then Err FileszTooBig
  else if (u64 (maxUint64 - ph_Paddr ph) <? ph_Filesz ph) || (zlen mem <? u64 (ph_Paddr ph + ph_Filesz ph)) then Err FileszExceedsRAM
  else Ok (segs ++ [mkSeg ph (ph_Paddr ph) (u64 (ph_Paddr ph + ph_Memsz ph))]).

(** [sort.Slice] sorts up to twelve elements by insertion, which is stable; the
    order of segments with equal starts matters only when one is empty. *)
Definition by_start : relation loadSeg := fun s t => ls_start s ≤ ls_start t.
#[export] Instance by_start_dec s t : Decision (by_start s t).
Proof. unfold by_start. apply _. Defined.
Fixpoint overlapping (segs : list loadSeg) : bool :=
  match segs with
  | s :: segs => match segs with t :: _ => (ls_start t <? ls_end s) || overlapping segs | [] => false end
  | [] => false
  end.

(** [s.prog.ReadAt(dst, 0)] through the section reader of the segment: an empty
    segment is at its end, a file that ends early gives a short read. *)
Definition read_segment (data : list Z) (s : loadSeg) (st : list Z * bool) : res load_err (list Z * bool) :=
  let '(mem, failed) := st in
  let p := ls_prog s in
  _ ← must (slice mem (ls_start s) (u64 (ls_start s + ph_Filesz p)));
  let got := take (Z.to_nat (ph_Filesz p)) (drop (Z.to_nat (ph_Off p)) data) in
  mem ← must (splice mem (ls_start s) got);
  Ok (mem, failed || (ph_Filesz p =? 0) || negb (zlen got =? ph_Filesz p)).
Definition kernel_end (segs : list loadSeg) : Z := foldl (fun kernEnd s => if kernEnd <? ls_end s then ls_end s else kernEnd) 0 segs.

(** ** Decompression *)
Inductive compression := Gzip | Bzip2 | Xz | Lzma | Lz4 | Zstd.
Definition starts_with (magic data : list Z) : bool := bool_decide (take (length magic) data = magic).

Section loader.
Context (elf_NewFile : list Z → option elf_File).
(** Whether the reader of a format can be made, and the bytes it yields up to its
    end or first error. *)
Context (comp_open : compression → list Z → bool) (comp_read : compression → list Z → list Z).
Context (order : list loadSeg → list loadSeg).

(** [None]: a segment could not be read, after others were. *)
Definition loadELF (mem data : list Z) : res load_err (list Z * option KernelInfo) :=
  match elf_NewFile data with
  | None => Err BadELF
  | Some ef =>
      segs ← for_each (collect_seg mem) (ef_Progs ef) [];
      let segs := merge_sort by_start segs in
      if overlapping segs then Err SegmentsOverlap
      else
        '(mem, failed) ← for_each (read_segment data) (order segs) (mem, false);
        if (failed : bool) then Ok (mem, None)
        else Ok (mem, Some (mkInfo (ef_Entry ef) 0x7000 (kernel_end segs) 0x020F))
  end.

Definition matchCompression (data : list Z) : option compression :=
  if zlen data <? 4 then None
  else if starts_with [0x1F; 0x8B] data then if comp_open Gzip data then Some Gzip else None
  else if starts_with [0x42; 0x5A; 0x68] data then Some Bzip2
  else if (6 <=? zlen data) && starts_with [0xFD; 0x37; 0x7A; 0x58; 0x5A; 0x00] data then if comp_open Xz data then Some Xz else None
  else if starts_with [0x5D; 0x00] data then if comp_open Lzma data then Some Lzma else None
  else if starts_with [0x02; 0x21; 0x4C; 0x18] data then Some Lz4
  else if starts_with [0x28; 0xB5; 0x2F; 0xFD] data then if comp_open Zstd data then Some Zstd else None
  else None.
Definition tryDecompress (data : list Z) : option (list Z) :=
  match matchCompression data with
  | None => None
  | Some c => let out := comp_read c data in if 0 <? zlen out then Some out else None
  end.
(** The scan over the first 64 KiB. *)
Fixpoint scan_payload (n : nat) (data : list Z) : option (list Z) :=
  match n with
  | O => None
  | S n => match tryDecompress data with Some out => Some out | None => scan_payload n (drop 1 data) end
  end.
Definition decompressKernelPayload (data precisePayload : list Z) : list Z :=
  if zlen data <? 4 then data
  else
    match (if 4 <? zlen precisePayload then tryDecompress precisePayload else None) with
    | Some out => out
    | None =>
        let scanLimit := 65536 in
        let scanLimit := if zlen data - 4 <? scanLimit then zlen data - 4 else scanLimit in
        match scan_payload (Z.to_nat scanLimit) data with Some out => out | None => data end
    end.

(** ** bzImage *)

(** The checks and the decompression that both users of a bzImage start with. *)
Definition bz_payload (data : list Z) : res load_err (list Z * Z) :=
  if zlen data <? 0x250 then Err BzTooSmall
  else
    magic ← must (getLE 4 data headerMagic);
    if negb (magic =? 0x53726448) then Err BadBzMagic
    else
      protocol ← must (getLE 2 data protocolVer);
      if protocol <? 0x0200 then Err ProtocolTooOld
      else
        setupSz ← must (at_ data setupSects);
        let setupSz := if setupSz =? 0 then 4 else setupSz in
        let setupBytes := (setupSz + 1) * 512 in
        if zlen data <=? setupBytes then Err SetupOverflow
        else
          pmKernel ← must (slice data setupBytes (zlen data));
          precise ←
            (if (0x0208 <=? protocol) && (payloadLength + 4 <? zlen data) then
              pOff ← must (getLE 4 data payloadOffset);
              pLen ← must (getLE 4 data payloadLength);
              if (0 <? pOff) && (0 <? pLen) && (pOff + pLen <=? zlen pmKernel) then must (slice pmKernel pOff (pOff + pLen)) else Ok []
            else Ok []);
          Ok (decompressKernelPayload pmKernel precise, protocol).

Definition is_ELF (data : list Z) : bool := starts_with [0x7F; 69; 76; 70] data.
Definition extractVmlinuxFromBzImage (data : list Z) : res load_err (list Z) :=
  '(decompressed, _) ← bz_payload data;
  if negb (is_ELF decompressed) then Err NotELFPayload else Ok decompressed.

Definition kernelLoadAddr : Z := 0x100000.
Definition loadBzImage (mem data : list Z) (bootParamsAddr : Z) : res load_err (list Z * KernelInfo) :=
  '(decompressed, protocol) ← bz_payload data;
  if zlen mem <? u64 (kernelLoadAddr + zlen decompressed) then Err KernelTooLarge
  else
    mem ← must (splice mem kernelLoadAddr decompressed);
    mem ← (if u64 (bootParamsAddr + 4096) <=? zlen mem then must (splice mem bootParamsAddr (take 512 data)) else Ok mem);
    mem ← must (set_at mem (u64 (bootParamsAddr + typeOfLoader)) 0xFF);
    flags ← must (at_ data loadFlags);
    mem ← (if negb (flags .& flagCanUseHeap =? 0) then
        old ← must (at_ mem (u64 (bootParamsAddr + loadFlags)));
        mem ← must (set_at mem (u64 (bootParamsAddr + loadFlags)) (old .| flagCanUseHeap));
        must (putLE 2 mem (u64 (bootParamsAddr + heapEndPtr)) 0xFE00)
      else Ok mem);
    Ok (mem, mkInfo kernelLoadAddr bootParamsAddr (kernelLoadAddr + zlen decompressed) protocol).

Definition normalizeKernelImageBytes (data : list Z) : res load_err (list Z) :=
  if (4 <=? zlen data) && is_ELF data then Ok data
  else if (0x200 <? zlen data) && bool_decide (getLE 2 data bootFlag = Some 0xAA55) then extractVmlinuxFromBzImage data
  else Err UnknownFormat.

(** The image: [None] when it cannot be opened; its bytes, and whether reading all
    of it succeeds. *)
Definition LoadKernel (mem : list Z) (kernel : option (list Z * bool)) (bootParamsAddr : Z) : res load_err (list Z * KernelInfo) :=
  match kernel with
  | None => Err OpenFailed
  | Some (data, readable) =>
      let magic := take 0x200 data in
      let n := zlen magic in
      if (4 <=? n) && is_ELF magic then
        '(mem, info) ← loadELF mem data;
        match info with Some info => Ok (mem, info) | None => Err SegmentRead end
      else if (0x200 <=? n) && bool_decide (getLE 2 magic 0x1FE = Some 0xAA55) then
        if negb readable then Err ReadFailed
        else
          vmlinux ← attempt (extractVmlinuxFromBzImage data);
          match vmlinux with
          | None => loadBzImage mem data bootParamsAddr
          | Some vmlinux =>
              r ← attempt (loadELF mem vmlinux);
              match r with
              | Some (mem, Some info) => Ok (mem, info)
              | Some (mem, None) => loadBzImage mem data bootParamsAddr
              | None => loadBzImage mem data bootParamsAddr
              end
          end
      else Err UnknownFormat
  end.
End loader.

(** ** Collecting the segments *)
Definition elf_ok (ef : elf_File) : Prop :=
  Forall (fun p => fits 64 (ph_Paddr p) ∧ fits 64 (ph_Filesz p) ∧ fits 64 (ph_Memsz p)) (ef_Progs ef).
Definition loadable (ef : elf_File) : list elf_Prog := filter (fun p => ph_Type p = PT_LOAD) (ef_Progs ef).
Definition seg_of (p : elf_Prog) : loadSeg := mkSeg p (ph_Paddr p) (ph_Paddr p + ph_Memsz p).
Definition prog_in (n : Z) (p : elf_Prog) : Prop :=
  0 ≤ ph_Paddr p ∧ 0 ≤ ph_Filesz p ∧ 0 ≤ ph_Memsz p ∧ ph_Paddr p + ph_Memsz p ≤ n ∧ ph_Paddr p + ph_Filesz p ≤ n.

Lemma collect_one mem p acc acc' :
  zlen mem < 2 ^ 63 → fits 64 (ph_Paddr p) → fits 64 (ph_Filesz p) → fits 64 (ph_Memsz p) → collect_seg mem p acc = Ok acc' →
  if decide (ph_Type p = PT_LOAD) then acc' = acc ++ [seg_of p] ∧ prog_in (zlen mem) p else acc' = acc.
Proof.
  intros Hm Hp Hf Hz. unfold fits in *. unfold collect_seg, maxUint64, maxInt. case_decide as Ht; [eq_is true|eq_is false; by intros [= ->]].
  cbn [negb]. rewrite !(u64_small (2 ^ 64 - 1 - ph_Paddr p)) by lia.
  destruct (Z.ltb_spec (2 ^ 64 - 1 - ph_Paddr p) (ph_Memsz p)); [done|]. cbn [orb]. rewrite !(u64_small (ph_Paddr p + ph_Memsz p)) by lia.
  destruct (Z.ltb_spec (zlen mem) (ph_Paddr p + ph_Memsz p)); [done|]. destruct (Z.ltb_spec (2 ^ 63 - 1) (ph_Filesz p)); [done|].
  destruct (Z.ltb_spec (2 ^ 64 - 1 - ph_Paddr p) (ph_Filesz p)); [done|]. cbn [orb]. rewrite !u64_small by lia.
  destruct (Z.ltb_spec (zlen mem) (ph_Paddr p + ph_Filesz p)); [done|]. intros [= <-]. split; [done|]. unfold prog_in. lia.
Qed.
Lemma collect_segs mem ef segs acc :
  zlen mem < 2 ^ 63 → elf_ok ef → for_each (collect_seg mem) (ef_Progs ef) acc = Ok segs →
  segs = acc ++ (seg_of <$> loadable ef) ∧ Forall (prog_in (zlen mem)) (loadable ef).
Proof.
  intros Hm. unfold elf_ok, loadable. revert acc. generalize (ef_Progs ef). intros progs. induction progs as [|p progs IH]; intros acc Hok; cbn [for_each].
  - intros [= <-]. by rewrite app_nil_r.
  - inversion Hok as [|? ? (Hp & Hf & Hz) Hps]; subst. destruct (collect_seg mem p acc) as [a| | |] eqn:E; [|done..]. cbn [mbind res_bind].
    intros [-> Hin]%IH; [|done]. apply collect_one in E; [|done..]. rewrite filter_cons. case_decide; [destruct E as [-> E]|by subst].
    split; [by rewrite <- app_assoc|by constructor].
Qed.
Lemma collect_completes mem progs acc : completes (for_each (collect_seg mem) progs acc).
Proof.
  revert acc. induction progs as [|p progs IH]; intros acc; cbn [for_each]; [done|]. apply completes_bind; [|intros; apply IH].
  unfold collect_seg. cases; done.
Qed.

(** ** Copying them *)
Definition seg_data (data : list Z) (p : elf_Prog) : list Z := take (Z.to_nat (ph_Filesz p)) (drop (Z.to_nat (ph_Off p)) data).
Definition seg_write (data : list Z) (s : loadSeg) : write := (ls_start s, seg_data data (ls_prog s)).
Definition seg_bad (data : list Z) (s : loadSeg) : bool := (ph_Filesz (ls_prog s) =? 0) || negb (zlen (seg_data data (ls_prog s)) =? ph_Filesz (ls_prog s)).
Lemma zlen_seg_data data p : 0 ≤ ph_Filesz p → zlen (seg_data data p) ≤ ph_Filesz p.
Proof. intros. unfold seg_data, zlen. rewrite length_take. lia. Qed.

Lemma read_one data p mem failed :
  zlen mem < 2 ^ 63 → prog_in (zlen mem) p →
  ∃ m, read_segment data (seg_of p) (mem, failed) = Ok (m, failed || seg_bad data (seg_of p)) ∧ splice mem (ph_Paddr p) (seg_data data p) = Some m.
Proof.
  intros Hm (H0 & H1 & H2 & H3 & H4). pose proof (zlen_seg_data data p H1) as Hz. pose proof (zlen_nonneg (seg_data data p)).
  unfold read_segment. cbn [seg_of ls_prog ls_start]. rewrite u64_small by lia.
  destruct (slice_ok mem (ph_Paddr p) (ph_Paddr p + ph_Filesz p)) as [bs ->]; [lia|lia|]. cbn [must mbind res_bind]. fold (seg_data data p).
  destruct (splice_ok mem (ph_Paddr p) (seg_data data p)) as [m E]; [lia|lia|]. exists m. rewrite E. split; [|done]. cbn [must mbind res_bind].
  unfold seg_bad. cbn [seg_of ls_prog]. by rewrite <- orb_assoc.
Qed.
Lemma read_segments data ps : ∀ mem failed,
  zlen mem < 2 ^ 63 → Forall (prog_in (zlen mem)) ps →
  ∃ mem', for_each (read_segment data) (seg_of <$> ps) (mem, failed) = Ok (mem', failed || existsb (seg_bad data) (seg_of <$> ps)) ∧
    writes (seg_write data <$> (seg_of <$> ps)) mem = Some mem'.
Proof.
  induction ps as [|p ps IH]; intros mem failed Hm Hps; rewrite ?fmap_cons; cbn [for_each existsb].
  - exists mem. by rewrite orb_false_r.
  - inversion Hps as [|? ? Hp Hr]; subst. destruct (read_one data p mem failed Hm Hp) as (m & -> & E). cbn [mbind res_bind].
    pose proof (splice_len _ _ _ _ E) as Hl. destruct (IH m (failed || seg_bad data (seg_of p))) as (m' & Hf & Hw); [lia|by rewrite Hl|].
    exists m'. split; [by rewrite Hf, <- orb_assoc|]. cbn [writes seg_write seg_of ls_prog ls_start]. rewrite E. exact Hw.
Qed.

(** A sorted list without overlap of neighbours has none at all. *)
Lemma overlapping_sound segs :
  Forall (fun s => ls_start s ≤ ls_end s) segs → overlapping segs = false → ForallOrdPairs (fun s t => ls_end s ≤ ls_start t) segs.
Proof.
  intros Hw. induction Hw as [|s segs Hs Hw IH]; intros Ho; [constructor|]. cbn [overlapping] in Ho. destruct segs as [|t segs]; [repeat constructor|].
  apply orb_false_iff in Ho as [Hlt Ho]. apply Z.ltb_ge in Hlt. specialize (IH Ho). constructor; [|done].
  inversion IH as [|? ? Ht _]; subst. constructor; [done|]. inversion Hw; subst. eapply Forall_impl; [exact Ht|]. cbn. lia.
Qed.
Lemma ForallOrdPairs_elem {A} (R : A → A → Prop) l x y : ForallOrdPairs R l → x ∈ l → y ∈ l → x = y ∨ R x y ∨ R y x.
Proof.
  induction 1 as [|z l Hz _ IH]; [by intros ?%not_elem_of_nil|]. rewrite Forall_forall in Hz.
  intros [->|Hx]%elem_of_cons [->|Hy]%elem_of_cons; auto.
Qed.
Lemma kernel_end_max segs s : s ∈ segs → ls_end s ≤ kernel_end segs.
Proof.
  unfold kernel_end. generalize 0. induction segs as [|t segs IH]; intros k; [by intros ?%not_elem_of_nil|]. cbn [foldl].
  assert (∀ segs k, k ≤ foldl (fun kernEnd s => if kernEnd <? ls_end s then ls_end s else kernEnd) k segs) as Hmono.
  { clear. induction segs as [|s segs IH]; intros k; cbn; [lia|]. etrans; [|apply IH]. case_match; lia. }
  intros [->|Hin]%elem_of_cons; [|by apply IH]. etrans; [|apply Hmono]. case_match; lia.
Qed.
Lemma kernel_end_le segs n : 0 ≤ n → Forall (fun s => ls_end s ≤ n) segs → kernel_end segs ≤ n.
Proof.
  intros Hn Hs. unfold kernel_end. revert Hn. generalize 0. induction Hs as [|s segs Hs _ IH]; intros k Hk; cbn [foldl]; [done|]. apply IH. case_match; lia.
Qed.

(** ** A loaded ELF image *)
Record elf_loaded (mem data : list Z) (ef : elf_File) (mem' : list Z) (info : KernelInfo) : Prop := {
  el_entry : EntryPoint info = ef_Entry ef;
  el_base : SetupBase info = 0x7000;
  el_end : KernelEnd info ≤ zlen mem;
  el_fits p : p ∈ loadable ef → zlen (seg_data data p) = ph_Filesz p ∧ ph_Filesz p ≠ 0 ∧ 0 ≤ ph_Paddr p ∧ ph_Paddr p + ph_Memsz p ≤ KernelEnd info;
  el_apart p q : p ∈ loadable ef → q ∈ loadable ef → p = q ∨ ph_Paddr p + ph_Memsz p ≤ ph_Paddr q ∨ ph_Paddr q + ph_Memsz q ≤ ph_Paddr p;
  el_data p : Forall (fun q => ph_Filesz q ≤ ph_Memsz q) (loadable ef) → p ∈ loadable ef → holds mem' (ph_Paddr p) (seg_data data p);
  el_frame lo hi : (∀ p, p ∈ loadable ef → hi ≤ ph_Paddr p ∨ ph_Paddr p + ph_Filesz p ≤ lo) → slice mem' lo hi = slice mem lo hi
}.

Section correct.
Context (elf_NewFile : list Z → option elf_File) (comp_open : compression → list Z → bool) (comp_read : compression → list Z → list Z).
Context (order : list loadSeg → list loadSeg).
Context (Hparse : ∀ d ef, elf_NewFile d = Some ef → elf_ok ef) (Horder : ∀ l, order l ≡ₚ l).

Lemma sorted_disjoint ps p q :
  Forall (fun p => 0 ≤ ph_Memsz p) ps → overlapping (merge_sort by_start (seg_of <$> ps)) = false → p ∈ ps → q ∈ ps →
  p = q ∨ ph_Paddr p + ph_Memsz p ≤ ph_Paddr q ∨ ph_Paddr q + ph_Memsz q ≤ ph_Paddr p.
Proof.
  intros Hm Ho Hp Hq. apply overlapping_sound in Ho.
  - destruct (ForallOrdPairs_elem _ _ (seg_of p) (seg_of q) Ho) as [He|[Hle|Hle]]; try (cbn in Hle; by auto).
    + rewrite merge_sort_Permutation. by apply list_elem_of_fmap_2.
    + rewrite merge_sort_Permutation. by apply list_elem_of_fmap_2.
    + left. by injection He.
  - rewrite merge_sort_Permutation. apply Forall_fmap. eapply Forall_impl; [exact Hm|]. cbn. lia.
Qed.

Lemma loadELF_sat mem data :
  zlen mem < 2 ^ 63 →
  res_sat (fun r => zlen r.1 = zlen mem ∧ ∀ info, r.2 = Some info → ∃ ef, elf_NewFile data = Some ef ∧ elf_loaded mem data ef r.1 info)
    (loadELF elf_NewFile order mem data).
Proof.
  intros Hm. unfold loadELF. destruct (elf_NewFile data) as [ef|] eqn:Hp; [|done]. apply sat_bind_completes; [apply collect_completes|].
  intros segs [Hs Hin]%collect_segs; [|done|by eapply Hparse]. cbn in Hs. subst segs. cbv zeta. destruct (overlapping _) eqn:Ho; [done|].
  set (sorted := merge_sort by_start (seg_of <$> loadable ef)) in *.
  assert (order sorted ≡ₚ seg_of <$> loadable ef) as Hperm by (rewrite Horder; apply merge_sort_Permutation).
  apply Permutation_map_inv in Hperm as (ps & Hps & Hperm). change (map seg_of ps) with (seg_of <$> ps) in Hps. rewrite Hps.
  destruct (read_segments data ps mem false Hm) as (mem' & -> & Hw); [by rewrite <- Hperm|]. cbn [mbind res_bind orb].
  pose proof (writes_len _ _ _ Hw) as Hl. destruct (existsb _ _) eqn:Hbad; [by split|]. cbn. split; [done|]. intros info [= <-]. exists ef. split; [done|].
  assert (∀ p, p ∈ loadable ef → zlen (seg_data data p) = ph_Filesz p ∧ ph_Filesz p ≠ 0) as Hz0.
  { intros p Hpin. rewrite <- not_true_iff_false, existsb_exists in Hbad. destruct (seg_bad data (seg_of p)) eqn:Eb.
    - exfalso. apply Hbad. exists (seg_of p). split; [apply list_elem_of_In, list_elem_of_fmap_2; by rewrite <- Hperm|done].
    - unfold seg_bad in Eb. cbn [seg_of ls_prog] in Eb. b2p. lia. }
  assert (∀ p, p ∈ loadable ef → zlen (seg_data data p) = ph_Filesz p) as Hz by (intros p Hpin; by apply Hz0).
  assert (Forall (fun p => 0 ≤ ph_Memsz p) (loadable ef)) as Hmem by (eapply Forall_impl; [exact Hin|]; unfold prog_in; cbn; lia).
  rewrite Forall_forall in Hin. split; try done; cbn [KernelEnd EntryPoint SetupBase].
  - apply kernel_end_le; [apply zlen_nonneg|]. unfold sorted. rewrite merge_sort_Permutation. apply Forall_fmap, Forall_forall. intros p Hpin. apply Hin in Hpin. cbn. unfold prog_in in Hpin. lia.
  - intros p Hpin. splits; [by apply Hz|by apply Hz0|by apply Hin in Hpin as (? & _)|]. apply (kernel_end_max sorted (seg_of p)). unfold sorted. rewrite merge_sort_Permutation. by apply list_elem_of_fmap_2.
  - intros p q. by apply sorted_disjoint.
  - intros p Hfm Hpin. rewrite Forall_forall in Hfm. apply (writes_consistent_holds _ _ _ (seg_write data (seg_of p))) in Hw; [done| |].
    + apply consistent_disjoint. intros w w' (s & -> & (q & -> & Hq)%list_elem_of_fmap)%list_elem_of_fmap (s' & -> & (q' & -> & Hq')%list_elem_of_fmap)%list_elem_of_fmap.
      rewrite <- Hperm in Hq, Hq'. cbn. rewrite !Hz by done. pose proof (Hfm q Hq). pose proof (Hfm q' Hq').
      destruct (sorted_disjoint (loadable ef) q q' Hmem Ho Hq Hq') as [->|]; [by left|]. lia.
    + do 2 apply list_elem_of_fmap_2. by rewrite <- Hperm.
  - intros lo hi Hc. apply (writes_frame _ _ _ lo hi Hw). apply Forall_fmap, Forall_fmap, Forall_forall. intros p Hpin. rewrite <- Hperm in Hpin.
    specialize (Hc p Hpin). unfold clear_of. cbn. rewrite Hz by done. lia.
Qed.

(** ** A bzImage *)
Lemma getLE_bytes n data o : bytes data → 0 ≤ o → o + Z.of_nat n ≤ zlen data → ∃ v, getLE n data o = Some v ∧ 0 ≤ v.
Proof.
  intros Hb Ho Hl. destruct (slice_ok data o (o + Z.of_nat n)) as [bs Hs]; [lia|lia|]. unfold getLE. rewrite Hs. eexists. split; [reflexivity|].
  pose proof (bytes_slice _ _ _ _ Hb Hs) as Hbs. clear -Hbs. induction Hbs as [|b bs Hb _ IH]; cbn; [lia|]. unfold is_byte in Hb. lia.
Qed.
Lemma at_bytes data i : bytes data → 0 ≤ i < zlen data → ∃ v, at_ data i = Some v ∧ 0 ≤ v < 256.
Proof.
  intros Hb Hi. unfold at_. le_is true. destruct (lookup_lt_is_Some_2 data (Z.to_nat i)) as [v Hv]; [unfold zlen in Hi; lia|].
  exists v. split; [done|]. unfold bytes in Hb. rewrite Forall_lookup in Hb. exact (Hb _ _ Hv).
Qed.
Context (Hcomp : ∀ c d, zlen (comp_read c d) < 2 ^ 62).

Lemma tryDecompress_len d out : tryDecompress comp_open comp_read d = Some out → zlen out < 2 ^ 62.
Proof. unfold tryDecompress. destruct (matchCompression _ d); [|done]. cbv zeta. destruct (0 <? _); [|done]. intros [= <-]. apply Hcomp. Qed.
Lemma decompress_len data precise : zlen data < 2 ^ 62 → zlen (decompressKernelPayload comp_open comp_read data precise) < 2 ^ 62.
Proof.
  intros Hd. unfold decompressKernelPayload. destruct (_ <? 4); [done|]. destruct (if 4 <? _ then _ else _) as [out|] eqn:E.
  - destruct (4 <? zlen precise); [|done]. by eapply tryDecompress_len.
  - cbv zeta. destruct (scan_payload _ _ _ data) as [out|] eqn:Es; [|done]. revert Es. generalize (Z.to_nat (if zlen data - 4 <? 65536 then zlen data - 4 else 65536)).
    intros n. clear E Hd. revert data. induction n as [|n IH]; intros data; cbn; [done|]. destruct (tryDecompress _ _ data) eqn:E; [|apply IH].
    intros [= <-]. by eapply tryDecompress_len.
Qed.
Lemma bz_payload_sat data : bytes data → zlen data < 2 ^ 62 → res_sat (fun r => zlen r.1 < 2 ^ 62) (bz_payload comp_open comp_read data).
Proof.
  intros Hb Hd. unfold bz_payload. destruct (Z.ltb_spec (zlen data) 0x250); [done|].
  unfold headerMagic, protocolVer, setupSects, payloadOffset, payloadLength.
  destruct (getLE_bytes 4 data 0x202) as (magic & -> & _); [done|lia|lia|]. cbn [must mbind res_bind]. destruct (negb _); [done|].
  destruct (getLE_bytes 2 data 0x206) as (pv & -> & _); [done|lia|lia|]. cbn [must mbind res_bind]. destruct (pv <? _); [done|].
  destruct (at_bytes data 0x1F1) as (sz & -> & Hsz); [done|lia|]. cbn [must mbind res_bind]. cbv zeta.
  set (sb := ((if sz =? 0 then 4 else sz) + 1) * 512). assert (0 ≤ sb) by (unfold sb; case_match; lia). destruct (Z.leb_spec (zlen data) sb); [done|].
  destruct (slice_ok data sb (zlen data)) as [pm Hs]; [lia|lia|]. rewrite Hs. cbn [must mbind res_bind].
  assert (zlen pm < 2 ^ 62) by (rewrite (slice_len _ _ _ _ Hs); lia).
  assert (∀ m, completes m → res_sat (fun r => zlen r.1 < 2 ^ 62) (precise ← m; Ok (E:=load_err) (decompressKernelPayload comp_open comp_read pm precise, pv))) as Hk.
  { intros m Hc. apply sat_bind_completes; [done|]. intros a _. by apply decompress_len. }
  apply Hk. destruct (_ && _) eqn:E; [|done]. b2p. destruct (getLE_bytes 4 data 0x248) as (po & -> & Hpo); [done|lia|lia|]. cbn [must mbind res_bind].
  destruct (getLE_bytes 4 data 0x24C) as (pl & -> & Hpl); [done|lia|lia|]. cbn [must mbind res_bind].
  destruct ((0 <? po) && (0 <? pl) && (po + pl <=? zlen pm)) eqn:E'; [|done]. b2p. apply completes_must, slice_ok; lia.
Qed.

Record bz_loaded (mem data mem' : list Z) (info : KernelInfo) : Prop := {
  bl_payload : ∃ kernel protocol, bz_payload comp_open comp_read data = Ok (kernel, protocol) ∧ info = mkInfo 0x100000 0x7000 (0x100000 + zlen kernel) protocol ∧
    0x100000 + zlen kernel ≤ zlen mem ∧ holds mem' 0x100000 kernel;
  bl_frame lo hi : hi ≤ 0x7000 ∨ 0x7226 ≤ lo → hi ≤ 0x100000 ∨ KernelEnd info ≤ lo → slice mem' lo hi = slice mem lo hi
}.

Lemma loadBzImage_sat mem data :
  bytes data → zlen data < 2 ^ 62 → zlen mem < 2 ^ 63 →
  res_sat (fun r => zlen r.1 = zlen mem ∧ bz_loaded mem data r.1 r.2) (loadBzImage comp_open comp_read mem data 0x7000).
Proof.
  intros Hb Hd Hm. unfold loadBzImage. pose proof (bz_payload_sat data Hb Hd) as Hs. destruct (bz_payload _ _ data) as [[kernel pv]| | |] eqn:Ep; try done.
  cbn in Hs. cbn [mbind res_bind]. unfold kernelLoadAddr. pose proof (zlen_nonneg kernel). rewrite u64_small by lia.
  destruct (Z.ltb_spec (zlen mem) (0x100000 + zlen kernel)); [done|].
  assert (zlen (take 512 data) = 512) as H512.
  { unfold bz_payload in Ep. destruct (Z.ltb_spec (zlen data) 0x250); [done|]. unfold zlen in *. rewrite length_take. lia. }
  assert (∃ flags, at_ data loadFlags = Some flags) as [flags Hf].
  { unfold bz_payload in Ep. destruct (Z.ltb_spec (zlen data) 0x250); [done|]. apply at_ok. unfold loadFlags. lia. }
  set (ws := [(0x100000, kernel); (0x7000, take 512 data); (0x7210, [0xFF])]).
  assert (∃ m1 m2 m3, splice mem 0x100000 kernel = Some m1 ∧ splice m1 0x7000 (take 512 data) = Some m2 ∧ set_at m2 0x7210 0xFF = Some m3 ∧ writes ws mem = Some m3) as (m1 & m2 & m3 & E1 & E2 & E3 & Hw).
  { destruct (writes_ok ws mem) as (m3 & Hw & _).
    - repeat constructor; cbn; rewrite ?H512; change (zlen [255]) with 1; lia.
    - pose proof Hw as Hw'. cbn [writes ws] in Hw'. destruct (splice mem _ _) as [m1|] eqn:E1; [|done]. cbn [mbind option_bind] in Hw'.
      destruct (splice m1 _ _) as [m2|] eqn:E2; [|done]. cbn [mbind option_bind] in Hw'. exists m1, m2, m3. rewrite set_at_splice.
      destruct (splice m2 0x7210 [0xFF]) as [m|]; [|done]. by injection Hw' as ->. }
  pose proof (splice_len _ _ _ _ E1) as L1. rewrite E1. cbn [must mbind res_bind]. change (u64 (0x7000 + 4096)) with 0x8000. le_is true. rewrite E2. cbn [must mbind res_bind].
  change (u64 (28672 + typeOfLoader)) with 0x7210. rewrite E3. cbn [must mbind res_bind]. rewrite Hf. cbn [must mbind res_bind].
  pose proof (writes_len _ _ _ Hw) as L3. change (u64 (28672 + loadFlags)) with 0x7211. change (u64 (28672 + heapEndPtr)) with 0x7224.
  assert (∀ ws' m4, writes ws' m3 = Some m4 → Forall (fun w => 0x7000 ≤ w.1 ∧ w.1 + zlen w.2 ≤ 0x7226) ws' →
    zlen m4 = zlen mem ∧ bz_loaded mem data m4 (mkInfo 0x100000 0x7000 (0x100000 + zlen kernel) pv)) as Hfin.
  { intros ws' m4 Hw' Hin. assert (writes (ws ++ ws') mem = Some m4) as Hall by (rewrite writes_app, Hw; exact Hw'). split; [apply (writes_len _ _ _ Hall)|]. split.
    - exists kernel, pv. splits; [done|done|lia|]. apply (writes_holds [] _ _ (drop 1 (ws ++ ws')) mem m4 Hall). unfold ws. cbn [drop app].
      do 2 (constructor; [unfold clear_of; cbn [fst snd]; rewrite ?H512; change (zlen [255]) with 1; lia|]).
      eapply Forall_impl; [exact Hin|]. unfold clear_of. cbn. lia.
    - cbn [KernelEnd]. intros lo hi H1 H2. apply (writes_frame _ _ _ lo hi Hall).
      apply Forall_app. split; [unfold ws; each_write ltac:(unfold clear_of; cbn [fst snd]; rewrite ?H512; change (zlen [255]) with 1; lia)|].
      eapply Forall_impl; [exact Hin|]. unfold clear_of. cbn. lia. }
  destruct (negb _).
  - destruct (at_ok m3 0x7211) as [old ->]; [lia|]. cbn [must mbind res_bind]. set (ws' := [(0x7211, [old .| flagCanUseHeap]); (0x7224, le_encode 2 0xFE00)]).
    destruct (writes_ok ws' m3) as (m4 & Hw' & _).
    { unfold ws'; each_write ltac:(unfold write_in; cbn [fst snd]; rewrite L3; change (zlen (le_encode 2 _)) with 2 || change (zlen [_]) with 1; lia). }
    pose proof Hw' as Hw2. cbn [writes ws'] in Hw2. rewrite set_at_splice. destruct (splice m3 0x7211 _) as [m|]; [|done].
    cbn [must mbind res_bind option_bind] in Hw2 |- *. unfold putLE. destruct (splice m 0x7224 _) as [m'|]; [|done]. injection Hw2 as ->. cbn [must mbind res_bind]. apply (Hfin ws' m4); [done|].
    unfold ws'; each_write ltac:(cbn [fst snd]; change (zlen (le_encode 2 _)) with 2 || change (zlen [_]) with 1; lia).
  - cbn [mbind res_bind]. by apply (Hfin [] m3).
Qed.

Lemma extract_completes data : bytes data → zlen data < 2 ^ 62 → completes (extractVmlinuxFromBzImage comp_open comp_read data).
Proof.
  intros Hb Hd. unfold extractVmlinuxFromBzImage. apply completes_bind; [by eapply res_sat_completes, bz_payload_sat|]. intros [d pv] _. by destruct (negb _).
Qed.

(** Where the image of a successful load came from. *)
Definition loaded (mem data mem' : list Z) (info : KernelInfo) : Prop :=
  (∃ elf ef, (elf = data ∨ extractVmlinuxFromBzImage comp_open comp_read data = Ok elf) ∧ elf_NewFile elf = Some ef ∧ elf_loaded mem elf ef mem' info) ∨
  (∃ mem0, (mem0 = mem ∨ ∃ elf, extractVmlinuxFromBzImage comp_open comp_read data = Ok elf ∧ loadELF elf_NewFile order mem elf = Ok (mem0, None)) ∧
     bz_loaded mem0 data mem' info).

End correct.

Definition sample_elf : list Z := [0x7F; 69; 76; 70; 1; 2; 3].
Definition sample_parse (d : list Z) : option elf_File :=
  if is_ELF d then Some (mkELF 2 [mkProg 1 4 2 3 5; mkProg 1 0 8 4 4]) else None.
