(* ===== verification/LongMode.v ===== *)
(** * Entering long mode (src/internal/kvm/cpu.go)

    The page tables, descriptor tables and registers a vCPU starts with.  The
    vCPUs are set up concurrently (New, src/pkg/vmm/vmm.go), each one storing the
    same tables byte by byte. *)
From S2P Require Import Prelude Mptable Fdt Acpi Patch.

Definition gdtAddr : Z := 0x500.
Definition idtAddr : Z := 0x520.

Record Segment := mkSegment {
  s_Base : Z; s_Limit : Z; s_Selector : Z; s_Type : Z; s_Present : Z; s_DPL : Z; s_DB : Z; s_S : Z; s_L : Z; s_G : Z; s_AVL : Z; s_Unusable : Z
}.
Record DTTR := mkDTTR { dt_Base : Z; dt_Limit : Z }.
Record Sregs := mkSregs {
  r_CS : Segment; r_DS : Segment; r_ES : Segment; r_FS : Segment; r_GS : Segment; r_SS : Segment; r_TR : Segment; r_LDT : Segment;
  r_GDT : DTTR; r_IDT : DTTR; r_CR0 : Z; r_CR2 : Z; r_CR3 : Z; r_CR4 : Z; r_CR8 : Z; r_EFER : Z; r_ApicBase : Z; r_InterruptBitmap : list Z
}.
Record Regs := mkRegs { r_RIP : Z; r_RSI : Z; r_RFLAGS : Z; r_RSP : Z; r_RBP : Z; r_others : list Z }.

(** ** Tables *)

(** The stores of [buildPageTables], in its order. *)
Definition page_writes (base : Z) : list write :=
  let pageSize := 0x1000 in
  let flags := 0x07 in
  let hugeFlag := 0x83 in
  let pdpt := base + pageSize in
  let pd := base + 2 * pageSize in
  (base, LE 8 (pdpt .| flags)) ::
  concat ((fun i =>
    let thisPD := pd + i * pageSize in
    (pdpt + i * 8, LE 8 (thisPD .| flags)) ::
    ((fun j => (thisPD + j * 8, LE 8 ((i * 512 + j) * 0x200000 .| hugeFlag))) <$> upto 512)) <$> upto 4).
Definition buildPageTables (mem : list Z) (base : Z) : option (list Z) := writes (page_writes base) mem.

Definition gdtEntries : list Z := [0; 0x00AF9B000000FFFF; 0x00CF93000000FFFF; 0x008F8B000000FFFF].
Definition gdt_writes : list write := imap (fun i entry => (gdtAddr + Z.of_nat i * 8, LE 8 entry)) gdtEntries.
Definition long_mode_writes (base : Z) : list write := page_writes base ++ gdt_writes ++ [(idtAddr, LE 8 0)].

(** ** Registers *)
Definition codeSeg : Segment := mkSegment 0 0xFFFFF 0x08 11 1 0 0 1 1 1 0 0.
Definition dataSeg : Segment := mkSegment 0 0xFFFFF 0x10 3 1 0 1 1 0 1 0 0.
Definition taskSeg : Segment := mkSegment 0 0xFFFFF 0x18 11 1 0 0 0 0 1 0 0.
Definition long_mode_sregs (sregs : Sregs) (pageTableBase : Z) : Sregs :=
  mkSregs codeSeg dataSeg dataSeg dataSeg dataSeg dataSeg taskSeg (r_LDT sregs) (mkDTTR gdtAddr 31) (mkDTTR idtAddr 7)
    (r_CR0 sregs .| 0x80000001) (r_CR2 sregs) pageTableBase (r_CR4 sregs .| 0x20) (r_CR8 sregs) (r_EFER sregs .| 0x500)
    (r_ApicBase sregs) (r_InterruptBitmap sregs).
Definition long_mode_regs (regs : Regs) (entryPoint bootParamsAddr : Z) : Regs := mkRegs entryPoint bootParamsAddr 0x2 0x8FF0 0x8FF0 (r_others regs).

(** The answers of KVM to the four calls. *)
Record vcpu_io := mkIO { io_sregs : option Sregs; io_setSregs : bool; io_regs : option Regs; io_setRegs : bool }.
Inductive cpu_err := GetSregs | SetSregs | GetRegs | SetRegs.
Definition SetupLongMode (io : vcpu_io) (mem : list Z) (entryPoint pageTableBase bootParamsAddr : Z) : res cpu_err (list Z * (Sregs * Regs)) :=
  mem ← must (buildPageTables mem pageTableBase);
  mem ← must (writes gdt_writes mem);
  mem ← must (putLE 8 mem idtAddr 0);
  match io_sregs io with
  | None => Err GetSregs
  | Some sregs =>
      if negb (io_setSregs io) then Err SetSregs
      else
        match io_regs io with
        | None => Err GetRegs
        | Some regs =>
            if negb (io_setRegs io) then Err SetRegs
            else Ok (mem, (long_mode_sregs sregs pageTableBase, long_mode_regs regs entryPoint bootParamsAddr))
        end
  end.

(** ** The processor's view *)

(** A four-level page walk: the physical address and whether it may be written. *)
Definition walk_entry (mem : list Z) (table idx : Z) : option Z :=
  e ← getLE 8 mem (table + 8 * idx); if Z.testbit e 0 then Some e else None.
Definition frame_of (e : Z) : Z := e .& 0x000FFFFFFFFFF000.
Definition page_walk (mem : list Z) (cr3 va : Z) : option (Z * bool) :=
  e4 ← walk_entry mem (frame_of cr3) ((va .>> 39) .& 511);
  e3 ← walk_entry mem (frame_of e4) ((va .>> 30) .& 511);
  let w := Z.testbit e4 1 && Z.testbit e3 1 in
  if Z.testbit e3 7 then Some ((e3 .& 0x000FFFFFC0000000) + va mod 2 ^ 30, w)
  else
    e2 ← walk_entry mem (frame_of e3) ((va .>> 21) .& 511);
    let w := w && Z.testbit e2 1 in
    if Z.testbit e2 7 then Some ((e2 .& 0x000FFFFFFFE00000) + va mod 2 ^ 21, w)
    else
      e1 ← walk_entry mem (frame_of e2) ((va .>> 12) .& 511);
      Some (frame_of e1 + va mod 2 ^ 12, w && Z.testbit e1 1).

(** A descriptor of the table, as a segment register holds it. *)
Definition descriptor (e selector : Z) : Segment :=
  mkSegment (((e .>> 16) .& 0xFFFFFF) .| (((e .>> 56) .& 0xFF) .<< 24)) ((e .& 0xFFFF) .| (((e .>> 48) .& 0xF) .<< 16)) selector
    ((e .>> 40) .& 0xF) ((e .>> 47) .& 1) ((e .>> 45) .& 3) ((e .>> 54) .& 1) ((e .>> 44) .& 1) ((e .>> 53) .& 1) ((e .>> 55) .& 1) ((e .>> 52) .& 1) 0.
(** The register holds what its selector names in the table. *)
Definition seg_matches (mem : list Z) (gdt : DTTR) (s : Segment) : Prop :=
  s_Selector s + 7 ≤ dt_Limit gdt ∧ ∃ e, getLE 8 mem (dt_Base gdt + s_Selector s) = Some e ∧ descriptor e (s_Selector s) = s.

(** ** The stores *)
Lemma elem_of_upto n i : i ∈ upto n ↔ 0 ≤ i < n.
Proof.
  unfold upto. rewrite list_elem_of_fmap. split.
  - intros (k & -> & Hk%elem_of_seq). lia.
  - intros Hi. exists (Z.to_nat i). split; [lia|]. apply elem_of_seq. lia.
Qed.
Definition pd_write (base i j : Z) : write := (base + 0x2000 + i * 0x1000 + j * 8, LE 8 ((i * 512 + j) * 0x200000 .| 0x83)).
Definition pdpt_write (base i : Z) : write := (base + 0x1000 + i * 8, LE 8 ((base + 0x2000 + i * 0x1000) .| 0x07)).
Lemma elem_of_page_writes base w :
  w ∈ page_writes base ↔ w = (base, LE 8 ((base + 0x1000) .| 0x07)) ∨ (∃ i, 0 ≤ i < 4 ∧ w = pdpt_write base i) ∨ (∃ i j, 0 ≤ i < 4 ∧ 0 ≤ j < 512 ∧ w = pd_write base i j).
Proof.
  unfold page_writes. cbv zeta. rewrite elem_of_cons, list_elem_of_In, in_concat. apply or_iff_compat_l. split.
  - intros (l & Hl & Hw). apply list_elem_of_In, list_elem_of_fmap in Hl as (i & -> & Hi%elem_of_upto).
    apply list_elem_of_In, elem_of_cons in Hw as [->|Hw]; [left; by exists i|].
    apply list_elem_of_fmap in Hw as (j & -> & Hj%elem_of_upto). right. exists i, j. auto.
  - intros [(i & Hi & ->)|(i & j & Hi & Hj & ->)]; eexists; (split; [apply list_elem_of_In, list_elem_of_fmap_2, elem_of_upto, Hi|]); apply list_elem_of_In.
    + left.
    + right. apply list_elem_of_fmap. exists j. split; [done|by apply elem_of_upto].
Qed.
Lemma elem_of_low_writes w :
  w ∈ gdt_writes ++ [(idtAddr, LE 8 0)] ↔ ∃ k, 0 ≤ k ≤ 4 ∧ w = (0x500 + k * 8, LE 8 (nth (Z.to_nat k) gdtEntries 0)).
Proof.
  split.
  - cbn. rewrite !elem_of_cons. intros Hw. destruct_or! Hw; subst; [exists 0|exists 1|exists 2|exists 3|exists 4|by apply not_elem_of_nil in Hw]; (split; [lia|reflexivity]).
  - intros (k & Hk & ->). assert (k = 0 ∨ k = 1 ∨ k = 2 ∨ k = 3 ∨ k = 4) as [-> | [-> | [-> | [-> | -> ]]]] by lia; cbn; rewrite !elem_of_cons; auto 6.
Qed.

Section base.
Context (base : Z) (Hbase : 0x528 ≤ base).
Lemma long_mode_range w : w ∈ long_mode_writes base → zlen w.2 = 8 ∧ (0x500 ≤ w.1 ∧ w.1 + 8 ≤ 0x528 ∨ base ≤ w.1 ∧ w.1 + 8 ≤ base + 0x6000).
Proof.
  unfold long_mode_writes. rewrite (elem_of_app (page_writes base)), elem_of_page_writes, elem_of_low_writes.
  intros [[->|[(i & Hi & ->)|(i & j & Hi & Hj & ->)]]|(k & Hk & ->)]; cbn [fst snd pdpt_write pd_write]; rewrite zlen_LE; (split; [done|]); lia.
Qed.
Lemma long_mode_consistent : consistent (long_mode_writes base).
Proof.
  apply consistent_disjoint. intros w w'. unfold long_mode_writes. rewrite !(elem_of_app (page_writes base)), !elem_of_page_writes, !elem_of_low_writes.
  assert (∀ i j i' j', 0 ≤ i < 4 → 0 ≤ i' < 4 → 0 ≤ j < 512 → 0 ≤ j' < 512 → i ≠ i' ∨ j ≠ j' →
    i * 0x1000 + j * 8 + 8 ≤ i' * 0x1000 + j' * 8 ∨ i' * 0x1000 + j' * 8 + 8 ≤ i * 0x1000 + j * 8) as Hpd by lia.
  intros [[->|[(i & Hi & ->)|(i & j & Hi & Hj & ->)]]|(k & Hk & ->)] [[->|[(i' & Hi' & ->)|(i' & j' & Hi' & Hj' & ->)]]|(k' & Hk' & ->)];
    cbn [fst snd pdpt_write pd_write]; rewrite ?zlen_LE; change (Z.of_nat 8) with 8; try (right; lia); try (by left).
  - destruct (decide (i = i')) as [->|]; [by left|right; lia].
  - destruct (decide (i = i' ∧ j = j')) as [[-> ->]|]; [by left|]. right. specialize (Hpd i j i' j' Hi Hi' Hj Hj'). lia.
  - destruct (decide (k = k')) as [->|]; [by left|right; lia].
Qed.
End base.

(** ** Byte by byte, in any order *)
Definition store_bytes (w : write) : list write := imap (fun k b => (w.1 + Z.of_nat k, [b])) w.2.
Lemma store_bytes_same ws : Forall (fun w => 0 ≤ w.1) ws → same_bytes ws (concat (store_bytes <$> ws)).
Proof.
  intros Hw i b. rewrite Forall_forall in Hw. split.
  - intros ([a bs] & Hin & Hb). unfold byte_of in Hb. specialize (Hw _ Hin). cbn [fst snd] in *. replace (0 <=? a) with true in Hb by lia.
    case_decide as Hd; [|done]. exists (a + Z.of_nat (i - Z.to_nat a), [b]). split.
    + apply list_elem_of_In, in_concat. exists (store_bytes (a, bs)). split; [by apply list_elem_of_In, list_elem_of_fmap_2|].
      apply list_elem_of_In, list_elem_of_lookup. exists (i - Z.to_nat a)%nat. unfold store_bytes. cbn [fst snd]. by rewrite list_lookup_imap, Hb.
    + unfold byte_of. cbn [fst snd]. assert (0 ≤ a + Z.of_nat (i - Z.to_nat a)) as Ha%Z.leb_le by lia. rewrite Ha, decide_True by lia. by replace (i - Z.to_nat (a + Z.of_nat (i - Z.to_nat a)))%nat with 0%nat by lia.
  - intros (x & Hx & Hb). apply list_elem_of_In, in_concat in Hx as (l & Hl & Hx). apply list_elem_of_In, list_elem_of_fmap in Hl as (w & -> & Hin).
    apply list_elem_of_In, list_elem_of_lookup in Hx as [k Hk]. unfold store_bytes in Hk. rewrite list_lookup_imap in Hk. apply fmap_Some in Hk as (b' & Hk & ->).
    specialize (Hw w Hin). cbn in Hw. exists w. split; [done|]. unfold byte_of in *. cbn [fst snd] in Hb. assert (0 ≤ w.1 + Z.of_nat k) as Hk0%Z.leb_le by lia. rewrite Hk0 in Hb.
    case_decide as Hd; [|done]. pose proof (lookup_lt_Some _ _ _ Hb) as Hlt. cbn in Hlt. replace (i - Z.to_nat (w.1 + Z.of_nat k))%nat with 0%nat in Hb by lia. injection Hb as <-.
    le_is true. rewrite decide_True by lia. by replace (i - Z.to_nat w.1)%nat with k by lia.
Qed.

(** Any interleaving of the byte stores of [n] vCPUs is a rearrangement of them. *)
Definition all_stores (n : nat) (base : Z) : list write := concat (replicate n (concat (store_bytes <$> long_mode_writes base))).
Lemma concat_replicate_elem {A} n (l : list A) x : (0 < n)%nat → x ∈ concat (replicate n l) ↔ x ∈ l.
Proof.
  intros Hn. rewrite list_elem_of_In, in_concat. split.
  - intros (l' & Hl & Hx). apply list_elem_of_In, elem_of_replicate in Hl as [-> _]. by apply list_elem_of_In.
  - intros Hx. exists l. split; [|by apply list_elem_of_In]. apply list_elem_of_In, elem_of_replicate. split; [done|lia].
Qed.
Lemma interleaved_stores n base ws mem :
  (0 < n)%nat → 0x528 ≤ base → base + 0x6000 ≤ zlen mem → ws ≡ₚ all_stores n base →
  ∃ mem', writes (long_mode_writes base) mem = Some mem' ∧ writes ws mem = Some mem'.
Proof.
  intros Hn Hb Hm Hp. assert (Forall (fun w : write => 0 ≤ w.1) (long_mode_writes base)) as Hnn.
  { apply Forall_forall. intros w Hw. apply long_mode_range in Hw; [lia|done]. }
  assert (same_bytes (long_mode_writes base) ws) as Hs.
  { intros i b. rewrite (store_bytes_same _ Hnn i b). split; intros (w & Hw & Hbw); exists w; (split; [|done]).
    - rewrite Hp. unfold all_stores. by rewrite concat_replicate_elem.
    - rewrite Hp in Hw. unfold all_stores in Hw. by rewrite concat_replicate_elem in Hw. }
  destruct (writes_ok (long_mode_writes base) mem) as (mem' & Hw & _).
  { apply Forall_forall. intros w Hw. apply long_mode_range in Hw as [Hl Hr]; [|done]. unfold write_in. lia. }
  destruct (writes_ok ws mem) as (mem'' & Hw' & _).
  { apply Forall_forall. intros w Hin. rewrite Hp in Hin. unfold all_stores in Hin. rewrite concat_replicate_elem in Hin by done.
    apply list_elem_of_In, in_concat in Hin as (l & Hl & Hx). apply list_elem_of_In, list_elem_of_fmap in Hl as (v & -> & Hv).
    apply long_mode_range in Hv as [Hl Hr]; [|done]. apply list_elem_of_In, list_elem_of_lookup in Hx as [k Hk]. unfold store_bytes in Hk.
    rewrite list_lookup_imap in Hk. apply fmap_Some in Hk as (b & Hk & ->). apply lookup_lt_Some in Hk. unfold write_in. cbn. unfold zlen in *. cbn. lia. }
  exists mem'. split; [done|]. rewrite Hw'. f_equal. symmetry. by eapply writes_same; [apply long_mode_consistent| | |].
Qed.

(** ** Walking the tables *)
Lemma getLE_of_holds mem a v : holds mem a (LE 8 v) → fits 64 v → getLE 8 mem a = Some v.
Proof.
  intros Hh Hv. unfold getLE. unfold holds in Hh. rewrite zlen_LE in Hh. rewrite Hh. cbn [fmap option_fmap option_map]. f_equal. by apply le_decode_encode.
Qed.
Lemma huge_entry a : 0 ≤ a < 2 ^ 11 → let e := a * 0x200000 .| 0x83 in
  fits 64 e ∧ Z.testbit e 0 = true ∧ Z.testbit e 1 = true ∧ Z.testbit e 7 = true ∧ e .& 0x000FFFFFFFE00000 = a * 0x200000.
Proof.
  intros Ha. cbv zeta. splits.
  - apply fits_lor; unfold fits; lia.
  - by rewrite Z.lor_spec, orb_true_r.
  - by rewrite Z.lor_spec, orb_true_r.
  - by rewrite Z.lor_spec, orb_true_r.
  - rewrite Z.land_lor_distr_l. change (0x83 .& _) with 0. rewrite Z.lor_0_r. change 0x200000 with (2 ^ 21).
    change 0x000FFFFFFFE00000 with (Z.shiftl (Z.ones 31) 21). rewrite <- Z.shiftl_mul_pow2, <- Z.shiftl_land, Z.land_ones, Z.mod_small by lia. done.
Qed.

Lemma identity_walk mem va :
  (∀ w, w ∈ page_writes 0x9000 → holds mem w.1 w.2) → 0 ≤ va < 2 ^ 32 → page_walk mem 0x9000 va = Some (va, true).
Proof.
  intros Hh Hva. set (a := va / 2 ^ 21). assert (0 ≤ a < 2 ^ 11) as Ha by (subst a; split; [apply Z.div_pos; lia|apply Z.div_lt_upper_bound; lia]).
  set (i := a / 512). set (j := a mod 512). assert (a = i * 512 + j) as Haij by (subst i j; pose proof (Z.div_mod a 512); lia).
  assert (0 ≤ i < 4) as Hi by (subst i; split; [apply Z.div_pos; lia|apply Z.div_lt_upper_bound; lia]).
  assert (0 ≤ j < 512) as Hj by (subst j; apply Z.mod_pos_bound; lia).
  assert ((va .>> 39) .& 511 = 0) as H39.
  { change 511 with (Z.ones 9). rewrite Z.land_ones, Z.shiftr_div_pow2 by lia. rewrite Z.div_small by lia. done. }
  assert ((va .>> 30) .& 511 = i) as H30.
  { change 511 with (Z.ones 9). rewrite Z.land_ones, Z.shiftr_div_pow2 by lia. replace (va / 2 ^ 30) with i; [apply Z.mod_small; lia|].
    subst i a. rewrite Z.div_div by lia. done. }
  assert ((va .>> 21) .& 511 = j) as H21.
  { change 511 with (Z.ones 9). rewrite Z.land_ones, Z.shiftr_div_pow2 by lia. done. }
  assert (getLE 8 mem 0x9000 = Some 0xA007) as E4.
  { apply getLE_of_holds; [|unfold fits; lia]. apply (Hh (0x9000, LE 8 0xA007)). apply elem_of_page_writes. by left. }
  assert (getLE 8 mem (0xA000 + i * 8) = Some (0xB007 + i * 0x1000)) as E3.
  { apply getLE_of_holds; [|unfold fits; lia]. replace (0xB007 + i * 0x1000) with ((0x9000 + 0x2000 + i * 0x1000) .| 0x07).
    - apply (Hh (pdpt_write 0x9000 i)). apply elem_of_page_writes. eauto.
    - assert (i = 0 ∨ i = 1 ∨ i = 2 ∨ i = 3) as [-> | [-> | [-> | -> ]]] by lia; reflexivity. }
  destruct (huge_entry a Ha) as (Hf & B0 & B1 & B7 & Hmask).
  assert (getLE 8 mem (0xB000 + i * 0x1000 + 8 * j) = Some (a * 0x200000 .| 0x83)) as E2.
  { apply getLE_of_holds; [|done]. rewrite Haij. replace (0xB000 + i * 0x1000 + 8 * j) with (0x9000 + 0x2000 + i * 0x1000 + j * 8) by lia.
    apply (Hh (pd_write 0x9000 i j)). apply elem_of_page_writes. right. right. eauto. }
  unfold page_walk, walk_entry. rewrite H39, H30, H21. change (frame_of 0x9000 + 8 * 0) with 0x9000. rewrite E4. cbn [mbind option_bind].
  change (Z.testbit 0xA007 0) with true. cbv iota. cbn [mbind option_bind]. change (frame_of 0xA007) with 0xA000. replace (0xA000 + 8 * i) with (0xA000 + i * 8) by lia.
  rewrite E3. cbn [mbind option_bind].
  assert (Z.testbit (0xB007 + i * 0x1000) 0 = true ∧ Z.testbit (0xB007 + i * 0x1000) 1 = true ∧ Z.testbit (0xB007 + i * 0x1000) 7 = false ∧ frame_of (0xB007 + i * 0x1000) = 0xB000 + i * 0x1000) as (T0 & T1 & T7 & TF).
  { assert (i = 0 ∨ i = 1 ∨ i = 2 ∨ i = 3) as [-> | [-> | [-> | -> ]]] by lia; done. }
  rewrite T0. cbn [mbind option_bind]. cbv zeta. rewrite T7, TF, E2, T1. cbn [mbind option_bind]. rewrite B0. cbn [mbind option_bind]. rewrite B7, B1, Hmask.
  change (Z.testbit 0xA007 1) with true. cbn [andb]. do 2 f_equal. change 0x200000 with (2 ^ 21). subst a. pose proof (Z.div_mod va (2 ^ 21)). lia.
Qed.

Definition PageTableBase : Z := 0x9000.

Lemma SetupLongMode_writes mem base mem' sregs regs entry bp :
  writes (long_mode_writes base) mem = Some mem' →
  SetupLongMode (mkIO (Some sregs) true (Some regs) true) mem entry base bp = Ok (mem', (long_mode_sregs sregs base, long_mode_regs regs entry bp)).
Proof.
  unfold long_mode_writes, SetupLongMode, buildPageTables. rewrite writes_app. destruct (writes (page_writes base) mem) as [m1|]; [|done]. cbn [mbind option_bind must res_bind].
  rewrite writes_app. destruct (writes gdt_writes m1) as [m2|]; [|done]. cbn [mbind option_bind must res_bind writes]. unfold putLE, LE.
  destruct (splice m2 idtAddr _) as [m3|]; [|done]. cbn. by intros [= ->].
Qed.
Lemma gdt_matches mem s :
  (∀ w, w ∈ gdt_writes → holds mem w.1 w.2) → s ∈ [codeSeg; dataSeg; taskSeg] → seg_matches mem (mkDTTR gdtAddr 31) s.
Proof.
  intros Hh Hs. assert (∀ i e, gdtEntries !! i = Some e → fits 64 e → getLE 8 mem (gdtAddr + Z.of_nat i * 8) = Some e) as Hg.
  { intros i e Hi He. apply getLE_of_holds; [|done]. apply (Hh (gdtAddr + Z.of_nat i * 8, LE 8 e)). apply list_elem_of_lookup. exists i. unfold gdt_writes.
    by rewrite list_lookup_imap, Hi. }
  rewrite !elem_of_cons in Hs. destruct_or! Hs; [| | |by apply not_elem_of_nil in Hs]; subst s; (split; [cbn; lia|]).
  - exists 0x00AF9B000000FFFF. split; [apply (Hg 1%nat); [done|unfold fits; lia]|reflexivity].
  - exists 0x00CF93000000FFFF. split; [apply (Hg 2%nat); [done|unfold fits; lia]|reflexivity].
  - exists 0x008F8B000000FFFF. split; [apply (Hg 3%nat); [done|unfold fits; lia]|reflexivity].
Qed.

(** C36: however the byte stores of the vCPUs that are set up concurrently
    interleave, the memory ends up as one of them alone would leave it, and each
    vCPU starts in long mode with a consistent view: paging maps every address
    below 4 GiB to itself, writable; each segment register holds what its
    selector names in the descriptor table; protection, paging, PAE and long
    mode are on; execution starts at the entry point with the boot parameters in
    RSI.  No other memory than the descriptor tables and six pages of page
    tables is changed. *)
Theorem long_mode_correct n ws mem sregs regs entry :
  (0 < n)%nat → PageTableBase + 0x6000 ≤ zlen mem → ws ≡ₚ all_stores n PageTableBase →
  ∃ mem' sregs' regs', writes ws mem = Some mem' ∧
    SetupLongMode (mkIO (Some sregs) true (Some regs) true) mem entry PageTableBase 0x7000 = Ok (mem', (sregs', regs')) ∧
    (∀ va, 0 ≤ va < 2 ^ 32 → page_walk mem' (r_CR3 sregs') va = Some (va, true)) ∧
    Forall (seg_matches mem' (r_GDT sregs')) [r_CS sregs'; r_DS sregs'; r_ES sregs'; r_FS sregs'; r_GS sregs'; r_SS sregs'; r_TR sregs'] ∧
    Z.testbit (r_CR0 sregs') 0 = true ∧ Z.testbit (r_CR0 sregs') 31 = true ∧ Z.testbit (r_CR4 sregs') 5 = true ∧
    Z.testbit (r_EFER sregs') 8 = true ∧ Z.testbit (r_EFER sregs') 10 = true ∧ r_RIP regs' = entry ∧ r_RSI regs' = 0x7000 ∧
    (∀ lo hi, hi ≤ 0x500 ∨ 0x528 ≤ lo → hi ≤ PageTableBase ∨ PageTableBase + 0x6000 ≤ lo → slice mem' lo hi = slice mem lo hi).
Proof.
  unfold PageTableBase. intros Hn Hm Hp. destruct (interleaved_stores n 0x9000 ws mem Hn) as (mem' & Hw & Hws); [lia|lia|done|].
  assert (∀ w, w ∈ long_mode_writes 0x9000 → holds mem' w.1 w.2) as Hh.
  { intros w. apply (writes_consistent_holds _ mem); [apply long_mode_consistent; lia|done]. }
  exists mem', (long_mode_sregs sregs 0x9000), (long_mode_regs regs entry 0x7000). splits; try done.
  - by apply SetupLongMode_writes.
  - intros va. apply identity_walk. intros w Hin. apply Hh. unfold long_mode_writes. apply elem_of_app. by left.
  - cbn. assert (∀ s, s ∈ [codeSeg; dataSeg; taskSeg] → seg_matches mem' (mkDTTR gdtAddr 31) s) as Hs.
    { intros s. apply gdt_matches. intros w Hin. apply Hh. unfold long_mode_writes. rewrite !elem_of_app. auto. }
    repeat apply Forall_cons_2; try (apply Hs; rewrite !elem_of_cons; by auto). apply Forall_nil_2.
  - cbn [long_mode_sregs r_CR0 r_CR4 r_EFER]. by rewrite Z.lor_spec, orb_true_r.
  - cbn [long_mode_sregs r_CR0 r_CR4 r_EFER]. by rewrite Z.lor_spec, orb_true_r.
  - cbn [long_mode_sregs r_CR0 r_CR4 r_EFER]. by rewrite Z.lor_spec, orb_true_r.
  - cbn [long_mode_sregs r_CR0 r_CR4 r_EFER]. by rewrite Z.lor_spec, orb_true_r.
  - cbn [long_mode_sregs r_CR0 r_CR4 r_EFER]. by rewrite Z.lor_spec, orb_true_r.
  - intros lo hi H1 H2. apply (writes_frame _ _ _ lo hi Hw). apply Forall_forall. intros w Hin. apply long_mode_range in Hin; [|lia]. unfold clear_of. lia.
Qed.

Definition sample_sregs : Sregs :=
  mkSregs dataSeg dataSeg dataSeg dataSeg dataSeg dataSeg taskSeg taskSeg (mkDTTR 0 0) (mkDTTR 0 0) 0x10 0 0 0 0 0 0xFEE00900 [].
Lemma long_mode_correct_witness :
  ∃ mem' sregs', writes (all_stores 2 PageTableBase) (replicate (Z.to_nat 0xF000) 0) = Some mem' ∧ page_walk mem' (r_CR3 sregs') 0x12345678 = Some (0x12345678, true).
Proof.
  destruct (long_mode_correct 2 (all_stores 2 PageTableBase) (replicate (Z.to_nat 0xF000) 0) sample_sregs (mkRegs 0 0 0 0 0 []) 0x100000)
    as (mem' & sregs' & regs' & H1 & H2 & H3 & _).
  - lia.
  - unfold zlen. rewrite length_replicate. unfold PageTableBase. lia.
  - apply Permutation_refl.
  - exists mem', sregs'. split; [exact H1|]. apply H3. lia.
Defined.
