(* ===== verification/Boot.v ===== *)
(** * Preparing the x86 guest's memory

    The boot parameters of src/internal/loader/loader.go and finishLoadKernel of
    src/pkg/vmm/vmm.go: on top of a loaded kernel come the ACPI tables, the
    command line, the initial RAM disk, the zero page and the MP table. *)
From S2P Require Import Prelude Stream Mptable Fdt Acpi RuntimeCfg Patch Loader LongMode.

Definition BootParamsAddr : Z := 0x7000.
Definition CmdlineAddr : Z := 0x20000.
Definition InitrdAddr : Z := 0x1000000.
Definition VirtioBase : Z := 0xD0000000.
Definition VirtioStride : Z := 0x1000.
Definition VirtioIRQBase : Z := 5.

(** ** The zero page *)
Record BootConfig := mkBootConfig { bc_MemBytes : Z; bc_InitrdAddr : Z; bc_InitrdSize : Z; bc_ACPIRSDP : Z }.
Definition putE820 (mem : list Z) (off addr size typ : Z) : option (list Z) :=
  mem ← putLE 8 mem off addr;
  mem ← putLE 8 mem (off + 8) size;
  putLE 4 mem (off + 16) (u32 typ).
Definition writeE820Map (mem : list Z) (base totalMem : Z) : option (list Z) :=
  mem ← set_at mem (base + 0x1E8) 4;
  let e820 := base + 0x2D0 in
  mem ← putE820 mem (e820 + 0) 0x00000000 0x0009FC00 1;
  mem ← putE820 mem (e820 + 20) 0x0009FC00 0x00040400 2;
  mem ← putE820 mem (e820 + 40) 0x000E0000 0x00020000 2;
  if 0x00100000 <? totalMem then putE820 mem (e820 + 60) 0x00100000 (totalMem - 0x00100000) 1 else Some mem.
Definition WriteBootParams (mem : list Z) (info : KernelInfo) (cfg : BootConfig) : option (list Z) :=
  let base := SetupBase info in
  mem ← writeE820Map mem base (bc_MemBytes cfg);
  mem ← (if negb (bc_InitrdAddr cfg =? 0) && negb (bc_InitrdSize cfg =? 0) then
      mem ← putLE 4 mem (base + ramdiskAddr) (u32 (bc_InitrdAddr cfg));
      putLE 4 mem (base + ramdiskSize) (u32 (bc_InitrdSize cfg))
    else Some mem);
  mem ← (if negb (bc_ACPIRSDP cfg =? 0) then putLE 8 mem (base + acpiRSDPAddr) (bc_ACPIRSDP cfg) else Some mem);
  putLE 2 mem (base + 0x1FA) 0xFFFF.

(** ** finishLoadKernel *)
Inductive X86BootMode := X86BootAuto | X86BootACPI | X86BootLegacy.
(** The file of the initial RAM disk: the size its status reports and what is
    read from it. *)
Inductive initrd_file := InitrdNoOpen | InitrdNoStat | InitrdFile (size : Z) (content : list Z).
Record BootVM := mkBootVM { c_Cmdline : list Z; c_X86Boot : option X86BootMode; c_VCPUs : Z; c_MemMB : Z; c_Initrd : option initrd_file }.
Record transport := mkTransport { t_basePA : Z; t_irqLine : Z }.
Inductive boot_err := KernelLoad (e : load_err) | ACPITables (e : acpi_err) | CmdlineTooLong | OpenInitrd | StatInitrd | InitrdTooLarge | ReadInitrd | MPTable (e : mp_err).

Definition wrap_err {E F A} (f : E → F) (m : res E A) : res F A :=
  match m with Ok a => Ok a | Err e => Err (f e) | Panic => Panic | NoFuel => NoFuel end.
(** [copy(mem[a:], bs)]: as much as fits. *)
Definition copy_at (mem : list Z) (a : Z) (bs : list Z) : option (list Z) := splice mem a (take (Z.to_nat (zlen mem - a)) bs).

Definition acpiMMIODevices (transports : list transport) : list MMIODevice := (fun t => mkMMIO (t_basePA t) VirtioStride (t_irqLine t)) <$> transports.
Definition device_arg (i : nat) (t : transport) : list Z :=
  sbytes " virtio_mmio.device=0x" ++ fmt_uint 16 VirtioStride ++ sbytes "@0x" ++ fmt_uint 16 (t_basePA t) ++ sbytes ":" ++
  fmt_uint 10 (VirtioIRQBase + Z.of_nat i).
Definition uses_acpi (mode : X86BootMode) : bool := match mode with X86BootAuto | X86BootACPI => true | X86BootLegacy => false end.
Definition uses_legacy (mode : X86BootMode) : bool := match mode with X86BootAuto | X86BootLegacy => true | X86BootACPI => false end.

(** The command line with the devices. *)
Definition full_cmdline (cfg : BootVM) (transports : list transport) : list Z :=
  let cmdline := if zlen (c_Cmdline cfg) =? 0 then DefaultKernelCmdline false else c_Cmdline cfg in
  if uses_legacy (default X86BootAuto (c_X86Boot cfg)) then cmdline ++ concat (imap device_arg transports) else cmdline.

Definition place_initrd (mem : list Z) (info : KernelInfo) (initrd : option initrd_file) : res boot_err (list Z * (Z * Z)) :=
  match initrd with
  | None => Ok (mem, (0, 0))
  | Some InitrdNoOpen => Err OpenInitrd
  | Some InitrdNoStat => Err StatInitrd
  | Some (InitrdFile size content) =>
      let iAddr := InitrdAddr in
      let iAddr := if iAddr <? KernelEnd info then u64 (KernelEnd info + 0x1FFFFF) .&^ 0x1FFFFF else iAddr in
      if zlen mem <? u64 (iAddr + size) then Err InitrdTooLarge
      else
        _ ← must (slice mem iAddr (u64 (iAddr + size)));
        if zlen content <? size then Err ReadInitrd
        else mem ← must (splice mem iAddr (take (Z.to_nat size) content)); Ok (mem, (iAddr, size))
  end.

Definition header_fields (mem : list Z) (cmdline : list Z) : option (list Z) :=
  mem ← putLE 2 mem (BootParamsAddr + 0x1FE) 0xAA55;
  mem ← putLE 4 mem (BootParamsAddr + 0x202) 0x53726448;
  mem ← set_at mem (BootParamsAddr + 0x210) 0xFF;
  old ← at_ mem (BootParamsAddr + 0x211);
  mem ← set_at mem (BootParamsAddr + 0x211) (old .| 0x01);
  mem ← putLE 4 mem (BootParamsAddr + 0x228) CmdlineAddr;
  putLE 4 mem (BootParamsAddr + 0x238) (u32 (zlen cmdline)).

Definition finishLoadKernel (mem : list Z) (info : KernelInfo) (cfg : BootVM) (transports : list transport) : res boot_err (list Z) :=
  let mode := default X86BootAuto (c_X86Boot cfg) in
  '(acpiRSDP, mem) ← (if uses_acpi mode then wrap_err ACPITables (CreateX86Tables mem (c_VCPUs cfg) (acpiMMIODevices transports)) else Ok (0, mem));
  let cmdline := full_cmdline cfg transports in
  if KernelCmdlineMax <? zlen cmdline + 1 then Err CmdlineTooLong
  else
    mem ← must (copy_at mem CmdlineAddr (cmdline ++ [0]));
    '(mem, (initrdAddr, initrdSize)) ← place_initrd mem info (c_Initrd cfg);
    mem ← must (WriteBootParams mem info (mkBootConfig (u64 (c_MemMB cfg * 1024 * 1024)) initrdAddr initrdSize acpiRSDP));
    mem ← (if uses_legacy mode then wrap_err MPTable (mp_Write mem (c_VCPUs cfg)) else Ok mem);
    must (header_fields mem cmdline).

Definition loadKernel (elf_NewFile : list Z → option elf_File) (comp_open : compression → list Z → bool) (comp_read : compression → list Z → list Z)
    (order : list loadSeg → list loadSeg) (mem : list Z) (kernel : option (list Z * bool)) (cfg : BootVM) (transports : list transport) :
    res boot_err (list Z * KernelInfo) :=
  '(mem, info) ← wrap_err KernelLoad (LoadKernel elf_NewFile comp_open comp_read order mem kernel BootParamsAddr);
  mem ← finishLoadKernel mem info cfg transports;
  Ok (mem, info).

(** ** What the kernel reads *)
Record boot_view := mkBootView {
  bv_cmdline : list Z; bv_e820 : list (Z * Z * Z); bv_initrd : option (list Z); bv_rsdp : Z
}.
Definition read_e820 (mem : list Z) (bp : Z) : option (list (Z * Z * Z)) :=
  n ← at_ mem (bp + 0x1E8);
  mapM (fun i =>
    let o := bp + 0x2D0 + 20 * i in
    addr ← getLE 8 mem o; size ← getLE 8 mem (o + 8); typ ← getLE 4 mem (o + 16); Some (addr, size, typ)) (upto n).
Definition read_boot (mem : list Z) (bp : Z) : option boot_view :=
  flag ← getLE 2 mem (bp + 0x1FE);
  magic ← getLE 4 mem (bp + 0x202);
  loader ← at_ mem (bp + 0x210);
  flags ← at_ mem (bp + 0x211);
  if negb ((flag =? 0xAA55) && (magic =? 0x53726448) && (loader =? 0xFF) && Z.testbit flags 0) then None
  else
    ptr ← getLE 4 mem (bp + 0x228);
    size ← getLE 4 mem (bp + 0x238);
    cmdline ← slice mem ptr (ptr + size);
    nul ← at_ mem (ptr + size);
    if negb (nul =? 0) then None
    else
      e820 ← read_e820 mem bp;
      iaddr ← getLE 4 mem (bp + 0x218);
      isize ← getLE 4 mem (bp + 0x21C);
      initrd ← (if (iaddr =? 0) || (isize =? 0) then Some None else Some <$> slice mem iaddr (iaddr + isize));
      rsdp ← getLE 8 mem (bp + 0x70);
      Some (mkBootView cmdline e820 initrd rsdp).

(** ** The stores *)
Definition e820_writes (off addr size typ : Z) : list write := [(off, LE 8 addr); (off + 8, LE 8 size); (off + 16, LE 4 (u32 typ))].
Definition opt_writes (c : bool) (ws : list write) : list write := if c then ws else [].
Definition map_writes (base totalMem : Z) : list write :=
  [(base + 0x1E8, [4])] ++ e820_writes (base + 0x2D0 + 0) 0 0x9FC00 1 ++ e820_writes (base + 0x2D0 + 20) 0x9FC00 0x40400 2 ++
  e820_writes (base + 0x2D0 + 40) 0xE0000 0x20000 2 ++ opt_writes (0x100000 <? totalMem) (e820_writes (base + 0x2D0 + 60) 0x100000 (totalMem - 0x100000) 1).
Definition has_initrd (cfg : BootConfig) : bool := negb (bc_InitrdAddr cfg =? 0) && negb (bc_InitrdSize cfg =? 0).
Definition param_writes (base : Z) (cfg : BootConfig) : list write :=
  map_writes base (bc_MemBytes cfg) ++
  opt_writes (has_initrd cfg) [(base + 0x218, LE 4 (u32 (bc_InitrdAddr cfg))); (base + 0x21C, LE 4 (u32 (bc_InitrdSize cfg)))] ++
  opt_writes (negb (bc_ACPIRSDP cfg =? 0)) [(base + 0x70, LE 8 (bc_ACPIRSDP cfg))] ++ [(base + 0x1FA, LE 2 0xFFFF)].
Definition header_writes (old : Z) (cmdline : list Z) : list write :=
  [(0x71FE, LE 2 0xAA55); (0x7202, LE 4 0x53726448); (0x7210, [0xFF]); (0x7211, [old .| 0x01]); (0x7228, LE 4 CmdlineAddr); (0x7238, LE 4 (u32 (zlen cmdline)))].

Lemma putE820_writes mem off a s t : putE820 mem off a s t = writes (e820_writes off a s t) mem.
Proof.
  unfold putE820, putLE, e820_writes, LE. cbn [writes]. destruct (splice mem off _) as [m|]; [|done]. cbn [mbind option_bind].
  destruct (splice m _ _) as [m'|]; [|done]. cbn [mbind option_bind]. by destruct (splice m' _ _).
Qed.
Lemma writeE820Map_writes mem base total : writeE820Map mem base total = writes (map_writes base total) mem.
Proof.
  unfold writeE820Map, map_writes. rewrite set_at_splice, writes_app. cbn [writes]. destruct (splice mem _ _) as [m|]; [|done]. cbn [mbind option_bind]. cbv zeta.
  rewrite putE820_writes, writes_app. destruct (writes _ m) as [m1|]; [|done]. cbn [mbind option_bind].
  rewrite putE820_writes, writes_app. destruct (writes _ m1) as [m2|]; [|done]. cbn [mbind option_bind].
  rewrite putE820_writes, writes_app. destruct (writes _ m2) as [m3|]; [|done]. cbn [mbind option_bind]. unfold opt_writes. destruct (_ <? total); [|done]. apply putE820_writes.
Qed.
Lemma WriteBootParams_writes mem info cfg : WriteBootParams mem info cfg = writes (param_writes (SetupBase info) cfg) mem.
Proof.
  unfold WriteBootParams, param_writes, has_initrd. cbv zeta. rewrite writeE820Map_writes, writes_app. destruct (writes _ mem) as [m|]; [|done]. cbn [mbind option_bind].
  rewrite writes_app. unfold opt_writes, putLE, LE, ramdiskAddr, ramdiskSize, acpiRSDPAddr.
  destruct (_ && _); cbn [writes mbind option_bind].
  - destruct (splice m _ _) as [m1|]; [|done]. cbn [mbind option_bind]. destruct (splice m1 _ _) as [m2|]; [|done]. cbn [mbind option_bind].
    rewrite writes_app. destruct (negb _); cbn [writes mbind option_bind]; [destruct (splice m2 _ _) as [m3|]; [|done]; cbn [mbind option_bind]; by destruct (splice m3 _ _)|by destruct (splice m2 _ _)].
  - rewrite writes_app. destruct (negb _); cbn [writes mbind option_bind]; [destruct (splice m _ _) as [m3|]; [|done]; cbn [mbind option_bind]; by destruct (splice m3 _ _)|by destruct (splice m _ _)].
Qed.
Lemma header_fields_writes mem cmdline :
  0x8000 ≤ zlen mem → ∃ old mem', header_fields mem cmdline = Some mem' ∧ writes (header_writes old cmdline) mem = Some mem'.
Proof.
  intros Hm. destruct (writes_ok [(0x71FE, LE 2 0xAA55); (0x7202, LE 4 0x53726448); (0x7210, [0xFF])] mem) as (m3 & H3 & L3).
  { each_write ltac:(unfold write_in; cbn [fst snd]; change (zlen [255]) with 1 || rewrite zlen_LE; lia). }
  destruct (at_ok m3 0x7211) as [old Ho]; [lia|].
  destruct (writes_ok [(0x7211, [old .| 0x01]); (0x7228, LE 4 CmdlineAddr); (0x7238, LE 4 (u32 (zlen cmdline)))] m3) as (m6 & H6 & L6).
  { each_write ltac:(unfold write_in; cbn [fst snd]; change (zlen [_]) with 1 || rewrite zlen_LE; lia). }
  exists old, m6. assert (writes (header_writes old cmdline) mem = Some m6) as Hw.
  { change (header_writes old cmdline) with ([(0x71FE, LE 2 0xAA55); (0x7202, LE 4 0x53726448); (0x7210, [0xFF])] ++ [(0x7211, [old .| 0x01]); (0x7228, LE 4 CmdlineAddr); (0x7238, LE 4 (u32 (zlen cmdline)))]).
    rewrite writes_app, H3. exact H6. }
  split; [|done]. unfold header_fields, putLE, BootParamsAddr. change (0x7000 + 0x1FE) with 0x71FE. change (0x7000 + 0x202) with 0x7202. change (0x7000 + 0x210) with 0x7210.
  change (0x7000 + 0x211) with 0x7211. change (0x7000 + 0x228) with 0x7228. change (0x7000 + 0x238) with 0x7238.
  cbn [writes] in H3, H6. fold (LE 2 0xAA55) (LE 4 0x53726448) (LE 4 CmdlineAddr) (LE 4 (u32 (zlen cmdline))).
  destruct (splice mem 0x71FE _) as [m1|]; [|done]. cbn [mbind option_bind] in H3 |- *. destruct (splice m1 0x7202 _) as [m2|]; [|done]. cbn [mbind option_bind] in H3 |- *.
  rewrite set_at_splice. destruct (splice m2 0x7210 _) as [m3'|]; [|done]. injection H3 as ->. cbn [mbind option_bind]. rewrite Ho. cbn [mbind option_bind]. rewrite set_at_splice.
  destruct (splice m3 0x7211 _) as [m4|]; [|done]. cbn [mbind option_bind] in H6 |- *. destruct (splice m4 0x7228 _) as [m5|]; [|done]. cbn [mbind option_bind] in H6 |- *.
  by destruct (splice m5 0x7238 _).
Qed.

(** ** The initial RAM disk *)
Definition initrd_addr (info : KernelInfo) : Z := if InitrdAddr <? KernelEnd info then u64 (KernelEnd info + 0x1FFFFF) .&^ 0x1FFFFF else InitrdAddr.
Lemma align_2MiB k : 0 ≤ k < 2 ^ 63 → k ≤ u64 (k + 0x1FFFFF) .&^ 0x1FFFFF < k + 0x200000.
Proof.
  intros Hk. rewrite u64_small by lia. assert (∀ b, b .&^ 0x1FFFFF = b / 2 ^ 21 * 2 ^ 21) as ->.
  { intros b. change 0x1FFFFF with (Z.ones 21). by rewrite Z.ldiff_ones_r, Z.shiftl_mul_pow2, Z.shiftr_div_pow2 by lia. }
  pose proof (Z.div_mod (k + 0x1FFFFF) (2 ^ 21)). pose proof (Z.mod_pos_bound (k + 0x1FFFFF) (2 ^ 21)). lia.
Qed.
Lemma initrd_addr_ok info : 0 ≤ KernelEnd info < 2 ^ 63 → InitrdAddr ≤ initrd_addr info ∧ KernelEnd info ≤ initrd_addr info.
Proof.
  intros Hk. unfold initrd_addr. destruct (Z.ltb_spec InitrdAddr (KernelEnd info)); [|lia]. pose proof (align_2MiB (KernelEnd info)). lia.
Qed.
(** The file can be placed: address and size, and the bytes. *)
Definition initrd_fits (n : Z) (info : KernelInfo) (initrd : option initrd_file) : Prop :=
  match initrd with
  | None => True
  | Some (InitrdFile size content) => 0 ≤ size ≤ zlen content ∧ initrd_addr info + size ≤ n ∧ initrd_addr info + size < 2 ^ 32
  | _ => False
  end.
Definition initrd_range (info : KernelInfo) (initrd : option initrd_file) : Z * Z :=
  match initrd with Some (InitrdFile size _) => (initrd_addr info, size) | _ => (0, 0) end.
Definition initrd_writes (info : KernelInfo) (initrd : option initrd_file) : list write :=
  match initrd with Some (InitrdFile size content) => [(initrd_addr info, take (Z.to_nat size) content)] | _ => [] end.
Definition initrd_bytes (initrd : option initrd_file) : option (list Z) :=
  match initrd with Some (InitrdFile size content) => if size =? 0 then None else Some (take (Z.to_nat size) content) | _ => None end.
Lemma place_initrd_ok mem info initrd :
  zlen mem < 2 ^ 63 → 0 ≤ KernelEnd info < 2 ^ 63 → initrd_fits (zlen mem) info initrd →
  ∃ mem', place_initrd mem info initrd = Ok (mem', initrd_range info initrd) ∧ writes (initrd_writes info initrd) mem = Some mem'.
Proof.
  intros Hm Hk Hf. destruct initrd as [[| |size content]|]; [done|done| |by exists mem]. cbn [initrd_fits] in Hf. destruct Hf as (Hs & Hn & H32).
  destruct (initrd_addr_ok info Hk) as [Ha _]. unfold InitrdAddr in Ha. unfold place_initrd. cbv zeta. fold (initrd_addr info). rewrite u64_small by lia. lt_is false.
  destruct (slice_ok mem (initrd_addr info) (initrd_addr info + size)) as [bs ->]; [lia|lia|]. cbn [must mbind res_bind]. lt_is false.
  assert (zlen (take (Z.to_nat size) content) = size) as Hz by (unfold zlen in *; rewrite length_take; lia).
  destruct (splice_ok mem (initrd_addr info) (take (Z.to_nat size) content)) as [mem' E]; [lia|lia|]. rewrite E. exists mem'. split; [done|]. cbn [initrd_writes writes]. by rewrite E.
Qed.

(** ** All stores together *)
Definition boot_config (cfg : BootVM) (info : KernelInfo) (rsdp : Z) : BootConfig :=
  let '(a, s) := initrd_range info (c_Initrd cfg) in mkBootConfig (u64 (c_MemMB cfg * 1024 * 1024)) a s rsdp.
Definition boot_writes (cfg : BootVM) (info : KernelInfo) (transports : list transport) (rsdp old : Z) : list write :=
  [(CmdlineAddr, full_cmdline cfg transports ++ [0])] ++ initrd_writes info (c_Initrd cfg) ++ param_writes 0x7000 (boot_config cfg info rsdp) ++
  opt_writes (uses_legacy (default X86BootAuto (c_X86Boot cfg))) [(StartAddr (c_VCPUs cfg), mp_buf (c_VCPUs cfg) (StartAddr (c_VCPUs cfg)))] ++
  header_writes old (full_cmdline cfg transports).

Record boot_ok (mem : list Z) (info : KernelInfo) (cfg : BootVM) (transports : list transport) : Prop := {
  bo_mem : 0x200000 ≤ zlen mem < 2 ^ 63;
  bo_size : c_MemMB cfg * 1024 * 1024 = zlen mem;
  bo_base : SetupBase info = 0x7000;
  bo_end : 0 ≤ KernelEnd info ≤ zlen mem;
  bo_cpus : 1 ≤ c_VCPUs cfg ≤ 254;
  bo_count : zlen transports ≤ 1000;
  bo_irqs : Forall (fun t => fits 8 (t_irqLine t)) transports;
  bo_cmdline : zlen (full_cmdline cfg transports) + 1 ≤ KernelCmdlineMax;
  bo_initrd : initrd_fits (zlen mem) info (c_Initrd cfg);
  bo_zero : slice mem 0x7000 0x8000 = Some (replicate (Z.to_nat 0x1000) 0)
}.

(** The zero page with every field written. *)
Definition zero_page_writes (total ia is_ rsdp old : Z) (cmdline : list Z) : list write :=
  [(0x71E8, [4])] ++ e820_writes 0x72D0 0 0x9FC00 1 ++ e820_writes 0x72E4 0x9FC00 0x40400 2 ++ e820_writes 0x72F8 0xE0000 0x20000 2 ++
  e820_writes 0x730C 0x100000 total 1 ++ [(0x7218, LE 4 ia); (0x721C, LE 4 is_); (0x7070, LE 8 rsdp); (0x71FA, LE 2 0xFFFF)] ++ header_writes old cmdline.
Definition apart_in (l : list (Z * Z)) : bool :=
  (fix go l := match l with [] => true | (a, n) :: l => forallb (fun '(b, m) => (a + n <=? b) || (b + m <=? a)) l && go l end) l.
Lemma apart_in_sound (ws : list write) : apart_in ((fun w => (w.1, zlen w.2)) <$> ws) = true →
  ∀ w w', w ∈ ws → w' ∈ ws → w = w' ∨ w.1 + zlen w.2 ≤ w'.1 ∨ w'.1 + zlen w'.2 ≤ w.1.
Proof.
  intros Hc w w' Hw Hw'. enough (ForallOrdPairs (fun w w' : write => w.1 + zlen w.2 ≤ w'.1 ∨ w'.1 + zlen w'.2 ≤ w.1) ws) as Ho.
  { destruct (ForallOrdPairs_elem _ _ w w' Ho Hw Hw') as [|[|]]; [by left|by right|right; lia]. }
  clear Hw Hw'. induction ws as [|x ws IH]; [constructor|]. cbn in Hc. apply andb_true_iff in Hc as [Hx Hc]. constructor; [|by apply IH].
  rewrite forallb_forall in Hx. apply Forall_forall. intros y Hy. specialize (Hx (y.1, zlen y.2)). apply orb_true_iff in Hx; [lia|].
  apply list_elem_of_In. by apply (list_elem_of_fmap_2 (fun w : write => (w.1, zlen w.2))).
Qed.
Lemma zero_page_apart total ia is_ rsdp old cmdline w w' :
  w ∈ zero_page_writes total ia is_ rsdp old cmdline → w' ∈ zero_page_writes total ia is_ rsdp old cmdline →
  w = w' ∨ w.1 + zlen w.2 ≤ w'.1 ∨ w'.1 + zlen w'.2 ≤ w.1.
Proof. apply apart_in_sound. reflexivity. Qed.
Lemma zero_page_range total ia is_ rsdp old cmdline w :
  w ∈ zero_page_writes total ia is_ rsdp old cmdline → 0x7000 ≤ w.1 ∧ w.1 + zlen w.2 ≤ 0x8000.
Proof.
  assert (forallb (fun '(a, n) => (0x7000 <=? a) && (a + n <=? 0x8000)) ((fun w : write => (w.1, zlen w.2)) <$> zero_page_writes total ia is_ rsdp old cmdline) = true) as Hf by reflexivity.
  rewrite forallb_forall in Hf. intros Hw. specialize (Hf (w.1, zlen w.2)). apply andb_true_iff in Hf; [lia|].
  apply list_elem_of_In. by apply (list_elem_of_fmap_2 (fun w : write => (w.1, zlen w.2))).
Qed.

Section boot.
Context (mem : list Z) (info : KernelInfo) (cfg : BootVM) (transports : list transport) (Hok : boot_ok mem info cfg transports).
Let mode := default X86BootAuto (c_X86Boot cfg).
Let rsdp : Z := if uses_acpi mode then RSDPAddr else 0.
Let bc := boot_config cfg info rsdp.
Let W (old : Z) := boot_writes cfg info transports rsdp old.

Lemma zlen_initrd size content : c_Initrd cfg = Some (InitrdFile size content) → zlen (take (Z.to_nat size) content) = size.
Proof.
  intros He. pose proof (bo_initrd _ _ _ _ Hok) as Hi. rewrite He in Hi. cbn in Hi. unfold zlen in *. rewrite length_take. lia.
Qed.
Lemma bc_MemBytes_ok : bc_MemBytes bc = zlen mem.
Proof.
  unfold bc, boot_config. destruct (initrd_range _ _). cbn. rewrite (bo_size _ _ _ _ Hok). apply u64_small. pose proof (bo_mem _ _ _ _ Hok). lia.
Qed.
Definition page_writes_of (old : Z) : list write :=
  zero_page_writes (zlen mem - 0x100000) (u32 (bc_InitrdAddr bc)) (u32 (bc_InitrdSize bc)) rsdp old (full_cmdline cfg transports).
Definition page_stores (old : Z) : list write := param_writes 0x7000 bc ++ header_writes old (full_cmdline cfg transports).
Lemma param_writes_page w old : w ∈ page_stores old → w ∈ page_writes_of old.
Proof.
  unfold page_stores, param_writes, map_writes, page_writes_of, zero_page_writes. rewrite bc_MemBytes_ok. pose proof (bo_mem _ _ _ _ Hok). lt_is true.
  change (opt_writes true ?l) with l. change (0x7000 + 0x2D0 + 0) with 0x72D0. change (0x7000 + 0x2D0 + 20) with 0x72E4. change (0x7000 + 0x2D0 + 40) with 0x72F8.
  change (0x7000 + 0x2D0 + 60) with 0x730C. change (0x7000 + 0x1E8) with 0x71E8. change (0x7000 + 0x218) with 0x7218. change (0x7000 + 0x21C) with 0x721C.
  change (0x7000 + 0x70) with 0x7070. change (0x7000 + 0x1FA) with 0x71FA. assert (bc_ACPIRSDP bc = rsdp) as -> by (unfold bc, boot_config; by destruct (initrd_range _ _)).
  rewrite !elem_of_app. unfold opt_writes.
  destruct (has_initrd bc), (negb (rsdp =? 0)); rewrite !elem_of_cons; intuition (by eapply not_elem_of_nil).
Qed.
Lemma page_range old w : w ∈ page_writes_of old → 0x7000 ≤ w.1 ∧ w.1 + zlen w.2 ≤ 0x8000.
Proof. exact (zero_page_range _ _ _ _ _ _ w). Qed.
(** Where each store lies. *)
Lemma boot_writes_cases old w : w ∈ W old →
  w = (CmdlineAddr, full_cmdline cfg transports ++ [0]) ∨ (w ∈ initrd_writes info (c_Initrd cfg) ∧ InitrdAddr ≤ w.1 ∧ 0 ≤ zlen w.2 ∧ w.1 + zlen w.2 ≤ zlen mem) ∨ w ∈ page_stores old ∨
  (w = (StartAddr (c_VCPUs cfg), mp_buf (c_VCPUs cfg) (StartAddr (c_VCPUs cfg))) ∧ 0x21000 ≤ w.1 ∧ w.1 + zlen w.2 ≤ 0xA0000 ∧ uses_legacy mode = true).
Proof.
  unfold W, boot_writes. rewrite !elem_of_app. intros Hin. destruct_or! Hin.
  - left. by apply list_elem_of_singleton in Hin.
  - right. left. split; [done|]. pose proof (bo_end _ _ _ _ Hok). pose proof (bo_mem _ _ _ _ Hok). pose proof (bo_initrd _ _ _ _ Hok) as Hf. destruct (initrd_addr_ok info) as [Ha _]; [lia|].
    destruct (c_Initrd cfg) as [[| |size content]|] eqn:E; try (by apply not_elem_of_nil in Hin). cbn [initrd_writes] in Hin. apply list_elem_of_singleton in Hin as ->.
    cbn [fst snd]. rewrite (zlen_initrd _ _ E). cbn in Hf. lia.
  - right. right. left. apply elem_of_app. by left.
  - do 3 right. fold mode in Hin. destruct (uses_legacy mode); [|by apply not_elem_of_nil in Hin]. apply list_elem_of_singleton in Hin as ->. pose proof (bo_cpus _ _ _ _ Hok) as Hc.
    destruct (StartAddr_range (c_VCPUs cfg)) as (H0 & _ & H1 & H2); [unfold maxCPUs; lia|]. cbn [fst snd]. rewrite zlen_mp_buf by lia.
    unfold baseRAMEnd, Size, maxLegacyGSI in *. splits; [done|lia|lia|done].
  - right. right. left. apply elem_of_app. by right.
Qed.
Lemma zlen_cmd : 1 ≤ zlen (full_cmdline cfg transports ++ [0]) ≤ 2048.
Proof. pose proof (bo_cmdline _ _ _ _ Hok) as H. unfold KernelCmdlineMax in H. rewrite zlen_app. change (zlen [0]) with 1. pose proof (zlen_nonneg (full_cmdline cfg transports)). lia. Qed.
Lemma boot_writes_range old w : w ∈ W old → 0x7000 ≤ w.1 ∧ w.1 + zlen w.2 ≤ zlen mem ∧ (w.1 + zlen w.2 ≤ 0x8000 ∨ 0x20000 ≤ w.1) ∧ (w.1 + zlen w.2 ≤ 0xA0000 ∨ InitrdAddr ≤ w.1).
Proof.
  pose proof (bo_mem _ _ _ _ Hok). pose proof zlen_cmd. intros [->|[(_ & ? & ? & ?)|[Hp|(_ & ? & ? & _)]]]%boot_writes_cases; unfold InitrdAddr, CmdlineAddr in *; cbn [fst snd]; [lia|lia| |lia].
  apply param_writes_page, page_range in Hp. lia.
Qed.
Lemma boot_consistent old : consistent (W old).
Proof.
  apply consistent_disjoint. intros w w' Hw Hw'. apply boot_writes_cases in Hw. apply boot_writes_cases in Hw'.
  assert (∀ w, w = (CmdlineAddr, full_cmdline cfg transports ++ [0]) → w.1 = 0x20000 ∧ 1 ≤ zlen w.2 ≤ 2048) as Hcmd by (intros ? ->; split; [done|apply zlen_cmd]).
  assert (∀ w, w ∈ page_stores old → 0x7000 ≤ w.1 ∧ w.1 + zlen w.2 ≤ 0x8000) as Hzp by (intros v Hv; by apply param_writes_page, page_range in Hv).
  assert (InitrdAddr = 0x1000000) as Hia by done. generalize dependent InitrdAddr. intros ia Hw Hw' Hia.
  destruct Hw as [He|[(Hi & ? & ? & ?)|[Hp|(He & ? & ? & _)]]], Hw' as [He'|[(Hi' & ? & ? & ?)|[Hp'|(He' & ? & ? & _)]]];
    try (left; congruence); try (apply Hcmd in He as ?); try (apply Hcmd in He' as ?); try (apply Hzp in Hp as ?); try (apply Hzp in Hp' as ?); try (right; lia).
  - left. destruct (c_Initrd cfg) as [[| |size content]|]; try (by apply not_elem_of_nil in Hi). cbn [initrd_writes] in Hi, Hi'. apply list_elem_of_singleton in Hi, Hi'. congruence.
  - apply param_writes_page in Hp, Hp'. by eapply zero_page_apart.
Qed.

(** The ACPI tables come first. *)
Lemma acpi_stage : ∃ m0,
  (if uses_acpi mode then wrap_err ACPITables (CreateX86Tables mem (c_VCPUs cfg) (acpiMMIODevices transports)) else Ok (0, mem)) = Ok (rsdp, m0) ∧ zlen m0 = zlen mem ∧
  (∀ a b, 0 ≤ a → b ≤ zlen mem → b ≤ SystemStart ∨ RSDPAddr + 36 ≤ a → slice m0 a b = slice mem a b) ∧
  (uses_acpi mode = true → ∃ dsdt, acpi_layout m0 (c_VCPUs cfg) dsdt ∧ parse_aml dsdt = Some (dsdt_tree (acpiMMIODevices transports))).
Proof.
  unfold rsdp. destruct (uses_acpi mode); [|by exists mem]. pose proof (bo_mem _ _ _ _ Hok). pose proof (bo_cpus _ _ _ _ Hok).
  destruct (CreateX86Tables_layout mem (c_VCPUs cfg) (acpiMMIODevices transports)) as (m0 & dsdt & -> & H1 & H2 & H3 & H4).
  - apply Forall_fmap. eapply Forall_impl; [apply (bo_irqs _ _ _ _ Hok)|]. intros t Ht. cbn. unfold GSI_ok. cbn. by eapply fits_mono; [exact Ht|].
  - lia.
  - unfold acpiMMIODevices, zlen. rewrite length_fmap. apply (bo_count _ _ _ _ Hok).
  - unfold RSDPAddr. lia.
  - exists m0. splits; eauto.
Qed.

(** The remaining stages are stores. *)
Lemma store_stages m0 : zlen m0 = zlen mem → ∃ old mem1, writes (W old) m0 = Some mem1 ∧
  (mem ← must (copy_at m0 CmdlineAddr (full_cmdline cfg transports ++ [0]));
   '(mem, (initrdAddr, initrdSize)) ← place_initrd mem info (c_Initrd cfg);
   mem ← must (WriteBootParams mem info (mkBootConfig (u64 (c_MemMB cfg * 1024 * 1024)) initrdAddr initrdSize rsdp));
   mem ← (if uses_legacy mode then wrap_err MPTable (mp_Write mem (c_VCPUs cfg)) else Ok mem);
   must (header_fields mem (full_cmdline cfg transports))) = Ok (E:=boot_err) mem1.
Proof.
  intros L0. pose proof (bo_mem _ _ _ _ Hok) as Hm. pose proof zlen_cmd as Hc. pose proof (bo_end _ _ _ _ Hok) as He.
  unfold copy_at. rewrite take_ge by (unfold CmdlineAddr; unfold zlen in *; lia).
  destruct (splice_ok m0 CmdlineAddr (full_cmdline cfg transports ++ [0])) as [m1 E1]; [unfold CmdlineAddr; lia|unfold CmdlineAddr; lia|].
  pose proof (splice_len _ _ _ _ E1) as L1. rewrite E1. cbn [must mbind res_bind].
  destruct (place_initrd_ok m1 info (c_Initrd cfg)) as (m2 & -> & W2); [lia|lia|rewrite L1, L0; apply (bo_initrd _ _ _ _ Hok)|].
  pose proof (writes_len _ _ _ W2) as L2. cbn [mbind res_bind]. destruct (initrd_range info (c_Initrd cfg)) as [ia isz] eqn:Er.
  rewrite WriteBootParams_writes, (bo_base _ _ _ _ Hok). assert (mkBootConfig (u64 (c_MemMB cfg * 1024 * 1024)) ia isz rsdp = bc) as -> by (unfold bc, boot_config; by rewrite Er).
  destruct (writes_ok (param_writes 0x7000 bc) m2) as (m3 & W3 & L3).
  { apply Forall_forall. intros w Hw. assert (w ∈ page_writes_of 0) as Hp%page_range by (apply param_writes_page, elem_of_app; by left). unfold write_in. lia. }
  rewrite W3. cbn [must mbind res_bind].
  assert (∃ m4, (if uses_legacy mode then wrap_err MPTable (mp_Write m3 (c_VCPUs cfg)) else Ok m3) = Ok m4 ∧ zlen m4 = zlen mem ∧
    writes (opt_writes (uses_legacy mode) [(StartAddr (c_VCPUs cfg), mp_buf (c_VCPUs cfg) (StartAddr (c_VCPUs cfg)))]) m3 = Some m4) as (m4 & -> & L4 & W4).
  { destruct (uses_legacy mode); [|exists m3; splits; [done|lia|done]]. pose proof (bo_cpus _ _ _ _ Hok). destruct (StartAddr_range (c_VCPUs cfg)) as (H0 & _ & H1 & _); [unfold maxCPUs; lia|].
    unfold baseRAMEnd in H1. destruct (splice_ok m3 (StartAddr (c_VCPUs cfg)) (mp_buf (c_VCPUs cfg) (StartAddr (c_VCPUs cfg)))) as [m4 E4]; [lia|rewrite zlen_mp_buf by lia; lia|].
    exists m4. unfold mp_Write. le_is false. unfold maxCPUs. lt_is false. cbv zeta. lt_is false. rewrite E4. splits; [done|rewrite (splice_len _ _ _ _ E4); lia|]. cbn [opt_writes writes]. by rewrite E4. }
  cbn [mbind res_bind]. destruct (header_fields_writes m4 (full_cmdline cfg transports)) as (old & m5 & -> & W5); [lia|].
  exists old, m5. split; [|done]. unfold W, boot_writes. rewrite writes_app. cbn [writes]. rewrite E1. cbn [mbind option_bind]. fold mode bc.
  rewrite writes_app, W2. cbn [mbind option_bind]. rewrite writes_app, W3. cbn [mbind option_bind]. rewrite writes_app, W4. exact W5.
Qed.

(** Memory after the vCPUs have stored their tables as well. *)
Lemma after_boot old m0 mem1 mem2 :
  writes (W old) m0 = Some mem1 → writes (long_mode_writes 0x9000) mem1 = Some mem2 →
  (∀ w, w ∈ W old → holds mem2 w.1 w.2) ∧
  (∀ lo hi, 0x7000 ≤ lo → hi ≤ 0x8000 ∨ 0xF000 ≤ lo → Forall (clear_of lo hi) (W old) → slice mem2 lo hi = slice m0 lo hi).
Proof.
  intros H1 H2. assert (∀ lo hi, 0x7000 ≤ lo → hi ≤ 0x8000 ∨ 0xF000 ≤ lo → slice mem2 lo hi = slice mem1 lo hi) as Hf.
  { intros lo hi Hlo Hr. apply (writes_frame _ _ _ lo hi H2). apply Forall_forall. intros w Hw. apply long_mode_range in Hw as [Hz Hr']; [|lia]. unfold clear_of. lia. }
  split.
  - intros w Hw. unfold holds. rewrite Hf; [by apply (writes_consistent_holds (W old) m0 mem1 w (boot_consistent old))|..]; apply boot_writes_range in Hw; lia.
  - intros lo hi Hlo Hr Hc. rewrite Hf by done. by apply (writes_frame _ _ _ lo hi H1).
Qed.

Section view.
Context (old : Z) (m0 m : list Z) (Hmod : ∀ w, w ∈ W old → holds m w.1 w.2).
Context (Hfr : ∀ lo hi, 0x7000 ≤ lo → hi ≤ 0x8000 ∨ 0xF000 ≤ lo → Forall (clear_of lo hi) (W old) → slice m lo hi = slice m0 lo hi).
Context (Hz : ∀ lo hi, 0x7000 ≤ lo ≤ hi → hi ≤ 0x8000 → slice m0 lo hi = Some (replicate (Z.to_nat (hi - lo)) 0)).

Lemma in_params w : w ∈ param_writes 0x7000 bc → holds m w.1 w.2.
Proof. intros Hw. apply Hmod. unfold W, boot_writes. rewrite !elem_of_app. fold bc. auto 6. Qed.
Lemma in_header w : w ∈ header_writes old (full_cmdline cfg transports) → holds m w.1 w.2.
Proof. intros Hw. apply Hmod. unfold W, boot_writes. rewrite !elem_of_app. auto 6. Qed.
Lemma getLE_held n a v : holds m a (LE n v) → 0 ≤ v < 256 ^ Z.of_nat n → getLE n m a = Some v.
Proof.
  intros Hh Hv. unfold getLE. unfold holds in Hh. rewrite zlen_LE in Hh. rewrite Hh. cbn [fmap option_fmap option_map]. f_equal. by apply le_decode_encode.
Qed.
Lemma at_held a b : holds m a [b] → at_ m a = Some b.
Proof.
  intros [Hr Hs]%slice_Some. change (zlen [b]) with 1 in Hr, Hs. unfold at_. le_is true. replace (a + 1 - a) with 1 in Hs by lia.
  assert ([b] !! 0%nat = Some b) as Hb by done. rewrite Hs in Hb. rewrite lookup_take_lt, lookup_drop, Nat.add_0_r in Hb by (cbn; lia). done.
Qed.

(** A field of the zero page that is not stored reads as zero. *)
Lemma unwritten n a :
  0x7000 ≤ a → a + Z.of_nat n ≤ 0x8000 →
  forallb (fun w : write => (a + Z.of_nat n <=? w.1) || (w.1 + zlen w.2 <=? a)) (page_stores old) = true →
  getLE n m a = Some 0.
Proof.
  intros Ha Hn Hf. unfold getLE. rewrite Hfr; [|lia|lia|].
  - rewrite Hz by lia. cbn. f_equal. replace (Z.to_nat (a + Z.of_nat n - a)) with n by lia. clear. induction n as [|n IH]; [done|]. cbn. by rewrite IH.
  - apply Forall_forall. intros w [->|[(_ & ? & ? & ?)|[Hp|(_ & ? & ? & _)]]]%boot_writes_cases; unfold clear_of, CmdlineAddr, InitrdAddr in *; cbn [fst snd]; [lia|lia| |lia].
    rewrite forallb_forall in Hf. apply list_elem_of_In, Hf, orb_true_iff in Hp. lia.
Qed.

Lemma bc_fields : (bc_InitrdAddr bc, bc_InitrdSize bc) = initrd_range info (c_Initrd cfg) ∧ bc_ACPIRSDP bc = rsdp.
Proof. unfold bc, boot_config. by destruct (initrd_range _ _). Qed.
Lemma page_stores_eq :
  page_stores old = [(0x71E8, [4])] ++ e820_writes 0x72D0 0 0x9FC00 1 ++ e820_writes 0x72E4 0x9FC00 0x40400 2 ++ e820_writes 0x72F8 0xE0000 0x20000 2 ++
    e820_writes 0x730C 0x100000 (zlen mem - 0x100000) 1 ++
    opt_writes (has_initrd bc) [(0x7218, LE 4 (u32 (bc_InitrdAddr bc))); (0x721C, LE 4 (u32 (bc_InitrdSize bc)))] ++
    opt_writes (negb (rsdp =? 0)) [(0x7070, LE 8 rsdp)] ++ [(0x71FA, LE 2 0xFFFF)] ++ header_writes old (full_cmdline cfg transports).
Proof.
  unfold page_stores, param_writes, map_writes. rewrite bc_MemBytes_ok. pose proof (bo_mem _ _ _ _ Hok). lt_is true.
  rewrite (proj2 bc_fields), <- !app_assoc. done.
Qed.
Lemma page_held w : w ∈ page_stores old → holds m w.1 w.2.
Proof. unfold page_stores. rewrite elem_of_app. intros [|]; [by apply in_params|by apply in_header]. Qed.

Lemma e820_held off a sz t :
  (∀ w, w ∈ e820_writes off a sz t → w ∈ page_stores old) → fits 64 a → fits 64 sz → fits 32 t →
  (addr ← getLE 8 m off; size ← getLE 8 m (off + 8); typ ← getLE 4 m (off + 16); Some (addr, size, typ)) = Some (a, sz, t).
Proof.
  intros Hin Ha Hs Ht. rewrite (getLE_held 8 off a), (getLE_held 8 (off + 8) sz), (getLE_held 4 (off + 16) t); [done|..]; try done.
  - rewrite <- (u32_small t) by done. apply (page_held (off + 16, LE 4 (u32 t))), Hin. unfold e820_writes. rewrite !elem_of_cons. auto.
  - apply (page_held (off + 8, LE 8 sz)), Hin. unfold e820_writes. rewrite !elem_of_cons. auto.
  - apply (page_held (off, LE 8 a)), Hin. unfold e820_writes. rewrite !elem_of_cons. auto.
Qed.
Definition memory_map : list (Z * Z * Z) :=
  [(0, 0x9FC00, 1); (0x9FC00, 0x40400, 2); (0xE0000, 0x20000, 2); (0x100000, zlen mem - 0x100000, 1)].
Lemma read_e820_ok : read_e820 m 0x7000 = Some memory_map.
Proof.
  pose proof (bo_mem _ _ _ _ Hok). unfold read_e820. change (0x7000 + 0x1E8) with 0x71E8.
  rewrite (at_held 0x71E8 4) by (apply (page_held (0x71E8, [4])); rewrite page_stores_eq; left). cbn [mbind option_bind]. change (upto 4) with [0; 1; 2; 3]. cbn [mapM].
  change (0x7000 + 0x2D0 + 20 * 0) with 0x72D0. change (0x7000 + 0x2D0 + 20 * 1) with 0x72E4. change (0x7000 + 0x2D0 + 20 * 2) with 0x72F8. change (0x7000 + 0x2D0 + 20 * 3) with 0x730C.
  cbv zeta. rewrite (e820_held 0x72D0 0 0x9FC00 1), (e820_held 0x72E4 0x9FC00 0x40400 2), (e820_held 0x72F8 0xE0000 0x20000 2), (e820_held 0x730C 0x100000 (zlen mem - 0x100000) 1);
    try (unfold fits; lia); try (intros w Hw; rewrite page_stores_eq, !elem_of_app; by auto 10). done.
Qed.
Lemma read_initrd_fields :
  getLE 4 m 0x7218 = Some (if has_initrd bc then u32 (bc_InitrdAddr bc) else 0) ∧ getLE 4 m 0x721C = Some (if has_initrd bc then u32 (bc_InitrdSize bc) else 0).
Proof.
  pose proof page_stores_eq as He. destruct (has_initrd bc).
  - split; (apply getLE_held; [|apply u32_range]).
    + apply (page_held (0x7218, LE 4 (u32 (bc_InitrdAddr bc)))). rewrite He, !elem_of_app. cbn [opt_writes]. rewrite !elem_of_cons. auto 15.
    + apply (page_held (0x721C, LE 4 (u32 (bc_InitrdSize bc)))). rewrite He, !elem_of_app. cbn [opt_writes]. rewrite !elem_of_cons. auto 15.
  - split; (apply unwritten; [lia|cbn; lia|]); rewrite He; by destruct (negb _).
Qed.
Lemma rsdp_range : 0 ≤ rsdp < 256 ^ Z.of_nat 8.
Proof. change (0 ≤ (if uses_acpi mode then RSDPAddr else 0) < 256 ^ Z.of_nat 8). unfold RSDPAddr. case (uses_acpi mode); cbn; lia. Qed.
Lemma read_rsdp : getLE 8 m 0x7070 = Some rsdp.
Proof.
  pose proof page_stores_eq as He. destruct (Z.eqb_spec rsdp 0) as [Hr|Hr]; cbn [negb] in He.
  - rewrite Hr. apply unwritten; [lia|cbn; lia|]. rewrite He. by destruct (has_initrd bc).
  - apply getLE_held; [|apply rsdp_range]. apply (page_held (0x7070, LE 8 rsdp)). rewrite He, !elem_of_app. cbn [opt_writes]. rewrite !elem_of_cons. auto 15.
Qed.

Lemma read_initrd :
  (if (if has_initrd bc then u32 (bc_InitrdAddr bc) else 0) =? 0 then Some None
   else if (if has_initrd bc then u32 (bc_InitrdSize bc) else 0) =? 0 then Some None
   else Some <$> slice m (if has_initrd bc then u32 (bc_InitrdAddr bc) else 0)
     ((if has_initrd bc then u32 (bc_InitrdAddr bc) else 0) + (if has_initrd bc then u32 (bc_InitrdSize bc) else 0))) = Some (initrd_bytes (c_Initrd cfg)).
Proof.
  pose proof (proj1 bc_fields) as Hb. pose proof (bo_mem _ _ _ _ Hok) as Hmem. pose proof (bo_initrd _ _ _ _ Hok) as Hf. pose proof (bo_end _ _ _ _ Hok) as Hend. unfold has_initrd.
  destruct (initrd_addr_ok info) as [Ha _]; [lia|]. unfold InitrdAddr in Ha.
  destruct (c_Initrd cfg) as [[| |size content]|] eqn:Ec; cbn [initrd_range] in Hb; injection Hb as -> ->; try done.
  cbn [initrd_fits] in Hf. cbn [initrd_bytes]. replace (initrd_addr info =? 0) with false by lia. cbn [negb andb]. destruct (Z.eqb_spec size 0) as [Hs|Hs]; cbn [negb]; [done|].
  rewrite !u32_small by lia. replace (initrd_addr info =? 0) with false by lia. replace (size =? 0) with false by lia.
  assert (holds m (initrd_addr info) (take (Z.to_nat size) content)) as Hh.
  { apply (Hmod (initrd_addr info, take (Z.to_nat size) content)). unfold W, boot_writes. rewrite Ec. rewrite !elem_of_app. right. left. left. }
  unfold holds in Hh. rewrite (zlen_initrd _ _ Ec) in Hh. by rewrite Hh.
Qed.
Lemma read_cmdline : let c := full_cmdline cfg transports in slice m CmdlineAddr (CmdlineAddr + zlen c) = Some c ∧ at_ m (CmdlineAddr + zlen c) = Some 0.
Proof.
  cbv zeta. assert (holds m CmdlineAddr (full_cmdline cfg transports ++ [0])) as Hh by (apply (Hmod (CmdlineAddr, full_cmdline cfg transports ++ [0])); unfold W, boot_writes; left).
  pose proof (zlen_nonneg (full_cmdline cfg transports)). split.
  - pose proof (slice_holds m CmdlineAddr _ 0 (zlen (full_cmdline cfg transports)) Hh) as Hs. rewrite Z.add_0_r in Hs. rewrite Hs; [|lia|rewrite zlen_app; change (zlen [0]) with 1; lia].
    rewrite slice_app_l by lia. apply slice_full.
  - apply at_held. unfold holds. rewrite <- Z.add_assoc. rewrite (slice_holds m CmdlineAddr _ _ _ Hh); [|lia|rewrite zlen_app; lia].
    replace (zlen (full_cmdline cfg transports)) with (zlen (full_cmdline cfg transports) + 0) at 1 by lia. rewrite (slice_app_r (full_cmdline cfg transports) [0] 0 (zlen [0])) by done. apply slice_full.
Qed.

Lemma read_boot_ok : read_boot m 0x7000 = Some (mkBootView (full_cmdline cfg transports) memory_map (initrd_bytes (c_Initrd cfg)) rsdp).
Proof.
  assert (∀ n a v, (a, LE n v) ∈ header_writes old (full_cmdline cfg transports) → 0 ≤ v < 256 ^ Z.of_nat n → getLE n m a = Some v) as Hg.
  { intros n a v Hin Hv. apply getLE_held; [|done]. by apply (in_header (a, LE n v)). }
  pose proof zlen_cmd as Hc. rewrite zlen_app in Hc. change (zlen [0]) with 1 in Hc. pose proof (zlen_nonneg (full_cmdline cfg transports)).
  destruct read_cmdline as [Hcmd Hnul]. destruct read_initrd_fields as [Hi1 Hi2]. unfold read_boot. change (0x7000 + 0x1FE) with 0x71FE. change (0x7000 + 0x202) with 0x7202.
  change (0x7000 + 0x210) with 0x7210. change (0x7000 + 0x211) with 0x7211. change (0x7000 + 0x228) with 0x7228. change (0x7000 + 0x238) with 0x7238. change (0x7000 + 0x218) with 0x7218.
  change (0x7000 + 0x21C) with 0x721C. change (0x7000 + 0x70) with 0x7070.
  rewrite (Hg 2%nat 0x71FE 0xAA55), (Hg 4%nat 0x7202 0x53726448); [|unfold header_writes; rewrite !elem_of_cons; auto|cbn; lia|unfold header_writes; rewrite !elem_of_cons; auto|cbn; lia].
  cbn [mbind option_bind]. rewrite (at_held 0x7210 0xFF) by (apply (in_header (0x7210, [0xFF])); unfold header_writes; rewrite !elem_of_cons; auto). cbn [mbind option_bind].
  rewrite (at_held 0x7211 (old .| 1)) by (apply (in_header (0x7211, [old .| 1])); unfold header_writes; rewrite !elem_of_cons; auto). cbn [mbind option_bind].
  rewrite Z.lor_spec, orb_true_r. cbn [Z.eqb andb negb Pos.eqb].
  rewrite (Hg 4%nat 0x7228 CmdlineAddr), (Hg 4%nat 0x7238 (u32 (zlen (full_cmdline cfg transports))));
    [|unfold header_writes; rewrite !elem_of_cons; auto 8|apply u32_range|unfold header_writes; rewrite !elem_of_cons; auto 8|unfold CmdlineAddr; cbn; lia].
  cbn [mbind option_bind]. rewrite u32_small by lia. rewrite Hcmd, Hnul. cbn [mbind option_bind Z.eqb negb]. rewrite read_e820_ok, Hi1, Hi2. cbn [mbind option_bind].
  pose proof read_initrd as Hr. destruct (_ =? 0) eqn:E1; cbn [orb].
  - injection Hr as <-. cbn [mbind option_bind]. by rewrite read_rsdp.
  - destruct (_ =? 0) eqn:E2 in Hr |- *; rewrite Hr; cbn [mbind option_bind]; by rewrite read_rsdp.
Qed.
End view.
End boot.

(** An ELF kernel linked above the zero page leaves memory as boot preparation
    expects it. *)
Lemma elf_boot_ok mem data ef mem' info cfg transports :
  elf_loaded mem data ef mem' info → Forall (fun p => 0x8000 ≤ ph_Paddr p) (loadable ef) → zlen mem' = zlen mem →
  boot_ok mem (mkInfo (EntryPoint info) 0x7000 (KernelEnd info) (Protocol info)) cfg transports → boot_ok mem' info cfg transports.
Proof.
  intros Hl Hp Hz []. destruct info as [entry base kend proto]. cbn in *. pose proof (el_base _ _ _ _ _ Hl) as Hb. cbn in Hb. subst base.
  split; rewrite ?Hz; try done. rewrite <- bo_zero0. apply (el_frame _ _ _ _ _ Hl). intros p Hin. rewrite Forall_forall in Hp. specialize (Hp p Hin). lia.
Qed.

(** The range that holds the initial RAM disk. *)
Definition clear_of_initrd (info : KernelInfo) (cfg : BootVM) (lo hi : Z) : Prop :=
  match c_Initrd cfg with Some (InitrdFile size _) => hi ≤ initrd_addr info ∨ initrd_addr info + size ≤ lo | _ => True end.

Lemma zero_slice mem lo hi : slice mem 0x7000 0x8000 = Some (replicate (Z.to_nat 0x1000) 0) → 0x7000 ≤ lo ≤ hi → hi ≤ 0x8000 →
  slice mem lo hi = Some (replicate (Z.to_nat (hi - lo)) 0).
Proof.
  intros Hz Hlo Hhi. assert (holds mem 0x7000 (replicate (Z.to_nat 0x1000) 0)) as Hh by exact Hz.
  pose proof (slice_holds mem 0x7000 _ (lo - 0x7000) (hi - 0x7000) Hh) as Hs. replace (0x7000 + (lo - 0x7000)) with lo in Hs by lia. replace (0x7000 + (hi - 0x7000)) with hi in Hs by lia.
  rewrite Hs; [|lia|unfold zlen; rewrite length_replicate; lia]. apply slice_Some. split; [unfold zlen; rewrite length_replicate; lia|].
  rewrite drop_replicate, take_replicate. f_equal. lia.
Qed.

(** With more than 3328 MiB the memory map reports the registers of the devices
    as usable RAM. *)
Lemma devices_in_ram mem : VirtioBase < zlen mem → ∃ a n, (a, n, 1) ∈ memory_map mem ∧ a ≤ VirtioBase < a + n.
Proof. intros Hv. exists 0x100000, (zlen mem - 0x100000). split; [unfold memory_map; rewrite !elem_of_cons; auto|unfold VirtioBase in *; lia]. Qed.


Definition sample_vm : BootVM := mkBootVM [] None 2 2 None.
