(* ===== verification/Slirp.v ===== *)
(** * The user-mode network (src/internal/slirp)

    The network stack that answers a guest without host privileges: ARP for the
    gateway, DHCP, and echo requests.  Everything it parses comes from the guest.
    Frames are lists of bytes; a frame that the source builds in a zeroed buffer
    with fields that tile it is the concatenation of its fields. *)
From S2P Require Import Prelude Stream.

(** ** frame.go *)
Definition guestIP : list Z := [10; 0; 2; 15].
Definition gatewayIP : list Z := [10; 0; 2; 2].
Definition dnsIP : list Z := [10; 0; 2; 3].
Definition broadcastIP : list Z := [255; 255; 255; 255].
Definition gatewayMAC : list Z := [0x52; 0x55; 0x0A; 0x00; 0x02; 0x02].
Definition ethTypeIPv4 : Z := 0x0800.
Definition ethTypeARP : Z := 0x0806.
Definition ipProtoICMP : Z := 1.
Definition ipProtoTCP : Z := 6.
Definition ipProtoUDP : Z := 17.
Definition ethHeaderLen : Z := 14.
Definition arpPacketLen : Z := 28.
Definition ipHeaderMin : Z := 20.
Definition udpHeaderLen : Z := 8.
Definition vnetHeaderLen : Z := 12.

Inductive slirp_err := ShortFrame | EBADF | EAGAIN.

(** [binary.BigEndian.UintN(l[o:o+n])] *)
Definition getBE (n : nat) (l : list Z) (o : Z) : option Z := be_decode <$> slice l o (o + Z.of_nat n).
(** [copy] of a value into a zeroed field of [n] bytes. *)
Definition fixed (n : nat) (l : list Z) : list Z := take n (l ++ replicate n 0).

Record ethHeader := mkEth { eth_Dst : list Z; eth_Src : list Z; eth_EtherType : Z }.
Definition parseEth (buf : list Z) : res slirp_err (ethHeader * list Z) :=
  if zlen buf <? ethHeaderLen then Err ShortFrame
  else
    dst ← must (slice buf 0 6);
    src ← must (slice buf 6 12);
    ty ← must (getBE 2 buf 12);
    body ← must (slice buf ethHeaderLen (zlen buf));
    Ok (mkEth dst src ty, body).
Definition writeEth (srcMAC dstMAC : list Z) (etherType : Z) : list Z := fixed 6 dstMAC ++ fixed 6 srcMAC ++ BE 2 etherType.

Record ipv4 := mkIPv4 { ip_IHL : Z; ip_TotalLen : Z; ip_TTL : Z; ip_Proto : Z; ip_Src : list Z; ip_Dst : list Z; ip_Payload : list Z }.
Definition parseIPv4 (buf : list Z) : res slirp_err ipv4 :=
  if zlen buf <? ipHeaderMin then Err ShortFrame
  else
    b0 ← must (at_ buf 0);
    let ihl := (b0 .& 0x0F) * 4 in
    if (ihl <? ipHeaderMin) || (zlen buf <? ihl) then Err ShortFrame
    else
      total ← must (getBE 2 buf 2);
      if (total <? ihl) || (zlen buf <? total) then Err ShortFrame
      else
        ttl ← must (at_ buf 8);
        proto ← must (at_ buf 9);
        src ← must (slice buf 12 16);
        dst ← must (slice buf 16 20);
        payload ← must (slice buf ihl total);
        Ok (mkIPv4 ihl total ttl proto src dst payload).

(** 16-bit words, the last byte of an odd length padded; sums wrap at 32 bits. *)
Fixpoint onesComplementSum (sum : Z) (b : list Z) : Z :=
  match b with
  | x :: y :: b => onesComplementSum (u32 (sum + (x * 256 + y))) b
  | [x] => u32 (sum + u32 (x .<< 8))
  | [] => sum
  end.
(** Folding takes at most three rounds for a 32-bit sum. *)
Fixpoint fold_carry (fuel : nat) (sum : Z) : res slirp_err Z :=
  if negb (sum .>> 16 =? 0) then
    match fuel with O => NoFuel | S fuel => fold_carry fuel (u32 ((sum .& 0xFFFF) + (sum .>> 16))) end
  else Ok sum.
Definition foldChecksum (sum : Z) : res slirp_err Z := sum ← fold_carry 3 sum; Ok (u16 (Z.lnot sum)).
Definition ipv4Checksum (hdr : list Z) : res slirp_err Z := foldChecksum (onesComplementSum 0 hdr).

Definition ip_header (len proto : Z) (src dst : list Z) (checksum : Z) : list Z :=
  [0x45; 0x00] ++ BE 2 (u16 len) ++ BE 2 0 ++ BE 2 0x4000 ++ [64; proto] ++ BE 2 checksum ++ fixed 4 src ++ fixed 4 dst.
Definition emitIPv4Frame (dstMAC src dst : list Z) (proto : Z) (payload : list Z) : res slirp_err (list Z) :=
  let len := ipHeaderMin + zlen payload in
  checksum ← ipv4Checksum (ip_header len proto src dst 0);
  Ok (replicate 12 0 ++ writeEth gatewayMAC dstMAC ethTypeIPv4 ++ ip_header len proto src dst checksum ++ payload).

(** ** arp.go *)
Definition arpHwEthernet : Z := 1.
Definition arpProtoIPv4 : Z := 0x0800.
Definition arpOpRequest : Z := 1.
Definition arpOpReply : Z := 2.
Definition arpHwAddrLen : Z := 6.
Definition arpProtoAddrLen : Z := 4.
Record arpPacket := mkARP { arp_Op : Z; arp_SenderMAC : list Z; arp_SenderIP : list Z; arp_TargetMAC : list Z; arp_TargetIP : list Z }.
Definition parseARP (buf : list Z) : res slirp_err (option arpPacket) :=
  if zlen buf <? arpPacketLen then Ok None
  else
    hwType ← must (getBE 2 buf 0);
    protoType ← must (getBE 2 buf 2);
    if negb (hwType =? arpHwEthernet) || negb (protoType =? arpProtoIPv4) then Ok None
    else
      hl ← must (at_ buf 4);
      pl ← must (at_ buf 5);
      if negb (hl =? arpHwAddrLen) || negb (pl =? arpProtoAddrLen) then Ok None
      else
        op ← must (getBE 2 buf 6);
        smac ← must (slice buf 8 14);
        sip ← must (slice buf 14 18);
        tmac ← must (slice buf 18 24);
        tip ← must (slice buf 24 28);
        Ok (Some (mkARP op smac sip tmac tip)).
Definition buildARPReply (req : arpPacket) : list Z :=
  replicate 12 0 ++ writeEth gatewayMAC (arp_SenderMAC req) ethTypeARP ++
  BE 2 arpHwEthernet ++ BE 2 arpProtoIPv4 ++ [arpHwAddrLen; arpProtoAddrLen] ++ BE 2 arpOpReply ++
  gatewayMAC ++ fixed 4 (arp_TargetIP req) ++ fixed 6 (arp_SenderMAC req) ++ fixed 4 (arp_SenderIP req).

(** ** udp.go *)
Definition udp_header (srcPort dstPort len checksum : Z) : list Z := BE 2 srcPort ++ BE 2 dstPort ++ BE 2 (u16 len) ++ BE 2 checksum.
Definition pseudo_header (srcIP dstIP : list Z) (len : Z) : list Z := fixed 4 srcIP ++ fixed 4 dstIP ++ [0; ipProtoUDP] ++ BE 2 (u16 len).
Definition buildUDPDatagram (srcIP dstIP : list Z) (srcPort dstPort : Z) (payload : list Z) : res slirp_err (list Z) :=
  let len := udpHeaderLen + zlen payload in
  let sum := onesComplementSum 0 (pseudo_header srcIP dstIP len) in
  let sum := onesComplementSum sum (udp_header srcPort dstPort len 0 ++ payload) in
  folded ← foldChecksum sum;
  let folded := if folded =? 0 then 0xFFFF else folded in
  Ok (udp_header srcPort dstPort len folded ++ payload).
Definition parseUDP (buf : list Z) : res slirp_err (option (Z * Z * list Z)) :=
  if zlen buf <? udpHeaderLen then Ok None
  else
    srcPort ← must (getBE 2 buf 0);
    dstPort ← must (getBE 2 buf 2);
    length ← must (getBE 2 buf 4);
    if (length <? udpHeaderLen) || (zlen buf <? length) then Ok None
    else payload ← must (slice buf udpHeaderLen length); Ok (Some (srcPort, dstPort, payload)).

(** ** dhcp.go *)
Definition dhcpServerPort : Z := 67.
Definition dhcpClientPort : Z := 68.
Definition dhcpOpRequest : Z := 1.
Definition dhcpOpReply : Z := 2.
Definition dhcpMagicCookie : Z := 0x63825363.
Definition optPad : Z := 0.
Definition optSubnetMask : Z := 1.
Definition optRouter : Z := 3.
Definition optDNS : Z := 6.
Definition optReqIP : Z := 50.
Definition optLeaseTime : Z := 51.
Definition optMsgType : Z := 53.
Definition optServerID : Z := 54.
Definition optEnd : Z := 255.
Definition dhcpDiscover : Z := 1.
Definition dhcpOffer : Z := 2.
Definition dhcpRequest : Z := 3.
Definition dhcpAck : Z := 5.

Record dhcpMessage := mkDHCP {
  dm_XID : Z; dm_Flags : Z; dm_CIAddr : list Z; dm_YIAddr : list Z; dm_SIAddr : list Z; dm_GIAddr : list Z; dm_CHAddr : list Z;
  dm_MsgType : Z; dm_ReqIP : list Z; dm_ServerID : list Z
}.
Definition set_opts (m : dhcpMessage) (ty : Z) (reqIP serverID : list Z) : dhcpMessage :=
  mkDHCP (dm_XID m) (dm_Flags m) (dm_CIAddr m) (dm_YIAddr m) (dm_SIAddr m) (dm_GIAddr m) (dm_CHAddr m) ty reqIP serverID.
(** The body of the [switch]. *)
Definition take_option (opt ln : Z) (val : list Z) (m : dhcpMessage) : res slirp_err dhcpMessage :=
  if opt =? optMsgType then
    if 1 <=? ln then v ← must (at_ val 0); Ok (set_opts m v (dm_ReqIP m) (dm_ServerID m)) else Ok m
  else if opt =? optReqIP then
    if 4 <=? ln then v ← must (slice val 0 4); Ok (set_opts m (dm_MsgType m) v (dm_ServerID m)) else Ok m
  else if opt =? optServerID then
    if 4 <=? ln then v ← must (slice val 0 4); Ok (set_opts m (dm_MsgType m) (dm_ReqIP m) v) else Ok m
  else Ok m.
Fixpoint walk_options (fuel : nat) (buf : list Z) (i : Z) (m : dhcpMessage) : res slirp_err dhcpMessage :=
  if i <? zlen buf then
    match fuel with
    | O => NoFuel
    | S fuel =>
        opt ← must (at_ buf i);
        if opt =? optEnd then Ok m
        else if opt =? optPad then walk_options fuel buf (i + 1) m
        else if zlen buf <=? i + 1 then Ok m
        else
          ln ← must (at_ buf (i + 1));
          if zlen buf <? i + 2 + ln then Ok m
          else
            val ← must (slice buf (i + 2) (i + 2 + ln));
            m ← take_option opt ln val m;
            walk_options fuel buf (i + 2 + ln) m
    end
  else Ok m.
Definition parseDHCP (buf : list Z) : res slirp_err (option dhcpMessage) :=
  if zlen buf <? 240 then Ok None
  else
    op ← must (at_ buf 0);
    if negb (op =? dhcpOpRequest) then Ok None
    else
      cookie ← must (getBE 4 buf 236);
      if negb (cookie =? dhcpMagicCookie) then Ok None
      else
        xid ← must (getBE 4 buf 4);
        flags ← must (getBE 2 buf 10);
        ci ← must (slice buf 12 16);
        yi ← must (slice buf 16 20);
        si ← must (slice buf 20 24);
        gi ← must (slice buf 24 28);
        ch ← must (slice buf 28 34);
        msg ← walk_options (length buf) buf 240 (mkDHCP xid flags ci yi si gi ch 0 [] []);
        Ok (Some msg).
Definition addOpt (code : Z) (val : list Z) : list Z := [code; u8 (zlen val)] ++ val.
Definition buildDHCPReply (req : dhcpMessage) (msgType : Z) : list Z :=
  [dhcpOpReply; 1; 6; 0] ++ BE 4 (dm_XID req) ++ BE 2 0 ++ BE 2 (dm_Flags req) ++ replicate 4 0 ++ guestIP ++ gatewayIP ++ replicate 4 0 ++
  fixed 6 (dm_CHAddr req) ++ replicate 202 0 ++ BE 4 dhcpMagicCookie ++
  addOpt optMsgType [msgType] ++ addOpt optServerID gatewayIP ++ addOpt optLeaseTime (BE 4 86400) ++ addOpt optSubnetMask [255; 255; 255; 0] ++
  addOpt optRouter gatewayIP ++ addOpt optDNS dnsIP ++ [optEnd].

(** ** slirp.go, icmp.go, udp_nat.go *)
Record Stats := mkStats {
  ARPRequests : Z; ARPReplies : Z; DHCPMessages : Z; ICMPEchoes : Z; UDPOut : Z; UDPIn : Z; TCPDropped : Z; UnknownDrop : Z
}.
Inductive counter := cARPRequests | cARPReplies | cDHCPMessages | cICMPEchoes | cUDPOut | cTCPDropped | cUnknownDrop.
(** [atomic.Uint64.Add(1)] *)
Definition inc (s : Stats) (c : counter) : Stats :=
  mkStats (u64 (ARPRequests s + match c with cARPRequests => 1 | _ => 0 end)) (u64 (ARPReplies s + match c with cARPReplies => 1 | _ => 0 end))
    (u64 (DHCPMessages s + match c with cDHCPMessages => 1 | _ => 0 end)) (u64 (ICMPEchoes s + match c with cICMPEchoes => 1 | _ => 0 end))
    (u64 (UDPOut s + match c with cUDPOut => 1 | _ => 0 end)) (UDPIn s) (u64 (TCPDropped s + match c with cTCPDropped => 1 | _ => 0 end))
    (u64 (UnknownDrop s + match c with cUnknownDrop => 1 | _ => 0 end)).

Record Slirp := mkSlirp { rxQueue : list (list Z); closed : bool; guestMAC : option (list Z); stats : Stats }.
Definition slirp_New : Slirp := mkSlirp [] false None (mkStats 0 0 0 0 0 0 0 0).
Definition rxCapacity : Z := 256.

(** A handler counts, and may build a reply, which it enqueues last. *)

Definition handleARP (st : Stats) (body : list Z) : res slirp_err (Stats * option (list Z)) :=
  pkt ← parseARP body;
  match pkt with
  | None => Ok (inc st cUnknownDrop, None)
  | Some pkt =>
      let st := inc st cARPRequests in
      if negb (arp_Op pkt =? arpOpRequest) then Ok (st, None)
      else if negb (bool_decide (arp_TargetIP pkt = gatewayIP)) && negb (bool_decide (arp_TargetIP pkt = dnsIP)) then Ok (st, None)
      else Ok (inc st cARPReplies, Some (buildARPReply pkt))
  end.

Definition icmpTypeEchoReply : Z := 0.
Definition icmpTypeEchoRequest : Z := 8.
Definition handleICMP (st : Stats) (mac : list Z) (ip : ipv4) : res slirp_err (Stats * option (list Z)) :=
  if negb (bool_decide (ip_Dst ip = gatewayIP)) then Ok (st, None)
  else if zlen (ip_Payload ip) <? 4 then Ok (st, None)
  else
    ty ← must (at_ (ip_Payload ip) 0);
    if negb (ty =? icmpTypeEchoRequest) then Ok (st, None)
    else
      let st := inc st cICMPEchoes in
      reply ← must (set_at (ip_Payload ip) 0 icmpTypeEchoReply);
      reply ← must (set_at reply 2 0);
      reply ← must (set_at reply 3 0);
      checksum ← foldChecksum (onesComplementSum 0 reply);
      reply ← must (splice reply 2 (BE 2 checksum));
      frame ← emitIPv4Frame mac gatewayIP (ip_Src ip) ipProtoICMP reply;
      Ok (st, Some frame).

Definition handleDHCP (st : Stats) (payload : list Z) (eth : ethHeader) : res slirp_err (Stats * option (list Z)) :=
  msg ← parseDHCP payload;
  match msg with
  | None => Ok (inc st cUnknownDrop, None)
  | Some msg =>
      let st := inc st cDHCPMessages in
      match (if dm_MsgType msg =? dhcpDiscover then Some (buildDHCPReply msg dhcpOffer)
             else if dm_MsgType msg =? dhcpRequest then Some (buildDHCPReply msg dhcpAck)
             else None) with
      | None => Ok (st, None)
      | Some reply =>
          udp ← buildUDPDatagram gatewayIP broadcastIP dhcpServerPort dhcpClientPort reply;
          frame ← emitIPv4Frame (eth_Src eth) gatewayIP broadcastIP ipProtoUDP udp;
          Ok (st, Some frame)
      end
  end.

Definition handleUDP (st : Stats) (ip : ipv4) (eth : ethHeader) : res slirp_err (Stats * option (list Z)) :=
  udp ← parseUDP (ip_Payload ip);
  match udp with
  | None => Ok (inc st cUnknownDrop, None)
  | Some (srcPort, dstPort, payload) =>
      last ← must (at_ (ip_Dst ip) 3);
      if (dstPort =? dhcpServerPort) && (srcPort =? dhcpClientPort) &&
         (bool_decide (ip_Dst ip = gatewayIP) || bool_decide (ip_Dst ip = broadcastIP) || (last =? 0xFF))
      then handleDHCP st payload eth
      else Ok (inc st cUDPOut, None)
  end.

Definition handleIPv4 (st : Stats) (mac : list Z) (body : list Z) (eth : ethHeader) : res slirp_err (Stats * option (list Z)) :=
  match parseIPv4 body with
  | Err _ => Ok (inc st cUnknownDrop, None)
  | Panic => Panic
  | NoFuel => NoFuel
  | Ok ip =>
      if ip_Proto ip =? ipProtoUDP then handleUDP st ip eth
      else if ip_Proto ip =? ipProtoICMP then handleICMP st mac ip
      else if ip_Proto ip =? ipProtoTCP then Ok (inc st cTCPDropped, None)
      else Ok (inc st cUnknownDrop, None)
  end.

(** [WriteFrame] up to the reply. *)
Definition dispatch (pkt : list Z) (s : Slirp) : res slirp_err (Slirp * option (list Z)) :=
  if closed s then Err EBADF
  else if zlen pkt <? vnetHeaderLen + ethHeaderLen then Ok (mkSlirp (rxQueue s) (closed s) (guestMAC s) (inc (stats s) cUnknownDrop), None)
  else
    frame ← must (slice pkt vnetHeaderLen (zlen pkt));
    match parseEth frame with
    | Err _ => Ok (mkSlirp (rxQueue s) (closed s) (guestMAC s) (inc (stats s) cUnknownDrop), None)
    | Panic => Panic
    | NoFuel => NoFuel
    | Ok (eth, body) =>
        let mac := default (eth_Src eth) (guestMAC s) in
        '(st, reply) ←
          (if eth_EtherType eth =? ethTypeARP then handleARP (stats s) body
           else if eth_EtherType eth =? ethTypeIPv4 then handleIPv4 (stats s) mac body eth
           else Ok (inc (stats s) cUnknownDrop, None));
        Ok (mkSlirp (rxQueue s) (closed s) (Some mac) st, reply)
    end.
Definition enqueueRX (frame : list Z) (s : Slirp) : Slirp :=
  if closed s then s
  else if zlen (rxQueue s) <? rxCapacity then mkSlirp (rxQueue s ++ [frame]) (closed s) (guestMAC s) (stats s)
  else s.
Definition WriteFrame (pkt : list Z) (s : Slirp) : res slirp_err Slirp :=
  '(s, reply) ← dispatch pkt s;
  Ok (match reply with Some frame => enqueueRX frame s | None => s end).

(** [ReadFrame] with a buffer of [n] bytes: a frame if one is queued, or the tick;
    once closed, nothing more. *)
Definition ReadFrame (n : nat) (s : Slirp) : res slirp_err (list Z * Slirp) :=
  if closed s then Err EBADF
  else match rxQueue s with
       | frame :: q => Ok (take n frame, mkSlirp q (closed s) (guestMAC s) (stats s))
       | [] => Err EAGAIN
       end.
Definition slirp_Close (s : Slirp) : Slirp := mkSlirp (rxQueue s) true (guestMAC s) (stats s).

(** ** Checksums *)
Fixpoint word_sum (b : list Z) : Z :=
  match b with
  | x :: y :: b => x * 256 + y + word_sum b
  | [x] => x * 256
  | [] => 0
  end.
Lemma list2_ind (P : list Z → Prop) : P [] → (∀ x, P [x]) → (∀ x y l, P l → P (x :: y :: l)) → ∀ l, P l.
Proof. intros H0 H1 H2. fix IH 1. intros [|x [|y l]]; [exact H0|apply H1|apply H2, IH]. Qed.
Lemma word_sum_bound b : bytes b → 0 ≤ word_sum b ≤ 65535 * zlen b.
Proof.
  induction b as [|x|x y b IH] using list2_ind; intros Hb; cbn [word_sum]; rewrite ?zlen_cons; change (zlen []) with 0; [lia|..].
  - inversion Hb as [|? ? Hx _]; subst. unfold is_byte in Hx. lia.
  - inversion Hb as [|? ? Hx Hb']; subst. inversion Hb' as [|? ? Hy Hb'']; subst. unfold is_byte in *. specialize (IH Hb''). lia.
Qed.
Lemma sum_exact b : ∀ s, bytes b → 0 ≤ s → s + word_sum b < 2 ^ 32 → onesComplementSum s b = s + word_sum b.
Proof.
  induction b as [|x|x y b IH] using list2_ind; intros s Hb Hs Hlt; cbn [onesComplementSum word_sum] in *.
  - lia.
  - inversion Hb as [|? ? Hx _]; subst. unfold is_byte in Hx. rewrite Z.shiftl_mul_pow2 by lia. rewrite (u32_small (x * 2 ^ 8)) by lia. rewrite u32_small by lia. lia.
  - inversion Hb as [|? ? Hx Hb']; subst. inversion Hb' as [|? ? Hy Hb'']; subst. unfold is_byte in *. pose proof (word_sum_bound b Hb''). rewrite u32_small by lia.
    rewrite IH by (done || lia). lia.
Qed.
Lemma word_sum_app a b : Nat.Even (length a) → word_sum (a ++ b) = word_sum a + word_sum b.
Proof.
  induction a as [|x|x y a IH] using list2_ind; intros He; cbn [app word_sum].
  - lia.
  - destruct He as [k Hk]. cbn in Hk. lia.
  - rewrite IH; [lia|]. destruct He as [k Hk]. cbn in Hk. exists (k - 1)%nat. lia.
Qed.

(** The sum in ones' complement. *)
Definition folds_to (s r : Z) : Prop := 0 ≤ r < 65536 ∧ (∃ k, s = r + 65535 * k) ∧ (r = 0 ↔ s = 0).
Lemma fold_step s : 0 ≤ s < 2 ^ 32 → u32 ((s .& 0xFFFF) + (s .>> 16)) = s mod 65536 + s / 65536.
Proof.
  intros Hs. change 0xFFFF with (Z.ones 16). rewrite Z.land_ones, Z.shiftr_div_pow2 by lia. change (2 ^ 16) with 65536. rewrite u32_small; [done|].
  pose proof (Z.mod_pos_bound s 65536). pose proof (Z.div_mod s 65536). lia.
Qed.
Lemma fold_carry_ok s : 0 ≤ s < 2 ^ 32 → ∃ r, fold_carry 3 s = Ok r ∧ folds_to s r.
Proof.
  assert (∀ fuel s, 0 ≤ s < 65536 → fold_carry fuel s = Ok s) as Hbase.
  { intros fuel t Ht. assert (t .>> 16 = 0) as Hz by (rewrite Z.shiftr_div_pow2 by lia; apply Z.div_small; lia). destruct fuel; cbn [fold_carry]; by rewrite Hz. }
  assert (∀ fuel s t r, 0 ≤ s < 2 ^ 32 → t = s mod 65536 + s / 65536 → fold_carry fuel t = Ok r → folds_to t r → fold_carry (S fuel) s = Ok r ∧ folds_to s r) as Hstep.
  { intros fuel x t r Hx -> Ht (Hr & (k & Hk) & Hz). pose proof (Z.div_mod x 65536). pose proof (Z.mod_pos_bound x 65536). assert (0 ≤ x / 65536) by (apply Z.div_pos; lia). split.
    - cbn [fold_carry]. rewrite fold_step by done. destruct (Z.eqb_spec (x .>> 16) 0) as [Hs|Hs]; cbn [negb]; [|done].
      rewrite Z.shiftr_div_pow2 in Hs by lia. change (2 ^ 16) with 65536 in Hs. assert (x mod 65536 + x / 65536 = x) as He by lia. rewrite He in Ht. rewrite Hbase in Ht by lia. by injection Ht as ->.
    - unfold folds_to. splits; [lia|lia|exists (k + x / 65536); lia|lia]. }
  intros Hs. pose proof (Z.div_mod s 65536). pose proof (Z.mod_pos_bound s 65536). assert (0 ≤ s / 65536 < 65536) by (split; [apply Z.div_pos|apply Z.div_lt_upper_bound]; lia).
  remember (s mod 65536 + s / 65536) as t eqn:Et. pose proof (Z.div_mod t 65536). pose proof (Z.mod_pos_bound t 65536). assert (0 ≤ t / 65536 < 2) by (split; [apply Z.div_pos|apply Z.div_lt_upper_bound]; lia).
  remember (t mod 65536 + t / 65536) as u eqn:Eu. assert (0 ≤ u < 65536) by lia. exists u.
  apply (Hstep 2%nat s t u); [done|done|..]; (apply (Hstep 1%nat t u u); [lia|done|by apply Hbase|]); (unfold folds_to; splits; [lia|lia|exists 0; lia|lia]).
Qed.
Lemma foldChecksum_ok s : 0 ≤ s < 2 ^ 32 → ∃ c, foldChecksum s = Ok c ∧ 0 ≤ c < 65536 ∧ (s + c) mod 65535 = 0 ∧ 0 < s + c.
Proof.
  intros Hs. destruct (fold_carry_ok s Hs) as (r & Hr & Hb & (k & Hk) & Hz). unfold foldChecksum. rewrite Hr. cbn [mbind res_bind].
  assert (u16 (Z.lnot r) = 65535 - r) as Hc by (unfold u16, Z.lnot; change (2 ^ 16) with 65536; replace (Z.pred (- r)) with (65535 - r + -1 * 65536) by lia; rewrite Z.mod_add by lia; apply Z.mod_small; lia).
  exists (65535 - r). rewrite Hc. splits; [done|lia|lia| |lia]. replace (s + (65535 - r)) with ((k + 1) * 65535) by lia. by apply Z.mod_mul.
Qed.

(** ** Parsing never fails badly *)
Lemma slice_bytes l lo hi : bytes l → 0 ≤ lo ≤ hi → hi ≤ zlen l → ∃ r, slice l lo hi = Some r ∧ zlen r = hi - lo ∧ bytes r.
Proof. intros Hb H1 H2. destruct (slice_ok l lo hi H1 H2) as [r Hr]. exists r. splits; [done|by eapply slice_len|by eapply bytes_slice]. Qed.
Lemma at_byte l i : bytes l → 0 ≤ i < zlen l → ∃ v, at_ l i = Some v ∧ is_byte v.
Proof.
  intros Hb Hi. destruct (at_ok l i Hi) as [v Hv]. exists v. split; [done|]. apply at_Some in Hv as [_ Hv]. unfold bytes in Hb. rewrite Forall_lookup in Hb. by eapply Hb.
Qed.
Lemma getBE_ok n l o : bytes l → 0 ≤ o → o + Z.of_nat n ≤ zlen l → ∃ v, getBE n l o = Some v ∧ 0 ≤ v < 256 ^ Z.of_nat n.
Proof.
  intros Hb Ho Hl. destruct (slice_bytes l o (o + Z.of_nat n) Hb) as (r & Hr & Hz & Hbr); [lia|lia|]. unfold getBE. rewrite Hr. exists (be_decode r). split; [done|].
  unfold be_decode. pose proof (le_decode_bound (reverse r)) as H. rewrite zlen_reverse, Hz in H. replace (o + Z.of_nat n - o) with (Z.of_nat n) in H by lia. apply H. by apply Forall_reverse.
Qed.
Ltac get_slice := match goal with |- res_sat _ (must (slice ?l ?lo ?hi) ≫= _) => destruct (slice_bytes l lo hi) as (? & -> & ? & ?); [done|lia|lia|]; cbn [must mbind res_bind] end.
Ltac get_at := match goal with |- res_sat _ (must (at_ ?l ?i) ≫= _) => destruct (at_byte l i) as (? & -> & ?); [done|lia|]; cbn [must mbind res_bind] end.
Ltac get_be := match goal with |- res_sat _ (must (getBE ?n ?l ?o) ≫= _) => destruct (getBE_ok n l o) as (? & -> & ?); [done|lia|cbn; lia|]; cbn [must mbind res_bind] end.

Lemma parseEth_sat buf : bytes buf →
  res_sat (fun r => zlen (eth_Src r.1) = 6 ∧ bytes (eth_Src r.1) ∧ bytes r.2 ∧ zlen r.2 = zlen buf - 14) (parseEth buf).
Proof.
  intros Hb. unfold parseEth, ethHeaderLen. destruct (Z.ltb_spec (zlen buf) 14); [done|]. get_slice. get_slice. get_be. get_slice. done.
Qed.
Lemma parseIPv4_sat buf : bytes buf →
  res_sat (fun ip => zlen (ip_Src ip) = 4 ∧ bytes (ip_Src ip) ∧ zlen (ip_Dst ip) = 4 ∧ bytes (ip_Payload ip) ∧ zlen (ip_Payload ip) ≤ 65515) (parseIPv4 buf).
Proof.
  intros Hb. unfold parseIPv4, ipHeaderMin. destruct (Z.ltb_spec (zlen buf) 20); [done|]. get_at. cbv zeta. remember ((x .& 0x0F) * 4) as ihl eqn:Eihl. clear Eihl.
  destruct ((ihl <? 20) || (zlen buf <? ihl)) eqn:E1; [done|]. b2p. get_be. destruct ((x0 <? ihl) || (zlen buf <? x0)) eqn:E2; [done|]. b2p. change (256 ^ Z.of_nat 2) with 65536 in *. do 2 get_at. do 3 get_slice. cbn. splits; [done|done|done|done|lia].
Qed.
Lemma parseARP_sat buf : bytes buf →
  res_sat (fun p => ∀ a, p = Some a → zlen (arp_SenderMAC a) = 6 ∧ zlen (arp_SenderIP a) = 4 ∧ zlen (arp_TargetIP a) = 4) (parseARP buf).
Proof.
  intros Hb. unfold parseARP, arpPacketLen. destruct (Z.ltb_spec (zlen buf) 28); [done|]. do 2 get_be. destruct (_ || _); [done|]. do 2 get_at. destruct (_ || _); [done|].
  get_be. do 4 get_slice. cbn. intros a [= <-]. cbn. splits; lia.
Qed.
Lemma parseUDP_sat buf : bytes buf → res_sat (fun p => ∀ s d pl, p = Some (s, d, pl) → bytes pl) (parseUDP buf).
Proof.
  intros Hb. unfold parseUDP, udpHeaderLen. destruct (Z.ltb_spec (zlen buf) 8); [done|]. do 3 get_be. destruct (_ || _) eqn:E; [done|]. b2p. get_slice. cbn. by intros s d pl [= <- <- <-].
Qed.
Definition dhcp_ok (m : dhcpMessage) : Prop := zlen (dm_CHAddr m) = 6 ∧ 0 ≤ dm_XID m < 2 ^ 32 ∧ 0 ≤ dm_Flags m < 2 ^ 16 ∧ bytes (dm_CHAddr m).
Lemma take_option_sat opt ln val m : bytes val → zlen val = ln → dhcp_ok m → res_sat dhcp_ok (take_option opt ln val m).
Proof.
  intros Hb Hz Hm. unfold take_option. destruct (_ =? _); [destruct (Z.leb_spec 1 ln); [get_at; done|done]|].
  destruct (_ =? _); [destruct (Z.leb_spec 4 ln); [get_slice; done|done]|]. destruct (_ =? _); [destruct (Z.leb_spec 4 ln); [get_slice; done|done]|]. done.
Qed.
Lemma walk_options_sat fuel buf : bytes buf → ∀ i m, 0 ≤ i → zlen buf - i ≤ Z.of_nat fuel → dhcp_ok m → res_sat dhcp_ok (walk_options fuel buf i m).
Proof.
  intros Hb. induction fuel as [|fuel IH]; intros i m Hi Hf Hm; cbn [walk_options]; destruct (Z.ltb_spec i (zlen buf)); try done; [lia|].
  get_at. destruct (_ =? optEnd); [done|]. destruct (_ =? optPad); [apply IH; [lia|lia|done]|]. destruct (Z.leb_spec (zlen buf) (i + 1)); [done|]. get_at. unfold is_byte in *.
  destruct (Z.ltb_spec (zlen buf) (i + 2 + x0)); [done|]. get_slice. eapply res_sat_bind; [apply take_option_sat; [done|lia|done]|]. intros m' _ Hm'. apply IH; [lia|lia|done].
Qed.
Lemma parseDHCP_sat buf : bytes buf → res_sat (fun p => ∀ m, p = Some m → dhcp_ok m) (parseDHCP buf).
Proof.
  intros Hb. unfold parseDHCP. destruct (Z.ltb_spec (zlen buf) 240); [done|]. get_at. destruct (negb _); [done|]. get_be. destruct (negb _); [done|]. do 2 get_be. do 5 get_slice.
  eapply res_sat_bind; [apply walk_options_sat; [done|lia|unfold zlen; lia|]|].
  - unfold dhcp_ok. cbn in *. splits; (done || lia).
  - intros m _ Hm. cbn. by intros m' [= <-].
Qed.

(** ** What a guest reads in a frame

    A reader of frames on its own: fields are cut off the front, checksums are the
    congruence of RFC 1071 over the sum of the 16-bit words. *)
Fixpoint cut (n : nat) (l : list Z) : option (list Z * list Z) :=
  match n, l with
  | O, _ => Some ([], l)
  | S n, x :: l => '(a, b) ← cut n l; Some (x :: a, b)
  | S _, [] => None
  end.
Definition same (a b : list Z) : bool := bool_decide (a = b).
Definition guarded {A} (b : bool) (o : option A) : option A := if b then o else None.
Definition checksum_ok (b : list Z) : bool := (word_sum b mod 65535 =? 0) && (0 <? word_sum b).
Fixpoint tlvs (fuel : nat) (b : list Z) : option (list (Z * list Z)) :=
  match fuel, b with
  | S fuel, code :: b =>
      if code =? 255 then Some []
      else match b with
           | ln :: b => '(v, b) ← cut (Z.to_nat ln) b; l ← tlvs fuel b; Some ((code, v) :: l)
           | [] => None
           end
  | _, _ => None
  end.

Inductive answer :=
  | AnARPReply (senderMAC senderIP targetMAC targetIP : list Z)
  | AnEchoReply (src dst : list Z) (code : Z) (rest : list Z)
  | ADHCPReply (xid flags : list Z) (yiaddr siaddr chaddr : list Z) (options : list (Z * list Z)).

Definition read_arp (b : list Z) : option answer :=
  '(h, b) ← cut 8 b;
  '(smac, b) ← cut 6 b;
  '(sip, b) ← cut 4 b;
  '(tmac, b) ← cut 6 b;
  '(tip, b) ← cut 4 b;
  guarded (same h [0; 1; 8; 0; 6; 4; 0; 2] && same b []) (Some (AnARPReply smac sip tmac tip)).
Definition read_echo (src dst b : list Z) : option answer :=
  match b with
  | ty :: code :: _ :: _ :: rest => guarded ((ty =? 0) && checksum_ok b) (Some (AnEchoReply src dst code rest))
  | _ => None
  end.
Definition read_dhcp (b : list Z) : option answer :=
  '(h, b) ← cut 4 b;
  '(xid, b) ← cut 4 b;
  '(_, b) ← cut 2 b;
  '(flags, b) ← cut 2 b;
  '(_, b) ← cut 4 b;
  '(yi, b) ← cut 4 b;
  '(si, b) ← cut 4 b;
  '(_, b) ← cut 4 b;
  '(ch, b) ← cut 6 b;
  '(_, b) ← cut 202 b;
  '(cookie, b) ← cut 4 b;
  options ← tlvs (length b) b;
  guarded (same h [2; 1; 6; 0] && same cookie [99; 130; 83; 99]) (Some (ADHCPReply xid flags yi si ch options)).
Definition read_udp (src dst b : list Z) : option answer :=
  match b with
  | s1 :: s2 :: d1 :: d2 :: l1 :: l2 :: c1 :: c2 :: msg =>
      guarded (same [s1; s2; d1; d2] [0; 67; 0; 68] && (l1 * 256 + l2 =? zlen b) && negb (c1 * 256 + c2 =? 0) &&
               checksum_ok (src ++ dst ++ [0; 17; l1; l2] ++ b))
        (read_dhcp msg)
  | _ => None
  end.
Definition read_ipv4 (b : list Z) : option answer :=
  '(h, p) ← cut 20 b;
  match h with
  | [vi; tos; l1; l2; id1; id2; fl; fo; ttl; proto; c1; c2; s0; s1; s2; s3; d0; d1; d2; d3] =>
      guarded ((vi =? 0x45) && (l1 * 256 + l2 =? 20 + zlen p) && (0 <? ttl) && checksum_ok h)
        (if proto =? 17 then read_udp [s0; s1; s2; s3] [d0; d1; d2; d3] p
         else if proto =? 1 then read_echo [s0; s1; s2; s3] [d0; d1; d2; d3] p
         else None)
  | _ => None
  end.
(** The destination of a frame from the gateway, and what it says. *)
Definition receive (f : list Z) : option (list Z * answer) :=
  '(vnet, f) ← cut 12 f;
  '(dst, f) ← cut 6 f;
  '(src, f) ← cut 6 f;
  '(ty, f) ← cut 2 f;
  a ← (if same ty [8; 6] then read_arp f else if same ty [8; 0] then read_ipv4 f else None);
  guarded (same vnet (replicate 12 0) && same src gatewayMAC) (Some (dst, a)).

Lemma cut_ok a b : cut (length a) (a ++ b) = Some (a, b).
Proof. induction a as [|x a IH]; [done|]. cbn [length app cut]. by rewrite IH. Qed.
Lemma cut_app n a b : length a = n → cut n (a ++ b) = Some (a, b).
Proof. intros <-. apply cut_ok. Qed.
Lemma same_refl a : same a a = true.
Proof. by apply bool_decide_eq_true. Qed.
Lemma length_fixed n l : length (fixed n l) = n.
Proof. unfold fixed. rewrite length_take, length_app, length_replicate. lia. Qed.
Lemma fixed_id n l : zlen l = Z.of_nat n → fixed n l = l.
Proof. intros H. unfold fixed. rewrite take_app_le by (unfold zlen in H; lia). apply take_ge. unfold zlen in H. lia. Qed.
Lemma bytes_fixed n l : bytes l → bytes (fixed n l).
Proof. intros Hb. apply Forall_take, Forall_app. split; [done|]. apply Forall_replicate. unfold is_byte. lia. Qed.
Lemma BE2 v : BE 2 v = [v / 256 mod 256; v mod 256].
Proof. reflexivity. Qed.
Lemma BE2_word v : 0 ≤ v < 65536 → v / 256 mod 256 * 256 + v mod 256 = v.
Proof. intros Hv. rewrite (Z.mod_small (v / 256)); [pose proof (Z.div_mod v 256); lia|]. split; [apply Z.div_pos; lia|apply Z.div_lt_upper_bound; lia]. Qed.
Lemma list4 (l : list Z) : zlen l = 4 → ∃ a b c d, l = [a; b; c; d].
Proof. destruct l as [|a [|b [|c [|d [|e l]]]]]; rewrite ?zlen_cons; change (@zlen Z []) with 0; intros H; try (pose proof (zlen_nonneg l)); try lia. eauto. Qed.
Lemma list6 (l : list Z) : zlen l = 6 → ∃ a b c d e f, l = [a; b; c; d; e; f].
Proof. destruct l as [|a [|b l]]; rewrite ?zlen_cons; [done|done|]. intros H. destruct (list4 l) as (c & d & e & f & ->); [lia|]. eauto 10. Qed.
Lemma header_sum len proto s0 s1 s2 s3 d0 d1 d2 d3 c : 0 ≤ c < 65536 →
  word_sum (ip_header len proto [s0; s1; s2; s3] [d0; d1; d2; d3] c) = word_sum (ip_header len proto [s0; s1; s2; s3] [d0; d1; d2; d3] 0) + c.
Proof. intros Hc. unfold ip_header. rewrite !BE2. cbn [app fixed take replicate word_sum]. pose proof (BE2_word c Hc). change (0 / 256 mod 256) with 0. change (0 mod 256) with 0. lia. Qed.
Lemma bytes_header len proto src dst c : is_byte proto → bytes src → bytes dst → bytes (ip_header len proto src dst c).
Proof.
  intros Hp Hs Hd. unfold ip_header. repeat (apply Forall_app; split); try apply bytes_BE; try (by apply bytes_fixed); repeat constructor; unfold is_byte in *; lia.
Qed.
Lemma zlen_ip_header len proto src dst c : zlen (ip_header len proto src dst c) = 20.
Proof. unfold ip_header, zlen. rewrite !length_app, !length_BE, !length_fixed. reflexivity. Qed.
Definition read_payload (proto : Z) (src dst p : list Z) : option answer :=
  if proto =? 17 then read_udp src dst p else if proto =? 1 then read_echo src dst p else None.
Lemma receive_eth mac ty b : zlen mac = 6 →
  receive (replicate 12 0 ++ writeEth gatewayMAC mac ty ++ b) =
  pair mac <$> (if same (BE 2 ty) [8; 6] then read_arp b else if same (BE 2 ty) [8; 0] then read_ipv4 b else None).
Proof.
  intros Hm. unfold receive, writeEth. rewrite (fixed_id 6 mac), (fixed_id 6 gatewayMAC) by done. rewrite <- !app_assoc.
  rewrite (cut_app 12 (replicate 12 0)) by done. cbn [mbind option_bind]. rewrite (cut_app 6 mac) by (unfold zlen in Hm; lia). cbn [mbind option_bind].
  rewrite (cut_app 6 gatewayMAC) by done. cbn [mbind option_bind]. rewrite (cut_app 2 (BE 2 ty)) by done. cbn [mbind option_bind]. rewrite !same_refl.
  by destruct (if same (BE 2 ty) [8; 6] then _ else _).
Qed.
Lemma read_ipv4_ok len proto src dst c p : zlen src = 4 → zlen dst = 4 → 0 ≤ len < 65536 → len = 20 + zlen p → checksum_ok (ip_header len proto src dst c) = true →
  read_ipv4 (ip_header len proto src dst c ++ p) = read_payload proto src dst p.
Proof.
  intros Hs Hd Hl El Hc. destruct (list4 src Hs) as (s0 & s1 & s2 & s3 & ->). destruct (list4 dst Hd) as (d0 & d1 & d2 & d3 & ->).
  unfold read_ipv4. rewrite cut_app by (pose proof (zlen_ip_header len proto [s0; s1; s2; s3] [d0; d1; d2; d3] c) as Hz; unfold zlen in Hz; lia). cbn [mbind option_bind].
  rewrite Hc. unfold ip_header, u16. rewrite (Z.mod_small len) by lia. rewrite !BE2. cbn [app fixed take replicate]. rewrite BE2_word by done. rewrite (proj2 (Z.eqb_eq len (20 + zlen p)) El). reflexivity.
Qed.
Lemma emit_ok mac src dst proto p : zlen mac = 6 → zlen src = 4 → zlen dst = 4 → bytes src → bytes dst → is_byte proto → 20 + zlen p < 65536 →
  ∃ f, emitIPv4Frame mac src dst proto p = Ok f ∧ receive f = pair mac <$> read_payload proto src dst p.
Proof.
  intros Hm Hs Hd Bs Bd Bp Hp. unfold emitIPv4Frame, ipHeaderMin, ipv4Checksum. pose proof (zlen_nonneg p). remember (20 + zlen p) as len eqn:El.
  pose proof (bytes_header len proto src dst 0 Bp Bs Bd) as Hb. pose proof (word_sum_bound _ Hb) as Hw. rewrite zlen_ip_header in Hw. rewrite (sum_exact _ 0 Hb) by lia. rewrite Z.add_0_l.
  destruct (foldChecksum_ok (word_sum (ip_header len proto src dst 0))) as (c & Hc & Hr & Hmod & Hpos); [lia|]. rewrite Hc. cbn [mbind res_bind]. eexists. split; [done|].
  rewrite receive_eth by done. change (same (BE 2 ethTypeIPv4) [8; 6]) with false. change (same (BE 2 ethTypeIPv4) [8; 0]) with true. cbv iota. f_equal. apply read_ipv4_ok; [done|done|lia|done|].
  destruct (list4 src Hs) as (s0 & s1 & s2 & s3 & ->). destruct (list4 dst Hd) as (d0 & d1 & d2 & d3 & ->). unfold checksum_ok. rewrite header_sum, Hmod by done. by apply Z.ltb_lt.
Qed.

(** *** ARP *)
Lemma arp_answer a : zlen (arp_SenderMAC a) = 6 → zlen (arp_SenderIP a) = 4 → zlen (arp_TargetIP a) = 4 →
  receive (buildARPReply a) = Some (arp_SenderMAC a, AnARPReply gatewayMAC (arp_TargetIP a) (arp_SenderMAC a) (arp_SenderIP a)).
Proof.
  intros Hm Hs Ht. unfold buildARPReply. rewrite receive_eth by done. change (same (BE 2 ethTypeARP) [8; 6]) with true. cbv iota. unfold read_arp.
  rewrite (fixed_id 4), (fixed_id 6), (fixed_id 4) by done. set (rest := gatewayMAC ++ _). change (BE 2 arpHwEthernet ++ BE 2 arpProtoIPv4 ++ [arpHwAddrLen; arpProtoAddrLen] ++ BE 2 arpOpReply ++ rest) with ([0; 1; 8; 0; 6; 4; 0; 2] ++ rest).
  rewrite (cut_app 8) by done. cbn [mbind option_bind]. subst rest.
  rewrite (cut_app 6) by done. cbn [mbind option_bind]. rewrite (cut_app 4) by (unfold zlen in *; lia). cbn [mbind option_bind].
  rewrite (cut_app 6) by (unfold zlen in *; lia). cbn [mbind option_bind]. rewrite <- (app_nil_r (arp_SenderIP a)) at 1. rewrite (cut_app 4) by (unfold zlen in *; lia). reflexivity.
Qed.

(** *** Echo *)
Definition echo_reply (code : Z) (rest : list Z) (c : Z) : list Z := 0 :: code :: BE 2 c ++ rest.
Lemma echo_sum code rest c : 0 ≤ c < 65536 → word_sum (echo_reply code rest c) = word_sum (echo_reply code rest 0) + c.
Proof. intros Hc. unfold echo_reply. rewrite !BE2. cbn [app word_sum]. pose proof (BE2_word c Hc). change (0 / 256 mod 256) with 0. change (0 mod 256) with 0. lia. Qed.
Lemma set_at_app (a : list Z) x y b i : i = zlen a → set_at (a ++ x :: b) i y = Some (a ++ y :: b).
Proof. intros ->. apply set_at_Some. rewrite zlen_app, zlen_cons. pose proof (zlen_nonneg a). pose proof (zlen_nonneg b). split; [lia|]. unfold zlen. rewrite Nat2Z.id. by rewrite insert_app_r_alt, Nat.sub_diag by lia. Qed.
Lemma splice_mid (a x b y : list Z) i : i = zlen a → zlen x = zlen y → splice (a ++ x ++ b) i y = Some (a ++ y ++ b).
Proof.
  intros -> Hz. unfold splice. rewrite !zlen_app, Hz. pose proof (zlen_nonneg a). pose proof (zlen_nonneg b).
  rewrite (proj2 (Z.leb_le 0 (zlen a))), (proj2 (Z.leb_le (zlen a + zlen y) (zlen a + (zlen y + zlen b)))) by lia. cbn [andb]. unfold zlen in *. rewrite Nat2Z.id, take_app_length, drop_app_add'.
  2: done. by rewrite drop_app_length' by lia.
Qed.
Lemma handleICMP_ok st mac ip ty code c1 c2 rest :
  zlen mac = 6 → zlen (ip_Src ip) = 4 → bytes (ip_Src ip) → bytes (ip_Payload ip) → zlen (ip_Payload ip) ≤ 65515 →
  ip_Dst ip = gatewayIP → ip_Payload ip = ty :: code :: c1 :: c2 :: rest → ty = icmpTypeEchoRequest →
  ∃ f, handleICMP st mac ip = Ok (inc st cICMPEchoes, Some f) ∧ receive f = Some (mac, AnEchoReply gatewayIP (ip_Src ip) code rest).
Proof.
  intros Hm Hs Bs Bp Hz Hd Hp ->. unfold handleICMP. rewrite Hd, bool_decide_eq_true_2, Hp by done. cbn [negb]. rewrite Hp in Bp, Hz. rewrite !zlen_cons in *. pose proof (zlen_nonneg rest).
  destruct (Z.ltb_spec (1 + (1 + (1 + (1 + zlen rest)))) 4); [lia|]. change (at_ (icmpTypeEchoRequest :: code :: c1 :: c2 :: rest) 0) with (Some icmpTypeEchoRequest). cbn [must mbind res_bind]. rewrite Z.eqb_refl. cbn [negb].
  rewrite (set_at_app [] icmpTypeEchoRequest icmpTypeEchoReply (code :: c1 :: c2 :: rest) 0 eq_refl : set_at (icmpTypeEchoRequest :: _) 0 _ = Some (icmpTypeEchoReply :: code :: c1 :: c2 :: rest)). cbn [must mbind res_bind].
  rewrite (set_at_app [icmpTypeEchoReply; code] c1 0 (c2 :: rest) 2 eq_refl : set_at (icmpTypeEchoReply :: _) 2 _ = Some (icmpTypeEchoReply :: code :: 0 :: c2 :: rest)). cbn [must mbind res_bind].
  rewrite (set_at_app [icmpTypeEchoReply; code; 0] c2 0 rest 3 eq_refl : set_at (icmpTypeEchoReply :: _) 3 _ = Some (echo_reply code rest 0)). cbn [must mbind res_bind].
  assert (bytes (echo_reply code rest 0)) as Hb.
  { unfold echo_reply. rewrite BE2. inversion Bp as [|? ? _ Hq]; subst. inversion Hq as [|? ? Hc Hq2]; subst. inversion Hq2 as [|? ? _ Hq3]; subst. inversion Hq3 as [|? ? _ Hq4]; subst.
    repeat (constructor; [first [done|by unfold is_byte]|]). done. }
  assert (∀ c, zlen (echo_reply code rest c) = 4 + zlen rest) as Hze by (intros c; unfold echo_reply; rewrite !zlen_cons, zlen_app, zlen_BE; lia).
  pose proof (word_sum_bound _ Hb) as Hw. rewrite Hze in Hw. rewrite (sum_exact _ 0 Hb) by lia. rewrite Z.add_0_l.
  destruct (foldChecksum_ok (word_sum (echo_reply code rest 0))) as (c & Hc & Hr & Hmod & Hpos); [lia|]. rewrite Hc. cbn [mbind res_bind].
  rewrite (splice_mid [icmpTypeEchoReply; code] (BE 2 0) rest (BE 2 c) 2 eq_refl eq_refl : splice (echo_reply code rest 0) 2 _ = Some (echo_reply code rest c)). cbn [must mbind res_bind].
  destruct (emit_ok mac gatewayIP (ip_Src ip) ipProtoICMP (echo_reply code rest c)) as (f & -> & Hf); try done.
  - repeat (constructor; [by unfold is_byte|]). constructor.
  - rewrite Hze. lia.
  - exists f. split; [done|]. rewrite Hf. unfold read_payload. cbn [Z.eqb ipProtoICMP Pos.eqb]. unfold read_echo, echo_reply. rewrite BE2. cbn [app]. fold (BE 2 c).
    change (0 :: code :: c / 256 mod 256 :: c mod 256 :: rest) with (echo_reply code rest c). unfold checksum_ok. rewrite echo_sum by done. rewrite Hmod, (proj2 (Z.ltb_lt _ _) Hpos). done.
Qed.

(** *** DHCP *)
Lemma udp_sum src dst sp dp len c p : zlen src = 4 → zlen dst = 4 → 0 ≤ c < 65536 →
  word_sum (src ++ dst ++ [0; 17] ++ BE 2 len ++ BE 2 sp ++ BE 2 dp ++ BE 2 len ++ BE 2 c ++ p) =
  word_sum (src ++ dst ++ [0; 17] ++ BE 2 len) + word_sum (BE 2 sp ++ BE 2 dp ++ BE 2 len ++ BE 2 0 ++ p) + c.
Proof.
  intros Hs Hd Hc. destruct (list4 src Hs) as (s0 & s1 & s2 & s3 & ->). destruct (list4 dst Hd) as (d0 & d1 & d2 & d3 & ->). rewrite !BE2. cbn [app word_sum].
  pose proof (BE2_word c Hc). change (0 / 256 mod 256) with 0. change (0 mod 256) with 0. lia.
Qed.
Lemma buildUDPDatagram_ok src dst p : zlen src = 4 → zlen dst = 4 → bytes src → bytes dst → bytes p → 8 + zlen p < 65516 →
  ∃ d, buildUDPDatagram src dst dhcpServerPort dhcpClientPort p = Ok d ∧ zlen d = 8 + zlen p ∧ read_udp src dst d = read_dhcp p.
Proof.
  intros Hs Hd Bs Bd Bp Hp. unfold buildUDPDatagram, udpHeaderLen. pose proof (zlen_nonneg p). remember (8 + zlen p) as len eqn:El.
  unfold udp_header, pseudo_header, u16. rewrite (Z.mod_small len), !(fixed_id 4) by (done || lia). rewrite <- !app_assoc.
  assert (bytes (src ++ dst ++ [0; ipProtoUDP] ++ BE 2 len)) as Hb1 by (repeat (apply Forall_app; split); [done|done|by repeat constructor|apply bytes_BE]).
  assert (bytes (BE 2 dhcpServerPort ++ BE 2 dhcpClientPort ++ BE 2 len ++ BE 2 0 ++ p)) as Hb2 by (repeat (apply Forall_app; split); (apply bytes_BE || done)).
  pose proof (word_sum_bound _ Hb1) as Hw1. pose proof (word_sum_bound _ Hb2) as Hw2. rewrite !zlen_app, !zlen_BE in Hw1. rewrite !zlen_app, !zlen_BE in Hw2. change (zlen [0; ipProtoUDP]) with 2 in Hw1.
  rewrite (sum_exact _ 0 Hb1), (sum_exact _ _ Hb2) by lia. rewrite Z.add_0_l. set (s1 := word_sum (src ++ _)). set (s2 := word_sum (BE 2 dhcpServerPort ++ _)).
  destruct (foldChecksum_ok (s1 + s2)) as (c & -> & Hr & Hmod & Hpos); [subst s1 s2; lia|]. cbn [mbind res_bind].
  remember (if c =? 0 then 0xFFFF else c) as c' eqn:Ec.
  assert (0 < c' < 65536 ∧ (s1 + s2 + c') mod 65535 = 0 ∧ 0 < s1 + s2 + c') as (Hr' & Hmod' & Hpos').
  { subst c'. destruct (Z.eqb_spec c 0) as [->|Hc]; [|splits; (done || lia)]. rewrite Z.add_0_r in *. splits; [lia|lia| |lia].
    replace (s1 + s2 + 65535) with (s1 + s2 + 1 * 65535) by lia. rewrite Z.mod_add by lia. done. }
  eexists. split; [done|]. split; [rewrite !zlen_app, !zlen_BE; lia|].
  pose proof (udp_sum src dst dhcpServerPort dhcpClientPort len c' p Hs Hd ltac:(lia) : _ = s1 + s2 + c') as Hsum. clearbody s1 s2. unfold read_udp.
  rewrite !BE2 in *. cbn [app] in *. unfold checksum_ok. rewrite Hsum, Hmod', (proj2 (Z.ltb_lt _ _) Hpos'), !zlen_cons, !BE2_word by lia.
  rewrite (proj2 (Z.eqb_eq len _)) by lia. rewrite (proj2 (Z.eqb_neq c' 0)) by lia. reflexivity.
Qed.
Lemma dhcp_reply_read req ty : zlen (dm_CHAddr req) = 6 →
  read_dhcp (buildDHCPReply req ty) =
  Some (ADHCPReply (BE 4 (dm_XID req)) (BE 2 (dm_Flags req)) guestIP gatewayIP (dm_CHAddr req)
          [(optMsgType, [ty]); (optServerID, gatewayIP); (optLeaseTime, BE 4 86400); (optSubnetMask, [255; 255; 255; 0]); (optRouter, gatewayIP); (optDNS, dnsIP)]).
Proof.
  intros Hz. unfold buildDHCPReply. rewrite (fixed_id 6) by done. destruct (list6 (dm_CHAddr req) Hz) as (a & b & c & d & e & f & ->).
  generalize (dm_XID req) (dm_Flags req). intros xid flags. vm_compute. reflexivity.
Qed.

(** ** What a guest asks *)
Record eth_fields := mkEthFields { ef_vnet : list Z; ef_dst : list Z; ef_src : list Z; ef_tail : list Z }.
Record ip_fields := mkIPFields { if_tos : Z; if_id : list Z; if_ttl : Z; if_sum : list Z; if_src : list Z; if_dst : list Z }.
Inductive request :=
  | AskARP (smac sip tmac tip : list Z)
  | AskEcho (ip : ip_fields) (code : Z) (sum rest : list Z)
  | AskDHCP (ip : ip_fields) (sum head : list Z) (xid : Z) (secs : list Z) (flags : Z) (ci yi si gi chaddr names : list Z) (options : list (Z * list Z)).

Definition ip_bytes (f : ip_fields) (proto : Z) (p : list Z) : list Z :=
  [0x45; if_tos f] ++ BE 2 (20 + zlen p) ++ if_id f ++ [if_ttl f; proto] ++ if_sum f ++ if_src f ++ if_dst f ++ p.
Definition udp_bytes (sp dp : Z) (sum p : list Z) : list Z := BE 2 sp ++ BE 2 dp ++ BE 2 (8 + zlen p) ++ sum ++ p.
Definition option_bytes (o : Z * list Z) : list Z := o.1 :: zlen o.2 :: o.2.
Definition request_body (r : request) : list Z :=
  match r with
  | AskARP smac sip tmac tip => [0; 1; 8; 0; 6; 4; 0; 1] ++ smac ++ sip ++ tmac ++ tip
  | AskEcho ip code sum rest => ip_bytes ip 1 ([8; code] ++ sum ++ rest)
  | AskDHCP ip sum head xid secs flags ci yi si gi chaddr names options =>
      ip_bytes ip 17 (udp_bytes 68 67 sum
        (1 :: head ++ BE 4 xid ++ secs ++ BE 2 flags ++ ci ++ yi ++ si ++ gi ++ chaddr ++ names ++ BE 4 dhcpMagicCookie ++ concat (option_bytes <$> options) ++ [255]))
  end.
Definition request_type (r : request) : list Z := match r with AskARP _ _ _ _ => [8; 6] | _ => [8; 0] end.
Definition request_frame (e : eth_fields) (r : request) : list Z :=
  ef_vnet e ++ ef_dst e ++ ef_src e ++ request_type r ++ request_body r ++ ef_tail e.

(** The type of the last message-type option. *)
Definition msg_type (t : Z) (options : list (Z * list Z)) : Z :=
  fold_left (fun t o => if o.1 =? 53 then default t (head o.2) else t) options t.

(** Who is to be answered, and what. *)
Definition expected (learned : list Z) (e : eth_fields) (r : request) : option (list Z * answer) :=
  match r with
  | AskARP smac sip tmac tip => guarded (same tip gatewayIP || same tip dnsIP) (Some (smac, AnARPReply gatewayMAC tip smac sip))
  | AskEcho ip code sum rest => guarded (same (if_dst ip) gatewayIP) (Some (learned, AnEchoReply gatewayIP (if_src ip) code rest))
  | AskDHCP ip sum head xid secs flags ci yi si gi chaddr names options =>
      let offer ty := Some (ef_src e, ADHCPReply (BE 4 xid) (BE 2 flags) guestIP gatewayIP chaddr
        [(53, [ty]); (54, gatewayIP); (51, BE 4 86400); (1, [255; 255; 255; 0]); (3, gatewayIP); (6, dnsIP)]) in
      let ty := msg_type 0 options in
      guarded (same (if_dst ip) gatewayIP || same (drop 3 (if_dst ip)) [255]) (if ty =? 1 then offer 2 else if ty =? 3 then offer 5 else None)
  end.

Definition wf_eth (e : eth_fields) : Prop := zlen (ef_vnet e) = 12 ∧ zlen (ef_dst e) = 6 ∧ zlen (ef_src e) = 6.
Definition wf_ip (f : ip_fields) : Prop := zlen (if_id f) = 4 ∧ zlen (if_sum f) = 2 ∧ zlen (if_src f) = 4 ∧ zlen (if_dst f) = 4.
Definition wf_option (o : Z * list Z) : Prop := o.1 ≠ 0 ∧ o.1 ≠ 255 ∧ zlen o.2 < 256.
Definition wf_request (r : request) : Prop :=
  bytes (request_body r) ∧
  match r with
  | AskARP smac sip tmac tip => zlen smac = 6 ∧ zlen sip = 4 ∧ zlen tmac = 6 ∧ zlen tip = 4
  | AskEcho ip code sum rest => wf_ip ip ∧ zlen sum = 2 ∧ zlen rest ≤ 65511
  | AskDHCP ip sum head xid secs flags ci yi si gi chaddr names options =>
      wf_ip ip ∧ zlen sum = 2 ∧ zlen head = 3 ∧ 0 ≤ xid < 2 ^ 32 ∧ zlen secs = 2 ∧ 0 ≤ flags < 2 ^ 16 ∧
      zlen ci = 4 ∧ zlen yi = 4 ∧ zlen si = 4 ∧ zlen gi = 4 ∧ zlen chaddr = 6 ∧ zlen names = 202 ∧ Forall wf_option options ∧
      zlen (concat (option_bytes <$> options)) < 65000
  end.

(** Reading a field of a concatenation: skip the fields before it. *)
Lemma slice_skip (a b : list Z) lo hi : zlen a ≤ lo → slice (a ++ b) lo hi = slice b (lo - zlen a) (hi - zlen a).
Proof. intros H. pose proof (slice_app_r a b (lo - zlen a) (hi - zlen a)) as E. rewrite <- E by lia. f_equal; lia. Qed.
Lemma slice_here (a b : list Z) lo hi : lo = 0 → hi = zlen a → slice (a ++ b) lo hi = Some a.
Proof. intros -> ->. exact (slice_middle [] a b). Qed.
Lemma slice_rest (a : list Z) lo hi : lo = 0 → hi = zlen a → slice a lo hi = Some a.
Proof. intros -> ->. apply slice_full. Qed.
Lemma at_skip (a b : list Z) i : zlen a ≤ i → at_ (a ++ b) i = at_ b (i - zlen a).
Proof.
  intros H. unfold at_. pose proof (zlen_nonneg a). rewrite (proj2 (Z.leb_le 0 i)), (proj2 (Z.leb_le 0 (i - zlen a))) by lia.
  rewrite lookup_app_r by (unfold zlen in H; lia). f_equal. unfold zlen. lia.
Qed.
Lemma at_tl (x : Z) b i : 1 ≤ i → at_ (x :: b) i = at_ b (i - 1).
Proof. intros H. apply (at_skip [x] b i H). Qed.
Lemma at_hd (x : Z) b i : i = 0 → at_ (x :: b) i = Some x.
Proof. by intros ->. Qed.
Lemma at_open (x : Z) a b i : at_ ((x :: a) ++ b) i = at_ (x :: a ++ b) i.
Proof. done. Qed.
Lemma getBE_skip n (a b : list Z) o : zlen a ≤ o → getBE n (a ++ b) o = getBE n b (o - zlen a).
Proof. intros H. unfold getBE. rewrite slice_skip by done. do 2 f_equal. lia. Qed.
Lemma getBE_here n v b o : o = 0 → 0 ≤ v < 256 ^ Z.of_nat n → getBE n (BE n v ++ b) o = Some v.
Proof. intros -> Hv. unfold getBE. rewrite slice_here by (done || by rewrite zlen_BE). cbn. by rewrite BE_decode. Qed.
Ltac field_lia := autorewrite with go_len; rewrite ?zlen_app, ?zlen_BE, ?zlen_cons, ?zlen_nil; lia.
Ltac seek := repeat first
  [ rewrite at_hd by field_lia | rewrite at_tl by field_lia | rewrite at_skip by field_lia | rewrite at_open
  | rewrite slice_here by field_lia | rewrite slice_rest by field_lia | rewrite slice_skip by field_lia
  | rewrite getBE_here by (first [field_lia|done]) | rewrite getBE_skip by field_lia ]; reflexivity.
Ltac read_field := match goal with
  | |- must ?o ≫= _ = _ => let H := fresh in eassert (o = Some _) as H by seek; rewrite H; clear H; cbn [must mbind res_bind]
  end.
Lemma parseEth_ok dst src ty body : zlen dst = 6 → zlen src = 6 → 0 ≤ ty < 65536 → parseEth (dst ++ src ++ BE 2 ty ++ body) = Ok (mkEth dst src ty, body).
Proof.
  intros Hd Hs Ht. unfold parseEth, ethHeaderLen. pose proof (zlen_nonneg body). rewrite (proj2 (Z.ltb_ge _ _)) by field_lia. read_field. read_field. read_field. read_field. reflexivity.
Qed.
Lemma parseIPv4_ok f proto p tail : wf_ip f → zlen p ≤ 65515 →
  parseIPv4 (ip_bytes f proto p ++ tail) = Ok (mkIPv4 20 (20 + zlen p) (if_ttl f) proto (if_src f) (if_dst f) p).
Proof.
  intros (Hi & Hc & Hs & Hd) Hp. unfold parseIPv4, ip_bytes, ipHeaderMin. pose proof (zlen_nonneg p). pose proof (zlen_nonneg tail). rewrite <- !app_assoc.
  rewrite (proj2 (Z.ltb_ge _ _)) by field_lia. read_field. cbv zeta. change ((0x45 .& 0x0F) * 4) with 20. rewrite (proj2 (Z.ltb_ge (zlen _) 20)) by field_lia. cbn [Z.ltb Z.compare Pos.compare Pos.compare_cont orb].
  read_field. rewrite (proj2 (Z.ltb_ge (20 + zlen p) 20)), (proj2 (Z.ltb_ge (zlen _) (20 + zlen p))) by field_lia. cbn [orb]. do 5 read_field. reflexivity.
Qed.
Lemma parseARP_ok smac sip tmac tip tail : zlen smac = 6 → zlen sip = 4 → zlen tmac = 6 → zlen tip = 4 →
  parseARP ([0; 1; 8; 0; 6; 4; 0; 1] ++ smac ++ sip ++ tmac ++ tip ++ tail) = Ok (Some (mkARP 1 smac sip tmac tip)).
Proof.
  intros H1 H2 H3 H4. pose proof (zlen_nonneg tail). unfold parseARP, arpPacketLen. change [0; 1; 8; 0; 6; 4; 0; 1] with (BE 2 1 ++ BE 2 0x800 ++ [6; 4] ++ BE 2 1). rewrite <- !app_assoc.
  rewrite (proj2 (Z.ltb_ge _ _)) by field_lia. do 2 read_field. cbn [arpHwEthernet arpProtoIPv4 Z.eqb Pos.eqb negb orb]. do 2 read_field. cbn [arpHwAddrLen arpProtoAddrLen Z.eqb Pos.eqb negb orb]. do 5 read_field. reflexivity.
Qed.
Lemma parseUDP_ok sp dp sum p : 0 ≤ sp < 65536 → 0 ≤ dp < 65536 → zlen sum = 2 → zlen p ≤ 65507 → parseUDP (udp_bytes sp dp sum p) = Ok (Some (sp, dp, p)).
Proof.
  intros Hs Hd Hc Hp. unfold parseUDP, udp_bytes, udpHeaderLen. pose proof (zlen_nonneg p). rewrite (proj2 (Z.ltb_ge _ _)) by field_lia. do 3 read_field.
  rewrite (proj2 (Z.ltb_ge (8 + zlen p) 8)), (proj2 (Z.ltb_ge (zlen _) (8 + zlen p))) by field_lia. cbn [orb]. read_field. reflexivity.
Qed.

(** *** The options *)
Definition same_header (m m' : dhcpMessage) : Prop := dm_XID m = dm_XID m' ∧ dm_Flags m = dm_Flags m' ∧ dm_CHAddr m = dm_CHAddr m'.
Lemma take_option_ok code val m : ∃ m', take_option code (zlen val) val m = Ok m' ∧ same_header m m' ∧ dm_MsgType m' = msg_type (dm_MsgType m) [(code, val)].
Proof.
  unfold take_option, msg_type. cbn [fold_left fst snd]. change optMsgType with 53. pose proof (zlen_nonneg val). destruct (code =? 53) eqn:E.
  - destruct val as [|v val]; [by eexists|]. rewrite (proj2 (Z.leb_le _ _)) by (rewrite zlen_cons in *; pose proof (zlen_nonneg val); lia). by eexists.
  - destruct (code =? optReqIP); [|destruct (code =? optServerID); [|by eexists]].
    all: destruct (Z.leb_spec 4 (zlen val)); [|by eexists]; destruct (slice_ok val 0 4) as [r ->]; [lia|lia|by eexists].
Qed.
Lemma walk_end fuel pre tail m : walk_options (S fuel) (pre ++ 255 :: tail) (zlen pre) m = Ok m.
Proof. pose proof (zlen_nonneg tail). cbn [walk_options]. rewrite (proj2 (Z.ltb_lt _ _)) by field_lia. read_field. reflexivity. Qed.
Lemma walk_step fuel pre code val tail m : code ≠ 0 → code ≠ 255 →
  walk_options (S fuel) (pre ++ code :: zlen val :: val ++ tail) (zlen pre) m =
  (m ← take_option code (zlen val) val m; walk_options fuel ((pre ++ code :: zlen val :: val) ++ tail) (zlen (pre ++ code :: zlen val :: val)) m).
Proof.
  intros H0 H255. pose proof (zlen_nonneg tail). pose proof (zlen_nonneg val). cbn [walk_options]. rewrite (proj2 (Z.ltb_lt _ _)) by field_lia. read_field.
  unfold optEnd, optPad. rewrite (proj2 (Z.eqb_neq code 255)), (proj2 (Z.eqb_neq code 0)) by done. rewrite (proj2 (Z.leb_gt _ _)) by field_lia. read_field. rewrite (proj2 (Z.ltb_ge _ _)) by field_lia.
  assert (slice (pre ++ code :: zlen val :: val ++ tail) (zlen pre + 2) (zlen pre + 2 + zlen val) = Some val) as ->.
  { change (pre ++ code :: zlen val :: val ++ tail) with (pre ++ [code; zlen val] ++ val ++ tail). seek. }
  cbn [must mbind res_bind]. rewrite <- app_assoc. cbn [app]. replace (zlen (pre ++ code :: zlen val :: val)) with (zlen pre + 2 + zlen val) by field_lia. reflexivity.
Qed.
Lemma walk_options_ok options : ∀ fuel pre tail m, Forall wf_option options → (length options < fuel)%nat →
  ∃ m', walk_options fuel (pre ++ concat (option_bytes <$> options) ++ 255 :: tail) (zlen pre) m = Ok m' ∧ same_header m m' ∧ dm_MsgType m' = msg_type (dm_MsgType m) options.
Proof.
  induction options as [|[code val] options IH]; intros fuel pre tail m Hw Hf; (destruct fuel as [|fuel]; [cbn in Hf; lia|]).
  - exists m. split; [apply walk_end|done].
  - inversion Hw as [|? ? (H0 & H255 & Hlen) Hw']; subst. cbn [fst snd] in *. cbn [fmap list_fmap concat]. unfold option_bytes at 1. cbn [fst snd app]. rewrite <- app_assoc, walk_step by done.
    destruct (take_option_ok code val m) as (m1 & -> & (Hx & Hfl & Hc) & Ht). cbn [mbind res_bind].
    destruct (IH fuel (pre ++ code :: zlen val :: val) tail m1 Hw' ltac:(cbn in Hf; lia)) as (m2 & -> & (Hx2 & Hfl2 & Hc2) & Ht2).
    exists m2. unfold same_header. splits; try congruence. by rewrite Ht2, Ht.
Qed.
Lemma options_short options : (length options ≤ length (concat (option_bytes <$> options)))%nat.
Proof. induction options as [|[c v] o IH]; [done|]. cbn. rewrite length_app. lia. Qed.
Lemma parseDHCP_ok head xid secs flags ci yi si gi ch names options :
  zlen head = 3 → 0 ≤ xid < 2 ^ 32 → zlen secs = 2 → 0 ≤ flags < 2 ^ 16 → zlen ci = 4 → zlen yi = 4 → zlen si = 4 → zlen gi = 4 → zlen ch = 6 → zlen names = 202 → Forall wf_option options →
  ∃ m, parseDHCP (1 :: head ++ BE 4 xid ++ secs ++ BE 2 flags ++ ci ++ yi ++ si ++ gi ++ ch ++ names ++ BE 4 dhcpMagicCookie ++ concat (option_bytes <$> options) ++ [255]) = Ok (Some m) ∧
    dm_XID m = xid ∧ dm_Flags m = flags ∧ dm_CHAddr m = ch ∧ dm_MsgType m = msg_type 0 options.
Proof.
  intros Hh Hx Hs Hf H1 H2 H3 H4 Hc Hn Hw. pose proof (zlen_nonneg (concat (option_bytes <$> options))) as Hpos.
  set (pre := [1] ++ head ++ BE 4 xid ++ secs ++ BE 2 flags ++ ci ++ yi ++ si ++ gi ++ ch ++ names ++ BE 4 dhcpMagicCookie).
  assert (zlen pre = 240) as Hpre by (subst pre; field_lia).
  change (1 :: head ++ ?r) with ([1] ++ head ++ r). set (buf := [1] ++ _).
  assert (buf = pre ++ concat (option_bytes <$> options) ++ [255]) as Hbuf by (subst buf pre; by rewrite <- !app_assoc).
  destruct (walk_options_ok options (length buf) pre [] (mkDHCP xid flags ci yi si gi ch 0 [] []) Hw) as (m & Hm & (Hx' & Hf' & Hc') & Ht).
  { rewrite Hbuf, !length_app. pose proof (options_short options). cbn. lia. }
  exists m. split; [|by splits]. rewrite <- Hbuf, Hpre in Hm. unfold parseDHCP. rewrite (proj2 (Z.ltb_ge _ _)) by (rewrite Hbuf; field_lia). subst buf. clear Hbuf Hpre pre.
  read_field. change (negb (1 =? dhcpOpRequest)) with false. cbv iota. read_field. change (negb (dhcpMagicCookie =? dhcpMagicCookie)) with false. cbv iota. do 7 read_field. rewrite Hm. reflexivity.
Qed.

(** ** Questions and answers *)
Lemma dispatch_eth s vnet dst src ty body : closed s = false → zlen vnet = 12 → zlen dst = 6 → zlen src = 6 → 0 ≤ ty < 65536 →
  dispatch (vnet ++ dst ++ src ++ BE 2 ty ++ body) s =
  ('(st, reply) ← (if ty =? ethTypeARP then handleARP (stats s) body
                   else if ty =? ethTypeIPv4 then handleIPv4 (stats s) (default src (guestMAC s)) body (mkEth dst src ty)
                   else Ok (inc (stats s) cUnknownDrop, None));
   Ok (mkSlirp (rxQueue s) false (Some (default src (guestMAC s))) st, reply)).
Proof.
  intros Hc Hv Hd Hs Ht. unfold dispatch, vnetHeaderLen, ethHeaderLen. rewrite Hc. pose proof (zlen_nonneg body). rewrite (proj2 (Z.ltb_ge _ _)) by field_lia. read_field. rewrite parseEth_ok by done. reflexivity.
Qed.
Definition answers (m : res slirp_err (Stats * option (list Z))) (a : option (list Z * answer)) : Prop :=
  ∃ st reply, m = Ok (st, reply) ∧ reply ≫= receive = a ∧ (reply = None ↔ a = None).
Lemma answers_none st : answers (Ok (st, None)) None.
Proof. by eexists _, _. Qed.
Lemma answers_some st f a : receive f = Some a → answers (Ok (st, Some f)) (Some a).
Proof. intros H. eexists _, _. split; [done|]. by split. Qed.
Lemma same_spec a b : same a b = bool_decide (a = b).
Proof. done. Qed.
Lemma answers_arp st e learned smac sip tmac tip : zlen smac = 6 → zlen sip = 4 → zlen tmac = 6 → zlen tip = 4 →
  answers (handleARP st (request_body (AskARP smac sip tmac tip) ++ ef_tail e)) (expected learned e (AskARP smac sip tmac tip)).
Proof.
  intros H1 H2 H3 H4. cbn [request_body expected]. rewrite <- !app_assoc. unfold handleARP. rewrite parseARP_ok by done. cbn [mbind res_bind arp_Op arp_TargetIP Z.eqb arpOpRequest Pos.eqb negb]. unfold same.
  destruct (bool_decide (tip = gatewayIP)), (bool_decide (tip = dnsIP)); cbn [negb andb orb guarded]; try apply answers_none; apply answers_some; by apply arp_answer.
Qed.
Lemma answers_echo st e learned mac ip code sum rest : wf_request (AskEcho ip code sum rest) → zlen learned = 6 →
  answers (handleIPv4 st learned (request_body (AskEcho ip code sum rest) ++ ef_tail e) mac) (expected learned e (AskEcho ip code sum rest)).
Proof.
  intros (Hb & (Hi & Hc & Hs & Hd) & Hsum & Hr) Hl. pose proof (zlen_nonneg rest). cbn [request_body expected] in *. unfold handleIPv4. rewrite parseIPv4_ok by (done || field_lia). cbn [ip_Proto Z.eqb ipProtoUDP ipProtoICMP Pos.eqb].
  unfold ip_bytes in Hb. apply Forall_app in Hb as [_ Hb]. apply Forall_app in Hb as [_ Hb]. do 3 (apply Forall_app in Hb as [_ Hb]). apply Forall_app in Hb as [Bs Hb]. apply Forall_app in Hb as [_ Bp].
  unfold same. destruct (bool_decide_reflect (if_dst ip = gatewayIP)) as [Hg|Hg]; cbn [guarded].
  - destruct sum as [|c1 [|c2 [|c3 sum]]]; rewrite ?zlen_cons in Hsum; try (by cbn in Hsum); [|pose proof (zlen_nonneg sum); lia].
    destruct (handleICMP_ok st learned (mkIPv4 20 (20 + zlen ([8; code] ++ [c1; c2] ++ rest)) (if_ttl ip) 1 (if_src ip) (if_dst ip) ([8; code] ++ [c1; c2] ++ rest)) 8 code c1 c2 rest) as (f & -> & Hf); try done; [cbn; field_lia|].
    by apply answers_some.
  - unfold handleICMP. cbn [ip_Dst]. rewrite bool_decide_eq_false_2 by done. apply answers_none.
Qed.
Lemma bytes_reply m ty : is_byte ty → bytes (dm_CHAddr m) → bytes (buildDHCPReply m ty).
Proof.
  intros Hty Hb. unfold buildDHCPReply, addOpt. repeat (apply Forall_app; split); try apply bytes_BE; try (by apply bytes_fixed); try (apply Forall_replicate; done); repeat (constructor; [first [done|by unfold is_byte]|]); constructor.
Qed.
Lemma zlen_reply m ty : zlen (buildDHCPReply m ty) = 274.
Proof. unfold buildDHCPReply, addOpt. rewrite !zlen_app, !zlen_BE. unfold zlen. by rewrite length_fixed, !length_replicate. Qed.
Lemma bytes_ips : bytes gatewayIP ∧ bytes broadcastIP.
Proof. split; repeat (constructor; [by unfold is_byte|]); constructor. Qed.
Definition dhcp_answer (mac : list Z) (m : dhcpMessage) (ty : Z) : list Z * answer :=
  (mac, ADHCPReply (BE 4 (dm_XID m)) (BE 2 (dm_Flags m)) guestIP gatewayIP (dm_CHAddr m)
     [(53, [ty]); (54, gatewayIP); (51, BE 4 86400); (1, [255; 255; 255; 0]); (3, gatewayIP); (6, dnsIP)]).
Lemma dhcp_send mac m ty : is_byte ty → dhcp_ok m → zlen mac = 6 →
  ∃ d f, buildUDPDatagram gatewayIP broadcastIP dhcpServerPort dhcpClientPort (buildDHCPReply m ty) = Ok d ∧
    emitIPv4Frame mac gatewayIP broadcastIP ipProtoUDP d = Ok f ∧ receive f = Some (dhcp_answer mac m ty).
Proof.
  intros Hty (Hch & _ & _ & Bch) He. pose proof (dhcp_reply_read m ty Hch) as Hread. pose proof (bytes_reply m ty Hty Bch) as Hb. pose proof (zlen_reply m ty) as Hz. generalize dependent (buildDHCPReply m ty). intros reply Hread Hb Hz.
  destruct bytes_ips as [Bg Bb]. destruct (buildUDPDatagram_ok gatewayIP broadcastIP reply) as (d & Hd & Hl & Hr); [done|done|done|done|done|lia|].
  destruct (emit_ok mac gatewayIP broadcastIP ipProtoUDP d) as (f & Hf & Hf'); [done|done|done|done|done|by unfold is_byte|lia|].
  exists d, f. splits; [done|done|]. rewrite Hf'. unfold read_payload. change (ipProtoUDP =? 17) with true. cbv iota. by rewrite Hr, Hread.
Qed.
(** Reducing a bind by rewriting keeps the checker from evaluating what follows it. *)
Lemma bind_ret {E A B} (a : A) (f : A → res E B) : (Ok a ≫= f) = f a.
Proof. done. Qed.
Lemma handleDHCP_sends st payload eth m reply udp frame : parseDHCP payload = Ok (Some m) →
  (if dm_MsgType m =? dhcpDiscover then Some (buildDHCPReply m dhcpOffer) else if dm_MsgType m =? dhcpRequest then Some (buildDHCPReply m dhcpAck) else None) = Some reply →
  buildUDPDatagram gatewayIP broadcastIP dhcpServerPort dhcpClientPort reply = Ok udp →
  emitIPv4Frame (eth_Src eth) gatewayIP broadcastIP ipProtoUDP udp = Ok frame →
  handleDHCP st payload eth = Ok (inc st cDHCPMessages, Some frame).
Proof. intros Hp Hr Hu Hf. unfold handleDHCP. rewrite Hp, bind_ret. cbv beta iota zeta. by rewrite Hr, Hu, bind_ret, Hf. Qed.
Lemma handleDHCP_ok st payload eth m : parseDHCP payload = Ok (Some m) → dhcp_ok m → zlen (eth_Src eth) = 6 →
  answers (handleDHCP st payload eth)
    (if dm_MsgType m =? 1 then Some (dhcp_answer (eth_Src eth) m 2) else if dm_MsgType m =? 3 then Some (dhcp_answer (eth_Src eth) m 5) else None).
Proof.
  intros Hp Hm He. destruct (dm_MsgType m =? 1) eqn:E1; [|destruct (dm_MsgType m =? 3) eqn:E3].
  - destruct (dhcp_send (eth_Src eth) m dhcpOffer) as (d & f & Hd & Hf & Hr); [by unfold is_byte|done|done|]. rewrite (handleDHCP_sends st payload eth m (buildDHCPReply m dhcpOffer) d f Hp); [by apply answers_some|by rewrite (E1 : (dm_MsgType m =? dhcpDiscover) = true)|done|done].
  - destruct (dhcp_send (eth_Src eth) m dhcpAck) as (d & f & Hd & Hf & Hr); [by unfold is_byte|done|done|]. rewrite (handleDHCP_sends st payload eth m (buildDHCPReply m dhcpAck) d f Hp); [by apply answers_some|by rewrite (E1 : (dm_MsgType m =? dhcpDiscover) = false), (E3 : (dm_MsgType m =? dhcpRequest) = true)|done|done].
  - unfold handleDHCP. rewrite Hp, bind_ret. cbv beta iota zeta. rewrite (E1 : (dm_MsgType m =? dhcpDiscover) = false), (E3 : (dm_MsgType m =? dhcpRequest) = false). apply answers_none.
Qed.
Lemma parseDHCP_bytes buf m : parseDHCP buf = Ok (Some m) → bytes buf → dhcp_ok m.
Proof. intros Hp Hb. pose proof (parseDHCP_sat buf Hb) as H. rewrite Hp in H. by apply H. Qed.
Lemma bytes_ip_payload f proto p : bytes (ip_bytes f proto p) → bytes p.
Proof. unfold ip_bytes, bytes. rewrite !Forall_app. tauto. Qed.
Lemma bytes_udp_payload sp dp sum p : bytes (udp_bytes sp dp sum p) → bytes p.
Proof. unfold udp_bytes, bytes. rewrite !Forall_app. tauto. Qed.
Lemma orb_assoc_dst d d0 d1 d2 d3 : d = [d0; d1; d2; d3] →
  bool_decide (d = gatewayIP) || bool_decide (d = broadcastIP) || (d3 =? 0xFF) = bool_decide (d = gatewayIP) || same (drop 3 d) [255].
Proof.
  intros ->. unfold same. cbn [drop]. destruct (bool_decide _); [done|]. cbn [orb]. destruct (Z.eqb_spec d3 0xFF) as [->|Hn]; rewrite ?orb_true_r, ?orb_false_r; [by rewrite bool_decide_true|].
  rewrite !bool_decide_false; [done|congruence|]. unfold broadcastIP. congruence.
Qed.
Lemma answers_dhcp st e learned eth ip sum head xid secs flags ci yi si gi chaddr names options :
  let r := AskDHCP ip sum head xid secs flags ci yi si gi chaddr names options in
  wf_request r → eth_Src eth = ef_src e → zlen (ef_src e) = 6 → answers (handleIPv4 st learned (request_body r ++ ef_tail e) eth) (expected learned e r).
Proof.
  intros r (Hb & Hip & Hsum & Hh & Hx & Hse & Hf & H1 & H2 & H3 & H4 & Hc & Hn & Hw & Hlen) He Hs. subst r. pose proof (zlen_nonneg (concat (option_bytes <$> options))).
  cbn [request_body expected] in *. set (msg := 1 :: head ++ _) in *. assert (zlen msg ≤ 65300) as Hm by (subst msg; field_lia). pose proof (zlen_nonneg msg).
  unfold handleIPv4. unfold udp_bytes at 1. rewrite parseIPv4_ok by (done || field_lia). fold (udp_bytes 68 67 sum msg). cbn [ip_Proto Z.eqb ipProtoUDP Pos.eqb]. unfold handleUDP. cbn [ip_Payload ip_Dst]. rewrite parseUDP_ok by (done || lia). cbn [mbind res_bind].
  destruct Hip as (_ & _ & _ & Hd). destruct (list4 (if_dst ip) Hd) as (d0 & d1 & d2 & d3 & Ed).
  assert (at_ (if_dst ip) 3 = Some d3) as -> by (by rewrite Ed). cbn [must]. rewrite bind_ret. change ((67 =? dhcpServerPort) && (68 =? dhcpClientPort)) with true. rewrite andb_true_l, (orb_assoc_dst (if_dst ip) d0 d1 d2 d3 Ed). change (same (if_dst ip) gatewayIP) with (bool_decide (if_dst ip = gatewayIP)).
  destruct (bool_decide (if_dst ip = gatewayIP) || same (drop 3 (if_dst ip)) [255]); cbn [guarded]; [|apply answers_none].
  destruct (parseDHCP_ok head xid secs flags ci yi si gi chaddr names options) as (m & Hp & Ex & Ef & Ec & Et); try done. fold msg in Hp.
  assert (dhcp_ok m) as Hok. { apply (parseDHCP_bytes _ _ Hp). eapply bytes_ip_payload in Hb. by apply bytes_udp_payload in Hb. }
  pose proof (handleDHCP_ok st msg eth m Hp Hok ltac:(by rewrite He)) as Ha. unfold dhcp_answer in Ha. by rewrite Ex, Ef, Ec, Et, He in Ha.
Qed.

Definition echo_example : request := AskEcho (mkIPFields 0 [0; 1; 0; 0] 64 [1; 2] guestIP gatewayIP) 0 [3; 4] [0; 7; 0; 1; 42].
Definition eth_example : eth_fields := mkEthFields (replicate 12 0) gatewayMAC [2; 0; 0; 0; 0; 1] [].

(** ** Any input at all *)
Lemma answers_any m : (∃ a, answers m a) ↔ ∃ st reply, m = Ok (st, reply) ∧ ∀ f, reply = Some f → is_Some (receive f).
Proof.
  split.
  - intros (a & st & reply & Hm & Ha & Hn). exists st, reply. split; [done|]. intros f ->. change (Some f ≫= receive) with (receive f) in Ha. rewrite Ha. destruct a; [done|]. by destruct Hn as [_ Hn]; specialize (Hn eq_refl).
  - intros (st & [f|] & Hm & Hf); subst m; [|eexists; apply answers_none]. destruct (Hf f eq_refl) as [a Ha]. exists (Some a). by apply answers_some.
Qed.
(** The parsers of protocols above Ethernet and IPv4 have no error to return. *)
Ltac no_err := repeat match goal with
  | |- (if ?b then _ else _) ≠ _ => destruct b
  | |- (must ?o ≫= _) ≠ _ => destruct o; cbn [must]; [rewrite bind_ret; cbv beta|done]
  | |- (Ok _ ≠ Err _) => done
  end.
Lemma parseARP_no_err buf e : parseARP buf ≠ Err e.
Proof. unfold parseARP. no_err. Qed.
Lemma parseUDP_no_err buf e : parseUDP buf ≠ Err e.
Proof. unfold parseUDP. no_err. Qed.
Lemma take_option_no_err opt ln val m e : take_option opt ln val m ≠ Err e.
Proof. unfold take_option. no_err. Qed.
Lemma walk_options_no_err fuel : ∀ buf i m e, walk_options fuel buf i m ≠ Err e.
Proof.
  induction fuel as [|fuel IH]; intros buf i m e; cbn [walk_options]; no_err; try done; try apply IH. destruct (take_option _ _ _ m) as [m'|e'| |] eqn:E; try done; [rewrite bind_ret; apply IH|by apply take_option_no_err in E].
Qed.
Lemma parseDHCP_no_err buf e : parseDHCP buf ≠ Err e.
Proof. unfold parseDHCP. no_err. destruct (walk_options _ _ _ _) as [m'|e'| |] eqn:E; try done. by apply walk_options_no_err in E. Qed.
Lemma handleARP_any st body : bytes body → ∃ a, answers (handleARP st body) a.
Proof.
  intros Hb. unfold handleARP. pose proof (parseARP_sat body Hb) as H. destruct (parseARP body) as [p|e| |] eqn:Ep; cbn in H; [|by apply parseARP_no_err in Ep|done|done]. rewrite bind_ret.
  destruct p as [p|]; [|eexists; apply answers_none]. destruct (H p eq_refl) as (H1 & H2 & H3). destruct (negb _); [eexists; apply answers_none|]. destruct (_ && _); [eexists; apply answers_none|].
  eexists. by apply answers_some, arp_answer.
Qed.
Lemma handleICMP_any st mac ip : zlen mac = 6 → zlen (ip_Src ip) = 4 → bytes (ip_Src ip) → bytes (ip_Payload ip) → zlen (ip_Payload ip) ≤ 65515 → ∃ a, answers (handleICMP st mac ip) a.
Proof.
  intros Hm Hs Bs Bp Hl. destruct (bool_decide_reflect (ip_Dst ip = gatewayIP)) as [Hg|Hg]; [|unfold handleICMP; rewrite bool_decide_eq_false_2 by done; eexists; apply answers_none].
  destruct (ip_Payload ip) as [|ty [|code [|c1 [|c2 rest]]]] eqn:Ep; try (unfold handleICMP; rewrite Ep, bool_decide_eq_true_2 by done; eexists; apply answers_none).
  destruct (Z.eqb_spec ty icmpTypeEchoRequest) as [Ht|Ht].
  - destruct (handleICMP_ok st mac ip ty code c1 c2 rest) as (f & -> & Hf); rewrite ?Ep; try done. eexists. by apply answers_some.
  - unfold handleICMP. rewrite Ep, bool_decide_eq_true_2 by done. cbn [negb]. rewrite (proj2 (Z.ltb_ge _ _)) by (pose proof (zlen_nonneg rest); field_lia).
    change (at_ (ty :: code :: c1 :: c2 :: rest) 0) with (Some ty). cbn [must]. rewrite bind_ret, (proj2 (Z.eqb_neq _ _)) by done. eexists. apply answers_none.
Qed.
Lemma handleUDP_any st ip eth : zlen (ip_Dst ip) = 4 → bytes (ip_Payload ip) → zlen (eth_Src eth) = 6 → ∃ a, answers (handleUDP st ip eth) a.
Proof.
  intros Hd Hb He. unfold handleUDP. pose proof (parseUDP_sat _ Hb) as H. destruct (parseUDP (ip_Payload ip)) as [p|e| |] eqn:Ep; cbn in H; [|by apply parseUDP_no_err in Ep|done|done]. rewrite bind_ret.
  destruct p as [[[sp dp] pl]|]; [|eexists; apply answers_none]. specialize (H sp dp pl eq_refl). destruct (at_ok (ip_Dst ip) 3) as [last Hlast]; [lia|]. rewrite Hlast. cbn [must]. rewrite bind_ret.
  destruct (_ && _); [|eexists; apply answers_none]. pose proof (parseDHCP_sat pl H) as Hp. destruct (parseDHCP pl) as [[m|]|e| |] eqn:Em; cbn in Hp; [| |by apply parseDHCP_no_err in Em|done|done].
  - eexists. apply (handleDHCP_ok st pl eth m); auto.
  - unfold handleDHCP. rewrite Em, bind_ret. eexists. apply answers_none.
Qed.
Lemma handleIPv4_any st mac body eth : zlen mac = 6 → bytes body → zlen (eth_Src eth) = 6 → ∃ a, answers (handleIPv4 st mac body eth) a.
Proof.
  intros Hm Hb He. unfold handleIPv4. pose proof (parseIPv4_sat body Hb) as H. destruct (parseIPv4 body) as [ip|e| |]; cbn in H; [|eexists; apply answers_none|done|done].
  destruct H as (H1 & H2 & H3 & H4 & H5). destruct (_ =? _); [by apply handleUDP_any|]. destruct (_ =? _); [by apply handleICMP_any|]. destruct (_ =? _); eexists; apply answers_none.
Qed.
Definition learned_ok (s : Slirp) : Prop := ∀ m, guestMAC s = Some m → zlen m = 6.
Lemma dispatch_any s pkt : closed s = false → learned_ok s → bytes pkt →
  ∃ s' reply, dispatch pkt s = Ok (s', reply) ∧ closed s' = false ∧ rxQueue s' = rxQueue s ∧ learned_ok s' ∧ ∀ f, reply = Some f → is_Some (receive f).
Proof.
  intros Hc Hl Hb. unfold dispatch, vnetHeaderLen, ethHeaderLen. rewrite Hc. destruct (Z.ltb_spec (zlen pkt) (12 + 14)); [by eexists _, None|].
  destruct (slice_bytes pkt 12 (zlen pkt) Hb) as (frame & -> & Hz & Hf); [lia|lia|]. cbn [must]. rewrite bind_ret. pose proof (parseEth_sat frame Hf) as H1.
  destruct (parseEth frame) as [[eth body]|e| |]; cbn in H1; [|by eexists _, None|done|done]. destruct H1 as (He & _ & Hbody & _). cbv beta iota zeta. assert (zlen (default (eth_Src eth) (guestMAC s)) = 6) as Hm by (destruct (guestMAC s) eqn:E; cbn; auto).
  remember (default (eth_Src eth) (guestMAC s)) as mac eqn:Em.
  assert (∀ b1 b2 : bool, ∃ st reply, (if b1 then handleARP (stats s) body else if b2 then handleIPv4 (stats s) mac body eth else Ok (inc (stats s) cUnknownDrop, None)) = Ok (st, reply) ∧
    ∀ f, reply = Some f → is_Some (receive f)) as Hany.
  { intros b1 b2. apply answers_any. destruct b1; [by apply handleARP_any|]. destruct b2; [by apply handleIPv4_any|]. eexists. apply answers_none. }
  destruct (Hany (eth_EtherType eth =? ethTypeARP) (eth_EtherType eth =? ethTypeIPv4)) as (st & reply & Hh & Hr). rewrite Hh.
  rewrite bind_ret. eexists _, reply. split; [done|]. cbn [closed rxQueue]. splits; [done|done| |done]. unfold learned_ok. cbn [guestMAC]. intros m [= <-]. done.
Qed.

(** A run: the frames the guest sends, the reads of the receive pump with a buffer of
    [cap] bytes, and the shutdown, in any order; what was replied and what was delivered. *)
Inductive slirp_op := SWrite (pkt : list Z) | SRead | SClose.
Record slirp_run := mkSRun { sr_state : Slirp; sr_replies : list (list Z); sr_delivered : list (list Z) }.
Definition reply_to (pkt : list Z) (s : Slirp) : list (list Z) := match dispatch pkt s with Ok (_, Some f) => [f] | _ => [] end.
Definition slirp_do (cap : nat) (o : slirp_op) (r : slirp_run) : res slirp_err slirp_run :=
  match o with
  | SWrite pkt =>
      match WriteFrame pkt (sr_state r) with
      | Ok s => Ok (mkSRun s (sr_replies r ++ reply_to pkt (sr_state r)) (sr_delivered r))
      | Err _ => Ok r
      | Panic => Panic
      | NoFuel => NoFuel
      end
  | SRead =>
      match ReadFrame cap (sr_state r) with
      | Ok (d, s) => Ok (mkSRun s (sr_replies r) (sr_delivered r ++ [d]))
      | Err _ => Ok r
      | Panic => Panic
      | NoFuel => NoFuel
      end
  | SClose => Ok (mkSRun (slirp_Close (sr_state r)) (sr_replies r) (sr_delivered r))
  end.
Definition slirp_start : slirp_run := mkSRun slirp_New [] [].
Definition wf_op (o : slirp_op) : Prop := match o with SWrite pkt => bytes pkt | _ => True end.
Record slirp_inv (cap : nat) (r : slirp_run) : Prop := mkSInv {
  si_room : zlen (rxQueue (sr_state r)) ≤ rxCapacity;
  si_learned : learned_ok (sr_state r);
  si_readable : Forall (fun f => is_Some (receive f)) (sr_replies r);
  si_order : sublist (sr_delivered r ++ (take cap <$> rxQueue (sr_state r))) (take cap <$> sr_replies r)
}.
Lemma slirp_do_inv cap o r : wf_op o → slirp_inv cap r →
  ∃ r', slirp_do cap o r = Ok r' ∧ slirp_inv cap r' ∧
    (closed (sr_state r) = true → sr_replies r' = sr_replies r ∧ sr_delivered r' = sr_delivered r ∧ closed (sr_state r') = true).
Proof.
  intros Hw [H1 H2 H3 H4]. destruct o as [pkt| |]; cbn [slirp_do].
  - destruct (closed (sr_state r)) eqn:Hc.
    { exists r. unfold WriteFrame, dispatch. rewrite Hc. split; [done|]. by split. }
    destruct (dispatch_any _ pkt Hc H2 Hw) as (s' & reply & Hd & Hc' & Hq & Hl & Hr). unfold WriteFrame, reply_to. rewrite Hd, bind_ret. destruct reply as [f|]; [|eexists; split; [done|]; split; [|done]; rewrite app_nil_r; split; cbn; by rewrite ?Hq].
    eexists. split; [done|]. split; [|done]. unfold enqueueRX. rewrite Hc', Hq. destruct (Z.ltb_spec (zlen (rxQueue (sr_state r))) rxCapacity); split; cbn [sr_state sr_replies sr_delivered rxQueue]; try done.
    + field_lia.
    + apply Forall_app_2; [done|]. constructor; [by apply Hr|done].
    + rewrite !fmap_app, app_assoc. by apply sublist_app.
    + by rewrite Hq.
    + apply Forall_app_2; [done|]. constructor; [by apply Hr|done].
    + rewrite Hq, fmap_app. by apply sublist_inserts_r.
  - unfold ReadFrame. destruct (closed (sr_state r)) eqn:Hc; [exists r; by split|]. destruct (rxQueue (sr_state r)) as [|f q] eqn:Eq; [exists r; by split; [|split; [split; rewrite ?Eq|]]|].
    eexists. split; [done|]. split; [|done]. split; cbn [sr_state sr_replies sr_delivered rxQueue]; try done; [rewrite zlen_cons in H1; lia|]. by rewrite <- app_assoc.
  - eexists. split; [done|]. by split.
Qed.

(** Whatever bytes a guest transmits, in whatever order its transmissions, the reads of
    the receive pump and the shutdown come, the stack never panics, never exceeds its queue of
    256 frames, and delivers only replies it made, each once and in the order it made them,
    cut to the reader's buffer; every reply is a frame a guest accepts (its
    lengths and its IPv4, ICMP and UDP checksums are right); and once it is closed nothing more
    is accepted or delivered, whatever follows. *)
Theorem slirp_any_input cap ops later : Forall wf_op ops → Forall wf_op later →
  ∃ r r', for_each (slirp_do cap) ops slirp_start = Ok r ∧ slirp_inv cap r ∧
    for_each (slirp_do cap) later (mkSRun (slirp_Close (sr_state r)) (sr_replies r) (sr_delivered r)) = Ok r' ∧
    sr_replies r' = sr_replies r ∧ sr_delivered r' = sr_delivered r.
Proof.
  assert (∀ ops r, Forall wf_op ops → slirp_inv cap r → ∃ r', for_each (slirp_do cap) ops r = Ok r' ∧ slirp_inv cap r' ∧
    (closed (sr_state r) = true → sr_replies r' = sr_replies r ∧ sr_delivered r' = sr_delivered r)) as Hrun.
  { intros os. induction os as [|o os IH]; intros r Hw Hi; [by exists r|]. inversion Hw as [|? ? Ho Hos]; subst. destruct (slirp_do_inv cap o r Ho Hi) as (r1 & Hd & Hi1 & Hc1).
    destruct (IH r1 Hos Hi1) as (r2 & Hr2 & Hi2 & Hc2). exists r2. cbn [for_each]. rewrite Hd, bind_ret. splits; [done|done|]. intros Hc. destruct (Hc1 Hc) as (Ha & Hb & Hcl). destruct (Hc2 Hcl) as [-> ->]. done. }
  intros Hw Hl. destruct (Hrun ops slirp_start Hw) as (r & Hr & Hi & _); [by split|]. exists r.
  destruct (Hrun later (mkSRun (slirp_Close (sr_state r)) (sr_replies r) (sr_delivered r)) Hl) as (r' & Hr' & _ & Hcl); [destruct Hi; by split|]. exists r'. splits; [done|done|done|by apply Hcl|by apply Hcl].
Qed.
Definition arp_example : request := AskARP [2; 0; 0; 0; 0; 1] guestIP (replicate 6 0) gatewayIP.
Lemma slirp_any_input_witness : ∃ r r', for_each (slirp_do 2048) [SWrite [1; 2]; SWrite (request_frame eth_example arp_example); SRead; SRead] slirp_start = Ok r ∧ slirp_inv 2048 r ∧
    for_each (slirp_do 2048) [SRead; SWrite (request_frame eth_example arp_example)] (mkSRun (slirp_Close (sr_state r)) (sr_replies r) (sr_delivered r)) = Ok r' ∧
    sr_replies r' = sr_replies r ∧ sr_delivered r' = sr_delivered r.
Proof.
  apply (slirp_any_input 2048 [SWrite [1; 2]; SWrite (request_frame eth_example arp_example); SRead; SRead] [SRead; SWrite (request_frame eth_example arp_example)]); cbv -[is_byte]; repeat (constructor; [by repeat (constructor; [by unfold is_byte|])|]); constructor.
Defined.
