(* ===== verification/Migration.v ===== *)
(** * Live migration (src/pkg/vmm/migration.go)

    The pre-copy of a running machine: dirty tracking is switched on, memory and
    disk are copied while vCPUs and devices go on writing, then the machine is
    paused and the pages written since are shipped as patches, which the
    destination applies to the copies.  vCPU stores, device writes (the bytes
    first, the mark in the tracker later), the statements of
    [PrepareMigrationBundle] and the copying of single bytes are steps that
    interleave in any order that the program allows.  A bundle is its files by
    relative name; the JSON of the patch list is its decoded value.  KVM's dirty log
    is a parameter; [rd] and [wr] say which reads and writes of the host succeed. *)
From S2P Require Import Prelude Stream DirtyTracker.

Inductive mig_err := MOpen | MDirtyLog | MPrepare | MSync | MMeta | MRead | MWrite | MUnexpectedEOF | MRefused | MLogging | MNoAsset | MAssetType.

Definition migrationMemFile : string := "mem.bin".
Definition migrationKernelPath : string := "artifacts/kernel".
Definition migrationInitrdPath : string := "artifacts/initrd".
Definition migrationDiskPath : string := "artifacts/disk.ext4".

Record DirtyPatchEntry := mkEntry { pe_Offset : Z; pe_Length : Z; pe_DataOffset : Z }.
Record DirtyFilePatch := mkFilePatch { fp_Path : string; fp_PageSize : Z; fp_Entries : list DirtyPatchEntry }.
Record MigrationPatchSet := mkPatchSet { ps_Version : Z; ps_Patches : list DirtyFilePatch }.

(** ** Bitmaps *)
Definition mergeDirtyBitmaps (a b : list Z) : list Z :=
  let size := Nat.max (length a) (length b) in
  (fun i => (default 0 (a !! i) .| default 0 (b !! i))) <$> seq 0 size.

(** ** Reading pages out *)
Section build.
Context (rd : Z → bool).

Definition chunkSize : Z := 2 ^ 20.
(** [src.ReadAt] of [n] bytes: what there is, up to the end. *)
Definition readAt (src : list Z) (n offset : Z) : list Z := take (Z.to_nat n) (drop (Z.to_nat offset) src).
Fixpoint copyReaderAtRange (fuel : nat) (dst : Writer) (src : list Z) (offset length : Z) : res mig_err Writer :=
  if 0 <? length then
    match fuel with
    | O => NoFuel
    | S fuel =>
        let n := if length <? chunkSize then length else chunkSize in
        if negb (rd offset) then Err MRead
        else
          let read := readAt src n (i64 offset) in
          if zlen read =? 0 then Err MUnexpectedEOF
          else
            let '(dst, err) := io_Write read dst in
            if bool_decide (err = None) then copyReaderAtRange fuel dst src (u64 (offset + zlen read)) (u64 (length - zlen read))
            else Err MWrite
    end
  else Ok dst.

Record Build := mkBuild { bd_w : Writer; bd_entries : list DirtyPatchEntry; bd_pending : option DirtyPatchEntry; bd_off : Z }.

Definition appendPending (src : list Z) (s : Build) : res mig_err Build :=
  match bd_pending s with
  | None => Ok s
  | Some p =>
      w ← copyReaderAtRange (Z.to_nat (pe_Length p)) (bd_w s) src (pe_Offset p) (pe_Length p);
      Ok (mkBuild w (bd_entries s ++ [p]) None (bd_off s))
  end.

(** One bit of a word that is not zero. *)
Definition build_bit (src : list Z) (srcSize pageSize wordIdx word bit : Z) (s : Build) : res mig_err (bool * Build) :=
  if negb (has word (1 .<< bit)) then s ← appendPending src s; Ok (true, s)
  else
    let page := u64 (wordIdx * 64 + bit) in
    let offset := u64 (page * pageSize) in
    if srcSize <=? offset then s ← appendPending src s; Ok (false, s)
    else
      let length := if srcSize <? u64 (offset + pageSize) then u64 (srcSize - offset) else pageSize in
      match bd_pending s with
      | Some p =>
          if u64 (pe_Offset p + pe_Length p) =? offset then
            Ok (true, mkBuild (bd_w s) (bd_entries s) (Some (mkEntry (pe_Offset p) (u64 (pe_Length p + length)) (pe_DataOffset p))) (u64 (bd_off s + length)))
          else
            s ← appendPending src s;
            Ok (true, mkBuild (bd_w s) (bd_entries s) (Some (mkEntry offset length (bd_off s))) (u64 (bd_off s + length)))
      | None => Ok (true, mkBuild (bd_w s) (bd_entries s) (Some (mkEntry offset length (bd_off s))) (u64 (bd_off s + length)))
      end.
Definition bits64 : list Z := Z.of_nat <$> seq 0 64.
Definition build_word (src : list Z) (srcSize pageSize wordIdx word : Z) (s : Build) : res mig_err Build :=
  if word =? 0 then Ok s
  else s ← for_break (build_bit src srcSize pageSize wordIdx word) bits64 s; appendPending src s.

(** The patch, what was written, and the next data offset. *)
Definition buildDirtyFilePatch (w : Writer) (src : list Z) (srcSize : Z) (relPath : string) (pageSize : Z) (bitmap : list Z) (nextDataOffset : Z) :
    res mig_err (DirtyFilePatch * Writer * Z) :=
  if (zlen bitmap =? 0) || (srcSize =? 0) then Ok (mkFilePatch relPath pageSize [], w, nextDataOffset)
  else
    let pageSize := if pageSize =? 0 then 4096 else pageSize in
    s ← for_each (fun '(wi, word) s => build_word src srcSize pageSize (Z.of_nat wi) word s) (imap pair bitmap) (mkBuild w [] None nextDataOffset);
    Ok (mkFilePatch relPath pageSize (bd_entries s), bd_w s, bd_off s).
End build.

(** ** Writing the patches *)
Record Source := mkSource { src_mem : list Z; src_memDirty : DirtyTracker; src_disk : option (list Z * DirtyTracker) }.
Record Host := mkHost { h_open : bool; h_log : bool; h_prepare : bool; h_sync : bool; h_meta : bool; h_rd : Z → bool; h_room : option Z }.
Definition working_host : Host := mkHost true true true true true (fun _ => true) None.

(** The disk's part of it. *)
Definition disk_branch (h : Host) (patches : list DirtyFilePatch) (w : Writer) (off : Z) (img : list Z) (dirty : DirtyTracker) : res mig_err (list DirtyFilePatch * Writer * option (list Z * DirtyTracker)) :=
  if negb (h_prepare h) then Err MPrepare
  else
    let '(diskBitmap, dirty) := SnapshotAndReset dirty in
    if 0 <? zlen diskBitmap then
      '(diskPatch, w, _) ← buildDirtyFilePatch (h_rd h) w img (zlen img) migrationDiskPath (dt_pageSize dirty) diskBitmap off;
      Ok (if 0 <? zlen (fp_Entries diskPatch) then patches ++ [diskPatch] else patches, w, Some (img, dirty))
    else Ok (patches, w, Some (img, dirty)).

(** The bundle's patch list, its patch data, and the source with its trackers read out. *)
Definition writeMigrationPatches (h : Host) (log : list Z) (vm : Source) : res mig_err (MigrationPatchSet * list Z * Source) :=
  if negb (h_open h) then Err MOpen
  else if negb (h_log h) then Err MDirtyLog
  else
    let '(devBitmap, memDirty) := SnapshotAndReset (src_memDirty vm) in
    let memBitmap := mergeDirtyBitmaps log devBitmap in
    '(memPatch, w, off) ← buildDirtyFilePatch (h_rd h) (mkWriter [] (h_room h)) (src_mem vm) (zlen (src_mem vm)) migrationMemFile (dt_pageSize memDirty) memBitmap 0;
    let patches := if 0 <? zlen (fp_Entries memPatch) then [memPatch] else [] in
    '(patches, w, disk) ←
      (match src_disk vm with
       | None => Ok (patches, w, None)
       | Some (img, dirty) => disk_branch h patches w off img dirty
       end);
    if negb (h_sync h) then Err MSync
    else if negb (h_meta h) then Err MMeta
    else Ok (mkPatchSet 1 patches, w_data w, mkSource (src_mem vm) memDirty disk).

(** ** Applying them *)
Definition apply_entry (wr : Z → bool) (patchData : list Z) (e : DirtyPatchEntry) (file : list Z) : res mig_err (list Z) :=
  let buf := readAt patchData (pe_Length e) (i64 (pe_DataOffset e)) in
  if zlen buf <? pe_Length e then Err MRead
  else if negb (wr (pe_Offset e)) then Err MWrite
  else Ok (writeAt file (i64 (pe_Offset e)) buf).
Definition apply_file (wr : Z → bool) (sync : bool) (patchData : list Z) (p : DirtyFilePatch) (dir : gmap string (list Z)) : res mig_err (gmap string (list Z)) :=
  match dir !! fp_Path p with
  | None => Err MOpen
  | Some file =>
      file ← for_each (apply_entry wr patchData) (fp_Entries p) file;
      if sync then Ok (<[fp_Path p := file]> dir) else Err MSync
  end.
(** [patches] is patches.json, if it is there, and [patchData] is patches.bin. *)
Definition ApplyMigrationPatches (wr : Z → bool) (sync : bool) (patches : option MigrationPatchSet) (patchData : option (list Z)) (dir : gmap string (list Z)) :
    res mig_err (gmap string (list Z)) :=
  match patches with
  | None => Ok dir
  | Some set =>
      if zlen (ps_Patches set) =? 0 then Ok dir
      else match patchData with
           | None => Err MOpen
           | Some patchData => for_each (apply_file wr sync patchData) (ps_Patches set) dir
           end
  end.

(** ** Segments *)
Definition segment (src : list Z) (e : DirtyPatchEntry) : list Z := readAt src (pe_Length e) (pe_Offset e).
Definition covers (e : DirtyPatchEntry) (o : Z) : Prop := pe_Offset e ≤ o < pe_Offset e + pe_Length e.
Definition in_bounds (src : list Z) (e : DirtyPatchEntry) : Prop := 0 ≤ pe_Offset e ∧ 0 < pe_Length e ∧ pe_Offset e + pe_Length e ≤ zlen src.
(** The bytes of [e] are in [data] where [e] says. *)
Definition placed (src data : list Z) (e : DirtyPatchEntry) : Prop :=
  0 ≤ pe_DataOffset e ∧ pe_DataOffset e + pe_Length e ≤ zlen data ∧ readAt data (pe_Length e) (pe_DataOffset e) = segment src e.

Lemma zlen_readAt src n o : 0 ≤ n → 0 ≤ o → o + n ≤ zlen src → zlen (readAt src n o) = n.
Proof. intros Hn Ho Hl. unfold readAt, zlen in *. rewrite length_take, length_drop. lia. Qed.
Lemma readAt_lookup src n o (i : nat) : Z.of_nat i < n → 0 ≤ o → readAt src n o !! i = src !! (Z.to_nat o + i)%nat.
Proof. intros Hi Ho. unfold readAt. rewrite lookup_take_lt by lia. apply lookup_drop. Qed.
Lemma readAt_app_l a b n o : 0 ≤ n → 0 ≤ o → o + n ≤ zlen a → readAt (a ++ b) n o = readAt a n o.
Proof. intros Hn Ho Hl. unfold readAt, zlen in *. rewrite drop_app_le by lia. rewrite take_app_le; [done|]. rewrite length_drop. lia. Qed.
Lemma readAt_app_r a b n : 0 ≤ n → readAt (a ++ b) n (zlen a) = take (Z.to_nat n) b.
Proof. intros Hn. unfold readAt, zlen. by rewrite Nat2Z.id, drop_app_length. Qed.
Lemma readAt_split src n m o : 0 ≤ n → 0 ≤ m → 0 ≤ o → readAt src (n + m) o = readAt src n o ++ readAt src m (o + n).
Proof. intros Hn Hm Ho. unfold readAt. rewrite !Z2Nat.inj_add by lia. rewrite <- drop_drop. symmetry. apply take_take_drop. Qed.
Lemma placed_app src data x e : 0 < pe_Length e → placed src data e → placed src (data ++ x) e.
Proof. intros Hl (H0 & H1 & H2). pose proof (zlen_nonneg x). unfold placed. splits; [lia|rewrite zlen_app; lia|]. rewrite readAt_app_l by lia. done. Qed.

Lemma i64_small z : 0 ≤ z < 2 ^ 63 → i64 z = z.
Proof. intros Hz. unfold i64. rewrite Z.mod_small; lia. Qed.

Section correct.
Context (rd : Z → bool) (Hrd : ∀ o, rd o = true).

Lemma copyReaderAtRange_ok src : zlen src < 2 ^ 62 → ∀ fuel w offset length,
  w_room w = None → 0 ≤ offset → 0 ≤ length → offset + length ≤ zlen src → length ≤ Z.of_nat fuel →
  copyReaderAtRange rd fuel w src offset length = Ok (mkWriter (w_data w ++ readAt src length offset) None).
Proof.
  intros Hs. induction fuel as [|fuel IH]; intros w offset length Hw Ho Hl Hb Hf; cbn [copyReaderAtRange]; (destruct (Z.ltb_spec 0 length); [|assert (length = 0) as -> by lia; unfold readAt; rewrite app_nil_r; destruct w; cbn in *; by subst]).
  { lia. }
  rewrite Hrd. cbn [negb]. cbv zeta. set (n := if length <? chunkSize then length else chunkSize). assert (0 < n ≤ length) as Hn by (unfold n, chunkSize; destruct (Z.ltb_spec length (2 ^ 20)); lia). clearbody n.
  rewrite i64_small by lia. pose proof (zlen_readAt src n offset ltac:(lia) Ho ltac:(lia)) as Hz. rewrite Hz. rewrite (proj2 (Z.eqb_neq n 0)) by lia.
  rewrite io_Write_ok by done. rewrite bool_decide_eq_true_2 by done. rewrite !u64_small by lia. rewrite IH by (done || lia). cbn [w_data]. rewrite <- app_assoc, <- readAt_split by lia. do 4 f_equal. lia.
Qed.

Context (src : list Z) (ps : Z) (w0 : list Z) (bitmap : list Z).
Context (Hps : 0 < ps) (Hsize : zlen src + ps < 2 ^ 61) (Hw0 : zlen w0 < 2 ^ 61) (Hbm : 64 * zlen bitmap * ps < 2 ^ 62).

Definition all_entries (s : Build) : list DirtyPatchEntry := bd_entries s ++ match bd_pending s with Some p => [p] | None => [] end.
Definition pending_len (s : Build) : Z := match bd_pending s with Some p => pe_Length p | None => 0 end.
(** The pages below [k] have been looked at. *)
Record build_inv (k : Z) (s : Build) : Prop := mkBInv {
  bi_room : w_room (bd_w s) = None;
  bi_prefix : ∃ x, w_data (bd_w s) = w0 ++ x;
  bi_off : zlen (w_data (bd_w s)) + pending_len s = bd_off s;
  bi_pend : ∀ p, bd_pending s = Some p → pe_DataOffset p = zlen (w_data (bd_w s));
  bi_bound : bd_off s ≤ zlen w0 + Z.min (k * ps) (zlen src);
  bi_in : ∀ e, e ∈ all_entries s → in_bounds src e;
  bi_placed : ∀ e, e ∈ bd_entries s → placed src (w_data (bd_w s)) e;
  bi_cover : ∀ o, 0 ≤ o < zlen src → (∃ e, e ∈ all_entries s ∧ covers e o) ↔ o / ps < k ∧ bit_at bitmap (o / ps) = true
}.

Lemma appendPending_inv k s : build_inv k s → ∃ s', appendPending rd src s = Ok s' ∧ build_inv k s' ∧ bd_pending s' = None.
Proof.
  intros [H1 [x H2] H3 H4 H5 H6 H7 H8]. unfold appendPending. destruct (bd_pending s) as [p|] eqn:Ep; [|exists s; split; [done|]; split; [|done]; split; rewrite ?Ep; eauto].
  destruct (H6 p) as (Hp0 & Hp1 & Hp2); [unfold all_entries; rewrite Ep; set_solver|]. specialize (H4 p eq_refl).
  rewrite (copyReaderAtRange_ok src) by (done || lia). cbn [mbind res_bind]. eexists. split; [done|]. split; [|done].
  pose proof (zlen_readAt src (pe_Length p) (pe_Offset p) ltac:(lia) Hp0 Hp2) as Hz. unfold pending_len in H3. rewrite Ep in H3.
  split; cbn [bd_w bd_entries bd_pending bd_off w_room w_data pending_len all_entries]; try done.
  - exists (x ++ readAt src (pe_Length p) (pe_Offset p)). by rewrite H2, app_assoc.
  - rewrite zlen_app. lia.
  - intros e He. apply H6. unfold all_entries in *. rewrite Ep. cbn in He. set_solver.
  - intros e He. apply elem_of_app in He as [He|He].
    + apply placed_app; [apply (H6 e); unfold all_entries; set_solver|by apply H7].
    + apply list_elem_of_singleton in He as ->. unfold placed. rewrite H4, zlen_app, Hz. splits; [pose proof (zlen_nonneg (w_data (bd_w s))); lia|lia|].
      rewrite readAt_app_r by lia. unfold segment. apply take_ge. unfold zlen in Hz. lia.
  - intros o Ho. rewrite <- H8 by done. unfold all_entries. rewrite Ep. cbn. rewrite app_nil_r. done.
Qed.

Lemma page_eq o k : 0 ≤ o → o / ps = k ↔ k * ps ≤ o < k * ps + ps.
Proof. intros Ho. pose proof (Z.div_mod o ps). pose proof (Z.mod_pos_bound o ps). split; [nia|]. intros H'. symmetry. apply (Z.div_unique o ps k (o - k * ps)); lia. Qed.
Lemma build_inv_clean k s : 0 ≤ k → build_inv k s → bit_at bitmap k = false → build_inv (k + 1) s.
Proof.
  intros Hk [H1 H2 H3 H4 H5 H6 H7 H8] Hc. split; try done; [nia|]. intros o Ho. rewrite H8 by done. split; [intros [H9 H10]; split; [lia|done]|].
  intros [H9 H10]. split; [|done]. assert (o / ps ≠ k) by congruence. lia.
Qed.
Lemma build_inv_beyond k k' s : 0 ≤ k → build_inv k s → zlen src ≤ k * ps → k ≤ k' → build_inv k' s.
Proof.
  intros Hk [H1 H2 H3 H4 H5 H6 H7 H8] Hz Hkk. split; try done; [nia|]. intros o Ho. rewrite H8 by done. assert (o / ps < k) by (apply Z.div_lt_upper_bound; lia). split; intros [? ?]; split; (done || lia).
Qed.
Lemma build_cover_step (old new : Z → Prop) k len : 0 ≤ k → len = Z.min ps (zlen src - k * ps) → bit_at bitmap k = true →
  (∀ o, 0 ≤ o < zlen src → old o ↔ o / ps < k ∧ bit_at bitmap (o / ps) = true) → (∀ o, new o ↔ old o ∨ k * ps ≤ o < k * ps + len) →
  ∀ o, 0 ≤ o < zlen src → new o ↔ o / ps < k + 1 ∧ bit_at bitmap (o / ps) = true.
Proof.
  intros Hk Hl Hb Ho Hn o Hr. rewrite Hn, Ho by done. pose proof (page_eq o k ltac:(lia)) as Hp. split.
  - intros [[H1 H2]|H1]; [split; [lia|done]|]. assert (o / ps = k) as -> by (apply Hp; lia). split; [lia|done].
  - intros [H1 H2]. destruct (decide (o / ps = k)) as [He|He]; [right; apply Hp in He; lia|left; split; [lia|done]].
Qed.
Lemma build_inv_new k s len : 0 ≤ k → build_inv k s → bd_pending s = None → k * ps < zlen src → bit_at bitmap k = true → len = Z.min ps (zlen src - k * ps) →
  build_inv (k + 1) (mkBuild (bd_w s) (bd_entries s) (Some (mkEntry (k * ps) len (bd_off s))) (bd_off s + len)).
Proof.
  intros Hk [H1 H2 H3 H4 H5 H6 H7 H8] Hn Hin Hb Hl. unfold pending_len in H3. rewrite Hn in H3.
  split; cbn [bd_w bd_entries bd_pending bd_off pending_len pe_Length]; try done; [lia|intros p [= <-]; cbn; lia|nia|..].
  - intros e He. unfold all_entries in *. cbn in He. rewrite Hn, app_nil_r in H6. apply elem_of_app in He as [He|He]; [by apply H6|]. apply list_elem_of_singleton in He as ->. unfold in_bounds. cbn. nia.
  - eapply (build_cover_step _ _ k len Hk Hl Hb H8). intros o. unfold all_entries. rewrite Hn, app_nil_r. cbn [bd_entries bd_pending]. setoid_rewrite elem_of_app. setoid_rewrite list_elem_of_singleton. unfold covers.
    split; [intros (e & [He| ->] & Hc); [left; eauto|right; done]|intros [(e & He & Hc)|Hc]; [eauto|eexists; split; [by right|done]]].
Qed.
Lemma build_inv_extend k s p len : 0 ≤ k → build_inv k s → bd_pending s = Some p → pe_Offset p + pe_Length p = k * ps → k * ps < zlen src → bit_at bitmap k = true → len = Z.min ps (zlen src - k * ps) →
  build_inv (k + 1) (mkBuild (bd_w s) (bd_entries s) (Some (mkEntry (pe_Offset p) (pe_Length p + len) (pe_DataOffset p))) (bd_off s + len)).
Proof.
  intros Hk [H1 H2 H3 H4 H5 H6 H7 H8] Hn He Hin Hb Hl. unfold pending_len in H3. rewrite Hn in H3. destruct (H6 p) as (Hp0 & Hp1 & Hp2); [unfold all_entries; rewrite Hn; set_solver|].
  split; cbn [bd_w bd_entries bd_pending bd_off pending_len pe_Length]; try done; [lia|intros q [= <-]; cbn; by apply H4|nia|..].
  - intros e Hel. unfold all_entries in *. cbn in Hel. rewrite Hn in H6. apply elem_of_app in Hel as [Hel|Hel]; [apply H6; set_solver|]. apply list_elem_of_singleton in Hel as ->. unfold in_bounds. cbn. nia.
  - eapply (build_cover_step _ _ k len Hk Hl Hb H8). intros o. unfold all_entries. rewrite Hn. cbn [bd_entries bd_pending]. setoid_rewrite elem_of_app. setoid_rewrite list_elem_of_singleton. unfold covers.
    split.
    + intros (e & [Hel| ->] & Hc); [left; eauto|]. cbn in Hc. destruct (decide (o < k * ps)); [left; exists p; split; [by right|lia]|right; lia].
    + intros [(e & [Hel| ->] & Hc)|Hc]; [eauto| |]; (eexists; split; [by right|cbn; lia]).
Qed.
Lemma bitmap_bit wi word b : at_ bitmap wi = Some word → 0 ≤ b < 64 → bit_at bitmap (wi * 64 + b) = Z.testbit word b.
Proof. intros Hw Hb. unfold bit_at. rewrite Z.add_comm, Z.div_add, Z.div_small, Z.add_0_l by lia. rewrite Hw. by rewrite Z.mod_add, Z.mod_small by lia. Qed.

Lemma build_bit_inv wi word b s : at_ bitmap wi = Some word → 0 ≤ b < 64 → build_inv (wi * 64 + b) s →
  ∃ go s', build_bit rd src (zlen src) ps wi word b s = Ok (go, s') ∧ build_inv (if go then wi * 64 + (b + 1) else (wi + 1) * 64) s'.
Proof.
  intros Hw Hb Hs. pose proof (bitmap_bit wi word b Hw Hb) as Hbit. pose proof (at_bound _ _ _ Hw) as Hwi. unfold build_bit. cbv zeta. replace (wi * 64 + (b + 1)) with (wi * 64 + b + 1) by lia. remember (wi * 64 + b) as k eqn:Ek.
  assert (0 ≤ k < 64 * zlen bitmap) as Hk by lia. assert (k ≤ (wi + 1) * 64) as Hkw by lia. assert (0 ≤ k * ps < 2 ^ 62) as Hkps by nia. assert (k < 2 ^ 62) by nia. clear Ek.
  rewrite has_shift_bit by lia. rewrite <- Hbit. destruct (bit_at bitmap k) eqn:Eb; cbn [negb].
  2: { destruct (appendPending_inv k s Hs) as (s' & -> & Hs' & _). exists true, s'. split; [done|]. apply build_inv_clean; [lia|done|done]. }
  rewrite (u64_small k), (u64_small (k * ps)) by lia. destruct (Z.leb_spec (zlen src) (k * ps)) as [Hout|Hin].
  { destruct (appendPending_inv k s Hs) as (s' & -> & Hs' & _). exists false, s'. split; [done|]. apply (build_inv_beyond k); (done || lia). }
  rewrite (u64_small (k * ps + ps)), (u64_small (zlen src - k * ps)) by lia. set (len := if _ <? _ then _ else _).
  assert (len = Z.min ps (zlen src - k * ps)) as Hlen by (unfold len; destruct (Z.ltb_spec (zlen src) (k * ps + ps)); lia). clearbody len.
  assert (∀ s, build_inv k s → 0 ≤ bd_off s < 2 ^ 62 ∧ (∀ p, bd_pending s = Some p → in_bounds src p)) as Hbounds.
  { intros s1 [_ _ H3 _ H5 H6 _ _]. split; [|intros p Hp; apply H6; unfold all_entries; rewrite Hp; set_solver].
    assert (0 ≤ pending_len s1) by (unfold pending_len; destruct (bd_pending s1) eqn:Ep; [destruct (H6 d); [unfold all_entries; rewrite Ep; set_solver|lia]|lia]). pose proof (zlen_nonneg (w_data (bd_w s1))). lia. }
  assert (∀ s, build_inv k s → bd_pending s = None → ∃ go s', Ok (E:=mig_err) (true, mkBuild (bd_w s) (bd_entries s) (Some (mkEntry (k * ps) len (bd_off s))) (u64 (bd_off s + len))) = Ok (go, s') ∧ build_inv (if go : bool then k + 1 else (wi + 1) * 64) s') as Hnew.
  { intros s1 Hs1 Hp1. destruct (Hbounds s1 Hs1) as [Ho _]. rewrite u64_small by lia. eexists true, _. split; [done|]. apply build_inv_new; (done || lia). }
  destruct (bd_pending s) as [p|] eqn:Ep; [|by apply Hnew].
  destruct (Hbounds s Hs) as [Ho Hin2]. destruct (Hin2 p Ep) as (Hp0 & Hp1 & Hp2). rewrite (u64_small (pe_Offset p + pe_Length p)) by lia. destruct (Z.eqb_spec (pe_Offset p + pe_Length p) (k * ps)) as [He|He].
  - rewrite !u64_small by lia. eexists true, _. split; [done|]. apply build_inv_extend; (done || lia).
  - destruct (appendPending_inv k s Hs) as (s' & Ha & Hs' & Hn). rewrite Ha. cbn [mbind res_bind]. by apply Hnew.
Qed.

Lemma build_bits_inv wi word : at_ bitmap wi = Some word → ∀ n b s, Z.of_nat b + Z.of_nat n = 64 → build_inv (wi * 64 + Z.of_nat b) s →
  ∃ s', for_break (build_bit rd src (zlen src) ps wi word) (Z.of_nat <$> seq b n) s = Ok s' ∧ build_inv ((wi + 1) * 64) s'.
Proof.
  intros Hw. induction n as [|n IH]; intros b s Hn Hs; cbn [seq fmap list_fmap for_break].
  - exists s. split; [done|]. by replace ((wi + 1) * 64) with (wi * 64 + Z.of_nat b) by lia.
  - destruct (build_bit_inv wi word (Z.of_nat b) s Hw ltac:(lia) Hs) as (go & s1 & -> & Hs1). cbn [mbind res_bind]. destruct go; [|by exists s1].
    apply IH; [lia|]. by replace (Z.of_nat (S b)) with (Z.of_nat b + 1) by lia.
Qed.
Lemma build_word_inv wi word s : at_ bitmap wi = Some word → build_inv (wi * 64) s → bd_pending s = None →
  ∃ s', build_word rd src (zlen src) ps wi word s = Ok s' ∧ build_inv ((wi + 1) * 64) s' ∧ bd_pending s' = None.
Proof.
  intros Hw Hs Hp. pose proof (at_bound _ _ _ Hw) as Hwi. unfold build_word. destruct (Z.eqb_spec word 0) as [->|Hn].
  - exists s. splits; [done| |done]. assert (∀ n : nat, (n ≤ 64)%nat → build_inv (wi * 64 + Z.of_nat n) s) as Hall.
    { induction n as [|n IH]; intros Hn; [by rewrite Z.add_0_r|]. replace (wi * 64 + Z.of_nat (S n)) with (wi * 64 + Z.of_nat n + 1) by lia. apply build_inv_clean; [lia|apply IH; lia|].
      rewrite (bitmap_bit wi 0) by (done || lia). apply Z.testbit_0_l. }
    replace ((wi + 1) * 64) with (wi * 64 + Z.of_nat 64) by lia. apply Hall. lia.
  - destruct (build_bits_inv wi word Hw 64 0 s ltac:(lia)) as (s1 & Hf & Hs1); [by rewrite Z.add_0_r|]. unfold bits64. rewrite Hf. cbn [mbind res_bind]. by apply appendPending_inv.
Qed.
Lemma build_words_inv : ∀ ws wi s, (∀ j w, ws !! j = Some w → at_ bitmap (Z.of_nat (wi + j)) = Some w) → build_inv (Z.of_nat wi * 64) s → bd_pending s = None →
  ∃ s', for_each (fun '(i, word) s => build_word rd src (zlen src) ps (Z.of_nat i) word s) (imap (fun j => pair (wi + j)%nat) ws) s = Ok s' ∧
    build_inv (Z.of_nat (wi + length ws) * 64) s' ∧ bd_pending s' = None.
Proof.
  induction ws as [|w ws IH]; intros wi s Hat Hs Hp; cbn [imap for_each].
  - exists s. cbn. by rewrite Nat.add_0_r.
  - pose proof (Hat 0%nat w eq_refl) as H0. rewrite Nat.add_0_r in *. destruct (build_word_inv (Z.of_nat wi) w s H0 Hs Hp) as (s1 & -> & Hs1 & Hp1). cbn [mbind res_bind].
    destruct (IH (S wi) s1) as (s2 & Hf & Hs2 & Hp2); [|by replace (Z.of_nat (S wi) * 64) with ((Z.of_nat wi + 1) * 64) by lia|done|].
    { intros j v Hj. replace (S wi + j)%nat with (wi + S j)%nat by lia. by apply Hat. }
    exists s2. splits; [|cbn [length]; by replace (wi + S (length ws))%nat with (S wi + length ws)%nat by lia|done].
    rewrite <- Hf. f_equal. apply imap_ext. intros j v _. cbn. f_equal. lia.
Qed.
Lemma bit_at_beyond p : 64 * zlen bitmap ≤ p → bit_at bitmap p = false.
Proof. intros Hp. unfold bit_at. destruct (at_ bitmap (p / 64)) eqn:E; [|done]. apply at_bound in E. assert (zlen bitmap ≤ p / 64) by (apply Z.div_le_lower_bound; lia). lia. Qed.

(** What a patch promises: its entries are the dirty pages, and their bytes are in the data. *)
Definition patch_of (data : list Z) (p : DirtyFilePatch) : Prop :=
  (∀ e, e ∈ fp_Entries p → in_bounds src e ∧ placed src data e) ∧
  ∀ o, 0 ≤ o < zlen src → (∃ e, e ∈ fp_Entries p ∧ covers e o) ↔ bit_at bitmap (o / ps) = true.
Lemma buildDirtyFilePatch_ok path : ∃ p x, buildDirtyFilePatch rd (mkWriter w0 None) src (zlen src) path ps bitmap (zlen w0) = Ok (p, mkWriter (w0 ++ x) None, zlen (w0 ++ x)) ∧
  fp_Path p = path ∧ zlen (w0 ++ x) ≤ zlen w0 + zlen src ∧ patch_of (w0 ++ x) p.
Proof.
  unfold buildDirtyFilePatch. destruct ((zlen bitmap =? 0) || (zlen src =? 0)) eqn:E.
  { pose proof (zlen_nonneg src). eexists _, []. rewrite app_nil_r. splits; [done|done|lia|]. split; [cbn; set_solver|]. intros o Ho. split; [cbn; set_solver|]. intros Hb. apply orb_true_iff in E as [E|E]; b2p; [|lia].
    rewrite bit_at_beyond in Hb; [done|]. rewrite E. assert (0 ≤ o / ps) by (apply Z.div_pos; lia). lia. }
  rewrite (proj2 (Z.eqb_neq ps 0)) by lia. destruct (build_words_inv bitmap 0 (mkBuild (mkWriter w0 None) [] None (zlen w0))) as (s & Hf & Hs & Hn).
  - intros j w Hj. rewrite Nat.add_0_l. apply at_Some. split; [lia|]. by rewrite Nat2Z.id.
  - split; cbn; try done; [exists []; by rewrite app_nil_r|lia|pose proof (zlen_nonneg src); lia|set_solver|set_solver|]. intros o Ho. split; [set_solver|]. intros [H _]. assert (0 ≤ o / ps) by (apply Z.div_pos; lia). lia.
  - done.
  - rewrite (imap_ext _ (fun j => pair (0 + j)%nat)) by done. rewrite Hf. cbn [mbind res_bind]. destruct Hs as [H1 [x H2] H3 _ H5 H6 H7 H8]. unfold pending_len in H3. rewrite Hn in H3. rewrite Z.add_0_r in H3.
    eexists _, x. rewrite <- H3, H2. split; [destruct (bd_w s) as [d r]; cbn in *; by subst|]. cbn [fp_Path fp_Entries]. split; [done|]. rewrite <- H3, H2 in H5. split; [lia|]. unfold patch_of. cbn [fp_Entries]. unfold all_entries in *. rewrite Hn, app_nil_r in *. split.
    + intros e He. split; [by apply H6|]. rewrite <- H2. by apply H7.
    + intros o Ho. rewrite H8 by done. split; [tauto|]. intros Hb. split; [|done]. destruct (decide (o / ps < Z.of_nat (0 + length bitmap) * 64)); [done|]. rewrite bit_at_beyond in Hb by (unfold zlen; lia). done.
Qed.
End correct.

(** ** Applying a patch *)
Section apply.
Context (src data : list Z) (wr : Z → bool) (Hwr : ∀ o, wr o = true) (Hsize : zlen src < 2 ^ 62) (Hdata : zlen data < 2 ^ 62).
Lemma writeAt_lookup file o bs (i : nat) : 0 ≤ o → o + zlen bs ≤ zlen file →
  length (writeAt file o bs) = length file ∧ writeAt file o bs !! i = if (o <=? Z.of_nat i) && (Z.of_nat i <? o + zlen bs) then bs !! (i - Z.to_nat o)%nat else file !! i.
Proof.
  intros Ho Hb. pose proof (writeAt_splice file o bs Ho Hb) as Hs.
  pose proof (splice_len _ _ _ _ Hs) as Hl. split; [unfold zlen in Hl; lia|]. destruct (Z.leb_spec o (Z.of_nat i)), (Z.ltb_spec (Z.of_nat i) (o + zlen bs)); cbn [andb].
  - apply (splice_lookup_in _ _ _ _ i Hs). unfold zlen in *. lia.
  - apply (splice_lookup_out _ _ _ _ i Hs). unfold zlen in *. lia.
  - apply (splice_lookup_out _ _ _ _ i Hs). unfold zlen in *. lia.
  - apply (splice_lookup_out _ _ _ _ i Hs). unfold zlen in *. lia.
Qed.
Lemma apply_entries_ok es : ∀ file, length file = length src → (∀ e, e ∈ es → in_bounds src e ∧ placed src data e) →
  ∃ file', for_each (apply_entry wr data) es file = Ok file' ∧ length file' = length src ∧
    ∀ o : nat, (o < length src)%nat → ((∃ e, e ∈ es ∧ covers e (Z.of_nat o)) → file' !! o = src !! o) ∧ ((¬ ∃ e, e ∈ es ∧ covers e (Z.of_nat o)) → file' !! o = file !! o).
Proof.
  induction es as [|e es IH] using rev_ind; intros file Hl Hok.
  - exists file. splits; [done|done|]. intros o Ho. split; [set_solver|done].
  - destruct (IH file Hl) as (f1 & Hf & Hl1 & Ho1); [intros e' He'; apply Hok, elem_of_app; by left|]. destruct (Hok e) as ((B0 & B1 & B2) & P0 & P1 & P2); [apply elem_of_app; right; by apply list_elem_of_singleton|]. rewrite for_each_app, Hf. cbn [mbind res_bind for_each]. unfold apply_entry.
    rewrite (i64_small (pe_DataOffset e)) by lia. rewrite P2. pose proof (zlen_readAt src (pe_Length e) (pe_Offset e) ltac:(lia) B0 B2) as Hz. unfold segment. rewrite Hz, (proj2 (Z.ltb_ge _ _)) by lia. rewrite Hwr. cbn [negb]. rewrite i64_small by lia. cbn [mbind res_bind].
    assert (∀ i, _) as Hw by (intros i; apply (writeAt_lookup f1 (pe_Offset e) (readAt src (pe_Length e) (pe_Offset e)) i B0); unfold zlen in *; lia). eexists. split; [done|]. split; [destruct (Hw 0%nat) as [-> _]; done|].
    intros o Ho. destruct (Hw o) as [_ ->]. rewrite Hz. destruct ((pe_Offset e <=? Z.of_nat o) && (Z.of_nat o <? pe_Offset e + pe_Length e)) eqn:E; b2p.
    + assert (readAt src (pe_Length e) (pe_Offset e) !! (o - Z.to_nat (pe_Offset e))%nat = src !! o) as -> by (rewrite readAt_lookup by lia; f_equal; lia). split; [done|]. intros Hn. destruct Hn. exists e. unfold covers. split; [apply elem_of_app; right; by apply list_elem_of_singleton|lia].
    + assert (¬ covers e (Z.of_nat o)) as Hn by (unfold covers; intros [? ?]; apply andb_false_iff in E as [E|E]; b2p; lia). destruct (Ho1 o Ho) as [H1 H2]. split.
      * intros (e' & He' & Hc). apply H1. exists e'. split; [|done]. apply elem_of_app in He' as [|He']; [done|]. by apply list_elem_of_singleton in He' as ->.
      * intros Hnot. apply H2. intros (e' & He' & Hc). apply Hnot. exists e'. split; [apply elem_of_app; by left|done].
Qed.
End apply.

Lemma merge_bit a b p : 0 ≤ p → bit_at (mergeDirtyBitmaps a b) p = bit_at a p || bit_at b p.
Proof.
  intros Hp. unfold bit_at, at_, mergeDirtyBitmaps. assert (0 ≤ p / 64) as Hq by (apply Z.div_pos; lia). rewrite (proj2 (Z.leb_le 0 (p / 64)) Hq). rewrite list_lookup_fmap. destruct (decide (Z.to_nat (p / 64) < Nat.max (length a) (length b))%nat) as [Hl|Hl].
  - rewrite lookup_seq_lt by done. cbn. rewrite Z.lor_spec. f_equal; [destruct (a !! _)|destruct (b !! _)]; cbn; by rewrite ?Z.testbit_0_l.
  - rewrite lookup_seq_ge by lia. rewrite !lookup_ge_None_2 by lia. done.
Qed.
Lemma zlen_merge a b : zlen (mergeDirtyBitmaps a b) = Z.max (zlen a) (zlen b).
Proof. unfold mergeDirtyBitmaps, zlen. rewrite length_fmap, length_seq. lia. Qed.

(** A stale copy is brought up to date. *)
Lemma apply_file_ok src ps bitmap data wr p dir file :
  (∀ o, wr o = true) → zlen src < 2 ^ 62 → zlen data < 2 ^ 62 → patch_of src ps bitmap data p → dir !! fp_Path p = Some file → length file = length src →
  (∀ i b, file !! i = Some b → src !! i = Some b ∨ bit_at bitmap (Z.of_nat i / ps) = true) →
  apply_file wr true data p dir = Ok (<[fp_Path p := src]> dir).
Proof.
  intros Hwr Hs Hda [Hp1 Hp2] Hdir Hl Hst. unfold apply_file. rewrite Hdir. destruct (apply_entries_ok src data wr Hwr Hs Hda (fp_Entries p) file Hl Hp1) as (f' & -> & Hl' & Ho). cbn [mbind res_bind]. do 2 f_equal.
  apply list_eq_same_length with (length src); [done|done|]. intros i x y Hi Hx Hy. destruct (Ho i Hi) as [H1 H2]. specialize (Hp2 (Z.of_nat i) ltac:(unfold zlen; lia)).
  destruct (bit_at bitmap (Z.of_nat i / ps)) eqn:E.
  - rewrite H1 in Hx by (by apply Hp2). congruence.
  - rewrite H2 in Hx by (intros Hc; apply Hp2 in Hc; done). destruct (Hst i x Hx); congruence.
Qed.
Lemma apply_nothing src ps bitmap data p file : patch_of src ps bitmap data p → fp_Entries p = [] → length file = length src →
  (∀ i b, file !! i = Some b → src !! i = Some b ∨ bit_at bitmap (Z.of_nat i / ps) = true) → file = src.
Proof.
  intros [_ Hp2] He Hl Hst. apply list_eq_same_length with (length src); [done|done|]. intros i x y Hi Hx Hy. destruct (Hst i x Hx) as [Hq|Hq]; [congruence|]. apply Hp2 in Hq as (e & Hin & _); [|unfold zlen; lia]. rewrite He in Hin. by apply not_elem_of_nil in Hin.
Qed.

(** ** The pre-copy *)
Section precopy.
Context (ps : Z).

Definition wordCount (memSize : Z) : Z := u64 (u64 (memSize + ps - 1) / ps + 63) / 64.
(** [KVM_GET_DIRTY_LOG] fills a bitmap of the given number of words with the pages
    written since the last call: the parameter [kvm_fill]. *)
Definition dirty_log (kvm_fill : nat → gset Z → list Z) (memSize : Z) (log : gset Z) : list Z :=
  if wordCount memSize =? 0 then [] else kvm_fill (Z.to_nat (wordCount memSize)) log.

(** Memory or a disk that is written and copied at the same time: its bytes, KVM's log of
    the pages that vCPUs wrote, the tracker of what devices wrote, the device writes that
    are not marked yet, and the copied bytes. *)
Record Tracked := mkTracked { t_data : list Z; t_log : gset Z; t_dev : DirtyTracker; t_marks : list (Z * Z); t_file : list (option Z) }.
Definition t_store (logging : bool) (a b : Z) (t : Tracked) : Tracked :=
  match set_at (t_data t) a b with
  | Some data => mkTracked data (if logging then {[a / ps]} ∪ t_log t else t_log t) (t_dev t) (t_marks t) (t_file t)
  | None => t
  end.
Definition t_write (a : Z) (bs : list Z) (t : Tracked) : Tracked :=
  match splice (t_data t) a bs with
  | Some data => mkTracked data (t_log t) (t_dev t) ((a, zlen bs) :: t_marks t) (t_file t)
  | None => t
  end.
Definition t_mark (k : nat) (t : Tracked) : res mig_err Tracked :=
  match t_marks t !! k with
  | Some (a, n) => dev ← Mark (t_dev t) a n; Ok (mkTracked (t_data t) (t_log t) dev (delete k (t_marks t)) (t_file t))
  | None => Ok t
  end.
Definition t_copy (i : nat) (t : Tracked) : Tracked := mkTracked (t_data t) (t_log t) (t_dev t) (t_marks t) (<[i := t_data t !! i]> (t_file t)).
Definition t_reset (t : Tracked) : Tracked := mkTracked (t_data t) (t_log t) (Reset (t_dev t)) (t_marks t) (t_file t).
Definition t_clear (t : Tracked) : Tracked := mkTracked (t_data t) ∅ (t_dev t) (t_marks t) (t_file t).

Record Pre := mkPre { pr_mem : Tracked; pr_disk : Tracked; pr_logging : bool; pr_phase : nat }.
(** The statements of [PrepareMigrationBundle] before the copying. *)
Definition prepare_step (p : Pre) : Pre :=
  match pr_phase p with
  | 0%nat => mkPre (pr_mem p) (pr_disk p) true 1
  | 1%nat => mkPre (t_clear (pr_mem p)) (pr_disk p) (pr_logging p) 2
  | 2%nat => mkPre (t_reset (pr_mem p)) (pr_disk p) (pr_logging p) 3
  | 3%nat => mkPre (pr_mem p) (t_reset (pr_disk p)) (pr_logging p) 4
  | _ => p
  end.
Inductive mig_step :=
  | VcpuStore (a b : Z)
  | DevWrite (a : Z) (bs : list Z)
  | DevMark (k : nat)
  | DiskWrite (a : Z) (bs : list Z)
  | DiskMark (k : nat)
  | PrepareNext
  | CopyMem (i : nat)
  | CopyDisk (i : nat).
Definition set_mem (t : Tracked) (p : Pre) : Pre := mkPre t (pr_disk p) (pr_logging p) (pr_phase p).
Definition set_disk (t : Tracked) (p : Pre) : Pre := mkPre (pr_mem p) t (pr_logging p) (pr_phase p).
Definition mig_do (s : mig_step) (p : Pre) : res mig_err Pre :=
  match s with
  | VcpuStore a b => Ok (set_mem (t_store (pr_logging p) a b (pr_mem p)) p)
  | DevWrite a bs => Ok (set_mem (t_write a bs (pr_mem p)) p)
  | DevMark k => t ← t_mark k (pr_mem p); Ok (set_mem t p)
  | DiskWrite a bs => Ok (set_disk (t_write a bs (pr_disk p)) p)
  | DiskMark k => t ← t_mark k (pr_disk p); Ok (set_disk t p)
  | PrepareNext => Ok (prepare_step p)
  | CopyMem i => Ok (if Nat.eqb (pr_phase p) 4 then set_mem (t_copy i (pr_mem p)) p else p)
  | CopyDisk i => Ok (if Nat.eqb (pr_phase p) 4 then set_disk (t_copy i (pr_disk p)) p else p)
  end.

(** What has been copied is right, or it is known to be stale. *)
Definition tracker_for (n : Z) (d : DirtyTracker) : Prop := dt_memSize d = n ∧ dt_pageSize d = ps ∧ zlen (dt_bits d) = wordCount n.
Record tracked_ok (n : nat) (t : Tracked) : Prop := mkTOk {
  to_data : length (t_data t) = n;
  to_file : length (t_file t) = n;
  to_dev : tracker_for (Z.of_nat n) (t_dev t);
  to_marks : Forall (fun m => 0 ≤ m.1 ∧ 0 ≤ m.2 < 2 ^ 64) (t_marks t);
  to_stale : ∀ i b, t_file t !! i = Some (Some b) → t_data t !! i = Some b ∨ Z.of_nat i / ps ∈ t_log t ∨
    is_dirty (t_dev t) (Z.of_nat i / ps) = true ∨ Exists (fun m => m.1 ≤ Z.of_nat i < m.1 + m.2) (t_marks t)
}.
Definition uncopied (t : Tracked) : Prop := Forall (eq None) (t_file t).
Record pre_ok (n d : nat) (p : Pre) : Prop := mkPOk {
  po_mem : tracked_ok n (pr_mem p);
  po_disk : tracked_ok d (pr_disk p);
  po_logging : pr_phase p ≠ 0%nat → pr_logging p = true;
  po_early : (pr_phase p < 4)%nat → uncopied (pr_mem p) ∧ uncopied (pr_disk p);
  po_phase : (pr_phase p ≤ 4)%nat;
  po_nolog : t_log (pr_disk p) = ∅
}.
Context (Hps : 0 < ps).

Lemma tracker_wf n d : tracker_for n d → 0 ≤ n → n + ps + 63 < 2 ^ 64 → wf d.
Proof.
  intros (H1 & H2 & H3) Hn Hb. pose proof (NewDirtyTracker_wf ps n Hps Hn Hb) as (W1 & W2 & W3). unfold wf. rewrite H1, H2, H3. splits; [done|lia|lia|]. unfold NewDirtyTracker in W3. cbn in W3. unfold zlen in W3. rewrite length_replicate in W3.
  assert (0 ≤ wordCount n) as Hw by (unfold wordCount; apply Z.div_pos; [|lia]; unfold u64; apply Z.mod_pos_bound; lia). unfold wordCount in *. lia.
Qed.
Lemma Mark_len {E} d a n d' : wf d → 0 ≤ a → 0 ≤ n < 2 ^ 64 → Mark (E:=E) d a n = Ok d' → zlen (dt_bits d') = zlen (dt_bits d).
Proof.
  intros Hw Ha Hn. unfold Mark. destruct (_ || _); [by intros [= <-]|]. destruct (_ =? _); [done|]. set (c := Z.to_nat _). set (q := a / dt_pageSize d).
  assert (∀ k page (bits bits' : list Z), mark_pages (E:=E) k page bits = Ok bits' → length bits' = length bits) as Hlen.
  { induction k as [|k IH]; intros page bits bits'; cbn [mark_pages]; [by intros [= <-]|]. destruct (at_ bits (page / 64)); [|done]. cbn. destruct (set_at bits (page / 64) _) eqn:Es; [|done]. cbn. apply set_at_Some in Es as [_ ->]. intros H%IH. by rewrite H, length_insert. }
  destruct (mark_pages c q (dt_bits d)) as [bits'|e| |] eqn:Em; try done. cbn. intros [= <-]. cbn. unfold zlen. by rewrite (Hlen _ _ _ _ Em).
Qed.

Section steps.
Context (n : nat) (Hn : Z.of_nat n + ps + 63 < 2 ^ 64).
Lemma t_store_ok a b t : tracked_ok n t → tracked_ok n (t_store true a b t).
Proof.
  intros [H1 H2 H3 H4 H5]. unfold t_store. destruct (set_at (t_data t) a b) as [data|] eqn:E; [|by split]. apply set_at_Some in E as [Ha ->]. split; cbn [t_data t_file t_dev t_marks t_log]; try done; [by rewrite length_insert|].
  intros i v Hf. destruct (decide (i = Z.to_nat a)) as [->|Hne].
  - right. left. rewrite Z2Nat.id by lia. set_solver.
  - rewrite list_lookup_insert_ne by done. destruct (H5 i v Hf) as [|[|[|]]]; [by left|right; left; set_solver|right; right; by left|right; right; by right].
Qed.
Lemma t_store_early logging a b t : tracked_ok n t → uncopied t → tracked_ok n (t_store logging a b t) ∧ uncopied (t_store logging a b t).
Proof.
  intros [H1 H2 H3 H4 H5] Hu. unfold t_store. destruct (set_at (t_data t) a b) as [data|] eqn:E; [|by split]. apply set_at_Some in E as [Ha ->]. split; [|done]. split; cbn [t_data t_file t_dev t_marks t_log]; try done; [by rewrite length_insert|].
  intros i v Hf. unfold uncopied in Hu. rewrite Forall_lookup in Hu. by specialize (Hu i _ Hf).
Qed.
Lemma t_write_ok a bs t : tracked_ok n t → tracked_ok n (t_write a bs t).
Proof.
  intros [H1 H2 H3 H4 H5]. unfold t_write. destruct (splice (t_data t) a bs) as [data|] eqn:E; [|by split]. pose proof (splice_len _ _ _ _ E) as Hl. pose proof (proj1 (splice_Some _ _ _ _) E) as [Hr _]. pose proof (zlen_nonneg bs).
  split; cbn [t_data t_file t_dev t_marks t_log]; try done; [unfold zlen in Hl; lia|constructor; [cbn; unfold zlen in *; lia|done]|].
  intros i v Hf. destruct (decide (a ≤ Z.of_nat i < a + zlen bs)) as [Hin|Hout].
  - right. right. right. by left.
  - rewrite (splice_lookup_out _ _ _ _ i E) by (unfold zlen in *; lia). destruct (H5 i v Hf) as [|[|[|]]]; [by left|right; by left|right; right; by left|right; right; right; by right].
Qed.
Lemma t_mark_ok k t : tracked_ok n t → ∃ t', t_mark k t = Ok t' ∧ tracked_ok n t' ∧ t_file t' = t_file t ∧ t_log t' = t_log t.
Proof.
  intros Ht. pose proof Ht as [H1 H2 H3 H4 H5]. unfold t_mark. destruct (t_marks t !! k) as [[a l]|] eqn:E; [|by exists t]. pose proof (tracker_wf _ _ H3 ltac:(lia) Hn) as Hw.
  pose proof H4 as H4'. rewrite Forall_lookup in H4'. destruct (H4' k _ E) as [Ha Hl]. cbn in Ha, Hl. destruct (Mark_spec (E:=mig_err) (t_dev t) a l Hw Ha Hl) as (d' & Hm & Hw' & Hms & Hpz & Hq). rewrite Hm. cbn [mbind res_bind]. eexists. split; [done|]. split; [|done].
  destruct H3 as (M1 & M2 & M3). split; cbn [t_data t_file t_dev t_marks t_log]; try done.
  - unfold tracker_for. rewrite Hms, Hpz, (Mark_len _ _ _ _ Hw Ha Hl Hm). done.
  - rewrite list_delete_take_drop || rewrite delete_take_drop. apply Forall_app. split; [by apply Forall_take|by apply Forall_drop].
  - intros i v Hf. assert (0 ≤ Z.of_nat i / ps) as Hdiv by (apply Z.div_pos; lia). destruct (H5 i v Hf) as [Hd|[Hd|[Hd|Hd]]]; [by left|right; by left| |].
    + right. right. left. eapply Mark_mono; [exact Hw|exact Ha|exact Hl|done|exact Hm|done].
    + apply Exists_exists in Hd as (m & Hin & Hr). apply list_elem_of_lookup in Hin as [j Hj]. destruct (decide (j = k)) as [->|Hjk].
      * rewrite E in Hj. injection Hj as <-. right. right. left. rewrite <- M2. eapply Mark_covers; [exact Hw|exact Ha|exact Hl|exact Hm|exact Hr|]. rewrite M1. apply lookup_lt_Some in Hf. lia.
      * right. right. right. apply Exists_exists. exists m. split; [|done]. destruct (decide (j < k)%nat).
        -- apply list_elem_of_lookup. exists j. by rewrite list_lookup_delete_lt.
        -- apply list_elem_of_lookup. exists (j - 1)%nat. rewrite list_lookup_delete_ge by lia. by replace (S (j - 1)) with j by lia.
Qed.
Lemma t_copy_ok i t : tracked_ok n t → tracked_ok n (t_copy i t).
Proof.
  intros [H1 H2 H3 H4 H5]. unfold t_copy. split; cbn [t_data t_file t_dev t_marks t_log]; try done; [by rewrite length_insert|].
  intros j v Hf. destruct (decide (i = j)) as [->|Hne]; [|rewrite list_lookup_insert_ne in Hf by done; by apply H5].
  assert (j < length (t_file t))%nat as Hj by (apply lookup_lt_Some in Hf; by rewrite length_insert in Hf). rewrite list_lookup_insert_eq in Hf by done. injection Hf as Hf. by left.
Qed.
Lemma t_early_ok t t' : tracked_ok n t → uncopied t → t_data t' = t_data t → t_file t' = t_file t → tracker_for (Z.of_nat n) (t_dev t') → t_marks t' = t_marks t → tracked_ok n t'.
Proof.
  intros [H1 H2 H3 H4 H5] Hu E1 E2 E3 E4. split; rewrite ?E1, ?E2, ?E4; try done. intros i v Hf. unfold uncopied in Hu. rewrite Forall_lookup in Hu. by specialize (Hu i _ Hf).
Qed.
Lemma tracker_reset d : tracker_for (Z.of_nat n) d → tracker_for (Z.of_nat n) (Reset d).
Proof. intros (H1 & H2 & H3). unfold tracker_for, Reset, clear_bits. cbn. rewrite <- H3. unfold zlen. by rewrite length_fmap. Qed.
End steps.

Section run.
Context (n d : nat) (Hn : Z.of_nat n + ps + 63 < 2 ^ 64) (Hd : Z.of_nat d + ps + 63 < 2 ^ 64).
Lemma prepare_ok p : pre_ok n d p → pre_ok n d (prepare_step p).
Proof.
  intros [H1 H2 H3 H4 H5 H6]. unfold prepare_step. destruct (pr_phase p) as [|[|[|[|]]]] eqn:E; [..|rewrite <- E in *; by split]; destruct (H4 ltac:(lia)) as [U1 U2]; split; cbn [pr_mem pr_disk pr_logging pr_phase]; try done; try lia; try (intros _; by split); try (intros _; by apply H3).
  - eapply (t_early_ok _ _ _ H1 U1); [done|done|apply H1|done].
  - eapply (t_early_ok _ _ _ H1 U1); [done|done|apply tracker_reset, H1|done].
  - eapply (t_early_ok _ _ _ H2 U2); [done|done|apply tracker_reset, H2|done].
Qed.
Lemma pre_set_mem p t : pre_ok n d p → tracked_ok n t → (uncopied (pr_mem p) → pr_phase p ≠ 4%nat → uncopied t) → pre_ok n d (set_mem t p).
Proof. intros [H1 H2 H3 H4 H5 H6] Ht Hu. split; cbn; try done. intros Hl. destruct (H4 Hl). split; [apply Hu; [done|lia]|done]. Qed.
Lemma pre_set_disk p t : pre_ok n d p → tracked_ok d t → t_log t = t_log (pr_disk p) → (uncopied (pr_disk p) → pr_phase p ≠ 4%nat → uncopied t) → pre_ok n d (set_disk t p).
Proof. intros [H1 H2 H3 H4 H5 H6] Ht Hlog Hu. split; cbn; try done; [|by rewrite Hlog]. intros Hl. destruct (H4 Hl). split; [done|apply Hu; [done|lia]]. Qed.
Lemma t_write_file a bs t : t_file (t_write a bs t) = t_file t ∧ t_log (t_write a bs t) = t_log t.
Proof. unfold t_write. by destruct (splice _ _ _). Qed.
Lemma mig_do_ok s p : pre_ok n d p → ∃ p', mig_do s p = Ok p' ∧ pre_ok n d p'.
Proof.
  intros Hp. pose proof Hp as [H1 H2 H3 H4 H5 H6]. destruct s as [a b|a bs|k|a bs|k| |i|i]; cbn [mig_do].
  - eexists. split; [done|]. destruct (decide (pr_phase p = 0%nat)) as [Hz|Hz].
    + destruct (H4 ltac:(lia)) as [U1 _]. destruct (t_store_early n (pr_logging p) a b _ H1 U1). by apply pre_set_mem.
    + rewrite (H3 Hz). apply pre_set_mem; [done|by apply t_store_ok|]. intros U _. by apply (t_store_early n true a b _ H1).
  - eexists. split; [done|]. apply pre_set_mem; [done|by apply t_write_ok|]. intros U _. unfold uncopied. by rewrite (proj1 (t_write_file _ _ _)).
  - destruct (t_mark_ok n Hn k _ H1) as (t & -> & Ht & Hf & _). eexists. split; [done|]. apply pre_set_mem; [done|done|]. intros U _. unfold uncopied. by rewrite Hf.
  - eexists. split; [done|]. apply pre_set_disk; [done|by apply t_write_ok|apply t_write_file|]. intros U _. unfold uncopied. by rewrite (proj1 (t_write_file _ _ _)).
  - destruct (t_mark_ok d Hd k _ H2) as (t & -> & Ht & Hf & Hlog). eexists. split; [done|]. apply pre_set_disk; [done|done|done|]. intros U _. unfold uncopied. by rewrite Hf.
  - eexists. split; [done|]. by apply prepare_ok.
  - eexists. split; [done|]. destruct (Nat.eqb_spec (pr_phase p) 4); [|done]. apply pre_set_mem; [done|by apply t_copy_ok|done].
  - eexists. split; [done|]. destruct (Nat.eqb_spec (pr_phase p) 4); [|done]. apply pre_set_disk; [done|by apply t_copy_ok|done|done].
Qed.
Lemma mig_run_ok steps : ∀ p, pre_ok n d p → ∃ p', for_each mig_do steps p = Ok p' ∧ pre_ok n d p'.
Proof.
  induction steps as [|s steps IH]; intros p Hp; [by exists p|]. destruct (mig_do_ok s p Hp) as (p1 & H1 & Hp1). destruct (IH p1 Hp1) as (p2 & H2 & Hp2). exists p2. cbn [for_each]. by rewrite H1.
Qed.

End run.

(** KVM's documented behaviour. *)
Context (kvm_fill : nat → gset Z → list Z).
Context (Hfill : ∀ words log, length (kvm_fill words log) = words ∧ ∀ p, 0 ≤ p < 64 * Z.of_nat words → bit_at (kvm_fill words log) p = bool_decide (p ∈ log)).

Definition source_of (p : Pre) : Source := mkSource (t_data (pr_mem p)) (t_dev (pr_mem p)) (Some (t_data (pr_disk p), t_dev (pr_disk p))).
Definition bundle_of (f g : list Z) : gmap string (list Z) := {[migrationMemFile := f; migrationDiskPath := g]}.
Definition fresh_copy (len : nat) (t : Tracked) : Prop := length (t_data t) = len ∧ t_marks t = [] ∧ t_file t = replicate len None ∧ tracker_for (Z.of_nat len) (t_dev t).
Definition complete_copy (f : list Z) (t : Tracked) : Prop := t_file t = Some <$> f ∧ t_marks t = [].

Lemma fresh_ok len t : fresh_copy len t → tracked_ok len t ∧ uncopied t.
Proof.
  intros (H1 & H2 & H3 & H4). split; [split; rewrite ?H2, ?H3; try done; [by rewrite length_replicate|]|unfold uncopied; rewrite H3; by apply Forall_replicate].
  intros i b Hf. apply lookup_replicate in Hf as [Hf _]. done.
Qed.
Lemma words_bound len : 0 ≤ len → len + 65 * ps < 2 ^ 60 → 0 ≤ wordCount len ∧ 64 * wordCount len * ps < 2 ^ 62 ∧ ∀ o, 0 ≤ o < len → o / ps < 64 * wordCount len.
Proof.
  intros Hl Hb. unfold wordCount. rewrite (u64_small (len + ps - 1)) by lia. assert (0 ≤ (len + ps - 1) / ps ≤ len + ps - 1) as Hq by (split; [apply Z.div_pos; lia|apply Z.div_le_upper_bound; nia]). rewrite u64_small by lia.
  pose proof (Z.div_mod (len + ps - 1) ps ltac:(lia)). pose proof (Z.mod_pos_bound (len + ps - 1) ps ltac:(lia)). remember ((len + ps - 1) / ps) as q eqn:Eq. pose proof (Z.div_mod (q + 63) 64 ltac:(lia)). pose proof (Z.mod_pos_bound (q + 63) 64 ltac:(lia)). remember ((q + 63) / 64) as w eqn:Ew.
  splits; [lia|nia|]. intros o Ho. apply Z.lt_le_trans with q; [|lia]. apply Z.div_lt_upper_bound; nia.
Qed.
Lemma stale_disk len t f : tracked_ok len t → complete_copy f t → t_log t = ∅ →
  length f = length (t_data t) ∧ ∀ i b, f !! i = Some b → t_data t !! i = Some b ∨ bit_at (dt_bits (t_dev t)) (Z.of_nat i / ps) = true.
Proof.
  intros [H1 H2 H3 H4 H5] [Hf Hm] Hlog. rewrite Hf, length_fmap in H2. split; [lia|]. intros i b Hi. destruct (H5 i b) as [|[Hl|[Hl|Hl]]]; [by rewrite Hf, list_lookup_fmap, Hi|by left|rewrite Hlog in Hl; by apply not_elem_of_empty in Hl|by right|]. rewrite Hm in Hl. by inversion Hl.
Qed.

Lemma stale_mem len t f : tracked_ok len t → complete_copy f t → Z.of_nat len + 65 * ps < 2 ^ 60 →
  length f = length (t_data t) ∧ ∀ i b, f !! i = Some b → t_data t !! i = Some b ∨ bit_at (mergeDirtyBitmaps (dirty_log kvm_fill (zlen (t_data t)) (t_log t)) (dt_bits (t_dev t))) (Z.of_nat i / ps) = true.
Proof.
  intros [H1 H2 H3 H4 H5] [Hf Hm] Hb. rewrite Hf, length_fmap in H2. split; [lia|]. intros i b Hi. assert (i < len)%nat by (rewrite <- H2; by eapply lookup_lt_Some). assert (0 ≤ Z.of_nat i / ps) as Hdiv by (apply Z.div_pos; lia).
  destruct (words_bound (Z.of_nat len) ltac:(lia) Hb) as (W0 & _ & W2). rewrite merge_bit by done. destruct (H5 i b) as [|[Hl|[Hl|Hl]]]; [by rewrite Hf, list_lookup_fmap, Hi|by left|right|right|].
  - unfold dirty_log. replace (zlen (t_data t)) with (Z.of_nat len) by (unfold zlen; lia). specialize (W2 (Z.of_nat i) ltac:(lia)). rewrite (proj2 (Z.eqb_neq _ 0)) by lia. destruct (Hfill (Z.to_nat (wordCount (Z.of_nat len))) (t_log t)) as [_ ->]; [|lia]. by rewrite bool_decide_eq_true_2.
  - unfold is_dirty in Hl. by rewrite Hl, orb_true_r.
  - rewrite Hm in Hl. by inversion Hl.
Qed.
(** One file of the bundle through [writeMigrationPatches] and [ApplyMigrationPatches]. *)
Lemma patch_list src file bitmap data p dir : zlen src < 2 ^ 62 → zlen data < 2 ^ 62 → patch_of src ps bitmap data p → dir !! fp_Path p = Some file → length file = length src →
  (∀ i b, file !! i = Some b → src !! i = Some b ∨ bit_at bitmap (Z.of_nat i / ps) = true) →
  for_each (apply_file (fun _ => true) true data) (if 0 <? zlen (fp_Entries p) then [p] else []) dir = Ok (<[fp_Path p := src]> dir).
Proof.
  intros H1 H2 H3 H4 H5 H6. destruct (Z.ltb_spec 0 (zlen (fp_Entries p))) as [Hp|Hp]; cbn [for_each].
  - rewrite (apply_file_ok src ps bitmap data _ p dir file) by done. done.
  - rewrite <- (apply_nothing src ps bitmap data p file) by (done || (apply zlen_0; pose proof (zlen_nonneg (fp_Entries p)); lia)). by rewrite insert_id.
Qed.
Lemma patch_of_app src bm data x p : patch_of src ps bm data p → patch_of src ps bm (data ++ x) p.
Proof. intros [H1 H2]. split; [|done]. intros e He. destruct (H1 e He) as [Hb Hpl]. split; [done|]. apply placed_app; [apply Hb|done]. Qed.
Lemma apply_all set data dir : ApplyMigrationPatches (fun _ => true) true (Some set) (Some data) dir = for_each (apply_file (fun _ => true) true data) (ps_Patches set) dir.
Proof. unfold ApplyMigrationPatches. destruct (ps_Patches set) as [|p l]; [done|]. rewrite zlen_cons. pose proof (zlen_nonneg l). by rewrite (proj2 (Z.eqb_neq _ 0)) by lia. Qed.
Lemma dirty_log_len len log : 0 ≤ wordCount len → zlen (dirty_log kvm_fill len log) = wordCount len.
Proof. intros Hw. unfold dirty_log. destruct (Z.eqb_spec (wordCount len) 0) as [->|]; [done|]. unfold zlen. rewrite (proj1 (Hfill _ _)). lia. Qed.

Lemma disk_patch img blk x1 patches : tracker_for (zlen img) blk → zlen img + 65 * ps < 2 ^ 60 → zlen x1 < 2 ^ 61 →
  ∃ p2 x2, disk_branch working_host patches (mkWriter x1 None) (zlen x1) img blk = Ok (if 0 <? zlen (fp_Entries p2) then patches ++ [p2] else patches, mkWriter (x1 ++ x2) None, Some (img, Reset blk)) ∧
    fp_Path p2 = migrationDiskPath ∧ zlen (x1 ++ x2) ≤ zlen x1 + zlen img ∧ patch_of img ps (dt_bits blk) (x1 ++ x2) p2.
Proof.
  intros (D1 & D2 & D3) Bd Hx. destruct (words_bound (zlen img) (zlen_nonneg _) Bd) as (V0 & V1 & _). unfold disk_branch. cbn [working_host h_prepare h_rd negb SnapshotAndReset dt_pageSize]. fold (Reset blk).
  destruct (Z.ltb_spec 0 (zlen (dt_bits blk))) as [Hb|Hb].
  - destruct (buildDirtyFilePatch_ok (fun _ => true) (fun _ => eq_refl) img ps x1 (dt_bits blk) Hps) with (path := migrationDiskPath) as (p2 & x2 & Hb2 & Hp2 & Hx2 & Hpo2); [lia|lia|rewrite D3; lia|].
    rewrite D2, Hb2. cbn [mbind res_bind]. by exists p2, x2.
  - pose proof (zlen_nonneg img). pose proof (zlen_nonneg (dt_bits blk)). assert (dt_bits blk = []) as Hnil by (apply zlen_0; lia). rewrite Hnil. exists (mkFilePatch migrationDiskPath ps []), []. rewrite app_nil_r. cbn [fp_Entries fp_Path]. splits; [done|done|lia|]. split; [cbn; intros e He; by apply not_elem_of_nil in He|].
    intros o Ho. split; [intros (e & He & _); by apply not_elem_of_nil in He|]. unfold bit_at, at_. by destruct (0 <=? o / ps / 64).
Qed.
(** The patches of a source that is at rest. *)
Lemma finalize_ok mem dev img blk log f g :
  tracker_for (zlen mem) dev → tracker_for (zlen img) blk → zlen mem + 65 * ps < 2 ^ 60 → zlen img + 65 * ps < 2 ^ 60 → zlen log = wordCount (zlen mem) →
  length f = length mem → length g = length img →
  (∀ i b, f !! i = Some b → mem !! i = Some b ∨ bit_at (mergeDirtyBitmaps log (dt_bits dev)) (Z.of_nat i / ps) = true) →
  (∀ i b, g !! i = Some b → img !! i = Some b ∨ bit_at (dt_bits blk) (Z.of_nat i / ps) = true) →
  ∃ set data, writeMigrationPatches working_host log (mkSource mem dev (Some (img, blk))) = Ok (set, data, mkSource mem (Reset dev) (Some (img, Reset blk))) ∧
    ApplyMigrationPatches (fun _ => true) true (Some set) (Some data) (bundle_of f g) = Ok (bundle_of mem img).
Proof.
  intros (M1 & M2 & M3) (D1 & D2 & D3) Bm Bd Hlog Hf Hg Sf Sg. destruct (words_bound (zlen mem) (zlen_nonneg _) Bm) as (W0 & W1 & _). destruct (words_bound (zlen img) (zlen_nonneg _) Bd) as (V0 & V1 & _).
  set (bm := mergeDirtyBitmaps log (dt_bits dev)) in *. assert (zlen bm = wordCount (zlen mem)) as Hbm by (unfold bm; rewrite zlen_merge; lia).
  destruct (buildDirtyFilePatch_ok (fun _ => true) (fun _ => eq_refl) mem ps [] bm Hps) with (path := migrationMemFile) as (p1 & x1 & Hb1 & Hp1 & Hx1 & Hpo1); [lia|by vm_compute|rewrite Hbm; lia|].
  change (zlen []) with 0 in *. cbn [app] in *. destruct (disk_patch img blk x1 (if 0 <? zlen (fp_Entries p1) then [p1] else [])) as (p2 & x2 & Hd2 & Hp2 & Hx2 & Hpo2); [by split|done|lia|].
  unfold writeMigrationPatches. cbn [working_host h_open h_log h_prepare h_sync h_meta h_rd h_room negb src_mem src_memDirty src_disk SnapshotAndReset dt_pageSize]. fold bm. rewrite M2, Hb1. cbn [mbind res_bind]. fold working_host.
  rewrite Hd2. cbn [mbind res_bind negb h_sync h_meta]. eexists _, (x1 ++ x2). split; [unfold Reset; by rewrite M2|]. rewrite apply_all. cbn [ps_Patches].
  assert (for_each (apply_file (fun _ => true) true (x1 ++ x2)) (if 0 <? zlen (fp_Entries p1) then [p1] else []) (bundle_of f g) = Ok (bundle_of mem g)) as H1.
  { rewrite (patch_list mem f bm (x1 ++ x2) p1); [rewrite Hp1; f_equal; unfold bundle_of; by rewrite insert_insert_eq|lia|lia|by apply patch_of_app|by rewrite Hp1|done|done]. }
  assert (for_each (apply_file (fun _ => true) true (x1 ++ x2)) (if 0 <? zlen (fp_Entries p2) then [p2] else []) (bundle_of mem g) = Ok (bundle_of mem img)) as H2.
  { rewrite (patch_list img g (dt_bits blk) (x1 ++ x2) p2); [rewrite Hp2; f_equal; unfold bundle_of; by rewrite insert_commute, insert_singleton|lia|lia|done|by rewrite Hp2|done|done]. }
  destruct (0 <? zlen (fp_Entries p2)); [rewrite for_each_app, H1; exact H2|]. rewrite H1. exact H2.
Qed.
End precopy.


(** A KVM that keeps its promise. *)
Definition fill_word (log : gset Z) (w : nat) : Z := foldr (fun b acc => if bool_decide (64 * Z.of_nat w + b ∈ log) then (1 .<< b) .| acc else acc) 0 bits64.
Definition fill_example (words : nat) (log : gset Z) : list Z := fill_word log <$> seq 0 words.
Lemma fill_example_ok words log : length (fill_example words log) = words ∧ ∀ p, 0 ≤ p < 64 * Z.of_nat words → bit_at (fill_example words log) p = bool_decide (p ∈ log).
Proof.
  split; [unfold fill_example; by rewrite length_fmap, length_seq|]. intros p Hp. pose proof (Z.div_mod p 64 ltac:(lia)). pose proof (Z.mod_pos_bound p 64 ltac:(lia)). assert (0 ≤ p / 64 < Z.of_nat words) as Hq by (split; [apply Z.div_pos; lia|apply Z.div_lt_upper_bound; lia]).
  unfold bit_at, at_, fill_example. rewrite (proj2 (Z.leb_le 0 (p / 64))) by lia. rewrite list_lookup_fmap, lookup_seq_lt by lia. cbn [fmap option_fmap option_map]. unfold fill_word. rewrite Nat.add_0_l, Z2Nat.id by lia.
  assert (∀ bits j, 0 ≤ j → Forall (fun b => 0 ≤ b) bits → Z.testbit (foldr (fun b acc => if bool_decide (64 * (p / 64) + b ∈ log) then (1 .<< b) .| acc else acc) 0 bits) j = existsb (fun b => (b =? j) && bool_decide (64 * (p / 64) + b ∈ log)) bits) as Hfold.
  { induction bits as [|b bits IH]; intros j Hj Hb; [apply Z.testbit_0_l|]. inversion Hb as [|? ? Hb1 Hb2]; subst. cbn [foldr existsb]. destruct (bool_decide (64 * (p / 64) + b ∈ log)); rewrite ?andb_false_r, ?andb_true_r, ?orb_false_l; [|by apply IH].
    rewrite Z.lor_spec, IH by done. f_equal. rewrite Z.shiftl_1_l, Z.pow2_bits_eqb by lia. done. }
  rewrite Hfold; [|lia|apply Forall_fmap, Forall_forall; intros b _; cbn; lia]. apply eq_bool_prop_intro. rewrite Is_true_true, existsb_exists, bool_decide_spec. split.
  - intros (b & _ & Hb). b2p. apply bool_decide_eq_true_1 in H2. replace p with (64 * (p / 64) + b) by lia. done.
  - intros Hin. exists (p mod 64). split; [unfold bits64; apply list_elem_of_In, list_elem_of_fmap; exists (Z.to_nat (p mod 64)); split; [lia|apply elem_of_seq; lia]|]. rewrite Z.eqb_refl. cbn. apply bool_decide_eq_true_2. by replace (64 * (p / 64) + p mod 64) with p by lia.
Qed.
Definition tracked_example (data : list Z) : Tracked := mkTracked data ∅ (NewDirtyTracker 2 (zlen data)) [] (replicate (length data) None).
Definition pre_example : Pre := mkPre (tracked_example [1; 2; 3; 4]) (tracked_example [5; 6]) false 0.
Definition steps_example : list mig_step :=
  [VcpuStore 0 7; PrepareNext; PrepareNext; PrepareNext; PrepareNext; CopyMem 0; CopyMem 1; VcpuStore 1 9; CopyMem 2; DevWrite 2 [8]; CopyMem 3; DevMark 0; CopyDisk 0; DiskWrite 0 [4]; CopyDisk 1; DiskMark 0].
(** The copies of the example are complete, and stale. *)
Lemma migration_example_complete : ∃ p, for_each (mig_do 2) steps_example pre_example = Ok p ∧ complete_copy [7; 2; 3; 4] (pr_mem p) ∧ complete_copy [5; 6] (pr_disk p) ∧ t_data (pr_mem p) = [7; 9; 8; 4] ∧ t_data (pr_disk p) = [4; 6].
Proof. eexists. split; [vm_compute; reflexivity|]. by repeat split. Qed.

(** Pausing stops the vCPUs only.  A receive pump that has written into guest memory
    and not marked it yet, when the patches are written, loses the bytes: *)
Lemma pump_write_lost : ∃ p set data vm,
  for_each (mig_do 2) [PrepareNext; PrepareNext; PrepareNext; PrepareNext; CopyMem 0; CopyMem 1; CopyMem 2; CopyMem 3; CopyDisk 0; CopyDisk 1; DevWrite 2 [8]] pre_example = Ok p ∧
  writeMigrationPatches working_host (dirty_log 2 fill_example 4 (t_log (pr_mem p))) (source_of p) = Ok (set, data, vm) ∧
  ApplyMigrationPatches (fun _ => true) true (Some set) (Some data) (bundle_of [1; 2; 3; 4] [5; 6]) = Ok (bundle_of [1; 2; 3; 4] [5; 6]) ∧ t_data (pr_mem p) = [1; 2; 8; 4].
Proof. eexists _, _, _, _. split; [vm_compute; reflexivity|]. split; [vm_compute; reflexivity|]. by split. Qed.

(** ** Assets of a bundle

    The kernel, the initial RAM disk and the disk image are hard-linked into the bundle
    where that is possible.  A file system is its names, each with an inode, and the
    inodes' contents. *)
Record FS := mkFS { fs_names : gmap string nat; fs_data : gmap nat (list Z); fs_next : nat }.
Definition fs_read (fs : FS) (path : string) : option (list Z) := i ← fs_names fs !! path; fs_data fs !! i.
Definition fs_wf (fs : FS) : Prop := (∀ p i, fs_names fs !! p = Some i → is_Some (fs_data fs !! i) ∧ (i < fs_next fs)%nat).

Definition resolveSnapshotPath (dir value : string) : string :=
  if bool_decide (value = "") || bool_decide (String.get 0 value = Some (Ascii.ascii_of_nat 47)) then value else (dir ++ "/" ++ value)%string.
(** [regular]: the source is a regular file; [link_ok]: the host can link here. *)
Definition copyFile (regular link_ok : bool) (dst src : string) (fs : FS) : res mig_err FS :=
  match fs_names fs !! src with
  | None => Err MNoAsset
  | Some i =>
      if negb regular then Err MAssetType
      else if link_ok && bool_decide (fs_names fs !! dst = None) then Ok (mkFS (<[dst := i]> (fs_names fs)) (fs_data fs) (fs_next fs))
      else
        (* O_CREATE|O_TRUNC, then the contents of what src is by now *)
        let '(o, fs) := match fs_names fs !! dst with
                        | Some o => (o, mkFS (fs_names fs) (<[o := []]> (fs_data fs)) (fs_next fs))
                        | None => (fs_next fs, mkFS (<[dst := fs_next fs]> (fs_names fs)) (<[fs_next fs := []]> (fs_data fs)) (S (fs_next fs)))
                        end in
        data ← must (fs_data fs !! i);
        Ok (mkFS (fs_names fs) (<[o := data]> (fs_data fs)) (fs_next fs))
  end.
Definition sameFilePath (a b : string) : bool := bool_decide (a = b).
Definition bundleAsset (regular link_ok : bool) (dir srcPath relDest : string) (fs : FS) : res mig_err (string * FS) :=
  if bool_decide (srcPath = "") then Ok ("", fs)
  else
    let resolved := resolveSnapshotPath dir srcPath in
    if bool_decide (resolved = "") then Ok ("", fs)
    else
      let dstPath := (dir ++ "/" ++ relDest)%string in
      if sameFilePath resolved dstPath then Ok (relDest, fs)
      else fs ← copyFile regular link_ok dstPath resolved fs; Ok (relDest, fs).

(** Into a bundle that does not have it yet, an asset is copied. *)
Lemma copyFile_copies link_ok dst src fs bs : fs_wf fs → fs_names fs !! dst = None → fs_read fs src = Some bs →
  ∃ fs', copyFile true link_ok dst src fs = Ok fs' ∧ fs_wf fs' ∧ fs_read fs' dst = Some bs ∧ ∀ p, p ≠ dst → fs_read fs' p = fs_read fs p.
Proof.
  intros Hwf Hn Hr. unfold copyFile, fs_read in *. destruct (fs_names fs !! src) as [i|] eqn:Ei; [|done]. cbn [mbind option_bind] in Hr. cbn [negb]. destruct (Hwf src i Ei) as [_ Hi]. rewrite bool_decide_eq_true_2 by done. destruct link_ok; cbn [andb].
  - eexists. split; [done|]. splits.
    + intros p j Hp. cbn in *. destruct (decide (p = dst)) as [->|Hne]; [rewrite lookup_insert_eq in Hp; injection Hp as <-; by apply (Hwf src)|]. rewrite lookup_insert_ne in Hp by done. by apply (Hwf p).
    + cbn. by rewrite lookup_insert_eq.
    + intros p Hp. cbn. by rewrite lookup_insert_ne.
  - rewrite Hn. cbn [fs_data fs_names]. rewrite lookup_insert_ne by lia. rewrite Hr. cbn [must mbind res_bind]. eexists. split; [done|]. splits; cbn.
    + intros p j Hp. cbn in *. destruct (decide (p = dst)) as [->|Hne]; [rewrite lookup_insert_eq in Hp; injection Hp as <-; rewrite lookup_insert_eq; split; [done|lia]|]. rewrite lookup_insert_ne in Hp by done.
      destruct (Hwf p j Hp) as [H1 H2]. rewrite !lookup_insert_ne by lia. split; [done|lia].
    + rewrite lookup_insert_eq. cbn. by rewrite lookup_insert_eq.
    + intros p Hp. rewrite lookup_insert_ne by done. destruct (fs_names fs !! p) as [j|] eqn:Ej; [|done]. cbn. destruct (Hwf p j Ej) as [_ Hj]. by rewrite !lookup_insert_ne by lia.
Qed.
(** Into a bundle that has it already, linked to the source, the source itself is emptied. *)
Lemma copyFile_empties_source link_ok dst src fs i bs : fs_wf fs → fs_names fs !! src = Some i → fs_names fs !! dst = Some i → fs_data fs !! i = Some bs →
  ∃ fs', copyFile true link_ok dst src fs = Ok fs' ∧ fs_read fs' src = Some [].
Proof.
  intros Hwf Hs Hd Hi. unfold copyFile. rewrite Hs, Hd. cbn [negb]. rewrite bool_decide_eq_false_2, andb_false_r by done. cbn [fs_data]. rewrite lookup_insert_eq. cbn [must mbind res_bind]. eexists. split; [done|]. unfold fs_read. cbn. rewrite Hs. cbn. by rewrite lookup_insert_eq.
Qed.
Lemma bundle_twice_empties_disk : ∃ fs1 fs2,
  bundleAsset true true "/b" "/disk" migrationDiskPath (mkFS {["/disk" := 0%nat]} {[0%nat := [1; 2; 3]]} 1) = Ok (migrationDiskPath, fs1) ∧
  bundleAsset true true "/b" "/disk" migrationDiskPath fs1 = Ok (migrationDiskPath, fs2) ∧ fs_read fs1 "/disk" = Some [1; 2; 3] ∧ fs_read fs2 "/disk" = Some [].
Proof. eexists _, _. split; [vm_compute; reflexivity|]. split; [vm_compute; reflexivity|]. by split. Qed.
