(* ===== verification/Layer.v ===== *)
(** * Unpacking image layers (src/internal/oci/oci.go)

    A container image is a sequence of tar archives that are unpacked on top of each
    other into a directory of the host, with whiteout entries that delete.  The names in an
    archive are chosen by whoever made the image.  The code resolves them against the root
    directory by itself, then gives host paths to system calls, which resolve them once
    more, following symbolic links; so the model has both: the code's resolution,
    and a host file system with the kernel's.

    A host path is the list of its components from [/]; strings of the archive are Rocq
    strings.  Directories are in the tree itself, files and symbolic links are inodes, so
    that hard links are visible.  The archive reader is outside the repository: a layer is
    the list of its entries. *)
From S2P Require Import Prelude.

(** ** Path strings *)
Fixpoint split_slash (s : string) : list string :=
  match s with
  | EmptyString => [""]
  | String c s =>
      match split_slash s with
      | h :: t => if bool_decide (c = Ascii.ascii_of_nat 47) then "" :: h :: t else String c h :: t
      | [] => []
      end
  end.
Definition is_abs (s : string) : bool := match s with String c _ => bool_decide (c = Ascii.ascii_of_nat 47) | EmptyString => false end.
Definition is_space (c : Ascii.ascii) : bool := let n := Ascii.nat_of_ascii c in ((9 <=? n)%nat && (n <=? 13)%nat) || (n =? 32)%nat.
Fixpoint trim_left (s : string) : string := match s with String c s' => if is_space c then trim_left s' else s | EmptyString => "" end.
Fixpoint trim_right (s : string) : string :=
  match s with
  | EmptyString => ""
  | String c s => match trim_right s with "" => if is_space c then "" else String c "" | s' => String c s' end
  end.
Definition TrimSpace (s : string) : string := trim_right (trim_left s).
Fixpoint trim_prefix (p s : string) : option string :=
  match p, s with
  | EmptyString, _ => Some s
  | String a p, String b s => if bool_decide (a = b) then trim_prefix p s else None
  | _, _ => None
  end.

(** [path.Clean] of a rooted path, as components. *)
Definition clean_step (acc : list string) (c : string) : list string :=
  if bool_decide (c = "") || bool_decide (c = ".") then acc
  else if bool_decide (c = "..") then take (length acc - 1) acc
  else acc ++ [c].
Definition clean_abs (cs : list string) : list string := fold_left clean_step cs [].
(** [path.Clean] of a relative one: leading [..] stay. *)
Definition clean_rel_step (acc : list string) (c : string) : list string :=
  if bool_decide (c = "") || bool_decide (c = ".") then acc
  else if bool_decide (c = "..") then
    match last acc with
    | None => [".."]
    | Some l => if bool_decide (l = "..") then acc ++ [".."] else take (length acc - 1) acc
    end
  else acc ++ [c].
Definition clean_rel (cs : list string) : list string := fold_left clean_rel_step cs [].

(** ** The host's file system *)
Abbreviation hpath := (list string).
Record meta := mkMeta { m_owner : Z * Z; m_mode : Z; m_times : Z * Z }.
Inductive obj := OFile (data : list Z) (m : meta) | OLink (target : string) (m : meta).
Inductive node := NDir (m : meta) | NIno (i : nat).
Record FSys := mkFSys { fs_nodes : gmap (list string) node; fs_objs : gmap nat obj; fs_fresh : nat }.
Inductive sys_err := ENOENT | ENOTDIR | ELOOP | EEXIST | EISDIR | ENOTEMPTY | EPERM | EINVAL | Escapes | EIO.

Definition link_at (fs : FSys) (p : hpath) : option string :=
  match fs_nodes fs !! p with
  | Some (NIno i) => match fs_objs fs !! i with Some (OLink t _) => Some t | _ => None end
  | _ => None
  end.
Definition dir_at (fs : FSys) (p : hpath) : bool := match fs_nodes fs !! p with Some (NDir _) => true | _ => false end.

(** The kernel's resolution of a path, component by component; [follow] is for a link in the
    last place, and [links] bounds the links followed. *)
Fixpoint walk (fs : FSys) (follow : bool) (links : nat) : hpath → list string → res sys_err hpath :=
  fix go (cur : hpath) (rest : list string) : res sys_err hpath :=
    match rest with
    | [] => Ok cur
    | c :: rest =>
        if bool_decide (c = "") || bool_decide (c = ".") then go cur rest
        else if bool_decide (c = "..") then go (take (length cur - 1) cur) rest
        else
          let p := cur ++ [c] in
          match link_at fs p with
          | Some t =>
              if bool_decide (rest = []) && negb follow then Ok p
              else match links with
                   | O => Err ELOOP
                   | S links => walk fs follow links (if is_abs t then [] else cur) (split_slash t ++ rest)
                   end
          | None =>
              match rest with
              | [] => Ok p
              | _ => if dir_at fs p then go p rest
                     else match fs_nodes fs !! p with Some _ => Err ENOTDIR | None => Err ENOENT end
              end
          end
    end.
Definition MAXSYMLINKS : nat := 40.
Definition namei (fs : FSys) (follow : bool) (p : hpath) : res sys_err hpath := walk fs follow MAXSYMLINKS [] p.

(** ** System calls *)
Definition sys_lstat (fs : FSys) (p : hpath) : res sys_err node :=
  q ← namei fs false p; match fs_nodes fs !! q with Some n => Ok n | None => Err ENOENT end.
Definition sys_stat (fs : FSys) (p : hpath) : res sys_err node :=
  q ← namei fs true p; match fs_nodes fs !! q with Some n => Ok n | None => Err ENOENT end.
Definition set_node (fs : FSys) (p : hpath) (n : node) : FSys := mkFSys (<[p := n]> (fs_nodes fs)) (fs_objs fs) (fs_fresh fs).
Definition new_obj (fs : FSys) (p : hpath) (o : obj) : FSys :=
  mkFSys (<[p := NIno (fs_fresh fs)]> (fs_nodes fs)) (<[fs_fresh fs := o]> (fs_objs fs)) (S (fs_fresh fs)).
Definition set_obj (fs : FSys) (i : nat) (o : obj) : FSys := mkFSys (fs_nodes fs) (<[i := o]> (fs_objs fs)) (fs_fresh fs).
Definition sys_mkdir (m : meta) (p : hpath) (fs : FSys) : res sys_err FSys :=
  q ← namei fs false p; match fs_nodes fs !! q with Some _ => Err EEXIST | None => Ok (set_node fs q (NDir m)) end.
(** The same, for a path that is given backwards. *)
Fixpoint mkdir_all (m : meta) (rp : list string) (fs : FSys) : res sys_err FSys :=
  match sys_stat fs (rev rp) with
  | Ok (NDir _) => Ok fs
  | Ok (NIno _) => Err ENOTDIR
  | Panic => Panic
  | NoFuel => NoFuel
  | Err _ =>
      match rp with
      | [] => Err ENOENT
      | c :: rp' =>
          fs ← mkdir_all m rp' fs;
          match sys_mkdir m (rev rp) fs with
          | Err e => match sys_lstat fs (rev rp) with Ok (NDir _) => Ok fs | _ => Err e end
          | r => r
          end
      end
  end.
(** os.MkdirAll *)
Definition MkdirAll (m : meta) (p : hpath) (fs : FSys) : res sys_err FSys := mkdir_all m (rev p) fs.
(** os.OpenFile with O_CREATE|O_WRONLY|O_TRUNC, and the copying *)
Definition write_file (m : meta) (data : list Z) (p : hpath) (fs : FSys) : res sys_err FSys :=
  q ← namei fs true p;
  match fs_nodes fs !! q with
  | Some (NDir _) => Err EISDIR
  | Some (NIno i) =>
      match fs_objs fs !! i with
      | Some (OFile _ m') => Ok (set_obj fs i (OFile data m'))
      | _ => Err ELOOP
      end
  | None => Ok (new_obj fs q (OFile data m))
  end.
Definition below (p q : hpath) : bool := bool_decide (p `prefix_of` q).
Definition has_children (fs : FSys) (p : hpath) : bool :=
  bool_decide (map_Exists (fun q _ => below p q = true ∧ q ≠ p) (fs_nodes fs)).
(** os.Remove *)
Definition Remove (p : hpath) (fs : FSys) : res sys_err FSys :=
  q ← namei fs false p;
  match fs_nodes fs !! q with
  | None => Err ENOENT
  | Some (NDir _) => if has_children fs q then Err ENOTEMPTY else Ok (mkFSys (delete q (fs_nodes fs)) (fs_objs fs) (fs_fresh fs))
  | Some (NIno _) => Ok (mkFSys (delete q (fs_nodes fs)) (fs_objs fs) (fs_fresh fs))
  end.
(** os.RemoveAll *)
Definition RemoveAll (p : hpath) (fs : FSys) : res sys_err FSys :=
  match namei fs false p with
  | Ok q => Ok (mkFSys (filter (fun '(r, _) => below q r = false) (fs_nodes fs)) (fs_objs fs) (fs_fresh fs))
  | Err ENOENT => Ok fs
  | Err e => Err e
  | Panic => Panic
  | NoFuel => NoFuel
  end.
Definition sys_symlink (m : meta) (target : string) (p : hpath) (fs : FSys) : res sys_err FSys :=
  q ← namei fs false p; match fs_nodes fs !! q with Some _ => Err EEXIST | None => Ok (new_obj fs q (OLink target m)) end.
Definition sys_link (old new : hpath) (fs : FSys) : res sys_err FSys :=
  o ← namei fs false old;
  match fs_nodes fs !! o with
  | None => Err ENOENT
  | Some (NDir _) => Err EPERM
  | Some (NIno i) => q ← namei fs false new; match fs_nodes fs !! q with Some _ => Err EEXIST | None => Ok (set_node fs q (NIno i)) end
  end.
Definition obj_meta (f : meta → meta) (o : obj) : obj := match o with OFile d m => OFile d (f m) | OLink t m => OLink t (f m) end.
(** Lchown, Chmod and Chtimes: [follow] says whether a link in the last place is followed. *)
Definition sys_setmeta (follow : bool) (f : meta → meta) (p : hpath) (fs : FSys) : res sys_err FSys :=
  q ← namei fs follow p;
  match fs_nodes fs !! q with
  | None => Err ENOENT
  | Some (NDir m) => Ok (set_node fs q (NDir (f m)))
  | Some (NIno i) => match fs_objs fs !! i with Some o => Ok (set_obj fs i (obj_meta f o)) | None => Err EIO end
  end.
(** os.ReadDir: the names (their order does not matter to the caller). *)
Definition child_name (q : hpath) (p : hpath) : option string := if bool_decide (length p = S (length q)) && below q p then last p else None.
Definition ReadDir (p : hpath) (fs : FSys) : list string :=
  match sys_stat fs p, namei fs true p with
  | Ok (NDir _), Ok q => omap (child_name q) (map_to_list (fs_nodes fs)).*1
  | _, _ => []
  end.
Definition sys_readlink (fs : FSys) (p : hpath) : res sys_err string :=
  q ← namei fs false p; match link_at fs q with Some t => Ok t | None => Err EINVAL end.

(** ** The code *)
Inductive tar_type := TypeDir | TypeReg | TypeSymlink | TypeLink | TypeOther.
#[export] Instance tar_type_eq_dec : EqDecision tar_type.
Proof. solve_decision. Defined.
(** Times are zero when the archive has none. *)
Record Header := mkHeader { h_Name : string; h_Typeflag : tar_type; h_Linkname : string; h_Mode : Z; h_owner : Z * Z; h_AccessTime : Z; h_ModTime : Z; h_data : list Z }.

(** The empty list is the path [.]. *)
Definition cleanLayerEntryName (name : string) : list string :=
  let name := TrimSpace name in
  if bool_decide (name = "") then [] else clean_abs (split_slash name).

Definition ensurePathWithinRoot (root target : hpath) : bool := bool_decide (root `prefix_of` target).

Definition resolve_part (fs : FSys) (root : hpath) (part : string) (st : hpath * list string) : res sys_err (hpath * list string) :=
  let '(hostDir, cursor) := st in
  if bool_decide (part = "") || bool_decide (part = ".") then Ok st
  else
    let nextLiteral := hostDir ++ [part] in
    let literal := if ensurePathWithinRoot root nextLiteral then Ok (nextLiteral, cursor ++ [part]) else Err Escapes in
    match sys_lstat fs nextLiteral with
    | Ok (NDir _) => literal
    | Ok (NIno i) =>
        match fs_objs fs !! i with
        | Some (OLink _ _) =>
            target ← sys_readlink fs nextLiteral;
            let containerTarget := clean_abs (if is_abs target then split_slash target else cursor ++ split_slash target) in
            let hostDir := root ++ containerTarget in
            if ensurePathWithinRoot root hostDir then Ok (hostDir, containerTarget) else Err Escapes
        | _ => literal
        end
    | Err ENOENT => literal
    | Err e => Err e
    | Panic => Panic
    | NoFuel => NoFuel
    end.
Definition resolveLayerParentDir (fs : FSys) (root : hpath) (containerDir : list string) : res sys_err hpath :=
  '(hostDir, _) ← for_each (resolve_part fs root) (clean_abs containerDir) (root, []); Ok hostDir.

(** A path string as whether it is rooted and its components. *)
Definition resolveLayerEntryPath (fs : FSys) (root : hpath) (rel : bool * list string) : res sys_err hpath :=
  let '(rooted, cs) := rel in
  let cleaned := if rooted then clean_abs cs else clean_rel cs in
  match last cleaned with
  | None => Ok root
  | Some base =>
      parentHost ← resolveLayerParentDir fs root (take (length cleaned - 1) cleaned);
      let target := if bool_decide (base = "..") then take (length parentHost - 1) parentHost else parentHost ++ [base] in
      if ensurePathWithinRoot root target then Ok target else Err Escapes
  end.

Definition resolveLayerLinkPath (fs : FSys) (root : hpath) (entryRel : list string) (linkname : string) : res sys_err hpath :=
  if is_abs linkname then resolveLayerEntryPath fs root (true, split_slash linkname)
  else
    let cleanLink := clean_rel (split_slash linkname) in
    rootRelative ← resolveLayerEntryPath fs root (false, cleanLink);
    match sys_lstat fs rootRelative with
    | Ok _ => Ok rootRelative
    | Err ENOENT => resolveLayerEntryPath fs root (true, take (length entryRel - 1) entryRel ++ cleanLink)
    | Err e => Err e
    | Panic => Panic
    | NoFuel => NoFuel
    end.

Definition prepareTarEntryTarget (target : hpath) (ty : tar_type) (fs : FSys) : res sys_err FSys :=
  match sys_lstat fs target with
  | Err ENOENT => Ok fs
  | Err e => Err e
  | Panic => Panic
  | NoFuel => NoFuel
  | Ok n =>
      let same := match ty, n with
                  | TypeDir, NDir _ => true
                  | TypeReg, NIno i => match fs_objs fs !! i with Some (OFile _ _) => true | _ => false end
                  | _, _ => false
                  end in
      if same then Ok fs else RemoveAll target fs
  end.

(** [priv]: the host lets the process change owners; a refusal is ignored. *)
Definition applyTarEntryMetadata (priv : bool) (path : hpath) (hdr : Header) (fs : FSys) : res sys_err FSys :=
  fs ← (if priv then sys_setmeta false (fun m => mkMeta (h_owner hdr) (m_mode m) (m_times m)) path fs else Ok fs);
  if bool_decide (h_Typeflag hdr = TypeSymlink) then Ok fs
  else
    fs ← sys_setmeta true (fun m => mkMeta (m_owner m) (h_Mode hdr .& 0xFFF) (m_times m)) path fs;
    let atime := if h_AccessTime hdr =? 0 then h_ModTime hdr else h_AccessTime hdr in
    let mtime := if h_ModTime hdr =? 0 then atime else h_ModTime hdr in
    if negb (atime =? 0) || negb (mtime =? 0) then sys_setmeta true (fun m => mkMeta (m_owner m) (m_mode m) (atime, mtime)) path fs else Ok fs.

Definition ignore (m : res sys_err FSys) (fs : FSys) : res sys_err FSys := match m with Err _ => Ok fs | r => r end.
(** [if err := os.Remove(target); err != nil && !os.IsNotExist(err)] *)
Definition remove_old (target : hpath) (fs : FSys) : res sys_err FSys := match Remove target fs with Err ENOENT => Ok fs | r => r end.
(** [filepath.Join(dir, name)] of one component. *)
Definition join1 (dir : hpath) (name : string) : hpath :=
  if bool_decide (name = "") || bool_decide (name = ".") then dir
  else if bool_decide (name = "..") then take (length dir - 1) dir
  else dir ++ [name].

(** Defaults of things created (umask and clock of the process). *)
Definition dir_meta (mode : Z) : meta := mkMeta (0, 0) mode (0, 0).

Definition apply_whiteout (base rest : string) (parentDir : hpath) (fs : FSys) : res sys_err FSys :=
  if bool_decide (base = ".wh..wh..opq") then for_each (fun e fs => ignore (RemoveAll (join1 parentDir e) fs) fs) (ReadDir parentDir fs) fs
  else ignore (RemoveAll (join1 parentDir rest) fs) fs.

Definition apply_typed (priv : bool) (root : hpath) (rel : list string) (target : hpath) (hdr : Header) (st : FSys * list (hpath * Header)) : res sys_err (FSys * list (hpath * Header)) :=
  let '(fs, dirs) := st in
  match h_Typeflag hdr with
  | TypeDir =>
      fs ← prepareTarEntryTarget target TypeDir fs;
      fs ← MkdirAll (dir_meta (h_Mode hdr .| 0x49)) target fs;
      Ok (fs, dirs ++ [(target, hdr)])
  | TypeReg =>
      fs ← prepareTarEntryTarget target TypeReg fs;
      fs ← write_file (dir_meta (h_Mode hdr .| 0x80)) (h_data hdr) target fs;
      fs ← applyTarEntryMetadata priv target hdr fs;
      Ok (fs, dirs)
  | TypeSymlink =>
      fs ← remove_old target fs;
      fs ← sys_symlink (dir_meta 0x1FF) (h_Linkname hdr) target fs;
      fs ← applyTarEntryMetadata priv target hdr fs;
      Ok (fs, dirs)
  | TypeLink =>
      fs ← remove_old target fs;
      linkTarget ← resolveLayerLinkPath fs root rel (h_Linkname hdr);
      fs ← sys_link linkTarget target fs;
      fs ← applyTarEntryMetadata priv target hdr fs;
      Ok (fs, dirs)
  | TypeOther => Ok (fs, dirs)
  end.

Definition apply_tar_entry (priv : bool) (root : hpath) (hdr : Header) (st : FSys * list (hpath * Header)) : res sys_err (FSys * list (hpath * Header)) :=
  let rel := cleanLayerEntryName (h_Name hdr) in
  match last rel with
  | None => Ok st
  | Some base =>
      let '(fs, dirs) := st in
      target ← resolveLayerEntryPath fs root (false, rel);
      let parentDir := take (length target - 1) target in
      match trim_prefix ".wh." base with
      | Some rest => fs ← apply_whiteout base rest parentDir fs; Ok (fs, dirs)
      | None =>
          fs ← MkdirAll (dir_meta 0x1ED) parentDir fs;
          apply_typed priv root rel target hdr (fs, dirs)
      end
  end.

Definition applyTar (priv : bool) (root : hpath) (layer : list Header) (fs : FSys) : res sys_err FSys :=
  '(fs, dirs) ← for_each (apply_tar_entry priv root) layer (fs, []);
  for_each (fun '(path, hdr) fs => applyTarEntryMetadata priv path hdr fs) (rev dirs) fs.
(** [ExtractToDir], for layers that the archive reader can open. *)
Definition ExtractToDir (priv : bool) (root : hpath) (layers : list (list Header)) (fs : FSys) : res sys_err FSys :=
  for_each (applyTar priv root) layers fs.

(** ** Images that reach out of the root *)
Definition host_example : FSys :=
  mkFSys {[[] := NDir (dir_meta 0); ["etc"] := NDir (dir_meta 0); ["etc"; "passwd"] := NIno 0; ["tmp"] := NDir (dir_meta 0); ["tmp"; "work"] := NDir (dir_meta 0); ["tmp"; "work"; "root"] := NDir (dir_meta 0)]}
    {[0%nat := OFile [1; 2; 3] (dir_meta 0x1A4)]} 1.
Definition root_example : hpath := ["tmp"; "work"; "root"].
Definition plain (name : string) (ty : tar_type) (link : string) (data : list Z) : Header := mkHeader name ty link 0x1FF (0, 0) 0 1 data.
Lemma escape_whiteout : ∃ fs, applyTar true root_example [plain ".wh..." TypeReg "" []] host_example = Ok fs ∧ fs_nodes fs !! ["tmp"; "work"] = None.
Proof. eexists. split; [vm_compute; reflexivity|]. by vm_compute. Qed.
Lemma escape_links : ∃ fs, applyTar true root_example [plain "b" TypeSymlink "/" []; plain "a" TypeSymlink "b/etc" []; plain "a/passwd" TypeReg "" [6; 6; 6]] host_example = Ok fs ∧
  fs_objs fs !! 0%nat = Some (OFile [6; 6; 6] (mkMeta (0, 0) 0x1FF (1, 1))).
Proof. eexists. split; [vm_compute; reflexivity|]. by vm_compute. Qed.
Lemma escape_chmod : ∃ fs, applyTar true root_example [plain "a" TypeSymlink "/etc/passwd" []; plain "b" TypeLink "a" []] host_example = Ok fs ∧
  fs_objs fs !! 0%nat = Some (OFile [1; 2; 3] (mkMeta (0, 0) 0x1FF (1, 1))).
Proof. eexists. split; [vm_compute; reflexivity|]. by vm_compute. Qed.
Lemma escape_dir_meta : ∃ fs, applyTar true root_example [plain "d" TypeDir "" []; plain "d" TypeSymlink "/etc" []] host_example = Ok fs ∧
  fs_nodes fs !! ["etc"] = Some (NDir (mkMeta (0, 0) 0x1FF (1, 1))).
Proof. eexists. split; [vm_compute; reflexivity|]. by vm_compute. Qed.

(** A file of an upper layer is written through the hard links of a lower one. *)
Lemma hardlink_write_through : ∃ fs i m, ExtractToDir true root_example [[plain "a" TypeReg "" [1]; plain "b" TypeLink "a" []]; [plain "a" TypeReg "" [2]]] host_example = Ok fs ∧
  fs_nodes fs !! (root_example ++ ["b"]) = Some (NIno i) ∧ fs_objs fs !! i = Some (OFile [2] m).
Proof. do 3 eexists. split; [vm_compute; reflexivity|]. split; by vm_compute. Qed.

(** ** Staying inside *)
Definition okname (c : string) : Prop := c ≠ "" ∧ c ≠ "." ∧ c ≠ "..".
Definition linkfree (fs : FSys) (p : hpath) : Prop := ∀ q, q `prefix_of` p → link_at fs q = None.
(** Only the last component may be a link. *)
Definition linkfree_above (fs : FSys) (p : hpath) : Prop := ∀ q, q `prefix_of` p → q ≠ p → link_at fs q = None.
Definition view (fs : FSys) (p : hpath) : option (node * option obj) :=
  n ← fs_nodes fs !! p; Some (n, match n with NIno i => fs_objs fs !! i | NDir _ => None end).

Lemma walk_unfold fs follow links cur c rest : okname c → walk fs follow links cur (c :: rest) =
  match link_at fs (cur ++ [c]) with
  | Some t =>
      if bool_decide (rest = []) && negb follow then Ok (cur ++ [c])
      else match links with O => Err ELOOP | S links => walk fs follow links (if is_abs t then [] else cur) (split_slash t ++ rest) end
  | None =>
      match rest with
      | [] => Ok (cur ++ [c])
      | _ => if dir_at fs (cur ++ [c]) then walk fs follow links (cur ++ [c]) rest else match fs_nodes fs !! (cur ++ [c]) with Some _ => Err ENOTDIR | None => Err ENOENT end
      end
  end.
Proof. intros (H1 & H2 & H3). destruct links; cbn [walk]; rewrite !bool_decide_eq_false_2 by done; done. Qed.
Lemma walk_nil fs follow links cur : walk fs follow links cur [] = Ok cur.
Proof. by destruct links. Qed.

Lemma walk_exact fs follow links : ∀ rest cur r, Forall okname rest →
  (∀ x, x `prefix_of` rest → x ≠ [] → x ≠ rest → link_at fs (cur ++ x) = None) → (follow = true → rest = [] ∨ link_at fs (cur ++ rest) = None) →
  walk fs follow links cur rest = Ok r → r = cur ++ rest ∧ ∀ x, x `prefix_of` rest → x ≠ [] → x ≠ rest → dir_at fs (cur ++ x) = true.
Proof.
  induction rest as [|c rest IH]; intros cur r Hn Hl Hf; [rewrite walk_nil; intros [= <-]; rewrite app_nil_r; split; [done|]; intros x Hx%prefix_nil_inv; done|].
  inversion Hn as [|? ? Hc Hn']; subst. rewrite walk_unfold by done. destruct (decide (rest = [])) as [->|Hr].
  - intros Hw. assert (r = cur ++ [c]) as ->.
    { revert Hw. rewrite bool_decide_eq_true_2 by done. cbn [andb]. destruct (link_at fs (cur ++ [c])) eqn:E; [|by intros [= <-]]. destruct follow; cbn [negb]; [|by intros [= <-]]. destruct (Hf eq_refl); [done|congruence]. }
    split; [done|]. intros x Hx Hx0 Hx1. destruct x as [|y x]; [done|]. pose proof (prefix_cons_inv_1 _ _ _ _ Hx) as Hy. apply prefix_cons_inv_2, prefix_nil_inv in Hx. subst. by destruct Hx1.
  - assert (link_at fs (cur ++ [c]) = None) as -> by (apply Hl; [by exists rest|done|intros [=]; done]). destruct rest as [|d rest]; [done|]. destruct (dir_at fs (cur ++ [c])) eqn:Ed; [|by case_match].
    intros Hw. destruct (IH (cur ++ [c]) r Hn') as [-> Hdirs]; [..|exact Hw|].
    + intros x Hx Hx0 Hxr. rewrite <- app_assoc. apply Hl; [by apply prefix_cons|done|]. intros [= ->]. done.
    + intros Ht. right. rewrite <- app_assoc. by destruct (Hf Ht).
    + rewrite <- app_assoc. split; [done|]. intros x Hx Hx0 Hx1. destruct x as [|y x]; [done|]. pose proof (prefix_cons_inv_1 _ _ _ _ Hx) as Hy. apply prefix_cons_inv_2 in Hx. subst y. destruct x as [|z x]; [done|]. specialize (Hdirs (z :: x) Hx ltac:(done) ltac:(congruence)). by rewrite <- app_assoc in Hdirs.
Qed.
Lemma walk_last fs links : ∀ rest cur, Forall okname rest → (∀ x, x `prefix_of` rest → x ≠ [] → x ≠ rest → dir_at fs (cur ++ x) = true) → walk fs false links cur rest = Ok (cur ++ rest).
Proof.
  induction rest as [|c rest IH]; intros cur Hn Hd; [by rewrite walk_nil, app_nil_r|]. inversion Hn as [|? ? Hc Hn']; subst. rewrite walk_unfold by done. destruct (decide (rest = [])) as [->|Hr]; [rewrite bool_decide_eq_true_2 by done; cbn; by destruct (link_at fs (cur ++ [c]))|].
  assert (dir_at fs (cur ++ [c]) = true) as Hdc by (apply Hd; [by exists rest|done|congruence]). assert (link_at fs (cur ++ [c]) = None) as -> by (unfold dir_at in Hdc; unfold link_at; by repeat case_match).
  destruct rest as [|d rest]; [done|]. rewrite Hdc. rewrite IH; [by rewrite <- app_assoc|done|]. intros x Hx Hx0 Hx1. rewrite <- app_assoc. apply Hd; [by apply prefix_cons|done|cbn; congruence].
Qed.
Lemma walk_dirs fs follow links : ∀ rest cur, Forall okname rest → (∀ x, x `prefix_of` rest → x ≠ [] → dir_at fs (cur ++ x) = true) → walk fs follow links cur rest = Ok (cur ++ rest).
Proof.
  induction rest as [|c rest IH]; intros cur Hn Hd; [by rewrite walk_nil, app_nil_r|]. inversion Hn as [|? ? Hc Hn']; subst. rewrite walk_unfold by done.
  assert (dir_at fs (cur ++ [c]) = true) as Hdc by (apply Hd; [by exists rest|done]). assert (link_at fs (cur ++ [c]) = None) as -> by (unfold dir_at in Hdc; unfold link_at; by repeat case_match).
  destruct rest as [|d rest]; [done|]. rewrite Hdc. rewrite IH; [by rewrite <- app_assoc|done|]. intros x Hx Hx0. rewrite <- app_assoc. apply Hd; [by apply prefix_cons|done].
Qed.
Lemma namei_exact fs p r : Forall okname p → linkfree_above fs p → namei fs false p = Ok r → r = p.
Proof. intros Hn Hl Hw. apply (walk_exact fs false _ p [] r Hn) in Hw as [Hw _]; [done| |done]. intros x Hx _ Hxp. by apply Hl. Qed.
Lemma namei_follow fs p r : Forall okname p → linkfree fs p → namei fs true p = Ok r → r = p.
Proof. intros Hn Hl Hw. apply (walk_exact fs true _ p [] r Hn) in Hw as [Hw _]; [done| |]. { intros x Hx _ _. by apply Hl. } intros _. right. by apply Hl. Qed.
Lemma linkfree_weaken fs p : linkfree fs p → linkfree_above fs p.
Proof. intros H q Hq _. by apply H. Qed.
Lemma linkfree_prefix fs p q : linkfree fs p → q `prefix_of` p → linkfree fs q.
Proof. intros H Hq r Hr. apply H. by trans q. Qed.
Lemma linkfree_snoc fs p c : linkfree fs p → linkfree_above fs (p ++ [c]).
Proof. intros H q Hq Hne. apply H. destruct Hq as [x Hx]. destruct x as [|y x _] using rev_ind; [rewrite app_nil_r in Hx; congruence|]. rewrite app_assoc in Hx. apply app_inj_tail in Hx as [-> _]. by exists x. Qed.

Ltac bind_inv H x Hx := match type of H with (?m ≫= _) = Ok _ => destruct m as [x|?| |] eqn:Hx; cbn [mbind res_bind] in H; [|done|done|done] end.

Section inside.
Context (root : hpath).
Record fs_inv (fs : FSys) : Prop := mkFInv {
  fi_root : ∀ q, q `prefix_of` root → dir_at fs q = true;
  fi_names : ∀ q n, fs_nodes fs !! q = Some n → Forall okname q;
  fi_parent : ∀ q c n, fs_nodes fs !! (q ++ [c]) = Some n → dir_at fs q = true;
  fi_fresh : ∀ q i, fs_nodes fs !! q = Some (NIno i) → (i < fs_fresh fs)%nat;
  fi_apart : ∀ p q i j, root `prefix_of` p → ¬ root `prefix_of` q → fs_nodes fs !! p = Some (NIno i) → fs_nodes fs !! q = Some (NIno j) → i ≠ j
}.
Definition same_outside (fs fs' : FSys) : Prop := ∀ q, ¬ root `prefix_of` q → view fs' q = view fs q.
Definition parent_dir (fs : FSys) (p : hpath) : Prop := ∀ q c, p = q ++ [c] → dir_at fs q = true.
Definition inside (p : hpath) : Prop := ∃ c x, p = root ++ x ++ [c] ∧ okname c ∧ Forall okname x.
(** A change inside the root that makes no links, except perhaps at [at_link]. *)
Record change (at_link : option hpath) (fs fs' : FSys) : Prop := mkChange {
  ch_inv : fs_inv fs';
  ch_out : same_outside fs fs';
  ch_link : ∀ q t, at_link ≠ Some q → link_at fs' q = Some t → link_at fs q = Some t
}.
Lemma change_refl fs : fs_inv fs → change None fs fs.
Proof. intros H. by split. Qed.
Lemma change_trans l fs1 fs2 fs3 : change l fs1 fs2 → change l fs2 fs3 → change l fs1 fs3.
Proof. intros [H1 H2 H3] [H4 H5 H6]. split; [done|intros q Hq; rewrite H5, H2 by done; done|]. intros q t Hq Hl. apply H3; [done|]. by apply H6. Qed.
Lemma change_nolink l fs fs' q : change l fs fs' → l ≠ Some q → link_at fs q = None → link_at fs' q = None.
Proof. intros [_ _ H] Hl Hn. destruct (link_at fs' q) as [t|] eqn:E; [|done]. by rewrite (H q t Hl E) in Hn. Qed.
Lemma change_weaken l fs fs' : change None fs fs' → change l fs fs'.
Proof. intros [H1 H2 H3]. split; try done. intros q t _ Hl. by apply H3. Qed.
Lemma change_linkfree l fs fs' p : change l fs fs' → (∀ q, l = Some q → ¬ q `prefix_of` p) → linkfree fs p → linkfree fs' p.
Proof. intros Hc Hl Hp q Hq. eapply change_nolink; [exact Hc| |by apply Hp]. intros ->. by apply (Hl q). Qed.
Lemma change_linkfree_above fs fs' p : change None fs fs' → linkfree_above fs p → linkfree_above fs' p.
Proof. intros Hc Hp q Hq Hne. eapply change_nolink; [exact Hc|done|]. by apply Hp. Qed.

Lemma inside_prefix p : inside p → root `prefix_of` p ∧ ¬ p `prefix_of` root.
Proof.
  intros (c & x & -> & _). split; [by exists (x ++ [c])|]. intros Hp%prefix_length. rewrite !length_app in Hp. cbn in Hp. lia.
Qed.
Lemma inv_root_names fs : fs_inv fs → Forall okname root.
Proof. intros H. assert (dir_at fs root = true) as Hd by (by apply H). unfold dir_at in Hd. destruct (fs_nodes fs !! root) eqn:E; [|done]. by apply (fi_names _ H root n). Qed.
Lemma inside_names fs p : fs_inv fs → inside p → Forall okname p.
Proof. intros H (c & x & -> & Hc & Hx). apply Forall_app. split; [by apply (inv_root_names fs)|]. apply Forall_app. split; [done|]. by constructor. Qed.
Lemma root_linkfree fs : fs_inv fs → linkfree fs root.
Proof. intros H q Hq. pose proof (fi_root _ H q Hq) as Hd. unfold dir_at in Hd. unfold link_at. by repeat case_match. Qed.

(** Putting a node, other than a new link, at a place inside. *)
Lemma change_put l fs p n objs fresh : fs_inv fs → inside p → parent_dir fs p → (fs_fresh fs ≤ fresh)%nat → fs_nodes fs !! p = None ∨ (∃ m, n = NDir m) →
  (∀ i, n = NIno i → (i < fresh)%nat ∧ ∀ q j, ¬ root `prefix_of` q → fs_nodes fs !! q = Some (NIno j) → i ≠ j) →
  (∀ q j, q ≠ p → fs_nodes fs !! q = Some (NIno j) → objs !! j = fs_objs fs !! j) →
  (l ≠ Some p → link_at (mkFSys (<[p := n]> (fs_nodes fs)) objs fresh) p = None) →
  change l fs (mkFSys (<[p := n]> (fs_nodes fs)) objs fresh).
Proof.
  intros Hi Hp Hpar Hfr Hnew Hn Ho Hl. destruct (inside_prefix p Hp) as [Hp1 Hp2]. split.
  - split; cbn [fs_nodes fs_objs fs_fresh].
    + intros q Hq. unfold dir_at. cbn. rewrite lookup_insert_ne by (intros ->; done). by apply Hi.
    + intros q m Hq. destruct (decide (q = p)) as [->|Hne]; [by apply (inside_names fs)|]. rewrite lookup_insert_ne in Hq by done. by apply (fi_names _ Hi q m).
    + intros q c m Hq. assert (dir_at fs q = true) as Hdq. { destruct (decide (q ++ [c] = p)) as [Hqp|Hne]; [by apply (Hpar q c)|]. rewrite lookup_insert_ne in Hq by done. by apply (fi_parent _ Hi q c m). }
      destruct (decide (q = p)) as [->|Hne]; [|unfold dir_at; cbn; by rewrite lookup_insert_ne]. unfold dir_at in *. cbn. rewrite lookup_insert_eq. destruct Hnew as [Hnew|[m' ->]]; [by rewrite Hnew in Hdq|done].
    + intros q i Hq. destruct (decide (q = p)) as [->|Hne]; [rewrite lookup_insert_eq in Hq; injection Hq as Hq; by apply Hn|]. rewrite lookup_insert_ne in Hq by done. eapply Nat.lt_le_trans; [by apply (fi_fresh _ Hi q i)|done].
    + intros a b i j Ha Hb Hna Hnb. assert (b ≠ p) by (intros ->; done). rewrite lookup_insert_ne in Hnb by done. destruct (decide (a = p)) as [->|Hne]; [rewrite lookup_insert_eq in Hna; injection Hna as Hna; by eapply (Hn i Hna)|]. rewrite lookup_insert_ne in Hna by done. by eapply (fi_apart _ Hi a b).
  - intros q Hq. assert (q ≠ p) as Hne by (intros ->; done). unfold view. cbn. rewrite lookup_insert_ne by done. destruct (fs_nodes fs !! q) as [[m|j]|] eqn:E; cbn; [done| |done]. by rewrite (Ho q j).
  - intros q t Hq Hlq. destruct (decide (q = p)) as [->|Hne]; [by rewrite (Hl Hq) in Hlq|]. unfold link_at in *. cbn in Hlq. rewrite lookup_insert_ne in Hlq by done. destruct (fs_nodes fs !! q) as [[m|j]|] eqn:E; [done| |done]. by rewrite (Ho q j) in Hlq.
Qed.
Lemma change_dir fs p m : fs_inv fs → inside p → parent_dir fs p → change None fs (set_node fs p (NDir m)).
Proof. intros Hi Hp Hpar. apply change_put; try done; [right; by eexists|]. intros _. unfold link_at. cbn. by rewrite lookup_insert_eq. Qed.
Lemma change_new l fs p o : fs_inv fs → inside p → parent_dir fs p → fs_nodes fs !! p = None → (l ≠ Some p → match o with OFile _ _ => True | OLink _ _ => False end) → change l fs (new_obj fs p o).
Proof.
  intros Hi Hp Hpar Hnone Hl. apply change_put; try done; [lia|by left|..].
  - intros i [= <-]. split; [lia|]. intros q j _ Hq. pose proof (fi_fresh _ Hi q j Hq). lia.
  - intros q j _ Hq. pose proof (fi_fresh _ Hi q j Hq). by rewrite lookup_insert_ne by lia.
  - intros Hne. unfold link_at. cbn. rewrite !lookup_insert_eq. specialize (Hl Hne). by destruct o.
Qed.
Lemma change_hardlink fs p q i : fs_inv fs → inside p → parent_dir fs p → fs_nodes fs !! p = None → root `prefix_of` q → fs_nodes fs !! q = Some (NIno i) → link_at fs q = None → change None fs (set_node fs p (NIno i)).
Proof.
  intros Hi Hp Hpar Hnone Hq Hn Hl. apply change_put; try done; [by left|..].
  - intros j [= <-]. split; [by eapply Hi|]. intros r j Hr Hj. by eapply (fi_apart _ Hi q r).
  - intros _. unfold link_at in *. cbn. rewrite lookup_insert_eq. by rewrite Hn in Hl.
Qed.
(** Changing what an inode inside holds. *)
Lemma change_obj fs p i o o' : fs_inv fs → root `prefix_of` p → fs_nodes fs !! p = Some (NIno i) → fs_objs fs !! i = Some o →
  match o, o' with OFile _ _, OFile _ _ => True | OLink t _, OLink t' _ => t = t' | _, _ => False end → change None fs (set_obj fs i o').
Proof.
  intros Hi Hp Hn Ho Hk. split.
  - destruct Hi as [I1 I2 I3 I4 I5]. by split.
  - intros q Hq. unfold view. cbn. destruct (fs_nodes fs !! q) as [[m|j]|] eqn:E; cbn; [done| |done]. rewrite lookup_insert_ne; [done|]. by eapply (fi_apart _ Hi p q).
  - intros q t _ Hlq. unfold link_at in *. cbn in Hlq. destruct (fs_nodes fs !! q) as [[m|j]|] eqn:E; [done| |done]. destruct (decide (i = j)) as [<-|Hne]; [|by rewrite lookup_insert_ne in Hlq]. rewrite lookup_insert_eq in Hlq. rewrite Ho. destruct o, o'; try done. by subst.
Qed.
(** Removing nodes inside. *)
Lemma change_remove fs nodes : fs_inv fs → (∀ q n, nodes !! q = Some n → fs_nodes fs !! q = Some n) → (∀ q, ¬ root `prefix_of` q ∨ q `prefix_of` root → nodes !! q = fs_nodes fs !! q) → (∀ q c, is_Some (nodes !! (q ++ [c])) → nodes !! q = fs_nodes fs !! q) →
  change None fs (mkFSys nodes (fs_objs fs) (fs_fresh fs)).
Proof.
  intros [I1 I2 I0 I3 I4] Hsub Hkeep Hpar. split.
  - split; cbn [fs_nodes fs_objs fs_fresh].
    + intros q Hq. unfold dir_at. cbn. rewrite Hkeep by (by right). by apply I1.
    + intros q n Hq. by eapply I2, Hsub.
    + intros q c n Hq. unfold dir_at. cbn. rewrite (Hpar q c) by (by eexists). by eapply I0, Hsub.
    + intros q i Hq. by eapply I3, Hsub.
    + intros a b i j Ha Hb Hna Hnb. by eapply (I4 a b); [..|by apply Hsub|by apply Hsub].
  - intros q Hq. unfold view. cbn. by rewrite Hkeep by (by left).
  - intros q t _ Hlq. unfold link_at in *. cbn in Hlq. destruct (nodes !! q) as [n|] eqn:E; [|done]. by rewrite (Hsub q n E).
Qed.
Lemma change_delete fs p : fs_inv fs → inside p → (∀ c, fs_nodes fs !! (p ++ [c]) = None) → change None fs (mkFSys (delete p (fs_nodes fs)) (fs_objs fs) (fs_fresh fs)).
Proof.
  intros Hi Hp Hch. destruct (inside_prefix p Hp) as [Hp1 Hp2]. apply change_remove; [done|intros q n Hq; by apply lookup_delete_Some in Hq as [_ Hq]|intros q Hq; apply lookup_delete_ne; intros ->; by destruct Hq|].
  intros q c [n Hq]. apply lookup_delete_Some in Hq as [_ Hq]. apply lookup_delete_ne. intros ->. by rewrite Hch in Hq.
Qed.
Lemma change_filter fs p : fs_inv fs → inside p → change None fs (mkFSys (filter (fun '(r, _) => below p r = false) (fs_nodes fs)) (fs_objs fs) (fs_fresh fs)).
Proof.
  intros Hi Hp. destruct (inside_prefix p Hp) as [Hp1 Hp2]. apply change_remove; [done|intros q n Hq; by apply map_lookup_filter_Some in Hq as [Hq _]|..].
  2: { intros q c [n Hq]. apply map_lookup_filter_Some in Hq as [Hq Hb]. apply option_eq. intros m. rewrite map_lookup_filter_Some. split; [tauto|]. intros Hm. split; [done|]. unfold below in *. apply bool_decide_eq_false_1 in Hb. apply bool_decide_eq_false_2. intros Hpq. apply Hb. by apply prefix_app_r. }
  intros q Hq. apply option_eq. intros n. rewrite map_lookup_filter_Some. split; [tauto|]. intros Hn. split; [done|]. unfold below. apply bool_decide_eq_false_2. intros Hpq. destruct Hq as [Hq|Hq]; [apply Hq; by trans p|apply Hp2; by trans q].
Qed.

(** *** System calls on a path whose parents are not links *)
Definition safe (fs : FSys) (p : hpath) : Prop := fs_inv fs ∧ inside p ∧ linkfree_above fs p.
Lemma strict_dirs_parent fs p : fs_inv fs → inside p → (∀ x, x `prefix_of` p → x ≠ [] → x ≠ p → dir_at fs x = true) → parent_dir fs p.
Proof.
  intros Hi Hp Hd q c ->. destruct (decide (q = [])) as [->|Hne]; [apply Hi, prefix_nil|]. apply Hd; [by exists [c]|done|]. intros He. apply (f_equal length) in He. rewrite length_app in He. cbn in He. lia.
Qed.
Lemma safe_namei fs p r : safe fs p → namei fs false p = Ok r → r = p ∧ parent_dir fs p.
Proof.
  intros (Hi & Hp & Hl) Hw. apply (walk_exact fs false _ p [] r (inside_names fs p Hi Hp)) in Hw as [-> Hd]; [|intros x Hx _ Hxp; by apply Hl|done]. split; [done|]. by apply strict_dirs_parent.
Qed.
Lemma safe_follow fs p r : safe fs p → link_at fs p = None → namei fs true p = Ok r → r = p ∧ parent_dir fs p.
Proof.
  intros (Hi & Hp & Hl) Hn Hw. apply (walk_exact fs true _ p [] r (inside_names fs p Hi Hp)) in Hw as [-> Hd]; [|intros x Hx _ Hxp; by apply Hl|by right]. split; [done|]. by apply strict_dirs_parent.
Qed.
Lemma safe_change fs fs' p : change None fs fs' → safe fs p → safe fs' p.
Proof. intros Hc (Hi & Hp & Hl). split; [apply Hc|]. split; [done|]. by eapply change_linkfree_above. Qed.

Lemma mkdir_change fs p m fs' : safe fs p → sys_mkdir m p fs = Ok fs' → change None fs fs'.
Proof. intros Hs H. unfold sys_mkdir in H. bind_inv H q Hq. apply (safe_namei fs p) in Hq as [-> Hpar]; [|done]. destruct (fs_nodes fs !! p); [done|]. injection H as <-. apply change_dir; [apply Hs|apply Hs|done]. Qed.
Lemma Remove_change fs p fs' : safe fs p → Remove p fs = Ok fs' → change None fs fs'.
Proof.
  intros Hs H. unfold Remove in H. bind_inv H q Hq. apply (safe_namei fs p) in Hq as [-> Hpar]; [|done]. destruct (fs_nodes fs !! p) as [[m|i]|] eqn:En; [ |injection H as <-; apply change_delete; [apply Hs|apply Hs| ]|done].
  - destruct (has_children fs p) eqn:Hch; [done|]. injection H as <-. apply change_delete; [apply Hs|apply Hs|]. intros c. destruct (fs_nodes fs !! (p ++ [c])) as [n|] eqn:Ec; [|done]. unfold has_children in Hch. apply bool_decide_eq_false_1 in Hch. destruct Hch. exists (p ++ [c]), n. split; [done|]. unfold below. split; [apply bool_decide_eq_true_2; by exists [c]|]. intros He. apply (f_equal length) in He. rewrite length_app in He. cbn in He. lia.
  - intros c. destruct (fs_nodes fs !! (p ++ [c])) as [n|] eqn:Ec; [|done]. destruct Hs as (Hi & _). pose proof (fi_parent _ Hi p c n Ec) as Hd. unfold dir_at in Hd. by rewrite En in Hd.
Qed.
Lemma RemoveAll_change fs p fs' : safe fs p → RemoveAll p fs = Ok fs' → change None fs fs'.
Proof.
  intros Hs H. unfold RemoveAll in H. destruct (namei fs false p) as [q|e| |] eqn:Hq; [|destruct e; try done; injection H as <-; apply change_refl, Hs|done|done]. apply (safe_namei fs p) in Hq as [-> Hpar]; [|done]. injection H as <-. apply change_filter; apply Hs.
Qed.
Lemma symlink_change fs p m t fs' : safe fs p → sys_symlink m t p fs = Ok fs' → change (Some p) fs fs'.
Proof. intros Hs H. unfold sys_symlink in H. bind_inv H q Hq. apply (safe_namei fs p) in Hq as [-> Hpar]; [|done]. destruct (fs_nodes fs !! p) eqn:En; [done|]. injection H as <-. apply change_new; [apply Hs|apply Hs|done|done|done]. Qed.
Lemma write_change fs p m data fs' : safe fs p → link_at fs p = None → write_file m data p fs = Ok fs' → change None fs fs'.
Proof.
  intros Hs Hl H. unfold write_file in H. bind_inv H q Hq. apply (safe_follow fs p) in Hq as [-> Hpar]; [|done|done]. destruct (inside_prefix p) as [Hp _]; [apply Hs|]. destruct (fs_nodes fs !! p) as [[m'|i]|] eqn:En; [done| |injection H as <-; apply change_new; [apply Hs|apply Hs|done|done|done]].
  destruct (fs_objs fs !! i) as [[d m'|t m']|] eqn:Eo; [|done|done]. injection H as <-. eapply (change_obj fs p i); [apply Hs|done|done|done|done].
Qed.
Lemma setmeta_change follow fs p f fs' : safe fs p → (follow = true → link_at fs p = None) → sys_setmeta follow f p fs = Ok fs' → change None fs fs'.
Proof.
  intros Hs Hl H. unfold sys_setmeta in H. bind_inv H q Hq. assert (q = p ∧ parent_dir fs p) as [-> Hpar] by (destruct follow; [by apply (safe_follow fs p); auto|by apply (safe_namei fs p)]). destruct (inside_prefix p) as [Hp _]; [apply Hs|].
  destruct (fs_nodes fs !! p) as [[m'|i]|] eqn:En; [injection H as <-; apply change_dir; [apply Hs|apply Hs|done]| |done]. destruct (fs_objs fs !! i) as [o|] eqn:Eo; [|done]. injection H as <-. eapply (change_obj fs p i); [apply Hs|done|done|done|]. by destruct o.
Qed.
Lemma link_change fs old p fs' : safe fs p → root `prefix_of` old → Forall okname old → linkfree_above fs old → link_at fs old = None → sys_link old p fs = Ok fs' → change None fs fs'.
Proof.
  intros Hs Ho Hn Hla Hl H. unfold sys_link in H. bind_inv H o Hq. apply namei_exact in Hq as ->; [|done|done]. destruct (fs_nodes fs !! old) as [[m|i]|] eqn:En; [done| |done]. bind_inv H q Hq. apply (safe_namei fs p) in Hq as [-> Hpar]; [|done].
  destruct (fs_nodes fs !! p) eqn:Enp; [done|]. injection H as <-. eapply change_hardlink; [apply Hs|apply Hs|done|done|exact Ho|done|done].
Qed.
Lemma stat_root fs : fs_inv fs → ∃ m, sys_stat fs root = Ok (NDir m).
Proof.
  intros Hi. unfold sys_stat, namei. rewrite walk_dirs; [|by apply (inv_root_names fs)|intros x Hx _; by apply Hi]. cbn [mbind res_bind app]. pose proof (fi_root _ Hi root ltac:(done)) as Hd. unfold dir_at in Hd. destruct (fs_nodes fs !! root) as [[m|]|]; [by eexists|done|done].
Qed.
Lemma MkdirAll_change m x : ∀ fs fs', fs_inv fs → Forall okname x → linkfree fs (root ++ x) → MkdirAll m (root ++ x) fs = Ok fs' → change None fs fs'.
Proof.
  induction x as [|c x IH] using rev_ind; intros fs fs' Hi Hn Hl H; unfold MkdirAll in H.
  - rewrite app_nil_r in H. destruct (stat_root fs Hi) as [m' Hst]. destruct (rev root) as [|r rr] eqn:Er; cbn [mkdir_all] in H; rewrite <- Er, rev_involutive, Hst in H; injection H as <-; by apply change_refl.
  - rewrite app_assoc, rev_app_distr in H. cbn [rev app] in H. cbn [mkdir_all] in H. cbn [rev] in H. rewrite rev_involutive in H. apply Forall_app in Hn as [Hnx Hnc]. inversion Hnc as [|? ? Hc _]; subst.
    destruct (sys_stat fs ((root ++ x) ++ [c])) as [[m'|i]|e| |]; try done; [injection H as <-; by apply change_refl|].
    destruct (mkdir_all m (rev (root ++ x)) fs) as [fs1|e1| |] eqn:E1; try done. cbn [mbind res_bind] in H.
    assert (change None fs fs1) as Hc1. { apply IH; [done|done|eapply linkfree_prefix; [exact Hl|]; by exists [c]; rewrite app_assoc|exact E1]. }
    assert (safe fs1 ((root ++ x) ++ [c])) as Hs1. { split; [apply Hc1|]. split; [exists c, x; by rewrite app_assoc|]. apply linkfree_weaken. rewrite <- app_assoc. by eapply change_linkfree. }
    destruct (sys_mkdir m ((root ++ x) ++ [c]) fs1) as [fs2|e2| |] eqn:E2; [|by case_match; try done; case_match; try done; simplify_eq|done|done].
    injection H as <-. eapply change_trans; [exact Hc1|]. by eapply mkdir_change.
Qed.
Lemma lstat_link fs p n : safe fs p → sys_lstat fs p = Ok n → fs_nodes fs !! p = Some n.
Proof. intros Hs H. unfold sys_lstat in H. bind_inv H q Hq. apply (safe_namei fs p) in Hq as [-> Hpar]; [|done]. destruct (fs_nodes fs !! p); [by injection H as ->|done]. Qed.
Lemma node_parents fs p n : fs_inv fs → fs_nodes fs !! p = Some n → ∀ x, x `prefix_of` p → x ≠ p → dir_at fs x = true.
Proof.
  intros Hi. revert n. induction p as [|c p IH] using rev_ind; intros n Hp x Hx Hne; [by apply prefix_nil_inv in Hx|]. pose proof (fi_parent _ Hi p c n Hp) as Hd. destruct Hx as [y Hy]. destruct y as [|z y _] using rev_ind; [rewrite app_nil_r in Hy; congruence|].
  rewrite app_assoc in Hy. apply app_inj_tail in Hy as [-> _]. destruct (decide (x = x ++ y)) as [He|He]; [by rewrite He|]. unfold dir_at in Hd. destruct (fs_nodes fs !! (x ++ y)) as [n'|] eqn:En; [|done]. apply (IH n' eq_refl); [by exists y|done].
Qed.
Lemma lstat_none fs p : safe fs p → sys_lstat fs p = Err ENOENT → fs_nodes fs !! p = None ∧ link_at fs p = None.
Proof.
  intros Hs H. assert (fs_nodes fs !! p = None) as Hn; [|by unfold link_at; rewrite Hn]. destruct (fs_nodes fs !! p) as [n|] eqn:En; [|done]. exfalso. destruct Hs as (Hi & Hp & Hl).
  unfold sys_lstat, namei in H. rewrite walk_last in H; [|by apply (inside_names fs)|intros x Hx _ Hne; by eapply node_parents]. cbn in H. by rewrite En in H.
Qed.

(** *** The code's own resolution *)
Definition lexical (dir : list string) (t : string) : list string := clean_abs (if is_abs t then split_slash t else dir ++ split_slash t).
Definition no_links (fs : FSys) (p : hpath) : bool := forallb (fun k => bool_decide (link_at fs (take k p) = None)) (seq 0 (S (length p))).
(** The links met on the way through a directory path lead to places that are reached without links. *)
Fixpoint direct (fs : FSys) (parts : list string) (st : hpath * list string) : bool :=
  match parts with
  | [] => true
  | c :: parts =>
      match link_at fs (st.1 ++ [c]) with Some t => no_links fs (root ++ lexical st.2 t) | None => true end
      && match resolve_part fs root c st with Ok st => direct fs parts st | _ => true end
  end.
Lemma no_links_spec fs p : no_links fs p = true → linkfree fs p.
Proof.
  intros H q [y ->]. unfold no_links in H. rewrite forallb_forall in H. specialize (H (length q)). rewrite take_app_length in H. eapply bool_decide_eq_true_1, H, in_seq. rewrite length_app. lia.
Qed.

Lemma clean_abs_names cs : Forall okname (clean_abs cs).
Proof.
  unfold clean_abs. assert (∀ acc, Forall okname acc → Forall okname (fold_left clean_step cs acc)) as H; [|by apply H].
  induction cs as [|c cs IH]; intros acc Ha; [done|]. cbn [fold_left]. apply IH. unfold clean_step. destruct (bool_decide_reflect (c = "")); [done|]. destruct (bool_decide_reflect (c = ".")); [done|]. cbn [orb].
  destruct (bool_decide_reflect (c = "..")); [by apply Forall_take|]. apply Forall_app. split; [done|]. by repeat constructor.
Qed.
Lemma clean_names cs : Forall okname cs → clean_abs cs = cs ∧ clean_rel cs = cs.
Proof.
  assert (∀ acc, Forall okname cs → fold_left clean_step cs acc = acc ++ cs ∧ fold_left clean_rel_step cs acc = acc ++ cs) as H; [|apply H].
  induction cs as [|c cs IH]; intros acc Hn; [by rewrite app_nil_r|]. inversion Hn as [|? ? (H1 & H2 & H3) Hn']; subst. cbn [fold_left]. unfold clean_step, clean_rel_step. rewrite !bool_decide_eq_false_2 by done. cbn [orb].
  destruct (IH (acc ++ [c]) Hn') as [E1 E2]. unfold clean_step, clean_rel_step in E1, E2. by rewrite E1, E2, <- app_assoc.
Qed.

Lemma resolve_part_names fs part x st' : Forall okname x → okname part → resolve_part fs root part (root ++ x, x) = Ok st' → st'.1 = root ++ st'.2 ∧ Forall okname st'.2.
Proof.
  intros Hx Hp. unfold resolve_part. destruct Hp as (P1 & P2 & P3). rewrite !bool_decide_eq_false_2 by done. cbn [orb].
  assert (∀ b : bool, (if b then Ok ((root ++ x) ++ [part], x ++ [part]) else Err Escapes) = Ok st' → st'.1 = root ++ st'.2 ∧ Forall okname st'.2) as Hlit.
  { intros []; [|done]. intros [= <-]. cbn. split; [by rewrite app_assoc|apply Forall_app; by repeat constructor]. }
  destruct (sys_lstat fs ((root ++ x) ++ [part])) as [[m|i]|e| |]; [apply Hlit| |destruct e; try done; apply Hlit|done|done].
  destruct (fs_objs fs !! i) as [[d m|t m]|]; [apply Hlit| |apply Hlit]. intros H. bind_inv H t' Ht. destruct (ensurePathWithinRoot _ _); [|done]. injection H as <-. cbn. split; [done|apply clean_abs_names].
Qed.
Lemma resolve_part_ok fs part x st' : fs_inv fs → Forall okname x → linkfree fs (root ++ x) → okname part → (∀ t, link_at fs ((root ++ x) ++ [part]) = Some t → linkfree fs (root ++ lexical x t)) →
  resolve_part fs root part (root ++ x, x) = Ok st' → linkfree fs st'.1.
Proof.
  intros Hi Hx Hl Hp Hd. pose proof Hp as (P1 & P2 & P3). unfold resolve_part. rewrite !bool_decide_eq_false_2 by done. cbn [orb].
  assert (safe fs ((root ++ x) ++ [part])) as Hs by (split; [done|]; split; [exists part, x; by rewrite app_assoc|by apply linkfree_snoc]).
  assert (∀ b : bool, link_at fs ((root ++ x) ++ [part]) = None → (if b then Ok ((root ++ x) ++ [part], x ++ [part]) else Err Escapes) = Ok st' → linkfree fs st'.1) as Hlit.
  { intros [] Hn; [|done]. intros [= <-]. cbn. intros q Hq. destruct (decide (q = (root ++ x) ++ [part])) as [->|Hne]; [done|]. by apply Hs. }
  destruct (sys_lstat fs ((root ++ x) ++ [part])) as [n|e| |] eqn:E; [|destruct e; try done|done|done].
  - pose proof (lstat_link _ _ _ Hs E) as Hn. destruct n as [m|i]; [apply Hlit; unfold link_at; by rewrite Hn|]. destruct (fs_objs fs !! i) as [[d m|t m]|] eqn:Eo; [apply Hlit; unfold link_at; by rewrite Hn, Eo| |apply Hlit; unfold link_at; by rewrite Hn, Eo].
    assert (link_at fs ((root ++ x) ++ [part]) = Some t) as Ht by (unfold link_at; by rewrite Hn, Eo). unfold sys_readlink. destruct (namei fs false ((root ++ x) ++ [part])) as [q|e| |] eqn:Eq; try done. apply (safe_namei fs _) in Eq as [-> _]; [|done].
    cbn [mbind res_bind]. rewrite Ht. cbn [mbind res_bind]. destruct (ensurePathWithinRoot _ _); [|done]. intros [= <-]. cbn. by apply Hd.
  - apply Hlit. by apply lstat_none.
Qed.
Lemma resolve_parts_ok fs parts : fs_inv fs → Forall okname parts → ∀ x st', Forall okname x → for_each (resolve_part fs root) parts (root ++ x, x) = Ok st' →
  st'.1 = root ++ st'.2 ∧ Forall okname st'.2 ∧ (linkfree fs (root ++ x) → direct fs parts (root ++ x, x) = true → linkfree fs st'.1).
Proof.
  intros Hi. induction parts as [|c parts IH]; intros Hn x st' Hx; cbn [for_each direct fst snd]; [by intros [= <-]|]. inversion Hn as [|? ? Hc Hn']; subst.
  intros H. bind_inv H st1 E. destruct (resolve_part_names fs c x st1 Hx Hc E) as (E1 & E2). destruct st1 as [h y]. cbn in E1, E2. subst h. destruct (IH Hn' y st' E2 H) as (F1 & F2 & F3). splits; [done|done|]. intros Hl [Hd1 Hd2]%andb_true_iff.
  apply F3; [|done]. eapply resolve_part_ok in E; [exact E|done..|]. intros t Ht. rewrite Ht in Hd1. by apply no_links_spec.
Qed.
Lemma resolveLayerParentDir_ok fs dir host : fs_inv fs → resolveLayerParentDir fs root dir = Ok host → ∃ y, host = root ++ y ∧ Forall okname y ∧ (direct fs (clean_abs dir) (root, []) = true → linkfree fs host).
Proof.
  intros Hi H. unfold resolveLayerParentDir in H. bind_inv H st E. destruct st as [h y]. injection H as <-. replace root with (root ++ []) in E at 2 by apply app_nil_r.
  apply resolve_parts_ok in E as (E1 & E2 & E3); [|done|apply clean_abs_names|constructor]. exists y. splits; [done|done|]. rewrite app_nil_r in E3. apply E3. by apply root_linkfree.
Qed.
Lemma clean_rel_names cs : Forall (fun c => c ≠ "" ∧ c ≠ ".") (clean_rel cs).
Proof.
  unfold clean_rel. assert (∀ acc, Forall (fun c => c ≠ "" ∧ c ≠ ".") acc → Forall (fun c => c ≠ "" ∧ c ≠ ".") (fold_left clean_rel_step cs acc)) as H; [|by apply H].
  induction cs as [|c cs IH]; intros acc Ha; [done|]. cbn [fold_left]. apply IH. unfold clean_rel_step. destruct (bool_decide_reflect (c = "")); [done|]. destruct (bool_decide_reflect (c = ".")); [done|]. cbn [orb].
  destruct (bool_decide_reflect (c = "..")); [|apply Forall_app; by repeat constructor]. destruct (last acc); [|by repeat constructor]. case_bool_decide; [apply Forall_app; by repeat constructor|by apply Forall_take].
Qed.
Lemma last_names (P : string → Prop) cs b : Forall P cs → last cs = Some b → P b.
Proof. intros H Hl. apply last_Some in Hl as [l ->]. apply Forall_app in H as [_ H]. by inversion H. Qed.
(** What the resolution gives is written as a path in the root. *)
Lemma resolveLayerEntryPath_names fs rel target : fs_inv fs → resolveLayerEntryPath fs root rel = Ok target → ∃ y, target = root ++ y ∧ Forall okname y.
Proof.
  intros Hi. destruct rel as [rooted cs]. unfold resolveLayerEntryPath. remember (if rooted then clean_abs cs else clean_rel cs) as cl eqn:Hcl. destruct (last cl) as [b|] eqn:Hb; [|intros [= <-]; exists []; rewrite app_nil_r; by repeat constructor].
  assert (b ≠ "" ∧ b ≠ ".") as [B1 B2]. { apply (last_names (fun c => c ≠ "" ∧ c ≠ ".") cl); [|done]. subst cl. destruct rooted; [|apply clean_rel_names]. eapply Forall_impl; [apply clean_abs_names|]. by intros c (? & ? & ?). }
  intros H. bind_inv H host E. apply resolveLayerParentDir_ok in E as (y & -> & Hy & _); [|done]. unfold ensurePathWithinRoot in H. case_bool_decide as Hp; [|done]. injection H as <-. case_bool_decide as Hdd.
  - destruct Hp as [z Hz]. exists z. split; [done|]. assert (Forall okname (root ++ y)) as Hry by (apply Forall_app; split; [by apply (inv_root_names fs)|done]). apply (Forall_take _ (length (root ++ y) - 1)) in Hry. rewrite Hz in Hry. by apply Forall_app in Hry as [_ ?].
  - exists (y ++ [b]). rewrite app_assoc. split; [done|]. apply Forall_app; split; [done|]; by repeat constructor.
Qed.
Lemma resolveLayerLinkPath_names fs rel name target : fs_inv fs → resolveLayerLinkPath fs root rel name = Ok target → ∃ y, target = root ++ y ∧ Forall okname y.
Proof.
  intros Hi. unfold resolveLayerLinkPath. destruct (is_abs name); [by apply resolveLayerEntryPath_names|]. intros H. bind_inv H t1 E. apply resolveLayerEntryPath_names in E; [|done].
  destruct (sys_lstat fs t1) as [n|e| |]; [by injection H as <-|destruct e; try done; by apply resolveLayerEntryPath_names in H|done|done].
Qed.
(** For the cleaned name of an entry it is a place inside, in a directory with no links above. *)
Lemma entry_target fs name base target : let rel := cleanLayerEntryName name in fs_inv fs → direct fs (take (length rel - 1) rel) (root, []) = true → last rel = Some base → resolveLayerEntryPath fs root (false, rel) = Ok target →
  ∃ y, target = (root ++ y) ++ [base] ∧ Forall okname y ∧ okname base ∧ linkfree fs (root ++ y).
Proof.
  intros rel Hi Hd Hb. assert (Forall okname rel) as Hn by (unfold rel, cleanLayerEntryName; case_bool_decide; [constructor|apply clean_abs_names]). clearbody rel. pose proof (last_names okname _ _ Hn Hb) as Hbn. unfold resolveLayerEntryPath. destruct (clean_names _ Hn) as [_ ->]. rewrite Hb.
  intros H. bind_inv H host E. apply resolveLayerParentDir_ok in E as (y & -> & Hy & Hl); [|done]. rewrite bool_decide_eq_false_2 in H by apply Hbn. destruct (ensurePathWithinRoot _ _); [|done]. injection H as <-. exists y. splits; [done..|]. apply Hl.
  by destruct (clean_names (take (length rel - 1) rel) (Forall_take _ _ _ Hn)) as [-> _].
Qed.
Lemma link_at_nodes fs p : fs_nodes fs !! p = None → link_at fs p = None.
Proof. intros H. unfold link_at. by rewrite H. Qed.
Lemma RemoveAll_gone fs p fs' : safe fs p → sys_lstat fs p ≠ Err ENOENT → RemoveAll p fs = Ok fs' → fs_nodes fs' !! p = None.
Proof.
  intros Hs Hst H. unfold RemoveAll in H. destruct (namei fs false p) as [q|e| |] eqn:Hq; [|destruct e; try done; destruct Hst; unfold sys_lstat; by rewrite Hq|done|done].
  apply (safe_namei fs p) in Hq as [-> _]; [|done]. injection H as <-. cbn. apply map_lookup_filter_None. right. intros n _. unfold below. by rewrite bool_decide_eq_true_2.
Qed.
Lemma prepareTarEntryTarget_ok fs p ty fs' : safe fs p → prepareTarEntryTarget p ty fs = Ok fs' → change None fs fs' ∧ link_at fs' p = None.
Proof.
  intros Hs H. unfold prepareTarEntryTarget in H. destruct (sys_lstat fs p) as [n|e| |] eqn:E; [|destruct e; try done; injection H as <-|done|done].
  - pose proof (lstat_link _ _ _ Hs E) as Hn. assert (RemoveAll p fs = Ok fs' → change None fs fs' ∧ link_at fs' p = None) as Hrm by (intros Hr; split; [by eapply RemoveAll_change|apply link_at_nodes; eapply (RemoveAll_gone fs); [done|by rewrite E|done]]).
    destruct ty, n as [m|i]; cbn in H; try (by apply Hrm); [|destruct (fs_objs fs !! i) as [[]|] eqn:Eo; try (by apply Hrm)].
    all: injection H as <-; split; [apply change_refl, Hs|unfold link_at; rewrite Hn; try rewrite Eo; done].
  - split; [apply change_refl, Hs|by apply lstat_none].
Qed.
Lemma remove_old_ok fs p fs' : safe fs p → remove_old p fs = Ok fs' → change None fs fs' ∧ fs_nodes fs' !! p = None.
Proof.
  intros Hs H. unfold remove_old in H. destruct (Remove p fs) as [fs1|e| |] eqn:E; [|destruct e; try done|done|done]; injection H as <-.
  - split; [by eapply Remove_change|]. unfold Remove in E. bind_inv E q Hq. apply (safe_namei fs p) in Hq as [-> _]; [|done]. repeat case_match; simplify_eq; cbn; apply lookup_delete_eq.
  - split; [apply change_refl, Hs|]. apply lstat_none; [done|]. unfold Remove in E. unfold sys_lstat. destruct (namei fs false p) as [q|?| |]; cbn [mbind res_bind] in *; [|by simplify_eq|done|done]. by repeat case_match.
Qed.
Lemma metadata_ok priv fs p hdr fs' : safe fs p → (h_Typeflag hdr ≠ TypeSymlink → link_at fs p = None) → applyTarEntryMetadata priv p hdr fs = Ok fs' → change None fs fs'.
Proof.
  intros Hs Hl H. unfold applyTarEntryMetadata in H. bind_inv H fs1 E1. assert (change None fs fs1) as C1. { destruct priv; [|injection E1 as <-; apply change_refl, Hs]. eapply (setmeta_change false fs p); [done|done|exact E1]. }
  case_bool_decide as Hty; [by injection H as <-|]. pose proof (safe_change _ _ _ C1 Hs) as Hs1. assert (link_at fs1 p = None) as Hl1 by (eapply change_nolink; [exact C1|done|by apply Hl]). bind_inv H fs2 E2. assert (change None fs1 fs2) as C2 by (eapply (setmeta_change true fs1 p); [done|done|exact E2]).
  eapply change_trans; [exact C1|]. eapply change_trans; [exact C2|]. case_match; [|injection H as <-; apply change_refl, C2]. eapply setmeta_change; [by eapply safe_change| |exact H]. intros _. by eapply change_nolink.
Qed.

(** *** One entry, and a layer *)
Lemma ReadDir_names fs p : fs_inv fs → Forall okname (ReadDir p fs).
Proof.
  intros Hi. unfold ReadDir. destruct (sys_stat fs p) as [[m|]| | |]; try constructor. destruct (namei fs true p) as [q| | |]; try constructor. apply Forall_forall. intros c Hc. apply list_elem_of_omap in Hc as (r & Hr & Hc). apply list_elem_of_fmap in Hr as ([r' n] & -> & Hr).
  apply elem_of_map_to_list in Hr. unfold child_name in Hc. cbn in Hc. destruct (bool_decide _ && _); [|done]. eapply last_names; [|exact Hc]. by eapply (fi_names _ Hi).
Qed.
Lemma for_each_ok {X St} (P : St → Prop) (f : X → St → res sys_err St) xs : ∀ s s', (∀ x s s', x ∈ xs → P s → f x s = Ok s' → P s') → P s → for_each f xs s = Ok s' → P s'.
Proof.
  induction xs as [|x xs IH]; intros s s' Hf Hs; cbn [for_each]; [by intros [= <-]|]. intros H. bind_inv H s1 E. eapply IH; [intros y ? ? Hy; apply Hf; by right| |exact H]. eapply Hf; [by left|exact Hs|exact E].
Qed.
Lemma whiteout_remove fs fs' y c : fs_inv fs → Forall okname y → okname c → linkfree fs (root ++ y) → ignore (RemoveAll (join1 (root ++ y) c) fs) fs = Ok fs' → change None fs fs'.
Proof.
  intros Hi Hy Hc Hl. pose proof Hc as (C1 & C2 & C3). unfold join1. rewrite !bool_decide_eq_false_2 by done. cbn [orb]. assert (safe fs ((root ++ y) ++ [c])) as Hs by (split; [done|]; split; [exists c, y; by rewrite app_assoc|by apply linkfree_snoc]).
  destruct (RemoveAll _ fs) as [fs1|e| |] eqn:E; cbn [ignore]; [intros [= <-]; by eapply RemoveAll_change|intros [= <-]; by apply change_refl|done|done].
Qed.
Lemma whiteout_ok fs y base rest fs' : fs_inv fs → Forall okname y → linkfree fs (root ++ y) → (base ≠ ".wh..wh..opq" → okname rest) → apply_whiteout base rest (root ++ y) fs = Ok fs' → change None fs fs'.
Proof.
  intros Hi Hy Hl Hr. unfold apply_whiteout. case_bool_decide as Hb; [|apply whiteout_remove; auto].
  intros H. eapply (for_each_ok (change None fs)) in H; [exact H| |by apply change_refl]. intros c fs1 fs2 Hc C1 E. pose proof (proj1 (Forall_forall _ _) (ReadDir_names fs (root ++ y) Hi) c Hc) as Hcn.
  eapply change_trans; [exact C1|]. eapply whiteout_remove; [apply C1|exact Hy|exact Hcn| |exact E]. by eapply change_linkfree.
Qed.
(** The file a hard link names, and the file system at that moment. *)
Definition link_source (hdr : Header) (fs : FSys) : res sys_err (FSys * hpath) :=
  let rel := cleanLayerEntryName (h_Name hdr) in
  target ← resolveLayerEntryPath fs root (false, rel);
  fs ← MkdirAll (dir_meta 0x1ED) (take (length target - 1) target) fs;
  fs ← remove_old target fs;
  linkTarget ← resolveLayerLinkPath fs root rel (h_Linkname hdr); Ok (fs, linkTarget).
(** The entries that the code handles inside the root: a whiteout removes one name, the links in
    the entry's directory are direct, and a hard link names a file that is reached without
    links and is no link. *)
Definition entry_fine (hdr : Header) (fs : FSys) : bool :=
  let rel := cleanLayerEntryName (h_Name hdr) in
  direct fs (take (length rel - 1) rel) (root, [])
  && match trim_prefix ".wh." (default "" (last rel)) with
     | Some rest => bool_decide (last rel = Some ".wh..wh..opq") || negb (bool_decide (rest ∈ [""; "."; ".."]))
     | None =>
         negb (bool_decide (h_Typeflag hdr = TypeLink))
         || match link_source hdr fs with Ok (fs, linkTarget) => no_links fs linkTarget | _ => true end
     end.
Lemma hardlink_ok priv fs rel target hdr dirs st : safe fs target → h_Typeflag hdr = TypeLink →
  (∀ fs1 dest, remove_old target fs = Ok fs1 → resolveLayerLinkPath fs1 root rel (h_Linkname hdr) = Ok dest → linkfree fs1 dest) →
  apply_typed priv root rel target hdr (fs, dirs) = Ok st → change None fs st.1 ∧ st.2 = dirs.
Proof.
  intros Hs Hty Hlt H. unfold apply_typed in H. rewrite Hty in H. bind_inv H fs1 E1. apply remove_old_ok in E1 as Hro; [|done]. destruct Hro as [C1 Hgone]. pose proof (safe_change _ _ _ C1 Hs) as Hs1.
  bind_inv H dest E2. specialize (Hlt fs1 dest eq_refl E2). apply resolveLayerLinkPath_names in E2 as (y & -> & Hy); [|apply C1]. bind_inv H fs2 E3.
  assert (change None fs1 fs2) as C2. { eapply link_change; [exact Hs1|by exists y|apply Forall_app; split; [eapply inv_root_names, C1|done]|by apply linkfree_weaken|by apply Hlt|exact E3]. }
  bind_inv H fs3 E4. injection H as <-. split; [|done]. cbn. eapply change_trans; [exact C1|]. eapply change_trans; [exact C2|]. eapply metadata_ok; [by eapply safe_change| |exact E4]. intros _. eapply change_nolink; [exact C2|done|]. by apply link_at_nodes.
Qed.
Lemma typed_ok priv fs rel y base hdr dirs st : let target := (root ++ y) ++ [base] in fs_inv fs → Forall okname y → okname base → linkfree fs (root ++ y) →
  (h_Typeflag hdr = TypeLink → ∀ fs1 dest, remove_old target fs = Ok fs1 → resolveLayerLinkPath fs1 root rel (h_Linkname hdr) = Ok dest → linkfree fs1 dest) →
  apply_typed priv root rel target hdr (fs, dirs) = Ok st → (∃ l, change l fs st.1) ∧ (st.2 = dirs ∨ st.2 = dirs ++ [(target, hdr)]).
Proof.
  intros target Hi Hy Hb Hl Hlt. assert (safe fs target) as Hs by (split; [done|]; split; [exists base, y; by unfold target; rewrite app_assoc|by apply linkfree_snoc]). destruct (h_Typeflag hdr) eqn:Hty; unfold apply_typed; rewrite Hty; intros H.
  - bind_inv H fs1 E1. apply prepareTarEntryTarget_ok in E1 as [C1 Hn1]; [|done]. bind_inv H fs2 E2. injection H as <-. split; [|by right]. exists None. eapply change_trans; [exact C1|]. unfold target in *. rewrite <- app_assoc in E2. eapply MkdirAll_change in E2; [exact E2|apply C1|apply Forall_app; split; [done|]; constructor; [done|constructor]|].
    rewrite app_assoc. intros q Hq. destruct (decide (q = (root ++ y) ++ [base])) as [->|Hne]; [done|]. by eapply (change_linkfree_above _ _ _ C1); [apply Hs|..].
  - bind_inv H fs1 E1. apply prepareTarEntryTarget_ok in E1 as [C1 Hn1]; [|done]. bind_inv H fs2 E2. pose proof (safe_change _ _ _ C1 Hs) as Hs1. assert (change None fs1 fs2) as C2 by (by eapply write_change). bind_inv H fs3 E3. injection H as <-. split; [|by left]. exists None.
    eapply change_trans; [exact C1|]. eapply change_trans; [exact C2|]. eapply metadata_ok; [by eapply safe_change| |exact E3]. intros _. by eapply change_nolink.
  - bind_inv H fs1 E1. apply remove_old_ok in E1 as [C1 Hgone]; [|done]. bind_inv H fs2 E2. pose proof (safe_change _ _ _ C1 Hs) as Hs1. assert (change (Some target) fs1 fs2) as C2 by (by eapply symlink_change). bind_inv H fs3 E3. injection H as <-. split; [|by left]. exists (Some target).
    eapply change_trans; [by apply change_weaken|]. eapply change_trans; [exact C2|]. apply change_weaken. eapply metadata_ok; [|by rewrite Hty|exact E3]. split; [apply C2|]. split; [apply Hs|]. intros q Hq Hne. eapply change_nolink; [exact C2|congruence|]. by apply Hs1.
  - destruct (hardlink_ok priv fs rel target hdr dirs st Hs Hty (Hlt eq_refl)) as [Hc ->]; [unfold apply_typed; by rewrite Hty|]. split; [by exists None|by left].
  - injection H as <-. split; [exists None; by apply change_refl|by left].
Qed.
Lemma take_parent (p : hpath) b : take (length (p ++ [b]) - 1) (p ++ [b]) = p.
Proof. rewrite length_app. cbn [length]. rewrite Nat.add_sub. by rewrite take_app_length. Qed.
Lemma okname_not rest : negb (bool_decide (rest ∈ [""; "."; ".."])) = true → okname rest.
Proof. intros H%negb_true_iff%bool_decide_eq_false_1. repeat split; intros ->; apply H; set_solver. Qed.
(** One entry: what it does stays inside, and the directory it records is a place inside. *)
Lemma entry_ok priv hdr st st' : fs_inv st.1 → Forall (fun d => inside d.1) st.2 → entry_fine hdr st.1 = true → apply_tar_entry priv root hdr st = Ok st' →
  fs_inv st'.1 ∧ same_outside st.1 st'.1 ∧ Forall (fun d => inside d.1) st'.2.
Proof.
  destruct st as [fs dirs]. cbn [fst snd]. intros Hi Hds Hf H. unfold apply_tar_entry in H. unfold entry_fine in Hf. apply andb_true_iff in Hf as [Hdir Hf].
  destruct (last (cleanLayerEntryName (h_Name hdr))) as [base|] eqn:Hb; [|by injection H as <-]. cbn [default from_option id] in Hf. bind_inv H target Et. pose proof Et as Et'. apply (entry_target fs (h_Name hdr) base) in Et' as (y & -> & Hy & Hbn & Hl); [|done..]. rewrite take_parent in H.
  destruct (trim_prefix ".wh." base) as [rest|] eqn:Hw.
  - bind_inv H fs1 E. injection H as <-. cbn. assert (change None fs fs1) as Hc; [|splits; [apply Hc|apply Hc|done]]. eapply whiteout_ok; [done|exact Hy|exact Hl| |exact E]. intros Hne. rewrite bool_decide_eq_false_2 in Hf by congruence. by apply okname_not.
  - bind_inv H fs1 E. assert (change None fs fs1) as C1 by (by eapply MkdirAll_change). assert (linkfree fs1 (root ++ y)) as Hl1 by (by eapply change_linkfree).
    pose proof (typed_ok priv fs1 (cleanLayerEntryName (h_Name hdr)) y base hdr dirs st' (ch_inv _ _ _ C1) Hy Hbn Hl1) as Ht. cbn zeta in Ht. apply Ht in H as [[l C2] Hst]; clear Ht.
    2: { intros Hty fs2 dest E2 E3. rewrite bool_decide_eq_true_2 in Hf by done. cbn [negb orb] in Hf. unfold link_source in Hf. rewrite Et in Hf. cbn [mbind res_bind] in Hf. rewrite take_parent, E in Hf. cbn [mbind res_bind] in Hf. rewrite E2 in Hf. cbn [mbind res_bind] in Hf. rewrite E3 in Hf. by apply no_links_spec. }
    splits; [apply C2|intros q Hq; rewrite (ch_out _ _ _ C2 q Hq); by apply C1|]. destruct Hst as [-> | ->]; [done|]. apply Forall_app. split; [done|]. constructor; [|constructor]. exists base, y. by rewrite app_assoc.
Qed.
(** The layers whose entries are all fine when their turn comes, and in which no directory that
    the layer lists is later replaced by a link. *)
Fixpoint orderly (priv : bool) (layer : list Header) (st : FSys * list (hpath * Header)) : bool :=
  match layer with
  | [] => forallb (fun d => no_links st.1 d.1) st.2
  | hdr :: layer => entry_fine hdr st.1 && match apply_tar_entry priv root hdr st with Ok st => orderly priv layer st | _ => true end
  end.
Lemma entries_ok priv layer k : ∀ st st', fs_inv st.1 → Forall (fun d => inside d.1) st.2 → orderly priv layer st = true → for_each (apply_tar_entry priv root) (take k layer) st = Ok st' →
  fs_inv st'.1 ∧ same_outside st.1 st'.1 ∧ Forall (fun d => inside d.1) st'.2 ∧ orderly priv (drop k layer) st' = true.
Proof.
  revert k. induction layer as [|hdr layer IH]; intros k st st' Hi Hd Ho; [rewrite take_nil, drop_nil; by intros [= <-]|]. destruct k as [|k]; [by intros [= <-]|]. cbn [take drop for_each]. cbn [orderly] in Ho. apply andb_true_iff in Ho as [Hf Ho].
  intros H. bind_inv H st1 E. destruct (entry_ok priv hdr st st1 Hi Hd Hf E) as (I1 & O1 & D1). rewrite ?E in Ho. destruct (IH k st1 st' I1 D1 Ho H) as (I2 & O2 & D2 & R2). splits; [done| |done|done]. intros q Hq. rewrite (O2 q Hq). by apply O1.
Qed.
Lemma final_ok priv dirs fs fs' : fs_inv fs → Forall (fun d => inside d.1) dirs → forallb (fun d => no_links fs d.1) dirs = true →
  for_each (fun '(path, hdr) fs => applyTarEntryMetadata priv path hdr fs) (rev dirs) fs = Ok fs' → change None fs fs'.
Proof.
  intros Hi Hd Hf H. eapply (for_each_ok (change None fs)) in H; [exact H| |by apply change_refl]. intros [p hdr] fs1 fs2 Hin C1 E. apply list_elem_of_In, in_rev, list_elem_of_In in Hin. rewrite Forall_forall in Hd. specialize (Hd _ Hin). cbn in Hd.
  rewrite forallb_forall in Hf. assert (linkfree fs p) as Hl by (apply no_links_spec; by apply (Hf (p, hdr)), list_elem_of_In). assert (linkfree fs1 p) as Hl1 by (by eapply change_linkfree). eapply change_trans; [exact C1|]. eapply metadata_ok; [|by intros _; apply Hl1|exact E]. split; [apply C1|]. split; [done|by apply linkfree_weaken].
Qed.

(** *** What an entry leaves behind *)
Definition file_at (fs : FSys) (p : hpath) (d : list Z) (m : meta) : Prop := ∃ i, fs_nodes fs !! p = Some (NIno i) ∧ fs_objs fs !! i = Some (OFile d m).
Lemma write_leaves fs p m data fs' : safe fs p → link_at fs p = None → write_file m data p fs = Ok fs' → ∃ m', file_at fs' p data m'.
Proof.
  intros Hs Hl H. unfold write_file in H. bind_inv H q Hq. apply (safe_follow fs p) in Hq as [-> _]; [|done|done]. destruct (fs_nodes fs !! p) as [[m'|i]|] eqn:En; [done| |injection H as <-; exists m, (fs_fresh fs); cbn; by rewrite !lookup_insert_eq].
  destruct (fs_objs fs !! i) as [[d m'|t m']|]; [|done|done]. injection H as <-. exists m', i. cbn. by rewrite lookup_insert_eq.
Qed.
Lemma setmeta_leaves follow fs p f d m fs' : safe fs p → file_at fs p d m → sys_setmeta follow f p fs = Ok fs' → safe fs' p ∧ file_at fs' p d (f m).
Proof.
  intros Hs (i & Hn & Ho) H. assert (link_at fs p = None) as Hl by (unfold link_at; by rewrite Hn, Ho). split; [eapply safe_change; [by eapply (setmeta_change follow fs p)|done]|].
  unfold sys_setmeta in H. bind_inv H q Hq. assert (q = p ∧ parent_dir fs p) as [-> _] by (destruct follow; [by apply (safe_follow fs p)|by apply (safe_namei fs p)]). rewrite Hn, Ho in H. injection H as <-. exists i. cbn. by rewrite lookup_insert_eq.
Qed.
(** The metadata of the header, owner where the host allows it, and the times when it has some. *)
Definition carries (priv : bool) (hdr : Header) (m : meta) : Prop :=
  m_mode m = h_Mode hdr .& 0xFFF ∧ (priv = true → m_owner m = h_owner hdr) ∧ (h_ModTime hdr ≠ 0 → (m_times m).2 = h_ModTime hdr).
Lemma metadata_leaves priv fs p hdr d m fs' : safe fs p → h_Typeflag hdr ≠ TypeSymlink → file_at fs p d m → applyTarEntryMetadata priv p hdr fs = Ok fs' → ∃ m', file_at fs' p d m' ∧ carries priv hdr m'.
Proof.
  intros Hs Hty Hf H. unfold applyTarEntryMetadata in H. bind_inv H fs1 E1. rewrite bool_decide_eq_false_2 in H by done.
  assert (∃ m1, safe fs1 p ∧ file_at fs1 p d m1 ∧ (priv = true → m_owner m1 = h_owner hdr)) as (m1 & Hs1 & Hf1 & Ho1). { destruct priv; [|injection E1 as <-; by exists m]. eapply setmeta_leaves in E1 as [Hs1 Hf1]; [|done..]. by eexists. }
  bind_inv H fs2 E2. eapply setmeta_leaves in E2 as [Hs2 Hf2]; [|done..]. destruct (h_ModTime hdr =? 0) eqn:Em; [|rewrite Em in H; cbn [negb] in H; rewrite orb_true_r in H; eapply setmeta_leaves in H as [_ Hf3]; [|done..]; by eexists].
  apply Z.eqb_eq in Em. case_match; [eapply setmeta_leaves in H as [_ Hf3]; [|done..]; by eexists|]. injection H as <-. by eexists.
Qed.
Lemma RemoveAll_all fs p fs' : safe fs p → ignore (RemoveAll p fs) fs = Ok fs' → fs_nodes fs' !! p = None.
Proof.
  intros Hs H. unfold RemoveAll in H. destruct (namei fs false p) as [q|e| |] eqn:Hq.
  - apply (safe_namei fs p) in Hq as [-> _]; [|done]. injection H as <-. cbn. apply map_lookup_filter_None. right. intros n _. unfold below. by rewrite bool_decide_eq_true_2.
  - assert (fs' = fs) as -> by (by destruct e; injection H). destruct (fs_nodes fs !! p) as [n|] eqn:En; [|done]. destruct Hs as (Hi & Hp & _). unfold namei in Hq. rewrite walk_last in Hq; [done|by apply (inside_names fs)|intros x Hx _ Hne; by eapply node_parents].
  - done.
  - done.
Qed.
Definition entry_done (priv : bool) (hdr : Header) (parent : hpath) (base : string) (fs : FSys) : Prop :=
  match trim_prefix ".wh." base with
  | Some rest => base ≠ ".wh..wh..opq" → fs_nodes fs !! (parent ++ [rest]) = None
  | None =>
      match h_Typeflag hdr with
      | TypeReg => ∃ m, file_at fs (parent ++ [base]) (h_data hdr) m ∧ carries priv hdr m
      | TypeSymlink => link_at fs (parent ++ [base]) = Some (h_Linkname hdr)
      | TypeDir => dir_at fs (parent ++ [base]) = true
      | _ => True
      end
  end.
Lemma MkdirAll_leaves m y c fs fs' : fs_inv fs → Forall okname y → okname c → linkfree fs ((root ++ y) ++ [c]) → MkdirAll m ((root ++ y) ++ [c]) fs = Ok fs' → dir_at fs' ((root ++ y) ++ [c]) = true.
Proof.
  intros Hi Hy Hc Hl H. unfold MkdirAll in H. rewrite rev_app_distr in H. cbn [rev app mkdir_all] in H. rewrite rev_involutive in H. destruct (sys_stat fs ((root ++ y) ++ [c])) as [[m'|i]|e| |] eqn:E; try done.
  - injection H as <-. unfold sys_stat in E. bind_inv E q Enm. apply namei_follow in Enm as ->; [|apply Forall_app; split; [apply Forall_app; split; [by apply (inv_root_names fs)|done]|by constructor]|done]. unfold dir_at. destruct (fs_nodes fs !! _); [by injection E as ->|done].
  - bind_inv H fs1 E1. assert (change None fs fs1) as C1 by (eapply MkdirAll_change; [done|exact Hy|eapply linkfree_prefix; [exact Hl|by exists [c]]|exact E1]). assert (safe fs1 ((root ++ y) ++ [c])) as Hs by (split; [apply C1|]; split; [exists c, y; by rewrite app_assoc|by apply linkfree_weaken; eapply change_linkfree]).
    destruct (sys_mkdir m _ fs1) as [fs2|e2| |] eqn:E2; [injection H as <-| |done|done].
    + unfold sys_mkdir in E2. bind_inv E2 q Enm. apply (safe_namei fs1 _) in Enm as [-> _]; [|done]. case_match; [done|]. injection E2 as <-. unfold dir_at. cbn. by rewrite lookup_insert_eq.
    + destruct (sys_lstat fs1 _) as [[m'|i]|e3| |] eqn:E3; try done. injection H as <-. apply lstat_link in E3; [|done]. unfold dir_at. by rewrite E3.
Qed.
Lemma typed_leaves priv fs rel y base hdr dirs st : let target := (root ++ y) ++ [base] in fs_inv fs → Forall okname y → okname base → linkfree fs (root ++ y) →
  apply_typed priv root rel target hdr (fs, dirs) = Ok st →
  match h_Typeflag hdr with
  | TypeReg => ∃ m, file_at st.1 target (h_data hdr) m ∧ carries priv hdr m
  | TypeSymlink => link_at st.1 target = Some (h_Linkname hdr)
  | TypeDir => dir_at st.1 target = true
  | _ => True
  end.
Proof.
  intros target Hi Hy Hb Hl. assert (safe fs target) as Hs by (split; [done|]; split; [exists base, y; by unfold target; rewrite app_assoc|by apply linkfree_snoc]). destruct (h_Typeflag hdr) eqn:Hty; unfold apply_typed; rewrite Hty; intros H; [..|done|done].
  - bind_inv H fs1 E1. apply prepareTarEntryTarget_ok in E1 as [C1 Hn1]; [|done]. bind_inv H fs2 E2. injection H as <-. eapply MkdirAll_leaves; [apply C1|done|done| |exact E2]. intros q Hq. destruct (decide (q = (root ++ y) ++ [base])) as [->|Hne]; [done|]. by eapply (change_linkfree_above _ _ _ C1); [apply Hs|..].
  - bind_inv H fs1 E1. apply prepareTarEntryTarget_ok in E1 as [C1 Hn1]; [|done]. bind_inv H fs2 E2. pose proof (safe_change _ _ _ C1 Hs) as Hs1. assert (change None fs1 fs2) as C2 by (by eapply write_change). apply write_leaves in E2 as [m Hf]; [|done|done]. bind_inv H fs3 E3. injection H as <-. eapply metadata_leaves; [by eapply safe_change|by rewrite Hty|done|done].
  - bind_inv H fs1 E1. apply remove_old_ok in E1 as [C1 Hgone]; [|done]. bind_inv H fs2 E2. pose proof (safe_change _ _ _ C1 Hs) as Hs1. assert (change (Some target) fs1 fs2) as C2 by (by eapply symlink_change). bind_inv H fs3 E3. injection H as <-. cbn [fst].
    unfold sys_symlink in E2. bind_inv E2 q Enm. apply (safe_namei fs1 _) in Enm as [-> _]; [|done]. rewrite Hgone in E2. injection E2 as <-. unfold applyTarEntryMetadata in E3. bind_inv E3 fs4 E4. rewrite bool_decide_eq_true_2 in E3 by done. injection E3 as <-. destruct priv; [|injection E4 as <-; unfold link_at; cbn; by rewrite !lookup_insert_eq].
    unfold sys_setmeta in E4. bind_inv E4 q Enm. apply (safe_namei _ target) in Enm as [-> _]; [|split; [apply C2|]; split; [apply Hs|]; intros q' Hq Hne; eapply change_nolink; [exact C2|congruence|by apply Hs1]]. cbn in E4. rewrite !lookup_insert_eq in E4. injection E4 as <-. unfold link_at. cbn. by rewrite !lookup_insert_eq.
Qed.
Lemma applyTar_ok priv layer fs fs' : fs_inv fs → orderly priv layer (fs, []) = true → applyTar priv root layer fs = Ok fs' → fs_inv fs' ∧ same_outside fs fs'.
Proof.
  intros Hi Ho H. unfold applyTar in H. bind_inv H st E. destruct st as [fs1 dirs]. rewrite <- (take_ge layer (length layer)) in E by done. destruct (entries_ok priv layer (length layer) (fs, []) (fs1, dirs) Hi ltac:(constructor) Ho E) as (I1 & O1 & D1 & R1). rewrite drop_all in R1. cbn in *.
  assert (change None fs1 fs') as C by (by eapply final_ok). split; [apply C|]. intros q Hq. rewrite (ch_out _ _ _ C q Hq). by apply O1.
Qed.
(** The images all of whose layers are orderly when their turn comes. *)
Fixpoint orderly_image (priv : bool) (layers : list (list Header)) (fs : FSys) : bool :=
  match layers with
  | [] => true
  | layer :: layers => orderly priv layer (fs, []) && match applyTar priv root layer fs with Ok fs => orderly_image priv layers fs | _ => true end
  end.
Lemma ExtractToDir_ok priv layers : ∀ k fs fs', fs_inv fs → orderly_image priv layers fs = true → ExtractToDir priv root (take k layers) fs = Ok fs' → fs_inv fs' ∧ same_outside fs fs' ∧ orderly_image priv (drop k layers) fs' = true.
Proof.
  induction layers as [|layer layers IH]; intros k fs fs' Hi Ho; [rewrite take_nil, drop_nil; by intros [= <-]|]. destruct k as [|k]; [by intros [= <-]|]. cbn [take drop]. unfold ExtractToDir. cbn [for_each]. cbn [orderly_image] in Ho. apply andb_true_iff in Ho as [Hl Ho].
  intros H. bind_inv H fs1 E. destruct (applyTar_ok priv layer fs fs1 Hi Hl E) as [I1 O1]. rewrite ?E in Ho. destruct (IH k fs1 fs' I1 Ho H) as (I2 & O2 & R2). splits; [done| |done]. intros q Hq. rewrite (O2 q Hq). by apply O1.
Qed.
End inside.

(** C5: Extracting an orderly image changes nothing outside the root directory.  The files and
    directories of the host outside the root, with their contents, link targets, owners, modes and
    times, are the same after the whole image, and after every entry of every layer of it, for
    names, link texts and whiteouts chosen by the image's author.  Orderly: no whiteout of [.] or
    [..], no entry whose directory is reached through a link that leads through another link,
    no hard link to a link, no directory of a layer replaced by a link in the same layer;
    the escape lemmas above show what the code does without them. *)
Theorem image_contained priv root layers fs : fs_inv root fs → orderly_image root priv layers fs = true →
  (∀ i layer j fs1 st, ExtractToDir priv root (take i layers) fs = Ok fs1 → layers !! i = Some layer → for_each (apply_tar_entry priv root) (take j layer) (fs1, []) = Ok st → same_outside root fs st.1)
  ∧ (∀ fs', ExtractToDir priv root layers fs = Ok fs' → fs_inv root fs' ∧ same_outside root fs fs').
Proof.
  intros Hi Ho. split.
  - intros i layer j fs1 st E Hlay H. destruct (ExtractToDir_ok root priv layers i fs fs1 Hi Ho E) as (I1 & O1 & R1). rewrite (drop_S layers layer i Hlay) in R1. cbn [orderly_image] in R1. apply andb_true_iff in R1 as [R1 _].
    destruct (entries_ok root priv layer j (fs1, []) st I1 ltac:(constructor) R1 H) as (_ & O2 & _). intros q Hq. rewrite (O2 q Hq). by apply O1.
  - intros fs' H. rewrite <- (take_ge layers (length layers)) in H by done. by destruct (ExtractToDir_ok root priv layers (length layers) fs fs' Hi Ho H) as (? & ? & _).
Qed.

(** An entry of a layer leaves behind what its header says, at the place the root directory
    gives its name.  A regular file is there with the entry's contents, the twelve mode bits of
    the header, its owner where the process may set it and its modification time; a symbolic
    link is there with the text of the header; a directory is there; and after a whiteout nothing
    is at the name it hides. *)
Theorem layer_entry_applied priv root hdr fs dirs st' base : let rel := cleanLayerEntryName (h_Name hdr) in fs_inv root fs → entry_fine root hdr fs = true → last rel = Some base → apply_tar_entry priv root hdr (fs, dirs) = Ok st' →
  ∃ parent, resolveLayerEntryPath fs root (false, rel) = Ok (parent ++ [base]) ∧ entry_done priv hdr parent base st'.1.
Proof.
  intros rel Hi Hf Hb H. unfold apply_tar_entry in H. unfold entry_fine in Hf. fold rel in Hf, H. rewrite Hb in H, Hf. apply andb_true_iff in Hf as [Hdir Hf]. cbn [default from_option id] in Hf. bind_inv H target Et. pose proof Et as Et'. apply (entry_target root fs (h_Name hdr) base) in Et' as (y & -> & Hy & Hbn & Hl); [|done..].
  exists (root ++ y). split; [done|]. rewrite take_parent in H. unfold entry_done. destruct (trim_prefix ".wh." base) as [rest|].
  - intros Hne. rewrite bool_decide_eq_false_2 in Hf by congruence. apply okname_not in Hf as Hr. bind_inv H fs1 E. injection H as <-. unfold apply_whiteout in E. rewrite bool_decide_eq_false_2 in E by done. unfold join1 in E. pose proof Hr as (R1 & R2 & R3). rewrite !bool_decide_eq_false_2 in E by done. cbn [orb] in E.
    eapply RemoveAll_all; [|exact E]. split; [done|]. split; [exists rest, y; by rewrite app_assoc|by apply linkfree_snoc].
  - bind_inv H fs1 E. assert (change root None fs fs1) as C1 by (by eapply MkdirAll_change). eapply typed_leaves in H; [exact H|apply C1|done|done|by eapply change_linkfree].
Qed.

(** ** An image that meets the conditions *)
#[export] Instance okname_dec c : Decision (okname c).
Proof. unfold okname. apply _. Defined.
(** A file system without files in the root directory is fit for an extraction when these hold of its nodes. *)
Definition fit (root : hpath) (fs : FSys) : bool :=
  forallb (fun k => dir_at fs (take k root)) (seq 0 (S (length root)))
  && forallb (fun '(q, n) => bool_decide (Forall okname q) && (bool_decide (q = []) || dir_at fs (take (length q - 1) q))
                              && match n with NIno i => (i <? fs_fresh fs)%nat && negb (below root q) | NDir _ => true end) (map_to_list (fs_nodes fs)).
Lemma fit_inv root fs : fit root fs = true → fs_inv root fs.
Proof.
  unfold fit. intros [Hr Hn]%andb_true_iff. rewrite forallb_forall in Hr. rewrite forallb_forall in Hn.
  assert (∀ q n, fs_nodes fs !! q = Some n → Forall okname q ∧ (q = [] ∨ dir_at fs (take (length q - 1) q) = true) ∧ ∀ i, n = NIno i → (i < fs_fresh fs)%nat ∧ ¬ root `prefix_of` q) as H.
  { intros q n Hq. apply elem_of_map_to_list, list_elem_of_In, Hn in Hq. apply andb_true_iff in Hq as [[H1 H2]%andb_true_iff H3]. apply bool_decide_eq_true_1 in H1. split; [done|]. split; [apply orb_true_iff in H2 as [H2|H2]; [left; by apply bool_decide_eq_true_1 in H2|by right]|].
    intros i ->. apply andb_true_iff in H3 as [H3 H4]. apply Nat.ltb_lt in H3. split; [done|]. apply negb_true_iff in H4. unfold below in H4. by apply bool_decide_eq_false_1 in H4. }
  split.
  - intros q [y Hy]. rewrite <- (take_app_length q y), <- Hy. apply Hr, in_seq. rewrite Hy, length_app. lia.
  - intros q n Hq. by apply (H q n).
  - intros q c n Hq. destruct (H _ _ Hq) as (_ & [He|Hd] & _); [by destruct q|]. by rewrite take_parent in Hd.
  - intros q i Hq. by apply (H q _ Hq).
  - intros p q i j Hp _ Hpn _. destruct (H p _ Hpn) as (_ & _ & Hi). by destruct (Hi i eq_refl).
Qed.

Definition image_example : list (list Header) :=
  [[plain "usr" TypeDir "" []; plain "usr/bin" TypeDir "" []; plain "bin" TypeSymlink "/usr/bin" []; plain "bin/sh" TypeReg "" [1; 2]; plain "../../etc/passwd" TypeReg "" [7; 7]; plain "etc/passwd-" TypeLink "/etc/passwd" []];
   [plain "bin/.wh.sh" TypeReg "" []; plain "etc/passwd" TypeReg "" [8]; plain "bin/ash" TypeSymlink "../../../../etc/passwd" []]].
Lemma image_contained_witness : ∃ fs, ExtractToDir true root_example image_example host_example = Ok fs ∧ same_outside root_example host_example fs ∧ file_at fs ["tmp"; "work"; "root"; "etc"; "passwd-"] [8] (mkMeta (0, 0) 0x1FF (1, 1)).
Proof.
  eexists. split; [vm_compute; reflexivity|]. split; [|eexists; by vm_compute]. apply (image_contained true root_example image_example host_example); [apply fit_inv; by vm_compute|by vm_compute|by vm_compute].
Defined.
Lemma layer_entry_applied_witness : ∃ st parent, apply_tar_entry true root_example (plain "../../etc/passwd" TypeReg "" [7; 7]) (host_example, []) = Ok st
  ∧ resolveLayerEntryPath host_example root_example (false, ["etc"; "passwd"]) = Ok (parent ++ ["passwd"]) ∧ entry_done true (plain "../../etc/passwd" TypeReg "" [7; 7]) parent "passwd" st.1.
Proof.
  eexists. destruct (layer_entry_applied true root_example (plain "../../etc/passwd" TypeReg "" [7; 7]) host_example [] _ "passwd" ltac:(apply fit_inv; by vm_compute) ltac:(by vm_compute) ltac:(by vm_compute) ltac:(vm_compute; reflexivity)) as (parent & Hp & Hd).
  exists parent. split; [vm_compute; reflexivity|]. split; [exact Hp|exact Hd].
Defined.
