(* ===== verification/Warmpool.v ===== *)
(** * The pool of warmed-up workers (src/pkg/warmpool/pool.go)

    For every key the pool keeps a few worker processes that have already restored a
    snapshot.  [Acquire] hands one out and never blocks; goroutines spawn replacements.  A
    section under the pool's lock is one step of the model, and so is the return of the
    spawner; the goroutines that have been started and wait for their turn are lists of the
    state.  A worker is a number, given by the spawner in the order in which it makes them. *)
From S2P Require Import Prelude.

Record keyState := mkKey { ks_snapshotDir : string; ks_workers : list nat; ks_lastUse : option Z; ks_inflightRefills : Z }.
Record WarmPool := mkWarm { wp_target : Z; wp_pools : gmap string keyState }.
Definition newKey (dir : string) : keyState := mkKey dir [] None 0.
Definition New (target : Z) : option WarmPool := if target <=? 0 then None else Some (mkWarm target ∅).
Definition set_key (p : WarmPool) (k : string) (st : keyState) : WarmPool := mkWarm (wp_target p) (<[k := st]> (wp_pools p)).

(** [if snapshotDir != "" && st.snapshotDir == ""] *)
Definition adopt (dir : string) (st : keyState) : keyState :=
  if negb (bool_decide (dir = "")) && bool_decide (ks_snapshotDir st = "") then mkKey dir (ks_workers st) (ks_lastUse st) (ks_inflightRefills st) else st.

(** The worker, if there is one; its caller then starts [refillOne]. *)
Definition Acquire (now : Z) (key dir : string) (p : WarmPool) : WarmPool * option nat :=
  match wp_pools p !! key with
  | None => (if bool_decide (dir = "") then p else set_key p key (newKey dir), None)
  | Some st =>
      match last (ks_workers st) with
      | None => (set_key p key (adopt dir st), None)
      | Some w =>
          let st := mkKey (ks_snapshotDir st) (take (length (ks_workers st) - 1) (ks_workers st)) (Some now) (ks_inflightRefills st) in
          (set_key p key (adopt dir st), Some w)
      end
  end.

(** How many [spawnOne] to start, and with which directory. *)
Definition EnsureRefill (key dir : string) (p : WarmPool) : WarmPool * (Z * string) :=
  let st := match wp_pools p !! key with None => newKey dir | Some st => adopt dir st end in
  let needed := wp_target p - zlen (ks_workers st) - ks_inflightRefills st in
  if needed <=? 0 then (set_key p key st, (0, ""))
  else (set_key p key (mkKey (ks_snapshotDir st) (ks_workers st) (ks_lastUse st) (ks_inflightRefills st + needed)), (needed, ks_snapshotDir st)).

(** The directory with which it goes on to [spawnOne]. *)
Definition refillOne (key : string) (p : WarmPool) : WarmPool * option string :=
  match wp_pools p !! key with
  | None => (p, None)
  | Some st =>
      if bool_decide (ks_snapshotDir st = "") then (p, None)
      else if wp_target p <=? zlen (ks_workers st) + ks_inflightRefills st then (p, None)
      else (set_key p key (mkKey (ks_snapshotDir st) (ks_workers st) (ks_lastUse st) (ks_inflightRefills st + 1)), Some (ks_snapshotDir st))
  end.

(** [spawnOne] after the spawner has returned: the worker to close, if any. *)
Definition spawnOne (key : string) (w : option nat) (p : WarmPool) : WarmPool * option nat :=
  match wp_pools p !! key with
  | None => (p, w)
  | Some st =>
      let st := mkKey (ks_snapshotDir st) (ks_workers st) (ks_lastUse st) (ks_inflightRefills st - 1) in
      match w with
      | None => (set_key p key st, None)
      | Some w =>
          if wp_target p <=? zlen (ks_workers st) then (set_key p key st, Some w)
          else (set_key p key (mkKey (ks_snapshotDir st) (ks_workers st ++ [w]) (ks_lastUse st) (ks_inflightRefills st)), None)
      end
  end.

Definition second : Z := 1000000000.
Definition stale (cutoff : Z) (st : keyState) : bool := match ks_lastUse st with Some t => t | None => cutoff - second end <? cutoff.
Definition all_workers (m : gmap string keyState) : list nat := concat ((fun e => ks_workers e.2) <$> map_to_list m).
(** The workers it closes. *)
Definition Prune (now maxAge : Z) (p : WarmPool) : WarmPool * list nat :=
  if maxAge <=? 0 then (p, [])
  else
    let cutoff := now - maxAge in
    (mkWarm (wp_target p) (filter (fun e => stale cutoff e.2 = false) (wp_pools p)), all_workers (filter (fun e => stale cutoff e.2 = true) (wp_pools p))).
Definition Size (key : string) (p : WarmPool) : Z := match wp_pools p !! key with Some st => zlen (ks_workers st) | None => 0 end.
Definition Close (p : WarmPool) : WarmPool * list nat := (mkWarm (wp_target p) ∅, all_workers (wp_pools p)).

(** ** Executions *)
Record WarmSys := mkWarmSys {
  ws_pool : WarmPool;
  ws_refills : list string;             (** goroutines that will run [refillOne] *)
  ws_spawns : list (string * string);   (** running calls of the spawner: key and directory *)
  ws_held : list nat;                   (** workers of the pool's clients *)
  ws_closed : list nat;
  ws_served : list (nat * string);      (** every hand-over there has been *)
  ws_made : list string                 (** the keys for which workers were made, in order *)
}.
Inductive warm_event :=
  | EvAcquire (now : Z) (key dir : string)
  | EvEnsure (key dir : string)
  | EvRefill (i : nat)
  | EvSpawned (i : nat) (ok : bool)
  | EvRelease (i : nat)
  | EvPrune (now maxAge : Z)
  | EvClose.

Definition warm_do (ev : warm_event) (s : WarmSys) : WarmSys :=
  let '(mkWarmSys p rf sp held closed served made) := s in
  match ev with
  | EvAcquire now key dir =>
      match Acquire now key dir p with
      | (p, Some w) => mkWarmSys p (rf ++ [key]) sp (held ++ [w]) closed (served ++ [(w, key)]) made
      | (p, None) => mkWarmSys p rf sp held closed served made
      end
  | EvEnsure key dir =>
      let '(p, (needed, d)) := EnsureRefill key dir p in
      mkWarmSys p rf (sp ++ replicate (Z.to_nat needed) (key, d)) held closed served made
  | EvRefill i =>
      match rf !! i with
      | None => s
      | Some key =>
          match refillOne key p with
          | (p, Some d) => mkWarmSys p (delete i rf) (sp ++ [(key, d)]) held closed served made
          | (p, None) => mkWarmSys p (delete i rf) sp held closed served made
          end
      end
  | EvSpawned i ok =>
      match sp !! i with
      | None => s
      | Some (key, d) =>
          let '(p, extra) := spawnOne key (if ok then Some (length made) else None) p in
          mkWarmSys p rf (delete i sp) held (closed ++ option_list extra) served (if ok then made ++ [key] else made)
      end
  | EvRelease i =>
      match held !! i with
      | None => s
      | Some w => mkWarmSys p rf sp (delete i held) (closed ++ [w]) served made
      end
  | EvPrune now maxAge => let '(p, ws) := Prune now maxAge p in mkWarmSys p rf sp held (closed ++ ws) served made
  | EvClose => let '(p, ws) := Close p in mkWarmSys p rf sp held (closed ++ ws) served made
  end.
Definition warm_run (evs : list warm_event) (s : WarmSys) : WarmSys := fold_left (fun s ev => warm_do ev s) evs s.
Definition warm_start (p : WarmPool) : WarmSys := mkWarmSys p [] [] [] [] [] [].

(** ** Every worker is in one place *)
Lemma all_workers_insert m k st : m !! k = None → all_workers (<[k := st]> m) ≡ₚ ks_workers st ++ all_workers m.
Proof. intros H. unfold all_workers. by rewrite (map_to_list_insert m k st H). Qed.
Lemma all_workers_put m k st : all_workers (<[k := st]> m) ≡ₚ ks_workers st ++ all_workers (delete k m).
Proof. rewrite <- insert_delete_eq. apply all_workers_insert, lookup_delete_eq. Qed.
Lemma all_workers_at m k st : m !! k = Some st → all_workers m ≡ₚ ks_workers st ++ all_workers (delete k m).
Proof. intros H. rewrite <- (insert_id m k st H) at 1. apply all_workers_put. Qed.
Lemma all_workers_same m k st st' : m !! k = Some st → ks_workers st' = ks_workers st → all_workers (<[k := st']> m) ≡ₚ all_workers m.
Proof. intros H E. rewrite all_workers_put, E. symmetry. by apply all_workers_at. Qed.
Lemma all_workers_split (f : keyState → bool) m : all_workers m ≡ₚ all_workers (filter (fun e => f e.2 = false) m) ++ all_workers (filter (fun e => f e.2 = true) m).
Proof.
  induction m as [|k st m Hk IH] using map_ind; [done|]. rewrite all_workers_insert by done. destruct (f st) eqn:E.
  - rewrite (map_filter_insert_False (fun e => f e.2 = false)) by (cbn; by rewrite E). rewrite (map_filter_insert_True (fun e => f e.2 = true)) by done. rewrite delete_id by done. rewrite all_workers_insert by (apply map_lookup_filter_None; by left). rewrite IH. solve_Permutation.
  - rewrite (map_filter_insert_True (fun e => f e.2 = false)) by done. rewrite (map_filter_insert_False (fun e => f e.2 = true)) by (cbn; by rewrite E). rewrite delete_id by done. rewrite all_workers_insert by (apply map_lookup_filter_None; by left). rewrite IH. by rewrite app_assoc.
Qed.
Lemma elem_all_workers m w : w ∈ all_workers m ↔ ∃ k st, m !! k = Some st ∧ w ∈ ks_workers st.
Proof.
  unfold all_workers. rewrite list_elem_of_In, in_concat. setoid_rewrite <- list_elem_of_In. split.
  - intros (l & Hl & Hw). apply list_elem_of_fmap in Hl as ([k st] & -> & Hl). apply elem_of_map_to_list in Hl. by exists k, st.
  - intros (k & st & Hk & Hw). exists (ks_workers st). split; [|done]. apply list_elem_of_fmap. exists (k, st). split; [done|]. by apply elem_of_map_to_list.
Qed.
Lemma adopt_workers dir st : ks_workers (adopt dir st) = ks_workers st.
Proof. unfold adopt. by case_match. Qed.
Lemma adopt_inflight dir st : ks_inflightRefills (adopt dir st) = ks_inflightRefills st.
Proof. unfold adopt. by case_match. Qed.

Record warm_inv (s : WarmSys) : Prop := mkWarmInv {
  wi_cap : ∀ k st, wp_pools (ws_pool s) !! k = Some st → zlen (ks_workers st) ≤ wp_target (ws_pool s);
  wi_place : all_workers (wp_pools (ws_pool s)) ++ ws_held s ++ ws_closed s ≡ₚ seq 0 (length (ws_made s));
  wi_key : ∀ k st w, wp_pools (ws_pool s) !! k = Some st → w ∈ ks_workers st → ws_made s !! w = Some k;
  wi_served : (ws_served s).*1 ⊆ ws_held s ++ ws_closed s;
  wi_once : NoDup (ws_served s).*1;
  wi_right : ∀ w k, (w, k) ∈ ws_served s → ws_made s !! w = Some k
}.
Lemma warm_put s k st' rf sp held closed served made : warm_inv s → zlen (ks_workers st') ≤ wp_target (ws_pool s) → ws_made s `prefix_of` made →
  ks_workers st' ++ all_workers (delete k (wp_pools (ws_pool s))) ++ held ++ closed ≡ₚ seq 0 (length made) → (∀ w, w ∈ ks_workers st' → made !! w = Some k) →
  served.*1 ⊆ held ++ closed → NoDup served.*1 → (∀ w k, (w, k) ∈ served → made !! w = Some k) →
  warm_inv (mkWarmSys (set_key (ws_pool s) k st') rf sp held closed served made).
Proof.
  intros Hi Hcap Hm Hp Hk Hs Ho Hr. split; cbn; [| |intros k0 st0 w|done|done|done].
  - intros k0 st0. destruct (decide (k = k0)) as [->|Hne]; [rewrite lookup_insert_eq; by intros [= <-]|rewrite lookup_insert_ne by done; apply Hi].
  - by rewrite all_workers_put, <- app_assoc.
  - destruct (decide (k = k0)) as [->|Hne]; [rewrite lookup_insert_eq; intros [= <-]; apply Hk|rewrite lookup_insert_ne by done]. intros H0 Hw. eapply prefix_lookup_Some; [by eapply (wi_key s Hi)|done].
Qed.
(** The same workers under the key as before, and nothing else changes. *)
Lemma warm_same s k st' rf sp : warm_inv s → ks_workers st' = default [] (ks_workers <$> wp_pools (ws_pool s) !! k) →
  0 ≤ wp_target (ws_pool s) → warm_inv (mkWarmSys (set_key (ws_pool s) k st') rf sp (ws_held s) (ws_closed s) (ws_served s) (ws_made s)).
Proof.
  intros Hi Hw Ht. apply warm_put; try done; try apply Hi.
  - rewrite Hw. destruct (wp_pools (ws_pool s) !! k) eqn:E; [by eapply (wi_cap s Hi)|done].
  - rewrite <- (wi_place s Hi), Hw, app_assoc. apply Permutation_app_tail. destruct (wp_pools (ws_pool s) !! k) eqn:E; [symmetry; by apply all_workers_at|]. by rewrite delete_id.
  - intros w. rewrite Hw. destruct (wp_pools (ws_pool s) !! k) eqn:E; [by eapply (wi_key s Hi)|]. cbn. by intros ?%not_elem_of_nil.
Qed.
(** Everything under the lock stays; the lists of goroutines do not matter. *)
Lemma warm_tasks s rf sp : warm_inv s → warm_inv (mkWarmSys (ws_pool s) rf sp (ws_held s) (ws_closed s) (ws_served s) (ws_made s)).
Proof. intros [? ? ? ? ? ?]. by split. Qed.
Lemma warm_worker s k st w : warm_inv s → wp_pools (ws_pool s) !! k = Some st → w ∈ ks_workers st → w ∉ ws_held s ++ ws_closed s.
Proof.
  intros Hi Hk Hw Hin. assert (NoDup (all_workers (wp_pools (ws_pool s)) ++ ws_held s ++ ws_closed s)) as Hn by (rewrite (wi_place s Hi); apply NoDup_seq). apply NoDup_app in Hn as (_ & Hn & _). apply (Hn w); [|done]. apply elem_all_workers. by exists k, st.
Qed.
Lemma take_last {A} (l : list A) x : last l = Some x → ∃ l', l = l' ++ [x] ∧ take (length l - 1) l = l'.
Proof. intros (l' & ->)%last_Some. exists l'. rewrite length_app, Nat.add_sub. by rewrite take_app_length. Qed.
Lemma acquire_inv s now k dir : 0 ≤ wp_target (ws_pool s) → warm_inv s → warm_inv (warm_do (EvAcquire now k dir) s).
Proof.
  intros Ht Hi. destruct s as [p rf sp held closed served made]. cbn [warm_do]. unfold Acquire. destruct (wp_pools p !! k) as [st|] eqn:Ek; [|case_bool_decide; [done|by apply (warm_same (mkWarmSys p rf sp held closed served made) k); [|cbn; rewrite Ek|]]].
  destruct (last (ks_workers st)) as [w|] eqn:El; [|apply (warm_same (mkWarmSys p rf sp held closed served made) k); [done| |done]; cbn; by rewrite Ek, adopt_workers].
  destruct (take_last _ _ El) as (rest & Hl & ->). assert (w ∈ ks_workers st) as Hw by (rewrite Hl; apply elem_of_app; right; by apply list_elem_of_singleton). pose proof (warm_worker _ k st w Hi Ek Hw) as Hnew. cbn in Hnew.
  apply (warm_put (mkWarmSys p rf sp held closed served made)); [done| |done|..]; rewrite ?adopt_workers; cbn [ks_workers ws_pool ws_made].
  - pose proof (wi_cap _ Hi k st Ek) as Hc. cbn in Hc. rewrite Hl in Hc. rewrite zlen_app in Hc. change (zlen [w]) with 1 in Hc. lia.
  - rewrite <- (wi_place _ Hi). cbn. rewrite (all_workers_at _ k st Ek), Hl. solve_Permutation.
  - intros w' Hw'. eapply (wi_key _ Hi); [exact Ek|]. rewrite Hl. apply elem_of_app. by left.
  - rewrite fmap_app. cbn. intros x [Hx|Hx]%elem_of_app; [apply (wi_served _ Hi) in Hx; cbn in Hx; set_solver|set_solver].
  - rewrite fmap_app. cbn. apply NoDup_app. split; [apply Hi|]. split; [|apply NoDup_singleton]. intros x Hx ->%list_elem_of_singleton. by apply Hnew, (wi_served _ Hi).
  - intros w' k' [Hx|Hx]%elem_of_app; [by apply (wi_right _ Hi)|]. apply list_elem_of_singleton in Hx. injection Hx as -> ->. by apply (wi_key _ Hi k st).
Qed.
Lemma spawned_inv s i ok : 0 ≤ wp_target (ws_pool s) → warm_inv s → warm_inv (warm_do (EvSpawned i ok) s).
Proof.
  intros Ht Hi. destruct s as [p rf sp held closed served made]. cbn [warm_do]. destruct (sp !! i) as [[k d]|]; [|done]. pose proof (wi_place _ Hi) as Hpl. cbn in Hpl.
  assert (∀ x k', made !! x = Some k' → (made ++ [k]) !! x = Some k') as Hmono by (intros x k' Hx; eapply prefix_lookup_Some; [exact Hx|by exists [k]]).
  assert (length (made ++ [k]) = S (length made)) as Hlen by (rewrite length_app; cbn; lia).
  assert (∀ ws, ws ≡ₚ length made :: all_workers (wp_pools p) ++ held ++ closed → ws ≡ₚ seq 0 (length (made ++ [k]))) as Hgrow by (intros ws ->; rewrite Hlen, seq_S, Hpl; cbn; apply Permutation_cons_append).
  unfold spawnOne. destruct (wp_pools p !! k) as [st|] eqn:Ek.
  - destruct ok; [|cbn; rewrite app_nil_r; apply (warm_same (mkWarmSys p rf sp held closed served made) k); [done|cbn; by rewrite Ek|done]]. cbn [ks_workers]. destruct (wp_target p <=? zlen (ks_workers st)) eqn:Ecap; cbn [option_list].
    + apply (warm_put (mkWarmSys p rf sp held closed served made)); cbn; [done|by apply (wi_cap _ Hi k)|by exists [k]|..].
      * apply Hgrow. rewrite (all_workers_at _ k st Ek). solve_Permutation.
      * intros w Hw. by apply Hmono, (wi_key _ Hi k st).
      * intros x Hx. apply (wi_served _ Hi) in Hx. cbn in Hx. set_solver.
      * apply Hi.
      * intros w k' Hx. by apply Hmono, (wi_right _ Hi).
    + rewrite app_nil_r. apply (warm_put (mkWarmSys p rf sp held closed served made)); cbn; [done|rewrite zlen_app; change (zlen [length made]) with 1; lia|by exists [k]|..].
      * apply Hgrow. rewrite (all_workers_at _ k st Ek). solve_Permutation.
      * intros w [Hw|Hw]%elem_of_app; [by apply Hmono, (wi_key _ Hi k st)|]. apply list_elem_of_singleton in Hw as ->. by apply list_lookup_middle.
      * apply Hi.
      * apply Hi.
      * intros w k' Hx. by apply Hmono, (wi_right _ Hi).
  - destruct ok; cbn [option_list]; [|rewrite app_nil_r; by apply (warm_tasks (mkWarmSys p rf sp held closed served made))]. destruct Hi as [I1 I2 I3 I4 I5 I6]. split; cbn in *; [done| | | |done|].
    + apply Hgrow. solve_Permutation.
    + intros k' st' w Hk' Hw. by apply Hmono, (I3 k' st').
    + intros x Hx. apply I4 in Hx. set_solver.
    + intros w k' Hx. by apply Hmono, I6.
Qed.
Lemma evict_inv s (f : keyState → bool) : warm_inv s → warm_inv (mkWarmSys (mkWarm (wp_target (ws_pool s)) (filter (fun e => f e.2 = false) (wp_pools (ws_pool s)))) (ws_refills s) (ws_spawns s) (ws_held s)
  (ws_closed s ++ all_workers (filter (fun e => f e.2 = true) (wp_pools (ws_pool s)))) (ws_served s) (ws_made s)).
Proof.
  intros [I1 I2 I3 I4 I5 I6]. split; cbn; [| | | |done|done].
  - intros k st Hk. apply map_lookup_filter_Some in Hk as [Hk _]. by eapply I1.
  - rewrite <- I2, (all_workers_split f (wp_pools (ws_pool s))). solve_Permutation.
  - intros k st w Hk. apply map_lookup_filter_Some in Hk as [Hk _]. by apply I3.
  - intros x Hx. apply I4 in Hx. set_solver.
Qed.
Lemma filter_keep (m : gmap string keyState) (b : bool) : filter (fun _ => true = b) m = if b then m else ∅.
Proof. destruct b; apply map_eq; intros k; apply option_eq; intros st; rewrite map_lookup_filter_Some; [tauto|]. rewrite lookup_empty. intuition done. Qed.
Lemma warm_do_target ev s : wp_target (ws_pool (warm_do ev s)) = wp_target (ws_pool s).
Proof. destruct s as [p rf sp held closed served made], ev; cbn; unfold Acquire, EnsureRefill, refillOne, spawnOne, Prune; by repeat case_match; simplify_eq. Qed.
Lemma warm_do_inv ev s : 0 ≤ wp_target (ws_pool s) → warm_inv s → warm_inv (warm_do ev s).
Proof.
  intros Ht Hi. destruct ev as [now k dir|k dir|i|i ok|i|now age|]; [by apply acquire_inv| | |by apply spawned_inv|..]; destruct s as [p rf sp held closed served made]; cbn [warm_do].
  - unfold EnsureRefill. destruct (_ <=? 0); cbn; apply (warm_same (mkWarmSys p rf sp held closed served made) k); try done; destruct (wp_pools p !! k) eqn:Ek; cbn; rewrite ?Ek, ?adopt_workers; done.
  - destruct (rf !! i) as [k|]; [|done]. unfold refillOne. destruct (wp_pools p !! k) as [st|] eqn:Ek; [|by apply (warm_tasks (mkWarmSys p rf sp held closed served made))]. case_bool_decide; [by apply (warm_tasks (mkWarmSys p rf sp held closed served made))|]. destruct (_ <=? _); [by apply (warm_tasks (mkWarmSys p rf sp held closed served made))|].
    apply (warm_same (mkWarmSys p rf sp held closed served made) k); [done|cbn; by rewrite Ek|done].
  - destruct (held !! i) as [w|] eqn:E; [|done]. apply delete_Permutation in E. generalize dependent (delete i held). intros rest E. destruct Hi as [I1 I2 I3 I4 I5 I6]. split; cbn in *; [done| |done| |done|done].
    + rewrite <- I2, E. solve_Permutation.
    + intros x Hx. apply I4 in Hx. rewrite E in Hx. set_solver.
  - unfold Prune. destruct (age <=? 0); [rewrite app_nil_r; done|]. apply (evict_inv (mkWarmSys p rf sp held closed served made) (stale (now - age)) Hi).
  - unfold Close. pose proof (evict_inv (mkWarmSys p rf sp held closed served made) (fun _ => true) Hi) as H. cbn in H. rewrite (filter_keep _ false) in H. rewrite (filter_keep _ true) in H. exact H.
Qed.
Lemma warm_run_inv evs s : 0 ≤ wp_target (ws_pool s) → warm_inv s → warm_inv (warm_run evs s) ∧ wp_target (ws_pool (warm_run evs s)) = wp_target (ws_pool s).
Proof.
  revert s. induction evs as [|ev evs IH]; intros s Ht Hi; [done|]. change (warm_run (ev :: evs) s) with (warm_run evs (warm_do ev s)). destruct (IH (warm_do ev s)) as [I1 T1]; [by rewrite warm_do_target|by apply warm_do_inv|]. split; [done|]. by rewrite T1, warm_do_target.
Qed.
Lemma warm_start_inv p : wp_pools p = ∅ → warm_inv (warm_start p).
Proof. intros H. split; cbn; rewrite ?H; try done; [by intros k st ?%lookup_empty_Some..|constructor|by intros w k ?%not_elem_of_nil]. Qed.

(** ** Refills *)
Definition running (k : string) (sp : list (string * string)) : Z := zlen (filter (fun x => x.1 = k) sp).
Lemma running_app k a b : running k (a ++ b) = running k a + running k b.
Proof. unfold running. by rewrite filter_app, zlen_app. Qed.
Lemma running_one k k' d : running k [(k', d)] = if decide (k' = k) then 1 else 0.
Proof. unfold running. rewrite filter_cons. cbn. by case_decide. Qed.
Lemma running_replicate k k' d n : running k (replicate n (k', d)) = if decide (k' = k) then Z.of_nat n else 0.
Proof. induction n as [|n IH]; [by case_decide|]. change (replicate (S n) (k', d)) with ([(k', d)] ++ replicate n (k', d)). rewrite running_app, running_one, IH. case_decide; lia. Qed.
Lemma running_delete k k' d i sp : sp !! i = Some (k', d) → running k (delete i sp) = running k sp - if decide (k' = k) then 1 else 0.
Proof.
  intros H. rewrite delete_take_drop, running_app. rewrite <- (take_drop_middle sp i (k', d) H) at 3. change ((k', d) :: drop (S i) sp) with ([(k', d)] ++ drop (S i) sp). rewrite !running_app, running_one. lia.
Qed.
(** The counter counts the running calls of the spawner, and with the workers they do not exceed the target. *)
Definition counted (s : WarmSys) : Prop := ∀ k,
  match wp_pools (ws_pool s) !! k with
  | Some st => ks_inflightRefills st = running k (ws_spawns s) ∧ zlen (ks_workers st) + ks_inflightRefills st ≤ wp_target (ws_pool s)
  | None => running k (ws_spawns s) = 0
  end.
Definition evicts (ev : warm_event) : bool := match ev with EvPrune _ _ | EvClose => true | _ => false end.
Lemma counted_put s k st' rf sp held closed served made : counted s → ks_inflightRefills st' = running k sp → zlen (ks_workers st') + ks_inflightRefills st' ≤ wp_target (ws_pool s) →
  (∀ k', k' ≠ k → running k' sp = running k' (ws_spawns s)) → counted (mkWarmSys (set_key (ws_pool s) k st') rf sp held closed served made).
Proof. intros Hc H1 H2 H3 k'. cbn. destruct (decide (k = k')) as [<-|Hne]; [by rewrite lookup_insert_eq|]. rewrite lookup_insert_ne by done. specialize (Hc k'). by rewrite H3. Qed.
Lemma counted_some s k st : counted s → wp_pools (ws_pool s) !! k = Some st → ks_inflightRefills st = running k (ws_spawns s) ∧ zlen (ks_workers st) + ks_inflightRefills st ≤ wp_target (ws_pool s).
Proof. intros H E. specialize (H k). by rewrite E in H. Qed.
Lemma counted_none s k : counted s → wp_pools (ws_pool s) !! k = None → running k (ws_spawns s) = 0.
Proof. intros H E. specialize (H k). by rewrite E in H. Qed.
Lemma acquire_counted s now k dir : 0 ≤ wp_target (ws_pool s) → counted s → counted (warm_do (EvAcquire now k dir) s).
Proof.
  intros Ht Hc. destruct s as [p rf sp held closed served made]. cbn [warm_do ws_pool] in *. unfold Acquire. destruct (wp_pools p !! k) as [st|] eqn:Ek; [|case_bool_decide; [done|]; apply (counted_put _ k (newKey dir) _ _ _ _ _ _ Hc); cbn; [symmetry; by apply (counted_none _ _ Hc)|done|done]].
  destruct (counted_some _ _ _ Hc Ek) as [C1 C2]. cbn in C1, C2. destruct (last (ks_workers st)) as [w|] eqn:El.
  - destruct (take_last _ _ El) as (rest & Hl & ->). apply (counted_put _ k _ _ _ _ _ _ _ Hc); [by rewrite adopt_inflight|rewrite adopt_inflight, adopt_workers; cbn|done]. rewrite Hl, zlen_app in C2. change (zlen [w]) with 1 in C2. lia.
  - apply (counted_put _ k _ _ _ _ _ _ _ Hc); [by rewrite adopt_inflight|by rewrite adopt_inflight, adopt_workers|done].
Qed.
Lemma spawned_counted s i ok : counted s → counted (warm_do (EvSpawned i ok) s).
Proof.
  intros Hc. destruct s as [p rf sp held closed served made]. cbn [warm_do]. destruct (sp !! i) as [[k d]|] eqn:Ei; [|done]. assert (∀ k', k' ≠ k → running k' (delete i sp) = running k' sp) as Ho by (intros k' Hne; rewrite (running_delete k' k d i sp Ei), decide_False by done; lia). pose proof (running_delete k k d i sp Ei) as Hk. rewrite decide_True in Hk by done.
  assert (0 ≤ running k (delete i sp)) by apply zlen_nonneg. unfold spawnOne. destruct (wp_pools p !! k) as [st|] eqn:Ek; [|pose proof (counted_none _ _ Hc Ek) as H0; cbn in H0; lia]. destruct (counted_some _ _ _ Hc Ek) as [C1 C2]. cbn in C1, C2.
  destruct ok; [|apply (counted_put _ k _ _ _ _ _ _ _ Hc); cbn; [lia|lia|done]]. cbn [ks_workers]. destruct (wp_target p <=? zlen (ks_workers st)) eqn:Ecap; apply (counted_put _ k _ _ _ _ _ _ _ Hc); cbn; [lia|lia|done|lia| |done]. rewrite zlen_app. change (zlen [length made]) with 1. lia.
Qed.
Lemma ensure_counted s k dir : 0 ≤ wp_target (ws_pool s) → counted s → counted (warm_do (EvEnsure k dir) s) ∧ Size k (ws_pool (warm_do (EvEnsure k dir) s)) + running k (ws_spawns (warm_do (EvEnsure k dir) s)) = wp_target (ws_pool s).
Proof.
  intros Ht Hc. destruct s as [p rf sp held closed served made]. cbn [warm_do ws_pool] in *. unfold EnsureRefill. set (st := match wp_pools p !! k with Some st => adopt dir st | None => newKey dir end).
  assert (ks_inflightRefills st = running k sp ∧ zlen (ks_workers st) + ks_inflightRefills st ≤ wp_target p) as [C1 C2]. { unfold st. destruct (wp_pools p !! k) as [st0|] eqn:Ek; [rewrite adopt_inflight, adopt_workers; by apply (counted_some _ _ _ Hc Ek)|]. cbn. split; [symmetry; by apply (counted_none _ _ Hc)|done]. }
  clearbody st. destruct (_ <=? 0) eqn:En; cbn [Z.to_nat replicate]; (split; [apply (counted_put _ k _ _ _ _ _ _ _ Hc)|unfold Size; cbn; rewrite lookup_insert_eq]).
  - by rewrite app_nil_r.
  - done.
  - intros k' _. by rewrite app_nil_r.
  - rewrite app_nil_r. lia.
  - rewrite running_app, running_replicate, decide_True by done. cbn. lia.
  - cbn. lia.
  - intros k' Hne. rewrite running_app, running_replicate, decide_False by done. cbn. lia.
  - rewrite running_app, running_replicate, decide_True by done. cbn. lia.
Qed.
Lemma counted_do ev s : 0 ≤ wp_target (ws_pool s) → evicts ev = false → counted s → counted (warm_do ev s).
Proof.
  intros Ht He Hc. destruct ev as [now k dir|k dir|i|i ok|i|now age|]; try done; [by apply acquire_counted|by apply ensure_counted| |by apply spawned_counted|].
  - destruct s as [p rf sp held closed served made]. cbn [warm_do ws_pool] in *. destruct (rf !! i) as [k|]; [|done]. unfold refillOne. destruct (wp_pools p !! k) as [st|] eqn:Ek; [|exact Hc]. case_bool_decide; [exact Hc|]. destruct (wp_target p <=? zlen (ks_workers st) + ks_inflightRefills st) eqn:Ec; [exact Hc|].
    destruct (counted_some _ _ _ Hc Ek) as [C1 C2]. apply (counted_put _ k _ _ _ _ _ _ _ Hc); cbn in *; [rewrite running_app, running_one, decide_True by done; lia|lia|]. intros k' Hne. rewrite running_app, running_one, decide_False by done. lia.
  - destruct s as [p rf sp held closed served made]. cbn. by destruct (held !! i).
Qed.
Lemma counted_run evs s : 0 ≤ wp_target (ws_pool s) → forallb (negb ∘ evicts) evs = true → counted s → counted (warm_run evs s) ∧ wp_target (ws_pool (warm_run evs s)) = wp_target (ws_pool s).
Proof.
  revert s. induction evs as [|ev evs IH]; intros s Ht He Hc; [done|]. cbn [forallb] in He. apply andb_true_iff in He as [He1 He2]. apply negb_true_iff in He1. change (warm_run (ev :: evs) s) with (warm_run evs (warm_do ev s)).
  destruct (IH (warm_do ev s)) as [I1 T1]; [by rewrite warm_do_target|done|by apply counted_do|]. split; [done|]. by rewrite T1, warm_do_target.
Qed.
(** Events that take nothing from the key: no worker of it is handed out and no spawn fails. *)
Definition gentle (key : string) (ev : warm_event) : bool :=
  match ev with EvAcquire _ k _ => negb (bool_decide (k = key)) | EvSpawned _ ok => ok | EvPrune _ _ | EvClose => false | _ => true end.
Definition full (key : string) (s : WarmSys) : Prop := ∃ st, wp_pools (ws_pool s) !! key = Some st ∧ zlen (ks_workers st) + ks_inflightRefills st = wp_target (ws_pool s).
Lemma full_put s key k st' rf sp held closed served made : full key s → (k = key → zlen (ks_workers st') + ks_inflightRefills st' = wp_target (ws_pool s)) → full key (mkWarmSys (set_key (ws_pool s) k st') rf sp held closed served made).
Proof. intros (st & H1 & H2) H. unfold full. cbn. destruct (decide (k = key)) as [->|Hne]; [exists st'; rewrite lookup_insert_eq; by split; [|apply H]|]. exists st. by rewrite lookup_insert_ne. Qed.
Lemma full_do key ev s : 0 ≤ wp_target (ws_pool s) → gentle key ev = true → counted s → full key s → full key (warm_do ev s).
Proof.
  intros Ht Hg Hc Hf. pose proof Hf as (st & Hk & Hs). destruct ev as [now k dir|k dir|i|i ok|i|now age|]; try done; destruct s as [p rf sp held closed served made]; cbn [warm_do ws_pool gentle] in *.
  - apply negb_true_iff, bool_decide_eq_false_1 in Hg. unfold Acquire. destruct (wp_pools p !! k) as [st1|] eqn:Ek; [|case_bool_decide; [done|by apply (full_put _ _ _ _ _ _ _ _ _ _ Hf)]]. by destruct (last (ks_workers st1)); apply (full_put _ _ _ _ _ _ _ _ _ _ Hf).
  - unfold EnsureRefill. destruct (_ <=? 0) eqn:En; apply (full_put _ _ _ _ _ _ _ _ _ _ Hf); intros ->; rewrite Hk in *; rewrite ?adopt_inflight, ?adopt_workers in *; [done|]. cbn. lia.
  - destruct (rf !! i) as [k|]; [|done]. unfold refillOne. destruct (wp_pools p !! k) as [st1|] eqn:Ek; [|exact Hf]. case_bool_decide; [exact Hf|]. destruct (wp_target p <=? _) eqn:Ec; [exact Hf|]. apply (full_put _ _ _ _ _ _ _ _ _ _ Hf). intros ->. simplify_eq. cbn in *. lia.
  - subst ok. destruct (sp !! i) as [[k d]|] eqn:Ei; [|done]. unfold spawnOne. destruct (wp_pools p !! k) as [st1|] eqn:Ek; [|exact Hf]. cbn [ks_workers]. pose proof (running_delete k k d i sp Ei) as Hr. rewrite decide_True in Hr by done. assert (0 ≤ running k (delete i sp)) by apply zlen_nonneg. destruct (counted_some _ _ _ Hc Ek) as [C1 C2]. cbn in C1, C2.
    destruct (wp_target p <=? zlen (ks_workers st1)) eqn:Ec; [lia|]. apply (full_put _ _ _ _ _ _ _ _ _ _ Hf). intros ->. simplify_eq. cbn in *. rewrite zlen_app. change (zlen [length made]) with 1. lia.
  - by destruct (held !! i).
Qed.
Lemma gentle_evicts key ev : gentle key ev = true → evicts ev = false.
Proof. by destruct ev. Qed.
Lemma full_run key evs s : 0 ≤ wp_target (ws_pool s) → forallb (gentle key) evs = true → counted s → full key s → counted (warm_run evs s) ∧ full key (warm_run evs s) ∧ wp_target (ws_pool (warm_run evs s)) = wp_target (ws_pool s).
Proof.
  revert s. induction evs as [|ev evs IH]; intros s Ht He Hc Hf; [done|]. cbn [forallb] in He. apply andb_true_iff in He as [He1 He2]. change (warm_run (ev :: evs) s) with (warm_run evs (warm_do ev s)).
  destruct (IH (warm_do ev s)) as (I1 & F1 & T1); [by rewrite warm_do_target|done|apply counted_do; [done|by eapply gentle_evicts|done]|by apply full_do|]. split; [done|]. split; [done|]. by rewrite T1, warm_do_target.
Qed.
Lemma full_size key s : counted s → full key s → Size key (ws_pool s) + running key (ws_spawns s) = wp_target (ws_pool s).
Proof. intros Hc (st & Hk & Hs). destruct (counted_some _ _ _ Hc Hk) as [C1 C2]. unfold Size. rewrite Hk. lia. Qed.
Lemma drain_spawns s n : length (ws_spawns (warm_run (replicate n (EvSpawned 0 true)) s)) = (length (ws_spawns s) - n)%nat.
Proof.
  revert s. induction n as [|n IH]; intros s; [cbn; lia|]. change (warm_run (replicate (S n) (EvSpawned 0 true)) s) with (warm_run (replicate n (EvSpawned 0 true)) (warm_do (EvSpawned 0 true) s)). rewrite IH. destruct s as [p rf sp held closed served made]. cbn [warm_do ws_spawns]. destruct sp as [|[k d] sp]; [done|]. cbn [lookup list_lookup]. destruct (spawnOne k _ p). cbn. lia.
Qed.
Lemma gentle_all key n : forallb (gentle key) (replicate n (EvSpawned 0 true)) = true.
Proof. by induction n. Qed.
Lemma warm_run_app a b s : warm_run (a ++ b) s = warm_run b (warm_run a s).
Proof. apply fold_left_app. Qed.
Lemma counted_start p : wp_pools p = ∅ → counted (warm_start p).
Proof. intros H k. cbn. by rewrite H, lookup_empty. Qed.
Lemma New_ok target p : New target = Some p → 0 ≤ wp_target p ∧ wp_target p = target ∧ wp_pools p = ∅.
Proof. unfold New. destruct (target <=? 0) eqn:E; [done|]. intros [= <-]. cbn. split; [lia|done]. Qed.

(** C7: For every interleaving of acquisitions, releases, refills, evictions and the end of the
    pool, each worker that the spawner made is in exactly one place: ready in the pool, with the
    client that holds it, or closed once; so none is leaked or shared.  A client is
    given a worker at most once in its life and one that was made for the key it asked for, and
    a key never has more ready workers than the target. *)
Theorem warmpool_sound target p evs : New target = Some p → let s := warm_run evs (warm_start p) in
  all_workers (wp_pools (ws_pool s)) ++ ws_held s ++ ws_closed s ≡ₚ seq 0 (length (ws_made s)) ∧
  NoDup (ws_served s).*1 ∧ (∀ w k, (w, k) ∈ ws_served s → ws_made s !! w = Some k ∧ w ∉ all_workers (wp_pools (ws_pool s))) ∧ (∀ k, 0 ≤ Size k (ws_pool s) ≤ target).
Proof.
  intros (Ht & <- & He)%New_ok s. destruct (warm_run_inv evs (warm_start p) Ht (warm_start_inv p He)) as [Hi Htgt]. fold s in Hi, Htgt. cbn [warm_start ws_pool] in Htgt. split; [apply Hi|]. split; [apply Hi|]. split.
  - intros w k Hw. split; [by apply (wi_right s Hi)|]. intros (k' & st & Hk & Hin)%elem_all_workers. apply (warm_worker s k' st w Hi Hk Hin), (wi_served s Hi). apply list_elem_of_fmap. by exists (w, k).
  - intros k. unfold Size. destruct (wp_pools (ws_pool s) !! k) eqn:Ek; [|done]. split; [apply zlen_nonneg|]. rewrite <- Htgt. by apply (wi_cap s Hi k).
Qed.
Lemma warmpool_sound_witness : let s := warm_run [EvEnsure "k" "/snap"; EvSpawned 0 true; EvSpawned 0 true; EvAcquire 5 "k" ""; EvRefill 0; EvPrune 100 10; EvSpawned 0 true; EvRelease 0] (warm_start (mkWarm 2 ∅)) in
  ws_closed s = [0; 2; 1]%nat ∧ NoDup (ws_served s).*1.
Proof.
  split; [by vm_compute|]. destruct (warmpool_sound 2 (mkWarm 2 ∅) [EvEnsure "k" "/snap"; EvSpawned 0 true; EvSpawned 0 true; EvAcquire 5 "k" ""; EvRefill 0; EvPrune 100 10; EvSpawned 0 true; EvRelease 0] eq_refl) as (_ & H & _). exact H.
Defined.

(** C34: As long as no key is evicted, the ready workers of a key together with the
    running spawns for it never exceed the target, so no worker is made in vain.  After
    [EnsureRefill] and until a worker of the key is acquired or a spawn fails, they are exactly the
    target, whatever happens to other keys; and when the running spawns have returned, the pool of
    the key is full. *)
Theorem warmpool_fills target p evs1 key dir evs2 : New target = Some p → forallb (negb ∘ evicts) evs1 = true → forallb (gentle key) evs2 = true →
  let s := warm_run (evs1 ++ EvEnsure key dir :: evs2) (warm_start p) in
  (∀ k, Size k (ws_pool s) + running k (ws_spawns s) ≤ target) ∧
  Size key (ws_pool s) + running key (ws_spawns s) = target ∧
  Size key (ws_pool (warm_run (replicate (length (ws_spawns s)) (EvSpawned 0 true)) s)) = target.
Proof.
  intros (Ht & <- & He)%New_ok H1 H2 s. destruct (counted_run evs1 (warm_start p) Ht H1 (counted_start p He)) as [C1 T1]. cbn in T1. set (s1 := warm_run evs1 (warm_start p)) in *. assert (0 ≤ wp_target (ws_pool s1)) as Ht1 by (by rewrite T1).
  destruct (ensure_counted s1 key dir Ht1 C1) as [C2 S2]. assert (full key (warm_do (EvEnsure key dir) s1)) as F2.
  { pose proof (C2 key) as Hk. unfold Size in S2. unfold full. rewrite warm_do_target. destruct (wp_pools (ws_pool (warm_do (EvEnsure key dir) s1)) !! key) as [st|] eqn:E; [exists st; split; [done|]; destruct Hk; lia|]. exfalso. revert E. destruct s1 as [q rf sp held closed served made]. cbn. unfold EnsureRefill. destruct (_ <=? 0); cbn; by rewrite lookup_insert_eq. }
  destruct (full_run key evs2 (warm_do (EvEnsure key dir) s1)) as (C3 & F3 & T3); [by rewrite warm_do_target|done|done|done|]. assert (s = warm_run evs2 (warm_do (EvEnsure key dir) s1)) as Hs by (unfold s; by rewrite warm_run_app). rewrite <- Hs in *. rewrite warm_do_target, T1 in T3. clearbody s. clear Hs F2 C2 S2.
  split; [|split; [by rewrite <- T3; apply full_size|]].
  - intros k. rewrite <- T3. pose proof (C3 k) as Hk. unfold Size. destruct (wp_pools (ws_pool s) !! k); [destruct Hk; lia|rewrite Hk, T3; lia].
  - destruct (full_run key (replicate (length (ws_spawns s)) (EvSpawned 0 true)) s) as (C4 & F4 & T4); [by rewrite T3|apply gentle_all|done|done|]. pose proof (full_size _ _ C4 F4) as H4. pose proof (drain_spawns s (length (ws_spawns s))) as Hd. rewrite Nat.sub_diag in Hd. apply nil_length_inv in Hd. rewrite Hd in H4. change (running key []) with 0 in H4. rewrite T4, T3 in H4. lia.
Qed.
Lemma warmpool_fills_witness : let s := warm_run [EvAcquire 1 "k" "/snap"; EvEnsure "k" ""; EvAcquire 2 "j" "/other"; EvSpawned 1 true; EvEnsure "j" ""] (warm_start (mkWarm 3 ∅)) in
  Size "k" (ws_pool s) = 1 ∧ length (ws_spawns s) = 5%nat ∧ Size "k" (ws_pool (warm_run (replicate (length (ws_spawns s)) (EvSpawned 0 true)) s)) = 3.
Proof.
  split; [by vm_compute|]. split; [by vm_compute|]. destruct (warmpool_fills 3 (mkWarm 3 ∅) [EvAcquire 1 "k" "/snap"] "k" "" [EvAcquire 2 "j" "/other"; EvSpawned 1 true; EvEnsure "j" ""] eq_refl eq_refl eq_refl) as (_ & _ & H). exact H.
Defined.

(** ** After an eviction *)
(** A spawn that outlives the eviction of its key lowers the counter of the new entry below the
    running spawns, here below zero, and then more of them run than the target allows. *)
Lemma evicted_spawn_miscounts : let s := warm_run [EvEnsure "k" "d"; EvPrune 0 1; EvEnsure "k" "d"; EvSpawned 0 true; EvSpawned 0 false] (warm_start (mkWarm 1 ∅)) in
  (ks_inflightRefills <$> wp_pools (ws_pool s) !! "k") = Some (-1) ∧ running "k" (ws_spawns (warm_run [EvAcquire 0 "k" ""; EvEnsure "k" ""] s)) = 2.
Proof. by vm_compute. Qed.
(** A key that no client has asked for yet is evicted by the first [Prune], however young it is. *)
Lemma prune_unused now maxAge p k st : 0 < maxAge → wp_pools p !! k = Some st → ks_lastUse st = None → wp_pools (Prune now maxAge p).1 !! k = None.
Proof.
  intros Ha Hk Hl. unfold Prune. destruct (maxAge <=? 0) eqn:E; [lia|]. cbn. apply map_lookup_filter_None. right. intros st' Hk'. rewrite Hk in Hk'. injection Hk' as <-. cbn. unfold stale, second. rewrite Hl. lia.
Qed.
