(* ===== verification/Ext4.v ===== *)
(** * Growing an ext4 image (src/internal/oci/oci.go, BuildExt4)

    A third-party converter writes the root file system into an image with as many blocks as
    it needs; the code then grows the file system in place to the size of the disk: first
    within the last block group, then by new groups.  The model works on the bytes of the image,
    and the theorem relates the image before and after by an independent reading of it:
    the superblock's counters, the group descriptors and the bits of the block bitmaps.

    [io] says at which offsets the host refuses an access.  The converter is a parameter. *)
From S2P Require Import Prelude Acpi Patch.

Definition ext4SuperblockOffset : Z := 1024.
Definition ext4InodesCountOffset : Z := ext4SuperblockOffset + 0x00.
Definition ext4BlocksCountLowOffset : Z := ext4SuperblockOffset + 0x04.
Definition ext4FreeBlocksCountLowOffset : Z := ext4SuperblockOffset + 0x0C.
Definition ext4FreeInodesCountOffset : Z := ext4SuperblockOffset + 0x10.
Definition ext4LogBlockSizeOffset : Z := ext4SuperblockOffset + 0x18.
Definition ext4BlocksPerGroupOffset : Z := ext4SuperblockOffset + 0x20.
Definition ext4InodesPerGroupOffset : Z := ext4SuperblockOffset + 0x28.
Definition ext4InodeSizeOffset : Z := ext4SuperblockOffset + 0x58.
Definition ext4FeatureRoCompatOffset : Z := ext4SuperblockOffset + 0x64.
Definition ext4RoCompatReadonly : Z := 0x1000.
Definition ext4GroupDescTableOffset : Z := 4096.
Definition ext4GroupDescSize : Z := 32.
Definition maxUint16 : Z := 0xFFFF.
Definition maxUint32 : Z := 0xFFFFFFFF.

Inductive ext4_err := IOFailed | UnexpectedEOF | NoBitmap | BadWindow | FreeOverflow | GroupTooSmall | FreeTooLarge | InodesTooLarge | ConvertFailed.

Record ext4Geometry := mkGeo { blockSize : Z; blocksPerGroup : Z; blocksCount : Z; freeBlocks : Z; inodesPerGroup : Z; inodesCount : Z; freeInodes : Z; inodeSize : Z }.

Definition clearBitmapBit (index : Z) (bitmap : list Z) : list Z :=
  match at_ bitmap (index / 8) with None => bitmap | Some b => <[Z.to_nat (index / 8) := b .&^ (1 .<< (index mod 8))]> bitmap end.
Definition setBitmapBit (index : Z) (bitmap : list Z) : list Z :=
  match at_ bitmap (index / 8) with None => bitmap | Some b => <[Z.to_nat (index / 8) := b .| (1 .<< (index mod 8))]> bitmap end.
Definition blocksToGroups (blocks perGroup : Z) : Z := if (blocks =? 0) || (perGroup =? 0) then 0 else u32 (u32 (blocks + perGroup) - 1) / perGroup.
Definition maxAddressableBlocks (maxDiskSize bs : Z) : Z :=
  if (bs =? 0) || (maxDiskSize <=? 0) then 0
  else if maxUint32 <? maxDiskSize / bs then maxUint32 else maxDiskSize / bs.
Definition minUint32 (a b : Z) : Z := if a <? b then a else b.

Section image.
Context (io : Z → bool).

Definition ReadAt (f : list Z) (off n : Z) : res ext4_err (list Z) :=
  if io off then Err IOFailed else match slice f off (off + n) with Some bs => Ok bs | None => Err UnexpectedEOF end.
Definition WriteAt (off : Z) (bs : list Z) (f : list Z) : res ext4_err (list Z) := if io off then Err IOFailed else Ok (writeAt f off bs).
Definition readUint32At (f : list Z) (off : Z) : res ext4_err Z := bs ← ReadAt f off 4; Ok (le_decode bs).
Definition readUint16At (f : list Z) (off : Z) : res ext4_err Z := bs ← ReadAt f off 2; Ok (le_decode bs).
Definition writeUint32At (off v : Z) (f : list Z) : res ext4_err (list Z) := WriteAt off (le_encode 4 v) f.
(** The chunks of 4096 bytes, [n] of them at most. *)
Fixpoint zero_chunks (n : nat) (off length : Z) (f : list Z) : res ext4_err (list Z) :=
  if 0 <? length then
    match n with
    | O => NoFuel
    | S n =>
        let c := if length <? 4096 then length else 4096 in
        f ← WriteAt off (replicate (Z.to_nat c) 0) f;
        zero_chunks n (off + c) (length - c) f
    end
  else Ok f.
Definition writeZeroRegion (off length : Z) (f : list Z) : res ext4_err (list Z) := zero_chunks (Z.to_nat ((length + 4095) / 4096)) off length f.

Definition clearReadonlyCompatFeature (f : list Z) : res ext4_err (list Z) :=
  features ← readUint32At f ext4FeatureRoCompatOffset;
  writeUint32At ext4FeatureRoCompatOffset (features .&^ ext4RoCompatReadonly) f.

Definition readExt4Geometry (f : list Z) : res ext4_err ext4Geometry :=
  logBlockSize ← readUint32At f ext4LogBlockSizeOffset;
  bpg ← readUint32At f ext4BlocksPerGroupOffset;
  blocks ← readUint32At f ext4BlocksCountLowOffset;
  free ← readUint32At f ext4FreeBlocksCountLowOffset;
  ipg ← readUint32At f ext4InodesPerGroupOffset;
  inodes ← readUint32At f ext4InodesCountOffset;
  freeI ← readUint32At f ext4FreeInodesCountOffset;
  isize ← readUint16At f ext4InodeSizeOffset;
  Ok (mkGeo (u32 (1024 .<< logBlockSize)) bpg blocks free ipg inodes freeI isize).

Definition growExistingLastGroup (geo : ext4Geometry) (group targetBlocks : Z) (f : list Z) : res ext4_err (list Z * Z) :=
  let lastDescOffset := ext4GroupDescTableOffset + u32 (group * ext4GroupDescSize) in
  desc ← ReadAt f lastDescOffset ext4GroupDescSize;
  bitmapBlock ← must (getLE 4 desc 0);
  if bitmapBlock =? 0 then Err NoBitmap
  else
    let bitmapOffset := bitmapBlock * blockSize geo in
    bitmap ← ReadAt f bitmapOffset (blockSize geo);
    let groupBase := u32 (group * blocksPerGroup geo) in
    let oldWithin := u32 (blocksCount geo - groupBase) in
    let targetWithin := u32 (targetBlocks - groupBase) in
    if (targetWithin <? oldWithin) || (blocksPerGroup geo <? targetWithin) then Err BadWindow
    else
      let bitmap := fold_left (fun bm b => clearBitmapBit b bm) (seqZ oldWithin (targetWithin - oldWithin)) bitmap in
      f ← WriteAt bitmapOffset bitmap f;
      let delta := targetWithin - oldWithin in
      groupFree ← must (getLE 2 desc 12);
      if maxUint16 <? u32 (groupFree + delta) then Err FreeOverflow
      else
        desc ← must (putLE 2 desc 12 (u32 (groupFree + delta)));
        f ← WriteAt lastDescOffset desc f;
        Ok (f, delta).

Definition group_bitmap (geo : ext4Geometry) (metaBlocks presentBlocks : Z) : list Z :=
  fold_left (fun bm b => setBitmapBit b bm) (seqZ presentBlocks (blocksPerGroup geo - presentBlocks))
    (fold_left (fun bm b => setBitmapBit b bm) (seqZ 0 metaBlocks) (replicate (Z.to_nat (blockSize geo)) 0)).
Definition group_desc (geo : ext4Geometry) (groupStart free : Z) : option (list Z) :=
  desc ← putLE 4 (replicate 32 0) 0 groupStart;
  desc ← putLE 4 desc 4 (u32 (groupStart + 1));
  desc ← putLE 4 desc 8 (u32 (groupStart + 2));
  desc ← putLE 2 desc 12 free;
  desc ← putLE 2 desc 14 (inodesPerGroup geo);
  putLE 2 desc 28 (inodesPerGroup geo).

Definition addGroup (geo : ext4Geometry) (targetBlocks targetGroups group : Z) (st : list Z * Z * Z) : res ext4_err (list Z * Z * Z) :=
  let '(f, addedFreeBlocks, addedInodes) := st in
  let inodeTableBlocks := u32 (inodesPerGroup geo * inodeSize geo) / blockSize geo in
  let metaBlocks := u32 (2 + inodeTableBlocks) in
  let groupStart := u32 (group * blocksPerGroup geo) in
  let presentBlocks :=
    if (group =? u32 (targetGroups - 1)) && negb (targetBlocks mod blocksPerGroup geo =? 0) then u32 (targetBlocks - groupStart) else blocksPerGroup geo in
  if presentBlocks <? metaBlocks then Err GroupTooSmall
  else
    let bs := blockSize geo in
    f ← writeZeroRegion (u32 (groupStart + 1) * bs) bs f;
    f ← writeZeroRegion (u32 (groupStart + 2) * bs) (inodeTableBlocks * bs) f;
    f ← WriteAt (groupStart * bs) (group_bitmap geo metaBlocks presentBlocks) f;
    let free := presentBlocks - metaBlocks in
    if maxUint16 <? free then Err FreeTooLarge
    else if maxUint16 <? inodesPerGroup geo then Err InodesTooLarge
    else
      desc ← must (group_desc geo groupStart free);
      f ← WriteAt (ext4GroupDescTableOffset + u32 (group * ext4GroupDescSize)) desc f;
      Ok (f, u32 (addedFreeBlocks + free), u32 (addedInodes + inodesPerGroup geo)).
Definition addExt4Groups (geo : ext4Geometry) (targetBlocks : Z) (f : list Z) : res ext4_err (list Z * Z * Z) :=
  let currentGroups := blocksToGroups (blocksCount geo) (blocksPerGroup geo) in
  let targetGroups := blocksToGroups targetBlocks (blocksPerGroup geo) in
  if targetGroups <=? currentGroups then Ok (f, 0, 0)
  else for_each (addGroup geo targetBlocks targetGroups) (seqZ currentGroups (targetGroups - currentGroups)) (f, 0, 0).

Definition write_geometry (geo : ext4Geometry) (f : list Z) : res ext4_err (list Z) :=
  f ← writeUint32At ext4BlocksCountLowOffset (blocksCount geo) f;
  f ← writeUint32At ext4FreeBlocksCountLowOffset (freeBlocks geo) f;
  f ← writeUint32At ext4InodesCountOffset (inodesCount geo) f;
  writeUint32At ext4FreeInodesCountOffset (freeInodes geo) f.
Definition expandExt4WithinGroups (maxDiskSize : Z) (f : list Z) : res ext4_err (list Z) :=
  geo ← readExt4Geometry f;
  if (blockSize geo =? 0) || (blocksPerGroup geo =? 0) || (blocksCount geo =? 0) then Ok f
  else
    let maxBlocks := maxAddressableBlocks maxDiskSize (blockSize geo) in
    let groupCount := blocksToGroups (blocksCount geo) (blocksPerGroup geo) in
    let groupCapacity := u32 (groupCount * blocksPerGroup geo) in
    let targetBlocks := minUint32 maxBlocks groupCapacity in
    '(f, geo) ←
      (if blocksCount geo <? targetBlocks then
         '(f, delta) ← growExistingLastGroup geo (u32 (groupCount - 1)) targetBlocks f;
         Ok (f, mkGeo (blockSize geo) (blocksPerGroup geo) (u32 (blocksCount geo + delta)) (u32 (freeBlocks geo + delta)) (inodesPerGroup geo) (inodesCount geo) (freeInodes geo) (inodeSize geo))
       else Ok (f, geo));
    '(f, geo) ←
      (if blocksCount geo <? maxBlocks then
         '(f, addedFreeBlocks, addedInodes) ← addExt4Groups geo maxBlocks f;
         Ok (f, mkGeo (blockSize geo) (blocksPerGroup geo) maxBlocks (u32 (freeBlocks geo + addedFreeBlocks)) (inodesPerGroup geo) (u32 (inodesCount geo + addedInodes)) (u32 (freeInodes geo + addedInodes)) (inodeSize geo))
       else Ok (f, geo));
    write_geometry geo f.

(** What follows the conversion. *)
Definition finish_image (maxDiskSize : Z) (f : list Z) : res ext4_err (list Z) := f ← clearReadonlyCompatFeature f; expandExt4WithinGroups maxDiskSize f.
(** [f.Truncate(n)] *)
Definition Truncate (n : Z) (f : list Z) : list Z := take (Z.to_nat n) f ++ replicate (Z.to_nat n - length f) 0.
Definition BuildExt4 (convert : list Z → option (list Z)) (sizeMB : Z) : res ext4_err (list Z) :=
  let maxDiskSize := i64 (i64 (sizeMB * 1024) * 1024) in
  if maxDiskSize <? 0 then Err IOFailed
  else
    match convert (Truncate maxDiskSize []) with
    | None => Err ConvertFailed
    | Some f =>
        f ← finish_image maxDiskSize f;
        Ok (Truncate maxDiskSize f)
    end.
End image.

(** ** Reading an image *)
(** Bit [i] of a bitmap; a bit that the bitmap has not is in use. *)
Definition bit8 (bm : list Z) (i : Z) : bool := match at_ bm (i / 8) with Some b => Z.testbit b (i mod 8) | None => true end.
Definition free_bits (bm : list Z) (n : Z) : Z := zlen (filter (fun i => bit8 bm i = false) (seqZ 0 n)).

Lemma bit8_put bm p q b b' : at_ bm (p / 8) = Some b → 0 ≤ p → 0 ≤ q → (∀ j, 0 ≤ j < 8 → j ≠ p mod 8 → Z.testbit b' j = Z.testbit b j) →
  bit8 (<[Z.to_nat (p / 8) := b']> bm) q = if q =? p then Z.testbit b' (p mod 8) else bit8 bm q.
Proof.
  intros Hb Hp Hq Hj. apply at_bound in Hb as Hr. apply at_Some in Hb as [H0 Hl]. pose proof (Z.div_pos q 8 Hq ltac:(lia)) as Hq8. unfold bit8, at_. rewrite (proj2 (Z.leb_le 0 (q / 8)) Hq8). pose proof (Z.mod_pos_bound q 8 ltac:(lia)). pose proof (Z.div_mod q 8 ltac:(lia)). pose proof (Z.div_mod p 8 ltac:(lia)).
  destruct (Z.eqb_spec q p) as [->|Hne]; [rewrite list_lookup_insert_eq by (apply lookup_lt_Some in Hl; lia); done|]. destruct (decide (Z.to_nat (p / 8) = Z.to_nat (q / 8))) as [He|He]; [|by rewrite list_lookup_insert_ne].
  rewrite <- He, list_lookup_insert_eq by (apply lookup_lt_Some in Hl; lia). rewrite Hl. apply Hj; [done|]. lia.
Qed.
Lemma bit8_clear bm p q : 0 ≤ p < 8 * zlen bm → 0 ≤ q → bit8 (clearBitmapBit p bm) q = bit8 bm q && negb (q =? p).
Proof.
  intros Hp Hq. unfold clearBitmapBit. destruct (at_ok bm (p / 8)) as [b Hb]; [split; [apply Z.div_pos; lia|apply Z.div_lt_upper_bound; lia]|]. rewrite Hb. pose proof (Z.mod_pos_bound p 8 ltac:(lia)).
  rewrite (bit8_put bm p q b); [|done|lia|done|]. { destruct (Z.eqb_spec q p) as [->|]; [|cbn [negb]; by rewrite andb_true_r]. rewrite Z.ldiff_spec, Z.shiftl_spec, Z.sub_diag by lia. cbn. by rewrite !andb_false_r. }
  intros j Hj Hne. rewrite Z.ldiff_spec, Z.shiftl_spec by lia. change 1 with (2 ^ 0). rewrite Z.pow2_bits_false by lia. apply andb_true_r.
Qed.
Lemma bit8_set bm p q : 0 ≤ p < 8 * zlen bm → 0 ≤ q → bit8 (setBitmapBit p bm) q = bit8 bm q || (q =? p).
Proof.
  intros Hp Hq. unfold setBitmapBit. destruct (at_ok bm (p / 8)) as [b Hb]; [split; [apply Z.div_pos; lia|apply Z.div_lt_upper_bound; lia]|]. rewrite Hb. pose proof (Z.mod_pos_bound p 8 ltac:(lia)).
  rewrite (bit8_put bm p q b); [|done|lia|done|]. { destruct (Z.eqb_spec q p) as [->|]; [|by rewrite orb_false_r]. rewrite Z.lor_spec, Z.shiftl_spec, Z.sub_diag by lia. cbn. by rewrite !orb_true_r. }
  intros j Hj Hne. rewrite Z.lor_spec, Z.shiftl_spec by lia. change 1 with (2 ^ 0). rewrite Z.pow2_bits_false by lia. apply orb_false_r.
Qed.
Lemma zlen_clear p bm : zlen (clearBitmapBit p bm) = zlen bm.
Proof. unfold clearBitmapBit, zlen. case_match; [by rewrite length_insert|done]. Qed.
Lemma zlen_set p bm : zlen (setBitmapBit p bm) = zlen bm.
Proof. unfold setBitmapBit, zlen. case_match; [by rewrite length_insert|done]. Qed.
Lemma clear_range n : ∀ a bm, 0 ≤ a → a + Z.of_nat n ≤ 8 * zlen bm → let bm' := fold_left (fun bm b => clearBitmapBit b bm) (seqZ a (Z.of_nat n)) bm in
  zlen bm' = zlen bm ∧ ∀ q, 0 ≤ q → bit8 bm' q = bit8 bm q && negb ((a <=? q) && (q <? a + Z.of_nat n)).
Proof.
  induction n as [|n IH]; intros a bm Ha Hn; cbn zeta.
  - rewrite (seqZ_nil a (Z.of_nat 0)) by done. cbn [fold_left]. split; [done|]. intros q Hq. destruct (Z.leb_spec a q), (Z.ltb_spec q (a + Z.of_nat 0)); try lia; by destruct (bit8 bm q).
  - rewrite (seqZ_cons a (Z.of_nat (S n))) by lia. replace (Z.pred (Z.of_nat (S n))) with (Z.of_nat n) by lia. cbn [fold_left]. destruct (IH (Z.succ a) (clearBitmapBit a bm)) as [L H]; [lia|rewrite zlen_clear; lia|]. split; [by rewrite L, zlen_clear|].
    intros q Hq. rewrite H, bit8_clear by lia. rewrite <- andb_assoc. f_equal. destruct (Z.eqb_spec q a), (Z.leb_spec (Z.succ a) q), (Z.leb_spec a q), (Z.ltb_spec q (Z.succ a + Z.of_nat n)), (Z.ltb_spec q (a + Z.of_nat (S n))); try lia; done.
Qed.
Lemma set_range n : ∀ a bm, 0 ≤ a → a + Z.of_nat n ≤ 8 * zlen bm → let bm' := fold_left (fun bm b => setBitmapBit b bm) (seqZ a (Z.of_nat n)) bm in
  zlen bm' = zlen bm ∧ ∀ q, 0 ≤ q → bit8 bm' q = bit8 bm q || ((a <=? q) && (q <? a + Z.of_nat n)).
Proof.
  induction n as [|n IH]; intros a bm Ha Hn; cbn zeta.
  - rewrite (seqZ_nil a (Z.of_nat 0)) by done. cbn [fold_left]. split; [done|]. intros q Hq. destruct (Z.leb_spec a q), (Z.ltb_spec q (a + Z.of_nat 0)); try lia; by destruct (bit8 bm q).
  - rewrite (seqZ_cons a (Z.of_nat (S n))) by lia. replace (Z.pred (Z.of_nat (S n))) with (Z.of_nat n) by lia. cbn [fold_left]. destruct (IH (Z.succ a) (setBitmapBit a bm)) as [L H]; [lia|rewrite zlen_set; lia|]. split; [by rewrite L, zlen_set|].
    intros q Hq. rewrite H, bit8_set by lia. rewrite <- orb_assoc. f_equal. destruct (Z.eqb_spec q a), (Z.leb_spec (Z.succ a) q), (Z.leb_spec a q), (Z.ltb_spec q (Z.succ a + Z.of_nat n)), (Z.ltb_spec q (a + Z.of_nat (S n))); try lia; done.
Qed.
Definition free_in (bm : list Z) (a n : Z) : Z := zlen (filter (fun i => bit8 bm i = false) (seqZ a n)).
Lemma free_in_split bm a n m : 0 ≤ n → 0 ≤ m → free_in bm a (n + m) = free_in bm a n + free_in bm (a + n) m.
Proof. intros Hn Hm. unfold free_in. by rewrite seqZ_app, filter_app, zlen_app. Qed.
Lemma free_in_ext bm bm' a n : (∀ q, a ≤ q < a + n → bit8 bm' q = bit8 bm q) → free_in bm' a n = free_in bm a n.
Proof.
  intros H. unfold free_in. f_equal. assert (∀ l : list Z, (∀ q, q ∈ l → bit8 bm' q = bit8 bm q) → filter (fun i => bit8 bm' i = false) l = filter (fun i => bit8 bm i = false) l) as Hl; [|apply Hl; intros q Hq; apply elem_of_seqZ in Hq; apply H; lia].
  induction l as [|x l IH]; intros Hx; [done|]. rewrite !filter_cons, IH by (intros q Hq; apply Hx; by right). rewrite (Hx x) by left. done.
Qed.
Lemma free_in_all bm a n : 0 ≤ n → (∀ q, a ≤ q < a + n → bit8 bm q = false) → free_in bm a n = n.
Proof. intros Hn H. unfold free_in. rewrite filter_all; [unfold zlen; rewrite length_seqZ; lia|]. intros q Hq. apply elem_of_seqZ in Hq. apply H. lia. Qed.
Lemma free_in_none bm a n : (∀ q, a ≤ q < a + n → bit8 bm q = true) → free_in bm a n = 0.
Proof. intros H. unfold free_in. rewrite filter_none; [done|]. intros q Hq. apply elem_of_seqZ in Hq. rewrite H by lia. done. Qed.
(** Clearing bits that were in use frees as many blocks. *)
Lemma free_clear bm o t n : 0 ≤ o ≤ t → t ≤ n → n ≤ 8 * zlen bm → (∀ q, o ≤ q < t → bit8 bm q = true) → let bm' := fold_left (fun bm b => clearBitmapBit b bm) (seqZ o (t - o)) bm in
  zlen bm' = zlen bm ∧ free_bits bm' n = free_bits bm n + (t - o) ∧ ∀ q, 0 ≤ q → t ≤ q → bit8 bm' q = bit8 bm q.
Proof.
  intros Ho Ht Hn Hs. destruct (clear_range (Z.to_nat (t - o)) o bm) as [L H]; [lia|lia|]. rewrite Z2Nat.id in L, H by lia. cbn zeta. set (bm' := fold_left _ _ _) in *. clearbody bm'. split; [done|]. replace (o + (t - o)) with t in H by lia.
  change (free_bits bm' n) with (free_in bm' 0 n). change (free_bits bm n) with (free_in bm 0 n). replace n with (o + ((t - o) + (n - t))) by lia. rewrite !(free_in_split _ 0 o), !(free_in_split _ (0 + o) (t - o)) by lia. replace (0 + o + (t - o)) with t by lia. rewrite Z.add_0_l.
  split.
  - assert (free_in bm' 0 o = free_in bm 0 o) as -> by (apply free_in_ext; intros q Hq; rewrite H by lia; destruct (Z.leb_spec o q), (Z.ltb_spec q t); try lia; by destruct (bit8 bm q)).
    assert (free_in bm' t (n - t) = free_in bm t (n - t)) as -> by (apply free_in_ext; intros q Hq; rewrite H by lia; destruct (Z.leb_spec o q), (Z.ltb_spec q t); try lia; by destruct (bit8 bm q)).
    assert (free_in bm' o (t - o) = t - o) as -> by (apply free_in_all; [lia|]; intros q Hq; rewrite H by lia; destruct (Z.leb_spec o q), (Z.ltb_spec q t); try lia; by destruct (bit8 bm q)).
    rewrite (free_in_none bm o); [lia|]. intros q Hq. apply Hs. lia.
  - intros q Hq Hqt. rewrite H by lia. destruct (Z.leb_spec o q), (Z.ltb_spec q t); try lia. by destruct (bit8 bm q).
Qed.
Lemma bit8_zero n q : 0 ≤ q → q < 8 * n → bit8 (replicate (Z.to_nat n) 0) q = false.
Proof. intros Hq Hn. unfold bit8, at_. rewrite (proj2 (Z.leb_le 0 (q / 8))) by (apply Z.div_pos; lia). rewrite lookup_replicate_2; [by rewrite Z.bits_0|]. pose proof (Z.div_pos q 8 Hq ltac:(lia)). pose proof (Z.div_lt_upper_bound q 8 n ltac:(lia) ltac:(lia)). lia. Qed.
(** The bitmap of a new group: its own tables are in use, and so is what the disk has not. *)
Lemma group_bitmap_ok geo m p : 0 ≤ m ≤ p → p ≤ blocksPerGroup geo → blocksPerGroup geo ≤ 8 * blockSize geo →
  zlen (group_bitmap geo m p) = blockSize geo ∧ free_bits (group_bitmap geo m p) (blocksPerGroup geo) = p - m ∧ ∀ q, p ≤ q < blocksPerGroup geo → bit8 (group_bitmap geo m p) q = true.
Proof.
  intros Hm Hp Hb. unfold group_bitmap. set (z := replicate (Z.to_nat (blockSize geo)) 0). assert (zlen z = blockSize geo) as Hz by (unfold zlen, z; rewrite length_replicate; lia).
  destruct (set_range (Z.to_nat m) 0 z) as [L1 H1]; [lia|lia|]. rewrite Z2Nat.id in L1, H1 by lia. set (b1 := fold_left _ (seqZ 0 m) z) in *. destruct (set_range (Z.to_nat (blocksPerGroup geo - p)) p b1) as [L2 H2]; [lia|lia|]. rewrite Z2Nat.id in L2, H2 by lia. set (b2 := fold_left _ (seqZ p (blocksPerGroup geo - p)) b1) in *. replace (p + (blocksPerGroup geo - p)) with (blocksPerGroup geo) in H2 by lia.
  assert (∀ q, 0 ≤ q < blocksPerGroup geo → bit8 b2 q = ((q <? m) || (p <=? q))) as Hbits. { intros q Hq. rewrite H2, H1 by lia. unfold z. rewrite bit8_zero by lia. destruct (Z.leb_spec 0 q), (Z.ltb_spec q (0 + m)), (Z.ltb_spec q m), (Z.leb_spec p q), (Z.ltb_spec q (blocksPerGroup geo)); try lia; done. }
  clearbody b2. split; [by rewrite L2, L1|]. split; [|intros q Hq; rewrite Hbits by lia; destruct (Z.ltb_spec q m), (Z.leb_spec p q); try lia; done].
  change (free_bits b2 (blocksPerGroup geo)) with (free_in b2 0 (blocksPerGroup geo)). replace (blocksPerGroup geo) with (m + ((p - m) + (blocksPerGroup geo - p))) by lia. rewrite !(free_in_split _ 0 m), !(free_in_split _ (0 + m) (p - m)) by lia. replace (0 + m + (p - m)) with p by lia. rewrite Z.add_0_l.
  rewrite (free_in_none b2 0), (free_in_all b2 m), (free_in_none b2 p); [lia|..]; try lia; intros q Hq; rewrite Hbits by lia; destruct (Z.ltb_spec q m), (Z.leb_spec p q); try lia; done.
Qed.

(** ** Groups *)
Abbreviation quiet := (fun _ : Z => false).
Definition desc_off (g : Z) : Z := 4096 + 32 * g.
(** The sum of a 16-bit field of the first [n] descriptors. *)
Definition total (f : list Z) (field n : Z) : Z := foldr (fun g acc => default 0 (getLE 2 f (desc_off g + field)) + acc) 0 (seqZ 0 n).
(** A group of [bpg] blocks of [bs] bytes: its bitmap lies above the descriptors of [G] groups and below block [lim],
    its descriptor counts the clear bits, and the bits of blocks that are not [present] are set. *)
Record group_ok (f : list Z) (bs bpg G lim present g : Z) : Prop := mkGroupOk {
  gr_bitmap : ∃ bb bm, getLE 4 f (desc_off g) = Some bb ∧ desc_off G ≤ bb * bs ∧ bb * bs + bs ≤ lim * bs ∧ slice f (bb * bs) (bb * bs + bs) = Some bm ∧
    getLE 2 f (desc_off g + 12) = Some (free_bits bm bpg) ∧ ∀ q, present ≤ q < bpg → bit8 bm q = true
}.
Record groups_ok (f : list Z) (bs bpg G blocks n frees inodes : Z) : Prop := mkGroupsOk {
  go_group : ∀ g, 0 ≤ g < n → group_ok f bs bpg G (n * bpg) (Z.min bpg (blocks - g * bpg)) g;
  go_free : total f 12 n = frees;
  go_inodes : total f 14 n = inodes
}.

Lemma total_snoc f field n : 0 ≤ n → total f field (n + 1) = total f field n + default 0 (getLE 2 f (desc_off n + field)).
Proof.
  intros Hn. unfold total. rewrite (seqZ_app 0 n 1) by lia. rewrite foldr_app. change (seqZ (0 + n) 1) with [0 + n]. rewrite Z.add_0_l. cbn [foldr]. generalize (default 0 (getLE 2 f (desc_off n + field))). intros v. generalize (seqZ 0 n). intros l. induction l as [|x l IH]; cbn [foldr]; lia.
Qed.
Lemma total_last f field n : 0 < n → total f field n = total f field (n - 1) + default 0 (getLE 2 f (desc_off (n - 1) + field)).
Proof. intros Hn. rewrite <- total_snoc by lia. f_equal. lia. Qed.
Lemma total_ext f f' field n : (∀ g, 0 ≤ g < n → getLE 2 f' (desc_off g + field) = getLE 2 f (desc_off g + field)) → total f' field n = total f field n.
Proof.
  intros H. unfold total. assert (∀ l : list Z, (∀ g, g ∈ l → 0 ≤ g < n) → foldr (fun g acc => default 0 (getLE 2 f' (desc_off g + field)) + acc) 0 l = foldr (fun g acc => default 0 (getLE 2 f (desc_off g + field)) + acc) 0 l) as Hl; [|apply Hl; intros g Hg; apply elem_of_seqZ in Hg; lia].
  induction l as [|g l IH]; intros Hg; [done|]. cbn [foldr]. rewrite IH by (intros x Hx; apply Hg; by right). rewrite H; [done|]. apply Hg. left.
Qed.
Lemma getLE_slice n f f' a lo hi : lo ≤ a → a + Z.of_nat n ≤ hi → slice f' lo hi = slice f lo hi → 0 ≤ lo → hi ≤ zlen f → zlen f' = zlen f → getLE n f' a = getLE n f a.
Proof.
  intros Ha Hn Hs H0 Hh Hl. unfold getLE. f_equal. destruct (slice_ok f lo hi) as [r Hr]; [lia|done|]. rewrite Hr in Hs. apply slice_Some in Hr as Hr'. apply slice_Some in Hs as Hs'. unfold slice. rewrite Hl. destruct ((0 <=? a) && (a <=? a + Z.of_nat n) && (a + Z.of_nat n <=? zlen f)); [|done]. f_equal.
  assert (∀ l : list Z, take (Z.to_nat (a + Z.of_nat n - a)) (drop (Z.to_nat a) l) = take (Z.to_nat (a + Z.of_nat n - a)) (drop (Z.to_nat (a - lo)) (take (Z.to_nat (hi - lo)) (drop (Z.to_nat lo) l)))) as Hcut.
  { intros l. rewrite skipn_firstn_comm, drop_drop, take_take. f_equal; [lia|]. f_equal. lia. }
  rewrite (Hcut f'), (Hcut f). destruct Hr' as [_ <-], Hs' as [_ <-]. done.
Qed.
(** What a group needs of the file. *)
Lemma group_keep f f' bs bpg G lim present g : 0 ≤ g < G → desc_off G ≤ zlen f → zlen f' = zlen f → slice f' (desc_off g) (desc_off g + 32) = slice f (desc_off g) (desc_off g + 32) →
  (∀ bb, getLE 4 f (desc_off g) = Some bb → desc_off G ≤ bb * bs → bb * bs + bs ≤ lim * bs → slice f' (bb * bs) (bb * bs + bs) = slice f (bb * bs) (bb * bs + bs)) →
  group_ok f bs bpg G lim present g → group_ok f' bs bpg G lim present g.
Proof.
  intros Hg HG Hl Hd Hb [(bb & bm & H1 & H2 & H3 & H4 & H5 & H6)]. split. exists bb, bm. rewrite (Hb bb) by done. unfold desc_off in *.
  rewrite (getLE_slice 4 f f' _ (4096 + 32 * g) (4096 + 32 * g + 32)), (getLE_slice 2 f f' _ (4096 + 32 * g) (4096 + 32 * g + 32)) by (done || lia). done.
Qed.
Lemma group_mono f bs bpg G lim lim' present g : 0 ≤ bs → lim ≤ lim' → group_ok f bs bpg G lim present g → group_ok f bs bpg G lim' present g.
Proof. intros Hbs Hl [(bb & bm & H1 & H2 & H3 & H4)]. split. exists bb, bm. split; [done|]. split; [done|]. split; [nia|done]. Qed.

(** ** Writing *)
Lemma WriteAt_ok off bs f : 0 ≤ off → off + zlen bs ≤ zlen f → ∃ f', WriteAt quiet off bs f = Ok f' ∧ splice f off bs = Some f' ∧ zlen f' = zlen f.
Proof. intros H0 H1. exists (writeAt f off bs). pose proof (writeAt_splice f off bs H0 H1) as E. split; [done|]. split; [done|]. by eapply splice_len. Qed.
Lemma zlen_zeros n : 0 ≤ n → zlen (replicate (Z.to_nat n) (0 : Z)) = n.
Proof. intros H. unfold zlen. rewrite length_replicate. lia. Qed.
Lemma zero_chunks_ok n : ∀ off len f, 0 ≤ off → 0 ≤ len → len ≤ 4096 * Z.of_nat n → off + len ≤ zlen f → ∃ f', zero_chunks quiet n off len f = Ok f' ∧ splice f off (replicate (Z.to_nat len) 0) = Some f'.
Proof.
  induction n as [|n IH]; intros off len f Ho Hl Hn Hf; cbn [zero_chunks]; destruct (Z.ltb_spec 0 len) as [Hp|Hp]; try lia.
  1, 3: replace len with 0 by lia; exists f; split; [done|]; change (replicate (Z.to_nat 0) 0) with (@nil Z); apply splice_Some; change (zlen (@nil Z)) with 0; split; [lia|]; cbn [app length]; rewrite Nat.add_0_r; by rewrite take_drop.
  set (c := if len <? 4096 then len else 4096). assert (0 < c ≤ len ∧ c ≤ 4096 ∧ (len - c ≤ 0 ∨ c = 4096)) as (C1 & C2 & C3) by (unfold c; destruct (Z.ltb_spec len 4096); lia). clearbody c.
  destruct (WriteAt_ok off (replicate (Z.to_nat c) 0) f) as (f1 & E1 & S1 & L1); [lia|rewrite zlen_zeros; lia|]. rewrite E1. cbn [mbind res_bind]. destruct (IH (off + c) (len - c) f1) as (f2 & E2 & S2); [lia|lia|lia|lia|]. exists f2. split; [done|].
  replace (Z.to_nat len) with (Z.to_nat c + Z.to_nat (len - c))%nat by lia. rewrite replicate_add. eapply splice_app; [exact S1|]. by rewrite zlen_zeros by lia.
Qed.
Lemma writeZeroRegion_ok off len f : 0 ≤ off → 0 ≤ len → off + len ≤ zlen f → ∃ f', writeZeroRegion quiet off len f = Ok f' ∧ splice f off (replicate (Z.to_nat len) 0) = Some f' ∧ zlen f' = zlen f.
Proof.
  intros Ho Hl Hf. unfold writeZeroRegion. assert (0 ≤ (len + 4095) / 4096) by (apply Z.div_pos; lia). pose proof (Z.div_mod (len + 4095) 4096 ltac:(lia)). pose proof (Z.mod_pos_bound (len + 4095) 4096 ltac:(lia)).
  destruct (zero_chunks_ok (Z.to_nat ((len + 4095) / 4096)) off len f) as (f' & E & S); [lia|lia|lia|lia|]. exists f'. split; [done|]. split; [done|]. by eapply splice_len.
Qed.

(** ** Adding a group *)
Definition metaBlocks (geo : ext4Geometry) : Z := 2 + inodesPerGroup geo * inodeSize geo / blockSize geo.
(** [G] groups of this geometry can be described and addressed. *)
Record sane (geo : ext4Geometry) (G : Z) : Prop := mkSane {
  sa_bs : 1024 ≤ blockSize geo < 2 ^ 32;
  sa_bpg : 0 < blocksPerGroup geo ≤ maxUint16 ∧ blocksPerGroup geo ≤ 8 * blockSize geo;
  sa_inodes : 0 ≤ inodesPerGroup geo ≤ maxUint16 ∧ 0 ≤ inodeSize geo ≤ maxUint16;
  sa_groups : 0 < G ∧ 32 * G < 2 ^ 32 ∧ G * blocksPerGroup geo + blocksPerGroup geo < 2 ^ 32;
  sa_meta : metaBlocks geo ≤ blocksPerGroup geo
}.
Lemma meta_ok geo G : sane geo G → 2 ≤ metaBlocks geo ∧ u32 (inodesPerGroup geo * inodeSize geo) / blockSize geo = metaBlocks geo - 2 ∧ u32 (2 + (metaBlocks geo - 2)) = metaBlocks geo.
Proof.
  intros [H1 [H2 H2'] [H3 H4] H5 H6]. unfold maxUint16 in *. assert (0 ≤ inodesPerGroup geo * inodeSize geo < 2 ^ 32) as Hp by nia. rewrite (u32_small (inodesPerGroup geo * inodeSize geo)) by done. assert (0 ≤ inodesPerGroup geo * inodeSize geo / blockSize geo) by (apply Z.div_pos; lia).
  unfold metaBlocks in *. rewrite u32_small by lia. lia.
Qed.
Lemma group_desc_ok geo gs free : 0 ≤ gs < 2 ^ 32 → 0 ≤ free ≤ maxUint16 → 0 ≤ inodesPerGroup geo ≤ maxUint16 →
  ∃ desc, group_desc geo gs free = Some desc ∧ zlen desc = 32 ∧ getLE 4 desc 0 = Some gs ∧ getLE 2 desc 12 = Some free ∧ getLE 2 desc 14 = Some (inodesPerGroup geo).
Proof.
  intros Hg Hf Hi. unfold group_desc, maxUint16 in *. destruct (putLE_ok 4 (replicate 32 0) 0 gs) as [d1 E1]; [done|done|]. rewrite E1. cbn [mbind option_bind]. pose proof (putLE_len _ _ _ _ _ E1) as L1. change (zlen (replicate 32 0)) with 32 in L1.
  destruct (putLE_ok 4 d1 4 (u32 (gs + 1))) as [d2 E2]; [done|lia|]. rewrite E2. cbn [mbind option_bind]. pose proof (putLE_len _ _ _ _ _ E2) as L2. destruct (putLE_ok 4 d2 8 (u32 (gs + 2))) as [d3 E3]; [done|lia|]. rewrite E3. cbn [mbind option_bind]. pose proof (putLE_len _ _ _ _ _ E3) as L3.
  destruct (putLE_ok 2 d3 12 free) as [d4 E4]; [done|lia|]. rewrite E4. cbn [mbind option_bind]. pose proof (putLE_len _ _ _ _ _ E4) as L4. destruct (putLE_ok 2 d4 14 (inodesPerGroup geo)) as [d5 E5]; [done|lia|]. rewrite E5. cbn [mbind option_bind]. pose proof (putLE_len _ _ _ _ _ E5) as L5.
  destruct (putLE_ok 2 d5 28 (inodesPerGroup geo)) as [d6 E6]; [done|lia|]. pose proof (putLE_len _ _ _ _ _ E6) as L6. exists d6. split; [done|]. split; [lia|].
  rewrite !(getLE_putLE_frame _ 2 d5 28 _ d6 _ E6) by lia. rewrite (getLE_putLE_frame 4 2 d4 14 _ d5 0 E5), (getLE_putLE_frame 2 2 d4 14 _ d5 12 E5), (getLE_putLE_frame 4 2 d3 12 _ d4 0 E4), (getLE_putLE_frame 4 4 d2 8 _ d3 0 E3), (getLE_putLE_frame 4 4 d1 4 _ d2 0 E2) by lia.
  split; [by apply (getLE_putLE_same _ _ _ _ _ E1); lia|]. split; [apply (getLE_putLE_same _ _ _ _ _ E4); lia|apply (getLE_putLE_same _ _ _ _ _ E5); lia].
Qed.
(** The descriptors of a file agree with another's when the table does. *)
Lemma groups_keep f f' bs bpg G blocks n frees inodes : 0 ≤ n ≤ G → desc_off G ≤ zlen f → zlen f' = zlen f → (∀ g, 0 ≤ g < n → slice f' (desc_off g) (desc_off g + 32) = slice f (desc_off g) (desc_off g + 32)) →
  (∀ lo, desc_off G ≤ lo → lo + bs ≤ n * bpg * bs → slice f' lo (lo + bs) = slice f lo (lo + bs)) → groups_ok f bs bpg G blocks n frees inodes → groups_ok f' bs bpg G blocks n frees inodes.
Proof.
  intros Hn HG Hl Hd Hb [H1 H2 H3]. assert (∀ g k, 0 ≤ g < n → 0 ≤ k → k + 2 ≤ 32 → getLE 2 f' (desc_off g + k) = getLE 2 f (desc_off g + k)) as Hg. { intros g k Hg Hk1 Hk2. unfold desc_off in *. apply (getLE_slice 2 f f' _ (4096 + 32 * g) (4096 + 32 * g + 32)); [lia|lia|by apply Hd|lia|lia|done]. }
  split; [|rewrite <- H2; apply total_ext; intros g Hg'; apply Hg; lia|rewrite <- H3; apply total_ext; intros g Hg'; apply Hg; lia]. intros g Hg'. eapply group_keep; [|exact HG|done|by apply Hd| |by apply H1]; [lia|]. intros bb _ B1 B2. apply Hb; lia.
Qed.
Definition presentBlocks (geo : ext4Geometry) (tb G g : Z) : Z := if (g =? G - 1) && negb (tb mod blocksPerGroup geo =? 0) then tb - g * blocksPerGroup geo else blocksPerGroup geo.
(** The four writes of a new group. *)
Lemma addGroup_writes geo tb G g f fr ino : let bs := blockSize geo in let gs := g * blocksPerGroup geo in let p := presentBlocks geo tb G g in
  sane geo G → 0 ≤ g < G → metaBlocks geo ≤ p ≤ blocksPerGroup geo → 0 ≤ tb → desc_off G ≤ gs * bs → (gs + p) * bs ≤ zlen f →
  ∃ f1 f2 f3 f' desc, splice f ((gs + 1) * bs) (replicate (Z.to_nat bs) 0) = Some f1 ∧ splice f1 ((gs + 2) * bs) (replicate (Z.to_nat ((metaBlocks geo - 2) * bs)) 0) = Some f2 ∧
    splice f2 (gs * bs) (group_bitmap geo (metaBlocks geo) p) = Some f3 ∧ splice f3 (desc_off g) desc = Some f' ∧ group_desc geo gs (p - metaBlocks geo) = Some desc ∧
    addGroup quiet geo tb G g (f, fr, ino) = Ok (f', u32 (fr + (p - metaBlocks geo)), u32 (ino + inodesPerGroup geo)).
Proof.
  intros bs gs p Hs Hg Hp Htb HG Hf. destruct (meta_ok geo G Hs) as (M1 & M2 & M3). destruct Hs as [S1 [S2 S3] [S4 S5] (S6 & S7 & S8) S9]. fold bs in S1, S3, M2. unfold maxUint16 in *.
  assert (gs + blocksPerGroup geo ≤ G * blocksPerGroup geo) as Hgs by (unfold gs; nia). assert (0 ≤ gs) by (unfold gs; nia). assert (gs * bs + bs ≤ (gs + p) * bs ∧ (gs + 2) * bs + (metaBlocks geo - 2) * bs ≤ (gs + p) * bs ∧ (gs + 1) * bs + bs = (gs + 2) * bs ∧ 0 ≤ gs * bs) as (A1 & A2 & A3 & A4) by nia.
  destruct (writeZeroRegion_ok ((gs + 1) * bs) bs f) as (f1 & E1 & P1 & L1); [nia|lia|nia|]. destruct (writeZeroRegion_ok ((gs + 2) * bs) ((metaBlocks geo - 2) * bs) f1) as (f2 & E2 & P2 & L2); [nia|nia|nia|].
  destruct (group_bitmap_ok geo (metaBlocks geo) p) as (B1 & _ & _); [lia|lia|lia|]. fold bs in B1. destruct (WriteAt_ok (gs * bs) (group_bitmap geo (metaBlocks geo) p) f2) as (f3 & E3 & P3 & L3); [lia|nia|]. destruct (group_desc_ok geo gs (p - metaBlocks geo)) as (desc & E4 & L4 & _); [lia|unfold maxUint16; lia|unfold maxUint16; lia|].
  unfold desc_off in *. destruct (WriteAt_ok (4096 + 32 * g) desc f3) as (f' & E5 & P5 & L5); [lia|nia|]. exists f1, f2, f3, f', desc. do 5 (split; [done|]).
  unfold addGroup. fold bs. rewrite M2, M3. fold gs. rewrite !(u32_small gs), !(u32_small (gs + 1)), !(u32_small (gs + 2)), (u32_small (G - 1)) by lia. rewrite (u32_small (g * ext4GroupDescSize)) by (unfold ext4GroupDescSize; lia).
  assert ((if (g =? G - 1) && negb (tb mod blocksPerGroup geo =? 0) then u32 (tb - gs) else blocksPerGroup geo) = p) as ->. { unfold p, presentBlocks in *. destruct ((g =? G - 1) && _); [|done]. fold gs. rewrite u32_small; [done|]. fold gs in Hp. lia. }
  destruct (Z.ltb_spec p (metaBlocks geo)); [lia|]. rewrite E1. cbn [mbind res_bind]. rewrite E2. cbn [mbind res_bind]. rewrite E3. cbn [mbind res_bind]. unfold maxUint16. destruct (Z.ltb_spec 0xFFFF (p - metaBlocks geo)); [lia|]. destruct (Z.ltb_spec 0xFFFF (inodesPerGroup geo)); [lia|].
  rewrite E4. cbn [must mbind res_bind]. replace (ext4GroupDescTableOffset + g * ext4GroupDescSize) with (4096 + 32 * g) by (unfold ext4GroupDescTableOffset, ext4GroupDescSize; lia). rewrite E5. done.
Qed.
Lemma slice_four (f f1 f2 f3 f' : list Z) a1 b1 a2 b2 a3 b3 a4 b4 lo hi : splice f a1 b1 = Some f1 → splice f1 a2 b2 = Some f2 → splice f2 a3 b3 = Some f3 → splice f3 a4 b4 = Some f' →
  hi ≤ a1 ∨ a1 + zlen b1 ≤ lo → hi ≤ a2 ∨ a2 + zlen b2 ≤ lo → hi ≤ a3 ∨ a3 + zlen b3 ≤ lo → hi ≤ a4 ∨ a4 + zlen b4 ≤ lo → slice f' lo hi = slice f lo hi.
Proof. intros P1 P2 P3 P4 H1 H2 H3 H4. by rewrite (slice_splice_frame _ _ _ _ _ _ P4), (slice_splice_frame _ _ _ _ _ _ P3), (slice_splice_frame _ _ _ _ _ _ P2), (slice_splice_frame _ _ _ _ _ _ P1). Qed.
Lemma addGroup_ok geo tb G g f fr ino frees inodes : let bs := blockSize geo in let bpg := blocksPerGroup geo in let p := presentBlocks geo tb G g in
  sane geo G → 1 ≤ g < G → metaBlocks geo ≤ p ≤ bpg → 0 ≤ tb → (g * bpg + p) * bs ≤ zlen f → desc_off G ≤ g * bpg * bs → groups_ok f bs bpg G (g * bpg) g frees inodes →
  ∃ f', addGroup quiet geo tb G g (f, fr, ino) = Ok (f', u32 (fr + (p - metaBlocks geo)), u32 (ino + inodesPerGroup geo)) ∧ zlen f' = zlen f ∧
    groups_ok f' bs bpg G (g * bpg + p) (g + 1) (frees + (p - metaBlocks geo)) (inodes + inodesPerGroup geo) ∧
    (∀ lo hi, hi ≤ g * bpg * bs → hi ≤ desc_off g ∨ desc_off (g + 1) ≤ lo → slice f' lo hi = slice f lo hi).
Proof.
  intros bs bpg p Hs Hg Hp Htb Hf HG Hgr. destruct (meta_ok geo G Hs) as (M1 & _ & _). destruct (addGroup_writes geo tb G g f fr ino) as (f1 & f2 & f3 & f' & desc & P1 & P2 & P3 & P4 & E4 & E); [done|lia|done|done|done|done|]. fold bs bpg p in P1, P2, P3, P4, E4, E. exists f'. split; [done|].
  pose proof Hs as [S1 [S2 S3] [S4 S5] (S6 & S7 & S8) S9]. fold bs bpg in S1, S2, S3, S8, S9. unfold maxUint16 in *.
  assert (zlen f' = zlen f) as Hl by (rewrite (splice_len _ _ _ _ P4), (splice_len _ _ _ _ P3), (splice_len _ _ _ _ P2); by eapply splice_len). split; [done|]. destruct (group_bitmap_ok geo (metaBlocks geo) p) as (B1 & B2 & B3); [lia|lia|lia|]. fold bs bpg in B1, B2, B3. destruct (group_desc_ok geo (g * bpg) (p - metaBlocks geo)) as (desc' & E4' & D1 & D2 & D3 & D4); [nia|unfold maxUint16; lia|unfold maxUint16; lia|]. rewrite E4 in E4'. injection E4' as <-.
  assert (∀ lo hi, hi ≤ g * bpg * bs → hi ≤ desc_off g ∨ desc_off (g + 1) ≤ lo → slice f' lo hi = slice f lo hi) as Hfr. { intros lo hi Hhi Hd. unfold desc_off in *. eapply slice_four; [exact P1|exact P2|exact P3|exact P4|..]; [left; nia|left; nia|left; nia|rewrite D1; lia]. }
  split; [|exact Hfr]. destruct Hgr as [G1 G2 G3]. assert (∀ g', 0 ≤ g' < g → slice f' (desc_off g') (desc_off g' + 32) = slice f (desc_off g') (desc_off g' + 32)) as Hdesc by (intros g' Hg'; apply Hfr; unfold desc_off in *; lia).
  pose proof (groups_keep f f' bs bpg G (g * bpg) g frees inodes ltac:(lia) ltac:(unfold desc_off in *; nia) Hl Hdesc (fun lo H1 H2 => Hfr lo (lo + bs) ltac:(lia) ltac:(unfold desc_off in *; lia)) (mkGroupsOk _ _ _ _ _ _ _ _ G1 G2 G3)) as [K1 K2 K3].
  assert (holds f' (desc_off g) desc) as Hd by (unfold holds; rewrite D1; rewrite <- D1; by eapply slice_splice_same). assert (∀ n o, 0 ≤ o → o + Z.of_nat n ≤ 32 → getLE n f' (desc_off g + o) = getLE n desc o) as Hget by (intros n o H1 H2; apply (getLE_holds f' (desc_off g) desc); [done|done|lia]).
  split; [|rewrite total_snoc, K2, (Hget 2%nat 12), D3 by lia; done|rewrite total_snoc, K3, (Hget 2%nat 14), D4 by lia; done].
  intros g' Hg'. destruct (decide (g' = g)) as [->|Hne].
  - split. exists (g * bpg), (group_bitmap geo (metaBlocks geo) p). replace (Z.min bpg (g * bpg + p - g * bpg)) with p by lia. pose proof (Hget 4%nat 0 ltac:(lia) ltac:(lia)) as H0. rewrite Z.add_0_r in H0. rewrite H0, D2. split; [done|]. split; [done|]. split; [nia|]. rewrite (Hget 2%nat 12), D3, B2 by lia. split; [|split; [done|exact B3]].
    rewrite (slice_splice_frame _ _ _ _ _ _ P4) by (unfold desc_off in *; rewrite D1; nia). pose proof (slice_splice_same _ _ _ _ P3) as Hsame. by rewrite B1 in Hsame.
  - eapply group_mono; [lia| |]; [|replace (Z.min bpg (g * bpg + p - g' * bpg)) with (Z.min bpg (g * bpg - g' * bpg)) by nia; apply K1; lia]. nia.
Qed.
Lemma u32_add a b : u32 (u32 a + b) = u32 (a + b).
Proof. unfold u32. by rewrite Zplus_mod_idemp_l. Qed.
(** The target is in the last of the [G] groups, which has room for its tables. *)
Record target_ok (geo : ext4Geometry) (tb G : Z) : Prop := mkTarget {
  tg_last : (G - 1) * blocksPerGroup geo < tb ≤ G * blocksPerGroup geo;
  tg_tail : tb mod blocksPerGroup geo = 0 ∨ metaBlocks geo ≤ tb mod blocksPerGroup geo
}.
Lemma present_ok geo tb G g : sane geo G → target_ok geo tb G → 0 ≤ g < G → let p := presentBlocks geo tb G g in
  metaBlocks geo ≤ p ≤ blocksPerGroup geo ∧ g * blocksPerGroup geo + p = Z.min tb ((g + 1) * blocksPerGroup geo).
Proof.
  intros Hs [T1 T2] Hg p. pose proof Hs as [_ [S2 _] _ _ S9]. unfold p, presentBlocks. destruct (Z.eqb_spec g (G - 1)) as [->|Hne]; cbn [andb].
  - assert (tb mod blocksPerGroup geo = 0 ∧ tb = G * blocksPerGroup geo ∨ tb mod blocksPerGroup geo = tb - (G - 1) * blocksPerGroup geo ∧ tb < G * blocksPerGroup geo) as Hm.
    { pose proof (Z.div_mod tb (blocksPerGroup geo) ltac:(lia)). pose proof (Z.mod_pos_bound tb (blocksPerGroup geo) ltac:(lia)). assert (tb / blocksPerGroup geo = G - 1 ∨ tb / blocksPerGroup geo = G) as [Hq|Hq] by nia; rewrite Hq in *; [right|left]; nia. }
    destruct (Z.eqb_spec (tb mod blocksPerGroup geo) 0); cbn [negb]; nia.
  - split; [lia|]. assert ((g + 1) * blocksPerGroup geo ≤ (G - 1) * blocksPerGroup geo) by nia. nia.
Qed.
Lemma addGroups_loop geo tb G k : ∀ g f fr ino frees inodes, let bs := blockSize geo in let bpg := blocksPerGroup geo in
  sane geo G → target_ok geo tb G → g + Z.of_nat (S k) = G → 1 ≤ g → tb * bs ≤ zlen f → desc_off G ≤ g * bpg * bs → groups_ok f bs bpg G (g * bpg) g frees inodes →
  ∃ f' A, for_each (addGroup quiet geo tb G) (seqZ g (Z.of_nat (S k))) (f, fr, ino) = Ok (f', u32 (fr + A), u32 (ino + Z.of_nat (S k) * inodesPerGroup geo)) ∧ zlen f' = zlen f ∧
    groups_ok f' bs bpg G tb G (frees + A) (inodes + Z.of_nat (S k) * inodesPerGroup geo) ∧
    (∀ lo hi, hi ≤ g * bpg * bs → hi ≤ desc_off g ∨ desc_off G ≤ lo → slice f' lo hi = slice f lo hi).
Proof.
  induction k as [|k IH]; intros g f fr ino frees inodes bs bpg Hs Ht Hk Hg Hf HG Hgr; destruct (present_ok geo tb G g Hs Ht ltac:(lia)) as [Hp He]; fold bpg in He; pose proof Hs as [S1 [S2 _] _ _ _]; pose proof Ht as [T1 _]; fold bs bpg in S1, S2, T1;
    (destruct (addGroup_ok geo tb G g f fr ino frees inodes) as (f1 & E1 & L1 & G1 & F1); [done|lia|done|lia|fold bs bpg; nia|done|done|]); fold bs bpg in G1, F1; rewrite (seqZ_cons g) by lia; cbn [for_each]; rewrite E1; cbn [mbind res_bind].
  - replace (Z.pred (Z.of_nat 1)) with 0 by lia. rewrite (seqZ_nil (Z.succ g) 0) by done. cbn [for_each]. exists f1, (presentBlocks geo tb G g - metaBlocks geo). replace (Z.of_nat 1 * inodesPerGroup geo) with (inodesPerGroup geo) by lia. split; [done|]. split; [done|]. replace (g + 1) with G in * by lia. replace (g * bpg + presentBlocks geo tb G g) with tb in G1 by lia. done.
  - assert (g * bpg + presentBlocks geo tb G g = (g + 1) * bpg) as Hnext. { assert ((g + 1) * bpg ≤ (G - 1) * bpg) by nia. lia. } rewrite Hnext in G1. replace (Z.pred (Z.of_nat (S (S k)))) with (Z.of_nat (S k)) by lia. replace (Z.succ g) with (g + 1) by lia.
    destruct (IH (g + 1) f1 (u32 (fr + (presentBlocks geo tb G g - metaBlocks geo))) (u32 (ino + inodesPerGroup geo)) (frees + (presentBlocks geo tb G g - metaBlocks geo)) (inodes + inodesPerGroup geo)) as (f2 & A & E2 & L2 & G2 & F2); [done|done|lia|lia|fold bs; lia|fold bs bpg; nia|done|].
    exists f2, (presentBlocks geo tb G g - metaBlocks geo + A). rewrite !u32_add in E2. replace (fr + (presentBlocks geo tb G g - metaBlocks geo + A)) with (fr + (presentBlocks geo tb G g - metaBlocks geo) + A) by lia. replace (ino + Z.of_nat (S (S k)) * inodesPerGroup geo) with (ino + inodesPerGroup geo + Z.of_nat (S k) * inodesPerGroup geo) by lia. split; [done|]. split; [lia|].
    fold bs bpg in G2, F2. split; [by replace (frees + (presentBlocks geo tb G g - metaBlocks geo + A)) with (frees + (presentBlocks geo tb G g - metaBlocks geo) + A) by lia; replace (inodes + Z.of_nat (S (S k)) * inodesPerGroup geo) with (inodes + inodesPerGroup geo + Z.of_nat (S k) * inodesPerGroup geo) by lia|].
    intros lo hi Hhi Hd. rewrite F2 by (unfold desc_off in *; nia). apply F1; [done|]. unfold desc_off in *. lia.
Qed.

(** ** Growing the last group *)
Definition distinct_bitmaps (f : list Z) (n : Z) : Prop := ∀ g h bb bb', 0 ≤ g < n → 0 ≤ h < n → g ≠ h → getLE 4 f (desc_off g) = Some bb → getLE 4 f (desc_off h) = Some bb' → bb ≠ bb'.
Lemma free_bits_bound bm n : 0 ≤ n → 0 ≤ free_bits bm n ≤ n.
Proof.
  intros Hn. unfold free_bits, zlen. split; [lia|]. pose proof (length_filter (fun i => bit8 bm i = false) (seqZ 0 n)) as H. rewrite length_seqZ in H. lia.
Qed.
(** The two writes, and what the last group's descriptor and bitmap are then. *)
Lemma grow_writes geo n tb f bb bm : let bs := blockSize geo in let bpg := blocksPerGroup geo in let l := n - 1 in let o := blocksCount geo - l * bpg in let t := tb - l * bpg in
  sane geo n → 0 ≤ o < t → t ≤ bpg → desc_off n ≤ bb * bs → bb * bs + bs ≤ zlen f →
  getLE 4 f (desc_off l) = Some bb → slice f (bb * bs) (bb * bs + bs) = Some bm → getLE 2 f (desc_off l + 12) = Some (free_bits bm bpg) → (∀ q, o ≤ q < t → bit8 bm q = true) →
  ∃ f1 f' d bm', splice f (bb * bs) bm' = Some f1 ∧ splice f1 (desc_off l) d = Some f' ∧ zlen bm' = bs ∧ zlen d = 32 ∧ free_bits bm' bpg = free_bits bm bpg + (t - o) ∧ (∀ q, 0 ≤ q → t ≤ q → bit8 bm' q = bit8 bm q) ∧
    getLE 4 d 0 = Some bb ∧ getLE 2 d 12 = Some (free_bits bm' bpg) ∧ getLE 2 d 14 = getLE 2 f (desc_off l + 14) ∧
    growExistingLastGroup quiet geo l tb f = Ok (f', t - o).
Proof.
  intros bs bpg l o t Hs Ho Ht HG Hf Hbb Hbm Hfree Hset. destruct Hs as [S1 [S2 S3] [S4 S5] (S6 & S7 & S8) S9]. fold bs bpg in S1, S2, S3, S8. unfold maxUint16 in *.
  destruct (slice_ok f (desc_off l) (desc_off l + 32)) as [d Hd]; [unfold desc_off; lia|unfold desc_off in *; lia|]. pose proof (slice_len _ _ _ _ Hd) as Ld. replace (desc_off l + 32 - desc_off l) with 32 in Ld by lia. assert (holds f (desc_off l) d) as Hh by (unfold holds; by rewrite Ld).
  assert (∀ k j, 0 ≤ j → j + Z.of_nat k ≤ 32 → getLE k d j = getLE k f (desc_off l + j)) as Hget by (intros k j H1 H2; symmetry; apply (getLE_holds f (desc_off l) d); [done|done|lia]).
  pose proof (slice_len _ _ _ _ Hbm) as Lbm. destruct (free_clear bm o t bpg) as (C1 & C2 & C3); [lia|lia|lia|done|]. set (bm' := fold_left _ (seqZ o (t - o)) bm) in *. destruct (WriteAt_ok (bb * bs) bm' f) as (f1 & E1 & P1 & L1); [unfold desc_off in *; lia|lia|].
  pose proof (free_bits_bound bm' bpg ltac:(lia)) as Hfb. destruct (putLE_ok 2 d 12 (free_bits bm' bpg)) as [d' E2]; [done|lia|]. pose proof (putLE_len _ _ _ _ _ E2) as Ld'. destruct (WriteAt_ok (desc_off l) d' f1) as (f' & E3 & P3 & L3); [unfold desc_off; lia|unfold desc_off in *; lia|].
  exists f1, f', d', bm'. split; [done|]. split; [done|]. split; [lia|]. split; [lia|]. split; [done|]. split; [done|]. split; [rewrite (getLE_putLE_frame _ _ _ _ _ _ _ E2), (Hget 4%nat 0), Z.add_0_r by lia; done|]. split; [apply (getLE_putLE_same _ _ _ _ _ E2); lia|]. split; [rewrite (getLE_putLE_frame _ _ _ _ _ _ _ E2), (Hget 2%nat 14) by lia; done|].
  unfold growExistingLastGroup. rewrite (u32_small (l * ext4GroupDescSize)) by (unfold ext4GroupDescSize; lia). replace (ext4GroupDescTableOffset + l * ext4GroupDescSize) with (desc_off l) by (unfold ext4GroupDescTableOffset, ext4GroupDescSize, desc_off; lia).
  unfold ReadAt. unfold ext4GroupDescSize at 1. rewrite Hd. cbn [mbind res_bind]. pose proof (Hget 4%nat 0 ltac:(lia) ltac:(lia)) as Hg4. rewrite Z.add_0_r, Hbb in Hg4. rewrite Hg4. cbn [must mbind res_bind]. destruct (Z.eqb_spec bb 0) as [->|Hb0]; [unfold desc_off in HG; lia|]. fold bs. rewrite Hbm. cbn [mbind res_bind]. fold bpg.
  rewrite !(u32_small (l * bpg)) by (unfold l; nia). fold o t. rewrite !(u32_small o), !(u32_small t) by nia. destruct (Z.ltb_spec t o); [lia|]. destruct (Z.ltb_spec bpg t); [lia|]. cbn [orb]. fold bm'. rewrite E1. cbn [mbind res_bind]. rewrite (Hget 2%nat 12), Hfree by lia. cbn [must mbind res_bind]. rewrite <- C2, (u32_small (free_bits bm' bpg)) by lia.
  unfold maxUint16. destruct (Z.ltb_spec 0xFFFF (free_bits bm' bpg)); [lia|]. rewrite E2. cbn [must mbind res_bind]. rewrite E3. done.
Qed.
Lemma grow_ok geo G n tb f frees inodes : let bs := blockSize geo in let bpg := blocksPerGroup geo in
  sane geo n → sane geo G → n ≤ G → (n - 1) * bpg < blocksCount geo < tb → tb ≤ n * bpg →
  distinct_bitmaps f n → groups_ok f bs bpg G (blocksCount geo) n frees inodes →
  ∃ f' bb, growExistingLastGroup quiet geo (n - 1) tb f = Ok (f', tb - blocksCount geo) ∧ zlen f' = zlen f ∧ getLE 4 f (desc_off (n - 1)) = Some bb ∧ groups_ok f' bs bpg G tb n (frees + (tb - blocksCount geo)) inodes ∧
    (∀ lo hi, hi ≤ bb * bs ∨ bb * bs + bs ≤ lo → hi ≤ desc_off (n - 1) ∨ desc_off n ≤ lo → slice f' lo hi = slice f lo hi).
Proof.
  intros bs bpg Hn Hs HnG Hb Ht Hdis [G1 G2 G3]. pose proof Hs as [S1 [S2 S3] _ _ _]. pose proof Hn as [_ _ _ (N1 & _) _]. fold bs bpg in S1, S2, S3. destruct (G1 (n - 1) ltac:(lia)) as [(bb & bm & H1 & H2 & H3 & H4 & H5 & H6)].
  destruct (grow_writes geo n tb f bb bm) as (f1 & f' & d & bm' & P1 & P2 & L1 & L2 & C2 & C3 & D1 & D2 & D3 & E); fold bs bpg; [done|lia|lia|unfold desc_off in *; lia|by apply slice_Some in H4 as [? _]; lia|done|done|done|intros q Hq; apply H6; lia|]. fold bs bpg in P1, P2, L1, C2, C3, D1, D2, D3, E. replace (tb - (n - 1) * bpg - (blocksCount geo - (n - 1) * bpg)) with (tb - blocksCount geo) in * by lia.
  exists f', bb. split; [done|]. assert (zlen f' = zlen f) as Hl by (rewrite (splice_len _ _ _ _ P2); by eapply splice_len). split; [done|]. split; [done|]. assert (desc_off n = desc_off (n - 1) + 32) as Hdn by (unfold desc_off; lia). assert (desc_off n ≤ desc_off G) as HdG by (unfold desc_off; lia).
  assert (∀ lo hi, hi ≤ bb * bs ∨ bb * bs + bs ≤ lo → hi ≤ desc_off (n - 1) ∨ desc_off n ≤ lo → slice f' lo hi = slice f lo hi) as Hfr by (intros lo hi A1 A2; rewrite (slice_splice_frame _ _ _ _ _ _ P2), (slice_splice_frame _ _ _ _ _ _ P1) by lia; done).
  split; [|done]. assert (desc_off G ≤ zlen f) as HGf by (apply slice_Some in H4 as [? _]; lia). assert (∀ g, 0 ≤ g < n - 1 → slice f' (desc_off g) (desc_off g + 32) = slice f (desc_off g) (desc_off g + 32)) as Hdesc by (intros g Hg; apply Hfr; unfold desc_off in *; lia).
  assert (holds f' (desc_off (n - 1)) d) as Hd by (by eapply slice_splice_same). assert (∀ k o, 0 ≤ o → o + Z.of_nat k ≤ 32 → getLE k f' (desc_off (n - 1) + o) = getLE k d o) as Hget by (intros k o A1 A2; apply (getLE_holds f' (desc_off (n - 1)) d); [done|done|lia]).
  assert (∀ g k, 0 ≤ g < n - 1 → 0 ≤ k → k + 2 ≤ 32 → getLE 2 f' (desc_off g + k) = getLE 2 f (desc_off g + k)) as Hother by (intros g k Hg A1 A2; apply (getLE_slice 2 f f' _ (desc_off g) (desc_off g + 32)); [lia|lia|by apply Hdesc|unfold desc_off; lia|unfold desc_off in *; lia|done]).
  split.
  - intros g Hg. destruct (decide (g = n - 1)) as [->|Hne].
    + split. exists bb, bm'. pose proof (Hget 4%nat 0 ltac:(lia) ltac:(lia)) as H0. rewrite Z.add_0_r in H0. rewrite H0, D1. split; [done|]. split; [done|]. split; [done|]. rewrite (Hget 2%nat 12), D2 by lia. split; [|split; [done|]].
      * rewrite (slice_splice_frame _ _ _ _ _ _ P2) by lia. pose proof (slice_splice_same _ _ _ _ P1) as Hsame. by rewrite L1 in Hsame.
      * intros q Hq. rewrite C3 by lia. apply H6. lia.
    + replace (Z.min bpg (tb - g * bpg)) with (Z.min bpg (blocksCount geo - g * bpg)) by nia. eapply group_keep; [|exact HGf|done|apply Hdesc; lia| |by apply G1]; [lia|]. intros bb' A1 A2 A3. apply Hfr; [|lia]. assert (bb ≠ bb') as Hbb by (eapply (Hdis (n - 1) g); [lia|lia|lia|done|done]). nia.
  - rewrite (total_last f' 12 n) by lia. rewrite (Hget 2%nat 12), D2 by lia. rewrite (total_ext f f') by (intros g Hg; apply Hother; lia). rewrite <- G2, (total_last f 12 n) by lia. rewrite H5. cbn [default from_option id]. rewrite C2. lia.
  - rewrite (total_last f' 14 n) by lia. rewrite (Hget 2%nat 14), D3 by lia. rewrite (total_ext f f') by (intros g Hg; apply Hother; lia). by rewrite <- G3, (total_last f 14 n) by lia.
Qed.

(** ** The whole image *)
Definition groups_of (blocks bpg : Z) : Z := (blocks + bpg - 1) / bpg.
Definition with_counts (geo : ext4Geometry) (b fb i fi : Z) : ext4Geometry := mkGeo (blockSize geo) (blocksPerGroup geo) b fb (inodesPerGroup geo) i fi (inodeSize geo).
(** The fields of the superblock. *)
Record superblock_ok (f : list Z) (geo : ext4Geometry) : Prop := mkSbOk {
  sb_inodes : getLE 4 f 1024 = Some (inodesCount geo);
  sb_blocks : getLE 4 f 1028 = Some (blocksCount geo);
  sb_free : getLE 4 f 1036 = Some (freeBlocks geo);
  sb_freei : getLE 4 f 1040 = Some (freeInodes geo);
  sb_size : ∃ log, getLE 4 f 1048 = Some log ∧ blockSize geo = u32 (1024 .<< log);
  sb_bpg : getLE 4 f 1056 = Some (blocksPerGroup geo);
  sb_ipg : getLE 4 f 1064 = Some (inodesPerGroup geo);
  sb_isize : getLE 2 f 1112 = Some (inodeSize geo)
}.
(** An image whose counters agree with its bitmaps, with room for [G] descriptors. *)
Record ext4_ok (f : list Z) (geo : ext4Geometry) (G : Z) : Prop := mkExt4Ok {
  eo_super : superblock_ok f geo;
  eo_blocks : 0 < blocksCount geo;
  eo_inodes : inodesCount geo = groups_of (blocksCount geo) (blocksPerGroup geo) * inodesPerGroup geo ∧ 0 ≤ freeInodes geo ≤ inodesCount geo;
  eo_groups : groups_ok f (blockSize geo) (blocksPerGroup geo) G (blocksCount geo) (groups_of (blocksCount geo) (blocksPerGroup geo)) (freeBlocks geo) (freeInodes geo)
}.
Lemma sane_counts geo G b fb i fi : sane geo G → sane (with_counts geo b fb i fi) G.
Proof. intros [? ? ? ? ?]. by split. Qed.
Lemma sane_le geo G n : sane geo G → 0 < n ≤ G → sane geo n.
Proof. intros [? [? ?] ? (? & ? & ?) ?] Hn. split; try done. repeat split; try lia. nia. Qed.
Lemma groups_of_spec b bpg : 0 < b → 0 < bpg → let n := groups_of b bpg in 0 < n ∧ (n - 1) * bpg < b ≤ n * bpg.
Proof. intros Hb Hp n. unfold n, groups_of. pose proof (Z.div_mod (b + bpg - 1) bpg ltac:(lia)). pose proof (Z.mod_pos_bound (b + bpg - 1) bpg ltac:(lia)). nia. Qed.
Lemma groups_of_unique b bpg n : 0 < bpg → (n - 1) * bpg < b ≤ n * bpg → groups_of b bpg = n.
Proof. intros Hp Hb. unfold groups_of. symmetry. apply (Z.div_unique _ _ _ (b + bpg - 1 - bpg * n)); lia. Qed.
Lemma blocksToGroups_ok b bpg : 0 < b → 0 < bpg → b + bpg < 2 ^ 32 → blocksToGroups b bpg = groups_of b bpg.
Proof. intros Hb Hp Hl. unfold blocksToGroups, groups_of. destruct (Z.eqb_spec b 0); [lia|]. destruct (Z.eqb_spec bpg 0); [lia|]. cbn [orb]. rewrite (u32_small (b + bpg)), u32_small by lia. done. Qed.
Lemma frees_bound f bs bpg G blocks n frees inodes : groups_ok f bs bpg G blocks n frees inodes → 0 ≤ n → 0 < bpg → 0 ≤ frees ≤ n * bpg.
Proof.
  intros [G1 <- _] Hn Hp. assert (∀ k, 0 ≤ k → k ≤ n → 0 ≤ total f 12 k ≤ k * bpg) as H; [|apply H; lia]. apply (natlike_ind (fun k => k ≤ n → 0 ≤ total f 12 k ≤ k * bpg)); [done|]. intros k Hk IH Hkn. replace (Z.succ k) with (k + 1) by lia. rewrite total_snoc by lia. destruct (G1 k ltac:(lia)) as [(bb & bm & _ & _ & _ & _ & -> & _)]. cbn [default from_option id]. pose proof (free_bits_bound bm bpg ltac:(lia)). lia.
Qed.
Lemma readLE_ok f off v : getLE 4 f off = Some v → readUint32At quiet f off = Ok v.
Proof. unfold readUint32At, ReadAt, getLE. change (Z.of_nat 4) with 4. destruct (slice f off (off + 4)); [|done]. by intros [= <-]. Qed.
Lemma readExt4Geometry_ok f geo : superblock_ok f geo → readExt4Geometry quiet f = Ok geo.
Proof.
  intros [H1 H2 H3 H4 (log & H5 & H5') H6 H7 H8]. unfold readExt4Geometry. rewrite (readLE_ok f ext4LogBlockSizeOffset log H5), (readLE_ok f ext4BlocksPerGroupOffset _ H6), (readLE_ok f ext4BlocksCountLowOffset _ H2), (readLE_ok f ext4FreeBlocksCountLowOffset _ H3), (readLE_ok f ext4InodesPerGroupOffset _ H7), (readLE_ok f ext4InodesCountOffset _ H1), (readLE_ok f ext4FreeInodesCountOffset _ H4).
  cbn [mbind res_bind]. unfold readUint16At, ReadAt. unfold getLE in H8. change (Z.of_nat 2) with 2 in H8. unfold ext4InodeSizeOffset. change (ext4SuperblockOffset + 0x58) with 1112. destruct (slice f 1112 (1112 + 2)); [|done]. injection H8 as H8. cbn [mbind res_bind]. rewrite H8, <- H5'. by destruct geo.
Qed.
Lemma writeLE_ok off v f : 0 ≤ off → off + 4 ≤ zlen f → ∃ f', writeUint32At quiet off v f = Ok f' ∧ putLE 4 f off v = Some f' ∧ zlen f' = zlen f.
Proof. intros H0 H1. unfold writeUint32At, putLE. apply WriteAt_ok; [done|]. by rewrite zlen_le_encode. Qed.
Lemma write_geometry_ok geo f : 1044 ≤ zlen f → 0 ≤ blocksCount geo < 2 ^ 32 → 0 ≤ freeBlocks geo < 2 ^ 32 → 0 ≤ inodesCount geo < 2 ^ 32 → 0 ≤ freeInodes geo < 2 ^ 32 →
  ∃ f', write_geometry quiet geo f = Ok f' ∧ zlen f' = zlen f ∧ getLE 4 f' 1024 = Some (inodesCount geo) ∧ getLE 4 f' 1028 = Some (blocksCount geo) ∧ getLE 4 f' 1036 = Some (freeBlocks geo) ∧ getLE 4 f' 1040 = Some (freeInodes geo) ∧
    ∀ lo hi, hi ≤ 1024 ∨ 1044 ≤ lo → slice f' lo hi = slice f lo hi.
Proof.
  intros Hf H1 H2 H3 H4. unfold write_geometry. change ext4BlocksCountLowOffset with 1028. change ext4FreeBlocksCountLowOffset with 1036. change ext4InodesCountOffset with 1024. change ext4FreeInodesCountOffset with 1040.
  destruct (writeLE_ok 1028 (blocksCount geo) f) as (f1 & E1 & P1 & L1); [done|lia|]. rewrite E1. cbn [mbind res_bind]. destruct (writeLE_ok 1036 (freeBlocks geo) f1) as (f2 & E2 & P2 & L2); [done|lia|]. rewrite E2. cbn [mbind res_bind]. destruct (writeLE_ok 1024 (inodesCount geo) f2) as (f3 & E3 & P3 & L3); [done|lia|]. rewrite E3. cbn [mbind res_bind]. destruct (writeLE_ok 1040 (freeInodes geo) f3) as (f4 & E4 & P4 & L4); [done|lia|].
  exists f4. split; [done|]. split; [lia|]. split; [rewrite (getLE_putLE_frame _ _ _ _ _ _ _ P4) by lia; by apply (getLE_putLE_same _ _ _ _ _ P3)|].
  split; [rewrite (getLE_putLE_frame _ _ _ _ _ _ _ P4), (getLE_putLE_frame _ _ _ _ _ _ _ P3), (getLE_putLE_frame _ _ _ _ _ _ _ P2) by lia; by apply (getLE_putLE_same _ _ _ _ _ P1)|].
  split; [rewrite (getLE_putLE_frame _ _ _ _ _ _ _ P4), (getLE_putLE_frame _ _ _ _ _ _ _ P3) by lia; by apply (getLE_putLE_same _ _ _ _ _ P2)|]. split; [by apply (getLE_putLE_same _ _ _ _ _ P4)|].
  intros lo hi Hr. unfold putLE in *. rewrite (slice_splice_frame _ _ _ _ _ _ P4), (slice_splice_frame _ _ _ _ _ _ P3), (slice_splice_frame _ _ _ _ _ _ P2), (slice_splice_frame _ _ _ _ _ _ P1) by (rewrite zlen_le_encode; lia). done.
Qed.
(** The two stages of the growth, each on groups whose counters are [geo]'s. *)
Lemma stage_grow geo G f tb frees : let bs := blockSize geo in let bpg := blocksPerGroup geo in let n := groups_of (blocksCount geo) bpg in
  sane geo G → n ≤ G → 0 < blocksCount geo → tb ≤ n * bpg → distinct_bitmaps f n → freeBlocks geo = frees → groups_ok f bs bpg G (blocksCount geo) n frees (freeInodes geo) →
  ∃ f' bb, let b' := Z.max (blocksCount geo) tb in let fb' := frees + (b' - blocksCount geo) in
    (if blocksCount geo <? tb then '(f, delta) ← growExistingLastGroup quiet geo (u32 (n - 1)) tb f; Ok (f, mkGeo bs bpg (u32 (blocksCount geo + delta)) (u32 (freeBlocks geo + delta)) (inodesPerGroup geo) (inodesCount geo) (freeInodes geo) (inodeSize geo)) else Ok (f, geo))
      = Ok (f', with_counts geo b' fb' (inodesCount geo) (freeInodes geo)) ∧
    zlen f' = zlen f ∧ getLE 4 f (desc_off (n - 1)) = Some bb ∧ desc_off G ≤ bb * bs ∧ groups_ok f' bs bpg G b' n fb' (freeInodes geo) ∧
    (∀ lo hi, hi ≤ bb * bs ∨ bb * bs + bs ≤ lo → hi ≤ desc_off (n - 1) ∨ desc_off n ≤ lo → slice f' lo hi = slice f lo hi).
Proof.
  intros bs bpg n Hs HnG Hb Ht Hd Hfr Hg. pose proof Hs as [S1 [S2 S3] [S4 S5] (S6 & S7 & S8) S9]. fold bs bpg in S1, S2, S3, S8. destruct (groups_of_spec (blocksCount geo) bpg Hb ltac:(lia)) as [N1 N2]. fold n in N1, N2. pose proof (frees_bound _ _ _ _ _ _ _ _ Hg ltac:(lia) ltac:(lia)) as Hfb. destruct (Z.ltb_spec (blocksCount geo) tb) as [Hlt|Hge].
  - destruct (grow_ok geo G n tb f frees (freeInodes geo)) as (f' & bb & E & L & Hbb & Hg' & Hframe); fold bs bpg; [apply (sane_le geo G); [done|lia]|done|lia|lia|lia|done|done|]. exists f', bb. cbn zeta. rewrite Z.max_r by lia. fold bs bpg in Hg', Hframe. pose proof (frees_bound _ _ _ _ _ _ _ _ Hg' ltac:(lia) ltac:(lia)) as Hfb'.
    rewrite (u32_small (n - 1)), E by nia. cbn [mbind res_bind]. rewrite Hfr. rewrite (u32_small (blocksCount geo + (tb - blocksCount geo))), (u32_small (frees + (tb - blocksCount geo))) by nia. replace (blocksCount geo + (tb - blocksCount geo)) with tb by lia. split; [done|]. split; [done|]. split; [done|]. split; [|split; [done|exact Hframe]]. destruct (go_group _ _ _ _ _ _ _ _ Hg (n - 1) ltac:(lia)) as [(bb' & bm & A1 & A2 & _)]. rewrite Hbb in A1. by injection A1 as <-.
  - destruct (go_group _ _ _ _ _ _ _ _ Hg (n - 1) ltac:(lia)) as [(bb & bm & A1 & A2 & _)]. exists f, bb. cbn zeta. rewrite Z.max_l, Z.sub_diag, Z.add_0_r by lia. split; [rewrite <- Hfr; by destruct geo|]. done.
Qed.
Lemma stage_add geo G f mb frees : let bs := blockSize geo in let bpg := blocksPerGroup geo in let n := groups_of (blocksCount geo) bpg in
  sane geo G → 0 < blocksCount geo → (blocksCount geo < mb → blocksCount geo = n * bpg ∧ target_ok geo mb G ∧ mb * bs ≤ zlen f) → groups_of (Z.max (blocksCount geo) mb) bpg = G → desc_off G ≤ n * bpg * bs → freeBlocks geo = frees →
  inodesCount geo = n * inodesPerGroup geo → 0 ≤ freeInodes geo ≤ inodesCount geo → G * inodesPerGroup geo < 2 ^ 32 → groups_ok f bs bpg G (blocksCount geo) n frees (freeInodes geo) →
  ∃ f' fb' fi', let b' := Z.max (blocksCount geo) mb in
    (if blocksCount geo <? mb then '(f, addedFreeBlocks, addedInodes) ← addExt4Groups quiet geo mb f;
       Ok (f, mkGeo bs bpg mb (u32 (freeBlocks geo + addedFreeBlocks)) (inodesPerGroup geo) (u32 (inodesCount geo + addedInodes)) (u32 (freeInodes geo + addedInodes)) (inodeSize geo)) else Ok (f, geo)) = Ok (f', with_counts geo b' fb' (G * inodesPerGroup geo) fi') ∧
    zlen f' = zlen f ∧ groups_ok f' bs bpg G b' G fb' fi' ∧ 0 ≤ fi' ≤ G * inodesPerGroup geo ∧ (∀ lo hi, hi ≤ n * bpg * bs → hi ≤ desc_off n ∨ desc_off G ≤ lo → slice f' lo hi = slice f lo hi).
Proof.
  intros bs bpg n Hs Hb Hadd HG HdG Hfr Hin Hfi HGi Hg. pose proof Hs as [S1 [S2 S3] [S4 S5] (S6 & S7 & S8) S9]. fold bs bpg in S1, S2, S3, S8. destruct (groups_of_spec (blocksCount geo) bpg Hb ltac:(lia)) as [N1 N2]. fold n in N1, N2. destruct (Z.ltb_spec (blocksCount geo) mb) as [Hlt|Hge].
  - destruct (Hadd Hlt) as (Hfull & Ht & Hlen). pose proof Ht as [T1 _]. fold bpg in T1. rewrite Z.max_r in * by lia. assert (n < G) as HnG by nia. destruct (addGroups_loop geo mb G (Z.to_nat (G - n - 1)) n f 0 0 frees (freeInodes geo)) as (f' & A & E & L & Hg' & Hframe); fold bs bpg; [done|done|lia|lia|done|done|by rewrite Hfull in Hg|]. replace (Z.of_nat (S (Z.to_nat (G - n - 1)))) with (G - n) in * by lia. fold bs bpg in Hg', Hframe.
    pose proof (frees_bound _ _ _ _ _ _ _ _ Hg' ltac:(lia) ltac:(lia)) as Hfb'. exists f', (frees + A), (freeInodes geo + (G - n) * inodesPerGroup geo). unfold addExt4Groups. fold bpg. rewrite (blocksToGroups_ok (blocksCount geo)), (blocksToGroups_ok mb) by nia. fold n. rewrite HG. destruct (Z.leb_spec G n); [lia|]. rewrite E. cbn [mbind res_bind]. rewrite Hfr, Hin.
    rewrite !(Z.add_comm _ (u32 _)), !u32_add, !Z.add_0_l. rewrite (Z.add_comm A), !(Z.add_comm ((G - n) * _)). replace (n * inodesPerGroup geo + (G - n) * inodesPerGroup geo) with (G * inodesPerGroup geo) by lia. assert (0 ≤ G * bpg < 2 ^ 32) by nia. rewrite (u32_small (frees + A)), (u32_small (G * _)), (u32_small (freeInodes geo + _)) by nia. split; [done|]. split; [done|]. split; [done|]. split; [nia|exact Hframe].
  - rewrite Z.max_l in * by lia. fold n in HG. exists f, frees, (freeInodes geo). rewrite <- HG. split; [rewrite <- Hfr, <- Hin; by destruct geo|]. rewrite <- Hin. by rewrite <- HG in Hg at 1.
Qed.
(** Writing the counters of groups that agree with them. *)
Lemma close_ok f f2 geo geo2 G : superblock_ok f geo → zlen f2 = zlen f → (∀ lo hi, 1044 ≤ lo → hi ≤ 1116 → slice f2 lo hi = slice f lo hi) →
  blockSize geo2 = blockSize geo → blocksPerGroup geo2 = blocksPerGroup geo → inodesPerGroup geo2 = inodesPerGroup geo → inodeSize geo2 = inodeSize geo →
  sane geo2 G → groups_of (blocksCount geo2) (blocksPerGroup geo2) = G → 0 < blocksCount geo2 → inodesCount geo2 = G * inodesPerGroup geo2 → 0 ≤ freeInodes geo2 ≤ inodesCount geo2 → inodesCount geo2 < 2 ^ 32 →
  groups_ok f2 (blockSize geo2) (blocksPerGroup geo2) G (blocksCount geo2) G (freeBlocks geo2) (freeInodes geo2) →
  ∃ f', write_geometry quiet geo2 f2 = Ok f' ∧ zlen f' = zlen f ∧ ext4_ok f' geo2 G ∧ (∀ lo hi, hi ≤ 1024 ∨ 1044 ≤ lo → slice f' lo hi = slice f2 lo hi).
Proof.
  intros [_ _ _ _ (log & B5 & B5') B6 B7 B8] Hl Hs E1 E2 E3 E4 Hsane HG Hb Hi Hfi Hi32 Hg. pose proof Hsane as [S1 [S2 S3] _ (S6 & S7 & S8) _]. destruct (groups_of_spec _ _ Hb ltac:(exact (proj1 S2))) as [_ N2]. rewrite HG in N2. pose proof (frees_bound _ _ _ _ _ _ _ _ Hg ltac:(lia) ltac:(lia)) as Hfb.
  destruct (go_group _ _ _ _ _ _ _ _ Hg 0 ltac:(lia)) as [(bb & bm & A1 & A2 & A3 & A4 & _)]. apply slice_Some in A4 as [A4 _]. assert (desc_off G ≤ zlen f2) as HGf by lia. assert (4096 ≤ desc_off G) as Hd by (unfold desc_off; lia).
  destruct (write_geometry_ok geo2 f2) as (f' & E & L & C1 & C2 & C3 & C4 & Hfr); [lia|lia|lia|lia|lia|]. exists f'. split; [exact E|]. split; [lia|]. split; [|exact Hfr].
  assert (∀ n a, 1044 ≤ a → a + Z.of_nat n ≤ 1116 → getLE n f' a = getLE n f a) as Hget by (intros k a D1 D2; unfold getLE; rewrite Hfr, Hs by lia; reflexivity). split.
  - split; [exact C1|exact C2|exact C3|exact C4|exists log; rewrite Hget, E1 by lia; done|rewrite Hget, E2 by lia; done|rewrite Hget, E3 by lia; done|rewrite Hget, E4 by lia; done].
  - exact Hb.
  - rewrite HG. split; [exact Hi|exact Hfi].
  - rewrite HG. eapply (groups_keep f2 f'); [lia|exact HGf|exact L| | |exact Hg]; [intros g Hg'; apply Hfr; unfold desc_off; lia|intros lo D1 D2; apply Hfr; lia].
Qed.
(** The image after the growth, when the write-protection is off. *)
Lemma expand_ok f geo maxDiskSize : let bs := blockSize geo in let bpg := blocksPerGroup geo in let n := groups_of (blocksCount geo) bpg in let mb := maxDiskSize / bs in let b' := Z.max (blocksCount geo) mb in let G := groups_of b' bpg in
  ext4_ok f geo G → sane geo G → G * inodesPerGroup geo < 2 ^ 32 → 0 ≤ maxDiskSize ≤ zlen f → (n < G → mb mod bpg = 0 ∨ metaBlocks geo ≤ mb mod bpg) → distinct_bitmaps f n →
  ∃ f' fb' fi' bb, expandExt4WithinGroups quiet maxDiskSize f = Ok f' ∧ zlen f' = zlen f ∧ ext4_ok f' (with_counts geo b' fb' (G * inodesPerGroup geo) fi') G ∧ getLE 4 f (desc_off (n - 1)) = Some bb ∧
    (∀ lo hi, hi ≤ n * bpg * bs → hi ≤ 1024 ∨ 1044 ≤ lo → hi ≤ desc_off (n - 1) ∨ desc_off G ≤ lo → hi ≤ bb * bs ∨ bb * bs + bs ≤ lo → slice f' lo hi = slice f lo hi).
Proof.
  intros bs bpg n mb b' G [Hsb Hb [Hin Hfi] Hg] Hs HGi Hd Htail Hdis. pose proof Hs as [S1 [S2 S3] [S4 S5] (S6 & S7 & S8) S9]. fold bs bpg n in S1, S2, S3, S8, Hin, Hg. destruct (groups_of_spec (blocksCount geo) bpg Hb ltac:(lia)) as [N1 N2]. fold n in N1, N2. destruct (groups_of_spec b' bpg ltac:(lia) ltac:(lia)) as [G1 G2]. fold G in G1, G2.
  assert (n ≤ G) as HnG by nia. assert (0 ≤ mb ∧ mb * bs ≤ maxDiskSize) as [M0 M1] by (unfold mb; pose proof (Z.div_pos maxDiskSize bs); pose proof (Z.mul_div_le maxDiskSize bs); lia). unfold expandExt4WithinGroups. rewrite (readExt4Geometry_ok f geo Hsb). cbn [mbind res_bind]. fold bs bpg.
  destruct (Z.eqb_spec bs 0); [lia|]. destruct (Z.eqb_spec bpg 0); [lia|]. destruct (Z.eqb_spec (blocksCount geo) 0); [lia|]. cbn [orb]. assert (maxAddressableBlocks maxDiskSize bs = mb) as ->. { unfold maxAddressableBlocks. fold mb. destruct (Z.eqb_spec bs 0); [lia|]. cbn [orb]. destruct (Z.leb_spec maxDiskSize 0); [unfold mb; replace maxDiskSize with 0 by lia; by rewrite Z.div_0_l by lia|]. unfold maxUint32. destruct (Z.ltb_spec 0xFFFFFFFF mb); [nia|done]. }
  rewrite (blocksToGroups_ok (blocksCount geo) bpg) by nia. fold n. rewrite (u32_small (n * bpg)) by nia. assert (minUint32 mb (n * bpg) = Z.min mb (n * bpg)) as -> by (unfold minUint32; destruct (Z.ltb_spec mb (n * bpg)); lia).
  destruct (stage_grow geo G f (Z.min mb (n * bpg)) (freeBlocks geo)) as (f1 & bb & E1 & L1 & Hbb & Hbb2 & K1 & F1); fold bs bpg n; [done|lia|lia|lia|done|done|done|]. fold bs bpg n in E1, Hbb, Hbb2, K1, F1. cbn zeta in E1, K1. rewrite E1. cbn [mbind res_bind]. clear E1.
  set (b1 := Z.max (blocksCount geo) (Z.min mb (n * bpg))) in *. set (fb1 := freeBlocks geo + (b1 - blocksCount geo)) in *. assert (groups_of b1 bpg = n) as Hn1 by (apply groups_of_unique; lia). assert (Z.max b1 mb = b') as Hb' by lia.
  destruct (go_group _ _ _ _ _ _ _ _ Hg (n - 1) ltac:(lia)) as [(bb' & bm & A1 & A2 & A3 & A4 & _)]. rewrite Hbb in A1. injection A1 as <-. apply slice_Some in A4 as [A4 _].
  set (geo1 := with_counts geo b1 fb1 (inodesCount geo) (freeInodes geo)). pose proof (stage_add geo1 G f1 mb fb1) as Hadd. change (blockSize geo1) with bs in Hadd. change (blocksPerGroup geo1) with bpg in Hadd. change (blocksCount geo1) with b1 in Hadd. change (freeBlocks geo1) with fb1 in Hadd. change (inodesPerGroup geo1) with (inodesPerGroup geo) in Hadd. change (inodesCount geo1) with (inodesCount geo) in Hadd. change (freeInodes geo1) with (freeInodes geo) in Hadd. cbn zeta in Hadd. rewrite Hn1, Hb' in Hadd.
  destruct Hadd as (f2 & fb' & fi' & E2 & L2 & K2 & Hfi2 & F2).
  - by apply sane_counts.
  - lia.
  - intros Hlt. assert (b1 = n * bpg) by lia. split; [assumption|]. assert (b' = mb) as Hbm by lia. split; [|lia]. split; [|apply Htail; apply Z.nle_gt; intros Hle; assert (G * bpg ≤ n * bpg) by (apply Z.mul_le_mono_nonneg_r; lia); lia]. change (blocksPerGroup geo1) with bpg. rewrite <- Hbm. exact G2.
  - reflexivity.
  - lia.
  - reflexivity.
  - exact Hin.
  - exact Hfi.
  - exact HGi.
  - exact K1.
  - change (blockSize geo1) with bs. change (blocksPerGroup geo1) with bpg. change (blocksCount geo1) with b1. change (freeBlocks geo1) with fb1. change (inodesPerGroup geo1) with (inodesPerGroup geo). change (inodesCount geo1) with (inodesCount geo). change (freeInodes geo1) with (freeInodes geo). rewrite E2. cbn [mbind res_bind]. clear E2. change (with_counts geo1 b' fb' (G * inodesPerGroup geo) fi') with (with_counts geo b' fb' (G * inodesPerGroup geo) fi').
    assert (4096 ≤ desc_off (n - 1) ∧ desc_off (n - 1) ≤ desc_off n ∧ desc_off n ≤ desc_off G) as (D1 & D2 & D3) by (unfold desc_off; lia).
    destruct (close_ok f f2 geo (with_counts geo b' fb' (G * inodesPerGroup geo) fi') G) as (f' & E & L & Hok & Hfr); [exact Hsb|lia|intros lo hi H1 H2; rewrite F2, F1 by lia; reflexivity|reflexivity|reflexivity|reflexivity|reflexivity|by apply sane_counts|reflexivity|cbn [blocksCount with_counts]; lia|reflexivity|exact Hfi2|exact HGi|exact K2|].
    exists f', fb', fi', bb. split; [exact E|]. split; [lia|]. split; [exact Hok|]. split; [exact Hbb|]. intros lo hi H1 H2 H3 H4. rewrite Hfr, F2, F1 by lia. reflexivity.
Qed.
(** Lifting the write protection leaves the rest as it is. *)
Lemma unprotect_ok f geo G n : let bs := blockSize geo in bytes f → ext4_ok f geo G → 0 < n ≤ G → groups_of (blocksCount geo) (blocksPerGroup geo) = n → distinct_bitmaps f n →
  ∃ f1 feat, clearReadonlyCompatFeature quiet f = Ok f1 ∧ zlen f1 = zlen f ∧ getLE 4 f 1124 = Some feat ∧ getLE 4 f1 1124 = Some (feat .&^ 0x1000) ∧ ext4_ok f1 geo G ∧ distinct_bitmaps f1 n ∧ (∀ lo hi, hi ≤ 1124 ∨ 1128 ≤ lo → slice f1 lo hi = slice f lo hi).
Proof.
  intros bs Hby [Hsb Hb Hi Hg] Hn HnG Hdis. rewrite HnG in Hg. destruct (go_group _ _ _ _ _ _ _ _ Hg 0 ltac:(lia)) as [(bb & bm & A1 & A2 & A3 & A4 & _)]. apply slice_Some in A4 as [A4 _]. assert (desc_off G ≤ zlen f ∧ 4096 ≤ desc_off G) as [HGf Hd] by (split; [lia|unfold desc_off; lia]).
  destruct (getLE_ok 4 f 1124) as [feat Hf]; [lia|lia|]. pose proof (getLE_fits _ _ _ _ Hby Hf) as Hfit. destruct (writeLE_ok 1124 (feat .&^ 0x1000) f) as (f1 & E1 & P1 & L1); [lia|lia|]. exists f1, feat. unfold clearReadonlyCompatFeature. change ext4FeatureRoCompatOffset with 1124. rewrite (readLE_ok f 1124 feat Hf). cbn [mbind res_bind]. split; [exact E1|]. split; [exact L1|]. split; [exact Hf|].
  split; [apply (getLE_putLE_same _ _ _ _ _ P1); apply (fits_ldiff 32 feat 0x1000 Hfit)|]. assert (∀ lo hi, hi ≤ 1124 ∨ 1128 ≤ lo → slice f1 lo hi = slice f lo hi) as Hfr by (intros lo hi H; unfold putLE in P1; rewrite (slice_splice_frame _ _ _ _ _ _ P1) by (rewrite zlen_le_encode; lia); reflexivity).
  assert (∀ k a, a + Z.of_nat k ≤ 1124 ∨ 1128 ≤ a → getLE k f1 a = getLE k f a) as Hget by (intros k a H; unfold getLE; rewrite Hfr by lia; reflexivity). split; [|split; [|exact Hfr]].
  - destruct Hsb as [B1 B2 B3 B4 (log & B5 & B5') B6 B7 B8]. split; [split; try (by rewrite Hget by lia); exists log; by rewrite Hget by lia|exact Hb|exact Hi|]. rewrite HnG. eapply (groups_keep f f1); [lia|exact HGf|exact L1| | |exact Hg]; [intros g Hg'; apply Hfr; unfold desc_off; lia|intros lo D1 D2; apply Hfr; lia].
  - intros g h b1 b2 H1 H2 H3. rewrite !Hget by (unfold desc_off; lia). by apply (Hdis g h).
Qed.


(** ** An example *)
Definition stores_example : list (Z * list Z) :=
  [(1024, le_encode 4 8); (1028, le_encode 4 10); (1036, le_encode 4 3); (1040, le_encode 4 6); (1056, le_encode 4 16); (1064, le_encode 4 8); (1112, le_encode 2 128); (1124, le_encode 4 0x1000);
   (4096, le_encode 4 5); (4108, le_encode 2 3); (4110, le_encode 2 6); (5120, [0x7F; 0xFC])].
Definition image_example (blocks : nat) : list Z := fold_left (fun f w => writeAt f w.1 w.2) stores_example (replicate (1024 * blocks) 0).
Definition geo_example : ext4Geometry := mkGeo 1024 16 10 3 8 8 6 128.
(** The decidable part of the conditions, for one group. *)
Definition example_checks (img : list Z) : bool :=
  forallb (fun b => (0 <=? b) && (b <? 256)) img && bool_decide (getLE 4 img 1024 = Some 8) && bool_decide (getLE 4 img 1028 = Some 10) && bool_decide (getLE 4 img 1036 = Some 3) && bool_decide (getLE 4 img 1040 = Some 6)
  && bool_decide (getLE 4 img 1048 = Some 0) && bool_decide (getLE 4 img 1056 = Some 16) && bool_decide (getLE 4 img 1064 = Some 8) && bool_decide (getLE 2 img 1112 = Some 128) && bool_decide (getLE 4 img (desc_off 0) = Some 5)
  && bool_decide (getLE 2 img (desc_off 0 + 12) = Some (free_bits (default [] (slice img 5120 6144)) 16)) && bool_decide (is_Some (slice img 5120 6144)) && forallb (bit8 (default [] (slice img 5120 6144))) (seqZ 10 6) && (total img 12 1 =? 3) && (total img 14 1 =? 6).
Lemma example_ok img G : example_checks img = true → 1 ≤ G ≤ 31 → bytes img ∧ ext4_ok img geo_example G ∧ distinct_bitmaps img 1 ∧ sane geo_example G.
Proof.
  unfold example_checks. rewrite !andb_true_iff, !bool_decide_eq_true, !Z.eqb_eq. intros ((((((((((((((C0 & C1) & C2) & C3) & C4) & C5) & C6) & C7) & C8) & C9) & C10) & C11) & C12) & C13) & C14) HG.
  split; [apply Forall_forall; intros b Hb; rewrite forallb_forall in C0; apply list_elem_of_In, C0, andb_true_iff in Hb as [Hb1 Hb2]; unfold is_byte, fits; lia|]. split; [|split; [intros g h b1 b2 H1 H2 H3; lia|split; [cbn; lia|unfold maxUint16; cbn; lia|unfold maxUint16; cbn; lia|cbn; lia|by vm_compute]]].
  split; [split; try assumption; exists 0; by split|done|cbn; split; [reflexivity|lia]|]. change (groups_of (blocksCount geo_example) (blocksPerGroup geo_example)) with 1. split; [|exact C13|exact C14]. intros g Hg. replace g with 0 by lia. split. exists 5, (default [] (slice img 5120 6144)). change (blockSize geo_example) with 1024. change (blocksPerGroup geo_example) with 16. change (5 * 1024) with 5120. change (5120 + 1024) with 6144. split; [exact C9|]. split; [unfold desc_off; lia|]. split; [lia|]. split; [destruct C11 as [bm Hbm]; rewrite Hbm; reflexivity|]. split; [exact C10|].
  intros q Hq. rewrite forallb_forall in C12. apply C12, list_elem_of_In, elem_of_seqZ. change (blocksCount geo_example) with 10 in Hq. lia.
Qed.
(** A disk of 33 blocks would have a third group with one block: the build fails. *)
Lemma small_tail_fails : finish_image quiet (33 * 1024) (image_example 33) = Err GroupTooSmall.
Proof. by vm_compute. Qed.
(** The build is the conversion followed by the growth, on a file of the size of the disk. *)
Lemma BuildExt4_ok convert sizeMB f f' : 0 ≤ sizeMB < 2 ^ 43 → convert (replicate (Z.to_nat (sizeMB * 1048576)) 0) = Some f → finish_image quiet (sizeMB * 1048576) f = Ok f' → zlen f' = sizeMB * 1048576 → BuildExt4 quiet convert sizeMB = Ok f'.
Proof.
  intros Hs Hc Hf Hl. unfold BuildExt4. assert (i64 (i64 (sizeMB * 1024) * 1024) = sizeMB * 1048576) as ->. { assert (i64 (sizeMB * 1024) = sizeMB * 1024) as -> by (unfold i64; rewrite Z.mod_small by lia; lia). unfold i64. rewrite Z.mod_small by lia. lia. } destruct (Z.ltb_spec (sizeMB * 1048576) 0); [lia|].
  unfold Truncate at 1. rewrite take_nil. cbn [app length]. rewrite Nat.sub_0_r, Hc, Hf. cbn [mbind res_bind]. f_equal. unfold Truncate, zlen in *. rewrite take_ge by lia. replace (Z.to_nat (sizeMB * 1048576) - length f')%nat with 0%nat by lia. by rewrite app_nil_r.
Qed.
