(* ===== verification/Preview.v ===== *)
(** * Preview links (src/sandboxes/internal/preview, src/sandboxes/internal/sandboxd/preview.go)

    A preview token lets a browser reach one port of one sandbox for a while.  It is signed
    with HMAC-SHA256, a parameter here: [mac key message].  The model has the token's
    format, its verification, and the two HTTP handlers that accept it, down to the decision
    which sandbox and port the request is passed to.

    Strings are lists of bytes.  Times are nanoseconds since 1970; [None] is Go's zero time. *)
From S2P Require Import Prelude Stream Fdt GuestExec RuntimeCfg.

Section preview.
Context (mac : list Z → list Z → list Z).

(** ** Tokens *)
Record TokenPayload := mkPayload { tp_SandboxID : list Z; tp_Port : Z; tp_ExpiresAt : option Z }.
Definition tokenMagic : list Z := sbytes "gcsbxprev:v1:".
Definition second_ns : Z := 1000000000.
Definition Unix (t : Z) : Z := t / second_ns.
(** [strconv.FormatInt(v, 10)] *)
Definition FormatInt (v : Z) : list Z := if v <? 0 then 45 :: fmt_uint 10 (- v) else fmt_uint 10 v.
(** [strconv.ParseUint(s, 10, 16)] *)
Definition ParseUint16 (s : list Z) : option Z :=
  if bool_decide (s = []) then None else v ← digits_value 0 s; if v <? 65536 then Some v else None.
(** [strings.Split(s, sep)] for one byte *)
Fixpoint split_on (sep : Z) (s : list Z) : list (list Z) :=
  match s with
  | [] => [[]]
  | c :: s => match split_on sep s with h :: t => if c =? sep then [] :: h :: t else (c :: h) :: t | [] => [] end
  end.
(** [strings.SplitN(s, sep, 2)] *)
Fixpoint split_first (sep : Z) (s : list Z) : list Z * option (list Z) :=
  match s with
  | [] => ([], None)
  | c :: s => if c =? sep then ([], Some s) else let '(h, t) := split_first sep s in (c :: h, t)
  end.
Fixpoint trim_magic (p s : list Z) : option (list Z) :=
  match p, s with
  | [], _ => Some s
  | a :: p, b :: s => if a =? b then trim_magic p s else None
  | _, [] => None
  end.

Definition canonicalString (p : TokenPayload) : list Z :=
  tokenMagic ++ tp_SandboxID p ++ [124] ++ fmt_uint 10 (tp_Port p) ++ [124] ++ FormatInt (match tp_ExpiresAt p with Some t => Unix t | None => 0 end).
Definition parseCanonical (s : list Z) : option TokenPayload :=
  body ← trim_magic tokenMagic s;
  match split_on 124 body with
  | [id; port; exp] =>
      port ← ParseUint16 port; exp ← Atoi exp;
      Some (mkPayload id port (if exp =? 0 then None else Some (exp * second_ns)))
  | _ => None
  end.

Definition NewSigner (key : list Z) : option (list Z) := if zlen key <? 32 then None else Some key.
Definition Sign (secret : list Z) (p : TokenPayload) : list Z := EncodeValue (canonicalString p) ++ [46] ++ EncodeValue (mac secret (canonicalString p)).
(** The two halves of a token, decoded. *)
Definition token_parts (token : list Z) : option (list Z * list Z) :=
  match split_first 46 token with (a, Some b) => m ← DecodeValue a; s ← DecodeValue b; Some (m, s) | _ => None end.
(** Every failure is the same error. *)
Definition Verify (secret : list Z) (now : Z) (token : list Z) : option TokenPayload :=
  '(payload, sig) ← token_parts token;
  if negb (bool_decide (sig = mac secret payload)) then None
  else
    p ← parseCanonical payload;
    match tp_ExpiresAt p with Some t => if t <? now then None else Some p | None => Some p end.

(** ** The manager *)
Record previewManager := mkPM { pm_secret : list Z; pm_defaultTTL : Z; pm_previewHost : list Z }.
Record Manager := mkManager { m_PreviewSigningKey : list Z; m_PreviewTTL : Z; m_PreviewHost : list Z; m_Store : gmap (list Z) (list Z); m_previewInit : bool; m_previewMgr : option previewManager }.
Inductive preview_err := ErrSandboxNotFound | ErrNewSigner | ErrRandom.

Definition UDSPathForSandbox (m : Manager) (id : list Z) : option (list Z) :=
  match m_Store m !! id with Some uds => if bool_decide (uds = []) then None else Some uds | None => None end.

Definition set_mgr (m : Manager) (pm : option previewManager) : Manager := mkManager (m_PreviewSigningKey m) (m_PreviewTTL m) (m_PreviewHost m) (m_Store m) true pm.
(** [rnd]: what the random source gives, if anything. *)
Definition ensurePreviewManager (rnd : option (list Z)) (m : Manager) : Manager * (option previewManager * option preview_err) :=
  if m_previewInit m then (m, (m_previewMgr m, None))
  else
    match (if bool_decide (m_PreviewSigningKey m = []) then rnd else Some (m_PreviewSigningKey m)) with
    | None => (set_mgr m None, (None, Some ErrRandom))
    | Some key =>
        match NewSigner key with
        | None => (set_mgr m None, (None, Some ErrNewSigner))
        | Some secret =>
            let pm := mkPM secret (if m_PreviewTTL m =? 0 then 3600 * second_ns else m_PreviewTTL m)
                           (if bool_decide (m_PreviewHost m = []) then sbytes "sbx.localhost" else m_PreviewHost m) in
            (set_mgr m (Some pm), (Some pm, None))
        end
    end.

Definition previewsPrefix : list Z := sbytes "/previews/".
Record MintPreviewResponse := mkMint { mp_Token : list Z; mp_URL : list Z; mp_Subdomain : list Z; mp_ExpiresAt : Z }.
Definition MintPreview (rnd : option (list Z)) (now : Z) (id : list Z) (port : Z) (m : Manager) : Manager * res preview_err MintPreviewResponse :=
  match m_Store m !! id with
  | None => (m, Err ErrSandboxNotFound)
  | Some _ =>
      match ensurePreviewManager rnd m with
      | (m, (_, Some e)) => (m, Err e)
      | (m, (None, None)) => (m, Panic)
      | (m, (Some pm, None)) =>
          let expires := now + pm_defaultTTL pm in
          let tok := Sign (pm_secret pm) (mkPayload id port (Some expires)) in
          (m, Ok (mkMint tok (previewsPrefix ++ tok ++ [47]) (id ++ [46] ++ pm_previewHost pm) expires))
      end
  end.

(** What is done with a request: an error status, the connection to a sandbox's agent, with the
    guest's port and the path, or the cookie and the redirection. *)
Inductive response :=
  | RStatus (code : Z)
  | RProxied (uds : list Z) (id : list Z) (port : Z) (path : list Z)
  | RRedirect (cookie : list Z).

Definition ServeRequest (m : Manager) (id : list Z) (port : Z) (path : list Z) : response :=
  match UDSPathForSandbox m id with None => RStatus 404 | Some uds => RProxied uds id port path end.

Definition trim_path (path : list Z) : list Z := default path (trim_magic previewsPrefix path).
Definition ServePreview (rnd : option (list Z)) (now : Z) (path : list Z) (m : Manager) : Manager * res preview_err response :=
  match ensurePreviewManager rnd m with
  | (m, (_, Some _)) => (m, Ok (RStatus 501))
  | (m, (pm, None)) =>
      let '(token, sub) := split_first 47 (trim_path path) in
      if bool_decide (token = []) then (m, Ok (RStatus 400))
      else
        let subPath := match sub with Some s => 47 :: s | None => [47] end in
        match pm with
        | None => (m, Panic)
        | Some pm =>
            match Verify (pm_secret pm) now token with
            | None => (m, Ok (RStatus 401))
            | Some payload => (m, Ok (ServeRequest m (tp_SandboxID payload) (tp_Port payload) subPath))
            end
        end
  end.

(** [host[:idx]] for the last colon, unless it is the first byte. *)
Fixpoint last_index (c : Z) (l : list Z) : option nat :=
  match l with
  | [] => None
  | x :: l => match last_index c l with Some i => Some (S i) | None => if x =? c then Some 0%nat else None end
  end.
Definition strip_port (host : list Z) : list Z := match last_index 58 host with Some (S i) => take (S i) host | _ => host end.
Definition parsePreviewHost (host root : list Z) : option (list Z) :=
  let host := strip_port host in
  let n := (length host - S (length root))%nat in
  if bool_decide (drop n host = 46 :: root) then
    let id := take n host in
    if bool_decide (id = []) then None else if bool_decide (46 ∈ id) then None else Some id
  else None.
Definition IsPreviewHost (rnd : option (list Z)) (host : list Z) (m : Manager) : Manager * bool :=
  match ensurePreviewManager rnd m with
  | (m, (Some pm, None)) => (m, bool_decide (is_Some (parsePreviewHost host (pm_previewHost pm))))
  | (m, _) => (m, false)
  end.
(** [qtok] is the query's token, empty when there is none. *)
Definition ServePreviewHost (rnd : option (list Z)) (now : Z) (host qtok : list Z) (cookie : option (list Z)) (path : list Z) (m : Manager) : Manager * res preview_err response :=
  match ensurePreviewManager rnd m with
  | (m, (_, Some _)) => (m, Ok (RStatus 501))
  | (m, (None, None)) => (m, Panic)
  | (m, (Some pm, None)) =>
      match parsePreviewHost host (pm_previewHost pm) with
      | None => (m, Ok (RStatus 400))
      | Some id =>
          if negb (bool_decide (qtok = [])) then
            match Verify (pm_secret pm) now qtok with
            | None => (m, Ok (RStatus 401))
            | Some payload => (m, Ok (if bool_decide (tp_SandboxID payload = id) then RRedirect qtok else RStatus 403))
            end
          else
            match cookie with
            | None => (m, Ok (RStatus 401))
            | Some tok =>
                if bool_decide (tok = []) then (m, Ok (RStatus 401))
                else
                  match Verify (pm_secret pm) now tok with
                  | None => (m, Ok (RStatus 401))
                  | Some payload => (m, Ok (if bool_decide (tp_SandboxID payload = id) then ServeRequest m (tp_SandboxID payload) (tp_Port payload) path else RStatus 403))
                  end
            end
      end
  end.

(** The port of [POST /sandboxes/{id}/preview/{port}]. *)
Definition parsePreviewPort (raw : list Z) : option Z := n ← ParseUint16 raw; if n =? 0 then None else Some n.

(** ** What a token says *)
Lemma split_on_nonempty sep a : split_on sep a ≠ [].
Proof. induction a as [|c a IH]; [done|]. cbn. destruct (split_on sep a); [done|]. by case_match. Qed.
Lemma split_on_app sep a b : sep ∉ a → split_on sep (a ++ [sep] ++ b) = a :: split_on sep b.
Proof.
  induction a as [|c a IH]; intros Ha; cbn [app split_on].
  - rewrite Z.eqb_refl. pose proof (split_on_nonempty sep b). by destruct (split_on sep b).
  - cbn [app] in IH. rewrite IH by set_solver. destruct (Z.eqb_spec c sep); [set_solver|done].
Qed.
Lemma split_on_none sep a : sep ∉ a → split_on sep a = [a].
Proof. induction a as [|c a IH]; intros Ha; [done|]. cbn [split_on]. rewrite IH by set_solver. destruct (Z.eqb_spec c sep); [set_solver|done]. Qed.
(** The number of parts is one more than the number of separators. *)
Lemma split_on_length sep a b : length (split_on sep (a ++ [sep] ++ b)) = (length (split_on sep a) + length (split_on sep b))%nat.
Proof.
  induction a as [|c a IH]; cbn [app split_on].
  - rewrite Z.eqb_refl. pose proof (split_on_nonempty sep b). destruct (split_on sep b); done.
  - cbn [app] in IH. pose proof (split_on_nonempty sep (a ++ sep :: b)). pose proof (split_on_nonempty sep a). destruct (split_on sep (a ++ sep :: b)), (split_on sep a); try done. cbn in *. destruct (c =? sep); cbn; lia.
Qed.
Lemma split_on_has sep a : sep ∈ a → (2 ≤ length (split_on sep a))%nat.
Proof.
  intros (x & y & ->)%list_elem_of_split. change (x ++ sep :: y) with (x ++ [sep] ++ y). rewrite split_on_length. pose proof (split_on_nonempty sep x). pose proof (split_on_nonempty sep y). destruct (split_on sep x), (split_on sep y); cbn; try done; lia.
Qed.
Lemma trim_magic_app p s : trim_magic p (p ++ s) = Some s.
Proof. induction p as [|c p IH]; [done|]. cbn. by rewrite Z.eqb_refl. Qed.
Lemma digits_plain n : 0 ≤ n → Forall (fun c => 48 ≤ c ≤ 57) (fmt_uint 10 n).
Proof. apply fmt_digits_plain. Qed.
Lemma digits_no c n : 0 ≤ n → ¬ 48 ≤ c ≤ 57 → c ∉ fmt_uint 10 n.
Proof. intros Hn Hc Hin. pose proof (digits_plain n Hn) as H. rewrite Forall_forall in H. by apply H in Hin. Qed.
Lemma FormatInt_no c v : ¬ 48 ≤ c ≤ 57 → c ≠ 45 → c ∉ FormatInt v.
Proof. intros H1 H2. unfold FormatInt. destruct (Z.ltb_spec v 0); [|by apply digits_no]. intros [?|Hin]%elem_of_cons; [done|]. revert Hin. by apply digits_no; [lia|]. Qed.
Lemma ParseUint16_fmt n : 0 ≤ n < 65536 → ParseUint16 (fmt_uint 10 n) = Some n.
Proof.
  intros Hn. destruct (digits_of_fmt 64 n) as [Hv (c & l & Hl & Hc)]; [split; [lia|]; apply (Z.lt_trans _ 65536); [lia|reflexivity]|lia|]. unfold ParseUint16, fmt_uint. rewrite bool_decide_eq_false_2 by (by rewrite Hl). rewrite Hv. cbn [mbind option_bind]. by destruct (Z.ltb_spec n 65536); [|lia].
Qed.
Lemma Atoi_FormatInt v : - 2 ^ 63 < v < 2 ^ 63 → Atoi (FormatInt v) = Some v.
Proof.
  intros Hv. unfold FormatInt. destruct (Z.ltb_spec v 0); [|by apply Atoi_fmt; lia]. destruct (digits_of_fmt 64 (- v)) as [Hd (c & l & Hl & Hc)]; [split; [lia|]; apply (Z.lt_trans _ (2 ^ 63)); [lia|reflexivity]|lia|]. unfold Atoi. unfold fmt_uint. rewrite Hl in *. rewrite zlen_cons. pose proof (zlen_nonneg l). destruct (Z.eqb_spec (zlen l + 1) 0); [lia|]. destruct (Z.eqb_spec (1 + zlen l) 0); try lia. rewrite Hd. cbn [mbind option_bind].
  rewrite Z.opp_involutive. destruct (Z.leb_spec (- 2 ^ 63) v); [|lia]. destruct (Z.ltb_spec v (2 ^ 63)); [done|lia].
Qed.
(** The fields are in the range of their types. *)
Definition payload_ok (q : TokenPayload) : Prop := bytes (tp_SandboxID q) ∧ 0 ≤ tp_Port q < 65536 ∧ ∀ t, tp_ExpiresAt q = Some t → - 2 ^ 63 < Unix t < 2 ^ 63.
(** What the token keeps of a payload: whole seconds. *)
Definition kept (q : TokenPayload) : TokenPayload := mkPayload (tp_SandboxID q) (tp_Port q) (match tp_ExpiresAt q with Some t => if Unix t =? 0 then None else Some (Unix t * second_ns) | None => None end).
Lemma parse_canonical q : payload_ok q → parseCanonical (canonicalString q) = if bool_decide (124 ∈ tp_SandboxID q) then None else Some (kept q).
Proof.
  intros (_ & Hp & Ht). unfold parseCanonical, canonicalString. rewrite trim_magic_app. cbn [mbind option_bind]. set (e := match tp_ExpiresAt q with Some t => Unix t | None => 0 end). assert (- 2 ^ 63 < e < 2 ^ 63) as He by (unfold e; destruct (tp_ExpiresAt q); [by apply Ht|lia]).
  assert (split_on 124 (fmt_uint 10 (tp_Port q) ++ [124] ++ FormatInt e) = [fmt_uint 10 (tp_Port q); FormatInt e]) as Hs by (rewrite split_on_app, split_on_none; [done|apply FormatInt_no; lia|apply digits_no; lia]). case_bool_decide as Hid.
  - pose proof (split_on_length 124 (tp_SandboxID q) (fmt_uint 10 (tp_Port q) ++ [124] ++ FormatInt e)) as Hl. rewrite Hs in Hl. pose proof (split_on_has 124 _ Hid) as H2. cbn [length] in Hl. destruct (split_on 124 (tp_SandboxID q ++ _)) as [|a [|b [|c [|d l]]]]; try done; cbn [length] in Hl; lia.
  - rewrite split_on_app, Hs by done. rewrite ParseUint16_fmt by done. cbn [mbind option_bind]. rewrite Atoi_FormatInt by done. cbn [mbind option_bind]. unfold kept. unfold e. by destruct (tp_ExpiresAt q).
Qed.
(** Nobody without the key signs: a signature that is presented and right is over a message that was signed. *)
Definition unforged (secret : list Z) (signed : list TokenPayload) (token : list Z) : Prop :=
  ∀ msg sig, token_parts token = Some (msg, sig) → sig = mac secret msg → ∃ q, q ∈ signed ∧ msg = canonicalString q.
(** The moment until which the token of a payload is good. *)
Definition in_time (q : TokenPayload) (now : Z) : Prop := ∀ t, tp_ExpiresAt (kept q) = Some t → now ≤ t.
Lemma Verify_sound secret signed now token p : Forall payload_ok signed → unforged secret signed token → Verify secret now token = Some p → ∃ q, q ∈ signed ∧ p = kept q ∧ in_time q now.
Proof.
  intros Hok Hu. unfold Verify. destruct (token_parts token) as [[msg sig]|] eqn:E; [|done]. cbn [mbind option_bind]. case_bool_decide as Hs; [|done]. cbn [negb]. destruct (Hu msg sig E Hs) as (q & Hq & ->). rewrite Forall_forall in Hok. rewrite parse_canonical by auto. case_bool_decide; [done|]. cbn [mbind option_bind]. unfold in_time.
  intros Hv. exists q. split; [done|]. destruct (tp_ExpiresAt (kept q)) as [t|] eqn:Et; [|by injection Hv]. destruct (Z.ltb_spec t now); [done|]. injection Hv as <-. split; [done|]. by intros t' [= <-].
Qed.
Lemma canonical_bytes q : payload_ok q → bytes (canonicalString q).
Proof.
  intros (Hb & Hp & Ht). unfold canonicalString. assert (∀ n, 0 ≤ n → bytes (fmt_uint 10 n)) as Hf by (intros n Hn; eapply Forall_impl; [by apply digits_plain|]; intros c Hc; unfold is_byte; cbn in Hc; lia).
  apply Forall_app. split; [by vm_compute; repeat constructor|]. apply Forall_app. split; [done|]. apply Forall_app. split; [by repeat constructor|]. apply Forall_app. split; [apply Hf; lia|]. apply Forall_app. split; [by repeat constructor|]. unfold FormatInt. generalize (match tp_ExpiresAt q with Some t => Unix t | None => 0 end). intros v. destruct (Z.ltb_spec v 0); [constructor; [done|apply Hf; lia]|by apply Hf].
Qed.
Lemma split_first_app sep a b : sep ∉ a → split_first sep (a ++ [sep] ++ b) = (a, Some b).
Proof. induction a as [|c a IH]; intros Ha; cbn [app split_first]; [by rewrite Z.eqb_refl|]. cbn [app] in IH. rewrite IH by set_solver. destruct (Z.eqb_spec c sep); [set_solver|done]. Qed.
Lemma encoded_no c l : bytes l → b64_val c = None → c ∉ EncodeValue l.
Proof. intros Hb Hc Hin. pose proof (b64_alphabet l Hb) as H. rewrite Forall_forall in H. apply H in Hin. unfold b64_alpha in Hin. rewrite Hc in Hin. by destruct Hin. Qed.
Lemma token_parts_Sign secret q : payload_ok q → bytes (mac secret (canonicalString q)) → token_parts (Sign secret q) = Some (canonicalString q, mac secret (canonicalString q)).
Proof.
  intros Hq Hm. pose proof (canonical_bytes q Hq) as Hb. unfold token_parts, Sign. rewrite split_first_app by (by apply encoded_no). rewrite !DecodeValue_EncodeValue by done. done.
Qed.
(** A token is accepted exactly until its second ends, if the sandbox's name has no bar. *)
Lemma Verify_Sign secret q now : payload_ok q → bytes (mac secret (canonicalString q)) → Verify secret now (Sign secret q) = if bool_decide (124 ∈ tp_SandboxID q) then None else match tp_ExpiresAt (kept q) with Some t => if t <? now then None else Some (kept q) | None => Some (kept q) end.
Proof. intros Hq Hm. unfold Verify. rewrite token_parts_Sign by done. cbn [mbind option_bind]. rewrite bool_decide_eq_true_2 by done. cbn [negb]. rewrite parse_canonical by done. by case_bool_decide. Qed.

(** ** Requests *)
Inductive request := ReqPath (path : list Z) | ReqHost (host qtok : list Z) (cookie : option (list Z)) (path : list Z).
Definition serve (rnd : option (list Z)) (now : Z) (r : request) (m : Manager) : Manager * res preview_err response :=
  match r with ReqPath path => ServePreview rnd now path m | ReqHost host qtok cookie path => ServePreviewHost rnd now host qtok cookie path m end.
(** The tokens that a request shows. *)
Definition shown (r : request) : list (list Z) :=
  match r with ReqPath path => [(split_first 47 (trim_path path)).1] | ReqHost _ qtok cookie _ => qtok :: option_list cookie end.
(** The secret the manager signs with, once it is set up. *)
Definition has_secret (m : Manager) (pm : previewManager) : Prop := m_previewInit m = true ∧ m_previewMgr m = Some pm.
Lemma ensure_ready rnd m pm : has_secret m pm → ensurePreviewManager rnd m = (m, (Some pm, None)).
Proof. intros [H1 H2]. unfold ensurePreviewManager. by rewrite H1, H2. Qed.
Lemma ServeRequest_proxied m id port path uds id' port' path' : ServeRequest m id port path = RProxied uds id' port' path' → id' = id ∧ port' = port ∧ path' = path ∧ m_Store m !! id = Some uds ∧ uds ≠ [].
Proof. unfold ServeRequest, UDSPathForSandbox. destruct (m_Store m !! id) as [u|]; [|done]. case_bool_decide; [done|]. by intros [= -> -> -> ->]. Qed.


(** A minted link works until its second ends.  The link that [MintPreview] makes for a sandbox in
    the store, whose name has no bar, followed by any path, is passed on to that sandbox's socket,
    port and path at every moment up to the whole second of the expiry; after it the answer is 401. *)
Theorem preview_link_works rnd now0 now1 id port uds sub m pm m' mint : has_secret m pm → m_Store m !! id = Some uds → uds ≠ [] → 124 ∉ id → bytes id → 0 ≤ port < 65536 → 0 < Unix (now0 + pm_defaultTTL pm) < 2 ^ 63 → (∀ msg, bytes (mac (pm_secret pm) msg)) →
  MintPreview rnd now0 id port m = (m', Ok mint) →
  m' = m ∧ ServePreview rnd now1 (mp_URL mint ++ sub) m = (m, Ok (if Unix (mp_ExpiresAt mint) * second_ns <? now1 then RStatus 401 else RProxied uds id port (47 :: sub))).
Proof.
  intros Hm Hst Hu Hid Hb Hp Ht Hmac. unfold MintPreview. rewrite Hst, (ensure_ready rnd m pm Hm). set (q := mkPayload id port (Some (now0 + pm_defaultTTL pm))). set (link := previewsPrefix ++ _). intros H. assert (m' = m ∧ mp_URL mint = link ∧ mp_ExpiresAt mint = now0 + pm_defaultTTL pm) as (-> & Hlink & ->) by (injection H; intros <- <-; done). split; [done|]. rewrite Hlink. unfold link. clear Hlink link H. assert (payload_ok q) as Hq by (split; [done|]; split; [done|]; intros t [= <-]; lia).
  unfold ServePreview. rewrite (ensure_ready rnd m pm Hm). unfold trim_path. rewrite <- !app_assoc, trim_magic_app. unfold default, from_option, Datatypes.id. rewrite split_first_app. 2: { unfold Sign. intros [Hin|[Hin|Hin]%elem_of_app]%elem_of_app; [revert Hin; by apply encoded_no; [apply canonical_bytes|]|by apply list_elem_of_singleton in Hin|revert Hin; by apply encoded_no; [apply Hmac|]]. }
  rewrite bool_decide_eq_false_2. 2: { unfold Sign. intros [_ He]%app_nil. done. } rewrite (Verify_Sign (pm_secret pm) q now1 Hq (Hmac _)). rewrite bool_decide_eq_false_2 by done. unfold kept. cbn [q tp_ExpiresAt tp_SandboxID tp_Port]. destruct (Z.eqb_spec (Unix (now0 + pm_defaultTTL pm)) 0); [lia|]. destruct (Unix (now0 + pm_defaultTTL pm) * second_ns <? now1); [done|].
  cbn [tp_SandboxID tp_Port]. unfold ServeRequest, UDSPathForSandbox. rewrite Hst. by rewrite bool_decide_eq_false_2.
Qed.

(** A key that is too short: the first request is told so, the next one crashes. *)
Lemma short_key_panics rnd now now' m path : m_previewInit m = false → m_PreviewSigningKey m ≠ [] → zlen (m_PreviewSigningKey m) < 32 → (split_first 47 (trim_path path)).1 ≠ [] →
  ∃ m', ServePreview rnd now path m = (m', Ok (RStatus 501)) ∧ (ServePreview rnd now' path m').2 = Panic.
Proof.
  intros Hi Hk Hl Hp. unfold ServePreview at 1. unfold ensurePreviewManager. rewrite Hi, bool_decide_eq_false_2 by done. unfold NewSigner. destruct (Z.ltb_spec (zlen (m_PreviewSigningKey m)) 32); [|lia]. eexists. split; [done|]. unfold ServePreview, ensurePreviewManager. cbn [m_previewInit set_mgr m_previewMgr]. destruct (split_first 47 (trim_path path)). cbn [fst] in Hp. by rewrite bool_decide_eq_false_2.
Qed.
(** A payload that expires within the first second of 1970 never does. *)
Lemma epoch_never_expires q t : tp_ExpiresAt q = Some t → 0 ≤ t < second_ns → tp_ExpiresAt (kept q) = None.
Proof. intros H Ht. unfold kept. cbn. rewrite H. unfold Unix. by rewrite Z.div_small. Qed.
End preview.

(** ** Witnesses, with a checksum in the place of the signature *)
Definition mac_example (key msg : list Z) : list Z := [(foldr Z.add 0 key + foldr Z.add 0 msg) mod 256].
Definition manager_example : Manager := mkManager [] 0 [] {[sbytes "sb-1" := sbytes "/run/sb-1.sock"]} true (Some (mkPM (replicate 32 7) (3600 * second_ns) (sbytes "sbx.localhost"))).
Definition payload_example : TokenPayload := mkPayload (sbytes "sb-1") 8080 (Some (5000 * second_ns)).
Definition token_example : list Z := Sign mac_example (replicate 32 7) payload_example.
Lemma preview_link_works_witness : ∃ mint, MintPreview mac_example None 0 (sbytes "sb-1") 8080 manager_example = (manager_example, Ok mint) ∧
  ServePreview mac_example None (10 * second_ns) (mp_URL mint ++ sbytes "a/b") manager_example = (manager_example, Ok (RProxied (sbytes "/run/sb-1.sock") (sbytes "sb-1") 8080 (sbytes "/a/b"))).
Proof.
  eexists. split; [vm_compute; reflexivity|]. eapply (preview_link_works mac_example None 0 (10 * second_ns) (sbytes "sb-1") 8080 (sbytes "/run/sb-1.sock") (sbytes "a/b") manager_example (mkPM (replicate 32 7) (3600 * second_ns) (sbytes "sbx.localhost"))); [by split|done|done|by vm_compute; set_solver|by vm_compute; repeat constructor|done|by vm_compute| |vm_compute; reflexivity].
  intros msg. constructor; [|constructor]. unfold is_byte. apply Z.mod_pos_bound. done.
Defined.
