(* ===== verification/GoText.v ===== *)
(** * Text as the Go sources handle it

    A Go string is a sequence of bytes, here a [list Z].  This file holds the
    functions of the packages [strings] and [sort] that the compose and network
    models use: the order of strings, [sort.Strings] (a merge sort: a sorted
    permutation is unique, so the algorithm does not matter), [TrimSpace] on
    UTF-8 text and the case mappings that the sources compare keywords with. *)
From stdpp Require Import sorting.
From S2P Require Import Prelude.

Abbreviation str := (list Z).

(** ** The order of strings and [sort.Strings] *)

Fixpoint str_leb (a b : str) : bool :=
  match a, b with
  | [], _ => true
  | _ :: _, [] => false
  | x :: a, y :: b => (x <? y) || ((x =? y) && str_leb a b)
  end.
Definition str_le : relation str := fun a b => str_leb a b = true.
#[export] Instance str_le_dec a b : Decision (str_le a b).
Proof. unfold str_le. apply _. Defined.
#[export] Instance str_le_total : Total str_le.
Proof.
  intros a. induction a as [|x a IH]; intros [|y b]; unfold str_le; simpl; auto.
  destruct (Z.ltb_spec x y); [by left|]. destruct (Z.ltb_spec y x); [by right|].
  assert (x = y) as -> by lia. rewrite !Z.eqb_refl. simpl. apply IH.
Qed.
#[export] Instance str_le_trans : Transitive str_le.
Proof.
  intros a. induction a as [|x a IH]; intros [|y b] [|z c]; unfold str_le in *; simpl; auto; try discriminate.
  rewrite !orb_true_iff, !andb_true_iff, !Z.ltb_lt, !Z.eqb_eq.
  intros [?|[-> ?]] [?|[-> ?]]; [left; lia | left; lia | left; lia | right; split; [done|]]. by apply (IH b).
Qed.
#[export] Instance str_le_antisym : AntiSymm (=) str_le.
Proof.
  intros a. induction a as [|x a IH]; intros [|y b]; unfold str_le in *; simpl; auto; try discriminate.
  rewrite !orb_true_iff, !andb_true_iff, !Z.ltb_lt, !Z.eqb_eq.
  intros [?|[-> ?]] [?|[? ?]]; [lia | lia | lia |]. f_equal. by apply IH.
Qed.

Definition sort_strings (l : list str) : list str := merge_sort str_le l.

Lemma sort_strings_perm l : sort_strings l ≡ₚ l.
Proof. apply merge_sort_Permutation. Qed.
Lemma elem_sort x l : x ∈ sort_strings l ↔ x ∈ l.
Proof. by rewrite sort_strings_perm. Qed.
Lemma NoDup_sort l : NoDup (sort_strings l) ↔ NoDup l.
Proof. by rewrite sort_strings_perm. Qed.
(** Sorting forgets the order it was given, for instance the order in which a
    Go map is ranged over. *)
Lemma sort_strings_canonical l k : l ≡ₚ k → sort_strings l = sort_strings k.
Proof.
  intros Hp. apply (Sorted_unique str_le); try apply Sorted_merge_sort, _.
  by rewrite !sort_strings_perm.
Qed.

(** The keys of a map in the order of [sort.Strings]. *)
Definition sorted_keys {A} (m : gmap str A) : list str := sort_strings (map_to_list m).*1.

Lemma elem_sorted_keys {A} (m : gmap str A) x : x ∈ sorted_keys m ↔ is_Some (m !! x).
Proof.
  unfold sorted_keys. rewrite elem_sort, list_elem_of_fmap. split.
  - intros [[k v] [-> Hin]]. apply elem_of_map_to_list in Hin. eauto.
  - intros [v Hv]. exists (x, v). split; [done|]. by apply elem_of_map_to_list.
Qed.
Lemma NoDup_sorted_keys {A} (m : gmap str A) : NoDup (sorted_keys m).
Proof. unfold sorted_keys. rewrite NoDup_sort. apply NoDup_fst_map_to_list. Qed.
Lemma length_sorted_keys {A} (m : gmap str A) : length (sorted_keys m) = size m.
Proof. unfold sorted_keys. by rewrite sort_strings_perm, length_fmap, length_map_to_list. Qed.

(** ** [strings.TrimSpace]

    The white space of Unicode and its UTF-8 encodings: [space_at l] is the
    length of the encoded space at the head of [l], 0 when there is none. *)
Definition space_at (l : str) : nat :=
  match l with
  | 194 :: b :: _ => if (b =? 133) || (b =? 160) then 2%nat else 0%nat
  | 225 :: 154 :: 128 :: _ => 3%nat
  | 226 :: 128 :: b :: _ =>
      if ((128 <=? b) && (b <=? 138)) || (b =? 168) || (b =? 169) || (b =? 175) then 3%nat else 0%nat
  | 226 :: 129 :: 159 :: _ => 3%nat
  | 227 :: 128 :: 128 :: _ => 3%nat
  | b :: _ => if ((9 <=? b) && (b <=? 13)) || (b =? 32) then 1%nat else 0%nat
  | [] => 0%nat
  end.
(** The length of the encoded space at the end of a text given in reverse. *)
Definition space_end (r : str) : nat :=
  let '(n1, n2, n3) := (space_at (take 1 r), space_at (reverse (take 2 r)), space_at (reverse (take 3 r))) in
  if (n1 =? 1)%nat then 1%nat else if (n2 =? 2)%nat then 2%nat else if (n3 =? 3)%nat then 3%nat else 0%nat.
Fixpoint trim_by (at_head : str → nat) (fuel : nat) (l : str) : str :=
  match fuel with
  | O => l
  | S fuel => match at_head l with O => l | n => trim_by at_head fuel (drop n l) end
  end.
Definition TrimSpace (l : str) : str :=
  let l := trim_by space_at (length l) l in
  reverse (trim_by space_end (length l) (reverse l)).

(** ** Case mappings

    [ToLower] and [ToUpper] on the letters the sources compare with: the ASCII
    ones, and the one other rune whose upper case is the letter of a keyword
    compared with here, the long s (U+017F, bytes 197 191).  Two ASCII texts
    without K and S are equal under [EqualFold] when their lower cases are. *)
Definition lower (c : Z) : Z := if (65 <=? c) && (c <=? 90) then c + 32 else c.
Definition upper (c : Z) : Z := if (97 <=? c) && (c <=? 122) then c - 32 else c.
Fixpoint ToUpper (l : str) : str :=
  match l with
  | 197 :: 191 :: l => 83 :: ToUpper l
  | c :: l => upper c :: ToUpper l
  | [] => []
  end.
Definition ToLower (l : str) : str := lower <$> l.
Definition EqualFold (a b : str) : bool := bool_decide (ToLower a = ToLower b).

Definition ascii_texts : list str := [[32; 9; 65; 32; 66; 10]; [194; 160; 65; 226; 128; 137]; [32; 32]].
Example trim_texts : TrimSpace <$> ascii_texts = [[65; 32; 66]; [65]; []].
Proof. vm_compute. reflexivity. Qed.
