(* ===== verification/Compose.v ===== *)
(** * Compose stacks: start order and start-up (src/internal/compose)

    A compose file names services and their dependencies; [Up] sorts them,
    plans the network (StackNet.v) and starts one virtual machine per service.
    Modelled here: [sortServices] (Kahn's algorithm, with the order in which Go
    ranges over the map of services as an argument), [dependencyGroups], the
    dependency checks, the health checks and [startAll] with
    [waitForDependencies].  What the machines do, the start of a machine, the
    outcome of a health probe, the clock and the exit code of a finished guest,
    is the environment [Env]: every interaction is numbered, so that the same
    question may have another answer later. *)
From stdpp Require Import relations.
From S2P Require Import Prelude Stream Fdt GoText.

(** ** The compose file *)

Record ServiceDependency := mkDependency { Condition : str; Required : bool; Restart : bool }.
Definition service_started : str := sbytes "service_started".
Definition service_healthy : str := sbytes "service_healthy".
Definition service_completed : str := sbytes "service_completed_successfully".
(** Durations are in nanoseconds; [None] is a nil pointer. *)
Record HealthCheckConfig := mkHealthCheck {
  hcc_Test : list str;
  hcc_Interval : option Z;
  hcc_Timeout : option Z;
  hcc_StartPeriod : option Z;
  hcc_Retries : option Z;
  hcc_Disable : bool;
}.
(** The fields of a service that the start-up reads. *)
Record Service := mkService {
  DependsOn : gmap str ServiceDependency;
  HealthCheck : option HealthCheckConfig;
  Build : bool;
  Image : str;
}.
Abbreviation Services := (gmap str Service).

Inductive compose_err :=
  | EUnknownDependency (name dep : str)
  | ECircular
  | ERestart (name dep : str)
  | EDependencyFailed (name dep : str)
  | EDependencyCondition (name dep cond : str)
  | EDependencyHealth (name dep : str)
  | ENoHealthcheck (name : str)
  | ENotHealthy (name : str)
  | EExited (name dep : str) (code : Z)
  | ECompletion (name dep : str)
  | ENoSource (name : str)
  | EStart (name : str).

(** ** Dependencies *)

Definition dependsOn (svc : Service) : list str := sorted_keys (DependsOn svc).

(** [dependsOn(services[name])]: a name that is not in the map gives the zero
    service, which depends on nothing. *)
Definition deps_of (services : Services) (name : str) : list str :=
  match services !! name with Some svc => dependsOn svc | None => [] end.

Definition dependsOnSpecs (svc : Service) : gmap str ServiceDependency :=
  (fun d => mkDependency (TrimSpace (Condition d)) (Required d) (Restart d)) <$> DependsOn svc.
Definition dependsOnConditions (svc : Service) : gmap str str := Condition <$> dependsOnSpecs svc.

(** [rng] is the order in which the map of services is ranged over. *)
Definition validateServiceDependencies (rng : list str) (services : Services) : res compose_err unit :=
  for_each (fun name _ =>
    match services !! name with
    | None => Ok tt
    | Some svc =>
        for_each (fun nd (_ : unit) => if Restart nd.2 then Err (ERestart name nd.1) else Ok tt)
          (map_to_list (dependsOnSpecs svc)) tt
    end) rng tt.

(** ** sortServices *)

Abbreviation degrees := (gmap str Z).
Abbreviation followers := (gmap str (list str)).
Definition count_of (ind : degrees) (n : str) : Z := default 0 (ind !! n).
Definition followers_of (m : followers) (n : str) : list str := default [] (m !! n).

Definition add_dependency (services : Services) (name dep : str) (st : degrees * followers)
    : res compose_err (degrees * followers) :=
  match services !! dep with
  | None => Err (EUnknownDependency name dep)
  | Some _ =>
      Ok (<[name := count_of st.1 name + 1]> st.1, <[dep := followers_of st.2 dep ++ [name]]> st.2)
  end.
Definition add_service (services : Services) (name : str) (st : degrees * followers)
    : res compose_err (degrees * followers) :=
  for_each (add_dependency services name) (deps_of services name) st.

(** One dependent of the service that was taken from the queue. *)
Definition release (st : degrees * list str) (dependent : str) : degrees * list str :=
  let n := count_of st.1 dependent - 1 in
  (<[dependent := n]> st.1, if n =? 0 then st.2 ++ [dependent] else st.2).
Fixpoint kahn (fuel : nat) (dependents : followers) (ind : degrees) (queue order : list str)
    : res compose_err (list str) :=
  match queue with
  | [] => Ok order
  | name :: queue =>
      match fuel with
      | O => NoFuel
      | S fuel =>
          let '(ind, queue) := foldl release (ind, queue) (followers_of dependents name) in
          kahn fuel dependents ind queue (order ++ [name])
      end
  end.

Definition sortServices (rng : list str) (services : Services) : res compose_err (list str) :=
  let names := sort_strings rng in
  '(ind, dependents) ← for_each (add_service services) rng ((fun _ => 0) <$> services, ∅);
  let dependents := sort_strings <$> dependents in
  let queue := filter (fun name => count_of ind name = 0) names in
  order ← kahn (size services) dependents ind queue [];
  if bool_decide (length order = size services) then Ok order else Err ECircular.

(** ** dependencyGroups *)

Definition level_of (level : gmap str nat) (n : str) : nat := default 0%nat (level !! n).
Definition set_level (services : Services) (st : gmap str nat * nat) (name : str) : gmap str nat * nat :=
  let cur := foldl (fun cur dep => if (cur <? level_of st.1 dep + 1)%nat then (level_of st.1 dep + 1)%nat else cur) 0%nat (deps_of services name) in
  (<[name := cur]> st.1, if (st.2 <? cur)%nat then cur else st.2).
Definition dependencyGroups (order : list str) (services : Services) : list (list str) :=
  match order with
  | [] => []
  | _ =>
      let '(level, maxLevel) := foldl (set_level services) (∅, 0%nat) order in
      (fun k => filter (fun n => level_of level n = k) order) <$> seq 0 (S maxLevel)
  end.

(** ** Health checks *)

(** The health check of an image configuration. *)
Record ImageHealth := mkImageHealth {
  ih_Test : list str;
  ih_Interval : Z;
  ih_Timeout : Z;
  ih_StartPeriod : Z;
  ih_StartInterval : Z;
  ih_Retries : Z;
}.
Record effectiveHealth := mkHealth {
  eh_Test : list str;
  eh_Interval : Z;
  eh_Timeout : Z;
  eh_StartPeriod : Z;
  eh_StartInterval : Z;
  eh_Retries : Z;
}.
Definition thirty_seconds : Z := 30 * 1000000000.
Definition defaultHealthDurationPtr (raw : option Z) (fallback : Z) : Z := default fallback raw.
Definition isHealthcheckDisabled (test : list str) : bool :=
  match test with t :: _ => EqualFold t (sbytes "NONE") | [] => false end.

(** The error result of the function is always nil; [None] is the nil check. *)
Definition effectiveHealthcheck (svc : Service) (image : option ImageHealth) : option effectiveHealth :=
  match HealthCheck svc with
  | Some h =>
      if bool_decide (hcc_Test h = []) then None
      else
        let retries := match hcc_Retries h with Some n => i64 n | None => 0 end in
        let retries := if retries <=? 0 then 3 else retries in
        if hcc_Disable h || isHealthcheckDisabled (hcc_Test h) then None
        else
          Some (mkHealth (hcc_Test h) (defaultHealthDurationPtr (hcc_Interval h) thirty_seconds)
                  (defaultHealthDurationPtr (hcc_Timeout h) thirty_seconds)
                  (defaultHealthDurationPtr (hcc_StartPeriod h) 0) 0 retries)
  | None =>
      match image with
      | None => None
      | Some h =>
          if isHealthcheckDisabled (ih_Test h) then None
          else
            Some (mkHealth (ih_Test h) (if ih_Interval h =? 0 then thirty_seconds else ih_Interval h)
                    (if ih_Timeout h =? 0 then thirty_seconds else ih_Timeout h)
                    (ih_StartPeriod h) (ih_StartInterval h) (if ih_Retries h <=? 0 then 3 else ih_Retries h))
      end
  end.

Fixpoint join (sep : str) (l : list str) : str :=
  match l with [] => [] | [x] => x | x :: l => x ++ sep ++ join sep l end.
(** The command of a probe; [None] is the error "empty healthcheck command". *)
Definition normalizeHealthExecRequest (test : list str) : option (list str) :=
  match test with
  | [] => None
  | t :: rest =>
      if bool_decide (ToUpper t = sbytes "CMD") then (if bool_decide (rest = []) then None else Some rest)
      else if bool_decide (ToUpper t = sbytes "CMD-SHELL") then
        let shell := TrimSpace (join (sbytes " ") rest) in
        if bool_decide (shell = []) then None else Some [sbytes "/bin/sh"; sbytes "-lc"; shell]
      else Some test
  end.

(** ** The environment of a start-up

    [nat] numbers the interactions.  [env_run] is [container.Run] or the run
    request of the API: [None] when it fails, otherwise the health check of the
    image; [env_probe] the exit code of a command in the guest, [None] when it
    could not be run; [env_exit] the exit code a stopped guest left behind. *)
Record Env := mkEnv {
  env_run : nat → str → bool → option (option ImageHealth);
  env_running : nat → str → bool;
  env_attach : nat → str → bool;
  env_forward : nat → str → bool;
  env_probe : nat → str → list str → option Z;
  env_now : nat → Z;
  env_exit : nat → str → option Z;
}.

Definition probeHealthcheck (env : Env) (k : nat) (name : str) (hc : effectiveHealth) : bool * nat :=
  match normalizeHealthExecRequest (eh_Test hc) with
  | None => (false, k)
  | Some cmd => (bool_decide (env_probe env k name cmd = Some 0), S k)
  end.
Fixpoint health_loop (fuel : nat) (env : Env) (name : str) (hc : effectiveHealth) (deadline : option Z)
    (attempts : Z) (k : nat) : res compose_err unit * nat :=
  match fuel with
  | O => (NoFuel, k)
  | S fuel =>
      let '(ok, k) := probeHealthcheck env k name hc in
      if (ok : bool) then (Ok tt, k)
      else
        let attempts := attempts + 1 in
        let '(inStartPeriod, k) := match deadline with None => (false, k) | Some d => (env_now env k <? d, S k) end in
        if negb inStartPeriod && (eh_Retries hc <=? attempts) then (Err (ENotHealthy name), k)
        else health_loop fuel env name hc deadline attempts k
  end.
Definition waitForHealthy (fuel : nat) (env : Env) (name : str) (hc : effectiveHealth) (k : nat) : res compose_err unit * nat :=
  let '(deadline, k) := if 0 <? eh_StartPeriod hc then (Some (env_now env k + eh_StartPeriod hc), S k) else (None, k) in
  health_loop fuel env name hc deadline 0 k.

(** ** Starting the stack *)

(** [vm_VM] says whether there is a handle, [vm_apiClient] whether there is a
    client; the result holds the health check of the image. *)
Record RunResult := mkRunResult { rr_Health : option ImageHealth }.
Record ServiceVM := mkServiceVM {
  vm_VM : bool;
  vm_Result : option RunResult;
  vm_apiClient : bool;
  vm_Err : option compose_err;
}.
Inductive event :=
  | EvAttempt (n : str)
  | EvStarted (n : str)
  | EvHealthy (n : str)
  | EvCompleted (n : str) (code : Z).
(** The state of the stack, the maps of [startAll] and a record of what
    happened. *)
Record Stack := mkStack {
  st_services : gmap str ServiceVM;
  st_healthy : gset str;
  st_completed : gmap str Z;
  st_step : nat;
  st_log : list event;
}.
Definition M (A : Type) : Type := Stack → res compose_err A * Stack.
#[export] Instance M_ret : MRet M := fun A a s => (Ok a, s).
#[export] Instance M_bind : MBind M := fun A B f m s =>
  match m s with
  | (Ok a, s) => f a s
  | (Err e, s) => (Err e, s)
  | (Panic, s) => (Panic, s)
  | (NoFuel, s) => (NoFuel, s)
  end.
Definition fail {A} (e : compose_err) : M A := fun s => (Err e, s).
Definition get : M Stack := fun s => (Ok s, s).
Definition emit (e : event) : M unit := fun s =>
  (Ok tt, mkStack (st_services s) (st_healthy s) (st_completed s) (st_step s) (st_log s ++ [e])).
Definition set_service (n : str) (v : ServiceVM) : M unit := fun s =>
  (Ok tt, mkStack (<[n := v]> (st_services s)) (st_healthy s) (st_completed s) (st_step s) (st_log s)).
Definition set_healthy (n : str) : M unit := fun s =>
  (Ok tt, mkStack (st_services s) ({[n]} ∪ st_healthy s) (st_completed s) (st_step s) (st_log s)).
Definition set_completed (n : str) (c : Z) : M unit := fun s =>
  (Ok tt, mkStack (st_services s) (st_healthy s) (<[n := c]> (st_completed s)) (st_step s) (st_log s)).
Definition tick : M nat := fun s =>
  (Ok (st_step s), mkStack (st_services s) (st_healthy s) (st_completed s) (S (st_step s)) (st_log s)).
Fixpoint each {A} (f : A → M unit) (l : list A) : M unit :=
  match l with [] => mret tt | x :: l => f x ≫= fun _ => each f l end.

(** [err := f(); if err != nil]: the error as a value. *)
Definition try_ (m : M unit) : M (option compose_err) := fun s =>
  match m s with
  | (Ok _, s) => (Ok None, s)
  | (Err e, s) => (Ok (Some e), s)
  | (Panic, s) => (Panic, s)
  | (NoFuel, s) => (NoFuel, s)
  end.

(** A wait for health that leaves a record when it succeeds. *)
Definition wait_healthy (fuel : nat) (env : Env) (name : str) (hc : effectiveHealth) : M unit := fun s =>
  match waitForHealthy fuel env name hc (st_step s) with
  | (Ok _, k) => (Ok tt, mkStack (st_services s) (st_healthy s) (st_completed s) k (st_log s ++ [EvHealthy name]))
  | (Err e, k) => (Err e, mkStack (st_services s) (st_healthy s) (st_completed s) k (st_log s))
  | (Panic, k) => (Panic, s)
  | (NoFuel, k) => (NoFuel, s)
  end.

Definition requiredWith (cond : str) (services : Services) : gset str :=
  list_to_set (svc ← (map_to_list services).*2; nd ← map_to_list (dependsOnSpecs svc);
               if Required nd.2 && bool_decide (Condition nd.2 = cond) then [nd.1] else []).
Definition requiredHealthyServices : Services → gset str := requiredWith service_healthy.
Definition requiredCompletedServices : Services → gset str := requiredWith service_completed.

(** A started dependency: the health check of its image, [None] when its entry
    is missing or failed. *)
Definition usable (vm : option ServiceVM) : option RunResult :=
  v ← vm;
  match vm_Err v with
  | Some _ => None
  | None => r ← vm_Result v; if vm_VM v || vm_apiClient v then Some r else None
  end.
Definition zero_service : Service := mkService ∅ None false [].
Definition service_of (services : Services) (n : str) : Service := default zero_service (services !! n).

(** One dependency.  Failures of an optional one are logged and passed over. *)
Definition waitForDependency (fuel : nat) (env : Env) (services : Services) (name dep : str) (spec : ServiceDependency) : M unit :=
  let give_in (e : compose_err) : M unit := if Required spec then fail e else mret tt in
  s ← get;
  match usable (st_services s !! dep) with
  | None => give_in (EDependencyFailed name dep)
  | Some result =>
      if bool_decide (Condition spec = []) || bool_decide (Condition spec = service_started) then mret tt
      else if bool_decide (Condition spec = service_healthy) then
        if bool_decide (dep ∈ st_healthy s) then mret tt
        else
          match effectiveHealthcheck (service_of services dep) (rr_Health result) with
          | None => give_in (ENoHealthcheck name)
          | Some hc =>
              r ← try_ (wait_healthy fuel env dep hc);
              match r with
              | Some _ => give_in (EDependencyHealth name dep)
              | None => set_healthy dep
              end
          end
      else if bool_decide (Condition spec = service_completed) then
        match st_completed s !! dep with
        | Some code => if code =? 0 then mret tt else give_in (EExited name dep code)
        | None =>
            k ← tick;
            match env_exit env k dep with
            | None => give_in (ECompletion name dep)
            | Some code =>
                emit (EvCompleted dep code) ≫= fun _ =>
                set_completed dep code ≫= fun _ =>
                if code =? 0 then mret tt else give_in (EExited name dep code)
            end
        end
      else fail (EDependencyCondition name dep (Condition spec))
  end.
Definition waitForDependencies (fuel : nat) (env : Env) (services : Services) (name : str) : M unit :=
  let deps := dependsOnSpecs (service_of services name) in
  each (fun dep => match deps !! dep with None => mret tt | Some spec => waitForDependency fuel env services name dep spec end)
    (sorted_keys deps).

(** [remote] says that the stack has an API client ([ServerURL]): the image's
    configuration is then not known. *)
Definition startService (env : Env) (remote : bool) (name : str) (svc : Service) (supervised : bool) : M ServiceVM :=
  if negb (Build svc) && bool_decide (Image svc = []) then fail (ENoSource name)
  else
    k ← tick;
    match env_run env k name supervised with
    | None => fail (EStart name)
    | Some health =>
        if (remote : bool) then
          k ← tick;
          if env_running env k name then mret (mkServiceVM false (Some (mkRunResult None)) true None) else fail (EStart name)
        else
          k ← tick;
          if negb (env_attach env k name) then fail (EStart name)
          else
            k ← tick;
            if negb (env_forward env k name) then fail (EStart name)
            else mret (mkServiceVM true (Some (mkRunResult health)) false None)
    end.

(** The entry of the stack after a start, and the wait for its health. *)
Definition await_health (fuel : nat) (env : Env) (services : Services) (name : str) (vm : ServiceVM) : M unit :=
  if bool_decide (name ∈ requiredHealthyServices services) then
    match vm_Result vm with
    | None => fun s => (Panic, s)
    | Some result =>
        match effectiveHealthcheck (service_of services name) (rr_Health result) with
        | None => fail (ENoHealthcheck name)
        | Some hc => wait_healthy fuel env name hc ≫= fun _ => set_healthy name
        end
    end
  else mret tt.
Definition launch (fuel : nat) (env : Env) (remote : bool) (services : Services) (name : str) : M unit := fun s =>
  match startService env remote name (service_of services name) (bool_decide (name ∈ requiredCompletedServices services)) s with
  | (Err e, s) => (set_service name (mkServiceVM false None false (Some e)) ≫= fun _ => fail e) s
  | (Panic, s) => (Panic, s)
  | (NoFuel, s) => (NoFuel, s)
  | (Ok vm, s) =>
      (set_service name vm ≫= fun _ => emit (EvStarted name) ≫= fun _ => await_health fuel env services name vm) s
  end.
Definition start_one (fuel : nat) (env : Env) (remote : bool) (services : Services) (name : str) : M unit :=
  waitForDependencies fuel env services name ≫= fun _ =>
  emit (EvAttempt name) ≫= fun _ =>
  launch fuel env remote services name.
Definition startAll (fuel : nat) (env : Env) (remote : bool) (order : list str) (services : Services) : M unit :=
  each (start_one fuel env remote services) order.

Definition new_stack : Stack := mkStack ∅ ∅ ∅ 0 [].
(** The part of [Up] between the parsed file and the running stack. *)
Definition up (fuel : nat) (env : Env) (remote : bool) (rng : list str) (services : Services) : res compose_err unit * Stack :=
  match validateServiceDependencies rng services with
  | Ok _ =>
      match sortServices rng services with
      | Ok order => startAll fuel env remote order services new_stack
      | Err e => (Err e, new_stack)
      | Panic => (Panic, new_stack)
      | NoFuel => (NoFuel, new_stack)
      end
  | Err e => (Err e, new_stack)
  | Panic => (Panic, new_stack)
  | NoFuel => (NoFuel, new_stack)
  end.

(** ** What a correct order is *)

Section order_props.
Context (services : Services).

Definition depends (n d : str) : Prop := d ∈ deps_of services n.
#[local] Instance depends_dec n d : Decision (depends n d).
Proof. unfold depends. apply _. Defined.
#[local] Typeclasses Opaque depends.
(** Every dependency stands before the service that has it. *)
Definition topological (order : list str) : Prop :=
  ∀ i n d, order !! i = Some n → depends n d → d ∈ take i order.
(** Every dependency is a service. *)
Definition known : Prop := ∀ n d, depends n d → is_Some (services !! d).

Lemma deps_NoDup n : NoDup (deps_of services n).
Proof. unfold deps_of. case_match; [apply NoDup_sorted_keys | constructor]. Qed.
Lemma depends_service n d : depends n d → is_Some (services !! n).
Proof. unfold depends, deps_of. case_match; [eauto | set_solver]. Qed.

(** *** The counts and the lists of dependents *)

Lemma count_insert ind n v m : count_of (<[n := v]> ind) m = if decide (n = m) then v else count_of ind m.
Proof. unfold count_of. destruct (decide (n = m)) as [->|?]; [by rewrite lookup_insert_eq | by rewrite lookup_insert_ne]. Qed.
Lemma followers_insert ms n v m :
  followers_of (<[n := v]> ms) m = if decide (n = m) then v else followers_of ms m.
Proof. unfold followers_of. destruct (decide (n = m)) as [->|?]; [by rewrite lookup_insert_eq | by rewrite lookup_insert_ne]. Qed.

Definition edge (ds : list str) (name d : str) : list str := if decide (d ∈ ds) then [name] else [].
Lemma add_dependencies_spec name ds st :
  NoDup ds →
  match for_each (add_dependency services name) ds st with
  | Ok st' =>
      (∀ n, count_of st'.1 n = count_of st.1 n + if decide (n = name) then zlen ds else 0) ∧
      (∀ d, followers_of st'.2 d = followers_of st.2 d ++ edge ds name d) ∧
      (∀ d, d ∈ ds → is_Some (services !! d))
  | Err e => ∃ d, e = EUnknownDependency name d ∧ d ∈ ds ∧ services !! d = None
  | _ => False
  end.
Proof.
  revert st. induction ds as [|d ds IH]; intros st Hnd; simpl.
  { splits; [|intros; by rewrite app_nil_r | set_solver]. intros n. case_decide; rewrite ?zlen_nil; lia. }
  apply NoDup_cons in Hnd as [Hd Hnd].
  destruct (add_dependency services name d st) eqn:Ea; unfold add_dependency in Ea;
    destruct (services !! d) eqn:Es; simplify_eq; simpl; [|by exists d; splits; [|left|]].
  match goal with |- context [for_each _ _ ?s] => specialize (IH s Hnd) end.
  case_match; try done; [|by destruct IH as (e' & -> & ? & ?); exists e'; splits; [|right|]].
  destruct IH as (Hc & Hf & Hk). splits.
  - intros n. rewrite Hc. simpl. rewrite count_insert, zlen_cons. repeat case_decide; subst; try done; lia.
  - intros e. rewrite Hf. simpl. rewrite followers_insert. unfold edge.
    repeat case_decide; subst; rewrite ?app_nil_r; try done; set_solver.
  - intros e [-> | He]%elem_of_cons; eauto.
Qed.

Lemma add_services_spec rng st done_ :
  NoDup (done_ ++ rng) →
  (∀ n, count_of st.1 n = if decide (n ∈ done_) then zlen (deps_of services n) else 0) →
  (∀ d, followers_of st.2 d = filter (fun n => depends n d) done_) →
  match for_each (add_service services) rng st with
  | Ok st' =>
      (∀ n, count_of st'.1 n = if decide (n ∈ done_ ++ rng) then zlen (deps_of services n) else 0) ∧
      (∀ d, followers_of st'.2 d = filter (fun n => depends n d) (done_ ++ rng)) ∧
      (∀ n d, n ∈ rng → depends n d → is_Some (services !! d))
  | Err e => ∃ n d, e = EUnknownDependency n d ∧ depends n d ∧ services !! d = None
  | _ => False
  end.
Proof.
  revert st done_. induction rng as [|n rng IH]; intros st done_ Hnd Hc Hf; simpl.
  { rewrite app_nil_r. split; [done|]. split; [done|set_solver]. }
  pose proof (add_dependencies_spec n (deps_of services n) st (deps_NoDup n)) as Ha.
  change (for_each (add_dependency services n) (deps_of services n) st) with (add_service services n st) in Ha.
  destruct (add_service services n st) as [st'|e| |]; simpl; try done; [|naive_solver].
  destruct Ha as (Ha1 & Ha2 & Ha3).
  specialize (IH st' (done_ ++ [n])). rewrite <- app_assoc in IH. simpl in IH.
  assert (n ∉ done_) as Hn by (apply NoDup_app in Hnd; set_solver).
  ospecialize (IH Hnd _ _).
  - intros m. rewrite Ha1, Hc. repeat case_decide; subst; try done; set_solver by lia.
  - intros d. rewrite Ha2, Hf, filter_app. by unfold edge.
  - case_match; try done. destruct IH as (?&?&Hk). splits; try done.
    intros m d [-> | Hm]%elem_of_cons; eauto.
Qed.

(** *** Kahn's loop *)

Lemma filter_ext_in {A} (P Q : A → Prop) `{∀ x, Decision (P x), ∀ x, Decision (Q x)} (l : list A) :
  (∀ x, x ∈ l → P x ↔ Q x) → filter P l = filter Q l.
Proof.
  induction l as [|x l IH]; intros HPQ; [done|]. rewrite !filter_cons, IH by (intros; apply HPQ; by right).
  specialize (HPQ x ltac:(left)). repeat case_decide; tauto.
Qed.

Lemma release_all fs ind q :
  NoDup fs →
  (∀ n, count_of (foldl release (ind, q) fs).1 n = count_of ind n - if decide (n ∈ fs) then 1 else 0) ∧
  (foldl release (ind, q) fs).2 = q ++ filter (fun n => count_of ind n = 1) fs.
Proof.
  revert ind q. induction fs as [|f fs IH]; intros ind q Hnd; simpl.
  { split; [intros n; lia | by rewrite app_nil_r]. }
  apply NoDup_cons in Hnd as [Hf Hnd].
  change (release (ind, q) f) with (<[f := count_of ind f - 1]> ind, if count_of ind f - 1 =? 0 then q ++ [f] else q).
  destruct (IH (<[f := count_of ind f - 1]> ind) (if count_of ind f - 1 =? 0 then q ++ [f] else q) Hnd) as [Hc Hq].
  rewrite Hq. split.
  - intros n. rewrite Hc, count_insert. repeat case_decide; subst; set_solver by lia.
  - rewrite filter_cons, (filter_ext_in _ (fun n => count_of ind n = 1) fs).
    + destruct (Z.eqb_spec (count_of ind f - 1) 0); case_decide; try lia; by rewrite <- ?app_assoc.
    + intros n Hn. rewrite count_insert. by case_decide; subst.
Qed.

(** How many dependencies of [n] are not in [order]. *)
Definition waiting (order : list str) (n : str) : Z := zlen (filter (.∉ order) (deps_of services n)).

Lemma waiting_snoc order name n :
  name ∉ order → waiting (order ++ [name]) n = waiting order n - if decide (name ∈ deps_of services n) then 1 else 0.
Proof.
  unfold waiting. intros Hn. pose proof (deps_NoDup n) as Hnd. revert Hnd.
  generalize (deps_of services n). intros ds. induction ds as [|d ds IH]; intros Hnd; [done|].
  apply NoDup_cons in Hnd as [Hd Hnd]. specialize (IH Hnd). rewrite !filter_cons.
  repeat case_decide; rewrite ?zlen_cons; set_solver by lia.
Qed.
Lemma waiting_0 order n : waiting order n = 0 ↔ ∀ d, depends n d → d ∈ order.
Proof.
  unfold waiting, depends. split.
  - intros H%zlen_0 d Hd. destruct (decide (d ∈ order)); [done|].
    assert (d ∈ filter (.∉ order) (deps_of services n)) as Hin by by apply list_elem_of_filter.
    rewrite H in Hin. by apply not_elem_of_nil in Hin.
  - intros H. rewrite filter_none; [done|]. intros d Hd Hn. auto.
Qed.

Record kinv (ind : degrees) (queue order : list str) : Prop := {
  ki_nodup : NoDup (order ++ queue);
  ki_count : ∀ n, is_Some (services !! n) → count_of ind n = waiting order n;
  ki_ready : ∀ n, n ∈ order ++ queue ↔ is_Some (services !! n) ∧ waiting order n = 0;
  ki_topo : topological order;
}.

Lemma topological_snoc order n : topological order → (∀ d, depends n d → d ∈ order) → topological (order ++ [n]).
Proof.
  intros Ht Hn i m d Hi Hd. apply lookup_app_Some in Hi as [Hi | [Hle Hi]].
  - rewrite take_app_le by (apply lookup_lt_Some in Hi; lia). eauto.
  - apply list_lookup_singleton_Some in Hi as [? <-]. rewrite take_app_ge by done. set_solver.
Qed.

Lemma kinv_step dependents ind name queue order :
  (∀ n, n ∈ followers_of dependents name ↔ depends n name) →
  NoDup (followers_of dependents name) →
  kinv ind (name :: queue) order →
  let st := foldl release (ind, queue) (followers_of dependents name) in
  kinv st.1 st.2 (order ++ [name]).
Proof.
  intros Hf Hnd [Hn Hc Hr Ht]. destruct (release_all (followers_of dependents name) ind queue Hnd) as [Hc' Hq]. simpl.
  assert (name ∉ order) as Hname by (apply NoDup_app in Hn; set_solver).
  assert (Hname' : ∀ d, depends name d → d ∈ order) by (apply waiting_0, Hr; set_solver).
  assert (Hw : ∀ n, waiting (order ++ [name]) n = waiting order n - if decide (n ∈ followers_of dependents name) then 1 else 0).
  { intros n. rewrite waiting_snoc by done. rewrite (decide_ext _ (n ∈ followers_of dependents name)); [done|].
    by rewrite Hf. }
  rewrite Hq. split.
  - replace ((order ++ [name]) ++ queue ++ _) with ((order ++ name :: queue) ++ filter (fun n => count_of ind n = 1) (followers_of dependents name)) by by rewrite <- !app_assoc.
    apply NoDup_app. splits; [done| |by apply NoDup_filter].
    intros n [_ Hn0]%Hr [Hn1 Hn2%Hf%depends_service]%list_elem_of_filter. rewrite Hc in Hn1 by done. lia.
  - intros n Hs. by rewrite Hc', Hw, Hc.
  - intros n. specialize (Hr n). rewrite Hw.
    assert (is_Some (services !! n) → 0 ≤ waiting order n) by (intros; apply zlen_nonneg).
    rewrite <- app_assoc. simpl. change (name :: queue ++ ?l) with ((name :: queue) ++ l). rewrite app_assoc, elem_of_app, Hr, list_elem_of_filter.
    pose proof (Hf n) as Hfn. destruct (decide (n ∈ followers_of dependents name)) as [Hin|Hin].
    + assert (is_Some (services !! n)) as Hs by (eapply depends_service, Hfn, Hin). rewrite Hc by done.
      assert (waiting order n ≠ 0) by (rewrite waiting_0; intros H0; by apply Hname, H0, Hfn).
      intuition lia.
    + intuition lia.
  - by apply topological_snoc.
Qed.

Lemma in_services_length l : NoDup l → (∀ n, n ∈ l → is_Some (services !! n)) → (length l ≤ size services)%nat.
Proof.
  intros Hnd Hl. rewrite <- length_sorted_keys. apply submseteq_length, NoDup_submseteq; [done|].
  intros n Hn. by apply elem_sorted_keys, Hl.
Qed.

Lemma kahn_spec fuel dependents ind queue order :
  (∀ d, NoDup (followers_of dependents d)) →
  (∀ d n, n ∈ followers_of dependents d ↔ depends n d) →
  kinv ind queue order → (size services ≤ fuel + length order)%nat →
  ∃ o ind', kahn fuel dependents ind queue order = Ok o ∧ kinv ind' [] o.
Proof.
  intros Hnd Hf. revert ind queue order. induction fuel as [|fuel IH]; intros ind [|name queue] order Hk Hlen; simpl; eauto.
  - exfalso. assert (length (order ++ name :: queue) ≤ size services)%nat as Hl.
    { apply in_services_length; [apply Hk|]. intros n Hn. by apply Hk in Hn as []. }
    rewrite length_app in Hl. simpl in Hl. lia.
  - pose proof (kinv_step dependents ind name queue order (Hf name) (Hnd name) Hk) as Hk'. simpl in Hk'.
    destruct (foldl release _ _) as [ind' queue'] eqn:E. simpl in Hk'. apply (IH _ _ _ Hk'). rewrite length_app. simpl. lia.
Qed.

(** *** Cycles *)

(** A walk that never leaves a finite set meets a state again. *)
Lemma walk_cycles {A} `{EqDecision A} (R : relation A) (U : list A) :
  (∀ x, x ∈ U → ∃ y, R x y ∧ y ∈ U) →
  ∀ k p x, NoDup (x :: p) → (x :: p) ⊆ U → (∀ z, z ∈ x :: p → rtc R z x) → (length U ≤ k + length p)%nat →
  ∃ y, tc R y y.
Proof.
  intros HU. induction k as [|k IH]; intros p x Hnd Hsub Hr Hk.
  { exfalso. assert (length (x :: p) ≤ length U)%nat as Hl by (apply submseteq_length, NoDup_submseteq; done).
    simpl in Hl. lia. }
  destruct (HU x) as (y & Hxy & Hy); [set_solver|].
  destruct (decide (y ∈ x :: p)) as [Hin|Hout].
  - exists y. eapply tc_rtc_l; [by apply Hr|]. by apply tc_once.
  - apply (IH (x :: p) y); [by constructor | set_solver | | simpl in *; lia].
    intros z [-> | Hz]%elem_of_cons; [done|]. eapply rtc_r; eauto.
Qed.

Lemma topological_acyclic order n :
  topological order → (∀ m d, depends m d → m ∈ order) → ¬ tc depends n n.
Proof.
  intros Ht Hin Hn.
  assert (Hlt : ∀ x y, tc depends x y → ∀ i, order !! i = Some x → ∃ j, (j < i)%nat ∧ order !! j = Some y).
  { assert (Hone : ∀ x y i, depends x y → order !! i = Some x → ∃ j, (j < i)%nat ∧ order !! j = Some y).
    { intros x y i Hxy Hi. pose proof (Ht _ _ _ Hi Hxy) as Hy. apply list_elem_of_lookup in Hy as [j Hj].
      apply lookup_take_Some in Hj as [? ?]. eauto. }
    induction 1 as [x y Hxy | x y z Hxy _ IH]; intros i Hi; [eauto|].
    destruct (Hone _ _ _ Hxy Hi) as (j & ? & Hj). destruct (IH _ Hj) as (k & ? & ?). exists k. split; [lia | done]. }
  assert (n ∈ order) as [i Hi]%list_elem_of_lookup by (inversion Hn; eauto).
  revert Hi. induction (lt_wf i) as [i _ IH]. intros Hi. destruct (Hlt _ _ Hn _ Hi) as (j & ? & ?). eauto.
Qed.

Lemma stuck_cycle ind o : known → kinv ind [] o → length o ≠ size services → ∃ n, tc depends n n.
Proof.
  intros Hkn [Hnd _ Hr _] Hlen. rewrite app_nil_r in *.
  set (U := filter (.∉ o) (sorted_keys services)).
  assert (HU : ∀ x, x ∈ U ↔ is_Some (services !! x) ∧ x ∉ o).
  { intros x. unfold U. rewrite list_elem_of_filter, elem_sorted_keys. tauto. }
  assert (Hstep : ∀ x, x ∈ U → ∃ y, depends x y ∧ y ∈ U).
  { intros x [Hs Ho]%HU. destruct (filter (.∉ o) (deps_of services x)) as [|y l] eqn:E.
    - destruct Ho. apply Hr. split; [done|]. unfold waiting. by rewrite E.
    - assert (y ∈ filter (.∉ o) (deps_of services x)) as [? Hy]%list_elem_of_filter by (rewrite E; left).
      exists y. split; [done|]. apply HU. split; [by eapply Hkn | done]. }
  destruct U as [|x U'] eqn:EU.
  - exfalso. apply Hlen. rewrite <- (length_sorted_keys services). apply Permutation_length, NoDup_Permutation; [done | apply NoDup_sorted_keys |].
    intros x. rewrite elem_sorted_keys. split; [by intros []%Hr|]. intros Hs. destruct (decide (x ∈ o)) as [|Ho]; [done|].
    by destruct (not_elem_of_nil x (proj2 (HU x) (conj Hs Ho))).
  - apply (walk_cycles depends (x :: U') Hstep (length (x :: U')) [] x); [apply NoDup_singleton | set_solver | | simpl; lia].
    by intros z ->%list_elem_of_singleton.
Qed.

(** *** The whole sort *)

Lemma build_spec rng :
  rng ≡ₚ (map_to_list services).*1 →
  match for_each (add_service services) rng ((fun _ => 0) <$> services, ∅) with
  | Ok st =>
      (∀ n, count_of st.1 n = if decide (n ∈ rng) then zlen (deps_of services n) else 0) ∧
      (∀ d, followers_of st.2 d = filter (fun n => depends n d) rng) ∧ known
  | Err e => ∃ n d, e = EUnknownDependency n d ∧ depends n d ∧ services !! d = None
  | _ => False
  end.
Proof.
  intros Hrng. assert (Hnd : NoDup rng) by (rewrite Hrng; apply NoDup_fst_map_to_list).
  pose proof (add_services_spec rng ((fun _ => 0) <$> services, ∅) [] Hnd) as Ha. ospecialize (Ha _ _).
  { intros n. unfold count_of. simpl. rewrite lookup_fmap. by destruct (services !! n). }
  { intros d. unfold followers_of. simpl. by rewrite lookup_empty. }
  destruct (for_each _ _ _); try done. destruct Ha as (Hc & Hf & Hk). splits; [done|done|].
  intros n d Hd. apply (Hk n d); [|done]. rewrite Hrng. apply elem_sort, elem_sorted_keys. by eapply depends_service.
Qed.

Lemma sortServices_spec rng :
  rng ≡ₚ (map_to_list services).*1 →
  match sortServices rng services with
  | Ok order => known ∧ order ≡ₚ (map_to_list services).*1 ∧ topological order
  | Err e =>
      (∃ n d, e = EUnknownDependency n d ∧ depends n d ∧ services !! d = None) ∨
      (e = ECircular ∧ known ∧ ∃ n, tc depends n n)
  | _ => False
  end.
Proof.
  intros Hrng. unfold sortServices.
  assert (Hkeys : ∀ n, n ∈ rng ↔ is_Some (services !! n)) by (intros n; rewrite <- elem_sorted_keys; unfold sorted_keys; by rewrite elem_sort, Hrng).
  assert (Hnd : NoDup rng) by (rewrite Hrng; apply NoDup_fst_map_to_list).
  pose proof (build_spec rng Hrng) as Ha.
  destruct (for_each _ _ _) as [[ind fol]|e| |]; simpl; try done; [|by left].
  destruct Ha as (Hc & Hf & Hkn). simpl in *.
  assert (Hfol : ∀ d, followers_of (sort_strings <$> fol) d = sort_strings (filter (fun n => depends n d) rng)).
  { intros d. rewrite <- Hf. unfold followers_of. rewrite lookup_fmap. by destruct (fol !! d). }
  assert (Hcount : ∀ n, is_Some (services !! n) → count_of ind n = waiting [] n).
  { intros n Hs%Hkeys. rewrite Hc, decide_True by done. unfold waiting. rewrite filter_all; [done|]. set_solver. }
  destruct (kahn_spec (size services) (sort_strings <$> fol) ind (filter (fun n => count_of ind n = 0) (sort_strings rng)) []) as (o & ind' & -> & Hki).
  - intros d. rewrite Hfol, NoDup_sort. by apply NoDup_filter.
  - intros d n. rewrite Hfol, elem_sort, list_elem_of_filter, Hkeys. split; [tauto|]. intros. split; [done|]. by eapply depends_service.
  - split; simpl; [by apply NoDup_filter, NoDup_sort | done | | intros i n d Hi; by rewrite lookup_nil in Hi].
    intros n. rewrite list_elem_of_filter, elem_sort, Hkeys. split; intros [? ?]; (split; try done); [rewrite <- Hcount by done | rewrite Hcount by done]; done.
  - lia.
  - simpl. case_bool_decide as Hlen.
    + splits; [done| |apply Hki]. destruct Hki as [Hnd' _ Hr _]. rewrite app_nil_r in *.
      apply submseteq_length_Permutation; [|rewrite Hlen, length_fmap, length_map_to_list; lia].
      apply NoDup_submseteq; [done|]. intros n [Hs _]%Hr. by rewrite <- Hrng, Hkeys.
    + right. splits; [done|done|]. by eapply stuck_cycle.
Qed.

Lemma release_ext fs ind ind' q :
  (∀ n, count_of ind n = count_of ind' n) →
  (foldl release (ind, q) fs).2 = (foldl release (ind', q) fs).2 ∧
  ∀ n, count_of (foldl release (ind, q) fs).1 n = count_of (foldl release (ind', q) fs).1 n.
Proof.
  revert ind ind' q. induction fs as [|f fs IH]; intros ind ind' q He; [done|]. simpl.
  unfold release at 2 4 6 8. simpl. rewrite He. apply IH. intros n. rewrite !count_insert. by case_decide.
Qed.
Lemma kahn_ext fuel fol fol' ind ind' queue order :
  (∀ n, count_of ind n = count_of ind' n) → (∀ d, followers_of fol d = followers_of fol' d) →
  kahn fuel fol ind queue order = kahn fuel fol' ind' queue order.
Proof.
  intros Hi Hf. revert ind ind' queue order Hi. induction fuel as [|fuel IH]; intros ind ind' [|name queue] order Hi; simpl; try done.
  rewrite <- Hf. destruct (release_ext (followers_of fol name) ind ind' queue Hi) as [Hq Hc].
  destruct (foldl release (ind, queue) _), (foldl release (ind', queue) _). simpl in *. subst. by apply IH.
Qed.

(** The order in which the map is ranged over does not matter. *)
Lemma sortServices_deterministic rng rng' :
  rng ≡ₚ (map_to_list services).*1 → rng' ≡ₚ (map_to_list services).*1 → known →
  sortServices rng services = sortServices rng' services.
Proof.
  intros Hr Hr' Hk. unfold sortServices. rewrite (sort_strings_canonical rng rng') by by rewrite Hr, Hr'.
  assert (Hpre : ∀ r, r ≡ₚ (map_to_list services).*1 → ∃ st, for_each (add_service services) r ((fun _ => 0) <$> services, ∅) = Ok st ∧
    (∀ n, count_of st.1 n = if decide (n ∈ r) then zlen (deps_of services n) else 0) ∧
    (∀ d, followers_of st.2 d = filter (fun n => depends n d) r)).
  { intros r Hp. pose proof (build_spec r Hp) as Ha. destruct (for_each _ _ _) as [st|e| |]; try done; [exists st; naive_solver|].
    destruct Ha as (n & d & _ & Hd%Hk & Hn). rewrite Hn in Hd. by destruct Hd. }
  destruct (Hpre rng Hr) as ([ind fol] & -> & Hc & Hf), (Hpre rng' Hr') as ([ind' fol'] & -> & Hc' & Hf'). simpl in *.
  assert (Hcc : ∀ n, count_of ind n = count_of ind' n).
  { intros n. rewrite Hc, Hc'. rewrite (decide_ext (n ∈ rng) (n ∈ rng')); [done|]. by rewrite Hr, Hr'. }
  rewrite (filter_ext_in _ (fun n => count_of ind' n = 0)) by (intros; by rewrite Hcc).
  rewrite (kahn_ext _ _ (sort_strings <$> fol') _ ind'); [done|done|].
  intros d. unfold followers_of in *. rewrite !lookup_fmap. specialize (Hf d). specialize (Hf' d).
  assert (sort_strings (default [] (fol !! d)) = sort_strings (default [] (fol' !! d))) as Hs.
  { rewrite Hf, Hf'. apply sort_strings_canonical. by rewrite Hr, Hr'. }
  by destruct (fol !! d), (fol' !! d).
Qed.

(** *** Groups *)

Lemma fold_level_ge (f : str → nat) ds cur :
  let v := foldl (fun c d => if (c <? f d + 1)%nat then (f d + 1)%nat else c) cur ds in
  (cur ≤ v)%nat ∧ ∀ d, d ∈ ds → (f d < v)%nat.
Proof.
  revert cur. induction ds as [|d ds IH]; intros cur; simpl; [split; [done | set_solver]|].
  destruct (IH (if (cur <? f d + 1)%nat then (f d + 1)%nat else cur)) as [Hc Hd].
  assert (cur ≤ (if (cur <? f d + 1)%nat then (f d + 1)%nat else cur) ∧ f d + 1 ≤ (if (cur <? f d + 1)%nat then (f d + 1)%nat else cur))%nat as [? ?]
    by (destruct (Nat.ltb_spec cur (f d + 1)); lia).
  split; [lia|]. intros e [-> | He]%elem_of_cons; [lia | by apply Hd].
Qed.

Lemma topological_prefix order x : topological (order ++ [x]) → topological order ∧ ∀ d, depends x d → d ∈ order.
Proof.
  intros Ht. split.
  - intros i n d Hi Hd. rewrite <- (take_app_le order [x]) by (apply lookup_lt_Some in Hi; lia).
    eapply Ht; [|done]. by apply lookup_app_l_Some.
  - intros d Hd. pose proof (Ht (length order) x d) as H. rewrite take_app_length in H. apply H; [|done].
    rewrite lookup_app_r, Nat.sub_diag; [done | lia].
Qed.

Lemma levels_spec order :
  NoDup order → topological order →
  let st := foldl (set_level services) (∅, 0%nat) order in
  ∀ n, n ∈ order → (level_of st.1 n ≤ st.2)%nat ∧ ∀ d, depends n d → (d ∈ order ∧ level_of st.1 d < level_of st.1 n)%nat.
Proof.
  induction order as [|x order IH] using rev_ind; intros Hnd Ht; simpl; [set_solver|].
  apply NoDup_app in Hnd as (Hnd & Hx & _). assert (x ∉ order) as Hxo by set_solver. clear Hx.
  apply topological_prefix in Ht as [Ht Hxd]. specialize (IH Hnd Ht). simpl in IH.
  rewrite foldl_app. simpl. destruct (foldl _ _ order) as [level m]. simpl in *.
  set (v := foldl _ _ _). destruct (fold_level_ge (level_of level) (deps_of services x) 0) as [_ Hv]. fold v in Hv.
  assert (Hl : ∀ n, level_of (<[x := v]> level) n = if decide (n = x) then v else level_of level n).
  { intros n. unfold level_of. case_decide; [subst; by rewrite lookup_insert_eq | by rewrite lookup_insert_ne]. }
  assert (Hm : (m ≤ (if (m <? v)%nat then v else m) ∧ v ≤ (if (m <? v)%nat then v else m))%nat) by (destruct (Nat.ltb_spec m v); lia).
  assert (Hold : ∀ d, d ∈ order → level_of (<[x := v]> level) d = level_of level d) by (intros d Hd; rewrite Hl, decide_False; [done | by intros ->]).
  intros n [Hn | ->%list_elem_of_singleton]%elem_of_app.
  - destruct (IH n Hn) as [? Hd]. rewrite (Hold n Hn). split; [lia|]. intros d Hnd'. destruct (Hd d Hnd') as [Hdo ?].
    rewrite (Hold d Hdo). split; [set_solver | done].
  - rewrite Hl, decide_True by done. split; [lia|]. intros d Hd. pose proof (Hxd d Hd) as Hdo. rewrite (Hold d Hdo).
    split; [set_solver | by apply Hv].
Qed.

Lemma groups_spec order :
  NoDup order → topological order →
  ∃ f : str → nat,
    (∀ k g, dependencyGroups order services !! k = Some g → g = filter (fun n => f n = k) order) ∧
    (∀ n, n ∈ order → (f n < length (dependencyGroups order services))%nat ∧ ∀ d, depends n d → d ∈ order ∧ (f d < f n)%nat).
Proof.
  intros Hnd Ht. destruct order as [|x order']; [exists (fun _ => 0%nat); split; [done | set_solver]|].
  pose proof (levels_spec _ Hnd Ht) as Hl. unfold dependencyGroups. revert Hl.
  generalize (x :: order') as order. intros order. destruct (foldl _ _ order) as [level m]. simpl. intros Hl.
  exists (level_of level). split.
  - intros k g Hk. change (list_lookup k ?l) with (l !! k) in Hk.
    change (_ :: ?l) with ((fun k => filter (fun n => level_of level n = k) order) <$> (0%nat :: seq 1 m)) in Hk.
    rewrite list_lookup_fmap in Hk. apply fmap_Some in Hk as (j & Hj & ->).
    change (0%nat :: seq 1 m) with (seq 0 (S m)) in Hj. apply lookup_seq in Hj as [-> _]. done.
  - intros n Hn. destruct (Hl n Hn) as [? ?]. split; [|done]. rewrite length_fmap, length_seq. lia.
Qed.
End order_props.

(** ** What a start-up may do *)

Definition attempts (l : list event) : list str := omap (fun e => match e with EvAttempt n => Some n | _ => None end) l.
(** The condition of a required dependency has been met before [l] ends. *)
Definition met (spec : ServiceDependency) (d : str) (l : list event) : Prop :=
  Required spec = true →
  (Condition spec = service_healthy → EvHealthy d ∈ l) ∧
  (Condition spec = service_completed → EvCompleted d 0 ∈ l).
Definition ready (services : Services) (l : list event) (n : str) : Prop :=
  ∀ d spec, dependsOnSpecs (service_of services n) !! d = Some spec → EvStarted d ∈ l ∧ met spec d l.
Definition good_log (services : Services) (l : list event) : Prop :=
  ∀ l1 n l2, l = l1 ++ EvAttempt n :: l2 → n ∉ attempts l1 ∧ ready services l1 n.

(** The outcome of a step: [Q] after a success, [X] after anything else that is
    not a panic. *)
Definition post {A} (r : res compose_err A * Stack) (Q : A → Stack → Prop) (X : Stack → Prop) : Prop :=
  match r with (Ok a, s) => Q a s | (Panic, _) => False | (_, s) => X s end.
Lemma post_bind {A B} (m : M A) (f : A → M B) s Q X :
  post (m s) (fun a s => post (f a s) Q X) X → post ((m ≫= f) s) Q X.
Proof. unfold post, mbind, M_bind. by destruct (m s) as [[] ?]. Qed.
Lemma post_mono {A} r (Q Q' : A → Stack → Prop) (X X' : Stack → Prop) :
  (∀ a s, Q a s → Q' a s) → (∀ s, X s → X' s) → post r Q X → post r Q' X'.
Proof. unfold post. destruct r as [[] ?]; naive_solver. Qed.

Section start_props.
Context (services : Services) (fuel : nat) (env : Env) (remote : bool).

Definition quiet (l : list event) : Prop := attempts l = [].
Record inv (s : Stack) : Prop := {
  i_log : good_log services (st_log s);
  i_healthy : ∀ d, d ∈ st_healthy s → EvHealthy d ∈ st_log s;
  i_completed : ∀ d c, st_completed s !! d = Some c → EvCompleted d c ∈ st_log s;
}.
(** [s'] comes after [s], with the same machines and no new attempt. *)
Definition ext (s s' : Stack) : Prop := st_services s' = st_services s ∧ ∃ l, st_log s' = st_log s ++ l ∧ quiet l.
Definition keeps (s0 s : Stack) : Prop := inv s ∧ ext s0 s.

Lemma attempts_app l k : attempts (l ++ k) = attempts l ++ attempts k.
Proof. apply omap_app. Qed.
Lemma ext_refl s : ext s s.
Proof. split; [done|]. exists []. by rewrite app_nil_r. Qed.
Lemma ext_trans s1 s2 s3 : ext s1 s2 → ext s2 s3 → ext s1 s3.
Proof.
  intros [H1 (l & H2 & H3)] [H4 (k & H5 & H6)]. split; [congruence|]. exists (l ++ k).
  rewrite H5, H2, app_assoc. split; [done|]. unfold quiet in *. by rewrite attempts_app, H3, H6.
Qed.
Lemma good_quiet l k : good_log services l → quiet k → good_log services (l ++ k).
Proof.
  intros Hg Hq l1 n l2 He. apply app_eq_inv in He as [(m & -> & He) | (m & -> & ->)].
  - destruct m as [|e m]; simplify_eq/=; [by rewrite app_nil_r in Hg |]. by eapply Hg.
  - exfalso. unfold quiet in Hq. rewrite attempts_app in Hq. simpl in Hq. by destruct (attempts m).
Qed.
Lemma good_attempt l n : good_log services l → n ∉ attempts l → ready services l n → good_log services (l ++ [EvAttempt n]).
Proof.
  intros Hg Hn Hr l1 m l2 He. apply app_eq_inv in He as [(k & -> & He) | (k & -> & He)].
  - destruct k as [|e k]; simplify_eq/=; [by rewrite app_nil_r in * | by eapply Hg].
  - destruct k as [|e k]; simplify_eq/=; [by rewrite app_nil_r | by destruct k].
Qed.
Lemma met_app spec d l k : met spec d l → met spec d (l ++ k).
Proof. unfold met. set_solver. Qed.

(** *** Steps that keep the invariant *)

Lemma keeps_refl s : inv s → keeps s s.
Proof. intros. split; [done | apply ext_refl]. Qed.
Lemma keeps_event s s' e :
  inv s → quiet [e] → st_services s' = st_services s → st_log s' = st_log s ++ [e] →
  (∀ d, d ∈ st_healthy s' → d ∈ st_healthy s ∨ e = EvHealthy d) →
  (∀ d c, st_completed s' !! d = Some c → st_completed s !! d = Some c ∨ e = EvCompleted d c) → keeps s s'.
Proof.
  intros [Hl Hh Hc] Hq Hs Hlog Hh' Hc'. split; [split; rewrite Hlog|].
  - by apply good_quiet.
  - intros d [Hd | ->]%Hh'; [by apply elem_of_app; left; apply Hh | set_solver].
  - intros d c [Hd | ->]%Hc'; [by apply elem_of_app; left; apply Hc | set_solver].
  - split; [done|]. by exists [e].
Qed.
Lemma health_loop_no_panic k f name hc deadline n : (health_loop f env name hc deadline n k).1 ≠ Panic.
Proof.
  revert k n. induction f as [|f IH]; intros k n; simpl; [done|].
  destruct (probeHealthcheck _ _ _ _) as [[] ?]; [done|]. simpl.
  destruct deadline; simpl; match goal with |- context [if ?b then _ else _] => destruct b end; done || apply IH.
Qed.
Lemma wait_healthy_post name hc s :
  inv s → post (wait_healthy fuel env name hc s) (fun _ s' => keeps s s' ∧ EvHealthy name ∈ st_log s') (keeps s).
Proof.
  intros Hi. unfold wait_healthy. destruct (waitForHealthy _ _ _ _ _) as [[[] | e | |] k] eqn:E; simpl.
  - split; [eapply (keeps_event _ _ (EvHealthy name)); simpl; auto; done | set_solver].
  - split; [by destruct Hi|]. split; [done|]. exists []. by rewrite app_nil_r.
  - unfold waitForHealthy in E. destruct (if 0 <? _ then _ else _). eapply health_loop_no_panic. by rewrite E.
  - by apply keeps_refl.
Qed.
Lemma keeps_trans s1 s2 s3 : keeps s1 s2 → keeps s2 s3 → keeps s1 s3.
Proof. intros [_ ?] [? ?]. split; [done | by eapply ext_trans]. Qed.
Lemma set_healthy_post n s : inv s → EvHealthy n ∈ st_log s → post (set_healthy n s) (fun _ s' => keeps s s' ∧ st_log s' = st_log s) (keeps s).
Proof.
  intros [Hl Hh Hc] Hn. simpl. split; [|done]. split; [split; simpl; [done| |done] | split; [done|]; exists []; by rewrite app_nil_r].
  intros d [->%elem_of_singleton | Hd]%elem_of_union; auto.
Qed.

Lemma waitForDependency_post name dep spec s :
  inv s →
  post (waitForDependency fuel env services name dep spec s) (fun _ s' => keeps s s' ∧ met spec dep (st_log s')) (keeps s).
Proof.
  intros Hi. unfold waitForDependency. apply post_bind. simpl.
  assert (Hgive : ∀ e s', keeps s s' → post ((if Required spec then fail e else mret tt : M unit) s') (fun _ s' => keeps s s' ∧ met spec dep (st_log s')) (keeps s)).
  { intros e s' Hs'. unfold met. destruct (Required spec); simpl; [done|]. by split. }
  destruct (usable _) as [result|]; [|by apply Hgive, keeps_refl].
  assert (Hnever : ∀ c, Condition spec = c → c ≠ service_healthy → c ≠ service_completed →
    met spec dep (st_log s)) by (intros c Hc ? ? _; split; congruence).
  destruct (bool_decide (Condition spec = [])) eqn:E1; [apply bool_decide_eq_true in E1; simpl; split; [by apply keeps_refl | by eapply Hnever]|].
  destruct (bool_decide (Condition spec = service_started)) eqn:E2;
    [apply bool_decide_eq_true in E2; simpl; split; [by apply keeps_refl | by eapply Hnever]|]. simpl. clear Hnever.
  destruct (bool_decide (Condition spec = service_healthy)) eqn:E3; simpl.
  - apply bool_decide_eq_true in E3.
    assert (Hmet : ∀ l, EvHealthy dep ∈ l → met spec dep l) by (intros l ? ?; rewrite E3; split; [done | discriminate]).
    destruct (decide (dep ∈ st_healthy s)) as [Hh|Hh]; [rewrite bool_decide_true by done | rewrite bool_decide_false by done]; simpl.
    { split; [by apply keeps_refl | by apply Hmet, Hi]. }
    destruct (effectiveHealthcheck _ _) as [hc|]; [|by apply Hgive, keeps_refl].
    apply post_bind. unfold try_. pose proof (wait_healthy_post dep hc s Hi) as Hw.
    destruct (wait_healthy fuel env dep hc s) as [[[] | e | |] s']; simpl in Hw |- *; try done; [|by apply Hgive].
    destruct Hw as [Hk Hin]. destruct (set_healthy_post dep s' (proj1 Hk) Hin) as [Hk' Hl].
    split; [by eapply keeps_trans | by apply Hmet].
  - destruct (bool_decide (Condition spec = service_completed)) eqn:E4; simpl; [apply bool_decide_eq_true in E4 | by apply keeps_refl].
    assert (Hmet : ∀ l, EvCompleted dep 0 ∈ l → met spec dep l) by (intros l ? ?; rewrite E4; split; [discriminate | done]).
    destruct (st_completed s !! dep) as [code|] eqn:Ec.
    + destruct (Z.eqb_spec code 0) as [->|]; [|by apply Hgive, keeps_refl].
      simpl. split; [by apply keeps_refl|]. by apply Hmet, Hi.
    + apply post_bind. simpl. destruct (env_exit _ _ _) as [code|];
        [|apply Hgive; split; [by destruct Hi | split; [done|]; exists []; by rewrite app_nil_r]].
      apply post_bind. simpl. apply post_bind. simpl.
      match goal with |- post (_ ?st) _ _ => assert (Hk : keeps s st) end.
      { eapply keeps_event with (e := EvCompleted dep code); try done; [by left|].
        intros d c. simpl. rewrite lookup_insert_Some. naive_solver. }
      destruct (Z.eqb_spec code 0) as [->|]; [|by apply Hgive].
      simpl. split; [done|]. apply Hmet. simpl. set_solver.
Qed.

Lemma waitForDependencies_post name s :
  inv s →
  post (waitForDependencies fuel env services name s)
    (fun _ s' => keeps s s' ∧ ∀ d spec, dependsOnSpecs (service_of services name) !! d = Some spec → met spec d (st_log s'))
    (keeps s).
Proof.
  intros Hi. unfold waitForDependencies. set (specs := dependsOnSpecs _).
  assert (Hall : ∀ l, (∀ d, is_Some (specs !! d) → d ∈ l ∨ ∀ spec, specs !! d = Some spec → met spec d (st_log s)) →
    post (each (fun dep => match specs !! dep with None => mret tt | Some spec => waitForDependency fuel env services name dep spec end) l s)
      (fun _ s' => keeps s s' ∧ ∀ d spec, specs !! d = Some spec → met spec d (st_log s')) (keeps s)).
  2:{ apply Hall. intros d Hd. left. by apply elem_sorted_keys. }
  intros l. revert s Hi. induction l as [|d l IH]; intros s Hi Hl; simpl.
  { split; [by apply keeps_refl|]. intros d spec Hd. destruct (Hl d) as [?%not_elem_of_nil|]; eauto. done. }
  apply post_bind. destruct (specs !! d) as [spec|] eqn:Ed.
  - eapply post_mono; [| |by apply waitForDependency_post]; [|done].
    intros _ s1 [Hk Hm]. eapply post_mono; [| |apply (IH s1 (proj1 Hk))].
    + intros _ s2 [Hk' Hm']. split; [by eapply keeps_trans | done].
    + intros s2 Hk'. by eapply keeps_trans.
    + destruct Hk as [_ [_ (k & Hlog & _)]]. rewrite Hlog in Hm |- *. intros e He. destruct (decide (e = d)) as [->|Hne].
      * right. intros spec' ?. by simplify_eq.
      * destruct (Hl e He) as [[-> | ?]%elem_of_cons | Hm']; [done | by left | right]. intros. by apply met_app, Hm'.
  - apply IH; [done|]. intros e He. destruct (Hl e He) as [[-> | ?]%elem_of_cons | ?]; [by rewrite Ed in He; destruct He | by left | by right].
Qed.

(** *** Starting one service *)

(** Every service of [p] was attempted, in this order, and runs. *)
Record started (p : list str) (s : Stack) : Prop := {
  sd_inv : inv s;
  sd_attempts : attempts (st_log s) = p;
  sd_running : ∀ n, n ∈ p → EvStarted n ∈ st_log s;
}.

Lemma startService_post name svc sup s :
  post (startService env remote name svc sup s)
    (fun vm s' => vm_Result vm ≠ None ∧ st_log s' = st_log s ∧ (inv s → inv s')) (fun s' => st_log s' = st_log s ∧ (inv s → inv s')).
Proof.
  assert (Hstep : ∀ k, inv s → inv (mkStack (st_services s) (st_healthy s) (st_completed s) k (st_log s))) by (intros k []; by split).
  unfold startService. destruct (negb _ && _); [done|]. apply post_bind. simpl.
  destruct (env_run _ _ _ _); [|by split; [|apply Hstep]].
  destruct remote; apply post_bind; simpl; [destruct (env_running _ _ _); simpl; auto|].
  destruct (env_attach _ _ _); simpl; [|auto]. apply post_bind. simpl. destruct (env_forward _ _ _); simpl; auto.
Qed.

Lemma start_one_post p name s :
  started p s → name ∉ p → (∀ d, is_Some (dependsOnSpecs (service_of services name) !! d) → d ∈ p) →
  post (start_one fuel env remote services name s) (fun _ => started (p ++ [name])) inv.
Proof.
  intros [Hi Ha Hr] Hn Hd. unfold start_one. apply post_bind.
  eapply post_mono; [| |by apply waitForDependencies_post]; [|by intros s' []].
  intros _ s1 [[Hi1 [_ (l & Hlog & Hq)]] Hm]. apply post_bind. simpl.
  set (s2 := mkStack _ _ _ _ _).
  assert (Hi2 : inv s2).
  { destruct Hi1 as [Hg Hh Hc]. split; simpl; [|set_solver|set_solver].
    apply good_attempt; [done | rewrite Hlog, attempts_app, Ha, Hq, app_nil_r; done |].
    intros d spec Hspec. split; [|by apply Hm]. rewrite Hlog. apply elem_of_app. left. apply Hr, Hd. eauto. }
  assert (Ha2 : attempts (st_log s2) = p ++ [name]) by (simpl; rewrite attempts_app, Hlog, attempts_app, Ha, Hq, app_nil_r; done).
  assert (Hr2 : ∀ n, n ∈ p → EvStarted n ∈ st_log s2) by (simpl; intros n Hp; rewrite Hlog; specialize (Hr n Hp); set_solver).
  clearbody s2. unfold launch.
  pose proof (startService_post name (service_of services name) (bool_decide (name ∈ requiredCompletedServices services)) s2) as Hs.
  destruct (startService _ _ _ _ _ s2) as [[vm|e| |] s3]; simpl in Hs; [|simpl; destruct Hs as [Hl3 Hi3]; destruct (Hi3 Hi2); by split|done|simpl; naive_solver].
  destruct Hs as (Hvm & Hl3 & Hi3%(fun f => f Hi2)). apply post_bind. simpl. apply post_bind. simpl. set (s4 := mkStack _ _ _ _ _).
  assert (Hst : started (p ++ [name]) s4).
  { destruct Hi3 as [Hg Hh Hc]. split; [split; simpl; [by apply good_quiet | set_solver | set_solver] | simpl; by rewrite attempts_app, Hl3, Ha2, app_nil_r |].
    simpl. rewrite Hl3. intros n [Hp | ->%list_elem_of_singleton]%elem_of_app; [specialize (Hr2 n Hp)|]; set_solver. }
  clearbody s4. unfold await_health. case_bool_decide; [|done]. destruct (vm_Result vm) as [result|]; [|done].
  destruct (effectiveHealthcheck _ _) as [hc|]; [|by apply Hst]. apply post_bind.
  eapply post_mono; [| |apply wait_healthy_post, Hst]; [|by intros s' []].
  intros _ s5 [Hk5 Hin]. destruct (set_healthy_post name s5 (proj1 Hk5) Hin) as [Hk6 Hl6]. simpl in *.
  destruct Hk5 as [_ [_ (l5 & Hl5 & Hq5)]], Hst as [_ Hsa Hsr]. split; [apply Hk6 | simpl; by rewrite Hl5, attempts_app, Hsa, Hq5, app_nil_r |].
  simpl. rewrite Hl5. intros n Hp. specialize (Hsr n Hp). set_solver.
Qed.

Lemma specs_deps n d : is_Some (dependsOnSpecs (service_of services n) !! d) → depends services n d.
Proof.
  unfold depends, deps_of, service_of, dependsOnSpecs. rewrite lookup_fmap. intros Hs. apply fmap_is_Some in Hs.
  destruct (services !! n) as [svc|]; simpl in Hs; [by apply elem_sorted_keys | by destruct Hs].
Qed.
Lemma startAll_post order p s :
  started p s → NoDup (p ++ order) → topological services (p ++ order) →
  post (startAll fuel env remote order services s) (fun _ => started (p ++ order)) inv.
Proof.
  revert p s. induction order as [|n order IH]; intros p s Hs Hnd Ht; simpl; [by rewrite app_nil_r|].
  apply post_bind. eapply post_mono; [| |apply (start_one_post p n s Hs)]; [|done| |].
  - intros [] s' Hs'. assert (p ++ n :: order = (p ++ [n]) ++ order) as He by by rewrite <- app_assoc.
    rewrite He in Hnd, Ht |- *. by apply IH.
  - apply NoDup_app in Hnd. set_solver.
  - intros d Hd%specs_deps. pose proof (Ht (length p) n d) as H. rewrite take_app_length, lookup_app_r, Nat.sub_diag in H by lia. auto.
Qed.
Lemma new_stack_started : started [] new_stack.
Proof.
  split; [split|done|]; simpl; [intros [] ? ? ?; discriminate | intros d Hd; by apply not_elem_of_empty in Hd | intros d c Hd; by rewrite lookup_empty in Hd | intros n Hn; by apply not_elem_of_nil in Hn].
Qed.
End start_props.

Lemma restart_never_panics rng services : completes (validateServiceDependencies rng services).
Proof.
  apply (completes_sat (validateServiceDependencies rng services)). unfold validateServiceDependencies.
  apply for_each_sat; [|done]. intros n [] _ _. case_match; [|done]. apply for_each_sat; [|done].
  intros nd [] _ _. by case_match.
Qed.

(** C9: whatever the machines, the health probes and the clock do, a start-up
    of a compose stack never panics, attempts no service twice, and attempts a
    service only after every dependency of it has been started and after every
    required dependency has met its condition: the health check has passed for
    [service_healthy], the guest has exited with code 0 for
    [service_completed_successfully].  A start-up that succeeds has started
    every service of the file. *)
Theorem compose_start_safe fuel env remote rng services r s :
  rng ≡ₚ (map_to_list services).*1 →
  up fuel env remote rng services = (r, s) →
  r ≠ Panic ∧ good_log services (st_log s) ∧
  (r = Ok tt → attempts (st_log s) ≡ₚ (map_to_list services).*1 ∧ ∀ n, is_Some (services !! n) → EvStarted n ∈ st_log s).
Proof.
  intros Hrng. unfold up. pose proof (restart_never_panics rng services) as Hv.
  assert (Hempty : good_log services (st_log new_stack)) by apply (i_log _ _ (sd_inv _ _ _ (new_stack_started services))).
  destruct (validateServiceDependencies rng services); try done; [|intros [= <- <-]; done].
  pose proof (sortServices_spec services rng Hrng) as Hs. destruct (sortServices rng services) as [order|e| |]; try done; [|intros [= <- <-]; done].
  destruct Hs as (_ & Hp & Ht). assert (NoDup order) by (rewrite Hp; apply NoDup_fst_map_to_list).
  pose proof (startAll_post services fuel env remote order [] new_stack (new_stack_started services)) as Hpost. simpl in Hpost.
  intros Hr. rewrite Hr in Hpost. specialize (Hpost ltac:(done) Ht). destruct r as [[]|e| |]; simpl in Hpost; try done.
  - destruct Hpost as [Hi Ha Hrun]. splits; [done | apply Hi | intros _]. rewrite Ha. split; [done|]. intros n Hn. apply Hrun.
    rewrite Hp. by apply elem_sort, elem_sorted_keys.
  - splits; [done | apply Hpost | done].
  - splits; [done | apply Hpost | done].
Qed.

(** C13: [sortServices] orders a compose file correctly for every order in which
    Go may range over the map of services.  A result is a permutation of the
    services in which every dependency stands before its dependents; an unknown
    dependency and a circular dependency are reported only when there is one;
    there is a result exactly when every dependency is a service and no service
    depends on itself through others, and the result does not depend on the
    iteration order. *)
Theorem sort_services_correct services rng :
  rng ≡ₚ (map_to_list services).*1 →
  match sortServices rng services with
  | Ok order => order ≡ₚ (map_to_list services).*1 ∧ topological services order
  | Err (EUnknownDependency n d) => depends services n d ∧ services !! d = None
  | Err ECircular => ∃ n, tc (depends services) n n
  | _ => False
  end ∧
  ((∃ order, sortServices rng services = Ok order) ↔ known services ∧ ¬ ∃ n, tc (depends services) n n) ∧
  (∀ rng' order, rng' ≡ₚ (map_to_list services).*1 → sortServices rng services = Ok order → sortServices rng' services = Ok order).
Proof.
  intros Hrng. pose proof (sortServices_spec services rng Hrng) as Hs.
  destruct (sortServices rng services) as [order|e| |] eqn:E; try done.
  - destruct Hs as (Hk & Hp & Ht). split; [done|split].
    + split; [|eauto]. intros _. split; [done|]. intros [n Hn]. revert Hn. apply (topological_acyclic services order n Ht).
      intros m d Hd%depends_service. rewrite Hp. by apply elem_sort, elem_sorted_keys.
    + intros rng' o Hr' [= <-]. rewrite <- E. by apply sortServices_deterministic.
  - split; [|split; [split; [naive_solver|] | naive_solver]].
    + destruct Hs as [(n & d & -> & ? & ?) | (-> & _ & ?)]; done.
    + intros [Hk Hc]. destruct Hs as [(n & d & _ & Hd%Hk & Hn) | (_ & _ & ?)]; [rewrite Hn in Hd; by destruct Hd | done].
Qed.

(** ** Health waits *)

Section health_props.
Context (env : Env) (name : str) (hc : effectiveHealth).

(** The step of the next probe after a failed one at [k], and of the [i]-th. *)
Definition next_step (deadline : option Z) (k : nat) : nat :=
  let k := (probeHealthcheck env k name hc).2 in match deadline with None => k | Some _ => S k end.
Fixpoint step_at (deadline : option Z) (i k : nat) : nat :=
  match i with O => k | S i => step_at deadline i (next_step deadline k) end.
Definition probe_ok (deadline : option Z) (k i : nat) : bool := (probeHealthcheck env (step_at deadline i k) name hc).1.
Definition start_over (deadline : option Z) (k i : nat) : bool :=
  match deadline with None => true | Some d => negb (env_now env (probeHealthcheck env (step_at deadline i k) name hc).2 <? d) end.

Definition settles (deadline : option Z) (a : Z) (k n : nat) : Prop :=
  (∀ i, (i < n)%nat → probe_ok deadline k i = false) ∧
  (probe_ok deadline k n = false → start_over deadline k n = true ∧ eh_Retries hc ≤ a + Z.of_nat n + 1) ∧
  ∀ fuel, (n < fuel)%nat → (health_loop fuel env name hc deadline a k).1 = if probe_ok deadline k n then Ok tt else Err (ENotHealthy name).
Definition stops (deadline : option Z) (a : Z) (k i : nat) : bool :=
  probe_ok deadline k i || (start_over deadline k i && (eh_Retries hc <=? a + Z.of_nat i + 1)).

Lemma settles_now deadline a k : stops deadline a k 0 = true → settles deadline a k 0.
Proof.
  unfold stops, settles. intros H. splits; [lia | |].
  - intros Hp. rewrite Hp in H. simpl in H. b2p. split; [done | lia].
  - intros [|fuel] Hf; [lia|]. unfold probe_ok, start_over in *. simpl in *. destruct (probeHealthcheck env k name hc) as [[] k']; simpl in *; [done|].
    rewrite Z.add_0_r in H. destruct deadline; simpl in *; by rewrite H.
Qed.
Lemma settles_later deadline a k n :
  stops deadline a k 0 = false → settles deadline (a + 1) (next_step deadline k) n → settles deadline a k (S n).
Proof.
  unfold stops. intros [E0 E1]%orb_false_iff (Hf & He & Hres). split; [|split].
  - intros [|i] Hi; [done|]. apply (Hf i). lia.
  - intros Hp. destruct (He Hp) as [? ?]. split; [done | lia].
  - intros [|fuel] Hlt; [lia|]. change (probe_ok deadline k (S n)) with (probe_ok deadline (next_step deadline k) n).
    rewrite <- (Hres fuel) by lia. unfold probe_ok, start_over in E0, E1. unfold next_step. simpl in *. rewrite Z.add_0_r in E1.
    destruct (probeHealthcheck env k name hc) as [ok k']. simpl in *. subst ok. destruct deadline; simpl in *; by rewrite E1.
Qed.
Lemma health_loop_spec deadline m a k : stops deadline a k m = true → ∃ n, (n ≤ m)%nat ∧ settles deadline a k n.
Proof.
  revert a k. induction m as [|m IH]; intros a k Hm; [exists 0%nat; auto using settles_now|].
  destruct (stops deadline a k 0) eqn:E0; [exists 0%nat; split; [lia | by apply settles_now]|].
  destruct (IH (a + 1) (next_step deadline k)) as (n & Hn & Hs).
  { unfold stops in *. replace (a + 1 + Z.of_nat m + 1) with (a + Z.of_nat (S m) + 1) by lia. exact Hm. }
  exists (S n). split; [lia | by apply settles_later].
Qed.
Lemma step_at_ge d i k : (k + i ≤ step_at (Some d) i k)%nat.
Proof.
  revert k. induction i as [|i IH]; intros k; [simpl; lia|].
  change (step_at (Some d) (S i) k) with (step_at (Some d) i (next_step (Some d) k)). specialize (IH (next_step (Some d) k)).
  assert (k < next_step (Some d) k)%nat; [|lia]. unfold next_step, probeHealthcheck. case_match; simpl; lia.
Qed.
End health_props.

(** A wait for health ends.  When the clock passes every instant, there is
    a number [n] of failed probes such that the wait returns after probe [n]
    with any larger fuel: with success when that probe succeeded, and otherwise
    with the error, in which case the start period is over and at least
    [Retries] probes have failed. *)
Theorem health_wait_settles env name hc k :
  (∀ t, ∃ K, ∀ j, (K ≤ j)%nat → t ≤ env_now env j) →
  let '(deadline, k0) := if 0 <? eh_StartPeriod hc then (Some (env_now env k + eh_StartPeriod hc), S k) else (None, k) in
  ∃ n, (∀ i, (i < n)%nat → probe_ok env name hc deadline k0 i = false) ∧
    (probe_ok env name hc deadline k0 n = false → start_over env name hc deadline k0 n = true ∧ eh_Retries hc ≤ Z.of_nat n + 1) ∧
    ∀ fuel, (n < fuel)%nat →
      (waitForHealthy fuel env name hc k).1 = if probe_ok env name hc deadline k0 n then Ok tt else Err (ENotHealthy name).
Proof.
  intros Ht. unfold waitForHealthy. destruct (if 0 <? eh_StartPeriod hc then _ else _) as [deadline k0].
  assert (∃ m, stops env name hc deadline 0 k0 m = true) as [m Hm].
  { unfold stops. destruct deadline as [d|].
    - destruct (Ht d) as [K HK]. exists (K + Z.to_nat (eh_Retries hc))%nat. apply orb_true_iff. right.
      apply andb_true_iff. split; [|apply Z.leb_le; lia]. unfold start_over. apply negb_true_iff, Z.ltb_ge, HK.
      pose proof (step_at_ge env name hc d (K + Z.to_nat (eh_Retries hc)) k0). unfold probeHealthcheck. case_match; simpl in *; lia.
    - exists (Z.to_nat (eh_Retries hc)). apply orb_true_iff. right. apply Z.leb_le. lia. }
  destruct (health_loop_spec env name hc deadline m 0 k0 Hm) as (n & _ & Hf & He & Hres). by exists n.
Qed.

(** ** When a start-up succeeds *)

Section live_props.
Context (services : Services) (fuel : nat) (env : Env) (remote : bool) (img : str → option ImageHealth).

(** The health check the stack uses for a service: the image's is not known
    behind the API. *)
Definition hc_of (n : str) : option effectiveHealth :=
  effectiveHealthcheck (service_of services n) (if remote then None else img n).

(** The machines run, health checks that are waited for pass and guests that
    are waited for exit with 0. *)
Record cooperative : Prop := {
  co_run : ∀ k n sup, env_run env k n sup = Some (img n);
  co_running : ∀ k n, env_running env k n = true;
  co_attach : ∀ k n, env_attach env k n = true;
  co_forward : ∀ k n, env_forward env k n = true;
  co_source : ∀ n svc, services !! n = Some svc → Build svc = true ∨ Image svc ≠ [];
  co_dep : ∀ n d spec, dependsOnSpecs (service_of services n) !! d = Some spec →
    Restart spec = false ∧ Condition spec ∈ [[]; service_started; service_healthy; service_completed] ∧
    (Condition spec = service_healthy →
       (Required spec = true → hc_of d ≠ None) ∧ ∀ hc k, hc_of d = Some hc → (waitForHealthy fuel env d hc k).1 = Ok tt) ∧
    (Condition spec = service_completed → Required spec = true → ∀ k, env_exit env k d = Some 0);
}.
Context (Hco : cooperative).

Definition entry (n : str) : ServiceVM := mkServiceVM (negb remote) (Some (mkRunResult (if remote then None else img n))) remote None.
Record running (p : list str) (s : Stack) : Prop := {
  rn_entry : ∀ n, n ∈ p → st_services s !! n = Some (entry n);
  rn_exit : ∀ d c, st_completed s !! d = Some c → ∃ k, env_exit env k d = Some c;
}.
Definition never (_ : Stack) : Prop := False.

Lemma wait_healthy_ok p d hc s :
  running p s → (∀ k, (waitForHealthy fuel env d hc k).1 = Ok tt) → post (wait_healthy fuel env d hc s) (fun _ => running p) never.
Proof.
  intros [He Hx] Hw. unfold wait_healthy. specialize (Hw (st_step s)). destruct (waitForHealthy _ _ _ _ _) as [r k]. simpl in Hw.
  subst r. by split.
Qed.

Lemma waitForDependency_ok p name d spec s :
  running p s → d ∈ p → dependsOnSpecs (service_of services name) !! d = Some spec →
  post (waitForDependency fuel env services name d spec s) (fun _ => running p) never.
Proof.
  intros Hr Hd Hs. destruct (co_dep Hco _ _ _ Hs) as (_ & Hcond & Hh & Hc). unfold waitForDependency. apply post_bind. simpl.
  rewrite (rn_entry _ _ Hr d Hd). unfold usable. simpl. replace (negb remote || remote) with true by by destruct remote. simpl.
  fold (hc_of d).
  apply elem_of_cons in Hcond as [E | Hcond]; [by rewrite E|].
  apply elem_of_cons in Hcond as [E | Hcond]; [by rewrite E|].
  assert (Hgive : ∀ e s', running p s' → (Required spec = true → False) → post ((if Required spec then fail e else mret tt : M unit) s') (fun _ => running p) never).
  { intros e s' Hr' Hreq. by destruct (Required spec); [destruct Hreq|]. }
  apply elem_of_cons in Hcond as [E | E%list_elem_of_singleton].
  - destruct (Hh E) as [Hsome Hwait]. rewrite E.
    rewrite (bool_decide_false (service_healthy = [])), (bool_decide_false (service_healthy = service_started)), (bool_decide_true (service_healthy = service_healthy)) by (done || discriminate).
    simpl. destruct (bool_decide (d ∈ st_healthy s)); [done|]. destruct (hc_of d) as [hc|]; [|apply Hgive; [done | by intros ?%Hsome]].
    apply post_bind. unfold try_. pose proof (wait_healthy_ok p d hc s Hr (fun k => Hwait hc k eq_refl)) as Hw.
    destruct (wait_healthy fuel env d hc s) as [[[] | e | |] s']; simpl in *; try done. by destruct Hw; split.
  - specialize (Hc E). rewrite E.
    rewrite (bool_decide_false (service_completed = [])), (bool_decide_false (service_completed = service_started)),
      (bool_decide_false (service_completed = service_healthy)), (bool_decide_true (service_completed = service_completed)) by (done || discriminate).
    simpl. destruct (st_completed s !! d) as [code|] eqn:Ec.
    + destruct (rn_exit _ _ Hr _ _ Ec) as [k Hk]. destruct (Z.eqb_spec code 0); [done|].
      apply Hgive; [done|]. intros Hreq. rewrite (Hc Hreq) in Hk. naive_solver.
    + apply post_bind. simpl. destruct (env_exit env (st_step s) d) as [code|] eqn:Ex.
      * apply post_bind. simpl. apply post_bind. simpl.
        match goal with |- post (_ ?st) _ _ => assert (Hst : running p st) end.
        { destruct Hr as [He Hx]. split; [done|]. simpl. intros e c. rewrite lookup_insert_Some. naive_solver. }
        destruct (Z.eqb_spec code 0); [done|]. apply Hgive; [done|]. intros Hreq. rewrite (Hc Hreq) in Ex. naive_solver.
      * apply Hgive; [by destruct Hr; split|]. intros Hreq. by rewrite (Hc Hreq) in Ex.
Qed.

Lemma waitForDependencies_ok p name s :
  running p s → (∀ d, is_Some (dependsOnSpecs (service_of services name) !! d) → d ∈ p) →
  post (waitForDependencies fuel env services name s) (fun _ => running p) never.
Proof.
  intros Hr Hp. unfold waitForDependencies. revert s Hr. generalize (sorted_keys (dependsOnSpecs (service_of services name))) as l.
  induction l as [|d l IH]; intros s Hr; [done|]. apply post_bind. destruct (_ !! d) as [spec|] eqn:Ed; [|by apply IH].
  eapply post_mono; [| |apply (waitForDependency_ok p name d spec s Hr); [apply Hp; eauto | done]]; [|done]. intros [] s' Hr'. by apply IH.
Qed.

Lemma required_healthy n : n ∈ requiredHealthyServices services →
  ∃ m spec, dependsOnSpecs (service_of services m) !! n = Some spec ∧ Required spec = true ∧ Condition spec = service_healthy.
Proof.
  unfold requiredHealthyServices, requiredWith. rewrite elem_of_list_to_set, list_elem_of_bind.
  intros (svc & Hn & (m & -> & Hsvc)%list_elem_of_fmap). apply list_elem_of_bind in Hn as ([d spec] & Hd & Hin%elem_of_map_to_list).
  destruct m as [m svc]. apply elem_of_map_to_list in Hsvc. simpl in *.
  destruct (Required spec) eqn:Hreq; simpl in Hd; [|by apply not_elem_of_nil in Hd].
  case_bool_decide; [|by apply not_elem_of_nil in Hd]. apply list_elem_of_singleton in Hd as ->.
  exists m, spec. unfold service_of. by rewrite Hsvc.
Qed.

Lemma start_one_ok p name s :
  running p s → is_Some (services !! name) → (∀ d, is_Some (dependsOnSpecs (service_of services name) !! d) → d ∈ p) →
  post (start_one fuel env remote services name s) (fun _ => running (p ++ [name])) never.
Proof.
  intros Hr [svc Hsvc] Hp. unfold start_one. apply post_bind. eapply post_mono; [| |by apply waitForDependencies_ok]; [|done].
  intros [] s1 [He Hx]. apply post_bind. simpl. unfold launch.
  assert (Hstart : ∀ sup st, ∃ k, startService env remote name (service_of services name) sup st =
    (Ok (entry name), mkStack (st_services st) (st_healthy st) (st_completed st) k (st_log st))).
  { intros sup st. unfold startService. replace (negb (Build _) && _) with false.
    - unfold mbind, M_bind. simpl. rewrite (co_run Hco). unfold entry. pose proof (co_running Hco) as H1. pose proof (co_attach Hco) as H2.
      pose proof (co_forward Hco) as H3. destruct remote; simpl; rewrite ?H1, ?H2; simpl; rewrite ?H3; simpl; eexists; reflexivity.
    - unfold service_of. rewrite Hsvc. simpl. destruct (co_source Hco _ _ Hsvc) as [-> | Hne]; [done|].
      rewrite bool_decide_false by done. by rewrite andb_false_r. }
  match goal with |- context [startService _ _ _ _ ?sup ?st] => destruct (Hstart sup st) as [k ->] end.
  apply post_bind. simpl. apply post_bind. simpl. set (s4 := mkStack _ _ _ _ _).
  assert (Hr4 : running (p ++ [name]) s4).
  { split; simpl; [|done]. intros n Hn. destruct (decide (n = name)) as [->|]; [by rewrite lookup_insert_eq|].
    rewrite lookup_insert_ne by done. apply He. set_solver. }
  clearbody s4. unfold await_health. simpl. case_bool_decide as Hreq; [|done]. fold (hc_of name).
  destruct (required_healthy name Hreq) as (m & spec & Hm & Hrq & Hcond). destruct (co_dep Hco _ _ _ Hm) as (_ & _ & Hh & _).
  destruct (Hh Hcond) as [Hsome Hwait]. destruct (hc_of name) as [hc|]; [|by destruct (Hsome Hrq)].
  apply post_bind. eapply post_mono; [| |apply (wait_healthy_ok _ name hc s4 Hr4)]; [|done|by intros; apply Hwait].
  intros [] s5 [? ?]. by split.
Qed.
Lemma startAll_ok order p s :
  running p s → (∀ n, n ∈ order → is_Some (services !! n)) → topological services (p ++ order) →
  post (startAll fuel env remote order services s) (fun _ => running (p ++ order)) never.
Proof.
  revert p s. induction order as [|n order IH]; intros p s Hs Hin Ht; simpl; [by rewrite app_nil_r|].
  apply post_bind. eapply post_mono; [| |apply (start_one_ok p n s Hs)]; [|done|apply Hin; left|].
  - intros [] s' Hs'. assert (p ++ n :: order = (p ++ [n]) ++ order) as He by by rewrite <- app_assoc.
    rewrite He in Ht |- *. apply IH; [done | set_solver | done].
  - intros d Hd%specs_deps. pose proof (Ht (length p) n d) as H. rewrite take_app_length, lookup_app_r, Nat.sub_diag in H by lia. auto.
Qed.
Lemma validate_ok rng : validateServiceDependencies rng services = Ok tt.
Proof.
  unfold validateServiceDependencies. induction rng as [|n rng IH]; [done|]. simpl. destruct (services !! n) as [svc|] eqn:En; [|done].
  assert (Hs : service_of services n = svc) by by unfold service_of; rewrite En.
  match goal with |- context [for_each ?f ?l tt ≫= _] => assert (for_each f l tt = Ok tt) as ->; [|done] end.
  assert (Hall : ∀ nd, nd ∈ map_to_list (dependsOnSpecs svc) → Restart nd.2 = false).
  { intros [d spec] Hin%elem_of_map_to_list. rewrite <- Hs in Hin. by apply (co_dep Hco) in Hin as [? _]. }
  induction (map_to_list _) as [|nd l IHl]; [done|]. simpl. rewrite (Hall nd ltac:(left)). simpl. apply IHl. intros; apply Hall. by right.
Qed.
End live_props.

(** A compose stack comes up.  When every dependency is a service and none
    is circular, the machines start, the health checks that are waited for pass
    and the guests that are waited for exit with code 0, then [up] succeeds and
    has a running machine for every service. *)
Theorem compose_starts_all services fuel env remote img rng :
  rng ≡ₚ (map_to_list services).*1 → cooperative services fuel env remote img →
  known services → (¬ ∃ n, tc (depends services) n n) →
  ∃ s, up fuel env remote rng services = (Ok tt, s) ∧
    ∀ n, is_Some (services !! n) → st_services s !! n = Some (entry remote img n).
Proof.
  intros Hrng Hco Hk Hc. unfold up. rewrite (validate_ok services fuel env remote img Hco).
  pose proof (sortServices_spec services rng Hrng) as Hs. destruct (sortServices rng services) as [order|e| |]; try done.
  - destruct Hs as (_ & Hp & Ht).
    assert (Hin : ∀ n, n ∈ order ↔ is_Some (services !! n)) by (intros n; rewrite Hp, <- elem_sorted_keys; unfold sorted_keys; by rewrite elem_sort).
    pose proof (startAll_ok services fuel env remote img Hco order [] new_stack) as Hpost. simpl in Hpost.
    ospecialize (Hpost _ _ Ht); [split; simpl; [set_solver | intros d c Hd; by rewrite lookup_empty in Hd] | intros n; apply Hin |].
    destruct (startAll _ _ _ _ _ _) as [[[] | | |] s]; try done. exists s. split; [done|]. intros n Hn. by apply Hpost, Hin.
  - exfalso. destruct Hs as [(n & d & _ & Hd%Hk & Hn) | (_ & _ & ?)]; [rewrite Hn in Hd; by destruct Hd | by apply Hc].
Qed.

(** ** Examples *)

Lemma sorted_sound services rng order :
  rng ≡ₚ (map_to_list services).*1 → sortServices rng services = Ok order →
  known services ∧ ¬ ∃ n, tc (depends services) n n.
Proof.
  intros Hr Ho. pose proof (sortServices_spec services rng Hr) as Hs. rewrite Ho in Hs. destruct Hs as (Hk & Hp & Ht).
  split; [done|]. intros [n Hn]. revert Hn. apply (topological_acyclic services order n Ht).
  intros m d Hd%depends_service. rewrite Hp. by apply elem_sort, elem_sorted_keys.
Qed.

Definition ex_db : str := sbytes "db".
Definition ex_web : str := sbytes "web".
Definition ex_check : HealthCheckConfig := mkHealthCheck [sbytes "CMD"; sbytes "pg_isready"] None None None None false.
Definition ex_dep (required : bool) (cond : str) : ServiceDependency := mkDependency cond required false.
(** [web] waits for the health of [db]; [svc_check] is the check of [db]. *)
Definition ex_services (svc_check : option HealthCheckConfig) (required : bool) : Services :=
  {[ ex_db := mkService ∅ svc_check false (sbytes "postgres");
     ex_web := mkService {[ ex_db := ex_dep required service_healthy ]} None false (sbytes "nginx") ]}.
Definition ex_keys (services : Services) : list str := (map_to_list services).*1.
Definition ex_image : option ImageHealth := Some (mkImageHealth [sbytes "CMD-SHELL"; sbytes "pg_isready"] 0 0 0 0 0).
(** Everything works, but the machine of a name in [broken] does not start. *)
Definition ex_compose_env (broken : list str) : Env := mkEnv
  (fun _ n _ => if bool_decide (n ∈ broken) then None else Some ex_image)
  (fun _ _ => true) (fun _ _ => true) (fun _ _ => true) (fun _ _ _ => Some 0) Z.of_nat (fun _ _ => Some 0).

Lemma sort_services_correct_witness :
  ∃ services, known services ∧ (¬ ∃ n, tc (depends services) n n) ∧ topological services [ex_db; ex_web].
Proof.
  exists (ex_services (Some ex_check) true). pose proof (sort_services_correct (ex_services (Some ex_check) true) (ex_keys (ex_services (Some ex_check) true)) ltac:(done)) as (H1 & H2 & _).
  assert (E : sortServices (ex_keys (ex_services (Some ex_check) true)) (ex_services (Some ex_check) true) = Ok [ex_db; ex_web]) by (vm_compute; reflexivity).
  rewrite E in H1, H2. destruct (proj1 H2 (ex_intro _ _ eq_refl)) as [Hk Hc]. split; [exact Hk|]. split; [exact Hc|]. exact (proj2 H1).
Defined.

Definition ex_run : res compose_err unit * Stack :=
  up 5 (ex_compose_env []) false (ex_keys (ex_services (Some ex_check) true)) (ex_services (Some ex_check) true).
Lemma compose_start_safe_witness :
  st_log ex_run.2 = [EvAttempt ex_db; EvStarted ex_db; EvHealthy ex_db; EvAttempt ex_web; EvStarted ex_web] ∧
  good_log (ex_services (Some ex_check) true) (st_log ex_run.2).
Proof.
  split; [vm_compute; reflexivity|].
  destruct (compose_start_safe 5 (ex_compose_env []) false (ex_keys (ex_services (Some ex_check) true)) (ex_services (Some ex_check) true) ex_run.1 ex_run.2) as (_ & H & _);
    [done | unfold ex_run; by destruct (up _ _ _ _ _) | exact H].
Defined.

Definition ex_hc : effectiveHealth := mkHealth [sbytes "CMD"; sbytes "true"] 0 0 0 0 1.
Lemma ex_probe_ok i k : probe_ok (ex_compose_env []) ex_db ex_hc None k i = true.
Proof. revert k. induction i as [|i IH]; intros k; [reflexivity|]. exact (IH (next_step (ex_compose_env []) ex_db ex_hc None k)). Qed.
Lemma health_wait_settles_witness :
  ∃ n, ∀ fuel, (n < fuel)%nat → (waitForHealthy fuel (ex_compose_env []) ex_db ex_hc 0).1 = Ok tt.
Proof.
  destruct (health_wait_settles (ex_compose_env []) ex_db ex_hc 0) as (n & _ & _ & H).
  { intros t. exists (Z.to_nat t). simpl. intros j Hj. lia. }
  exists n. intros fuel Hf. rewrite (H fuel Hf). by rewrite ex_probe_ok.
Defined.

Lemma ex_cooperative : cooperative (ex_services (Some ex_check) true) 5 (ex_compose_env []) false (fun _ => ex_image).
Proof.
  split; try done.
  - intros n svc. unfold ex_services. rewrite lookup_insert_Some, lookup_singleton_Some. intros [[_ <-] | [_ [_ <-]]]; by right.
  - intros n d spec. unfold service_of, ex_services, dependsOnSpecs. rewrite lookup_fmap, fmap_Some.
    intros (dep & Hdep & ->). destruct (_ !! n) as [svc|] eqn:En; simpl in Hdep; [|by rewrite lookup_empty in Hdep].
    apply lookup_insert_Some in En as [[_ <-] | [_ [_ <-]%lookup_singleton_Some]]; simpl in Hdep; [by rewrite lookup_empty in Hdep|].
    apply lookup_singleton_Some in Hdep as [<- <-]. splits; [done | vm_compute; set_solver | |done].
    intros _. split; [done|]. intros hc k Hhc. vm_compute in Hhc. injection Hhc as <-. reflexivity.
Qed.
Lemma compose_starts_all_witness :
  ∃ s, up 5 (ex_compose_env []) false (ex_keys (ex_services (Some ex_check) true)) (ex_services (Some ex_check) true) = (Ok tt, s) ∧
    st_services s !! ex_web = Some (entry false (fun _ => ex_image) ex_web).
Proof.
  destruct (sorted_sound (ex_services (Some ex_check) true) (ex_keys (ex_services (Some ex_check) true)) [ex_db; ex_web]) as [Hk Hc]; [done | vm_compute; reflexivity |].
  destruct (compose_starts_all (ex_services (Some ex_check) true) 5 (ex_compose_env []) false (fun _ => ex_image) (ex_keys (ex_services (Some ex_check) true)) ltac:(done) ex_cooperative Hk Hc) as (s & Hs & Hall).
  exists s. split; [exact Hs|]. apply Hall. by vm_compute; eexists.
Defined.

(** An optional dependency that cannot start aborts the stack: [startAll]
    returns at the first service that fails, so the tolerance of
    [waitForDependencies] for a missing optional dependency is never used. *)
Lemma optional_failure_aborts :
  (up 5 (ex_compose_env [ex_db]) false (ex_keys (ex_services (Some ex_check) false)) (ex_services (Some ex_check) false)).1 = Err (EStart ex_db) ∧
  attempts (st_log (up 5 (ex_compose_env [ex_db]) false (ex_keys (ex_services (Some ex_check) false)) (ex_services (Some ex_check) false)).2) = [ex_db].
Proof. split; vm_compute; reflexivity. Qed.

(** The health check of an image is used when the stack starts its machines
    itself and is unknown when they are started through the API: the same file
    comes up in one mode and is refused in the other. *)
Lemma image_check_lost_behind_api :
  (up 5 (ex_compose_env []) false (ex_keys (ex_services None true)) (ex_services None true)).1 = Ok tt ∧
  (up 5 (ex_compose_env []) true (ex_keys (ex_services None true)) (ex_services None true)).1 = Err (ENoHealthcheck ex_db).
Proof. split; vm_compute; reflexivity. Qed.

(** An optional dependency on a service that is not in the file (for instance
    one that a profile disables) is refused like a required one. *)
Lemma optional_unknown_refused :
  sortServices [ex_web] {[ ex_web := mkService {[ ex_db := ex_dep false service_started ]} None false (sbytes "nginx") ]} =
  Err (EUnknownDependency ex_web ex_db).
Proof. vm_compute. reflexivity. Qed.

(** The order of a start-up is one of the groups' orders. *)
Example groups_example :
  dependencyGroups [ex_db; ex_web] (ex_services (Some ex_check) true) = [[ex_db]; [ex_web]].
Proof. vm_compute. reflexivity. Qed.
