(* ===== verification/StackNet.v ===== *)
(** * The network of a compose stack (src/internal/compose, src/internal/stacknet)

    A stack has one IPv4 subnet: from the compose file, or the first /24 of the
    pool 198.18.0.0/15 that overlaps no network of the host, beginning at a
    place that the hash of the project's name gives.  [planStackNetwork] picks
    the subnet and the gateway and gives every service an address; tap devices
    get names of at most 15 bytes.

    Addresses and masks are [net.IP] and [net.IPMask], lists of 4 or 16 bytes
    ([[]] is nil); the parts of the package [net] that the sources use are
    modelled first.  [NetworksByPriority] belongs to the compose library and is
    a parameter. *)
From S2P Require Import Prelude Stream Fdt RuntimeCfg Preview IPAlloc GoText Compose.

(** ** Package net *)

Definition v4InV6Prefix : list Z := replicate 10 0 ++ [255; 255].
Definition To4 (ip : list Z) : list Z :=
  if (length ip =? 4)%nat then ip
  else if (length ip =? 16)%nat && bool_decide (take 12 ip = v4InV6Prefix) then drop 12 ip
  else [].

Record IPNet := mkIPNet { net_IP : list Z; net_Mask : list Z }.

#[export] Instance IPNet_eq_dec : EqDecision IPNet.
Proof. solve_decision. Defined.

(** The byte of a mask with [n] leading ones, [n] clamped to 0..8. *)
Definition mask_byte (n : Z) : Z := if n <=? 0 then 0 else if 8 <=? n then 255 else 256 - 2 ^ (8 - n).
Definition CIDRMask (ones bits : Z) : list Z :=
  if negb ((bits =? 32) || (bits =? 128)) then []
  else if (ones <? 0) || (bits <? ones) then []
  else (fun i => mask_byte (ones - 8 * Z.of_nat i)) <$> seq 0 (Z.to_nat (bits / 8)).
(** [IPMask.Size]: (0, 0) for a mask that is not of the canonical form. *)
Definition mask_ones (mask : list Z) : option Z :=
  let bits := 8 * zlen mask in
  head (filter (fun n => CIDRMask n bits = mask) (Z.of_nat <$> seq 0 (S (Z.to_nat bits)))).
Definition Size (mask : list Z) : Z * Z :=
  match mask_ones mask with Some n => if bool_decide (mask = []) then (0, 0) else (n, 8 * zlen mask) | None => (0, 0) end.

Definition and_bytes (a b : list Z) : list Z := zip_with Z.land a b.
Definition ip_Mask (ip mask : list Z) : list Z :=
  let mask := if (length mask =? 16)%nat && (length ip =? 4)%nat && bool_decide (take 12 mask = replicate 12 255) then drop 12 mask else mask in
  let ip := if (length mask =? 4)%nat && (length ip =? 16)%nat && bool_decide (take 12 ip = v4InV6Prefix) then drop 12 ip else ip in
  if (length ip =? length mask)%nat then and_bytes ip mask else [].

Definition networkNumberAndMask (n : IPNet) : list Z * list Z :=
  let ip := if bool_decide (To4 (net_IP n) = []) then net_IP n else To4 (net_IP n) in
  if negb ((length ip =? 4)%nat || (length ip =? 16)%nat) then ([], [])
  else if (length (net_Mask n) =? 4)%nat then (if (length ip =? 4)%nat then (ip, net_Mask n) else ([], []))
  else if (length (net_Mask n) =? 16)%nat then (ip, if (length ip =? 4)%nat then drop 12 (net_Mask n) else net_Mask n)
  else ([], []).
Definition Contains (n : IPNet) (ip : list Z) : bool :=
  let '(nn, m) := networkNumberAndMask n in
  let x := if bool_decide (To4 ip = []) then ip else To4 ip in
  (length x =? length nn)%nat && bool_decide (and_bytes nn m = and_bytes x m).

(** [IP.String] of four bytes. *)
Definition ip4_string (ip : list Z) : str :=
  match ip with
  | [a; b; c; d] => fmt_uint 10 a ++ [46] ++ fmt_uint 10 b ++ [46] ++ fmt_uint 10 c ++ [46] ++ fmt_uint 10 d
  | _ => []
  end.

(** *** Parsing addresses *)

(** One decimal field of at most 255 without a leading zero. *)
Definition parse_octet (s : str) : option Z :=
  match s with
  | [] => None
  | a :: l => if (a =? 48) && negb (bool_decide (l = [])) then None else v ← digits_value 0 s; if v <=? 255 then Some v else None
  end.
Definition parseIPv4Fields (s : str) : option (list Z) :=
  match split_on 46 s with
  | [a; b; c; d] => a ← parse_octet a; b ← parse_octet b; c ← parse_octet c; d ← parse_octet d; Some [a; b; c; d]
  | _ => None
  end.

Definition hex_digit (c : Z) : option Z :=
  if (48 <=? c) && (c <=? 57) then Some (c - 48)
  else if (97 <=? c) && (c <=? 102) then Some (c - 87)
  else if (65 <=? c) && (c <=? 70) then Some (c - 55)
  else None.
(** The hexadecimal number at the head: its value, its length, what follows. *)
Fixpoint hex_run (acc : Z) (n : nat) (s : str) : Z * nat * str :=
  match s with
  | c :: s' => match hex_digit c with Some d => hex_run (acc * 16 + d) (S n) s' | None => (acc, n, s) end
  | [] => (acc, n, s)
  end.
(** The groups: the bytes so far and where the ellipsis stands. *)
Fixpoint groups6 (fuel : nat) (s : str) (ip : list Z) (ellipsis : option nat) : option (list Z * option nat) :=
  match fuel with
  | O => None
  | S fuel =>
      if (16 <=? length ip)%nat then (if bool_decide (s = []) then Some (ip, ellipsis) else None)
      else
        let '(acc, off, rest) := hex_run 0 0 s in
        if (off =? 0)%nat || (4 <? off)%nat then None
        else
          match rest with
          | 46 :: _ =>
              if (bool_decide (ellipsis = None) && negb (length ip =? 12)%nat) || (16 <? length ip + 4)%nat then None
              else v4 ← parseIPv4Fields s; Some (ip ++ v4, ellipsis)
          | _ =>
              let ip := ip ++ [acc / 256; acc mod 256] in
              match rest with
              | [] => Some (ip, ellipsis)
              | 58 :: 58 :: s => if bool_decide (ellipsis = None) then (if bool_decide (s = []) then Some (ip, Some (length ip)) else groups6 fuel s ip (Some (length ip))) else None
              | 58 :: c :: s => groups6 fuel (c :: s) ip ellipsis
              | _ => None
              end
          end
  end.
Definition leading_ellipsis (s : str) : str * option nat :=
  match s with
  | a :: b :: s' => if (a =? 58) && (b =? 58) then (s', Some 0%nat) else (s, None)
  | _ => (s, None)
  end.
Definition parseIPv6 (s : str) : option (list Z) :=
  let '(s, ellipsis) := leading_ellipsis s in
  if bool_decide (ellipsis = Some 0%nat) && bool_decide (s = []) then Some (replicate 16 0)
  else
    '(ip, ellipsis) ← groups6 9 s [] ellipsis;
    match ellipsis with
    | None => if (length ip =? 16)%nat then Some ip else None
    | Some e => if (length ip <? 16)%nat then Some (take e ip ++ replicate (16 - length ip) 0 ++ drop e ip) else None
    end.
(** [net.ParseIP]: 16 bytes; an address with a zone is refused. *)
Fixpoint ip_kind (s : str) : Z := match s with [] => 0 | c :: s => if (c =? 46) || (c =? 58) || (c =? 37) then c else ip_kind s end.
Definition ParseIP (s : str) : list Z :=
  if ip_kind s =? 46 then match parseIPv4Fields s with Some v4 => v4InV6Prefix ++ v4 | None => [] end
  else if ip_kind s =? 58 then (if bool_decide (37 ∈ s) then [] else default [] (parseIPv6 s))
  else [].
(** [net.ParseCIDR]: the network. *)
Definition ParseCIDR (s : str) : option IPNet :=
  match split_first 47 s with
  | (addr, Some mask) =>
      let ip := ParseIP addr in
      let bits := if ip_kind addr =? 46 then 32 else 128 in
      if bool_decide (ip = []) || bool_decide (mask = []) then None
      else
        n ← digits_value 0 mask;
        if n <=? bits then Some (mkIPNet (ip_Mask ip (CIDRMask n bits)) (CIDRMask n bits)) else None
  | _ => None
  end.

Example parse_addresses :
  To4 (ParseIP (sbytes "10.0.0.7")) = [10; 0; 0; 7] ∧ To4 (ParseIP (sbytes "::ffff:10.0.0.7")) = [10; 0; 0; 7] ∧
  To4 (ParseIP (sbytes "10.0.0.07")) = [] ∧ To4 (ParseIP (sbytes "10.0.0.256")) = [] ∧ To4 (ParseIP (sbytes "::1")) = [] ∧
  ParseIP (sbytes "2001:db8::1:2") = [32; 1; 13; 184; 0; 0; 0; 0; 0; 0; 0; 0; 0; 1; 0; 2] ∧
  ParseCIDR (sbytes "172.20.5.9/16") = Some (mkIPNet [172; 20; 0; 0] [255; 255; 0; 0]).
Proof. vm_compute. repeat split. Qed.

(** ** stacknet: subnets *)

Inductive net_err :=
  | EOutside (name : str)
  | EInvalid (name : str)
  | EConflict (name : str)
  | ENoFreeIP
  | ENoFreeSubnet
  | ENotIPv4
  | EBadSubnet
  | EBadGateway.

Fixpoint bump (l : list Z) : list Z :=
  match l with
  | [] => []
  | b :: l => if u8 (b + 1) =? 0 then 0 :: bump l else u8 (b + 1) :: l
  end.
Definition incrementIP (ip : list Z) : list Z := reverse (bump (reverse ip)).

(** The FNV-1a hash of 32 bits. *)
Definition hashProject (project : str) : Z := foldl (fun h b => u32 (Z.lxor h b * 16777619)) 2166136261 project.

Definition normalizeIPv4Net (n : IPNet) : option IPNet :=
  let ip := To4 (net_IP n) in
  if bool_decide (ip = []) then None
  else
    let mask := if (length (net_Mask n) =? 4)%nat then net_Mask n else CIDRMask (Size (net_Mask n)).1 32 in
    Some (mkIPNet (ip_Mask ip mask) mask).

Definition cidrOverlap (a b : IPNet) : bool :=
  match normalizeIPv4Net a, normalizeIPv4Net b with
  | Some a, Some b => Contains a (net_IP b) || Contains b (net_IP a)
  | _, _ => false
  end.
Definition overlapsAny (candidate : IPNet) (occupied : list IPNet) : bool := existsb (cidrOverlap candidate) occupied.

Definition firstHostIP (n : IPNet) : res net_err (list Z) :=
  if bool_decide (To4 (net_IP n) = []) then Err ENotIPv4 else Ok (incrementIP (To4 (net_IP n))).

(** [offset] is added to the address from its last byte on. *)
Fixpoint add_offset (l : list Z) (offset : Z) : list Z :=
  match l with
  | [] => []
  | b :: l => if 0 <? offset then let o := offset + b in (o .& 255) :: add_offset l (o .>> 8) else b :: l
  end.
Definition subnetAt (pool : IPNet) (prefixBits index : Z) : res net_err IPNet :=
  let base := To4 (net_IP pool) in
  if bool_decide (base = []) then Err ENotIPv4
  else
    let '(ones, bits) := Size (net_Mask pool) in
    if negb (bits =? 32) || (prefixBits <? ones) || (bits <? prefixBits) then Err EBadSubnet
    else
      let blockSize := 1 .<< (bits - prefixBits) in
      let ip := reverse (add_offset (reverse base) (index * blockSize)) in
      Ok (mkIPNet (ip_Mask ip (CIDRMask prefixBits 32)) (CIDRMask prefixBits 32)).

Definition subnetPool : option IPNet := ParseCIDR (sbytes "198.18.0.0/15").
Definition subnetPrefix : Z := 24.
(** The loop over the candidates that are left to try. *)
Fixpoint try_subnets (pool : IPNet) (occupied : list IPNet) (total start : Z) (todo : list Z) : res net_err IPNet :=
  match todo with
  | [] => Err ENoFreeSubnet
  | i :: todo =>
      candidate ← subnetAt pool subnetPrefix ((start + i) mod total);
      if overlapsAny candidate occupied then try_subnets pool occupied total start todo else Ok candidate
  end.
Definition selectAvailableSubnet (project : str) (occupied : list IPNet) : res net_err IPNet :=
  match subnetPool with
  | None => Err EBadSubnet
  | Some pool =>
      let ones := (Size (net_Mask pool)).1 in
      let availableBits := subnetPrefix - ones in
      if availableBits <=? 0 then Err EBadSubnet
      else
        let total := 1 .<< availableBits in
        let start := hashProject project mod u32 total in
        try_subnets pool occupied total start (Z.of_nat <$> seq 0 (Z.to_nat total))
  end.

(** The networks of the host: the destinations of its routes, without the
    default route, and the networks of its addresses, each once.  The key of a
    network, its text, is the pair of its address and its mask here. *)
Definition add_network (seen : list IPNet) (n : IPNet) : list IPNet :=
  if existsb (fun m => bool_decide (net_IP m = net_IP n ∧ net_Mask m = net_Mask n)) seen then seen else seen ++ [n].
Definition add_route (seen : list IPNet) (dst : option IPNet) : list IPNet :=
  match dst ≫= normalizeIPv4Net with
  | None => seen
  | Some n => if (Size (net_Mask n)).1 =? 0 then seen else add_network seen n
  end.
Definition add_addr (seen : list IPNet) (addr : IPNet) : list IPNet :=
  match normalizeIPv4Net addr with None => seen | Some n => add_network seen n end.
Definition occupiedIPv4Networks (routes : list (option IPNet)) (addrs : list IPNet) : list IPNet :=
  foldl add_addr (foldl add_route [] routes) addrs.
Definition selectStackSubnet (project : str) (routes : list (option IPNet)) (addrs : list IPNet) : res net_err IPNet :=
  selectAvailableSubnet project (occupiedIPv4Networks routes addrs).

Definition shortIfName (value : str) : str :=
  if zlen value <=? 15 then value else take 4 value ++ drop (length value - 11) value.

(** ** compose: addresses and names *)

Record ServiceNetworkConfig := mkServiceNetwork { Ipv4Address : str }.
(** The networks of a service; [None] is a nil configuration. *)
Abbreviation ServiceNetworks := (gmap str (option ServiceNetworkConfig)).
Record IPAMPool := mkPool { ipam_Subnet : str; ipam_Gateway : str }.
(** The address pools of a network, [None] a nil entry. *)
Abbreviation Network := (list (option IPAMPool)).

(** The two maps of [assignServiceIPs] are who holds a text, and the text of a
    service. *)
Abbreviation Reserved := (gmap str str).

Section plan.
(** [NetworksByPriority] of the compose library. *)
Context (byPriority : ServiceNetworks → list str).

Definition address_on (nets : ServiceNetworks) (name : str) : str :=
  match nets !! name with Some (Some cfg) => Ipv4Address cfg | _ => [] end.
Definition explicitServiceIPv4 (nets : ServiceNetworks) (primary : str) : str :=
  if negb (bool_decide (primary = [])) && negb (bool_decide (address_on nets primary = [])) then TrimSpace (address_on nets primary)
  else
    match filter (fun name => address_on nets name ≠ []) (byPriority nets) with
    | name :: _ => TrimSpace (address_on nets name)
    | [] => []
    end.

Definition score_of (scores : gmap str Z) (n : str) : Z := default 0 (scores !! n).
Definition add_score (n : str) (v : Z) (scores : gmap str Z) : gmap str Z := <[n := score_of scores n + v]> scores.
Definition score_service (scores : gmap str Z) (nets : ServiceNetworks) : gmap str Z :=
  let scores := foldl (fun sc nc => match nc.2 with Some cfg => if bool_decide (Ipv4Address cfg = []) then sc else add_score nc.1 100 sc | None => sc end)
                  scores (map_to_list nets) in
  match byPriority nets with n :: _ => add_score n 1 scores | [] => scores end.
Definition choosePrimaryComposeNetwork (services : gmap str ServiceNetworks) (networks : gmap str Network) : str :=
  if bool_decide (networks = ∅) then []
  else
    let scores := foldl score_service ∅ (map_to_list services).*2 in
    match sorted_keys scores with
    | [] => if bool_decide (is_Some (networks !! sbytes "default")) then sbytes "default" else default [] (head (sorted_keys networks))
    | best :: names => foldl (fun best n => if score_of scores best <? score_of scores n then n else best) best names
    end.

Fixpoint composeNetworkCIDR (cfg : Network) : res net_err (option (IPNet * list Z)) :=
  match cfg with
  | [] => Ok None
  | None :: cfg => composeNetworkCIDR cfg
  | Some pool :: cfg =>
      if bool_decide (TrimSpace (ipam_Subnet pool) = []) then composeNetworkCIDR cfg
      else
        match ParseCIDR (TrimSpace (ipam_Subnet pool)) ≫= normalizeIPv4Net with
        | None => Err EBadSubnet
        | Some subnet =>
            let gateway := TrimSpace (ipam_Gateway pool) in
            if bool_decide (gateway = []) then ip ← firstHostIP subnet; Ok (Some (subnet, ip))
            else
              let ip := To4 (ParseIP gateway) in
              if bool_decide (ip = []) then Err EBadGateway
              else if negb (Contains subnet ip) then Err EBadGateway
              else Ok (Some (subnet, ip))
        end
  end.

Definition reserve_explicit (subnet : IPNet) (primary : str) (services : gmap str ServiceNetworks) (name : str)
    (st : Reserved * gmap str str) : res net_err (Reserved * gmap str str) :=
  let ip := explicitServiceIPv4 (default ∅ (services !! name)) primary in
  if bool_decide (ip = []) then Ok st
  else
    let parsed := To4 (ParseIP ip) in
    if bool_decide (parsed = []) then Err (EInvalid name)
    else if negb (Contains subnet parsed) then Err (EOutside name)
    else
      match st.1 !! ip with
      | Some _ => Err (EConflict name)
      | None => Ok (<[ip := name]> st.1, <[name := ip]> st.2)
      end.
(** The next address that nobody holds, and the address after it. *)
Fixpoint next_free (fuel : nat) (subnet : IPNet) (reserved : Reserved) (next : list Z) : res net_err (str * list Z) :=
  match fuel with
  | O => NoFuel
  | S fuel =>
      if negb (Contains subnet next) then Err ENoFreeIP
      else
        match reserved !! ip4_string next with
        | Some _ => next_free fuel subnet reserved (incrementIP next)
        | None => Ok (ip4_string next, incrementIP next)
        end
  end.
Definition assign_free (subnet : IPNet) (name : str) (st : Reserved * gmap str str * list Z)
    : res net_err (Reserved * gmap str str * list Z) :=
  let '(reserved, serviceIPs, next) := st in
  if negb (bool_decide (default [] (serviceIPs !! name) = [])) then Ok st
  else
    '(candidate, next) ← next_free (S (size reserved)) subnet reserved next;
    Ok (<[candidate := name]> reserved, <[name := candidate]> serviceIPs, next).
Definition assignServiceIPs (order : list str) (services : gmap str ServiceNetworks) (primary : str) (subnet : IPNet) (gateway : list Z)
    : res net_err (gmap str str) :=
  let reserved := if bool_decide (gateway = []) then ∅ else {[ ip4_string gateway := sbytes "gateway" ]} in
  '(reserved, serviceIPs) ← for_each (reserve_explicit subnet primary services) order (reserved, ∅);
  let base := To4 (net_IP subnet) in
  if bool_decide (base = []) then Err ENotIPv4
  else
    '(_, serviceIPs, _) ← for_each (assign_free subnet) order (reserved, serviceIPs, incrementIP base);
    Ok serviceIPs.

Record stackNetworkPlan := mkPlan {
  pl_primary : str;
  pl_subnet : IPNet;
  pl_gateway : list Z;
  pl_serviceIPs : gmap str str;
}.
Definition planStackNetwork (project : str) (routes : list (option IPNet)) (addrs : list IPNet) (order : list str)
    (services : gmap str ServiceNetworks) (networks : gmap str Network) : res net_err stackNetworkPlan :=
  let primary := choosePrimaryComposeNetwork services networks in
  chosen ← (if bool_decide (primary = []) then Ok None else composeNetworkCIDR (default [] (networks !! primary)));
  '(subnet, gateway) ←
    (match chosen with
     | Some sg => Ok sg
     | None =>
         subnet ← selectStackSubnet project routes addrs;
         gateway ← firstHostIP subnet;
         Ok (subnet, gateway)
     end);
  serviceIPs ← assignServiceIPs order services primary subnet gateway;
  Ok (mkPlan primary subnet gateway serviceIPs).
End plan.

(** *** Tap devices *)

Definition composeTapPrefix (prefix project : str) : str :=
  let maxBaseLen := 12%nat in
  let prefix := if bool_decide (prefix = []) then sbytes "gc" else prefix in
  let hash := take 4 (fmt_uint 16 (hashProject project)) in
  let keep := (maxBaseLen - length hash)%nat in
  let keep := if (keep <? 1)%nat then 1%nat else keep in
  let base := take keep prefix ++ hash in
  take maxBaseLen base.
Definition tap_name (prefix project : str) (i : nat) : str :=
  let base := if bool_decide (project = []) then prefix else composeTapPrefix prefix project in
  shortIfName (base ++ fmt_uint 10 (Z.of_nat i)).
Definition assignTapNames (services : list str) (prefix project : str) : gmap str str :=
  foldl (fun m in_ => <[in_.2 := tap_name prefix project in_.1]> m) ∅ (imap pair services).

(** ** Prefix networks *)

Lemma and_bytes_assoc a b c : and_bytes (and_bytes a b) c = and_bytes a (and_bytes b c).
Proof.
  unfold and_bytes. revert b c. induction a as [|x a IH]; intros [|y b] [|z c]; simpl; try done. by rewrite Z.land_assoc, IH.
Qed.
Lemma and_bytes_comm a b : and_bytes a b = and_bytes b a.
Proof. unfold and_bytes. revert b. induction a as [|x a IH]; intros [|y b]; simpl; try done. by rewrite Z.land_comm, IH. Qed.
Lemma and_bytes_length a b : length a = length b → length (and_bytes a b) = length a.
Proof. intros H. unfold and_bytes. rewrite length_zip_with. lia. Qed.

(** The numbers 0 .. n-1, for checks by evaluation. *)
Definition below (n : nat) : list Z := Z.of_nat <$> seq 0 n.
Lemma below_all n (P : Z → bool) : forallb P (below n) = true → ∀ i, 0 ≤ i < Z.of_nat n → P i = true.
Proof.
  intros H i Hi. apply forallb_forall with (x := i) in H; [done|]. apply list_elem_of_In, list_elem_of_fmap.
  exists (Z.to_nat i). split; [lia|]. apply elem_of_seq. lia.
Qed.

Definition mask4 (k : Z) : list Z := CIDRMask k 32.
Lemma mask4_nested i j : 0 ≤ i ≤ j → j ≤ 32 → and_bytes (mask4 i) (mask4 j) = mask4 i.
Proof.
  intros Hi Hj.
  assert (H : forallb (fun j => forallb (fun i => implb (i <=? j) (bool_decide (and_bytes (mask4 i) (mask4 j) = mask4 i))) (below 33)) (below 33) = true)
    by (vm_compute; reflexivity).
  pose proof (below_all 33 _ H j ltac:(lia)) as Hj'. pose proof (below_all 33 _ Hj' i ltac:(lia)) as Hij. cbv beta in Hij.
  rewrite (proj2 (Z.leb_le i j)) in Hij by lia. simpl in Hij. by apply bool_decide_eq_true in Hij.
Qed.
Lemma mask4_bytes k : 0 ≤ k ≤ 32 → length (mask4 k) = 4%nat ∧ bytes (mask4 k).
Proof.
  intros Hk. assert (H : forallb (fun k => (length (mask4 k) =? 4)%nat && forallb (fun b => (0 <=? b) && (b <? 256)) (mask4 k)) (below 33) = true)
    by (vm_compute; reflexivity).
  apply below_all with (i := k) in H; [|lia]. apply andb_true_iff in H as [H1 H2]. split; [by apply Nat.eqb_eq|].
  apply Forall_forall. intros b Hb. rewrite forallb_forall in H2. specialize (H2 b ltac:(by apply list_elem_of_In)). unfold is_byte. b2p. lia.
Qed.

(** A network with a prefix mask, as the kernel and compose files give them. *)
Record prefix_net (k : Z) (n : IPNet) : Prop := {
  pn_bits : 0 ≤ k ≤ 32;
  pn_mask : net_Mask n = mask4 k;
  pn_len : length (net_IP n) = 4%nat;
}.

Lemma To4_4 ip : length ip = 4%nat → To4 ip = ip.
Proof. unfold To4. by intros ->. Qed.
Lemma nonempty4 (ip : list Z) : length ip = 4%nat → ip ≠ [].
Proof. by destruct ip. Qed.

Lemma Contains_prefix k n x : prefix_net k n → length x = 4%nat → Contains n x = bool_decide (and_bytes (net_IP n) (mask4 k) = and_bytes x (mask4 k)).
Proof.
  intros [Hk Hm Hl] Hx. unfold Contains, networkNumberAndMask.
  rewrite !To4_4 by done. rewrite !bool_decide_false by by apply nonempty4.
  rewrite Hl, Hm. destruct (mask4_bytes k Hk) as [-> _]. simpl. rewrite Hx, Hl. done.
Qed.
Lemma normalize_prefix k n : prefix_net k n → normalizeIPv4Net n = Some (mkIPNet (and_bytes (net_IP n) (mask4 k)) (mask4 k)).
Proof.
  intros [Hk Hm Hl]. unfold normalizeIPv4Net. rewrite To4_4 by done. rewrite bool_decide_false by by apply nonempty4.
  rewrite Hm. destruct (mask4_bytes k Hk) as [Hml _]. rewrite Hml. simpl. unfold ip_Mask. repeat (rewrite ?Hml, ?Hl; simpl). done.
Qed.
Lemma normal_prefix k n : prefix_net k n → prefix_net k (mkIPNet (and_bytes (net_IP n) (mask4 k)) (mask4 k)).
Proof. intros [Hk Hm Hl]. split; simpl; [done|done|]. rewrite and_bytes_length; [done|]. by destruct (mask4_bytes k Hk) as [-> _]. Qed.

(** Two prefix networks overlap in the sense of the code exactly when they
    share an address. *)
Lemma cidrOverlap_exact k l a b :
  prefix_net k a → prefix_net l b →
  cidrOverlap a b = true ↔ ∃ x, length x = 4%nat ∧ Contains a x = true ∧ Contains b x = true.
Proof.
  assert (Hone : ∀ k l a b x, prefix_net k a → prefix_net l b → k ≤ l → length x = 4%nat → Contains a x = true → Contains b x = true →
    and_bytes (and_bytes (net_IP a) (mask4 k)) (mask4 k) = and_bytes (and_bytes (net_IP b) (mask4 l)) (mask4 k)).
  { clear. intros k l a b x Ha Hb Hkl Hx. rewrite (Contains_prefix k), (Contains_prefix l), !bool_decide_eq_true by done.
    intros Hax Hbx. rewrite Hax, Hbx, !and_bytes_assoc. rewrite (and_bytes_comm (mask4 l)), !mask4_nested; try done; destruct Ha, Hb; lia. }
  intros Ha Hb. unfold cidrOverlap. rewrite (normalize_prefix k a Ha), (normalize_prefix l b Hb).
  pose proof (normal_prefix k a Ha) as Ha'. pose proof (normal_prefix l b Hb) as Hb'.
  assert (Hself : ∀ k n, prefix_net k n → and_bytes (and_bytes (net_IP n) (mask4 k)) (mask4 k) = and_bytes (net_IP n) (mask4 k)).
  { clear. intros k n Hn. rewrite and_bytes_assoc, mask4_nested; [done | destruct Hn; lia | destruct Hn; lia]. }
  rewrite orb_true_iff, (Contains_prefix k _ _ Ha'), (Contains_prefix l _ _ Hb') by (apply Hb' || apply Ha'). simpl.
  rewrite !bool_decide_eq_true. split.
  - intros [H|H].
    + exists (and_bytes (net_IP b) (mask4 l)). rewrite (Contains_prefix k), (Contains_prefix l), !bool_decide_eq_true by (done || apply Hb').
      rewrite <- H, !Hself by done. split; [apply Hb' | done].
    + exists (and_bytes (net_IP a) (mask4 k)). rewrite (Contains_prefix k), (Contains_prefix l), !bool_decide_eq_true by (done || apply Ha').
      rewrite <- H, !Hself by done. split; [apply Ha' | done].
  - intros (x & Hx & Hax & Hbx). destruct (Z.le_ge_cases k l) as [Hkl|Hkl]; [left | right].
    + by apply (Hone k l a b x).
    + by apply (Hone l k b a x).
Qed.

(** ** The subnet of a stack *)

Definition pool_net : IPNet := mkIPNet [198; 18; 0; 0] [255; 254; 0; 0].
(** The [i]-th /24 of the pool. *)
Definition block24 (i : Z) : IPNet := mkIPNet [198; 18 + i / 256; i mod 256; 0] (mask4 24).

Lemma subnetAt_block i : 0 ≤ i < 512 → subnetAt pool_net 24 i = Ok (block24 i).
Proof.
  intros Hi. assert (H : forallb (fun i => match subnetAt pool_net 24 i with Ok n => bool_decide (n = block24 i) | _ => false end) (below 512) = true) by (vm_compute; reflexivity).
  apply below_all with (i := i) in H; [|lia]. destruct (subnetAt _ _ _); try done. by apply bool_decide_eq_true in H as ->.
Qed.
Lemma block24_prefix i : prefix_net 24 (block24 i).
Proof. split; [lia | done | done]. Qed.

Lemma try_subnets_spec occupied start todo :
  0 ≤ start → Forall (fun i => 0 ≤ i) todo →
  match try_subnets pool_net occupied 512 start todo with
  | Ok n => ∃ i, i ∈ todo ∧ n = block24 ((start + i) mod 512) ∧ overlapsAny n occupied = false
  | Err e => e = ENoFreeSubnet ∧ ∀ i, i ∈ todo → overlapsAny (block24 ((start + i) mod 512)) occupied = true
  | _ => False
  end.
Proof.
  intros Hs. induction 1 as [|i todo Hi Hall IH]; cbn [try_subnets]; [split; [done | set_solver]|].
  rewrite subnetAt_block by (apply Z.mod_pos_bound; lia). cbn [mbind res_bind].
  destruct (overlapsAny _ _) eqn:E; [|exists i; set_solver].
  destruct (try_subnets _ _ _ _ _) as [n|e| |]; try done; [naive_solver set_solver|].
  destruct IH as [-> IH]. split; [done|]. intros j [-> | Hj]%elem_of_cons; auto.
Qed.

Lemma fnv_range project h : 0 ≤ h → 0 ≤ foldl (fun h b => u32 (Z.lxor h b * 16777619)) h project.
Proof. revert h. induction project as [|b l IH]; intros h Hh; simpl; [done|]. apply IH. apply u32_range. Qed.

Lemma selectAvailableSubnet_spec project occupied :
  match selectAvailableSubnet project occupied with
  | Ok n => ∃ i, 0 ≤ i < 512 ∧ n = block24 i ∧ overlapsAny n occupied = false
  | Err e => e = ENoFreeSubnet ∧ ∀ i, 0 ≤ i < 512 → overlapsAny (block24 i) occupied = true
  | _ => False
  end.
Proof.
  unfold selectAvailableSubnet. assert (subnetPool = Some pool_net) as -> by (vm_compute; reflexivity).
  assert ((Size (net_Mask pool_net)).1 = 15) as -> by (vm_compute; reflexivity).
  change (subnetPrefix - 15 <=? 0) with false. cbv iota. change (1 .<< (subnetPrefix - 15)) with 512. change (u32 512) with 512.
  set (start := hashProject project mod 512). assert (Hs : 0 ≤ start < 512) by (apply Z.mod_pos_bound; lia). clearbody start.
  change (Z.of_nat <$> seq 0 (Z.to_nat 512)) with (below 512).
  assert (Hin : ∀ i, i ∈ below 512 ↔ 0 ≤ i < 512).
  { intros i. unfold below. rewrite list_elem_of_fmap. split; [intros (j & -> & Hj%elem_of_seq); lia|].
    intros Hi. exists (Z.to_nat i). rewrite elem_of_seq. lia. }
  pose proof (try_subnets_spec occupied start (below 512) (proj1 Hs)) as Ht.
  ospecialize (Ht _). { apply Forall_forall. intros i Hi%Hin. lia. }
  destruct (try_subnets _ _ _ _ _) as [n|e| |]; try done.
  - destruct Ht as (i & _ & -> & Ho). eexists. split; [|done]. apply Z.mod_pos_bound. lia.
  - destruct Ht as [-> Ht]. split; [done|]. intros i Hi. specialize (Ht ((i - start) mod 512)).
    rewrite Zplus_mod_idemp_r in Ht. replace (start + (i - start)) with i in Ht by lia. rewrite (Z.mod_small i 512) in Ht by lia.
    apply Ht, Hin, Z.mod_pos_bound. lia.
Qed.

(** *** The networks of the host *)

Definition same_net (m n : IPNet) : Prop := net_IP m = net_IP n ∧ net_Mask m = net_Mask n.
Lemma add_network_incl seen n m : (m ∈ seen ∨ m = n) → m ∈ add_network seen n.
Proof.
  unfold add_network. destruct (existsb _ _) eqn:E; [|set_solver]. intros [? | ->]; [done|].
  apply existsb_exists in E as (m & Hm & [H1 H2]%bool_decide_eq_true). destruct m, n. simpl in *. subst. by apply list_elem_of_In.
Qed.
Lemma add_network_sub seen n m : m ∈ add_network seen n → m ∈ seen ∨ m = n.
Proof. unfold add_network. destruct (existsb _ _); set_solver. Qed.

(** What occupies the host: the non-default routes and the addresses. *)
Definition host_nets (routes : list (option IPNet)) (addrs : list IPNet) (n : IPNet) : Prop :=
  n ∈ addrs ∨ (Some n ∈ routes ∧ (Size (net_Mask n)).1 ≠ 0).

Lemma add_addrs_spec addrs seen m :
  m ∈ foldl add_addr seen addrs ↔ m ∈ seen ∨ ∃ n, n ∈ addrs ∧ normalizeIPv4Net n = Some m.
Proof.
  revert seen. induction addrs as [|a addrs IH]; intros seen; simpl; [set_solver|]. rewrite IH. unfold add_addr.
  destruct (normalizeIPv4Net a) as [n'|] eqn:Ea; [|set_solver].
  split.
  - intros [[Hm | ->]%add_network_sub | Hm]; set_solver.
  - intros [Hm | (n & [-> | Hn]%elem_of_cons & Hnm)]; [left; apply add_network_incl; by left | left; apply add_network_incl; right; congruence | set_solver].
Qed.
Lemma add_routes_spec routes seen m :
  m ∈ foldl add_route seen routes ↔ m ∈ seen ∨ ∃ n, Some n ∈ routes ∧ normalizeIPv4Net n = Some m ∧ (Size (net_Mask m)).1 ≠ 0.
Proof.
  revert seen. induction routes as [|a routes IH]; intros seen; simpl; [set_solver|]. rewrite IH. unfold add_route.
  destruct a as [a|]; simpl; [|set_solver]. destruct (normalizeIPv4Net a) as [n'|] eqn:Ea; [|set_solver].
  destruct (Z.eqb_spec (Size (net_Mask n')).1 0) as [Hz|Hz].
  - split; [set_solver|]. intros [Hm | (n & [[= ->] | Hn]%elem_of_cons & Hnm & ?)]; [by left | congruence | set_solver].
  - split.
    + intros [[Hm | ->]%add_network_sub | Hm]; set_solver.
    + intros [Hm | (n & [[= ->] | Hn]%elem_of_cons & Hnm & ?)]; [left; apply add_network_incl; by left | left; apply add_network_incl; right; congruence | set_solver].
Qed.

Lemma overlap_normal k l a b m :
  prefix_net k a → prefix_net l b → normalizeIPv4Net b = Some m → cidrOverlap a m = cidrOverlap a b.
Proof.
  intros Ha Hb Hm. rewrite (normalize_prefix l b Hb) in Hm. injection Hm as <-. unfold cidrOverlap.
  rewrite (normalize_prefix l b Hb), (normalize_prefix l _ (normal_prefix l b Hb)). simpl.
  by rewrite and_bytes_assoc, mask4_nested by (destruct Hb; lia).
Qed.
Lemma Size_mask4 k : 0 ≤ k ≤ 32 → Size (mask4 k) = (k, 32).
Proof.
  intros Hk. assert (H : forallb (fun k => bool_decide (Size (mask4 k) = (k, 32))) (below 33) = true) by (vm_compute; reflexivity).
  apply below_all with (i := k) in H; [|lia]. by apply bool_decide_eq_true in H.
Qed.

Lemma normalize_size n m : normalizeIPv4Net n = Some m → (Size (net_Mask m)).1 ≠ 0 → (Size (net_Mask n)).1 ≠ 0.
Proof.
  unfold normalizeIPv4Net. case_bool_decide; [done|]. intros [= <-]. simpl. destruct (length (net_Mask n) =? 4)%nat; [done|].
  intros Hm Hz. rewrite Hz in Hm. change (CIDRMask 0 32) with (mask4 0) in Hm. by rewrite (Size_mask4 0) in Hm by lia.
Qed.
Lemma normalize_size_prefix k n m : prefix_net k n → normalizeIPv4Net n = Some m → Size (net_Mask m) = Size (net_Mask n).
Proof. intros Hk. rewrite (normalize_prefix k n Hk). intros [= <-]. by rewrite (pn_mask _ _ Hk). Qed.
Lemma occupied_spec routes addrs m :
  (∀ n, host_nets routes addrs n → ∃ k, prefix_net k n) →
  m ∈ occupiedIPv4Networks routes addrs ↔ ∃ n, host_nets routes addrs n ∧ normalizeIPv4Net n = Some m.
Proof.
  intros Hwf. unfold occupiedIPv4Networks, host_nets. rewrite add_addrs_spec, add_routes_spec. split.
  - intros [[?%not_elem_of_nil | (n & Hn & Hnm & Hz)] | (n & Hn & Hnm)]; [done | |eauto].
    exists n. split; [|done]. right. split; [done|]. by eapply normalize_size.
  - intros (n & [Hn | [Hn Hz]] & Hnm); [eauto|]. left. right. exists n. splits; try done.
    destruct (Hwf n) as [k Hk]; [by right|]. by rewrite (normalize_size_prefix k n m Hk Hnm).
Qed.

(** The subnet that a compose stack gets is one of the 512 blocks of 256
    addresses of 198.18.0.0/15 and shares no address with a network of the
    host: neither with the destination of a route other than the default route
    nor with the network of an interface.  The choice never panics, and fails
    only when every block shares an address with such a network. *)
Theorem stack_subnet_free project routes addrs :
  (∀ n, host_nets routes addrs n → ∃ k, prefix_net k n) →
  match selectStackSubnet project routes addrs with
  | Ok subnet => (∃ i, 0 ≤ i < 512 ∧ subnet = block24 i) ∧
      ∀ n x, host_nets routes addrs n → length x = 4%nat → Contains subnet x = true → Contains n x = false
  | Err e => e = ENoFreeSubnet ∧
      ∀ i, 0 ≤ i < 512 → ∃ n x, host_nets routes addrs n ∧ Contains (block24 i) x = true ∧ Contains n x = true
  | _ => False
  end.
Proof.
  intros Hwf. unfold selectStackSubnet. pose proof (selectAvailableSubnet_spec project (occupiedIPv4Networks routes addrs)) as Hs.
  assert (Hocc : ∀ i, overlapsAny (block24 i) (occupiedIPv4Networks routes addrs) = true ↔ ∃ n, host_nets routes addrs n ∧ cidrOverlap (block24 i) n = true).
  { intros i. unfold overlapsAny. rewrite existsb_exists. setoid_rewrite <- list_elem_of_In. split.
    - intros (m & (n & Hn & Hnm)%(occupied_spec _ _ _ Hwf) & Ho). destruct (Hwf n Hn) as [k Hk]. exists n. split; [done|].
      by rewrite <- (overlap_normal 24 k _ _ m (block24_prefix i) Hk Hnm).
    - intros (n & Hn & Ho). destruct (Hwf n Hn) as [k Hk]. pose proof (normalize_prefix k n Hk) as Hnm. eexists. split.
      + apply (occupied_spec _ _ _ Hwf). by exists n.
      + by rewrite (overlap_normal 24 k _ _ _ (block24_prefix i) Hk Hnm). }
  destruct (selectAvailableSubnet _ _) as [subnet|e| |]; try done.
  - destruct Hs as (i & Hi & -> & Ho). split; [eauto|]. intros n x Hn Hx Hc. destruct (Hwf n Hn) as [k Hk].
    destruct (Contains n x) eqn:Hnx; [|done]. rewrite (proj2 (Hocc i)) in Ho; [done|]. exists n. split; [done|].
    apply (cidrOverlap_exact 24 k _ _ (block24_prefix i) Hk). eauto.
  - destruct Hs as [-> Hs]. split; [done|]. intros i Hi. destruct (proj1 (Hocc i) (Hs i Hi)) as (n & Hn & Ho). destruct (Hwf n Hn) as [k Hk].
    apply (cidrOverlap_exact 24 k _ _ (block24_prefix i) Hk) in Ho as (x & _ & ? & ?). eauto.
Qed.

(** ** Texts of addresses *)

Lemma fmt_small v : 0 ≤ v < 256 →
  fmt_uint 10 v = if v <? 10 then [48 + v] else if v <? 100 then [48 + v / 10; 48 + v mod 10] else [48 + v / 100; 48 + v / 10 mod 10; 48 + v mod 10].
Proof.
  intros Hv.
  assert (H : forallb (fun v => bool_decide (fmt_uint 10 v = if v <? 10 then [48 + v] else if v <? 100 then [48 + v / 10; 48 + v mod 10] else [48 + v / 100; 48 + v / 10 mod 10; 48 + v mod 10])) (below 256) = true)
    by (vm_compute; reflexivity).
  apply below_all with (i := v) in H; [|lia]. by apply bool_decide_eq_true in H.
Qed.
Lemma parse_octet_fmt v : 0 ≤ v < 256 → parse_octet (fmt_uint 10 v) = Some v.
Proof.
  intros Hv. assert (H : forallb (fun v => bool_decide (parse_octet (fmt_uint 10 v) = Some v)) (below 256) = true) by (vm_compute; reflexivity).
  apply below_all with (i := v) in H; [|lia]. by apply bool_decide_eq_true in H.
Qed.
Lemma digits_value_ge l acc v : digits_value acc l = Some v → 0 ≤ acc → acc * 10 ^ zlen l ≤ v.
Proof.
  revert acc. induction l as [|c l IH]; intros acc; cbn [digits_value]; [intros [= <-] _; unfold zlen; simpl; lia|].
  destruct (_ && _) eqn:Ec; [|done]. b2p. intros Hv Ha. specialize (IH _ Hv ltac:(lia)). rewrite zlen_cons.
  rewrite Z.pow_add_r by (pose proof (zlen_nonneg l); lia). assert (0 < 10 ^ zlen l) by (apply Z.pow_pos_nonneg; [lia | apply zlen_nonneg]). nia.
Qed.
Lemma parse_octet_text s v : parse_octet s = Some v → 0 ≤ v < 256 ∧ fmt_uint 10 v = s.
Proof.
  assert (Hlead : ∀ a l v, ¬ a = 48 → digits_value 0 (a :: l) = Some v → 49 ≤ a ≤ 57 ∧ (a - 48) * 10 ^ zlen l ≤ v).
  { intros a l w Ha. cbn [digits_value]. destruct (_ && _) eqn:Ec; [|done]. b2p. intros Hw%digits_value_ge; [|lia]. lia. }
  unfold parse_octet. destruct s as [|a s]; [done|]. destruct (_ && _) eqn:Ez; [done|]. intros H.
  destruct (digits_value 0 (a :: s)) as [w|] eqn:Hw; simpl in H; [|done]. destruct (Z.leb_spec w 255) as [Hle|]; [|done]. injection H as ->.
  destruct s as [|b s].
  - cbn [digits_value] in Hw. destruct (_ && _) eqn:Ec in Hw; [|done]. b2p. injection Hw as <-.
    split; [lia|]. rewrite fmt_small by lia. lt_is true. f_equal. lia.
  - assert (Ha : a ≠ 48) by (intros ->; done). destruct (Hlead _ _ _ Ha Hw) as [Hr Hge].
    destruct s as [|c s].
    + cbn [digits_value] in Hw. destruct (_ && _) eqn:E1 in Hw; [|done]. destruct (_ && _) eqn:E2 in Hw; [|done]. b2p. injection Hw as <-.
      split; [lia|]. rewrite fmt_small by lia. lt_is false. lt_is true.
      assert (((0 * 10 + (a - 48)) * 10 + (b - 48)) / 10 = a - 48) as -> by (symmetry; apply Z.div_unique with (b - 48); lia).
      assert (((0 * 10 + (a - 48)) * 10 + (b - 48)) mod 10 = b - 48) as -> by (symmetry; apply Z.mod_unique with (a - 48); lia).
      repeat f_equal; lia.
    + destruct s as [|d s].
      * cbn [digits_value] in Hw. destruct (_ && _) eqn:E1 in Hw; [|done]. destruct (_ && _) eqn:E2 in Hw; [|done]. destruct (_ && _) eqn:E3 in Hw; [|done]. b2p. injection Hw as Hw.
        split; [lia|]. rewrite fmt_small by lia. lt_is false. lt_is false.
        assert (v / 10 = (a - 48) * 10 + (b - 48)) as Hd by (symmetry; apply Z.div_unique with (c - 48); lia).
        assert (v / 100 = a - 48) as -> by (symmetry; apply Z.div_unique with ((b - 48) * 10 + (c - 48)); lia).
        rewrite Hd. assert (((a - 48) * 10 + (b - 48)) mod 10 = b - 48) as -> by (symmetry; apply Z.mod_unique with (a - 48); lia).
        assert (v mod 10 = c - 48) as -> by (symmetry; apply Z.mod_unique with ((a - 48) * 10 + (b - 48)); lia).
        repeat f_equal; lia.
      * exfalso. rewrite !zlen_cons in Hge. pose proof (zlen_nonneg s).
        assert (10 ^ 3 ≤ 10 ^ (1 + (1 + (1 + zlen s)))) by (apply Z.pow_le_mono_r; lia). nia.
Qed.

Definition ip4 (ip : list Z) : Prop := length ip = 4%nat ∧ bytes ip.

Lemma parse_ip4_string ip : ip4 ip → parseIPv4Fields (ip4_string ip) = Some ip.
Proof.
  intros [Hl Hb]. destruct ip as [|a [|b [|c [|d [|]]]]]; try done. unfold bytes, is_byte in Hb. rewrite !Forall_cons in Hb.
  destruct Hb as (Ha & Hb & Hc & Hd & _). unfold parseIPv4Fields, ip4_string.
  assert (Hno : ∀ n, 0 ≤ n < 256 → 46 ∉ fmt_uint 10 n) by (intros n Hn; apply digits_no; lia).
  rewrite !split_on_app, split_on_none by auto. by rewrite !parse_octet_fmt by done.
Qed.
Lemma ip4_string_inj a b : ip4 a → ip4 b → ip4_string a = ip4_string b → a = b.
Proof. intros Ha Hb He. apply parse_ip4_string in Ha, Hb. rewrite He, Hb in Ha. naive_solver. Qed.

Lemma split_on_join sep s : join [sep] (split_on sep s) = s.
Proof.
  induction s as [|c s IH]; [done|]. cbn [split_on]. pose proof (split_on_nonempty sep s). destruct (split_on sep s) as [|h t]; [done|].
  destruct (Z.eqb_spec c sep) as [->|]; [|rewrite <- IH; by destruct t].
  change (join [sep] ([] :: h :: t)) with (sep :: join [sep] (h :: t)). by rewrite IH.
Qed.
(** A dotted text names one address and is the text of it. *)
Lemma parse4_text s ip : parseIPv4Fields s = Some ip → ip4 ip ∧ ip4_string ip = s.
Proof.
  unfold parseIPv4Fields. destruct (split_on 46 s) as [|a [|b [|c [|d [|]]]]] eqn:E; try done.
  destruct (parse_octet a) as [va|] eqn:Ea; [|done]. destruct (parse_octet b) as [vb|] eqn:Eb; [|done].
  destruct (parse_octet c) as [vc|] eqn:Ec; [|done]. destruct (parse_octet d) as [vd|] eqn:Ed; [|done]. intros [= <-].
  apply parse_octet_text in Ea as [? Ea], Eb as [? Eb], Ec as [? Ec], Ed as [? Ed].
  split; [split; [done|]; repeat constructor; unfold is_byte; lia|].
  rewrite <- (split_on_join 46 s), E. unfold ip4_string. rewrite Ea, Eb, Ec, Ed. done.
Qed.
Lemma ip_kind_colon s : 58 ∉ s → ip_kind s ≠ 58.
Proof. induction s as [|c s IH]; [done|]. intros Hn. cbn [ip_kind]. destruct (_ || _) eqn:E; [set_solver | apply IH; set_solver]. Qed.
Lemma ParseIP_text s : 58 ∉ s → To4 (ParseIP s) ≠ [] → ip4 (To4 (ParseIP s)) ∧ ip4_string (To4 (ParseIP s)) = s.
Proof.
  intros Hc%ip_kind_colon Hne. unfold ParseIP in *. destruct (Z.eqb_spec (ip_kind s) 46) as [_|].
  - destruct (parseIPv4Fields s) as [ip|] eqn:E; [|done]. apply parse4_text in E as [[Hl Hb] Hs].
    assert (To4 (v4InV6Prefix ++ ip) = ip) as -> by (destruct ip as [|? [|? [|? [|? [|]]]]]; try done). done.
  - destruct (Z.eqb_spec (ip_kind s) 58); done.
Qed.

(** ** Counting addresses *)

Lemma bump_decode l : bytes l → bytes (bump l) ∧ length (bump l) = length l ∧ le_decode (bump l) = (le_decode l + 1) mod 256 ^ zlen l.
Proof.
  induction 1 as [|b l Hb Hl IH]; [split; [constructor | split; reflexivity]|]. destruct IH as (Hbl & Hll & IH). cbn [bump]. rewrite zlen_cons.
  pose proof (le_decode_bound l Hl) as Hbound. unfold is_byte in Hb.
  assert (Hp : 256 ^ (1 + zlen l) = 256 * 256 ^ zlen l) by (rewrite Z.pow_add_r; [lia | lia | apply zlen_nonneg]). rewrite Hp.
  assert (0 < 256 ^ zlen l) by (apply Z.pow_pos_nonneg; [lia | apply zlen_nonneg]).
  destruct (Z.eqb_spec (u8 (b + 1)) 0) as [E|E].
  - assert (b = 255) as -> by (destruct (decide (b = 255)); [done|]; rewrite u8_small in E by lia; lia).
    splits; [constructor; [unfold is_byte; lia | done] | simpl; lia |]. cbn [le_decode]. rewrite IH.
    replace (255 + 256 * le_decode l + 1) with (256 * (le_decode l + 1)) by lia. rewrite Zmult_mod_distr_l. lia.
  - assert (b < 255) by (destruct (decide (b = 255)) as [->|]; [done | lia]). rewrite u8_small by lia.
    splits; [constructor; [unfold is_byte; lia | done] | done |]. cbn [le_decode]. rewrite Z.mod_small; lia.
Qed.
Definition word (ip : list Z) : Z := be_decode ip.
Lemma incrementIP_word ip : ip4 ip → ip4 (incrementIP ip) ∧ word (incrementIP ip) = (word ip + 1) mod 2 ^ 32.
Proof.
  intros [Hl Hb]. unfold incrementIP, word, be_decode. rewrite reverse_involutive.
  assert (bytes (reverse ip)) as Hr by by apply Forall_reverse. destruct (bump_decode _ Hr) as (H1 & H2 & H3). rewrite H3.
  split; [split; [rewrite length_reverse, H2, length_reverse; done | by apply Forall_reverse]|]. by rewrite zlen_reverse; unfold zlen; rewrite Hl.
Qed.
Lemma word_inj a b : ip4 a → ip4 b → word a = word b → a = b.
Proof.
  intros [Hla Hba] [Hlb Hbb] H. apply (inj reverse). apply le_decode_inj; try (by apply Forall_reverse); [|done].
  by rewrite !length_reverse, Hla, Hlb.
Qed.
Lemma word_range ip : ip4 ip → 0 ≤ word ip < 2 ^ 32.
Proof.
  intros [Hl Hb]. unfold word, be_decode. pose proof (le_decode_bound (reverse ip) ltac:(by apply Forall_reverse)) as H.
  rewrite zlen_reverse in H. unfold zlen in H. rewrite Hl in H. exact H.
Qed.

Definition nth_ip (i : nat) (ip : list Z) : list Z := Nat.iter i incrementIP ip.
Lemma nth_ip_word i ip : ip4 ip → ip4 (nth_ip i ip) ∧ word (nth_ip i ip) = (word ip + Z.of_nat i) mod 2 ^ 32.
Proof.
  intros Hip. induction i as [|i IH]; [split; [done|]; simpl; rewrite Z.add_0_r, Z.mod_small; [done | by apply word_range]|].
  destruct IH as [H1 H2]. destruct (incrementIP_word _ H1) as [H3 H4]. split; [done|]. cbn [nth_ip Nat.iter nat_rect]. fold (nth_ip i ip).
  change (word (incrementIP (nth_ip i ip)) = (word ip + Z.of_nat (S i)) mod 2 ^ 32). rewrite H4, H2, Zplus_mod_idemp_l. f_equal. lia.
Qed.
Lemma nth_ip_S i ip : nth_ip (S i) ip = incrementIP (nth_ip i ip).
Proof. done. Qed.
Lemma nth_ip_inj i j ip : ip4 ip → Z.of_nat i < 2 ^ 32 → Z.of_nat j < 2 ^ 32 → ip4_string (nth_ip i ip) = ip4_string (nth_ip j ip) → i = j.
Proof.
  intros Hip Hi Hj He. destruct (nth_ip_word i ip Hip) as [H1 H2], (nth_ip_word j ip Hip) as [H3 H4].
  apply ip4_string_inj in He; [|done|done]. rewrite He, H4 in H2. pose proof (word_range ip Hip).
  assert (Hm : ∀ x, 0 ≤ x < 2 * 2 ^ 32 → x mod 2 ^ 32 = if x <? 2 ^ 32 then x else x - 2 ^ 32).
  { intros x Hx. destruct (Z.ltb_spec x (2 ^ 32)); [apply Z.mod_small; lia|]. symmetry. apply Z.mod_unique with 1; lia. }
  rewrite !Hm in H2 by lia. destruct (Z.ltb_spec (word ip + Z.of_nat i) (2 ^ 32)), (Z.ltb_spec (word ip + Z.of_nat j) (2 ^ 32)); lia.
Qed.

(** ** Free addresses *)

Abbreviation text i ip := (ip4_string (nth_ip i ip)).

Lemma reserved_count (reserved : Reserved) j x :
  ip4 x → Z.of_nat j ≤ 2 ^ 32 → (∀ i, (i < j)%nat → is_Some (reserved !! text i x)) → (j ≤ size reserved)%nat.
Proof.
  intros Hx Hj Hall. rewrite <- length_sorted_keys.
  assert (length ((fun i => text i x) <$> seq 0 j) = j) as Hl by by rewrite length_fmap, length_seq. rewrite <- Hl at 1. clear Hl.
  apply submseteq_length, NoDup_submseteq.
  - apply NoDup_fmap_2_strong; [|apply NoDup_seq]. intros a b Ha%elem_of_seq Hb%elem_of_seq. apply nth_ip_inj; [done | lia | lia].
  - intros t (i & -> & Hi%elem_of_seq)%list_elem_of_fmap. apply elem_sorted_keys, Hall. lia.
Qed.

Lemma next_free_spec fuel subnet reserved x j :
  ip4 x → Z.of_nat (size reserved) < 2 ^ 32 → (size reserved < j + fuel)%nat → (∀ i, (i < j)%nat → is_Some (reserved !! text i x)) →
  match next_free fuel subnet reserved (nth_ip j x) with
  | Ok (cand, next) => ∃ k, cand = text k x ∧ next = nth_ip (S k) x ∧ reserved !! cand = None ∧ Contains subnet (nth_ip k x) = true ∧
      ∀ i, (i < k)%nat → is_Some (reserved !! text i x)
  | Err e => e = ENoFreeIP ∧ ∃ k, Contains subnet (nth_ip k x) = false ∧ (k ≤ size reserved)%nat
  | _ => False
  end.
Proof.
  intros Hx Hs. assert (Hcount : ∀ j, (∀ i, (i < j)%nat → is_Some (reserved !! text i x)) → (j ≤ size reserved)%nat).
  { intros k Hk. destruct (le_lt_dec k (size reserved)) as [|Hlt]; [done|]. exfalso.
    assert (S (size reserved) ≤ size reserved)%nat; [|lia]. apply (reserved_count _ _ x Hx); [lia|]. intros i Hi. apply Hk. lia. }
  revert j. induction fuel as [|fuel IH]; intros j Hf Hall; cbn [next_free].
  - specialize (Hcount j Hall). lia.
  - destruct (Contains subnet (nth_ip j x)) eqn:Ec; simpl; [|split; [done | by exists j; auto]].
    destruct (reserved !! text j x) as [o|] eqn:Er; [|exists j; splits; done].
    rewrite <- nth_ip_S. apply IH; [lia|]. intros i Hi. destruct (decide (i = j)) as [->|]; [by rewrite Er | apply Hall; lia].
Qed.

Section assign.
Context (byPriority : ServiceNetworks → list str) (order : list str) (services : gmap str ServiceNetworks) (primary : str).
Context (subnet : IPNet) (gateway : list Z).
Context (Hnd : NoDup order) (Hlen : Z.of_nat (length order) < 2 ^ 32).
Context (Hdotted : ∀ n, 58 ∉ explicitServiceIPv4 byPriority (default ∅ (services !! n)) primary).

Definition good_text (t : str) : Prop := ∃ a, ip4 a ∧ t = ip4_string a ∧ Contains subnet a = true ∧ t ≠ ip4_string gateway.
(** The two maps agree, and everything held is an address of the subnet. *)
Record held (done_ : list str) (reserved : Reserved) (ips : gmap str str) : Prop := {
  h_gateway : gateway ≠ [] → is_Some (reserved !! ip4_string gateway);
  h_ips : ∀ n t, ips !! n = Some t → reserved !! t = Some n ∧ good_text t;
  h_size : (size reserved ≤ S (size ips))%nat;
  h_dom : ∀ n, is_Some (ips !! n) → n ∈ done_;
  h_explicit : ∀ n, n ∈ done_ → explicitServiceIPv4 byPriority (default ∅ (services !! n)) primary ≠ [] →
    ips !! n = Some (explicitServiceIPv4 byPriority (default ∅ (services !! n)) primary);
}.

Lemma held_size done_ reserved ips name :
  held done_ reserved ips → ips !! name = None → name ∈ order → done_ ⊆ order → (size reserved ≤ length order)%nat.
Proof.
  intros Hh Hn Hin Hsub. assert (S (size ips) ≤ length order)%nat; [|pose proof (h_size _ _ _ Hh); lia].
  rewrite <- (length_sorted_keys ips). change (length (name :: sorted_keys ips) ≤ length order)%nat.
  apply submseteq_length, NoDup_submseteq.
  - constructor; [|apply NoDup_sorted_keys]. intros [t Ht]%elem_sorted_keys. by rewrite Hn in Ht.
  - intros n [-> | Hk%elem_sorted_keys%(h_dom _ _ _ Hh)]%elem_of_cons; auto.
Qed.

Lemma held_insert done_ reserved ips name t :
  held done_ reserved ips → ips !! name = None → reserved !! t = None → gateway ≠ [] →
  (∃ a, ip4 a ∧ t = ip4_string a ∧ Contains subnet a = true) →
  (∀ e, e = explicitServiceIPv4 byPriority (default ∅ (services !! name)) primary → e ≠ [] → e = t) →
  ∀ done', (∀ n, n ∈ done' ↔ n ∈ done_ ∨ n = name) → held done' (<[t := name]> reserved) (<[name := t]> ips).
Proof.
  intros [Hg Hi Hs Hd He] Hn Hr Hgw (a & Ha & -> & Hc) Hex done' Hdone.
  assert (ip4_string a ≠ ip4_string gateway) as Hne by (intros E; rewrite E in Hr; destruct (Hg Hgw) as [? Hx]; by rewrite Hr in Hx).
  split.
  - intros _. rewrite lookup_insert_ne by done. auto.
  - intros n t'. rewrite lookup_insert_Some. intros [[-> <-] | [Hnn Ht]].
    + rewrite lookup_insert_eq. split; [done|]. by exists a.
    + destruct (Hi n t' Ht) as [Hr' Hgood]. split; [|done]. rewrite lookup_insert_ne; [done|]. intros E. subst t'. by rewrite Hr in Hr'.
  - rewrite !map_size_insert_None by done. lia.
  - intros n. rewrite lookup_insert_is_Some'. intros [-> | Hs']; apply Hdone; auto.
  - intros n [Hn' | ->]%Hdone Hx; [|rewrite lookup_insert_eq; f_equal; symmetry; by apply Hex].
    destruct (decide (n = name)) as [->|Hnn]; [rewrite lookup_insert_eq; f_equal; symmetry; by apply Hex|].
    rewrite lookup_insert_ne by done. auto.
Qed.

Context (Hgw : gateway ≠ []).

Lemma reserve_explicit_spec n done_ reserved ips :
  n ∉ done_ → held done_ reserved ips →
  match reserve_explicit byPriority subnet primary services n (reserved, ips) with
  | Ok st => held (done_ ++ [n]) st.1 st.2
  | Err e => e ≠ ENoFreeIP
  | _ => False
  end.
Proof.
  intros Hn Hh. assert (Hips : ips !! n = None) by (destruct (ips !! n) eqn:E; [|done]; destruct Hn; apply (h_dom _ _ _ Hh); eauto).
  unfold reserve_explicit. set (ip := explicitServiceIPv4 byPriority (default ∅ (services !! n)) primary) in *.
  destruct (decide (ip = [])) as [Hip|Hip]; [rewrite bool_decide_true by done | rewrite bool_decide_false by done].
  - destruct Hh as [Hg Hi Hs Hd He]. split; try done; [set_solver|].
    intros m [Hm | ->%list_elem_of_singleton]%elem_of_app Hx; [by apply He | done].
  - pose proof (Hdotted n) as Hdn. fold ip in Hdn. case_bool_decide as Hp; [done|]. destruct (Contains subnet (To4 (ParseIP ip))) eqn:Ec; [|done]. simpl.
    destruct (ParseIP_text ip Hdn Hp) as [Hip4 Htext]. destruct (reserved !! ip) eqn:Er; [done|].
    apply (held_insert done_ reserved ips n ip Hh Hips Er Hgw).
    + by exists (To4 (ParseIP ip)).
    + by intros e ->.
    + intros m. rewrite elem_of_app, list_elem_of_singleton. done.
Qed.
Lemma explicit_phase todo done_ reserved ips :
  done_ ++ todo = order → held done_ reserved ips →
  match for_each (reserve_explicit byPriority subnet primary services) todo (reserved, ips) with
  | Ok st => held order st.1 st.2
  | Err e => e ≠ ENoFreeIP
  | _ => False
  end.
Proof.
  revert done_ reserved ips. induction todo as [|n todo IH]; intros done_ reserved ips Ho Hh; cbn [for_each]; [by rewrite app_nil_r in Ho; subst|].
  assert (Hn : n ∉ done_) by (rewrite <- Ho in Hnd; apply NoDup_app in Hnd; set_solver).
  rewrite (app_assoc done_ [n] todo : done_ ++ n :: todo = _) in Ho.
  pose proof (reserve_explicit_spec n done_ reserved ips Hn Hh) as H1.
  destruct (reserve_explicit _ _ _ _ n _) as [[r i]|e| |]; simpl; try done. by apply (IH (done_ ++ [n])).
Qed.

(** Addresses are handed out from [x] on: all before the next one are held. *)
Definition from (x : list Z) (reserved : Reserved) (next : list Z) : Prop :=
  ∃ j, next = nth_ip j x ∧ ∀ i, (i < j)%nat → is_Some (reserved !! text i x).
Lemma assign_free_spec n x reserved ips next :
  n ∈ order → ip4 x → held order reserved ips → from x reserved next →
  match assign_free subnet n (reserved, ips, next) with
  | Ok st => held order st.1.1 st.1.2 ∧ from x st.1.1 st.2 ∧ ∀ m, m = n ∨ is_Some (ips !! m) → is_Some (st.1.2 !! m)
  | Err e => e = ENoFreeIP ∧ ∃ k, Contains subnet (nth_ip k x) = false ∧ (k ≤ length order)%nat
  | _ => False
  end.
Proof.
  intros Hin Hx Hh (j & -> & Hall). unfold assign_free. assert (Hempty : ∀ t, ips !! n = Some t → t ≠ []).
  { intros t Ht ->. destruct (h_ips _ _ _ Hh n _ Ht) as [_ (a & Ha & He & _)]. apply parse_ip4_string in Ha. by rewrite <- He in Ha. }
  destruct (ips !! n) as [t|] eqn:En; cbn [default from_option id].
  - rewrite bool_decide_false by by apply Hempty. simpl. splits; [done | by exists j |]. intros m [-> | ?]; [by rewrite En | done].
  - rewrite ?bool_decide_true by done. cbn [negb].
    assert (Hsz : (size reserved ≤ length order)%nat) by (by apply (held_size order reserved ips n)).
    pose proof (next_free_spec (S (size reserved)) subnet reserved x j Hx ltac:(lia) ltac:(lia) Hall) as Hf.
    destruct (next_free _ _ _ _) as [[cand next]|e| |]; simpl; try done; [|destruct Hf as (-> & k & ? & ?); split; [done|]; exists k; split; [done | lia]].
    destruct Hf as (k & -> & -> & Hr & Hc & Hk). splits.
    + apply (held_insert order reserved ips n (text k x) Hh En Hr Hgw); [exists (nth_ip k x); split; [by apply nth_ip_word | done] | |].
      * intros e -> He. pose proof (h_explicit _ _ _ Hh n Hin He) as Hx'. by rewrite En in Hx'.
      * intros m. split; [by left|]. by intros [? | ->].
    + exists (S k). split; [done|]. intros i Hi. destruct (decide (i = k)) as [->|]; [by rewrite lookup_insert_eq|].
      apply lookup_insert_is_Some'. right. apply Hk. lia.
    + intros m Hm. apply lookup_insert_is_Some'. naive_solver.
Qed.
Lemma assign_phase todo x reserved ips next :
  todo ⊆ order → ip4 x → held order reserved ips → from x reserved next →
  match for_each (assign_free subnet) todo (reserved, ips, next) with
  | Ok st => held order st.1.1 st.1.2 ∧ (∀ n, n ∈ todo ∨ is_Some (ips !! n) → is_Some (st.1.2 !! n))
  | Err e => e = ENoFreeIP ∧ ∃ k, Contains subnet (nth_ip k x) = false ∧ (k ≤ length order)%nat
  | _ => False
  end.
Proof.
  intros Hsub Hx. revert reserved ips next. induction todo as [|n todo IH]; intros reserved ips next Hh Hall; cbn [for_each]; [split; [done | set_solver]|].
  pose proof (assign_free_spec n x reserved ips next ltac:(apply Hsub; left) Hx Hh Hall) as H1.
  destruct (assign_free _ _ _) as [[[r i] nx]|e| |]; cbn [mbind res_bind fst snd] in *; try exact H1. destruct H1 as (Hh' & Hf' & Hm).
  specialize (IH ltac:(set_solver) r i nx Hh' Hf'). destruct (for_each _ _ _) as [st|e| |]; try done. destruct IH as [H1 H2]. split; [done|].
  intros m [[-> | ?]%elem_of_cons | ?]; apply H2; auto.
Qed.

Lemma assignServiceIPs_spec :
  ip4 gateway → ip4 (net_IP subnet) →
  match assignServiceIPs byPriority order services primary subnet gateway with
  | Ok ips => ∃ reserved, held order reserved ips ∧ ∀ n, n ∈ order → is_Some (ips !! n)
  | Err ENoFreeIP => ∃ k, Contains subnet (nth_ip (S k) (net_IP subnet)) = false ∧ (k ≤ length order)%nat
  | Err _ => True
  | _ => False
  end.
Proof.
  intros Hg Hs. unfold assignServiceIPs. rewrite (bool_decide_false (gateway = [])) by done.
  pose proof (explicit_phase order [] {[ip4_string gateway := sbytes "gateway"]} ∅ eq_refl) as He. ospecialize (He _).
  { split; [intros _; by rewrite lookup_singleton_eq | intros n t Ht; by rewrite lookup_empty in Ht | by rewrite map_size_singleton, map_size_empty | intros n [? Ht]; by rewrite lookup_empty in Ht | set_solver]. }
  destruct (for_each _ _ _) as [[reserved ips]|e| |]; cbn [mbind res_bind fst snd] in *; try done; [|by destruct e].
  rewrite To4_4 by apply Hs. rewrite (bool_decide_false (net_IP subnet = [])) by (apply nonempty4, Hs).
  pose proof (assign_phase order (incrementIP (net_IP subnet)) reserved ips (incrementIP (net_IP subnet)) ltac:(done) (proj1 (incrementIP_word _ Hs)) He) as Ha.
  ospecialize (Ha _). { exists 0%nat. split; [done | lia]. }
  destruct (for_each _ _ _) as [[[r i] nx]|e| |]; cbn [mbind res_bind fst snd] in *; try done.
  - exists r. destruct Ha as [H1 H2]. split; [done|]. auto.
  - destruct Ha as (-> & k & Hk & Hle). exists k. split; [|done]. unfold nth_ip in *. by rewrite Nat.iter_succ_r.
Qed.
End assign.

(** ** Bytes of parsed addresses *)

Lemma hex_digit_range c d : hex_digit c = Some d → 0 ≤ d < 16.
Proof. unfold hex_digit. intros H. repeat case_match; simplify_eq; b2p; lia. Qed.
Lemma hex_run_bound s acc n a m r : hex_run acc n s = (a, m, r) → 0 ≤ acc < 16 ^ Z.of_nat n → 0 ≤ a < 16 ^ Z.of_nat m.
Proof.
  revert acc n. induction s as [|c s IH]; intros acc n; cbn [hex_run]; [intros [= <- <- <-]; done|].
  destruct (hex_digit c) as [d|] eqn:Ed; [|intros [= <- <- <-]; done]. intros H Ha. apply (IH _ _ H).
  apply hex_digit_range in Ed. rewrite Nat2Z.inj_succ, Z.pow_succ_r by lia. lia.
Qed.
Lemma groups6_bytes fuel s ip e ip' e' : groups6 fuel s ip e = Some (ip', e') → bytes ip → bytes ip'.
Proof.
  revert s ip e. induction fuel as [|fuel IH]; intros s ip e; cbn [groups6]; [done|].
  destruct (16 <=? length ip)%nat; [case_bool_decide; [by intros [= <- <-] | done]|].
  destruct (hex_run 0 0 s) as [[acc off] rest] eqn:Eh. destruct (_ || _) eqn:Eo; [done|]. apply orb_false_iff in Eo as [_ Eo]. apply Nat.ltb_ge in Eo.
  apply hex_run_bound in Eh; [|simpl; lia].
  assert (16 ^ Z.of_nat off ≤ 16 ^ 4) by (apply Z.pow_le_mono_r; lia). change (16 ^ 4) with 65536 in *.
  assert (Hg : bytes ip → bytes (ip ++ [acc / 256; acc mod 256])).
  { intros Hip. apply Forall_app. split; [done|]. pose proof (Z.mod_pos_bound acc 256). repeat constructor; unfold is_byte; try lia.
    - apply Z.div_pos; lia.
    - apply Z.div_lt_upper_bound; lia. }
  intros H0 Hip. specialize (Hg Hip). repeat (case_match; simplify_eq; try done); try (by eapply IH).
  all: destruct (parseIPv4Fields s) as [v4|] eqn:E4; simplify_eq/=; apply parse4_text in E4 as [[_ ?] _]; by apply Forall_app.
Qed.
Lemma ParseIP_bytes s : bytes (ParseIP s).
Proof.
  unfold ParseIP. destruct (ip_kind s =? 46).
  - destruct (parseIPv4Fields s) as [ip|] eqn:E; [|constructor]. apply parse4_text in E as [[_ Hb] _]. apply Forall_app. split; [|done].
    vm_compute. repeat constructor; discriminate.
  - destruct (ip_kind s =? 58); [|constructor]. case_bool_decide; [constructor|]. unfold parseIPv6.
    assert (Hz : ∀ n, bytes (replicate n 0)) by (intros n; apply Forall_replicate; unfold is_byte; lia).
    destruct (leading_ellipsis s) as [s' e]. destruct (_ && _); [apply (Hz 16%nat)|].
    destruct (groups6 9 s' [] e) as [[ip e']|] eqn:Eg; simpl; [|constructor]. apply groups6_bytes in Eg; [|constructor].
    destruct e' as [e'|]; [|by destruct (_ =? _)%nat; [|constructor]]. destruct (_ <? _)%nat; [|constructor]. simpl.
    apply Forall_app. split; [by apply Forall_take|]. apply Forall_app. split; [apply Hz | by apply Forall_drop].
Qed.
Lemma To4_cases ip : To4 ip = [] ∨ length (To4 ip) = 4%nat.
Proof.
  unfold To4. destruct (Nat.eqb_spec (length ip) 4); [by right|]. destruct (_ && _) eqn:E; [|by left]. right.
  apply andb_true_iff in E as [E%Nat.eqb_eq _]. rewrite length_drop. lia.
Qed.
Lemma To4_bytes ip : bytes ip → bytes (To4 ip).
Proof. unfold To4. intros. repeat case_match; [done | by apply Forall_drop | constructor]. Qed.
Lemma and_bytes_bytes a b : bytes a → bytes b → bytes (and_bytes a b).
Proof.
  intros Ha. revert b. induction Ha as [|x a Hx Ha IH]; intros [|y b] Hb; [constructor..|]. apply Forall_cons in Hb as [Hy Hb].
  constructor; [|by apply IH]. unfold is_byte in *. change 256 with (2 ^ 8) in *. apply (fits_land 8); unfold fits; lia.
Qed.
Lemma mask_byte_range n : is_byte (mask_byte n).
Proof.
  unfold mask_byte, is_byte. destruct (Z.leb_spec n 0); [lia|]. destruct (Z.leb_spec 8 n); [lia|].
  assert (0 < 2 ^ (8 - n)) by (apply Z.pow_pos_nonneg; lia). assert (2 ^ (8 - n) ≤ 2 ^ 8) by (apply Z.pow_le_mono_r; lia). lia.
Qed.
Lemma CIDRMask_bytes n bits : bytes (CIDRMask n bits).
Proof. unfold CIDRMask. repeat (case_match; [constructor|]). apply Forall_fmap, Forall_forall. intros. apply mask_byte_range. Qed.
Lemma ip_Mask_bytes ip mask : bytes ip → bytes mask → bytes (ip_Mask ip mask).
Proof.
  intros Hi Hm. unfold ip_Mask. destruct (_ =? _)%nat; [|constructor].
  apply and_bytes_bytes; repeat case_match; try done; by apply Forall_drop.
Qed.
Lemma ip_Mask_4 ip mask : length ip = 4%nat → ip_Mask ip mask = [] ∨ length (ip_Mask ip mask) = 4%nat.
Proof.
  intros Hl. unfold ip_Mask. set (mask' := if _ && _ then _ else mask).
  replace (if (length mask' =? 4)%nat && (length ip =? 16)%nat && _ then drop 12 ip else ip) with ip by (rewrite Hl; by destruct (length mask' =? 4)%nat).
  destruct (Nat.eqb_spec (length ip) (length mask')); [right; by rewrite and_bytes_length | by left].
Qed.

(** A network that the file gives is a network of four bytes, and so is its
    gateway. *)
Lemma normalized_net n m : bytes (net_IP n) → bytes (net_Mask n) → normalizeIPv4Net n = Some m → bytes (net_IP m) ∧ (net_IP m = [] ∨ length (net_IP m) = 4%nat).
Proof.
  intros Hi Hm. unfold normalizeIPv4Net. case_bool_decide as Hne; [done|]. intros [= <-]. simpl.
  destruct (To4_cases (net_IP n)) as [?|Hl]; [done|]. split; [|by apply ip_Mask_4].
  apply ip_Mask_bytes; [by apply To4_bytes|]. destruct (_ =? _)%nat; [done | apply CIDRMask_bytes].
Qed.
Lemma ParseCIDR_bytes s n : ParseCIDR s = Some n → bytes (net_IP n) ∧ bytes (net_Mask n).
Proof.
  unfold ParseCIDR. destruct (split_first 47 s) as [addr [mask|]]; [|done]. destruct (_ || _); [done|].
  destruct (digits_value 0 mask) as [k|]; simpl; [|done]. case_match; [|done]. intros [= <-]. simpl.
  split; [apply ip_Mask_bytes; [apply ParseIP_bytes | apply CIDRMask_bytes] | apply CIDRMask_bytes].
Qed.
Lemma firstHostIP_ip4 n ip : ip4 (net_IP n) → firstHostIP n = Ok ip → ip4 ip.
Proof. intros Hn. unfold firstHostIP. case_bool_decide; [done|]. intros [= <-]. rewrite To4_4 by apply Hn. by apply incrementIP_word. Qed.
Lemma composeNetworkCIDR_ip4 cfg :
  match composeNetworkCIDR cfg with
  | Ok (Some (subnet, gateway)) => ip4 (net_IP subnet) ∧ ip4 gateway
  | Ok None | Err _ => True
  | _ => False
  end.
Proof.
  induction cfg as [|[pool|] cfg IH]; cbn [composeNetworkCIDR]; [done| |done]. destruct (bool_decide _) eqn:Es; [done|].
  destruct (ParseCIDR _ ≫= normalizeIPv4Net) as [subnet|] eqn:E; [|done]. apply bind_Some in E as (n & [Hni Hnm]%ParseCIDR_bytes & Hn).
  pose proof (To4_cases (ParseIP (TrimSpace (ipam_Gateway pool)))) as Hg.
  pose proof (To4_bytes _ (ParseIP_bytes (TrimSpace (ipam_Gateway pool)))) as Hgb. revert Hg Hgb.
  generalize (To4 (ParseIP (TrimSpace (ipam_Gateway pool)))) as ip. intros ip Hg Hgb.
  destruct (normalized_net n subnet Hni Hnm Hn) as [Hb [Hnil|Hl]].
  - destruct (bool_decide (TrimSpace (ipam_Gateway pool) = [])); [unfold firstHostIP; by rewrite Hnil|].
    destruct Hg as [->|Hg]; [done|]. rewrite bool_decide_false by by apply nonempty4.
    unfold Contains, networkNumberAndMask. rewrite Hnil. simpl. rewrite To4_4 by done. rewrite bool_decide_false by by apply nonempty4. by rewrite Hg.
  - assert (Hs : ip4 (net_IP subnet)) by done. destruct (bool_decide (TrimSpace (ipam_Gateway pool) = [])).
    + unfold firstHostIP. rewrite To4_4 by done. rewrite bool_decide_false by by apply nonempty4. simpl. split; [done|]. by apply incrementIP_word.
    + destruct Hg as [->|Hg]; [done|]. rewrite bool_decide_false by by apply nonempty4. by destruct (Contains _ _).
Qed.

(** ** The plan *)

Lemma chosen_subnet project routes addrs cfg :
  match (chosen ← composeNetworkCIDR cfg;
         match chosen with
         | Some sg => Ok sg
         | None => subnet ← selectStackSubnet project routes addrs; gateway ← firstHostIP subnet; Ok (subnet, gateway)
         end) with
  | Ok (subnet, gateway) => ip4 (net_IP subnet) ∧ ip4 gateway
  | Err _ => True
  | _ => False
  end.
Proof.
  pose proof (composeNetworkCIDR_ip4 cfg) as Hc. destruct (composeNetworkCIDR cfg) as [[[subnet gateway]|]|e| |]; simpl; try done.
  unfold selectStackSubnet. pose proof (selectAvailableSubnet_spec project (occupiedIPv4Networks routes addrs)) as Hs.
  destruct (selectAvailableSubnet _ _) as [subnet|e| |]; simpl; try done. destruct Hs as (i & Hi & -> & _).
  assert (Hb : ip4 (net_IP (block24 i))).
  { split; [done|]. pose proof (Z.mod_pos_bound i 256). assert (0 ≤ i / 256 < 2) by (split; [apply Z.div_pos | apply Z.div_lt_upper_bound]; lia).
    simpl. repeat constructor; unfold is_byte; lia. }
  unfold firstHostIP. rewrite To4_4 by done. rewrite bool_decide_false by done. simpl. split; [done|]. by apply incrementIP_word.
Qed.

(** C12: the plan of a compose stack's network gives every service an address
    of the subnet; no two services share an address and none has the gateway's;
    a service with an address in the file gets that address.  Addresses in the
    file are written in the dotted form.  Planning never panics and its search
    for free addresses ends. *)
Theorem plan_addresses_distinct byPriority project routes addrs order services networks :
  NoDup order → Z.of_nat (length order) < 2 ^ 32 →
  (∀ n, 58 ∉ explicitServiceIPv4 byPriority (default ∅ (services !! n)) (choosePrimaryComposeNetwork byPriority services networks)) →
  match planStackNetwork byPriority project routes addrs order services networks with
  | Ok p =>
      ∃ addr : str → list Z,
        (∀ n, n ∈ order → pl_serviceIPs p !! n = Some (ip4_string (addr n)) ∧ ip4 (addr n) ∧
           Contains (pl_subnet p) (addr n) = true ∧ addr n ≠ pl_gateway p) ∧
        (∀ n m, n ∈ order → m ∈ order → addr n = addr m → n = m) ∧
        (∀ n, n ∈ order → explicitServiceIPv4 byPriority (default ∅ (services !! n)) (pl_primary p) ≠ [] →
           pl_serviceIPs p !! n = Some (explicitServiceIPv4 byPriority (default ∅ (services !! n)) (pl_primary p)))
  | Err _ => True
  | _ => False
  end.
Proof.
  intros Hnd Hlen Hdot. unfold planStackNetwork. set (primary := choosePrimaryComposeNetwork byPriority services networks) in *.
  pose proof (chosen_subnet project routes addrs (if bool_decide (primary = []) then [] else default [] (networks !! primary))) as Hsub.
  replace (if bool_decide (primary = []) then Ok None else _) with (composeNetworkCIDR (if bool_decide (primary = []) then [] else default [] (networks !! primary))) by by destruct (bool_decide _).
  destruct (composeNetworkCIDR _) as [chosen|e| |]; cbn [mbind res_bind] in Hsub |- *; try done.
  destruct (match chosen with Some _ => _ | None => _ end) as [[subnet gateway]|e| |]; cbn [mbind res_bind]; try done.
  destruct Hsub as [Hs Hg]. assert (Hgw : gateway ≠ []) by by apply nonempty4, Hg.
  pose proof (assignServiceIPs_spec byPriority order services primary subnet gateway Hnd Hlen Hdot Hgw Hg Hs) as Ha.
  destruct (assignServiceIPs _ _ _ _ _ _) as [ips|e| |]; cbn [mbind res_bind]; try done. simpl.
  destruct Ha as (reserved & Hh & Hall). exists (fun n => default [] (parseIPv4Fields (default [] (ips !! n)))).
  assert (Hone : ∀ n, n ∈ order → ∃ a, ips !! n = Some (ip4_string a) ∧ ip4 a ∧ Contains subnet a = true ∧ a ≠ gateway ∧ default [] (parseIPv4Fields (default [] (ips !! n))) = a).
  { intros n Hn. destruct (Hall n Hn) as [t Ht]. destruct (h_ips _ _ _ _ _ _ _ _ Hh n t Ht) as [_ (a & Ha & -> & Hc & Hne)].
    exists a. rewrite Ht. simpl. rewrite parse_ip4_string by done. splits; try done. by intros ->. }
  splits.
  - intros n Hn. destruct (Hone n Hn) as (a & H1 & H2 & H3 & H4 & ->). done.
  - intros n m Hn Hm. destruct (Hone n Hn) as (a & Ha & _ & _ & _ & ->), (Hone m Hm) as (b & Hb & _ & _ & _ & ->). intros <-.
    apply (h_ips _ _ _ _ _ _ _ _ Hh) in Ha as [Ha _], Hb as [Hb _]. congruence.
  - intros n Hn. by apply (h_explicit _ _ _ _ _ _ _ _ Hh).
Qed.

(** ** Room in a subnet *)

Lemma le_decode_and a b : bytes a → bytes b → length a = length b → le_decode (and_bytes a b) = le_decode a .& le_decode b.
Proof.
  intros Ha Hb Hl. apply Z.bits_inj'. intros i Hi. rewrite Z.land_spec, !le_decode_testbit by (try apply and_bytes_bytes; done).
  unfold and_bytes. rewrite lookup_zip_with. destruct (a !! _) as [x|] eqn:Ex; simpl; [|done].
  destruct (b !! _) as [y|] eqn:Ey; simpl; [apply Z.land_spec|]. apply lookup_lt_Some in Ex. apply lookup_ge_None in Ey. lia.
Qed.
Lemma word_and a b : ip4 a → ip4 b → word (and_bytes a b) = word a .& word b.
Proof.
  intros [Hla Hba] [Hlb Hbb]. unfold word, be_decode. rewrite <- le_decode_and by (rewrite ?length_reverse; try apply Forall_reverse; try done; lia).
  f_equal. unfold and_bytes. destruct a as [|a0 [|a1 [|a2 [|a3 [|]]]]], b as [|b0 [|b1 [|b2 [|b3 [|]]]]]; done.
Qed.
Lemma word_mask k : 0 ≤ k ≤ 32 → word (mask4 k) = Z.shiftl (Z.ones k) (32 - k).
Proof.
  intros Hk. assert (H : forallb (fun k => word (mask4 k) =? Z.shiftl (Z.ones k) (32 - k)) (below 33) = true) by (vm_compute; reflexivity).
  apply below_all with (i := k) in H; [|lia]. by apply Z.eqb_eq in H.
Qed.
Lemma word_masked k x : 0 ≤ k ≤ 32 → ip4 x → word (and_bytes x (mask4 k)) = (word x / 2 ^ (32 - k)) * 2 ^ (32 - k).
Proof.
  intros Hk Hx. destruct (mask4_bytes k Hk) as [Hl Hb]. pose proof (word_range x Hx) as Hr.
  rewrite word_and, word_mask by (done || by split). rewrite <- (Z.shiftr_div_pow2 (word x)), <- Z.shiftl_mul_pow2 by lia.
  apply Z.bits_inj'. intros i Hi. rewrite Z.land_spec, !Z.shiftl_spec by lia.
  destruct (Z.lt_ge_cases i (32 - k)); [rewrite !(Z.testbit_neg_r _ (i - (32 - k))) by lia; by rewrite andb_false_r|].
  rewrite Z.shiftr_spec by lia. replace (i - (32 - k) + (32 - k)) with i by lia.
  destruct (Z.lt_ge_cases i 32).
  - rewrite Z.ones_spec_low by lia. by rewrite andb_true_r.
  - rewrite (fits_testbit 32 (word x) i) by done. done.
Qed.
(** A prefix network contains the addresses that agree with it in their first
    [k] bits. *)
Lemma Contains_word k n x : prefix_net k n → ip4 (net_IP n) → ip4 x → Contains n x = (word (net_IP n) / 2 ^ (32 - k) =? word x / 2 ^ (32 - k)).
Proof.
  intros Hn Hi Hx. rewrite (Contains_prefix k) by (done || apply Hx). destruct Hn as [Hk Hm Hl]. destruct (mask4_bytes k Hk) as [Hml Hmb].
  assert (Hand : ∀ y, ip4 y → ip4 (and_bytes y (mask4 k))).
  { intros y [Hy Hyb]. split; [rewrite and_bytes_length by (rewrite Hml; done); done | by apply and_bytes_bytes]. }
  assert (0 < 2 ^ (32 - k)) by (apply Z.pow_pos_nonneg; lia).
  destruct (Z.eqb_spec (word (net_IP n) / 2 ^ (32 - k)) (word x / 2 ^ (32 - k))) as [E|E].
  - apply bool_decide_true. apply word_inj; [by apply Hand | by apply Hand|]. by rewrite !word_masked, E.
  - apply bool_decide_false. intros He. apply (f_equal word) in He. rewrite !word_masked in He by done. apply E. nia.
Qed.

(** A subnet with room for the services, its own address and the gateway is
    never reported as full. *)
Theorem plan_has_room byPriority order services primary subnet gateway k :
  NoDup order → prefix_net k subnet → ip4 (net_IP subnet) → word (net_IP subnet) mod 2 ^ (32 - k) = 0 → ip4 gateway →
  (∀ n, 58 ∉ explicitServiceIPv4 byPriority (default ∅ (services !! n)) primary) →
  Z.of_nat (length order) + 2 ≤ 2 ^ (32 - k) →
  assignServiceIPs byPriority order services primary subnet gateway ≠ Err ENoFreeIP.
Proof.
  intros Hnd Hp Hs Hal Hg Hdot Hroom. pose proof (pn_bits _ _ Hp) as Hk.
  assert (Hpow : 2 ^ (32 - k) ≤ 2 ^ 32) by (apply Z.pow_le_mono_r; lia). assert (0 < 2 ^ (32 - k)) by (apply Z.pow_pos_nonneg; lia).
  pose proof (assignServiceIPs_spec byPriority order services primary subnet gateway Hnd ltac:(lia) Hdot ltac:(by apply nonempty4, Hg) Hg Hs) as Ha.
  intros E. rewrite E in Ha. destruct Ha as (j & Hc & Hj). destruct (nth_ip_word (S j) (net_IP subnet) Hs) as [H1 H2].
  rewrite (Contains_word k) in Hc by done. apply Z.eqb_neq in Hc. apply Hc. rewrite H2.
  pose proof (word_range _ Hs) as Hr. set (w := word (net_IP subnet)) in *. set (m := 2 ^ (32 - k)) in *.
  assert (Hw : w = m * (w / m)) by (pose proof (Z.div_mod w m); lia).
  assert (Hdm : 2 ^ 32 = m * 2 ^ k) by (unfold m; rewrite <- Z.pow_add_r by lia; f_equal; lia).
  assert (w / m + 1 ≤ 2 ^ k) by (assert (w / m < 2 ^ k); [apply Z.div_lt_upper_bound; lia | lia]).
  rewrite Z.mod_small by nia. apply Z.div_unique with (Z.of_nat (S j)); lia.
Qed.

(** ** Tap names *)

Lemma fmt_nat_inj i j : (i < 1000)%nat → (j < 1000)%nat → fmt_uint 10 (Z.of_nat i) = fmt_uint 10 (Z.of_nat j) → i = j.
Proof.
  intros Hi Hj E. apply (f_equal Atoi) in E. rewrite !Atoi_fmt in E by lia. injection E. lia.
Qed.
Lemma fmt_length i : (i < 1000)%nat → (length (fmt_uint 10 (Z.of_nat i)) ≤ 3)%nat.
Proof.
  intros Hi. assert (H : forallb (fun v => (length (fmt_uint 10 v) <=? 3)%nat) (below 1000) = true) by (vm_compute; reflexivity).
  apply below_all with (i := Z.of_nat i) in H; [|lia]. by apply Nat.leb_le in H.
Qed.
(** The name of a tap device fits an interface name, and the devices of up to a
    thousand services have different names. *)
Lemma tap_names_fit prefix project i : (length (tap_name prefix project i) ≤ 15)%nat.
Proof.
  unfold tap_name, shortIfName. set (v := _ ++ fmt_uint 10 _). destruct (Z.leb_spec (zlen v) 15) as [H|H]; [unfold zlen in H; lia|].
  rewrite length_app, length_drop. pose proof (length_take v 4). unfold zlen in H. lia.
Qed.
Lemma tap_names_distinct prefix project i j :
  project ≠ [] → (i < 1000)%nat → (j < 1000)%nat → tap_name prefix project i = tap_name prefix project j → i = j.
Proof.
  intros Hp Hi Hj. unfold tap_name. rewrite bool_decide_false by done.
  assert (Hb : (length (composeTapPrefix prefix project) ≤ 12)%nat) by (unfold composeTapPrefix; rewrite length_take; lia).
  assert (Hs : ∀ k, (k < 1000)%nat → shortIfName (composeTapPrefix prefix project ++ fmt_uint 10 (Z.of_nat k)) = composeTapPrefix prefix project ++ fmt_uint 10 (Z.of_nat k)).
  { intros k Hk. unfold shortIfName. pose proof (fmt_length k Hk). rewrite (proj2 (Z.leb_le _ _)); [done|]. unfold zlen. rewrite length_app. lia. }
  rewrite !Hs by done. intros E%app_inv_head. by apply fmt_nat_inj.
Qed.

(** ** Examples *)

Definition ex_route : IPNet := mkIPNet [198; 18; 0; 0] [255; 255; 0; 0].
Definition ex_addr : IPNet := mkIPNet [198; 19; 54; 9] [255; 255; 255; 0].
Lemma ex_route_prefix : prefix_net 16 ex_route.
Proof. split; [lia | vm_compute; reflexivity | reflexivity]. Qed.
Lemma ex_addr_prefix : prefix_net 24 ex_addr.
Proof. split; [lia | vm_compute; reflexivity | reflexivity]. Qed.
Lemma stack_subnet_free_witness :
  ∃ subnet, selectStackSubnet (sbytes "demo") [None; Some ex_route] [ex_addr] = Ok subnet ∧
    ∀ x, length x = 4%nat → Contains subnet x = true → Contains ex_addr x = false.
Proof.
  exists (block24 311). assert (E : selectStackSubnet (sbytes "demo") [None; Some ex_route] [ex_addr] = Ok (block24 311)) by (vm_compute; reflexivity).
  split; [exact E|]. pose proof (stack_subnet_free (sbytes "demo") [None; Some ex_route] [ex_addr]) as H. rewrite E in H.
  destruct H as [_ H].
  - intros n [Hn%list_elem_of_singleton | [Hn _]]; [subst; exists 24; exact ex_addr_prefix|].
    apply elem_of_cons in Hn as [Hn | Hn%list_elem_of_singleton]; [discriminate Hn|]. injection Hn as ->. exists 16. exact ex_route_prefix.
  - intros x Hx Hc. apply (H ex_addr x); [left; by left | done | done].
Defined.

Definition ex_net : Network := [Some (mkPool (sbytes "10.0.0.0/24") (sbytes ""))].
Definition ex_nets (ip : str) : ServiceNetworks := {[ sbytes "front" := Some (mkServiceNetwork ip) ]}.
Definition ex_by (nets : ServiceNetworks) : list str := sorted_keys nets.
Definition ex_plan (ip : str) (net : Network) : res net_err stackNetworkPlan :=
  planStackNetwork ex_by (sbytes "demo") [] [] [ex_db; ex_web] {[ ex_db := ex_nets ip; ex_web := ex_nets [] ]} {[ sbytes "front" := net ]}.
Lemma plan_addresses_distinct_witness :
  ∃ p, ex_plan (sbytes "10.0.0.2") ex_net = Ok p ∧ pl_serviceIPs p !! ex_db = Some (sbytes "10.0.0.2") ∧
    ∃ addr : str → list Z, addr ex_db ≠ addr ex_web.
Proof.
  pose proof (plan_addresses_distinct ex_by (sbytes "demo") [] [] [ex_db; ex_web] {[ ex_db := ex_nets (sbytes "10.0.0.2"); ex_web := ex_nets [] ]} {[ sbytes "front" := ex_net ]}) as H.
  change (planStackNetwork _ _ _ _ _ _ _) with (ex_plan (sbytes "10.0.0.2") ex_net) in H.
  destruct (ex_plan (sbytes "10.0.0.2") ex_net) as [p|e| |] eqn:E; [|vm_compute in E; discriminate E..].
  exists p. destruct H as (addr & _ & Hinj & _).
  - apply (bool_decide_eq_true_1 _); vm_compute; reflexivity.
  - vm_compute. reflexivity.
  - intros n. set (P := choosePrimaryComposeNetwork _ _ _). vm_compute in P. subst P. destruct (_ !! n) as [nets|] eqn:En.
    + apply lookup_insert_Some in En as [[_ <-] | [_ [_ <-]%lookup_singleton_Some]]; apply (bool_decide_eq_true_1 _); vm_compute; reflexivity.
    + apply (bool_decide_eq_true_1 _); vm_compute; reflexivity.
  - split; [reflexivity|]. split; [apply (f_equal (fun r => match r with Ok p => pl_serviceIPs p !! ex_db | _ => None end)) in E; rewrite <- E; vm_compute; reflexivity|].
    exists addr. intros Ha. apply Hinj in Ha; [discriminate Ha | left | right; left].
Defined.

(** An address in the IPv4-mapped form of IPv6 is accepted and reserved under
    its own text only: another service gets the same address. *)
Lemma mapped_address_shared :
  ∃ p, ex_plan (sbytes "::ffff:10.0.0.2") ex_net = Ok p ∧
    pl_serviceIPs p !! ex_db = Some (sbytes "::ffff:10.0.0.2") ∧ pl_serviceIPs p !! ex_web = Some (sbytes "10.0.0.2") ∧
    To4 (ParseIP (sbytes "::ffff:10.0.0.2")) = To4 (ParseIP (sbytes "10.0.0.2")).
Proof. eexists. split; [vm_compute; reflexivity|]. vm_compute. done. Qed.

(** The last address of the subnet, its broadcast address, is given to a
    service. *)
Lemma broadcast_assigned :
  ∃ p, ex_plan [] [Some (mkPool (sbytes "10.0.0.0/30") (sbytes ""))] = Ok p ∧ pl_serviceIPs p !! ex_web = Some (sbytes "10.0.0.3").
Proof. eexists. split; [vm_compute; reflexivity|]. vm_compute. done. Qed.

(** Without a project name the prefix is not cut: the names of interfaces of a
    long prefix keep its first four bytes and the last eleven. *)
Example tap_example :
  tap_name (sbytes "gc") (sbytes "demo") 7 = sbytes "gcaefd7" ∧ shortIfName (sbytes "gcbr-demo-1a2b3c4d") = sbytes "gcbrmo-1a2b3c4d".
Proof. vm_compute. done. Qed.
