(* ===== verification/FcApi.v ===== *)
(** * Validation of machine configurations (src/internal/firecrackerapi)

    The values a client sends to the Firecracker-compatible interface, the
    checks of each of them on its own and the check of a whole configuration
    before a start, with [net.ParseMAC] of the standard library. *)
From S2P Require Import Prelude Stream Fdt RuntimeCfg Preview IPAlloc GoText Compose StackNet.

Definition MaxVCPUCount : Z := 32.
Definition MinMemSizeMib : Z := 128.
Definition MaxMemSizeMib : Z := 1048576.

(** The two kinds of [Error] and any other error. *)
Inductive err := InvalidArgument | InvalidState | Other.
Definition StatusCode (e : err) (fallback : Z) : Z :=
  match e with InvalidState => 409 | InvalidArgument => 400 | Other => fallback end.

Record BootSource := mkBootSource { KernelImagePath : str; BootArgs : str; InitrdPath : str; X86Boot : str }.
Record MachineConfig := mkMachine { VcpuCount : Z; MemSizeMib : Z }.
Record Balloon := mkBalloon {
  AmountMib : Z;
  DeflateOnOOM : bool;
  StatsPollingIntervalS : Z;
  FreePageHinting : bool;
  FreePageReporting : bool;
}.
Record MemoryHotplugConfig := mkHotplug { TotalSizeMib : Z; SlotSizeMib : Z; BlockSizeMib : Z }.
Record Drive := mkDrive { DriveID : str; PathOnHost : str; IsRootDevice : bool }.
Record NetworkInterface := mkIface { IfaceID : str; HostDevName : str; GuestMAC : str }.
Record PrebootConfig := mkPreboot {
  pc_BootSource : option BootSource;
  pc_MachineCfg : option MachineConfig;
  pc_Balloon : option Balloon;
  pc_MemoryHotplug : option MemoryHotplugConfig;
  pc_Drives : list Drive;
  pc_NetIfaces : list NetworkInterface;
  pc_DefaultVCPUs : Z;
  pc_DefaultMemMB : Z;
}.

Definition blank (s : str) : bool := bool_decide (TrimSpace s = []).
Definition x86_mode (s : str) : bool := bool_decide (s ∈ [sbytes "auto"; sbytes "acpi"; sbytes "legacy"]).

(** [check b]: return the invalid-argument error when [b]. *)
Definition check (b : bool) : res err unit := if b then Err InvalidArgument else Ok tt.

Definition ValidateBootSource (spec : BootSource) : res err unit :=
  _ ← check (blank (KernelImagePath spec));
  _ ← check (negb (bool_decide (X86Boot spec = [])) && negb (x86_mode (TrimSpace (X86Boot spec))));
  check (KernelCmdlineMax <? zlen (BootArgs spec) + 1).

Definition ValidateMachineConfig (spec : MachineConfig) : res err unit :=
  _ ← check (VcpuCount spec <? 0);
  _ ← check (MaxVCPUCount <? VcpuCount spec);
  _ ← check (MemSizeMib spec <? 0);
  _ ← check ((0 <? MemSizeMib spec) && (MemSizeMib spec <? MinMemSizeMib));
  check (MaxMemSizeMib <? MemSizeMib spec).

Definition ValidateBalloon (spec : Balloon) : res err unit :=
  _ ← check (MaxMemSizeMib <? AmountMib spec);
  _ ← check (StatsPollingIntervalS spec <? 0);
  _ ← check (FreePageHinting spec);
  check (FreePageReporting spec).
Definition ValidateBalloonUpdate (amount : Z) : res err unit := check (MaxMemSizeMib <? amount).
Definition ValidateBalloonStatsUpdate (interval : Z) : res err unit := check (interval <? 0).

(** [x%y] of the source is only reached with [y] not zero. *)
Definition ValidateMemoryHotplugConfig (spec : MemoryHotplugConfig) : res err unit :=
  _ ← check (TotalSizeMib spec =? 0);
  _ ← check (SlotSizeMib spec =? 0);
  _ ← check (BlockSizeMib spec =? 0);
  _ ← check (TotalSizeMib spec <? SlotSizeMib spec);
  _ ← check (SlotSizeMib spec <? BlockSizeMib spec);
  _ ← check (negb (TotalSizeMib spec mod SlotSizeMib spec =? 0));
  _ ← check (negb (SlotSizeMib spec mod BlockSizeMib spec =? 0));
  check (MaxMemSizeMib <? TotalSizeMib spec).
Definition ValidateMemoryHotplugSizeUpdate (requested : Z) : res err unit := check (MaxMemSizeMib <? requested).

Definition ValidateDrive (spec : Drive) : res err unit :=
  _ ← check (blank (DriveID spec));
  check (blank (PathOnHost spec)).

(** [net.ParseMAC]: 6, 8 or 20 bytes with colons, hyphens or dots. *)
Definition hex_pair (a b : Z) : option Z := x ← hex_digit a; y ← hex_digit b; Some (16 * x + y).
Fixpoint mac_pairs (sep : Z) (s : str) : option (list Z) :=
  match s with
  | [a; b] => v ← hex_pair a b; Some [v]
  | a :: b :: c :: s => if c =? sep then v ← hex_pair a b; vs ← mac_pairs sep s; Some (v :: vs) else None
  | _ => None
  end.
Fixpoint mac_quads (s : str) : option (list Z) :=
  match s with
  | [a; b; c; d] => v ← hex_pair a b; w ← hex_pair c d; Some [v; w]
  | a :: b :: c :: d :: e :: s => if e =? 46 then v ← hex_pair a b; w ← hex_pair c d; vs ← mac_quads s; Some (v :: w :: vs) else None
  | _ => None
  end.
Definition mac_size (l : list Z) : bool := bool_decide (length l ∈ [6; 8; 20]%nat).
Definition ParseMAC (s : str) : option (list Z) :=
  if zlen s <? 14 then None
  else
    let hw :=
      match s !! 2%nat, s !! 4%nat with
      | Some c, Some d => if (c =? 58) || (c =? 45) then mac_pairs c s else if d =? 46 then mac_quads s else None
      | _, _ => None
      end in
    l ← hw; if mac_size l then Some l else None.

Definition ValidateNetworkInterface (spec : NetworkInterface) : res err unit :=
  _ ← check (blank (IfaceID spec));
  _ ← check (blank (HostDevName spec));
  check (negb (blank (GuestMAC spec)) && bool_decide (ParseMAC (TrimSpace (GuestMAC spec)) = None)).

Definition opt_check {A} (f : A → res err unit) (o : option A) : res err unit :=
  match o with Some a => f a | None => Ok tt end.
(** The loop over the drives: the identifiers seen and the root drives. *)
Definition check_drive (drive : Drive) (st : list str * Z) : res err (list str * Z) :=
  _ ← ValidateDrive drive;
  _ ← check (bool_decide (DriveID drive ∈ st.1));
  let seen := DriveID drive :: st.1 in
  if IsRootDevice drive then
    let rootDrives := st.2 + 1 in
    if 1 <? rootDrives then Err InvalidArgument else Ok (seen, rootDrives)
  else Ok (seen, st.2).

Definition final_vcpus (spec : PrebootConfig) : Z :=
  let v := if pc_DefaultVCPUs spec <=? 0 then 1 else pc_DefaultVCPUs spec in
  match pc_MachineCfg spec with Some m => if 0 <? VcpuCount m then VcpuCount m else v | None => v end.
Definition final_mem (spec : PrebootConfig) : Z :=
  let v := if pc_DefaultMemMB spec =? 0 then 128 else pc_DefaultMemMB spec in
  match pc_MachineCfg spec with Some m => if 0 <? MemSizeMib m then MemSizeMib m else v | None => v end.

Definition ValidatePrebootForStart (spec : PrebootConfig) : res err unit :=
  match pc_BootSource spec with
  | None => Err InvalidArgument
  | Some b =>
      _ ← ValidateBootSource b;
      _ ← opt_check ValidateMachineConfig (pc_MachineCfg spec);
      _ ← opt_check ValidateBalloon (pc_Balloon spec);
      _ ← opt_check ValidateMemoryHotplugConfig (pc_MemoryHotplug spec);
      _ ← check (1 <? zlen (pc_NetIfaces spec));
      '(_, rootDrives) ← for_each check_drive (pc_Drives spec) ([], 0);
      _ ← check ((0 <? zlen (pc_Drives spec)) && (rootDrives =? 0));
      _ ← for_each (fun iface _ => ValidateNetworkInterface iface) (pc_NetIfaces spec) tt;
      _ ← check (MaxVCPUCount <? final_vcpus spec);
      _ ← check (final_mem spec <? MinMemSizeMib);
      _ ← check (MaxMemSizeMib <? final_mem spec);
      opt_check (fun b => check (final_mem spec <? AmountMib b)) (pc_Balloon spec)
  end.
