(* ===== verification/Preboot.v ===== *)
(** * The Firecracker-compatible pre-boot API (src/internal/api, src/internal/firecrackerapi)

    A client configures one machine with PUT and PATCH requests (boot source,
    machine, balloon, memory hotplug, drives, network interfaces) and starts it
    with an action.  Modelled here, over the validators of
    [FcApi]: the handlers over the state of the server, the machine
    configuration that a start builds, and the start itself.  What a request
    meets outside (the checks of host paths against the trusted directories,
    the launch of a machine, its controllers) is the record [Outcome] that
    comes with it; a body that does not decode is [None].  Requests are served
    one at a time, apart from the last lemma, which overlaps two starts. *)
From S2P Require Import Prelude Stream Fdt RuntimeCfg Preview IPAlloc GoText Compose StackNet FcApi.

(** ** The server *)

Record TokenBucketConfig := mkBucket { tb_Size : Z; tb_OneTimeBurst : Z; tb_RefillTimeMs : Z }.
Record RateLimiterConfig := mkLimiter { rl_Bandwidth : TokenBucketConfig; rl_Ops : TokenBucketConfig }.
Abbreviation Limiter := (option RateLimiterConfig).

Record MachineConfig := mkMachineConfig { mc_VcpuCount : Z; mc_MemSizeMib : Z; mc_RNGRateLimiter : Limiter }.
Record Drive := mkDrive {
  dr_DriveID : str;
  dr_PathOnHost : str;
  dr_IsRootDevice : bool;
  dr_IsReadOnly : bool;
  dr_RateLimiter : Limiter;
}.
Record NetworkInterface := mkNetworkInterface {
  ni_IfaceID : str;
  ni_HostDevName : str;
  ni_GuestMAC : str;
  ni_RateLimiter : Limiter;
  ni_RxRateLimiter : Limiter;
  ni_TxRateLimiter : Limiter;
}.
Record prebootConfig := mkPrebootConfig {
  bootSource : option FcApi.BootSource;
  machineConf : option MachineConfig;
  balloon : option FcApi.Balloon;
  memoryHotplug : option FcApi.MemoryHotplugConfig;
  memoryHotplugRequestedMiB : Z;
  drives : list Drive;
  netIfaces : list NetworkInterface;
}.

(** The configuration of a machine, in the fields that a start sets. *)
Record DriveConfig := mkDriveConfig { dc_ID : str; dc_Path : str; dc_Root : bool; dc_ReadOnly : bool; dc_RateLimiter : Limiter }.
Record BalloonConfig := mkBalloonConfig { bc_AmountMiB : Z; bc_DeflateOnOOM : bool; bc_StatsPollingIntervalS : Z }.
Record Config := mkConfig {
  c_KernelPath : str;
  c_Cmdline : str;
  c_InitrdPath : str;
  c_VCPUs : Z;
  c_MemMB : Z;
  c_X86Boot : str;
  c_RNGRateLimiter : Limiter;
  c_Balloon : option BalloonConfig;
  c_MemoryHotplug : option FcApi.MemoryHotplugConfig;
  c_DiskImage : str;
  c_DiskRO : bool;
  c_BlockRateLimiter : Limiter;
  c_Drives : list DriveConfig;
  c_TapName : str;
  c_NetRateLimiter : Limiter;
  c_MACAddr : list Z;
}.

(** The root machine: its configuration and whether it has stopped. *)
Record RootVM := mkRoot { rv_cfg : Config; rv_stopped : bool }.
(** [sv_launched] records every launch with the hotplug size asked for. *)
Record Server := mkServer {
  sv_preboot : prebootConfig;
  sv_root : option RootVM;
  sv_defaultX86Boot : str;
  sv_launched : list (Config * Z);
}.

Inductive response := Status (code : Z) | Panicked.

(** What a request meets: the path checks, the launch (does it succeed, does it
    return a cleanup function), and a controller of the machine: [None] when
    the handle does not have it, otherwise whether its call succeeds. *)
Record Outcome := mkOutcome {
  o_kernelPath : bool;
  o_workPath : bool;
  o_launch : bool;
  o_cleanup : bool;
  o_controller : option bool;
}.

(** *** Requests that configure *)

Definition api_drive (d : Drive) : FcApi.Drive := FcApi.mkDrive (dr_DriveID d) (dr_PathOnHost d) (dr_IsRootDevice d).
Definition api_iface (n : NetworkInterface) : FcApi.NetworkInterface := FcApi.mkIface (ni_IfaceID n) (ni_HostDevName n) (ni_GuestMAC n).
Definition api_machine (m : MachineConfig) : FcApi.MachineConfig := FcApi.mkMachine (mc_VcpuCount m) (mc_MemSizeMib m).

Definition with_preboot (s : Server) (p : prebootConfig) : Server := mkServer p (sv_root s) (sv_defaultX86Boot s) (sv_launched s).
Definition rejectIfRootStarted (s : Server) : res FcApi.err unit := match sv_root s with Some _ => Err FcApi.InvalidState | None => Ok tt end.

(** A handler's tail: an error becomes a status and leaves the server alone. *)
Definition respond (s : Server) (fallback : Z) (r : res FcApi.err Server) : Server * response :=
  match r with
  | Ok s => (s, Status 204)
  | Err e => (s, Status (FcApi.StatusCode e fallback))
  | Panic | NoFuel => (s, Panicked)
  end.
(** [if err := decodeJSONStrict(r, &v)]: status 400. *)
Definition decoded {A} (v : option A) : res FcApi.err A := match v with Some v => Ok v | None => Err FcApi.InvalidArgument end.
(** [apiErr(w, http.StatusBadRequest, ...)] and [StatusConflict]. *)
Definition bad_request {A} : res FcApi.err A := Err FcApi.InvalidArgument.
Definition conflict {A} : res FcApi.err A := Err FcApi.InvalidState.

Definition set_bootSource (p : prebootConfig) (v : FcApi.BootSource) :=
  mkPrebootConfig (Some v) (machineConf p) (balloon p) (memoryHotplug p) (memoryHotplugRequestedMiB p) (drives p) (netIfaces p).
Definition set_machineConf (p : prebootConfig) (v : MachineConfig) :=
  mkPrebootConfig (bootSource p) (Some v) (balloon p) (memoryHotplug p) (memoryHotplugRequestedMiB p) (drives p) (netIfaces p).
Definition set_balloon (p : prebootConfig) (v : FcApi.Balloon) :=
  mkPrebootConfig (bootSource p) (machineConf p) (Some v) (memoryHotplug p) (memoryHotplugRequestedMiB p) (drives p) (netIfaces p).
Definition set_hotplug (p : prebootConfig) (v : FcApi.MemoryHotplugConfig) (requested : Z) :=
  mkPrebootConfig (bootSource p) (machineConf p) (balloon p) (Some v) requested (drives p) (netIfaces p).
Definition set_drives (p : prebootConfig) (v : list Drive) :=
  mkPrebootConfig (bootSource p) (machineConf p) (balloon p) (memoryHotplug p) (memoryHotplugRequestedMiB p) v (netIfaces p).
Definition set_netIfaces (p : prebootConfig) (v : list NetworkInterface) :=
  mkPrebootConfig (bootSource p) (machineConf p) (balloon p) (memoryHotplug p) (memoryHotplugRequestedMiB p) (drives p) v.

Definition handleBootSource (o : Outcome) (v : option FcApi.BootSource) (s : Server) : Server * response :=
  respond s 409 (
    _ ← rejectIfRootStarted s;
    v ← decoded v;
    _ ← FcApi.ValidateBootSource v;
    _ ← FcApi.check (negb (o_kernelPath o));
    _ ← FcApi.check (negb (FcApi.blank (FcApi.InitrdPath v)) && negb (o_workPath o));
    Ok (with_preboot s (set_bootSource (sv_preboot s) v))).
Definition handleMachineConfig (v : option MachineConfig) (s : Server) : Server * response :=
  respond s 409 (
    _ ← rejectIfRootStarted s;
    v ← decoded v;
    _ ← FcApi.ValidateMachineConfig (api_machine v);
    Ok (with_preboot s (set_machineConf (sv_preboot s) v))).
Definition handleBalloonPut (v : option FcApi.Balloon) (s : Server) : Server * response :=
  respond s 409 (
    _ ← rejectIfRootStarted s;
    v ← decoded v;
    _ ← FcApi.ValidateBalloon v;
    Ok (with_preboot s (set_balloon (sv_preboot s) v))).

(** The tail of a request to the controller of the running machine. *)
Definition use_controller (o : Outcome) (s : Server) : res FcApi.err Server :=
  match o_controller o with None => conflict | Some false => bad_request | Some true => Ok s end.

Definition set_amount (b : FcApi.Balloon) (v : Z) : FcApi.Balloon :=
  FcApi.mkBalloon v (FcApi.DeflateOnOOM b) (FcApi.StatsPollingIntervalS b) (FcApi.FreePageHinting b) (FcApi.FreePageReporting b).
Definition handleBalloonPatch (o : Outcome) (v : option Z) (s : Server) : Server * response :=
  respond s 400 (
    v ← decoded v;
    _ ← FcApi.ValidateBalloonUpdate v;
    match sv_root s with
    | None =>
        match balloon (sv_preboot s) with
        | None => bad_request
        | Some b => Ok (with_preboot s (set_balloon (sv_preboot s) (set_amount b v)))
        end
    | Some _ => use_controller o s
    end).
Definition set_interval (b : FcApi.Balloon) (v : Z) : FcApi.Balloon :=
  FcApi.mkBalloon (FcApi.AmountMib b) (FcApi.DeflateOnOOM b) v (FcApi.FreePageHinting b) (FcApi.FreePageReporting b).
Definition handleBalloonStatsPatch (o : Outcome) (v : option Z) (s : Server) : Server * response :=
  respond s 400 (
    v ← decoded v;
    _ ← FcApi.ValidateBalloonStatsUpdate v;
    match sv_root s with
    | None =>
        match balloon (sv_preboot s) with
        | None => bad_request
        | Some b => Ok (with_preboot s (set_balloon (sv_preboot s) (set_interval b v)))
        end
    | Some _ => use_controller o s
    end).

(** There is no [rejectIfRootStarted] here. *)
Definition handleMemoryHotplugPut (v : option FcApi.MemoryHotplugConfig) (s : Server) : Server * response :=
  respond s 400 (
    v ← decoded v;
    _ ← FcApi.ValidateMemoryHotplugConfig v;
    Ok (with_preboot s (set_hotplug (sv_preboot s) v 0))).
Definition handleMemoryHotplugPatch (o : Outcome) (v : option Z) (s : Server) : Server * response :=
  respond s 400 (
    v ← decoded v;
    _ ← FcApi.ValidateMemoryHotplugSizeUpdate v;
    match sv_root s with
    | None =>
        match memoryHotplug (sv_preboot s) with
        | None => bad_request
        | Some h =>
            if FcApi.TotalSizeMib h <? v then bad_request
            else if (0 <? FcApi.BlockSizeMib h) && negb (v mod FcApi.BlockSizeMib h =? 0) then bad_request
            else Ok (with_preboot s (set_hotplug (sv_preboot s) h v))
        end
    | Some _ => use_controller o s
    end).

(** The first entry with the identifier is replaced, otherwise it is added. *)
Fixpoint upsertDrive (ds : list Drive) (d : Drive) : list Drive :=
  match ds with
  | [] => [d]
  | x :: ds => if bool_decide (dr_DriveID x = dr_DriveID d) then d :: ds else x :: upsertDrive ds d
  end.
Fixpoint upsertNetworkInterface (ns : list NetworkInterface) (n : NetworkInterface) : list NetworkInterface :=
  match ns with
  | [] => [n]
  | x :: ns => if bool_decide (ni_IfaceID x = ni_IfaceID n) then n :: ns else x :: upsertNetworkInterface ns n
  end.
Definition with_drive_id (id : str) (d : Drive) : Drive := mkDrive id (dr_PathOnHost d) (dr_IsRootDevice d) (dr_IsReadOnly d) (dr_RateLimiter d).
Definition with_iface_id (id : str) (n : NetworkInterface) : NetworkInterface :=
  mkNetworkInterface id (ni_HostDevName n) (ni_GuestMAC n) (ni_RateLimiter n) (ni_RxRateLimiter n) (ni_TxRateLimiter n).
Definition handleDrive (id : str) (v : option Drive) (s : Server) : Server * response :=
  respond s 409 (
    _ ← rejectIfRootStarted s;
    v ← decoded v;
    let v := with_drive_id id v in
    _ ← FcApi.ValidateDrive (api_drive v);
    Ok (with_preboot s (set_drives (sv_preboot s) (upsertDrive (drives (sv_preboot s)) v)))).
Definition handleNetworkIface (id : str) (v : option NetworkInterface) (s : Server) : Server * response :=
  respond s 409 (
    _ ← rejectIfRootStarted s;
    v ← decoded v;
    let v := with_iface_id id v in
    _ ← FcApi.ValidateNetworkInterface (api_iface v);
    Ok (with_preboot s (set_netIfaces (sv_preboot s) (upsertNetworkInterface (netIfaces (sv_preboot s)) v)))).

(** *** Starting and stopping *)

Definition normalizeX86BootMode (defaultMode raw : str) : res FcApi.err str :=
  let mode := TrimSpace raw in
  if bool_decide (mode = []) then Ok (if bool_decide (defaultMode = []) then sbytes "auto" else defaultMode)
  else if FcApi.x86_mode mode then Ok mode
  else Err FcApi.Other.

Definition spec_of (p : prebootConfig) : FcApi.PrebootConfig :=
  FcApi.mkPreboot (bootSource p) (api_machine <$> machineConf p) (balloon p) (memoryHotplug p)
    (api_drive <$> drives p) (api_iface <$> netIfaces p) 1 128.

Definition drive_config (d : Drive) : DriveConfig :=
  mkDriveConfig (dr_DriveID d) (dr_PathOnHost d) (dr_IsRootDevice d) (dr_IsReadOnly d) (dr_RateLimiter d).
(** The last root drive of the list gives the disk image. *)
Definition root_drive (ds : list Drive) : option Drive := last (filter (fun d => dr_IsRootDevice d = true) ds).
Definition build_config (mode : str) (b : FcApi.BootSource) (p : prebootConfig) : res FcApi.err Config :=
  mac ← (match netIfaces p with
         | [] => Ok []
         | n :: _ =>
             if FcApi.blank (ni_GuestMAC n) then Ok []
             else match FcApi.ParseMAC (TrimSpace (ni_GuestMAC n)) with Some hw => Ok hw | None => Err FcApi.Other end
         end);
  Ok (mkConfig (FcApi.KernelImagePath b) (FcApi.BootArgs b) (FcApi.InitrdPath b)
        (match machineConf p with Some m => if 0 <? mc_VcpuCount m then mc_VcpuCount m else 1 | None => 1 end)
        (match machineConf p with Some m => if 0 <? mc_MemSizeMib m then mc_MemSizeMib m else 128 | None => 128 end)
        mode
        (match machineConf p with Some m => mc_RNGRateLimiter m | None => None end)
        ((fun b => mkBalloonConfig (FcApi.AmountMib b) (FcApi.DeflateOnOOM b) (FcApi.StatsPollingIntervalS b)) <$> balloon p)
        (memoryHotplug p)
        (match root_drive (drives p) with Some d => dr_PathOnHost d | None => [] end)
        (match root_drive (drives p) with Some d => dr_IsReadOnly d | None => false end)
        (match root_drive (drives p) with Some d => dr_RateLimiter d | None => None end)
        (if (1 <? zlen (drives p)) then drive_config <$> drives p else [])
        (match netIfaces p with n :: _ => ni_HostDevName n | [] => [] end)
        (match netIfaces p with n :: _ => ni_RateLimiter n | [] => None end)
        mac).

Definition buildPrebootVMConfig (s : Server) : res FcApi.err Config :=
  let p := sv_preboot s in
  _ ← (match sv_root s with Some _ => Err FcApi.InvalidState | None => Ok tt end);
  _ ← FcApi.ValidatePrebootForStart (spec_of p);
  match bootSource p with
  | None => Panic
  | Some b =>
      mode ← normalizeX86BootMode (sv_defaultX86Boot s) (FcApi.X86Boot b);
      build_config mode b p
  end.

Definition log_launch (s : Server) (cfg : Config) (requested : Z) : Server :=
  mkServer (sv_preboot s) (sv_root s) (sv_defaultX86Boot s) (sv_launched s ++ [(cfg, requested)]).
(** [newVMEntry] and [registerVMEntry] of the root machine. *)
Definition register_root (s : Server) (cfg : Config) : Server :=
  mkServer (sv_preboot s) (Some (mkRoot cfg false)) (sv_defaultX86Boot s) (sv_launched s).

(** The part of the start after the configuration is built, which runs without
    the lock until the machine is registered: the server after it and the
    outcome.  [Panic] is the call of a nil cleanup function. *)
Definition launch_root (o : Outcome) (cfg : Config) (requested : Z) (s : Server) : Server * res FcApi.err unit :=
  if negb (o_launch o) then (s, Err FcApi.Other)
  else
    let s := log_launch s cfg requested in
    if (0 <? requested) && negb (bool_decide (o_controller o = Some true)) then (s, if o_cleanup o then Err FcApi.Other else Panic)
    else (register_root s cfg, Ok tt).
Definition startPrebootVM (o : Outcome) (s : Server) : Server * res FcApi.err unit :=
  match buildPrebootVMConfig s with
  | Ok cfg => launch_root o cfg (memoryHotplugRequestedMiB (sv_preboot s)) s
  | Err e => (s, Err e)
  | Panic => (s, Panic)
  | NoFuel => (s, NoFuel)
  end.
Definition stopRootVM (s : Server) : res FcApi.err Server :=
  match sv_root s with
  | None => Err FcApi.InvalidState
  | Some v => Ok (mkServer (sv_preboot s) (Some (mkRoot (rv_cfg v) true)) (sv_defaultX86Boot s) (sv_launched s))
  end.
(** The root machine's part of [cleanStopped]. *)
Definition cleanStopped (s : Server) : Server :=
  match sv_root s with
  | Some v => if rv_stopped v then mkServer (sv_preboot s) None (sv_defaultX86Boot s) (sv_launched s) else s
  | None => s
  end.

Definition handleAction (o : Outcome) (a : option str) (s : Server) : Server * response :=
  match a with
  | None => (s, Status 400)
  | Some a =>
      if bool_decide (a = sbytes "InstanceStart") then
        match startPrebootVM o s with
        | (s, Ok _) => (s, Status 204)
        | (s, Err e) => (s, Status (FcApi.StatusCode e 400))
        | (s, _) => (s, Panicked)
        end
      else if bool_decide (a = sbytes "InstanceStop") then respond s 400 (stopRootVM s)
      else (s, Status 400)
  end.

(** *** Requests that ask *)

(** A question is answered from the pre-boot configuration or by the machine:
    its status. *)
Definition answer (configured : bool) (o : Outcome) (s : Server) : Server * response :=
  match sv_root s with
  | None => (s, Status (if configured then 200 else 400))
  | Some _ => (s, Status (match o_controller o with None => 409 | Some false => 400 | Some true => 200 end))
  end.
Definition handleBalloonGet (o : Outcome) (s : Server) : Server * response :=
  answer (bool_decide (is_Some (balloon (sv_preboot s)))) o s.
Definition handleBalloonStatsGet (o : Outcome) (s : Server) : Server * response :=
  answer (match balloon (sv_preboot s) with Some b => negb (FcApi.StatsPollingIntervalS b =? 0) | None => false end) o s.
Definition handleMemoryHotplugGet (o : Outcome) (s : Server) : Server * response :=
  answer (bool_decide (is_Some (memoryHotplug (sv_preboot s)))) o s.

(** *** The whole interface *)

Inductive request :=
  | PutBootSource (v : option FcApi.BootSource)
  | PutMachineConfig (v : option MachineConfig)
  | PutBalloon (v : option FcApi.Balloon)
  | PatchBalloon (v : option Z)
  | PatchBalloonStats (v : option Z)
  | PutMemoryHotplug (v : option FcApi.MemoryHotplugConfig)
  | PatchMemoryHotplug (v : option Z)
  | PutDrive (id : str) (v : option Drive)
  | PutNetworkIface (id : str) (v : option NetworkInterface)
  | PutAction (a : option str)
  | GetBalloon
  | GetBalloonStats
  | GetMemoryHotplug
  | Cleanup.
Definition serve (o : Outcome) (r : request) (s : Server) : Server * response :=
  match r with
  | PutBootSource v => handleBootSource o v s
  | PutMachineConfig v => handleMachineConfig v s
  | PutBalloon v => handleBalloonPut v s
  | PatchBalloon v => handleBalloonPatch o v s
  | PatchBalloonStats v => handleBalloonStatsPatch o v s
  | PutMemoryHotplug v => handleMemoryHotplugPut v s
  | PatchMemoryHotplug v => handleMemoryHotplugPatch o v s
  | PutDrive id v => handleDrive id v s
  | PutNetworkIface id v => handleNetworkIface id v s
  | PutAction a => handleAction o a s
  | GetBalloon => handleBalloonGet o s
  | GetBalloonStats => handleBalloonStatsGet o s
  | GetMemoryHotplug => handleMemoryHotplugGet o s
  | Cleanup => (cleanStopped s, Status 200)
  end.
Definition serve_all (rs : list (Outcome * request)) (s : Server) : Server :=
  foldl (fun s or => (serve or.1 or.2 s).1) s rs.
Definition fresh (defaultMode : str) : Server := mkServer (mkPrebootConfig None None None None 0 [] []) None defaultMode [].

(** ** What a started machine satisfies *)

Lemma check_ok b u : FcApi.check b = Ok u → b = false.
Proof. by destruct b. Qed.
(** Take a chain of checks that passed apart. *)
Ltac passed H :=
  repeat match type of H with
  | mbind _ _ = Ok _ => let u := fresh "u" in let C := fresh "C" in apply bind_Ok in H as (u & C & H)
  end;
  repeat match goal with
  | C : FcApi.check _ = Ok _ |- _ => apply check_ok in C
  end; b2p.

Definition nonblank (s : str) : Prop := TrimSpace s ≠ [].
Lemma blank_false s : FcApi.blank s = false ↔ nonblank s.
Proof. unfold FcApi.blank, nonblank. by rewrite bool_decide_eq_false. Qed.

Record hotplug_ok (h : FcApi.MemoryHotplugConfig) : Prop := {
  ho_block : 0 < FcApi.BlockSizeMib h ≤ FcApi.SlotSizeMib h;
  ho_slot : FcApi.SlotSizeMib h ≤ FcApi.TotalSizeMib h;
  ho_total : FcApi.TotalSizeMib h ≤ FcApi.MaxMemSizeMib;
  ho_slots : FcApi.TotalSizeMib h mod FcApi.SlotSizeMib h = 0;
  ho_blocks : FcApi.SlotSizeMib h mod FcApi.BlockSizeMib h = 0;
}.
(** The size that is plugged after the boot fits the region. *)
Definition requested_ok (h : option FcApi.MemoryHotplugConfig) (requested : Z) : Prop :=
  match h with
  | None => requested = 0
  | Some h => 0 ≤ requested ≤ FcApi.TotalSizeMib h ∧ requested mod FcApi.BlockSizeMib h = 0
  end.
Record drives_ok (ds : list Drive) : Prop := {
  do_nodup : NoDup (dr_DriveID <$> ds);
  do_each : Forall (fun d => nonblank (dr_DriveID d) ∧ nonblank (dr_PathOnHost d)) ds;
  do_root : ds ≠ [] → length (filter (fun d => dr_IsRootDevice d = true) ds) = 1%nat;
}.
Definition modes : list str := [sbytes "auto"; sbytes "acpi"; sbytes "legacy"].
Record config_ok (defaultMode : str) (c : Config) (requested : Z) : Prop := {
  ok_kernel : nonblank (c_KernelPath c);
  ok_cmdline : zlen (c_Cmdline c) + 1 ≤ KernelCmdlineMax;
  ok_mode : c_X86Boot c ∈ defaultMode :: modes;
  ok_vcpus : 1 ≤ c_VCPUs c ≤ FcApi.MaxVCPUCount;
  ok_mem : FcApi.MinMemSizeMib ≤ c_MemMB c ≤ FcApi.MaxMemSizeMib;
  ok_balloon : ∀ b, c_Balloon c = Some b → bc_AmountMiB b ≤ c_MemMB c ∧ 0 ≤ bc_StatsPollingIntervalS b;
  ok_hotplug : ∀ h, c_MemoryHotplug c = Some h → hotplug_ok h;
  ok_requested : requested_ok (c_MemoryHotplug c) requested;
  ok_drives : ∃ ds, drives_ok ds ∧ (c_Drives c = if 1 <? zlen ds then drive_config <$> ds else []) ∧
    (∀ d, d ∈ ds → dr_IsRootDevice d = true → c_DiskImage c = dr_PathOnHost d ∧ c_DiskRO c = dr_IsReadOnly d) ∧
    (ds = [] → c_DiskImage c = []);
  ok_mac : length (c_MACAddr c) ∈ [0; 6; 8; 20]%nat;
}.

Lemma hotplug_validated h :
  0 ≤ FcApi.BlockSizeMib h → 0 ≤ FcApi.SlotSizeMib h → 0 ≤ FcApi.TotalSizeMib h → FcApi.ValidateMemoryHotplugConfig h = Ok tt → hotplug_ok h.
Proof. intros ? ? ? H. unfold FcApi.ValidateMemoryHotplugConfig in H. passed H. split; lia. Qed.

Lemma check_drives_spec ds seen r seen' r' :
  for_each FcApi.check_drive (api_drive <$> ds) (seen, r) = Ok (seen', r') → 0 ≤ r ≤ 1 →
  NoDup (dr_DriveID <$> ds) ∧ (∀ d, d ∈ ds → dr_DriveID d ∉ seen) ∧
  Forall (fun d => nonblank (dr_DriveID d) ∧ nonblank (dr_PathOnHost d)) ds ∧
  r' = r + zlen (filter (fun d => dr_IsRootDevice d = true) ds) ∧ r' ≤ 1.
Proof.
  revert seen r. induction ds as [|d ds IH]; intros seen r; cbn [fmap list_fmap for_each].
  { intros [= <- <-] Hr. splits; [apply NoDup_nil_2 | set_solver | by apply Forall_nil | unfold zlen; simpl; lia | lia]. }
  intros H Hr. apply bind_Ok in H as ([seen1 r1] & H1 & H). unfold FcApi.check_drive in H1. apply bind_Ok in H1 as (u1 & V & H1).
  apply bind_Ok in H1 as (u2 & C & H1). apply check_ok, bool_decide_eq_false in C. simpl in C.
  unfold FcApi.ValidateDrive in V. passed V. apply blank_false in C0, V. simpl in *.
  assert (Hst : seen1 = dr_DriveID d :: seen ∧ r1 = r + (if dr_IsRootDevice d then 1 else 0) ∧ 0 ≤ r1 ≤ 1).
  { destruct (dr_IsRootDevice d); [destruct (Z.ltb_spec 1 (r + 1)); [done|]|]; injection H1 as <- <-; splits; try done; lia. }
  destruct Hst as (-> & Hr1 & Hb). destruct (IH _ _ H Hb) as (Hn & Hs & He & Hc & Hle). splits.
  - rewrite NoDup_cons. split; [|done]. intros (e & Hid & Hin)%list_elem_of_fmap. apply (Hs e Hin). rewrite <- Hid. left.
  - intros e [-> | Hin]%elem_of_cons; [done|]. intros Hse. apply (Hs e Hin). by right.
  - by constructor.
  - rewrite filter_cons. destruct (dr_IsRootDevice d); simpl; rewrite ?zlen_cons; lia.
  - done.
Qed.

Lemma last_singleton_filter {A} (P : A → Prop) `{∀ x, Decision (P x)} (l : list A) x :
  length (filter P l) = 1%nat → x ∈ l → P x → last (filter P l) = Some x.
Proof.
  intros Hl Hx HP. assert (Hin : x ∈ filter P l) by by apply list_elem_of_filter.
  destruct (filter P l) as [|y [|]]; try done. by apply list_elem_of_singleton in Hin as ->.
Qed.

Lemma build_config_ok mode b p c defaultMode :
  FcApi.ValidatePrebootForStart (spec_of p) = Ok tt → bootSource p = Some b → mode ∈ defaultMode :: modes →
  match memoryHotplug p with Some h => hotplug_ok h | None => True end →
  requested_ok (memoryHotplug p) (memoryHotplugRequestedMiB p) →
  build_config mode b p = Ok c → config_ok defaultMode c (memoryHotplugRequestedMiB p).
Proof.
  intros Hv Hb Hmode Hhot Hreq Hc. unfold FcApi.ValidatePrebootForStart in Hv. simpl in Hv. rewrite Hb in Hv.
  apply bind_Ok in Hv as ([] & Vboot & Hv). apply bind_Ok in Hv as ([] & Vm & Hv). apply bind_Ok in Hv as ([] & Vb & Hv).
  apply bind_Ok in Hv as ([] & _ & Hv). apply bind_Ok in Hv as ([] & Cn & Hv). apply bind_Ok in Hv as ([seen roots] & Vd & Hv).
  apply bind_Ok in Hv as ([] & Cr & Hv). apply bind_Ok in Hv as ([] & Vn & Hv). apply bind_Ok in Hv as ([] & C1 & Hv).
  apply bind_Ok in Hv as ([] & C2 & Hv). apply bind_Ok in Hv as ([] & C3 & Hv).
  unfold FcApi.ValidateBootSource in Vboot. passed Vboot. apply blank_false in C.
  destruct (check_drives_spec _ _ _ _ _ Vd) as (Dn & _ & De & Dr & Dle); [lia|].
  unfold build_config in Hc. apply bind_Ok in Hc as (mac & Hmac & Hc). injection Hc as <-.
  unfold FcApi.final_vcpus, FcApi.final_mem in *. simpl in *.
  assert (Hcpu : ∀ m, machineConf p = Some m → FcApi.ValidateMachineConfig (api_machine m) = Ok tt) by (intros m Hm; by rewrite Hm in Vm).
  split; simpl; try done.
  - destruct (machineConf p) as [m|]; simpl in *; [|unfold FcApi.MaxVCPUCount; lia]. destruct (Z.ltb_spec 0 (mc_VcpuCount m)); lia.
  - destruct (machineConf p) as [m|]; simpl in *; [|unfold FcApi.MinMemSizeMib, FcApi.MaxMemSizeMib; lia]. destruct (Z.ltb_spec 0 (mc_MemSizeMib m)); lia.
  - intros bal Hbal. destruct (balloon p) as [fb|]; [|done]. injection Hbal as <-. simpl in *. unfold FcApi.ValidateBalloon in Vb. passed Vb.
    by destruct (machineConf p) as [m|].
  - intros h Hh. by rewrite Hh in Hhot.
  - exists (drives p). assert (Hroot : drives p ≠ [] → length (filter (fun d => dr_IsRootDevice d = true) (drives p)) = 1%nat).
    { intros Hne. assert (0 < zlen (drives p)) by (clear - Hne; destruct (drives p) as [|d0 l0]; [done | rewrite zlen_cons; pose proof (zlen_nonneg l0); lia]).
      unfold zlen in Cr, Dr. rewrite length_fmap in Cr. unfold zlen in H. apply andb_false_iff in Cr as [Cr|Cr]; b2p; lia. }
    splits; [by split | done | |intros Hnil; by rewrite Hnil].
    intros d Hd Hr. unfold root_drive. rewrite (last_singleton_filter _ (drives p) d); [done | |done|done]. apply Hroot. by intros Hnil; rewrite Hnil in Hd; apply not_elem_of_nil in Hd.
  - destruct (netIfaces p) as [|n ns]; [injection Hmac as <-; left|]. destruct (FcApi.blank _); [injection Hmac as <-; left|].
    unfold FcApi.ParseMAC in Hmac. destruct (_ <? 14); [done|]. right.
    destruct (match _ !! 2%nat with Some c => _ | None => _ end ≫= _) as [hw|] eqn:E; [|done]. injection Hmac as <-.
    apply bind_Some in E as (l & _ & E). destruct (FcApi.mac_size l) eqn:Es; [|done]. injection E as <-. by apply bool_decide_eq_true in Es.
Qed.

(** The values that a decoded body can hold: unsigned sizes. *)
Definition wf_request (r : request) : Prop :=
  match r with
  | PutMemoryHotplug (Some h) => 0 ≤ FcApi.TotalSizeMib h ∧ 0 ≤ FcApi.SlotSizeMib h ∧ 0 ≤ FcApi.BlockSizeMib h
  | PatchMemoryHotplug (Some v) => 0 ≤ v
  | _ => True
  end.

Record sound (defaultMode : str) (s : Server) : Prop := {
  so_mode : sv_defaultX86Boot s = defaultMode;
  so_hotplug : match memoryHotplug (sv_preboot s) with Some h => hotplug_ok h | None => True end;
  so_requested : requested_ok (memoryHotplug (sv_preboot s)) (memoryHotplugRequestedMiB (sv_preboot s));
  so_launched : Forall (fun cr => config_ok defaultMode cr.1 cr.2) (sv_launched s);
  so_root : ∀ v, sv_root s = Some v → ∃ r, (rv_cfg v, r) ∈ sv_launched s;
}.

Lemma sound_preboot d s p :
  sound d s → memoryHotplug p = memoryHotplug (sv_preboot s) → memoryHotplugRequestedMiB p = memoryHotplugRequestedMiB (sv_preboot s) →
  sound d (with_preboot s p).
Proof. intros [H1 H2 H3 H4 H5] E1 E2. split; simpl; rewrite ?E1, ?E2; done. Qed.
Lemma respond_sound d s f m : sound d s → (∀ s', m = Ok s' → sound d s') → sound d (respond s f m).1.
Proof. intros Hs Hm. destruct m; simpl; eauto. Qed.

Lemma buildPrebootVMConfig_ok d s c :
  sound d s → buildPrebootVMConfig s = Ok c → config_ok d c (memoryHotplugRequestedMiB (sv_preboot s)).
Proof.
  intros [H1 H2 H3 _ _] H. unfold buildPrebootVMConfig in H. apply bind_Ok in H as ([] & _ & H). apply bind_Ok in H as ([] & Hv & H).
  destruct (bootSource (sv_preboot s)) as [b|] eqn:Hb; [|done]. apply bind_Ok in H as (mode & Hm & H).
  eapply build_config_ok; try done. unfold normalizeX86BootMode in Hm. rewrite H1 in Hm.
  case_bool_decide; [case_bool_decide; injection Hm as <-; [right; left | left]|].
  unfold FcApi.x86_mode in Hm. case_bool_decide; [|done]. injection Hm as <-. by right.
Qed.

Lemma start_sound d o s : sound d s → sound d (startPrebootVM o s).1.
Proof.
  intros Hs. unfold startPrebootVM. destruct (buildPrebootVMConfig s) as [c|e| |] eqn:E; simpl; try done.
  unfold launch_root. destruct (o_launch o); simpl; [|done]. pose proof (buildPrebootVMConfig_ok d s c Hs E) as Hc.
  assert (Hl : sound d (log_launch s c (memoryHotplugRequestedMiB (sv_preboot s)))).
  { destruct Hs as [H1 H2 H3 H4 H5]. split; simpl; try done; [apply Forall_app; split; [done | by apply Forall_singleton]|].
    intros v Hv. destruct (H5 v Hv) as [r Hr]. exists r. set_solver. }
  destruct (_ && _); simpl; [done|]. destruct Hl as [H1 H2 H3 H4 H5]. split; simpl; try done. intros v [= <-].
  exists (memoryHotplugRequestedMiB (sv_preboot s)). simpl. set_solver.
Qed.

Lemma serve_sound d o r s : wf_request r → sound d s → sound d (serve o r s).1.
Proof.
  intros Hwf Hs. destruct r as [v|v|v|v|v|v|v|id v|id v|a| | | |]; simpl in *.
  - apply respond_sound; [done|]. intros s' H. passed H. injection H as <-. by apply sound_preboot.
  - apply respond_sound; [done|]. intros s' H. passed H. injection H as <-. by apply sound_preboot.
  - apply respond_sound; [done|]. intros s' H. passed H. injection H as <-. by apply sound_preboot.
  - apply respond_sound; [done|]. intros s' H. passed H. unfold use_controller in H. repeat case_match; simplify_eq; try done. by apply sound_preboot.
  - apply respond_sound; [done|]. intros s' H. passed H. unfold use_controller in H. repeat case_match; simplify_eq; try done. by apply sound_preboot.
  - apply respond_sound; [done|]. intros s' H. apply bind_Ok in H as (h & Hh & H). destruct v as [v|]; [|done]. injection Hh as <-.
    apply bind_Ok in H as ([] & Hv & H). injection H as <-. destruct Hwf as (? & ? & ?). apply hotplug_validated in Hv; [|lia..].
    destruct Hs as [E1 E2 E3 E4 E5]. split; simpl; try done.
  - apply respond_sound; [done|]. intros s' H. apply bind_Ok in H as (n & Hn & H). destruct v as [v|]; [|done]. injection Hn as <-.
    apply bind_Ok in H as ([] & _ & H). unfold use_controller in H. destruct (sv_root s); [repeat case_match; simplify_eq; done|].
    destruct Hs as [E1 E2 E3 E4 E5]. destruct (memoryHotplug (sv_preboot s)) as [h|]; [|done].
    destruct (Z.ltb_spec (FcApi.TotalSizeMib h) v); [done|]. pose proof (ho_block _ E2). destruct (_ && _) eqn:E; [done|]. injection H as <-.
    split; simpl; try done. split; [lia|]. apply andb_false_iff in E as [E|E]; b2p; lia.
  - apply respond_sound; [done|]. intros s' H. passed H. cbv zeta in H. passed H. injection H as <-. by apply sound_preboot.
  - apply respond_sound; [done|]. intros s' H. passed H. cbv zeta in H. passed H. injection H as <-. by apply sound_preboot.
  - unfold handleAction. destruct a as [a|]; [|done]. case_bool_decide.
    + pose proof (start_sound d o s Hs) as Hst. by destruct (startPrebootVM o s) as [s' [[]| | |]].
    + case_bool_decide; [|done]. apply respond_sound; [done|]. unfold stopRootVM. intros s' H1. destruct (sv_root s) as [v|] eqn:Ev; [|done].
      injection H1 as <-. destruct Hs as [E1 E2 E3 E4 E5]. split; simpl; try done. intros v1 [= <-]. simpl. by apply E5.
  - unfold handleBalloonGet, answer. by destruct (sv_root s).
  - unfold handleBalloonStatsGet, answer. by destruct (sv_root s).
  - unfold handleMemoryHotplugGet, answer. by destruct (sv_root s).
  - unfold cleanStopped. destruct (sv_root s) as [v|]; [|done]. destruct (rv_stopped v); [|done]. destruct Hs as [E1 E2 E3 E4 E5]. by split.
Qed.

(** C10: whatever requests a client sends to the pre-boot interface, one at a
    time, and however the path checks, launches and controllers turn out, every
    machine that is launched has a valid configuration: a kernel, a command
    line within the limit, 1 to 32 processors, 128 MiB to 1 TiB of memory, a
    balloon that fits into it, a hotplug region whose slots and blocks divide
    it with a requested size that is aligned and fits, drives with distinct
    identifiers of which exactly one is the root disk, and a hardware address
    of a legal length; the running root machine is one of them. *)
Theorem preboot_launch_valid rs defaultMode :
  Forall (fun or => wf_request or.2) rs →
  let s := serve_all rs (fresh defaultMode) in
  Forall (fun cr => config_ok defaultMode cr.1 cr.2) (sv_launched s) ∧
  ∀ v, sv_root s = Some v → ∃ r, config_ok defaultMode (rv_cfg v) r.
Proof.
  intros Hwf. assert (Hs : sound defaultMode (serve_all rs (fresh defaultMode))).
  { assert (Hf : sound defaultMode (fresh defaultMode)) by by split.
    revert Hf. generalize (fresh defaultMode) as s. unfold serve_all. induction Hwf as [|[o r] rs Hr _ IH]; intros s Hs; [done|].
    simpl. by apply IH, serve_sound. }
  destruct Hs as [_ _ _ Hl Hr]. split; [done|]. intros v Hv. destruct (Hr v Hv) as [r Hin]. exists r.
  rewrite Forall_forall in Hl. by apply (Hl _ Hin).
Qed.

(** ** Rejected requests *)

(** The requests that configure a machine and are refused while one runs. *)
Definition configures (r : request) : bool :=
  match r with PutBootSource _ | PutMachineConfig _ | PutBalloon _ | PutDrive _ _ | PutNetworkIface _ _ => true | _ => false end.

Lemma check_completes b : completes (FcApi.check b).
Proof. by destruct b. Qed.
#[local] Hint Resolve check_completes : core.
(** A chain of checks completes. *)
Ltac chain := repeat (apply completes_bind; [|intros]); auto.

Lemma boot_completes b : completes (FcApi.ValidateBootSource b).
Proof. unfold FcApi.ValidateBootSource. chain. Qed.
Lemma machine_completes m : completes (FcApi.ValidateMachineConfig m).
Proof. unfold FcApi.ValidateMachineConfig. chain. Qed.
Lemma balloon_completes b : completes (FcApi.ValidateBalloon b).
Proof. unfold FcApi.ValidateBalloon. chain. Qed.
Lemma hotplug_completes h : completes (FcApi.ValidateMemoryHotplugConfig h).
Proof. unfold FcApi.ValidateMemoryHotplugConfig. chain. Qed.
Lemma drive_completes d : completes (FcApi.ValidateDrive d).
Proof. unfold FcApi.ValidateDrive. chain. Qed.
Lemma iface_completes n : completes (FcApi.ValidateNetworkInterface n).
Proof. unfold FcApi.ValidateNetworkInterface. chain. Qed.
#[local] Hint Resolve boot_completes machine_completes balloon_completes hotplug_completes drive_completes iface_completes : core.
Lemma for_each_completes {E X St} (f : X → St → res E St) xs s : (∀ x s, completes (f x s)) → completes (for_each f xs s).
Proof. intros Hf. revert s. induction xs as [|x xs IH]; intros s; simpl; [done|]. apply completes_bind; auto. Qed.
Lemma preboot_completes p : completes (FcApi.ValidatePrebootForStart p).
Proof.
  unfold FcApi.ValidatePrebootForStart. destruct (FcApi.pc_BootSource p); [|done].
  assert (Hopt : ∀ A (f : A → res FcApi.err unit) o, (∀ a, completes (f a)) → completes (FcApi.opt_check f o)) by (intros A f [a|] Hf; simpl; auto).
  repeat (apply completes_bind; [|intros]); auto.
  - apply for_each_completes. intros d st. unfold FcApi.check_drive. chain. repeat case_match; done.
  - case_match. repeat (apply completes_bind; [|intros]); auto. by apply for_each_completes.
Qed.
Lemma build_completes s : completes (buildPrebootVMConfig s).
Proof.
  unfold buildPrebootVMConfig. apply completes_bind; [by destruct (sv_root s)|]. intros. apply completes_bind; [apply preboot_completes|].
  intros [] Hv. unfold FcApi.ValidatePrebootForStart in Hv. simpl in Hv. destruct (bootSource (sv_preboot s)); [|done].
  apply completes_bind; [unfold normalizeX86BootMode; repeat case_match; done|]. intros. unfold build_config.
  apply completes_bind; [|done]. repeat case_match; done.
Qed.

(** What every handler of a configuration request does with its checks. *)
Lemma respond_spec s f m :
  completes m → f ∈ [400; 409] →
  (∃ s', m = Ok s' ∧ respond s f m = (s', Status 204)) ∨ (∃ c, c ∈ [400; 409] ∧ respond s f m = (s, Status c)).
Proof.
  intros Hm Hf. destruct m as [s'|e| |]; try done; simpl; [left; eauto|]. right. eexists. split; [|done].
  destruct e; simpl; [left | right; left | done].
Qed.

(** The outcome of a request that is not a start. *)
Definition settled (s : Server) (r : Server * response) : Prop :=
  ∃ c, r.2 = Status c ∧ c ∈ [200; 204; 400; 409] ∧ (400 ≤ c → r.1 = s).
Lemma respond_settled s f m : completes m → f ∈ [400; 409] → settled s (respond s f m).
Proof.
  intros Hm Hf. destruct (respond_spec s f m Hm Hf) as [(s' & _ & ->) | (c & Hc & ->)]; [exists 204 | exists c]; splits; try done; [set_solver | set_solver].
Qed.
Lemma answer_settled b o s : settled s (answer b o s).
Proof.
  unfold answer. destruct (sv_root s); eexists; splits; try done; repeat case_match; set_solver.
Qed.
Lemma serve_settled o r s : (∀ a, r ≠ PutAction (Some a) ∨ a ≠ sbytes "InstanceStart") → settled s (serve o r s).
Proof.
  assert (Hin : 400 ∈ [400; 409] ∧ 409 ∈ [400; 409]) by set_solver. destruct Hin as [H400 H409].
  assert (Hdec : ∀ A (v : option A), completes (decoded v)) by (intros A []; done).
  assert (Hrej : completes (rejectIfRootStarted s)) by (unfold rejectIfRootStarted; by destruct (sv_root s)).
  assert (Hctl : completes (use_controller o s)) by (unfold use_controller; repeat case_match; done).
  assert (Hup : ∀ v, completes (FcApi.ValidateBalloonUpdate v) ∧ completes (FcApi.ValidateBalloonStatsUpdate v) ∧ completes (FcApi.ValidateMemoryHotplugSizeUpdate v))
    by (intros v; splits; apply check_completes).
  intros Hne. destruct r as [v|v|v|v|v|v|v|id v|id v|a| | | |]; simpl; try apply answer_settled; try (apply respond_settled; [|done]; chain; done).
  - apply respond_settled; [|done]. chain; [apply Hup|]; repeat case_match; done.
  - apply respond_settled; [|done]. chain; [apply Hup|]; repeat case_match; done.
  - apply respond_settled; [|done]. chain; [apply Hup|]; repeat case_match; done.
  - unfold handleAction. destruct a as [a|]; [|eexists; splits; [done | set_solver | done]].
    destruct (Hne a) as [|Ha]; [done|]. rewrite bool_decide_false by done. case_bool_decide.
    + apply respond_settled; [|done]. unfold stopRootVM. by destruct (sv_root s).
    + eexists. splits; [done | set_solver | done].
  - eexists. splits; [done | set_solver | lia].
Qed.

(** The outcome of a start. *)
Lemma start_cases o s :
  (∃ c, (startPrebootVM o s = (register_root (log_launch s c (memoryHotplugRequestedMiB (sv_preboot s))) c, Ok tt)) ∧ buildPrebootVMConfig s = Ok c) ∨
  (∃ s1 e, startPrebootVM o s = (s1, Err e) ∧ sv_preboot s1 = sv_preboot s ∧ sv_root s1 = sv_root s ∧
     (is_Some (sv_root s) → s1 = s ∧ e = FcApi.InvalidState)) ∨
  (∃ s1, startPrebootVM o s = (s1, Panic) ∧ sv_preboot s1 = sv_preboot s ∧ sv_root s1 = None ∧ sv_root s = None ∧
     o_launch o = true ∧ 0 < memoryHotplugRequestedMiB (sv_preboot s) ∧ o_cleanup o = false ∧ o_controller o ≠ Some true).
Proof.
  unfold startPrebootVM, launch_root. pose proof (build_completes s) as Hc. destruct (buildPrebootVMConfig s) as [c|e| |] eqn:E; try done.
  - assert (Hr : sv_root s = None) by (unfold buildPrebootVMConfig in E; destruct (sv_root s); done).
    destruct (o_launch o) eqn:El; simpl; [|right; left; rewrite Hr; do 2 eexists; splits; try done; by intros []].
    destruct (_ && _) eqn:Eh; [|left; by exists c]. b2p. case_bool_decide; [done|]. right.
    destruct (o_cleanup o) eqn:Ec; [left | right].
    + do 2 eexists. splits; try done. rewrite Hr. by intros [].
    + eexists. splits; try done; by rewrite Hr.
  - right. left. do 2 eexists. splits; try done. intros [v Hv]. unfold buildPrebootVMConfig in E. rewrite Hv in E. by injection E as <-.
Qed.

(** A configuration request while a machine runs. *)
Lemma configures_refused o r s : configures r = true → is_Some (sv_root s) → serve o r s = (s, Status 409).
Proof.
  intros Hc [v Hv]. destruct r; try done; simpl; unfold handleBootSource, handleMachineConfig, handleBalloonPut, handleDrive, handleNetworkIface, rejectIfRootStarted; by rewrite Hv.
Qed.
(** What the other requests change of the configuration while one runs. *)
Lemma running_preboot o r s :
  is_Some (sv_root s) → sv_preboot (serve o r s).1 = sv_preboot s ∨ ∃ h, r = PutMemoryHotplug (Some h).
Proof.
  intros Hs. destruct (configures r) eqn:Hc; [left; by rewrite configures_refused|]. destruct Hs as [v Hv].
  destruct r as [ | | |x|x|[h|]|x| | |a| | | |]; try done; simpl; eauto.
  - left. unfold handleBalloonPatch. rewrite Hv. destruct x; [|done]. unfold use_controller. simpl. destruct (FcApi.ValidateBalloonUpdate z); try done. by destruct (o_controller o) as [[]|].
  - left. unfold handleBalloonStatsPatch. rewrite Hv. destruct x; [|done]. unfold use_controller. simpl. destruct (FcApi.ValidateBalloonStatsUpdate z); try done. by destruct (o_controller o) as [[]|].
  - left. unfold handleMemoryHotplugPatch. rewrite Hv. destruct x; [|done]. unfold use_controller. simpl. destruct (FcApi.ValidateMemoryHotplugSizeUpdate z); try done. by destruct (o_controller o) as [[]|].
  - left. unfold handleAction. destruct a; [|done]. case_bool_decide; [|case_bool_decide; [|done]; unfold stopRootVM; by rewrite Hv].
    destruct (start_cases o s) as [(c & -> & E) | [(s1 & e & -> & Hp & _) | (s1 & -> & Hp & _)]]; done.
  - left. unfold handleBalloonGet, answer. by rewrite Hv.
  - left. unfold handleBalloonStatsGet, answer. by rewrite Hv.
  - left. unfold handleMemoryHotplugGet, answer. by rewrite Hv.
  - left. unfold cleanStopped. rewrite Hv. by destruct (rv_stopped v).
Qed.

(** The action that starts the machine. *)
Definition InstanceStart : request := PutAction (Some (sbytes "InstanceStart")).


(** ** Runs *)

Definition good_outcome : Outcome := mkOutcome true true true true (Some true).
(** A machine launched in the same process has no cleanup function. *)
Definition local_failing : Outcome := mkOutcome true true true false (Some false).
Definition boot1 : FcApi.BootSource := FcApi.mkBootSource (sbytes "/k") (sbytes "console=ttyS0") [] (sbytes " acpi ").
Definition machine1 : MachineConfig := mkMachineConfig 2 256 None.
Definition disk1 : Drive := mkDrive [] (sbytes "/disk") true false None.
Definition disk2 : Drive := mkDrive [] (sbytes "/data") false true None.
Definition limiter1 : RateLimiterConfig := mkLimiter (mkBucket 1000 0 100) (mkBucket 0 0 0).
Definition net1 : NetworkInterface := mkNetworkInterface [] (sbytes "tap0") (sbytes "02:00:00:00:00:0a") None (Some limiter1) (Some limiter1).
Definition hot1 : FcApi.MemoryHotplugConfig := FcApi.mkHotplug 1024 256 2.
Definition configuration : list request :=
  [PutBootSource (Some boot1); PutMachineConfig (Some machine1); PutBalloon (Some (FcApi.mkBalloon 64 true 1 false false)); PatchBalloon (Some 128);
   PutMemoryHotplug (Some hot1); PatchMemoryHotplug (Some 512); PutDrive (sbytes "root") (Some disk1); PutDrive (sbytes "data") (Some disk2);
   PutNetworkIface (sbytes "eth0") (Some net1)].
Definition configured : Server := serve_all ((good_outcome,.) <$> configuration) (fresh []).
Definition started : Server := (serve good_outcome InstanceStart configured).1.

Lemma preboot_launch_valid_witness :
  Forall (fun or => wf_request or.2) ((good_outcome,.) <$> configuration ++ [InstanceStart]) ∧
  (sv_launched started ≠ [] ∧ Forall (fun cr => config_ok [] cr.1 cr.2) (sv_launched started)).
Proof.
  assert (Hwf : Forall (fun or => wf_request or.2) ((good_outcome,.) <$> configuration ++ [InstanceStart])) by (repeat constructor; simpl; lia).
  split; [exact Hwf|]. split; [by vm_compute | exact (proj1 (preboot_launch_valid _ [] Hwf))].
Defined.


(** The rate limiters of the two directions of an interface are accepted and
    are not part of the configuration that is launched. *)
Lemma direction_limiters_dropped :
  (ni_RxRateLimiter <$> netIfaces (sv_preboot started)) = [Some limiter1] ∧ (c_NetRateLimiter ∘ fst <$> sv_launched started) = [None].
Proof. by vm_compute. Qed.

(** A new hotplug region is accepted while a machine runs, with status 204, and
    the running machine keeps its own. *)
Lemma hotplug_put_while_running :
  let '(s, r) := serve good_outcome (PutMemoryHotplug (Some (FcApi.mkHotplug 4096 256 2))) started in
  r = Status 204 ∧ (FcApi.TotalSizeMib <$> memoryHotplug (sv_preboot s)) = Some 4096 ∧
  (sv_root s ≫= fun v => FcApi.TotalSizeMib <$> c_MemoryHotplug (rv_cfg v)) = Some 1024.
Proof. by vm_compute. Qed.

(** ** Starts that overlap

    The check that no machine runs is in the critical section that reads the
    configuration; the machine is registered in a later one. *)

(** Two starts that both passed the check launch two machines, and the second
    to register becomes the root machine in place of the first. *)
Lemma overlapping_starts_launch_twice :
  ∃ c, buildPrebootVMConfig configured = Ok c ∧
  let requested := memoryHotplugRequestedMiB (sv_preboot configured) in
  let '(s1, r1) := launch_root good_outcome c requested configured in
  let '(s2, r2) := launch_root good_outcome c requested s1 in
  r1 = Ok tt ∧ r2 = Ok tt ∧ length (sv_launched s2) = 2%nat ∧ is_Some (sv_root s2).
Proof. eexists. split; [by vm_compute|]. vm_compute. splits; try done. by eexists. Qed.
