(* ===== verification/Dockerfile.v ===== *)
(** * Building an image from a Dockerfile (src/internal/dockerfile)

    The parser of BuildKit turns the text into commands; [translateCommand]
    makes the builder's instructions of them.  [buildStagePlan] splits those
    into stages, [markReachableStages] finds the stages the last one needs, and
    the builder executes these and skips the others.  Modelled here: the
    translation, the plan, and the builder with all its instructions, the flags
    of COPY and ADD and the mounts of RUN.

    The contents of a directory are a tree of some type [T]; what commands, file
    copies and registries do to trees is the record [Host], as are BuildKit's
    expansion of words ([h_lex]: the expanded word and the variables that are not
    set, or an error) and [time.ParseDuration].  A directory of the source is a key
    of [b_trees] (the stages, by their index), [b_remote] (images that are only
    copied from), [b_cache] (cache mounts) or the build context. *)
From S2P Require Import Prelude Stream Fdt RuntimeCfg Preview GoText Compose StackNet.

(** ** Text and paths *)

(** [strings.SplitN(s, sep, 2)]: [None] when there is no separator. *)
Fixpoint cut (sep : Z) (s : str) : option (str * str) :=
  match s with
  | [] => None
  | c :: s => if c =? sep then Some ([], s) else '(a, b) ← cut sep s; Some (c :: a, b)
  end.
(** [strings.HasPrefix] and [strings.TrimPrefix]. *)
Abbreviation after := trim_magic.
Definition nonempty (s : str) : bool := negb (bool_decide (s = [])).
Abbreviation Itoa := FormatInt.

Definition slash : Z := 47.
Definition dot : str := [46].
Definition dotdot : str := [46; 46].
Definition IsAbs (s : str) : bool := match s with c :: _ => c =? slash | [] => false end.
(** [filepath.Clean]: the components of the path one by one. *)
Definition clean_step (rooted : bool) (acc : list str) (c : str) : list str :=
  if bool_decide (c = []) || bool_decide (c = dot) then acc
  else if bool_decide (c = dotdot) then
    match last acc with
    | None => if rooted then [] else [dotdot]
    | Some l => if bool_decide (l = dotdot) then acc ++ [dotdot] else take (length acc - 1) acc
    end
  else acc ++ [c].
Definition Clean (s : str) : str :=
  let cs := fold_left (clean_step (IsAbs s)) (split_on slash s) [] in
  if IsAbs s then slash :: join [slash] cs else if bool_decide (cs = []) then dot else join [slash] cs.
(** [filepath.Join] of two elements. *)
Definition PathJoin (a b : str) : str :=
  match filter (fun s => s ≠ []) [a; b] with [] => [] | l => Clean (join [slash] l) end.
Definition rootfsPath (rootfs path : str) : str :=
  let cleaned := Clean path in
  if bool_decide (cleaned = dot) || bool_decide (cleaned = [slash]) then rootfs
  else PathJoin rootfs (default cleaned (after [slash] cleaned)).
(** [resolveCopySource], for a root that is not empty. *)
Definition resolveCopySource (root src : str) : str :=
  let cleaned := Clean src in if IsAbs cleaned then rootfsPath root cleaned else PathJoin root cleaned.
Definition leaves (cleaned : str) : bool := bool_decide (cleaned = dotdot) || bool_decide (is_Some (after (dotdot ++ [slash]) cleaned)).
Definition sanitizeRunMountCacheKey (key : str) : str :=
  let cleaned := Clean (TrimSpace key) in
  let cleaned := default cleaned (after [slash] cleaned) in
  if bool_decide (cleaned = dot) || bool_decide (cleaned = []) then sbytes "root"
  else (fun c => if bool_decide (c ∈ [47; 92; 58]) then 95 else c) <$> cleaned.
Definition normalizeMatcherPath (value : str) : str :=
  let cleaned := Clean value in
  let cleaned := default cleaned (after [46; slash] cleaned) in
  let cleaned := default cleaned (after [slash] cleaned) in
  if bool_decide (cleaned = []) then dot else cleaned.

(** ** Instructions *)

Inductive command :=
  | FROM | RUN | COPY | ADD | ENV | ARG | WORKDIR | USER | EXPOSE | LABEL | CMD | ENTRYPOINT
  | VOLUME | HEALTHCHECK | SHELL | STOPSIGNAL | ONBUILD | MAINTAINER.
#[export] Instance command_eq_dec : EqDecision command.
Proof. solve_decision. Defined.
Inductive mount_type := MBind | MCache | MTmpfs | MSecret | MSSH | MOther.
#[export] Instance mount_type_eq_dec : EqDecision mount_type.
Proof. solve_decision. Defined.
Record RunMount := mkRunMount {
  rm_Type : mount_type;
  rm_From : str;
  rm_Source : str;
  rm_Target : str;
  rm_ReadOnly : bool;
  rm_SizeLimit : Z;
  rm_CacheID : str;
  rm_SecretID : str;
  rm_Required : bool;
}.
Record Instruction := mkInstr { in_Cmd : command; in_Args : list str; in_ShellForm : bool; in_Platform : str; in_RunMounts : list RunMount }.
Definition instr (c : command) (args : list str) : Instruction := mkInstr c args false [] [].

(** The errors, by cause. *)
Inductive build_err :=
  | BadFrom
  | BadWord
  | Unresolved (names : list str)
  | EmptyFrom
  | BadPlatform
  | NoActiveStage
  | InvalidPair (part : str)
  | MissingArgument
  | BadHealthcheck
  | UnsupportedFlag (flag : str)
  | MissingSource
  | UnknownStage (ref : str)
  | BadOption
  | NotSupported
  | SecretRequired (id : str)
  | NoFrom
  | HostFailed
  (** a bind mount whose source leaves the directory of its stage: what lies
      there is not part of the model *)
  | OutsideModel.
Abbreviation result := (res build_err).

(** ** From BuildKit's commands to instructions *)

Record KeyValuePair := mkPair { kv_Key : str; kv_Value : str; kv_NoDelim : bool }.
Record HereDoc := mkHereDoc { hd_Data : str; hd_Chomp : bool }.
Record Mount := mkMount {
  mo_Type : mount_type;
  mo_From : str;
  mo_Source : str;
  mo_Target : str;
  mo_ReadOnly : bool;
  mo_SizeLimit : Z;
  mo_CacheID : str;
  mo_Required : bool;
}.
Record Transfer := mkTransfer {
  tr_From : str;
  tr_Chown : str;
  tr_Chmod : str;
  tr_Link : bool;
  tr_Parents : bool;
  tr_KeepGitDir : option bool;
  tr_Checksum : str;
  tr_Unpack : option bool;
  tr_ExcludePatterns : list str;
  tr_SourceContents : list str;
  tr_SourcePaths : list str;
  tr_DestPath : str;
}.
(** Durations are given by their text, [Duration.String]; [None] is zero. *)
Record Health := mkHealth {
  he_Test : list str;
  he_Interval : option str;
  he_Timeout : option str;
  he_StartPeriod : option str;
  he_StartInterval : option str;
  he_Retries : Z;
}.
Inductive Command :=
  | RunCommand (CmdLine : list str) (PrependShell : bool) (Files : list HereDoc) (FlagsUsed : list str) (Mounts : list Mount)
  | CmdCommand (CmdLine : list str) (PrependShell : bool) (Files : list HereDoc)
  | EntrypointCommand (CmdLine : list str) (PrependShell : bool) (Files : list HereDoc)
  | EnvCommand (Env : list KeyValuePair)
  | LabelCommand (Labels : list KeyValuePair)
  | AddCommand (t : Transfer)
  | CopyCommand (t : Transfer)
  | WorkdirCommand (Path : str)
  | UserCommand (User : str)
  | ExposeCommand (Ports : list str)
  | VolumeCommand (Volumes : list str)
  | StopSignalCommand (Signal : str)
  | ArgCommand (Args : list (str * option str))
  | HealthCheckCommand (h : option Health)
  | ShellCommand (Shell : list str)
  | OnbuildCommand (Expression : str)
  | MaintainerCommand (Maintainer : str)
  | OtherCommand.
Record Stage := mkStage { sg_BaseName : str; sg_Name : str; sg_Platform : str; sg_Commands : list Command }.

Definition space : str := [32].
Definition equals : str := [61].
Definition translateShellCommand (c : command) (args : list str) (shellForm : bool) : Instruction :=
  if shellForm then mkInstr c [join space args] true [] [] else instr c args.
(** [strings.TrimSuffix(data, "\n")] *)
Definition chomp (data : str) : str := match last data with Some 10 => take (length data - 1) data | _ => data end.
Definition translateRunCommand (CmdLine : list str) (PrependShell : bool) (Files : list HereDoc) : Instruction :=
  match Files with
  | [] => translateShellCommand RUN CmdLine PrependShell
  | _ =>
      let parts := (match CmdLine with [] => [] | _ => [join space CmdLine] end) ++
                   ((fun f => if hd_Chomp f then chomp (hd_Data f) else hd_Data f) <$> Files) in
      mkInstr RUN [join [10] parts] true [] []
  end.
Definition translateRunMount (m : Mount) : RunMount :=
  mkRunMount (mo_Type m) (mo_From m) (mo_Source m) (mo_Target m) (mo_ReadOnly m) (mo_SizeLimit m) (mo_CacheID m)
    (if bool_decide (mo_Type m ∈ [MSecret; MSSH]) then mo_CacheID m else []) (mo_Required m).
Definition pair_String (p : KeyValuePair) : str := kv_Key p ++ equals ++ kv_Value p.
Definition translateKeyValuePairs (pairs : list KeyValuePair) : list str :=
  match pairs with
  | [p] => if kv_NoDelim p then [kv_Key p; kv_Value p] else [pair_String p]
  | _ => pair_String <$> pairs
  end.
Definition translateArgCommand (args : list (str * option str)) : Instruction :=
  instr ARG ((fun a : str * option str => match a.2 with None => a.1 | Some v => a.1 ++ equals ++ v end) <$> args).
Definition flag (name value : str) : str := name ++ value.
Definition opt_flag (name value : str) : list str := if nonempty value then [flag name value] else [].
Definition FormatBool (b : bool) : str := if b then sbytes "true" else sbytes "false".
Definition bool_flag (name : str) (b : option bool) : list str := match b with Some b => [flag name (FormatBool b)] | None => [] end.
Definition f_from := sbytes "--from=".
Definition f_chown := sbytes "--chown=".
Definition f_chmod := sbytes "--chmod=".
Definition f_link := sbytes "--link".
Definition f_parents := sbytes "--parents".
Definition f_keep := sbytes "--keep-git-dir=".
Definition f_checksum := sbytes "--checksum=".
Definition f_unpack := sbytes "--unpack=".
Definition f_exclude := sbytes "--exclude=".
Definition translateAddCommand (t : Transfer) : result (list str) :=
  match tr_SourceContents t with
  | _ :: _ => Err NotSupported
  | [] =>
      Ok (opt_flag f_chown (tr_Chown t) ++ opt_flag f_chmod (tr_Chmod t) ++ (if tr_Link t then [f_link] else []) ++
          bool_flag f_keep (tr_KeepGitDir t) ++ opt_flag f_checksum (tr_Checksum t) ++ bool_flag f_unpack (tr_Unpack t) ++
          (flag f_exclude <$> tr_ExcludePatterns t) ++ tr_SourcePaths t ++ [tr_DestPath t])
  end.
Definition translateCopyCommand (t : Transfer) : result (list str) :=
  match tr_SourceContents t with
  | _ :: _ => Err NotSupported
  | [] =>
      Ok (opt_flag f_from (tr_From t) ++ opt_flag f_chown (tr_Chown t) ++ opt_flag f_chmod (tr_Chmod t) ++
          (if tr_Link t then [f_link] else []) ++ (if tr_Parents t then [f_parents] else []) ++
          (flag f_exclude <$> tr_ExcludePatterns t) ++ tr_SourcePaths t ++ [tr_DestPath t])
  end.
Definition none_word : str := sbytes "NONE".
Definition dur_flag (name : str) (d : option str) : list str := match d with Some d => [flag name d] | None => [] end.
Definition translateHealthcheck (h : option Health) : list str :=
  match h with
  | None => []
  | Some h =>
      let args :=
        dur_flag (sbytes "--interval=") (he_Interval h) ++ dur_flag (sbytes "--timeout=") (he_Timeout h) ++
        dur_flag (sbytes "--start-period=") (he_StartPeriod h) ++ dur_flag (sbytes "--start-interval=") (he_StartInterval h) ++
        (if he_Retries h =? 0 then [] else [flag (sbytes "--retries=") (Itoa (he_Retries h))]) ++ he_Test h in
      match he_Test h with [t] => if EqualFold t none_word then [none_word] else args | _ => args end
  end.
Definition run_flag_known (f : str) : bool := bool_decide (f ∈ [sbytes "mount"; sbytes "security"; sbytes "network"]).
Definition translateCommand (c : Command) : result Instruction :=
  match c with
  | RunCommand CmdLine PrependShell Files FlagsUsed Mounts =>
      let i := translateRunCommand CmdLine PrependShell Files in
      if forallb run_flag_known FlagsUsed then Ok (mkInstr RUN (in_Args i) (in_ShellForm i) [] (translateRunMount <$> Mounts))
      else Err NotSupported
  | CmdCommand CmdLine PrependShell Files => match Files with [] => Ok (translateShellCommand CMD CmdLine PrependShell) | _ => Err NotSupported end
  | EntrypointCommand CmdLine PrependShell Files => match Files with [] => Ok (translateShellCommand ENTRYPOINT CmdLine PrependShell) | _ => Err NotSupported end
  | EnvCommand env => Ok (instr ENV (translateKeyValuePairs env))
  | LabelCommand labels => Ok (instr LABEL (translateKeyValuePairs labels))
  | AddCommand t => args ← translateAddCommand t; Ok (instr ADD args)
  | CopyCommand t => args ← translateCopyCommand t; Ok (instr COPY args)
  | WorkdirCommand p => Ok (instr WORKDIR [p])
  | UserCommand u => Ok (instr USER [u])
  | ExposeCommand ports => Ok (instr EXPOSE ports)
  | VolumeCommand vs => Ok (instr VOLUME vs)
  | StopSignalCommand s => Ok (instr STOPSIGNAL [s])
  | ArgCommand args => Ok (translateArgCommand args)
  | HealthCheckCommand h => Ok (instr HEALTHCHECK (translateHealthcheck h))
  | ShellCommand sh => Ok (instr SHELL sh)
  | OnbuildCommand e => Ok (instr ONBUILD [e])
  | MaintainerCommand m => Ok (instr MAINTAINER [m])
  | OtherCommand => Err NotSupported
  end.
Definition as_word : str := sbytes "AS".
Definition collect {A B} (f : A → result B) (x : A) (out : list B) : result (list B) := y ← f x; Ok (out ++ [y]).
Definition translateStage (s : Stage) : result (list Instruction) :=
  let fromArgs := sg_BaseName s :: (if nonempty (sg_Name s) then [as_word; sg_Name s] else []) in
  for_each (collect translateCommand) (sg_Commands s) [mkInstr FROM fromArgs false (sg_Platform s) []].
(** [parse], after BuildKit's parser. *)
Definition translate (metaArgs : list (list (str * option str))) (stages : list Stage) : result (list Instruction) :=
  for_each (fun s out => l ← translateStage s; Ok (out ++ l)) stages (translateArgCommand <$> metaArgs).

(** ** The image and the host *)

Record Healthcheck := mkHealthcheck {
  hk_Test : list str;
  hk_Interval : Z;
  hk_Timeout : Z;
  hk_StartPeriod : Z;
  hk_StartInterval : Z;
  hk_Retries : Z;
}.
Record ImageConfig := mkImageConfig {
  ic_Entrypoint : list str;
  ic_Cmd : list str;
  ic_Env : list str;
  ic_WorkingDir : str;
  ic_User : str;
  ic_ExposedPorts : list str;
  ic_Volumes : list str;
  ic_Labels : gmap str str;
  ic_StopSignal : str;
  ic_Shell : list str;
  ic_Healthcheck : option Healthcheck;
}.
Definition empty_config : ImageConfig := mkImageConfig [] [] [] [] [] [] [] ∅ [] [] None.

(** Where the files of a COPY or ADD come from. *)
Inductive source_root := FromContext | FromStage (index : Z) | FromImage (ref : str).
Record copyOptions := mkCopyOptions {
  co_preserveOwnership : bool;
  co_chown : option (Z * Z);
  co_chmod : option Z;
  co_exclude : list str;
  co_parents : bool;
  co_link : bool;
  co_keepGitDir : bool;
  co_checksum : option str;
  co_unpack : option bool;
}.
(** The specification, with the sources expanded and the destination resolved
    in the container. *)
Record transferSpec := mkTransferSpec {
  ts_root : source_root;
  ts_remote : bool;
  ts_srcs : list (str * str);
  ts_dst : str;
  ts_dstPath : str;
  ts_options : copyOptions;
}.

(** The source of a mount: a path in the directory of a stage or in the build
    context, the directory of a cache, a secret, an empty file or nothing. *)
Inductive mount_source := SrcStage (index : Z) (path : str) | SrcContext (path : str) | SrcCache (key : str) | SrcSecret (id : str) | SrcEmpty | SrcNone.
Record isolatedRunMount := mkIsolated {
  im_Type : mount_type;
  im_Source : mount_source;
  im_Target : str;
  im_ReadOnly : bool;
  im_SizeLimit : Z;
}.
Record RunSpec := mkRunSpec { rs_Args : list str; rs_Env : list str; rs_User : str }.

(** What is outside the repository or done by the operating system: [h_exec]
    gets the mounts with the trees behind them and gives those back as the
    command left them. *)
Record Host (T Img : Type) := mkHost {
  h_lex : str → list str → option (str * list str);
  h_ParseDuration : str → option Z;
  h_GOOS : str;
  h_GOARCH : str;
  h_root : bool;
  h_empty : T;
  h_copyDirContents : T → T → option T;
  h_ensureDirs : T → T;
  h_mkdir : str → T → option T;
  h_prepare : list str → T → option T;
  h_stat : T → str → bool;
  h_owner : T → str → option (Z * Z);
  h_patterns : list str → bool;
  h_secret : str → option bool;
  h_exec : RunSpec → list (isolatedRunMount * option T) → T → option (T * list (option T));
  h_pull : str → str → str → option Img;
  h_config : Img → ImageConfig;
  h_extract : Img → T → option T;
  h_transfer : transferSpec → T → T → option T;
}.
Arguments h_lex {T Img}.
Arguments h_ParseDuration {T Img}.
Arguments h_GOOS {T Img}.
Arguments h_GOARCH {T Img}.
Arguments h_root {T Img}.
Arguments h_empty {T Img}.
Arguments h_copyDirContents {T Img}.
Arguments h_ensureDirs {T Img}.
Arguments h_mkdir {T Img}.
Arguments h_prepare {T Img}.
Arguments h_stat {T Img}.
Arguments h_owner {T Img}.
Arguments h_patterns {T Img}.
Arguments h_secret {T Img}.
Arguments h_exec {T Img}.
Arguments h_pull {T Img}.
Arguments h_config {T Img}.
Arguments h_extract {T Img}.
Arguments h_transfer {T Img}.
Definition host {A} (o : option A) : result A := match o with Some x => Ok x | None => Err HostFailed end.

(** ** Environments *)

(** [key=value] for the keys in their order, of a map. *)
Definition kv (m : gmap str str) (k : str) : str := k ++ equals ++ default [] (m !! k).
Definition kv_slice (m : gmap str str) : list str := kv m <$> sorted_keys m.
Definition env_entry (st : gmap str str * list str) (entry : str) : gmap str str * list str :=
  match cut 61 entry with
  | None => st
  | Some (k, v) => (<[k := v]> st.1, if bool_decide (is_Some (st.1 !! k)) then st.2 else st.2 ++ [k])
  end.
Definition envMap (env : list str) : gmap str str * list str := foldl env_entry (∅, []) env.
Definition envSliceOrdered (env : gmap str str) (order : list str) : list str :=
  kv env <$> filter (fun k => is_Some (env !! k)) order.
Definition addDefault (key value : str) (st : gmap str str * list str) : gmap str str * list str :=
  if bool_decide (is_Some (st.1 !! key)) then st else (<[key := value]> st.1, st.2 ++ [key]).
Definition k_PATH := sbytes "PATH".
Definition k_HOME := sbytes "HOME".
Definition k_TMPDIR := sbytes "TMPDIR".
Definition k_GIT := sbytes "GIT_CONFIG_GLOBAL".
Definition v_PATH := sbytes "/usr/local/sbin:/usr/local/bin:/usr/sbin:/usr/bin:/sbin:/bin".
Definition v_HOME := sbytes "/root".
Definition v_TMPDIR := sbytes "/tmp".
Definition v_GIT := sbytes "/tmp/gocracker-gitconfig".
(** The variables of a RUN: those of the image, the exported arguments, the
    defaults. *)
Definition run_env (env : list str) (args : gmap str str) (export : gmap str bool) : gmap str str * list str :=
  let st := foldl (fun st key => addDefault key (default [] (args !! key)) st) (envMap env)
              (filter (fun k => export !! k = Some true) (sorted_keys args)) in
  addDefault k_GIT v_GIT (addDefault k_TMPDIR v_TMPDIR (addDefault k_HOME v_HOME (addDefault k_PATH v_PATH st))).
Definition run_env_slice (env : list str) (args : gmap str str) (export : gmap str bool) : list str :=
  let st := run_env env args export in kv st.1 <$> st.2.

(** ** The plan *)

Definition parseFromArgs (args : list str) : result (str * str) :=
  match args with
  | [] => Err BadFrom
  | [image] => Ok (image, [])
  | [image; a; alias] => if EqualFold a as_word then Ok (image, alias) else Err BadFrom
  | _ => Err BadFrom
  end.

Record plannedStage := mkPlanned {
  ps_index : Z;
  ps_alias : str;
  ps_fromRef : str;
  ps_deps : list str;
  ps_instrs : list Instruction;
}.

Section plan.
Context (lex : str → list str → option (str * list str)).

Definition expandBuildArgValue (args : gmap str str) (raw : str) : result str :=
  match lex raw (kv_slice args) with
  | None => Err BadWord
  | Some (r, []) => Ok r
  | Some (_, unmatched) => Err (Unresolved (sort_strings unmatched))
  end.
Definition applyArgDefault (args : gmap str str) (a : str) : gmap str str :=
  match cut 61 a with
  | None => if bool_decide (is_Some (args !! a)) then args else <[a := []]> args
  | Some (k, v) =>
      if bool_decide (is_Some (args !! k)) then args
      else match expandBuildArgValue args v with Ok v' => <[k := v']> args | _ => <[k := v]> args end
  end.
Definition applyArgDefaults (args : gmap str str) (values : list str) : gmap str str := foldl applyArgDefault args values.

(** The words of an instruction that name a stage. *)
Definition from_words (args : list str) : list str := omap (after f_from) args.
Definition ref_words (i : Instruction) : list str :=
  match in_Cmd i with
  | COPY | ADD => from_words (in_Args i)
  | RUN => filter (fun s => s ≠ []) (rm_From <$> in_RunMounts i)
  | _ => []
  end.
Definition extractInstructionStageRefs (i : Instruction) (args : gmap str str) : result (list str) :=
  for_each (collect (expandBuildArgValue args)) (ref_words i) [].

(** The state of the loop: arguments, preamble, finished stages, current one. *)
Record planning := mkPlanning { pl_args : gmap str str; pl_preamble : list Instruction; pl_stages : list plannedStage; pl_current : option plannedStage }.
Definition finished (p : planning) : list plannedStage := pl_stages p ++ match pl_current p with Some c => [c] | None => [] end.
Definition plan_step (i : Instruction) (p : planning) : result planning :=
  let args := match in_Cmd i with ARG => applyArgDefaults (pl_args p) (in_Args i) | _ => pl_args p end in
  match in_Cmd i with
  | FROM =>
      let stages := finished p in
      '(image, alias) ← parseFromArgs (in_Args i);
      image ← expandBuildArgValue args image;
      Ok (mkPlanning args (pl_preamble p) stages (Some (mkPlanned (zlen stages) alias image [] [i])))
  | _ =>
      match pl_current p with
      | None => Ok (mkPlanning args (pl_preamble p ++ [i]) (pl_stages p) None)
      | Some c =>
          refs ← extractInstructionStageRefs i args;
          Ok (mkPlanning args (pl_preamble p) (pl_stages p)
                (Some (mkPlanned (ps_index c) (ps_alias c) (ps_fromRef c) (ps_deps c ++ refs) (ps_instrs c ++ [i]))))
      end
  end.
Definition buildStagePlan (instrs : list Instruction) (seedArgs : gmap str str) : result (list Instruction * list plannedStage) :=
  p ← for_each plan_step instrs (mkPlanning seedArgs [] [] None);
  Ok (pl_preamble p, finished p).
End plan.

Definition stage_matches (s : plannedStage) (ref : str) : bool :=
  bool_decide (ref = Itoa (ps_index s)) || (nonempty (ps_alias s) && bool_decide (ref = ps_alias s)).
(** [resolvePlannedStageRef]: from the stage before [stagePos] downwards. *)
Fixpoint resolvePlannedStageRef (stages : list plannedStage) (stagePos : nat) (ref : str) : option nat :=
  match stagePos with
  | O => None
  | S i =>
      match stages !! i with
      | None => None
      | Some s => if stage_matches s ref then Some i else resolvePlannedStageRef stages i ref
      end
  end.
(** The positions that a stage refers to, in the order they are pushed. *)
Definition stage_deps (stages : list plannedStage) (pos : nat) (s : plannedStage) : list nat :=
  omap (resolvePlannedStageRef stages pos) (ps_fromRef s :: ps_deps s).
(** The stack has its top first. *)
Fixpoint mark_loop (fuel : nat) (stages : list plannedStage) (stack : list nat) (reachable : gset Z) : result (gset Z) :=
  match fuel with
  | O => NoFuel
  | S fuel =>
      match stack with
      | [] => Ok reachable
      | pos :: stack =>
          s ← must (stages !! pos);
          if bool_decide (ps_index s ∈ reachable) then mark_loop fuel stages stack reachable
          else mark_loop fuel stages (rev (stage_deps stages pos s) ++ stack) ({[ps_index s]} ∪ reachable)
      end
  end.
(** Every stage is expanded once: a round for each push, and the last one. *)
Definition mark_fuel (stages : list plannedStage) : nat := S (S (sum_list ((fun s => S (length (ps_deps s))) <$> stages))).
Definition markReachableStages (stages : list plannedStage) : result (gset Z) :=
  match stages with [] => Ok ∅ | _ => mark_loop (mark_fuel stages) stages [(length stages - 1)%nat] ∅ end.

(** ** The builder *)

Record buildStage := mkBuildStage {
  bs_index : Z;
  bs_name : str;
  bs_rootfs : Z;
  bs_config : ImageConfig;
  bs_env : gmap str str;
  bs_envOrder : list str;
  bs_user : str;
  bs_workdir : str;
  bs_shell : list str;
}.
(** The fields of the builder that belong to the current stage; [cu_rootfs] is
    the index in the name of its directory. *)
Record current := mkCurrent {
  cu_rootfs : option Z;
  cu_config : ImageConfig;
  cu_env : gmap str str;
  cu_envOrder : list str;
  cu_user : str;
  cu_workdir : str;
  cu_shell : list str;
  cu_name : str;
  cu_index : Z;
}.
(** What the instructions that touch no files work on. *)
Record conf := mkConf { cf_cur : current; cf_args : gmap str str; cf_argExport : gmap str bool }.
Record builder (T Img : Type) := mkBuilder {
  b_conf : conf;
  b_trees : gmap Z T;
  b_context : T;
  b_cache : gmap str T;
  b_pullCache : gmap str Img;
  b_remote : gmap str T;
  b_stages : list buildStage;
  b_byName : gmap str buildStage;
  b_next : Z;
}.
Arguments mkBuilder {T Img}.
Arguments b_conf {T Img}.
Arguments b_trees {T Img}.
Arguments b_context {T Img}.
Arguments b_cache {T Img}.
Arguments b_pullCache {T Img}.
Arguments b_remote {T Img}.
Arguments b_stages {T Img}.
Arguments b_byName {T Img}.
Arguments b_next {T Img}.

Definition set_config (c : current) (v : ImageConfig) : current :=
  mkCurrent (cu_rootfs c) v (cu_env c) (cu_envOrder c) (cu_user c) (cu_workdir c) (cu_shell c) (cu_name c) (cu_index c).
Definition with_cur (c : conf) (v : current) : conf := mkConf v (cf_args c) (cf_argExport c).
(** The configuration with one field changed. *)
Definition ic_set_Env (c : ImageConfig) (v : list str) := mkImageConfig (ic_Entrypoint c) (ic_Cmd c) v (ic_WorkingDir c) (ic_User c) (ic_ExposedPorts c) (ic_Volumes c) (ic_Labels c) (ic_StopSignal c) (ic_Shell c) (ic_Healthcheck c).
Definition ic_set_Entrypoint (c : ImageConfig) (v : list str) := mkImageConfig v (ic_Cmd c) (ic_Env c) (ic_WorkingDir c) (ic_User c) (ic_ExposedPorts c) (ic_Volumes c) (ic_Labels c) (ic_StopSignal c) (ic_Shell c) (ic_Healthcheck c).
Definition ic_set_Cmd (c : ImageConfig) (v : list str) := mkImageConfig (ic_Entrypoint c) v (ic_Env c) (ic_WorkingDir c) (ic_User c) (ic_ExposedPorts c) (ic_Volumes c) (ic_Labels c) (ic_StopSignal c) (ic_Shell c) (ic_Healthcheck c).
Definition ic_set_WorkingDir (c : ImageConfig) (v : str) := mkImageConfig (ic_Entrypoint c) (ic_Cmd c) (ic_Env c) v (ic_User c) (ic_ExposedPorts c) (ic_Volumes c) (ic_Labels c) (ic_StopSignal c) (ic_Shell c) (ic_Healthcheck c).
Definition ic_set_User (c : ImageConfig) (v : str) := mkImageConfig (ic_Entrypoint c) (ic_Cmd c) (ic_Env c) (ic_WorkingDir c) v (ic_ExposedPorts c) (ic_Volumes c) (ic_Labels c) (ic_StopSignal c) (ic_Shell c) (ic_Healthcheck c).
Definition ic_set_Ports (c : ImageConfig) (v : list str) := mkImageConfig (ic_Entrypoint c) (ic_Cmd c) (ic_Env c) (ic_WorkingDir c) (ic_User c) v (ic_Volumes c) (ic_Labels c) (ic_StopSignal c) (ic_Shell c) (ic_Healthcheck c).
Definition ic_set_Volumes (c : ImageConfig) (v : list str) := mkImageConfig (ic_Entrypoint c) (ic_Cmd c) (ic_Env c) (ic_WorkingDir c) (ic_User c) (ic_ExposedPorts c) v (ic_Labels c) (ic_StopSignal c) (ic_Shell c) (ic_Healthcheck c).
Definition ic_set_Labels (c : ImageConfig) (v : gmap str str) := mkImageConfig (ic_Entrypoint c) (ic_Cmd c) (ic_Env c) (ic_WorkingDir c) (ic_User c) (ic_ExposedPorts c) (ic_Volumes c) v (ic_StopSignal c) (ic_Shell c) (ic_Healthcheck c).
Definition ic_set_StopSignal (c : ImageConfig) (v : str) := mkImageConfig (ic_Entrypoint c) (ic_Cmd c) (ic_Env c) (ic_WorkingDir c) (ic_User c) (ic_ExposedPorts c) (ic_Volumes c) (ic_Labels c) v (ic_Shell c) (ic_Healthcheck c).
Definition ic_set_Shell (c : ImageConfig) (v : list str) := mkImageConfig (ic_Entrypoint c) (ic_Cmd c) (ic_Env c) (ic_WorkingDir c) (ic_User c) (ic_ExposedPorts c) (ic_Volumes c) (ic_Labels c) (ic_StopSignal c) v (ic_Healthcheck c).
Definition ic_set_Healthcheck (c : ImageConfig) (v : option Healthcheck) := mkImageConfig (ic_Entrypoint c) (ic_Cmd c) (ic_Env c) (ic_WorkingDir c) (ic_User c) (ic_ExposedPorts c) (ic_Volumes c) (ic_Labels c) (ic_StopSignal c) (ic_Shell c) v.

Definition appendUnique (values : list str) (value : str) : list str := if bool_decide (value ∈ values) then values else values ++ [value].
Definition defaultShell : list str := [sbytes "/bin/sh"; sbytes "-c"].
Definition shellQuote (value : str) : str := [39] ++ concat ((fun c => if c =? 39 then [39; 34; 39; 34; 39] else [c]) <$> value) ++ [39].
Definition resolveContainerPath (workdir path : str) : str :=
  if IsAbs path then Clean path
  else Clean (PathJoin (if bool_decide (workdir = []) then [slash] else workdir) path).
Definition setEnv (key value : str) (c : current) : current :=
  let order := if bool_decide (is_Some (cu_env c !! key)) then cu_envOrder c else cu_envOrder c ++ [key] in
  let env := <[key := value]> (cu_env c) in
  mkCurrent (cu_rootfs c) (ic_set_Env (cu_config c) (envSliceOrdered env order)) env order
    (cu_user c) (cu_workdir c) (cu_shell c) (cu_name c) (cu_index c).
Definition commandConfigArgs (i : Instruction) (shell : list str) : list str :=
  if in_ShellForm i then match in_Args i with [] => [] | command :: _ => shell ++ [command] end else in_Args i.
(** The script that changes to its first argument and runs the others. *)
Definition run_script : str := sbytes "cd " ++ [34] ++ sbytes "$1" ++ [34] ++ sbytes " && shift && exec " ++ [34] ++ sbytes "$@" ++ [34].
Definition buildRunCommand (c : current) (args : list str) : list str :=
  match args with
  | [] => []
  | [command] =>
      let command := if bool_decide (cu_workdir c = []) then command else sbytes "cd " ++ shellQuote (cu_workdir c) ++ sbytes " && " ++ command in
      cu_shell c ++ [command]
  | _ =>
      if bool_decide (cu_workdir c = []) then args
      else cu_shell c ++ [run_script; sbytes "gocracker-run"; cu_workdir c] ++ args
  end.
Definition validateBuildPlatform (GOOS GOARCH platform : str) : result unit :=
  match split_on slash platform with
  | os :: arch :: _ => if bool_decide (os = GOOS) && bool_decide (arch = GOARCH) then Ok tt else Err BadPlatform
  | _ => Err BadPlatform
  end.
(** [defaultBuildArgs] *)
Definition defaultBuildArgs (GOOS GOARCH : str) : gmap str str :=
  let platform := GOOS ++ [slash] ++ GOARCH in
  list_to_map [(sbytes "BUILDOS", GOOS); (sbytes "BUILDARCH", GOARCH); (sbytes "BUILDPLATFORM", platform);
               (sbytes "TARGETOS", GOOS); (sbytes "TARGETARCH", GOARCH); (sbytes "TARGETPLATFORM", platform);
               (sbytes "TARGETVARIANT", []); (sbytes "BUILDVARIANT", [])].

Section builder.
Context {T Img : Type} (H : Host T Img).
Abbreviation bld := (builder T Img).

(** *** Expansion *)
Definition expansionEnvSlice (c : conf) : list str := kv_slice (cf_args c) ++ kv_slice (cu_env (cf_cur c)).
Definition expandValue (c : conf) (s : str) : result (str * list str) :=
  match h_lex H s (expansionEnvSlice c) with Some r => Ok r | None => Err BadWord end.
Definition expand (c : conf) (s : str) : str := match h_lex H s (expansionEnvSlice c) with Some (r, _) => r | None => s end.
Definition expandStrict (c : conf) (s : str) : result str :=
  '(r, unmatched) ← expandValue c s;
  if bool_decide (unmatched = []) then Ok r else Err (Unresolved (sort_strings unmatched)).

(** *** Instructions that change only the configuration *)
Definition env_pair (part : str) (c : conf) : result conf :=
  match cut 61 part with
  | None => Err (InvalidPair part)
  | Some (k, v) => '(value, _) ← expandValue c v; Ok (with_cur c (setEnv k value (cf_cur c)))
  end.
(** [ENV key value ...]: the first of several words has no [=]. *)
Definition word_form (args : list str) : bool :=
  match args with a :: _ :: _ => bool_decide (cut 61 a = None) | _ => false end.
Definition handleENV (args : list str) (c : conf) : result conf :=
  match args with
  | key :: rest =>
      if word_form args then '(value, _) ← expandValue c (join space rest); Ok (with_cur c (setEnv key value (cf_cur c)))
      else for_each env_pair args c
  | [] => Ok c
  end.
Definition setLabel (k v : str) (c : conf) : conf :=
  with_cur c (set_config (cf_cur c) (ic_set_Labels (cu_config (cf_cur c)) (<[k := v]> (ic_Labels (cu_config (cf_cur c)))))).
Definition label_pair (part : str) (c : conf) : result conf :=
  match cut 61 part with
  | None => Err (InvalidPair part)
  | Some (k, v) => '(value, _) ← expandValue c v; Ok (setLabel k value c)
  end.
Definition handleLABEL (args : list str) (c : conf) : result conf :=
  match args with
  | key :: rest =>
      if word_form args then '(value, _) ← expandValue c (join space rest); Ok (setLabel key value c)
      else for_each label_pair args c
  | [] => Ok c
  end.
Definition set_arg (k v : str) (c : conf) : conf := mkConf (cf_cur c) (<[k := v]> (cf_args c)) (<[k := true]> (cf_argExport c)).
Definition arg_default (a : str) (c : conf) : result conf :=
  match cut 61 a with
  | None => if bool_decide (is_Some (cf_args c !! a)) then Ok c else Ok (set_arg a [] c)
  | Some (k, v) =>
      if bool_decide (is_Some (cf_args c !! k)) then Ok c
      else '(value, _) ← expandValue c v; Ok (set_arg k value c)
  end.
Definition handleARG (args : list str) (c : conf) : result conf := for_each arg_default args c.
Definition health_option (name value : str) (hc : Healthcheck) : result Healthcheck :=
  let duration := match h_ParseDuration H value with Some d => Ok d | None => Err BadHealthcheck end in
  if bool_decide (name = sbytes "interval") then
    d ← duration; Ok (mkHealthcheck (hk_Test hc) d (hk_Timeout hc) (hk_StartPeriod hc) (hk_StartInterval hc) (hk_Retries hc))
  else if bool_decide (name = sbytes "timeout") then
    d ← duration; Ok (mkHealthcheck (hk_Test hc) (hk_Interval hc) d (hk_StartPeriod hc) (hk_StartInterval hc) (hk_Retries hc))
  else if bool_decide (name = sbytes "start-period") then
    d ← duration; Ok (mkHealthcheck (hk_Test hc) (hk_Interval hc) (hk_Timeout hc) d (hk_StartInterval hc) (hk_Retries hc))
  else if bool_decide (name = sbytes "start-interval") then
    d ← duration; Ok (mkHealthcheck (hk_Test hc) (hk_Interval hc) (hk_Timeout hc) (hk_StartPeriod hc) d (hk_Retries hc))
  else if bool_decide (name = sbytes "retries") then
    match Atoi value with
    | Some n => Ok (mkHealthcheck (hk_Test hc) (hk_Interval hc) (hk_Timeout hc) (hk_StartPeriod hc) (hk_StartInterval hc) n)
    | None => Err BadHealthcheck
    end
  else Err BadHealthcheck.
Fixpoint health_options (args : list str) (hc : Healthcheck) : result Healthcheck :=
  match args with
  | [] => Err BadHealthcheck
  | a :: rest =>
      match after [45; 45] a with
      | None => Ok (mkHealthcheck args (hk_Interval hc) (hk_Timeout hc) (hk_StartPeriod hc) (hk_StartInterval hc) (hk_Retries hc))
      | Some opt =>
          match cut 61 opt with
          | None => Err BadHealthcheck
          | Some (name, value) => hc ← health_option name value hc; health_options rest hc
          end
      end
  end.
Definition parseHealthcheck (args : list str) : result Healthcheck :=
  match args with
  | [] => Err BadHealthcheck
  | a :: _ => if EqualFold a none_word then Ok (mkHealthcheck [none_word] 0 0 0 0 0) else health_options args (mkHealthcheck [] 0 0 0 0 0)
  end.
Definition upd_config (c : conf) (f : ImageConfig → ImageConfig) : conf := with_cur c (set_config (cf_cur c) (f (cu_config (cf_cur c)))).
Definition set_user (c : conf) (v : str) : conf :=
  let k := cf_cur c in
  with_cur c (mkCurrent (cu_rootfs k) (ic_set_User (cu_config k) v) (cu_env k) (cu_envOrder k) v (cu_workdir k) (cu_shell k) (cu_name k) (cu_index k)).
Definition set_workdir (c : conf) (v : str) : conf :=
  let k := cf_cur c in
  with_cur c (mkCurrent (cu_rootfs k) (ic_set_WorkingDir (cu_config k) v) (cu_env k) (cu_envOrder k) (cu_user k) v (cu_shell k) (cu_name k) (cu_index k)).
Definition set_shell (c : conf) (v : list str) : conf :=
  let k := cf_cur c in
  with_cur c (mkCurrent (cu_rootfs k) (ic_set_Shell (cu_config k) v) (cu_env k) (cu_envOrder k) (cu_user k) (cu_workdir k) v (cu_name k) (cu_index k)).
Definition step_conf (i : Instruction) (c : conf) : result conf :=
  match in_Cmd i with
  | ENV => handleENV (in_Args i) c
  | ARG => handleARG (in_Args i) c
  | USER => match in_Args i with [] => Err MissingArgument | u :: _ => Ok (set_user c (expand c u)) end
  | EXPOSE =>
      Ok (foldl (fun c arg => upd_config c (fun ic => ic_set_Ports ic (appendUnique (ic_ExposedPorts ic) (expand c arg)))) c
            (filter (fun s => s ≠ []) (in_Args i)))
  | LABEL => handleLABEL (in_Args i) c
  | CMD => Ok (upd_config c (fun ic => ic_set_Cmd ic (commandConfigArgs i (cu_shell (cf_cur c)))))
  | ENTRYPOINT => Ok (upd_config c (fun ic => ic_set_Entrypoint ic (commandConfigArgs i (cu_shell (cf_cur c)))))
  | VOLUME =>
      Ok (foldl (fun c v => upd_config c (fun ic => ic_set_Volumes ic (appendUnique (ic_Volumes ic) (resolveContainerPath (cu_workdir (cf_cur c)) (expand c v))))) c
            (filter (fun s => s ≠ []) (in_Args i)))
  | HEALTHCHECK => hc ← parseHealthcheck (in_Args i); Ok (upd_config c (fun ic => ic_set_Healthcheck ic (Some hc)))
  | SHELL => match in_Args i with [] => Err MissingArgument | _ => Ok (set_shell c (in_Args i)) end
  | STOPSIGNAL => match in_Args i with [] => Err MissingArgument | s :: _ => Ok (upd_config c (fun ic => ic_set_StopSignal ic s)) end
  | _ => Ok c
  end.

(** *** Files *)
Definition b_cur (b : bld) : current := cf_cur (b_conf b).
Definition set_conf (b : bld) (c : conf) : bld :=
  mkBuilder c (b_trees b) (b_context b) (b_cache b) (b_pullCache b) (b_remote b) (b_stages b) (b_byName b) (b_next b).
Definition set_next (b : bld) (n : Z) : bld :=
  mkBuilder (b_conf b) (b_trees b) (b_context b) (b_cache b) (b_pullCache b) (b_remote b) (b_stages b) (b_byName b) n.
Definition set_trees (b : bld) (t : gmap Z T) : bld :=
  mkBuilder (b_conf b) t (b_context b) (b_cache b) (b_pullCache b) (b_remote b) (b_stages b) (b_byName b) (b_next b).
Definition stage_tree (b : bld) (i : Z) : T := default (h_empty H) (b_trees b !! i).
(** The tree of the current stage. *)
Definition rootfs_index (b : bld) : Z := default (-1) (cu_rootfs (b_cur b)).
Definition root_tree (b : bld) : T := stage_tree b (rootfs_index b).
Definition set_root (b : bld) (t : T) : bld := set_trees b (<[rootfs_index b := t]> (b_trees b)).

Definition handleWORKDIR (args : list str) (b : bld) : result bld :=
  match args with
  | [] => Ok b
  | a :: _ =>
      '(dir, _) ← expandValue (b_conf b) a;
      let workdir := resolveContainerPath (cu_workdir (b_cur b)) dir in
      let b := set_conf b (set_workdir (b_conf b) workdir) in
      t ← host (h_mkdir H workdir (root_tree b));
      Ok (set_root b t)
  end.

(** *** Stages *)
Definition startStage (alias : str) (b : bld) : bld :=
  let c := mkCurrent (Some (b_next b)) empty_config ∅ [] [] [] defaultShell alias (b_next b) in
  set_trees (set_conf b (with_cur (b_conf b) c)) (<[b_next b := h_empty H]> (b_trees b)).
(** The record of the current stage, when there is one. *)
Definition stage_record (c : current) : option buildStage :=
  r ← cu_rootfs c;
  Some (mkBuildStage (cu_index c) (cu_name c) r (cu_config c) (cu_env c) (cu_envOrder c) (cu_user c) (cu_workdir c) (cu_shell c)).
Definition add_name (stage : buildStage) (m : gmap str buildStage) : gmap str buildStage :=
  let m := <[Itoa (bs_index stage) := stage]> m in
  if nonempty (bs_name stage) then <[bs_name stage := stage]> m else m.
Definition forget_index (c : current) : current :=
  mkCurrent (cu_rootfs c) (cu_config c) (cu_env c) (cu_envOrder c) (cu_user c) (cu_workdir c) (cu_shell c) (cu_name c) (-1).
Definition commitCurrentStage (b : bld) : bld :=
  match stage_record (b_cur b) with
  | None => b
  | Some stage =>
      mkBuilder (with_cur (b_conf b) (forget_index (b_cur b))) (b_trees b) (b_context b) (b_cache b) (b_pullCache b) (b_remote b)
        (b_stages b ++ [stage]) (add_name stage (b_byName b)) (b_next b)
  end.
Definition lookupStage (b : bld) (ref : str) : option buildStage := b_byName b !! ref.
Definition restore (c : current) (cfg : ImageConfig) (env : gmap str str) (order : list str) (user workdir : str) (shell : list str) : current :=
  mkCurrent (cu_rootfs c) cfg env order user workdir shell (cu_name c) (cu_index c).
Definition restoreStage (s : buildStage) (c : current) : current :=
  restore c (bs_config s) (bs_env s) (bs_envOrder s) (bs_user s) (bs_workdir s) (bs_shell s).
Definition inheritBaseConfig (cfg : ImageConfig) (c : current) : current :=
  let '(env, order) := envMap (ic_Env cfg) in
  restore c cfg env order (ic_User cfg) (ic_WorkingDir cfg) (if bool_decide (ic_Shell cfg = []) then defaultShell else ic_Shell cfg).
Definition arg_of (b : bld) (k : string) : str := default [] (cf_args (b_conf b) !! sbytes k).
Definition pullImage (ref : str) (b : bld) : result (Img * bld) :=
  match b_pullCache b !! ref with
  | Some img => Ok (img, b)
  | None =>
      img ← host (h_pull H ref (arg_of b "TARGETOS") (arg_of b "TARGETARCH"));
      Ok (img, mkBuilder (b_conf b) (b_trees b) (b_context b) (b_cache b) (<[ref := img]> (b_pullCache b)) (b_remote b) (b_stages b) (b_byName b) (b_next b))
  end.
Definition check_platform (platform : str) (c : conf) : result unit :=
  if bool_decide (platform = []) then Ok tt
  else p ← expandStrict c platform; validateBuildPlatform (h_GOOS H) (h_GOARCH H) p.
(** The base of a stage, after the directory is made. *)
Definition load_base (image : str) (b : bld) : result bld :=
  if bool_decide (image = sbytes "scratch") then Ok (set_root b (h_ensureDirs H (root_tree b)))
  else
    match lookupStage b image with
    | Some stage =>
        t ← host (h_copyDirContents H (stage_tree b (bs_rootfs stage)) (root_tree b));
        let b := set_root b t in
        Ok (set_conf b (with_cur (b_conf b) (restoreStage stage (b_cur b))))
    | None =>
        '(img, b) ← pullImage image b;
        let b := set_conf b (with_cur (b_conf b) (inheritBaseConfig (h_config H img) (b_cur b))) in
        t ← host (h_extract H img (root_tree b));
        Ok (set_root b t)
    end.
Definition handleFROM (i : Instruction) (b : bld) : result bld :=
  '(image, alias) ← parseFromArgs (in_Args i);
  image ← expandStrict (b_conf b) image;
  if bool_decide (image = []) then Err EmptyFrom
  else
    _ ← check_platform (in_Platform i) (b_conf b);
    load_base image (startStage alias (commitCurrentStage b)).

(** *** RUN *)
(** [filepath.Base] *)
Definition Base (s : str) : str :=
  if bool_decide (s = []) then dot
  else match last (filter (fun c => c ≠ []) (split_on slash s)) with Some c => c | None => [slash] end.
(** A path in a directory: a source that leaves it is not modelled further. *)
Definition inside (src : str) : result str :=
  let cleaned := Clean src in if negb (IsAbs cleaned) && leaves cleaned then Err OutsideModel else Ok cleaned.
Definition resolveBindRunMountSource (b : bld) (m : RunMount) : result mount_source :=
  if nonempty (rm_From m) then
    match lookupStage b (rm_From m) with
    | None => Err (UnknownStage (rm_From m))
    | Some stage => if nonempty (rm_Source m) then p ← inside (rm_Source m); Ok (SrcStage (bs_rootfs stage) p) else Ok (SrcStage (bs_rootfs stage) [])
    end
  else if nonempty (rm_Source m) then
    let cleaned := Clean (default (rm_Source m) (after [slash] (rm_Source m))) in
    if leaves cleaned then Err BadOption else Ok (SrcContext cleaned)
  else Ok (SrcContext []).
Definition source_stat (b : bld) (s : mount_source) : bool :=
  match s with
  | SrcStage i p => h_stat H (stage_tree b i) p
  | SrcContext p => h_stat H (b_context b) p
  | _ => true
  end.
Definition container_path (c : conf) (p : str) : str := resolveContainerPath (cu_workdir (cf_cur c)) (expand c p).
Definition resolve_mount (b : bld) (m : RunMount) : result isolatedRunMount :=
  let c := b_conf b in
  match rm_Type m with
  | MBind =>
      let target := if nonempty (rm_Target m) then rm_Target m else if nonempty (rm_Source m) then rm_Source m else [slash] in
      src ← resolveBindRunMountSource b m;
      if source_stat b src then Ok (mkIsolated MBind src (container_path c target) (rm_ReadOnly m) 0) else Err HostFailed
  | MCache =>
      if nonempty (rm_Target m) then
        let key := if nonempty (rm_CacheID m) then rm_CacheID m else expand c (rm_Target m) in
        Ok (mkIsolated MCache (SrcCache (sanitizeRunMountCacheKey key)) (container_path c (rm_Target m)) (rm_ReadOnly m) 0)
      else Err MissingArgument
  | MTmpfs =>
      if nonempty (rm_Target m) then Ok (mkIsolated MTmpfs SrcNone (container_path c (rm_Target m)) false (rm_SizeLimit m))
      else Err MissingArgument
  | MSecret =>
      let id := if nonempty (rm_SecretID m) then rm_SecretID m else Base (TrimSpace (rm_Target m)) in
      if negb (nonempty (rm_Target m)) && negb (nonempty id) then Err MissingArgument
      else
        let target := if nonempty (rm_Target m) then rm_Target m else sbytes "/run/secrets/" ++ id in
        found ← host (h_secret H id);
        if (found : bool) then Ok (mkIsolated MBind (SrcSecret id) (container_path c target) true 0)
        else if rm_Required m then Err (SecretRequired id)
        else Ok (mkIsolated MBind SrcEmpty (container_path c target) true 0)
  | MSSH =>
      if rm_Required m then Err NotSupported
      else
        let target := if nonempty (rm_Target m) then rm_Target m else sbytes "/run/buildkit/ssh_agent.0" in
        Ok (mkIsolated MBind SrcEmpty (container_path c target) true 0)
  | MOther => Err NotSupported
  end.
Definition resolveIsolatedRunMounts (b : bld) (ms : list RunMount) : result (list isolatedRunMount) :=
  for_each (collect (resolve_mount b)) ms [].
(** The tree behind a mount, and its contents after the command. *)
Definition mount_tree (b : bld) (m : isolatedRunMount) : option T :=
  match im_Source m with
  | SrcStage i _ => Some (stage_tree b i)
  | SrcContext _ => Some (b_context b)
  | SrcCache key => Some (default (h_empty H) (b_cache b !! key))
  | _ => None
  end.
Definition write_back (mt : isolatedRunMount * option T) (b : bld) : bld :=
  if im_ReadOnly mt.1 then b
  else
    match im_Source mt.1, mt.2 with
    | SrcStage i _, Some t => set_trees b (<[i := t]> (b_trees b))
    | SrcContext _, Some t => mkBuilder (b_conf b) (b_trees b) t (b_cache b) (b_pullCache b) (b_remote b) (b_stages b) (b_byName b) (b_next b)
    | SrcCache key, Some t => mkBuilder (b_conf b) (b_trees b) (b_context b) (<[key := t]> (b_cache b)) (b_pullCache b) (b_remote b) (b_stages b) (b_byName b) (b_next b)
    | _, _ => b
    end.
Definition run_command (spec : RunSpec) (ms : list isolatedRunMount) (b : bld) : result bld :=
  '(t, ts) ← host (h_exec H spec ((fun m => (m, mount_tree b m)) <$> ms) (root_tree b));
  Ok (foldl (fun b mt => write_back mt b) (set_root b t) (zip ms ts)).
Definition runEnvSlice (c : conf) : list str := run_env_slice (ic_Env (cu_config (cf_cur c))) (cf_args c) (cf_argExport c).
Definition handleRUN (i : Instruction) (b : bld) : result bld :=
  match in_Args i with
  | [] => Ok b
  | args =>
      let env := runEnvSlice (b_conf b) in
      t ← host (h_prepare H env (root_tree b));
      let b := set_root b t in
      let spec := mkRunSpec (buildRunCommand (b_cur b) args) env (cu_user (b_cur b)) in
      if h_root H then ms ← resolveIsolatedRunMounts b (in_RunMounts i); run_command spec ms b
      else match in_RunMounts i with [] => run_command spec [] b | _ => Err NotSupported end
  end.

(** *** COPY and ADD *)
(** [strconv.ParseUint(s, 8, 32)] *)
Fixpoint octal_value (acc : Z) (s : str) : option Z :=
  match s with
  | [] => Some acc
  | c :: s => if (48 <=? c) && (c <=? 55) then octal_value (acc * 8 + (c - 48)) s else None
  end.
Definition parseCopyMode (s : str) : option Z :=
  if bool_decide (s = []) then None else v ← octal_value 0 s; if v <? 2 ^ 32 then Some v else None.
Definition parseChecksumSpec (value : str) : option str :=
  '(a, d) ← cut 58 value;
  let digest := ToLower (TrimSpace d) in
  if bool_decide (ToLower (TrimSpace a) = sbytes "sha256") && (zlen digest =? 64) && forallb (fun c => bool_decide (is_Some (hex_digit c))) digest
  then Some digest else None.
Definition option_ok {A} (o : option A) : result A := match o with Some x => Ok x | None => Err BadOption end.
Definition resolveRemoteTransferRoot (ref : str) (b : bld) : result bld :=
  match b_remote b !! ref with
  | Some _ => Ok b
  | None =>
      '(img, b) ← pullImage ref b;
      t ← host (h_extract H img (h_empty H));
      Ok (mkBuilder (b_conf b) (b_trees b) (b_context b) (b_cache b) (b_pullCache b) (<[ref := t]> (b_remote b)) (b_stages b) (b_byName b) (b_next b))
  end.
(** The flags so far: where the files come from, the options and the words. *)
Record parsing := mkParsing { pa_b : bld; pa_root : source_root; pa_opts : copyOptions; pa_words : list str }.
Definition set_opts (p : parsing) (o : copyOptions) : parsing := mkParsing (pa_b p) (pa_root p) o (pa_words p).
Definition parse_from (allowFrom : bool) (arg word : str) (p : parsing) : result parsing :=
  if negb allowFrom then Err (UnsupportedFlag arg)
  else
    ref ← expandStrict (b_conf (pa_b p)) word;
    let o := pa_opts p in
    let o := mkCopyOptions true (co_chown o) (co_chmod o) (co_exclude o) (co_parents o) (co_link o) (co_keepGitDir o) (co_checksum o) (co_unpack o) in
    match lookupStage (pa_b p) ref with
    | Some stage => Ok (mkParsing (pa_b p) (FromStage (bs_rootfs stage)) o (pa_words p))
    | None => b ← resolveRemoteTransferRoot ref (pa_b p); Ok (mkParsing b (FromImage ref) o (pa_words p))
    end.
Definition parse_flag (allowFrom : bool) (arg : str) (p : parsing) : result parsing :=
  let o := pa_opts p in
  let ex := expand (b_conf (pa_b p)) in
  match after f_from arg with
  | Some w => parse_from allowFrom arg w p
  | None =>
  match after f_chown arg with
  | Some w => v ← option_ok (h_owner H (root_tree (pa_b p)) (ex w)); Ok (set_opts p (mkCopyOptions (co_preserveOwnership o) (Some v) (co_chmod o) (co_exclude o) (co_parents o) (co_link o) (co_keepGitDir o) (co_checksum o) (co_unpack o)))
  | None =>
  match after f_chmod arg with
  | Some w => v ← option_ok (parseCopyMode (ex w)); Ok (set_opts p (mkCopyOptions (co_preserveOwnership o) (co_chown o) (Some v) (co_exclude o) (co_parents o) (co_link o) (co_keepGitDir o) (co_checksum o) (co_unpack o)))
  | None =>
  match after f_exclude arg with
  | Some w => Ok (set_opts p (mkCopyOptions (co_preserveOwnership o) (co_chown o) (co_chmod o) (co_exclude o ++ [ex w]) (co_parents o) (co_link o) (co_keepGitDir o) (co_checksum o) (co_unpack o)))
  | None =>
  if bool_decide (arg = f_parents) then Ok (set_opts p (mkCopyOptions (co_preserveOwnership o) (co_chown o) (co_chmod o) (co_exclude o) true (co_link o) (co_keepGitDir o) (co_checksum o) (co_unpack o)))
  else if bool_decide (arg = f_link) then Ok (set_opts p (mkCopyOptions (co_preserveOwnership o) (co_chown o) (co_chmod o) (co_exclude o) (co_parents o) true (co_keepGitDir o) (co_checksum o) (co_unpack o)))
  else
  match after f_keep arg with
  | Some w => v ← option_ok (ParseBool (ex w)); Ok (set_opts p (mkCopyOptions (co_preserveOwnership o) (co_chown o) (co_chmod o) (co_exclude o) (co_parents o) (co_link o) v (co_checksum o) (co_unpack o)))
  | None =>
  match after f_checksum arg with
  | Some w => v ← option_ok (parseChecksumSpec (ex w)); Ok (set_opts p (mkCopyOptions (co_preserveOwnership o) (co_chown o) (co_chmod o) (co_exclude o) (co_parents o) (co_link o) (co_keepGitDir o) (Some v) (co_unpack o)))
  | None =>
  match after f_unpack arg with
  | Some w => v ← option_ok (ParseBool (ex w)); Ok (set_opts p (mkCopyOptions (co_preserveOwnership o) (co_chown o) (co_chmod o) (co_exclude o) (co_parents o) (co_link o) (co_keepGitDir o) (co_checksum o) (Some v)))
  | None =>
  match after [45; 45] arg with
  | Some _ => Err (UnsupportedFlag arg)
  | None => Ok (mkParsing (pa_b p) (pa_root p) o (pa_words p ++ [arg]))
  end end end end end end end end.
Definition no_options : copyOptions := mkCopyOptions false None None [] false false false None None.
Definition parseTransferSpec (allowFrom remote : bool) (args : list str) (b : bld) : result (transferSpec * bld) :=
  p ← for_each (parse_flag allowFrom) args (mkParsing b FromContext no_options []);
  let b := pa_b p in
  let c := b_conf b in
  if negb (bool_decide (co_exclude (pa_opts p) = [])) && negb (h_patterns H (co_exclude (pa_opts p))) then Err BadOption
  else if zlen (pa_words p) <? 2 then Err MissingSource
  else
    let srcs := take (length (pa_words p) - 1) (pa_words p) in
    let dst := expand c (default [] (last (pa_words p))) in
    Ok (mkTransferSpec (pa_root p) remote ((fun s => (s, expand c s)) <$> srcs) dst (resolveContainerPath (cu_workdir (cf_cur c)) dst) (pa_opts p), b).
Definition source_tree (b : bld) (r : source_root) : T :=
  match r with
  | FromContext => b_context b
  | FromStage i => stage_tree b i
  | FromImage ref => default (h_empty H) (b_remote b !! ref)
  end.
Definition handleTransfer (allowFrom remote : bool) (args : list str) (b : bld) : result bld :=
  '(spec, b) ← parseTransferSpec allowFrom remote args b;
  t ← host (h_transfer H spec (source_tree b (ts_root spec)) (root_tree b));
  Ok (set_root b t).

(** *** The whole build *)
Definition step (i : Instruction) (b : bld) : result bld :=
  if negb (bool_decide (in_Cmd i ∈ [ARG; FROM])) && bool_decide (cu_rootfs (b_cur b) = None) then Err NoActiveStage
  else
    match in_Cmd i with
    | FROM => handleFROM i b
    | RUN => handleRUN i b
    | COPY => handleTransfer true false (in_Args i) b
    | ADD => handleTransfer false true (in_Args i) b
    | WORKDIR => handleWORKDIR (in_Args i) b
    | _ => c ← step_conf i (b_conf b); Ok (set_conf b c)
    end.
Definition stage_step (index : Z) (i : Instruction) (b : bld) : result bld :=
  step i (match in_Cmd i with FROM => set_next b index | _ => b end).
Definition run_stage (reachable : Z → bool) (s : plannedStage) (b : bld) : result bld :=
  if reachable (ps_index s) then for_each (stage_step (ps_index s)) (ps_instrs s) b else Ok b.
Definition run_stages (reachable : Z → bool) (stages : list plannedStage) (b : bld) : result bld := for_each (run_stage reachable) stages b.
(** [syncOutput] and the result: the output directory and the configuration. *)
Definition finish (b : bld) : result (T * ImageConfig) :=
  let b := commitCurrentStage b in
  if bool_decide (cu_rootfs (b_cur b) = None) then Err NoFrom
  else t ← host (h_copyDirContents H (root_tree b) (h_empty H)); Ok (t, cu_config (b_cur b)).
Definition execute (instrs : list Instruction) (b : bld) : result (T * ImageConfig) :=
  '(preamble, stages) ← buildStagePlan (h_lex H) instrs (cf_args (b_conf b));
  reachable ← markReachableStages stages;
  b ← for_each step preamble b;
  b ← run_stages (fun i => bool_decide (i ∈ reachable)) stages b;
  finish b.
Definition new_builder (context : T) (buildArgs : gmap str str) : bld :=
  let args := buildArgs ∪ defaultBuildArgs (h_GOOS H) (h_GOARCH H) in
  let none := mkCurrent None empty_config ∅ [] [] [] [] [] (-1) in
  mkBuilder (mkConf none args ((fun _ => true) <$> args)) ∅ context ∅ ∅ ∅ [] ∅ 0.
Definition Build (context : T) (buildArgs : gmap str str) (instrs : list Instruction) : result (T * ImageConfig) :=
  execute instrs (new_builder context buildArgs).
End builder.

(** ** The environment of RUN *)

Lemma cut_free sep s k v : cut sep s = Some (k, v) → sep ∉ k.
Proof.
  revert k. induction s as [|c s IH]; simpl; intros k; [done|]. destruct (Z.eqb_spec c sep); [intros [= <- _]; apply not_elem_of_nil|].
  intros ([a b] & Hc & [= <- <-])%bind_Some. rewrite not_elem_of_cons. split; [done|]. by apply IH.
Qed.
Lemma cut_none sep s : cut sep s = None → sep ∉ s.
Proof.
  induction s as [|c s IH]; simpl; intros Hc; [apply not_elem_of_nil|]. destruct (Z.eqb_spec c sep); [done|].
  rewrite not_elem_of_cons. split; [done|]. apply IH. by destruct (cut sep s) as [[]|].
Qed.
Lemma cut_join sep k v : sep ∉ k → cut sep (k ++ sep :: v) = Some (k, v).
Proof.
  induction k as [|c k IH]; simpl; intros Hn; [by rewrite Z.eqb_refl|]. apply not_elem_of_cons in Hn as [Hc Hn].
  destruct (Z.eqb_spec c sep); [done|]. by rewrite IH.
Qed.

(** A map of variables with the order they were set in. *)
Record wf_env (st : gmap str str * list str) : Prop := {
  we_nodup : NoDup st.2;
  we_dom : ∀ k, k ∈ st.2 ↔ is_Some (st.1 !! k);
}.
Definition eq_free (order : list str) : Prop := Forall (fun k => 61 ∉ k) order.
Lemma wf_insert m order k v :
  wf_env (m, order) → wf_env (<[k := v]> m, if bool_decide (is_Some (m !! k)) then order else order ++ [k]).
Proof.
  intros [Hn Hd]. simpl in *. case_bool_decide as Hk; split; simpl.
  - done.
  - intros j. rewrite lookup_insert_is_Some'. naive_solver.
  - apply NoDup_app. splits; [done | | apply NoDup_singleton]. intros x Hx ->%list_elem_of_singleton. naive_solver.
  - intros j. rewrite elem_of_app, list_elem_of_singleton, lookup_insert_is_Some', Hd. naive_solver.
Qed.
Lemma wf_default st k v : wf_env st → wf_env (addDefault k v st).
Proof.
  intros Hw. unfold addDefault. case_bool_decide as Hk; [done|]. pose proof (wf_insert st.1 st.2 k v) as Hi.
  rewrite bool_decide_false in Hi by done. apply Hi. by destruct st.
Qed.
Lemma eq_free_insert (m : gmap str str) order k : eq_free order → 61 ∉ k → eq_free (if bool_decide (is_Some (m !! k)) then order else order ++ [k]).
Proof. intros Ho Hk. case_bool_decide; [done|]. apply Forall_app. split; [done | by apply Forall_singleton]. Qed.
Lemma wf_empty : wf_env (∅, []).
Proof. split; simpl; [apply NoDup_nil_2|]. intros k. rewrite lookup_empty. split; [by intros ?%not_elem_of_nil | by intros []]. Qed.
Lemma envMap_wf l : wf_env (envMap l) ∧ eq_free (envMap l).2.
Proof.
  unfold envMap. assert (Hs : wf_env (∅, []) ∧ eq_free []) by (split; [apply wf_empty | apply Forall_nil_2]).
  change [] with (∅ : gmap str str, @nil str).2 in Hs at 2. revert Hs. generalize (∅ : gmap str str, @nil str) as st.
  induction l as [|e l IH]; intros [m order] [Hw Hf]; simpl; [done|]. apply IH. unfold env_entry.
  destruct (cut 61 e) as [[k v]|] eqn:E; simpl; [|done]. split; [by apply wf_insert | by apply eq_free_insert; [|apply (cut_free 61 e k v)]].
Qed.

(** Reading back what [envSliceOrdered] prints. *)
Lemma slice_all (m : gmap str str) order : wf_env (m, order) → envSliceOrdered m order = kv m <$> order.
Proof. intros [_ Hd]. unfold envSliceOrdered. rewrite filter_all; [done|]. intros k. apply Hd. Qed.
Lemma env_entry_kv (e : gmap str str) st k :
  61 ∉ k → env_entry st (kv e k) = (<[k := default [] (e !! k)]> st.1, if bool_decide (is_Some (st.1 !! k)) then st.2 else st.2 ++ [k]).
Proof. intros Hk. unfold env_entry, kv, equals. simpl. by rewrite cut_join. Qed.
Lemma envMap_slice (env : gmap str str) order : wf_env (env, order) → eq_free order → envMap (envSliceOrdered env order) = (env, order).
Proof.
  intros Hw Hf. rewrite slice_all by done. destruct Hw as [Hn Hd]. simpl in *.
  assert (Hgen : ∀ ks done m, NoDup (done ++ ks) → eq_free ks → (∀ k, k ∈ done ↔ is_Some (m !! k)) →
    foldl env_entry (m, done) (kv env <$> ks) = (foldl (fun m k => <[k := default [] (env !! k)]> m) m ks, done ++ ks)).
  { induction ks as [|k ks IH]; intros dn m Hnd Hfr Hdm; simpl; [by rewrite app_nil_r|]. apply Forall_cons in Hfr as [Hk Hfr].
    rewrite env_entry_kv by done. simpl. rewrite bool_decide_false; [|intros HS; apply Hdm in HS; apply NoDup_app in Hnd as (_ & Hdis & _); apply (Hdis k HS); left].
    rewrite IH; [by rewrite <- (assoc_L (++)) | by rewrite <- (assoc_L (++)) | done|].
    intros j. rewrite elem_of_app, list_elem_of_singleton, lookup_insert_is_Some', Hdm. naive_solver. }
  unfold envMap. rewrite (Hgen order [] ∅); [|done|done|intros k; rewrite lookup_empty; split; [by intros ?%not_elem_of_nil | by intros []]].
  f_equal. apply map_eq. intros k.
  assert (Hl : ∀ ks (m : gmap str str), foldl (fun m k => <[k := default [] (env !! k)]> m) m ks !! k = if bool_decide (k ∈ ks) then Some (default [] (env !! k)) else m !! k).
  { induction ks as [|j ks IH]; intros m; cbn [foldl]; [rewrite bool_decide_false; [done | apply not_elem_of_nil]|]. rewrite IH.
    destruct (decide (k ∈ ks)) as [Hin|Hin]; [rewrite !bool_decide_true by set_solver; done|]. rewrite bool_decide_false by done.
    destruct (decide (j = k)) as [->|Hj]; [rewrite bool_decide_true by set_solver; by rewrite lookup_insert_eq | rewrite bool_decide_false by set_solver; by rewrite lookup_insert_ne]. }
  rewrite Hl, lookup_empty. case_bool_decide as Hin; [apply Hd in Hin as [v ->]; done|]. symmetry. apply eq_None_not_Some. by rewrite <- Hd.
Qed.

(** The variables of the configuration are those the builder expands with. *)
Definition env_inv (c : current) : Prop := envMap (ic_Env (cu_config c)) = (cu_env c, cu_envOrder c).
Lemma setEnv_inv key value c : 61 ∉ key → env_inv c → env_inv (setEnv key value c).
Proof.
  unfold env_inv, setEnv. simpl. intros Hk Hc. destruct (envMap_wf (ic_Env (cu_config c))) as [Hw Hf]. rewrite Hc in Hw, Hf.
  apply envMap_slice; [by apply wf_insert | by apply eq_free_insert].
Qed.

Section environment.
Context {T Img : Type} (H : Host T Img).

(** Every declared argument is exported. *)
Definition exported (c : conf) : Prop := ∀ k, cf_argExport c !! k = Some true ↔ is_Some (cf_args c !! k).
Definition conf_inv (c : conf) : Prop := env_inv (cf_cur c) ∧ exported c.
Definition record_inv (s : buildStage) : Prop := envMap (ic_Env (bs_config s)) = (bs_env s, bs_envOrder s).
Definition builder_inv (b : builder T Img) : Prop := conf_inv (b_conf b) ∧ map_Forall (fun _ s => record_inv s) (b_byName b).

Lemma set_arg_inv k v c : conf_inv c → conf_inv (set_arg k v c).
Proof.
  intros [He Hx]. split; [done|]. intros j. simpl. destruct (decide (k = j)) as [->|Hj].
  - rewrite !lookup_insert_eq. split; [intros _; by eexists | done].
  - rewrite !lookup_insert_ne by done. apply Hx.
Qed.
Lemma for_each_inv {E X St} (f : X → St → res E St) (P : St → Prop) xs s s' :
  (∀ x s s', P s → f x s = Ok s' → P s') → P s → for_each f xs s = Ok s' → P s'.
Proof.
  intros Hf. revert s. induction xs as [|x xs IH]; intros s Hs; simpl; [by intros [= <-]|].
  intros (s1 & H1 & H2)%bind_Ok. eauto.
Qed.
Lemma env_pair_inv part c c' : conf_inv c → env_pair H part c = Ok c' → conf_inv c'.
Proof.
  intros [He Hx] Hs. unfold env_pair in Hs. destruct (cut 61 part) as [[k v]|] eqn:E; [|done].
  apply bind_Ok in Hs as ([value u] & _ & [= <-]). split; [|done]. apply setEnv_inv; [by apply (cut_free 61 part k v) | done].
Qed.
Lemma upd_config_inv c f : (∀ ic, ic_Env (f ic) = ic_Env ic) → conf_inv c → conf_inv (upd_config c f).
Proof. intros Hf [He Hx]. split; [|done]. unfold env_inv in *. simpl. by rewrite Hf. Qed.
Lemma foldl_inv {A B} (P : A → Prop) (f : A → B → A) l a : (∀ a b, P a → P (f a b)) → P a → P (foldl f a l).
Proof. intros Hf. revert a. induction l as [|b l IH]; intros a Ha; simpl; auto. Qed.

Lemma step_conf_inv i c c' : conf_inv c → step_conf H i c = Ok c' → conf_inv c'.
Proof.
  intros Hc Hs. unfold step_conf in Hs. destruct (in_Cmd i).
  - by injection Hs as <-.
  - by injection Hs as <-.
  - by injection Hs as <-.
  - by injection Hs as <-.
  - unfold handleENV in Hs. destruct (in_Args i) as [|key rest]; [by injection Hs as <-|]. destruct (word_form _) eqn:W; [|revert Hs; by apply for_each_inv; [apply env_pair_inv|]].
    apply bind_Ok in Hs as ([value u] & _ & [= <-]). destruct Hc as [He Hx]. split; [|done]. apply setEnv_inv; [|done].
    unfold word_form in W. destruct rest; [done|]. by apply bool_decide_eq_true, cut_none in W.
  - revert Hs. apply for_each_inv; [|done]. intros a c1 c2 H1 H2. unfold arg_default in H2. destruct (cut 61 a) as [[k v]|]; case_bool_decide; simplify_eq; try done.
    + apply bind_Ok in H2 as ([value u] & _ & [= <-]). by apply set_arg_inv.
    + by apply set_arg_inv.
  - by injection Hs as <-.
  - destruct (in_Args i); [done|]. by injection Hs as <-.
  - injection Hs as <-. apply foldl_inv; [|done]. intros. by apply upd_config_inv.
  - assert (Hl : ∀ k v c, conf_inv c → conf_inv (setLabel k v c)) by done. unfold handleLABEL in Hs. destruct (in_Args i) as [|key rest]; [by injection Hs as <-|].
    destruct (word_form _); [apply bind_Ok in Hs as ([value u] & _ & [= <-]); by apply Hl|].
    revert Hs. apply for_each_inv; [|done]. intros p c1 c2 H1 H2. unfold label_pair in H2. destruct (cut 61 p) as [[k v]|]; [|done].
    apply bind_Ok in H2 as ([value u] & _ & [= <-]). by apply Hl.
  - injection Hs as <-. by apply upd_config_inv.
  - injection Hs as <-. by apply upd_config_inv.
  - injection Hs as <-. apply foldl_inv; [|done]. intros. by apply upd_config_inv.
  - apply bind_Ok in Hs as (hc & _ & [= <-]). by apply upd_config_inv.
  - destruct (in_Args i); [done|]. by injection Hs as <-.
  - destruct (in_Args i); [done|]. injection Hs as <-. by apply upd_config_inv.
  - by injection Hs as <-.
  - by injection Hs as <-.
Qed.

(** What RUN, COPY and ADD leave alone. *)
Record keeps (b b' : builder T Img) : Prop := {
  ke_conf : b_conf b' = b_conf b;
  ke_names : b_byName b' = b_byName b;
}.
#[local] Instance keeps_preorder : PreOrder keeps.
Proof. split; [by intros b | intros b1 b2 b3 [H1 H2] [H3 H4]; split; congruence]. Qed.
Lemma keeps_root b t : keeps b (set_root b t).
Proof. done. Qed.
Lemma pull_keeps ref b img b' : pullImage H ref b = Ok (img, b') → keeps b b'.
Proof.
  unfold pullImage. destruct (b_pullCache b !! ref); [by intros [= <- <-]|]. intros (i & _ & [= <- <-])%bind_Ok. done.
Qed.
Lemma remote_keeps ref b b' : resolveRemoteTransferRoot H ref b = Ok b' → keeps b b'.
Proof.
  unfold resolveRemoteTransferRoot. destruct (b_remote b !! ref); [by intros [= <-]|].
  intros ([img b1] & H1 & (t & _ & [= <-])%bind_Ok)%bind_Ok. by apply pull_keeps in H1 as [? ?].
Qed.
Lemma parse_flag_keeps allowFrom arg p p' : parse_flag H allowFrom arg p = Ok p' → keeps (pa_b p) (pa_b p').
Proof.
  unfold parse_flag, parse_from, option_ok. intros Hp.
  repeat match type of Hp with
  | context [match ?o with Some _ => _ | None => _ end] => destruct o eqn:?
  | context [if ?o then _ else _] => destruct o
  | mbind _ _ = Ok _ => apply bind_Ok in Hp as (? & ? & Hp)
  end; simplify_eq; simpl in *; simplify_eq; try done. by eapply remote_keeps.
Qed.
Lemma parse_keeps allowFrom remote args b spec b' : parseTransferSpec H allowFrom remote args b = Ok (spec, b') → keeps b b'.
Proof.
  unfold parseTransferSpec. intros (p & Hp & H1)%bind_Ok.
  assert (Hk : keeps b (pa_b p)).
  { revert Hp. apply (for_each_inv (parse_flag H allowFrom) (fun p => keeps b (pa_b p))); [|done]. intros a p1 p2 H2 H3%parse_flag_keeps. by etrans. }
  destruct (_ && _); [done|]. destruct (_ <? 2); [done|]. by injection H1 as <- <-.
Qed.
Lemma transfer_keeps allowFrom remote args b b' : handleTransfer H allowFrom remote args b = Ok b' → keeps b b'.
Proof.
  unfold handleTransfer. intros ([spec b1] & H1%parse_keeps & (t & _ & [= <-])%bind_Ok)%bind_Ok. etrans; [done|]. apply keeps_root.
Qed.
Lemma write_back_keeps mt b : keeps b (write_back mt b).
Proof. unfold write_back. by destruct (im_ReadOnly mt.1), (im_Source mt.1), (mt.2). Qed.
Lemma run_command_keeps spec ms b b' : run_command H spec ms b = Ok b' → keeps b b'.
Proof.
  unfold run_command. intros ([t ts] & _ & [= <-])%bind_Ok. etrans; [apply (keeps_root b t)|].
  generalize (set_root b t) as b1. generalize (zip ms ts) as l. induction l as [|mt l IH]; intros b1; [done|]. simpl. etrans; [apply write_back_keeps | apply IH].
Qed.
Lemma handleRUN_keeps i b b' : handleRUN H i b = Ok b' → keeps b b'.
Proof.
  unfold handleRUN. destruct (in_Args i); [by intros [= <-]|]. intros (t & _ & H1)%bind_Ok. etrans; [apply (keeps_root b t)|].
  destruct (h_root H); [apply bind_Ok in H1 as (ms & _ & H1) | destruct (in_RunMounts i); [|done]]; by apply run_command_keeps in H1.
Qed.

Lemma load_base_inv image b b' : builder_inv b → load_base H image b = Ok b' → builder_inv b'.
Proof.
  intros [[He Hx] Hn] Hl. unfold load_base in Hl. case_bool_decide; [by injection Hl as <-|]. unfold lookupStage in Hl.
  destruct (b_byName b !! image) as [s|] eqn:E.
  - apply bind_Ok in Hl as (t & _ & [= <-]). split; [|done]. split; [|done]. by apply (Hn image s).
  - apply bind_Ok in Hl as ([img b1] & Hp & (t & _ & [= <-])%bind_Ok). apply pull_keeps in Hp as [Hc Hb]. split; [|simpl; by rewrite Hb].
    split; [|intros k; simpl; rewrite Hc; apply Hx]. unfold env_inv, inheritBaseConfig. simpl. by destruct (envMap (ic_Env (h_config H img))) eqn:E2.
Qed.
Lemma commit_inv b : builder_inv b → builder_inv (commitCurrentStage b).
Proof.
  intros [[He Hx] Hn]. unfold commitCurrentStage. destruct (stage_record (b_cur b)) as [s|] eqn:E; [|done]. split; [done|]. simpl.
  assert (Hs : record_inv s) by (unfold stage_record in E; destruct (cu_rootfs (b_cur b)); [|done]; by injection E as <-).
  unfold add_name. case_match; repeat (apply map_Forall_insert_2; [done|]); done.
Qed.
Lemma step_inv i b b' : builder_inv b → step H i b = Ok b' → builder_inv b'.
Proof.
  intros Hb Hs. unfold step in Hs. destruct (negb _ && _); [done|]. assert (Hk : ∀ b', keeps b b' → builder_inv b').
  { intros b1 [Hc Hn]. destruct Hb as [Hb1 Hb2]. split; [by rewrite Hc | by rewrite Hn]. }
  assert (Hcf : ∀ b', (c ← step_conf H i (b_conf b); Ok (set_conf b c)) = Ok b' → builder_inv b').
  { intros b1 (c & Hc & [= <-])%bind_Ok. destruct Hb as [Hb1 Hb2]. split; [|done]. by apply (step_conf_inv i (b_conf b)). }
  destruct (in_Cmd i) eqn:Ec; try (by apply Hcf).
  - unfold handleFROM in Hs. apply bind_Ok in Hs as ([image alias] & _ & Hs). apply bind_Ok in Hs as (im & _ & Hs).
    case_bool_decide; [done|]. apply bind_Ok in Hs as ([] & _ & Hs). revert Hs. apply load_base_inv.
    destruct (commit_inv b Hb) as [[He Hx] Hn]. by split.
  - by apply Hk, (handleRUN_keeps i).
  - by eapply Hk, transfer_keeps.
  - by eapply Hk, transfer_keeps.
  - unfold handleWORKDIR in Hs. destruct (in_Args i); [by injection Hs as <-|]. apply bind_Ok in Hs as ([dir u] & _ & Hs).
    apply bind_Ok in Hs as (t & _ & [= <-]). destruct Hb as [[He Hx] Hn]. by split.
Qed.
End environment.

(** The variables that a RUN sees by default. *)
Definition run_defaults : gmap str str := list_to_map [(k_PATH, v_PATH); (k_HOME, v_HOME); (k_TMPDIR, v_TMPDIR); (k_GIT, v_GIT)].

Lemma addDefault_lookup k v st : (addDefault k v st).1 = st.1 ∪ {[k := v]}.
Proof.
  apply map_eq. intros j. unfold addDefault. case_bool_decide as Hk; simpl; rewrite lookup_union.
  - destruct (decide (k = j)) as [->|Hj]; [|rewrite (lookup_singleton_ne k) by done; by destruct (st.1 !! j)].
    rewrite lookup_singleton_eq. by destruct Hk as [x ->].
  - apply eq_None_not_Some in Hk. destruct (decide (k = j)) as [->|Hj]; [rewrite lookup_insert_eq, Hk, lookup_singleton_eq; done|].
    rewrite lookup_insert_ne, (lookup_singleton_ne k) by done. by destruct (st.1 !! j).
Qed.
Lemma fold_defaults (args : gmap str str) ks st :
  wf_env st → let st' := foldl (fun st key => addDefault key (default [] (args !! key)) st) st ks in
  wf_env st' ∧ ∀ j, st'.1 !! j = if bool_decide (is_Some (st.1 !! j)) then st.1 !! j else if bool_decide (j ∈ ks) then Some (default [] (args !! j)) else None.
Proof.
  revert st. induction ks as [|k ks IH]; intros st Hw; cbn [foldl].
  - split; [done|]. intros j. rewrite (bool_decide_false (j ∈ [])) by apply not_elem_of_nil. case_bool_decide as Hj; [done|]. by apply eq_None_not_Some in Hj.
  - destruct (IH (addDefault k (default [] (args !! k)) st)) as [Hw' Hl]; [by apply wf_default|]. split; [done|]. intros j. rewrite Hl, addDefault_lookup, lookup_union.
    destruct (st.1 !! j) as [x|] eqn:Ej; [by rewrite (right_id_L None (∪)) || (destruct (decide (k = j)) as [->|]; [rewrite lookup_singleton_eq | rewrite lookup_singleton_ne by done])|].
    destruct (decide (k = j)) as [->|Hj].
    + rewrite lookup_singleton_eq. simpl. by rewrite (bool_decide_true (j ∈ j :: ks)) by left.
    + rewrite lookup_singleton_ne by done. simpl. rewrite (bool_decide_ext (j ∈ k :: ks) (j ∈ ks)); [done|]. rewrite elem_of_cons. naive_solver.
Qed.
Lemma run_env_spec env args export :
  (∀ k, export !! k = Some true ↔ is_Some (args !! k)) →
  wf_env (run_env env args export) ∧ (run_env env args export).1 = (envMap env).1 ∪ args ∪ run_defaults.
Proof.
  intros Hx. unfold run_env. destruct (fold_defaults args (filter (fun k => export !! k = Some true) (sorted_keys args)) (envMap env)) as [Hw Hl]; [apply envMap_wf|].
  set (st := foldl _ _ _) in *. split; [by do 4 apply wf_default|]. rewrite !addDefault_lookup.
  assert (Hst : st.1 = (envMap env).1 ∪ args).
  { apply map_eq. intros j. rewrite Hl, lookup_union. destruct ((envMap env).1 !! j) as [x|]; simpl; [by destruct (args !! j)|].
    rewrite (left_id_L None (∪)). case_bool_decide as Hj; rewrite list_elem_of_filter, elem_sorted_keys, Hx in Hj.
    - by destruct Hj as [[y ->] _].
    - destruct (args !! j) eqn:E; [|done]. destruct Hj. split; by eexists. }
  rewrite Hst, <- !(assoc_L (∪)). f_equal.
Qed.

Lemma new_builder_inv {T Img} (H : Host T Img) context buildArgs : builder_inv (new_builder H context buildArgs).
Proof.
  split; [|apply map_Forall_empty]. split; [done|]. intros k. unfold new_builder. cbn [cf_argExport cf_args b_conf]. rewrite lookup_fmap.
  destruct (_ !! k) as [x|]; cbn [fmap option_fmap option_map]; split; [intros _; by eexists | done | done | by intros []].
Qed.

(** C33: in every state the instructions of a Dockerfile can reach, the
    environment of a RUN lists each variable once: the variables set by ENV and
    the base image, then the declared build arguments that they do not shadow,
    then PATH, HOME, TMPDIR and GIT_CONFIG_GLOBAL when they are not set; and the
    variables in the configuration of the image are those the builder expands
    words with, in the order they were first set. *)
Theorem run_environment {T Img} (H : Host T Img) context buildArgs instrs b :
  for_each (step H) instrs (new_builder H context buildArgs) = Ok b →
  let c := b_conf b in
  envMap (ic_Env (cu_config (cf_cur c))) = (cu_env (cf_cur c), cu_envOrder (cf_cur c)) ∧
  let vars := cu_env (cf_cur c) ∪ cf_args c ∪ run_defaults in
  ∃ order, runEnvSlice c = kv vars <$> order ∧ NoDup order ∧ ∀ k, k ∈ order ↔ is_Some (vars !! k).
Proof.
  intros Hr. assert (Hb : builder_inv b) by by eapply for_each_inv; [intros; by eapply step_inv | apply new_builder_inv|].
  destruct Hb as [[He Hx] _]. unfold env_inv in He. cbv zeta. split; [done|]. set (c := b_conf b) in *.
  destruct (run_env_spec (ic_Env (cu_config (cf_cur c))) _ _ Hx) as [[Hn Hd] Hm]. rewrite He in Hm. cbn [fst] in Hm.
  exists (run_env (ic_Env (cu_config (cf_cur c))) (cf_args c) (cf_argExport c)).2. split; [unfold runEnvSlice, run_env_slice; cbv zeta; by rewrite Hm|].
  split; [done|]. intros k. rewrite <- Hm. apply Hd.
Qed.
