(* ===== verification/DockerPlan.v ===== *)
(** * The stages a build needs (src/internal/dockerfile/dockerfile.go)

    The builder executes only the stages that the last one refers to, directly or
    through others.  This file shows that [markReachableStages] finds exactly
    those, and that leaving out the others does not change the result: a
    simulation between the build of all stages and the pruned one, which agree on
    the directories of the needed stages. *)
From stdpp Require Import relations.
From S2P Require Import Prelude Stream Fdt RuntimeCfg Preview GoText Compose StackNet Dockerfile.

(** ** The plan *)

(** Stage [i] refers to stage [j]. *)
Definition refers (stages : list plannedStage) (i j : nat) : Prop := ∃ s, stages !! i = Some s ∧ j ∈ stage_deps stages i s.
(** The stage at a position carries its number. *)
Definition indexed (stages : list plannedStage) : Prop := ∀ i s, stages !! i = Some s → ps_index s = Z.of_nat i.
(** A stage is a FROM and instructions that are none. *)
Definition one_stage (s : plannedStage) : Prop :=
  ∃ i rest, ps_instrs s = i :: rest ∧ in_Cmd i = FROM ∧ Forall (fun i => in_Cmd i ≠ FROM) rest.

Lemma resolve_below stages pos ref j : resolvePlannedStageRef stages pos ref = Some j → (j < pos)%nat ∧ ∃ s, stages !! j = Some s ∧ stage_matches s ref.
Proof.
  induction pos as [|i IH]; simpl; [done|]. destruct (stages !! i) as [s|] eqn:E; [|done]. destruct (stage_matches s ref) eqn:M.
  - intros [= <-]. split; [lia|]. exists s. by rewrite M.
  - intros Hj. destruct (IH Hj) as [Hlt Hs]. split; [lia | done].
Qed.
Lemma refers_lt stages i j : refers stages i j → (j < i)%nat.
Proof. intros (s & _ & (r & _ & Hr)%list_elem_of_omap). by apply resolve_below in Hr as [? _]. Qed.

(** The stages that are still to be expanded, with the pushes they cost. *)
Definition cost (stages : list plannedStage) (marked : gset Z) : nat :=
  sum_list ((fun s => if bool_decide (ps_index s ∈ marked) then 0%nat else S (length (ps_deps s))) <$> stages).
Lemma cost_cons s stages marked :
  cost (s :: stages) marked = ((if bool_decide (ps_index s ∈ marked) then 0 else S (length (ps_deps s))) + cost stages marked)%nat.
Proof. done. Qed.
Lemma cost_mono stages k marked : (cost stages ({[k]} ∪ marked) ≤ cost stages marked)%nat.
Proof.
  induction stages as [|s stages IH]; [done|]. rewrite !cost_cons.
  destruct (decide (ps_index s ∈ marked)); [rewrite !bool_decide_true by set_solver; lia|]. rewrite (bool_decide_false (ps_index s ∈ marked)) by done.
  case_bool_decide; lia.
Qed.
Lemma cost_expand stages i s marked :
  stages !! i = Some s → ps_index s ∉ marked → (cost stages ({[ps_index s]} ∪ marked) + S (length (ps_deps s)) ≤ cost stages marked)%nat.
Proof.
  intros Hi Hn. revert i Hi. induction stages as [|x stages IH]; intros i Hi; [done|]. rewrite !cost_cons. destruct i as [|i].
  - injection Hi as ->. rewrite bool_decide_true by set_solver. rewrite bool_decide_false by done. pose proof (cost_mono stages (ps_index s) marked). lia.
  - specialize (IH i Hi). destruct (decide (ps_index x ∈ marked)); [rewrite !bool_decide_true by set_solver; lia|]. rewrite (bool_decide_false (ps_index x ∈ marked)) by done.
    case_bool_decide; lia.
Qed.
Lemma stage_deps_length stages i s : (length (stage_deps stages i s) ≤ S (length (ps_deps s)))%nat.
Proof.
  unfold stage_deps. change (S (length (ps_deps s))) with (length (ps_fromRef s :: ps_deps s)). generalize (ps_fromRef s :: ps_deps s) as l.
  induction l as [|x l IH]; csimpl; [done|]. destruct (resolvePlannedStageRef stages i x); csimpl; lia.
Qed.

Section mark.
Context (stages : list plannedStage) (top : nat).
Hypothesis Hidx : indexed stages.

(** The loop's invariant: the stack and the marks hold stages that [top] needs,
    and what a marked stage refers to is marked or on the stack. *)
Record marking (stack : list nat) (marked : gset Z) : Prop := {
  mk_stack : ∀ i, i ∈ stack → (i < length stages)%nat ∧ rtc (refers stages) top i;
  mk_marked : ∀ z, z ∈ marked → ∃ i, z = Z.of_nat i ∧ (i < length stages)%nat ∧ rtc (refers stages) top i;
  mk_closed : ∀ i j, Z.of_nat i ∈ marked → refers stages i j → Z.of_nat j ∈ marked ∨ j ∈ stack;
  mk_top : Z.of_nat top ∈ marked ∨ top ∈ stack;
}.
Lemma marking_skip i s stack marked : stages !! i = Some s → ps_index s ∈ marked → marking (i :: stack) marked → marking stack marked.
Proof.
  intros Hi Hm [H1 H2 H3 H4]. rewrite (Hidx _ _ Hi) in Hm. split; [intros j Hj; apply H1; by right | done | |].
  - intros a j Ha Hr. destruct (H3 a j Ha Hr) as [?|[-> | ?]%elem_of_cons]; auto.
  - destruct H4 as [?|[-> | ?]%elem_of_cons]; auto.
Qed.
Lemma marking_expand i s stack marked :
  stages !! i = Some s → marking (i :: stack) marked → marking (rev (stage_deps stages i s) ++ stack) ({[ps_index s]} ∪ marked).
Proof.
  intros Hi [H1 H2 H3 H4]. pose proof (Hidx _ _ Hi) as Hs. destruct (H1 i) as [Hlt Hr]; [left|].
  assert (Hd : ∀ j, j ∈ rev (stage_deps stages i s) ↔ j ∈ stage_deps stages i s) by (intros j; by rewrite !list_elem_of_In, <- in_rev).
  split.
  - intros j [Hj%Hd | Hj]%elem_of_app; [|apply H1; by right]. assert (Hij : refers stages i j) by by exists s.
    pose proof (refers_lt _ _ _ Hij). split; [lia|]. eapply rtc_r; eauto.
  - intros z [Hz%elem_of_singleton | Hz]%elem_of_union; [exists i; by rewrite Hz | by apply H2].
  - intros a j [Ha%elem_of_singleton | Ha]%elem_of_union Haj.
    + rewrite Hs in Ha. apply Nat2Z.inj in Ha as ->. right. apply elem_of_app. left. apply Hd. destruct Haj as (s' & Hs' & Hj). by simplify_eq.
    + destruct (H3 a j Ha Haj) as [?|[-> | ?]%elem_of_cons]; [left; set_solver | left; rewrite Hs; set_solver | right; set_solver].
  - destruct H4 as [?|[-> | ?]%elem_of_cons]; [left; set_solver | left; rewrite Hs; set_solver | right; set_solver].
Qed.
Lemma mark_loop_spec fuel stack marked :
  marking stack marked → (length stack + cost stages marked < fuel)%nat →
  ∃ out, mark_loop fuel stages stack marked = Ok out ∧ marking [] out.
Proof.
  revert stack marked. induction fuel as [|fuel IH]; intros stack marked Hm Hf; [lia|]. simpl. destruct stack as [|i stack]; [by exists marked|].
  destruct (mk_stack _ _ Hm i) as [Hlt _]; [left|]. destruct (lookup_lt_is_Some_2 stages i Hlt) as [s Hi]. rewrite Hi. simpl.
  case_bool_decide as Hin; [apply IH; [by eapply marking_skip | simpl in Hf; lia]|]. apply IH; [by apply marking_expand|].
  pose proof (cost_expand _ _ _ marked Hi Hin). pose proof (stage_deps_length stages i s). rewrite length_app, length_rev. simpl in Hf. lia.
Qed.
End mark.

Lemma mark_exact stages :
  indexed stages → ∃ out, markReachableStages stages = Ok out ∧
  ∀ i, Z.of_nat i ∈ out ↔ (i < length stages)%nat ∧ rtc (refers stages) (length stages - 1)%nat i.
Proof.
  intros Hidx. destruct (decide (stages = [])) as [-> | Hne]; [exists ∅; split; [done|]; intros i; simpl; split; [set_solver | lia]|].
  assert (Hm : markReachableStages stages = mark_loop (mark_fuel stages) stages [(length stages - 1)%nat] ∅) by by destruct stages.
  rewrite Hm. assert (Hlen : (0 < length stages)%nat) by (destruct stages; [done | simpl; lia]).
  destruct (mark_loop_spec stages (length stages - 1)%nat Hidx (mark_fuel stages) [(length stages - 1)%nat] ∅) as (out & Ho & [_ H2 H3 H4]).
  - split; [intros i ->%list_elem_of_singleton; split; [lia | done] | set_solver | set_solver | right; set_solver].
  - assert (Heq : cost stages ∅ = sum_list ((fun s => S (length (ps_deps s))) <$> stages)) by (unfold cost; f_equal).
    unfold mark_fuel. rewrite Heq. simpl. lia.
  - exists out. split; [done|]. intros i. split.
    + intros Hi. destruct (H2 _ Hi) as (j & ->%Nat2Z.inj & Hj). done.
    + intros [_ Hr]. assert (Htop : Z.of_nat (length stages - 1) ∈ out) by (destruct H4 as [?|Hn]; [done | by apply not_elem_of_nil in Hn]).
      assert (Hgo : ∀ x y, rtc (refers stages) x y → Z.of_nat x ∈ out → Z.of_nat y ∈ out); [|by apply (Hgo _ _ Hr)].
      induction 1 as [|x y z Hxy _ IH]; [done|]. intros Hx. apply IH. destruct (H3 x y Hx Hxy) as [?|Hn]; [done | by apply not_elem_of_nil in Hn].
Qed.

(** *** What the plan says of a Dockerfile *)

Section plan.
Context (lex : str → list str → option (str * list str)).

(** The arguments that the instructions before the first stage declare. *)
Definition arg_step (args : gmap str str) (i : Instruction) : gmap str str :=
  match in_Cmd i with ARG => applyArgDefaults lex args (in_Args i) | _ => args end.
Definition plan_args (seed : gmap str str) (preamble : list Instruction) : gmap str str := foldl arg_step seed preamble.

Lemma applyArgDefault_grows args a : args ⊆ applyArgDefault lex args a.
Proof.
  unfold applyArgDefault. assert (Hi : ∀ (k : str) v, ¬ is_Some (args !! k) → args ⊆ <[k := v]> args) by (intros k v Hk; apply insert_subseteq; by apply eq_None_not_Some).
  destruct (cut 61 a) as [[k v]|]; case_bool_decide; try done; [|by apply Hi]. case_match; by apply Hi.
Qed.
Lemma arg_step_grows args i : args ⊆ arg_step args i.
Proof.
  unfold arg_step, applyArgDefaults. destruct (in_Cmd i); try done. generalize (in_Args i) as l. intros l. revert args. induction l as [|a l IH]; intros args; [done|].
  simpl. etrans; [apply applyArgDefault_grows | apply IH].
Qed.

(** The references of a stage, as they are planned: each word is expanded with
    arguments that include those of the preamble. *)
Record stage_planned (A : gmap str str) (s : plannedStage) : Prop := {
  sp_from : ∃ i rest image args, ps_instrs s = i :: rest ∧ in_Cmd i = FROM ∧ Forall (fun i => in_Cmd i ≠ FROM) rest ∧
    parseFromArgs (in_Args i) = Ok (image, ps_alias s) ∧ A ⊆ args ∧ expandBuildArgValue lex args image = Ok (ps_fromRef s);
  sp_refs : ∀ i w, i ∈ ps_instrs s → w ∈ ref_words i → ∃ args v, A ⊆ args ∧ expandBuildArgValue lex args w = Ok v ∧ v ∈ ps_deps s;
}.
Record plan_inv (seed : gmap str str) (seen : list Instruction) (p : planning) : Prop := {
  pi_args : plan_args seed (pl_preamble p) ⊆ pl_args p;
  pi_start : pl_current p = None → pl_args p = plan_args seed (pl_preamble p) ∧ pl_stages p = [];
  pi_preamble : Forall (fun i => in_Cmd i ≠ FROM) (pl_preamble p);
  pi_all : seen = pl_preamble p ++ concat (ps_instrs <$> finished p);
  pi_indexed : indexed (finished p);
  pi_stages : Forall (stage_planned (plan_args seed (pl_preamble p))) (finished p);
}.

Lemma indexed_snoc stages s : indexed stages → ps_index s = zlen stages → indexed (stages ++ [s]).
Proof.
  intros Hi Hs i x [Hx | [Hl Hx]]%lookup_app_Some; [by apply Hi|]. apply list_lookup_singleton_Some in Hx as [Hz <-]. rewrite Hs. unfold zlen. lia.
Qed.
Lemma indexed_last stages s s' : indexed (stages ++ [s]) → ps_index s' = ps_index s → indexed (stages ++ [s']).
Proof.
  intros Hi Hs i x [Hx | [Hl Hx]]%lookup_app_Some; [apply Hi; by apply lookup_app_l_Some|]. apply list_lookup_singleton_Some in Hx as [Hz <-].
  rewrite Hs. apply Hi. rewrite lookup_app_r by done. by rewrite Hz.
Qed.
Lemma refs_collect args ws vs out : for_each (collect (expandBuildArgValue lex args)) ws vs = Ok out →
  vs ⊆ out ∧ ∀ w, w ∈ ws → ∃ v, expandBuildArgValue lex args w = Ok v ∧ v ∈ out.
Proof.
  revert vs. induction ws as [|w ws IH]; intros vs; simpl; [intros [= <-]; split; [done | by intros w ?%not_elem_of_nil]|].
  intros (vs1 & (v & Hv & [= <-])%bind_Ok & H2)%bind_Ok. destruct (IH _ H2) as [Hs Hw]. split; [set_solver|].
  intros w' [-> | Hin]%elem_of_cons; [exists v; split; [done | set_solver] | by apply Hw].
Qed.

Lemma plan_from seed seen i p p' : in_Cmd i = FROM → plan_inv seed seen p → plan_step lex i p = Ok p' → plan_inv seed (seen ++ [i]) p'.
Proof.
  intros Hc [H1 H2 H3 H4 H5 H6] Hp. unfold plan_step in Hp. rewrite Hc in Hp. apply bind_Ok in Hp as ([image alias] & Hf & Hp).
  apply bind_Ok in Hp as (ref & Hr & [= <-]). split; simpl; try done.
  - unfold finished. simpl. rewrite fmap_app, concat_app, (assoc_L (++)). simpl. by rewrite H4.
  - by apply indexed_snoc.
  - unfold finished. simpl. apply Forall_app. split; [done|]. apply Forall_singleton. split; simpl.
    + exists i, [], image, (pl_args p). splits; try done.
    + intros i' w ->%list_elem_of_singleton. unfold ref_words. rewrite Hc. by intros ?%not_elem_of_nil.
Qed.
Lemma plan_other seed seen i p p' : in_Cmd i ≠ FROM → plan_inv seed seen p → plan_step lex i p = Ok p' → plan_inv seed (seen ++ [i]) p'.
Proof.
  intros Hc [H1 H2 H3 H4 H5 H6] Hp. unfold plan_step in Hp. fold (arg_step (pl_args p) i) in Hp. pose proof (arg_step_grows (pl_args p) i) as Hg.
  assert (Hp' : match pl_current p with
    | None => Ok (mkPlanning (arg_step (pl_args p) i) (pl_preamble p ++ [i]) (pl_stages p) None)
    | Some c => refs ← extractInstructionStageRefs lex i (arg_step (pl_args p) i);
        Ok (mkPlanning (arg_step (pl_args p) i) (pl_preamble p) (pl_stages p) (Some (mkPlanned (ps_index c) (ps_alias c) (ps_fromRef c) (ps_deps c ++ refs) (ps_instrs c ++ [i]))))
    end = Ok p') by by destruct (in_Cmd i). clear Hp. unfold finished in *. destruct (pl_current p) as [c|].
  - apply bind_Ok in Hp' as (refs & Hr & [= <-]). apply refs_collect in Hr as [_ Hr]. simpl in *.
    apply Forall_app in H6 as [H6 Hlast]. rewrite Forall_singleton in Hlast. destruct Hlast as [(f & rest & image & args & E & ? & Hne & ? & ? & ?) Hrefs].
    split; unfold finished; simpl; try done.
    + etrans; [apply H1 | apply Hg].
    + rewrite H4, !fmap_app, !concat_app. simpl. by rewrite !app_nil_r, !(assoc_L (++)).
    + by eapply indexed_last.
    + apply Forall_app. split; [done|]. apply Forall_singleton. split; simpl.
      * exists f, (rest ++ [i]), image, args. rewrite E. splits; try done. apply Forall_app. split; [done | by apply Forall_singleton].
      * intros j w [Hj | ->%list_elem_of_singleton]%elem_of_app Hw.
        -- destruct (Hrefs j w Hj Hw) as (a & v & ? & ? & ?). exists a, v. splits; try done. set_solver.
        -- destruct (Hr w Hw) as (v & ? & ?). exists (arg_step (pl_args p) i), v. splits; [etrans; [apply H1 | apply Hg] | done | set_solver].
  - injection Hp' as <-. destruct (H2 eq_refl) as [Ha Hs]. simpl in *. unfold finished. rewrite Hs in *. simpl in *.
    split; simpl; rewrite ?Hs; try done; unfold plan_args in *; rewrite ?foldl_app; simpl.
    + by rewrite Ha.
    + intros _. by rewrite Ha.
    + apply Forall_app. split; [done | by apply Forall_singleton].
    + by rewrite H4, !app_nil_r.
Qed.
Lemma plan_spec instrs seed preamble stages :
  buildStagePlan lex instrs seed = Ok (preamble, stages) →
  Forall (fun i => in_Cmd i ≠ FROM) preamble ∧ instrs = preamble ++ concat (ps_instrs <$> stages) ∧ indexed stages ∧
  Forall (stage_planned (plan_args seed preamble)) stages.
Proof.
  unfold buildStagePlan. intros (p & Hp & [= <- <-])%bind_Ok.
  assert (Hi : ∀ todo seen q, plan_inv seed seen q → for_each (plan_step lex) todo q = Ok p → plan_inv seed (seen ++ todo) p).
  { induction todo as [|i todo IH]; intros seen q Hq; simpl; [intros [= <-]; by rewrite app_nil_r|]. intros (q1 & H1 & H2)%bind_Ok.
    replace (seen ++ i :: todo) with ((seen ++ [i]) ++ todo) by by rewrite <- (assoc_L (++)). eapply IH; [|done].
    destruct (decide (in_Cmd i = FROM)); [by eapply plan_from | by eapply plan_other]. }
  apply (Hi instrs [] _) in Hp; [by destruct Hp as [H1 H2 H3 H4 H5 H6]|].
  by split.
Qed.
End plan.

(** C14: a plan holds every instruction of the Dockerfile once and in order,
    each stage from its FROM up to the next one; and the marked stages, which
    the loop always finds, are exactly those that the last stage refers to,
    directly or through other stages, in FROM, COPY --from or RUN --mount=from. *)
Theorem stage_plan_reachable lex instrs seed preamble stages :
  buildStagePlan lex instrs seed = Ok (preamble, stages) →
  instrs = preamble ++ concat (ps_instrs <$> stages) ∧ Forall (fun i => in_Cmd i ≠ FROM) preamble ∧ Forall one_stage stages ∧
  ∃ out, markReachableStages stages = Ok out ∧
  ∀ i, Z.of_nat i ∈ out ↔ (i < length stages)%nat ∧ rtc (refers stages) (length stages - 1)%nat i.
Proof.
  intros Hp. destruct (plan_spec _ _ _ _ _ Hp) as (H1 & H2 & H3 & H4). splits; [done | done | | by apply mark_exact].
  eapply Forall_impl; [done|]. intros s [(i & rest & _ & _ & E & Hc & Hn & _) _]. by exists i, rest.
Qed.

(** ** Leaving stages out *)

Section prune.
Context {T Img : Type} (H : Host T Img).
Abbreviation bld := (builder T Img).

(** *** What instructions other than FROM leave alone *)

Record conf_frame (c c' : conf) : Prop := {
  fr_rootfs : cu_rootfs (cf_cur c') = cu_rootfs (cf_cur c);
  fr_name : cu_name (cf_cur c') = cu_name (cf_cur c);
  fr_index : cu_index (cf_cur c') = cu_index (cf_cur c);
  fr_args : cf_args c ⊆ cf_args c';
}.
#[local] Instance conf_frame_preorder : PreOrder conf_frame.
Proof. split; [by intros c | intros c1 c2 c3 [] []; split; [congruence.. | by etrans]]. Qed.

Lemma for_each_preorder {E X St} (R : relation St) `{!PreOrder R} (f : X → St → res E St) xs s s' :
  (∀ x s s', x ∈ xs → f x s = Ok s' → R s s') → for_each f xs s = Ok s' → R s s'.
Proof.
  revert s. induction xs as [|x xs IH]; intros s Hf; simpl; [by intros [= <-]|]. intros (s1 & H1 & H2)%bind_Ok.
  etrans; [apply (Hf x); [left | done]|]. apply IH; [|done]. intros. eapply Hf; [by right | done].
Qed.
Lemma foldl_preorder {A B} (R : relation A) `{!PreOrder R} (f : A → B → A) l a : (∀ a b, R a (f a b)) → R a (foldl f a l).
Proof. intros Hf. revert a. induction l as [|b l IH]; intros a; simpl; [done|]. etrans; [apply Hf | apply IH]. Qed.

(** The state keeps a part of it. *)
Definition same {St A} (f : St → A) : relation St := fun s s' => f s' = f s.
#[local] Instance same_preorder {St A} (f : St → A) : PreOrder (same f).
Proof. split; [by intros s | intros s1 s2 s3 H1 H2; unfold same in *; congruence]. Qed.
Definition arguments (c : conf) := (cf_args c, cf_argExport c).

Lemma handleENV_frame args c c' : handleENV H args c = Ok c' → conf_frame c c'.
Proof.
  unfold handleENV. destruct args as [|key rest]; [by intros [= <-]|]. destruct (word_form _); [by intros ([v u] & _ & [= <-])%bind_Ok|].
  apply for_each_preorder; [apply _|]. intros p c1 c2 _ Hp. unfold env_pair in Hp. destruct (cut 61 p) as [[]|]; [|done]. by apply bind_Ok in Hp as ([v u] & _ & [= <-]).
Qed.
Lemma handleLABEL_frame args c c' : handleLABEL H args c = Ok c' → conf_frame c c'.
Proof.
  unfold handleLABEL. destruct args as [|key rest]; [by intros [= <-]|]. destruct (word_form _); [by intros ([v u] & _ & [= <-])%bind_Ok|].
  apply for_each_preorder; [apply _|]. intros p c1 c2 _ Hp. unfold label_pair in Hp. destruct (cut 61 p) as [[]|]; [|done]. by apply bind_Ok in Hp as ([v u] & _ & [= <-]).
Qed.
Lemma handleARG_frame args c c' : handleARG H args c = Ok c' → conf_frame c c' ∧ cf_cur c' = cf_cur c.
Proof.
  intros Ha. split.
  - revert Ha. apply for_each_preorder; [apply _|]. intros a c1 c2 _ Hp. unfold arg_default in Hp.
    assert (Hi : ∀ k v, ¬ is_Some (cf_args c1 !! k) → conf_frame c1 (set_arg k v c1)) by (intros k v Hk; split; try done; apply insert_subseteq; by apply eq_None_not_Some).
    destruct (cut 61 a) as [[k v]|]; case_bool_decide; simplify_eq; try done; [apply bind_Ok in Hp as ([value u] & _ & [= <-])|]; by apply Hi.
  - revert Ha. apply (for_each_preorder (same cf_cur)). intros a c1 c2 _ Hp. unfold arg_default in Hp.
    destruct (cut 61 a) as [[k v]|]; case_bool_decide; simplify_eq; try done. by apply bind_Ok in Hp as ([value u] & _ & [= <-]).
Qed.
Lemma step_conf_frame i c c' :
  step_conf H i c = Ok c' → conf_frame c c' ∧ (in_Cmd i ≠ ARG → arguments c' = arguments c).
Proof.
  assert (Henv : ∀ f args c c', (∀ x c c', f x c = Ok c' → arguments c' = arguments c) → for_each (E:=build_err) (X:=str) f args c = Ok c' → arguments c' = arguments c).
  { intros f args d d' Hf. apply (for_each_preorder (same arguments)). intros x c1 c2 _ Hx. by eapply Hf. }
  assert (Hfold : ∀ f (l : list str) c, (∀ c x, ∃ g, f c x = upd_config c g) → conf_frame c (foldl f c l) ∧ arguments (foldl f c l) = arguments c).
  { intros f l d Hf. split; [apply foldl_preorder; [apply _|] | apply (foldl_preorder (same arguments))]; intros a b; by destruct (Hf a b) as [g ->]. }
  intros Hs. unfold step_conf in Hs. destruct (in_Cmd i) eqn:Ec; try (injection Hs as <-; done).
  - split; [by eapply handleENV_frame|]. intros _. unfold handleENV in Hs. destruct (in_Args i) as [|key rest]; [by injection Hs as <-|].
    destruct (word_form _); [by apply bind_Ok in Hs as ([v u] & _ & [= <-])|]. revert Hs. apply Henv. intros p c1 c2 Hp. unfold env_pair in Hp.
    destruct (cut 61 p) as [[]|]; [|done]. by apply bind_Ok in Hp as ([v u] & _ & [= <-]).
  - split; [by eapply handleARG_frame | done].
  - destruct (in_Args i); [done|]. by injection Hs as <-.
  - injection Hs as <-. split; [apply Hfold | intros _; apply Hfold]; intros; by eexists.
  - split; [by eapply handleLABEL_frame|]. intros _. unfold handleLABEL in Hs. destruct (in_Args i) as [|key rest]; [by injection Hs as <-|].
    destruct (word_form _); [by apply bind_Ok in Hs as ([v u] & _ & [= <-])|]. revert Hs. apply Henv. intros p c1 c2 Hp. unfold label_pair in Hp.
    destruct (cut 61 p) as [[]|]; [|done]. by apply bind_Ok in Hp as ([v u] & _ & [= <-]).
  - injection Hs as <-. split; [apply Hfold | intros _; apply Hfold]; intros; by eexists.
  - by apply bind_Ok in Hs as (hc & _ & [= <-]).
  - destruct (in_Args i); [done|]. by injection Hs as <-.
  - destruct (in_Args i); [done|]. by injection Hs as <-.
Qed.

(** *** Words with a fixed expansion, and the state that keeps them fixed *)

(** The base arguments, and the platform that images are pulled for. *)
Context (A0 : gmap str str) (OS ARCH : str).
Definition fixed (w v : str) : Prop := ∀ args env, A0 ⊆ args → env ##ₘ A0 → h_lex H w (kv_slice args ++ kv_slice env) = Some (v, []).
Record good (b : bld) : Prop := {
  g_args : A0 ⊆ cf_args (b_conf b);
  g_os : cf_args (b_conf b) !! sbytes "TARGETOS" = Some OS;
  g_arch : cf_args (b_conf b) !! sbytes "TARGETARCH" = Some ARCH;
  g_env : cu_env (b_cur b) ##ₘ A0;
  g_recs : map_Forall (fun _ s => bs_env s ##ₘ A0) (b_byName b);
  g_pull : map_Forall (fun ref img => h_pull H ref OS ARCH = Some img) (b_pullCache b);
  g_remote : map_Forall (fun ref t => ∃ img, h_pull H ref OS ARCH = Some img ∧ h_extract H img (h_empty H) = Some t) (b_remote b);
}.
(** The parts of the state that a pull leaves alone. *)
Definition books (b : bld) := (b_conf b, b_trees b, b_context b, b_cache b, b_byName b).

Lemma kv_slice_empty : kv_slice ∅ = [].
Proof. unfold kv_slice, sorted_keys. by rewrite map_to_list_empty. Qed.
Lemma fixed_planned w v args v' : fixed w v → A0 ⊆ args → expandBuildArgValue (h_lex H) args w = Ok v' → v' = v.
Proof.
  intros Hf Ha. unfold expandBuildArgValue. pose proof (Hf args ∅ Ha) as Hl. rewrite kv_slice_empty, app_nil_r in Hl. rewrite Hl by apply map_disjoint_empty_l. by intros [= <-].
Qed.
Lemma fixed_strict b w v : good b → fixed w v → expandStrict H (b_conf b) w = Ok v.
Proof. intros [Ha _ _ He _ _ _] Hf. unfold b_cur in He. unfold expandStrict, expandValue, expansionEnvSlice. by rewrite (Hf _ _ Ha He). Qed.

Lemma pull_spec ref b img b' :
  good b → pullImage H ref b = Ok (img, b') → good b' ∧ books b' = books b ∧ b_remote b' = b_remote b ∧ h_pull H ref OS ARCH = Some img.
Proof.
  intros Hg. destruct Hg as [G1 G2 G3 G4 G5 G6 G7]. unfold pullImage. destruct (b_pullCache b !! ref) as [i|] eqn:E.
  - intros [= <- <-]. splits; try done. by apply (G6 ref).
  - unfold arg_of. rewrite G2, G3. intros (i & Hi & [= <- <-])%bind_Ok. simpl in Hi. destruct (h_pull H ref OS ARCH) as [i'|] eqn:Ep; [|done]. injection Hi as <-.
    splits; try done. split; simpl; try done. by apply map_Forall_insert_2.
Qed.
Lemma pull_total ref b img : good b → h_pull H ref OS ARCH = Some img → ∃ b', pullImage H ref b = Ok (img, b').
Proof.
  intros [G1 G2 G3 G4 G5 G6 G7] Hp. unfold pullImage. destruct (b_pullCache b !! ref) as [i|] eqn:E.
  - apply G6 in E. simplify_eq. by eexists.
  - unfold arg_of. rewrite G2, G3. simpl. rewrite Hp. by eexists.
Qed.
Lemma remote_spec ref b b' :
  good b → resolveRemoteTransferRoot H ref b = Ok b' →
  good b' ∧ books b' = books b ∧ ∃ img t, h_pull H ref OS ARCH = Some img ∧ h_extract H img (h_empty H) = Some t ∧ b_remote b' !! ref = Some t.
Proof.
  intros Hg. unfold resolveRemoteTransferRoot. destruct (b_remote b !! ref) as [t|] eqn:E.
  - intros [= <-]. splits; try done. destruct (g_remote b Hg ref t E) as (img & ? & ?). by exists img, t.
  - intros ([img b1] & Hp & (t & Ht & [= <-])%bind_Ok)%bind_Ok. destruct (pull_spec _ _ _ _ Hg Hp) as ([G1 G2 G3 G4 G5 G6 G7] & Hb & Hr & Hi).
    destruct (h_extract H img (h_empty H)) as [t'|] eqn:Et; [|done]. injection Ht as ->. splits.
    + split; simpl; try done. apply map_Forall_insert_2; [|done]. by exists img.
    + done.
    + exists img, t. simpl. by rewrite lookup_insert_eq.
Qed.
Lemma remote_total ref b img t : good b → h_pull H ref OS ARCH = Some img → h_extract H img (h_empty H) = Some t → ∃ b', resolveRemoteTransferRoot H ref b = Ok b'.
Proof.
  intros Hg Hp Ht. unfold resolveRemoteTransferRoot. destruct (b_remote b !! ref); [by eexists|].
  destruct (pull_total ref b img Hg Hp) as [b1 ->]. simpl. rewrite Ht. by eexists.
Qed.

Lemma good_set_conf b c : good b → cf_args (b_conf b) ⊆ cf_args c → cu_env (cf_cur c) ##ₘ A0 → good (set_conf b c).
Proof.
  intros [G1 G2 G3 G4 G5 G6 G7] Ha He. split; simpl; try done; [by etrans | by eapply lookup_weaken | by eapply lookup_weaken].
Qed.

(** The variables that an ENV sets, and that no instruction may shadow. *)
Definition env_names (i : Instruction) : list str :=
  match in_Cmd i with
  | ENV => if word_form (in_Args i) then take 1 (in_Args i) else omap (fun p => fst <$> cut 61 p) (in_Args i)
  | _ => []
  end.
Definition env_fresh (i : Instruction) : Prop := ∀ k, k ∈ env_names i → A0 !! k = None.
Lemma setEnv_fresh k v c : A0 !! k = None → cu_env c ##ₘ A0 → cu_env (setEnv k v c) ##ₘ A0.
Proof. intros Hk He. simpl. by apply map_disjoint_insert_l_2. Qed.
Lemma step_conf_env i c c' : env_fresh i → cu_env (cf_cur c) ##ₘ A0 → step_conf H i c = Ok c' → cu_env (cf_cur c') ##ₘ A0.
Proof.
  assert (Hfold : ∀ f (l : list str) c, (∀ c x, ∃ g, f c x = upd_config c g) → cu_env (cf_cur (foldl f c l)) = cu_env (cf_cur c)).
  { intros f l d Hf. apply (foldl_preorder (same (fun c => cu_env (cf_cur c)))). intros a b. by destruct (Hf a b) as [g ->]. }
  unfold env_fresh, env_names. intros Hf He Hs. unfold step_conf in Hs. destruct (in_Cmd i); try (injection Hs as <-; done).
  - unfold handleENV in Hs. destruct (in_Args i) as [|key rest]; [by injection Hs as <-|]. destruct (word_form _).
    + apply bind_Ok in Hs as ([v u] & _ & [= <-]). apply setEnv_fresh; [apply Hf; simpl; left | done].
    + revert c He Hs. induction (key :: rest) as [|p ps IH]; intros c He; cbn [for_each]; [by intros [= <-]|]. intros (c1 & H1 & H2)%bind_Ok.
      unfold env_pair in H1. destruct (cut 61 p) as [[k v]|] eqn:E; [|done]. apply bind_Ok in H1 as ([value u] & _ & [= <-]).
      revert H2. apply IH; [intros j Hj; apply Hf; apply list_elem_of_omap in Hj as (q & ? & ?); apply list_elem_of_omap; exists q; split; [by right | done]|].
      apply setEnv_fresh; [|done]. apply Hf. apply list_elem_of_omap. exists p. split; [left | by rewrite E].
  - unfold handleARG in Hs. by apply handleARG_frame in Hs as [_ ->].
  - destruct (in_Args i); [done|]. by injection Hs as <-.
  - injection Hs as <-. rewrite Hfold; [done|]. intros; by eexists.
  - revert Hs. unfold handleLABEL. destruct (in_Args i) as [|key rest]; [by intros [= <-]|]. destruct (word_form _); [by intros ([v u] & _ & [= <-])%bind_Ok|].
    intros Hs. assert (Hl : same (fun c => cu_env (cf_cur c)) c c'); [|by rewrite Hl]. revert Hs. apply for_each_preorder; [apply _|].
    intros p c1 c2 _ Hp. unfold label_pair in Hp. destruct (cut 61 p) as [[]|]; [|done]. by apply bind_Ok in Hp as ([v u] & _ & [= <-]).
  - injection Hs as <-. rewrite Hfold; [done|]. intros; by eexists.
  - by apply bind_Ok in Hs as (hc & _ & [= <-]).
  - destruct (in_Args i); [done|]. by injection Hs as <-.
  - destruct (in_Args i); [done|]. by injection Hs as <-.
Qed.

(** *** Two builders inside a stage that both execute *)

Context (stages : list plannedStage) (reach : nat → bool).
Hypothesis Hidx : indexed stages.
Hypothesis Hclosed : ∀ i j, reach i = true → refers stages i j → reach j = true.

(** The last stage before [pos] that is called [ref], among those in [P]. *)
Fixpoint nearest (P : nat → bool) (pos : nat) (ref : str) : option nat :=
  match pos with
  | O => None
  | S i => match stages !! i with None => None | Some s => if P i && stage_matches s ref then Some i else nearest P i ref end
  end.
Definition all (_ : nat) : bool := true.
Lemma nearest_all pos ref : nearest all pos ref = resolvePlannedStageRef stages pos ref.
Proof. induction pos as [|i IH]; simpl; [done|]. destruct (stages !! i); [|done]. by rewrite IH. Qed.
Lemma nearest_reach pos ref :
  (∀ j, resolvePlannedStageRef stages pos ref = Some j → reach j = true) → nearest reach pos ref = resolvePlannedStageRef stages pos ref.
Proof.
  induction pos as [|i IH]; simpl; [done|]. destruct (stages !! i); [|done]. destruct (stage_matches p ref).
  - intros Hj. by rewrite (Hj i eq_refl).
  - rewrite andb_false_r. apply IH.
Qed.
Lemma nearest_below P pos ref j : nearest P pos ref = Some j → (j < pos)%nat ∧ P j = true.
Proof.
  induction pos as [|i IH]; simpl; [done|]. destruct (stages !! i) as [s|]; [|done]. destruct (P i) eqn:Ei; simpl; [destruct (stage_matches s ref)|].
  - intros [= <-]. split; [lia | done].
  - intros Hj. destruct (IH Hj). split; [lia | done].
  - intros Hj. destruct (IH Hj). split; [lia | done].
Qed.

(** The table of stage names holds the records of the stages it is built from. *)
Definition names (P : nat → bool) (k : nat) (recs : gmap nat buildStage) (m : gmap str buildStage) : Prop :=
  ∀ r, m !! r = nearest P k r ≫= fun i => recs !! i.
Definition placed (recs : gmap nat buildStage) : Prop := ∀ i st, recs !! i = Some st → bs_rootfs st = Z.of_nat i.

Record sim (k : nat) (recs : gmap nat buildStage) (bF bP : bld) : Prop := {
  si_F : good bF;
  si_P : good bP;
  si_conf : b_conf bP = b_conf bF;
  si_root : cu_rootfs (b_cur bF) = Some (Z.of_nat k);
  si_cache : b_cache bP = b_cache bF;
  si_context : b_context bP = b_context bF;
  si_trees : ∀ i, (i ≤ k)%nat → reach i = true → b_trees bP !! Z.of_nat i = b_trees bF !! Z.of_nat i;
  si_nF : names all k recs (b_byName bF);
  si_nP : names reach k recs (b_byName bP);
}.
Section stage.
Context (k : nat) (s : plannedStage) (recs : gmap nat buildStage).
Hypothesis Hk : stages !! k = Some s.
Hypothesis Hreach : reach k = true.
Hypothesis Hplaced : placed recs.

Lemma sim_books bF bP bF' bP' : sim k recs bF bP → good bF' → good bP' → books bF' = books bF → books bP' = books bP → sim k recs bF' bP'.
Proof. intros [? ? E1 E2 E3 E4 E5 E6 E7] ? ? [= C1 T1 X1 A1 N1] [= C2 T2 X2 A2 N2]. unfold b_cur in *. split; unfold b_cur; try done; congruence || (rewrite ?T1, ?T2, ?N1, ?N2; done). Qed.

(** A name that the stage refers to means the same stage to both. *)
Lemma sim_lookup bF bP v :
  sim k recs bF bP → v ∈ ps_fromRef s :: ps_deps s →
  lookupStage bP v = lookupStage bF v ∧ ∀ st, lookupStage bF v = Some st → ∃ j, (j < k)%nat ∧ reach j = true ∧ bs_rootfs st = Z.of_nat j.
Proof.
  intros Hs Hv. unfold lookupStage. pose proof (si_nF _ _ _ _ Hs v) as HF. pose proof (si_nP _ _ _ _ Hs v) as HP. rewrite nearest_all in HF.
  assert (Hr : ∀ j, resolvePlannedStageRef stages k v = Some j → reach j = true).
  { intros j Hj. apply (Hclosed k j Hreach). exists s. split; [done|]. apply list_elem_of_omap. by exists v. }
  rewrite nearest_reach in HP by done. split; [congruence|]. intros st Hst. rewrite HF in Hst. apply bind_Some in Hst as (j & Hj & Hst). exists j. apply resolve_below in Hj as Hb. destruct Hb as [? _]. splits; eauto.
Qed.
Lemma sim_tree bF bP i : sim k recs bF bP → (i ≤ k)%nat → reach i = true → stage_tree H bP (Z.of_nat i) = stage_tree H bF (Z.of_nat i).
Proof. intros Hs Hi Hr. unfold stage_tree. by rewrite (si_trees _ _ _ _ Hs). Qed.
Lemma sim_rootfs bF bP : sim k recs bF bP → rootfs_index bF = Z.of_nat k ∧ rootfs_index bP = Z.of_nat k.
Proof. intros Hs. unfold rootfs_index, b_cur. rewrite (si_conf _ _ _ _ Hs). pose proof (si_root _ _ _ _ Hs) as Hr. unfold b_cur in Hr. by rewrite Hr. Qed.
Lemma sim_root_tree bF bP : sim k recs bF bP → root_tree H bP = root_tree H bF.
Proof. intros Hs. unfold root_tree. destruct (sim_rootfs _ _ Hs) as [-> ->]. by apply sim_tree. Qed.
Lemma sim_insert bF bP i t :
  sim k recs bF bP → sim k recs (set_trees bF (<[i := t]> (b_trees bF))) (set_trees bP (<[i := t]> (b_trees bP))).
Proof.
  intros [[] [] E1 E2 E3 E4 E5 E6 E7]. split; simpl; try done. intros j Hj Hr. destruct (decide (i = Z.of_nat j)) as [-> | Hn]; [by rewrite !lookup_insert_eq|].
  rewrite !lookup_insert_ne by done. by apply E5.
Qed.
Lemma sim_set_root bF bP t : sim k recs bF bP → sim k recs (set_root bF t) (set_root bP t).
Proof. intros Hs. unfold set_root. destruct (sim_rootfs _ _ Hs) as [-> ->]. by apply sim_insert. Qed.
Lemma sim_set_conf bF bP c : sim k recs bF bP → conf_frame (b_conf bF) c → cu_env (cf_cur c) ##ₘ A0 → sim k recs (set_conf bF c) (set_conf bP c).
Proof.
  intros [HF HP E1 E2 E3 E4 E5 E6 E7] [Hr Hn Hi Ha] He. split; unfold b_cur; simpl; try done; [by apply good_set_conf | apply good_set_conf; [done | by rewrite E1 | done] | by rewrite Hr].
Qed.

(** What an instruction of the stage refers to is planned. *)
Record sees (i : Instruction) : Prop := {
  se_words : ∀ w, in_Cmd i = COPY ∨ in_Cmd i = ADD → w ∈ from_words (in_Args i) → ∃ v, fixed w v ∧ v ∈ ps_deps s;
  se_mounts : ∀ m, in_Cmd i = RUN → m ∈ in_RunMounts i → rm_From m ≠ [] → rm_From m ∈ ps_deps s;
  se_env : env_fresh i;
}.

(** **** COPY and ADD *)
Record psim (p q : parsing) : Prop := {
  ps_sim : sim k recs (pa_b p) (pa_b q);
  ps_root : pa_root q = pa_root p;
  ps_opts : pa_opts q = pa_opts p;
  ps_words : pa_words q = pa_words p;
  ps_source : source_tree H (pa_b q) (pa_root p) = source_tree H (pa_b p) (pa_root p);
}.
Lemma parse_from_sim allowFrom arg w v p q p' :
  psim p q → fixed w v → v ∈ ps_deps s → parse_from H allowFrom arg w p = Ok p' →
  ∃ q', parse_from H allowFrom arg w q = Ok q' ∧ psim p' q'.
Proof.
  intros [Hs Hr Ho Hw _] Hf Hv Hp. unfold parse_from in *. destruct (negb allowFrom); [done|]. rewrite Ho, Hw.
  rewrite (fixed_strict _ _ _ (si_F _ _ _ _ Hs) Hf) in Hp. rewrite (fixed_strict _ _ _ (si_P _ _ _ _ Hs) Hf). simpl in *.
  destruct (sim_lookup _ _ v Hs) as [Hl Hst]; [by right|]. rewrite Hl. destruct (lookupStage (pa_b p) v) as [st|].
  - injection Hp as <-. eexists. split; [done|]. split; simpl; try done. destruct (Hst st eq_refl) as (j & ? & ? & ->). apply sim_tree; [done | lia | done].
  - apply bind_Ok in Hp as (b1 & H1 & [= <-]). destruct (remote_spec _ _ _ (si_F _ _ _ _ Hs) H1) as (G1 & B1 & img & t & I1 & I2 & I3).
    destruct (remote_total v (pa_b q) img t (si_P _ _ _ _ Hs) I1 I2) as [b2 H2]. destruct (remote_spec _ _ _ (si_P _ _ _ _ Hs) H2) as (G2 & B2 & img' & t' & J1 & J2 & J3).
    assert (t' = t) as -> by congruence. rewrite H2. simpl. eexists. split; [done|]. split; simpl; try done; [by eapply sim_books | by rewrite I3, J3].
Qed.
Lemma parse_flag_sim allowFrom arg p q p' :
  psim p q → (∀ w, after f_from arg = Some w → ∃ v, fixed w v ∧ v ∈ ps_deps s) → parse_flag H allowFrom arg p = Ok p' →
  ∃ q', parse_flag H allowFrom arg q = Ok q' ∧ psim p' q'.
Proof.
  intros Hps Hv Hp. unfold parse_flag in *. cbv zeta in *. destruct (after f_from arg) as [w|].
  - destruct (Hv w eq_refl) as (v & ? & ?). by eapply parse_from_sim.
  - clear Hv. destruct Hps as [Hs Hr Ho Hw Ht]. rewrite Ho, Hw, Hr, (si_conf _ _ _ _ Hs), (sim_root_tree _ _ Hs). unfold option_ok in *.
    assert (Hset : ∀ o, psim (set_opts p o) (set_opts q o)) by (intros o; by split).
    repeat match goal with
    | |- context [match after ?f arg with Some _ => _ | None => _ end] => destruct (after f arg)
    | |- context [if bool_decide ?P then _ else _] => destruct (bool_decide P)
    | |- context [match h_owner ?a ?b ?c with Some _ => _ | None => _ end] => destruct (h_owner a b c)
    | |- context [match parseCopyMode ?a with Some _ => _ | None => _ end] => destruct (parseCopyMode a)
    | |- context [match ParseBool ?a with Some _ => _ | None => _ end] => destruct (ParseBool a)
    | |- context [match parseChecksumSpec ?a with Some _ => _ | None => _ end] => destruct (parseChecksumSpec a)
    end; simpl in *; simplify_eq; try (eexists; split; [done | apply Hset]).
    eexists. split; [done|]. by split.
Qed.
Lemma transfer_sim allowFrom remote args bF bP bF' :
  sim k recs bF bP → (∀ w, w ∈ from_words args → ∃ v, fixed w v ∧ v ∈ ps_deps s) →
  handleTransfer H allowFrom remote args bF = Ok bF' → ∃ bP', handleTransfer H allowFrom remote args bP = Ok bP' ∧ sim k recs bF' bP'.
Proof.
  intros Hs Hw Hf. unfold handleTransfer, parseTransferSpec in *. apply bind_Ok in Hf as ([spec b1] & Hp & (t & Ht & [= <-])%bind_Ok).
  apply bind_Ok in Hp as (p & Hp & Hsp).
  assert (Hq : ∃ q, for_each (parse_flag H allowFrom) args (mkParsing bP FromContext no_options []) = Ok q ∧ psim p q).
  { assert (H0 : psim (mkParsing bF FromContext no_options []) (mkParsing bP FromContext no_options [])) by (split; try done; simpl; apply (si_context _ _ _ _ Hs)).
    revert H0 Hp. generalize (mkParsing bF FromContext no_options []) as p0, (mkParsing bP FromContext no_options []) as q0.
    clear - Hw Hk Hreach Hplaced Hclosed. induction args as [|a args IH]; intros p0 q0 H0; cbn [for_each]; [intros [= <-]; by exists q0|].
    intros (p1 & H1 & H2)%bind_Ok. destruct (parse_flag_sim allowFrom a p0 q0 p1 H0) as (q1 & E1 & S1); [|done|].
    - intros w Ha. apply Hw. apply list_elem_of_omap. exists a. split; [left | done].
    - rewrite E1. simpl. apply (IH) with (p0 := p1); [|done|done]. intros w Hin. apply Hw. apply list_elem_of_omap in Hin as (x & ? & ?). apply list_elem_of_omap. exists x. split; [by right | done]. }
  destruct Hq as (q & -> & [Qs Qr Qo Qw Qt]). simpl. rewrite Qo, Qw, Qr, (si_conf _ _ _ _ Qs).
  destruct (_ && _); [done|]. destruct (_ <? 2); [done|]. injection Hsp as <- <-. simpl in *. rewrite Qt, (sim_root_tree _ _ Qs).
  destruct (h_transfer _ _ _ _); [|done]. injection Ht as ->. eexists. split; [done|]. by apply sim_set_root.
Qed.

(** **** RUN *)
Lemma mount_source_sim bF bP m src :
  sim k recs bF bP → (rm_From m ≠ [] → rm_From m ∈ ps_deps s) → resolveBindRunMountSource bF m = Ok src →
  resolveBindRunMountSource bP m = Ok src ∧ source_stat H bP src = source_stat H bF src ∧
  ∀ ty tg ro sz, mount_tree H bP (mkIsolated ty src tg ro sz) = mount_tree H bF (mkIsolated ty src tg ro sz).
Proof.
  intros Hs Hm Hr. unfold resolveBindRunMountSource in *. destruct (nonempty (rm_From m)) eqn:En.
  - assert (Hn : rm_From m ≠ []) by (unfold nonempty in En; by apply negb_true_iff, bool_decide_eq_false in En).
    destruct (sim_lookup bF bP (rm_From m) Hs) as [Hl Hst]; [right; by apply Hm|]. rewrite Hl. destruct (lookupStage bF (rm_From m)) as [st|]; [|done].
    destruct (Hst st eq_refl) as (j & ? & ? & Hj). rewrite Hj in *.
    assert (Ht : stage_tree H bP (Z.of_nat j) = stage_tree H bF (Z.of_nat j)) by (apply sim_tree; [done | lia | done]).
    destruct (nonempty (rm_Source m)); [apply bind_Ok in Hr as (p & -> & [= <-]) | injection Hr as <-];
      (splits; [done | simpl; by rewrite Ht | intros; unfold mount_tree; simpl; by rewrite Ht]).
  - assert (Hc : ∀ p, source_stat H bP (SrcContext p) = source_stat H bF (SrcContext p) ∧
      ∀ ty tg ro sz, mount_tree H bP (mkIsolated ty (SrcContext p) tg ro sz) = mount_tree H bF (mkIsolated ty (SrcContext p) tg ro sz)).
    { intros p. unfold mount_tree. simpl. by rewrite (si_context _ _ _ _ Hs). }
    destruct (nonempty (rm_Source m)); [destruct (leaves _); [done|]|]; injection Hr as <-; split; done || apply Hc.
Qed.
Lemma resolve_mount_sim bF bP m im :
  sim k recs bF bP → (rm_From m ≠ [] → rm_From m ∈ ps_deps s) → resolve_mount H bF m = Ok im →
  resolve_mount H bP m = Ok im ∧ mount_tree H bP im = mount_tree H bF im.
Proof.
  intros Hs Hm Hr. unfold resolve_mount in *. rewrite (si_conf _ _ _ _ Hs). destruct (rm_Type m).
  - apply bind_Ok in Hr as (src & Hsrc & Hr). destruct (mount_source_sim bF bP m src Hs Hm Hsrc) as (-> & Hst & Ht). simpl. rewrite Hst.
    destruct (source_stat H bF src); [|done]. injection Hr as <-. split; [done | apply Ht].
  - split; [done|]. destruct (nonempty (rm_Target m)); [|done]. injection Hr as <-. unfold mount_tree. simpl. by rewrite (si_cache _ _ _ _ Hs).
  - split; [done|]. destruct (nonempty (rm_Target m)); [|done]. by injection Hr as <-.
  - split; [done|]. destruct (_ && _); [done|]. apply bind_Ok in Hr as (found & _ & Hr). destruct found; [by injection Hr as <-|]. destruct (rm_Required m); [done|]. by injection Hr as <-.
  - split; [done|]. destruct (rm_Required m); [done|]. by injection Hr as <-.
  - done.
Qed.
Lemma resolve_mounts_sim bF bP ms out ims :
  sim k recs bF bP → (∀ m, m ∈ ms → rm_From m ≠ [] → rm_From m ∈ ps_deps s) →
  Forall (fun im => mount_tree H bP im = mount_tree H bF im) out →
  for_each (collect (resolve_mount H bF)) ms out = Ok ims →
  for_each (collect (resolve_mount H bP)) ms out = Ok ims ∧ Forall (fun im => mount_tree H bP im = mount_tree H bF im) ims.
Proof.
  intros Hs. revert out. induction ms as [|m ms IH]; intros out Hm Ho; cbn [for_each]; [by intros [= <-]|].
  intros (o1 & (im & Him & [= <-])%bind_Ok & H2)%bind_Ok. destruct (resolve_mount_sim bF bP m im Hs) as [E1 E2]; [apply Hm; left | done|].
  assert (Hc : collect (resolve_mount H bP) m out = Ok (out ++ [im])) by (unfold collect; by rewrite E1). rewrite Hc. simpl. apply IH; [intros; apply Hm; [by right | done] | |done]. apply Forall_app. split; [done | by apply Forall_singleton].
Qed.
Lemma write_back_sim bF bP mt : sim k recs bF bP → sim k recs (write_back mt bF) (write_back mt bP).
Proof.
  intros Hs. unfold write_back. destruct (im_ReadOnly mt.1); [done|]. destruct (im_Source mt.1), (mt.2); try done; [by apply sim_insert | |].
  - destruct Hs as [[] [] E1 E2 E3 E4 E5 E6 E7]. by split.
  - destruct Hs as [[] [] E1 E2 E3 E4 E5 E6 E7]. split; try done. simpl. by rewrite E3.
Qed.
Lemma run_command_sim spec ims bF bP bF' :
  sim k recs bF bP → Forall (fun im => mount_tree H bP im = mount_tree H bF im) ims → run_command H spec ims bF = Ok bF' →
  ∃ bP', run_command H spec ims bP = Ok bP' ∧ sim k recs bF' bP'.
Proof.
  intros Hs Hm Hr. unfold run_command in *. apply bind_Ok in Hr as ([t ts] & He & [= <-]). rewrite (sim_root_tree _ _ Hs).
  assert (Heq : ((fun m => (m, mount_tree H bP m)) <$> ims) = ((fun m => (m, mount_tree H bF m)) <$> ims)).
  { clear He. induction Hm as [|x l Hx _ IH]; csimpl; [done|]. by rewrite Hx, IH. }
  rewrite Heq, He. simpl. eexists. split; [done|]. pose proof (sim_set_root _ _ t Hs) as H1. revert H1.
  generalize (set_root bF t) as b1, (set_root bP t) as b2, (zip ims ts) as l. intros b1 b2 l. revert b1 b2.
  induction l as [|mt l IH]; intros b1 b2 H12; simpl; [done|]. by apply IH, write_back_sim.
Qed.
Lemma run_sim i bF bP bF' : sim k recs bF bP → in_Cmd i = RUN → sees i → handleRUN H i bF = Ok bF' → ∃ bP', handleRUN H i bP = Ok bP' ∧ sim k recs bF' bP'.
Proof.
  intros Hs Hi [_ Hm _] Hr. unfold handleRUN in *. destruct (in_Args i) as [|a args]; [injection Hr as <-; by exists bP|]. cbv zeta in *.
  apply bind_Ok in Hr as (t & Ht & Hr). rewrite (si_conf _ _ _ _ Hs), (sim_root_tree _ _ Hs), Ht. simpl. pose proof (sim_set_root _ _ t Hs) as Hs1.
  assert (Hc : b_cur (set_root bP t) = b_cur (set_root bF t)) by (unfold b_cur; by rewrite (si_conf _ _ _ _ Hs1)). rewrite Hc. destruct (h_root H).
  - apply bind_Ok in Hr as (ims & Hims & Hr). unfold resolveIsolatedRunMounts in *. destruct (resolve_mounts_sim _ _ _ _ _ Hs1 (fun m => Hm m Hi) (Forall_nil_2 _) Hims) as [-> Hall].
    simpl. by eapply run_command_sim.
  - destruct (in_RunMounts i); [|done]. eapply run_command_sim; [done | apply Forall_nil_2 | done].
Qed.

Lemma step_sim i bF bP bF' :
  sim k recs bF bP → in_Cmd i ≠ FROM → sees i → step H i bF = Ok bF' → ∃ bP', step H i bP = Ok bP' ∧ sim k recs bF' bP'.
Proof.
  intros Hs Hi Hsee Hf. unfold step in *. assert (Hc : b_cur bP = b_cur bF) by (unfold b_cur; by rewrite (si_conf _ _ _ _ Hs)). rewrite Hc.
  destruct (negb _ && _); [done|].
  assert (Hcf : (c ← step_conf H i (b_conf bF); Ok (set_conf bF c)) = Ok bF' → ∃ bP', (c ← step_conf H i (b_conf bP); Ok (set_conf bP c)) = Ok bP' ∧ sim k recs bF' bP').
  { intros (c & Hstep & [= <-])%bind_Ok. rewrite (si_conf _ _ _ _ Hs), Hstep. simpl. eexists. split; [done|]. destruct (step_conf_frame _ _ _ Hstep) as [Hfr _].
    apply sim_set_conf; [done | done|]. eapply step_conf_env; [apply Hsee | | done]. apply (g_env _ (si_F _ _ _ _ Hs)). }
  destruct (in_Cmd i) eqn:Ei; try done; try (by apply Hcf).
  - by eapply run_sim.
  - eapply transfer_sim; [done | |done]. intros w Hw. apply (se_words i Hsee); [by left | done].
  - eapply transfer_sim; [done | |done]. intros w Hw. apply (se_words i Hsee); [by right | done].
  - unfold handleWORKDIR in *. destruct (in_Args i) as [|a args]; [injection Hf as <-; by exists bP|]. rewrite (si_conf _ _ _ _ Hs), Hc.
    apply bind_Ok in Hf as ([dir u] & -> & Hf). apply bind_Ok in Hf as (t & Ht & [= <-]). simpl.
    assert (Hs1 : sim k recs (set_conf bF (set_workdir (b_conf bF) (resolveContainerPath (cu_workdir (b_cur bF)) dir))) (set_conf bP (set_workdir (b_conf bF) (resolveContainerPath (cu_workdir (b_cur bF)) dir)))).
    { apply sim_set_conf; [done | done | apply (g_env _ (si_F _ _ _ _ Hs))]. }
    rewrite (sim_root_tree _ _ Hs1), Ht. simpl. eexists. split; [done|]. by apply sim_set_root.
Qed.

(** **** FROM *)
Definition in_stage (b : bld) : Prop := cu_rootfs (b_cur b) = Some (Z.of_nat k) ∧ cu_index (b_cur b) = Z.of_nat k ∧ cu_name (b_cur b) = ps_alias s.
Lemma load_base_sim bF bP bF' :
  sim k recs bF bP → in_stage bF → (∀ img, (envMap (ic_Env (h_config H img))).1 ##ₘ A0) → load_base H (ps_fromRef s) bF = Ok bF' →
  ∃ bP', load_base H (ps_fromRef s) bP = Ok bP' ∧ sim k recs bF' bP' ∧ in_stage bF'.
Proof.
  intros Hs Hin Himg Hl. unfold load_base in *. case_bool_decide.
  - injection Hl as <-. eexists. split; [done|]. rewrite (sim_root_tree _ _ Hs). split; [by apply sim_set_root | done].
  - destruct (sim_lookup _ _ (ps_fromRef s) Hs) as [El Hst]; [left|]. rewrite El. destruct (lookupStage bF (ps_fromRef s)) as [st|] eqn:E.
    + destruct (Hst st eq_refl) as (j & ? & ? & Hj). rewrite Hj in *. rewrite (sim_tree bF bP j), (sim_root_tree _ _ Hs) by (done || lia).
      apply bind_Ok in Hl as (t & Ht & [= <-]). rewrite Ht. simpl. eexists. split; [done|].
      assert (Hst1 : sim k recs (set_root bF t) (set_root bP t)) by by apply sim_set_root. unfold b_cur in *. simpl. rewrite (si_conf _ _ _ _ Hs).
      split; [|done]. apply sim_set_conf; [done | done|]. simpl. by apply (g_recs _ (si_F _ _ _ _ Hs) (ps_fromRef s)).
    + apply bind_Ok in Hl as ([img b1] & Hp & (t & Ht & [= <-])%bind_Ok). destruct (pull_spec _ _ _ _ (si_F _ _ _ _ Hs) Hp) as (G1 & B1 & _ & Hi).
      destruct (pull_total _ _ _ (si_P _ _ _ _ Hs) Hi) as [b2 Hp2]. destruct (pull_spec _ _ _ _ (si_P _ _ _ _ Hs) Hp2) as (G2 & B2 & _ & _). rewrite Hp2. simpl.
      assert (Hs1 : sim k recs b1 b2) by by eapply sim_books. assert (Hin1 : in_stage b1) by (injection B1 as Hc _ _ _ _; unfold in_stage, b_cur in *; by rewrite Hc).
      set (c1 := with_cur (b_conf b1) (inheritBaseConfig (h_config H img) (b_cur b1))) in *.
      assert (Hc2 : with_cur (b_conf b2) (inheritBaseConfig (h_config H img) (b_cur b2)) = c1) by (unfold b_cur, c1; by rewrite (si_conf _ _ _ _ Hs1)).
      rewrite Hc2. assert (Hfr : conf_frame (b_conf b1) c1 ∧ cu_env (cf_cur c1) ##ₘ A0).
      { pose proof (Himg img) as Hd. unfold c1, inheritBaseConfig. destruct (envMap (ic_Env (h_config H img))). by split. }
      clearbody c1.
      assert (Hs2 : sim k recs (set_conf b1 c1) (set_conf b2 c1)) by (apply sim_set_conf; [done | apply Hfr | apply Hfr]).
      rewrite (sim_root_tree _ _ Hs2), Ht. simpl. eexists. split; [done|]. split; [by apply sim_set_root|].
      destruct Hfr as [[Hr Hn Hx _] _]. unfold in_stage, b_cur in *. simpl. by rewrite Hr, Hn, Hx.
Qed.
End stage.

(** **** The table of names when a stage ends *)
Lemma names_end P k s recs m r :
  stages !! k = Some s → bs_index r = Z.of_nat k → bs_name r = ps_alias s → names P k recs m →
  names P (S k) (<[k := r]> recs) (if P k then add_name r m else m).
Proof.
  intros Hk Hi Hn Hm ref. assert (Hold : nearest P k ref ≫= (fun i => <[k := r]> recs !! i) = m !! ref).
  { rewrite (Hm ref). destruct (nearest P k ref) as [j|] eqn:E; [|done]. simpl. apply nearest_below in E as [? _]. rewrite lookup_insert_ne by lia. done. }
  simpl. rewrite Hk. destruct (P k); simpl; [|done]. unfold stage_matches, add_name. rewrite Hi, Hn, (Hidx _ _ Hk).
  destruct (nonempty (ps_alias s)); simpl.
  - destruct (decide (ref = ps_alias s)) as [-> | Ha]; [rewrite lookup_insert_eq, (bool_decide_true (ps_alias s = ps_alias s)), orb_true_r by done; simpl; by rewrite lookup_insert_eq|].
    rewrite lookup_insert_ne, (bool_decide_false (ref = ps_alias s)), orb_false_r by done. case_bool_decide as Hr.
    + subst ref. rewrite lookup_insert_eq. simpl. by rewrite lookup_insert_eq.
    + rewrite lookup_insert_ne by done. by rewrite Hold.
  - rewrite orb_false_r. case_bool_decide as Hr; [subst ref; rewrite lookup_insert_eq; simpl; by rewrite lookup_insert_eq|]. rewrite lookup_insert_ne by done. by rewrite Hold.
Qed.

(** *** What a stage that is left out may do *)
Definition quiet (i : Instruction) : Prop :=
  in_Cmd i ≠ ARG ∧ ∀ m, m ∈ in_RunMounts i → rm_Type m ≠ MCache ∧ (rm_Type m = MBind → rm_ReadOnly m = true).
Record still (b b' : bld) : Prop := {
  sl_args : arguments (b_conf b') = arguments (b_conf b);
  sl_cache : b_cache b' = b_cache b;
  sl_context : b_context b' = b_context b;
  sl_trees : ∀ j, j ≠ rootfs_index b → b_trees b' !! j = b_trees b !! j;
  sl_rootfs : cu_rootfs (b_cur b') = cu_rootfs (b_cur b);
  sl_name : cu_name (b_cur b') = cu_name (b_cur b);
  sl_index : cu_index (b_cur b') = cu_index (b_cur b);
}.
#[export] Instance still_preorder : PreOrder still.
Proof.
  split; [by intros b|]. intros b1 b2 b3 [A1 A2 A3 A4 A5 A6 A7] [B1 B2 B3 B4 B5 B6 B7]. split; try congruence.
  intros j Hj. rewrite B4, A4; [done | done|]. unfold rootfs_index in *. by rewrite A5.
Qed.
Lemma still_root b t : still b (set_root b t).
Proof. split; try done. intros j Hj. simpl. by rewrite lookup_insert_ne. Qed.
Lemma still_books b b' : books b' = books b → still b b'.
Proof. intros [= Hc Ht Hx Ha _]. unfold b_cur. split; unfold b_cur; by rewrite ?Hc, ?Ht, ?Hx, ?Ha. Qed.
Lemma pull_books ref b img b' : pullImage H ref b = Ok (img, b') → books b' = books b.
Proof. unfold pullImage. destruct (b_pullCache b !! ref); [by intros [= <- <-]|]. by intros (i & _ & [= <- <-])%bind_Ok. Qed.
Lemma parse_books allowFrom arg p p' : parse_flag H allowFrom arg p = Ok p' → books (pa_b p') = books (pa_b p).
Proof.
  assert (Hrem : ∀ ref b b', resolveRemoteTransferRoot H ref b = Ok b' → books b' = books b).
  { intros ref b b'. unfold resolveRemoteTransferRoot. destruct (b_remote b !! ref); [by intros [= <-]|]. intros ([img b1] & H1%pull_books & (t & _ & [= <-])%bind_Ok)%bind_Ok. done. }
  unfold parse_flag, parse_from, option_ok. intros Hp.
  repeat match type of Hp with
  | context [match ?o with Some _ => _ | None => _ end] => destruct o eqn:?
  | context [if ?o then _ else _] => destruct o
  | mbind _ _ = Ok _ => apply bind_Ok in Hp as (? & ? & Hp)
  end; simplify_eq; simpl in *; simplify_eq; try done. by eapply Hrem.
Qed.
Lemma still_transfer allowFrom remote args b b' : handleTransfer H allowFrom remote args b = Ok b' → still b b'.
Proof.
  unfold handleTransfer, parseTransferSpec. intros ([spec b1] & (p & Hp & Hs)%bind_Ok & (t & _ & [= <-])%bind_Ok)%bind_Ok.
  assert (Hb : books (pa_b p) = books b).
  { apply (for_each_preorder (same (fun p => books (pa_b p)))) in Hp; [done|]. intros a p1 p2 _ H1. by apply parse_books in H1. }
  destruct (_ && _); [done|]. destruct (_ <? 2); [done|]. injection Hs as <- <-. etrans; [by apply still_books | apply still_root].
Qed.
(** A mount through which the command cannot write. *)
Definition inert (im : isolatedRunMount) : Prop := ∀ (t : option T) (b : bld), write_back (im, t) b = b.
Lemma quiet_mount b m im : rm_Type m ≠ MCache ∧ (rm_Type m = MBind → rm_ReadOnly m = true) → resolve_mount H b m = Ok im → inert im.
Proof.
  intros [Hc Hb] Hr t b'. unfold resolve_mount in Hr. destruct (rm_Type m); try done.
  - apply bind_Ok in Hr as (src & _ & Hr). destruct (source_stat H b src); [|done]. injection Hr as <-. unfold write_back. simpl. by rewrite Hb.
  - destruct (nonempty (rm_Target m)); [|done]. by injection Hr as <-.
  - destruct (_ && _); [done|]. apply bind_Ok in Hr as (found & _ & Hr). destruct found; [by injection Hr as <-|]. destruct (rm_Required m); [done|]. by injection Hr as <-.
  - destruct (rm_Required m); [done|]. by injection Hr as <-.
Qed.
Lemma quiet_mounts b ms out ims :
  (∀ m, m ∈ ms → rm_Type m ≠ MCache ∧ (rm_Type m = MBind → rm_ReadOnly m = true)) → Forall inert out →
  for_each (collect (resolve_mount H b)) ms out = Ok ims → Forall inert ims.
Proof.
  revert out. induction ms as [|m ms IH]; intros out Hq Ho; cbn [for_each]; [by intros [= <-]|].
  intros (o1 & (im & Him & [= <-])%bind_Ok & H2)%bind_Ok. revert H2. apply IH; [intros; apply Hq; by right|]. apply Forall_app. split; [done|].
  apply Forall_singleton. eapply quiet_mount; [apply Hq; left | done].
Qed.
Lemma still_run i b b' : quiet i → handleRUN H i b = Ok b' → still b b'.
Proof.
  intros [_ Hq] Hr. unfold handleRUN in Hr. destruct (in_Args i); [by injection Hr as <-|]. cbv zeta in Hr. apply bind_Ok in Hr as (t & _ & Hr).
  etrans; [apply (still_root b t)|]. generalize dependent (set_root b t). intros b1 Hr.
  assert (Hcmd : ∀ spec ims, Forall inert ims → run_command H spec ims b1 = Ok b' → still b1 b').
  { intros spec ims Hims. unfold run_command. intros ([t1 ts] & _ & [= <-])%bind_Ok. etrans; [apply (still_root b1 t1)|]. generalize (set_root b1 t1) as b2.
    clear - Hims. revert ts. induction Hims as [|im ims Him _ IH]; intros [|x ts] b2; simpl; try done. rewrite Him. apply IH. }
  destruct (h_root H).
  - apply bind_Ok in Hr as (ims & Hims & Hr). eapply Hcmd; [|done]. eapply quiet_mounts; [done | apply Forall_nil_2 | done].
  - destruct (in_RunMounts i); [|done]. eapply Hcmd; [|done]. apply Forall_nil_2.
Qed.
Lemma still_load image b b' : load_base H image b = Ok b' → still b b'.
Proof.
  unfold load_base. case_bool_decide; [intros [= <-]; apply still_root|]. destruct (lookupStage b image).
  - intros (t & _ & [= <-])%bind_Ok. etrans; [apply (still_root b t)|]. done.
  - intros ([img b1] & H1%pull_books & (t & _ & [= <-])%bind_Ok)%bind_Ok. etrans; [by apply still_books|].
    match goal with |- still _ (set_root ?b2 _) => etrans; [|apply (still_root b2)] end. unfold inheritBaseConfig. by destruct (envMap (ic_Env (h_config H img))).
Qed.
Lemma still_step i b b' : in_Cmd i ≠ FROM → quiet i → step H i b = Ok b' → still b b'.
Proof.
  intros Hi Hq Hs. unfold step in Hs. destruct (negb _ && _); [done|].
  assert (Hcf : (c ← step_conf H i (b_conf b); Ok (set_conf b c)) = Ok b' → still b b').
  { intros (c & Hc & [= <-])%bind_Ok. destruct (step_conf_frame _ _ _ Hc) as [[Hr Hn Hx _] Ha]. specialize (Ha (proj1 Hq)). by split. }
  destruct (in_Cmd i) eqn:Ei; try done; try (by apply Hcf).
  - by eapply still_run.
  - by eapply still_transfer.
  - by eapply still_transfer.
  - unfold handleWORKDIR in Hs. destruct (in_Args i); [by injection Hs as <-|]. apply bind_Ok in Hs as ([dir u] & _ & (t & _ & [= <-])%bind_Ok).
    match goal with |- still _ (set_root ?b1 _) => etrans; [|apply (still_root b1)] end. done.
Qed.
End prune.

Section prune_all.
Context {T Img : Type} (H : Host T Img) (A0 : gmap str str) (OS ARCH : str) (stages : list plannedStage) (reach : nat → bool).
Abbreviation bld := (builder T Img).
Abbreviation simulates := (sim H A0 OS ARCH stages).
Hypothesis Hidx : indexed stages.
Hypothesis Hclosed : ∀ i j, reach i = true → refers stages i j → reach j = true.
Hypothesis Himg : ∀ img, (envMap (ic_Env (h_config H img))).1 ##ₘ A0.

(** *** Two builders between stages *)
Record agree (k : nat) (recs : gmap nat buildStage) (bF bP : bld) : Prop := {
  ag_F : good H A0 OS ARCH bF;
  ag_P : good H A0 OS ARCH bP;
  ag_args : arguments (b_conf bP) = arguments (b_conf bF);
  ag_cache : b_cache bP = b_cache bF;
  ag_context : b_context bP = b_context bF;
  ag_trees : ∀ i, (i < k)%nat → reach i = true → b_trees bP !! Z.of_nat i = b_trees bF !! Z.of_nat i;
  ag_nF : names stages all k recs (b_byName (commitCurrentStage bF));
  ag_nP : names stages reach k recs (b_byName (commitCurrentStage bP));
  ag_placed : placed recs;
  ag_last : ∀ j, k = S j → reach j = true → b_conf bP = b_conf bF ∧ cu_rootfs (b_cur bF) = Some (Z.of_nat j);
}.

(** The first instruction of a stage, and the others. *)
Definition from_fixed (s : plannedStage) (i : Instruction) : Prop :=
  ∃ image, parseFromArgs (in_Args i) = Ok (image, ps_alias s) ∧ fixed H A0 image (ps_fromRef s) ∧ (in_Platform i ≠ [] → ∃ p, fixed H A0 (in_Platform i) p).
Definition planned_ok (s : plannedStage) : Prop :=
  ∃ i rest, ps_instrs s = i :: rest ∧ in_Cmd i = FROM ∧ Forall (fun i => in_Cmd i ≠ FROM) rest ∧ from_fixed s i ∧ Forall (sees H A0 s) rest.

Definition fresh_stage (k : nat) (s : plannedStage) (b : bld) : bld := startStage H (ps_alias s) (commitCurrentStage (set_next b (Z.of_nat k))).
Lemma platform_fixed b i : good H A0 OS ARCH b → (in_Platform i ≠ [] → ∃ p, fixed H A0 (in_Platform i) p) →
  ∃ r, check_platform H (in_Platform i) (b_conf b) = r ∧ ∀ b', good H A0 OS ARCH b' → check_platform H (in_Platform i) (b_conf b') = r.
Proof.
  intros Hg Hp. eexists. split; [done|]. intros b' Hg'. unfold check_platform. case_bool_decide as He; [done|]. destruct (Hp He) as [p Hf].
  by rewrite (fixed_strict _ _ _ _ _ _ _ Hg Hf), (fixed_strict _ _ _ _ _ _ _ Hg' Hf).
Qed.
(** A FROM is a load of the base into a fresh stage. *)
Lemma from_step k s i b : stages !! k = Some s → in_Cmd i = FROM → from_fixed s i → good H A0 OS ARCH b →
  (∃ r, ps_fromRef s ≠ [] ∧ check_platform H (in_Platform i) (b_conf b) = Ok r ∧
        stage_step H (ps_index s) i b = load_base H (ps_fromRef s) (fresh_stage k s b)) ∨
  (ps_fromRef s = [] ∨ ∀ r, check_platform H (in_Platform i) (b_conf b) ≠ Ok r) ∧ ∀ b', stage_step H (ps_index s) i b ≠ Ok b'.
Proof.
  intros Hk Hc (image & Hp & Hf & _) Hg. unfold stage_step, step, handleFROM. rewrite Hc, (Hidx _ _ Hk). rewrite bool_decide_true by set_solver. simpl.
  rewrite Hp. simpl. rewrite (fixed_strict _ _ _ _ _ _ _ Hg Hf). simpl. case_bool_decide as He; [right; by split; [left|]|].
  destruct (check_platform H (in_Platform i) (b_conf b)) as [r|e| |]; simpl; [left; by exists r | right; by split; [right|]..].
Qed.
Lemma good_fresh k s b : good H A0 OS ARCH b → good H A0 OS ARCH (fresh_stage k s b).
Proof.
  intros [G1 G2 G3 G4 G5 G6 G7]. unfold fresh_stage, commitCurrentStage. destruct (stage_record (b_cur (set_next b (Z.of_nat k)))) as [r|] eqn:E; split; simpl; try done; try apply map_disjoint_empty_l.
  assert (Hr : bs_env r ##ₘ A0) by (unfold stage_record in E; destruct (cu_rootfs _); [|done]; by injection E as <-).
  unfold add_name. case_match; repeat (apply map_Forall_insert_2; [done|]); done.
Qed.
Lemma fresh_fields k s b :
  arguments (b_conf (fresh_stage k s b)) = arguments (b_conf b) ∧ b_cache (fresh_stage k s b) = b_cache b ∧ b_context (fresh_stage k s b) = b_context b ∧
  b_trees (fresh_stage k s b) = <[Z.of_nat k := h_empty H]> (b_trees b) ∧ b_byName (fresh_stage k s b) = b_byName (commitCurrentStage b) ∧ in_stage k s (fresh_stage k s b).
Proof. unfold fresh_stage, commitCurrentStage. change (b_cur (set_next b (Z.of_nat k))) with (b_cur b). by destruct (stage_record (b_cur b)). Qed.
Lemma fresh_conf k s bF bP : arguments (b_conf bP) = arguments (b_conf bF) → b_conf (fresh_stage k s bP) = b_conf (fresh_stage k s bF).
Proof.
  intros [= E1 E2]. unfold fresh_stage, commitCurrentStage. change (b_cur (set_next bF (Z.of_nat k))) with (b_cur bF). change (b_cur (set_next bP (Z.of_nat k))) with (b_cur bP).
  destruct (stage_record (b_cur bF)), (stage_record (b_cur bP)); unfold startStage, set_conf, with_cur; simpl; by rewrite E1, E2.
Qed.
Lemma fresh_sim k s recs bF bP : agree k recs bF bP → simulates reach k recs (fresh_stage k s bF) (fresh_stage k s bP).
Proof.
  intros [AF AP A1 A2 A3 A4 A5 A6 A7 _]. destruct (fresh_fields k s bF) as (F1 & F2 & F3 & F4 & F5 & F6 & F7 & F8). destruct (fresh_fields k s bP) as (P1 & P2 & P3 & P4 & P5 & P6 & P7 & P8).
  split; [by apply good_fresh | by apply good_fresh | by apply fresh_conf | done | congruence | congruence | | by rewrite F5 | by rewrite P5].
  intros i Hi Hr. rewrite F4, P4. destruct (decide (i = k)) as [-> | Hn]; [by rewrite !lookup_insert_eq|]. rewrite !lookup_insert_ne by lia. apply A4; [lia | done].
Qed.
Lemma agree_self k recs b : good H A0 OS ARCH b → names stages all k recs (b_byName (commitCurrentStage b)) → placed recs →
  ∀ s, simulates all k recs (fresh_stage k s b) (fresh_stage k s b).
Proof.
  intros Hg Hn Hp s. destruct (fresh_fields k s b) as (F1 & F2 & F3 & F4 & F5 & F6 & F7 & F8). split; try done; try (by apply good_fresh); by rewrite F5.
Qed.

(** *** A whole stage *)
Lemma step_in_stage k s i b b' : in_Cmd i ≠ FROM → in_stage k s b → step H i b = Ok b' → in_stage k s b'.
Proof.
  intros Hi (H1 & H2 & H3) Hs. unfold step in Hs. destruct (negb _ && _); [done|].
  assert (Hk : keeps b b' → in_stage k s b') by (intros [Hc _]; unfold in_stage, b_cur in *; by rewrite Hc).
  assert (Hcf : (c ← step_conf H i (b_conf b); Ok (set_conf b c)) = Ok b' → in_stage k s b').
  { intros (c & Hc & [= <-])%bind_Ok. destruct (step_conf_frame _ _ _ _ Hc) as [[Hr Hn Hx _] _]. unfold in_stage, b_cur in *. simpl. by rewrite Hr, Hn, Hx. }
  destruct (in_Cmd i); try done; try (by apply Hcf).
  - by eapply Hk, handleRUN_keeps.
  - by eapply Hk, transfer_keeps.
  - by eapply Hk, transfer_keeps.
  - unfold handleWORKDIR in Hs. destruct (in_Args i); [by injection Hs as <-|]. by apply bind_Ok in Hs as ([dir u] & _ & (t & _ & [= <-])%bind_Ok).
Qed.
Lemma stage_step_other z i b : in_Cmd i ≠ FROM → stage_step H z i b = step H i b.
Proof. intros Hi. unfold stage_step. by destruct (in_Cmd i). Qed.

Lemma rest_sim (P : nat → bool) k s recs rest bF bP bF' :
  (∀ i j, P i = true → refers stages i j → P j = true) → stages !! k = Some s → P k = true → placed recs →
  Forall (fun i => in_Cmd i ≠ FROM) rest → Forall (sees H A0 s) rest → simulates P k recs bF bP → in_stage k s bF →
  for_each (stage_step H (ps_index s)) rest bF = Ok bF' →
  ∃ bP', for_each (stage_step H (ps_index s)) rest bP = Ok bP' ∧ simulates P k recs bF' bP' ∧ in_stage k s bF'.
Proof.
  intros Hcl Hk HP Hpl Hne Hse. revert bF bP. induction Hse as [|i rest Hi Hse IH]; intros bF bP Hs Hin; cbn [for_each]; [intros [= <-]; by exists bP|].
  apply Forall_cons in Hne as [Hi' Hne]. rewrite !stage_step_other by done. intros (b1 & H1 & H2)%bind_Ok.
  destruct (step_sim H A0 OS ARCH stages P Hcl k s recs Hk HP Hpl i bF bP b1 Hs Hi' Hi H1) as (b2 & -> & Hs1). simpl.
  apply (IH Hne b1 b2 Hs1); [by eapply step_in_stage | done].
Qed.
Lemma record_of k s (b : bld) : in_stage k s b → ∃ r, stage_record (b_cur b) = Some r ∧ bs_index r = Z.of_nat k ∧ bs_name r = ps_alias s ∧ bs_rootfs r = Z.of_nat k ∧
  b_byName (commitCurrentStage b) = add_name r (b_byName b).
Proof.
  intros (H1 & H2 & H3). unfold commitCurrentStage, stage_record. rewrite H1. simpl. eexists. splits; try done.
Qed.
Lemma placed_insert recs k r : placed recs → bs_rootfs r = Z.of_nat k → placed (<[k := r]> recs).
Proof. intros Hp Hr i st. destruct (decide (i = k)) as [-> | Hn]; [rewrite lookup_insert_eq; by intros [= <-] | rewrite lookup_insert_ne by done; apply Hp]. Qed.

Lemma stage_exec k s recs bF bP bF' :
  stages !! k = Some s → reach k = true → planned_ok s → agree k recs bF bP → for_each (stage_step H (ps_index s)) (ps_instrs s) bF = Ok bF' →
  ∃ bP' recs', for_each (stage_step H (ps_index s)) (ps_instrs s) bP = Ok bP' ∧ agree (S k) recs' bF' bP'.
Proof.
  intros Hk Hr (i & rest & -> & Hi & Hne & Hff & Hse) Ha. cbn [for_each]. intros (b1 & H1 & H2)%bind_Ok. destruct Hff as (image & Hp & Hf & Hpl).
  assert (Hff : from_fixed s i) by by exists image. destruct (platform_fixed bF i (ag_F _ _ _ _ Ha) Hpl) as (r & Er & Heq). specialize (Heq bP (ag_P _ _ _ _ Ha)).
  destruct (from_step k s i bF Hk Hi Hff (ag_F _ _ _ _ Ha)) as [(u & Hn & Hc & EF)|[_ HF]]; [|by destruct (HF b1)].
  destruct (from_step k s i bP Hk Hi Hff (ag_P _ _ _ _ Ha)) as [(u' & _ & _ & EP)|[[HP|HP] _]]; [|done | destruct (HP u); congruence].
  rewrite EF in H1. rewrite EP. pose proof (fresh_sim k s recs bF bP Ha) as Hs0. destruct (fresh_fields k s bF) as (_ & _ & _ & _ & _ & Hin0).
  destruct (load_base_sim H A0 OS ARCH stages reach Hclosed k s recs Hk Hr (ag_placed _ _ _ _ Ha) _ _ _ Hs0 Hin0 Himg H1) as (b2 & -> & Hs1 & Hin1). simpl.
  destruct (rest_sim reach k s recs rest b1 b2 bF' Hclosed Hk Hr (ag_placed _ _ _ _ Ha) Hne Hse Hs1 Hin1 H2) as (bP' & -> & Hs2 & Hin2).
  destruct (record_of k s bF' Hin2) as (rec & R1 & R2 & R3 & R4 & R5). destruct Hs2 as [GF GP E1 E2 E3 E4 E5 E6 E7].
  assert (R5' : b_byName (commitCurrentStage bP') = add_name rec (b_byName bP')).
  { unfold commitCurrentStage. assert (b_cur bP' = b_cur bF') as -> by (unfold b_cur; by rewrite E1). by rewrite R1. }
  exists bP', (<[k := rec]> recs). split; [done|]. split; try done.
  - by rewrite E1.
  - intros j Hj Hrj. apply E5; [lia | done].
  - rewrite R5. by apply (names_end stages Hidx all k s).
  - rewrite R5'. pose proof (names_end stages Hidx reach k s recs _ rec Hk R2 R3 E7) as Hne'. by rewrite Hr in Hne'.
  - apply placed_insert; [apply (ag_placed _ _ _ _ Ha) | done].
  - intros j [= <-] _. by split; [|apply Hin2].
Qed.

Lemma stage_skip k s recs bF bP bF' :
  stages !! k = Some s → reach k = false → planned_ok s → Forall (fun i => in_Cmd i ≠ FROM → quiet i) (ps_instrs s) → agree k recs bF bP →
  for_each (stage_step H (ps_index s)) (ps_instrs s) bF = Ok bF' → ∃ recs', agree (S k) recs' bF' bP.
Proof.
  intros Hk Hr (i & rest & -> & Hi & Hne & Hff & Hse) Hq Ha. cbn [for_each]. intros (b1 & H1 & H2)%bind_Ok. apply Forall_cons in Hq as [_ Hq].
  destruct (from_step k s i bF Hk Hi Hff (ag_F _ _ _ _ Ha)) as [(u & Hn & Hc & EF)|[_ HF]]; [|by destruct (HF b1)]. rewrite EF in H1.
  pose proof (agree_self k recs bF (ag_F _ _ _ _ Ha) (ag_nF _ _ _ _ Ha) (ag_placed _ _ _ _ Ha) s) as Hs0. destruct (fresh_fields k s bF) as (F1 & F2 & F3 & F4 & _ & Hin0).
  assert (Hall : ∀ i j, all i = true → refers stages i j → all j = true) by done.
  destruct (load_base_sim H A0 OS ARCH stages all Hall k s recs Hk eq_refl (ag_placed _ _ _ _ Ha) _ _ _ Hs0 Hin0 Himg H1) as (b2 & E2 & Hs1 & Hin1).
  assert (b2 = b1) as -> by congruence. destruct (rest_sim all k s recs rest b1 b1 bF' Hall Hk eq_refl (ag_placed _ _ _ _ Ha) Hne Hse Hs1 Hin1 H2) as (b3 & E3 & Hs2 & Hin2).
  assert (b3 = bF') as -> by congruence. assert (Hst0 : still (fresh_stage k s bF) b1) by by eapply still_load.
  assert (Hst : still b1 bF').
  { clear - H2 Hq Hne. revert H2. apply for_each_preorder; [apply _|]. intros x c c' Hx. rewrite Forall_forall in Hq, Hne. rewrite stage_step_other by by apply Hne. apply still_step; [by apply Hne | apply Hq; [done | by apply Hne]]. }
  assert (Hst2 : still (fresh_stage k s bF) bF') by (etrans; [apply Hst0 | apply Hst]). destruct Hst2 as [L1 L2 L3 L4 L5 L6 L7].
  destruct (record_of k s bF' Hin2) as (rec & R1 & R2 & R3 & R4 & R5). destruct Hs2 as [GF _ _ _ _ _ _ E6 _]. destruct Ha as [AF AP A1 A2 A3 A4 A5 A6 A7 A8].
  exists (<[k := rec]> recs). split; try done; try congruence.
  - intros j Hj Hrj. assert (j ≠ k) by congruence. rewrite L4 by (unfold rootfs_index; destruct Hin0 as [-> _]; simpl; lia). rewrite F4, lookup_insert_ne by lia. apply A4; [lia | done].
  - rewrite R5. by apply (names_end stages Hidx all k s).
  - pose proof (names_end stages Hidx reach k s recs _ rec Hk R2 R3 A6) as Hne'. by rewrite Hr in Hne'.
  - by apply placed_insert.
Qed.

Lemma stages_sim (out : gset Z) bF bP bF' recs k :
  (∀ i, reach i = bool_decide (Z.of_nat i ∈ out)) → Forall planned_ok stages →
  (∀ i s, stages !! i = Some s → reach i = false → Forall (fun i => in_Cmd i ≠ FROM → quiet i) (ps_instrs s)) → agree k recs bF bP →
  run_stages H (fun _ => true) (drop k stages) bF = Ok bF' →
  ∃ bP' recs', run_stages H (fun i => bool_decide (i ∈ out)) (drop k stages) bP = Ok bP' ∧ agree (Nat.max k (length stages)) recs' bF' bP'.
Proof.
  intros Hr Hp Hq. remember (length stages - k)%nat as n eqn:En. revert k recs bF bP En. induction n as [|n IH]; intros k recs bF bP En Ha.
  - rewrite drop_ge by lia. intros [= <-]. exists bP, recs. split; [done|]. by rewrite Nat.max_l by lia.
  - destruct (lookup_lt_is_Some_2 stages k) as [s Hk]; [lia|]. rewrite (drop_S _ _ _ Hk). unfold run_stages in *. cbn [for_each].
    intros (b1 & H1 & H2)%bind_Ok. change (for_each (stage_step H (ps_index s)) (ps_instrs s) bF = Ok b1) in H1. pose proof (Forall_lookup_1 _ _ _ _ Hp Hk) as Hps.
    assert (Hgo : ∃ b2 recs2, run_stage H (fun i => bool_decide (i ∈ out)) s bP = Ok b2 ∧ agree (S k) recs2 b1 b2).
    { unfold run_stage. cbv beta. assert (bool_decide (ps_index s ∈ out) = reach k) as -> by by rewrite (Hidx _ _ Hk), Hr. destruct (reach k) eqn:Erk; [by eapply stage_exec|].
      destruct (stage_skip k s recs bF bP b1 Hk Erk Hps (Hq _ _ Hk Erk) Ha H1) as [recs2 ?]. by exists bP, recs2. }
    destruct Hgo as (b2 & recs2 & -> & Ha2). simpl. destruct (IH (S k) recs2 b1 b2) as (bP' & recs' & E & Ha'); [lia | done | done|].
    exists bP', recs'. split; [done|]. by replace (Nat.max k (length stages)) with (Nat.max (S k) (length stages)) by lia.
Qed.
Lemma finish_sim j recs bF bP r : agree (S j) recs bF bP → reach j = true → finish H bF = Ok r → finish H bP = Ok r.
Proof.
  intros [_ _ _ _ _ A4 _ _ _ A8] Hr. destruct (A8 j eq_refl Hr) as [Hc Hroot]. unfold finish.
  assert (Hcur : b_cur bP = b_cur bF) by (unfold b_cur; by rewrite Hc).
  assert (Hcc : ∀ b : bld, cu_rootfs (b_cur (commitCurrentStage b)) = cu_rootfs (b_cur b) ∧ cu_config (b_cur (commitCurrentStage b)) = cu_config (b_cur b) ∧ b_trees (commitCurrentStage b) = b_trees b)
    by (intros b; unfold commitCurrentStage; by destruct (stage_record (b_cur b))).
  destruct (Hcc bF) as (C1 & C2 & C3). destruct (Hcc bP) as (D1 & D2 & D3). rewrite C1, C2, D1, D2, Hcur, Hroot. simpl.
  assert (Ht : root_tree H (commitCurrentStage bP) = root_tree H (commitCurrentStage bF)).
  { unfold root_tree, rootfs_index, stage_tree. rewrite C1, D1, C3, D3, Hcur, Hroot. simpl. rewrite A4; [done | lia | done]. }
  by rewrite Ht.
Qed.
End prune_all.

(** ** The theorem *)

(** The build without pruning: every stage is executed. *)
Definition build_all {T Img} (H : Host T Img) (context : T) (buildArgs : gmap str str) (instrs : list Instruction) : result (T * ImageConfig) :=
  let b := new_builder H context buildArgs in
  '(preamble, stages) ← buildStagePlan (h_lex H) instrs (cf_args (b_conf b));
  b ← for_each (step H) preamble b;
  b ← run_stages H (fun _ => true) stages b;
  finish H b.

(** When leaving stages out is unnoticeable, for some arguments [A0] that are
    set before the first stage: references and platforms expand to words that
    depend on [A0] only, ENV and base images set no variable of [A0], and the
    stages left out declare no argument, use no cache and mount no other
    directory for writing. *)
Record prunable {T Img} (H : Host T Img) (A0 : gmap str str) (preamble : list Instruction) (stages : list plannedStage) (out : gset Z) (seed : gmap str str) (b : builder T Img) : Prop := {
  pr_plan : A0 ⊆ plan_args (h_lex H) seed preamble;
  pr_run : A0 ⊆ cf_args (b_conf b);
  pr_from : ∀ s i image alias, s ∈ stages → i ∈ ps_instrs s → in_Cmd i = FROM → parseFromArgs (in_Args i) = Ok (image, alias) →
    (∃ v, fixed H A0 image v) ∧ (in_Platform i ≠ [] → ∃ p, fixed H A0 (in_Platform i) p);
  pr_words : ∀ s i w, s ∈ stages → i ∈ ps_instrs s → in_Cmd i = COPY ∨ in_Cmd i = ADD → w ∈ from_words (in_Args i) → ∃ v, fixed H A0 w v;
  pr_mounts : ∀ s i m, s ∈ stages → i ∈ ps_instrs s → m ∈ in_RunMounts i → rm_From m ≠ [] → fixed H A0 (rm_From m) (rm_From m);
  pr_env : ∀ s i, s ∈ stages → i ∈ ps_instrs s → env_fresh A0 i;
  pr_images : ∀ img, (envMap (ic_Env (h_config H img))).1 ##ₘ A0;
  pr_skipped : ∀ s i, s ∈ stages → ps_index s ∉ out → i ∈ ps_instrs s → in_Cmd i ≠ FROM → quiet i;
}.

Lemma preamble_steps {T Img} (H : Host T Img) preamble b b' :
  Forall (fun i => in_Cmd i ≠ FROM) preamble → cu_rootfs (b_cur b) = None → for_each (step H) preamble b = Ok b' →
  b_cur b' = b_cur b ∧ b_byName b' = b_byName b ∧ b_pullCache b' = b_pullCache b ∧ b_remote b' = b_remote b ∧ cf_args (b_conf b) ⊆ cf_args (b_conf b').
Proof.
  intros Hn. revert b. induction Hn as [|i preamble Hi _ IH]; intros b Hr; cbn [for_each]; [by intros [= <-]|]. intros (b1 & H1 & H2)%bind_Ok.
  unfold step in H1. rewrite (bool_decide_true (_ = None)), andb_true_r in H1 by done. case_bool_decide as Hc; [|done]. simpl in H1.
  assert (in_Cmd i = ARG) as Ei by set_solver. rewrite Ei in H1. unfold step_conf in H1. rewrite Ei in H1. apply bind_Ok in H1 as (c & Hc1 & [= <-]).
  destruct (handleARG_frame _ _ _ _ Hc1) as [[_ _ _ Ha] Hcur].
  assert (Hcur' : b_cur (set_conf b c) = b_cur b) by done. destruct (IH (set_conf b c)) as (E1 & E2 & E3 & E4 & E5); [by rewrite Hcur' | done|].
  rewrite E1, E2, E3, E4. splits; try done. by etrans.
Qed.

Lemma stages_planned {T Img} (H : Host T Img) A0 preamble stages out seed b :
  prunable H A0 preamble stages out seed b → Forall (stage_planned (h_lex H) (plan_args (h_lex H) seed preamble)) stages → Forall (planned_ok H A0) stages.
Proof.
  intros [P1 _ P3 P4 P5 P6 _ _] Hp. rewrite Forall_forall in Hp. apply Forall_forall. intros s Hs. destruct (Hp s Hs) as [(i & rest & image & args & E & Hc & Hne & Hpf & Ha & Hx) Hrefs].
  assert (Hin : ∀ j, j ∈ rest → j ∈ ps_instrs s) by (intros j Hj; rewrite E; by right). assert (Hi : i ∈ ps_instrs s) by (rewrite E; left).
  exists i, rest. splits; try done.
  - destruct (P3 s i image (ps_alias s) Hs Hi Hc Hpf) as [[v Hv] Hpl]. exists image. splits; [done | | done].
    assert (ps_fromRef s = v) as -> by (eapply fixed_planned; [done | | done]; by etrans). done.
  - apply Forall_forall. intros j Hj. split.
    + intros w Hcmd Hw. destruct (P4 s j w Hs (Hin j Hj) Hcmd Hw) as [v Hv]. exists v. split; [done|].
      destruct (Hrefs j w (Hin j Hj)) as (a & v' & Ha' & Hx' & Hd); [unfold ref_words; by destruct Hcmd as [-> | ->]|].
      assert (v' = v) as <- by (eapply fixed_planned; [done | | done]; by etrans). done.
    + intros m Hcmd Hm Hf. destruct (Hrefs j (rm_From m) (Hin j Hj)) as (a & v' & Ha' & Hx' & Hd).
      { unfold ref_words. rewrite Hcmd. apply list_elem_of_filter. split; [done|]. by apply list_elem_of_fmap_2. }
      assert (v' = rm_From m) as <- by (eapply fixed_planned; [exact (P5 s j m Hs (Hin j Hj) Hm Hf) | | done]; by etrans). done.
    + exact (P6 s j Hs (Hin j Hj)).
Qed.

(** C11: when the stages that are left out declare no argument and share no
    writable mount, references do not depend on variables that stages set, and
    nothing shadows the arguments they do depend on, then leaving those stages
    out does not change the build: if executing every stage succeeds, the pruned
    build succeeds with the same files and the same image configuration. *)
Theorem dockerfile_pruning_exact {T Img} (H : Host T Img) context buildArgs instrs A0 preamble stages out b r :
  let b0 := new_builder H context buildArgs in
  buildStagePlan (h_lex H) instrs (cf_args (b_conf b0)) = Ok (preamble, stages) → markReachableStages stages = Ok out →
  for_each (step H) preamble b0 = Ok b → prunable H A0 preamble stages out (cf_args (b_conf b0)) b →
  build_all H context buildArgs instrs = Ok r → Build H context buildArgs instrs = Ok r.
Proof.
  intros b0 Hplan Hmark Hpre Hpr Hall. unfold build_all in Hall. unfold Build, execute. fold b0 in Hall |- *. rewrite Hplan in *. simpl in *. rewrite Hmark, Hpre in *. simpl in *.
  apply bind_Ok in Hall as (bF & Hrun & Hfin). destruct (plan_spec _ _ _ _ _ Hplan) as (Hn & _ & Hidx & Hst).
  destruct (mark_exact stages Hidx) as (out' & Hm' & Hout). rewrite Hmark in Hm'. injection Hm' as <-.
  destruct (preamble_steps H preamble b0 b Hn eq_refl Hpre) as (E1 & E2 & E3 & E4 & E5).
  set (reach := fun i => bool_decide (Z.of_nat i ∈ out)).
  assert (Hcl : ∀ i j, reach i = true → refers stages i j → reach j = true).
  { intros i j [Hi Hr]%bool_decide_eq_true%Hout Hij. apply bool_decide_eq_true, Hout. pose proof (refers_lt _ _ _ Hij). split; [lia|]. by eapply rtc_r. }
  assert (Hos : ∀ k, is_Some (defaultBuildArgs (h_GOOS H) (h_GOARCH H) !! k) → ∃ v, cf_args (b_conf b) !! k = Some v).
  { intros k Hk. assert (Hb0 : is_Some (cf_args (b_conf b0) !! k)) by (simpl; apply lookup_union_is_Some; by right). destruct Hb0 as [v Hv]. exists v. by eapply lookup_weaken. }
  destruct (Hos (sbytes "TARGETOS")) as [OS Hos1]; [by vm_compute; eexists|]. destruct (Hos (sbytes "TARGETARCH")) as [ARCH Hos2]; [by vm_compute; eexists|].
  assert (Hg : good H A0 OS ARCH b).
  { split; rewrite ?E1, ?E2, ?E3, ?E4; try done; [apply Hpr | apply map_disjoint_empty_l | apply map_Forall_empty..]. }
  assert (Ha : agree H A0 OS ARCH stages reach 0 ∅ b b).
  { assert (Hcom : b_byName (commitCurrentStage b) = ∅) by (unfold commitCurrentStage, stage_record; rewrite E1; simpl; by rewrite E2).
    split; try done; [by intros x; rewrite Hcom, lookup_empty | by intros x; rewrite Hcom, lookup_empty]. }
  destruct (stages_sim H A0 OS ARCH stages reach Hidx Hcl (pr_images _ _ _ _ _ _ _ Hpr) out b b bF ∅ 0) as (bP & recs & HP & Ha'); [done | | |done | by rewrite drop_0|].
  - by eapply stages_planned.
  - intros i s Hs Hr. apply Forall_forall. intros x Hx Hf. eapply pr_skipped; [done | by eapply list_elem_of_lookup_2 | | done | done].
    unfold reach in Hr. rewrite bool_decide_eq_false in Hr. by rewrite (Hidx _ _ Hs).
  - rewrite drop_0 in HP. rewrite HP. simpl. destruct (length stages) as [|n] eqn:En.
    + apply nil_length_inv in En as ->. injection HP as <-. by injection Hrun as <-.
    + eapply finish_sim; [exact Ha' | | done]. apply bool_decide_eq_true, Hout. split; [lia|]. replace (S n - 1)%nat with n by lia. done.
Qed.

(** ** Example builds

    A host whose trees are the list of what happened to them and whose only
    variables are whole words [$NAME]. *)
Definition ex_lex (w : str) (env : list str) : option (str * list str) :=
  match w with
  | 36 :: name => Some (match (envMap env).1 !! name with Some v => (v, []) | None => ([], [name]) end)
  | _ => Some (w, [])
  end.
Definition ex_host : Host (list str) str :=
  mkHost _ _ ex_lex (fun _ => None) (sbytes "linux") (sbytes "amd64") true [] (fun src dst => Some (dst ++ src)) (fun t => t) (fun p t => Some (t ++ [p]))
    (fun _ t => Some t) (fun _ _ => true) (fun _ _ => None) (fun _ => true) (fun _ => Some false)
    (fun spec ms t => Some (t ++ rs_Args spec, snd <$> ms)) (fun ref _ _ => Some ref) (fun _ => empty_config) (fun img t => Some (t ++ [img]))
    (fun spec src dst => Some (dst ++ src)).
Definition from_as (image alias : string) : Instruction := instr FROM [sbytes image; as_word; sbytes alias].
Definition ex_run (cmd : string) : Instruction := mkInstr RUN [sbytes cmd] true [] [].
Definition ex_file : list Instruction :=
  [from_as "alpine" "base"; ex_run "apk add gcc"; from_as "scratch" "unused"; ex_run "sleep 100"; from_as "base" "build"; instr ENV [sbytes "A=1"]; ex_run "make";
   instr FROM [sbytes "scratch"]; instr COPY [sbytes "--from=build"; sbytes "/out"; sbytes "/out"]].
Definition ex_args : gmap str str := cf_args (b_conf (new_builder ex_host [] ∅)).
Definition ex_stages : list plannedStage := match buildStagePlan ex_lex ex_file ex_args with Ok p => p.2 | _ => [] end.
Definition ex_out : gset Z := match markReachableStages ex_stages with Ok out => out | _ => ∅ end.
Definition ex_result : list str * ImageConfig := match build_all ex_host [] ∅ ex_file with Ok r => r | _ => ([], empty_config) end.

Lemma ex_fixed w : head w ≠ Some 36 → fixed ex_host ∅ w w.
Proof.
  intros Hw args env _ _. simpl. unfold ex_lex. destruct w as [|c w]; [done|]. destruct (decide (c = 36)) as [-> | Hc]; [done|].
  repeat (destruct c as [|c|c]; try done).
Qed.
(** Everything the example's instructions refer to is written out. *)
Definition ex_literal (i : Instruction) : bool :=
  match in_Cmd i with
  | FROM => match parseFromArgs (in_Args i) with Ok p => negb (bool_decide (head p.1 = Some 36)) && bool_decide (in_Platform i = []) | _ => true end
  | COPY | ADD => forallb (fun w => negb (bool_decide (head w = Some 36))) (from_words (in_Args i))
  | ARG => false
  | _ => true
  end && bool_decide (length (in_RunMounts i) = 0%nat).
Lemma ex_prunable : prunable ex_host ∅ [] ex_stages ex_out ex_args (new_builder ex_host [] ∅).
Proof.
  assert (Hlit : ∀ s i, s ∈ ex_stages → i ∈ ps_instrs s → ex_literal i = true).
  { intros s i Hs Hi. assert (Hall : forallb (fun s => forallb ex_literal (ps_instrs s)) ex_stages = true) by (vm_compute; reflexivity).
    rewrite forallb_forall in Hall. specialize (Hall s). rewrite <- list_elem_of_In in Hall. specialize (Hall Hs). rewrite forallb_forall in Hall. apply Hall. by apply list_elem_of_In. }
  split; [apply map_empty_subseteq | apply map_empty_subseteq | | | | done | intros; apply map_disjoint_empty_r |].
  - intros s i image alias Hs Hi Hc Hp. specialize (Hlit s i Hs Hi). unfold ex_literal in Hlit. rewrite Hc, Hp in Hlit. apply andb_true_iff in Hlit as [Hlit _].
    apply andb_true_iff in Hlit as [Hl Hpl]. apply negb_true_iff, bool_decide_eq_false in Hl. apply bool_decide_eq_true in Hpl.
    split; [exists image; by apply ex_fixed | done].
  - intros s i w Hs Hi Hc Hw. specialize (Hlit s i Hs Hi). unfold ex_literal in Hlit. apply andb_true_iff in Hlit as [Hl _].
    assert (Hf : forallb (fun w => negb (bool_decide (head w = Some 36))) (from_words (in_Args i)) = true) by by destruct Hc as [Hc | Hc]; rewrite Hc in Hl.
    rewrite forallb_forall in Hf. exists w. apply ex_fixed. specialize (Hf w). rewrite <- list_elem_of_In in Hf. specialize (Hf Hw). by apply negb_true_iff, bool_decide_eq_false in Hf.
  - intros s i m Hs Hi Hm. specialize (Hlit s i Hs Hi). unfold ex_literal in Hlit. apply andb_true_iff in Hlit as [_ Hl]. apply bool_decide_eq_true, nil_length_inv in Hl.
    rewrite Hl in Hm. by apply not_elem_of_nil in Hm.
  - intros s i Hs _ Hi _. specialize (Hlit s i Hs Hi). unfold ex_literal in Hlit. apply andb_true_iff in Hlit as [Ha Hl]. apply bool_decide_eq_true, nil_length_inv in Hl.
    split; [intros Hc; by rewrite Hc in Ha|]. intros m. rewrite Hl. by intros ?%not_elem_of_nil.
Qed.

Lemma dockerfile_pruning_exact_witness : bool_decide (1 ∈ ex_out) = false ∧ ex_result.1 ≠ [] ∧ Build ex_host [] ∅ ex_file = Ok ex_result.
Proof.
  split; [vm_compute; reflexivity|]. split; [vm_compute; discriminate|].
  apply (dockerfile_pruning_exact ex_host [] ∅ ex_file ∅ [] ex_stages ex_out (new_builder ex_host [] ∅) ex_result); [vm_compute; reflexivity | vm_compute; reflexivity | reflexivity | exact ex_prunable | vm_compute; reflexivity].
Defined.
Lemma stage_plan_reachable_witness :
  length ex_stages = 4%nat ∧ ∃ out, markReachableStages ex_stages = Ok out ∧ ∀ i, Z.of_nat i ∈ out ↔ (i < length ex_stages)%nat ∧ rtc (refers ex_stages) (length ex_stages - 1)%nat i.
Proof.
  split; [vm_compute; reflexivity|].
  assert (Hp : buildStagePlan ex_lex ex_file ex_args = Ok ([], ex_stages)) by (vm_compute; reflexivity).
  destruct (stage_plan_reachable ex_lex ex_file ex_args [] ex_stages Hp) as (_ & _ & _ & Hm). exact Hm.
Defined.
Lemma run_environment_witness :
  ∃ b, for_each (step ex_host) [from_as "alpine" "base"; instr ARG [sbytes "V=2"]; instr ENV [sbytes "A=$V"]] (new_builder ex_host [] ∅) = Ok b ∧
  cu_env (b_cur b) !! sbytes "A" = Some (sbytes "2") ∧
  ∃ order, runEnvSlice (b_conf b) = kv (cu_env (b_cur b) ∪ cf_args (b_conf b) ∪ run_defaults) <$> order ∧ NoDup order.
Proof.
  destruct (for_each (step ex_host) [from_as "alpine" "base"; instr ARG [sbytes "V=2"]; instr ENV [sbytes "A=$V"]] (new_builder ex_host [] ∅)) as [b| | |] eqn:E; [|vm_compute in E; discriminate..].
  exists b. split; [reflexivity|]. split; [vm_compute in E; injection E as <-; vm_compute; reflexivity|].
  destruct (run_environment ex_host [] ∅ _ b E) as (_ & order & H1 & H2 & _). exists order. split; [exact H1 | exact H2].
Defined.

(** ** Where the builder differs from what it imitates *)

(** A build argument stays set after its stage: the default of the same argument
    in a later stage is ignored. *)
Lemma argument_leaks_between_stages :
  (ic_Env ∘ snd <$> match Build ex_host [] ∅ [from_as "scratch" "a"; instr ARG [sbytes "V=1"]; instr FROM [sbytes "a"]; instr ARG [sbytes "V=2"]; instr ENV [sbytes "B=$V"]] with Ok r => Some r | _ => None end)
  = Some [sbytes "B=1"].
Proof. vm_compute. reflexivity. Qed.
(** FROM is expanded with the variables of the stage before it: the plan keeps
    stage [a], the build wants [b], which is not built, and pulls an image of that name. *)
Lemma from_sees_previous_stage :
  let file := [instr ARG [sbytes "BASE=a"]; from_as "scratch" "b"; from_as "scratch" "a"; instr ENV [sbytes "BASE=b"]; instr FROM [sbytes "$BASE"]] in
  (fst <$> match Build ex_host [] ∅ file with Ok r => Some r | _ => None end) = Some [sbytes "b"].
Proof. vm_compute. reflexivity. Qed.
(** The exec form of RUN with a single word goes through the shell. *)
Lemma single_word_exec_form :
  match translateCommand (RunCommand [sbytes "/opt/my tool"] false [] [] []) with
  | Ok i => buildRunCommand (mkCurrent None empty_config ∅ [] [] [] defaultShell [] 0) (in_Args i) = defaultShell ++ [sbytes "/opt/my tool"]
  | _ => False
  end.
Proof. vm_compute. reflexivity. Qed.
(** The source of a bind mount from a stage can leave the directory of the stage. *)
Lemma mount_source_leaves_stage : resolveCopySource (sbytes "/tmp/stages/stage-1") (sbytes "../stage-0/etc") = sbytes "/tmp/stages/stage-0/etc".
Proof. vm_compute. reflexivity. Qed.
(** Different cache identifiers share a directory. *)
Lemma cache_keys_collide : sanitizeRunMountCacheKey (sbytes "a:b") = sanitizeRunMountCacheKey (sbytes "a/b").
Proof. vm_compute. reflexivity. Qed.
