(* ===== verification/WarmCache.v ===== *)
(** * The snapshot cache (src/pkg/warmcache/cache.go, src/pkg/container/warmcache.go)

    A directory of snapshots, named by a hash of what a snapshot depends on.  The first part
    of the file is the name: [Key] is SHA-256 (a parameter) of a text made of the machine's
    parameters.  The second is the directory itself, which several processes use at once
    without a lock: a call of [Store] or [Evict] is a thread, each of its system calls is a
    step, and [os.RemoveAll] is a step for every file it unlinks.  The third is [HashFile],
    which remembers the hashes of kernels.

    Strings are lists of bytes. *)
From stdpp Require Import sorting.
From S2P Require Import Prelude Stream Fdt GuestExec RuntimeCfg Preview GoText.

(** ** Names *)

(** [strings.Fields]: the bytes of a space that are still to be skipped, and the field read
    so far. *)
Definition emit (cur : str) (rest : list str) : list str := if bool_decide (cur = []) then rest else cur :: rest.
Fixpoint fields_scan (s : str) (skip : nat) (cur : str) : list str :=
  match s with
  | [] => emit cur []
  | c :: r =>
      match skip with
      | S k => fields_scan r k cur
      | O => match space_at s with O => fields_scan r O (cur ++ [c]) | S k => emit cur (fields_scan r k []) end
      end
  end.
Definition Fields (s : str) : list str := fields_scan s O [].
Definition canonicalCmdline (s : str) : str := join [32] (Fields s).

(** [hex.EncodeToString] *)
Definition hex_char (d : Z) : Z := if d <? 10 then 48 + d else 87 + d.
Definition hex_encode (l : str) : str := l ≫= (fun b => [hex_char (b / 16); hex_char (b mod 16)]).

Record KeyInput := mkKeyInput {
  ki_ImageDigest : str; ki_KernelHash : str; ki_Cmdline : str; ki_MemMB : Z; ki_VCPUs : Z;
  ki_Arch : str; ki_NetworkMode : str; ki_ToolboxVersion : str
}.
Definition key_parts (i : KeyInput) : list str :=
  [sbytes "image=" ++ ki_ImageDigest i;
   sbytes "kernel=" ++ ki_KernelHash i;
   sbytes "cmdline=" ++ canonicalCmdline (ki_Cmdline i);
   sbytes "mem=" ++ fmt_uint 10 (ki_MemMB i);
   sbytes "vcpus=" ++ FormatInt (ki_VCPUs i);
   sbytes "arch=" ++ ki_Arch i;
   sbytes "net=" ++ ki_NetworkMode i;
   sbytes "toolbox=" ++ ki_ToolboxVersion i].
Definition key_text (i : KeyInput) : str := join [0] (sort_strings (key_parts i)).

(** The options of a run that the cache looks at. *)
Record RunOptions := mkRunOptions {
  ro_Image : str; ro_Dockerfile : str; ro_Context : str; ro_KernelPath : str; ro_MemMB : Z; ro_CPUs : Z;
  ro_Entrypoint : list str; ro_Cmd : list str; ro_Env : list str; ro_WorkDir : str; ro_Arch : str; ro_NetworkMode : str;
  ro_Drives : list str; ro_ExecEnabled : bool; ro_WarmCapture : bool; ro_InteractiveExec : bool
}.
Definition warmCacheInputsReady (o : RunOptions) : bool :=
  if bool_decide (TrimSpace (ro_Image o) = []) then false
  else if bool_decide (TrimSpace (ro_KernelPath o) = []) then false
  else if bool_decide (ro_Drives o = []) then true else false.

(** [spec.Version] of src/internal/toolbox/spec *)
Definition toolboxVersion : str := sbytes "0.2.0".

Section keys.
Context (sha256 : str → str).
Definition Key (i : KeyInput) : str := hex_encode (sha256 (key_text i)).

(** [hash] is the result of [HashFile] on the kernel. *)
Definition key_input (o : RunOptions) (hash : str) : KeyInput :=
  let cmdline := if ro_WarmCapture o then [] else join [32] (ro_Entrypoint o ++ ro_Cmd o) in
  mkKeyInput (ro_Image o) hash cmdline (ro_MemMB o) (ro_CPUs o) (ro_Arch o) (ro_NetworkMode o) toolboxVersion.
Definition computeWarmCacheKey (o : RunOptions) (hash : option str) : option str :=
  h ← hash; Some (Key (key_input o h)).
End keys.

(** *** Reading a name back *)
Lemma split_of_join sep l : l ≠ [] → Forall (fun x => sep ∉ x) l → split_on sep (join [sep] l) = l.
Proof.
  intros Hne H. induction H as [|x l Hx Hl IH]; [done|]. destruct l as [|y l].
  - cbn [join]. by rewrite split_on_none.
  - change (join [sep] (x :: y :: l)) with (x ++ [sep] ++ join [sep] (y :: l)).
    rewrite split_on_app by done. by rewrite IH.
Qed.
Lemma join_inj sep l k :
  l ≠ [] → k ≠ [] → Forall (fun x => sep ∉ x) l → Forall (fun x => sep ∉ x) k → join [sep] l = join [sep] k → l = k.
Proof. intros Hl Hk H1 H2 E. rewrite <- (split_of_join sep l), <- (split_of_join sep k) by done. by rewrite E. Qed.

(** No part of the text has a zero byte of its own. *)
Definition key_input_ok (i : KeyInput) : Prop :=
  0 ∉ ki_ImageDigest i ∧ 0 ∉ ki_KernelHash i ∧ 0 ∉ ki_Cmdline i ∧ 0 ∉ ki_Arch i ∧ 0 ∉ ki_NetworkMode i ∧ 0 ∉ ki_ToolboxVersion i ∧
  fits 64 (ki_MemMB i) ∧ - 2 ^ 63 < ki_VCPUs i < 2 ^ 63.
(** The same machine: every field, and the words of the command line. *)
Definition same_input (a b : KeyInput) : Prop :=
  ki_ImageDigest a = ki_ImageDigest b ∧ ki_KernelHash a = ki_KernelHash b ∧ Fields (ki_Cmdline a) = Fields (ki_Cmdline b) ∧
  ki_MemMB a = ki_MemMB b ∧ ki_VCPUs a = ki_VCPUs b ∧ ki_Arch a = ki_Arch b ∧ ki_NetworkMode a = ki_NetworkMode b ∧
  ki_ToolboxVersion a = ki_ToolboxVersion b.

Lemma elem_emit x cur l : x ∈ emit cur l → x = cur ∨ x ∈ l.
Proof. unfold emit. case_bool_decide; [by right|]. intros [->|?]%elem_of_cons; auto. Qed.
(** A field is a run of the text's bytes without a space. *)
Lemma fields_scan_elem c x s : ∀ skip cur, x ∈ fields_scan s skip cur → c ∈ x → c ∈ cur ∨ c ∈ s.
Proof.
  induction s as [|d s IH]; intros skip cur Hx Hc; cbn [fields_scan] in Hx.
  - apply elem_emit in Hx as [->|Hx]; [by left|]. by apply elem_of_nil in Hx.
  - destruct skip as [|k].
    + destruct (space_at (d :: s)) as [|k].
      * destruct (IH _ _ Hx Hc) as [H|H]; set_solver.
      * apply elem_emit in Hx as [->|Hx]; [by left|]. destruct (IH _ _ Hx Hc) as [H|H]; set_solver.
    + destruct (IH _ _ Hx Hc) as [H|H]; set_solver.
Qed.
Lemma join_elem c sep l : c ∈ join sep l → c ∈ sep ∨ ∃ x, x ∈ l ∧ c ∈ x.
Proof.
  induction l as [|x l IH]; [intros []%elem_of_nil|]. destruct l as [|y l].
  - intros H. right. exists x. set_solver.
  - change (join sep (x :: y :: l)) with (x ++ sep ++ join sep (y :: l)). rewrite !elem_of_app.
    intros [H|[H|H]]; [right; exists x; set_solver|by left|]. destruct (IH H) as [?|(z & ? & ?)]; [by left|right; exists z; set_solver].
Qed.
Lemma canonical_no_nul s : 0 ∉ s → 0 ∉ canonicalCmdline s.
Proof.
  intros Hs [H|(x & Hx & H)]%join_elem; [by apply list_elem_of_singleton in H|].
  by destruct (fields_scan_elem 0 x s 0 [] Hx H) as [[]%elem_of_nil|].
Qed.

Lemma fields_scan_word s : ∀ skip cur x, 32 ∉ cur → x ∈ fields_scan s skip cur → x ≠ [] ∧ 32 ∉ x.
Proof.
  assert (∀ cur x l, 32 ∉ cur → x ∈ emit cur l → (x ∈ l → x ≠ [] ∧ 32 ∉ x) → x ≠ [] ∧ 32 ∉ x) as Hemit.
  { intros cur x l Hc. unfold emit. case_bool_decide; [auto|]. intros [->|?]%elem_of_cons; auto. }
  induction s as [|d s IH]; intros skip cur x Hcur Hx; cbn [fields_scan] in Hx.
  - apply (Hemit _ _ _ Hcur Hx). by intros []%elem_of_nil.
  - destruct skip as [|k]; [|by eapply IH]. destruct (decide (d = 32)) as [->|Hd].
    + change (space_at (32 :: s)) with 1%nat in Hx. apply (Hemit _ _ _ Hcur Hx). apply IH. apply not_elem_of_nil.
    + destruct (space_at (d :: s)) as [|k].
      * refine (IH _ (cur ++ [d]) _ _ Hx). rewrite elem_of_app, list_elem_of_singleton. intros [?|?]; [done|congruence].
      * apply (Hemit _ _ _ Hcur Hx). apply IH. apply not_elem_of_nil.
Qed.
Lemma Fields_words s : Forall (fun x => x ≠ [] ∧ 32 ∉ x) (Fields s).
Proof. apply Forall_forall. intros x. apply fields_scan_word. apply not_elem_of_nil. Qed.
Lemma canonical_inj a b : canonicalCmdline a = canonicalCmdline b ↔ Fields a = Fields b.
Proof.
  unfold canonicalCmdline. split; [|by intros ->]. intros E. pose proof (Fields_words a) as Ha. pose proof (Fields_words b) as Hb.
  assert (∀ l, Forall (fun x : str => x ≠ [] ∧ 32 ∉ x) l → join [32] l = [] → l = []) as Hnil.
  { intros [|x [|y l]] H; [done| |]; inversion H as [|? ? [Hx ?] ?]; subst; cbn [join]; by destruct x. }
  destruct (decide (Fields a = [])) as [Ea|Ha0]; [rewrite Ea in E |- *; symmetry; by apply Hnil|].
  destruct (decide (Fields b = [])) as [Eb|Hb0]; [rewrite Eb in E |- *; by apply Hnil|].
  apply (join_inj 32); [done|done| | |done]; eapply Forall_impl; [exact Ha|by intros ? []|exact Hb|by intros ? []].
Qed.
Lemma hex_encode_inj a b : bytes a → bytes b → hex_encode a = hex_encode b → a = b.
Proof.
  assert (∀ x y, 0 ≤ x < 16 → 0 ≤ y < 16 → hex_char x = hex_char y → x = y) as Hd.
  { intros x y ? ?. unfold hex_char. destruct (Z.ltb_spec x 10), (Z.ltb_spec y 10); lia. }
  intros Ha. revert b. induction Ha as [|x a Hx Ha IH]; intros b Hb E; destruct Hb as [|y b Hy Hb]; try done.
  unfold is_byte in *. cbn in E. injection E as E1 E2 E3. f_equal; [|by apply IH].
  apply Hd in E1; [|split; [apply Z.div_pos; lia|apply Z.div_lt_upper_bound; lia] ..].
  apply Hd in E2; [|apply Z.mod_pos_bound; lia ..].
  rewrite (Z.div_mod x 16), (Z.div_mod y 16) by lia. congruence.
Qed.
Lemma fmt10_value n : fits 64 n → digits_value 0 (fmt_uint 10 n) = Some n.
Proof.
  intros [H0 H1]. assert (2 ^ 64 < 10 ^ Z.of_nat 64) as H2 by reflexivity.
  apply (digits_of_fmt 64 n); [exact (conj H0 (Z.lt_trans _ _ _ H1 H2))|lia].
Qed.
Lemma fmt10_inj n m : fits 64 n → fits 64 m → fmt_uint 10 n = fmt_uint 10 m → n = m.
Proof. intros Hn Hm E. apply fmt10_value in Hn, Hm. rewrite E, Hm in Hn. by injection Hn. Qed.
Lemma FormatInt_inj n m : - 2 ^ 63 < n < 2 ^ 63 → - 2 ^ 63 < m < 2 ^ 63 → FormatInt n = FormatInt m → n = m.
Proof. intros Hn Hm E. apply Atoi_FormatInt in Hn, Hm. rewrite E in Hn. rewrite Hn in Hm. by injection Hm. Qed.

Lemma key_parts_plain i : key_input_ok i → Forall (fun x => 0 ∉ x) (key_parts i).
Proof.
  intros (H1 & H2 & H3 & H4 & H5 & H6 & H7 & H8). apply canonical_no_nul in H3.
  assert (0 ∉ fmt_uint 10 (ki_MemMB i)) by (apply digits_no; [apply H7|lia]).
  assert (0 ∉ FormatInt (ki_VCPUs i)) by (apply FormatInt_no; lia).
  assert (∀ p x, 0 ∉ x → bool_decide (0 ∉ p) = true → 0 ∉ p ++ x) as Happ
    by (intros p x Hx Hp; apply bool_decide_eq_true in Hp; rewrite elem_of_app; tauto).
  unfold key_parts. repeat apply Forall_cons_2; try apply Forall_nil_2; (apply Happ; [done|reflexivity]).
Qed.
(** A list whose elements all start with different letters is known from its elements and the
    order of the letters. *)
Lemma by_heads (l k : list str) : NoDup (head <$> k) → head <$> l = head <$> k → l ≡ₚ k → l = k.
Proof.
  intros Hn Hh HP. apply list_eq. intros i. destruct (l !! i) as [x|] eqn:Hl.
  - assert (x ∈ k) as [j Hj]%list_elem_of_lookup by (rewrite <- HP; eapply list_elem_of_lookup_2, Hl).
    enough (i = j) as -> by done. apply (NoDup_lookup _ i j (head x) Hn).
    + rewrite <- Hh, list_lookup_fmap, Hl. done.
    + by rewrite list_lookup_fmap, Hj.
  - symmetry. apply lookup_ge_None. rewrite <- HP. by apply lookup_ge_None.
Qed.
Lemma key_parts_inj a b : key_parts a ≡ₚ key_parts b → key_parts a = key_parts b.
Proof. apply by_heads; [|reflexivity]. apply (bool_decide_unpack _). vm_compute. exact I. Qed.
Lemma key_text_inj a b : key_input_ok a → key_input_ok b → key_text a = key_text b → key_parts a = key_parts b.
Proof.
  intros Ha Hb E. apply key_parts_inj. rewrite <- (sort_strings_perm (key_parts a)), <- (sort_strings_perm (key_parts b)).
  assert (∀ i, sort_strings (key_parts i) ≠ []) as Hne.
  { intros i Hi. pose proof (Permutation_length (sort_strings_perm (key_parts i))) as H. by rewrite Hi in H. }
  enough (sort_strings (key_parts a) = sort_strings (key_parts b)) as -> by done.
  apply (join_inj 0); [apply Hne|apply Hne|rewrite sort_strings_perm; by apply key_parts_plain ..|done].
Qed.
Lemma same_inputs a b : key_input_ok a → key_input_ok b → key_text a = key_text b → same_input a b.
Proof.
  intros Ha Hb E. pose proof (key_text_inj a b Ha Hb E) as H. unfold key_parts in H.
  destruct Ha as (_ & _ & _ & _ & _ & _ & Ha1 & Ha2), Hb as (_ & _ & _ & _ & _ & _ & Hb1 & Hb2).
  injection H as H1 H2 H3 H4 H5 H6 H7 H8. apply canonical_inj in H3. apply fmt10_inj in H4; [|done..]. apply FormatInt_inj in H5; [|done..].
  by repeat split.
Qed.

(** ** The directory *)

(** The files of a snapshot's directory, as far as the cache looks: a file that is not there
    is [None]. *)
Record SnapDir := mkSnapDir { sd_json : option str; sd_mem : option str; sd_artifacts : option str; sd_mtime : Z }.
Definition filled (f : option str) : bool := match f with Some (_ :: _) => true | _ => false end.
Definition complete_dir (d : SnapDir) : bool := filled (sd_json d) && filled (sd_mem d).
Definition isCompleteSnapshot (d : option SnapDir) : bool := match d with Some d => complete_dir d | None => false end.
Definition empty_dir (d : SnapDir) : bool :=
  match sd_json d, sd_mem d, sd_artifacts d with None, None, None => true | _, _, _ => false end.

(** A running call: [Store], or the removal of one entry by [Evict] or by its owner. *)
Inductive store_pc := SSrc | SDst | SDrop | SClean | SRename | SEnd (ok : bool).
Record StoreCall := mkStore { st_src : str; st_key : str; st_pc : store_pc; st_files : SnapDir }.
Record Cache := mkCache {
  ca_entries : gmap str SnapDir;    (** below the root *)
  ca_scratch : gmap str SnapDir;    (** the callers' temporary directories *)
  ca_stores : list StoreCall;
  ca_removals : list str            (** running [os.RemoveAll] on entries *)
}.

(** A system call of [os.RemoveAll]: one file, or the directory when it is empty.  The second
    component says whether the directory is gone. *)
Inductive snap_file := FJson | FMem | FArtifacts.
Definition unlink (f : snap_file) (d : SnapDir) : SnapDir :=
  match f with
  | FJson => mkSnapDir None (sd_mem d) (sd_artifacts d) (sd_mtime d)
  | FMem => mkSnapDir (sd_json d) None (sd_artifacts d) (sd_mtime d)
  | FArtifacts => mkSnapDir (sd_json d) (sd_mem d) None (sd_mtime d)
  end.
Definition present (f : snap_file) (d : SnapDir) : bool :=
  match f with FJson => bool_decide (is_Some (sd_json d)) | FMem => bool_decide (is_Some (sd_mem d)) | FArtifacts => bool_decide (is_Some (sd_artifacts d)) end.
(** [f] when it is there, else a file that is. *)
Definition pick_file (f : snap_file) (d : SnapDir) : snap_file :=
  if present f d then f else if present FJson d then FJson else if present FMem d then FMem else FArtifacts.
Definition remove_call (f : snap_file) (k : str) (m : gmap str SnapDir) : gmap str SnapDir * bool :=
  match m !! k with
  | None => (m, true)
  | Some d => if empty_dir d then (delete k m, true) else (<[k := unlink (pick_file f d) d]> m, false)
  end.
(** rename(2) of a directory: onto nothing or onto an empty directory. *)
Definition rename_call (src k : str) (c : Cache) : option Cache :=
  d ← ca_scratch c !! src;
  let free := match ca_entries c !! k with None => true | Some e => empty_dir e end in
  if free then Some (mkCache (<[k := d]> (ca_entries c)) (delete src (ca_scratch c)) (ca_stores c) (ca_removals c)) else None.

(** The next system call of a [Store]: whether it fails for a reason of its own (no space, another
    file system), and which file a removal takes next. *)
Definition store_call (fault : bool) (f : snap_file) (t : StoreCall) (c : Cache) : Cache * store_pc :=
  match st_pc t with
  | SSrc => (c, if isCompleteSnapshot (ca_scratch c !! st_src t) then if fault then SEnd false else SDst else SEnd false)
  | SDst => (c, if isCompleteSnapshot (ca_entries c !! st_key t) then SDrop else SClean)
  | SDrop => (mkCache (ca_entries c) (delete (st_src t) (ca_scratch c)) (ca_stores c) (ca_removals c), SEnd true)
  | SClean =>
      if fault then (c, SRename)
      else let '(m, gone) := remove_call f (st_key t) (ca_entries c) in
           (mkCache m (ca_scratch c) (ca_stores c) (ca_removals c), if gone then SRename else SClean)
  | SRename =>
      if fault then (c, SEnd false)
      else match rename_call (st_src t) (st_key t) c with Some c => (c, SEnd true) | None => (c, SEnd false) end
  | SEnd ok => (c, SEnd ok)
  end.
Definition set_pc (t : StoreCall) (pc : store_pc) : StoreCall := mkStore (st_src t) (st_key t) pc (st_files t).
(** A [Store] that runs undisturbed, with the files its removals take. *)
Fixpoint store_run (fs : list snap_file) (t : StoreCall) (c : Cache) : Cache * store_pc :=
  match fs with
  | [] => (c, st_pc t)
  | f :: fs => let '(c, pc) := store_call false f t c in store_run fs (set_pc t pc) c
  end.

(** The directory found, with its time of last use set. *)
Definition Lookup (now : Z) (k : str) (c : Cache) : Cache * option SnapDir :=
  match ca_entries c !! k with
  | Some d =>
      if complete_dir d then
        (mkCache (<[k := mkSnapDir (sd_json d) (sd_mem d) (sd_artifacts d) now]> (ca_entries c)) (ca_scratch c) (ca_stores c) (ca_removals c), Some d)
      else (c, None)
  | None => (c, None)
  end.

(** What [Evict] decides about one entry. *)
Definition evictable (now maxAge : Z) (d : SnapDir) : bool :=
  if negb (complete_dir d) then true else if maxAge <=? 0 then false else sd_mtime d <? now - maxAge.
(** [Evict] when nothing else runs: what is left, and the number of entries removed. *)
Definition Evict (now maxAge : Z) (m : gmap str SnapDir) : gmap str SnapDir * Z :=
  (filter (fun e => evictable now maxAge e.2 = false) m, Z.of_nat (size (filter (fun e => evictable now maxAge e.2 = true) m))).

Inductive cache_event :=
  | CStore (src k : str) (files : SnapDir)          (** a caller has filled [src] and calls [Store] *)
  | CStep (i : nat) (fault : bool) (f : snap_file)  (** the [i]th [Store] makes a system call *)
  | CLookup (now : Z) (k : str)
  | CEvict (now maxAge : Z) (k : str)               (** [Evict] visits an entry *)
  | CRemove (k : str)                               (** the owner of an entry removes it *)
  | CUnlink (i : nat) (fault : bool) (f : snap_file).

Definition cache_do (ev : cache_event) (c : Cache) : Cache :=
  match ev with
  | CStore src k files =>
      if bool_decide (src ∈ st_src <$> ca_stores c) then c
      else mkCache (ca_entries c) (<[src := files]> (ca_scratch c)) (ca_stores c ++ [mkStore src k SSrc files]) (ca_removals c)
  | CStep i fault f =>
      match ca_stores c !! i with
      | None => c
      | Some t => let '(c', pc) := store_call fault f t c in
                  mkCache (ca_entries c') (ca_scratch c') (<[i := set_pc t pc]> (ca_stores c')) (ca_removals c')
      end
  | CLookup now k => (Lookup now k c).1
  | CEvict now maxAge k =>
      match ca_entries c !! k with
      | Some d => if evictable now maxAge d then mkCache (ca_entries c) (ca_scratch c) (ca_stores c) (ca_removals c ++ [k]) else c
      | None => c
      end
  | CRemove k => mkCache (ca_entries c) (ca_scratch c) (ca_stores c) (ca_removals c ++ [k])
  | CUnlink i fault f =>
      match ca_removals c !! i with
      | None => c
      | Some k =>
          let '(m, gone) := if fault then (ca_entries c, true) else remove_call f k (ca_entries c) in
          mkCache m (ca_scratch c) (ca_stores c) (if gone then delete i (ca_removals c) else ca_removals c)
      end
  end.
Definition cache_run (evs : list cache_event) (c : Cache) : Cache := fold_left (fun c ev => cache_do ev c) evs c.
Definition cache_start : Cache := mkCache ∅ ∅ [] [].

(** *** Entries are what one caller stored *)

(** [e] is [d] with some files removed. *)
Definition remains (e d : option str) : Prop := e = None ∨ e = d.
Definition sub_dir (e d : SnapDir) : Prop :=
  remains (sd_json e) (sd_json d) ∧ remains (sd_mem e) (sd_mem d) ∧ remains (sd_artifacts e) (sd_artifacts d).
Definition call_log (t : StoreCall) : str * str * SnapDir := (st_src t, st_key t, st_files t).
Definition cache_log (c : Cache) : list (str * str * SnapDir) := call_log <$> ca_stores c.
Definition cache_inv (log : list (str * str * SnapDir)) (entries scratch : gmap str SnapDir) : Prop :=
  NoDup log.*1.*1 ∧
  (∀ k e, entries !! k = Some e → ∃ src files, (src, k, files) ∈ log ∧ sub_dir e files) ∧
  (∀ src d, scratch !! src = Some d → ∃ k, (src, k, d) ∈ log).

Lemma sub_dir_refl d : sub_dir d d.
Proof. by repeat split; right. Qed.
Lemma sub_dir_unlink f e d : sub_dir e d → sub_dir (unlink f e) d.
Proof. intros (? & ? & ?). destruct f; repeat split; cbn; auto; by left. Qed.
Lemma sub_dir_touch now e d : sub_dir e d → sub_dir (mkSnapDir (sd_json e) (sd_mem e) (sd_artifacts e) now) d.
Proof. done. Qed.
Lemma sub_dir_complete e d : sub_dir e d → complete_dir e = true → sd_json e = sd_json d ∧ sd_mem e = sd_mem d ∧ complete_dir d = true.
Proof.
  unfold complete_dir. intros ([Hj|Hj] & [Hm|Hm] & _); rewrite ?Hj, ?Hm; cbn; rewrite ?andb_false_r; try done.
Qed.
Lemma inv_entry log m sc k e src files :
  cache_inv log m sc → (src, k, files) ∈ log → sub_dir e files → cache_inv log (<[k := e]> m) sc.
Proof.
  intros (Hn & He & Hs) Hin Hsub. split_and!; [done| |done]. intros k' e'. rewrite lookup_insert_Some.
  intros [[<- <-]|[? ?]]; [by eauto|by apply He].
Qed.
Lemma inv_remove f log m sc k : cache_inv log m sc → cache_inv log (remove_call f k m).1 sc.
Proof.
  intros Hi. pose proof Hi as (Hn & He & Hs). unfold remove_call. destruct (m !! k) as [d|] eqn:Hk; [|done].
  destruct (empty_dir d); cbn.
  - split_and!; [done| |done]. intros k' e' [_ ?]%lookup_delete_Some. by apply He.
  - destruct (He _ _ Hk) as (src & files & Hin & Hsub). eapply inv_entry; [done..|]. by apply sub_dir_unlink.
Qed.
Lemma inv_scratch_delete log m sc src : cache_inv log m sc → cache_inv log m (delete src sc).
Proof. intros (Hn & He & Hs). split_and!; [done..|]. intros p d [_ ?]%lookup_delete_Some. by apply Hs. Qed.
Lemma log_src log (src k k' : str) (d d' : SnapDir) : NoDup log.*1.*1 → (src, k, d) ∈ log → (src, k', d') ∈ log → k = k' ∧ d = d'.
Proof.
  intros Hn [i Hi]%list_elem_of_lookup [j Hj]%list_elem_of_lookup. assert (i = j) as ->.
  { apply (NoDup_lookup _ i j src Hn); rewrite !list_lookup_fmap; [by rewrite Hi|by rewrite Hj]. }
  rewrite Hi in Hj. by injection Hj.
Qed.
Lemma store_call_stores fault f t c : ca_stores (store_call fault f t c).1 = ca_stores c.
Proof.
  unfold store_call, rename_call. destruct (st_pc t); cbn; try done.
  - destruct fault; [done|]. by destruct (remove_call f (st_key t) (ca_entries c)).
  - destruct fault; [done|]. destruct (ca_scratch c !! st_src t); cbn; [|done].
    by destruct (match ca_entries c !! st_key t with None => true | Some e => empty_dir e end).
Qed.
Lemma inv_store_call log fault f t c :
  call_log t ∈ log → cache_inv log (ca_entries c) (ca_scratch c) →
  cache_inv log (ca_entries (store_call fault f t c).1) (ca_scratch (store_call fault f t c).1).
Proof.
  intros Hin Hi. unfold store_call. destruct (st_pc t); cbn; try done.
  - by apply inv_scratch_delete.
  - destruct fault; [done|]. pose proof (inv_remove f _ _ _ (st_key t) Hi) as H.
    destruct (remove_call f (st_key t) (ca_entries c)) as [m gone]. done.
  - destruct fault; [done|]. unfold rename_call. destruct (ca_scratch c !! st_src t) as [d|] eqn:Hd; [|done]. cbn.
    destruct (match ca_entries c !! st_key t with None => true | Some e => empty_dir e end); [|done]. cbn.
    pose proof Hi as (Hn & _ & Hs). destruct (Hs _ _ Hd) as (k & Hk). destruct (log_src _ _ _ _ _ _ Hn Hk Hin) as [-> ->].
    apply inv_scratch_delete. eapply inv_entry; [done|exact Hin|apply sub_dir_refl].
Qed.
Lemma cache_do_inv ev c : cache_inv (cache_log c) (ca_entries c) (ca_scratch c) →
  cache_inv (cache_log (cache_do ev c)) (ca_entries (cache_do ev c)) (ca_scratch (cache_do ev c)).
Proof.
  intros Hi. pose proof Hi as (Hn & He & Hs). destruct ev as [src k files|i fault f|now k|now maxAge k|k|i fault f]; cbn [cache_do].
  - case_bool_decide as Hsrc; [done|]. unfold cache_log in *. cbn. rewrite fmap_app. split_and!.
    + rewrite !fmap_app. cbn. apply NoDup_app. split_and!; [done| |apply NoDup_singleton].
      intros x Hx ->%list_elem_of_singleton. apply Hsrc. rewrite <- !list_fmap_compose in Hx. exact Hx.
    + intros k' e Hk. destruct (He _ _ Hk) as (s & fs & ? & ?). exists s, fs. split; [|done]. apply elem_of_app. by left.
    + intros p d. rewrite lookup_insert_Some. intros [[<- <-]|[_ Hp]]; [exists k; apply elem_of_app; right; by apply list_elem_of_singleton|].
      destruct (Hs _ _ Hp) as [k' Hk']. exists k'. apply elem_of_app. by left.
  - destruct (ca_stores c !! i) as [t|] eqn:Ht; [|done].
    assert (call_log t ∈ cache_log c) as Hin by (apply list_elem_of_fmap_2; eapply list_elem_of_lookup_2, Ht).
    pose proof (inv_store_call _ fault f t c Hin Hi) as H1. pose proof (store_call_stores fault f t c) as H2. destruct (store_call fault f t c) as [c' pc]. cbn in H1, H2 |- *.
    unfold cache_log in *. cbn. rewrite H2, list_fmap_insert, list_insert_id; [done|]. rewrite list_lookup_fmap, Ht. done.
  - unfold Lookup. destruct (ca_entries c !! k) as [d|] eqn:Hk; [|done]. destruct (complete_dir d); [|done].
    destruct (He _ _ Hk) as (src & files & Hin & Hsub). eapply inv_entry; [done..|]. by apply sub_dir_touch.
  - destruct (ca_entries c !! k) as [d|]; [|done]. by destruct (evictable now maxAge d).
  - done.
  - destruct (ca_removals c !! i) as [k|]; [|done]. destruct fault; [done|].
    pose proof (inv_remove f _ _ _ k Hi) as H. by destruct (remove_call f k (ca_entries c)) as [m gone].
Qed.
Lemma cache_run_inv evs c : cache_inv (cache_log c) (ca_entries c) (ca_scratch c) →
  cache_inv (cache_log (cache_run evs c)) (ca_entries (cache_run evs c)) (ca_scratch (cache_run evs c)).
Proof. revert c. induction evs as [|ev evs IH]; intros c Hi; [done|]. apply IH. by apply cache_do_inv. Qed.
(** The calls in the log are those of the execution. *)
Lemma cache_log_events evs c e : e ∈ cache_log (cache_run evs c) → e ∈ cache_log c ∨ CStore e.1.1 e.1.2 e.2 ∈ evs.
Proof.
  revert c. induction evs as [|ev evs IH]; intros c He; [by left|]. apply IH in He as [He|He]; [|right; by apply elem_of_cons; right].
  destruct ev as [src k files|i fault f|now k|now maxAge k|k|i fault f]; cbn [cache_do] in He; try by left.
  - case_bool_decide; [by left|]. unfold cache_log in He. cbn in He. rewrite fmap_app, elem_of_app in He.
    destruct He as [He| ->%list_elem_of_singleton]; [by left|]. right. apply elem_of_cons. by left.
  - left. destruct (ca_stores c !! i) as [t|] eqn:Ht; [|done]. destruct (store_call fault f t c) as [c' pc] eqn:Hc.
    pose proof (store_call_stores fault f t c) as Hst. rewrite Hc in Hst. cbn in Hst.
    unfold cache_log in *. cbn in He. rewrite Hst, list_fmap_insert, list_insert_id in He; [done|]. by rewrite list_lookup_fmap, Ht.
  - left. unfold Lookup in He. destruct (ca_entries c !! k) as [d|]; [|done]. by destruct (complete_dir d).
  - left. destruct (ca_entries c !! k) as [d|]; [|done]. by destruct (evictable now maxAge d).
  - left. destruct (ca_removals c !! i) as [k|]; [|done]. by destruct (if fault then _ else _).
Qed.


(** *** A [Store] that nobody disturbs *)
Definition Store_spec (src k : str) (c : Cache) : gmap str SnapDir * gmap str SnapDir * bool :=
  match ca_scratch c !! src with
  | Some d =>
      if complete_dir d then
        (if isCompleteSnapshot (ca_entries c !! k) then ca_entries c else <[k := d]> (ca_entries c), delete src (ca_scratch c), true)
      else (ca_entries c, ca_scratch c, false)
  | None => (ca_entries c, ca_scratch c, false)
  end.
Definition file_count (d : SnapDir) : nat :=
  (if present FJson d then 1 else 0) + (if present FMem d then 1 else 0) + (if present FArtifacts d then 1 else 0).
Definition clean_cost (e : option SnapDir) : nat := match e with Some d => S (file_count d) | None => 1%nat end.
Lemma file_count_unlink f d : empty_dir d = false → file_count d = S (file_count (unlink (pick_file f d) d)).
Proof. destruct d as [[?|] [?|] [?|] ?], f; cbn; done. Qed.
Lemma file_count_bound d : (file_count d ≤ 3)%nat.
Proof. by destruct d as [[?|] [?|] [?|] ?]; cbn; lia. Qed.
Lemma store_run_cons f fs t c : store_run (f :: fs) t c = store_run fs (set_pc t (store_call false f t c).2) (store_call false f t c).1.
Proof. cbn. by destruct (store_call false f t c). Qed.
Lemma store_run_app fs gs t c : store_run (fs ++ gs) t c = store_run gs (set_pc t (store_run fs t c).2) (store_run fs t c).1.
Proof.
  revert t c. induction fs as [|f fs IH]; intros t c; cbn; [by destruct t|]. destruct (store_call false f t c) as [c1 pc].
  rewrite IH. by destruct t.
Qed.
Lemma store_run_end fs t c ok : st_pc t = SEnd ok → store_run fs t c = (c, SEnd ok).
Proof. revert t. induction fs as [|f fs IH]; intros t Ht; cbn; [by rewrite Ht|]. unfold store_call. rewrite Ht. by apply IH. Qed.
(** The removal ends with the entry gone. *)
Lemma store_run_clean fs t c : st_pc t = SClean → length fs = clean_cost (ca_entries c !! st_key t) →
  store_run fs t c = (mkCache (delete (st_key t) (ca_entries c)) (ca_scratch c) (ca_stores c) (ca_removals c), SRename).
Proof.
  revert t c. induction fs as [|f fs IH]; intros t c Ht Hl; [by destruct (ca_entries c !! st_key t)|]. cbn [store_run]. unfold store_call, remove_call. rewrite Ht.
  destruct (ca_entries c !! st_key t) as [d|] eqn:Hd; cbn [clean_cost length] in Hl.
  - destruct (empty_dir d) eqn:He.
    + destruct d as [[?|] [?|] [?|] ?]; try done. cbn in Hl. destruct fs; [done|discriminate].
    + rewrite IH; [|done|cbn [ca_entries set_pc st_key]; rewrite lookup_insert_eq; cbn [clean_cost]; rewrite (file_count_unlink f d He) in Hl; lia].
      cbn. by rewrite delete_insert_eq.
  - destruct fs; [|discriminate]. rewrite delete_id by done. by destruct c.
Qed.
(** A [Store] that runs alone makes at most seven system calls, whatever the order in which
    the files of an incomplete entry are removed.  It reports an error and changes nothing when
    the prepared directory is not a complete snapshot; leaves a complete entry as it is;
    otherwise the entry becomes the prepared directory.  On success the prepared directory is
    gone and [Lookup] finds a complete entry. *)
Theorem store_alone (t : StoreCall) (c : Cache) (fs : list snap_file) (Hpc : st_pc t = SSrc) (Hfs : (7 ≤ length fs)%nat) :
  let '(c', pc) := store_run fs t c in
  let '(entries, scratch, ok) := Store_spec (st_src t) (st_key t) c in
  pc = SEnd ok ∧ ca_entries c' = entries ∧ ca_scratch c' = scratch ∧
  (ok = true → ∀ now, is_Some (Lookup now (st_key t) c').2).
Proof.
  destruct fs as [|f1 fs]; [cbn in Hfs; lia|]. rewrite store_run_cons. unfold store_call. rewrite Hpc. unfold Store_spec.
  destruct (ca_scratch c !! st_src t) as [d|] eqn:Hd; [|by rewrite store_run_end with (ok := false)]. cbn [isCompleteSnapshot].
  destruct (complete_dir d) eqn:Hc; [|by rewrite store_run_end with (ok := false)].
  destruct fs as [|f2 fs]; [cbn in Hfs; lia|]. rewrite store_run_cons. cbn [store_call st_pc set_pc fst snd st_key st_src].
  destruct (isCompleteSnapshot (ca_entries c !! st_key t)) eqn:He.
  - destruct fs as [|f3 fs]; [cbn in Hfs; lia|]. rewrite store_run_cons. cbn [store_call st_pc set_pc fst snd].
    rewrite store_run_end with (ok := true) by done. split_and!; [done..|].
    intros _ now. unfold Lookup. cbn. destruct (ca_entries c !! st_key t) as [e|]; [|done]. cbn in He. rewrite He. by eexists.
  - set (n := clean_cost (ca_entries c !! st_key t)). assert (n ≤ 4)%nat as Hn.
    { subst n. destruct (ca_entries c !! st_key t) as [e|]; cbn [clean_cost]; [pose proof (file_count_bound e); lia|lia]. }
    rewrite <- (take_drop n fs), store_run_app, (store_run_clean (take n fs)); [|done|rewrite length_take; cbn [length] in Hfs; change (Nat.min n (length fs) = n); lia]. cbn.
    destruct (drop n fs) as [|g gs] eqn:Hg; [apply (f_equal length) in Hg; rewrite length_drop in Hg; cbn in Hfs, Hg; lia|].
    rewrite store_run_cons. cbn [store_call st_pc set_pc]. unfold rename_call. cbn. rewrite Hd. cbn. rewrite lookup_delete_eq. cbn. rewrite store_run_end with (ok := true) by done.
    split_and!; [done| |done|]; cbn; [by rewrite insert_delete_eq|]. intros _ now. unfold Lookup. cbn. rewrite lookup_insert_eq, Hc. by eexists.
Qed.

(** *** Where the directory's promises end *)
Definition snap (tag : Z) : SnapDir := mkSnapDir (Some [tag]) (Some [tag]) (Some [tag]) 0.
Definition steps_of (i n : nat) : list cache_event := replicate n (CStep i false FJson).
(** The comment of [Store]: the first writer wins, later ones are silently successful.  Two writers
    that both find no entry: the second one's rename meets the first one's directory and fails. *)
Definition race_prefix : list cache_event := [CStore [1] [107] (snap 65); CStore [2] [107] (snap 66)] ++ steps_of 0 2 ++ steps_of 1 2.
Lemma second_store_fails :
  let c := cache_run (race_prefix ++ steps_of 0 1 ++ steps_of 1 1 ++ steps_of 0 1 ++ steps_of 1 1) cache_start in
  st_pc <$> ca_stores c = [SEnd true; SEnd false] ∧ ca_entries c !! [107] = Some (snap 65).
Proof. by vm_compute. Qed.
(** Or the second writer removes the first one's complete entry, which a reader may have found. *)
Lemma second_store_overwrites :
  let c := cache_run (race_prefix ++ steps_of 0 2) cache_start in
  let c' := cache_run (steps_of 1 2) c in
  (Lookup 0 [107] c).2 = Some (snap 65) ∧ (Lookup 0 [107] c').2 = None ∧
  ca_entries (cache_run (steps_of 1 6) c) !! [107] = Some (snap 66).
Proof. by vm_compute. Qed.
(** An entry counts as complete when its disk is already removed. *)
Lemma lookup_without_disk :
  let c := cache_run ([CStore [1] [107] (snap 65)] ++ steps_of 0 4 ++ [CRemove [107]; CUnlink 0 false FArtifacts]) cache_start in
  ∃ d, (Lookup 0 [107] c).2 = Some d ∧ sd_artifacts d = None.
Proof. vm_compute. by eexists. Qed.

(** ** [HashFile]

    The hash of a kernel, remembered in memory and in a file next to the user's other caches.  The
    arguments are what the system calls return: the two stats and the bytes read in between.
    [abs] is [filepath.Abs]. *)
Record FileInfo := mkInfo { fi_mtime : Z; fi_size : Z }.
#[export] Instance FileInfo_eq : EqDecision FileInfo.
Proof. solve_decision. Defined.
Record HashCache := mkHashCache { hc_mem : gmap (str * Z * Z) str; hc_disk : gmap str (FileInfo * str) }.

Section hash_file.
Context (sha256 : str → str) (abs : str → str).
Definition loadDiskHash (path : str) (st : FileInfo) (h : HashCache) : option str :=
  '(st', hash) ← hc_disk h !! abs path;
  if negb (fi_mtime st' =? fi_mtime st) || negb (fi_size st' =? fi_size st) then None
  else if zlen hash =? 64 then Some hash else None.
Definition storeDiskHash (path : str) (st : FileInfo) (hash : str) (h : HashCache) : HashCache :=
  mkHashCache (hc_mem h) (<[abs path := (st, hash)]> (hc_disk h)).
Definition storeMemHash (path : str) (st : FileInfo) (hash : str) (h : HashCache) : HashCache :=
  mkHashCache (<[(path, fi_mtime st, fi_size st) := hash]> (hc_mem h)) (hc_disk h).
Definition HashFile (path : str) (stat0 : option FileInfo) (read : option str) (stat1 : option FileInfo) (h : HashCache) : HashCache * option str :=
  match stat0 with
  | None => (h, None)
  | Some st =>
      match hc_mem h !! (path, fi_mtime st, fi_size st) with
      | Some hash => (h, Some hash)
      | None =>
          match loadDiskHash path st h with
          | Some hash => (storeMemHash path st hash h, Some hash)
          | None =>
              match read with
              | None => (h, None)
              | Some content =>
                  let out := hex_encode (sha256 content) in
                  if bool_decide (stat1 = Some st) then (storeDiskHash path st out (storeMemHash path st out h), Some out) else (h, Some out)
              end
          end
      end
  end.

(** [version p st] is the content of the file when stat returned [st]. *)
Context (version : str → FileInfo → str).
Definition hashes_ok (h : HashCache) : Prop :=
  (∀ path m s hash, hc_mem h !! (path, m, s) = Some hash → hash = hex_encode (sha256 (version (abs path) (mkInfo m s)))) ∧
  (∀ p st hash, hc_disk h !! p = Some (st, hash) → hash = hex_encode (sha256 (version p st))).
(** Neither layer ever holds the hash of another version: when the file changed while it was read,
    nothing is remembered. *)
Lemma HashFile_sound path st read stat1 h :
  hashes_ok h → (∀ content, read = Some content → stat1 = Some st → content = version (abs path) st) →
  let '(h', out) := HashFile path (Some st) read stat1 h in
  hashes_ok h' ∧ ∀ hash, out = Some hash →
    hash = hex_encode (sha256 (version (abs path) st)) ∨ (stat1 ≠ Some st ∧ ∃ content, read = Some content ∧ hash = hex_encode (sha256 content)).
Proof.
  intros [Hm Hd] Hread. destruct st as [m s].
  assert (∀ hash h0, hashes_ok h0 → hash = hex_encode (sha256 (version (abs path) (mkInfo m s))) → hashes_ok (storeMemHash path (mkInfo m s) hash h0)) as Hmem.
  { intros hash h0 [H1 H2] ->. split; [|done]. intros p m' s' x. cbn. rewrite lookup_insert_Some. intros [[[= <- <- <-] <-]|[_ ?]]; [done|by apply H1]. }
  unfold HashFile. cbn [fi_mtime fi_size]. destruct (hc_mem h !! (path, m, s)) as [hash|] eqn:E1.
  { split; [done|]. intros ? [= <-]. left. by apply Hm. }
  destruct (loadDiskHash path (mkInfo m s) h) as [hash|] eqn:E2.
  { assert (hash = hex_encode (sha256 (version (abs path) (mkInfo m s)))) as Hh.
    { unfold loadDiskHash in E2. destruct (hc_disk h !! abs path) as [[[m' s'] x]|] eqn:E; [|done]. cbn in E2.
      destruct (Z.eqb_spec m' m) as [->|]; [|done]. destruct (Z.eqb_spec s' s) as [->|]; [|done]. cbn in E2. destruct (zlen x =? 64); [|done]. injection E2 as <-. by apply Hd. }
    split; [by apply Hmem|]. intros ? [= <-]. by left. }
  destruct read as [content|]; [|done]. case_bool_decide as Hst.
  - specialize (Hread _ eq_refl Hst) as ->. split; [|intros ? [= <-]; by left]. destruct (Hmem _ h (conj Hm Hd) eq_refl) as [H1 H2].
    split; [done|]. intros p st x. cbn. rewrite lookup_insert_Some. intros [[<- [= <- <-]]|[_ ?]]; [done|by apply Hd].
  - split; [done|]. intros ? [= <-]. right. split; [done|]. by eexists.
Qed.
End hash_file.

(** ** Witnesses *)
Definition ex_input : KeyInput := mkKeyInput (sbytes "alpine") (sbytes "ab") (sbytes " sh  -c") 256 1 (sbytes "amd64") (sbytes "auto") toolboxVersion.
Definition ex_sha (s : str) : str := u8 <$> s.
Definition ex_events : list cache_event := [CStore [1] (Key ex_sha ex_input) (snap 65)] ++ steps_of 0 4.
Lemma ex_input_ok : key_input_ok ex_input.
Proof. apply (bool_decide_unpack _). vm_compute. exact I. Qed.
Definition ex_cache : Cache := mkCache ∅ {[ [1] := snap 65 ]} [] [].
Lemma store_alone_witness :
  let '(c', pc) := store_run (replicate 7 FMem) (mkStore [1] [107] SSrc (snap 65)) ex_cache in pc = SEnd true ∧ ca_entries c' !! [107] = Some (snap 65).
Proof.
  pose proof (store_alone (mkStore [1] [107] SSrc (snap 65)) ex_cache (replicate 7 FMem) eq_refl (le_n 7)) as H.
  destruct (store_run _ _ _) as [c' pc]. destruct H as (H1 & H2 & _). split; [exact H1|]. rewrite H2. reflexivity.
Defined.
