(* ===== verification/SpecJson.v ===== *)
(** * The hash of a template's specification (src/sandboxes/internal/templates/templates.go)

    [SpecHash] is SHA-256 (a parameter) of the specification as encoding/json writes it.  This file has
    that writer, down to its escapes, and shows that no two specifications have the same text.

    Strings are lists of bytes. *)
From S2P Require Import Prelude Stream Fdt GuestExec RuntimeCfg Preview GoText WarmCache.

(** ** JSON *)

(** The length of the UTF-8 encoding at the head of the text, 0 when it is not a valid one. *)
Definition cont (c : Z) : bool := (128 <=? c) && (c <=? 191).
Definition utf8_len (s : str) : nat :=
  match s with
  | a :: r =>
      if a <? 128 then 1
      else match r with
      | b :: r =>
          if (194 <=? a) && (a <=? 223) && cont b then 2
          else match r with
          | c :: r =>
              if (224 <=? a) && (a <=? 239) && cont b && cont c && negb ((a =? 224) && (b <? 160)) && negb ((a =? 237) && (159 <? b)) then 3
              else match r with
              | d :: _ => if (240 <=? a) && (a <=? 244) && cont b && cont c && cont d && negb ((a =? 240) && (b <? 144)) && negb ((a =? 244) && (143 <? b)) then 4 else 0
              | [] => 0
              end
          | [] => 0
          end
      | [] => 0
      end
  | [] => 0
  end.
Definition hex4 (n : Z) : str := [92; 117] ++ hex_encode [n / 256; n mod 256].
(** The text of one ASCII character: [json.Marshal] also escapes the characters special to HTML. *)
Definition json_ascii (c : Z) : str :=
  if (c =? 34) || (c =? 92) then [92; c]
  else if c =? 8 then [92; 98] else if c =? 12 then [92; 102] else if c =? 10 then [92; 110] else if c =? 13 then [92; 114] else if c =? 9 then [92; 116]
  else if (c <? 32) || (c =? 60) || (c =? 62) || (c =? 38) then hex4 c
  else [c].
Fixpoint json_body (s : str) (skip : nat) : str :=
  match s with
  | [] => []
  | c :: r =>
      match skip with
      | S k => c :: json_body r k
      | O =>
          if c <? 128 then json_ascii c ++ json_body r O
          else match utf8_len s with
               | S k =>
                   if c =? 226 then
                     match r with
                     | 128 :: 168 :: r' => hex4 8232 ++ json_body r' O
                     | 128 :: 169 :: r' => hex4 8233 ++ json_body r' O
                     | _ => c :: json_body r k
                     end
                   else c :: json_body r k
               | O => hex4 65533 ++ json_body r O
               end
      end
  end.
Definition json_string (s : str) : str := [34] ++ json_body s O ++ [34].
Definition json_strings (l : list str) : str := [91] ++ join [44] (json_string <$> l) ++ [93].
(** A struct: the fields that are not left out. *)
Definition json_field (f : str * option str) : list str := match f.2 with Some v => [json_string f.1 ++ [58] ++ v] | None => [] end.
Definition json_object (fs : list (str * option str)) : str := [123] ++ join [44] (fs ≫= json_field) ++ [125].
(** omitempty *)
Definition opt_string (s : str) : option str := if bool_decide (s = []) then None else Some (json_string s).
Definition opt_int (n : Z) : option str := if n =? 0 then None else Some (FormatInt n).
Definition opt_strings (l : list str) : option str := if bool_decide (l = []) then None else Some (json_strings l).

(** ** Specifications *)
Record ReadinessProbe := mkProbe { rp_HTTPPort : Z; rp_HTTPPath : str; rp_Timeout : Z; rp_Interval : Z }.
Record RuntimeSpec := mkRuntime { rs_Name : str; rs_Timeout : Z; rs_Interval : Z }.
Record Spec := mkSpec {
  sp_Image : str; sp_Dockerfile : str; sp_Context : str; sp_KernelPath : str; sp_MemMB : Z; sp_CPUs : Z;
  sp_Cmd : list str; sp_Env : list str; sp_WorkDir : str; sp_Readiness : option ReadinessProbe; sp_Runtime : option RuntimeSpec
}.
#[export] Instance Probe_eq : EqDecision ReadinessProbe.
Proof. solve_decision. Defined.
#[export] Instance Runtime_eq : EqDecision RuntimeSpec.
Proof. solve_decision. Defined.
#[export] Instance Spec_eq : EqDecision Spec.
Proof. solve_decision. Defined.

Definition probe_json (p : ReadinessProbe) : str :=
  json_object [(sbytes "http_port", Some (FormatInt (rp_HTTPPort p))); (sbytes "http_path", opt_string (rp_HTTPPath p));
               (sbytes "timeout", opt_int (rp_Timeout p)); (sbytes "interval", opt_int (rp_Interval p))].
Definition runtime_json (r : RuntimeSpec) : str :=
  json_object [(sbytes "name", Some (json_string (rs_Name r))); (sbytes "timeout", opt_int (rs_Timeout r)); (sbytes "interval", opt_int (rs_Interval r))].
Definition spec_json (s : Spec) : str :=
  json_object [(sbytes "image", opt_string (sp_Image s)); (sbytes "dockerfile", opt_string (sp_Dockerfile s)); (sbytes "context", opt_string (sp_Context s));
               (sbytes "kernel_path", Some (json_string (sp_KernelPath s))); (sbytes "mem_mb", opt_int (sp_MemMB s)); (sbytes "cpus", opt_int (sp_CPUs s));
               (sbytes "cmd", opt_strings (sp_Cmd s)); (sbytes "env", opt_strings (sp_Env s)); (sbytes "workdir", opt_string (sp_WorkDir s));
               (sbytes "readiness", probe_json <$> sp_Readiness s); (sbytes "runtime", runtime_json <$> sp_Runtime s)].
Definition CacheFormatVersion : Z := 2.
Definition spec_text (s : Spec) : str := json_object [(sbytes "v", Some (FormatInt CacheFormatVersion)); (sbytes "spec", Some (spec_json s))].


(** ** Reading the text back *)

(** Text whose end can be seen: two texts of the kind that continue with a comma, a bracket or a brace
    are equal when the wholes are. *)
Definition stops (r : str) : Prop := match r with c :: _ => c = 44 ∨ c = 93 ∨ c = 125 | [] => False end.
Definition delimited (D : str → Prop) : Prop := ∀ v w r r', D v → D w → stops r → stops r' → v ++ r = w ++ r' → v = w ∧ r = r'.
Definition ascii (s : str) : Prop := Forall (fun c => 0 ≤ c < 128) s.

(** *** Strings *)
Definition unhex (c : Z) : Z := if c <? 58 then c - 48 else c - 87.
Definition read_char (s : str) : option (Z * str) :=
  match s with
  | 92 :: 117 :: _ :: _ :: a :: b :: r => Some (16 * unhex a + unhex b, r)
  | 92 :: 98 :: r => Some (8, r)
  | 92 :: 102 :: r => Some (12, r)
  | 92 :: 110 :: r => Some (10, r)
  | 92 :: 114 :: r => Some (13, r)
  | 92 :: 116 :: r => Some (9, r)
  | 92 :: c :: r => Some (c, r)
  | c :: r => Some (c, r)
  | [] => None
  end.
Lemma read_json_ascii c r : 0 ≤ c < 128 → read_char (json_ascii c ++ r) = Some (c, r) ∧ head (json_ascii c) ≠ Some 34.
Proof.
  intros Hc. assert (c ∈ seqZ 0 128) as Hin by (apply elem_of_seqZ; lia). revert c Hin Hc.
  enough (Forall (fun c => read_char (json_ascii c ++ r) = Some (c, r) ∧ head (json_ascii c) ≠ Some 34) (seqZ 0 128)) as H
    by (intros c Hin _; by apply (proj1 (Forall_forall _ _) H)).
  let l := eval vm_compute in (seqZ 0 128) in change (seqZ 0 128) with l. repeat (apply Forall_cons_2; [split; [reflexivity|discriminate]|]). apply Forall_nil_2.
Qed.
Lemma json_body_cons c s : 0 ≤ c < 128 → json_body (c :: s) O = json_ascii c ++ json_body s O.
Proof. intros Hc. cbn [json_body]. by destruct (Z.ltb_spec c 128); [|lia]. Qed.
Lemma json_body_inj a b r r' : ascii a → ascii b → json_body a O ++ 34 :: r = json_body b O ++ 34 :: r' → a = b ∧ r = r'.
Proof.
  intros Ha. revert b. induction Ha as [|c a Hc Ha IH]; intros b Hb E; destruct Hb as [|d b Hd Hb].
  - by injection E.
  - rewrite json_body_cons in E by done. destruct (read_json_ascii d [] Hd) as [_ H]. cbn [json_body app] in E.
    destruct (json_ascii d) as [|x l] eqn:El; [|cbn in E; by injection E as <-]. by destruct (read_json_ascii d [] Hd) as [H' _]; rewrite El in H'.
  - rewrite json_body_cons in E by done. destruct (read_json_ascii c [] Hc) as [_ H]. cbn [json_body app] in E.
    destruct (json_ascii c) as [|x l] eqn:El; [|cbn in E; by injection E as ->]. by destruct (read_json_ascii c [] Hc) as [H' _]; rewrite El in H'.
  - rewrite !json_body_cons, <- !app_assoc in E by done. pose proof (proj1 (read_json_ascii c (json_body a 0 ++ 34 :: r) Hc)) as H1.
    rewrite E, (proj1 (read_json_ascii d _ Hd)) in H1. injection H1 as -> E'. symmetry in E'. by destruct (IH b Hb E') as [-> ->].
Qed.
Lemma json_string_inj a b r r' : ascii a → ascii b → json_string a ++ r = json_string b ++ r' → a = b ∧ r = r'.
Proof. intros Ha Hb E. unfold json_string in E. rewrite <- !app_assoc in E. cbn in E. injection E as E. by apply json_body_inj. Qed.

(** *** Numbers and lists *)
Lemma split_class (P : Z → Prop) a b r r' :
  Forall P a → Forall P b → (∀ c, head r = Some c → ¬ P c) → (∀ c, head r' = Some c → ¬ P c) → a ++ r = b ++ r' → a = b ∧ r = r'.
Proof.
  intros Ha. revert b. induction Ha as [|c a Hc Ha IH]; intros b Hb Hr Hr' E; destruct Hb as [|d b Hd Hb]; cbn in E.
  - done.
  - subst r. by destruct (Hr d eq_refl).
  - subst r'. by destruct (Hr' c eq_refl).
  - injection E as -> E. by destruct (IH b Hb Hr Hr' E) as [-> ->].
Qed.
Definition digit (c : Z) : Prop := c = 45 ∨ 48 ≤ c ≤ 57.
Lemma FormatInt_digits n : Forall digit (FormatInt n).
Proof.
  apply Forall_forall. intros c Hc. destruct (decide (c = 45)); [by left|]. destruct (decide (48 ≤ c ≤ 57)); [by right|].
  by destruct (FormatInt_no c n ltac:(done) ltac:(done)).
Qed.
Lemma stops_digit r c : stops r → head r = Some c → ¬ digit c.
Proof. destruct r as [|x r]; [done|]. cbn. unfold digit. intros H [= <-]. lia. Qed.
Definition int_range (n : Z) : Prop := - 2 ^ 63 < n < 2 ^ 64.
Lemma FormatInt_wide_inj n m : int_range n → int_range m → FormatInt n = FormatInt m → n = m.
Proof.
  unfold int_range. intros Hn Hm E. destruct (Z.ltb_spec n 0), (Z.ltb_spec m 0).
  - apply FormatInt_inj; lia || done.
  - unfold FormatInt in E. destruct (Z.ltb_spec n 0), (Z.ltb_spec m 0); try lia.
    pose proof (digits_plain m ltac:(lia)) as H3. rewrite <- E in H3. apply Forall_cons in H3 as [? _]. lia.
  - unfold FormatInt in E. destruct (Z.ltb_spec n 0), (Z.ltb_spec m 0); try lia.
    pose proof (digits_plain n ltac:(lia)) as H3. rewrite E in H3. apply Forall_cons in H3 as [? _]. lia.
  - unfold FormatInt in E. destruct (Z.ltb_spec n 0), (Z.ltb_spec m 0); try lia. apply fmt10_inj; unfold fits; lia || done.
Qed.
Definition is_int (v : str) : Prop := ∃ n, int_range n ∧ v = FormatInt n.
Definition is_string (v : str) : Prop := ∃ s, ascii s ∧ v = json_string s.
Definition is_strings (v : str) : Prop := ∃ l, Forall ascii l ∧ v = json_strings l.
Lemma delimited_int : delimited is_int.
Proof.
  intros v w r r' (n & Hn & ->) (m & Hm & ->) Hr Hr' E.
  apply (split_class digit); [apply FormatInt_digits..|by intros c; apply stops_digit|by intros c; apply stops_digit|done].
Qed.
Lemma delimited_string : delimited is_string.
Proof. intros v w r r' (a & Ha & ->) (b & Hb & ->) _ _ E. by destruct (json_string_inj a b r r' Ha Hb E) as [-> ->]. Qed.
(** What follows the first element of a list. *)
Definition comma_tail (l : list str) : str := match l with [] => [] | _ => [44] ++ join [44] l end.
Lemma join_cons x l : join [44] (x :: l) = x ++ comma_tail l.
Proof. destruct l; [|done]. cbn. by rewrite app_nil_r. Qed.
Lemma comma_tail_stops l c r : c = 93 ∨ c = 125 → stops (comma_tail l ++ c :: r).
Proof. intros Hc. destruct l; cbn; lia. Qed.
Lemma comma_tail_eq l k c r r' : c ≠ 44 → comma_tail l ++ c :: r = comma_tail k ++ c :: r' →
  (l = [] ↔ k = []) ∧ join [44] l ++ c :: r = join [44] k ++ c :: r'.
Proof. intros Hc. destruct l, k; cbn; intros E; try (injection E as E; congruence); [by injection E as ->|]. injection E as E. done. Qed.
Lemma strings_body_inj l k r r' : Forall ascii l → Forall ascii k →
  join [44] (json_string <$> l) ++ 93 :: r = join [44] (json_string <$> k) ++ 93 :: r' → l = k ∧ r = r'.
Proof.
  intros Hl. revert k. induction Hl as [|x l Hx Hl IH]; intros k Hk E; destruct Hk as [|y k Hy Hk]; rewrite ?fmap_cons, ?join_cons, <- ?app_assoc in E.
  - by injection E.
  - discriminate E.
  - discriminate E.
  - destruct (json_string_inj _ _ _ _ Hx Hy E) as [-> E']. apply comma_tail_eq in E' as [_ E']; [|done]. by destruct (IH k Hk E') as [-> ->].
Qed.
Lemma json_strings_inj l k r r' : Forall ascii l → Forall ascii k → json_strings l ++ r = json_strings k ++ r' → l = k ∧ r = r'.
Proof. intros Hl Hk E. unfold json_strings in E. rewrite <- !app_assoc in E. cbn in E. injection E as E. by apply strings_body_inj. Qed.
Lemma delimited_strings : delimited is_strings.
Proof. intros v w r r' (a & Ha & ->) (b & Hb & ->) _ _ E. by destruct (json_strings_inj a b r r' Ha Hb E) as [-> ->]. Qed.

(** *** Objects *)
(** Two lists of the same fields: names and kinds of values agree, any field may be left out of either. *)
Inductive same_fields : list (str * option str) → list (str * option str) → Prop :=
  | fields_nil : same_fields [] []
  | fields_cons n D v w fs gs :
      delimited D → ascii n → n ∉ gs.*1 → from_option D True v → from_option D True w →
      same_fields fs gs → same_fields ((n, v) :: fs) ((n, w) :: gs).
Lemma same_fields_names fs gs : same_fields fs gs → fs.*1 = gs.*1 ∧ Forall ascii gs.*1.
Proof. induction 1 as [|n D v w fs gs HD Ha Hn Hv Hw Hs [IH1 IH2]]; [done|]. cbn. by rewrite IH1; split; [|apply Forall_cons_2]. Qed.
Lemma first_name (fs : list (str * option str)) : (fs ≫= json_field) = [] ∨ ∃ n v l, n ∈ fs.*1 ∧ (fs ≫= json_field) = (json_string n ++ [58] ++ v) :: l.
Proof.
  induction fs as [|[n [v|]] fs IH]; [by left| |].
  - right. exists n, v, (fs ≫= json_field). split; [apply elem_of_cons; by left|done].
  - destruct IH as [IH|(m & v & l & Hm & IH)]; [left; exact IH|]. right. exists m, v, l. split; [apply elem_of_cons; by right|exact IH].
Qed.
(** A field that is there is not taken for the absence of it. *)
Lemma absent_name n x l (gs : list (str * option str)) r r' :
  ascii n → Forall ascii gs.*1 → n ∉ gs.*1 →
  join [44] ((json_string n ++ [58] ++ x) :: l) ++ 125 :: r = join [44] (gs ≫= json_field) ++ 125 :: r' → False.
Proof.
  intros Hn Hgs Hnot E. rewrite join_cons, <- !app_assoc in E. destruct (first_name gs) as [H|(m & v & l' & Hm & H)]; rewrite H in E.
  - discriminate E.
  - rewrite join_cons, <- !app_assoc in E. apply json_string_inj in E as [-> _]; [done|done|]. by apply (proj1 (Forall_forall _ _) Hgs).
Qed.
Lemma object_body_inj fs gs r r' : same_fields fs gs →
  join [44] (fs ≫= json_field) ++ 125 :: r = join [44] (gs ≫= json_field) ++ 125 :: r' → fs = gs ∧ r = r'.
Proof.
  induction 1 as [|n D v w fs gs HD Ha Hn Hv Hw Hs IH]; intros E; [by injection E|]. destruct (same_fields_names fs gs Hs) as [Hnames Hascii].
  destruct v as [x|], w as [y|].
  - change (((n, Some x) :: fs) ≫= json_field) with ((json_string n ++ [58] ++ x) :: (fs ≫= json_field)) in E.
    change (((n, Some y) :: gs) ≫= json_field) with ((json_string n ++ [58] ++ y) :: (gs ≫= json_field)) in E.
    rewrite !join_cons, <- !app_assoc in E. apply json_string_inj in E as [_ E]; [|done..]. cbn in E. injection E as E.
    apply HD in E as [-> E]; [|done|done|by apply comma_tail_stops; right|by apply comma_tail_stops; right].
    apply comma_tail_eq in E as [_ E]; [|done]. by destruct (IH E) as [-> ->].
  - by destruct (absent_name n x _ gs r r' Ha Hascii Hn E).
  - symmetry in E. rewrite <- Hnames in Hascii, Hn. by destruct (absent_name n y _ fs r' r Ha Hascii Hn E).
  - by destruct (IH E) as [-> ->].
Qed.
Lemma json_object_inj fs gs r r' : same_fields fs gs → json_object fs ++ r = json_object gs ++ r' → fs = gs ∧ r = r'.
Proof. intros Hs E. unfold json_object in E. rewrite <- !app_assoc in E. cbn in E. injection E as E. by apply object_body_inj. Qed.

(** *** Specifications *)
Lemma opt_string_kind s : ascii s → from_option is_string True (opt_string s).
Proof. intros Hs. unfold opt_string. case_bool_decide; [done|]. by exists s. Qed.
Lemma opt_int_kind n : int_range n → from_option is_int True (opt_int n).
Proof. intros Hn. unfold opt_int. destruct (n =? 0); [done|]. by exists n. Qed.
Lemma opt_strings_kind l : Forall ascii l → from_option is_strings True (opt_strings l).
Proof. intros Hl. unfold opt_strings. case_bool_decide; [done|]. by exists l. Qed.
Lemma opt_string_inj a b : ascii a → ascii b → opt_string a = opt_string b → a = b.
Proof.
  intros Ha Hb. unfold opt_string. do 2 case_bool_decide; try done; [congruence|]. intros [= E].
  destruct (json_body_inj a b [] [] Ha Hb E) as [-> _]. done.
Qed.
Lemma opt_int_inj n m : int_range n → int_range m → opt_int n = opt_int m → n = m.
Proof. intros Hn Hm. unfold opt_int. destruct (Z.eqb_spec n 0), (Z.eqb_spec m 0); try done; [congruence|]. intros [= E]. by apply FormatInt_wide_inj. Qed.
Lemma opt_strings_inj l k : Forall ascii l → Forall ascii k → opt_strings l = opt_strings k → l = k.
Proof.
  intros Hl Hk. unfold opt_strings. do 2 case_bool_decide; try done; [congruence|]. intros [= E].
  destruct (strings_body_inj l k [] [] Hl Hk E) as [-> _]. done.
Qed.
Definition probe_ok (p : ReadinessProbe) : Prop := int_range (rp_HTTPPort p) ∧ ascii (rp_HTTPPath p) ∧ int_range (rp_Timeout p) ∧ int_range (rp_Interval p).
Definition runtime_ok (r : RuntimeSpec) : Prop := ascii (rs_Name r) ∧ int_range (rs_Timeout r) ∧ int_range (rs_Interval r).
Definition spec_ok (s : Spec) : Prop :=
  ascii (sp_Image s) ∧ ascii (sp_Dockerfile s) ∧ ascii (sp_Context s) ∧ ascii (sp_KernelPath s) ∧ int_range (sp_MemMB s) ∧ int_range (sp_CPUs s) ∧
  Forall ascii (sp_Cmd s) ∧ Forall ascii (sp_Env s) ∧ ascii (sp_WorkDir s) ∧ from_option probe_ok True (sp_Readiness s) ∧ from_option runtime_ok True (sp_Runtime s).
#[local] Hint Resolve delimited_int delimited_string delimited_strings opt_string_kind opt_int_kind opt_strings_kind fields_nil : json.
Ltac field D :=
  apply (fields_cons _ D);
  [auto with json|apply (bool_decide_unpack _); vm_compute; exact I|apply (bool_decide_unpack _); vm_compute; exact I|auto with json|auto with json|].
Lemma int_kind n : int_range n → from_option is_int True (Some (FormatInt n)).
Proof. intros Hn. by exists n. Qed.
Lemma string_kind s : ascii s → from_option is_string True (Some (json_string s)).
Proof. intros Hs. by exists s. Qed.
#[local] Hint Resolve int_kind string_kind : json.
Lemma probe_json_inj p q r r' : probe_ok p → probe_ok q → probe_json p ++ r = probe_json q ++ r' → p = q ∧ r = r'.
Proof.
  intros (P1 & P2 & P3 & P4) (Q1 & Q2 & Q3 & Q4) E. apply json_object_inj in E as [E ->].
  - split; [|done]. injection E as E1 E2 E3 E4. destruct p, q. cbn in *.
    f_equal; [by apply FormatInt_wide_inj|by apply opt_string_inj|by apply opt_int_inj..].
  - field is_int. field is_string. field is_int. field is_int. apply fields_nil.
Qed.
Lemma runtime_json_inj p q r r' : runtime_ok p → runtime_ok q → runtime_json p ++ r = runtime_json q ++ r' → p = q ∧ r = r'.
Proof.
  intros (P1 & P2 & P3) (Q1 & Q2 & Q3) E. apply json_object_inj in E as [E ->].
  - split; [|done]. injection E as E1 E2 E3. destruct p, q. cbn in *.
    f_equal; [by destruct (json_body_inj _ _ [] [] P1 Q1 E1)|by apply opt_int_inj..].
  - field is_string. field is_int. field is_int. apply fields_nil.
Qed.
Definition is_probe (v : str) : Prop := ∃ p, probe_ok p ∧ v = probe_json p.
Definition is_runtime (v : str) : Prop := ∃ p, runtime_ok p ∧ v = runtime_json p.
Lemma delimited_probe : delimited is_probe.
Proof. intros v w r r' (a & Ha & ->) (b & Hb & ->) _ _ E. by destruct (probe_json_inj a b r r' Ha Hb E) as [-> ->]. Qed.
Lemma delimited_runtime : delimited is_runtime.
Proof. intros v w r r' (a & Ha & ->) (b & Hb & ->) _ _ E. by destruct (runtime_json_inj a b r r' Ha Hb E) as [-> ->]. Qed.
Lemma probe_kind o : from_option probe_ok True o → from_option is_probe True (probe_json <$> o).
Proof. destruct o as [p|]; [|done]. intros Hp. by exists p. Qed.
Lemma runtime_kind o : from_option runtime_ok True o → from_option is_runtime True (runtime_json <$> o).
Proof. destruct o as [p|]; [|done]. intros Hp. by exists p. Qed.
#[local] Hint Resolve delimited_probe delimited_runtime probe_kind runtime_kind : json.
Lemma fmap_Some_inj {A} (f : A → str) (P : A → Prop) (o o' : option A) :
  (∀ a b, P a → P b → f a = f b → a = b) → from_option P True o → from_option P True o' → f <$> o = f <$> o' → o = o'.
Proof. intros Hf. destruct o, o'; cbn; try done. intros Ha Hb [= E]. f_equal. by apply Hf. Qed.
Lemma spec_json_inj s s' r r' : spec_ok s → spec_ok s' → spec_json s ++ r = spec_json s' ++ r' → s = s' ∧ r = r'.
Proof.
  intros (P1 & P2 & P3 & P4 & P5 & P6 & P7 & P8 & P9 & P10 & P11) (Q1 & Q2 & Q3 & Q4 & Q5 & Q6 & Q7 & Q8 & Q9 & Q10 & Q11) E.
  apply json_object_inj in E as [E ->].
  - split; [|done]. injection E as E1 E2 E3 E4 E5 E6 E7 E8 E9 E10 E11. destruct s, s'. cbn in *.
    f_equal; try first [by apply opt_string_inj|by apply opt_int_inj|by apply opt_strings_inj].
    + by destruct (json_body_inj _ _ [] [] P4 Q4 E4).
    + apply (fmap_Some_inj probe_json probe_ok); [|done..]. intros a b Ha Hb Eab. apply (probe_json_inj a b [] []); [done..|]. by rewrite Eab.
    + apply (fmap_Some_inj runtime_json runtime_ok); [|done..]. intros a b Ha Hb Eab. apply (runtime_json_inj a b [] []); [done..|]. by rewrite Eab.
  - field is_string. field is_string. field is_string. field is_string. field is_int. field is_int. field is_strings. field is_strings. field is_string.
    field is_probe. field is_runtime. apply fields_nil.
Qed.
Definition is_spec (v : str) : Prop := ∃ s, spec_ok s ∧ v = spec_json s.
Lemma delimited_spec : delimited is_spec.
Proof. intros v w r r' (a & Ha & ->) (b & Hb & ->) _ _ E. by destruct (spec_json_inj a b r r' Ha Hb E) as [-> ->]. Qed.
Lemma spec_text_inj s s' : spec_ok s → spec_ok s' → spec_text s = spec_text s' → s = s'.
Proof.
  intros Hs Hs' E. apply (f_equal (fun x => x ++ [])) in E. apply json_object_inj in E as [E _].
  - apply (spec_json_inj s s' [] [] Hs Hs'). f_equal. exact (f_equal (fun l : list (str * option str) => match l with [_; (_, Some v)] => v | _ => [] end) E).
  - assert (∀ x, spec_ok x → from_option is_spec True (Some (spec_json x))) as Hk by (intros x Hx; by exists x).
    field is_int; [unfold int_range, CacheFormatVersion; apply int_kind; unfold int_range; lia ..|]. apply (fields_cons _ is_spec);
      [apply delimited_spec|apply (bool_decide_unpack _); vm_compute; exact I|apply not_elem_of_nil|by apply Hk|by apply Hk|apply fields_nil].
Qed.

(** ** The hash *)
Definition SpecHash (sha256 : str → str) (s : Spec) : str := hex_encode (sha256 (spec_text s)).
(** C20: two specifications whose texts are ASCII have the same hash exactly when they are equal in every
    field, provided that SHA-256 does not collide on their texts: no field can be mistaken for another,
    whatever quotes, commas and brackets the values contain, and a field left out is not taken for one that
    is there. *)
Theorem spec_hash_exact (sha256 : str → str) (s s' : Spec) (Hbytes : ∀ x, bytes (sha256 x)) (Hs : spec_ok s) (Hs' : spec_ok s')
    (Hsha : sha256 (spec_text s) = sha256 (spec_text s') → spec_text s = spec_text s') :
  SpecHash sha256 s = SpecHash sha256 s' ↔ s = s'.
Proof.
  split; [|by intros ->]. intros E. apply hex_encode_inj in E; [|done..]. by apply spec_text_inj, Hsha.
Qed.
(** Bytes that are not UTF-8 are all written as U+FFFD. *)
Definition odd_env (c : Z) : Spec := mkSpec (sbytes "a") [] [] (sbytes "/vmlinux") 0 0 [] [[c]] [] None None.
Lemma invalid_bytes_collide : spec_text (odd_env 254) = spec_text (odd_env 255) ∧ odd_env 254 ≠ odd_env 255.
Proof. by vm_compute. Qed.
Definition quoted_spec (cmd : list str) : Spec := mkSpec (sbytes "a") [] [] (sbytes "/vmlinux") 256 1 cmd [] [] (Some (mkProbe 80 [] 0 0)) (Some (mkRuntime (sbytes "node") 0 0)).
Lemma spec_hash_exact_witness :
  SpecHash (fmap u8) (quoted_spec [[34]; [92]]) = SpecHash (fmap u8) (quoted_spec [[34; 44; 92]]) ↔ quoted_spec [[34]; [92]] = quoted_spec [[34; 44; 92]].
Proof.
  apply (spec_hash_exact (fmap u8)).
  - intros x. apply Forall_fmap, Forall_true. intros b. apply fits_u8.
  - apply (bool_decide_unpack _). vm_compute. exact I.
  - apply (bool_decide_unpack _). vm_compute. exact I.
  - intros H. vm_compute in H. discriminate H.
Defined.
