(* ===== verification/Templates.v ===== *)
(** * Sandbox templates (src/sandboxes/internal/templates)

    A template is a machine that has been booted once and kept as a snapshot; later sandboxes
    start from the snapshot.  Templates are identified by a hash of their specification
    ([SpecHash]).  [Build] holds a lock per hash, so that a specification is booted once;
    [Delete] does not take that lock.  Every section under the registry's lock, every access to
    the file system and the boot are steps of the model; an execution is any sequence of steps of
    any number of calls of [Build] and [Delete].

    SHA-256 is a parameter, and so is what a boot returns. *)
From S2P Require Import Prelude Stream Fdt GuestExec RuntimeCfg Preview GoText WarmCache SpecJson.

Inductive tmpl_err := KernelRequired | ImageRequired | IDInUse | NotFound | BootFailed | PortRequired | NameRequired.
Definition Validate (s : Spec) : res tmpl_err unit :=
  if bool_decide (sp_KernelPath s = []) then Err KernelRequired
  else if bool_decide (sp_Image s = []) && bool_decide (sp_Dockerfile s = []) then Err ImageRequired
  else Ok tt.

(** *** The options of a template's boot and the name of its snapshot *)
Definition AsRunOptions (s : Spec) : RunOptions :=
  mkRunOptions (sp_Image s) (sp_Dockerfile s) (sp_Context s) (sp_KernelPath s) (sp_MemMB s) (sp_CPUs s) [] (sp_Cmd s) (sp_Env s) (sp_WorkDir s)
    [] [] [] true true true.
Definition with_capture (o : RunOptions) (env : list str) (capture interactive : bool) : RunOptions :=
  mkRunOptions (ro_Image o) (ro_Dockerfile o) (ro_Context o) (ro_KernelPath o) (ro_MemMB o) (ro_CPUs o) (ro_Entrypoint o) (ro_Cmd o) env (ro_WorkDir o)
    (ro_Arch o) (ro_NetworkMode o) (ro_Drives o) (ro_ExecEnabled o) capture interactive.
(** What [container.Run] is called with. *)
Definition boot_options (s : Spec) : RunOptions :=
  let o := AsRunOptions s in
  match sp_Readiness s with
  | Some _ => with_capture o (ro_Env o) false false
  | None =>
      match sp_Runtime s with
      | Some rt =>
          let env := if bool_decide (rs_Name rt = sbytes "node") then ro_Env o ++ [sbytes "GOCRACKER_ENABLE_WARM_NODE=1"] else ro_Env o in
          with_capture o env false (ro_InteractiveExec o)
      | None => o
      end
  end.
(** [lookupOpts]: the defaults of [container.Run], and [WarmCapture] set. *)
Definition lookup_options (goarch : str) (o : RunOptions) : RunOptions :=
  mkRunOptions (ro_Image o) (ro_Dockerfile o) (ro_Context o) (ro_KernelPath o) (if ro_MemMB o =? 0 then 256 else ro_MemMB o) (ro_CPUs o) (ro_Entrypoint o) (ro_Cmd o)
    (ro_Env o) (ro_WorkDir o) (if bool_decide (ro_Arch o = []) then goarch else ro_Arch o) (ro_NetworkMode o) (ro_Drives o) (ro_ExecEnabled o) true (ro_InteractiveExec o).
Definition snapshot_key (sha256 : str → str) (goarch : str) (kernelHash : option str) (s : Spec) : option str :=
  computeWarmCacheKey sha256 (lookup_options goarch (boot_options s)) kernelHash.

(** *** Waiting for the service

    The loop of [bootProbeCapture] and, with a fixed interval, of [bootRuntimeReadyCapture].  Of every
    attempt the world decides whether the deadline has passed before it, which status it gets, if
    any, and whether the deadline passes during the pause after it. *)
Definition millisecond : Z := 1000000.
Definition probeMinInterval : Z := millisecond.
Definition probeMaxInterval : Z := 100 * millisecond.
Record attempt := mkAttempt { at_expired : bool; at_status : option Z; at_expires : bool }.
Definition is_2xx (status : option Z) : bool := match status with Some n => (200 <=? n) && (n <? 300) | None => false end.
Definition next_interval (interval current : Z) : Z :=
  if (interval <=? 0) && (current <? probeMaxInterval) then
    let doubled := current * 2 in if probeMaxInterval <? doubled then probeMaxInterval else doubled
  else current.
Inductive probe_result := ProbeReady | ProbeTimeout | ProbeWaits (current : Z).
Fixpoint probe_loop (interval current : Z) (w : list attempt) : probe_result :=
  match w with
  | [] => ProbeWaits current
  | a :: w =>
      if at_expired a then ProbeTimeout
      else if is_2xx (at_status a) then ProbeReady
      else if at_expires a then ProbeTimeout
      else probe_loop interval (next_interval interval current) w
  end.
Definition probe_wait (interval : Z) (w : list attempt) : probe_result :=
  probe_loop interval (if interval <=? 0 then probeMinInterval else interval) w.
(** [rt.Interval], 50 ms when it is not set; the interval stays. *)
Definition runtime_wait (rt : RuntimeSpec) (w : list attempt) : probe_result :=
  let interval := if rs_Interval rt <=? 0 then 50 * millisecond else rs_Interval rt in probe_loop interval interval w.

(** The wait ends well exactly at the first attempt that is answered with success, when the deadline did
    not pass before. *)
Lemma probe_ready_iff interval current w :
  probe_loop interval current w = ProbeReady ↔
  ∃ i a, w !! i = Some a ∧ at_expired a = false ∧ is_2xx (at_status a) = true ∧ ∀ j b, (j < i)%nat → w !! j = Some b → at_expired b = false ∧ at_expires b = false.
Proof.
  revert current. induction w as [|a w IH]; intros current; cbn; [split; [done|]; by intros (i & b & H & _)|].
  destruct (at_expired a) eqn:E1; [|destruct (is_2xx (at_status a)) eqn:E2; [|destruct (at_expires a) eqn:E3]].
  - split; [done|]. intros ([|i] & b & Hi & Hb & _ & Hj); [injection Hi as <-; congruence|]. destruct (Hj O a ltac:(lia) eq_refl). congruence.
  - split; [|done]. intros _. exists O, a. split_and!; [done..|]. intros j b Hj. lia.
  - split; [done|]. intros ([|i] & b & Hi & _ & Hb & Hj); [injection Hi as <-; congruence|]. destruct (Hj O a ltac:(lia) eq_refl). congruence.
  - rewrite IH. split.
    + intros (i & b & Hi & H1 & H2 & Hj). exists (S i), b. split_and!; [done..|]. intros [|j] c Hlt Hc; [by injection Hc as <-|]. apply (Hj j c); [lia|done].
    + intros ([|i] & b & Hi & H1 & H2 & Hj); [injection Hi as <-; congruence|]. exists i, b. split_and!; [done..|]. intros j c Hlt Hc. apply (Hj (S j) c); [lia|done].
Qed.
(** The pauses double from 1 ms and never exceed 100 ms. *)
Lemma probe_interval_bounded n : probeMinInterval ≤ Nat.iter n (next_interval 0) probeMinInterval ≤ probeMaxInterval.
Proof.
  induction n as [|n IH]; [done|]. change (Nat.iter (S n) (next_interval 0) probeMinInterval) with (next_interval 0 (Nat.iter n (next_interval 0) probeMinInterval)).
  revert IH. generalize (Nat.iter n (next_interval 0) probeMinInterval) as c. intros c. unfold next_interval, probeMinInterval, probeMaxInterval, millisecond. cbn.
  repeat match goal with |- context [?a <? ?b] => destruct (Z.ltb_spec a b) end; lia.
Qed.

(** ** The registry *)
Inductive State := StateBuilding | StateReady | StateError.
#[export] Instance State_eq : EqDecision State.
Proof. solve_decision. Defined.
Record Template := mkTemplate {
  tm_ID : str; tm_SpecHash : str; tm_Spec : Spec; tm_State : State; tm_SnapshotDir : str; tm_LastError : option tmpl_err;
  tm_CreatedAt : Z; tm_UpdatedAt : Z
}.
Abbreviation Registry := (gmap str Template).

(** [None]: the id is taken.  0 is the zero time. *)
Definition Add (now : Z) (t : Template) (r : Registry) : option Registry :=
  match r !! tm_ID t with
  | Some _ => None
  | None =>
      let created := if tm_CreatedAt t =? 0 then now else tm_CreatedAt t in
      Some (<[tm_ID t := mkTemplate (tm_ID t) (tm_SpecHash t) (tm_Spec t) (tm_State t) (tm_SnapshotDir t) (tm_LastError t) created now]> r)
  end.
(** [order] is the order in which Go visits the map. *)
Definition older (best : option Template) (t : Template) : option Template :=
  match best with
  | None => Some t
  | Some b => if tm_CreatedAt t <? tm_CreatedAt b then Some t else best
  end.
Definition FindBySpecHash (order : list str) (hash : str) (r : Registry) : option Template :=
  fold_left (fun best id => match r !! id with
                            | Some t => if bool_decide (tm_SpecHash t = hash) && bool_decide (tm_State t = StateReady) then older best t else best
                            | None => best
                            end) order None.
Definition Update (now : Z) (id : str) (f : Template → Template) (r : Registry) : Registry :=
  match r !! id with
  | None => r
  | Some t => let t := f t in
              <[id := mkTemplate (tm_ID t) (tm_SpecHash t) (tm_Spec t) (tm_State t) (tm_SnapshotDir t) (tm_LastError t) (tm_CreatedAt t) now]> r
  end.
Definition mark_ready (dir : str) (t : Template) : Template :=
  mkTemplate (tm_ID t) (tm_SpecHash t) (tm_Spec t) StateReady dir (tm_LastError t) (tm_CreatedAt t) (tm_UpdatedAt t).
Definition mark_error (e : tmpl_err) (t : Template) : Template :=
  mkTemplate (tm_ID t) (tm_SpecHash t) (tm_Spec t) StateError (tm_SnapshotDir t) (Some e) (tm_CreatedAt t) (tm_UpdatedAt t).
Definition used_elsewhere (dir : str) (r : Registry) : bool :=
  bool_decide (map_Exists (fun _ t => tm_SnapshotDir t = dir ∧ tm_State t = StateReady) r).

(** ** Builds and deletions *)
(** Where a call is.  The calls from [TFind] to [TGet] hold the lock of their hash. *)
Inductive pc :=
  | TWait
  | TFind
  | TStat (dir : str)              (** a ready template with this snapshot has been found *)
  | TAddHit (dir : str)
  | TAddMiss
  | TBoot (id : str)
  | TFail (id : str) (e : tmpl_err)
  | TReady (id dir : str)
  | TGet (id : str)
  | TDone (r : res tmpl_err (option Template * bool))   (** the template, [None] for the zero value, and [CacheHit] *)
  | DCheck (dir : str)
  | DRemove (dir : str)
  | DDone (r : res tmpl_err unit).
Record thread := mkThread { th_id : str; th_spec : Spec; th_pc : pc }.

Record System := mkSystem {
  ts_reg : Registry;
  ts_locks : gmap str nat;        (** the call that holds the lock of a hash *)
  ts_threads : list thread;
  ts_dirs : gset str;             (** the snapshot directories on disk *)
  ts_booted : list (str * str);   (** every boot that succeeded: the hash and the directory *)
  ts_added : list str             (** every id that was ever registered *)
}.
(** What the world answers during a step. *)
Record world := mkWorld {
  w_now : Z;
  w_order : list str;               (** the order of a map iteration *)
  w_newID : str;                    (** a random id *)
  w_boot : option str               (** the directory the boot returned, or its error *)
}.
Inductive event :=
  | EBuild (id : str) (spec : Spec)
  | EStep (i : nat) (w : world)     (** the [i]th call goes on *)
  | EDelete (id : str)
  | ERemoveDir (dir : str).         (** an operator clears the cache *)

Section system.
Context (sha256 : str → str).
Abbreviation SpecHash := (SpecHash sha256).
Definition th_hash (t : thread) : str := SpecHash (th_spec t).

Definition chooseID (requested fresh : str) : str := if bool_decide (requested = []) then fresh else requested.
(** An order that is not one of this map is replaced. *)
Definition map_order (order : list str) (r : Registry) : list str :=
  if bool_decide (NoDup order ∧ list_to_set order =@{gset str} dom r) then order else (map_to_list r).*1.

(** One step of the [i]th call: the new state of the registry, the locks, the directories and the call. *)
Definition put_thread (s : System) (i : nat) (t : thread) (p : pc) : System :=
  mkSystem (ts_reg s) (ts_locks s) (<[i := mkThread (th_id t) (th_spec t) p]> (ts_threads s)) (ts_dirs s) (ts_booted s) (ts_added s).
Definition with_reg (s : System) (r : Registry) : System := mkSystem r (ts_locks s) (ts_threads s) (ts_dirs s) (ts_booted s) (ts_added s).
Definition with_locks (s : System) (l : gmap str nat) : System := mkSystem (ts_reg s) l (ts_threads s) (ts_dirs s) (ts_booted s) (ts_added s).
(** The deferred unlock and the return. *)
Definition finish_build (s : System) (i : nat) (t : thread) (r : res tmpl_err (option Template * bool)) : System :=
  put_thread (with_locks s (delete (th_hash t) (ts_locks s))) i t (TDone r).
Definition register (s : System) (r : Registry) (id : str) : System :=
  mkSystem r (ts_locks s) (ts_threads s) (ts_dirs s) (ts_booted s) (ts_added s ++ [id]).
Definition boot_done (s : System) (hash dir : str) : System :=
  mkSystem (ts_reg s) (ts_locks s) (ts_threads s) ({[dir]} ∪ ts_dirs s) (ts_booted s ++ [(hash, dir)]) (ts_added s).

Definition step (i : nat) (t : thread) (w : world) (s : System) : System :=
  let hash := th_hash t in
  match th_pc t with
  | TWait =>
      match ts_locks s !! hash with
      | Some _ => s
      | None => put_thread (with_locks s (<[hash := i]> (ts_locks s))) i t TFind
      end
  | TFind =>
      match FindBySpecHash (map_order (w_order w) (ts_reg s)) hash (ts_reg s) with
      | Some t' => put_thread s i t (TStat (tm_SnapshotDir t'))
      | None => put_thread s i t TAddMiss
      end
  | TStat dir =>
      if negb (bool_decide (dir = [])) && bool_decide (dir ∈ ts_dirs s) then put_thread s i t (TAddHit dir) else put_thread s i t TAddMiss
  | TAddHit dir =>
      let tm := mkTemplate (chooseID (th_id t) (w_newID w)) hash (th_spec t) StateReady dir None (w_now w) 0 in
      match Add (w_now w) tm (ts_reg s) with
      | None => finish_build s i t (Err IDInUse)
      | Some r => finish_build (register s r (tm_ID tm)) i t (Ok (r !! tm_ID tm, true))
      end
  | TAddMiss =>
      let tm := mkTemplate (chooseID (th_id t) (w_newID w)) hash (th_spec t) StateBuilding [] None (w_now w) 0 in
      match Add (w_now w) tm (ts_reg s) with
      | None => finish_build s i t (Err IDInUse)
      | Some r => put_thread (register s r (tm_ID tm)) i t (TBoot (tm_ID tm))
      end
  | TBoot id =>
      match w_boot w with
      | None => put_thread s i t (TFail id BootFailed)
      | Some dir => if bool_decide (dir = []) then s else put_thread (boot_done s hash dir) i t (TReady id dir)
      end
  | TFail id e => finish_build (with_reg s (Update (w_now w) id (mark_error e) (ts_reg s))) i t (Err e)
  | TReady id dir => put_thread (with_reg s (Update (w_now w) id (mark_ready dir) (ts_reg s))) i t (TGet id)
  | TGet id => finish_build s i t (Ok (ts_reg s !! id, false))
  | DCheck dir => if used_elsewhere dir (ts_reg s) then put_thread s i t (DDone (Ok tt)) else put_thread s i t (DRemove dir)
  | DRemove dir =>
      put_thread (mkSystem (ts_reg s) (ts_locks s) (ts_threads s) (ts_dirs s ∖ {[dir]}) (ts_booted s) (ts_added s)) i t (DDone (Ok tt))
  | TDone _ | DDone _ => s
  end.

(** The calls begin: [Build] with the validation, [Delete] with [Registry.Remove]. *)
Definition begin_build (id : str) (spec : Spec) : thread :=
  mkThread id spec (match Validate spec with Ok _ => TWait | Err e => TDone (Err e) | _ => TWait end).
Definition no_spec : Spec := mkSpec [] [] [] [] 0 0 [] [] [] None None.
Definition spawn (s : System) (t : thread) : System :=
  mkSystem (ts_reg s) (ts_locks s) (ts_threads s ++ [t]) (ts_dirs s) (ts_booted s) (ts_added s).
Definition do_event (ev : event) (s : System) : System :=
  match ev with
  | EBuild id spec => spawn s (begin_build id spec)
  | EStep i w => match ts_threads s !! i with Some t => step i t w s | None => s end
  | EDelete id =>
      match ts_reg s !! id with
      | None => spawn s (mkThread id no_spec (DDone (Err NotFound)))
      | Some t =>
          spawn (with_reg s (delete id (ts_reg s)))
            (mkThread id no_spec (if bool_decide (tm_SnapshotDir t = []) then DDone (Ok tt) else DCheck (tm_SnapshotDir t)))
      end
  | ERemoveDir dir => mkSystem (ts_reg s) (ts_locks s) (ts_threads s) (ts_dirs s ∖ {[dir]}) (ts_booted s) (ts_added s)
  end.
Definition run (evs : list event) (s : System) : System := fold_left (fun s ev => do_event ev s) evs s.
Definition start : System := mkSystem ∅ ∅ [] ∅ [] [].

(** *** One call per hash *)
Definition critical (p : pc) : bool :=
  match p with TFind | TStat _ | TAddHit _ | TAddMiss | TBoot _ | TFail _ _ | TReady _ _ | TGet _ => true | _ => false end.
Definition locked (s : System) : Prop :=
  ∀ i t, ts_threads s !! i = Some t → critical (th_pc t) = true → ts_locks s !! th_hash t = Some i.

Lemma locked_exclusive s i j t u :
  locked s → ts_threads s !! i = Some t → ts_threads s !! j = Some u → critical (th_pc t) = true → critical (th_pc u) = true →
  th_hash t = th_hash u → i = j.
Proof. intros Hl Hi Hj Ct Cu E. pose proof (Hl i t Hi Ct) as H1. pose proof (Hl j u Hj Cu) as H2. congruence. Qed.

(** The ways in which a step changes the calls and the locks. *)
Lemma locked_put s i t p : locked s → ts_threads s !! i = Some t → critical (th_pc t) = true → locked (put_thread s i t p).
Proof.
  intros Hl Ht Hc j u Hj Cu. cbn in *. apply list_lookup_insert_Some in Hj as [(<- & <- & _)|[Hne Hj]]; [exact (Hl i t Ht Hc)|by apply Hl].
Qed.
Lemma locked_finish s i t r : locked s → ts_threads s !! i = Some t → critical (th_pc t) = true → locked (finish_build s i t r).
Proof.
  intros Hl Ht Hc j u Hj Cu. cbn in *. apply list_lookup_insert_Some in Hj as [(<- & <- & _)|[Hne Hj]]; [done|].
  pose proof (Hl j u Hj Cu) as H. rewrite lookup_delete_ne; [done|]. intros E. pose proof (Hl i t Ht Hc) as H2. congruence.
Qed.
Lemma locked_reg s r : locked s → locked (with_reg s r).
Proof. done. Qed.
Lemma locked_spawn s t : locked s → critical (th_pc t) = false → locked (spawn s t).
Proof. intros Hl Ht j u Hj Cu. cbn in *. apply lookup_app_Some in Hj as [Hj|[_ Hj]]; [by apply Hl|]. apply list_lookup_singleton_Some in Hj as [_ <-]. congruence. Qed.
Lemma step_locked i t w s : locked s → ts_threads s !! i = Some t → locked (step i t w s).
Proof.
  intros Hl Ht. unfold step. destruct (th_pc t) as [| |dir|dir| |id|id e|id dir|id|r|dir|dir|r] eqn:Hp; try done.
  - destruct (ts_locks s !! th_hash t) eqn:Hk; [done|]. intros j u Hj Cu. cbn in *.
    apply list_lookup_insert_Some in Hj as [(<- & <- & _)|[Hne Hj]]; [apply lookup_insert_eq|].
    pose proof (Hl j u Hj Cu) as H. rewrite lookup_insert_ne; [done|]. congruence.
  - assert (critical (th_pc t) = true) by by rewrite Hp. destruct (FindBySpecHash _ _ _); by apply locked_put.
  - assert (critical (th_pc t) = true) by by rewrite Hp. destruct (_ && _); by apply locked_put.
  - assert (critical (th_pc t) = true) by by rewrite Hp. destruct (Add _ _ _); by apply locked_finish.
  - assert (critical (th_pc t) = true) by by rewrite Hp. destruct (Add _ _ _); [by apply locked_put|by apply locked_finish].
  - assert (critical (th_pc t) = true) by by rewrite Hp. destruct (w_boot w) as [dir|]; [case_bool_decide; [done|]|]; by apply locked_put.
  - apply locked_finish; [done..|]. by rewrite Hp.
  - apply locked_put; [done..|]. by rewrite Hp.
  - apply locked_finish; [done..|]. by rewrite Hp.
  - assert (∀ p, critical p = false → locked (put_thread s i t p)) as H; [|by destruct (used_elsewhere _ _); apply H].
    intros p Hc j u Hj Cu. cbn in *. apply list_lookup_insert_Some in Hj as [(<- & <- & _)|[Hne Hj]]; [cbn in Cu; congruence|by apply Hl].
  - intros j u Hj Cu. cbn in *. apply list_lookup_insert_Some in Hj as [(<- & <- & _)|[Hne Hj]]; [done|by apply Hl].
Qed.
Lemma do_event_locked ev s : locked s → locked (do_event ev s).
Proof.
  intros Hl. destruct ev as [id spec|i w|id|dir]; cbn [do_event].
  - apply locked_spawn; [done|]. unfold begin_build, Validate. cbn. by repeat case_bool_decide.
  - destruct (ts_threads s !! i) eqn:Hi; [by apply step_locked|done].
  - destruct (ts_reg s !! id); [|by apply locked_spawn]. apply locked_spawn; [done|]. cbn. by case_bool_decide.
  - done.
Qed.
Lemma run_locked evs s : locked s → locked (run evs s).
Proof. revert s. induction evs as [|ev evs IH]; intros s Hl; [done|]. by apply IH, do_event_locked. Qed.

(** *** Where a ready template's snapshot comes from *)

(** The registered template that a call works on, and whether it is still to be built. *)
Definition active_id (p : pc) : option str := match p with TBoot id | TFail id _ | TReady id _ | TGet id => Some id | _ => None end.
Definition building_id (p : pc) : option str := match p with TBoot id | TFail id _ | TReady id _ => Some id | _ => None end.
Definition ready_from (booted : list (str * str)) (spec : Spec) (tm : Template) : Prop :=
  tm_Spec tm = spec ∧ tm_State tm = StateReady ∧ tm_SpecHash tm = SpecHash spec ∧ (SpecHash spec, tm_SnapshotDir tm) ∈ booted.
Definition thread_ok (r : Registry) (booted : list (str * str)) (added : list str) (t : thread) : Prop :=
  (∀ id, active_id (th_pc t) = Some id → id ∈ added ∧ ∀ tm, r !! id = Some tm → tm_Spec tm = th_spec t) ∧
  match th_pc t with
  | TStat d | TAddHit d => (th_hash t, d) ∈ booted
  | TReady _ d => (th_hash t, d) ∈ booted
  | TGet id => ∀ tm, r !! id = Some tm → ready_from booted (th_spec t) tm
  | TDone (Ok (Some tm, _)) => ready_from booted (th_spec t) tm
  | _ => True
  end.
Definition entry_ok (ts : list thread) (booted : list (str * str)) (added : list str) (id : str) (tm : Template) : Prop :=
  tm_ID tm = id ∧ id ∈ added ∧ tm_SpecHash tm = SpecHash (tm_Spec tm) ∧
  match tm_State tm with
  | StateReady => (tm_SpecHash tm, tm_SnapshotDir tm) ∈ booted
  | StateBuilding => ∃ i t, ts !! i = Some t ∧ building_id (th_pc t) = Some id ∧ th_spec t = tm_Spec tm
  | StateError => True
  end.
Definition one_owner (ts : list thread) : Prop :=
  ∀ i j t u id, ts !! i = Some t → ts !! j = Some u → active_id (th_pc t) = Some id → active_id (th_pc u) = Some id → i = j.
Definition provenance (s : System) : Prop :=
  (∀ id tm, ts_reg s !! id = Some tm → entry_ok (ts_threads s) (ts_booted s) (ts_added s) id tm) ∧
  (∀ i t, ts_threads s !! i = Some t → thread_ok (ts_reg s) (ts_booted s) (ts_added s) t) ∧
  one_owner (ts_threads s).

Lemma ready_from_mono b b' spec tm : b ⊆ b' → ready_from b spec tm → ready_from b' spec tm.
Proof. intros Hb (? & ? & ? & ?). split_and!; auto. Qed.
Lemma thread_ok_mono r r' b b' a a' t :
  (∀ id tm, active_id (th_pc t) = Some id → r' !! id = Some tm → r !! id = Some tm) → b ⊆ b' → a ⊆ a' →
  thread_ok r b a t → thread_ok r' b' a' t.
Proof.
  intros Hr Hb Ha [H1 H2]. split.
  - intros id Hid. destruct (H1 id Hid) as [? Htm]. split; [by apply Ha|]. intros tm Ht. apply Htm. by eapply Hr.
  - destruct (th_pc t) as [| |dir|dir| |id|id e|id dir|id|[[[tm|] hit]|? | |]|dir|dir|r0] eqn:E; cbn in *; auto; [|by eapply ready_from_mono].
    intros tm Htm. eapply ready_from_mono; [done|]. apply H2. by apply Hr.
Qed.
Lemma one_owner_put ts i t p :
  one_owner ts → ts !! i = Some t →
  (∀ id, active_id p = Some id → active_id (th_pc t) = Some id ∨ ∀ j u, ts !! j = Some u → active_id (th_pc u) ≠ Some id) →
  one_owner (<[i := mkThread (th_id t) (th_spec t) p]> ts).
Proof.
  intros Ho Hi Hp j k u v id Hj Hk Hu Hv. apply list_lookup_insert_Some in Hj as [(<- & <- & _)|[Hne Hj]]; apply list_lookup_insert_Some in Hk as [(<- & <- & _)|[Hne' Hk]]; try done.
  - destruct (Hp id Hu) as [H|H]; [by eapply Ho|]. by destruct (H k v Hk).
  - destruct (Hp id Hv) as [H|H]; [by eapply Ho|]. by destruct (H j u Hj).
  - by eapply Ho.
Qed.
(** A step of one call. *)
Lemma provenance_put s i t p r' b' a' l' d' :
  provenance s → ts_threads s !! i = Some t →
  ts_booted s ⊆ b' → ts_added s ⊆ a' →
  (∀ j u id tm, j ≠ i → ts_threads s !! j = Some u → active_id (th_pc u) = Some id → r' !! id = Some tm → ts_reg s !! id = Some tm) →
  (∀ id, active_id p = Some id → active_id (th_pc t) = Some id ∨ ∀ j u, ts_threads s !! j = Some u → active_id (th_pc u) ≠ Some id) →
  thread_ok r' b' a' (mkThread (th_id t) (th_spec t) p) →
  (∀ id tm, r' !! id = Some tm → entry_ok (<[i := mkThread (th_id t) (th_spec t) p]> (ts_threads s)) b' a' id tm) →
  provenance (mkSystem r' l' (<[i := mkThread (th_id t) (th_spec t) p]> (ts_threads s)) d' b' a').
Proof.
  intros (He & Ht & Ho) Hi Hb Ha Hagree Hp Hok Hent. split_and!; cbn; [done| |by apply one_owner_put].
  intros j u Hj. apply list_lookup_insert_Some in Hj as [(<- & <- & _)|[Hne Hj]]; [done|].
  eapply thread_ok_mono; [|done|done|by apply (Ht j u)]. intros id tm Hid Htm. by eapply (Hagree j).
Qed.
(** An entry that the step leaves as it is. *)
Lemma entry_keep ts i t p b b' a a' id tm :
  ts !! i = Some t → b ⊆ b' → a ⊆ a' → (building_id (th_pc t) = Some id → building_id p = Some id) →
  entry_ok ts b a id tm → entry_ok (<[i := mkThread (th_id t) (th_spec t) p]> ts) b' a' id tm.
Proof.
  intros Hi Hb Ha Hp (H1 & H2 & H3 & H4). split_and!; [done|by apply Ha|done|]. destruct (tm_State tm); [|by apply Hb|done].
  destruct H4 as (j & u & Hj & Hu & Hs). destruct (decide (j = i)) as [->|Hne].
  - rewrite Hi in Hj. injection Hj as ->. exists i, (mkThread (th_id u) (th_spec u) p). rewrite list_lookup_insert_eq by (by eapply lookup_lt_Some). auto.
  - exists j, u. by rewrite list_lookup_insert_ne.
Qed.
(** A step that changes neither the registry nor the history. *)
Lemma provenance_same s i t p l' d' :
  provenance s → ts_threads s !! i = Some t →
  (∀ id, building_id (th_pc t) = Some id → building_id p = Some id) → (∀ id, active_id p = Some id → active_id (th_pc t) = Some id) →
  thread_ok (ts_reg s) (ts_booted s) (ts_added s) (mkThread (th_id t) (th_spec t) p) →
  provenance (mkSystem (ts_reg s) l' (<[i := mkThread (th_id t) (th_spec t) p]> (ts_threads s)) d' (ts_booted s) (ts_added s)).
Proof.
  intros Hs Hi Hb Ha Hok. pose proof Hs as (He & _ & _). apply provenance_put; try done; [by intros id Hid; left; apply Ha|].
  intros id tm Hid. eapply entry_keep; [done..|apply Hb|by apply He].
Qed.
Lemma Find_sound (order : list str) (hash : str) (r : Registry) (tm : Template) : FindBySpecHash order hash r = Some tm → ∃ id, r !! id = Some tm ∧ tm_SpecHash tm = hash ∧ tm_State tm = StateReady.
Proof.
  unfold FindBySpecHash. set (P := fun o : option Template => ∀ tm, o = Some tm → ∃ id, r !! id = Some tm ∧ tm_SpecHash tm = hash ∧ tm_State tm = StateReady).
  enough (∀ best, P best → P (fold_left _ order best)) as H by (apply H; intros ? [=]).
  induction order as [|id order IH]; intros best Hb; [done|]. apply IH. destruct (r !! id) as [t|] eqn:E; [|done].
  case_bool_decide; [|done]. case_bool_decide; [|done]. cbn. unfold older. destruct best as [b|].
  - destruct (_ <? _); [|done]. intros ? [= <-]. eauto.
  - intros ? [= <-]. eauto.
Qed.
(** A template is registered under an id that was never used. *)
Lemma provenance_add s i t p tm now r' l' d' :
  provenance s → ts_threads s !! i = Some t → building_id (th_pc t) = None → NoDup (ts_added s ++ [tm_ID tm]) →
  Add now tm (ts_reg s) = Some r' → tm_Spec tm = th_spec t → tm_SpecHash tm = th_hash t →
  (tm_State tm = StateBuilding ∧ p = TBoot (tm_ID tm)) ∨ (tm_State tm = StateReady ∧ (th_hash t, tm_SnapshotDir tm) ∈ ts_booted s ∧ p = TDone (Ok (r' !! tm_ID tm, true))) →
  provenance (mkSystem r' l' (<[i := mkThread (th_id t) (th_spec t) p]> (ts_threads s)) d' (ts_booted s) (ts_added s ++ [tm_ID tm])).
Proof.
  intros Hs Hi Hnb Hn Hadd Hsp Hh Hp. pose proof Hs as (He & Ht & _). unfold Add in Hadd.
  destruct (ts_reg s !! tm_ID tm) eqn:Hfree; [done|]. injection Hadd as <-. apply NoDup_app in Hn as (_ & Hn & _).
  assert (tm_ID tm ∉ ts_added s) as Hnew by (intros H; apply (Hn _ H); by apply list_elem_of_singleton).
  assert (∀ j u, ts_threads s !! j = Some u → active_id (th_pc u) ≠ Some (tm_ID tm)) as Hfresh.
  { intros j u Hj Hu. destruct (Ht j u Hj) as [H1 _]. by destruct (H1 _ Hu). }
  set (tm' := mkTemplate _ _ _ _ _ _ _ _). assert (tm_ID tm ∈ ts_added s ++ [tm_ID tm]) as Hin by (apply elem_of_app; right; by apply list_elem_of_singleton).
  apply provenance_put; [done|done|done|set_solver| | | |].
  - intros j u id tm0 _ Hj Hu. rewrite lookup_insert_Some. intros [[<- _]|[_ ?]]; [by destruct (Hfresh j u Hj)|done].
  - intros id Hid. right. destruct Hp as [[_ ->]|(_ & _ & ->)]; [|done]. cbn in Hid. injection Hid as <-. done.
  - split.
    + intros id Hid. destruct Hp as [[_ ->]|(_ & _ & ->)]; [|done]. cbn in Hid. injection Hid as <-. split; [done|].
      intros tm0. rewrite lookup_insert_eq. by intros [= <-].
    + destruct Hp as [[_ ->]|(Hr & Hd & ->)]; [done|]. cbn. rewrite lookup_insert_eq. by split_and!.
  - intros id tm0. rewrite lookup_insert_Some. intros [[<- <-]|[Hne Hid]].
    + split_and!; [done..|cbn; rewrite Hsp; by rewrite Hh|]. cbn. destruct Hp as [[-> ->]|(-> & Hd & ->)].
      * exists i, (mkThread (th_id t) (th_spec t) (TBoot (tm_ID tm))). rewrite list_lookup_insert_eq by (by eapply lookup_lt_Some). done.
      * by rewrite Hh.
    + apply (entry_keep _ _ _ _ (ts_booted s) _ (ts_added s)); [done|done|set_solver|intros E; by rewrite Hnb in E|by apply He].
Qed.
(** The end of a boot: the template, if it is still there, leaves the state Building. *)
Lemma provenance_update s i t p id f now l' d' :
  provenance s → ts_threads s !! i = Some t → building_id (th_pc t) = Some id →
  (∀ tm, ts_reg s !! id = Some tm → tm_Spec tm = th_spec t → tm_ID tm = id → tm_SpecHash tm = th_hash t →
     let tm' := f tm in
     tm_ID tm' = id ∧ tm_Spec tm' = th_spec t ∧ tm_SpecHash tm' = th_hash t ∧
     ((tm_State tm' = StateError ∧ ∃ r, p = TDone (Err r)) ∨
      (tm_State tm' = StateReady ∧ (th_hash t, tm_SnapshotDir tm') ∈ ts_booted s ∧ p = TGet id))) →
  (p = TGet id ∨ ∃ r, p = TDone (Err r)) →
  provenance (mkSystem (Update now id f (ts_reg s)) l' (<[i := mkThread (th_id t) (th_spec t) p]> (ts_threads s)) d' (ts_booted s) (ts_added s)).
Proof.
  intros Hs Hi Hb Hf Hp. pose proof Hs as (He & Ht & Ho). assert (active_id (th_pc t) = Some id) as Hact by (by destruct (th_pc t)).
  destruct (Ht i t Hi) as [H1 _]. destruct (H1 id Hact) as [Hadded Hspec]. unfold Update.
  assert (∀ tm, ts_reg s !! id = Some tm → _) as Hnew by (intros tm Htm; destruct (He id tm Htm) as (E1 & _ & E3 & _); apply (Hf tm Htm (Hspec tm Htm) E1); by rewrite E3, (Hspec tm Htm)).
  clear Hf. cbn in Hnew. apply provenance_put; try done.
  - intros j u id' tm' Hne Hj Hu. destruct (ts_reg s !! id) as [tm|] eqn:Hid; [|done]. rewrite lookup_insert_ne; [done|].
    intros <-. by destruct (Hne (Ho _ _ _ _ _ Hj Hi Hu Hact)).
  - intros id' Hid'. left. destruct Hp as [->|[r ->]]; [|done]. cbn in Hid'. by injection Hid' as <-.
  - split; cbn.
    + intros id' Hid'. destruct Hp as [->|[r ->]]; [|done]. cbn in Hid'. injection Hid' as <-. split; [done|]. intros tm'.
      destruct (ts_reg s !! id) as [tm|] eqn:Hid; [|congruence]. rewrite lookup_insert_eq. intros [= <-]. cbn. by apply Hnew.
    + destruct Hp as [->|[r ->]]; [|done]. intros tm'. destruct (ts_reg s !! id) as [tm|] eqn:Hid; [|congruence]. rewrite lookup_insert_eq. intros [= <-].
      destruct (Hnew _ eq_refl) as (E1 & E2 & E3 & [[_ [r' ?]]|(E4 & E5 & _)]); [done|]. split_and!; done.
  - intros id' tm'. assert (∀ tm0, id' ≠ id → ts_reg s !! id' = Some tm0 → entry_ok (<[i := mkThread (th_id t) (th_spec t) p]> (ts_threads s)) (ts_booted s) (ts_added s) id' tm0) as Hkeep.
    { intros tm0 Hne Hid'. eapply entry_keep; [done..|rewrite Hb; by intros [= <-]|by apply He]. }
    destruct (ts_reg s !! id) as [tm|] eqn:Hid; [|intros Hid'; apply Hkeep; [congruence|done]]. rewrite lookup_insert_Some.
    intros [[<- <-]|[Hne ?]]; [|by apply Hkeep]. destruct (Hnew _ eq_refl) as (E1 & E2 & E3 & E4). split_and!; cbn; [done|done|by rewrite E2|].
    destruct E4 as [[-> _]|(-> & E5 & _)]; [done|]. by rewrite E3.
Qed.
Lemma step_provenance i t w s :
  provenance s → ts_threads s !! i = Some t → NoDup (ts_added (step i t w s)) → provenance (step i t w s).
Proof.
  intros Hs Hi. pose proof Hs as (He & Ht & Ho). destruct (Ht i t Hi) as [Hact Hok].
  unfold step. destruct (th_pc t) as [| |dir|dir| |id|id e|id dir|id|r|dir|dir|r] eqn:Hp; try done; cbn in Hact; intros Hn.
  - destruct (ts_locks s !! th_hash t); [done|]. apply provenance_same; rewrite ?Hp; done.
  - destruct (FindBySpecHash _ _ _) as [tm|] eqn:Hf; apply provenance_same; rewrite ?Hp; try done.
    apply Find_sound in Hf as (id & Hid & Hh & Hr). destruct (He id tm Hid) as (_ & _ & _ & H). rewrite Hr, Hh in H. done.
  - destruct (_ && _); apply provenance_same; rewrite ?Hp; done.
  - destruct (Add _ _ _) as [r|] eqn:Ha; [|apply provenance_same; rewrite ?Hp; done].
    eapply provenance_add in Ha; [exact Ha|done|done|by rewrite Hp|done|done|done|]. right. done.
  - destruct (Add _ _ _) as [r|] eqn:Ha; [|apply provenance_same; rewrite ?Hp; done].
    eapply provenance_add in Ha; [exact Ha|done|done|by rewrite Hp|done|done|done|]. by left.
  - destruct (w_boot w) as [dir|]; [|apply provenance_same; rewrite ?Hp; done]. case_bool_decide; [done|].
    apply (provenance_put s); rewrite ?Hp; try done; [set_solver|auto| |].
    + split; cbn; [|apply elem_of_app; right; by apply list_elem_of_singleton]. intros id' [= <-]. by apply Hact.
    + intros id' tm Hid'. apply (entry_keep _ _ _ _ (ts_booted s) _ (ts_added s)); [done|set_solver|done|by rewrite Hp|by apply He].
  - apply (provenance_update s i t (TDone (Err e)) id (mark_error e) (w_now w)); [done|done|by rewrite Hp| |by eauto]. intros tm Htm E1 E2 E3. split_and!; try done. left. eauto.
  - apply (provenance_update s i t (TGet id) id (mark_ready dir) (w_now w)); [done|done|by rewrite Hp| |by left]. intros tm Htm E1 E2 E3. split_and!; try done. by right.
  - apply provenance_same; rewrite ?Hp; try done. split; [done|]. cbn. destruct (ts_reg s !! id) as [tm|]; [by apply Hok|done].
  - destruct (used_elsewhere _ _); apply provenance_same; rewrite ?Hp; done.
  - apply provenance_same; rewrite ?Hp; done.
Qed.
Lemma spawn_provenance s r' t :
  provenance s → r' ⊆ ts_reg s → active_id (th_pc t) = None → thread_ok r' (ts_booted s) (ts_added s) t → provenance (spawn (with_reg s r') t).
Proof.
  intros (He & Ht & Ho) Hr Ha Hok. split_and!; cbn.
  - intros id tm Hid. eapply lookup_weaken in Hid; [|exact Hr]. destruct (He id tm Hid) as (H1 & H2 & H3 & H4). split_and!; try done.
    destruct (tm_State tm); [|done..]. destruct H4 as (i & u & Hi & ? & ?). exists i, u. by rewrite lookup_app_l by (by eapply lookup_lt_Some).
  - intros i u Hi. apply lookup_app_Some in Hi as [Hi|[_ Hi]].
    + eapply thread_ok_mono; [|done|done|by apply (Ht i)]. intros id tm _ Hid. by eapply lookup_weaken.
    + by apply list_lookup_singleton_Some in Hi as [_ <-].
  - intros i j u v id Hi Hj Hu Hv. apply lookup_app_Some in Hi as [Hi|[_ Hi]], Hj as [Hj|[_ Hj]]; [by eapply Ho| | |];
      apply list_lookup_singleton_Some in Hj as [_ <-] || apply list_lookup_singleton_Some in Hi as [_ <-]; congruence.
Qed.
Lemma do_event_provenance ev s : provenance s → NoDup (ts_added (do_event ev s)) → provenance (do_event ev s).
Proof.
  intros Hs Hn. destruct ev as [id spec|i w|id|dir]; cbn [do_event] in *.
  - apply (spawn_provenance s (ts_reg s)); [done|done| |]; unfold begin_build, Validate; cbn; repeat case_bool_decide; try done; split; done.
  - destruct (ts_threads s !! i) eqn:Hi; [by apply step_provenance|done].
  - destruct (ts_reg s !! id) as [tm|].
    + apply spawn_provenance; [done|apply delete_subseteq| |]; cbn; case_bool_decide; try done; split; done.
    + apply (spawn_provenance s (ts_reg s)); [done..|]. split; done.
  - done.
Qed.
Lemma added_grows evs s : ts_added s `prefix_of` ts_added (run evs s).
Proof.
  revert s. induction evs as [|ev evs IH]; intros s; [done|]. etrans; [|apply IH].
  destruct ev as [id spec|i w|id|dir]; cbn [do_event]; try done; [|by destruct (ts_reg s !! id)].
  destruct (ts_threads s !! i) as [t|]; [|done]. unfold step. destruct (th_pc t); try done.
  - by destruct (ts_locks s !! _).
  - by destruct (FindBySpecHash _ _ _).
  - by destruct (_ && _).
  - destruct (Add _ _ _); [by apply prefix_app_r|done].
  - destruct (Add _ _ _); [by apply prefix_app_r|done].
  - destruct (w_boot w); [by case_bool_decide|done].
  - by destruct (used_elsewhere _ _).
Qed.
Lemma run_provenance evs s : provenance s → NoDup (ts_added (run evs s)) → provenance (run evs s).
Proof.
  revert s. induction evs as [|ev evs IH]; intros s Hs Hn; [done|]. apply IH; [|done]. apply do_event_provenance; [done|].
  destruct (added_grows evs (do_event ev s)) as [k Hk]. cbn in Hn. unfold run in Hk. rewrite Hk in Hn. by apply NoDup_app in Hn as [? _].
Qed.
Lemma start_provenance : provenance start.
Proof. split_and!; [by intros ? ? ?|by intros ? ? ?|by intros ? ? ? ? ? ?]. Qed.

(** *** One boot per specification, when nothing is deleted *)
Definition quiet (ev : event) : bool := match ev with EDelete _ | ERemoveDir _ => false | _ => true end.
Definition ready_at (r : Registry) (h : str) : Prop := ∃ id tm, r !! id = Some tm ∧ tm_State tm = StateReady ∧ tm_SpecHash tm = h.
Definition missed (p : pc) : bool := match p with TAddMiss | TBoot _ | TFail _ _ => true | _ => false end.
(** Deletions, and a build that returned no template. *)
Definition deleting (p : pc) : bool := match p with DCheck _ | DRemove _ | TDone (Ok (None, _)) => true | _ => false end.
Definition thread_once (r : Registry) (booted : list (str * str)) (t : thread) : Prop :=
  deleting (th_pc t) = false ∧ (missed (th_pc t) = true → th_hash t ∉ booted.*1) ∧
  (∀ id tm, building_id (th_pc t) = Some id → r !! id = Some tm → tm_State tm = StateBuilding).
(** A snapshot that was made belongs to a ready template, or is about to. *)
Definition published (r : Registry) (ts : list thread) (h d : str) : Prop :=
  ready_at r h ∨ ∃ i t id, ts !! i = Some t ∧ th_pc t = TReady id d ∧ th_hash t = h.
Definition once (s : System) : Prop :=
  NoDup (ts_added s) ∧ (∀ id, id ∈ ts_added s → is_Some (ts_reg s !! id)) ∧
  (∀ h d, (h, d) ∈ ts_booted s → d ∈ ts_dirs s ∧ d ≠ []) ∧ NoDup (ts_booted s).*1 ∧
  (∀ h d, (h, d) ∈ ts_booted s → published (ts_reg s) (ts_threads s) h d) ∧
  (∀ i t, ts_threads s !! i = Some t → thread_once (ts_reg s) (ts_booted s) t).

Lemma Find_complete (order : list str) (hash : str) (r : Registry) id tm :
  id ∈ order → r !! id = Some tm → tm_SpecHash tm = hash → tm_State tm = StateReady → FindBySpecHash order hash r ≠ None.
Proof.
  intros Hin Hid Hh Hr. unfold FindBySpecHash. set (f := fun (best : option Template) (id : str) => _).
  assert (∀ l best, best ≠ None → fold_left f l best ≠ None) as Hkeep.
  { induction l as [|x l IH]; intros best Hb; [done|]. apply IH. unfold f. destruct (r !! x) as [t|]; [|done].
    destruct (_ && _); [|done]. unfold older. destruct best as [b|]; [|done]. by destruct (_ <? _). }
  enough (∀ best, fold_left f order best ≠ None) as H by apply H. induction order as [|x l IH]; intros best; [by apply elem_of_nil in Hin|]. cbn.
  apply elem_of_cons in Hin as [<-|Hin]; [|by apply IH]. apply Hkeep. unfold f. rewrite Hid, !bool_decide_eq_true_2 by done. cbn.
  unfold older. destruct best as [b|]; [|done]. by destruct (_ <? _).
Qed.
Lemma map_order_elem (order : list str) (r : Registry) (id : str) : is_Some (r !! id) → id ∈ map_order order r.
Proof.
  intros [tm Htm]. unfold map_order. case_bool_decide as H.
  - destruct H as [_ H]. apply elem_of_dom_2 in Htm. rewrite <- H in Htm. by apply elem_of_list_to_set in Htm.
  - apply list_elem_of_fmap. exists (id, tm). split; [done|]. by apply elem_of_map_to_list.
Qed.
(** A step that leaves the registry and the history as they are. *)
Lemma once_same s i t p l' :
  once s → ts_threads s !! i = Some t → (∀ id d, th_pc t ≠ TReady id d) → thread_once (ts_reg s) (ts_booted s) (mkThread (th_id t) (th_spec t) p) →
  once (mkSystem (ts_reg s) l' (<[i := mkThread (th_id t) (th_spec t) p]> (ts_threads s)) (ts_dirs s) (ts_booted s) (ts_added s)).
Proof.
  intros (H1 & H2 & H3 & H4 & H5 & H6) Hi Hr Hp. split_and!; cbn; try done.
  - intros h d Hd. destruct (H5 h d Hd) as [?|(j & u & id & Hj & Hu & Hh)]; [by left|]. right. exists j, u, id.
    rewrite list_lookup_insert_ne; [done|]. intros ->. rewrite Hi in Hj. injection Hj as <-. by destruct (Hr id d).
  - intros j u Hj. apply list_lookup_insert_Some in Hj as [(<- & <- & _)|[Hne Hj]]; [done|by apply (H6 j)].
Qed.
(** Only the call that registered a template changes it, and it was not ready before. *)
Lemma ready_at_update (now : Z) (id : str) (f : Template → Template) (r : Registry) (h : str) : (∀ tm, r !! id = Some tm → tm_State tm = StateBuilding) → ready_at r h → ready_at (Update now id f r) h.
Proof.
  intros Hb (id' & tm & Hid & Hr & Hh). exists id', tm. split_and!; [|done..]. unfold Update. destruct (r !! id) as [tm'|] eqn:E; [|done].
  rewrite lookup_insert_ne; [done|]. intros <-. rewrite E in Hid. injection Hid as ->. rewrite (Hb tm eq_refl) in Hr. done.
Qed.
Lemma ready_at_add (now : Z) (tm : Template) (r r' : Registry) (h : str) : Add now tm r = Some r' → ready_at r h → ready_at r' h.
Proof.
  unfold Add. destruct (r !! tm_ID tm) eqn:E; [done|]. intros [= <-] (id & tm' & Hid & Hr). exists id, tm'. split; [|done].
  rewrite lookup_insert_ne; [done|]. congruence.
Qed.
Lemma once_register s i t p tm now r' l' :
  once s → provenance s → ts_threads s !! i = Some t → building_id (th_pc t) = None → Add now tm (ts_reg s) = Some r' →
  thread_once r' (ts_booted s) (mkThread (th_id t) (th_spec t) p) →
  once (mkSystem r' l' (<[i := mkThread (th_id t) (th_spec t) p]> (ts_threads s)) (ts_dirs s) (ts_booted s) (ts_added s ++ [tm_ID tm])).
Proof.
  intros (H1 & H2 & H3 & H4 & H5 & H6) (_ & Ht & _) Hi Hnb Ha Hp. pose proof (fun h => ready_at_add now tm _ _ h Ha) as Hready.
  unfold Add in Ha. destruct (ts_reg s !! tm_ID tm) eqn:Hfree; [done|]. injection Ha as Ha.
  assert (tm_ID tm ∉ ts_added s) as Hnew by (intros H; destruct (H2 _ H); congruence). subst r'. split_and!; cbn; try done.
  - apply NoDup_app. split_and!; [done| |apply NoDup_singleton]. intros x Hx ->%list_elem_of_singleton. done.
  - intros id [Hid|Hid%list_elem_of_singleton]%elem_of_app; apply lookup_insert_is_Some; [|by left].
    destruct (decide (tm_ID tm = id)) as [->|Hne]; [by left|right; auto].
  - intros h d Hd. destruct (H5 h d Hd) as [?|(j & u & id & Hj & Hu & Hh)]; [left; by apply Hready|]. right. exists j, u, id.
    rewrite list_lookup_insert_ne; [done|]. intros ->. rewrite Hi in Hj. injection Hj as <-. by rewrite Hu in Hnb.
  - intros j u Hj. apply list_lookup_insert_Some in Hj as [(<- & <- & _)|[Hne Hj]]; [done|].
    destruct (H6 j u Hj) as (E1 & E2 & E3). split_and!; [done..|]. intros id tm0 Hid. rewrite lookup_insert_Some.
    intros [[<- _]|[_ ?]]; [|by eapply E3]. destruct Hnew. destruct (Ht j u Hj) as [E4 _].
    apply (E4 (tm_ID tm)). by destruct (th_pc u).
Qed.
Lemma once_update s i t p id f now l' :
  once s → provenance s → ts_threads s !! i = Some t → building_id (th_pc t) = Some id →
  (∀ tm, tm_SpecHash (f tm) = tm_SpecHash tm) → (∀ d, th_pc t = TReady id d → ∀ tm, tm_State (f tm) = StateReady) →
  building_id p = None → missed p = false → deleting p = false →
  once (mkSystem (Update now id f (ts_reg s)) l' (<[i := mkThread (th_id t) (th_spec t) p]> (ts_threads s)) (ts_dirs s) (ts_booted s) (ts_added s)).
Proof.
  intros (H1 & H2 & H3 & H4 & H5 & H6) (He & Ht & Ho) Hi Hb Hf Hr P1 P2 P3.
  assert (∀ tm, ts_reg s !! id = Some tm → tm_State tm = StateBuilding) as Hbuild by (intros tm; apply (H6 i t Hi); done).
  assert (active_id (th_pc t) = Some id) as Hact by (by destruct (th_pc t)).
  destruct (Ht i t Hi) as [Hown _]. destruct (Hown id Hact) as [Hadded Hspec]. split_and!; cbn; try done.
  - intros id' Hid'. unfold Update. destruct (ts_reg s !! id); [|by apply H2]. apply lookup_insert_is_Some'. right. by apply H2.
  - intros h d Hd. destruct (H5 h d Hd) as [?|(j & u & id' & Hj & Hu & Hh)]; [left; by apply ready_at_update|]. destruct (decide (j = i)) as [->|Hne].
    + left. rewrite Hi in Hj. injection Hj as <-. rewrite Hu in Hb. injection Hb as ->. destruct (H2 id Hadded) as [tm Htm]. destruct (He id tm Htm) as (_ & _ & E & _).
      unfold Update. rewrite Htm. exists id. eexists. rewrite lookup_insert_eq. split; [done|]. cbn. split; [by eapply Hr|].
      rewrite Hf, E, (Hspec tm Htm). exact Hh.
    + right. exists j, u, id'. by rewrite list_lookup_insert_ne.
  - intros j u Hj. apply list_lookup_insert_Some in Hj as [(<- & <- & _)|[Hne Hj]].
    + split_and!; cbn; [done|by rewrite P2|by rewrite P1].
    + destruct (H6 j u Hj) as (E1 & E2 & E3). split_and!; [done..|]. intros id' tm0 Hid'. unfold Update. destruct (ts_reg s !! id) as [tm|] eqn:Hid; [|by eapply E3].
      rewrite lookup_insert_ne; [by eapply E3|]. intros <-. destruct Hne. apply (Ho _ _ _ _ id Hi Hj Hact). by destruct (th_pc u).
Qed.
Lemma once_boot s i t id dir l' :
  once s → locked s → ts_threads s !! i = Some t → th_pc t = TBoot id → dir ≠ [] →
  once (mkSystem (ts_reg s) l' (<[i := mkThread (th_id t) (th_spec t) (TReady id dir)]> (ts_threads s)) ({[dir]} ∪ ts_dirs s) (ts_booted s ++ [(th_hash t, dir)]) (ts_added s)).
Proof.
  intros (H1 & H2 & H3 & H4 & H5 & H6) Hl Hi Hp Hdir. destruct (H6 i t Hi) as (_ & Hm & Hb). rewrite Hp in Hm, Hb. specialize (Hm eq_refl).
  split_and!; cbn; try done.
  - intros h d [Hd|Hd%list_elem_of_singleton]%elem_of_app; [destruct (H3 h d Hd); set_solver|]. injection Hd as -> ->. set_solver.
  - rewrite fmap_app. apply NoDup_app. split_and!; [done| |apply NoDup_singleton]. intros x Hx ->%list_elem_of_singleton. done.
  - intros h d [Hd|Hd%list_elem_of_singleton]%elem_of_app.
    + destruct (H5 h d Hd) as [?|(j & u & id' & Hj & Hu & Hh)]; [by left|]. right. exists j, u, id'. rewrite list_lookup_insert_ne; [done|].
      intros ->. rewrite Hi in Hj. injection Hj as <-. congruence.
    + injection Hd as -> ->. right. exists i. eexists. exists id. rewrite list_lookup_insert_eq by (by eapply lookup_lt_Some). done.
  - intros j u Hj. apply list_lookup_insert_Some in Hj as [(<- & <- & _)|[Hne Hj]]; [split_and!; cbn; [done|done|exact Hb]|].
    destruct (H6 j u Hj) as (E1 & E2 & E3). split_and!; [done| |done]. intros Hmiss. rewrite fmap_app, elem_of_app. intros [?|Hh%list_elem_of_singleton]; [by apply E2|].
    destruct Hne. apply (locked_exclusive s i j t u); [done|done|done|by rewrite Hp|by destruct (th_pc u)|done].
Qed.
Lemma NoDup_fst_eq (l : list (str * str)) h d d' : NoDup l.*1 → (h, d) ∈ l → (h, d') ∈ l → d = d'.
Proof.
  intros Hn [i Hi]%list_elem_of_lookup [j Hj]%list_elem_of_lookup. assert (i = j) as ->.
  { apply (NoDup_lookup _ i j h Hn); rewrite list_lookup_fmap; [by rewrite Hi|by rewrite Hj]. }
  rewrite Hi in Hj. by injection Hj.
Qed.
(** The hash of a call that has to boot was not booted before. *)
Lemma not_booted s i t w :
  once s → locked s → ts_threads s !! i = Some t → th_pc t = TFind →
  FindBySpecHash (map_order (w_order w) (ts_reg s)) (th_hash t) (ts_reg s) = None → th_hash t ∉ (ts_booted s).*1.
Proof.
  intros (_ & _ & _ & _ & H5 & _) Hl Hi Hp Hf ([h d] & Hh & Hd)%list_elem_of_fmap. cbn in Hh. subst h.
  destruct (H5 _ _ Hd) as [(id & tm & Hid & Hr & Hh)|(j & u & id & Hj & Hu & Hh)].
  - revert Hf. eapply Find_complete; [|exact Hid|done|done]. apply map_order_elem. by eexists.
  - assert (i = j) as <- by (apply (locked_exclusive s i j t u); [done..|by rewrite Hp|by rewrite Hu|done]). congruence.
Qed.
Lemma step_once i t w s : once s → locked s → provenance s → ts_threads s !! i = Some t → once (step i t w s).
Proof.
  intros Hs Hl Hpr Hi. pose proof Hs as (_ & H2 & H3 & _ & _ & H6). destruct (H6 i t Hi) as (Hdel & Hmiss & Hbuild).
  assert (∀ p l, (∀ id d, th_pc t ≠ TReady id d) → deleting p = false → missed p = false → building_id p = None →
    once (mkSystem (ts_reg s) l (<[i := mkThread (th_id t) (th_spec t) p]> (ts_threads s)) (ts_dirs s) (ts_booted s) (ts_added s))) as Hplain.
  { intros p l E1 E2 E3 E4. apply once_same; [done..|]. split_and!; cbn; [done|by rewrite E3|by rewrite E4]. }
  unfold step. destruct (th_pc t) as [| |dir|dir| |id|id e|id dir|id|r|dir|dir|r] eqn:Hp; try done.
  - destruct (ts_locks s !! th_hash t); [done|]. by apply Hplain.
  - destruct (FindBySpecHash _ _ _) as [tm|] eqn:Hf; [by apply Hplain|]. apply once_same; [done..|by rewrite Hp|].
    split_and!; [done| |done]. intros _. by apply (not_booted s i t w).
  - destruct Hpr as (_ & Ht & _). destruct (Ht i t Hi) as [_ Hok]. rewrite Hp in Hok. destruct (H3 _ _ Hok) as [Hd Hne].
    rewrite bool_decide_eq_false_2, bool_decide_eq_true_2 by done. by apply Hplain.
  - destruct (Add _ _ _) as [r|] eqn:Ha; [|by apply Hplain].
    pose proof Ha as Hr. unfold Add in Hr. destruct (ts_reg s !! _); [done|]. injection Hr as Hr.
    eapply once_register in Ha; [exact Ha|done|done|done|by rewrite Hp|]. split_and!; [|done..]. rewrite <- Hr. cbn. by rewrite lookup_insert_eq.
  - destruct (Add _ _ _) as [r|] eqn:Ha; [|by apply Hplain]. pose proof Ha as Hr. unfold Add in Hr. destruct (ts_reg s !! _); [done|]. injection Hr as Hr.
    eapply once_register in Ha; [exact Ha|done|done|done|by rewrite Hp|]. split_and!; cbn; [done|done|].
    intros id tm [= <-]. rewrite <- Hr. cbn. rewrite lookup_insert_eq. by intros [= <-].
  - destruct (w_boot w) as [dir|].
    + case_bool_decide; [done|]. by apply (once_boot s i t id dir).
    + apply once_same; [done..|by rewrite Hp|]. by split_and!.
  - apply (once_update s i t (TDone (Err e)) id (mark_error e) (w_now w)); try done; [by rewrite Hp|]. intros d E. congruence.
  - apply (once_update s i t (TGet id) id (mark_ready dir) (w_now w)); try done. by rewrite Hp.
  - apply Hplain; [done| |done..]. destruct Hpr as (_ & Ht & _), (Ht i t Hi) as [Hown _]. rewrite Hp in Hown. destruct (Hown id eq_refl) as [Hin _].
    cbn. by destruct (H2 id Hin) as [tm ->].
Qed.
Lemma do_event_once ev s : quiet ev = true → once s → locked s → provenance s → once (do_event ev s).
Proof.
  intros Hq Hs Hl Hpr. destruct ev as [id spec|i w|id|dir]; try done; cbn [do_event].
  - destruct Hs as (H1 & H2 & H3 & H4 & H5 & H6). split_and!; cbn; try done.
    + intros h d Hd. destruct (H5 h d Hd) as [?|(j & u & id' & Hj & Hu & Hh)]; [by left|]. right. exists j, u, id'. by rewrite lookup_app_l by (by eapply lookup_lt_Some).
    + intros j u Hj. apply lookup_app_Some in Hj as [Hj|[_ Hj]]; [by eapply H6|]. apply list_lookup_singleton_Some in Hj as [_ <-].
      unfold begin_build, Validate. by repeat case_bool_decide.
  - destruct (ts_threads s !! i) eqn:Hi; [by apply step_once|done].
Qed.
Lemma run_once evs s : Forall (fun ev => quiet ev = true) evs → once s → locked s → provenance s → once (run evs s) ∧ provenance (run evs s).
Proof.
  intros Hq. revert s. induction Hq as [|ev evs Hev Hq IH]; intros s Hs Hl Hpr; [done|]. pose proof (do_event_once ev s Hev Hs Hl Hpr) as H.
  apply IH; [done|by apply do_event_locked|]. apply do_event_provenance; [done|apply H].
Qed.
Lemma start_once : once start.
Proof.
  split_and!; [apply NoDup_nil_2|intros id H; by apply elem_of_nil in H|intros h d H; by apply elem_of_nil in H|apply NoDup_nil_2|
    intros h d H; by apply elem_of_nil in H|by intros i t H].
Qed.
End system.


(** C19: as long as no template is deleted and nobody clears the cache, a specification is
    booted successfully at most once, however many builds of it run; every ready template's
    snapshot is on disk; and a [Build] that succeeds returns a ready template of its specification
    whose snapshot is on disk, the same one for every build of that specification. *)
Theorem template_built_once (sha256 : str → str) (evs : list event) (Hquiet : Forall (fun ev => quiet ev = true) evs) :
  let s := run sha256 evs start in
  NoDup (ts_booted s).*1 ∧
  (∀ id tm, ts_reg s !! id = Some tm → tm_State tm = StateReady → tm_SnapshotDir tm ∈ ts_dirs s) ∧
  (∀ i t o hit, ts_threads s !! i = Some t → th_pc t = TDone (Ok (o, hit)) →
     ∃ tm, o = Some tm ∧ tm_Spec tm = th_spec t ∧ tm_State tm = StateReady ∧ tm_SnapshotDir tm ∈ ts_dirs s ∧
       ∀ d, (SpecHash sha256 (th_spec t), d) ∈ ts_booted s → d = tm_SnapshotDir tm).
Proof.
  intros s. destruct (run_once sha256 evs start Hquiet (start_once sha256)) as [(_ & _ & H3 & H4 & _ & H6) (He & Ht & _)];
    [by intros i t H|apply start_provenance|]. fold s in H3, H4, H6, He, Ht. split_and!; [done| |].
  - intros id tm Hid Hr. destruct (He id tm Hid) as (_ & _ & _ & H). rewrite Hr in H. by apply H3 in H as [? _].
  - intros i t o hit Hi Hp. destruct (H6 i t Hi) as (Hdel & _ & _). destruct (Ht i t Hi) as [_ Hok]. rewrite Hp in Hdel, Hok.
    destruct o as [tm|]; [|done]. destruct Hok as (E1 & E2 & E3 & E4). exists tm. split_and!; [done..|by apply H3 in E4 as [? _]|].
    intros d Hd. by apply (NoDup_fst_eq _ _ _ _ H4 Hd E4).
Qed.

(** ** Where deletions and the cache come in *)
Definition ex_spec (image : str) : Spec := mkSpec image [] [] (sbytes "/vmlinux") 0 0 [] [] [] None None.
Definition specA : Spec := ex_spec (sbytes "a").
Definition specB : Spec := ex_spec (sbytes "b").
Definition world_of (boot : option str) : world := mkWorld 5 [] [] boot.
Definition go (i n : nat) (boot : option str) : list event := replicate n (EStep i (world_of boot)).
Definition idX : str := sbytes "x".
Definition idY : str := sbytes "y".
Definition dirA : str := sbytes "/cache/A".
Definition dirB : str := sbytes "/cache/B".
Definition ex_hash (s : str) : str := u8 <$> s.

(** [Delete] does not take the lock of the hash.  A build that finds a ready template while it is
    being deleted returns a ready template whose snapshot has been removed. *)
Lemma delete_races_hit :
  let s := run ex_hash ([EBuild idX specA] ++ go 0 7 (Some dirA) ++ [EBuild idY specA] ++ go 1 3 None ++ [EDelete idX] ++ go 2 2 None ++ go 1 1 None) start in
  (tm_State <$> ts_reg s !! idY) = Some StateReady ∧ (tm_SnapshotDir <$> ts_reg s !! idY) = Some dirA ∧ ts_dirs s = ∅.
Proof. by vm_compute. Qed.
(** The template is deleted while it is built: [Build] reports success and returns the zero template. *)
Lemma deleted_while_building :
  let s := run ex_hash ([EBuild idX specA] ++ go 0 3 None ++ [EDelete idX] ++ go 0 3 (Some dirA)) start in
  th_pc <$> ts_threads s = [TDone (Ok (None, false)); DDone (Ok tt)] ∧ ts_reg s = ∅.
Proof. by vm_compute. Qed.
(** And when its id is used again in the meantime, the other template becomes ready with the first
    one's snapshot. *)
Lemma reused_id_gets_other_snapshot :
  let s := run ex_hash ([EBuild idX specA] ++ go 0 3 None ++ [EDelete idX; EBuild idX specB] ++ go 2 3 None ++ go 0 2 (Some dirA)) start in
  (tm_Spec <$> ts_reg s !! idX) = Some specB ∧ (tm_State <$> ts_reg s !! idX) = Some StateReady ∧ (tm_SnapshotDir <$> ts_reg s !! idX) = Some dirA.
Proof. by vm_compute. Qed.
(** A failed template keeps its id: a second build under the same id is refused. *)
Lemma failed_id_blocks_retry :
  let s := run ex_hash ([EBuild idX specA] ++ go 0 5 None ++ [EBuild idX specA] ++ go 1 3 (Some dirA)) start in
  th_pc <$> ts_threads s = [TDone (Err BootFailed); TDone (Err IDInUse)].
Proof. by vm_compute. Qed.

(** *** The name of the snapshot leaves out what makes the snapshots different *)

(** The base templates of src/sandboxes/internal/sandboxd/base_templates.go. *)
Record BaseTemplate := mkBase { bt_ID : str; bt_Image : str; bt_MemMB : Z; bt_CPUs : Z; bt_Runtime : str }.
Definition DefaultBaseTemplates : list BaseTemplate :=
  [mkBase (sbytes "base-python") (sbytes "python:3.12-alpine") 0 0 []; mkBase (sbytes "base-node") (sbytes "node:22-alpine") 0 0 [];
   mkBase (sbytes "base-node-warm") (sbytes "node:22-alpine") 0 0 (sbytes "node"); mkBase (sbytes "base-bun") (sbytes "oven/bun:1") 0 0 [];
   mkBase (sbytes "base-go") (sbytes "golang:1.23-alpine") 0 0 []].
(** The specification that [CreateTemplate] makes of one. *)
Definition base_spec (kernel : str) (b : BaseTemplate) : Spec :=
  mkSpec (bt_Image b) [] [] kernel (bt_MemMB b) (bt_CPUs b) [] [] [] None (if bool_decide (bt_Runtime b = []) then None else Some (mkRuntime (bt_Runtime b) 0 0)).
(** Two of them are different specifications of the same snapshot: whichever is built first, the other
    gets its memory. *)
Lemma base_templates_share_snapshot sha256 goarch kernel hash :
  match DefaultBaseTemplates with
  | [_; node; nodeWarm; _; _] =>
      base_spec kernel node ≠ base_spec kernel nodeWarm ∧
      boot_options (base_spec kernel node) ≠ boot_options (base_spec kernel nodeWarm) ∧
      snapshot_key sha256 goarch hash (base_spec kernel node) = snapshot_key sha256 goarch hash (base_spec kernel nodeWarm)
  | _ => False
  end.
Proof. unfold snapshot_key, computeWarmCacheKey. by destruct hash; split_and!. Qed.
(** The Dockerfile is not part of the name either: with a readiness probe, all templates that are built from
    one share a snapshot. *)
Lemma dockerfiles_share_snapshot sha256 goarch hash (f g ctx ctx' kernel : str) (mem cpus : Z) (probe : ReadinessProbe) :
  snapshot_key sha256 goarch hash (mkSpec [] f ctx kernel mem cpus [] [] [] (Some probe) None) =
  snapshot_key sha256 goarch hash (mkSpec [] g ctx' kernel mem cpus [] [] [] (Some probe) None).
Proof. done. Qed.
(** The second of two stores under one name is dropped, and its caller told that it succeeded. *)
Lemma second_snapshot_dropped :
  let c := mkCache ∅ {[ [1] := snap 65; [2] := snap 66 ]} [] [] in
  let '(c1, p1) := store_run (replicate 7 FJson) (mkStore [1] [107] SSrc (snap 65)) c in
  let '(c2, p2) := store_run (replicate 7 FJson) (mkStore [2] [107] SSrc (snap 66)) c1 in
  p1 = SEnd true ∧ p2 = SEnd true ∧ ca_entries c2 !! [107] = Some (snap 65).
Proof. by vm_compute. Qed.

(** ** Witnesses *)
Definition two_builds : list event := [EBuild idX specA; EBuild idY specA] ++ go 0 1 None ++ go 1 2 None ++ go 0 6 (Some dirA) ++ go 1 4 None.
Lemma template_built_once_witness :
  let s := run ex_hash two_builds start in ts_booted s = [(SpecHash ex_hash specA, dirA)] ∧ NoDup (ts_booted s).*1.
Proof.
  split; [vm_compute; reflexivity|]. apply (template_built_once ex_hash two_builds). apply (bool_decide_unpack _). vm_compute. exact I.
Defined.
