(* ===== verification/Sandboxd.v ===== *)
(** * The sandbox manager (src/sandboxes/internal/sandboxd)

    The manager keeps a store of sandboxes.  A sandbox is booted for itself ([Create], [Delete]) or
    leased from a pool of paused machines ([LeaseSandbox], [ReleaseLeased], [RecycleLeased]).  Requests
    run at the same time; a section under the store's lock, one under the lock of the pools, a boot
    and a call of a pool are each one step of the model.

    Machines are numbered in the order in which the manager gets hold of them.  The model records where
    each one is: in a sandbox, in a running call, leased from a pool, handed to a goroutine that closes
    it, or dropped.  The pools are seen through their leases.  Of a sandbox and of a request only the fields
    that decide something are kept: addresses, paths of sockets, times and the options that are passed on
    to the boot are not. *)
From S2P Require Import Prelude.

(** ** Requests *)
Record CreateSandboxRequest := mkCreate {
  cr_Image : string; cr_Dockerfile : string; cr_Context : string; cr_KernelPath : string; cr_NetworkMode : string; cr_JailerMode : string
}.
Inductive sb_err :=
  | ImageRequired | BadDockerfile | BadContext | KernelRequired | BadKernel | KernelIsDir | BadNetworkMode | BadJailerMode | TemplateRequired
  | IDTaken | RunFailed | SandboxNotFound | NotLeased | PoolNotFound | PoolExhausted | PoolError | AlreadyRegistered.
(** [stat p] is [None] when [os.Stat] fails, else whether [p] is a directory. *)
Definition validateCreateRequest (stat : string → option bool) (req : CreateSandboxRequest) : res sb_err CreateSandboxRequest :=
  if bool_decide (cr_Image req = "") && bool_decide (cr_Dockerfile req = "") then Err ImageRequired
  else if negb (bool_decide (cr_Dockerfile req = "")) && bool_decide (stat (cr_Dockerfile req) = None) then Err BadDockerfile
  else if negb (bool_decide (cr_Dockerfile req = "")) && negb (bool_decide (cr_Context req = "")) && negb (bool_decide (stat (cr_Context req) = Some true)) then Err BadContext
  else if bool_decide (cr_KernelPath req = "") then Err KernelRequired
  else match stat (cr_KernelPath req) with
  | None => Err BadKernel
  | Some true => Err KernelIsDir
  | Some false =>
      net ← (if bool_decide (cr_NetworkMode req = "") then Ok "auto"
             else if bool_decide (cr_NetworkMode req = "auto") then Ok "auto"
             else if bool_decide (cr_NetworkMode req = "none") || bool_decide (cr_NetworkMode req = "off") then Ok ""
             else Err BadNetworkMode);
      jailer ← (if bool_decide (cr_JailerMode req = "") then Ok "off"
                else if bool_decide (cr_JailerMode req = "on") || bool_decide (cr_JailerMode req = "off") then Ok (cr_JailerMode req)
                else Err BadJailerMode);
      Ok (mkCreate (cr_Image req) (cr_Dockerfile req) (cr_Context req) (cr_KernelPath req) net jailer)
  end.

(** ** The store *)
Inductive SandboxState := StateCreating | StateReady | StateStopping | StateStopped | StateError.
Record Sandbox := mkSandbox {
  sb_State : SandboxState;
  sb_Image : string;
  sb_runResult : option nat;        (** the machine of a sandbox that was booted for itself *)
  sb_poolTemplateID : string        (** of one that was leased *)
}.
Definition with_state (s : Sandbox) (st : SandboxState) (rr : option nat) : Sandbox := mkSandbox st (sb_Image s) rr (sb_poolTemplateID s).
(** [snapshot]: the machine is not shown to callers. *)
Definition snapshot (s : Sandbox) : Sandbox := mkSandbox (sb_State s) (sb_Image s) None (sb_poolTemplateID s).
Abbreviation Store := (gmap string Sandbox).
Definition Get (id : string) (s : Store) : option Sandbox := snapshot <$> s !! id.
Definition Update (id : string) (f : Sandbox → Sandbox) (s : Store) : Store := match s !! id with Some sb => <[id := f sb]> s | None => s end.

(** ** Calls *)
Inductive call :=
  (* Create *)
  | MAdd (image : string)
  | MRun (id : string)
  | MBooted (id : string) (vm : nat)
  | MFailed (id : string)
  | MReturn (id : string) (ok : bool)
  (* DELETE /sandboxes/{id}: the handler, Delete, ReleaseLeased *)
  | HRoute (id : string)
  | XUpdate (id : string)
  | XRemove (id : string) (rr : option nat)
  | RGet (id : string)
  | RPool (id tmpl : string)
  | RRelease (id : string) (p : nat)
  | RRemove (id : string) (ok : bool)
  (* LeaseSandbox *)
  | LPool (tmpl : string)
  | LAcquire (tmpl image : string) (p : nat)
  | LAdd (tmpl image : string) (p : nat) (id : string)
  | LStamp (tmpl : string) (p : nat) (id : string)
  | LReturn (id : string)
  (* RecycleLeased *)
  | CGet (id : string)
  | CPool (id tmpl : string)
  | CDrop (id : string)
  | CRemove (id tmpl image : string) (p : nat)
  | CRelease (id tmpl image : string) (p : nat)
  | CAcquire (tmpl image : string) (p : nat)
  | CAdd (tmpl image : string) (p : nat) (id : string)
  | CUndo (p : nat) (id : string)
  | Answered (r : res sb_err (option Sandbox)).

Record Manager := mkManager {
  m_store : Store;
  m_pools : gmap string (nat * string);     (** the pool of a template and its image *)
  m_leases : gmap (nat * string) nat;       (** the machines leased from the pools *)
  m_calls : list call;
  m_stopped : list nat;                     (** machines whose [VM.Stop] is called *)
  m_closed : list nat;                      (** machines whose [RunResult.Close] is called *)
  m_lost : list nat;                        (** machines that nothing refers to any more *)
  m_vms : nat;
  m_npools : nat;
  m_ids : list string                       (** every id that was given to a sandbox *)
}.
(** The choice of a step: the id that is given out, whether the operation succeeds, whether a failure is the end of the wait. *)
Record world := mkWorld { w_id : string; w_ok : bool; w_timeout : bool }.

Definition with_store (m : Manager) (s : Store) : Manager :=
  mkManager s (m_pools m) (m_leases m) (m_calls m) (m_stopped m) (m_closed m) (m_lost m) (m_vms m) (m_npools m) (m_ids m).
Definition with_calls (m : Manager) (cs : list call) : Manager :=
  mkManager (m_store m) (m_pools m) (m_leases m) cs (m_stopped m) (m_closed m) (m_lost m) (m_vms m) (m_npools m) (m_ids m).
Definition with_ids (m : Manager) (id : string) : Manager :=
  mkManager (m_store m) (m_pools m) (m_leases m) (m_calls m) (m_stopped m) (m_closed m) (m_lost m) (m_vms m) (m_npools m) (m_ids m ++ [id]).
Definition lose (m : Manager) (rr : option nat) : Manager :=
  mkManager (m_store m) (m_pools m) (m_leases m) (m_calls m) (m_stopped m) (m_closed m) (m_lost m ++ option_list rr) (m_vms m) (m_npools m) (m_ids m).
(** [r.VM.Stop(); r.Close()] in a goroutine *)
Definition teardown (m : Manager) (rr : option nat) : Manager :=
  mkManager (m_store m) (m_pools m) (m_leases m) (m_calls m) (m_stopped m ++ option_list rr) (m_closed m ++ option_list rr) (m_lost m) (m_vms m) (m_npools m) (m_ids m).
(** [pool.Release(id)] and [r.Close()] in a goroutine; whether the release succeeded. *)
Definition release (m : Manager) (p : nat) (id : string) : Manager * bool :=
  match m_leases m !! (p, id) with
  | Some vm =>
      (mkManager (m_store m) (m_pools m) (delete (p, id) (m_leases m)) (m_calls m) (m_stopped m) (m_closed m ++ [vm]) (m_lost m) (m_vms m) (m_npools m) (m_ids m), true)
  | None => (m, false)
  end.
(** [pool.AcquireWait] hands out a machine; a pool never hands out an id twice. *)
Definition acquire (m : Manager) (p : nat) (id : string) : option Manager :=
  match m_leases m !! (p, id) with
  | Some _ => None
  | None => Some (mkManager (m_store m) (m_pools m) (<[(p, id) := m_vms m]> (m_leases m)) (m_calls m) (m_stopped m) (m_closed m) (m_lost m) (S (m_vms m)) (m_npools m) (m_ids m ++ [id]))
  end.
(** [container.Run] has started a machine. *)
Definition booted (m : Manager) : Manager :=
  mkManager (m_store m) (m_pools m) (m_leases m) (m_calls m) (m_stopped m) (m_closed m) (m_lost m) (S (m_vms m)) (m_npools m) (m_ids m).

(** *** The calls, one section at a time: the manager after it, and where the call is then *)

(** [Create]. *)
Definition Create (w : world) (c : call) (m : Manager) : Manager * call :=
  let store := m_store m in
  match c with
  | MAdd image =>
      match store !! w_id w with
      | Some _ => (m, Answered (Err IDTaken))
      | None => (with_ids (with_store m (<[w_id w := mkSandbox StateCreating image None ""]> store)) (w_id w), MRun (w_id w))
      end
  | MRun id => if w_ok w then (booted m, MBooted id (m_vms m)) else (m, MFailed id)
  | MBooted id vm =>
      match store !! id with
      | Some sb => (lose (with_store m (<[id := with_state sb StateReady (Some vm)]> store)) (sb_runResult sb), MReturn id true)
      | None => (lose m (Some vm), MReturn id true)
      end
  | MFailed id => (with_store m (Update id (fun s => with_state s StateError (sb_runResult s)) store), MReturn id false)
  | MReturn id ok => (m, Answered (if ok then Ok (Get id store) else Err RunFailed))
  | _ => (m, c)
  end.
(** The handler of DELETE. *)
Definition handleDeleteSandbox (w : world) (c : call) (m : Manager) : Manager * call :=
  let store := m_store m in
  match c with
  | HRoute id =>
      match Get id store with
      | Some sb => if bool_decide (sb_poolTemplateID sb = "") then (m, XUpdate id) else (m, RGet id)
      | None => (m, XUpdate id)
      end
  | _ => (m, c)
  end.
(** [Delete]. *)
Definition Delete (w : world) (c : call) (m : Manager) : Manager * call :=
  let store := m_store m in
  match c with
  | XUpdate id =>
      match store !! id with
      | None => (m, Answered (Err SandboxNotFound))
      | Some sb => (with_store m (<[id := with_state sb StateStopping None]> store), XRemove id (sb_runResult sb))
      end
  | XRemove id rr =>
      (teardown (lose (with_store m (delete id store)) (store !! id ≫= sb_runResult)) rr, Answered (Ok None))
  | _ => (m, c)
  end.
(** [ReleaseLeased]. *)
Definition ReleaseLeased (w : world) (c : call) (m : Manager) : Manager * call :=
  let store := m_store m in
  match c with
  | RGet id =>
      match Get id store with
      | None => (m, Answered (Err SandboxNotFound))
      | Some sb => if bool_decide (sb_poolTemplateID sb = "") then (m, Answered (Err NotLeased)) else (m, RPool id (sb_poolTemplateID sb))
      end
  | RPool id tmpl =>
      match m_pools m !! tmpl with
      | None => (m, RRemove id true)
      | Some (p, _) => (m, RRelease id p)
      end
  | RRelease id p => let '(m, ok) := release m p id in (m, RRemove id ok)
  | RRemove id ok =>
      (lose (with_store m (delete id store)) (store !! id ≫= sb_runResult), Answered (if ok then Ok None else Err PoolError))
  | _ => (m, c)
  end.
(** [LeaseSandbox]. *)
Definition LeaseSandbox (w : world) (c : call) (m : Manager) : Manager * call :=
  let store := m_store m in
  match c with
  | LPool tmpl =>
      match m_pools m !! tmpl with
      | None => (m, Answered (Err PoolNotFound))
      | Some (p, image) => (m, LAcquire tmpl image p)
      end
  | LAcquire tmpl image p =>
      if w_ok w then match acquire m p (w_id w) with Some m => (m, LAdd tmpl image p (w_id w)) | None => (m, c) end
      else (m, Answered (Err PoolError))
  | LAdd tmpl image p id =>
      match store !! id with
      | Some _ => (m, Answered (Err IDTaken))
      | None => (with_store m (<[id := mkSandbox StateReady image None ""]> store), LStamp tmpl p id)
      end
  | LStamp tmpl p id => (with_store m (Update id (fun s => mkSandbox (sb_State s) (sb_Image s) (sb_runResult s) tmpl) store), LReturn id)
  | LReturn id => (m, Answered (Ok (Get id store)))
  | _ => (m, c)
  end.
(** [RecycleLeased]; its last two sections are those of [LeaseSandbox]. *)
Definition RecycleLeased (w : world) (c : call) (m : Manager) : Manager * call :=
  let store := m_store m in
  match c with
  | CGet id =>
      match Get id store with
      | None => (m, Answered (Err SandboxNotFound))
      | Some sb => if bool_decide (sb_poolTemplateID sb = "") then (m, Answered (Err NotLeased)) else (m, CPool id (sb_poolTemplateID sb))
      end
  | CPool id tmpl =>
      match m_pools m !! tmpl with
      | None => (m, CDrop id)
      | Some (p, image) => (m, CRemove id tmpl image p)
      end
  | CDrop id => (lose (with_store m (delete id store)) (store !! id ≫= sb_runResult), Answered (Err PoolNotFound))
  | CRemove id tmpl image p =>
      match store !! id with
      | None => (m, Answered (Err SandboxNotFound))
      | Some sb => (lose (with_store m (delete id store)) (sb_runResult sb), CRelease id tmpl image p)
      end
  | CRelease id tmpl image p => ((release m p id).1, CAcquire tmpl image p)
  | CAcquire tmpl image p =>
      if w_ok w then match acquire m p (w_id w) with Some m => (m, CAdd tmpl image p (w_id w)) | None => (m, c) end
      else (m, Answered (Err (if w_timeout w then PoolExhausted else PoolError)))
  | CAdd tmpl image p id =>
      match store !! id with
      | Some _ => (m, CUndo p id)
      | None => (with_store m (<[id := mkSandbox StateReady image None ""]> store), LStamp tmpl p id)
      end
  | CUndo p id => ((release m p id).1, Answered (Err IDTaken))
  | _ => (m, c)
  end.
Definition act (w : world) (c : call) (m : Manager) : Manager * call :=
  match c with
  | MAdd _ | MRun _ | MBooted _ _ | MFailed _ | MReturn _ _ => Create w c m
  | HRoute _ => handleDeleteSandbox w c m
  | XUpdate _ | XRemove _ _ => Delete w c m
  | RGet _ | RPool _ _ | RRelease _ _ | RRemove _ _ => ReleaseLeased w c m
  | LPool _ | LAcquire _ _ _ | LAdd _ _ _ _ | LStamp _ _ _ | LReturn _ => LeaseSandbox w c m
  | CGet _ | CPool _ _ | CDrop _ | CRemove _ _ _ _ | CRelease _ _ _ _ | CAcquire _ _ _ | CAdd _ _ _ _ | CUndo _ _ => RecycleLeased w c m
  | Answered _ => (m, c)
  end.

Inductive event :=
  | ECreate (stat : string → option bool) (req : CreateSandboxRequest)
  | EDelete (id : string)
  | ELease (tmpl : string)
  | ERecycle (id : string)
  | ERegister (tmpl image : string)        (** [RegisterPool] enters the pool it has started *)
  | EUnregister (tmpl : string)
  | EStep (i : nat) (w : world).
Definition begin_call (m : Manager) (c : call) : Manager := with_calls m (m_calls m ++ [c]).
(** [RegisterPool] once the pool has started. *)
Definition RegisterPool (tmpl image : string) (m : Manager) : Manager :=
  if bool_decide (tmpl = "") || bool_decide (is_Some (m_pools m !! tmpl)) then m
  else mkManager (m_store m) (<[tmpl := (m_npools m, image)]> (m_pools m)) (m_leases m) (m_calls m) (m_stopped m) (m_closed m) (m_lost m) (m_vms m) (S (m_npools m)) (m_ids m).
Definition UnregisterPool (tmpl : string) (m : Manager) : Manager :=
  mkManager (m_store m) (delete tmpl (m_pools m)) (m_leases m) (m_calls m) (m_stopped m) (m_closed m) (m_lost m) (m_vms m) (m_npools m) (m_ids m).
Definition do_event (ev : event) (m : Manager) : Manager :=
  match ev with
  | ECreate stat req => begin_call m (match validateCreateRequest stat req with Ok r => MAdd (cr_Image r) | Err e => Answered (Err e) | _ => Answered (Err RunFailed) end)
  | EDelete id => begin_call m (HRoute id)
  | ELease tmpl => begin_call m (if bool_decide (tmpl = "") then Answered (Err TemplateRequired) else LPool tmpl)
  | ERecycle id => begin_call m (CGet id)
  | ERegister tmpl image => RegisterPool tmpl image m
  | EUnregister tmpl => UnregisterPool tmpl m
  | EStep i w =>
      match m_calls m !! i with
      | Some c => let '(m', c') := act w c m in with_calls m' (<[i := c']> (m_calls m'))
      | None => m
      end
  end.
Definition run (evs : list event) (m : Manager) : Manager := fold_left (fun m ev => do_event ev m) evs m.
Definition start : Manager := mkManager ∅ ∅ ∅ [] [] [] [] 0 0 [].

(** ** Every machine is in one place *)
Definition store_vms (s : Store) : list nat := omap (fun e : string * Sandbox => sb_runResult e.2) (map_to_list s).
Definition call_vm (c : call) : option nat := match c with MBooted _ vm => Some vm | XRemove _ rr => rr | _ => None end.
Definition lease_vms (l : gmap (nat * string) nat) : list nat := (map_to_list l).*2.
Definition places (m : Manager) (calls : list nat) : list nat := store_vms (m_store m) ++ calls ++ lease_vms (m_leases m) ++ m_closed m ++ m_lost m.
Definition accounted (m : Manager) : Prop := places m (omap call_vm (m_calls m)) ≡ₚ seq 0 (m_vms m).

Lemma omap_cons_perm {A B} (f : A → option B) x l : omap f (x :: l) = option_list (f x) ++ omap f l.
Proof. cbn. by destruct (f x). Qed.
Lemma store_vms_put (s : Store) (k : string) (sb : Sandbox) : store_vms (<[k := sb]> s) ≡ₚ option_list (sb_runResult sb) ++ store_vms (delete k s).
Proof.
  rewrite <- insert_delete_eq. unfold store_vms. rewrite map_to_list_insert by apply lookup_delete_eq. by rewrite omap_cons_perm.
Qed.
Lemma store_vms_at (s : Store) (k : string) (sb : Sandbox) : s !! k = Some sb → store_vms s ≡ₚ option_list (sb_runResult sb) ++ store_vms (delete k s).
Proof. intros H. rewrite <- (insert_id s k sb H) at 1. apply store_vms_put. Qed.
Lemma store_vms_delete (s : Store) (k : string) : store_vms s ≡ₚ option_list (s !! k ≫= sb_runResult) ++ store_vms (delete k s).
Proof. destruct (s !! k) as [sb|] eqn:E; [by apply store_vms_at|]. cbn. by rewrite delete_id. Qed.
Lemma store_vms_update (s : Store) (id : string) (f : Sandbox → Sandbox) : (∀ sb, sb_runResult (f sb) = sb_runResult sb) → store_vms (Update id f s) ≡ₚ store_vms s.
Proof. intros Hf. unfold Update. destruct (s !! id) as [sb|] eqn:E; [|done]. by rewrite store_vms_put, (store_vms_at s id sb E), Hf. Qed.
Lemma lease_vms_put (l : gmap (nat * string) nat) k v : l !! k = None → lease_vms (<[k := v]> l) ≡ₚ v :: lease_vms l.
Proof. intros H. unfold lease_vms. by rewrite map_to_list_insert. Qed.
Lemma lease_vms_at (l : gmap (nat * string) nat) k v : l !! k = Some v → lease_vms l ≡ₚ v :: lease_vms (delete k l).
Proof. intros H. rewrite <- (insert_delete_id l k v H) at 1. apply lease_vms_put, lookup_delete_eq. Qed.
Lemma release_places m p id cs : places (release m p id).1 cs ≡ₚ places m cs ∧ m_vms (release m p id).1 = m_vms m.
Proof.
  unfold release. destruct (m_leases m !! (p, id)) as [vm|] eqn:E; [|done]. split; [|done]. unfold places. cbn. rewrite (lease_vms_at _ _ _ E). solve_Permutation.
Qed.

(** One section of a call moves machines and may add a new one. *)
Lemma act_places w c m :
  let '(m', c') := act w c m in
  ∃ fresh, places m' (option_list (call_vm c')) ≡ₚ places m (option_list (call_vm c)) ++ fresh ∧ seq 0 (m_vms m') ≡ₚ seq 0 (m_vms m) ++ fresh.
Proof.
  assert (∀ m' c', places m' (option_list (call_vm c')) ≡ₚ places m (option_list (call_vm c)) → m_vms m' = m_vms m →
    ∃ fresh, places m' (option_list (call_vm c')) ≡ₚ places m (option_list (call_vm c)) ++ fresh ∧ seq 0 (m_vms m') ≡ₚ seq 0 (m_vms m) ++ fresh) as Hmove.
  { intros m' c' Hp Hv. exists []. by rewrite !app_nil_r, Hv. }
  assert (∀ m' c', places m' (option_list (call_vm c')) ≡ₚ places m (option_list (call_vm c)) ++ [m_vms m] → m_vms m' = S (m_vms m) →
    ∃ fresh, places m' (option_list (call_vm c')) ≡ₚ places m (option_list (call_vm c)) ++ fresh ∧ seq 0 (m_vms m') ≡ₚ seq 0 (m_vms m) ++ fresh) as Hnew.
  { intros m' c' Hp Hv. exists [m_vms m]. by rewrite Hv, seq_S. }
  destruct c as [image|id|id vm|id|id ok|id|id|id rr|id|id tmpl|id p|id ok|tmpl|tmpl image p|tmpl image p id|tmpl p id|id|id|id tmpl|id|id tmpl image p|id tmpl image p|tmpl image p|tmpl image p id|p id|r];
    cbn [act Create handleDeleteSandbox Delete ReleaseLeased LeaseSandbox RecycleLeased]; try (by apply Hmove).
  - destruct (m_store m !! w_id w) eqn:E; [by apply Hmove|]. apply Hmove; [|done]. unfold places. cbn. by rewrite store_vms_put, delete_id.
  - destruct (w_ok w); [|by apply Hmove]. apply Hnew; [|done]. unfold places. cbn. solve_Permutation.
  - destruct (m_store m !! id) as [sb|] eqn:E; (apply Hmove; [|done]); unfold places; cbn; [|solve_Permutation].
    rewrite store_vms_put, (store_vms_at _ _ _ E). cbn. solve_Permutation.
  - apply Hmove; [|done]. unfold places. cbn. by rewrite store_vms_update.
  - destruct (Get id (m_store m)); [case_bool_decide|]; by apply Hmove.
  - destruct (m_store m !! id) as [sb|] eqn:E; [|by apply Hmove]. apply Hmove; [|done]. unfold places. cbn.
    rewrite store_vms_put, (store_vms_at _ _ _ E). cbn. solve_Permutation.
  - apply Hmove; [|done]. unfold places. cbn. rewrite (store_vms_delete (m_store m) id). solve_Permutation.
  - destruct (Get id (m_store m)); [case_bool_decide|]; by apply Hmove.
  - destruct (m_pools m !! tmpl) as [[p image]|]; by apply Hmove.
  - destruct (release_places m p id []) as [H1 H2]. destruct (release m p id) as [m' ok]. by apply Hmove.
  - apply Hmove; [|done]. unfold places. cbn. rewrite (store_vms_delete (m_store m) id). solve_Permutation.
  - destruct (m_pools m !! tmpl) as [[p image]|]; by apply Hmove.
  - destruct (w_ok w); [|by apply Hmove]. unfold acquire. destruct (m_leases m !! (p, w_id w)) eqn:E; [by apply Hmove|].
    apply Hnew; [|done]. unfold places. cbn. rewrite lease_vms_put by done. solve_Permutation.
  - destruct (m_store m !! id) eqn:E; [by apply Hmove|]. apply Hmove; [|done]. unfold places. cbn. by rewrite store_vms_put, delete_id.
  - apply Hmove; [|done]. unfold places. cbn. by rewrite store_vms_update.
  - destruct (Get id (m_store m)); [case_bool_decide|]; by apply Hmove.
  - destruct (m_pools m !! tmpl) as [[p image]|]; by apply Hmove.
  - apply Hmove; [|done]. unfold places. cbn. rewrite (store_vms_delete (m_store m) id). solve_Permutation.
  - destruct (m_store m !! id) as [sb|] eqn:E; [|by apply Hmove]. apply Hmove; [|done]. unfold places. cbn. rewrite (store_vms_at _ _ _ E). solve_Permutation.
  - destruct (release_places m p id []) as [H1 H2]. by apply Hmove.
  - destruct (w_ok w); [|by apply Hmove]. unfold acquire. destruct (m_leases m !! (p, w_id w)) eqn:E; [by apply Hmove|].
    apply Hnew; [|done]. unfold places. cbn. rewrite lease_vms_put by done. solve_Permutation.
  - destruct (m_store m !! id) eqn:E; [by apply Hmove|]. apply Hmove; [|done]. unfold places. cbn. by rewrite store_vms_put, delete_id.
  - destruct (release_places m p id []) as [H1 H2]. by apply Hmove.
Qed.
Lemma act_calls w c m : m_calls (act w c m).1 = m_calls m.
Proof.
  destruct c; cbn [act Create handleDeleteSandbox Delete ReleaseLeased LeaseSandbox RecycleLeased]; unfold acquire, release; try match goal with |- context [m_leases m !! ?k] => destruct (m_leases m !! k) end; repeat (try done; match goal with
    | |- context [match ?x with Some _ => _ | None => _ end] => destruct x as [[? ?]|] || destruct x
    | |- context [if ?b then _ else _] => destruct b
    end).
Qed.

Lemma omap_at {A B} (f : A → option B) (l : list A) i x y : l !! i = Some x → ∃ rest, omap f l ≡ₚ option_list (f x) ++ rest ∧ omap f (<[i := y]> l) ≡ₚ option_list (f y) ++ rest.
Proof.
  intros Hi. exists (omap f (take i l) ++ omap f (drop (S i) l)). split.
  - rewrite <- (take_drop_middle l i x Hi) at 1. rewrite omap_app, omap_cons_perm. solve_Permutation.
  - rewrite insert_take_drop by (by eapply lookup_lt_Some). rewrite omap_app, omap_cons_perm. solve_Permutation.
Qed.
Lemma places_app m xs ys : places m (xs ++ ys) ≡ₚ places m xs ++ ys.
Proof. unfold places. solve_Permutation. Qed.
Lemma do_event_accounted ev m : accounted m → accounted (do_event ev m).
Proof.
  intros Ha. unfold accounted in *.
  assert (∀ c, call_vm c = None → accounted (begin_call m c)) as Hbegin.
  { intros c Hc. unfold accounted, begin_call. cbn. rewrite omap_app. cbn. by rewrite Hc, app_nil_r. }
  destruct ev as [stat req|id|tmpl|id|tmpl image|tmpl|i w]; cbn [do_event]; unfold RegisterPool, UnregisterPool.
  - apply Hbegin. by destruct (validateCreateRequest stat req).
  - by apply Hbegin.
  - apply Hbegin. by case_bool_decide.
  - by apply Hbegin.
  - by destruct (_ || _).
  - done.
  - destruct (m_calls m !! i) as [c|] eqn:Hi; [|done]. pose proof (act_places w c m) as Hact. pose proof (act_calls w c m) as Hcalls.
    destruct (act w c m) as [m' c']. destruct Hact as (fresh & Hp & Hv). cbn in Hcalls.
    destruct (omap_at call_vm (m_calls m) i c c' Hi) as (rest & H1 & H2).
    change (places m' (omap call_vm (<[i := c']> (m_calls m'))) ≡ₚ seq 0 (m_vms m')). rewrite Hcalls, Hv, <- Ha.
    assert (∀ n xs ys, xs ≡ₚ ys → places n xs ≡ₚ places n ys) as Hproper by (intros n xs ys E; unfold places; by rewrite E).
    rewrite (Hproper _ _ _ H1), (Hproper _ _ _ H2), !places_app, Hp. solve_Permutation.
Qed.
Lemma run_accounted evs m : accounted m → accounted (run evs m).
Proof. revert m. induction evs as [|ev evs IH]; intros m Ha; [done|]. by apply IH, do_event_accounted. Qed.

(** *** Stopping *)
Lemma act_stopped w c m : m_stopped m `sublist_of` m_closed m → m_stopped (act w c m).1 `sublist_of` m_closed (act w c m).1.
Proof.
  intros H. assert (m_stopped (act w c m).1 = m_stopped m ++ option_list (match c with XRemove _ rr => rr | _ => None end) ∧
    ∃ more, m_closed (act w c m).1 = m_closed m ++ option_list (match c with XRemove _ rr => rr | _ => None end) ++ more) as [-> [more ->]].
  { destruct c; cbn [act Create handleDeleteSandbox Delete ReleaseLeased LeaseSandbox RecycleLeased]; unfold acquire, release; try match goal with |- context [m_leases m !! ?k] => destruct (m_leases m !! k) end;
      repeat match goal with
      | |- context [match ?x with Some _ => _ | None => _ end] => destruct x as [[? ?]|] || destruct x
      | |- context [if ?b then _ else _] => destruct b
      end; cbn; rewrite ?app_nil_r; (split; [done|]); (by exists []; rewrite ?app_nil_r) || by eexists. }
  apply sublist_app; [done|]. apply sublist_inserts_r. done.
Qed.
Lemma run_stopped evs m : m_stopped m `sublist_of` m_closed m → m_stopped (run evs m) `sublist_of` m_closed (run evs m).
Proof.
  revert m. induction evs as [|ev evs IH]; intros m H; [done|]. apply IH.
  destruct ev as [stat req|id|tmpl|id|tmpl image|tmpl|i w]; cbn [do_event]; unfold RegisterPool, UnregisterPool; try done; [by destruct (_ || _)|].
  destruct (m_calls m !! i) as [c|]; [|done]. pose proof (act_stopped w c m H) as H'. by destruct (act w c m).
Qed.
Lemma start_accounted : accounted start.
Proof. unfold accounted, places, store_vms, lease_vms. cbn. by rewrite !map_to_list_empty. Qed.

(** C17: whatever requests run at the same time, in whatever order their steps happen: every machine the
    manager got hold of is in exactly one place — one sandbox, one running call, one lease, the list of
    those being closed, or the list of those nothing refers to.  So a machine is closed at most once and
    stopped at most once, a machine that is stopped is also closed, and neither happens to one that a
    sandbox or a lease still has. *)
Theorem machines_accounted (evs : list event) :
  let m := run evs start in
  NoDup (places m (omap call_vm (m_calls m))) ∧
  (∀ vm, (vm < m_vms m)%nat ↔ vm ∈ places m (omap call_vm (m_calls m))) ∧
  m_stopped m `sublist_of` m_closed m ∧
  (∀ vm, vm ∈ m_closed m → vm ∉ store_vms (m_store m) ∧ vm ∉ lease_vms (m_leases m)).
Proof.
  intros m. pose proof (run_accounted evs start start_accounted) as Ha. fold m in Ha. unfold accounted in Ha.
  assert (NoDup (places m (omap call_vm (m_calls m)))) as Hn by (rewrite Ha; apply NoDup_seq). split_and!; [done| | |].
  - intros vm. rewrite Ha, elem_of_seq. lia.
  - by apply run_stopped.
  - intros vm Hvm. unfold places in Hn. apply NoDup_app in Hn as (_ & Hs & Hn). apply NoDup_app in Hn as (_ & _ & Hn). apply NoDup_app in Hn as (_ & Hl & _).
    split; intros Hin; [apply (Hs vm Hin); set_solver|apply (Hl vm Hin); set_solver].
Qed.

(** A machine that a pool has leased out is never stopped: releasing it only calls [RunResult.Close], which
    runs the clean-up of the network and the disk. *)
Definition not_cold (vm : nat) (m : Manager) : Prop :=
  vm ∉ store_vms (m_store m) ∧ vm ∉ omap call_vm (m_calls m) ∧ vm ∉ m_stopped m ∧ (vm < m_vms m)%nat.
Lemma not_cold_act vm w c m :
  vm ∉ store_vms (m_store m) → call_vm c ≠ Some vm → vm ∉ m_stopped m → (vm < m_vms m)%nat →
  let '(m', c') := act w c m in
  vm ∉ store_vms (m_store m') ∧ call_vm c' ≠ Some vm ∧ vm ∉ m_stopped m' ∧ (vm < m_vms m')%nat.
Proof.
  intros Hs Hc Ht Hv.
  assert (∀ id sb, m_store m !! id = Some sb → sb_runResult sb ≠ Some vm) as Hat.
  { intros id sb Hid E. apply Hs. rewrite (store_vms_at _ _ _ Hid), E. by apply elem_of_cons; left. }
  assert (∀ id, vm ∉ store_vms (delete id (m_store m))) as Hdel by (intros id Hin; apply Hs; rewrite (store_vms_delete (m_store m) id); apply elem_of_app; by right).
  assert (∀ id sb, sb_runResult sb ≠ Some vm → vm ∉ store_vms (<[id := sb]> (m_store m))) as Hput.
  { intros id sb Hsb. rewrite store_vms_put, elem_of_app. intros [Hin|Hin]; [|by destruct (Hdel id)]. destruct (sb_runResult sb) as [v|]; [|by apply elem_of_nil in Hin].
    apply list_elem_of_singleton in Hin. congruence. }
  assert (∀ rr, rr ≠ Some vm → vm ∉ m_stopped m ++ option_list rr) as Hstop.
  { intros [v|] Hrr; rewrite elem_of_app; [|set_solver]. intros [?|Hin%list_elem_of_singleton]; [done|congruence]. }
  destruct c as [image|id|id v|id|id ok|id|id|id rr|id|id tmpl|id p|id ok|tmpl|tmpl image p|tmpl image p id|tmpl p id|id|id|id tmpl|id|id tmpl image p|id tmpl image p|tmpl image p|tmpl image p id|p id|r];
    cbn [act Create handleDeleteSandbox Delete ReleaseLeased LeaseSandbox RecycleLeased]; unfold Get, acquire, release, Update;
    try match goal with |- context [m_leases m !! ?k] => destruct (m_leases m !! k) end;
    try match goal with |- context [m_store m !! ?k] => destruct (m_store m !! k) as [sb|] eqn:Hsb end;
    try match goal with |- context [m_pools m !! ?k] => destruct (m_pools m !! k) as [[? ?]|] end;
    cbn; try case_bool_decide; try destruct (w_ok w); cbn; split_and!; auto; try lia;
    try (apply Hput; cbn; first [done|by eapply Hat|congruence]);
    try (intros [= E]; lia); try (by eapply Hat).
Qed.
Lemma not_cold_event vm ev m : not_cold vm m → not_cold vm (do_event ev m).
Proof.
  intros (Hs & Hc & Ht & Hv).
  assert (∀ c, call_vm c = None → not_cold vm (begin_call m c)) as Hbegin.
  { intros c E. split_and!; cbn; try done. rewrite omap_app. cbn. by rewrite E, app_nil_r. }
  destruct ev as [stat req|id|tmpl|id|tmpl image|tmpl|i w]; cbn [do_event]; unfold RegisterPool, UnregisterPool.
  - apply Hbegin. by destruct (validateCreateRequest stat req).
  - by apply Hbegin.
  - apply Hbegin. by case_bool_decide.
  - by apply Hbegin.
  - by destruct (_ || _).
  - done.
  - destruct (m_calls m !! i) as [c|] eqn:Hi; [|done]. assert (call_vm c ≠ Some vm) as Hcv.
    { intros E. apply Hc. apply list_elem_of_omap. exists c. split; [by eapply list_elem_of_lookup_2|done]. }
    pose proof (not_cold_act vm w c m Hs Hcv Ht Hv) as H. pose proof (act_calls w c m) as Hcalls. destruct (act w c m) as [m' c']. destruct H as (H1 & H2 & H3 & H4).
    cbn in Hcalls. split_and!; [done| |done|done]. cbn. rewrite Hcalls. destruct (omap_at call_vm (m_calls m) i c c' Hi) as (rest & E1 & E2).
    rewrite E1 in Hc. rewrite E2. rewrite elem_of_app in Hc |- *. intros [Hin|Hin]; [|by apply Hc; right].
    destruct (call_vm c') as [v|]; [|by apply elem_of_nil in Hin]. apply list_elem_of_singleton in Hin. congruence.
Qed.
Lemma leased_never_stopped evs more vm :
  vm ∈ lease_vms (m_leases (run evs start)) → vm ∉ m_stopped (run (evs ++ more) start).
Proof.
  intros Hl. unfold run. rewrite fold_left_app. fold (run evs start). fold (run more (run evs start)).
  assert (not_cold vm (run evs start)) as Hn.
  { pose proof (run_accounted evs start start_accounted) as Ha. unfold accounted in Ha. set (m := run evs start) in *.
    assert (NoDup (places m (omap call_vm (m_calls m)))) as Hn by (rewrite Ha; apply NoDup_seq). unfold places in Hn.
    apply NoDup_app in Hn as (_ & Hs & Hn). apply NoDup_app in Hn as (_ & Hc & Hn). apply NoDup_app in Hn as (_ & Hcl & _). split_and!.
    - intros H. apply (Hs vm H). set_solver.
    - intros H. apply (Hc vm H). set_solver.
    - intros H. apply (Hcl vm Hl). apply elem_of_app. left. apply (elem_of_sublist _ _ _ H). by apply run_stopped.
    - enough (vm ∈ seq 0 (m_vms m)) as H by (apply elem_of_seq in H; lia). rewrite <- Ha. unfold places. set_solver. }
  revert Hn. generalize (run evs start). induction more as [|ev more IH]; intros m Hn; [by destruct Hn as (_ & _ & ? & _)|].
  apply (IH (do_event ev m)). by apply not_cold_event.
Qed.

(** ** Requests that do not overlap on a sandbox lose no machine *)

(** What a call is about: the sandbox it is making, the one it is removing, the pool it uses, the lease that only it
    knows of, and what it takes the pool of the sandbox it removes to be. *)
Definition making (c : call) : option string :=
  match c with MRun id | MBooted id _ | MFailed id | LAdd _ _ _ id | LStamp _ _ id | CAdd _ _ _ id => Some id | _ => None end.
Definition recorded (c : call) : option string := match c with MRun id | MBooted id _ | MFailed id | LStamp _ _ id => Some id | _ => None end.
Definition removing (c : call) : option string :=
  match c with
  | HRoute id | XUpdate id | XRemove id _ | RGet id | RPool id _ | RRelease id _ | RRemove id _
  | CGet id | CPool id _ | CDrop id | CRemove id _ _ _ | CRelease id _ _ _ => Some id
  | _ => None
  end.
Definition uses (c : call) : option (string * nat) :=
  match c with
  | LAcquire t _ p | LAdd t _ p _ | LStamp t p _ | CRemove _ t _ p | CRelease _ t _ p | CAcquire t _ p | CAdd t _ p _ => Some (t, p)
  | _ => None
  end.
Definition carries (c : call) : option (nat * string) :=
  match c with LAdd _ _ p id | LStamp _ p id | CAdd _ _ p id | CRelease id _ _ p => Some (p, id) | _ => None end.
Inductive belief := BAny | BTemplate (t : string) | BPool (p : nat) | BNone.
Definition believes (c : call) : belief :=
  match c with
  | RPool _ t | CPool _ t => BTemplate t
  | RRelease _ p | CRemove _ _ _ p => BPool p
  | XUpdate _ | XRemove _ _ | RRemove _ _ | CDrop _ => BNone
  | _ => BAny
  end.
(** Requests arrive only for sandboxes that are not being made; ids are new; pools are kept while they have leases. *)
Definition calm (m : Manager) (ev : event) : Prop :=
  match ev with
  | EDelete id | ERecycle id => ∀ c, c ∈ m_calls m → making c ≠ Some id
  | EUnregister t => ∀ p image, m_pools m !! t = Some (p, image) → (∀ id, m_leases m !! (p, id) = None) ∧ ∀ c t', c ∈ m_calls m → uses c ≠ Some (t', p)
  | EStep i w =>
      ∀ c, m_calls m !! i = Some c → match c with MAdd _ | LAcquire _ _ _ | CAcquire _ _ _ => True | _ => False end →
        w_id w ∉ m_ids m ∧ ∀ c', c' ∈ m_calls m → removing c' ≠ Some (w_id w)
  | _ => True
  end.
Fixpoint calm_run (evs : list event) (m : Manager) : Prop := match evs with [] => True | ev :: evs => calm m ev ∧ calm_run evs (do_event ev m) end.

Definition releasing (m : Manager) (p : nat) (id : string) : Prop := ∃ c, c ∈ m_calls m ∧ carries c = Some (p, id) ∧ removing c = Some id.
Definition belief_ok (m : Manager) (id : string) (b : belief) : Prop :=
  ∀ p vm, m_leases m !! (p, id) = Some vm →
    match b with BAny => True | BTemplate t => ∃ image, m_pools m !! t = Some (p, image) | BPool q => p = q | BNone => False end ∨ releasing m p id.
Definition bare (c : call) : bool := match c with XRemove _ _ | RPool _ _ | RRelease _ _ | RRemove _ _ | CPool _ _ | CDrop _ | CRemove _ _ _ _ => true | _ => false end.
Definition named (c : call) : option string := match c with LPool t | CPool _ t => Some t | _ => None end.
Definition call_ok (m : Manager) (c : call) : Prop :=
  (∀ id, making c = Some id → id ∈ m_ids m) ∧
  (∀ id, recorded c = Some id → ∃ sb, m_store m !! id = Some sb ∧ sb_runResult sb = None ∧ sb_poolTemplateID sb = "") ∧
  (∀ id, making c = Some id → recorded c = None → m_store m !! id = None) ∧
  (∀ t p, uses c = Some (t, p) → t ≠ "" ∧ ∃ image, m_pools m !! t = Some (p, image)) ∧
  (∀ id, removing c = Some id → belief_ok m id (believes c) ∧ ∀ c', c' ∈ m_calls m → making c' ≠ Some id) ∧
  (∀ id sb, removing c = Some id → bare c = true → m_store m !! id = Some sb → sb_runResult sb = None) ∧
  (∀ t, named c = Some t → t ≠ "").
Definition stored_lease (m : Manager) (p : nat) (id : string) : Prop :=
  ∃ sb image, m_store m !! id = Some sb ∧ sb_poolTemplateID sb ≠ "" ∧ m_pools m !! sb_poolTemplateID sb = Some (p, image).
Definition held (m : Manager) (p : nat) (id : string) : Prop := stored_lease m p id ∨ ∃ c, c ∈ m_calls m ∧ carries c = Some (p, id).
Definition calm_inv (m : Manager) : Prop :=
  m_lost m = [] ∧
  (∀ id, is_Some (m_store m !! id) → id ∈ m_ids m) ∧ (∀ p id, is_Some (m_leases m !! (p, id)) → id ∈ m_ids m) ∧
  (∀ id sb, m_store m !! id = Some sb → sb_poolTemplateID sb ≠ "" → sb_runResult sb = None) ∧
  (∀ c, c ∈ m_calls m → call_ok m c) ∧
  (∀ i j c c' id, m_calls m !! i = Some c → m_calls m !! j = Some c' → making c = Some id → making c' = Some id → i = j) ∧
  (∀ p id vm, m_leases m !! (p, id) = Some vm → held m p id).

(** What a step [c], [m] to [c'], [m'] has to satisfy. *)
Record calm_move (m : Manager) (c : call) (m' : Manager) (c' : call) : Prop := {
  cm_lost : m_lost m' = [];
  cm_pools : m_pools m' = m_pools m;
  cm_calls : m_calls m' = m_calls m;
  cm_ids : m_ids m ⊆ m_ids m';
  cm_store : ∀ id, m_store m' !! id = m_store m !! id ∨ making c = Some id ∨ removing c = Some id ∨ (id ∉ m_ids m ∧ id ∈ m_ids m');
  cm_bare : ∀ id sb, m_store m' !! id = Some sb → m_store m !! id = Some sb ∨ making c = Some id ∨ sb_runResult sb = None;
  cm_pooled : ∀ id sb, m_store m' !! id = Some sb → sb_poolTemplateID sb ≠ "" → sb_runResult sb = None;
  cm_leases : ∀ p id vm, m_leases m' !! (p, id) = Some vm → m_leases m !! (p, id) = Some vm ∨ (id ∉ m_ids m ∧ id ∈ m_ids m');
  cm_release : ∀ p id vm, carries c = Some (p, id) → removing c = Some id → m_leases m' !! (p, id) = Some vm → carries c' = Some (p, id) ∧ removing c' = Some id;
  cm_fresh : ∀ id c'', id ∉ m_ids m → id ∈ m_ids m' → c'' ∈ m_calls m → removing c'' ≠ Some id;
  cm_making : ∀ id, making c' = Some id → making c = Some id ∨ (id ∉ m_ids m ∧ id ∈ m_ids m');
  cm_removing : ∀ id, removing c' = Some id → removing c = Some id
}.
Section move.
Context (m : Manager) (i : nat) (c : call) (m' : Manager) (c' : call).
Context (Hinv : calm_inv m) (Hi : m_calls m !! i = Some c) (Hm : calm_move m c m' c').
#[local] Abbreviation m2 := (with_calls m' (<[i := c']> (m_calls m'))).

Lemma move_elem x : x ∈ <[i := c']> (m_calls m) → x = c' ∨ ∃ j, j ≠ i ∧ m_calls m !! j = Some x.
Proof. intros [j Hj]%list_elem_of_lookup. apply list_lookup_insert_Some in Hj as [(_ & <- & _)|[Hne Hj]]; [by left|]. right. exists j. auto. Qed.
Lemma move_new : c' ∈ <[i := c']> (m_calls m).
Proof. eapply list_elem_of_lookup_2. apply list_lookup_insert_eq. by eapply lookup_lt_Some. Qed.
Lemma move_keep j x : j ≠ i → m_calls m !! j = Some x → x ∈ <[i := c']> (m_calls m).
Proof. intros Hne Hj. eapply (list_elem_of_lookup_2 _ j). by rewrite list_lookup_insert_ne. Qed.
(** Who was releasing a lease still is, while the lease is there. *)
Lemma move_releasing p id vm : releasing m p id → m_leases m' !! (p, id) = Some vm → releasing m2 p id.
Proof.
  intros (x & [j Hj]%list_elem_of_lookup & Hc & Hr) Hl. unfold releasing. cbn. rewrite (cm_calls _ _ _ _ Hm).
  destruct (decide (j = i)) as [->|Hne]; [|exists x; split; [by eapply move_keep|done]].
  rewrite Hi in Hj. injection Hj as <-. exists c'. split; [apply move_new|]. by eapply (cm_release _ _ _ _ Hm).
Qed.
Lemma move_belief id b x : x ∈ m_calls m → removing x = Some id → belief_ok m id b → belief_ok m2 id b.
Proof.
  intros Hx Hr Hb p vm Hl. cbn in Hl. destruct (cm_leases _ _ _ _ Hm _ _ _ Hl) as [Hl0|[H1 H2]]; [|by destruct (cm_fresh _ _ _ _ Hm id x H1 H2 Hx)].
  cbn. rewrite (cm_pools _ _ _ _ Hm). destruct (Hb p vm Hl0) as [?|Hrel]; [by left|]. right. by eapply move_releasing.
Qed.
Lemma move_unmade id x : x ∈ m_calls m → removing x = Some id → ∀ c'', c'' ∈ <[i := c']> (m_calls m) → making c'' ≠ Some id.
Proof.
  intros Hx Hr c'' Hc'' Hmk. destruct Hinv as (_ & _ & _ & _ & Hok & _ & _). destruct (Hok x Hx) as (_ & _ & _ & _ & H5 & _ & _).
  destruct (H5 id Hr) as [_ Hun]. destruct (move_elem _ Hc'') as [->|(j & _ & Hj)]; [|by apply (Hun c''); [eapply list_elem_of_lookup_2|]].
  destruct (cm_making _ _ _ _ Hm id Hmk) as [Hc|[H1 H2]]; [by apply (Hun c); [eapply list_elem_of_lookup_2|]|by apply (cm_fresh _ _ _ _ Hm id x H1 H2 Hx)].
Qed.
Lemma move_other j x : j ≠ i → m_calls m !! j = Some x → call_ok m2 x.
Proof.
  intros Hne Hj. assert (x ∈ m_calls m) as Hx by (by eapply list_elem_of_lookup_2). pose proof Hinv as (_ & _ & _ & _ & Hok & Hd & _).
  destruct (Hok x Hx) as (H1 & H2 & H3 & H4 & H5 & H6 & H7).
  assert (∀ id, making x = Some id → m_store m' !! id = m_store m !! id) as Hsame.
  { intros id Hmk. destruct (cm_store _ _ _ _ Hm id) as [?|[Hc|[Hc|[Hf _]]]]; [done|by destruct Hne; eapply Hd| |by destruct Hf; apply H1].
    destruct (Hok c) as (_ & _ & _ & _ & Hc5 & _ & _); [by eapply list_elem_of_lookup_2|]. by destruct (proj2 (Hc5 id Hc) x Hx). }
  split_and!; cbn.
  - intros id Hmk. by apply (cm_ids _ _ _ _ Hm), H1.
  - intros id Hrec. rewrite Hsame; [by apply H2|]. by destruct x.
  - intros id Hmk Hrec. rewrite Hsame by done. by apply H3.
  - intros t p Hu. rewrite (cm_pools _ _ _ _ Hm). by apply H4.
  - intros id Hr. split; [apply (move_belief _ _ x); [done..|]; by apply H5|]. rewrite (cm_calls _ _ _ _ Hm). by apply (move_unmade id x).
  - intros id sb Hr Hb Hsb. destruct (cm_bare _ _ _ _ Hm _ _ Hsb) as [Hsb0|[Hc|?]]; [by eapply H6| |done].
    destruct (proj2 (H5 id Hr) c); [by eapply list_elem_of_lookup_2|done].
  - done.
Qed.
Lemma calm_put :
  (∀ id, is_Some (m_store m' !! id) → id ∈ m_ids m') → call_ok m2 c' → (∀ p id vm, m_leases m' !! (p, id) = Some vm → held m2 p id) → calm_inv m2.
Proof.
  intros Hids Hok' Hheld. pose proof Hinv as (_ & _ & Hli & _ & Hok & Hd & _). split_and!; cbn.
  - apply (cm_lost _ _ _ _ Hm).
  - done.
  - intros p id [vm Hl]. destruct (cm_leases _ _ _ _ Hm _ _ _ Hl) as [Hl0|[_ ?]]; [|done]. apply (cm_ids _ _ _ _ Hm). by eapply Hli.
  - apply (cm_pooled _ _ _ _ Hm).
  - intros x Hx. rewrite (cm_calls _ _ _ _ Hm) in Hx. destruct (move_elem _ Hx) as [->|(j & Hne & Hj)]; [done|by apply (move_other j)].
  - rewrite (cm_calls _ _ _ _ Hm).
    assert (∀ j x id, j ≠ i → m_calls m !! j = Some x → making x = Some id → making c' = Some id → False) as Hdis.
    { intros j x id Hne Hj Hmk Hmk'. destruct (cm_making _ _ _ _ Hm id Hmk') as [Hc|[Hf _]]; [exact (Hne (Hd _ _ _ _ _ Hj Hi Hmk Hc))|].
      destruct Hf. destruct (Hok x) as (H1 & _); [by eapply list_elem_of_lookup_2|]. by apply H1. }
    intros j k x y id Hj Hk Hmx Hmy. apply list_lookup_insert_Some in Hj as [(<- & <- & _)|[Hne Hj]]; apply list_lookup_insert_Some in Hk as [(<- & <- & _)|[Hne' Hk]]; try done.
    + by destruct (Hdis k y id).
    + by destruct (Hdis j x id).
    + by eapply Hd.
  - done.
Qed.
(** A lease that is held goes on to be: by its sandbox unless this step takes it away, by another call, or by this one. *)
Lemma move_held p id :
  held m p id → (stored_lease m p id → held m2 p id) → (carries c = Some (p, id) → held m2 p id) → held m2 p id.
Proof.
  intros [Hs|(x & [j Hj]%list_elem_of_lookup & Hc)] H1 H2.
  - by apply H1.
  - destruct (decide (j = i)) as [->|Hne]; [rewrite Hi in Hj; injection Hj as <-; by apply H2|]. right. exists x. cbn. rewrite (cm_calls _ _ _ _ Hm). split; [by eapply move_keep|done].
Qed.
End move.

(** The call goes on and nothing else happens. *)
Lemma calm_goto m i c m' c' :
  calm_inv m → m_calls m !! i = Some c →
  m_store m' = m_store m → m_pools m' = m_pools m → m_leases m' = m_leases m → m_calls m' = m_calls m → m_lost m' = m_lost m → m_ids m' = m_ids m →
  carries c = None → (making c', recorded c') = (making c, recorded c) ∨ (making c', recorded c') = (None, None) →
  (∀ id, removing c' = Some id → removing c = Some id ∧ belief_ok m id (believes c') ∧ (bare c' = true → ∀ sb, m_store m !! id = Some sb → sb_runResult sb = None)) →
  (∀ t p, uses c' = Some (t, p) → t ≠ "" ∧ ∃ image, m_pools m !! t = Some (p, image)) → (∀ t, named c' = Some t → t ≠ "") →
  calm_inv (with_calls m' (<[i := c']> (m_calls m'))).
Proof.
  intros Hinv Hi Es Ep El Ec Eo Ed Hcar Hmk Hrm Hus Hnm. pose proof Hinv as (I1 & I2 & I3 & I4 & Hok & _ & I7).
  destruct (Hok c) as (C1 & C2 & C3 & _ & C5 & _ & _); [by eapply list_elem_of_lookup_2|].
  assert (∀ id, making c' = Some id → making c = Some id) as Hmk' by (intros id H; destruct Hmk as [[= E _]|[= E _]]; congruence).
  assert (calm_move m c m' c') as Hm.
  { split; rewrite ?Es, ?Ep, ?El, ?Ec, ?Eo, ?Ed; auto; try done; try (intros; congruence); try (by intros ? ? ? ?).
    intros id H. by destruct (Hrm id H). }
  apply (calm_put m i c m' c' Hinv Hi Hm).
  - rewrite Es, Ed. done.
  - split_and!; cbn; rewrite ?Es, ?Ep, ?Ed; auto.
    + intros id Hr. destruct Hmk as [[= E1 E2]|[= E1 E2]]; [apply C2; congruence|congruence].
    + intros id H Hr. destruct Hmk as [[= E1 E2]|[= E1 E2]]; [apply C3; congruence|congruence].
    + intros id Hr. destruct (Hrm id Hr) as (H1 & H2 & _). assert (c ∈ m_calls m) as Hc by (by eapply list_elem_of_lookup_2).
      split; [by apply (move_belief m i c m' c' Hi Hm id _ c Hc H1 H2)|]. rewrite Ec. by apply (move_unmade m i c m' c' Hinv Hi Hm id c).
    + intros id sb Hr Hb. by apply (Hrm id Hr).
  - intros p id vm. rewrite El. intros Hl. apply (move_held m i c m' c' Hi Hm); [by eapply I7| |congruence].
    intros (sb & image & H1 & H2 & H3). left. exists sb, image. cbn. rewrite Es, Ep. done.
Qed.
(** The call writes or removes one record. *)
Definition put (x : string) (o : option Sandbox) (s : Store) : Store := match o with Some sb => <[x := sb]> s | None => delete x s end.
Lemma put_eq x o (s : Store) : put x o s !! x = o.
Proof. destruct o; [apply lookup_insert_eq|apply lookup_delete_eq]. Qed.
Lemma put_ne x y o (s : Store) : x ≠ y → put x o s !! y = s !! y.
Proof. intros H. destruct o; [by apply lookup_insert_ne|by apply lookup_delete_ne]. Qed.
Lemma calm_write m i c c' x o :
  calm_inv m → m_calls m !! i = Some c → making c = Some x ∨ removing c = Some x →
  (∀ sb, o = Some sb → x ∈ m_ids m ∧ (sb_runResult sb = None ∨ (making c = Some x ∧ sb_poolTemplateID sb = ""))) →
  (∀ id, making c' = Some id → id = x ∧ making c = Some x ∧ recorded c' = Some x ∧ ∃ sb, o = Some sb ∧ sb_runResult sb = None ∧ sb_poolTemplateID sb = "") →
  (∀ id, recorded c' = Some id → making c' = Some id) →
  (∀ id, removing c' = Some id → id = x ∧ removing c = Some x ∧ belief_ok m x (believes c') ∧ ∀ sb, o = Some sb → sb_runResult sb = None) →
  (∀ y, carries c = Some y → removing c = None) → (∀ t p, uses c' = Some (t, p) → uses c = Some (t, p)) → named c' = None →
  (∀ p vm sb, m_leases m !! (p, x) = Some vm → m_store m !! x = Some sb → sb_poolTemplateID sb ≠ "" →
     (∃ image, m_pools m !! sb_poolTemplateID sb = Some (p, image)) → carries c' = Some (p, x) ∨ releasing m p x ∨ ∃ sb', o = Some sb' ∧ sb_poolTemplateID sb' = sb_poolTemplateID sb) →
  (∀ p id, carries c = Some (p, id) → carries c' = Some (p, id) ∨ (id = x ∧ ∃ sb image, o = Some sb ∧ sb_poolTemplateID sb ≠ "" ∧ m_pools m !! sb_poolTemplateID sb = Some (p, image))) →
  calm_inv (with_calls (with_store m (put x o (m_store m))) (<[i := c']> (m_calls m))).
Proof.
  intros Hinv Hi Hx Ho Hmk Hrc Hrm Hcar Hus Hnm Hst Hca. pose proof Hinv as (I1 & I2 & I3 & I4 & Hok & _ & I7).
  assert (c ∈ m_calls m) as Hc by (by eapply list_elem_of_lookup_2). destruct (Hok c Hc) as (C1 & _ & _ & C4 & _ & _ & _).
  set (m' := with_store m (put x o (m_store m))).
  assert (∀ id sb, put x o (m_store m) !! id = Some sb → (id = x ∧ o = Some sb) ∨ (id ≠ x ∧ m_store m !! id = Some sb)) as Hlook.
  { intros id sb H. destruct (decide (id = x)) as [->|Hne]; [left; by rewrite put_eq in H|]. right. by rewrite put_ne in H by done. }
  assert (calm_move m c m' c') as Hm.
  { split; cbn; auto; try done; try (by intros ? ? ? ?).
    - intros id. destruct (decide (id = x)) as [->|Hne]; [right; tauto|]. left. by apply put_ne.
    - intros id sb [[-> ->]|[_ ?]]%Hlook; [|by left]. right. destruct (Ho sb eq_refl) as [_ [?|[? _]]]; auto.
    - intros id sb [[-> ->]|[_ ?]]%Hlook Hp; [|by eapply I4]. destruct (Ho sb eq_refl) as [_ [?|[_ ?]]]; [done|congruence].
    - intros p id vm H1 H2. by rewrite (Hcar _ H1) in H2.
    - intros id H. by destruct (Hmk id H) as (-> & ? & _); left.
    - intros id H. by destruct (Hrm id H) as (-> & ? & _). }
  apply (calm_put m i c m' c' Hinv Hi Hm).
  - intros id [sb H]. apply Hlook in H as [[-> ->]|[_ H]]; [by apply (Ho sb)|]. by apply I2.
  - split_and!; cbn.
    + intros id H. destruct (Hmk id H) as (-> & H' & _). by apply C1.
    + intros id H. destruct (Hmk id (Hrc id H)) as (-> & _ & _ & sb & Eo & ? & ?). exists sb. by rewrite put_eq.
    + intros id H Hr. destruct (Hmk id H) as (_ & _ & E & _). congruence.
    + intros t p H. apply C4. by apply Hus.
    + intros id H. destruct (Hrm id H) as (-> & H1 & H2 & _). split; [by apply (move_belief m i c m' c' Hi Hm x _ c Hc H1 H2)|by apply (move_unmade m i c m' c' Hinv Hi Hm x c)].
    + intros id sb H _ Hsb. destruct (Hrm id H) as (-> & _ & _ & H3). apply H3. by rewrite put_eq in Hsb.
    + by rewrite Hnm.
  - intros p id vm Hl. cbn in Hl. apply (move_held m i c m' c' Hi Hm); [by eapply I7| |].
    + intros (sb & image & H1 & H2 & H3). destruct (decide (id = x)) as [->|Hne].
      * destruct (Hst p vm sb Hl H1 H2) as [?|[Hrel|(sb' & E & E')]]; [by eexists| | |].
        -- right. exists c'. split; [by eapply move_new|done].
        -- destruct (move_releasing m i c m' c' Hi Hm p x vm Hrel Hl) as (y & ? & ? & _). right. by exists y.
        -- left. exists sb', image. cbn. by rewrite put_eq, E'.
      * left. exists sb, image. cbn. by rewrite put_ne.
    + intros Hcc. destruct (Hca p id Hcc) as [?|(-> & sb & image & E & H2 & H3)].
      * right. exists c'. split; [by eapply move_new|done].
      * left. exists sb, image. cbn. by rewrite put_eq.
Qed.
(** A new id, with a record or with a lease. *)
Lemma calm_new m i c m' c' x :
  calm_inv m → m_calls m !! i = Some c → x ∉ m_ids m → (∀ c'', c'' ∈ m_calls m → removing c'' ≠ Some x) →
  m_lost m' = m_lost m → m_pools m' = m_pools m → m_calls m' = m_calls m → m_ids m' = m_ids m ++ [x] →
  (∀ id, id ≠ x → m_store m' !! id = m_store m !! id) → (∀ sb, m_store m' !! x = Some sb → sb_runResult sb = None ∧ sb_poolTemplateID sb = "") →
  (∀ p id vm, m_leases m' !! (p, id) = Some vm → m_leases m !! (p, id) = Some vm ∨ (id = x ∧ carries c' = Some (p, id))) →
  carries c = None → making c' = Some x → removing c' = None → named c' = None → (recorded c' = Some x ∧ is_Some (m_store m' !! x) ∨ recorded c' = None ∧ m_store m' !! x = None) →
  (∀ t p, uses c' = Some (t, p) → uses c = Some (t, p)) →
  calm_inv (with_calls m' (<[i := c']> (m_calls m'))).
Proof.
  intros Hinv Hi Hnew Hun Eo Ep Ec Ed Hst Hx Hle Hcar Hmk Hrm Hnm Hrec Hus. pose proof Hinv as (I1 & I2 & I3 & I4 & Hok & _ & I7).
  assert (c ∈ m_calls m) as Hc by (by eapply list_elem_of_lookup_2). destruct (Hok c Hc) as (_ & _ & _ & C4 & _ & _ & _).
  assert (x ∈ m_ids m') as Hin by (rewrite Ed, elem_of_app, list_elem_of_singleton; by right).
  assert (m_ids m ⊆ m_ids m') as Hsub by (rewrite Ed; set_solver).
  assert (calm_move m c m' c') as Hm.
  { split; auto; try congruence.
    - intros id. destruct (decide (id = x)) as [->|Hne]; [|left; auto]. right. right. right. done.
    - intros id sb Hsb. destruct (decide (id = x)) as [->|Hne]; [right; right; by apply Hx|]. left. by rewrite <- Hst.
    - intros id sb Hsb Hp. destruct (decide (id = x)) as [->|Hne]; [by apply Hx|]. rewrite Hst in Hsb by done. by eapply I4.
    - intros p id vm Hl. destruct (Hle p id vm Hl) as [?|[-> _]]; [by left|by right].
    - intros id c'' H1 H2. rewrite Ed, elem_of_app, list_elem_of_singleton in H2. destruct H2 as [?| ->]; [done|by apply Hun].
    - intros id H. right. rewrite Hmk in H. injection H as <-. done. }
  apply (calm_put m i c m' c' Hinv Hi Hm).
  - intros id Hid. destruct (decide (id = x)) as [->|Hne]; [done|]. rewrite Hst in Hid by done. by apply Hsub, I2.
  - split_and!; cbn.
    + intros id H. rewrite Hmk in H. by injection H as <-.
    + intros id H. destruct Hrec as [[E [sb Hsb]]|[E _]]; [|congruence]. assert (id = x) as -> by congruence. exists sb. by destruct (Hx sb Hsb).
    + intros id H Hr. destruct Hrec as [[E _]|[_ E]]; congruence.
    + intros t p H. rewrite Ep. apply C4. by apply Hus.
    + intros id H. congruence.
    + intros id sb H. congruence.
    + by rewrite Hnm.
  - intros p id vm Hl. destruct (Hle p id vm Hl) as [Hl0|[-> E]]; [|right; exists c'; cbn; rewrite Ec; split; [by eapply move_new|done]].
    apply (move_held m i c m' c' Hi Hm); [by eapply I7| |congruence]. intros (sb & image & H1 & H2 & H3). left. exists sb, image. cbn. rewrite Ep.
    rewrite Hst; [done|]. intros ->. apply Hnew, I2. by eexists.
Qed.
(** A lease is given back. *)
Lemma calm_release m i c c' p x :
  calm_inv m → m_calls m !! i = Some c →
  (∀ q id, carries c = Some (q, id) → (q, id) = (p, x)) →
  making c' = None → recorded c' = None → (∀ t q, uses c' = Some (t, q) → uses c = Some (t, q)) → named c' = None →
  (∀ id, removing c' = Some id → id = x ∧ removing c = Some x ∧ believes c = BPool p ∧ bare c = true) →
  calm_inv (with_calls (release m p x).1 (<[i := c']> (m_calls (release m p x).1))).
Proof.
  intros Hinv Hi Hcar Hmk Hrc Hus Hnm Hrm. pose proof Hinv as (I1 & I2 & I3 & I4 & Hok & _ & I7).
  assert (c ∈ m_calls m) as Hc by (by eapply list_elem_of_lookup_2). destruct (Hok c Hc) as (_ & _ & _ & C4 & C5 & C6 & _).
  set (m' := (release m p x).1). assert (m_store m' = m_store m ∧ m_pools m' = m_pools m ∧ m_calls m' = m_calls m ∧ m_lost m' = m_lost m ∧ m_ids m' = m_ids m ∧ m_leases m' = delete (p, x) (m_leases m)) as (Es & Ep & Ec & Eo & Ed & El).
  { subst m'. unfold release. destruct (m_leases m !! (p, x)) eqn:E; [done|]. cbn. by rewrite delete_id. }
  assert (∀ q id vm, m_leases m' !! (q, id) = Some vm → (q, id) ≠ (p, x) ∧ m_leases m !! (q, id) = Some vm) as Hl'.
  { intros q id vm. rewrite El, lookup_delete_Some. by intros [? ?]. }
  assert (calm_move m c m' c') as Hm.
  { split; rewrite ?Es, ?Ep, ?Ec, ?Eo, ?Ed; auto; try congruence; try (by intros ? ? ? ?).
    - intros q id vm H. left. by apply Hl'.
    - intros q id vm H1 _ H2. apply Hl' in H2 as [H2 _]. by destruct (H2 (Hcar q id H1)).
    - intros id H. by destruct (Hrm id H) as (-> & ? & _). }
  apply (calm_put m i c m' c' Hinv Hi Hm).
  - rewrite Es, Ed. done.
  - split_and!; cbn; rewrite ?Hmk, ?Hrc, ?Hnm; try done.
    + intros t q H. rewrite Ep. apply C4. by apply Hus.
    + intros id H. destruct (Hrm id H) as (-> & Hr & Hb & _). split; [|rewrite Ec; by apply (move_unmade m i c m' c' Hinv Hi Hm x c)].
      intros q vm Hl. right. destruct (Hl' _ _ _ Hl) as [Hne Hl0]. destruct (proj1 (C5 x Hr) q vm Hl0) as [E|Hrel]; [rewrite Hb in E; congruence|].
      by apply (move_releasing m i c m' c' Hi Hm q x vm).
    + intros id sb H _ Hsb. destruct (Hrm id H) as (-> & Hr & _ & Hb). rewrite Es in Hsb. by eapply C6.
  - intros q id vm Hl. destruct (Hl' _ _ _ Hl) as [Hne Hl0]. apply (move_held m i c m' c' Hi Hm); [by eapply I7| |].
    + intros (sb & image & H1 & H2 & H3). left. exists sb, image. cbn. by rewrite Es, Ep.
    + intros H. by destruct (Hne (Hcar q id H)).
Qed.

Lemma lose_None m : lose m None = m.
Proof. destruct m. unfold lose. cbn. by rewrite app_nil_r. Qed.
Lemma carried_releasing m p id : (∀ c, c ∈ m_calls m → making c ≠ Some id) → (∃ c, c ∈ m_calls m ∧ carries c = Some (p, id)) → releasing m p id.
Proof.
  intros Hun (c & Hc & E). exists c. split_and!; [done..|]. destruct c; cbn in E; try done; injection E as <- <-; (done || by destruct (Hun _ Hc)).
Qed.
(** The lease of a sandbox that is not being made: its record names the pool, or a recycle is giving it back. *)
Lemma lease_cases m id p vm : calm_inv m → (∀ c, c ∈ m_calls m → making c ≠ Some id) → m_leases m !! (p, id) = Some vm → stored_lease m p id ∨ releasing m p id.
Proof. intros (_ & _ & _ & _ & _ & _ & I7) Hun Hl. destruct (I7 p id vm Hl) as [?|H]; [by left|right; by apply carried_releasing]. Qed.
(** A call that only removes a record. *)
Lemma calm_remove m i c c' x :
  calm_inv m → m_calls m !! i = Some c → removing c = Some x → bare c = true → carries c = None → (believes c = BNone ∧ removing c' = None ∧ carries c' = None ∨ ∃ p, believes c = BPool p ∧ carries c' = Some (p, x) ∧ believes c' = BAny ∧ removing c' = Some x) →
  making c' = None → recorded c' = None → (∀ t p, uses c' = Some (t, p) → uses c = Some (t, p)) → named c' = None →
  let m' := lose (with_store m (delete x (m_store m))) (m_store m !! x ≫= sb_runResult) in
  calm_inv (with_calls m' (<[i := c']> (m_calls m'))).
Proof.
  intros Hinv Hi Hr Hb Hcar Hbel Hmk Hrc Hus Hnm m'. pose proof Hinv as (_ & _ & _ & _ & Hok & _).
  destruct (Hok c) as (_ & _ & _ & _ & C5 & C6 & _); [by eapply list_elem_of_lookup_2|]. destruct (C5 x Hr) as [Hbo Hun].
  subst m'. replace (m_store m !! x ≫= sb_runResult) with (@None nat) by (destruct (m_store m !! x) as [sb|] eqn:E; [cbn; symmetry; by eapply C6|done]).
  rewrite lose_None. apply (calm_write m i c c' x None); try done; [by right|congruence|congruence| |congruence| |].
  - intros id H. destruct Hbel as [(_ & ? & _)|(p & _ & _ & E & Hx)]; [congruence|]. assert (id = x) as -> by congruence. split_and!; [done..| |done]. rewrite E. by intros p' vm _; left.
  - intros p vm sb Hl _ _ _. destruct (Hbo p vm Hl) as [H|H]; [|by right; left]. destruct Hbel as [(E & _)|(q & E & Hc & _)]; rewrite E in H; [done|]. left. by rewrite H.
  - intros p id H. congruence.
Qed.
(** The call goes to a point where it has nothing left to do with sandboxes. *)
Lemma calm_plain m i c m' c' :
  calm_inv m → m_calls m !! i = Some c → m_store m' = m_store m → m_pools m' = m_pools m → m_leases m' = m_leases m → m_calls m' = m_calls m → m_lost m' = m_lost m → m_ids m' = m_ids m →
  carries c = None → making c' = None → recorded c' = None → removing c' = None → uses c' = None → named c' = None →
  calm_inv (with_calls m' (<[i := c']> (m_calls m'))).
Proof.
  intros Hinv Hi E1 E2 E3 E4 E5 E6 H1 H2 H3 H4 H5 H6. apply (calm_goto m i c m' c' Hinv Hi E1 E2 E3 E4 E5 E6 H1); [right; congruence|congruence..].
Qed.
Section acts.
Context (m : Manager) (i : nat) (w : world) (Hinv : calm_inv m).

Lemma create_calm c : m_calls m !! i = Some c → calm m (EStep i w) →
  match c with MAdd _ | MRun _ | MBooted _ _ | MFailed _ | MReturn _ _ => True | _ => False end →
  let '(m', c') := act w c m in calm_inv (with_calls m' (<[i := c']> (m_calls m'))).
Proof.
  intros Hi Hcalm Hk. pose proof Hinv as (_ & I2 & I3 & I4 & Hok & _ & I7).
  destruct (Hok c) as (C1 & C2 & _); [by eapply list_elem_of_lookup_2|]. specialize (Hcalm c Hi). destruct c as [image|id|id vm|id|id ok| | | | | | | | | | | | | | | | | | | | |]; try done; cbn [act Create handleDeleteSandbox Delete ReleaseLeased LeaseSandbox RecycleLeased].
  - destruct (Hcalm I) as [Hnew Hun]. destruct (m_store m !! w_id w) eqn:E; [by apply (calm_plain m i (MAdd image))|].
    apply (calm_new m i (MAdd image) _ (MRun (w_id w)) (w_id w)); try done; cbn.
    + intros id Hne. by apply lookup_insert_ne.
    + intros sb. rewrite lookup_insert_eq. by intros [= <-].
    + intros p id vm Hl. by left.
    + left. rewrite lookup_insert_eq. by split.
  - destruct (w_ok w); apply (calm_goto m i (MRun id)); try done; by left.
  - destruct (C2 id eq_refl) as (sb & Hsb & Hrr & Hp). rewrite Hsb, Hrr, lose_None.
    apply (calm_write m i (MBooted id vm) (MReturn id true) id (Some (with_state sb StateReady (Some vm)))); try done; [by left| |].
    + intros sb' [= <-]. split; [apply I2; by eexists|]. right. done.
    + intros p vm' sb' _ Hsb' Hne. congruence.
  - destruct (C2 id eq_refl) as (sb & Hsb & Hrr & Hp). unfold Update. rewrite Hsb.
    apply (calm_write m i (MFailed id) (MReturn id false) id (Some (with_state sb StateError (sb_runResult sb)))); try done; [by left| |].
    + intros sb' [= <-]. split; [apply I2; by eexists|]. by left.
    + intros p vm' sb' _ Hsb' Hne. congruence.
  - by apply (calm_plain m i (MReturn id ok)).
Qed.
Lemma acquire_calm c t img p c' m' : m_calls m !! i = Some c → calm m (EStep i w) →
  (c = LAcquire t img p ∧ c' = LAdd t img p (w_id w)) ∨ (c = CAcquire t img p ∧ c' = CAdd t img p (w_id w)) → acquire m p (w_id w) = Some m' →
  calm_inv (with_calls m' (<[i := c']> (m_calls m'))).
Proof.
  intros Hi Hcalm Hc Ha. pose proof Hinv as (_ & I2 & _).
  assert (w_id w ∉ m_ids m ∧ ∀ c', c' ∈ m_calls m → removing c' ≠ Some (w_id w)) as [Hnew Hun] by (apply (Hcalm c Hi); by destruct Hc as [[-> _]|[-> _]]).
  unfold acquire in Ha. destruct (m_leases m !! (p, w_id w)) eqn:E; [done|]. injection Ha as <-.
  apply (calm_new m i c _ c' (w_id w)); try done; cbn; try (by destruct Hc as [[-> ->]|[-> ->]]).
  - intros sb Hsb. destruct Hnew. apply I2. by eexists.
  - intros q id vm. rewrite lookup_insert_Some. intros [[[= <- <-] _]|[_ ?]]; [right; by destruct Hc as [[_ ->]|[_ ->]]|by left].
  - right. split; [by destruct Hc as [[_ ->]|[_ ->]]|]. destruct (m_store m !! w_id w) eqn:Es; [|done]. destruct Hnew. apply I2. by eexists.
Qed.
Lemma add_calm c t img p id : m_calls m !! i = Some c → c = LAdd t img p id ∨ c = CAdd t img p id →
  m_store m !! id = None ∧
  calm_inv (with_calls (with_store m (<[id := mkSandbox StateReady img None ""]> (m_store m))) (<[i := LStamp t p id]> (m_calls m))).
Proof.
  intros Hi Hc. pose proof Hinv as (_ & _ & _ & _ & Hok & _). destruct (Hok c) as (C1 & _ & C3 & _); [by eapply list_elem_of_lookup_2|].
  assert (making c = Some id ∧ recorded c = None ∧ removing c = None ∧ carries c = Some (p, id) ∧ uses c = Some (t, p)) as (E1 & E2 & E3 & E4 & E5) by (by destruct Hc as [-> | ->]).
  assert (m_store m !! id = None) as Hnone by (by apply C3). split; [done|].
  apply (calm_write m i c (LStamp t p id) id (Some (mkSandbox StateReady img None ""))); try done.
  - by left.
  - intros sb [= <-]. split; [|by left]. by apply C1.
  - intros id' [= <-]. split_and!; [done..|by eexists].
  - intros t' p' H. rewrite E5. exact H.
  - intros q vm sb _ Hsb. congruence.
  - intros q id' H. left. rewrite E4 in H. exact H.
Qed.
Lemma lease_calm c : m_calls m !! i = Some c → calm m (EStep i w) →
  match c with LPool _ | LAcquire _ _ _ | CAcquire _ _ _ | LAdd _ _ _ _ | CAdd _ _ _ _ | LStamp _ _ _ | LReturn _ | CUndo _ _ | Answered _ => True | _ => False end →
  let '(m', c') := act w c m in calm_inv (with_calls m' (<[i := c']> (m_calls m'))).
Proof.
  intros Hi Hcalm Hk. pose proof Hinv as (_ & I2 & _ & _ & Hok & _).
  destruct (Hok c) as (_ & C2 & _ & C4 & _ & _ & C7); [by eapply list_elem_of_lookup_2|].
  assert (∀ t img p, c = LAcquire t img p ∨ c = CAcquire t img p → calm_inv (with_calls m (<[i := c]> (m_calls m)))) as Hstay.
  { intros t img p Hc. by rewrite list_insert_id by done; destruct m. }
  destruct c as [| | | | | | | | | | | |t|t img p|t img p id|t p id|id| | | | | |t img p|t img p id|p id|r]; try done; cbn [act Create handleDeleteSandbox Delete ReleaseLeased LeaseSandbox RecycleLeased].
  - destruct (m_pools m !! t) as [[p img]|] eqn:E; [|by apply (calm_plain m i (LPool t))]. apply (calm_goto m i (LPool t)); try done; [by right|].
    intros t' p' [= <- <-]. split; [by apply C7|by eexists].
  - destruct (w_ok w); [|by apply (calm_plain m i (LAcquire t img p))]. destruct (acquire m p (w_id w)) as [m'|] eqn:Ha; [|by eapply Hstay; left].
    eapply acquire_calm; [done|done|by left|done].
  - destruct (add_calm _ t img p id Hi (or_introl eq_refl)) as [-> H]. exact H.
  - destruct (C2 id eq_refl) as (sb & Hsb & Hrr & Hp). destruct (C4 t p eq_refl) as [Ht [img Hpool]]. unfold Update. rewrite Hsb.
    apply (calm_write m i (LStamp t p id) (LReturn id) id (Some (mkSandbox (sb_State sb) (sb_Image sb) (sb_runResult sb) t))); try done; [by left| | |].
    + intros sb' [= <-]. split; [apply I2; by eexists|by left].
    + intros q vm' sb' _ Hsb' Hne. congruence.
    + intros q id' [= <- <-]. right. split; [done|]. by eexists _, img.
  - by apply (calm_plain m i (LReturn id)).
  - destruct (w_ok w); [|by apply (calm_plain m i (CAcquire t img p))]. destruct (acquire m p (w_id w)) as [m'|] eqn:Ha; [|by eapply Hstay; right].
    eapply acquire_calm; [done|done|by right|done].
  - destruct (add_calm _ t img p id Hi (or_intror eq_refl)) as [-> H]. exact H.
  - by apply (calm_release m i (CUndo p id) (Answered (Err IDTaken)) p id).
  - by apply (calm_plain m i (Answered r)).
Qed.
Lemma unmade c id : m_calls m !! i = Some c → removing c = Some id → ∀ c', c' ∈ m_calls m → making c' ≠ Some id.
Proof. intros Hi Hr. destruct Hinv as (_ & _ & _ & _ & Hok & _). destruct (Hok c) as (_ & _ & _ & _ & C5 & _); [by eapply list_elem_of_lookup_2|]. by apply C5. Qed.
(** What a call learns from the record of the sandbox it removes. *)
Lemma look_calm c id : m_calls m !! i = Some c → removing c = Some id →
  (∀ sb, m_store m !! id = Some sb → sb_poolTemplateID sb ≠ "" → belief_ok m id (BTemplate (sb_poolTemplateID sb)) ∧ sb_runResult sb = None) ∧
  ((∀ sb, m_store m !! id = Some sb → sb_poolTemplateID sb = "") → belief_ok m id BNone).
Proof.
  intros Hi Hr. pose proof (unmade c id Hi Hr) as Hun. pose proof Hinv as (_ & _ & _ & I4 & _). split.
  - intros sb Hsb Hp. split; [|by eapply I4]. intros p vm Hl. destruct (lease_cases m id p vm Hinv Hun Hl) as [(sb' & img & H1 & H2 & H3)|?]; [|by right].
    left. rewrite Hsb in H1. injection H1 as <-. by eexists.
  - intros Hcold p vm Hl. destruct (lease_cases m id p vm Hinv Hun Hl) as [(sb' & img & H1 & H2 & H3)|?]; [|by right]. by destruct (H2 (Hcold _ H1)).
Qed.
Lemma pool_calm c id t : m_calls m !! i = Some c → removing c = Some id → belief_ok m id (BTemplate t) →
  (m_pools m !! t = None → belief_ok m id BNone) ∧ (∀ p img, m_pools m !! t = Some (p, img) → belief_ok m id (BPool p)).
Proof.
  intros Hi Hr Hb. split.
  - intros E p vm Hl. destruct (Hb p vm Hl) as [[img H]|?]; [congruence|by right].
  - intros p img E q vm Hl. destruct (Hb q vm Hl) as [[img' H]|?]; [left; congruence|by right].
Qed.
Lemma delete_calm c : m_calls m !! i = Some c →
  match c with HRoute _ | XUpdate _ | XRemove _ _ | RGet _ | RPool _ _ | RRelease _ _ | RRemove _ _ => True | _ => False end →
  let '(m', c') := act w c m in calm_inv (with_calls m' (<[i := c']> (m_calls m'))).
Proof.
  intros Hi Hk. pose proof Hinv as (_ & I2 & _ & _ & Hok & _). destruct (Hok c) as (_ & _ & _ & _ & C5 & C6 & _); [by eapply list_elem_of_lookup_2|].
  destruct c as [| | | | |id|id|id rr|id|id t|id p|id ok| | | | | | | | | | | | | |]; try done; cbn [act Create handleDeleteSandbox Delete ReleaseLeased LeaseSandbox RecycleLeased].
  - destruct (look_calm _ id Hi eq_refl) as [_ Hcold]. unfold Get.
    assert ((∀ sb, m_store m !! id = Some sb → sb_poolTemplateID sb = "") → calm_inv (with_calls m (<[i := XUpdate id]> (m_calls m)))) as Hx.
    { intros Hc. apply (calm_goto m i (HRoute id)); try done; [by right|]. intros id' [= <-]. split_and!; [done|by apply Hcold|done]. }
    destruct (m_store m !! id) as [sb|] eqn:E; cbn; [|by apply Hx]. case_bool_decide; [apply Hx; by intros ? [= <-]|].
    apply (calm_goto m i (HRoute id)); try done; [by right|]. intros id' [= <-]. split_and!; [done|by intros p vm _; left|done].
  - destruct (m_store m !! id) as [sb|] eqn:E; [|by apply (calm_plain m i (XUpdate id))].
    apply (calm_write m i (XUpdate id) (XRemove id (sb_runResult sb)) id (Some (with_state sb StateStopping None))); try done; [by right| | |].
    + intros sb' [= <-]. split; [apply I2; by eexists|by left].
    + intros id' [= <-]. split_and!; [done|done|by apply C5|by intros sb' [= <-]].
    + intros p vm sb' _ Hsb' _ _. right. right. eexists. split; [done|]. cbn. congruence.
  - exact (calm_remove m i (XRemove id rr) (Answered (Ok None)) id Hinv Hi eq_refl eq_refl eq_refl (or_introl (conj eq_refl (conj eq_refl eq_refl))) eq_refl eq_refl ltac:(done) eq_refl).
  - destruct (look_calm _ id Hi eq_refl) as [Hpooled _]. unfold Get. destruct (m_store m !! id) as [sb|] eqn:E; cbn; [|by apply (calm_plain m i (RGet id))].
    case_bool_decide; [by apply (calm_plain m i (RGet id))|]. destruct (Hpooled sb eq_refl) as [Hb Hrr]; [done|].
    apply (calm_goto m i (RGet id)); try done; [by right|]. intros id' [= <-]. split_and!; [done|done|]. intros _ sb' E'. rewrite E in E'. by injection E' as <-.
  - destruct (pool_calm _ id t Hi eq_refl (proj1 (C5 id eq_refl))) as [Hnone Hsome]. destruct (m_pools m !! t) as [[p img]|]; apply (calm_goto m i (RPool id t)); try done; [by right| |by right|].
    + intros id' [= <-]. split_and!; [done|by eapply Hsome|]. intros _ sb. by apply C6.
    + intros id' [= <-]. split_and!; [done|by apply Hnone|]. intros _ sb. by apply C6.
  - pose proof (fun ok => calm_release m i (RRelease id p) (RRemove id ok) p id Hinv Hi ltac:(done) eq_refl eq_refl ltac:(done) eq_refl ltac:(by intros ? [= <-])) as H.
    destruct (release m p id) as [m' ok]. apply H.
  - exact (calm_remove m i (RRemove id ok) (Answered (if ok then Ok None else Err PoolError)) id Hinv Hi eq_refl eq_refl eq_refl (or_introl (conj eq_refl (conj eq_refl eq_refl))) eq_refl eq_refl ltac:(done) eq_refl).
Qed.
Lemma recycle_calm c : m_calls m !! i = Some c →
  match c with CGet _ | CPool _ _ | CDrop _ | CRemove _ _ _ _ | CRelease _ _ _ _ => True | _ => False end →
  let '(m', c') := act w c m in calm_inv (with_calls m' (<[i := c']> (m_calls m'))).
Proof.
  intros Hi Hk. pose proof Hinv as (_ & I2 & _ & _ & Hok & _). destruct (Hok c) as (_ & _ & _ & _ & C5 & C6 & C7); [by eapply list_elem_of_lookup_2|].
  destruct c as [| | | | | | | | | | | | | | | | |id|id t|id|id t img p|id t img p| | | |]; try done; cbn [act Create handleDeleteSandbox Delete ReleaseLeased LeaseSandbox RecycleLeased].
  - destruct (look_calm _ id Hi eq_refl) as [Hpooled _]. unfold Get. destruct (m_store m !! id) as [sb|] eqn:E; cbn; [|by apply (calm_plain m i (CGet id))].
    case_bool_decide; [by apply (calm_plain m i (CGet id))|]. destruct (Hpooled sb eq_refl) as [Hb Hrr]; [done|].
    apply (calm_goto m i (CGet id)); try done; [by right| |by intros ? [= <-]]. intros id' [= <-]. split_and!; [done|done|]. intros _ sb' E'. rewrite E in E'. by injection E' as <-.
  - destruct (pool_calm _ id t Hi eq_refl (proj1 (C5 id eq_refl))) as [Hnone Hsome]. destruct (m_pools m !! t) as [[p img]|] eqn:E; apply (calm_goto m i (CPool id t)); try done; [by right| | |by right|].
    + intros id' [= <-]. split_and!; [done|by eapply Hsome|]. intros _ sb. by apply C6.
    + intros t' p' [= <- <-]. split; [by apply C7|by eexists].
    + intros id' [= <-]. split_and!; [done|by apply Hnone|]. intros _ sb. by apply C6.
  - exact (calm_remove m i (CDrop id) (Answered (Err PoolNotFound)) id Hinv Hi eq_refl eq_refl eq_refl (or_introl (conj eq_refl (conj eq_refl eq_refl))) eq_refl eq_refl ltac:(done) eq_refl).
  - destruct (m_store m !! id) as [sb|] eqn:E; [|by apply (calm_plain m i (CRemove id t img p))].
    pose proof (calm_remove m i (CRemove id t img p) (CRelease id t img p) id Hinv Hi eq_refl eq_refl eq_refl) as H. rewrite E in H. cbn [mbind option_bind] in H.
    apply H; try done. right. by exists p.
  - apply (calm_release m i (CRelease id t img p)); try done. by intros q id' [= <- <-].
Qed.
Lemma act_calm c : m_calls m !! i = Some c → calm m (EStep i w) → let '(m', c') := act w c m in calm_inv (with_calls m' (<[i := c']> (m_calls m'))).
Proof.
  intros Hi Hcalm. destruct c; first [by apply create_calm|by apply lease_calm|by apply delete_calm|by apply recycle_calm].
Qed.
End acts.

(** A request comes in. *)
Lemma calm_begin m c :
  calm_inv m → making c = None → recorded c = None → uses c = None → carries c = None → believes c = BAny → bare c = false →
  (∀ id, removing c = Some id → ∀ c', c' ∈ m_calls m → making c' ≠ Some id) → (∀ t, named c = Some t → t ≠ "") →
  calm_inv (begin_call m c).
Proof.
  intros (I1 & I2 & I3 & I4 & Hok & Hd & I7) E1 E2 E3 E4 E5 E6 Hun Hnm.
  assert (∀ x, x ∈ m_calls m ++ [c] → x ∈ m_calls m ∨ x = c) as Hin by (intros x; by rewrite elem_of_app, list_elem_of_singleton).
  assert (∀ p id, releasing m p id → releasing (begin_call m c) p id) as Hrel.
  { intros p id (x & Hx & ? & ?). exists x. split; [|done]. apply elem_of_app. by left. }
  assert (∀ id, (∀ c', c' ∈ m_calls m → making c' ≠ Some id) → ∀ c', c' ∈ m_calls m ++ [c] → making c' ≠ Some id) as Hmk.
  { intros id H c' [Hc'| ->]%Hin; [by apply H|congruence]. }
  split_and!; cbn; try done.
  - intros x [Hx| ->]%Hin.
    + destruct (Hok x Hx) as (C1 & C2 & C3 & C4 & C5 & C6 & C7). split_and!; try done. intros id Hr. destruct (C5 id Hr) as [Hb Hu]. split; [|by apply Hmk].
      intros p vm Hl. destruct (Hb p vm Hl) as [?|?]; [by left|right; by apply Hrel].
    + split_and!; cbn; try congruence; [|done]. intros id Hr. split; [rewrite E5; by intros p vm _; left|]. by apply Hmk, Hun.
  - intros i j x y id Hi Hj Hx Hy.
    assert (∀ k z, (m_calls m ++ [c]) !! k = Some z → making z = Some id → m_calls m !! k = Some z) as Hold.
    { intros k z Hk Hz. apply lookup_app_Some in Hk as [?|[_ Hk]]; [done|]. apply list_lookup_singleton_Some in Hk as [_ <-]. congruence. }
    by eapply Hd; [apply Hold|apply Hold|..].
  - intros p id vm Hl. destruct (I7 p id vm Hl) as [?|(x & Hx & ?)]; [by left|]. right. exists x. split; [|done]. apply elem_of_app. by left.
Qed.
(** The registered pools change; the ones that have leases or are in use stay. *)
Definition with_pools (m : Manager) (pools : gmap string (nat * string)) (n : nat) : Manager :=
  mkManager (m_store m) pools (m_leases m) (m_calls m) (m_stopped m) (m_closed m) (m_lost m) (m_vms m) n (m_ids m).
Lemma calm_pools m pools n :
  calm_inv m →
  (∀ t p image, m_pools m !! t = Some (p, image) → (∃ id vm, m_leases m !! (p, id) = Some vm) ∨ (∃ c t', c ∈ m_calls m ∧ uses c = Some (t', p)) → pools !! t = Some (p, image)) →
  calm_inv (with_pools m pools n).
Proof.
  intros (I1 & I2 & I3 & I4 & Hok & Hd & I7) Hp. split_and!; try done.
  - intros x Hx. destruct (Hok x Hx) as (C1 & C2 & C3 & C4 & C5 & C6 & C7). split_and!; try done.
    + intros t p Hu. destruct (C4 t p Hu) as [? [image Ht]]. split; [done|]. exists image. apply Hp; [done|]. right. by exists x, t.
    + intros id Hr. destruct (C5 id Hr) as [Hb Hu]. split; [|done]. intros p vm Hl. cbn in Hl. destruct (Hb p vm Hl) as [H|?]; [left|by right].
      destruct (believes x); try done. destruct H as [image Ht]. exists image. apply Hp; [done|]. left. by exists id, vm.
  - intros p id vm Hl. cbn in Hl. destruct (I7 p id vm Hl) as [(sb & image & H1 & H2 & H3)|?]; [left|by right]. exists sb, image. split_and!; [done..|]. apply Hp; [done|]. left. by exists id, vm.
Qed.
Lemma event_calm ev m : calm_inv m → calm m ev → calm_inv (do_event ev m).
Proof.
  intros Hinv Hcalm. destruct ev as [stat req|id|tmpl|id|tmpl image|tmpl|i w]; cbn [do_event]; unfold RegisterPool, UnregisterPool.
  - destruct (validateCreateRequest stat req); by apply calm_begin.
  - apply calm_begin; try done. by intros ? [= <-].
  - case_bool_decide; apply calm_begin; try done. by intros ? [= <-].
  - apply calm_begin; try done. by intros ? [= <-].
  - destruct (_ || _) eqn:E; [done|]. apply orb_false_iff in E as [_ E]. apply bool_decide_eq_false in E.
    apply (calm_pools m (<[tmpl := (m_npools m, image)]> (m_pools m)) (S (m_npools m))); [done|]. intros t p img Ht _. apply lookup_insert_Some. right. split; [|done].
    intros ->. destruct E. by eexists.
  - apply (calm_pools m (delete tmpl (m_pools m)) (m_npools m)); [done|]. intros t p img Ht Hused. apply lookup_delete_Some. split; [|done]. intros ->.
    destruct (Hcalm p img Ht) as [Hl Hu]. destruct Hused as [(id & vm & E)|(c & t' & Hc & E)]; [by rewrite Hl in E|by destruct (Hu c t' Hc)].
  - destruct (m_calls m !! i) as [c|] eqn:Hi; [|done]. pose proof (act_calm m i w Hinv c Hi Hcalm) as H. by destruct (act w c m).
Qed.
Lemma run_calm evs m : calm_inv m → calm_run evs m → calm_inv (run evs m).
Proof. revert m. induction evs as [|ev evs IH]; intros m Hinv Hcalm; [done|]. destruct Hcalm as [H1 H2]. apply (IH (do_event ev m)); [|done]. by apply event_calm. Qed.
Lemma start_calm : calm_inv start.
Proof.
  split_and!; cbn; try done.
  - intros id [? H]. by rewrite lookup_empty in H.
  - intros p id [? H]. by rewrite lookup_empty in H.
  - intros c Hc. by apply elem_of_nil in Hc.
Qed.

(** [calm] as a test. *)
Definition calmb (m : Manager) (ev : event) : bool :=
  match ev with
  | EDelete id | ERecycle id => forallb (fun c => negb (bool_decide (making c = Some id))) (m_calls m)
  | EUnregister t =>
      match m_pools m !! t with
      | None => true
      | Some (p, _) =>
          forallb (fun e : nat * string * nat => negb (bool_decide (e.1.1 = p))) (map_to_list (m_leases m)) &&
          forallb (fun c => match uses c with Some (_, q) => negb (bool_decide (q = p)) | None => true end) (m_calls m)
      end
  | EStep i w =>
      match m_calls m !! i with
      | Some (MAdd _) | Some (LAcquire _ _ _) | Some (CAcquire _ _ _) =>
          bool_decide (w_id w ∉ m_ids m) && forallb (fun c => negb (bool_decide (removing c = Some (w_id w)))) (m_calls m)
      | _ => true
      end
  | _ => true
  end.
Fixpoint calm_runb (evs : list event) (m : Manager) : bool := match evs with [] => true | ev :: evs => calmb m ev && calm_runb evs (do_event ev m) end.
Lemma forallb_without {B : Type} `{EqDecision B} (f : call → option B) (b : B) (cs : list call) :
  forallb (fun c => negb (bool_decide (f c = Some b))) cs = true → ∀ c, c ∈ cs → f c ≠ Some b.
Proof. rewrite forallb_forall. intros H c Hc. apply list_elem_of_In, H, negb_true_iff, bool_decide_eq_false in Hc. done. Qed.
Lemma calmb_calm m ev : calmb m ev = true → calm m ev.
Proof.
  destruct ev as [stat req|id|tmpl|id|tmpl image|tmpl|i w]; cbn; try done; [by apply forallb_without..| |].
  - intros H p image E. rewrite E in H. apply andb_true_iff in H as [H1 H2]. rewrite forallb_forall in H1, H2. split.
    + intros id. destruct (m_leases m !! (p, id)) as [vm|] eqn:El; [|done]. apply elem_of_map_to_list, list_elem_of_In, H1 in El. cbn in El. by rewrite bool_decide_true in El.
    + intros c t' Hc Hu. apply list_elem_of_In, H2 in Hc. rewrite Hu in Hc. by rewrite bool_decide_true in Hc.
  - intros H c E Hk. rewrite E in H. destruct c; try done; apply andb_true_iff in H as [H1 H2]; (split; [by apply bool_decide_eq_true in H1|by apply forallb_without]).
Qed.
Lemma calm_runb_calm evs m : calm_runb evs m = true → calm_run evs m.
Proof. revert m. induction evs as [|ev evs IH]; intros m H; [done|]. apply andb_true_iff in H as [H1 H2]. split; [by apply calmb_calm|by apply IH]. Qed.

(** C16: requests run at the same time, but none is sent for a sandbox that is still being made, the ids that
    are given out are new, and a pool stays registered while it has leases.  Then no machine is ever dropped,
    and when every request has been answered each machine is in the record of a sandbox, or is leased from a
    registered pool to a sandbox whose record names that pool — so that a DELETE can give it back — or has
    been handed to the goroutine that closes it. *)
Theorem sandbox_no_leak (evs : list event) :
  let m := run evs start in
  calm_run evs start →
  m_lost m = [] ∧
  ((∀ c, c ∈ m_calls m → ∃ r, c = Answered r) →
   (∀ p id vm, m_leases m !! (p, id) = Some vm → stored_lease m p id) ∧
   (∀ vm, (vm < m_vms m)%nat → vm ∈ store_vms (m_store m) ∨ vm ∈ lease_vms (m_leases m) ∨ vm ∈ m_closed m)).
Proof.
  intros m Hcalm. pose proof (run_calm evs start start_calm Hcalm) as (Hlost & _ & _ & _ & _ & _ & Hheld). fold m in Hlost, Hheld. split; [done|]. intros Hall. split.
  - intros p id vm Hl. destruct (Hheld p id vm Hl) as [?|(c & Hc & E)]; [done|]. by destruct (Hall c Hc) as [r ->].
  - intros vm Hvm. pose proof (run_accounted evs start start_accounted) as Ha. fold m in Ha. unfold accounted, places in Ha.
    assert (omap call_vm (m_calls m) = []) as Hc.
    { clear -Hall. induction (m_calls m) as [|c cs IH]; [done|]. destruct (Hall c) as [r ->]; [apply elem_of_cons; by left|]. cbn. apply IH. intros x Hx. apply Hall, elem_of_cons. by right. }
    rewrite Hlost, Hc, app_nil_r in Ha. cbn in Ha. assert (vm ∈ seq 0 (m_vms m)) as Hin by (apply elem_of_seq; lia). rewrite <- Ha, !elem_of_app in Hin. tauto.
Qed.

(** Two machines, one booted and one leased and recycled, both deleted. *)
Definition wok (id : string) : world := mkWorld id true false.
Definition steps (i n : nat) (id : string) : list event := repeat (EStep i (wok id)) n.
Definition any_file (p : string) : option bool := Some false.
Definition session : list event :=
  [ERegister "t" "img"; ECreate any_file (mkCreate "alpine" "" "" "vmlinux" "" ""); ELease "t"] ++
  steps 0 2 "sb-1" ++ steps 1 3 "gc-1" ++ steps 0 2 "" ++ steps 1 2 "" ++
  [ERecycle "gc-1"] ++ steps 2 7 "gc-2" ++ [EDelete "sb-1"] ++ steps 3 3 "" ++ steps 2 1 "".
Definition answered (c : call) : bool := match c with Answered _ => true | _ => false end.
Lemma all_answered (cs : list call) : forallb answered cs = true → ∀ c, c ∈ cs → ∃ r, c = Answered r.
Proof. rewrite forallb_forall. intros H c Hc%list_elem_of_In. specialize (H c Hc). destruct c; try done. by eexists. Qed.
Lemma session_leases : m_leases (run session start) !! (0%nat, "gc-2") = Some 2%nat.
Proof. by vm_compute. Qed.
Lemma session_answered c : c ∈ m_calls (run session start) → ∃ r, c = Answered r.
Proof. apply all_answered. by vm_compute. Qed.
Lemma session_calm : calm_run session start.
Proof. apply calm_runb_calm. by vm_compute. Qed.
Lemma session_closed : m_closed (run session start) = [1; 0]%nat.
Proof. by vm_compute. Qed.
Lemma sandbox_no_leak_witness :
  let m := run session start in
  calm_run session start ∧ m_lost m = [] ∧ m_closed m = [1; 0]%nat ∧ stored_lease m 0 "gc-2".
Proof.
  exact (conj session_calm (conj (proj1 (sandbox_no_leak session session_calm)) (conj session_closed
    (proj1 (proj2 (sandbox_no_leak session session_calm) session_answered) _ _ _ session_leases)))).
Defined.

(** *** What happens outside these conditions *)

(** A DELETE while the sandbox boots: the machine that [Create] gets afterwards is dropped, and [Create] answers with no error. *)
Definition delete_while_booting : list event :=
  [ECreate any_file (mkCreate "alpine" "" "" "vmlinux" "" "")] ++ steps 0 1 "sb-1" ++ [EDelete "sb-1"] ++ steps 1 3 "" ++ steps 0 3 "".
Lemma delete_while_booting_drops :
  let m := run delete_while_booting start in
  m_lost m = [0%nat] ∧ m_stopped m = [] ∧ m_closed m = [] ∧ m_calls m = [Answered (Ok None); Answered (Ok None)].
Proof. by vm_compute. Qed.
(** A DELETE after the pool was unregistered: the record is gone, the lease is not, and its machine is never closed. *)
Definition delete_after_unregister : list event :=
  [ERegister "t" "img"; ELease "t"] ++ steps 0 5 "gc-1" ++ [EUnregister "t"; EDelete "gc-1"] ++ steps 1 4 "".
Lemma delete_after_unregister_orphans :
  let m := run delete_after_unregister start in
  lease_vms (m_leases m) = [0%nat] ∧ m_closed m = [] ∧ m_store m = ∅ ∧ m_calls m !! 1%nat = Some (Answered (Ok None)).
Proof. by vm_compute. Qed.
(** A DELETE between the two writes of [LeaseSandbox] takes the path of a booted sandbox, and the lease stays. *)
Definition delete_while_leasing : list event :=
  [ERegister "t" "img"; ELease "t"] ++ steps 0 3 "gc-1" ++ [EDelete "gc-1"] ++ steps 1 3 "" ++ steps 0 2 "".
Lemma delete_while_leasing_orphans :
  let m := run delete_while_leasing start in
  lease_vms (m_leases m) = [0%nat] ∧ m_closed m = [] ∧ m_store m = ∅ ∧ m_calls m = [Answered (Ok None); Answered (Ok None)].
Proof. by vm_compute. Qed.
